(* ===== verification/_CoqProject ===== *)
-Q . S2P
Prelude.v
Sql.v
Effects.v
TurnStore.v
TurnSystem.v
TurnTheory.v
Durability.v
DurabilityTheory.v
Breakers.v
BreakersTheory.v
Recovery.v
RecoveryTheory.v
PyStr.v
PyLib.v
Patch.v
PatchTheory.v
PatchSearch.v
PatchApply.v
PatchParse.v
PatchFs.v
PatchTxn.v
PatchLogic.v
PatchPhases.v
PatchSpec.v
PatchItem.v
PatchPlan.v
PatchRollback.v
PatchLanding.v
PatchAbandon.v
PatchAtomic.v
Guard.v
JsonStore.v
Permissions.v
HostAccess.v
AccessTheory.v
Bulkhead.v
Planning.v
AuditLog.v
AuditTheory.v
Tokens.v
TokensFile.v
TokensTheory.v
AgentReports.v
Agents.v
AgentTree.v
AgentLimits.v
Transcript.v
MediaResult.v
AgentCycle.v
AgentCycleTheory.v
Compress.v
CompressTheory.v
Budget.v
ImageFit.v
AgentLlm.v
AgentLlmTheory.v
AgentRun.v
AgentRunTheory.v
Cron.v
Schedule.v
ScheduleCrud.v
Scheduler.v
ScheduleRuns.v
ScheduleTheory.v
SchedulerTheory.v
SchedulerSafety.v
ScheduleOutcomes.v
ScheduleTicks.v
ScheduleHistory.v
SessionText.v
SessionCompact.v
SessionPrompt.v
Sessions.v
SessionTheory.v
SessionDurable.v
SessionArchive.v
SessionSearch.v
Retention.v
Loops.v
ChannelState.v
