(* ===== verification/Prelude.v ===== *)
(** * Odin: a verification library of the execution agent's control core

    Odin (src/README.md) is an execution agent: chat messages become turns, a turn
    alternates calls of a language model with calls of tools, and tools act on
    files, hosts and external services.  This library models the parts that decide
    what may run, how often, on whose behalf and what survives a crash, as pure
    functions translated from the Python source, and proves what those parts
    promise.  All paths below are relative to src/src/.

    ** Parts and how they interact

    The tool loop (discord/tool_loop.py, not modelled) holds one durability handle
    per turn.  The handle writes through the durable turn store; every tool call it
    wants to run must first be recorded and then granted there.  Each model call
    goes through the recovery loop, which asks the capacity breaker of the model
    for admission.  Tools run behind a bulkhead, as a user whose permission tier
    and effective hosts come from two policy files; the apply_patch tool parses a
    patch into a plan that the host validates again and applies; a risky request
    first becomes an execution plan that waits for approval.  The availability
    guard records which subsystems work.

    A tool may spawn agents.  The manager keeps them in a tree with limits; each has a
    worker, which alternates generations and tool cycles on a transcript of its own,
    takes messages from its parent at fixed points, sends reports up through bounded
    mailboxes and ends in a terminal state.  Before and during a generation the
    transcript is fitted to a context budget: older cycles are summarized, payloads
    elided, images replaced by notes.

    The scheduler starts work on its own: at the times of a cron expression, once, or
    when a webhook event matches.  It keeps its records in one JSON file, reserves a
    record before it starts it, and hands the effect (a reminder, a check, a workflow,
    a digest or an HTTP request) to its callback.

    The sessions hold the conversation of every channel: the messages a request is
    sent with, segments that sum up older ones, files that outlive the process, an
    archive for idle channels, and a ledger of resets that fences what was purged.

    The channel registry knows which request owns a channel: a stop goes to the event of
    that request, a directive of its user to its mailbox, a report of its agents to the
    box beside it.  Autonomous loops ask the model again and again until a limit or a stop
    ends them.  Outputs too long for a transcript are retained for a day and read through
    cursors.

    ** Files

    - [Prelude]: [result] with its notations, runs of a step function and their
      induction principles, automation.  [Sql]: INSERT, UPDATE, DELETE and SELECT
      on a finite map with a primary key.  [PyStr]: Python strings as lists of code
      points (split, strip, UTF-8 length) and the values of the json module.
      [PyLib]: dicts, truth values, sorted keys, and the classes [Codec] (json.dumps
      and json.loads) and [Mac] (HMAC-SHA256).
    - Turns.  [Effects] is tools/effect_classifier.py.  [TurnStore] is
      turn_state/store.py: the tables [turns] and [operations] are the fields of
      [Store], and the method [x_sync] of TurnStateStore is the definition [x].
      [TurnSystem] makes each public method a label of one transition function
      [exec] and proves the order [store_le] along which every one of them moves
      rows; [TurnTheory] holds the invariants of runs and the theorems.
      [Durability] is turn_state/durability.py, one definition per method of
      TurnDurability, and [DurabilityTheory] its theorems.
    - Model calls.  [Breakers] is llm/circuit_breaker.py (Module [Circuit]),
      llm/model_breaker.py (Modules [Capacity] and [Registry]) and llm/backoff.py;
      [BreakersTheory] its theorems.  [Recovery] is llm/recovery.py over [Capacity],
      [RecoveryTheory] its theorems.
    - Patches.  [Patch] is the parser, the host's validation, the search and the
      rewriting of tools/apply_patch.py; [PatchTheory] is the record splitter,
      [PatchSearch] the counting search against enumeration, [PatchApply] the
      rewriting against block replacement, [PatchParse] what the parser and the
      host accept.
    - The transaction of the same file.  [PatchFs] is the file system: inodes,
      entries and the system calls the code makes.  [PatchTxn] is apply_plan and all
      it calls, as programs over a world whose system calls may fail; [PatchSpec] is
      what apply_plan promises, said of the tree before and after.  [PatchLogic] is
      a program logic for these programs and [PatchPhases] to [PatchAbandon] its use,
      phase by phase (semantic phase and parents, staging, one item, all items,
      commit, rollback, cleanup, end, recovery); [PatchAtomic] is the theorem.
    - Access.  [JsonStore] is json_store.py and permissions/persistence.py;
      [Permissions] is permissions/manager.py, [HostAccess] is
      permissions/host_access.py, and [AccessTheory] (Modules [Tiers] and [Hosts])
      their theorems.
    - [AuditLog] is audit/signer.py and the writing side of audit/logger.py over files
      whose every operation may fail; [AuditTheory] its theorems.
    - [Tokens] is permissions/token_manager.py; [TokensFile] is the theory of the rows
      of its file and [TokensTheory] holds the theorems.
    - Agents.  [AgentReports] is agents/reports.py.  [Agents] is the state machine, the
      agent record and the operations of AgentManager in agents/manager.py;
      [AgentTree] and [AgentLimits] are the theory of lineages, of descents and of the
      limits.  [AgentCycle] is agents/tool_cycle.py and
      agents/repetition.py, [AgentCycleTheory] its theorems.  [AgentLlm] is
      _call_llm_with_recovery and its helpers, [AgentRun] is _run_agent and the drains of
      AgentInfo, both in agents/manager.py; [AgentLlmTheory] and [AgentRunTheory] hold
      their theorems.
    - Transcripts.  [Transcript] is llm/tool_history.py and llm/tool_replay.py: the calls
      of a reply, and the check that every call has its result.  [MediaResult] is the
      part of tools/media_result.py that packs images into messages.  [Compress] is
      llm/context_compressor.py and llm/retained_output.py, [CompressTheory] its
      theorems.  [Budget] is llm/context_budget.py and [ImageFit]
      agents/image_retention.py, each with its theorem.
    - Schedules, all of scheduler/scheduler.py.  [Cron] is the next run of a cron
      expression.  [Schedule] is a record of the file and what reading the file gives;
      [ScheduleCrud] the checks and the records of add, update and reset_failures.
      [Scheduler] is the scheduler's state and its operations as steps: the sections
      under the lock, the executions with their reservations, the writes and restarts.
      [ScheduleRuns] holds concrete surroundings, [ScheduleTheory] the fields each
      change of a record keeps, [SchedulerTheory] and [SchedulerSafety] the invariants
      of runs, [ScheduleTicks] and [ScheduleOutcomes] the theorems on single steps.
      [ScheduleHistory] is scheduler/history.py, the log of the runs.
    - Sessions, all of sessions/manager.py.  [SessionText] is the texts: summaries
      made harmless, long results cut, the token budget, and relevance.py.
      [SessionCompact] is when and how a conversation is compacted, [SessionPrompt] what
      a request is sent with; both end with their theorem.  [Sessions] is the manager and
      its directory as steps: the sections under the locks, the two halves of a
      compaction, the sections of a save, failing writes and restarts.  [SessionTheory],
      [SessionDurable] and [SessionArchive] are the theory of resets, of saves and of
      archives; [SessionSearch] is the search over all of it.
    - [ChannelState] is discord/channel_state.py with the reading of a turn's mailbox in
      discord/tool_loop.py: requests, stops, steering, report endpoints and the clean-up.
      [Loops] is tools/autonomous_loop.py, a worker's sections between two awaits as
      steps.  [Retention] is tools/output_retention.py, a call split where its
      transaction begins.  Each ends with its theorems.
    - [Guard] is health/subsystem_guard.py with its theorems.
      [Bulkhead] (tools/bulkhead.py) and [Planning] (planning/store.py) hold their
      component and its theorem in one file.

    Definitions keep the source's names, without the leading underscore and the
    [_sync] suffix; a dataclass is a record with the fields of the class.

    ** What the theorems show

    - Turns: a tool call is granted at most once in any run, whatever crashes,
      redeliveries and other owners do; a superseded lease never writes again; terminal
      turns are final; evidence of a possibly applied effect is never dropped; every
      reachable row is well formed; suspension and resumption round-trip (lemmas: a
      tampered checkpoint is rejected, a boot settles what a crash left, a live lease can
      always write, intents are recorded all or none); and the handle's
      hooks keep the write invariant: what a response proposes is durable before
      anything runs, or nothing of it can run.
    - Model calls: the half-open probe is exclusive and never leaks, cooldowns are
      the documented function of the failures, the recovery loop terminates, keeps
      its deadline and settles its token on every way out.
    - Patches: splitting into records is lossless; the counting search accepts a
      chain of anchors exactly when it is unique; the rewriting replaces exactly the
      blocks the hunks name; accepted plans satisfy the invariants their executor
      needs, on the parser's side and on the host's; and applying a plan is atomic:
      whatever system calls fail, all of it happens, or nothing, or the failure is
      reported with the originals or the results in place.
    - Access: damaged policy files grant nothing and are never overwritten, what a
      mutation writes is what a restart reads, and effective hosts stay within every
      bound that applies.
    - Audit log: whatever fails, the retained files verify up to their last complete
      line (lemmas: what is reported as persisted is there; two logs that verify and end
      alike hold the same entries unless the MAC collides).
    - API tokens: a successful change of the file is exactly that change, an identity
      that lost its credential stays fenced, and a damaged file lets nobody in.
    - Agents: kills reach every descendant and the limits of a tree hold; reports are
      settled once; a tool cycle settles every accepted call exactly once and dispatches
      nothing after a message or a kill; the repetition guard counts streaks.  A
      generation ends, whatever the provider does; the worker always settles its agent;
      its transcript can be replayed all along; and no message of the parent is lost,
      repeated or reordered: a completed agent has read them all.
    - Transcripts: compression keeps every call with its result, the parent's messages
      and the task, and meets its target or changes nothing; budgets are consistent and
      their rungs fit the believed window; the fewest oldest seen images make way.
    - Schedules: a one-time run whose effects started is not started again before its
      completion is published or an operator gives it a new time, whatever crashes and
      failed writes come between; a schedule runs once at a time and a lane one
      schedule at a time; each free lane starts its earliest due schedule and the loop
      wakes for it; a start that is refused leaves the records as they were; a final
      failure stays stopped; a fixed-time job skips the second copy of a repeated hour.
      Lemmas of [ScheduleHistory]: the last runs of a schedule read the same before and
      after the log is pruned.
    - Sessions: what a reset that returned removed never comes back, whatever saves,
      compactions and restarts are under way; an unchanged session survives a restart; a
      pruned one comes back from its archive, and the archive's caps spare the restore
      points; a search keeps to its scope and to the resets and ends; a compaction loses
      nothing but turns old messages into one segment; the newest messages are always
      sent.  Lemmas of [SessionText]: a summary asks for nothing, the budget is kept.
    - Channels: a stop sets the event its turn was given and no other, which stays set until
      that turn lets go, and is confirmed by nothing but its settlement; a directive that
      was admitted is read or closed exactly once and in order.  Lemmas: a held lock stays
      the channel's through a clean-up, the messages seen are bounded.
    - Loops: after a stop no iteration begins, and every worker ends within its limits.
    - Retained output: the quotas hold along any run, only what a call asked for is
      stored, scrubbed, and what is held under an open hold is neither evicted nor changed
      before it expires.
    - Bulkheads, plans: slots are conserved under any interleaving, and a plan executes
      at most once.  Lemmas of [Guard]: explicit degradation is sticky, counted
      health is a function of the failures.

    Lemmas and examples that show an unintended behaviour say so: a redelivery ignores the
    persisted effect class, the parser accepts plans that the host refuses, a counted
    failure revives an unavailable subsystem, a half-done rotation is reported as a
    missing file, the removal of an unusable token row can undo a revocation, a task
    that opens like a legacy tool result is summarized away, a one-time schedule that
    fails with an error without text is deleted as if it had succeeded, five ways in
    which a session is lost or comes back when it should not (Module [SessionExample]), the
    archives' disregard of a bound of zero in a search (Module [SearchWitness]), and
    three of the loops (Module [LoopExample]): the stop of all loops leaves one that had
    not started listed as running, a slow loop is sped up for repeating itself, and four
    identical outputs are needed where three are announced.

    ** Conventions and bounds

    Times are integers of milliseconds, of microseconds in the files on schedules and on
    retained output, of
    2^-22 seconds in those on sessions (the spacing of doubles at the present time, so
    that nextafter adds one); the code's floats are read as exact.  A call
    that reads the clock more than once takes [clk], whose [i]-th value is the
    [i]-th reading.  [io = false] is a failing write (a sqlite3.Error, an OSError),
    after which a transaction leaves no trace; both outcomes are quantified over.  Only
    [ttl_sweep] commits with whatever came before the failure, and takes the number of
    its statements that succeed.
    Random tokens, wake-up delays and jitter are arguments.  SHA-256 and the text
    form of JSON enter through the classes [Sha256] and [JsonText] of [TurnStore];
    the only law required is that reading a dump gives the value back.  A method
    that runs under a lock, and a stretch of a coroutine between two awaits, is one
    step; concurrency is a sequence of steps.

    Some loops carry fuel.  The admission loop and the retry loop of the recovery take
    the same fuel, and [recovery_terminates] bounds it by the time left before the
    deadline; the two loops of the patch parser take one more than the number of lines,
    and [parse_patch_sound] proves that they never run out.  The walks over the agents
    take the size of the manager ([ascend_some], [descend_some]); the search for an
    elision one more than the length of the text ([elide_search_total]); the omission of
    images their number ([fit_seen_spec]); and the attempts of a generation [enough]:
    three more than the rungs of the longest ladder and the image messages, since every
    round spends an edge retry, a rung or an image message ([attempts_end]).

    An agent meets its environment at awaits.  [Arrival] is what happens during one: the
    messages sent, a kill, the clock afterwards.  A worker is run against a function that
    gives, for every iteration, the plan, the attempts with their ends, the new
    identifiers, the verdict of the judge and the calls; the theorems quantify over it.
    Their hypotheses: ladders are no longer than the bound, new identifiers are new, and
    images of tools hold no tool blocks.

    The scheduler's steps take what the code reads outside as arguments.  The laws
    assumed of zoneinfo, croniter and datetime are those of the classes [TimeZones],
    [CronTab] and [IsoTime]; [find_end] and [past_repeats] carry the code's own bounds (a
    day of minutes, 64 jumps), at which it raises.  Schedule ids are the first digits of a
    random identifier and are taken to be new; a task that was just created is taken to
    run before a write settles, as the event loop orders them.

    The names of archives are a parameter with the laws of float and str
    ([ArchiveNames]), as are lower-case text, the dates in segment headers and the ids of
    segments in the index.  A glob is its prefix and its suffix.  The backends of a
    search are functions from a count to results; its loop doubles the count, and
    [eligible_ranked_ends] shows that one more round than a backend has results is
    enough.

    Mailboxes, events and waiters of the channels are objects on heaps, since a turn keeps
    its own when the maps move on; [Log] records what turns were promised and is no part
    of the program.  A resumed turn brings an event made before.  The answers a loop gets,
    its failures and the fate of its messages are labels.  Retained output uses [OutputText]
    for scrubbing, digests and dates; identifiers are new, an insertion that would repeat
    one fails.

    ** What is not modelled

    The Discord and web front ends, the language-model clients, the computer-use
    drivers, process and SSH handling and the tool handlers are input and output
    over third-party libraries.  Search, statistics and text scrubbing of the audit log are left
    out, and so is the log of the tokens.  The codec of turn snapshots (turn_state/codec.py)
    walks live Discord objects; its result is an argument here.  Other
    processes writing to the tree under apply_patch are not part of its model, file
    names are case-sensitive there, and a failing write leaves no partial data; the
    128 tries for a private name are the code's.  Of the agents the trajectory, the usage
    and window evidence, the transport telemetry, wait_for_agents and the result pages
    are left out; an agent stopped before its task first runs is settled by its worker
    here, by _agent_task_done in the code, in the same state; and a compressor that raises
    while a request is fitted forgets the images it had omitted.  Of the recovery,
    exceptions outside Exception other than a cancellation are left out; of the scheduler the HTTP request and its URL policy, the event
    that only shortens a sleep,
    retry counters that are not integers and records without an id string; of the
    channels the texts of recent actions, receipts to senders and the buffers of the
    Discord client; of the loops the text of list_loops; of the
    sessions the tasks that reflect on or index a session, traces, metrics and the prompt
    cache.  Why a text
    counts as a failure, scrubbing, delivery and hashing are
    parameters ([Rendering], [ToolText], [AgentText], [LoopText]), as are repr, str and the case of a
    text ([PyText]).  Logging,
    metrics text, file modes and SQLite pragmas have no counterpart.

    ** Plan

    Next come wait_for_agents, the tool loop as a client of the hooks of [Durability],
    and the store of the computer sessions. *)

From stdpp Require Export base gmap strings list sorting relations.
From Stdlib Require Export ZArith Lia Ascii.

Declare Scope odin_scope.
Delimit Scope odin_scope with odin.
#[global] Open Scope Z_scope.

(** ** Outcomes of fallible code

    A Python function that may raise is a function into [result E A]: [Err e]
    is the exception, [Ok a] the returned value.  State that the code leaves
    untouched when it raises is left untouched because [Err] carries none. *)

Inductive result (E A : Type) : Type :=
| Ok (a : A)
| Err (e : E).
Arguments Ok {E A} _.
Arguments Err {E A} _.

Definition result_bind {E A B : Type} (m : result E A) (k : A → result E B) : result E B :=
  match m with
  | Ok a => k a
  | Err e => Err e
  end.

Notation "'let!' x := m 'in' k" := (result_bind m (λ x, k))
  (at level 10, x pattern, m at level 100, k at level 200) : odin_scope.

Notation "'guard!' b 'else' e 'in' k" := (if b then k else Err e)
  (at level 10, b at level 100, e at level 100, k at level 200) : odin_scope.

Definition is_ok {E A : Type} (m : result E A) : bool :=
  match m with Ok _ => true | Err _ => false end.

#[export] Instance result_eq_dec {E A : Type} `{EqDecision E, EqDecision A} :
  EqDecision (result E A).
Proof. solve_decision. Defined.

(** ** Automation *)

Create HintDb odin discriminated.
#[export] Hint Constants Opaque : odin.

(** Case analysis on every test of the goal and the hypotheses, with the
    boolean comparisons turned into propositions. *)
Ltac bool_prop :=
  repeat match goal with
  | H : _ && _ = true |- _ => apply andb_true_iff in H; destruct H
  | H : _ || _ = false |- _ => apply orb_false_iff in H; destruct H
  | H : negb _ = true |- _ => apply negb_true_iff in H
  | H : negb _ = false |- _ => apply negb_false_iff in H
  | H : bool_decide _ = true |- _ => apply bool_decide_eq_true in H
  | H : bool_decide _ = false |- _ => apply bool_decide_eq_false in H
  | H : (_ <? _)%Z = true |- _ => apply Z.ltb_lt in H
  | H : (_ <? _)%Z = false |- _ => apply Z.ltb_ge in H
  | H : (_ <=? _)%Z = true |- _ => apply Z.leb_le in H
  | H : (_ <=? _)%Z = false |- _ => apply Z.leb_gt in H
  | H : (_ =? _)%Z = true |- _ => apply Z.eqb_eq in H
  | H : (_ =? _)%Z = false |- _ => apply Z.eqb_neq in H
  end.

(** Invert an equation between outcomes produced by guards and binds. *)
Ltac inv_result :=
  repeat match goal with
  | H : Ok _ = Ok _ |- _ => injection H as H; subst
  | H : Err _ = Err _ |- _ => injection H as H; subst
  | H : Ok _ = Err _ |- _ => discriminate H
  | H : Err _ = Ok _ |- _ => discriminate H
  | H : result_bind ?m _ = Ok _ |- _ =>
      destruct m eqn:?; simpl in H; [|discriminate H]
  | H : (if ?b then _ else _) = Ok _ |- _ => destruct b eqn:?; try discriminate H
  | H : match ?o with Some _ => _ | None => _ end = Ok _ |- _ =>
      destruct o eqn:?; try discriminate H
  end; simplify_eq.

(** ** Transition systems

    A component with state is an executable step function on labels; a run is
    the left fold of its steps.  [run_invariant] is the rule-induction
    principle every reachability theorem of the library uses. *)

Section run.
Context {S L : Type} (step : S → L → S).

Definition run (s : S) (ls : list L) : S := foldl step s ls.

Lemma run_app s ls1 ls2 : run s (ls1 ++ ls2) = run (run s ls1) ls2.
Proof. apply foldl_app. Qed.

Lemma run_invariant (I : S → Prop) s ls :
  I s → (∀ s l, I s → I (step s l)) → I (run s ls).
Proof. intros Hs Hstep. revert s Hs. induction ls; simpl; auto. Qed.

(** The same with a side condition on the labels of the run. *)
Lemma run_invariant_on (P : L → Prop) (I : S → Prop) s ls :
  I s → Forall P ls → (∀ s l, P l → I s → I (step s l)) → I (run s ls).
Proof.
  intros Hs HP Hstep. revert s Hs.
  induction HP as [|l ls Hl HP IH]; simpl; auto.
Qed.

(** A reflexive and transitive relation kept by every step relates the two
    ends of every run that starts in the invariant. *)
Lemma run_relation (I : S → Prop) (R : S → S → Prop) s ls :
  (∀ s, R s s) → (∀ a b c, R a b → R b c → R a c) →
  I s → (∀ s l, I s → I (step s l) ∧ R s (step s l)) → R s (run s ls).
Proof.
  intros Hrefl Htrans Hs Hstep. revert s Hs.
  induction ls as [|l ls IH]; simpl; intros s Hs; [auto|].
  destruct (Hstep s l Hs). eauto.
Qed.
End run.

(** ** Generic lemmas *)

Lemma fst_if {A B : Type} (b : bool) (x y : A * B) :
  fst (if b then x else y) = if b then fst x else fst y.
Proof. by destruct b. Qed.

Lemma bool_decide_refl {A : Type} `{EqDecision A} (x : A) : bool_decide (x = x) = true.
Proof. by apply bool_decide_eq_true. Qed.

Lemma existsb_false {A : Type} (f : A → bool) (l : list A) x :
  existsb f l = false → x ∈ l → f x = false.
Proof.
  intros Hl Hx. apply not_true_iff_false. intros Hf. apply not_true_iff_false in Hl.
  apply Hl, existsb_exists. exists x. split; [by apply list_elem_of_In|done].
Qed.

Lemma forallb_elem {A : Type} (f : A → bool) (l : list A) :
  forallb f l = true ↔ Forall (λ x, f x = true) l.
Proof. rewrite forallb_forall, Forall_forall. by setoid_rewrite list_elem_of_In. Qed.
