(* ===== verification/Sql.v ===== *)
(** * Tables of the SQLite stores

    A table with a primary key is a finite map from the key to the remaining
    columns.  This file gives the statements the stores issue (INSERT, UPDATE
    and DELETE with a WHERE clause, the row count of each) as functions on such
    maps, with the lookup lemmas every client uses.  Comparisons with NULL are
    never true, as in SQL. *)

From S2P Require Import Prelude.

Section table.
Context {K V : Type} `{Countable K}.
Implicit Types (P : K → V → bool) (f : K → V → V) (m : gmap K V).

(** [INSERT]: an existing primary key is an IntegrityError ([None]). *)
Definition sql_insert (k : K) (v : V) m : option (gmap K V) :=
  match m !! k with
  | Some _ => None
  | None => Some (<[k:=v]> m)
  end.

(** [UPDATE .. SET f WHERE P]. *)
Definition sql_update P f m : gmap K V :=
  map_imap (λ k v, Some (if P k v then f k v else v)) m.

(** [DELETE .. WHERE P]. *)
Definition sql_delete P m : gmap K V :=
  map_imap (λ k v, if P k v then None else Some v) m.

(** [SELECT .. WHERE P], in the order of the map. *)
Definition sql_select P m : list (K * V) :=
  filter (λ kv, P kv.1 kv.2 = true) (map_to_list m).

(** [cursor.rowcount] of a statement with this WHERE clause. *)
Definition sql_rowcount P m : nat := length (sql_select P m).

Lemma sql_insert_Some k v m m' :
  sql_insert k v m = Some m' ↔ m !! k = None ∧ m' = <[k:=v]> m.
Proof. unfold sql_insert. destruct (m !! k); naive_solver. Qed.

Lemma lookup_sql_update P f m k :
  sql_update P f m !! k = (λ v, if P k v then f k v else v) <$> m !! k.
Proof. unfold sql_update. rewrite map_lookup_imap. by destruct (m !! k). Qed.

Lemma lookup_sql_delete P m k :
  sql_delete P m !! k = m !! k ≫= (λ v, if P k v then None else Some v).
Proof. unfold sql_delete. by rewrite map_lookup_imap. Qed.

Lemma sql_update_dom P f m : dom (sql_update P f m) = dom m.
Proof.
  apply set_eq. intros k. rewrite !elem_of_dom, lookup_sql_update.
  by rewrite fmap_is_Some.
Qed.

Lemma elem_of_sql_select P m k v :
  (k, v) ∈ sql_select P m ↔ m !! k = Some v ∧ P k v = true.
Proof.
  unfold sql_select. rewrite list_elem_of_filter, elem_of_map_to_list. naive_solver.
Qed.

Lemma sql_rowcount_pos P m :
  (0 < sql_rowcount P m)%nat ↔ ∃ k v, m !! k = Some v ∧ P k v = true.
Proof.
  unfold sql_rowcount. split.
  - destruct (sql_select P m) as [|[k v] l] eqn:E; simpl; [lia|]. intros _.
    exists k, v. apply elem_of_sql_select. rewrite E. left.
  - intros (k & v & Hkv). apply elem_of_sql_select in Hkv.
    destruct (sql_select P m); [by apply not_elem_of_nil in Hkv|simpl; lia].
Qed.

Lemma sql_update_none P f m : sql_rowcount P m = 0%nat → sql_update P f m = m.
Proof.
  intros H0. apply map_eq. intros k. rewrite lookup_sql_update.
  destruct (m !! k) as [v|] eqn:E; simpl; [|done].
  destruct (P k v) eqn:EP; [|done].
  assert (0 < sql_rowcount P m)%nat; [|lia]. apply sql_rowcount_pos. eauto.
Qed.
End table.

#[global] Opaque sql_update sql_delete.
