(* ===== verification/Effects.v ===== *)
(** * Tool effect classes (src/src/tools/effect_classifier.py)

    Whether a tool call can change external state.  The class is code-owned and
    persisted with every ledger row; unknown tools fail closed as
    effect-capable. *)

From S2P Require Import Prelude.
Open Scope string_scope.
Open Scope list_scope.
Open Scope Z_scope.

(** The persisted names of [ToolEffectClass]. *)
Inductive ToolEffectClass : Type :=
| EFFECT_FREE_OBSERVATION
| EXTERNAL_EFFECT_CAPABLE.

#[export] Instance ToolEffectClass_eq_dec : EqDecision ToolEffectClass.
Proof. solve_decision. Defined.

Definition effect_class_name (c : ToolEffectClass) : string :=
  match c with
  | EFFECT_FREE_OBSERVATION => "EFFECT_FREE_OBSERVATION"
  | EXTERNAL_EFFECT_CAPABLE => "EXTERNAL_EFFECT_CAPABLE"
  end.

Definition effect_free_observation_tools : gset string := {[ "wait_for_agents" ]}.

Definition classify_tool_effect (tool_name : string) : ToolEffectClass :=
  if bool_decide (tool_name ∈ effect_free_observation_tools)
  then EFFECT_FREE_OBSERVATION
  else EXTERNAL_EFFECT_CAPABLE.

(** [value] is the raw dictionary entry; an absent key reads as [None]. *)
Definition normalize_effect_class (value : option string) : ToolEffectClass :=
  if bool_decide (value = Some (effect_class_name EFFECT_FREE_OBSERVATION))
  then EFFECT_FREE_OBSERVATION
  else EXTERNAL_EFFECT_CAPABLE.

Lemma normalize_effect_class_name c :
  normalize_effect_class (Some (effect_class_name c)) = c.
Proof. by destruct c. Qed.

Lemma classify_tool_effect_free t :
  classify_tool_effect t = EFFECT_FREE_OBSERVATION ↔ t = "wait_for_agents".
Proof.
  unfold classify_tool_effect, effect_free_observation_tools.
  case_bool_decide; set_solver.
Qed.
