(* ===== verification/TurnStore.v ===== *)
(** * The durable turn store (src/src/turn_state/store.py)

    One row of [turns] per admitted Discord turn, one row of [operations] per
    proposed tool call.  Every state write is conditional on the complete live
    fence of the writer's lease: generation, revision, lease token, ACTIVE
    status and an unexpired lease.

    Conventions.  Timestamps are integers in milliseconds (Python's floats are
    read as exact).  [clk i] is the [i]-th reading of [time.time()] inside one
    call.  [io = false] is a [sqlite3.Error] raised by the statements of the
    call, whose transaction then leaves no trace.  Random tokens are arguments.
    JSON text and SHA-256 enter through the interfaces [JsonText] and [Sha256]. *)

From S2P Require Import Prelude Sql Effects.
Open Scope string_scope.
Open Scope list_scope.
Open Scope Z_scope.

(** ** The standard library's text and digest functions *)

Class JsonText (J : Type) := {
  dumps : J → string;
  loads : string → option J;
  empty_dict : J;
  dumps_invocation : string → J → string;
  loads_dumps j : loads (dumps j) = Some j;
  dumps_empty : dumps empty_dict = "{}"
}.

Class Sha256 := { sha256_hex : string → string }.

(** ** Data *)

Inductive TurnStatus : Type :=
| ACTIVE | SUSPENDED
| TERMINAL_COMPLETED | TERMINAL_CANCELLED | TERMINAL_FAILED
| TERMINAL_REJECTED | TERMINAL_EXPIRED.

#[export] Instance TurnStatus_eq_dec : EqDecision TurnStatus.
Proof. solve_decision. Defined.

(** [TurnStatus.TERMINAL] as a predicate. *)
Definition TERMINAL (s : TurnStatus) : bool :=
  match s with ACTIVE | SUSPENDED => false | _ => true end.

Inductive OpState : Type :=
| PREPARED | RUNNING | APPLIED | DEFINITELY_FAILED | OUTCOME_UNKNOWN
| RECONCILED_APPLIED | RECONCILED_NOT_APPLIED | MANUAL_RESOLUTION_REQUIRED.

#[export] Instance OpState_eq_dec : EqDecision OpState.
Proof. solve_decision. Defined.

(** [OpState.NEVER_EXPIRE] as a predicate. *)
Definition NEVER_EXPIRE (s : OpState) : bool :=
  match s with OUTCOME_UNKNOWN | MANUAL_RESOLUTION_REQUIRED => true | _ => false end.

(** [state IN (PREPARED, RUNNING)]. *)
Definition in_flight (s : OpState) : bool :=
  match s with PREPARED | RUNNING => true | _ => false end.

Record TurnKey : Type := {
  source : string;
  channel_id : string;
  message_id : string
}.

#[export] Instance TurnKey_eq_dec : EqDecision TurnKey.
Proof. solve_decision. Defined.
#[export] Instance TurnKey_countable : Countable TurnKey.
Proof.
  by refine (inj_countable' (λ k, (source k, channel_id k, message_id k))
    (λ '(s, c, m), {| source := s; channel_id := c; message_id := m |}) _); intros [].
Defined.

Record TurnLease : Type := {
  key : TurnKey;
  generation : string;
  token : string;
  revision : Z
}.

#[export] Instance TurnLease_eq_dec : EqDecision TurnLease.
Proof. solve_decision. Defined.

(** The columns written at admission and never again. *)
Record TurnMeta : Type := {
  created_at : Z;
  guild_id : option string;
  user_id : option string;
  content_digest : option string;
  code_version : option string;
  schema_version : Z;
  prompt_policy_hash : option string;
  tool_catalog_hash : option string;
  session_snapshot : string
}.

#[export] Instance TurnMeta_eq_dec : EqDecision TurnMeta.
Proof. solve_decision. Defined.

Record TurnRow : Type := {
  t_generation : string;
  t_revision : Z;
  t_lease_token : option string;
  t_lease_expires_at : option Z;
  t_status : TurnStatus;
  t_recovery_deadline_utc : option Z;
  t_last_progress_at : Z;
  t_suspended_at : option Z;
  t_payload : option string;
  t_payload_digest : option string;
  t_meta : TurnMeta
}.

#[export] Instance TurnRow_eq_dec : EqDecision TurnRow.
Proof. solve_decision. Defined.

Record OpKey : Type := {
  o_turn : TurnKey;
  o_generation : string;
  o_seq : Z;
  o_call : string
}.

#[export] Instance OpKey_eq_dec : EqDecision OpKey.
Proof. solve_decision. Defined.
#[export] Instance OpKey_countable : Countable OpKey.
Proof.
  by refine (inj_countable' (λ k, (o_turn k, o_generation k, o_seq k, o_call k))
    (λ '(t, g, s, c), {| o_turn := t; o_generation := g; o_seq := s; o_call := c |}) _);
    intros [].
Defined.

Record OpRow : Type := {
  o_state : OpState;
  o_tool_name : string;
  o_effect_class : ToolEffectClass;
  o_iteration : option Z;
  o_fingerprint : string;
  o_result : option string;
  o_created_at : Z;
  o_updated_at : Z
}.

#[export] Instance OpRow_eq_dec : EqDecision OpRow.
Proof. solve_decision. Defined.

(** [TurnStateStore]: [conn = false] is the unavailable store. *)
Record Store : Type := {
  conn : bool;
  turns : gmap TurnKey TurnRow;
  operations : gmap OpKey OpRow;
  lease_ttl : Z
}.

Inductive TurnError : Type :=
| TurnStateUnavailableError
| StaleTurnError
| LedgerIntentError
| ValueError.

#[export] Instance TurnError_eq_dec : EqDecision TurnError.
Proof. solve_decision. Defined.

(** One element of [intents]: the dictionary's entries, [None] when absent. *)
Record Intent (J : Type) : Type := {
  it_call_id : option string;
  it_tool_name : option string;
  it_tool_input : J;
  it_effect_class : option string
}.
Arguments it_call_id {J} _.
Arguments it_tool_name {J} _.
Arguments it_tool_input {J} _.
Arguments it_effect_class {J} _.

(** ** Column setters (the SET clauses) *)

Definition set_lease (tok : option string) (exp : option Z) (r : TurnRow) : TurnRow :=
  {| t_generation := t_generation r; t_revision := t_revision r;
     t_lease_token := tok; t_lease_expires_at := exp; t_status := t_status r;
     t_recovery_deadline_utc := t_recovery_deadline_utc r;
     t_last_progress_at := t_last_progress_at r; t_suspended_at := t_suspended_at r;
     t_payload := t_payload r; t_payload_digest := t_payload_digest r;
     t_meta := t_meta r |}.

Definition set_status (s : TurnStatus) (r : TurnRow) : TurnRow :=
  {| t_generation := t_generation r; t_revision := t_revision r;
     t_lease_token := t_lease_token r; t_lease_expires_at := t_lease_expires_at r;
     t_status := s; t_recovery_deadline_utc := t_recovery_deadline_utc r;
     t_last_progress_at := t_last_progress_at r; t_suspended_at := t_suspended_at r;
     t_payload := t_payload r; t_payload_digest := t_payload_digest r;
     t_meta := t_meta r |}.

Definition set_revision (n : Z) (r : TurnRow) : TurnRow :=
  {| t_generation := t_generation r; t_revision := n;
     t_lease_token := t_lease_token r; t_lease_expires_at := t_lease_expires_at r;
     t_status := t_status r; t_recovery_deadline_utc := t_recovery_deadline_utc r;
     t_last_progress_at := t_last_progress_at r; t_suspended_at := t_suspended_at r;
     t_payload := t_payload r; t_payload_digest := t_payload_digest r;
     t_meta := t_meta r |}.

Definition set_payload (p d : option string) (r : TurnRow) : TurnRow :=
  {| t_generation := t_generation r; t_revision := t_revision r;
     t_lease_token := t_lease_token r; t_lease_expires_at := t_lease_expires_at r;
     t_status := t_status r; t_recovery_deadline_utc := t_recovery_deadline_utc r;
     t_last_progress_at := t_last_progress_at r; t_suspended_at := t_suspended_at r;
     t_payload := p; t_payload_digest := d; t_meta := t_meta r |}.

Definition set_suspended_at (t : Z) (r : TurnRow) : TurnRow :=
  {| t_generation := t_generation r; t_revision := t_revision r;
     t_lease_token := t_lease_token r; t_lease_expires_at := t_lease_expires_at r;
     t_status := t_status r; t_recovery_deadline_utc := t_recovery_deadline_utc r;
     t_last_progress_at := t_last_progress_at r; t_suspended_at := Some t;
     t_payload := t_payload r; t_payload_digest := t_payload_digest r;
     t_meta := t_meta r |}.

Definition set_progress (t : option Z) (dl : option Z) (r : TurnRow) : TurnRow :=
  {| t_generation := t_generation r; t_revision := t_revision r;
     t_lease_token := t_lease_token r; t_lease_expires_at := t_lease_expires_at r;
     t_status := t_status r;
     t_recovery_deadline_utc :=
       match dl with Some d => Some d | None => t_recovery_deadline_utc r end;
     t_last_progress_at :=
       match t with Some t => t | None => t_last_progress_at r end;
     t_suspended_at := t_suspended_at r;
     t_payload := t_payload r; t_payload_digest := t_payload_digest r;
     t_meta := t_meta r |}.

Definition set_op_state (s : OpState) (now : Z) (o : OpRow) : OpRow :=
  {| o_state := s; o_tool_name := o_tool_name o; o_effect_class := o_effect_class o;
     o_iteration := o_iteration o; o_fingerprint := o_fingerprint o;
     o_result := o_result o; o_created_at := o_created_at o; o_updated_at := now |}.

Definition set_op_result (res : option string) (o : OpRow) : OpRow :=
  {| o_state := o_state o; o_tool_name := o_tool_name o;
     o_effect_class := o_effect_class o; o_iteration := o_iteration o;
     o_fingerprint := o_fingerprint o; o_result := res;
     o_created_at := o_created_at o; o_updated_at := o_updated_at o |}.

Definition set_op_class (c : ToolEffectClass) (o : OpRow) : OpRow :=
  {| o_state := o_state o; o_tool_name := o_tool_name o; o_effect_class := c;
     o_iteration := o_iteration o; o_fingerprint := o_fingerprint o;
     o_result := o_result o; o_created_at := o_created_at o;
     o_updated_at := o_updated_at o |}.

Definition with_turns (ts : gmap TurnKey TurnRow) (st : Store) : Store :=
  {| conn := conn st; turns := ts; operations := operations st;
     lease_ttl := lease_ttl st |}.

Definition with_operations (os : gmap OpKey OpRow) (st : Store) : Store :=
  {| conn := conn st; turns := turns st; operations := os;
     lease_ttl := lease_ttl st |}.

Definition set_lease_revision (n : Z) (l : TurnLease) : TurnLease :=
  {| key := key l; generation := generation l; token := token l; revision := n |}.

(** SQLite's scalar MAX: NULL when an argument is NULL. *)
Definition sql_max (a : option Z) (b : Z) : option Z :=
  match a with Some a => Some (Z.max a b) | None => None end.

(** [x > now] on a nullable column. *)
Definition sql_gt (a : option Z) (now : Z) : bool :=
  match a with Some a => bool_decide (now < a) | None => false end.

Definition seconds (n : Z) : Z := n * 1000.

Definition SCHEMA_VERSION : Z := 1.
Definition DEFAULT_LEASE_TTL : Z := seconds 120.
Definition DEFAULT_RESUME_TTL_HOURS : Z := 24.
Definition DEFAULT_PAYLOAD_RETENTION_DAYS : Z := 7.
Definition DEFAULT_LEDGER_RETENTION_DAYS : Z := 90.

(** ** Operations *)

Section store.
  Context {J : Type} `{JsonText J} `{Sha256}.
  Local Open Scope odin_scope.

Definition encode_payload (payload : J) : string := dumps payload.

Definition payload_digest (payload_text : string) : string := sha256_hex payload_text.

Definition effect_fingerprint (tool_name : string) (tool_input : J) : string :=
  sha256_hex (dumps_invocation tool_name tool_input).

(** The WHERE clause shared by [_fenced_update] and [_TURN_FENCE]. *)
Definition turn_fence (r : TurnRow) (lease : TurnLease) (now : Z) : bool :=
  bool_decide (t_generation r = generation lease)
  && bool_decide (t_revision r = revision lease)
  && bool_decide (t_lease_token r = Some (token lease))
  && bool_decide (t_status r = ACTIVE)
  && sql_gt (t_lease_expires_at r) now.

Definition fence_holds (st : Store) (lease : TurnLease) (now : Z) : bool :=
  match turns st !! key lease with
  | Some r => turn_fence r lease now
  | None => false
  end.

(** [_fenced_update]: one conditional UPDATE, the lease's revision published
    with it. *)
Definition fenced_update (io : bool) (st : Store) (lease : TurnLease)
    (set : TurnRow → TurnRow) (bump_revision : bool) (now : Z)
    : result TurnError (Store * TurnLease) :=
  guard! conn st else TurnStateUnavailableError in
  guard! io else TurnStateUnavailableError in
  let new_revision := if bump_revision then revision lease + 1 else revision lease in
  match turns st !! key lease with
  | Some r =>
      if turn_fence r lease now then
        Ok (with_turns (<[key lease := set_revision new_revision (set r)]> (turns st)) st,
            set_lease_revision new_revision lease)
      else Err StaleTurnError
  | None => Err StaleTurnError
  end.

Inductive Disposition : Type :=
| admitted | already_processed | in_progress | resumable | store_unavailable.

(** [_classify_existing_row]: the disposition of a known identity; an ACTIVE row
    whose lease ran out is suspended here and its in-flight operations become
    OUTCOME_UNKNOWN. *)
Definition classify_existing_row (st : Store) (k : TurnKey) (now : Z)
    : Store * Disposition :=
  match turns st !! k with
  | None => (st, in_progress)
  | Some r =>
      if TERMINAL (t_status r) then (st, already_processed)
      else if bool_decide (t_status r = SUSPENDED) then (st, resumable)
      else if sql_gt (t_lease_expires_at r) now then (st, in_progress)
      else
        ({| conn := conn st;
            turns := <[k := set_lease None None
                              (set_suspended_at now (set_status SUSPENDED r))]> (turns st);
            operations :=
              sql_update (λ ok o, bool_decide (o_turn ok = k) && in_flight (o_state o))
                (λ _ o, set_op_state OUTCOME_UNKNOWN now o) (operations st);
            lease_ttl := lease_ttl st |}, resumable)
  end.

(** [admit_turn_sync].  [gen] and [tok] are the two [secrets.token_hex(16)]. *)
Definition admit_turn (io : bool) (st : Store) (k : TurnKey)
    (guild user digest version policy catalog : option string)
    (snapshot : option J) (gen tok : string) (now : Z)
    : Store * (option TurnLease * Disposition) :=
  if negb (conn st) then (st, (None, store_unavailable))
  else if negb io then (st, (None, store_unavailable))
  else
    let row :=
      {| t_generation := gen; t_revision := 0; t_lease_token := Some tok;
         t_lease_expires_at := Some (now + lease_ttl st); t_status := ACTIVE;
         t_recovery_deadline_utc := None; t_last_progress_at := now;
         t_suspended_at := None; t_payload := None; t_payload_digest := None;
         t_meta :=
           {| created_at := now; guild_id := guild; user_id := user;
              content_digest := digest; code_version := version;
              schema_version := SCHEMA_VERSION; prompt_policy_hash := policy;
              tool_catalog_hash := catalog;
              session_snapshot := dumps (default empty_dict snapshot) |} |} in
    match sql_insert k row (turns st) with
    | Some ts =>
        (with_turns ts st,
         (Some {| key := k; generation := gen; token := tok; revision := 0 |}, admitted))
    | None =>
        let '(st', d) := classify_existing_row st k now in (st', (None, d))
    end.

(** [checkpoint_sync].  The clock is read for the renewal, for the progress
    stamp when [progressed], and for the fence. *)
Definition checkpoint (io : bool) (st : Store) (lease : TurnLease) (payload : J)
    (progressed : bool) (recovery_deadline_utc : option Z) (clk : nat → Z)
    : result TurnError (Store * TurnLease) :=
  let payload_text := encode_payload payload in
  fenced_update io st lease
    (λ r, set_progress (if progressed then Some (clk 1%nat) else None) recovery_deadline_utc
            (set_lease (t_lease_token r)
               (sql_max (t_lease_expires_at r) (clk 0%nat + lease_ttl st))
               (set_payload (Some payload_text) (Some (payload_digest payload_text)) r)))
    true (clk 2%nat).

(** [heartbeat_sync]: extends the lease, keeps the revision and the progress. *)
Definition heartbeat (io : bool) (st : Store) (lease : TurnLease) (clk : nat → Z)
    : result TurnError (Store * TurnLease) :=
  fenced_update io st lease
    (λ r, set_lease (t_lease_token r)
            (sql_max (t_lease_expires_at r) (clk 0%nat + lease_ttl st)) r)
    false (clk 1%nat).

(** [suspend_sync]. *)
Definition suspend (io : bool) (st : Store) (lease : TurnLease) (payload : J)
    (clk : nat → Z) : result TurnError (Store * TurnLease) :=
  let payload_text := encode_payload payload in
  fenced_update io st lease
    (λ r, set_lease None None
            (set_suspended_at (clk 0%nat)
               (set_status SUSPENDED
                  (set_payload (Some payload_text) (Some (payload_digest payload_text)) r))))
    true (clk 1%nat).

(** [finish_sync]. *)
Definition finish (io : bool) (st : Store) (lease : TurnLease) (status : TurnStatus)
    (now : Z) : result TurnError (Store * TurnLease) :=
  guard! TERMINAL status else ValueError in
  fenced_update io st lease
    (λ r, set_lease None None (set_payload None None (set_status status r))) true now.

(** *** The ledger *)

(** [str(i.get(..) or d)]. *)
Definition str_or (v : option string) (d : string) : string :=
  match v with Some s => if bool_decide (s = "") then d else s | None => d end.

Definition op_key (lease : TurnLease) (seq : Z) (call : string) : OpKey :=
  {| o_turn := key lease; o_generation := generation lease; o_seq := seq; o_call := call |}.

Definition prepared_row (i : Intent J) (iteration : option Z) (now : Z) : OpRow :=
  {| o_state := PREPARED; o_tool_name := str_or (it_tool_name i) "unknown";
     o_effect_class := normalize_effect_class (it_effect_class i);
     o_iteration := iteration;
     o_fingerprint := effect_fingerprint (str_or (it_tool_name i) "") (it_tool_input i);
     o_result := None; o_created_at := now; o_updated_at := now |}.

(** The insert loop of [record_intents_sync]; [n] counts the clock readings. *)
Fixpoint insert_intents (st : Store) (lease : TurnLease) (seq : Z) (iteration : option Z)
    (now : Z) (clk : nat → Z) (n : nat) (intents : list (Intent J))
    : result TurnError Store :=
  match intents with
  | [] => Ok st
  | i :: rest =>
      guard! fence_holds st lease (clk n) else StaleTurnError in
      match sql_insert (op_key lease seq (str_or (it_call_id i) ""))
              (prepared_row i iteration now) (operations st) with
      | None => Err LedgerIntentError
      | Some os => insert_intents (with_operations os st) lease seq iteration now clk (S n) rest
      end
  end.

(** [record_intents_sync]. *)
Definition record_intents (io : bool) (st : Store) (lease : TurnLease) (seq : Z)
    (intents : list (Intent J)) (iteration : option Z) (clk : nat → Z)
    : result TurnError Store :=
  let ids := map (λ i, str_or (it_call_id i) "") intents in
  guard! forallb (λ i, negb (bool_decide (i = ""))) ids else LedgerIntentError in
  guard! bool_decide (NoDup ids) else LedgerIntentError in
  guard! conn st else TurnStateUnavailableError in
  guard! io else TurnStateUnavailableError in
  insert_intents st lease seq iteration (clk 0%nat) clk 1 intents.

(** [_set_op_state]: one statement conditional on the operation's legal prior
    state and on the turn fence. *)
Definition set_op_state_fenced (io : bool) (st : Store) (lease : TurnLease) (seq : Z)
    (call : string) (state : OpState) (result_text : option string)
    (legal_sources : list OpState) (tolerate_missing : bool) (clk : nat → Z)
    : result TurnError Store :=
  guard! conn st else TurnStateUnavailableError in
  guard! io else TurnStateUnavailableError in
  let k := op_key lease seq call in
  match operations st !! k with
  | Some o =>
      if bool_decide (o_state o ∈ legal_sources) && fence_holds st lease (clk 1%nat) then
        let o1 := set_op_state state (clk 0%nat) o in
        let o2 := match result_text with None => o1 | Some _ => set_op_result result_text o1 end in
        Ok (with_operations (<[k := o2]> (operations st)) st)
      else if tolerate_missing then Ok st else Err StaleTurnError
  | None => if tolerate_missing then Ok st else Err StaleTurnError
  end.

(** [_settle_uncertain_op]: the persisted effect class decides the outcome. *)
Definition settle_uncertain_op (io : bool) (st : Store) (lease : TurnLease) (seq : Z)
    (call : string) (result_text : option string) (tolerate_missing : bool) (clk : nat → Z)
    : result TurnError Store :=
  guard! conn st else TurnStateUnavailableError in
  guard! io else TurnStateUnavailableError in
  let k := op_key lease seq call in
  match operations st !! k with
  | Some o =>
      if in_flight (o_state o) && fence_holds st lease (clk 1%nat) then
        let state := if bool_decide (o_effect_class o = EFFECT_FREE_OBSERVATION)
                     then DEFINITELY_FAILED else OUTCOME_UNKNOWN in
        Ok (with_operations
              (<[k := set_op_result result_text (set_op_state state (clk 0%nat) o)]>
                 (operations st)) st)
      else if tolerate_missing then Ok st else Err StaleTurnError
  | None => if tolerate_missing then Ok st else Err StaleTurnError
  end.

Definition mark_running (io : bool) (st : Store) (lease : TurnLease) (seq : Z)
    (call : string) (clk : nat → Z) : result TurnError Store :=
  set_op_state_fenced io st lease seq call RUNNING None [PREPARED] false clk.

Definition settle_op (io : bool) (st : Store) (lease : TurnLease) (seq : Z)
    (call : string) (state : OpState) (result_text : option string) (clk : nat → Z)
    : result TurnError Store :=
  guard! bool_decide (state ∈ [APPLIED; DEFINITELY_FAILED; OUTCOME_UNKNOWN]) else ValueError in
  if bool_decide (state = OUTCOME_UNKNOWN)
  then settle_uncertain_op io st lease seq call result_text false clk
  else set_op_state_fenced io st lease seq call state result_text [PREPARED; RUNNING] false clk.

Definition settle_interrupted (io : bool) (st : Store) (lease : TurnLease) (seq : Z)
    (call : string) (result_text : option string) (clk : nat → Z) : result TurnError Store :=
  settle_uncertain_op io st lease seq call result_text true clk.

(** *** Resume *)

Record ResumableOp : Type := {
  ro_seq : Z; ro_call : string; ro_state : OpState; ro_tool_name : string;
  ro_effect_class : ToolEffectClass; ro_result : option string
}.

Record Resumable : Type := {
  rs_generation : string;
  rs_revision : Z;
  rs_payload : J;
  rs_meta : TurnMeta;
  rs_session_snapshot : J;
  rs_recovery_deadline_utc : option Z;
  rs_last_progress_at : Z;
  rs_suspended_at : option Z;
  rs_operations : list ResumableOp
}.

(** [reject_resumable_sync]: an I/O failure is logged and changes nothing. *)
Definition reject_resumable (io : bool) (st : Store) (k : TurnKey) : Store :=
  if conn st && io then
    match turns st !! k with
    | Some r =>
        if bool_decide (t_status r = SUSPENDED)
        then with_turns (<[k := set_lease None None
                                  (set_payload None None (set_status TERMINAL_REJECTED r))]>
                           (turns st)) st
        else st
    | None => st
    end
  else st.

(** [ORDER BY generation_seq, tool_call_id]. *)
Definition op_le (a b : OpKey * OpRow) : Prop :=
  o_seq a.1 < o_seq b.1 ∨ (o_seq a.1 = o_seq b.1 ∧ String.leb (o_call a.1) (o_call b.1) = true).

#[local] Instance op_le_dec : RelDecision op_le.
Proof. intros a b. unfold op_le. apply _. Defined.

Definition ops_of_generation (st : Store) (k : TurnKey) (gen : string) : list ResumableOp :=
  map (λ '(ok, o), {| ro_seq := o_seq ok; ro_call := o_call ok; ro_state := o_state o;
                      ro_tool_name := o_tool_name o; ro_effect_class := o_effect_class o;
                      ro_result := o_result o |})
    (merge_sort op_le
       (sql_select (λ ok _, bool_decide (o_turn ok = k) && bool_decide (o_generation ok = gen))
          (operations st))).

(** [json.loads(row[11] or "{}")]. *)
Definition load_snapshot (text : string) : option J :=
  loads (if bool_decide (text = "") then "{}" else text).

(** [load_resumable_sync]: a checkpoint whose digest does not match its text, or
    whose text cannot be read, is rejected terminally. *)
Definition load_resumable (io : bool) (st : Store) (k : TurnKey) : Store * option Resumable :=
  if negb (conn st) then (st, None)
  else match turns st !! k with
  | None => (st, None)
  | Some r =>
      if negb (bool_decide (t_status r = SUSPENDED)) then (st, None)
      else match t_payload r with
      | None => (st, None)
      | Some payload_text =>
          if bool_decide (t_payload_digest r = Some (payload_digest payload_text)) then
            match loads payload_text, load_snapshot (session_snapshot (t_meta r)) with
            | Some payload, Some snapshot =>
                (st, Some {| rs_generation := t_generation r; rs_revision := t_revision r;
                             rs_payload := payload; rs_meta := t_meta r;
                             rs_session_snapshot := snapshot;
                             rs_recovery_deadline_utc := t_recovery_deadline_utc r;
                             rs_last_progress_at := t_last_progress_at r;
                             rs_suspended_at := t_suspended_at r;
                             rs_operations := ops_of_generation st k (t_generation r) |})
            | _, _ => (reject_resumable io st k, None)
            end
          else (reject_resumable io st k, None)
      end
  end.

(** [acquire_resume_lease_sync]: conditional on status and generation, so two
    resumers cannot both win. *)
Definition acquire_resume_lease (io : bool) (st : Store) (k : TurnKey)
    (expected_generation tok : string) (now : Z)
    : result TurnError (Store * option TurnLease) :=
  if negb (conn st) then Ok (st, None)
  else
    guard! io else TurnStateUnavailableError in
    match turns st !! k with
    | Some r =>
        if bool_decide (t_status r = SUSPENDED)
           && bool_decide (t_generation r = expected_generation)
        then Ok (with_turns (<[k := set_lease (Some tok) (Some (now + lease_ttl st))
                                      (set_status ACTIVE r)]> (turns st)) st,
                 Some {| key := k; generation := expected_generation; token := tok;
                         revision := t_revision r |})
        else Ok (st, None)
    | None => Ok (st, None)
    end.

(** The rows [mark_ops_manual_sync] touches. *)
Definition manual_where (k : TurnKey) (gen : string) (ok : OpKey) (o : OpRow) : bool :=
  bool_decide (o_turn ok = k) && bool_decide (o_generation ok = gen)
  && bool_decide (o_state o = OUTCOME_UNKNOWN)
  && bool_decide (o_effect_class o = EXTERNAL_EFFECT_CAPABLE).

Definition mark_ops_manual (io : bool) (st : Store) (k : TurnKey) (gen : string) (now : Z)
    : result TurnError (Store * nat) :=
  guard! conn st else TurnStateUnavailableError in
  if io then
    Ok (with_operations
          (sql_update (manual_where k gen) (λ _, set_op_state MANUAL_RESOLUTION_REQUIRED now)
             (operations st)) st,
        sql_rowcount (manual_where k gen) (operations st))
  else Ok (st, 0%nat).

(** [release_acquired_sync]: fenced on generation, token and ACTIVE status. *)
Definition release_acquired (io : bool) (st : Store) (lease : TurnLease)
    (terminal_reason : option string) : result TurnError Store :=
  guard! conn st else TurnStateUnavailableError in
  match turns st !! key lease with
  | Some r =>
      if io && bool_decide (t_generation r = generation lease)
         && bool_decide (t_lease_token r = Some (token lease))
         && bool_decide (t_status r = ACTIVE)
      then
        let r' := match terminal_reason with
                  | Some _ => set_payload None None (set_status TERMINAL_REJECTED r)
                  | None => set_status SUSPENDED r
                  end in
        Ok (with_turns (<[key lease := set_lease None None r']> (turns st)) st)
      else Ok st
  | None => Ok st
  end.

Definition turn_status (st : Store) (k : TurnKey) : option TurnStatus :=
  if conn st then t_status <$> turns st !! k else None.

(** [list_suspended_sync]: an empty or absent source filter selects every source. *)
Definition list_suspended (st : Store) (src : option string) : list (TurnKey * TurnRow) :=
  if conn st then
    sql_select
      (λ k r, bool_decide (t_status r = SUSPENDED)
              && match src with
                 | Some s => bool_decide (s = "") || bool_decide (source k = s)
                 | None => true
                 end) (turns st)
  else [].

(** *** Sweeps *)

(** The turns [_sweep_active_sync] suspends. *)
Definition stale_where (only_expired : bool) (now : Z) (r : TurnRow) : bool :=
  bool_decide (t_status r = ACTIVE)
  && (negb only_expired
      || match t_lease_expires_at r with None => true | Some e => bool_decide (e < now) end).

(** The in-flight operations of a stale turn's own generation. *)
Definition sweep_op_where (st : Store) (only_expired : bool) (now : Z) (ok : OpKey) (o : OpRow)
    : bool :=
  match turns st !! o_turn ok with
  | Some r => stale_where only_expired now r && bool_decide (o_generation ok = t_generation r)
              && in_flight (o_state o)
  | None => false
  end.

(** [_sweep_active_sync]; the loop over the stale rows touches disjoint rows of
    both tables, so it is one update of each. *)
Definition sweep_active (st : Store) (only_expired : bool) (now : Z)
    : result TurnError (Store * (nat * nat)) :=
  guard! conn st else TurnStateUnavailableError in
  Ok ({| conn := conn st;
         turns := sql_update (λ _, stale_where only_expired now)
                    (λ _ r, set_lease None None (set_suspended_at now (set_status SUSPENDED r)))
                    (turns st);
         operations := sql_update (sweep_op_where st only_expired now)
                    (λ _ o, set_op_state
                       (if bool_decide (o_effect_class o = EFFECT_FREE_OBSERVATION)
                        then DEFINITELY_FAILED else OUTCOME_UNKNOWN) now o)
                    (operations st);
         lease_ttl := lease_ttl st |},
      (sql_rowcount (λ _, stale_where only_expired now) (turns st),
       sql_rowcount (sweep_op_where st only_expired now) (operations st))).

(** [sweep_expired_active_sync]: failures are logged; [None] is the empty dict. *)
Definition sweep_expired_active (io : bool) (st : Store) (now : Z)
    : Store * option (nat * nat) :=
  if negb (conn st) then (st, None)
  else if io then
    match sweep_active st true now with
    | Ok (st', c) => (st', Some c)
    | Err _ => (st, None)
    end
  else (st, None).

(** [_migrate_schema_sync]: the digest backfill, then the two statements that
    reconcile and classify the rows of effect-free observation tools. *)
Definition migrate_schema (st : Store) (now : Z) : Store * nat :=
  let ts := sql_update
              (λ _ r, match t_payload r, t_payload_digest r with
                      | Some _, None => true
                      | _, _ => false
                      end)
              (λ _ r, match t_payload r with
                      | Some p => set_payload (Some p) (Some (payload_digest p)) r
                      | None => r
                      end) (turns st) in
  let observing (o : OpRow) := bool_decide (o_tool_name o ∈ effect_free_observation_tools) in
  let unknown_obs (_ : OpKey) (o : OpRow) :=
    observing o && bool_decide (o_state o = OUTCOME_UNKNOWN) in
  let os1 := sql_update unknown_obs
               (λ _ o, set_op_state RECONCILED_NOT_APPLIED now
                         (set_op_class EFFECT_FREE_OBSERVATION o)) (operations st) in
  let os2 := sql_update
               (λ _ o, observing o && negb (bool_decide (o_effect_class o = EFFECT_FREE_OBSERVATION)))
               (λ _, set_op_class EFFECT_FREE_OBSERVATION) os1 in
  ({| conn := conn st; turns := ts; operations := os2; lease_ttl := lease_ttl st |},
   sql_rowcount unknown_obs (operations st)).

(** [TurnStateStore.__init__] on an existing database: migration, then
    [_boot_sweep_sync].  A failure leaves the store unavailable. *)
Definition boot (io : bool) (st : Store) (now now' : Z) : Store :=
  let opened := {| conn := true; turns := turns st; operations := operations st;
                   lease_ttl := lease_ttl st |} in
  let closed := {| conn := false; turns := turns st; operations := operations st;
                   lease_ttl := lease_ttl st |} in
  if io then
    let migrated := fst (migrate_schema opened now) in
    match sweep_active migrated false now' with
    | Ok (st', _) => st'
    | Err _ => closed
    end
  else closed.

Definition close (st : Store) : Store :=
  {| conn := false; turns := turns st; operations := operations st;
     lease_ttl := lease_ttl st |}.

Record TtlCounts : Type := {
  expired_turns : nat;
  expired_turn_keys : list TurnKey;
  compacted_payloads : nat;
  ledger_rows_deleted : nat
}.

(** Clock 1: the resumable window, from the last real progress. *)
Definition ttl_expire_where (resume_ttl_hours now : Z) (r : TurnRow) : bool :=
  bool_decide (t_status r = SUSPENDED)
  && bool_decide (t_last_progress_at r < now - seconds (resume_ttl_hours * 3600)).

(** Clock 2: diagnostic payload retention. *)
Definition ttl_compact_where (payload_retention_days now : Z) (r : TurnRow) : bool :=
  bool_decide (is_Some (t_payload r)) && TERMINAL (t_status r)
  && bool_decide (t_last_progress_at r < now - seconds (payload_retention_days * 86400)).

(** Clock 3: ledger rows of terminal turns, never-expiring states excepted. *)
Definition ttl_delete_where (ts : gmap TurnKey TurnRow) (ledger_retention_days now : Z)
    (ok : OpKey) (o : OpRow) : bool :=
  negb (NEVER_EXPIRE (o_state o))
  && bool_decide (o_updated_at o < now - seconds (ledger_retention_days * 86400))
  && match ts !! o_turn ok with Some r => TERMINAL (t_status r) | None => false end.

(** [ttl_sweep_sync]; [io] is how many of its four statements succeed before an error.
    The statements before it are not rolled back: they stay in the transaction, which
    the next commit takes with it, and count in the reply. *)
Definition ttl_sweep (io : nat) (st : Store)
    (resume_ttl_hours payload_retention_days ledger_retention_days now : Z)
    : Store * option TtlCounts :=
  if negb (conn st) then (st, None)
  else
    let past n := (n <=? io)%nat in
    let expiring := λ (_ : TurnKey), ttl_expire_where resume_ttl_hours now in
    let ts1 := if past 2%nat then sql_update expiring (λ _, set_status TERMINAL_EXPIRED) (turns st) else turns st in
    let compacting := λ (_ : TurnKey), ttl_compact_where payload_retention_days now in
    let ts2 := if past 3%nat then sql_update compacting (λ _, set_payload None None) ts1 else ts1 in
    let deleting := ttl_delete_where ts2 ledger_retention_days now in
    ({| conn := conn st; turns := ts2;
        operations := if past 4%nat then sql_delete deleting (operations st) else operations st;
        lease_ttl := lease_ttl st |},
     Some {| expired_turns := if past 2%nat then sql_rowcount expiring (turns st) else 0;
             expired_turn_keys := if past 2%nat then map fst (sql_select expiring (turns st)) else [];
             compacted_payloads := if past 3%nat then sql_rowcount compacting ts1 else 0;
             ledger_rows_deleted := if past 4%nat then sql_rowcount deleting (operations st) else 0 |}).

(** *** Blobs: the content-addressed directory, file name to bytes *)

Definition store_blob (io : bool) (blobs : gmap string string) (data : string)
    : result TurnError (gmap string string * string) :=
  let digest := sha256_hex data in
  let ref := String.append "blob:" digest in
  match blobs !! digest with
  | Some _ => Ok (blobs, ref)
  | None => guard! io else TurnStateUnavailableError in Ok (<[digest := data]> blobs, ref)
  end.

Definition blob_digest (ref : string) : string :=
  if String.prefix "blob:" ref then String.substring 5 (String.length ref - 5) ref else ref.

Definition load_blob (blobs : gmap string string) (ref : string) : result TurnError string :=
  let digest := blob_digest ref in
  match blobs !! digest with
  | None => Err TurnStateUnavailableError
  | Some data =>
      guard! bool_decide (sha256_hex data = digest) else TurnStateUnavailableError in Ok data
  end.

End store.
