(* ===== verification/TurnSystem.v ===== *)
(** * The turn store as a transition system

    Every public operation of the store is a label; a label carries the inputs
    of the call, its clock readings and whether SQLite failed.  Lease handles are
    the mutable objects the owners share with their heartbeat task: a label names
    a handle by its index, and a successful fenced write updates that handle.
    [started] records, newest first, the operations whose PREPARED -> RUNNING
    transition was granted: the external effects the process was allowed to run. *)

From S2P Require Import Prelude Sql Effects TurnStore.
Open Scope string_scope.
Open Scope list_scope.
Open Scope Z_scope.

Section system.
Context {J : Type} `{JsonText J} `{Sha256}.

Record Sys : Type := {
  store : Store;
  leases : list TurnLease;
  started : list OpKey
}.

Inductive Label : Type :=
| LAdmit (io : bool) (k : TurnKey) (guild user digest version policy catalog : option string)
    (snapshot : option J) (gen tok : string) (now : Z)
| LCheckpoint (io : bool) (h : nat) (payload : J) (progressed : bool) (deadline : option Z)
    (clk : nat → Z)
| LHeartbeat (io : bool) (h : nat) (clk : nat → Z)
| LSuspend (io : bool) (h : nat) (payload : J) (clk : nat → Z)
| LFinish (io : bool) (h : nat) (status : TurnStatus) (now : Z)
| LIntents (io : bool) (h : nat) (seq : Z) (intents : list (Intent J)) (iteration : option Z)
    (clk : nat → Z)
| LRunning (io : bool) (h : nat) (seq : Z) (call : string) (clk : nat → Z)
| LSettle (io : bool) (h : nat) (seq : Z) (call : string) (state : OpState)
    (result_text : option string) (clk : nat → Z)
| LInterrupted (io : bool) (h : nat) (seq : Z) (call : string) (result_text : option string)
    (clk : nat → Z)
| LLoad (io : bool) (k : TurnKey)
| LResume (io : bool) (k : TurnKey) (gen tok : string) (now : Z)
| LReject (io : bool) (k : TurnKey)
| LManual (io : bool) (k : TurnKey) (gen : string) (now : Z)
| LRelease (io : bool) (h : nat) (terminal_reason : option string)
| LSweepExpired (io : bool) (now : Z)
| LTtl (io : nat) (resume_hours payload_days ledger_days now : Z)
| LBoot (io : bool) (now now' : Z)
| LClose.

Definition set_store (st : Store) (s : Sys) : Sys :=
  {| store := st; leases := leases s; started := started s |}.

Definition add_lease (l : option TurnLease) (s : Sys) : Sys :=
  match l with
  | Some l => {| store := store s; leases := leases s ++ [l]; started := started s |}
  | None => s
  end.

(** Outcome of a fenced turn write through handle [h]. *)
Definition publish (h : nat) (s : Sys) (r : result TurnError (Store * TurnLease)) : Sys :=
  match r with
  | Ok (st, l) => {| store := st; leases := <[h := l]> (leases s); started := started s |}
  | Err _ => s
  end.

Definition commit (s : Sys) (r : result TurnError Store) : Sys :=
  match r with Ok st => set_store st s | Err _ => s end.

Definition with_handle (s : Sys) (h : nat) (f : TurnLease → Sys) : Sys :=
  match leases s !! h with Some l => f l | None => s end.

Definition exec (s : Sys) (lb : Label) : Sys :=
  let st := store s in
  match lb with
  | LAdmit io k guild user digest version policy catalog snapshot gen tok now =>
      let '(st', (l, _)) :=
        admit_turn io st k guild user digest version policy catalog snapshot gen tok now in
      add_lease l (set_store st' s)
  | LCheckpoint io h payload progressed deadline clk =>
      with_handle s h (λ l, publish h s (checkpoint io st l payload progressed deadline clk))
  | LHeartbeat io h clk => with_handle s h (λ l, publish h s (heartbeat io st l clk))
  | LSuspend io h payload clk => with_handle s h (λ l, publish h s (suspend io st l payload clk))
  | LFinish io h status now => with_handle s h (λ l, publish h s (finish io st l status now))
  | LIntents io h seq intents iteration clk =>
      with_handle s h (λ l, commit s (record_intents io st l seq intents iteration clk))
  | LRunning io h seq call clk =>
      with_handle s h (λ l,
        match mark_running io st l seq call clk with
        | Ok st' => {| store := st'; leases := leases s;
                       started := op_key l seq call :: started s |}
        | Err _ => s
        end)
  | LSettle io h seq call state result_text clk =>
      with_handle s h (λ l, commit s (settle_op io st l seq call state result_text clk))
  | LInterrupted io h seq call result_text clk =>
      with_handle s h (λ l, commit s (settle_interrupted io st l seq call result_text clk))
  | LLoad io k => set_store (fst (load_resumable io st k)) s
  | LResume io k gen tok now =>
      match acquire_resume_lease io st k gen tok now with
      | Ok (st', l) => add_lease l (set_store st' s)
      | Err _ => s
      end
  | LReject io k => set_store (reject_resumable io st k) s
  | LManual io k gen now =>
      match mark_ops_manual io st k gen now with
      | Ok (st', _) => set_store st' s
      | Err _ => s
      end
  | LRelease io h terminal_reason =>
      with_handle s h (λ l, commit s (release_acquired io st l terminal_reason))
  | LSweepExpired io now => set_store (fst (sweep_expired_active io st now)) s
  | LTtl io resume_hours payload_days ledger_days now =>
      set_store (fst (ttl_sweep io st resume_hours payload_days ledger_days now)) s
  | LBoot io now now' => set_store (boot io st now now') s
  | LClose => set_store (close st) s
  end.

(** A new database. *)
Definition fresh_sys (ttl : Z) : Sys :=
  {| store := {| conn := true; turns := ∅; operations := ∅; lease_ttl := ttl |};
     leases := []; started := [] |}.

End system.

Arguments Label J : clear implicits.

(** ** How rows evolve *)

Section evolution.
Context {J : Type} `{JsonText J} `{Sha256}.
Local Open Scope odin_scope.

(** What every operation keeps of a turn row: its identity, its lineage, its
    revision never regresses and a terminal status is final. *)
Record row_le (r r' : TurnRow) : Prop := {
  row_le_generation : t_generation r' = t_generation r;
  row_le_meta : t_meta r' = t_meta r;
  row_le_revision : t_revision r ≤ t_revision r';
  row_le_terminal : TERMINAL (t_status r) = true → t_status r' = t_status r
}.

(** The legal transitions of an operation's state, closed under composition. *)
Definition op_state_le (a b : OpState) : bool :=
  match a, b with
  | PREPARED, (RECONCILED_APPLIED) => false
  | PREPARED, _ => true
  | RUNNING, (PREPARED | RECONCILED_APPLIED) => false
  | RUNNING, _ => true
  | OUTCOME_UNKNOWN, (OUTCOME_UNKNOWN | MANUAL_RESOLUTION_REQUIRED | RECONCILED_NOT_APPLIED) => true
  | OUTCOME_UNKNOWN, _ => false
  | _, _ => bool_decide (a = b)
  end.

Record op_le_row (o o' : OpRow) : Prop := {
  op_le_state : op_state_le (o_state o) (o_state o') = true;
  op_le_tool : o_tool_name o' = o_tool_name o;
  op_le_evidence :
    NEVER_EXPIRE (o_state o) = true → o_tool_name o ∉ effect_free_observation_tools →
    NEVER_EXPIRE (o_state o') = true
}.

Definition turns_le (ts ts' : gmap TurnKey TurnRow) : Prop :=
  ∀ k r, ts !! k = Some r → ∃ r', ts' !! k = Some r' ∧ row_le r r'.

Definition terminal_turn (ts : gmap TurnKey TurnRow) (k : TurnKey) : Prop :=
  ∃ r, ts !! k = Some r ∧ TERMINAL (t_status r) = true.

(** A ledger row survives, moving along legal transitions, unless its turn is
    terminal and its state may expire; a new one belongs to a turn that is not
    terminal and carries that turn's generation. *)
Record store_le (st st' : Store) : Prop := {
  le_turns : turns_le (turns st) (turns st');
  le_ops : ∀ ok o, operations st !! ok = Some o →
    (∃ o', operations st' !! ok = Some o' ∧ op_le_row o o') ∨
    (operations st' !! ok = None ∧ terminal_turn (turns st') (o_turn ok) ∧
     (NEVER_EXPIRE (o_state o) = true → o_tool_name o ∈ effect_free_observation_tools));
  le_new : ∀ ok o, operations st !! ok = None → operations st' !! ok = Some o →
    ¬ terminal_turn (turns st) (o_turn ok) ∧
    ∃ r, turns st' !! o_turn ok = Some r ∧ t_generation r = o_generation ok
}.

Lemma row_le_refl r : row_le r r.
Proof. by split. Qed.

Lemma row_le_trans a b c : row_le a b → row_le b c → row_le a c.
Proof.
  intros [? ? ? Hab] [? ? ? Hbc]. split; try congruence; try lia.
  intros Ha. specialize (Hab Ha). rewrite <- Hab in Ha. rewrite Hbc by done. done.
Qed.

Lemma op_le_refl o : op_le_row o o.
Proof. split; [by destruct (o_state o)|done|done]. Qed.

Lemma turns_le_refl ts : turns_le ts ts.
Proof. intros k r Hr. eauto using row_le_refl. Qed.

Lemma turns_le_trans a b c : turns_le a b → turns_le b c → turns_le a c.
Proof.
  intros Hab Hbc k r Hr. destruct (Hab _ _ Hr) as (r' & Hr' & ?).
  destruct (Hbc _ _ Hr') as (r'' & ? & ?). eauto using row_le_trans.
Qed.

Lemma op_le_trans a b c : op_le_row a b → op_le_row b c → op_le_row a c.
Proof.
  intros [Hs Ht He] [Hs' Ht' He']. split; [|congruence|].
  - by destruct (o_state a), (o_state b), (o_state c).
  - intros Ha Hn. apply He'; [by apply He|congruence].
Qed.

Lemma terminal_turn_le ts ts' k : turns_le ts ts' → terminal_turn ts k → terminal_turn ts' k.
Proof.
  intros Hle (r & Hr & Ht). destruct (Hle _ _ Hr) as (r' & Hr' & [_ _ _ Hs]).
  exists r'. split; [done|]. by rewrite Hs.
Qed.

Lemma turns_le_insert ts k r r' : ts !! k = Some r → row_le r r' → turns_le ts (<[k:=r']> ts).
Proof.
  intros Hr Hle k' r0 Hr0. destruct (decide (k = k')) as [->|Hne].
  - rewrite lookup_insert_eq. simplify_eq. eauto.
  - rewrite lookup_insert_ne by done. eauto using row_le_refl.
Qed.

Lemma turns_le_fresh ts k r : ts !! k = None → turns_le ts (<[k:=r]> ts).
Proof.
  intros Hk k' r0 Hr0. assert (k ≠ k') by congruence.
  rewrite lookup_insert_ne by done. eauto using row_le_refl.
Qed.

Lemma turns_le_update P f ts :
  (∀ k r, ts !! k = Some r → P k r = true → row_le r (f k r)) → turns_le ts (sql_update P f ts).
Proof.
  intros Hf k r Hr. rewrite lookup_sql_update, Hr. simpl. eexists; split; [done|].
  destruct (P k r) eqn:E; eauto using row_le_refl.
Qed.

(** Operations that leave the ledger alone. *)
Lemma store_le_turns st st' :
  turns_le (turns st) (turns st') → operations st' = operations st → store_le st st'.
Proof.
  intros Ht Ho. split; [done| |]; rewrite Ho.
  - intros ok o Hok. left. eauto using op_le_refl.
  - intros ok o Hn Hs. congruence.
Qed.

Lemma store_le_refl st : store_le st st.
Proof. apply store_le_turns; [apply turns_le_refl|done]. Qed.

(** Operations that update ledger rows in place. *)
Lemma store_le_ops st st' :
  turns_le (turns st) (turns st') →
  (∀ ok, operations st !! ok = None → operations st' !! ok = None) →
  (∀ ok o, operations st !! ok = Some o →
     ∃ o', operations st' !! ok = Some o' ∧ op_le_row o o') →
  store_le st st'.
Proof. intros Ht Hn Ho. split; [done|by eauto|]. intros ok o Hno Hso. rewrite Hn in Hso; done. Qed.

Lemma store_le_op_update st st' P f :
  turns_le (turns st) (turns st') → operations st' = sql_update P f (operations st) →
  (∀ ok o, P ok o = true → op_le_row o (f ok o)) → store_le st st'.
Proof.
  intros Ht Ho Hf. apply store_le_ops; [done| |]; intros ok; rewrite Ho, lookup_sql_update.
  - by intros ->.
  - intros o ->. simpl. eexists; split; [done|].
    destruct (P ok o) eqn:E; eauto using op_le_refl.
Qed.

Lemma store_le_op_insert st ok o o' :
  operations st !! ok = Some o → op_le_row o o' →
  store_le st (with_operations (<[ok:=o']> (operations st)) st).
Proof.
  intros Hok Hle. apply store_le_ops; [apply turns_le_refl| |]; simpl.
  - intros ok' Hn. assert (ok ≠ ok') by congruence. by rewrite lookup_insert_ne.
  - intros ok' o0 Ho0. destruct (decide (ok = ok')) as [->|?].
    + rewrite lookup_insert_eq. simplify_eq. eauto.
    + rewrite lookup_insert_ne by done. eauto using op_le_refl.
Qed.

#[export] Instance store_le_preorder : PreOrder store_le.
Proof.
  split; [exact store_le_refl|]. intros a b c [Hat Hao Han] [Hbt Hbo Hbn].
  split; [by eapply turns_le_trans| |].
  - intros ok o Ho. destruct (Hao _ _ Ho) as [(o' & Ho' & Hle)|(Hn & Hterm & Hev)].
    + destruct (Hbo _ _ Ho') as [(o'' & Ho'' & Hle')|(Hn & Ht & Hev)].
      * left. eauto using op_le_trans.
      * right. split_and!; [done..|]. destruct Hle as [_ Htool Hevd]. intros He.
        destruct (decide (o_tool_name o ∈ effect_free_observation_tools)) as [|Hobs]; [done|].
        rewrite <- Htool. auto.
    + right. assert (operations c !! ok = None).
      { destruct (operations c !! ok) as [o'|] eqn:Hc; [|done].
        by destruct (Hbn _ _ Hn Hc) as [[] _]. }
      eauto using terminal_turn_le.
  - intros ok o Hn Ho. destruct (operations b !! ok) as [o'|] eqn:Hb.
    + destruct (Han _ _ Hn Hb) as (Hnt & r & Hr & Hg).
      destruct (Hbt _ _ Hr) as (r' & Hr' & [Hg' _ _ _]). split; [done|]. exists r'. by rewrite Hg'.
    + destruct (Hbn _ _ Hb Ho) as (Hnt & Hr). split; [|done].
      intros Ht. apply Hnt. eauto using terminal_turn_le.
Qed.

(** ** Every operation respects the order *)

Lemma fenced_update_Ok io st lease set bump now st' lease' :
  fenced_update io st lease set bump now = Ok (st', lease') →
  ∃ r, turns st !! key lease = Some r ∧ turn_fence r lease now = true ∧
    let rev := if bump then revision lease + 1 else revision lease in
    st' = with_turns (<[key lease := set_revision rev (set r)]> (turns st)) st ∧
    lease' = set_lease_revision rev lease.
Proof.
  unfold fenced_update. intros Hu.
  destruct (conn st); [|done]. destruct io; [|done].
  destruct (turns st !! key lease) as [r|] eqn:Hr; [|done].
  destruct (turn_fence r lease now) eqn:Hf; [|done].
  injection Hu as <- <-. eauto 6.
Qed.

Lemma turn_fence_true r lease now :
  turn_fence r lease now = true ↔
  t_generation r = generation lease ∧ t_revision r = revision lease ∧
  t_lease_token r = Some (token lease) ∧ t_status r = ACTIVE ∧
  sql_gt (t_lease_expires_at r) now = true.
Proof.
  unfold turn_fence. rewrite !andb_true_iff, !bool_decide_eq_true. tauto.
Qed.

(** A SET clause that leaves the identity of the row alone. *)
Definition set_ok (set : TurnRow → TurnRow) : Prop :=
  ∀ r, t_generation (set r) = t_generation r ∧ t_meta (set r) = t_meta r.

Lemma fenced_update_le io st lease set bump now st' lease' :
  set_ok set → fenced_update io st lease set bump now = Ok (st', lease') → store_le st st'.
Proof.
  intros Hset (r & Hr & Hf & -> & ->)%fenced_update_Ok.
  apply turn_fence_true in Hf as (Hg & Hrev & _ & Hact & _).
  destruct (Hset r) as [Hsg Hsm].
  apply store_le_turns; [|done]. simpl. apply turns_le_insert with r; [done|].
  split; simpl; [done|done|destruct bump; lia|]. by rewrite Hact.
Qed.

Lemma checkpoint_le io st l p pr dl clk st' l' :
  checkpoint io st l p pr dl clk = Ok (st', l') → store_le st st'.
Proof. apply fenced_update_le. by intros r. Qed.

Lemma heartbeat_le io st l clk st' l' : heartbeat io st l clk = Ok (st', l') → store_le st st'.
Proof. apply fenced_update_le. by intros r. Qed.

Lemma suspend_le io st l p clk st' l' : suspend io st l p clk = Ok (st', l') → store_le st st'.
Proof. apply fenced_update_le. by intros r. Qed.

Lemma finish_le io st l s now st' l' : finish io st l s now = Ok (st', l') → store_le st st'.
Proof.
  unfold finish. destruct (TERMINAL s); [|done]. apply fenced_update_le. by intros r.
Qed.

Lemma classify_le st k now : store_le st (fst (classify_existing_row st k now)).
Proof.
  unfold classify_existing_row. destruct (turns st !! k) as [r|] eqn:Hr; [|apply store_le_refl].
  destruct (TERMINAL (t_status r)) eqn:Ht; [apply store_le_refl|].
  case_bool_decide; [apply store_le_refl|].
  destruct (sql_gt _ _); [apply store_le_refl|]. simpl.
  eapply store_le_op_update; simpl; [|done|].
  - apply turns_le_insert with r; [done|]. split; simpl; [done|done|lia|congruence].
  - intros ok o [_ Hf]%andb_true_iff. split; simpl; [by destruct (o_state o)|done|done].
Qed.

Lemma admit_le io st k a b c d e f g gen tok now :
  store_le st (fst (admit_turn io st k a b c d e f g gen tok now)).
Proof.
  unfold admit_turn. destruct (conn st); simpl; [|apply store_le_refl].
  destruct io; simpl; [|apply store_le_refl].
  destruct (sql_insert _ _ _) as [ts|] eqn:Hi.
  - apply sql_insert_Some in Hi as [Hk ->]. apply store_le_turns; [|done].
    by apply turns_le_fresh.
  - pose proof (classify_le st k now) as Hle.
    by destruct (classify_existing_row st k now).
Qed.

(** Inserting intents only adds rows, each PREPARED under the live fence. *)
Lemma insert_intents_spec st l seq it now clk n xs st' :
  insert_intents st l seq it now clk n xs = Ok st' →
  turns st' = turns st ∧ operations st ⊆ operations st' ∧
  ∀ ok o, operations st !! ok = None → operations st' !! ok = Some o →
    o_state o = PREPARED ∧ o_turn ok = key l ∧ o_generation ok = generation l ∧
    ∃ t, fence_holds st l t = true.
Proof.
  revert st n. induction xs as [|x xs IH]; simpl; intros st n Hi.
  { injection Hi as <-. split_and!; [done|done|]. congruence. }
  destruct (fence_holds st l (clk n)) eqn:Hf; [|done].
  destruct (sql_insert _ _ _) as [os|] eqn:Hins; [|done].
  apply sql_insert_Some in Hins as [Hnone ->].
  apply IH in Hi as (Ht & Hsub & Hnew). simpl in *. clear IH.
  split_and!; [done| |].
  - etrans; [|exact Hsub]. by apply insert_subseteq.
  - intros ok o Hn Ho. destruct (decide (op_key l seq (str_or (it_call_id x) "") = ok)) as [<-|Hne].
    + rewrite (lookup_weaken _ _ _ _ (lookup_insert_eq _ _ _) Hsub) in Ho.
      injection Ho as <-. simpl. eauto.
    + apply Hnew; [by rewrite lookup_insert_ne|done].
Qed.

Lemma insert_intents_rows st l seq it now clk n xs st' :
  insert_intents st l seq it now clk n xs = Ok st' →
  operations st ⊆ operations st' ∧
  ∀ x, x ∈ xs → operations st !! op_key l seq (str_or (it_call_id x) "") = None ∧
    operations st' !! op_key l seq (str_or (it_call_id x) "") = Some (prepared_row x it now).
Proof.
  revert n st. induction xs as [|x xs IH]; simpl; intros n st Hi.
  { injection Hi as <-. split; [done|]. by intros x ?%not_elem_of_nil. }
  destruct (fence_holds _ _ _); [|done].
  destruct (sql_insert _ _ _) as [os|] eqn:E; [|done].
  apply sql_insert_Some in E as [Hn ->]. apply IH in Hi as [Hsub Hall]. simpl in *.
  assert (Hsub' : operations st ⊆ operations st') by (etrans; [by apply insert_subseteq|done]).
  split; [done|]. intros y [->|Hy]%elem_of_cons.
  - split; [done|]. eapply lookup_weaken; [|exact Hsub]. apply lookup_insert_eq.
  - destruct (Hall y Hy) as [Hyn Hys]. split; [|done].
    destruct (operations st !! op_key l seq (str_or (it_call_id y) "")) eqn:E; [|done].
    rewrite lookup_insert_None in Hyn. naive_solver congruence.
Qed.

Lemma fence_holds_row st l now :
  fence_holds st l now = true ↔
  ∃ r, turns st !! key l = Some r ∧ turn_fence r l now = true.
Proof.
  unfold fence_holds. destruct (turns st !! key l); split; [eauto| |done|];
    intros (r' & ? & ?); simplify_eq; done.
Qed.

Lemma record_intents_Ok io st l seq xs it clk st' :
  record_intents io st l seq xs it clk = Ok st' →
  insert_intents st l seq it (clk 0%nat) clk 1 xs = Ok st'.
Proof. unfold record_intents. intros. by repeat case_match. Qed.

Lemma record_intents_le io st l seq xs it clk st' :
  record_intents io st l seq xs it clk = Ok st' → store_le st st'.
Proof.
  intros (Ht & Hsub & Hnew)%record_intents_Ok%insert_intents_spec. split.
  - rewrite Ht. apply turns_le_refl.
  - intros ok o Ho. left. exists o. split; [|apply op_le_refl]. eauto using lookup_weaken.
  - intros ok o Hn Ho. destruct (Hnew _ _ Hn Ho) as (Hp & -> & -> & t & Hf).
    apply fence_holds_row in Hf as (r & Hr & Hf).
    apply turn_fence_true in Hf as (Hg & _ & _ & Ha & _). rewrite Ht. split; [|by eauto].
    intros (r' & Hr' & Hterm). simplify_eq. by rewrite Ha in Hterm.
Qed.

(** The two ledger transitions, inverted. *)
Lemma set_op_state_fenced_Ok io st l seq call s res legal tol clk st' :
  set_op_state_fenced io st l seq call s res legal tol clk = Ok st' →
  st' = st ∧ tol = true ∨
  ∃ o, operations st !! op_key l seq call = Some o ∧ o_state o ∈ legal ∧
    fence_holds st l (clk 1%nat) = true ∧
    let o1 := set_op_state s (clk 0%nat) o in
    st' = with_operations
            (<[op_key l seq call := match res with None => o1 | _ => set_op_result res o1 end]>
               (operations st)) st.
Proof.
  unfold set_op_state_fenced. intros Hs.
  destruct (conn st); [|done]. destruct io; [|done].
  destruct (operations st !! _) as [o|] eqn:Ho; [|destruct tol; naive_solver].
  destruct (bool_decide _ && _) eqn:Hb; [|destruct tol; naive_solver].
  apply andb_true_iff in Hb as [Hl%bool_decide_eq_true Hf]. right. exists o.
  split_and!; [done..|]. by destruct res; injection Hs as <-.
Qed.

Lemma settle_uncertain_op_Ok io st l seq call res tol clk st' :
  settle_uncertain_op io st l seq call res tol clk = Ok st' →
  st' = st ∧ tol = true ∨
  ∃ o, operations st !! op_key l seq call = Some o ∧ in_flight (o_state o) = true ∧
    fence_holds st l (clk 1%nat) = true ∧
    st' = with_operations
            (<[op_key l seq call := set_op_result res
                 (set_op_state (if bool_decide (o_effect_class o = EFFECT_FREE_OBSERVATION)
                                then DEFINITELY_FAILED else OUTCOME_UNKNOWN) (clk 0%nat) o)]>
               (operations st)) st.
Proof.
  unfold settle_uncertain_op. intros Hs.
  destruct (conn st); [|done]. destruct io; [|done].
  destruct (operations st !! _) as [o|] eqn:Ho; [|destruct tol; naive_solver].
  destruct (in_flight _ && _) eqn:Hb; [|destruct tol; naive_solver].
  apply andb_true_iff in Hb as [Hl Hf]. right. exists o.
  split_and!; [done..|]. by injection Hs as <-.
Qed.

Lemma op_le_settle o s now res :
  in_flight (o_state o) = true → s ≠ PREPARED → s ≠ RECONCILED_APPLIED →
  op_le_row o (set_op_result res (set_op_state s now o)).
Proof.
  intros Hf ? ?. split; simpl; [|done|]; by destruct (o_state o), s.
Qed.

Lemma set_op_state_fenced_le io st l seq call s res legal tol clk st' :
  (∀ a, a ∈ legal → in_flight a = true) → s ≠ PREPARED → s ≠ RECONCILED_APPLIED →
  set_op_state_fenced io st l seq call s res legal tol clk = Ok st' → store_le st st'.
Proof.
  intros Hl Hs1 Hs2 [[-> _]|(o & Ho & Hin & _ & ->)]%set_op_state_fenced_Ok;
    [apply store_le_refl|].
  eapply store_le_op_insert; [done|].
  destruct res; [by eauto using op_le_settle|].
  change (op_le_row o (set_op_state s (clk 0%nat) o)).
  destruct (op_le_settle o s (clk 0%nat) (o_result o) (Hl _ Hin) Hs1 Hs2). by split.
Qed.

Lemma settle_uncertain_op_le io st l seq call res tol clk st' :
  settle_uncertain_op io st l seq call res tol clk = Ok st' → store_le st st'.
Proof.
  intros [[-> _]|(o & Ho & Hin & _ & ->)]%settle_uncertain_op_Ok; [apply store_le_refl|].
  eapply store_le_op_insert; [done|]. by apply op_le_settle; [|case_bool_decide..].
Qed.

Lemma mark_running_le io st l seq call clk st' :
  mark_running io st l seq call clk = Ok st' → store_le st st'.
Proof.
  apply set_op_state_fenced_le; [|done|done]. intros a ->%list_elem_of_singleton. done.
Qed.

Lemma settle_op_le io st l seq call s res clk st' :
  settle_op io st l seq call s res clk = Ok st' → store_le st st'.
Proof.
  unfold settle_op. case_bool_decide as Hs; [|done].
  case_bool_decide; [apply settle_uncertain_op_le|].
  apply set_op_state_fenced_le; [|set_solver..].
  intros a Ha. by repeat (apply elem_of_cons in Ha as [->|Ha]; [done|]); apply not_elem_of_nil in Ha.
Qed.

Lemma reject_le io st k : store_le st (reject_resumable io st k).
Proof.
  unfold reject_resumable. destruct (conn st && io); [|apply store_le_refl].
  destruct (turns st !! k) as [r|] eqn:Hr; [|apply store_le_refl].
  case_bool_decide as Hs; [|apply store_le_refl].
  apply store_le_turns; [|done]. apply turns_le_insert with r; [done|].
  split; simpl; [done|done|lia|by rewrite Hs].
Qed.

Lemma load_le io st k : store_le st (fst (load_resumable io st k)).
Proof.
  unfold load_resumable. repeat (case_match; simpl; try apply store_le_refl; try apply reject_le).
Qed.

Lemma acquire_Ok io st k gen tok now st' ol :
  acquire_resume_lease io st k gen tok now = Ok (st', ol) →
  st' = st ∧ ol = None ∨
  ∃ r, turns st !! k = Some r ∧ t_status r = SUSPENDED ∧ t_generation r = gen ∧
    st' = with_turns (<[k := set_lease (Some tok) (Some (now + lease_ttl st))
                               (set_status ACTIVE r)]> (turns st)) st ∧
    ol = Some {| key := k; generation := gen; token := tok; revision := t_revision r |}.
Proof.
  unfold acquire_resume_lease. intros Ha.
  destruct (conn st); simpl in Ha; [|naive_solver]. destruct io; [|done].
  destruct (turns st !! k) as [r|] eqn:Hr; [|naive_solver].
  destruct (bool_decide (t_status r = _) && _) eqn:Hb; [|naive_solver].
  apply andb_true_iff in Hb as [?%bool_decide_eq_true ?%bool_decide_eq_true].
  right. exists r. naive_solver.
Qed.

Lemma acquire_le io st k gen tok now st' ol :
  acquire_resume_lease io st k gen tok now = Ok (st', ol) → store_le st st'.
Proof.
  intros [[-> _]|(r & Hr & Hs & _ & -> & _)]%acquire_Ok; [apply store_le_refl|].
  apply store_le_turns; [|done]. apply turns_le_insert with r; [done|].
  split; simpl; [done|done|lia|by rewrite Hs].
Qed.

Lemma manual_le io st k gen now st' n :
  mark_ops_manual io st k gen now = Ok (st', n) → store_le st st'.
Proof.
  unfold mark_ops_manual. destruct (conn st); [|done].
  destruct io; intros [= <- <-]; [|apply store_le_refl].
  eapply store_le_op_update; simpl; [apply turns_le_refl|done|].
  intros ok o Hm. unfold manual_where in Hm. bool_prop.
  split; simpl; [|done|done]. match goal with H : o_state o = _ |- _ => by rewrite H end.
Qed.

Lemma release_Ok io st l reason st' :
  release_acquired io st l reason = Ok st' →
  st' = st ∨
  ∃ r, turns st !! key l = Some r ∧ t_generation r = generation l ∧
    t_lease_token r = Some (token l) ∧ t_status r = ACTIVE ∧
    st' = with_turns (<[key l := set_lease None None
            (match reason with
             | Some _ => set_payload None None (set_status TERMINAL_REJECTED r)
             | None => set_status SUSPENDED r end)]> (turns st)) st.
Proof.
  unfold release_acquired. intros Hr. destruct (conn st); [|done].
  destruct (turns st !! key l) as [r|] eqn:Hk; [|naive_solver].
  destruct (_ && _) eqn:Hb in Hr; [|naive_solver]. bool_prop. right. exists r. naive_solver.
Qed.

Lemma release_le io st l reason st' : release_acquired io st l reason = Ok st' → store_le st st'.
Proof.
  intros [->|(r & Hr & Hg & _ & Hs & ->)]%release_Ok; [apply store_le_refl|].
  apply store_le_turns; [|done]. apply turns_le_insert with r; [done|].
  destruct reason; split; simpl; try done; by rewrite Hs.
Qed.

Lemma sweep_active_le st only now st' c : sweep_active st only now = Ok (st', c) → store_le st st'.
Proof.
  unfold sweep_active. destruct (conn st); [|done]. intros [= <- <-].
  eapply store_le_op_update; simpl; [|done|].
  - apply turns_le_update. intros k r _ Hst. unfold stale_where in Hst. bool_prop.
    split; simpl; [done|done|lia|]. match goal with H : t_status r = _ |- _ => by rewrite H end.
  - intros ok o Hw. unfold sweep_op_where in Hw.
    destruct (turns st !! o_turn ok); [|done]. bool_prop.
    split; simpl; [|done|]; case_bool_decide; by destruct (o_state o).
Qed.

Lemma sweep_expired_le io st now : store_le st (fst (sweep_expired_active io st now)).
Proof.
  unfold sweep_expired_active. destruct (negb (conn st)); [apply store_le_refl|].
  destruct io; [|apply store_le_refl].
  destruct (sweep_active st true now) as [[st' c]|] eqn:E; [|apply store_le_refl].
  by eapply sweep_active_le.
Qed.

Lemma migrate_le st now : store_le st (fst (migrate_schema st now)).
Proof.
  unfold migrate_schema; simpl. apply store_le_ops; simpl.
  - apply turns_le_update. intros k r _ _. by destruct (t_payload r).
  - intros ok. rewrite !lookup_sql_update. by intros ->.
  - intros ok o Ho. rewrite !lookup_sql_update, Ho. simpl. eexists; split; [done|].
    destruct (bool_decide (o_tool_name o ∈ _)) eqn:Ht; simpl; [|rewrite Ht; apply op_le_refl].
    assert (o_tool_name o ∈ effect_free_observation_tools) by by apply bool_decide_eq_true in Ht.
    destruct (bool_decide (o_state o = _)) eqn:Hu; simpl; rewrite Ht; simpl;
      repeat case_match; bool_prop; split; simpl; rewrite ?Hu; try done; by destruct (o_state o).
Qed.

Lemma boot_le io st now now' : store_le st (boot io st now now').
Proof.
  unfold boot. destruct io.
  - destruct (sweep_active _ _ _) as [[st' c]|] eqn:E; [|by apply store_le_turns; [apply turns_le_refl|]].
    apply sweep_active_le in E. etrans; [|exact E].
    etrans; [|apply migrate_le]. by apply store_le_turns; [apply turns_le_refl|].
  - by apply store_le_turns; [apply turns_le_refl|].
Qed.

Lemma ttl_le io st rh pd ld now : store_le st (fst (ttl_sweep io st rh pd ld now)).
Proof.
  unfold ttl_sweep. destruct (negb (conn st)); [apply store_le_refl|].
  cbv beta zeta. unfold fst.
  set (ts1 := if (2 <=? io)%nat then _ else _). set (ts2 := if (3 <=? io)%nat then _ else ts1).
  assert (Hle : turns_le (turns st) ts2).
  { apply turns_le_trans with ts1.
    - subst ts1. destruct (2 <=? io)%nat; [|apply turns_le_refl]. apply turns_le_update. intros k r _ Hw.
      unfold ttl_expire_where in Hw. bool_prop. split; simpl; [done|done|lia|].
      match goal with H : t_status r = _ |- _ => by rewrite H end.
    - subst ts2. destruct (3 <=? io)%nat; [|apply turns_le_refl]. apply turns_le_update. by split. }
  clearbody ts2. destruct (4 <=? io)%nat; [|by apply store_le_turns].
  split; simpl; [done| |].
  - intros ok o Ho. rewrite lookup_sql_delete, Ho. simpl.
    destruct (ttl_delete_where _ _ _ _ _) eqn:Hd; [right|left; eauto using op_le_refl].
    unfold ttl_delete_where in Hd. destruct (ts2 !! o_turn ok) as [r|] eqn:Hr; bool_prop; [|done].
    split_and!; [done|by exists r|congruence].
  - intros ok o Hn Ho. rewrite lookup_sql_delete, Hn in Ho. done.
Qed.

Lemma commit_le s r st' :
  r = Ok st' → store_le (store s) st' → store_le (store s) (store (commit s r)).
Proof. by intros ->. Qed.

(** Every operation moves the store up the order. *)
Lemma exec_le s lb : store_le (store s) (store (exec s lb)).
Proof.
  assert (Hcommit : ∀ r, (∀ st', r = Ok st' → store_le (store s) st') →
            store_le (store s) (store (commit s r))).
  { intros [st'|] Hr; simpl; [by apply Hr|apply store_le_refl]. }
  assert (Hpublish : ∀ h r, (∀ st' l', r = Ok (st', l') → store_le (store s) st') →
            store_le (store s) (store (publish h s r))).
  { intros h [[st' l']|] Hr; simpl; [by eapply Hr|apply store_le_refl]. }
  destruct lb; simpl; unfold with_handle;
    try (destruct (leases s !! h) as [l|]; [|apply store_le_refl]);
    eauto using checkpoint_le, heartbeat_le, suspend_le, finish_le, record_intents_le,
      settle_op_le, settle_uncertain_op_le, load_le, reject_le, release_le, sweep_expired_le,
      ttl_le, boot_le.
  - pose proof (admit_le io (store s) k guild user digest version policy catalog snapshot
                  gen tok now) as Ha.
    destruct (admit_turn _ _ _ _ _ _ _ _ _ _ _ _ _) as [st' [[l|] d]]; exact Ha.
  - destruct (mark_running _ _ _ _ _ _) as [st'|] eqn:E; [|apply store_le_refl].
    by apply mark_running_le in E.
  - destruct (acquire_resume_lease _ _ _ _ _ _) as [[st' [l|]]|] eqn:E; simpl;
      [by apply acquire_le in E..|apply store_le_refl].
  - destruct (mark_ops_manual _ _ _ _ _) as [[st' n]|] eqn:E; [|apply store_le_refl].
    by apply manual_le in E.
  - by apply store_le_turns; [apply turns_le_refl|].
Qed.

Lemma run_le s ls : store_le (store s) (store (run exec s ls)).
Proof.
  apply (run_relation exec (λ _, True) (λ a b, store_le (store a) (store b))); [done| |done|].
  - intros a b c. apply transitivity.
  - intros a l _. split; [done|apply exec_le].
Qed.

(** ** What a step does to the leases and to the rows they fence *)

(** No row gains a token, and generation and revision stay. *)
Definition quiet (ts ts' : gmap TurnKey TurnRow) : Prop :=
  ∀ k r', ts' !! k = Some r' → ∃ r, ts !! k = Some r ∧
    t_generation r' = t_generation r ∧ t_revision r' = t_revision r ∧
    (t_lease_token r' = None ∨ t_lease_token r' = t_lease_token r).

Lemma quiet_refl ts : quiet ts ts.
Proof. intros k r Hr. eauto 6. Qed.

Lemma quiet_trans a b c : quiet a b → quiet b c → quiet a c.
Proof.
  intros Hab Hbc k r Hr. destruct (Hbc _ _ Hr) as (r1 & Hr1 & ? & ? & ?).
  destruct (Hab _ _ Hr1) as (r2 & ? & ? & ? & ?). exists r2.
  split_and!; [done|congruence|congruence|]. naive_solver congruence.
Qed.

Lemma quiet_insert ts k r r' :
  ts !! k = Some r → t_generation r' = t_generation r → t_revision r' = t_revision r →
  t_lease_token r' = None ∨ t_lease_token r' = t_lease_token r → quiet ts (<[k:=r']> ts).
Proof.
  intros Hr Hg Hv Ht k0 r0. destruct (decide (k = k0)) as [->|?].
  - rewrite lookup_insert_eq. intros [= <-]. eauto 6.
  - rewrite lookup_insert_ne by done. eauto 6.
Qed.

Lemma quiet_update P f ts :
  (∀ k r, t_generation (f k r) = t_generation r ∧ t_revision (f k r) = t_revision r ∧
     (t_lease_token (f k r) = None ∨ t_lease_token (f k r) = t_lease_token r)) →
  quiet ts (sql_update P f ts).
Proof.
  intros Hf k r'. rewrite lookup_sql_update.
  destruct (ts !! k) as [r|] eqn:Hr; simpl; intros [= <-].
  exists r. split; [done|]. destruct (P k r); naive_solver.
Qed.

(** The three kinds of step. *)
Inductive lease_step (s s' : Sys) : Prop :=
| ls_quiet :
    quiet (turns (store s)) (turns (store s')) → leases s' = leases s → lease_step s s'
| ls_fenced h l r set bump now :
    leases s !! h = Some l → turns (store s) !! key l = Some r →
    turn_fence r l now = true →
    t_generation (set r) = t_generation r →
    (t_lease_token (set r) = None ∨ t_lease_token (set r) = t_lease_token r) →
    let rev := if bump : bool then revision l + 1 else revision l in
    turns (store s') = <[key l := set_revision rev (set r)]> (turns (store s)) →
    leases s' = <[h := set_lease_revision rev l]> (leases s) → lease_step s s'
| ls_grant l r' :
    leases s' = leases s ++ [l] → turns (store s') = <[key l := r']> (turns (store s)) →
    t_lease_token r' = Some (token l) → t_generation r' = generation l →
    t_revision r' = revision l → lease_step s s'.

Lemma publish_lease_step h l s set bump now io :
  leases s !! h = Some l → set_ok set →
  (∀ r, t_lease_token (set r) = None ∨ t_lease_token (set r) = t_lease_token r) →
  lease_step s (publish h s (fenced_update io (store s) l set bump now)).
Proof.
  intros Hl Hset Htok. destruct (fenced_update _ _ _ _ _ _) as [[st' l']|] eqn:E; simpl;
    [|by apply ls_quiet; [apply quiet_refl|]].
  apply fenced_update_Ok in E as (r & Hr & Hf & -> & ->).
  eapply (ls_fenced _ _ h l r set bump); try done. apply Hset.
Qed.

Lemma quiet_step s st' :
  quiet (turns (store s)) (turns st') → lease_step s (set_store st' s).
Proof. intros. by apply ls_quiet. Qed.

Lemma commit_step s r :
  (∀ st', r = Ok st' → quiet (turns (store s)) (turns st')) → lease_step s (commit s r).
Proof.
  intros Hq. destruct r as [st'|]; simpl; [apply quiet_step; by apply Hq|].
  apply ls_quiet; [apply quiet_refl|done].
Qed.

Lemma same_turns_quiet ts ts' : ts' = ts → quiet ts ts'.
Proof. intros ->. apply quiet_refl. Qed.

Lemma settle_uncertain_op_turns io st l seq call res tol clk st' :
  settle_uncertain_op io st l seq call res tol clk = Ok st' → turns st' = turns st.
Proof. by intros [[-> _]|(o & _ & _ & _ & ->)]%settle_uncertain_op_Ok. Qed.

Lemma set_op_state_fenced_turns io st l seq call s res legal tol clk st' :
  set_op_state_fenced io st l seq call s res legal tol clk = Ok st' → turns st' = turns st.
Proof. by intros [[-> _]|(o & _ & _ & _ & ->)]%set_op_state_fenced_Ok. Qed.

Lemma settle_op_turns io st l seq call s res clk st' :
  settle_op io st l seq call s res clk = Ok st' → turns st' = turns st.
Proof.
  unfold settle_op. repeat case_bool_decide; try done;
    eauto using settle_uncertain_op_turns, set_op_state_fenced_turns.
Qed.

Lemma classify_quiet st k now : quiet (turns st) (turns (fst (classify_existing_row st k now))).
Proof.
  unfold classify_existing_row. destruct (turns st !! k) as [r|] eqn:Hr; [|apply quiet_refl].
  repeat (case_match; try apply quiet_refl). simpl. apply quiet_insert with r; auto.
Qed.

Lemma reject_quiet io st k : quiet (turns st) (turns (reject_resumable io st k)).
Proof.
  unfold reject_resumable. repeat (case_match; try apply quiet_refl).
  simpl. eapply quiet_insert; eauto.
Qed.

Lemma load_quiet io st k : quiet (turns st) (turns (fst (load_resumable io st k))).
Proof.
  unfold load_resumable.
  repeat (case_match; simpl; try apply quiet_refl; try apply reject_quiet).
Qed.

Lemma sweep_active_quiet st only now st' c :
  sweep_active st only now = Ok (st', c) → quiet (turns st) (turns st').
Proof.
  unfold sweep_active. destruct (conn st); [|done]. intros [= <- <-]. simpl.
  apply quiet_update. intros. simpl. eauto.
Qed.

Lemma boot_quiet io st now now' : quiet (turns st) (turns (boot io st now now')).
Proof.
  unfold boot. destruct io; [|apply quiet_refl].
  destruct (sweep_active _ _ _) as [[st' c]|] eqn:E; [|apply quiet_refl].
  apply sweep_active_quiet in E. eapply quiet_trans; [|exact E]. simpl.
  apply quiet_update. intros k r. destruct (t_payload r); simpl; eauto.
Qed.

Lemma ttl_quiet io st rh pd ld now : quiet (turns st) (turns (fst (ttl_sweep io st rh pd ld now))).
Proof.
  unfold ttl_sweep. destruct (negb (conn st)); [apply quiet_refl|].
  cbv beta zeta. unfold fst. cbn [turns]. set (ts1 := if (2 <=? io)%nat then _ else _). apply (quiet_trans _ ts1).
  - subst ts1. destruct (2 <=? io)%nat; [apply quiet_update; intros; simpl; eauto|apply quiet_refl].
  - destruct (3 <=? io)%nat; [apply quiet_update; intros; simpl; eauto|apply quiet_refl].
Qed.

Lemma admit_step s io k a b c d e f g gen tok now :
  lease_step s (exec s (LAdmit io k a b c d e f g gen tok now)).
Proof.
  simpl. unfold admit_turn. destruct (conn (store s)); simpl;
    [|apply ls_quiet; [apply quiet_refl|done]].
  destruct io; simpl; [|apply ls_quiet; [apply quiet_refl|done]].
  destruct (sql_insert _ _ _) as [ts|] eqn:E.
  - apply sql_insert_Some in E as [_ ->].
    eapply (ls_grant _ _ {| key := k; generation := gen; token := tok; revision := 0 |}); done.
  - pose proof (classify_quiet (store s) k now) as Hq.
    destruct (classify_existing_row _ _ _) as [st' dd]. by apply quiet_step.
Qed.

Lemma resume_step s io k gen tok now : lease_step s (exec s (LResume io k gen tok now)).
Proof.
  simpl. destruct (acquire_resume_lease _ _ _ _ _ _) as [[st' ol]|] eqn:E;
    [|apply ls_quiet; [apply quiet_refl|done]].
  apply acquire_Ok in E as [[-> ->]|(r & Hr & _ & Hg & -> & ->)].
  - apply ls_quiet; [apply quiet_refl|done].
  - eapply (ls_grant _ _ {| key := k; generation := gen; token := tok; revision := t_revision r |});
      simpl; try done.
Qed.

Lemma exec_lease_step s lb : lease_step s (exec s lb).
Proof.
  assert (Hid : lease_step s s) by (by apply ls_quiet; [apply quiet_refl|]).
  destruct lb; try apply admit_step; try apply resume_step; simpl; unfold with_handle;
    try (destruct (leases s !! h) as [l|] eqn:Hl; [|done]).
  - apply publish_lease_step; [done|by intros r|by right].
  - apply publish_lease_step; [done|by intros r|by right].
  - apply publish_lease_step; [done|by intros r|by left].
  - unfold finish. destruct (TERMINAL status); [|done].
    apply publish_lease_step; [done|by intros r|by left].
  - apply commit_step. intros st' (Ht & _)%record_intents_Ok%insert_intents_spec.
    by apply same_turns_quiet.
  - destruct (mark_running _ _ _ _ _ _) as [st'|] eqn:E; [|done].
    apply set_op_state_fenced_turns in E. by apply ls_quiet; [apply same_turns_quiet|].
  - apply commit_step. eauto using same_turns_quiet, settle_op_turns.
  - apply commit_step. eauto using same_turns_quiet, settle_uncertain_op_turns.
  - apply quiet_step, load_quiet.
  - apply quiet_step, reject_quiet.
  - unfold mark_ops_manual. destruct (conn (store s)); [|done].
    destruct io; simpl; by apply quiet_step, same_turns_quiet.
  - apply commit_step. intros st' [->|(r & Hr & _ & _ & _ & ->)]%release_Ok; [apply quiet_refl|].
    simpl. destruct terminal_reason; eapply quiet_insert; eauto.
  - apply quiet_step. unfold sweep_expired_active.
    destruct (negb _); [apply quiet_refl|]. destruct io; [|apply quiet_refl].
    destruct (sweep_active _ _ _) as [[st' c]|] eqn:E; [|apply quiet_refl].
    by eapply sweep_active_quiet.
  - apply quiet_step, ttl_quiet.
  - apply quiet_step, boot_quiet.
  - apply quiet_step, quiet_refl.
Qed.

End evolution.
