(* ===== verification/TurnTheory.v ===== *)
(** * The turn store: invariants of its runs and its properties

    Proved from the evolution lemmas of [TurnSystem]: at-most-once effects, lease
    fencing, terminal and evidence retention, row well-formedness, crash recovery
    and the checkpoint round trip. *)

From S2P Require Import Prelude Sql Effects TurnStore TurnSystem.
Open Scope string_scope.
Open Scope list_scope.
Open Scope Z_scope.

Section theory.
Context {J : Type} `{JsonText J} `{Sha256}.

(** ** Invariants of runs *)

Lemma exec_started s lb :
  started (exec s lb) = started s ∨
  ∃ io h seq call clk l st', leases s !! h = Some l ∧
    mark_running io (store s) l seq call clk = Ok st' ∧
    exec s lb = {| store := st'; leases := leases s; started := op_key l seq call :: started s |}.
Proof.
  destruct lb; simpl; unfold with_handle, publish, commit, add_lease, set_store;
    try (left; repeat case_match; done).
  destruct (leases s !! h) as [l|] eqn:Hl; [|by left].
  destruct (mark_running _ _ _ _ _ _) as [st'|] eqn:E; [|by left]. right. eauto 12.
Qed.

(** What a granted start leaves behind: its turn row carries the generation, and
    either the ledger row has left PREPARED or the turn is over. *)
Definition start_trace (st : Store) (ok : OpKey) : Prop :=
  (∃ r, turns st !! o_turn ok = Some r ∧ t_generation r = o_generation ok) ∧
  (terminal_turn (turns st) (o_turn ok) ∨
   ∃ o, operations st !! ok = Some o ∧ o_state o ≠ PREPARED).

Lemma start_trace_le st st' ok : store_le st st' → start_trace st ok → start_trace st' ok.
Proof.
  intros [Ht Ho _] [(r & Hr & Hg) Hs]. split.
  { destruct (Ht _ _ Hr) as (r' & ? & [Hg' _ _ _]). exists r'. by rewrite Hg'. }
  destruct Hs as [Hterm|(o & Hok & Hp)]; [left; eauto using terminal_turn_le|].
  destruct (Ho _ _ Hok) as [(o' & Hok' & [Hs _ _])|(_ & Hterm & _)]; [right|by left].
  exists o'. split; [done|]. by destruct (o_state o), (o_state o').
Qed.

Definition started_inv (s : Sys) : Prop :=
  NoDup (started s) ∧ Forall (start_trace (store s)) (started s).

Lemma started_inv_step s lb : started_inv s → started_inv (exec s lb).
Proof.
  intros [Hnd Hall]. destruct (exec_started s lb) as [Heq|(io&h&seq&call&clk&l&st'&Hl&Hm&Heq)].
  - split; rewrite Heq; [done|]. eapply Forall_impl; [exact Hall|].
    intros ok. apply start_trace_le, exec_le.
  - rewrite Heq. pose proof (mark_running_le _ _ _ _ _ _ _ Hm) as Hle.
    apply set_op_state_fenced_Ok in Hm as [[_ ?]|(o & Ho & Hp%list_elem_of_singleton & Hf & ->)];
      [done|].
    apply fence_holds_row in Hf as (r & Hr & Hf).
    apply turn_fence_true in Hf as (Hg & _ & _ & Ha & _).
    split; simpl.
    + constructor; [|done]. intros Hin.
      apply (proj1 (Forall_forall _ _) Hall) in Hin as [_ [(r' & Hr' & Ht)|(o' & Ho' & Hn)]].
      * simpl in Hr'. simplify_eq. by rewrite Ha in Ht.
      * simplify_eq.
    + constructor.
      * split; simpl; [by eauto|]. right. rewrite lookup_insert_eq. by eexists.
      * eapply Forall_impl; [exact Hall|]. intros ok. by apply start_trace_le.
Qed.

Lemma started_inv_run ttl ls : started_inv (run exec (fresh_sys ttl) ls).
Proof. apply run_invariant; [split; constructor|apply started_inv_step]. Qed.

(** The lease invariant: the row's token belongs to a handle of that turn, in
    step with the row on generation and revision. *)
Definition lease_inv (s : Sys) : Prop :=
  ∀ k r t, turns (store s) !! k = Some r → t_lease_token r = Some t →
    ∃ h l, leases s !! h = Some l ∧ key l = k ∧ token l = t ∧
           generation l = t_generation r ∧ revision l = t_revision r.

Definition tokens (s : Sys) : list string := token <$> leases s.

Lemma tokens_step s s' : lease_step s s' → tokens s `prefix_of` tokens s'.
Proof.
  unfold tokens. intros [Hq ->|h l r set bump now Hl _ _ _ _ rev _ ->|l r' -> _ _ _ _].
  - done.
  - rewrite list_fmap_insert. rewrite list_insert_id; [done|].
    by rewrite list_lookup_fmap, Hl.
  - rewrite fmap_app. by apply prefix_app_r.
Qed.

Lemma tokens_run s ls : tokens s `prefix_of` tokens (run exec s ls).
Proof.
  apply (run_relation exec (λ _, True) (λ a b, tokens a `prefix_of` tokens b)); [done| |done|].
  - intros a b c. apply transitivity.
  - intros a l _. split; [done|apply tokens_step, exec_lease_step].
Qed.

Lemma NoDup_prefix {A} (l k : list A) : l `prefix_of` k → NoDup k → NoDup l.
Proof. intros [k' ->] Hn. by apply NoDup_app in Hn as [? _]. Qed.

(** With distinct tokens a handle is determined by its token. *)
Lemma token_handle s h1 h2 l1 l2 :
  NoDup (tokens s) → leases s !! h1 = Some l1 → leases s !! h2 = Some l2 →
  token l1 = token l2 → h1 = h2.
Proof.
  intros Hnd H1 H2 Ht. apply (NoDup_lookup (tokens s) h1 h2 (token l1) Hnd);
    unfold tokens; rewrite list_lookup_fmap, ?H1, ?H2; simpl; congruence.
Qed.

Lemma lease_inv_step s s' :
  NoDup (tokens s) → lease_step s s' → lease_inv s → lease_inv s'.
Proof.
  intros Hnd Hstep Hinv k r' t.
  destruct Hstep as [Hq Hl|h l r set bump now Hh Hr Hf Hg Ht rev Hts Hl
                    |l r1 Hl Hts Htok Hgen Hrev].
  - intros Hr' Htok. rewrite Hl. destruct (Hq _ _ Hr') as (r & Hr & -> & -> & [Hn|Hn]); [congruence|].
    apply (Hinv k r t Hr). congruence.
  - rewrite Hts, Hl. pose proof (lookup_lt_Some _ _ _ Hh) as Hlt.
    apply turn_fence_true in Hf as (Hfg & Hfr & Hft & _ & _).
    destruct (decide (key l = k)) as [<-|Hne].
    + rewrite lookup_insert_eq. intros [= <-]. simpl. intros Htok.
      exists h, (set_lease_revision rev l). rewrite list_lookup_insert_eq by done.
      destruct Ht as [?|Ht]; [congruence|]. simpl. split_and!; try done; congruence.
    + rewrite lookup_insert_ne by done. intros Hr' Htok.
      destruct (Hinv _ _ _ Hr' Htok) as (h' & l' & Hh' & Hk & ? & ? & ?).
      exists h', l'. rewrite list_lookup_insert_ne by congruence. done.
  - rewrite Hts, Hl. destruct (decide (key l = k)) as [<-|Hne].
    + rewrite lookup_insert_eq. intros [= <-] Ht'. exists (length (leases s)), l.
      rewrite list_lookup_middle by done. split_and!; congruence.
    + rewrite lookup_insert_ne by done. intros Hr' Htok'.
      destruct (Hinv _ _ _ Hr' Htok') as (h' & l' & Hh' & ?).
      exists h', l'. by rewrite lookup_app_l by eauto using lookup_lt_Some.
Qed.

Lemma lease_inv_run ttl ls :
  NoDup (tokens (run exec (fresh_sys ttl) ls)) → lease_inv (run exec (fresh_sys ttl) ls).
Proof.
  induction ls as [|lb ls IH] using rev_ind; [intros _ k r t Hk; by simpl in Hk|].
  rewrite run_app. simpl. set (s := run exec (fresh_sys ttl) ls) in *. intros Hnd.
  assert (Hs : NoDup (tokens s)).
  { eapply NoDup_prefix; [|exact Hnd]. apply tokens_step, exec_lease_step. }
  eapply lease_inv_step; [exact Hs|apply exec_lease_step|auto].
Qed.

(** Handle [h] holds the fence no more: its token is not the row's. *)
Definition fenced_out (s : Sys) (h : nat) : Prop :=
  ∃ l, leases s !! h = Some l ∧
    ∀ r, turns (store s) !! key l = Some r → t_lease_token r ≠ Some (token l).

Lemma fenced_out_step s s' h :
  NoDup (tokens s') → lease_step s s' → fenced_out s h → fenced_out s' h.
Proof.
  intros Hnd Hstep (l & Hh & Hout). pose proof (tokens_step _ _ Hstep) as Hpre.
  destruct Hstep as [Hq Hl|h' l' r set bump now Hh' Hr Hf Hg Ht rev Hts Hl
                    |l' r1 Hl Hts Htok Hgen Hrev].
  - exists l. rewrite Hl. split; [done|]. intros r' Hr'.
    destruct (Hq _ _ Hr') as (r & Hr & _ & _ & [->| ->]); [done|by apply Hout].
  - apply turn_fence_true in Hf as (_ & _ & Hft & _ & _).
    assert (h' ≠ h) as Hne by (intros ->; simplify_eq; by apply (Hout _ Hr)).
    exists l. rewrite Hl, list_lookup_insert_ne by done. split; [done|].
    intros r'. rewrite Hts. destruct (decide (key l' = key l)) as [Hk|?].
    + rewrite Hk, lookup_insert_eq. intros [= <-]. simpl. rewrite Hk in Hr.
      destruct Ht as [->| ->]; [done|by apply Hout].
    + rewrite lookup_insert_ne by done. apply Hout.
  - exists l. rewrite Hl. rewrite lookup_app_l by eauto using lookup_lt_Some. split; [done|].
    intros r'. rewrite Hts. destruct (decide (key l' = key l)) as [Hk|?].
    + rewrite Hk, lookup_insert_eq. intros [= <-]. rewrite Htok. intros [= Heq].
      assert (h = length (leases s)); [|apply lookup_lt_Some in Hh; lia].
      apply (token_handle s' h (length (leases s)) l l' Hnd); [| |done].
      * rewrite Hl. by apply lookup_app_l_Some.
      * rewrite Hl. by apply list_lookup_middle.
    + rewrite lookup_insert_ne by done. apply Hout.
Qed.

Lemma fenced_out_run s ls h :
  NoDup (tokens (run exec s ls)) → fenced_out s h → fenced_out (run exec s ls) h.
Proof.
  intros Hnd Hout. induction ls as [|lb ls IH] using rev_ind; [done|].
  rewrite run_app in *. simpl in *. eapply fenced_out_step; [done|apply exec_lease_step|].
  apply IH. eapply NoDup_prefix; [|exact Hnd]. apply tokens_step, exec_lease_step.
Qed.

(** ** Well-formed rows *)

Record row_wf (r : TurnRow) : Prop := {
  wf_active : t_status r = ACTIVE ↔ is_Some (t_lease_token r);
  wf_expiry : is_Some (t_lease_token r) ↔ is_Some (t_lease_expires_at r);
  wf_digest : t_payload_digest r = payload_digest <$> t_payload r;
  wf_payload : TERMINAL (t_status r) = true → is_Some (t_payload r) → t_status r = TERMINAL_EXPIRED;
  wf_revision : 0 ≤ t_revision r
}.

Definition store_wf (st : Store) : Prop := map_Forall (λ _, row_wf) (turns st).

Lemma store_wf_turns st st' : turns st' = turns st → store_wf st → store_wf st'.
Proof. unfold store_wf. by intros ->. Qed.

Lemma store_wf_insert st st' k r :
  turns st' = <[k := r]> (turns st) → row_wf r → store_wf st → store_wf st'.
Proof. unfold store_wf. intros -> Hr Hst. by apply map_Forall_insert_2. Qed.

Lemma store_wf_update st st' P f :
  turns st' = sql_update P f (turns st) → (∀ k r, P k r = true → row_wf r → row_wf (f k r)) →
  store_wf st → store_wf st'.
Proof.
  unfold store_wf. intros -> Hf Hst k r'. rewrite lookup_sql_update.
  destruct (turns st !! k) as [r|] eqn:Hr; simpl; intros [= <-].
  specialize (Hst _ _ Hr). destruct (P k r) eqn:E; auto.
Qed.

(** A status leaving ACTIVE drops the lease with it. *)
Lemma row_wf_released r s p d :
  s ≠ ACTIVE → d = payload_digest <$> p →
  (TERMINAL s = true → is_Some p → s = TERMINAL_EXPIRED) → row_wf r →
  row_wf (set_lease None None (set_payload p d (set_status s r))).
Proof.
  intros Hs -> Hp [_ _ _ _ Hrev]. split; simpl; try done; try (split; [done|by intros [? [=]]]).
Qed.

Lemma fenced_update_wf io st l set bump now st' l' :
  (∀ r, row_wf r → t_status r = ACTIVE → row_wf (set r)) →
  fenced_update io st l set bump now = Ok (st', l') → store_wf st → store_wf st'.
Proof.
  intros Hset (r & Hr & Hf & -> & ->)%fenced_update_Ok Hst.
  apply turn_fence_true in Hf as (_ & Hrev & _ & Ha & _).
  pose proof (map_Forall_lookup_1 _ _ _ _ Hst Hr) as Hwf.
  eapply store_wf_insert; [done| |done].
  destruct (Hset r Hwf Ha). split; simpl; try done. destruct Hwf. destruct bump; lia.
Qed.

Lemma row_wf_renew r exp : row_wf r → row_wf (set_lease (t_lease_token r) (sql_max (t_lease_expires_at r) exp) r).
Proof.
  intros [? He ? ? ?]. split; simpl; try done. rewrite He.
  destruct (t_lease_expires_at r); simpl; [|done]. split; eauto.
Qed.

Lemma row_wf_payload r p : row_wf r → t_status r = ACTIVE →
  row_wf (set_payload (Some p) (Some (payload_digest p)) r).
Proof. intros [? ? ? ? ?] Ha. split; simpl; try done. by rewrite Ha. Qed.

Lemma row_wf_progress r t d : row_wf r → row_wf (set_progress t d r).
Proof. by intros [? ? ? ? ?]; split. Qed.

Lemma classify_wf st k now : store_wf st → store_wf (fst (classify_existing_row st k now)).
Proof.
  intros Hst. unfold classify_existing_row. destruct (turns st !! k) as [r|] eqn:Hr; [|done].
  destruct (TERMINAL (t_status r)) eqn:Ht; [done|]. case_bool_decide; [done|].
  destruct (sql_gt _ _); [done|].
  eapply store_wf_insert; [done| |done].
  destruct (map_Forall_lookup_1 _ _ _ _ Hst Hr).
  split; simpl; try done; try (split; [done|by intros [? [=]]]).
Qed.

Lemma reject_wf io st k : store_wf st → store_wf (reject_resumable io st k).
Proof.
  intros Hst. unfold reject_resumable. destruct (conn st && io); [|done].
  destruct (turns st !! k) as [r|] eqn:Hr; [|done]. case_bool_decide; [|done].
  eapply store_wf_insert; [done| |done].
  apply row_wf_released; [done|done|by intros _ [? [=]]|].
  exact (map_Forall_lookup_1 _ _ _ _ Hst Hr).
Qed.

Lemma sweep_active_wf st only now st' c :
  sweep_active st only now = Ok (st', c) → store_wf st → store_wf st'.
Proof.
  unfold sweep_active. destruct (conn st); [|done]. intros [= <- <-].
  eapply store_wf_update; [done|]. intros k r Hs [? ? ? ? ?].
  split; simpl; try done; try (split; [done|by intros [? [=]]]).
Qed.

Lemma migrate_wf st now : store_wf st → store_wf (fst (migrate_schema st now)).
Proof.
  eapply store_wf_update; [done|]. intros k r Hs Hwf. simpl.
  destruct (t_payload r) as [p|] eqn:Hp; [|done]. destruct Hwf as [Ha He Hd Hpl Hrv]. split; simpl; try done.
  intros Ht _. by apply Hpl.
Qed.

Lemma boot_wf io st now now' : store_wf st → store_wf (boot io st now now').
Proof.
  intros Hst. unfold boot. destruct io; [|by eapply store_wf_turns; [|exact Hst]].
  destruct (sweep_active _ _ _) as [[st' c]|] eqn:E; [|by eapply store_wf_turns; [|exact Hst]].
  eapply sweep_active_wf; [exact E|]. apply migrate_wf. by eapply store_wf_turns; [|exact Hst].
Qed.

Lemma ttl_wf io st rh pd ld now : store_wf st → store_wf (fst (ttl_sweep io st rh pd ld now)).
Proof.
  intros Hst. unfold ttl_sweep. destruct (negb (conn st)); [done|].
  cbv beta zeta. unfold fst.
  set (ts1 := if (2 <=? io)%nat then _ else _). assert (H1 : store_wf (with_turns ts1 st)).
  { subst ts1. destruct (2 <=? io)%nat; [|by eapply store_wf_turns; [|exact Hst]].
    eapply store_wf_update with (st := st); [done| |done]. intros k r Hw [Ha He ? ? ?]. unfold ttl_expire_where in Hw. bool_prop.
    match goal with Hs : t_status r = SUSPENDED |- _ => rewrite Hs in Ha end.
    split; simpl; try done. split; [done|]. intros Hs. by apply Ha in Hs. }
  clearbody ts1. destruct (3 <=? io)%nat; [|by eapply store_wf_turns; [|exact H1]].
  eapply store_wf_update with (st := with_turns ts1 st); [done| |done].
  intros k r Hw [? ? ? ? ?]. split; simpl; done.
Qed.

Lemma admit_wf io st k a b c d e f g gen tok now :
  store_wf st → store_wf (fst (admit_turn io st k a b c d e f g gen tok now)).
Proof.
  intros Hst. unfold admit_turn. destruct (negb (conn st)); [done|]. destruct (negb io); [done|].
  destruct (sql_insert _ _ _) as [ts|] eqn:E.
  - apply sql_insert_Some in E as [_ ->]. eapply store_wf_insert; [done| |done].
    split; simpl; naive_solver.
  - pose proof (classify_wf st k now Hst) as Hc. by destruct (classify_existing_row _ _ _).
Qed.

Lemma publish_wf s h r :
  (∀ st' l', r = Ok (st', l') → store_wf st') → store_wf (store s) → store_wf (store (publish h s r)).
Proof. destruct r as [[st' l']|]; simpl; eauto. Qed.

Lemma commit_wf s r :
  (∀ st', r = Ok st' → store_wf st') → store_wf (store s) → store_wf (store (commit s r)).
Proof. destruct r; simpl; eauto. Qed.

Lemma exec_wf s lb : store_wf (store s) → store_wf (store (exec s lb)).
Proof.
  intros Hst.
  destruct lb; simpl; unfold with_handle;
    try (destruct (leases s !! h) as [l|] eqn:Hl; [|done]);
    eauto using reject_wf, boot_wf, ttl_wf.
  - pose proof (admit_wf io (store s) k guild user digest version policy catalog snapshot
                  gen tok now Hst) as Ha.
    destruct (admit_turn _ _ _ _ _ _ _ _ _ _ _ _ _) as [st' [[l|] d]]; exact Ha.
  - apply publish_wf; [|done]. intros st' l' E. eapply fenced_update_wf; [|exact E|done].
    intros r Hr Ha. apply row_wf_progress.
    apply (row_wf_renew (set_payload (Some (encode_payload payload))
             (Some (payload_digest (encode_payload payload))) r)).
    by apply row_wf_payload.
  - apply publish_wf; [|done]. intros st' l' E. eapply fenced_update_wf; [|exact E|done].
    intros r Hr _. by apply row_wf_renew.
  - apply publish_wf; [|done]. intros st' l' E. eapply fenced_update_wf; [|exact E|done].
    intros r [? ? ? ? ?] Ha. split; simpl; try done; try (split; [done|by intros [? [=]]]).
  - apply publish_wf; [|done]. intros st' l'. unfold finish.
    destruct (TERMINAL status) eqn:Ht; [|done]. intros E. eapply fenced_update_wf; [|exact E|done].
    intros r Hr Ha. apply row_wf_released; [|done|by intros _ [? [=]]|done]. by intros ->.
  - apply commit_wf; [|done]. intros st' (Ht & _)%record_intents_Ok%insert_intents_spec.
    by eapply store_wf_turns.
  - destruct (mark_running _ _ _ _ _ _) as [st'|] eqn:E; [|done].
    apply set_op_state_fenced_turns in E. by eapply store_wf_turns.
  - apply commit_wf; [|done]. intros st' Ht%settle_op_turns. by eapply store_wf_turns.
  - apply commit_wf; [|done]. intros st' Ht%settle_uncertain_op_turns. by eapply store_wf_turns.
  - unfold load_resumable. repeat (case_match; simpl; try done; try by apply reject_wf).
  - destruct (acquire_resume_lease _ _ _ _ _ _) as [[st' ol]|] eqn:E; [|done].
    apply acquire_Ok in E as [[-> ->]|(r & Hr & _ & Hg & -> & ->)]; [done|]. simpl.
    eapply store_wf_insert; [done| |done].
    destruct (map_Forall_lookup_1 _ _ _ _ Hst Hr). split; simpl; naive_solver.
  - unfold mark_ops_manual. destruct (conn (store s)); [|done]. by destruct io.
  - apply commit_wf; [|done]. intros st' [->|(r & Hr & _ & _ & _ & ->)]%release_Ok; [done|].
    eapply store_wf_insert; [done| |done].
    pose proof (map_Forall_lookup_1 _ _ _ _ Hst Hr) as Hwf. destruct terminal_reason.
    + apply row_wf_released; [done|done|by intros _ [? [=]]|done].
    + destruct Hwf. split; simpl; try done; try (split; [done|by intros [? [=]]]).
  - unfold sweep_expired_active. destruct (negb _); [done|]. destruct io; [|done].
    destruct (sweep_active _ _ _) as [[st' c]|] eqn:E; [|done]. by eapply sweep_active_wf.
Qed.

(** ** The boot migration keeps statuses and in-flight states *)

Lemma migrate_turn st now k :
  (∀ r, turns st !! k = Some r → ∃ r', turns (fst (migrate_schema st now)) !! k = Some r' ∧
     t_status r' = t_status r ∧ t_generation r' = t_generation r) ∧
  (∀ r', turns (fst (migrate_schema st now)) !! k = Some r' → ∃ r, turns st !! k = Some r ∧
     t_status r' = t_status r ∧ t_generation r' = t_generation r).
Proof.
  simpl. rewrite lookup_sql_update. destruct (turns st !! k) as [r|]; [|done].
  split; intros r' [= <-]; eexists; (split; [done|]); by repeat case_match.
Qed.

Lemma migrate_op st now ok o :
  operations st !! ok = Some o → in_flight (o_state o) = true →
  ∃ o', operations (fst (migrate_schema st now)) !! ok = Some o' ∧ o_state o' = o_state o.
Proof.
  intros Ho Hf. simpl. rewrite !lookup_sql_update, Ho. simpl. eexists; split; [done|].
  rewrite (bool_decide_eq_false_2 (o_state o = OUTCOME_UNKNOWN)) by (by intros Hs; rewrite Hs in Hf).
  rewrite andb_false_r. by case_match.
Qed.

(** ** Properties *)

(** C1: the store never replays a side effect.  Along any sequence of store
    operations on a new database - admissions and redeliveries, checkpoints,
    crashes and boots, resumes, sweeps, failing writes, any number of owners and
    stale handles - one tool call of one turn is granted its PREPARED -> RUNNING
    transition at most once, whatever lineage the call is made under. *)
Theorem tool_effects_at_most_once ttl ls :
  NoDup (map (λ ok, (o_turn ok, o_seq ok, o_call ok)) (started (run exec (fresh_sys ttl) ls))).
Proof.
  destruct (started_inv_run ttl ls) as [Hnd Hall].
  apply NoDup_fmap_2_strong; [|done]. rewrite Forall_forall in Hall.
  intros [t1 g1 s1 c1] [t2 g2 s2 c2] H1 H2 [= -> -> ->].
  destruct (Hall _ H1) as [(r1 & Hr1 & Hg1) _], (Hall _ H2) as [(r2 & Hr2 & Hg2) _].
  simpl in *. by simplify_eq.
Qed.

(** C3: fencing is final.  Once a handle's token is not the one in its turn's row
    (suspended, finished, swept, taken over by a resumer), no later sequence of
    operations lets that handle pass the fence at any time, as long as the random
    lease tokens granted are distinct. *)
Theorem fenced_out_forever s ls h :
  NoDup (tokens (run exec s ls)) → fenced_out s h →
  ∀ l now, leases (run exec s ls) !! h = Some l →
    fence_holds (store (run exec s ls)) l now = false.
Proof.
  intros Hnd Hout l now Hl. destruct (fenced_out_run s ls h Hnd Hout) as (l' & Hl' & Hno).
  simplify_eq. destruct (fence_holds _ _ _) eqn:Hf; [|done].
  apply fence_holds_row in Hf as (r & Hr & (_ & _ & Ht & _)%turn_fence_true).
  by destruct (Hno r Hr).
Qed.

(** no spurious fence loss.  After any run with distinct tokens, a handle
    whose token is in its turn's row and whose lease has not expired is in step
    with the row, so its checkpoint succeeds: generation and revision can only
    diverge when ownership was really lost. *)
Theorem live_owner_checkpoint_succeeds ttl ls h l r payload progressed dl clk :
  let s := run exec (fresh_sys ttl) ls in
  NoDup (tokens s) → conn (store s) = true →
  leases s !! h = Some l → turns (store s) !! key l = Some r →
  t_lease_token r = Some (token l) → sql_gt (t_lease_expires_at r) (clk 2%nat) = true →
  ∃ st' l', checkpoint true (store s) l payload progressed dl clk = Ok (st', l') ∧
    revision l' = revision l + 1 ∧ fence_holds st' l' (clk 2%nat) = true.
Proof.
  intros s Hnd Hconn Hl Hr Ht He.
  destruct (lease_inv_run ttl ls Hnd _ _ _ Hr Ht) as (h' & l' & Hl' & Hk & Htok & Hg & Hrev).
  fold s in Hl'. pose proof (token_handle s h h' l l' Hnd Hl Hl' (eq_sym Htok)) as ->.
  assert (l' = l) as -> by congruence.
  assert (Hact : t_status r = ACTIVE).
  { assert (store_wf (store s)) as Hst.
    { apply (run_invariant exec (λ s, store_wf (store s))); [|intros; by apply exec_wf].
      apply map_Forall_empty. }
    destruct (map_Forall_lookup_1 _ _ _ _ Hst Hr) as [Ha _ _ _ _]. apply Ha. by eexists. }
  assert (Hf : turn_fence r l (clk 2%nat) = true) by (apply turn_fence_true; split_and!; done).
  unfold checkpoint, fenced_update. rewrite Hconn, Hr, Hf.
  eexists _, _. split_and!; [done|done|].
  apply fence_holds_row. eexists. simpl. rewrite lookup_insert_eq. split; [done|].
  apply turn_fence_true. simpl. split_and!; try done.
  destruct (t_lease_expires_at r); simpl in *; [|done]. bool_prop. apply bool_decide_eq_true. lia.
Qed.

(** C8: a finished turn stays finished.  Once terminal, a turn keeps its status
    and lineage through every later operation, no lease passes its fence, and a
    redelivered message is refused as already processed.  (Its payload is compacted
    by [ttl_sweep] in time.) *)
Theorem terminal_turn_is_final s ls k r :
  turns (store s) !! k = Some r → TERMINAL (t_status r) = true →
  let s' := run exec s ls in
  (∃ r', turns (store s') !! k = Some r' ∧ t_status r' = t_status r ∧
         t_generation r' = t_generation r) ∧
  (∀ l now, key l = k → fence_holds (store s') l now = false) ∧
  (conn (store s') = true → ∀ a b c d e f g gen tok now,
     admit_turn true (store s') k a b c d e f g gen tok now =
       (store s', (None, already_processed))).
Proof.
  intros Hr Hterm s'. destruct (run_le s ls) as [Ht _ _].
  destruct (Ht _ _ Hr) as (r' & Hr' & [Hg _ _ Hs]). specialize (Hs Hterm). fold s' in Hr'.
  split_and!; [by eauto| |].
  - intros l now <-. unfold fence_holds. rewrite Hr'.
    destruct (turn_fence r' l now) eqn:Hf; [|done].
    apply turn_fence_true in Hf as (_ & _ & _ & Ha & _). by rewrite <- Hs, Ha in Hterm.
  - intros Hconn a b c d e f g gen tok now. unfold admit_turn, sql_insert. rewrite Hconn. simpl.
    rewrite Hr'. unfold classify_existing_row. by rewrite Hr', Hs, Hterm.
Qed.

(** C4: evidence of a possibly applied effect is never dropped.  A ledger row in
    OUTCOME_UNKNOWN or MANUAL_RESOLUTION_REQUIRED of a tool that may have effects
    is still there, in one of these two states, after any run: retention sweeps,
    boots and resumes included. *)
Theorem uncertain_evidence_survives s ls ok o :
  operations (store s) !! ok = Some o → NEVER_EXPIRE (o_state o) = true →
  o_tool_name o ∉ effect_free_observation_tools →
  ∃ o', operations (store (run exec s ls)) !! ok = Some o' ∧
        NEVER_EXPIRE (o_state o') = true ∧ o_tool_name o' = o_tool_name o.
Proof.
  intros Ho Hne Htool. destruct (run_le s ls) as [_ Hops _].
  destruct (Hops _ _ Ho) as [(o' & Ho' & [_ Ht Hev])|(_ & _ & Hbad)].
  - eauto.
  - by destruct Htool; apply Hbad.
Qed.

(** C11: every row of a reachable store is well formed: ACTIVE exactly when a lease
    is held, an expiry exactly with a token, the payload digest always that of the
    stored payload, and no payload kept by a terminal turn other than an expired
    one. *)
Theorem reachable_store_wf ttl ls k r :
  turns (store (run exec (fresh_sys ttl) ls)) !! k = Some r → row_wf r.
Proof.
  intros Hr. assert (Hst : store_wf (store (run exec (fresh_sys ttl) ls))).
  { apply (run_invariant exec (λ s, store_wf (store s))); [apply map_Forall_empty|].
    intros; by apply exec_wf. }
  exact (map_Forall_lookup_1 _ _ _ _ Hst Hr).
Qed.

(** intents are durable before any effect, all or none.  When recording
    succeeds every intent has its PREPARED row, classified by its effect class,
    and no earlier row changed; an empty or repeated id, or an id already in the
    ledger of this generation, is refused without writing. *)
Theorem record_intents_atomic io st l seq xs it clk :
  (∀ st', record_intents io st l seq xs it clk = Ok st' →
     turns st' = turns st ∧ operations st ⊆ operations st' ∧
     ∀ x, x ∈ xs → ∃ o, operations st' !! op_key l seq (str_or (it_call_id x) "") = Some o ∧
       o_state o = PREPARED ∧ o_effect_class o = normalize_effect_class (it_effect_class x)) ∧
  ((∃ x, x ∈ xs ∧ (str_or (it_call_id x) "" = "" ∨
      is_Some (operations st !! op_key l seq (str_or (it_call_id x) "")))) →
   is_ok (record_intents io st l seq xs it clk) = false).
Proof.
  split.
  - intros st' Hr. apply record_intents_Ok in Hr.
    destruct (insert_intents_spec _ _ _ _ _ _ _ _ _ Hr) as (Ht & Hsub & _).
    split_and!; [done|done|]. intros x Hx.
    destruct (insert_intents_rows _ _ _ _ _ _ _ _ _ Hr) as [_ Hall]. destruct (Hall x Hx) as [_ ?]. eauto.
  - intros (x & Hx & Hbad). destruct (record_intents io st l seq xs it clk) as [st'|] eqn:E; [|done].
    exfalso. destruct Hbad as [Hempty|[o Ho]].
    + unfold record_intents in E. destruct (forallb _ _) eqn:Hf; [|done].
      rewrite forallb_forall in Hf. specialize (Hf "").
      rewrite bool_decide_eq_true_2 in Hf by done.
      assert (In "" (map (λ i : Intent J, str_or (it_call_id i) "") xs)) as Hin.
      { apply in_map_iff. exists x. split; [done|]. by apply list_elem_of_In. }
      by specialize (Hf Hin).
    + apply record_intents_Ok in E. destruct (insert_intents_rows _ _ _ _ _ _ _ _ _ E) as [_ Hall].
      destruct (Hall x Hx). congruence.
Qed.

(** crash recovery.  After a boot no turn is ACTIVE: the ACTIVE ones are
    SUSPENDED and the others keep their status.  Every operation a crashed turn had
    in flight is settled by its persisted effect class: a definite failure for an
    observation-only call, an unknown outcome for any other. *)
Theorem boot_settles_crashed_turns st now now' :
  let st' := boot true st now now' in
  conn st' = true ∧
  (∀ k r, turns st' !! k = Some r → ∃ r0, turns st !! k = Some r0 ∧
     t_status r = if bool_decide (t_status r0 = ACTIVE) then SUSPENDED else t_status r0) ∧
  (∀ ok o r, operations st !! ok = Some o → turns st !! o_turn ok = Some r →
     t_status r = ACTIVE → t_generation r = o_generation ok → in_flight (o_state o) = true →
     ∃ o', operations st' !! ok = Some o' ∧
       o_state o' = if bool_decide (o_effect_class o' = EFFECT_FREE_OBSERVATION)
                    then DEFINITELY_FAILED else OUTCOME_UNKNOWN).
Proof.
  set (st0 := {| conn := true; turns := turns st; operations := operations st;
                 lease_ttl := lease_ttl st |}).
  set (st1 := fst (migrate_schema st0 now)).
  pose proof (migrate_turn st0 now) as Ht. pose proof (migrate_op st0 now) as Ho.
  assert (boot true st now now' = match sweep_active st1 false now' with
    | Ok (s, _) => s | Err _ => st end) as -> by done.
  fold st1 in Ht, Ho. assert (Hc1 : conn st1 = true) by done. clearbody st1.
  unfold sweep_active. rewrite Hc1. simpl. split_and!.
  - done.
  - intros k r. rewrite lookup_sql_update. destruct (turns st1 !! k) as [r1|] eqn:Hr1; [|done].
    destruct (Ht k) as [_ Hback]. destruct (Hback _ Hr1) as (r0 & Hr0 & Hs & _).
    simpl. intros [= <-]. exists r0. split; [done|]. unfold stale_where. simpl.
    rewrite andb_true_r, <- Hs. by case_bool_decide.
  - intros ok o r Hok Hr Ha Hg Hf. destruct (Ho _ _ Hok Hf) as (o1 & Hok1 & Hs1).
    destruct (Ht (o_turn ok)) as [Hfwd _]. destruct (Hfwd _ Hr) as (r1 & Hr1 & Hs & Hg1).
    rewrite lookup_sql_update, Hok1. simpl. eexists; split; [done|].
    assert (sweep_op_where st1 false now' ok o1 = true) as ->.
    { unfold sweep_op_where, stale_where. rewrite Hr1, Hs1, Hf. simpl.
      rewrite !andb_true_r. apply andb_true_iff.
      split; apply bool_decide_eq_true; congruence. }
    done.
Qed.

(** the two recoveries of an expired ACTIVE turn disagree.  The periodic sweep
    settles an in-flight observation-only call as DEFINITELY_FAILED; a redelivered
    message that reaches the same row first marks it OUTCOME_UNKNOWN, the state
    reserved for possible external effects that never expires. *)
Theorem redelivery_ignores_effect_class st k r ok o now gen tok a b c d e f g :
  conn st = true → turns st !! k = Some r → t_status r = ACTIVE →
  (∃ exp, t_lease_expires_at r = Some exp ∧ exp < now) →
  o_turn ok = k → o_generation ok = t_generation r →
  operations st !! ok = Some o → in_flight (o_state o) = true →
  o_effect_class o = EFFECT_FREE_OBSERVATION →
  (∃ o1, operations (fst (admit_turn true st k a b c d e f g gen tok now)) !! ok = Some o1 ∧
         o_state o1 = OUTCOME_UNKNOWN) ∧
  (∃ o2, operations (fst (sweep_expired_active true st now)) !! ok = Some o2 ∧
         o_state o2 = DEFINITELY_FAILED).
Proof.
  intros Hc Hr Ha (exp & Hexp & Hlt) Hk Hg Ho Hf Hcls. split.
  - unfold admit_turn. rewrite Hc. simpl. unfold sql_insert, classify_existing_row. rewrite Hr.
    simpl. rewrite Ha. simpl. rewrite Hexp. simpl. rewrite bool_decide_eq_false_2 by lia. simpl.
    rewrite lookup_sql_update, Ho. simpl. eexists; split; [done|].
    by rewrite Hf, bool_decide_eq_true_2.
  - unfold sweep_expired_active, sweep_active. rewrite Hc. simpl.
    rewrite lookup_sql_update, Ho. simpl. eexists; split; [done|].
    unfold sweep_op_where, stale_where. rewrite Hk, Hr, Hf, Ha, Hexp, Hg. simpl.
    rewrite (bool_decide_eq_true_2 (exp < now)) by done. simpl.
    rewrite (bool_decide_eq_true_2 (t_generation r = t_generation r)) by done. simpl.
    by rewrite Hcls.
Qed.

(** suspension preserves the work.  A payload suspended under a live fence is
    exactly what the resume path loads, with the lineage, the revision the write
    published, the session snapshot of admission and the ledger of that
    generation; the load changes nothing. *)
Theorem suspend_load_roundtrip io st l payload clk st' l' r snap :
  suspend true st l payload clk = Ok (st', l') →
  turns st !! key l = Some r → session_snapshot (t_meta r) = dumps snap → dumps snap ≠ "" →
  load_resumable io st' (key l) =
    (st', Some {| rs_generation := generation l; rs_revision := revision l + 1;
                  rs_payload := payload; rs_meta := t_meta r; rs_session_snapshot := snap;
                  rs_recovery_deadline_utc := t_recovery_deadline_utc r;
                  rs_last_progress_at := t_last_progress_at r;
                  rs_suspended_at := Some (clk 0%nat);
                  rs_operations := ops_of_generation st (key l) (generation l) |}) ∧
  revision l' = revision l + 1.
Proof.
  intros Hs Hr Hsnap Hne.
  assert (Hc : conn st = true).
  { unfold suspend, fenced_update in Hs. by destruct (conn st). }
  apply fenced_update_Ok in Hs as (r0 & Hr0 & Hf & -> & ->). simplify_eq.
  apply turn_fence_true in Hf as (Hg & Hrev & _ & _ & _). split; [|done].
  unfold load_resumable. simpl. rewrite Hc. simpl. rewrite lookup_insert_eq. simpl.
  rewrite bool_decide_eq_true_2 by done. unfold encode_payload. rewrite loads_dumps.
  unfold load_snapshot. rewrite Hsnap, bool_decide_eq_false_2 by done.
  rewrite loads_dumps, Hg. done.
Qed.

(** a tampered checkpoint is rejected before it is read.  A suspended row whose
    payload text does not have the stored digest yields nothing to resume and
    becomes TERMINAL_REJECTED with its payload dropped. *)
Theorem tampered_checkpoint_rejected st k r text :
  conn st = true → turns st !! k = Some r → t_status r = SUSPENDED →
  t_payload r = Some text → t_payload_digest r ≠ Some (payload_digest text) →
  let st' := fst (load_resumable true st k) in
  snd (load_resumable true st k) = None ∧
  (∃ r', turns st' !! k = Some r' ∧ t_status r' = TERMINAL_REJECTED ∧
         t_payload r' = None ∧ t_generation r' = t_generation r) ∧
  operations st' = operations st.
Proof.
  intros Hc Hr Hs Hp Hd. unfold load_resumable, reject_resumable.
  rewrite Hc, Hr, Hs, Hp. simpl. rewrite (bool_decide_eq_false_2 (_ = _)) by done. simpl.
  split_and!; [done| |done]. eexists. rewrite lookup_insert_eq. by split_and!.
Qed.

End theory.

(** ** Witnesses: the properties at concrete inputs

    Payloads are counters written in unary, digests are a length-prefixed copy of
    the text. *)

Module Witness.

Fixpoint unary (n : nat) : string :=
  match n with O => "}" | S n => String.String "1"%char (unary n) end.

Fixpoint ununary (s : string) : option nat :=
  match s with
  | String.String "1"%char s => S <$> ununary s
  | "}" => Some O
  | _ => None
  end.

Definition parse (s : string) : option nat :=
  match s with String.String "{"%char s => ununary s | _ => None end.

Lemma parse_unary n : parse (String.String "{"%char (unary n)) = Some n.
Proof. simpl. induction n as [|n IH]; [done|]. simpl. by rewrite IH. Qed.

#[local] Instance counter_json : JsonText nat := {
  dumps n := String.String "{"%char (unary n);
  loads := parse;
  empty_dict := 0%nat;
  dumps_invocation t _ := t;
  loads_dumps := parse_unary;
  dumps_empty := eq_refl
}.

#[local] Instance copy_sha : Sha256 := { sha256_hex s := String.append "sha:" s }.

Definition k1 : TurnKey := {| source := "discord"; channel_id := "7"; message_id := "42" |}.

Definition intent (id tool : string) : Intent nat :=
  {| it_call_id := Some id; it_tool_name := Some tool; it_tool_input := 0%nat;
     it_effect_class := Some (effect_class_name (classify_tool_effect tool)) |}.

Definition at_time (t : Z) : nat → Z := λ _, t.

Definition admit1 : Label nat :=
  LAdmit true k1 None (Some "u") None None None None (Some 3%nat) "g1" "t1" 1000.
Definition start1 : list (Label nat) :=
  [admit1; LIntents true 0 1 [intent "c1" "run_command"; intent "c2" "wait_for_agents"] None
             (at_time 2000);
   LRunning true 0 1 "c1" (at_time 3000)].

Definition s1 : Sys := run exec (fresh_sys DEFAULT_LEASE_TTL) start1.

(** A suspended, resumed and re-run turn. *)
Definition resumed1 : list (Label nat) :=
  start1 ++ [LSettle true 0 1 "c1" OUTCOME_UNKNOWN None (at_time 3500);
             LSuspend true 0 5%nat (at_time 4000); LResume true k1 "g1" "t2" 5000;
             LRunning true 1 1 "c1" (at_time 6000)].
Definition s2 : Sys := run exec s1 resumed1.

Example start1_granted : started s1 =
  [{| o_turn := k1; o_generation := "g1"; o_seq := 1; o_call := "c1" |}].
Proof. vm_compute. reflexivity. Qed.

Lemma fenced_out_forever_witness :
  let s := run exec s1 [LSuspend true 0 5%nat (at_time 4000)] in
  fence_holds (store (run exec s [LResume true k1 "g1" "t2" 5000]))
    {| key := k1; generation := "g1"; token := "t1"; revision := 1 |} 5500 = false.
Proof.
  intros s. apply (fenced_out_forever s [LResume true k1 "g1" "t2" 5000] 0).
  - vm_compute. repeat constructor; set_solver.
  - eexists. split; [vm_compute; reflexivity|]. intros r. vm_compute. by intros [= <-].
  - vm_compute. reflexivity.
Defined.

Lemma live_owner_checkpoint_succeeds_witness :
  ∃ st' l', checkpoint true (store s1)
    {| key := k1; generation := "g1"; token := "t1"; revision := 0 |} 9%nat true None
    (at_time 3500) = Ok (st', l') ∧ revision l' = 0 + 1 ∧ fence_holds st' l' 3500 = true.
Proof.
  eapply (live_owner_checkpoint_succeeds DEFAULT_LEASE_TTL start1 0
            {| key := k1; generation := "g1"; token := "t1"; revision := 0 |} _ 9%nat true None
            (at_time 3500)).
  - vm_compute. repeat constructor; set_solver.
  - vm_compute. reflexivity.
  - vm_compute. reflexivity.
  - vm_compute. reflexivity.
  - vm_compute. reflexivity.
  - vm_compute. reflexivity.
Defined.

Lemma terminal_turn_is_final_witness :
  let s := run exec s1 [LFinish true 0 TERMINAL_CANCELLED 4000] in
  fence_holds (store (run exec s [admit1; LBoot true 9000 9001]))
    {| key := k1; generation := "g1"; token := "t1"; revision := 1 |} 5000 = false.
Proof.
  intros s.
  edestruct (terminal_turn_is_final s [admit1; LBoot true 9000 9001] k1) as (_ & Hf & _).
  - vm_compute. reflexivity.
  - vm_compute. reflexivity.
  - apply Hf. reflexivity.
Defined.

Definition ok1 : OpKey := {| o_turn := k1; o_generation := "g1"; o_seq := 1; o_call := "c1" |}.

Lemma uncertain_evidence_survives_witness :
  let s := run exec s1 [LSettle true 0 1 "c1" OUTCOME_UNKNOWN None (at_time 3500);
                        LFinish true 0 TERMINAL_FAILED 4000] in
  let far := seconds (200 * 86400) in
  ∃ o', operations (store (run exec s [LTtl 4 24 7 90 far; LBoot true far far])) !! ok1
          = Some o' ∧ NEVER_EXPIRE (o_state o') = true ∧ o_tool_name o' = "run_command".
Proof.
  intros s far.
  edestruct (uncertain_evidence_survives s [LTtl 4 24 7 90 far; LBoot true far far] ok1)
    as (o' & Ho' & Hn & Ht).
  - vm_compute. reflexivity.
  - reflexivity.
  - unfold effect_free_observation_tools. simpl. set_solver.
  - exists o'. split; [exact Ho'|]. split; [exact Hn|]. rewrite Ht. reflexivity.
Defined.

Lemma reachable_store_wf_witness :
  ∃ r, turns (store s1) !! k1 = Some r ∧ row_wf r.
Proof.
  eexists. split; [vm_compute; reflexivity|].
  apply (reachable_store_wf DEFAULT_LEASE_TTL start1 k1). vm_compute. reflexivity.
Defined.

Lemma redelivery_ignores_effect_class_witness :
  ∃ o1, operations (fst (admit_turn true (store s1) k1 None None None None None None None
                           "g2" "t2" 900000)) !!
        {| o_turn := k1; o_generation := "g1"; o_seq := 1; o_call := "c2" |} = Some o1 ∧
        o_state o1 = OUTCOME_UNKNOWN.
Proof.
  edestruct (redelivery_ignores_effect_class (store s1) k1) as [Hx _];
    [..|exact Hx].
  - vm_compute. reflexivity.
  - vm_compute. reflexivity.
  - reflexivity.
  - eexists. split; [reflexivity|]. vm_compute. reflexivity.
  - reflexivity.
  - reflexivity.
  - vm_compute. reflexivity.
  - reflexivity.
  - reflexivity.
Defined.

Definition lease1 : TurnLease :=
  {| key := k1; generation := "g1"; token := "t1"; revision := 0 |}.

Definition row1 : TurnRow :=
  {| t_generation := "g1"; t_revision := 0; t_lease_token := Some "t1";
     t_lease_expires_at := Some 121000; t_status := ACTIVE;
     t_recovery_deadline_utc := None; t_last_progress_at := 1000; t_suspended_at := None;
     t_payload := None; t_payload_digest := None;
     t_meta := {| created_at := 1000; guild_id := None; user_id := Some "u";
                  content_digest := None; code_version := None; schema_version := 1;
                  prompt_policy_hash := None; tool_catalog_hash := None;
                  session_snapshot := dumps 3%nat |} |}.

Definition suspended1 : Store * TurnLease :=
  match suspend true (store s1) lease1 5%nat (at_time 4000) with
  | Ok p => p
  | Err _ => (store s1, lease1)
  end.

Lemma suspend_load_roundtrip_witness :
  ∃ rs, load_resumable true (fst suspended1) k1 = (fst suspended1, Some rs) ∧
        rs_payload rs = 5%nat.
Proof.
  assert (Hs : suspend true (store s1) lease1 5%nat (at_time 4000)
               = Ok (fst suspended1, snd suspended1)).
  { unfold suspended1. assert (Ho : is_ok (suspend true (store s1) lease1 5%nat (at_time 4000))
      = true) by (vm_compute; reflexivity).
    destruct (suspend _ _ _ _ _) as [[]|]; [reflexivity|discriminate]. }
  assert (Hr : turns (store s1) !! key lease1 = Some row1) by (vm_compute; reflexivity).
  destruct (suspend_load_roundtrip true _ _ _ _ _ _ _ 3%nat Hs Hr eq_refl ltac:(discriminate))
    as [Hx _].
  eexists. split; [exact Hx|reflexivity].
Defined.

Definition tampered : Store :=
  with_turns (alter (λ r, set_payload (Some "{1}") (t_payload_digest r) r) k1
                (turns (store (run exec s1 [LSuspend true 0 5%nat (at_time 4000)]))))
    (store s1).

Lemma tampered_checkpoint_rejected_witness :
  snd (load_resumable true tampered k1) = None.
Proof.
  edestruct (tampered_checkpoint_rejected tampered k1) as [Hx _]; [..|exact Hx].
  - vm_compute. reflexivity.
  - vm_compute. reflexivity.
  - reflexivity.
  - reflexivity.
  - vm_compute. discriminate.
Defined.

End Witness.
