(* ===== verification/Durability.v ===== *)
(** * The write invariant of a turn (src/src/turn_state/durability.py)

    [TurnDurability] is the handle the tool loop calls around every LLM response and
    every tool.  A hook is one or two awaited store calls; it returns the new world
    and the exception it raised, if any, since what it changed before raising stays
    changed.  [payload seq] is what [snapshot_chat_turn] builds for a generation, or
    [None] when it raises: the codec is not modelled.  [meanwhile] is what other
    tasks and processes do to the store between two awaits of one hook. *)

From S2P Require Import Prelude Sql Effects TurnStore TurnSystem.
Open Scope string_scope.
Open Scope list_scope.
Open Scope Z_scope.

Definition OP_RESULT_CAP : nat := 4000.
Definition HEARTBEAT_FLOOR_SECONDS : Z := 5000.

(** Why a handle refuses fresh execution. *)
Inductive Refusal : Type :=
| refused (d : Disposition)
| admission_error.

Inductive HookError : Type :=
| SnapshotFailed
| AssertionError
| StoreError (e : TurnError).

Record TurnDurability : Type := {
  has_store : bool;
  lease : option TurnLease;
  generation_seq : Z;
  suspended : bool;
  settled : bool;
  cancelled : bool;
  resume_budget : option Z;
  blocked : option Refusal;
  heartbeats : bool
}.

Record World : Type := { store : Store; handle : TurnDurability }.

Record ToolCall (J : Type) : Type := {
  tc_id : string;
  tc_name : string;
  tc_stored_input : J;
  tc_parse_error : bool
}.
Arguments tc_id {J} _.
Arguments tc_name {J} _.
Arguments tc_stored_input {J} _.
Arguments tc_parse_error {J} _.

(** ** Construction *)

Definition new_handle (has : bool) (l : option TurnLease) : TurnDurability :=
  {| has_store := has; lease := l; generation_seq := 0; suspended := false; settled := false;
     cancelled := false; resume_budget := None; blocked := None; heartbeats := false |}.

Definition disabled : TurnDurability := new_handle false None.

Definition block (r : Refusal) (h : TurnDurability) : TurnDurability :=
  {| has_store := has_store h; lease := lease h; generation_seq := generation_seq h;
     suspended := suspended h; settled := settled h; cancelled := cancelled h;
     resume_budget := resume_budget h; blocked := Some r; heartbeats := heartbeats h |}.

Definition set_heartbeats (b : bool) (h : TurnDurability) : TurnDurability :=
  {| has_store := has_store h; lease := lease h; generation_seq := generation_seq h;
     suspended := suspended h; settled := settled h; cancelled := cancelled h;
     resume_budget := resume_budget h; blocked := blocked h; heartbeats := b |}.

Definition start_heartbeats (h : TurnDurability) : TurnDurability :=
  if has_store h && match lease h with Some _ => true | None => false end
  then set_heartbeats true h else h.

Definition heartbeat_interval (st : Store) : Z := Z.max HEARTBEAT_FLOOR_SECONDS (lease_ttl st / 3).

Definition enabled (h : TurnDurability) : bool :=
  has_store h && match lease h with Some _ => true | None => false end
  && negb (suspended h) && negb (settled h).

Definition set_lease_of (l : option TurnLease) (h : TurnDurability) : TurnDurability :=
  {| has_store := has_store h; lease := l; generation_seq := generation_seq h;
     suspended := suspended h; settled := settled h; cancelled := cancelled h;
     resume_budget := resume_budget h; blocked := blocked h; heartbeats := heartbeats h |}.

Definition set_seq (n : Z) (h : TurnDurability) : TurnDurability :=
  {| has_store := has_store h; lease := lease h; generation_seq := n;
     suspended := suspended h; settled := settled h; cancelled := cancelled h;
     resume_budget := resume_budget h; blocked := blocked h; heartbeats := heartbeats h |}.

Definition set_ends (sus stl : bool) (h : TurnDurability) : TurnDurability :=
  {| has_store := has_store h; lease := lease h; generation_seq := generation_seq h;
     suspended := sus; settled := stl; cancelled := cancelled h;
     resume_budget := resume_budget h; blocked := blocked h; heartbeats := heartbeats h |}.

Definition mark_cancelled (h : TurnDurability) : TurnDurability :=
  {| has_store := has_store h; lease := lease h; generation_seq := generation_seq h;
     suspended := suspended h; settled := settled h; cancelled := true;
     resume_budget := resume_budget h; blocked := blocked h; heartbeats := heartbeats h |}.

(** [resumed]. *)
Definition resumed (l : TurnLease) (seq : Z) (budget : option Z) : TurnDurability :=
  start_heartbeats
    {| has_store := true; lease := Some l; generation_seq := seq; suspended := false;
       settled := false; cancelled := false; resume_budget := budget; blocked := None;
       heartbeats := false |}.

(** [pop_resume_budget]: one shot. *)
Definition pop_resume_budget (h : TurnDurability) : TurnDurability * option Z :=
  ({| has_store := has_store h; lease := lease h; generation_seq := generation_seq h;
      suspended := suspended h; settled := settled h; cancelled := cancelled h;
      resume_budget := None; blocked := blocked h; heartbeats := heartbeats h |},
   resume_budget h).

Section durability.
Context {J : Type} `{JsonText J} `{Sha256}.

(** [TurnDurability.admit].  [st = None]: durability was off when the bot was wired; [raises]: the
    admission call itself raised. *)
Definition admit_handle (st : option Store) (raises io : bool) (k : TurnKey)
    (guild user digest version policy catalog : option string) (snapshot : option J)
    (gen tok : string) (now : Z) : option Store * TurnDurability :=
  match st with
  | None => (None, disabled)
  | Some st =>
      if negb (conn st) then (Some st, block admission_error disabled)
      else if raises then (Some st, block admission_error disabled)
      else
        match admit_turn io st k guild user digest version policy catalog snapshot gen tok now with
        | (st, (Some l, _)) => (Some st, start_heartbeats (new_handle true (Some l)))
        | (st, (None, store_unavailable)) => (Some st, block admission_error disabled)
        | (st, (None, d)) => (Some st, block (refused d) disabled)
        end
  end.

(** ** Checkpoints *)

(** [_checkpoint_sync]: the snapshot, then the fenced write. *)
Definition checkpoint_sync (io : bool) (payload : Z → option J) (progressed : bool)
    (deadline : option Z) (clk : nat → Z) (w : World) : World * option HookError :=
  let h := handle w in
  match has_store h, lease h with
  | true, Some l =>
      match payload (generation_seq h) with
      | None => (w, Some SnapshotFailed)
      | Some p =>
          match checkpoint io (store w) l p progressed deadline clk with
          | Err e => (w, Some (StoreError e))
          | Ok (st, l) => ({| store := st; handle := set_lease_of (Some l) h |}, None)
          end
      end
  | _, _ => (w, Some AssertionError)
  end.

(** A hook of a handle that is not enabled does nothing. *)
Definition when_enabled (w : World) (hook : World * option HookError) : World * option HookError :=
  if enabled (handle w) then hook else (w, None).

Definition on_generation_start (io : bool) (payload : Z → option J) (deadline_seconds : Z)
    (now : Z) (clk : nat → Z) (w : World) : World * option HookError :=
  when_enabled w
    (checkpoint_sync io payload false (Some (now + Z.max 0 deadline_seconds)) clk w).

Definition on_context_recovery (io : bool) (payload : Z → option J) (clk : nat → Z) (w : World)
    : World * option HookError :=
  when_enabled w (checkpoint_sync io payload false None clk w).

Definition intent_of (c : ToolCall J) : Intent J :=
  {| it_call_id := Some (tc_id c); it_tool_name := Some (tc_name c);
     it_tool_input := tc_stored_input c;
     it_effect_class := Some (effect_class_name (classify_tool_effect (tc_name c))) |}.

Definition executable (calls : list (ToolCall J)) : list (ToolCall J) :=
  List.filter (λ c, negb (tc_parse_error c)) calls.

(** [on_llm_response]: WI-1. *)
Definition on_llm_response (io1 io2 : bool) (payload : Z → option J) (calls : list (ToolCall J))
    (iteration : option Z) (meanwhile : Store → Store) (clk1 clk2 : nat → Z) (w : World)
    : World * option HookError :=
  when_enabled w
    (let w := {| store := store w; handle := set_seq (generation_seq (handle w) + 1) (handle w) |} in
     match checkpoint_sync io1 payload true None clk1 w with
     | (w, Some e) => (w, Some e)
     | (w, None) =>
         match executable calls with
         | [] => (w, None)
         | exe =>
             let st := meanwhile (store w) in
             match has_store (handle w), lease (handle w) with
             | true, Some l =>
                 match record_intents io2 st l (generation_seq (handle w)) (intent_of <$> exe)
                         iteration clk2 with
                 | Err e => ({| store := st; handle := handle w |}, Some (StoreError e))
                 | Ok st => ({| store := st; handle := handle w |}, None)
                 end
             | _, _ => ({| store := st; handle := handle w |}, Some AssertionError)
             end
         end
     end).

(** ** Tools *)

(** A ledger write through the handle. *)
Definition ledger (f : Store → TurnLease → Z → result TurnError Store) (w : World)
    : World * option HookError :=
  let h := handle w in
  match has_store h, lease h with
  | true, Some l =>
      match f (store w) l (generation_seq h) with
      | Err e => (w, Some (StoreError e))
      | Ok st => ({| store := st; handle := h |}, None)
      end
  | _, _ => (w, Some AssertionError)
  end.

(** [before_tool]: WI-2. *)
Definition before_tool (io : bool) (call : string) (clk : nat → Z) (w : World)
    : World * option HookError :=
  when_enabled w (ledger (λ st l seq, mark_running io st l seq call clk) w).

Definition tool_outcome (ok uncertain : bool) : OpState :=
  if ok then APPLIED else if uncertain then OUTCOME_UNKNOWN else DEFINITELY_FAILED.

Definition capped (text : string) : string := String.substring 0 OP_RESULT_CAP text.

(** [after_tool]: WI-3. *)
Definition after_tool (io : bool) (call : string) (ok uncertain : bool) (text : string)
    (clk : nat → Z) (w : World) : World * option HookError :=
  when_enabled w (ledger (λ st l seq,
    settle_op io st l seq call (tool_outcome ok uncertain) (Some (capped text)) clk) w).

Definition after_tool_interrupted (io : bool) (call : string) (text : string) (clk : nat → Z)
    (w : World) : World * option HookError :=
  when_enabled w (ledger (λ st l seq,
    settle_interrupted io st l seq call (Some (capped text)) clk) w).

(** [on_batch_settled]: WI-4, and [on_guard_injection]: WI-5. *)
Definition on_batch_settled (io : bool) (payload : Z → option J) (clk : nat → Z) (w : World)
    : World * option HookError :=
  when_enabled w (checkpoint_sync io payload true None clk w).

Definition on_guard_injection (io : bool) (payload : Z → option J) (clk : nat → Z) (w : World)
    : World * option HookError :=
  when_enabled w (checkpoint_sync io payload false None clk w).

(** ** The end of a turn *)

(** One beat of the heartbeat task; the task ends on its first failure. *)
Definition beat (io : bool) (clk : nat → Z) (w : World) : World :=
  let h := handle w in
  if negb (heartbeats h) then w
  else if negb (enabled h) then {| store := store w; handle := set_heartbeats false h |}
  else match lease h with
       | Some l =>
           match heartbeat io (store w) l clk with
           | Ok (st, l) => {| store := st; handle := set_lease_of (Some l) h |}
           | Err _ => {| store := store w; handle := set_heartbeats false h |}
           end
       | None => w
       end.

(** [suspend]: whether the work is preserved.  [payload] carries the reason. *)
Definition suspend_turn (io : bool) (payload : Z → option J) (clk : nat → Z) (w : World)
    : World * bool :=
  if negb (enabled (handle w)) then (w, false)
  else
    let h := set_heartbeats false (handle w) in
    match lease h, payload (generation_seq h) with
    | Some l, Some p =>
        match suspend io (store w) l p clk with
        | Ok (st, l) =>
            ({| store := st; handle := set_ends true (settled h) (set_lease_of (Some l) h) |}, true)
        | Err _ => ({| store := store w; handle := h |}, false)
        end
    | _, _ => ({| store := store w; handle := h |}, false)
    end.

Definition terminal_status (is_cancelled is_error : bool) : TurnStatus :=
  if is_cancelled then TERMINAL_CANCELLED
  else if is_error then TERMINAL_FAILED else TERMINAL_COMPLETED.

(** [settle_terminal]: whether the terminal transition is confirmed. *)
Definition settle_terminal (io is_cancelled is_error : bool) (now : Z) (w : World)
    : World * bool :=
  let h := set_heartbeats false (handle w) in
  if negb (enabled h) then
    ({| store := store w;
        handle := if suspended h then h else set_ends (suspended h) true h |}, true)
  else
    match lease h with
    | Some l =>
        match finish io (store w) l (terminal_status (is_cancelled || cancelled h) is_error) now with
        | Ok (st, l) =>
            ({| store := st; handle := set_ends (suspended h) true (set_lease_of (Some l) h) |}, true)
        | Err _ => ({| store := store w; handle := set_ends (suspended h) true h |}, false)
        end
    | None => ({| store := store w; handle := set_ends (suspended h) true h |}, false)
    end.
End durability.
