(* ===== verification/DurabilityTheory.v ===== *)
(** * The write invariant of a turn: properties

    What the tool loop may rely on around each LLM response, and when a turn runs
    at all. *)

From S2P Require Import Prelude Sql Effects TurnStore TurnSystem TurnTheory Durability.
Open Scope string_scope.
Open Scope list_scope.
Open Scope Z_scope.

Section theory.
Context {J : Type} `{JsonText J} `{Sha256}.

(** What the other tasks and processes may do between two awaits of a hook: they
    add no ledger row to this turn's generation at this sequence number, and do not
    rewrite the payload of a live row without moving its revision. *)
Record others_respect (l : TurnLease) (seq : Z) (f : Store → Store) : Prop := {
  others_no_rows st call : operations st !! op_key l seq call = None →
    operations (f st) !! op_key l seq call = None;
  others_payload st r r' : turns st !! key l = Some r → turns (f st) !! key l = Some r' →
    t_status r' = ACTIVE → t_revision r' = t_revision r →
    t_payload r' = t_payload r ∧ t_payload_digest r' = t_payload_digest r
}.

Definition unledgered (l : TurnLease) (seq : Z) (st : Store) : Prop :=
  ∀ call, operations st !! op_key l seq call = None.

(** The row a checkpoint leaves: the new payload under the new revision. *)
Definition saved (l : TurnLease) (p : J) (st : Store) : Prop :=
  ∃ r, turns st !! key l = Some r ∧ t_revision r = revision l + 1 ∧
    t_payload r = Some (encode_payload p) ∧
    t_payload_digest r = Some (payload_digest (encode_payload p)).

Lemma enabled_lease h : enabled h = true → has_store h = true ∧ is_Some (lease h).
Proof. unfold enabled. destruct (has_store h), (lease h); simpl; by eauto. Qed.

Lemma checkpoint_saved io st l p pr dl clk st' l' :
  checkpoint io st l p pr dl clk = Ok (st', l') →
  saved l p st' ∧ operations st' = operations st ∧ l' = set_lease_revision (revision l + 1) l.
Proof.
  intros (r & Hr & Hf & -> & ->)%fenced_update_Ok. split_and!; [|done|done].
  eexists. simpl. rewrite lookup_insert_eq. by split_and!.
Qed.

(** A call without a ledger row cannot start, whatever the handle holds. *)
Lemma before_tool_unledgered io call clk w l :
  enabled (handle w) = true → lease (handle w) = Some l →
  unledgered l (generation_seq (handle w)) (store w) → snd (before_tool io call clk w) ≠ None.
Proof.
  intros He Hl Hu. destruct (enabled_lease _ He) as [Hs _].
  unfold before_tool, when_enabled, ledger. rewrite He, Hs, Hl.
  destruct (mark_running _ _ _ _ _ _) as [st'|e] eqn:E; [|done].
  apply set_op_state_fenced_Ok in E as [[_ ?]|(o & Ho & _)]; [done|]. specialize (Hu call). congruence.
Qed.

Lemma intents_ledgered io st l seq exe it clk st' c :
  record_intents io st l seq (intent_of <$> exe) it clk = Ok st' → c ∈ exe →
  ∃ o, operations st' !! op_key l seq (tc_id c) = Some o ∧ o_state o = PREPARED ∧
    o_effect_class o = classify_tool_effect (tc_name c).
Proof.
  intros Hr%record_intents_Ok Hc. apply insert_intents_rows in Hr as [_ Hall].
  destruct (Hall (intent_of c)) as [_ Hrow]; [by apply list_elem_of_fmap_2|].
  assert (Hid : str_or (Some (tc_id c)) "" = tc_id c).
  { unfold str_or. by case_bool_decide. }
  change (it_call_id (intent_of c)) with (Some (tc_id c)) in Hrow. rewrite Hid in Hrow. eexists; split_and!; [exact Hrow|done|].
  apply normalize_effect_class_name.
Qed.

(** A recorded batch was written under the fence of the checkpoint before it. *)
Lemma intents_saved io st l p seq xs it clk st' f :
  saved l p st → others_respect l seq f → xs ≠ [] →
  record_intents io (f st) (set_lease_revision (revision l + 1) l) seq xs it clk = Ok st' →
  saved l p st'.
Proof.
  intros (r & Hr & Hrev & Hp & Hd) [_ Hpay] Hne Hi%record_intents_Ok.
  destruct (insert_intents_spec _ _ _ _ _ _ _ _ _ Hi) as (Ht & _).
  destruct xs as [|x xs]; [done|]. simpl in Hi.
  destruct (fence_holds _ _ _) eqn:Hf; [|done].
  apply fence_holds_row in Hf as (r' & Hr' & Hf). simpl in Hr'.
  apply turn_fence_true in Hf as (_ & Hrev' & _ & Ha & _). simpl in Hrev'.
  destruct (Hpay _ _ _ Hr Hr' Ha) as [Hp' Hd']; [congruence|].
  exists r'. rewrite Ht. split_and!; congruence.
Qed.

(** C2: the write invariant (WI-1 and WI-2).  When the response hook of a live turn
    returns, the snapshot of the advanced generation is in the turn's row under the
    advanced revision, and every executable call of the response has a PREPARED
    ledger row with its code-owned effect class.  When it raises, for whatever
    reason, the turn stays fail-closed: no call of that response can start. *)
Theorem write_invariant io1 io2 payload calls it meanwhile clk1 clk2 w l :
  let seq := generation_seq (handle w) + 1 in
  enabled (handle w) = true → lease (handle w) = Some l →
  unledgered l seq (store w) → others_respect l seq meanwhile →
  let '(w', e) := on_llm_response io1 io2 payload calls it meanwhile clk1 clk2 w in
  match e with
  | None =>
      generation_seq (handle w') = seq ∧
      (∃ p, payload seq = Some p ∧ saved l p (store w')) ∧
      ∀ c, c ∈ calls → tc_parse_error c = false →
        ∃ o, operations (store w') !! op_key l seq (tc_id c) = Some o ∧
          o_state o = PREPARED ∧ o_effect_class o = classify_tool_effect (tc_name c)
  | Some _ => ∀ io call clk, snd (before_tool io call clk w') ≠ None
  end.
Proof.
  intros seq He Hl Hu Hoth. destruct (enabled_lease _ He) as [Hs _].
  unfold on_llm_response, when_enabled. rewrite He. fold seq.
  unfold checkpoint_sync. simpl. rewrite Hs, Hl.
  destruct (payload seq) as [p|] eqn:Hp.
  2:{ intros io call clk. by apply before_tool_unledgered with l. }
  destruct (checkpoint _ _ _ _ _ _ _) as [[st1 l1]|e] eqn:Hc.
  2:{ intros io call clk. by apply before_tool_unledgered with l. }
  apply checkpoint_saved in Hc as (Hsv & Hops & ->). simpl.
  assert (Hin : ∀ c, c ∈ calls → tc_parse_error c = false → c ∈ executable calls).
  { intros c Hc Hpe. apply list_elem_of_In, filter_In. rewrite Hpe. by rewrite <- list_elem_of_In. }
  destruct (executable calls) as [|c0 exe] eqn:Hexe.
  { split_and!; [done|by eauto|]. intros c Hcs Hpe. by destruct (not_elem_of_nil c); auto. }
  simpl. rewrite Hs. destruct (record_intents _ _ _ _ _ _ _) as [st2|e] eqn:Hi; simpl.
  - split_and!; [done| |].
    + exists p. split; [done|]. by eapply intents_saved; [exact Hsv|exact Hoth| |exact Hi].
    + intros c Hcs Hpe. apply (intents_ledgered _ _ _ _ (c0 :: exe) _ _ _ c Hi). auto.
  - intros io call clk.
    apply before_tool_unledgered with (set_lease_revision (revision l + 1) l);
      [by unfold enabled in *; simpl in *; rewrite Hl in He|done|].
    intros call'. apply (others_no_rows _ _ _ Hoth). rewrite Hops. apply Hu.
Qed.

(** C9: admission fails closed.  With a store wired, whatever happens during the
    admission, the handle either is enabled, and then the message was unknown to the
    store and its row is ACTIVE with the handle's token, or it refuses execution;
    a turn runs without a ledger only when no store was wired at all.  (The docstrings
    of [admit] and [admit_turn_sync] still speak of a legacy run on an I/O failure;
    the code refuses, as its comments say.) *)
Theorem admission_fails_closed st raises io k guild user digest version policy catalog snapshot
    gen tok now :
  let '(st', h) :=
    admit_handle st raises io k guild user digest version policy catalog snapshot gen tok now in
  match st with
  | None => enabled h = false ∧ blocked h = None
  | Some s =>
      (enabled h = true ∧ blocked h = None ∧ turns s !! k = None ∧
       ∃ s' r l, st' = Some s' ∧ turns s' !! k = Some r ∧ lease h = Some l ∧
         key l = k ∧ t_status r = ACTIVE ∧ t_lease_token r = Some (token l) ∧
         t_generation r = generation l ∧ t_revision r = revision l) ∨
      (enabled h = false ∧ is_Some (blocked h) ∧ blocked h ≠ Some (refused admitted))
  end.
Proof.
  unfold admit_handle. destruct st as [s|]; [|done].
  destruct (conn s) eqn:Hc; simpl; [|right; by eauto].
  destruct raises; [right; simpl; by eauto|].
  unfold admit_turn. rewrite Hc. destruct io; simpl; [|right; by eauto].
  destruct (sql_insert _ _ _) as [ts|] eqn:E; simpl.
  - apply sql_insert_Some in E as [Hk ->]. left. split_and!; [done..|].
    do 3 eexists. split_and!; [done|simpl; apply lookup_insert_eq|done..].
  - unfold classify_existing_row.
    repeat case_match; simplify_eq; right; simpl; by eauto.
Qed.

End theory.

(** ** Witness: a heartbeat lands between the checkpoint and the ledger write *)

Module DurabilityWitness.
#[local] Existing Instance TurnTheory.Witness.counter_json.
#[local] Existing Instance TurnTheory.Witness.copy_sha.
Import TurnTheory.Witness.

Definition l1 : TurnLease := {| key := k1; generation := "g1"; token := "t1"; revision := 0 |}.
Definition l1' : TurnLease := set_lease_revision 1 l1.

Definition beats (st : Store) : Store :=
  match heartbeat true st l1' (at_time 2500) with Ok (st', _) => st' | Err _ => st end.

Lemma beats_respect : others_respect l1 1 beats.
Proof.
  unfold beats. split; intros st.
  - intros call. destruct (heartbeat _ _ _ _) as [[st' l']|] eqn:E; [|done].
    by apply fenced_update_Ok in E as (r & _ & _ & -> & _).
  - intros r r' Hr. destruct (heartbeat _ _ _ _) as [[st' l']|] eqn:E; [|by intros; simplify_eq].
    apply fenced_update_Ok in E as (r0 & Hr0 & _ & -> & _). simpl in *. simplify_eq.
    rewrite lookup_insert_eq. by intros [= <-].
Qed.

Definition w1 : World :=
  {| store := TurnSystem.store (run exec (fresh_sys DEFAULT_LEASE_TTL) [admit1]);
     handle := start_heartbeats (new_handle true (Some l1)) |}.

Definition calls1 : list (ToolCall nat) :=
  [{| tc_id := "c1"; tc_name := "run_command"; tc_stored_input := 0%nat; tc_parse_error := false |};
   {| tc_id := "c2"; tc_name := "nope"; tc_stored_input := 0%nat; tc_parse_error := true |}].

Definition respond1 : World * option HookError :=
  on_llm_response true true (λ _, Some 4%nat) calls1 (Some 1) beats (at_time 2000) (at_time 3000) w1.

Lemma write_invariant_witness :
  ∃ o, operations (store (fst respond1)) !! op_key l1 1 "c1" = Some o ∧ o_state o = PREPARED ∧
    o_effect_class o = EXTERNAL_EFFECT_CAPABLE.
Proof.
  pose proof (write_invariant true true (λ _, Some 4%nat) calls1 (Some 1) beats (at_time 2000)
                (at_time 3000) w1 l1 eq_refl eq_refl) as Hwi.
  destruct Hwi as (_ & _ & Hrows).
  - intros call. vm_compute. reflexivity.
  - exact beats_respect.
  - apply (Hrows {| tc_id := "c1"; tc_name := "run_command"; tc_stored_input := 0%nat;
                    tc_parse_error := false |}); [left|reflexivity].
Defined.

End DurabilityWitness.
