(* ===== verification/Breakers.v ===== *)
(** * Circuit breakers (src/src/llm/circuit_breaker.py, src/src/llm/model_breaker.py)

    [Circuit] is the per-client transport breaker, [Capacity] the model-scoped
    capacity breaker with its single half-open probe, [Registry] the get-or-create
    map of capacity breakers.  Each method runs under the object's lock, so a
    concurrent execution is a sequence of the steps below.  Times are milliseconds
    of the monotonic clock; callers and admission tokens are object identities,
    given as numbers. *)

From S2P Require Import Prelude.
Open Scope string_scope.
Open Scope list_scope.
Open Scope Z_scope.

(** Doubling with a cap, shared by the cooldown of the breakers and by the
    backoff of the retry loops (src/src/llm/backoff.py). *)
Definition doubled (base : Z) (exponent : nat) : Z := base * 2 ^ Z.of_nat exponent.

Module Circuit.

Inductive State : Type := closed | open | half_open.

#[export] Instance State_eq_dec : EqDecision State.
Proof. solve_decision. Defined.

Definition Caller : Type := nat.

Record CircuitBreaker : Type := {
  name : string;
  failure_threshold : Z;
  recovery_timeout : Z;
  failure_count : Z;
  last_failure_time : Z;
  st : State;
  probe_owner : option Caller
}.

(** [CircuitOpenError(name, retry_after)]. *)
Record CircuitOpenError : Type := { provider : string; retry_after : Z }.

Definition create (name : string) (failure_threshold recovery_timeout : Z) : CircuitBreaker :=
  {| name := name; failure_threshold := failure_threshold;
     recovery_timeout := recovery_timeout; failure_count := 0; last_failure_time := 0;
     st := closed; probe_owner := None |}.

Definition with_state (s : State) (owner : option Caller) (b : CircuitBreaker) : CircuitBreaker :=
  {| name := name b; failure_threshold := failure_threshold b;
     recovery_timeout := recovery_timeout b; failure_count := failure_count b;
     last_failure_time := last_failure_time b; st := s; probe_owner := owner |}.

Definition with_failures (n t : Z) (b : CircuitBreaker) : CircuitBreaker :=
  {| name := name b; failure_threshold := failure_threshold b;
     recovery_timeout := recovery_timeout b; failure_count := n;
     last_failure_time := t; st := st b; probe_owner := probe_owner b |}.

(** The [state] property: an elapsed open breaker reads as half-open. *)
Definition state (b : CircuitBreaker) (now : Z) : State :=
  if bool_decide (st b = open) && bool_decide (recovery_timeout b <= now - last_failure_time b)
  then half_open else st b.

(** [check]: raises while a probe is out or the timer runs; otherwise an open
    breaker hands the probe to the caller. *)
Definition check (b : CircuitBreaker) (c : Caller) (now : Z)
    : result CircuitOpenError CircuitBreaker :=
  match probe_owner b with
  | Some _ => Err {| provider := name b; retry_after := recovery_timeout b |}
  | None =>
      match st b with
      | open =>
          let elapsed := now - last_failure_time b in
          if bool_decide (elapsed < recovery_timeout b) then
            Err {| provider := name b; retry_after := Z.max 0 (recovery_timeout b - elapsed) |}
          else Ok (with_state half_open (Some c) b)
      | half_open => Err {| provider := name b; retry_after := recovery_timeout b |}
      | closed => Ok b
      end
  end.

Definition owned_by (b : CircuitBreaker) (c : Caller) : bool :=
  bool_decide (probe_owner b = Some c).

Definition owned_by_other (b : CircuitBreaker) (c : Caller) : bool :=
  match probe_owner b with Some c' => negb (bool_decide (c' = c)) | None => false end.

(** [abandon]. *)
Definition abandon (b : CircuitBreaker) (c : Caller) : CircuitBreaker :=
  if owned_by b c
  then with_state (if bool_decide (st b = half_open) then open else st b) None b
  else b.

(** [record_success]. *)
Definition record_success (b : CircuitBreaker) (c : Caller) : CircuitBreaker :=
  if owned_by_other b c then b
  else with_state closed None (with_failures 0 (last_failure_time b) b).

(** [record_failure]. *)
Definition record_failure (b : CircuitBreaker) (c : Caller) (now : Z) : CircuitBreaker :=
  if owned_by_other b c then b
  else
    let b' := with_failures (failure_count b + 1) now b in
    if bool_decide (failure_threshold b' <= failure_count b')
    then with_state open (probe_owner b') b' else b'.

(** [breaker_call]: check, the wrapped method, and [abandon] on every exit.  The
    method is what it does to the breaker. *)
Definition breaker_call (b : CircuitBreaker) (c : Caller) (now : Z)
    (method : CircuitBreaker → CircuitBreaker) : result CircuitOpenError CircuitBreaker :=
  match check b c now with
  | Err e => Err e
  | Ok b' => Ok (abandon (method b') c)
  end.

(** One locked method call of one caller. *)
Inductive Label : Type :=
| LCheck (c : Caller) (now : Z)
| LAbandon (c : Caller)
| LSuccess (c : Caller)
| LFailure (c : Caller) (now : Z).

Definition caller (l : Label) : Caller :=
  match l with LCheck c _ | LAbandon c | LSuccess c | LFailure c _ => c end.

Definition exec (b : CircuitBreaker) (l : Label) : CircuitBreaker :=
  match l with
  | LCheck c now => match check b c now with Ok b' => b' | Err _ => b end
  | LAbandon c => abandon b c
  | LSuccess c => record_success b c
  | LFailure c now => record_failure b c now
  end.

End Circuit.

Module Capacity.

(** An [AdmissionToken] object. *)
Definition AdmissionToken : Type := nat.

Record ModelCapacityBreaker : Type := {
  name : string;
  generation_threshold : Z;
  cooldown_base : Z;
  cooldown_cap : Z;
  is_open : bool;
  probe_token : option AdmissionToken;
  failed_generations : Z;
  consecutive_opens : nat;
  opened_at : Z
}.

Definition DEFAULT_GENERATION_THRESHOLD : Z := 1.
Definition DEFAULT_COOLDOWN_BASE : Z := 30000.
Definition DEFAULT_COOLDOWN_CAP : Z := 300000.
Definition PROBE_PENDING_WAIT : Z := 5000.

Definition create (name : string) (threshold base cap : Z) : ModelCapacityBreaker :=
  let base' := Z.max 1000 base in
  {| name := name; generation_threshold := Z.max 1 threshold; cooldown_base := base';
     cooldown_cap := Z.max base' cap; is_open := false; probe_token := None;
     failed_generations := 0; consecutive_opens := 0; opened_at := 0 |}.

Definition with_probe (t : option AdmissionToken) (b : ModelCapacityBreaker)
    : ModelCapacityBreaker :=
  {| name := name b; generation_threshold := generation_threshold b;
     cooldown_base := cooldown_base b; cooldown_cap := cooldown_cap b; is_open := is_open b;
     probe_token := t; failed_generations := failed_generations b;
     consecutive_opens := consecutive_opens b; opened_at := opened_at b |}.

(** A transition to, or back to, the open state. *)
Definition reopen (now : Z) (b : ModelCapacityBreaker) : ModelCapacityBreaker :=
  {| name := name b; generation_threshold := generation_threshold b;
     cooldown_base := cooldown_base b; cooldown_cap := cooldown_cap b; is_open := true;
     probe_token := None; failed_generations := failed_generations b;
     consecutive_opens := S (consecutive_opens b); opened_at := now |}.

Inductive BreakerState : Type := closed | probing | opened.

#[export] Instance BreakerState_eq_dec : EqDecision BreakerState.
Proof. solve_decision. Defined.

Definition state (b : ModelCapacityBreaker) : BreakerState :=
  if negb (is_open b) then closed
  else match probe_token b with Some _ => probing | None => opened end.

(** [_current_cooldown].  The guard compares the exponent with
    [log2 cap - log2 base]; on exact numbers that is [cap <= base * 2^exponent]. *)
Definition current_cooldown (b : ModelCapacityBreaker) : Z :=
  let exponent := (consecutive_opens b - 1)%nat in
  if bool_decide (cooldown_cap b <= doubled (cooldown_base b) exponent)
  then cooldown_cap b
  else Z.min (cooldown_cap b) (doubled (cooldown_base b) exponent).

Record Snapshot : Type := {
  sn_name : string;
  sn_state : BreakerState;
  sn_failed_generations : Z;
  sn_consecutive_opens : nat;
  sn_cooldown : Z;
  sn_remaining : Z;
  sn_probe_eligible : bool
}.

Definition snapshot (b : ModelCapacityBreaker) (now : Z) : Snapshot :=
  let cooldown := if is_open b then current_cooldown b else 0 in
  let elapsed := if is_open b then now - opened_at b else 0 in
  let remaining := if is_open b then Z.max 0 (cooldown - elapsed) else 0 in
  {| sn_name := name b; sn_state := state b; sn_failed_generations := failed_generations b;
     sn_consecutive_opens := consecutive_opens b; sn_cooldown := cooldown;
     sn_remaining := remaining;
     sn_probe_eligible := is_open b && bool_decide (remaining <= 0)
                          && bool_decide (probe_token b = None) |}.

(** [acquire_attempt]: a token, or the time to wait.  [fresh] is the identity of
    the token object the call allocates. *)
Definition acquire_attempt (b : ModelCapacityBreaker) (fresh : AdmissionToken) (now : Z)
    : ModelCapacityBreaker * (AdmissionToken + Z) :=
  if negb (is_open b) then (b, inl fresh)
  else
    let elapsed := now - opened_at b in
    let cooldown := current_cooldown b in
    if bool_decide (elapsed < cooldown) then (b, inr (Z.max 100 (cooldown - elapsed)))
    else match probe_token b with
         | Some _ => (b, inr PROBE_PENDING_WAIT)
         | None => (with_probe (Some fresh) b, inl fresh)
         end.

Definition holds_probe (b : ModelCapacityBreaker) (t : AdmissionToken) : bool :=
  bool_decide (probe_token b = Some t).

(** [attempt_succeeded]: closes and resets, whoever reports it. *)
Definition attempt_succeeded (b : ModelCapacityBreaker) (t : AdmissionToken)
    : ModelCapacityBreaker :=
  {| name := name b; generation_threshold := generation_threshold b;
     cooldown_base := cooldown_base b; cooldown_cap := cooldown_cap b; is_open := false;
     probe_token := if holds_probe b t then None else probe_token b;
     failed_generations := 0; consecutive_opens := 0; opened_at := opened_at b |}.

(** [attempt_failed_capacity]: only the probe's own token re-opens. *)
Definition attempt_failed_capacity (b : ModelCapacityBreaker) (t : AdmissionToken) (now : Z)
    : ModelCapacityBreaker :=
  if is_open b && holds_probe b t then reopen now b else b.

Definition abandon (b : ModelCapacityBreaker) (t : AdmissionToken) : ModelCapacityBreaker :=
  if holds_probe b t then with_probe None b else b.

(** [record_generation_failure]. *)
Definition record_generation_failure (b : ModelCapacityBreaker) (now : Z)
    : ModelCapacityBreaker :=
  let b' := {| name := name b; generation_threshold := generation_threshold b;
               cooldown_base := cooldown_base b; cooldown_cap := cooldown_cap b;
               is_open := is_open b; probe_token := probe_token b;
               failed_generations := failed_generations b + 1;
               consecutive_opens := consecutive_opens b; opened_at := opened_at b |} in
  if negb (is_open b) && bool_decide (generation_threshold b <= failed_generations b')
  then reopen now b' else b'.

Inductive Label : Type :=
| LAcquire (fresh : AdmissionToken) (now : Z)
| LSucceeded (t : AdmissionToken)
| LFailed (t : AdmissionToken) (now : Z)
| LAbandon (t : AdmissionToken)
| LGeneration (now : Z).

Definition exec (b : ModelCapacityBreaker) (l : Label) : ModelCapacityBreaker :=
  match l with
  | LAcquire fresh now => fst (acquire_attempt b fresh now)
  | LSucceeded t => attempt_succeeded b t
  | LFailed t now => attempt_failed_capacity b t now
  | LAbandon t => abandon b t
  | LGeneration now => record_generation_failure b now
  end.

(** The token a resolution label names. *)
Definition resolves (l : Label) : option AdmissionToken :=
  match l with LSucceeded t | LFailed t _ | LAbandon t => Some t | _ => None end.

End Capacity.

Module Registry.

Record ModelBreakerRegistry : Type := {
  r_threshold : Z;
  r_cooldown_base : Z;
  r_cooldown_cap : Z;
  r_breakers : gmap string Capacity.ModelCapacityBreaker
}.

Definition create (threshold base cap : Z) : ModelBreakerRegistry :=
  {| r_threshold := threshold; r_cooldown_base := base; r_cooldown_cap := cap;
     r_breakers := ∅ |}.

(** [s or 'unknown'] for a string. *)
Definition or_unknown (s : string) : string := if bool_decide (s = "") then "unknown" else s.

Definition breaker_key (provider model : string) : string :=
  String.append (or_unknown provider) (String.append ":" (or_unknown model)).

(** [for_model]: the breaker of the key, created on first use. *)
Definition for_model (r : ModelBreakerRegistry) (provider model : string)
    : ModelBreakerRegistry * Capacity.ModelCapacityBreaker :=
  let key := breaker_key provider model in
  match r_breakers r !! key with
  | Some b => (r, b)
  | None =>
      let b := Capacity.create key (r_threshold r) (r_cooldown_base r) (r_cooldown_cap r) in
      ({| r_threshold := r_threshold r; r_cooldown_base := r_cooldown_base r;
          r_cooldown_cap := r_cooldown_cap r; r_breakers := <[key := b]> (r_breakers r) |}, b)
  end.

Definition snapshot (r : ModelBreakerRegistry) (now : Z) : gmap string Capacity.Snapshot :=
  (λ b, Capacity.snapshot b now) <$> r_breakers r.

End Registry.

(** [compute_backoff_no_jitter], and the ceiling of [compute_backoff]. *)
Definition compute_backoff_no_jitter (attempt : nat) (base_delay max_delay : Z) : Z :=
  Z.min max_delay (doubled base_delay attempt).

(** [compute_backoff]: [uniform 0 ceiling], the draw [u] given in permille. *)
Definition compute_backoff (u : Z) (attempt : nat) (base_delay max_delay : Z) : Z :=
  compute_backoff_no_jitter attempt base_delay max_delay * u `div` 1000.
