(* ===== verification/BreakersTheory.v ===== *)
(** * Properties of the circuit breakers *)

From S2P Require Import Prelude Breakers.
Open Scope string_scope.
Open Scope list_scope.
Open Scope Z_scope.

Lemma doubled_succ base e : doubled base (S e) = 2 * doubled base e.
Proof. unfold doubled. rewrite Nat2Z.inj_succ, Z.pow_succ_r by lia. ring. Qed.

Lemma doubled_ge base e : 0 <= base → base <= doubled base e.
Proof.
  intros Hb. unfold doubled.
  assert (1 <= 2 ^ Z.of_nat e) by (apply (Z.pow_le_mono_r 2 0); lia). nia.
Qed.

Module CircuitTheory.
Import Circuit.

(** ** The transport breaker *)

Record inv (b : CircuitBreaker) : Prop := {
  inv_owner : is_Some (probe_owner b) → st b ≠ closed;
  inv_half : st b = half_open → is_Some (probe_owner b);
  inv_count : st b ≠ closed → failure_threshold b <= failure_count b
}.

Lemma owned_by_other_false b c :
  owned_by_other b c = false → probe_owner b = None ∨ probe_owner b = Some c.
Proof.
  unfold owned_by_other. destruct (probe_owner b) as [c'|]; [|by left].
  intros Hn. bool_prop. subst. by right.
Qed.

Lemma create_inv n th rt : inv (create n th rt).
Proof. split; simpl; [by intros []|done|done]. Qed.

Lemma exec_inv b l : inv b → inv (exec b l).
Proof.
  intros [Ho Hh Hc]. destruct l as [c now|c|c|c now]; simpl.
  - unfold check. destruct (probe_owner b) eqn:Hp; [by split; rewrite ?Hp|].
    destruct (st b) eqn:Hs; [by split; rewrite ?Hp, ?Hs| |by split; rewrite ?Hp, ?Hs].
    case_bool_decide; [by split; rewrite ?Hp, ?Hs|]. split; simpl; try done; eauto.
  - unfold abandon. destruct (owned_by b c) eqn:Hown; [|done].
    unfold owned_by in Hown. bool_prop. split; simpl; [by intros []| |].
    + case_bool_decide; naive_solver.
    + intros _. apply Hc, Ho. eauto.
  - unfold record_success. destruct (owned_by_other b c); [done|].
    split; simpl; [by intros []|done|done].
  - unfold record_failure. destruct (owned_by_other b c); [done|]. simpl.
    case_bool_decide as Ht; simpl in Ht; [by split; simpl|].
    split; simpl; [done|done|]. intros Hs. specialize (Hc Hs). lia.
Qed.

(** a half-open probe is exclusive.  Once [check] hands the probe of an open
    breaker to a caller, nothing any other caller does changes the breaker, and
    every further check is refused, until that caller settles it. *)
Theorem probe_exclusive b c now b' ls :
  st b = open → check b c now = Ok b' → Forall (λ l, caller l ≠ c) ls →
  st b' = half_open ∧ run exec b' ls = b' ∧
  ∀ c' now', check (run exec b' ls) c' now' =
    Err {| provider := name b; retry_after := recovery_timeout b |}.
Proof.
  unfold check. intros Hs Hc Hls. rewrite Hs in Hc.
  destruct (probe_owner b); [done|]. destruct (bool_decide _); [done|]. injection Hc as <-.
  assert (Hrun : run exec (with_state half_open (Some c) b) ls = with_state half_open (Some c) b).
  { apply (run_invariant_on exec (λ l, caller l ≠ c)
      (λ x, x = with_state half_open (Some c) b)); [done..|].
    clear. intros x [c' now|c'|c'|c' now] Hne ->; simpl in *.
    - done.
    - unfold abandon, owned_by. simpl. by rewrite bool_decide_eq_false_2 by congruence.
    - unfold record_success, owned_by_other. simpl. by rewrite bool_decide_eq_false_2 by congruence.
    - unfold record_failure, owned_by_other. simpl.
      by rewrite bool_decide_eq_false_2 by congruence. }
  split_and!; [done|done|]. intros c' now'. by rewrite Hrun.
Qed.

(** a call never leaks the probe.  Whatever happens to the breaker while the
    wrapped method runs - reports of this or of other callers, nothing at all when
    it is cancelled - the caller owns no probe afterwards, and an unreported probe
    leaves the breaker open with its timer already elapsed, so the next caller may
    probe at once. *)
Theorem breaker_call_releases b c now ls b' :
  breaker_call b c now (λ x, run exec x ls) = Ok b' →
  probe_owner b' ≠ Some c ∧
  (inv b → st b = open → ls = [] →
   ∀ c' now', now <= now' → is_ok (check b' c' now') = true).
Proof.
  unfold breaker_call. intros Hcall.
  destruct (check b c now) as [b1|] eqn:Hck; [|done]. injection Hcall as <-. split.
  - unfold abandon. destruct (owned_by _ c) eqn:Ho; [done|].
    unfold owned_by in Ho. by bool_prop.
  - intros Hinv Hs -> c' now' Hle. simpl. unfold check in Hck. rewrite Hs in Hck.
    destruct (probe_owner b); [done|]. case_bool_decide; [done|]. injection Hck as <-.
    unfold abandon, owned_by. simpl. rewrite bool_decide_eq_true_2 by done. unfold check. simpl.
    by rewrite bool_decide_eq_false_2 by lia.
Qed.

Lemma failures_count b c ts :
  probe_owner b = None → st b = closed →
  let b' := foldl (λ b t, record_failure b c t) b ts in
  probe_owner b' = None ∧ failure_count b' = failure_count b + Z.of_nat (length ts) ∧
  failure_threshold b' = failure_threshold b ∧ recovery_timeout b' = recovery_timeout b ∧
  name b' = name b ∧ last_failure_time b' = default (last_failure_time b) (last ts) ∧
  (ts ≠ [] → failure_threshold b <= failure_count b' → st b' = open) ∧
  (failure_count b' < failure_threshold b → st b' = closed).
Proof.
  intros Hp Hs. induction ts as [|t ts IH] using rev_ind; simpl.
  { split_and!; try done. lia. }
  rewrite foldl_snoc. set (b1 := foldl _ b ts) in *.
  destruct IH as (Hp1 & Hn1 & Ht1 & Hr1 & Hname & Hl1 & Ho1 & Hc1).
  unfold record_failure, owned_by_other. rewrite Hp1. simpl.
  rewrite length_app, last_snoc. simpl. rewrite Ht1, Hn1.
  case_bool_decide as Hth; simpl.
  - split_and!; try done; try lia.
  - split_and!; try done; try lia. intros _. apply Hc1. lia.
Qed.

(** the breaker opens exactly at the threshold of consecutive failures, fails
    fast with the remaining time while the recovery period runs, and admits the
    next caller when it is over. *)
Theorem opens_at_threshold n th rt c ts t c' now :
  1 <= th →
  let b := foldl (λ b t, record_failure b c t) (create n th rt) (ts ++ [t]) in
  (st b = open ↔ th <= Z.of_nat (length (ts ++ [t]))) ∧
  (th <= Z.of_nat (length (ts ++ [t])) →
   (now - t < rt → t <= now → check b c' now =
      Err {| provider := n; retry_after := t + rt - now |}) ∧
   (rt <= now - t → is_ok (check b c' now) = true)) ∧
  (Z.of_nat (length (ts ++ [t])) < th → check b c' now = Ok b).
Proof.
  intros Hth b.
  pose proof (failures_count (create n th rt) c (ts ++ [t]) eq_refl eq_refl) as Hf.
  simpl in Hf. fold b in Hf. destruct Hf as (Hp & Hn & Ht & Hr & Hname & Hl & Ho & Hc).
  rewrite last_snoc in Hl. simpl in Hl. rewrite Z.add_0_l in Hn.
  assert (Hne : ts ++ [t] ≠ []) by (by destruct ts).
  split_and!.
  - split; intros Hx; [|apply Ho; [done|lia]].
    destruct (Z.le_gt_cases th (Z.of_nat (length (ts ++ [t])))) as [|Hlt]; [done|].
    rewrite Hc in Hx by lia. done.
  - intros Hge. specialize (Ho Hne ltac:(lia)). unfold check. rewrite Hp, Ho, Hr, Hl, Hname.
    split; intros Hx.
    + intros Hle. rewrite bool_decide_eq_true_2 by done. f_equal. f_equal. lia.
    + by rewrite bool_decide_eq_false_2 by lia.
  - intros Hlt. unfold check. rewrite Hp, Hc by lia. done.
Qed.

End CircuitTheory.

Module CapacityTheory.
Import Capacity.

(** ** The capacity breaker *)

Record wf (b : ModelCapacityBreaker) : Prop := {
  wf_base : 0 < cooldown_base b;
  wf_cap : cooldown_base b <= cooldown_cap b
}.

Lemma create_wf n th base cap : wf (create n th base cap).
Proof. split; simpl; lia. Qed.

Lemma capacity_exec_wf b l : wf b → wf (exec b l).
Proof.
  intros [Hb Hc]. destruct l; simpl; [unfold acquire_attempt| |unfold attempt_failed_capacity|
    unfold abandon|unfold record_generation_failure]; repeat case_match; by split.
Qed.

Lemma current_cooldown_min b :
  current_cooldown b = Z.min (cooldown_cap b) (doubled (cooldown_base b) (consecutive_opens b - 1)).
Proof. unfold current_cooldown. case_bool_decide; lia. Qed.

Lemma current_cooldown_bounds b :
  wf b → cooldown_base b <= current_cooldown b <= cooldown_cap b.
Proof.
  intros [Hb Hc]. rewrite current_cooldown_min.
  pose proof (doubled_ge (cooldown_base b) (consecutive_opens b - 1)). lia.
Qed.

(** at most one probe.  A token granted by an open breaker holds the only
    probe slot: as long as it is unresolved and no attempt succeeded, whatever
    else happens the breaker stays open and admits nobody, asking for a positive
    wait. *)
Theorem single_probe b t now b' ls :
  wf b → is_open b = true → acquire_attempt b t now = (b', inl t) →
  Forall (λ l, resolves l ≠ Some t ∧ ∀ t', l ≠ LSucceeded t') ls →
  state (run exec b' ls) = probing ∧
  ∀ t' now', ∃ w, acquire_attempt (run exec b' ls) t' now' = (run exec b' ls, inr w) ∧ 0 < w.
Proof.
  intros Hwf Hop Hacq Hls.
  assert (Hb' : is_open b' = true ∧ probe_token b' = Some t ∧ wf b').
  { unfold acquire_attempt in Hacq. rewrite Hop in Hacq. simpl in Hacq.
    case_bool_decide; [done|]. destruct (probe_token b); [done|]. injection Hacq as <-.
    destruct Hwf. by split_and!. }
  assert (Hrun : is_open (run exec b' ls) = true ∧ probe_token (run exec b' ls) = Some t ∧
                 wf (run exec b' ls)).
  { apply (run_invariant_on exec (λ l, resolves l ≠ Some t ∧ ∀ t', l ≠ LSucceeded t')
      (λ b, is_open b = true ∧ probe_token b = Some t ∧ wf b)); [done..|].
    clear. intros b l [Hr Hsucc] (Ho & Hp & Hwf). pose proof (capacity_exec_wf b l Hwf) as Hwf'.
    split_and!; [..|done]; (destruct l as [f now|t'|t' now|t'|now]; simpl in *;
      [unfold acquire_attempt|by destruct (Hsucc t')|
       unfold attempt_failed_capacity, holds_probe|unfold abandon, holds_probe|
       unfold record_generation_failure]; rewrite ?Ho, ?Hp; simpl;
      rewrite ?bool_decide_eq_false_2 by congruence; repeat case_match; simpl in *;
      simplify_eq; done). }
  destruct Hrun as (Ho & Hp & Hw). split.
  - unfold state. by rewrite Ho, Hp.
  - intros t' now'. unfold acquire_attempt. rewrite Ho, Hp. simpl.
    case_bool_decide; eexists; (split; [done|]); unfold PROBE_PENDING_WAIT; lia.
Qed.

(** One whole failed probe: admitted at [t1], failed at [t2]. *)
Definition failed_probe (b : ModelCapacityBreaker) (tok : AdmissionToken) (t1 t2 : Z)
    : ModelCapacityBreaker :=
  attempt_failed_capacity (fst (acquire_attempt b tok t1)) tok t2.

(** A new breaker that opened and then failed one probe per element. *)
Definition outage (n : string) (base cap t0 : Z) (probes : list (AdmissionToken * Z * Z))
    : ModelCapacityBreaker :=
  foldl (λ b '(tok, t1, t2), failed_probe b tok t1 t2)
    (record_generation_failure (create n 1 base cap) t0) probes.

(** Each probe of the list comes after the cooldown of the breaker it meets. *)
Fixpoint due (b : ModelCapacityBreaker) (probes : list (AdmissionToken * Z * Z)) : Prop :=
  match probes with
  | [] => True
  | (tok, t1, t2) :: rest =>
      current_cooldown b <= t1 - opened_at b ∧ due (failed_probe b tok t1 t2) rest
  end.

Lemma failed_probe_open b tok t1 t2 :
  is_open b = true → probe_token b = None → current_cooldown b <= t1 - opened_at b →
  failed_probe b tok t1 t2 = reopen t2 b.
Proof.
  intros Ho Hp Hd. unfold failed_probe, acquire_attempt. rewrite Ho, Hp. simpl.
  rewrite bool_decide_eq_false_2 by lia. simpl. unfold attempt_failed_capacity, holds_probe.
  simpl. by rewrite Ho, bool_decide_eq_true_2.
Qed.

Lemma due_outage b probes :
  is_open b = true → probe_token b = None → due b probes →
  let b' := foldl (λ b '(tok, t1, t2), failed_probe b tok t1 t2) b probes in
  is_open b' = true ∧ probe_token b' = None ∧ cooldown_base b' = cooldown_base b ∧
  cooldown_cap b' = cooldown_cap b ∧
  consecutive_opens b' = (consecutive_opens b + length probes)%nat.
Proof.
  revert b. induction probes as [|[[tok t1] t2] probes IH]; simpl; intros b Ho Hp Hd.
  { split_and!; try done. }
  destruct Hd as [Hd Hrest]. rewrite failed_probe_open in * by done.
  destruct (IH (reopen t2 b)) as (? & ? & ? & ? & Hn); [done..|].
  split_and!; try done. simpl in Hn. rewrite Hn. lia.
Qed.

(** the cooldown of a long outage doubles per failed probe up to the cap, and
    one success closes the breaker and restarts the ladder at the base. *)
Theorem outage_cooldown n base cap t0 probes :
  due (record_generation_failure (create n 1 base cap) t0) probes →
  let b := outage n base cap t0 probes in
  let base' := Z.max 1000 base in
  state b = opened ∧
  current_cooldown b = Z.min (Z.max base' cap) (base' * 2 ^ Z.of_nat (length probes)) ∧
  (∀ tok now, state (attempt_succeeded b tok) = closed ∧
     current_cooldown (record_generation_failure (attempt_succeeded b tok) now) = base').
Proof.
  intros Hd b base'.
  destruct (due_outage (record_generation_failure (create n 1 base cap) t0) probes
    ltac:(done) ltac:(done) Hd) as (Ho & Hp & Hb & Hc & Hn).
  fold (outage n base cap t0 probes) in Ho, Hp, Hb, Hc, Hn. fold b in Ho, Hp, Hb, Hc, Hn.
  split_and!.
  - unfold state. by rewrite Ho, Hp.
  - rewrite current_cooldown_min, Hb, Hc, Hn. simpl. rewrite Nat.sub_0_r. done.
  - intros tok now. split; [done|]. rewrite current_cooldown_min.
    unfold record_generation_failure, attempt_succeeded. simpl.
    assert (Hth : generation_threshold b = 1).
    { clear -b. assert (∀ ps x, generation_threshold
        (foldl (λ b '(tok, t1, t2), failed_probe b tok t1 t2) x ps) = generation_threshold x) as Hall.
      { induction ps as [|[[tok t1] t2] ps IH]; intros x; simpl; [done|]. rewrite IH.
        unfold failed_probe, attempt_failed_capacity, acquire_attempt. by repeat case_match. }
      unfold b, outage. by rewrite Hall. }
    rewrite Hth. simpl. rewrite Hb, Hc. simpl. fold base'. unfold doubled. lia.
Qed.

End CapacityTheory.

Module RegistryTheory.
Import Registry.

Lemma or_unknown_ne s : or_unknown s ≠ "".
Proof. unfold or_unknown. by case_bool_decide. Qed.

Fixpoint colon_free (s : string) : bool :=
  match s with
  | String.EmptyString => true
  | String.String c s => negb (Ascii.eqb c ":"%char) && colon_free s
  end.

Lemma append_colon_inj a1 a2 b1 b2 :
  colon_free a1 = true → colon_free a2 = true →
  String.append a1 (String.String ":"%char b1) = String.append a2 (String.String ":"%char b2) →
  a1 = a2 ∧ b1 = b2.
Proof.
  revert a2. induction a1 as [|c a1 IH]; intros [|c2 a2] H1 H2; simpl in *; intros Heq; simplify_eq;
    try (rewrite Ascii.eqb_refl in *; done).
  - done.
  - bool_prop. by destruct (IH a2) as [-> ->].
Qed.

(** Breakers are shared exactly by provider and effective model.  With provider
    names that hold no colon, two requests get the same breaker only if provider
    and model agree (up to the 'unknown' default), the second lookup returns the
    first one's state, and other keys' breakers are untouched. *)
Theorem for_model_keyed r p1 m1 p2 m2 :
  colon_free p1 = true → colon_free p2 = true →
  let '(r', b) := for_model r p1 m1 in
  for_model r' p1 m1 = (r', b) ∧
  (breaker_key p1 m1 = breaker_key p2 m2 ↔
     or_unknown p1 = or_unknown p2 ∧ or_unknown m1 = or_unknown m2) ∧
  (breaker_key p1 m1 ≠ breaker_key p2 m2 →
     r_breakers r' !! breaker_key p2 m2 = r_breakers r !! breaker_key p2 m2).
Proof.
  intros H1 H2.
  assert (Hcf : ∀ p, colon_free p = true → colon_free (or_unknown p) = true)
    by (intros p Hp; unfold or_unknown; by case_bool_decide).
  assert (Hkey : breaker_key p1 m1 = breaker_key p2 m2 ↔
     or_unknown p1 = or_unknown p2 ∧ or_unknown m1 = or_unknown m2).
  { unfold breaker_key. split; [|by intros [-> ->]].
    intros Heq. apply append_colon_inj; auto. }
  unfold for_model. destruct (r_breakers r !! breaker_key p1 m1) as [b|] eqn:E.
  - rewrite E. split_and!; done.
  - simpl. rewrite lookup_insert_eq. split_and!; [done|done|].
    intros Hne. by rewrite lookup_insert_ne.
Qed.

End RegistryTheory.

(** ** Witnesses *)

Module BreakersWitness.
Import CircuitTheory CapacityTheory RegistryTheory.

Definition tripped : Circuit.CircuitBreaker :=
  foldl (λ b t, Circuit.record_failure b 1%nat t) (Circuit.create "codex_api" 3 60000)
    [1000; 2000; 3000].

Definition probing1 : Circuit.CircuitBreaker :=
  Circuit.with_state Circuit.half_open (Some 1%nat) tripped.

Lemma probe_exclusive_witness :
  Circuit.check (run Circuit.exec probing1 [Circuit.LSuccess 2%nat; Circuit.LAbandon 2%nat])
    2%nat 70000 = Err {| Circuit.provider := "codex_api"; Circuit.retry_after := 60000 |}.
Proof.
  destruct (probe_exclusive tripped 1%nat 63000 probing1
    [Circuit.LSuccess 2%nat; Circuit.LAbandon 2%nat]) as (_ & _ & Hc).
  - reflexivity.
  - vm_compute. reflexivity.
  - repeat constructor; discriminate.
  - exact (Hc 2%nat 70000).
Defined.

Lemma breaker_call_releases_witness :
  is_ok (Circuit.check (Circuit.with_state Circuit.open None tripped) 2%nat 64000) = true.
Proof.
  destruct (breaker_call_releases tripped 1%nat 63000 []
    (Circuit.with_state Circuit.open None tripped)) as [_ Hc].
  - vm_compute. reflexivity.
  - apply (Hc ltac:(split; vm_compute; naive_solver) eq_refl eq_refl 2%nat 64000). lia.
Defined.

Lemma opens_at_threshold_witness :
  Circuit.check tripped 2%nat 13000 =
    Err {| Circuit.provider := "codex_api"; Circuit.retry_after := 50000 |}.
Proof.
  destruct (opens_at_threshold "codex_api" 3 60000 1%nat [1000; 2000] 3000 2%nat 13000
    ltac:(lia)) as (_ & Hf & _).
  apply Hf; simpl; lia.
Defined.

Definition tired : Capacity.ModelCapacityBreaker :=
  Capacity.record_generation_failure (Capacity.create "codex:gpt" 1 30000 300000) 0.

Lemma single_probe_witness :
  ∃ w, Capacity.acquire_attempt
         (run Capacity.exec (Capacity.with_probe (Some 7%nat) tired) [Capacity.LFailed 8%nat 31000])
         9%nat 40000 =
       (run Capacity.exec (Capacity.with_probe (Some 7%nat) tired) [Capacity.LFailed 8%nat 31000],
        inr w) ∧ 0 < w.
Proof.
  destruct (single_probe tired 7%nat 30000 (Capacity.with_probe (Some 7%nat) tired)
    [Capacity.LFailed 8%nat 31000]) as [_ Hw].
  - split; vm_compute; [reflexivity|discriminate].
  - reflexivity.
  - vm_compute. reflexivity.
  - repeat constructor; discriminate.
  - exact (Hw 9%nat 40000).
Defined.

Lemma outage_cooldown_witness :
  Capacity.current_cooldown
    (outage "codex:gpt" 30000 300000 0 [(1%nat, 30000, 31000); (2%nat, 91000, 92000)]) = 120000.
Proof.
  destruct (outage_cooldown "codex:gpt" 30000 300000 0
    [(1%nat, 30000, 31000); (2%nat, 91000, 92000)]) as (_ & Hc & _).
  - vm_compute. repeat split; discriminate.
  - rewrite Hc. reflexivity.
Defined.

Lemma for_model_keyed_witness :
  Registry.breaker_key "ollama" "llama3:8b" ≠ Registry.breaker_key "codex" "llama3:8b".
Proof.
  pose proof (for_model_keyed (Registry.create 1 30000 300000) "ollama" "llama3:8b"
    "codex" "llama3:8b" eq_refl eq_refl) as Hk.
  destruct (Registry.for_model _ _ _) as [r b]. destruct Hk as (_ & Hk & _).
  intros Heq. apply Hk in Heq as [Heq _]. discriminate Heq.
Defined.

End BreakersWitness.
