(* ===== verification/Recovery.v ===== *)
(** * Deadline-based recovery of one LLM generation (src/src/llm/recovery.py)

    [generate] is the retry loop of [_generate_with_recovery] run against an
    environment: how long the [k]-th attempt takes and how it ends, how late the
    [k]-th sleep wakes up, what other callers do to the shared capacity breaker
    while this generation awaits, the jitter drawn for each backoff, and the time
    at which the caller's cancel event is set.  Times are milliseconds. *)

From S2P Require Import Prelude Breakers.
Import Capacity.
Open Scope string_scope.
Open Scope list_scope.
Open Scope Z_scope.

(** The exceptions an attempt can end with; a [retry_after] hint rides on the
    classes the loop retries. *)
Inductive LLMError : Type :=
| LLMCapacityError (retry_after : option Z)
| LLMTransportError (retry_after : option Z)
| CircuitOpenError (retry_after : option Z)
| LLMAuthError
| LLMRequestError
| LLMRateLimitError
| Unclassified.

Inductive Outcome : Type :=
| Succeeded
| Failed (e : LLMError).

Record RecoveryPolicy : Type := {
  deadline_seconds : Z;
  backoff_base : Z;
  backoff_cap : Z;
  retry_after_cap : Z
}.

Definition default_policy : RecoveryPolicy :=
  {| deadline_seconds := 300000; backoff_base := 1000; backoff_cap := 45000;
     retry_after_cap := 90000 |}.

Record Env : Type := {
  attempt_time : nat → Z;
  attempt_outcome : nat → Outcome;
  lateness : nat → Z;
  others : nat → list Label;
  fresh_token : nat → AdmissionToken;
  jitter : nat → Z;
  cancel_at : option Z
}.

(** The mutable world of one generation; [starts] and [failures] are what the
    properties speak about: when attempts began, newest first, and how many
    generation failures were recorded. *)
Record World : Type := {
  now : Z;
  breaker : option ModelCapacityBreaker;
  awaits : nat;
  starts : list Z;
  failures : nat
}.

Inductive Exit : Type :=
| Returned
| RaisedFast (e : LLMError)
| RaisedExhausted (e : LLMError)
| Cancelled.

Section recovery.
Context (env : Env) (policy : RecoveryPolicy) (retry_circuit_open : bool).

Definition cancel_set (w : World) : bool :=
  match cancel_at env with Some t => bool_decide (t <= now w) | None => false end.

Definition set_breaker (b : option ModelCapacityBreaker) (w : World) : World :=
  {| now := now w; breaker := b; awaits := awaits w; starts := starts w;
     failures := failures w |}.

(** Control passes to the other tasks until time [t]. *)
Definition await_until (t : Z) (w : World) : World :=
  {| now := t; breaker := (λ b, run exec b (others env (awaits w))) <$> breaker w; awaits := S (awaits w);
     starts := starts w; failures := failures w |}.

(** [_sleep_cancellable]: [false] when the cancel event fired during the sleep. *)
Definition sleep_cancellable (wait : Z) (w : World) : World * bool :=
  if bool_decide (wait <= 0) then (w, true)
  else
    let wake := now w + wait + lateness env (awaits w) in
    match cancel_at env with
    | Some t => if bool_decide (t < wake) then (await_until (Z.max t (now w)) w, false)
                else (await_until wake w, true)
    | None => (await_until wake w, true)
    end.

(** [_attempt_cancellable]: the attempt raced against the cancel event; an attempt
    that is done wins. *)
Definition attempt_cancellable (w : World) : World * option Outcome :=
  let finish := now w + attempt_time env (length (starts w)) in
  let outcome := attempt_outcome env (length (starts w)) in
  let started := {| now := now w; breaker := breaker w; awaits := awaits w;
                    starts := now w :: starts w; failures := failures w |} in
  match cancel_at env with
  | Some t => if bool_decide (t < finish) then (await_until (Z.max t (now w)) started, None)
              else (await_until finish started, Some outcome)
  | None => (await_until finish started, Some outcome)
  end.

Definition is_capacity (e : LLMError) : bool :=
  match e with LLMCapacityError _ => true | _ => false end.

(** [_exhausted]: the last error, capacity when there was no attempt; a capacity
    error counts one generation failure on the breaker. *)
Definition exhausted (last_error : option LLMError) (w : World) : World * Exit :=
  let error := default (LLMCapacityError None) last_error in
  match breaker w with
  | Some b =>
      if is_capacity error then
        ({| now := now w; breaker := Some (record_generation_failure b (now w));
            awaits := awaits w; starts := starts w; failures := S (failures w) |},
         RaisedExhausted error)
      else (w, RaisedExhausted error)
  | None => (w, RaisedExhausted error)
  end.

Inductive Admission : Type :=
| Granted (token : option AdmissionToken)
| Stopped (e : Exit).

(** The admission loop; [None] is fuel exhaustion. *)
Fixpoint admission (fuel : nat) (deadline : Z) (last_error : option LLMError) (w : World)
    : option (World * Admission) :=
  match fuel with
  | O => None
  | S fuel =>
      match breaker w with
      | None => Some (w, Granted None)
      | Some b =>
          match acquire_attempt b (fresh_token env (awaits w)) (now w) with
          | (b', inl token) => Some (set_breaker (Some b') w, Granted (Some token))
          | (b', inr pending) =>
              let w := set_breaker (Some b') w in
              let remaining := deadline - now w in
              if bool_decide (remaining <= 0) then
                let '(w', e) := exhausted last_error w in Some (w', Stopped e)
              else
                let wait := Z.min pending remaining in
                let '(w', awake) := sleep_cancellable wait w in
                if awake && negb (cancel_set w') then admission fuel deadline last_error w'
                else Some (w', Stopped Cancelled)
          end
      end
  end.

(** What the [except] clauses do with the admitted token, and whether the loop
    goes on. *)
Definition resolve (token : option AdmissionToken)
    (f : ModelCapacityBreaker → AdmissionToken → ModelCapacityBreaker) (w : World) : World :=
  match breaker w, token with
  | Some b, Some t => set_breaker (Some (f b t)) w
  | _, _ => w
  end.

Definition retryable (e : LLMError) : bool :=
  match e with
  | LLMCapacityError _ | LLMTransportError _ => true
  | CircuitOpenError _ => retry_circuit_open
  | _ => false
  end.

Definition settle_failure (e : LLMError) (token : option AdmissionToken) (w : World) : World :=
  match e with
  | LLMCapacityError _ => resolve token (λ b t, attempt_failed_capacity b t (now w)) w
  | _ => resolve token abandon w
  end.

Definition suggested (e : LLMError) : option Z :=
  match e with
  | LLMCapacityError r | LLMTransportError r | CircuitOpenError r => r
  | _ => None
  end.

(** The wait before the next attempt: full jitter, floored by a clamped
    server-suggested delay, bounded by the remaining budget. *)
Definition backoff_wait (retry_index : nat) (e : LLMError) (remaining : Z) : Z :=
  let j := compute_backoff (jitter env retry_index) retry_index
             (backoff_base policy) (backoff_cap policy) in
  let floor := match suggested e with
               | Some r => if bool_decide (0 < r) then Z.min r (retry_after_cap policy) else 0
               | None => 0
               end in
  Z.min remaining (Z.max j floor).

(** The [while True] loop. *)
Fixpoint generate (fuel : nat) (deadline : Z) (retry_index : nat)
    (last_error : option LLMError) (w : World) : option (World * Exit) :=
  match fuel with
  | O => None
  | S fuel =>
      if cancel_set w then Some (w, Cancelled)
      else match admission (S fuel) deadline last_error w with
      | None => None
      | Some (w1, Stopped e) => Some (w1, e)
      | Some (w1, Granted token) =>
          match attempt_cancellable w1 with
          | (w2, None) => Some (resolve token abandon w2, Cancelled)
          | (w2, Some Succeeded) => Some (resolve token attempt_succeeded w2, Returned)
          | (w2, Some (Failed e)) =>
              let w3 := settle_failure e token w2 in
              if retryable e then
                let remaining := deadline - now w3 in
                if bool_decide (remaining <= 0) then Some (exhausted (Some e) w3)
                else
                  let '(w4, awake) :=
                    sleep_cancellable (backoff_wait retry_index e remaining) w3 in
                  if awake then generate fuel deadline (S retry_index) (Some e) w4
                  else Some (w4, Cancelled)
              else Some (w3, RaisedFast e)
          end
      end
  end.

(** [_generate_with_recovery]: the deadline of the budget, then the loop. *)
Definition generate_with_recovery (fuel : nat) (budget : option Z) (w : World)
    : option (World * Exit) :=
  let deadline := now w + Z.max 0 (default (deadline_seconds policy) budget) in
  generate fuel deadline 0 None w.

End recovery.
