(* ===== verification/RecoveryTheory.v ===== *)
(** * Properties of the recovery loop *)

From S2P Require Import Prelude Breakers Recovery.
Import Capacity.
Open Scope string_scope.
Open Scope list_scope.
Open Scope Z_scope.

Section theory.
Context (env : Env) (policy : RecoveryPolicy) (rco : bool).

(** ** Time *)

Lemma await_now t w : now (await_until env t w) = t.
Proof. done. Qed.

Lemma set_breaker_now b w : now (set_breaker b w) = now w.
Proof. done. Qed.

Lemma resolve_now tok f w : now (resolve tok f w) = now w.
Proof. unfold resolve. by repeat case_match. Qed.

Lemma settle_now e tok w : now (settle_failure e tok w) = now w.
Proof. unfold settle_failure. case_match; apply resolve_now. Qed.

Lemma exhausted_now le w : now (fst (exhausted le w)) = now w.
Proof. unfold exhausted. by repeat case_match. Qed.

Lemma exhausted_starts le w w' e : exhausted le w = (w', e) → starts w' = starts w.
Proof. unfold exhausted. repeat case_match; by intros [= <- <-]. Qed.

Lemma sleep_spec wait w w' awake :
  sleep_cancellable env wait w = (w', awake) →
  (w' = w ∧ awake = true ∧ wait <= 0) ∨
  (0 < wait ∧ ∃ t, w' = await_until env t w ∧
    (awake = true → t = now w + wait + lateness env (awaits w)) ∧
    (awake = false → now w <= t)).
Proof.
  unfold sleep_cancellable. case_bool_decide as Hw; [intros [= <- <-]; by left|].
  intros Hs. right. split; [lia|].
  destruct (cancel_at env) as [c|]; [case_bool_decide|]; injection Hs as <- <-;
    eexists; (split; [done|]); split; intros ?; try done; lia.
Qed.

Lemma attempt_spec w w' o :
  attempt_cancellable env w = (w', o) →
  let started := {| now := now w; breaker := breaker w; awaits := awaits w;
                    starts := now w :: starts w; failures := failures w |} in
  ∃ t, w' = await_until env t started ∧
    match o with
    | Some out => t = now w + attempt_time env (length (starts w)) ∧
                  out = attempt_outcome env (length (starts w))
    | None => now w <= t
    end.
Proof.
  unfold attempt_cancellable. intros Ha.
  destruct (cancel_at env) as [c|]; [case_bool_decide|]; injection Ha as <- <-;
    eexists; (split; [done|]); simpl; try done; lia.
Qed.

Definition left_of (deadline : Z) (w : World) : nat := Z.to_nat (Z.max 0 (deadline - now w)).

Lemma acquire_wait_pos b t n b' w : acquire_attempt b t n = (b', inr w) → 0 < w ∧ b' = b.
Proof.
  unfold acquire_attempt. unfold PROBE_PENDING_WAIT. intros Ha.
  repeat case_match; simplify_eq; split; try done; lia.
Qed.

Section termination.
Hypothesis Hattempt : ∀ k, 1 <= attempt_time env k.
Hypothesis Hlate : ∀ k, 0 <= lateness env k.

Lemma admission_fuel fuel deadline le w :
  (left_of deadline w < fuel)%nat →
  ∃ w' a, admission env fuel deadline le w = Some (w', a) ∧ now w <= now w'.
Proof.
  revert w. induction fuel as [|fuel IH]; intros w Hf; [lia|]. simpl.
  destruct (breaker w) as [b|]; [|by eexists _, _].
  destruct (acquire_attempt _ _ _) as [b' [tok|pending]] eqn:Ha; [by eexists _, _|].
  apply acquire_wait_pos in Ha as [Hpos _].
  case_bool_decide as Hrem.
  { pose proof (exhausted_now le (set_breaker (Some b') w)) as He.
    destruct (exhausted _ _) as [w' e]. eexists _, _. split; [done|]. simpl in *. lia. }
  destruct (sleep_cancellable _ _ _) as [w' awake] eqn:Hs.
  apply sleep_spec in Hs. simpl in Hrem, Hs.
  destruct Hs as [(_ & _ & Hbad)|(Hw & t & -> & Ht & Hc)]; [lia|].
  destruct awake; simpl.
  - specialize (Ht eq_refl). pose proof (Hlate (awaits w)) as Hl.
    destruct (negb _); [|eexists _, _; split; [done|]; simpl; lia].
    destruct (IH (await_until env t (set_breaker (Some b') w))) as (w2 & a & -> & Hle).
    { unfold left_of in *. simpl in *. lia. }
    eexists _, _. split; [done|]. simpl in Hle. lia.
  - specialize (Hc eq_refl). eexists _, _. split; [done|]. simpl. lia.
Qed.

Lemma generate_fuel fuel deadline ri le w :
  (left_of deadline w < fuel)%nat →
  is_Some (generate env policy rco fuel deadline ri le w).
Proof.
  revert ri le w. induction fuel as [|fuel IH]; intros ri le w Hf; [lia|].
  cbn [generate]. destruct (cancel_set env w); [by eexists|].
  destruct (admission_fuel (S fuel) deadline le w Hf) as (w1 & a & -> & Hle).
  destruct a as [tok|]; [|by eexists].
  destruct (attempt_cancellable env w1) as [w2 o] eqn:Ha.
  apply attempt_spec in Ha as (t & Hw2 & Ho).
  destruct o as [[|e]|]; [by eexists| |by eexists].
  destruct Ho as [Ht _]. pose proof (Hattempt (length (starts w1))) as Hat.
  destruct (retryable rco e); [|by eexists].
  assert (Hn2 : now (settle_failure e tok w2) = t) by (by rewrite settle_now, Hw2).
  rewrite Hn2. case_bool_decide as Hrem; [by eexists|].
  destruct (sleep_cancellable _ _ _) as [w4 awake] eqn:Hs. apply sleep_spec in Hs.
  destruct awake; [|by eexists]. apply IH.
  destruct Hs as [(-> & _ & _)|(Hw & t' & -> & Ht' & _)].
  - unfold left_of in *. rewrite Hn2. lia.
  - specialize (Ht' eq_refl). unfold left_of in *. rewrite await_now, Ht', Hn2.
    pose proof (Hlate (awaits (settle_failure e tok w2))). lia.
Qed.

End termination.

(** recovery terminates.  When every attempt takes some time and no sleep wakes
    early, the retry loop ends - by a result, an error or cancellation - whatever
    the attempts return and whatever other callers do to the breaker, within as
    many rounds as the budget has milliseconds. *)
Theorem recovery_terminates budget w :
  (∀ k, 1 <= attempt_time env k) → (∀ k, 0 <= lateness env k) →
  ∃ w' e, generate_with_recovery env policy rco
    (S (Z.to_nat (Z.max 0 (default (deadline_seconds policy) budget)))) budget w = Some (w', e).
Proof.
  intros Ha Hl. unfold generate_with_recovery.
  destruct (generate_fuel Ha Hl (S (Z.to_nat (Z.max 0 (default (deadline_seconds policy) budget))))
    (now w + Z.max 0 (default (deadline_seconds policy) budget)) 0 None w) as [[w' e] He].
  - unfold left_of. lia.
  - eauto.
Qed.

(** ** Probe ownership *)

(** Other callers never use a token of this generation. *)
Definition token_of (l : Label) : option AdmissionToken :=
  match l with LAcquire t _ => Some t | _ => resolves l end.

Definition own (t : AdmissionToken) : Prop := ∃ j, t = fresh_token env j.

Definition foreign (ls : list Label) : Prop :=
  Forall (λ l, ∀ t, token_of l = Some t → ¬ own t) ls.

(** The open breaker's probe is ours only if it is [tok]. *)
Definition ours_only (tok : option AdmissionToken) (ob : option ModelCapacityBreaker) : Prop :=
  ∀ b t, ob = Some b → is_open b = true → probe_token b = Some t → own t → tok = Some t.

Lemma foreign_step b l t :
  (∀ t', token_of l = Some t' → ¬ own t') → own t →
  is_open (exec b l) = true → probe_token (exec b l) = Some t →
  is_open b = true ∧ probe_token b = Some t.
Proof.
  intros Hl Ht. destruct l as [f n|t'|t' n|t'|n]; simpl in *.
  - unfold acquire_attempt. intros Ho Hp. destruct (is_open b) eqn:Hob; simpl in *; [|congruence].
    case_bool_decide; simpl in *; [done|].
    destruct (probe_token b) eqn:Hpb; simpl in *; [naive_solver|].
    simplify_eq. by apply (Hl t) in Ht.
  - done.
  - unfold attempt_failed_capacity. destruct (is_open b && holds_probe b t'); simpl; [done|].
    done.
  - unfold abandon. destruct (holds_probe b t'); simpl; [done|]. done.
  - unfold record_generation_failure.
    destruct (negb (is_open b) && _); simpl; [done|]. done.
Qed.

Lemma foreign_run b ls t :
  foreign ls → own t → is_open (run exec b ls) = true → probe_token (run exec b ls) = Some t →
  is_open b = true ∧ probe_token b = Some t.
Proof.
  intros Hf Ht. revert b. induction Hf as [|l ls Hl Hf IH]; simpl; intros b Ho Hp; [done|].
  destruct (IH _ Ho Hp) as [Ho' Hp']. by eapply foreign_step.
Qed.

Section ownership.
Hypothesis Hforeign : ∀ k, foreign (others env k).

Lemma await_ours tok t w : ours_only tok (breaker w) → ours_only tok (breaker (await_until env t w)).
Proof.
  intros Hw b tk Hb Ho Hp Htk. simpl in Hb. destruct (breaker w) as [b0|] eqn:Hb0; [|done].
  simpl in Hb. injection Hb as <-.
  destruct (foreign_run _ _ _ (Hforeign (awaits w)) Htk Ho Hp). eapply Hw; eauto.
Qed.

Lemma sleep_ours tok wait w w' awake :
  sleep_cancellable env wait w = (w', awake) → ours_only tok (breaker w) →
  ours_only tok (breaker w') ∧ failures w' = failures w ∧ starts w' = starts w.
Proof.
  intros [(-> & _)|(_ & t & -> & _)]%sleep_spec Hw; [done|]. split; [|done].
  by apply await_ours.
Qed.

(** The one generation failure an exhausted capacity error records. *)
Definition counted (e : Exit) (has_breaker : bool) : nat :=
  match e with
  | RaisedExhausted err => if is_capacity err && has_breaker then 1 else 0
  | _ => 0
  end.

Definition has_breaker (w : World) : bool := bool_decide (is_Some (breaker w)).

Lemma exhausted_spec le w w' e :
  exhausted le w = (w', e) → ours_only None (breaker w) →
  ours_only None (breaker w') ∧ e = RaisedExhausted (default (LLMCapacityError None) le) ∧
  failures w' = (failures w + counted e (has_breaker w))%nat ∧ starts w' = starts w.
Proof.
  unfold exhausted, has_breaker. intros He Hw. destruct (breaker w) as [b|] eqn:Hb.
  - destruct (is_capacity _) eqn:Hc; injection He as <- <-; simpl; rewrite Hc; simpl.
    + split_and!; [|done|lia|done]. intros b' t [= <-] Ho Hp Ht.
      unfold record_generation_failure in *.
      destruct (negb (is_open b) && _); simpl in *; [done|]. eapply Hw; eauto.
    + rewrite Hb. split_and!; [done|done|lia|done].
  - injection He as <- <-. simpl. rewrite andb_false_r, Hb. split_and!; [done|done|lia|done].
Qed.

Lemma admission_spec fuel deadline le w w' a :
  admission env fuel deadline le w = Some (w', a) → ours_only None (breaker w) →
  has_breaker w' = has_breaker w ∧ starts w' = starts w ∧
  match a with
  | Granted tok => ours_only tok (breaker w') ∧ failures w' = failures w
  | Stopped e => ours_only None (breaker w') ∧
      (e = Cancelled ∨ e = RaisedExhausted (default (LLMCapacityError None) le)) ∧
      failures w' = (failures w + counted e (has_breaker w))%nat
  end.
Proof.
  revert w. induction fuel as [|fuel IH]; simpl; intros w Ha Hw; [done|].
  destruct (breaker w) as [b|] eqn:Hb.
  2:{ injection Ha as <- <-. split_and!; [done|done|by rewrite Hb|done]. }
  assert (Hhb : ∀ b', has_breaker (set_breaker (Some b') w) = has_breaker w).
  { intros b'. unfold has_breaker. simpl. rewrite Hb. done. }
  destruct (acquire_attempt _ _ _) as [b' [tok|pending]] eqn:Hacq.
  { injection Ha as <- <-. split_and!; [apply Hhb|done| |done].
    intros b1 t [= <-] Ho Hp Ht. simpl in *. unfold acquire_attempt in Hacq.
    destruct (is_open b) eqn:Hob; simpl in *; [|simplify_eq; congruence].
    destruct (bool_decide _) in Hacq; [done|].
    destruct (probe_token b) eqn:Hpb; [done|]. simplify_eq. by simpl in Hp. }
  apply acquire_wait_pos in Hacq as [_ ->].
  assert (Hw' : ours_only None (breaker (set_breaker (Some b) w))) by (by simpl).
  destruct (bool_decide _) in Ha.
  { destruct (exhausted _ _) as [w1 e] eqn:He. injection Ha as <- <-.
    pose proof He as He'. apply exhausted_spec in He as (Ho & -> & Hf & Hs); [|done].
    rewrite Hhb in Hf. split_and!; [|done|done|by right|done].
    unfold exhausted in He'. simpl in He'. unfold has_breaker. rewrite Hb.
    by destruct (is_capacity _); simplify_eq. }
  destruct (sleep_cancellable _ _ _) as [w1 awake] eqn:Hs.
  pose proof (sleep_ours _ _ _ _ _ Hs Hw') as (Ho & Hf & Hst).
  assert (Hhb1 : has_breaker w1 = has_breaker w).
  { apply sleep_spec in Hs as [(-> & _)|(_ & t & -> & _)]; [apply Hhb|].
    unfold has_breaker. simpl. by rewrite Hb. }
  destruct (awake && _) in Ha.
  - destruct (IH _ Ha Ho) as (Hb1 & Hs1 & Hcase). rewrite Hb1, Hhb1 in *.
    split_and!; [done|by rewrite Hs1|]. simpl in Hf. by rewrite Hf in Hcase.
  - injection Ha as <- <-. split_and!; [done|done|done|by left|]. simpl in *. lia.
Qed.

Lemma resolve_none tok f w :
  (∀ b t, probe_token (f b t) = Some t → is_open (f b t) = true → False) →
  (∀ b t t', is_open (f b t) = true → probe_token (f b t) = Some t' →
     is_open b = true ∧ probe_token b = Some t') →
  ours_only tok (breaker w) → ours_only None (breaker (resolve tok f w)).
Proof.
  intros Hclear Hkeep Hw b t Hb Ho Hp Ht. unfold resolve in Hb.
  destruct (breaker w) as [b0|] eqn:Hb0; [|congruence].
  destruct tok as [tk|]; simpl in Hb; [|].
  - injection Hb as <-. destruct (Hkeep _ _ _ Ho Hp) as [Ho' Hp'].
    specialize (Hw b0 t eq_refl Ho' Hp' Ht). injection Hw as ->. by destruct (Hclear b0 t).
  - rewrite Hb0 in Hb. injection Hb as <-. by specialize (Hw b0 t eq_refl Ho Hp Ht).
Qed.

Lemma abandon_none tok w :
  ours_only tok (breaker w) → ours_only None (breaker (resolve tok abandon w)).
Proof.
  apply resolve_none; unfold abandon, holds_probe.
  - intros b t. case_bool_decide; simpl; [done|]. done.
  - intros b t t'. case_bool_decide; simpl; [done|]. done.
Qed.

Lemma succeeded_none tok w :
  ours_only tok (breaker w) → ours_only None (breaker (resolve tok attempt_succeeded w)).
Proof. by apply resolve_none. Qed.

Lemma settle_none e tok w :
  ours_only tok (breaker w) → ours_only None (breaker (settle_failure e tok w)).
Proof.
  destruct e; try apply abandon_none. apply resolve_none;
    unfold attempt_failed_capacity, holds_probe; intros b t.
  - destruct (is_open b) eqn:Ho; simpl; [|by rewrite Ho]. by case_bool_decide; simpl.
  - intros t'. destruct (is_open b) eqn:Ho; simpl; [|by rewrite Ho]. by case_bool_decide; simpl.
Qed.

Lemma resolve_keeps tok f w :
  failures (resolve tok f w) = failures w ∧ starts (resolve tok f w) = starts w ∧
  has_breaker (resolve tok f w) = has_breaker w.
Proof.
  unfold resolve, has_breaker. by destruct (breaker w) eqn:Hb, tok; simpl; rewrite ?Hb.
Qed.

Lemma settle_keeps e tok w :
  failures (settle_failure e tok w) = failures w ∧ starts (settle_failure e tok w) = starts w ∧
  has_breaker (settle_failure e tok w) = has_breaker w.
Proof. unfold settle_failure. case_match; apply resolve_keeps. Qed.

(** The error an exit reports was returned by an attempt of the right kind. *)
Definition exit_ok (e : Exit) (le : option LLMError) : Prop :=
  match e with
  | RaisedFast err => retryable rco err = false ∧ ∃ k, attempt_outcome env k = Failed err
  | RaisedExhausted err =>
      err = default (LLMCapacityError None) le ∨
      (retryable rco err = true ∧ ∃ k, attempt_outcome env k = Failed err)
  | _ => True
  end.

Lemma generate_spec fuel deadline ri le w w' e :
  generate env policy rco fuel deadline ri le w = Some (w', e) →
  ours_only None (breaker w) →
  ours_only None (breaker w') ∧ exit_ok e le ∧
  failures w' = (failures w + counted e (has_breaker w))%nat.
Proof.
  revert ri le w. induction fuel as [|fuel IH]; intros ri le w Hg Hw; [done|].
  cbn [generate] in Hg.
  destruct (cancel_set env w).
  { injection Hg as <- <-. simpl. split_and!; [done|done|lia]. }
  destruct (admission _ _ _ _ _) as [[w1 a]|] eqn:Ha; [|done].
  destruct (admission_spec _ _ _ _ _ _ Ha Hw) as (Hb1 & Hs1 & Hcase).
  destruct a as [tok|ex].
  2:{ injection Hg as <- <-. destruct Hcase as (Ho & Hex & Hf). split_and!; [done| |done].
      destruct Hex as [->| ->]; simpl; [done|by left]. }
  destruct Hcase as [Ho Hf].
  destruct (attempt_cancellable env w1) as [w2 o] eqn:Hat.
  apply attempt_spec in Hat as (t & Hw2 & Hout).
  assert (Ho2 : ours_only tok (breaker w2)) by (rewrite Hw2; by apply await_ours).
  assert (Hk2 : failures w2 = failures w ∧ has_breaker w2 = has_breaker w).
  { rewrite Hw2. simpl. split; [done|]. rewrite <- Hb1. unfold has_breaker. simpl.
    by destruct (breaker w1). }
  destruct Hk2 as [Hf2 Hb2].
  destruct o as [[|err]|].
  - injection Hg as <- <-. destruct (resolve_keeps tok attempt_succeeded w2) as (-> & _ & _).
    simpl. split_and!; [by apply succeeded_none|done|lia].
  - destruct Hout as [_ Hout]. simpl in Hout.
    destruct (settle_keeps err tok w2) as (Hf3 & Hs3 & Hb3).
    pose proof (settle_none err _ _ Ho2) as Ho3.
    destruct (retryable rco err) eqn:Hr.
    2:{ injection Hg as <- <-. simpl. split_and!; [done|done|by eauto|lia]. }
    destruct (bool_decide _) in Hg.
    { injection Hg as Hg. apply exhausted_spec in Hg as (Ho4 & -> & Hf4 & _); [|done].
      split_and!; [done|simpl; right; by eauto|]. by rewrite Hf4, Hf3, Hf2, Hb3, Hb2. }
    destruct (sleep_cancellable _ _ _) as [w4 awake] eqn:Hs.
    pose proof (sleep_ours _ _ _ _ _ Hs Ho3) as (Ho4 & Hf4 & Hs4).
    destruct awake.
    + destruct (IH _ _ _ Hg Ho4) as (Ho5 & He5 & Hf5).
      assert (Hb4 : has_breaker w4 = has_breaker w).
      { rewrite <- Hb2, <- Hb3.
        apply sleep_spec in Hs as [(-> & _)|(_ & t' & -> & _)]; [done|].
        unfold has_breaker. simpl. by destruct (breaker (settle_failure err tok w2)). }
      split_and!; [done| |by rewrite Hf5, Hf4, Hf3, Hf2, Hb4].
      destruct e; try done. simpl in *. destruct He5 as [->|?]; [right; by eauto|by right].
    + injection Hg as <- <-. simpl. split_and!; [done|done|lia].
  - injection Hg as <- <-. destruct (resolve_keeps tok abandon w2) as (-> & _ & _).
    simpl. split_and!; [by apply abandon_none|done|lia].
Qed.

End ownership.

(** C10: a generation settles what it took and counts what it lost.  However it ends -
    result, fast failure, exhaustion, cancellation during a wait or an attempt - it
    leaves no probe of its own on the open breaker; exactly one generation failure
    is recorded, and only when the whole budget ended on a capacity error; an error
    that escapes at once is one the policy does not retry, and an error raised at
    the deadline is one it does (or capacity, when no attempt was admitted). *)
Theorem recovery_settles fuel budget w w' e :
  (∀ k, foreign (others env k)) → ours_only None (breaker w) →
  generate_with_recovery env policy rco fuel budget w = Some (w', e) →
  ours_only None (breaker w') ∧
  failures w' = (failures w + counted e (has_breaker w))%nat ∧
  match e with
  | RaisedFast err => retryable rco err = false
  | RaisedExhausted err => retryable rco err = true
  | _ => True
  end.
Proof.
  intros Hf Hw Hg. destruct (generate_spec Hf _ _ _ _ _ _ _ Hg Hw) as (Ho & He & Hn).
  split_and!; [done|done|]. destruct e as [|err|err|]; simpl in *; try done; [by destruct He|].
  by destruct He as [->|[? _]].
Qed.

(** ** The deadline *)

Section deadline.
Hypothesis Hlate : ∀ k, lateness env k = 0.

Lemma admission_deadline fuel deadline le w w' tok :
  admission env fuel deadline le w = Some (w', Granted tok) →
  now w <= deadline → now w' <= deadline ∧ starts w' = starts w.
Proof.
  revert w. induction fuel as [|fuel IH]; simpl; intros w Ha Hw; [done|].
  destruct (breaker w) as [b|]; [|by injection Ha as <- <-].
  destruct (acquire_attempt _ _ _) as [b' [t|pending]] eqn:Hacq; [by injection Ha as <- <-|].
  apply acquire_wait_pos in Hacq as [Hpos ->]. simpl in Ha.
  case_bool_decide as Hrem; [by destruct (exhausted _ _)|].
  destruct (sleep_cancellable _ _ _) as [w1 awake] eqn:Hs.
  destruct (awake && _) eqn:Haw; [|done]. apply andb_true_iff in Haw as [-> _].
  apply sleep_spec in Hs as [(-> & _ & ?)|(Hp & t & -> & Ht & _)]; [simpl in *; lia|].
  specialize (Ht eq_refl). rewrite Hlate in Ht. simpl in *.
  destruct (IH _ Ha) as [? Hst]; [simpl; lia|]. done.
Qed.

Lemma generate_deadline fuel deadline ri le w w' e :
  generate env policy rco fuel deadline ri le w = Some (w', e) →
  now w <= deadline → Forall (λ t, t <= deadline) (starts w) →
  Forall (λ t, t <= deadline) (starts w').
Proof.
  revert ri le w. induction fuel as [|fuel IH]; intros ri le w Hg Hw Hall; [done|].
  cbn [generate] in Hg. destruct (cancel_set env w); [by injection Hg as <- <-|].
  destruct (admission _ _ _ _ _) as [[w1 [tok|ex]]|] eqn:Ha; [| |done].
  2:{ injection Hg as <- <-. clear -Ha Hall.
      assert (Hst : starts w1 = starts w); [|by rewrite Hst].
      revert w Hall Ha. induction (S fuel) as [|n IHn]; simpl; intros w Hall Ha; [done|].
      destruct (breaker w) as [b|]; [|done].
      destruct (acquire_attempt _ _ _) as [b' [t|pending]]; [done|].
      destruct (bool_decide _) in Ha.
      { destruct (exhausted _ _) as [w2 e2] eqn:He. apply exhausted_starts in He.
        by simplify_eq. }
      destruct (sleep_cancellable _ _ _) as [w2 awake] eqn:Hs.
      assert (starts w2 = starts w).
      { by apply sleep_spec in Hs as [(-> & _)|(_ & t & -> & _)]. }
      destruct (awake && _); [|by simplify_eq].
      assert (Forall (λ t, t <= deadline) (starts w2)) as Hall2 by congruence.
      rewrite (IHn _ Hall2 Ha). done. }
  destruct (admission_deadline _ _ _ _ _ _ Ha Hw) as [Hw1 Hs1].
  destruct (attempt_cancellable env w1) as [w2 o] eqn:Hat.
  apply attempt_spec in Hat as (t & Hw2 & Hout).
  assert (Hall2 : Forall (λ t, t <= deadline) (starts w2)).
  { rewrite Hw2. simpl. constructor; [done|by rewrite Hs1]. }
  destruct o as [[|err]|]; [| |].
  - injection Hg as <- <-. by destruct (resolve_keeps tok attempt_succeeded w2) as (_ & -> & _).
  - destruct (settle_keeps err tok w2) as (_ & Hs3 & _).
    destruct (retryable rco err); [|by injection Hg as <- <-; rewrite Hs3].
    case_bool_decide as Hrem.
    { injection Hg as ->%exhausted_starts. by rewrite Hs3. }
    destruct (sleep_cancellable _ _ _) as [w4 awake] eqn:Hs.
    apply sleep_spec in Hs as [(-> & -> & Hle)|(Hp & t' & -> & Ht' & _)].
    + eapply IH; [exact Hg|lia|by rewrite Hs3].
    + destruct awake; [|injection Hg as <- <-; simpl; by rewrite Hs3].
      specialize (Ht' eq_refl). rewrite Hlate in Ht'.
      eapply IH; [exact Hg| |simpl; by rewrite Hs3].
      simpl. unfold backoff_wait in Ht'. lia.
  - injection Hg as <- <-. by destruct (resolve_keeps tok abandon w2) as (_ & -> & _).
Qed.

End deadline.

(** the deadline bounds every start.  With sleeps that wake on time, no attempt
    starts after the budget measured from the call; backoff, server hints and
    breaker waits are all cut to what remains, and a negative budget grants one
    attempt at once. *)
Theorem attempts_start_before_deadline fuel budget w w' e :
  (∀ k, lateness env k = 0) → starts w = [] →
  generate_with_recovery env policy rco fuel budget w = Some (w', e) →
  Forall (λ t, t <= now w + Z.max 0 (default (deadline_seconds policy) budget)) (starts w').
Proof.
  intros Hl Hs Hg. eapply (generate_deadline Hl); [exact Hg|lia|]. by rewrite Hs.
Qed.

End theory.

(** ** Witnesses: a transport failure, a capacity failure, then success *)

Module RecoveryWitness.

Definition env1 : Env :=
  {| attempt_time := λ _, 500;
     attempt_outcome := λ k, match k with
                             | 0%nat => Failed (LLMTransportError None)
                             | 1%nat => Failed (LLMCapacityError (Some 2000))
                             | _ => Succeeded
                             end;
     lateness := λ _, 0;
     others := λ k, match k with 1%nat => [LGeneration 600] | _ => [] end;
     fresh_token := λ k, (100 + k)%nat;
     jitter := λ _, 500;
     cancel_at := None |}.

Definition world1 : World :=
  {| now := 0; breaker := Some (create "codex:gpt" 1 30000 300000); awaits := 0;
     starts := []; failures := 0 |}.

Definition end1 : option (World * Exit) :=
  generate_with_recovery env1 default_policy true 300001 None world1.

Lemma recovery_terminates_witness :
  ∃ w' e, generate_with_recovery env1 default_policy true (S (Z.to_nat (Z.max 0 300000)))
            None world1 = Some (w', e).
Proof.
  apply (recovery_terminates env1 default_policy true None world1); simpl; lia.
Defined.

(** A short budget against an overloaded model: exhausted, counted once. *)
Definition env2 : Env :=
  {| attempt_time := λ _, 500; attempt_outcome := λ _, Failed (LLMCapacityError None);
     lateness := λ _, 0; others := λ _, []; fresh_token := λ k, k; jitter := λ _, 1000;
     cancel_at := None |}.

Definition end2 : World :=
  {| now := 2000; breaker := Some (record_generation_failure (create "codex:gpt" 1 30000 300000) 2000);
     awaits := 3; starts := [1500; 0]; failures := 1 |}.

Example end2_runs :
  generate_with_recovery env2 default_policy true 10 (Some 2000) world1 =
    Some (end2, RaisedExhausted (LLMCapacityError None)).
Proof. vm_compute. reflexivity. Qed.

Lemma recovery_settles_witness : failures end2 = (0 + 1)%nat ∧ ours_only env2 None (breaker end2).
Proof.
  destruct (recovery_settles env2 default_policy true 10 (Some 2000) world1 end2
    (RaisedExhausted (LLMCapacityError None))) as (Ho & Hf & _).
  - intros k. constructor.
  - intros b t [= <-]. simpl. discriminate.
  - vm_compute. reflexivity.
  - split; [exact Hf|exact Ho].
Defined.

Lemma attempts_start_before_deadline_witness : Forall (λ t, t <= 0 + 2000) (starts end2).
Proof.
  apply (attempts_start_before_deadline env2 default_policy true 10 (Some 2000) world1 end2
    (RaisedExhausted (LLMCapacityError None))).
  - reflexivity.
  - reflexivity.
  - vm_compute. reflexivity.
Defined.

End RecoveryWitness.
