(* ===== verification/PyStr.v ===== *)
(** * Python strings and the JSON values the components exchange

    A [str] is the list of its code points, surrogates included, so that
    [split], [strip], [startswith] and the UTF-8 length are the interpreter's.
    [Json] is what [json.loads] builds; a dict is the association list of its
    pairs, looked up by the first occurrence of a key. *)

From S2P Require Import Prelude.
From Stdlib Require Import QArith_base.
Open Scope string_scope.
Open Scope list_scope.
Open Scope Z_scope.

(** ** Strings *)

Notation pystr := (list Z).

(** A literal of the source: ASCII text. *)
Fixpoint lit (s : string) : pystr :=
  match s with
  | EmptyString => []
  | String c s => Z.of_nat (nat_of_ascii c) :: lit s
  end.

Definition LF : Z := 10.
Definition CR : Z := 13.

(** [s.startswith(p)] *)
Fixpoint startswith (p s : pystr) : bool :=
  match p, s with
  | [], _ => true
  | _, [] => false
  | x :: p, y :: s => (x =? y) && startswith p s
  end.

(** [s.endswith(p)] *)
Definition endswith (p s : pystr) : bool := startswith (rev p) (rev s).

(** [p in s] *)
Fixpoint contains (p s : pystr) : bool :=
  startswith p s || match s with [] => false | _ :: s => contains p s end.

(** [s.split(sep)] for a separator of one character. *)
Fixpoint split (sep : Z) (s : pystr) : list pystr :=
  match s with
  | [] => [[]]
  | c :: s =>
      if c =? sep then [] :: split sep s
      else match split sep s with
           | [] => [[c]]
           | w :: ws => (c :: w) :: ws
           end
  end.

(** [sep.join(ws)] *)
Fixpoint join (sep : Z) (ws : list pystr) : pystr :=
  match ws with
  | [] => []
  | [w] => w
  | w :: ws => w ++ sep :: join sep ws
  end.

(** The characters [str.isspace] accepts, which [strip] removes. *)
Definition is_space (c : Z) : bool :=
  ((9 <=? c) && (c <=? 13)) || ((28 <=? c) && (c <=? 32)) || (c =? 133) || (c =? 160)
  || (c =? 5760) || ((8192 <=? c) && (c <=? 8202)) || (c =? 8232) || (c =? 8233)
  || (c =? 8239) || (c =? 8287) || (c =? 12288).

Fixpoint lstrip (s : pystr) : pystr :=
  match s with
  | [] => []
  | c :: s' => if is_space c then lstrip s' else s
  end.

Definition rstrip (s : pystr) : pystr := rev (lstrip (rev s)).
Definition strip (s : pystr) : pystr := rstrip (lstrip s).

(** A lone surrogate is what strict UTF-8 encoding refuses. *)
Definition surrogate (c : Z) : bool := (55296 <=? c) && (c <=? 57343).

Definition utf8_width (c : Z) : Z :=
  if c <? 128 then 1 else if c <? 2048 then 2 else if c <? 65536 then 3 else 4.

(** [len(s.encode("utf-8", errors="strict"))], [None] for the encode error. *)
Definition utf8_len (s : pystr) : option Z :=
  if existsb surrogate s then None else Some (foldr (λ c n, utf8_width c + n) 0 s).

(** Truth of a string. *)
Definition nonempty (s : pystr) : bool := match s with [] => false | _ => true end.

(** [any(ord(ch) < 32 for ch in s)] *)
Definition has_control (s : pystr) : bool := existsb (λ c, c <? 32) s.

(** ** JSON values *)

Inductive Json : Type :=
| JNull
| JBool (b : bool)
| JInt (z : Z)
| JFloat (q : Q)
| JStr (s : pystr)
| JList (vs : list Json)
| JDict (kvs : list (pystr * Json)).

(** A dict with string keys, in insertion order: [d.get(k)], [{**d, k: v}] and
    [del d[k]]. *)
Fixpoint dict_get {V : Type} (kvs : list (pystr * V)) (k : pystr) : option V :=
  match kvs with
  | [] => None
  | (k', v) :: kvs => if bool_decide (k = k') then Some v else dict_get kvs k
  end.

Fixpoint dict_set {V : Type} (kvs : list (pystr * V)) (k : pystr) (v : V) : list (pystr * V) :=
  match kvs with
  | [] => [(k, v)]
  | (k', v') :: kvs =>
      if bool_decide (k = k') then (k', v) :: kvs else (k', v') :: dict_set kvs k v
  end.

Definition dict_del {V : Type} (kvs : list (pystr * V)) (k : pystr) : list (pystr * V) :=
  List.filter (λ kv, negb (bool_decide (k = kv.1))) kvs.

(** [set(d) == {k1, ...}] *)
Definition keys_are (kvs : list (pystr * Json)) (ks : list pystr) : bool :=
  forallb (λ k, bool_decide (k ∈ ks)) kvs.*1 && forallb (λ k, bool_decide (k ∈ kvs.*1)) ks.

(** [v == n] for an integer [n]: Python compares numbers and booleans by value. *)
Definition json_eq_int (v : Json) (n : Z) : bool :=
  match v with
  | JInt z => z =? n
  | JBool b => Z.b2z b =? n
  | JFloat q => Qeq_bool q (inject_Z n)
  | _ => false
  end.

(** [v in {k1, ...}] hashes [v] first: [None] is the [TypeError] of a list or a dict. *)
Definition json_in_strs (v : Json) (ks : list pystr) : option bool :=
  match v with
  | JStr s => Some (bool_decide (s ∈ ks))
  | JList _ | JDict _ => None
  | _ => Some false
  end.

(** ** Lemmas *)

Lemma startswith_app p s : startswith p (p ++ s) = true.
Proof. induction p; simpl; [done|]. by rewrite Z.eqb_refl. Qed.

Lemma startswith_spec p s : startswith p s = true ↔ s = p ++ drop (length p) s.
Proof.
  revert s; induction p as [|x p IH]; intros [|y s]; simpl; try done.
  rewrite andb_true_iff, Z.eqb_eq, IH. split; [intros [-> ->]|intros [= -> ?]; done].
  by rewrite drop_app_length.
Qed.

Lemma split_ne sep s : split sep s ≠ [].
Proof. destruct s; simpl; [done|]. case_match; [done|]. by case_match. Qed.

Lemma split_join sep s : join sep (split sep s) = s.
Proof.
  induction s as [|c s IH]; simpl; [done|].
  pose proof (split_ne sep s). destruct (c =? sep) eqn:E.
  - apply Z.eqb_eq in E as ->. destruct (split sep s) eqn:Hs; [done|]. cbn. by rewrite <- IH.
  - destruct (split sep s) as [|w [|w' ws]]; [done|by cbn in *; subst|].
    cbn in *. by rewrite IH.
Qed.

Lemma split_no_sep sep s : Forall (λ w, sep ∉ w) (split sep s).
Proof.
  induction s as [|c s IH]; simpl; [repeat constructor; apply not_elem_of_nil|].
  destruct (c =? sep) eqn:E; [constructor; [apply not_elem_of_nil|done]|].
  apply Z.eqb_neq in E.
  destruct (split sep s) as [|w ws]; [constructor; [|constructor]; set_solver|].
  inversion IH; subst. constructor; [set_solver|done].
Qed.

Lemma split_word sep w : sep ∉ w → split sep w = [w].
Proof.
  induction w as [|c w IH]; intros Hn; simpl; [done|].
  rewrite IH by set_solver. destruct (c =? sep) eqn:E; [|done].
  apply Z.eqb_eq in E. set_solver.
Qed.

Lemma split_word_sep sep w s : sep ∉ w → split sep (w ++ sep :: s) = w :: split sep s.
Proof.
  induction w as [|c w IH]; intros Hn; simpl; [by rewrite Z.eqb_refl|].
  rewrite IH by set_solver. destruct (c =? sep) eqn:E; [|done].
  apply Z.eqb_eq in E. set_solver.
Qed.

Lemma join_split sep ws : ws ≠ [] → Forall (λ w, sep ∉ w) ws → split sep (join sep ws) = ws.
Proof.
  intros Hne HF. induction HF as [|w ws Hw HF IH]; [done|].
  destruct ws as [|w' ws]; [by apply split_word|].
  change (join sep (w :: w' :: ws)) with (w ++ sep :: join sep (w' :: ws)).
  rewrite split_word_sep by done. by rewrite IH.
Qed.

Lemma has_control_false s : has_control s = false ↔ Forall (λ c, 32 <= c) s.
Proof.
  unfold has_control. induction s as [|c s IH]; simpl; [split; [constructor|done]|].
  rewrite orb_false_iff, IH, Z.ltb_ge, Forall_cons. done.
Qed.

Lemma existsb_not_elem (c : Z) s : existsb (Z.eqb c) s = false ↔ c ∉ s.
Proof.
  induction s as [|d s IH]; simpl; [split; [intros _; apply not_elem_of_nil|done]|].
  rewrite orb_false_iff, IH, Z.eqb_neq, not_elem_of_cons. done.
Qed.

Lemma dict_get_set {V : Type} (d : list (pystr * V)) k v k' :
  dict_get (dict_set d k v) k' = if bool_decide (k' = k) then Some v else dict_get d k'.
Proof.
  induction d as [|[k0 v0] d IH]; simpl; [done|].
  destruct (bool_decide_reflect (k = k0)) as [<-|Hne]; simpl.
  - by destruct (bool_decide_reflect (k' = k)).
  - rewrite IH. destruct (bool_decide_reflect (k' = k0)) as [->|]; [|done].
    by rewrite bool_decide_eq_false_2 by congruence.
Qed.

Lemma dict_get_del {V : Type} (d : list (pystr * V)) k k' :
  dict_get (dict_del d k) k' = if bool_decide (k' = k) then None else dict_get d k'.
Proof.
  unfold dict_del. induction d as [|[k0 v0] d IH]; simpl; [by case_bool_decide|].
  destruct (bool_decide_reflect (k = k0)) as [<-|Hne]; simpl; rewrite IH.
  - by destruct (bool_decide_reflect (k' = k)).
  - destruct (bool_decide_reflect (k' = k0)) as [->|]; [|done].
    by rewrite bool_decide_eq_false_2 by congruence.
Qed.

Lemma dict_get_Some_elem {V : Type} (d : list (pystr * V)) k v :
  dict_get d k = Some v → (k, v) ∈ d.
Proof.
  induction d as [|[k0 v0] d IH]; simpl; [done|].
  case_bool_decide; [intros [= ->]; subst; left|intros Hd; right; by apply IH].
Qed.
