(* ===== verification/PyLib.v ===== *)
(** * What the components use of Python's standard library

    [json.dumps] and [json.loads] as the class [Codec], [hmac] as [Mac], the truth of
    a JSON value, dicts sorted by key, and [hmac.compare_digest].  A concrete codec
    and check sums, in Module [Concrete], show that the laws can hold. *)

From S2P Require Import Prelude PyStr.
From Stdlib Require Import QArith_base.
From stdpp Require pretty.
Open Scope string_scope.
Open Scope list_scope.
Open Scope Z_scope.

(** [str(n)] of an int. *)
Definition show (z : Z) : pystr := lit (pretty.pretty z).

(** ** Interfaces *)

(** [json.dumps(v)], [json.dumps(v, separators=(",", ":"))] and [json.loads]. *)
Class Codec := {
  dumps : Json → pystr;
  dumps_compact : Json → pystr;
  loads : pystr → option Json;
  loads_dumps v : loads (dumps v) = Some v;
  loads_compact v : loads (dumps_compact v) = Some v;
  loads_line s : loads (s ++ [LF]) = loads s;
  dumps_printable v : Forall (λ c, 32 <= c) (dumps v);
  dumps_dict kvs : ∃ s, dumps (JDict kvs) = 123 :: s
}.

(** [hmac.new(key, data, sha256).hexdigest()] *)
Class Mac := {
  hexdigest : pystr → pystr → pystr;
  hexdigest_ascii key s : Forall (λ c, 0 <= c < 128) (hexdigest key s);
  hexdigest_nonempty key s : nonempty (hexdigest key s) = true
}.

(** ** Values *)

(** [if v] *)
Definition truthy (v : Json) : bool :=
  match v with
  | JNull => false
  | JBool b => b
  | JInt z => negb (z =? 0)
  | JFloat q => negb (Qeq_bool q (inject_Z 0))
  | JStr s => nonempty s
  | JList vs => negb (bool_decide (length vs = 0%nat))
  | JDict kvs => negb (bool_decide (length kvs = 0%nat))
  end.

(** [hmac.compare_digest]; [None] is its [TypeError]. *)
Definition ascii (s : pystr) : bool := forallb (λ c, (0 <=? c) && (c <? 128)) s.

Definition compare_digest (a : Json) (b : pystr) : option bool :=
  match a with
  | JStr s => if ascii s && ascii b then Some (bool_decide (s = b)) else None
  | _ => None
  end.

(** [s <= t] for strings; [sort_keys=True] sorts the items of every dict. *)
Fixpoint str_leb (s t : pystr) : bool :=
  match s, t with
  | [], _ => true
  | _ :: _, [] => false
  | x :: s, y :: t => (x <? y) || ((x =? y) && str_leb s t)
  end.

Fixpoint insert_pair (k : pystr) (v : Json) (kvs : list (pystr * Json)) : list (pystr * Json) :=
  match kvs with
  | [] => [(k, v)]
  | (k', v') :: kvs' => if str_leb k k' then (k, v) :: kvs else (k', v') :: insert_pair k v kvs'
  end.

Fixpoint sort_keys (v : Json) : Json :=
  match v with
  | JList vs => JList (sort_keys <$> vs)
  | JDict kvs => JDict (foldr (λ '(k, v) out, insert_pair k (sort_keys v) out) [] kvs)
  | _ => v
  end.

(** ** Dicts *)

Lemma dict_del_set_eq {V} (d : list (pystr * V)) k v : dict_del (dict_set d k v) k = dict_del d k.
Proof.
  unfold dict_del. induction d as [|[k' v'] d IH]; simpl; [by rewrite bool_decide_eq_true_2|].
  destruct (bool_decide_reflect (k = k')) as [<-|Hne]; simpl.
  - by rewrite bool_decide_eq_true_2.
  - rewrite bool_decide_eq_false_2 by done. simpl. by rewrite IH.
Qed.

(** A dict has each key once. *)
Lemma dict_get_None {V} (d : list (pystr * V)) k : dict_get d k = None ↔ k ∉ d.*1.
Proof.
  induction d as [|[k' v] d IH]; simpl; [split; [by intros _ ?%not_elem_of_nil|done]|].
  rewrite not_elem_of_cons, <- IH. case_bool_decide; naive_solver.
Qed.

Lemma dict_set_keys {V} (d : list (pystr * V)) k v k' : k' ∈ (dict_set d k v).*1 ↔ k' = k ∨ k' ∈ d.*1.
Proof.
  destruct (dict_get (dict_set d k v) k') as [v'|] eqn:Hg; rewrite dict_get_set in Hg.
  - split; intros Hin.
    + case_bool_decide; [by left|]. right. apply dict_get_Some_elem in Hg. by apply (list_elem_of_fmap_2 fst) in Hg.
    + destruct (dict_get (dict_set d k v) k') as [v0|] eqn:Hg'; [|rewrite dict_get_set in Hg'; congruence].
      apply dict_get_Some_elem in Hg'. by apply (list_elem_of_fmap_2 fst) in Hg'.
  - case_bool_decide; [done|]. split; [|by intros [|?%dict_get_None]].
    intros Hin. exfalso. revert Hin. apply dict_get_None. rewrite dict_get_set. by rewrite bool_decide_eq_false_2.
Qed.

Lemma dict_set_NoDup {V} (d : list (pystr * V)) k v : NoDup d.*1 → NoDup (dict_set d k v).*1.
Proof.
  induction d as [|[k' v'] d IH]; simpl; [intros _; apply NoDup_singleton|].
  intros [Hn Hd]%NoDup_cons. case_bool_decide; simpl; apply NoDup_cons; [done|]. split; [|by apply IH].
  by intros [|]%dict_set_keys.
Qed.

Lemma dict_del_NoDup {V} (d : list (pystr * V)) k : NoDup d.*1 → NoDup (dict_del d k).*1.
Proof.
  intros Hd. eapply sublist_NoDup; [exact Hd|]. apply fmap_sublist. unfold dict_del.
  induction d as [|kv d IH]; simpl in *; [done|]. apply NoDup_cons in Hd as [_ Hd].
  destruct (negb _); [by apply sublist_skip, IH|by apply sublist_cons, IH].
Qed.

Lemma dict_get_elem {V} (d : list (pystr * V)) k v : NoDup d.*1 → (k, v) ∈ d → dict_get d k = Some v.
Proof.
  induction d as [|[k' v'] d IH]; simpl; [by intros _ ?%not_elem_of_nil|].
  intros [Hn Hd]%NoDup_cons [[= -> ->]|Hin]%elem_of_cons; [by rewrite bool_decide_eq_true_2|].
  rewrite bool_decide_eq_false_2; [by apply IH|]. intros ->. apply Hn. by apply (list_elem_of_fmap_2 fst) in Hin.
Qed.

Lemma dict_get_insert k v kvs k' :
  dict_get (insert_pair k v kvs) k' = if bool_decide (k' = k) then Some v else dict_get kvs k'.
Proof.
  induction kvs as [|[k0 v0] kvs IH]; simpl; [done|].
  destruct (str_leb k k0) eqn:Hle; simpl; [done|]. rewrite IH.
  destruct (bool_decide_reflect (k' = k0)) as [->|]; [|done].
  rewrite bool_decide_eq_false_2; [done|]. intros ->.
  assert (∀ s, str_leb s s = true) as Hrefl; [|by rewrite Hrefl in Hle].
  induction s as [|x s IHs]; simpl; [done|]. by rewrite Z.ltb_irrefl, Z.eqb_refl.
Qed.

Definition sorted_items (e : list (pystr * Json)) : list (pystr * Json) := foldr (λ '(k, v) out, insert_pair k (sort_keys v) out) [] e.

Lemma dict_get_sorted e k : dict_get (sorted_items e) k = sort_keys <$> dict_get e k.
Proof.
  induction e as [|[k0 v0] e IH]; simpl; [done|]. rewrite dict_get_insert, IH.
  by destruct (bool_decide_reflect (k = k0)).
Qed.

(** ** Decidable equality, and a concrete codec *)

Notation json_leaf := (bool + Z + (Z * positive) + pystr)%type.

Fixpoint enc (v : Json) : gen_tree json_leaf :=
  match v with
  | JNull => GenNode 0 []
  | JBool b => GenLeaf (inl (inl (inl b)))
  | JInt z => GenLeaf (inl (inl (inr z)))
  | JFloat q => GenLeaf (inl (inr (QArith_base.Qnum q, QArith_base.Qden q)))
  | JStr s => GenLeaf (inr s)
  | JList vs => GenNode 1 (enc <$> vs)
  | JDict kvs => GenNode 2 ((λ '(k, v), GenNode 3 [GenLeaf (inr k); enc v]) <$> kvs)
  end.

Fixpoint dec (t : gen_tree json_leaf) : option Json :=
  match t with
  | GenLeaf (inl (inl (inl b))) => Some (JBool b)
  | GenLeaf (inl (inl (inr z))) => Some (JInt z)
  | GenLeaf (inl (inr (n, d))) => Some (JFloat (QArith_base.Qmake n d))
  | GenLeaf (inr s) => Some (JStr s)
  | GenNode 1 ts => JList <$> mapM dec ts
  | GenNode 2 ts =>
      JDict <$> mapM (λ t, match t with
                           | GenNode 3 [GenLeaf (inr k); t] => pair k <$> dec t
                           | _ => None
                           end) ts
  | GenNode _ _ => Some JNull
  end.

Lemma dec_enc : ∀ v, dec (enc v) = Some v.
Proof.
  fix IH 1. intros [| | |q| |vs|kvs]; simpl; try done; [by destruct q|..].
  - match goal with |- JList <$> ?m = _ => assert (m = Some vs) as ->; [|done] end.
    apply mapM_Some, Forall2_fmap_l. induction vs as [|v vs IHvs]; constructor; [apply IH|done].
  - match goal with |- JDict <$> ?m = _ => assert (m = Some kvs) as ->; [|done] end.
    apply mapM_Some, Forall2_fmap_l.
    induction kvs as [|[k v] kvs IHkvs]; constructor; [simpl; by rewrite (IH v)|done].
Qed.

#[export] Instance Json_eq_dec : EqDecision Json.
Proof.
  intros v v'. destruct (decide (enc v = enc v')) as [Heq|Hne]; [left|right; congruence].
  apply (f_equal dec) in Heq. rewrite !dec_enc in Heq. congruence.
Defined.

Module Concrete.

Fixpoint bits (p : positive) : pystr :=
  match p with xH => [] | xO p => 48 :: bits p | xI p => 49 :: bits p end.
Fixpoint of_bits (s : pystr) : positive :=
  match s with [] => xH | c :: s => if c =? 48 then xO (of_bits s) else xI (of_bits s) end.

Definition print (v : Json) : pystr := 123 :: bits (encode (enc v)).
Definition read (s : pystr) : option Json :=
  match List.filter (λ c, negb (c =? LF)) s with
  | 123 :: s => decode (of_bits s) ≫= dec
  | _ => None
  end.

Lemma bits_plain p : Forall (λ c, 32 <= c) (bits p) ∧ List.filter (λ c, negb (c =? LF)) (bits p) = bits p
  ∧ of_bits (bits p) = p.
Proof.
  induction p as [p (? & H1 & H2)|p (? & H1 & H2)|]; simpl; [..|done]; rewrite H1, H2;
    (split; [constructor; [lia|done]|done]).
Qed.

Lemma read_print v : read (print v) = Some v.
Proof.
  unfold read, print. cbn. destruct (bits_plain (encode (enc v))) as (_ & -> & ->).
  rewrite decode_encode. apply dec_enc.
Qed.

#[export] Instance tree_codec : Codec.
Proof.
  refine {| dumps := print; dumps_compact := print; loads := read; loads_dumps := read_print;
            loads_compact := read_print |}.
  - intros s. unfold read. rewrite List.filter_app. by rewrite app_nil_r.
  - intros v. constructor; [lia|apply bits_plain].
  - intros kvs. eexists. reflexivity.
Defined.

#[export] Instance sum_mac : Mac.
Proof.
  refine {| hexdigest := λ key s, [97 + foldr Z.add 0 (key ++ s) mod 26] |}; [|done].
  intros key s. constructor; [|constructor]. pose proof (Z.mod_pos_bound (foldr Z.add 0 (key ++ s)) 26). lia.
Defined.

End Concrete.
