(* ===== verification/Patch.v ===== *)
(** * The apply_patch plan (src/src/tools/apply_patch.py)

    The patch text is parsed into a plan of file operations on the model's side;
    the plan travels as JSON and the host validates it again, then finds every
    hunk of an update in the current file and rewrites it.  This file holds the
    parser, the second validation, the search and the rewriting; the file-system
    transaction around them is in [PatchTxn]. *)

From S2P Require Import Prelude PyStr.
Open Scope string_scope.
Open Scope list_scope.
Open Scope Z_scope.

Definition BEGIN_PATCH : pystr := Eval compute in lit "*** Begin Patch".
Definition END_PATCH : pystr := Eval compute in lit "*** End Patch".
Definition ADD_FILE : pystr := Eval compute in lit "*** Add File: ".
Definition UPDATE_FILE : pystr := Eval compute in lit "*** Update File: ".
Definition DELETE_FILE : pystr := Eval compute in lit "*** Delete File: ".
Definition MOVE_TO : pystr := Eval compute in lit "*** Move to: ".
Definition MAX_PATCH_BYTES : Z := 48 * 1024.
Definition MAX_HUNK_ANCHORS : nat := 8.
Definition PLAN_VERSION : Z := 3.
Definition MARKER : pystr := Eval compute in lit "@@".
Definition NAMED_MARKER : pystr := Eval compute in lit "@@ ".

(** ** Data *)

(** One constructor per message of [PatchError]; [Raised_TypeError] is what
    hashing an unhashable action raises, and [Unfinished] no run ends with. *)
Inductive PatchError : Type :=
| Path_empty | Path_invalid (raw : pystr) | Path_not_normalized (raw : pystr)
| Path_escapes (raw : pystr)
| Not_utf8 | Too_large | Not_lf_text | Not_framed
| Path_claimed (path : pystr)
| Add_line (path : pystr) | Add_empty (path : pystr) | Delete_body (path : pystr)
| Expected_hunk (path : pystr) (patch_line : nat)
| Anchor_empty (path : pystr) (patch_line : nat)
| Anchor_control (path : pystr) (patch_line : nat)
| Anchors_exceeded (path : pystr) (patch_line : nat)
| Hunk_line (path : pystr) (patch_line : nat)
| Hunk_unchanged (path : pystr) (patch_line : nat)
| Final_context_hunk (path : pystr) | Hunk_required (path : pystr)
| Unexpected_line (line : pystr) | No_operation
| Invalid_plan | Invalid_operations | Invalid_operation
| Invalid_add | Invalid_delete | Invalid_update | Invalid_hunks | Invalid_hunk
| Invalid_anchors | Invalid_hunk_lines | Invalid_patch_line
| Context_mismatch | Context_ambiguous
| Raised_TypeError
| Raised_IndexError
| Unfinished.

#[export] Instance PatchError_eq_dec : EqDecision PatchError.
Proof. solve_decision. Defined.

Record Hunk : Type := {
  anchors : list pystr;
  hunk_lines : list pystr;
  patch_line : Z
}.

Inductive Op : Type :=
| AddFile (path content : pystr)
| DeleteFile (path : pystr)
| UpdateFile (path : pystr) (move_to : option pystr) (hunks : list Hunk).

#[export] Instance Hunk_eq_dec : EqDecision Hunk.
Proof. solve_decision. Defined.
#[export] Instance Op_eq_dec : EqDecision Op.
Proof. solve_decision. Defined.

Local Open Scope odin_scope.

(** ** Paths *)

Definition SLASH : Z := 47.
Definition BACKSLASH : Z := 92.
Definition dot : pystr := Eval compute in lit ".".
Definition dotdot : pystr := Eval compute in lit "..".

(** [PurePosixPath(raw).parts] and [str] of a relative [raw]. *)
Definition posix_parts (raw : pystr) : list pystr :=
  filter (λ p, p ≠ [] ∧ p ≠ dot) (split SLASH raw).

Definition posix_str (raw : pystr) : pystr :=
  match posix_parts raw with [] => dot | ps => join SLASH ps end.

Definition relative_path (raw : pystr) : result PatchError pystr :=
  guard! nonempty raw else Path_empty in
  guard! negb (negb (bool_decide (raw = strip raw)) || has_control raw)
    else Path_invalid raw in
  guard! negb (contains [BACKSLASH] raw || startswith [SLASH] raw || endswith [SLASH] raw
               || contains [SLASH; SLASH] raw)
    else Path_not_normalized raw in
  let parts := posix_parts raw in
  guard! negb (bool_decide (parts = []) || bool_decide (raw = dot)
               || existsb (λ p, bool_decide (p = []) || bool_decide (p = dot)
                                || bool_decide (p = dotdot)) parts
               || negb (bool_decide (posix_str raw = raw)))
    else Path_escapes raw in
  Ok raw.

Definition operation_header (line : pystr) : bool :=
  startswith ADD_FILE line || startswith UPDATE_FILE line || startswith DELETE_FILE line.

(** [claim(path)]: a path may be named once in a patch. *)
Definition claim (claimed : list pystr) (path : pystr) : result PatchError (list pystr) :=
  guard! negb (bool_decide (path ∈ claimed)) else Path_claimed path in
  Ok (path :: claimed).

(** ** The parser

    [lines] is the part of the patch from [index] to [end]; each loop returns
    what it read, the lines left and the index there. *)

Definition line_head (line : pystr) (cs : pystr) : bool :=
  match line with c :: _ => bool_decide (c ∈ cs) | [] => false end.

Definition plus : pystr := Eval compute in lit "+".
Definition edit_marks : pystr := Eval compute in lit "+-".
Definition body_marks : pystr := Eval compute in lit " +-".

(** The content lines of an Add File operation. *)
Fixpoint added_lines (path : pystr) (lines : list pystr) (index : nat)
    : result PatchError (list pystr * list pystr * nat) :=
  match lines with
  | line :: rest =>
      if operation_header line then Ok ([], lines, index)
      else
        guard! startswith plus line else Add_line path in
        let! (added, rest, index) := added_lines path rest (S index) in
        Ok (drop 1 line :: added, rest, index)
  | [] => Ok ([], [], index)
  end.

(** Consecutive named markers form one ordered anchor chain. *)
Fixpoint anchor_chain (path : pystr) (chain : list pystr) (lines : list pystr) (index : nat)
    : result PatchError (list pystr * list pystr * nat) :=
  match lines with
  | marker :: rest =>
      let anchor := drop 3 marker in
      guard! nonempty (strip anchor) else Anchor_empty path (S index) in
      guard! negb (has_control anchor) else Anchor_control path (S index) in
      guard! negb (MAX_HUNK_ANCHORS <=? length chain)%nat else Anchors_exceeded path (S index) in
      match rest with
      | next :: _ =>
          if startswith NAMED_MARKER next
          then anchor_chain path (chain ++ [anchor]) rest (S index)
          else Ok (chain ++ [anchor], rest, S index)
      | [] => Ok (chain ++ [anchor], [], S index)
      end
  | [] => Ok (chain, [], index)
  end.

(** The body of a hunk, up to the next marker or header. *)
Fixpoint hunk_body (path : pystr) (lines : list pystr) (index : nat)
    : result PatchError (list pystr * list pystr * nat) :=
  match lines with
  | line :: rest =>
      if operation_header line || startswith MARKER line then Ok ([], lines, index)
      else
        guard! line_head line body_marks else Hunk_line path (S index) in
        let! (body, rest, index) := hunk_body path rest (S index) in
        Ok (line :: body, rest, index)
  | [] => Ok ([], [], index)
  end.

Definition changed (body : list pystr) : bool := existsb (λ l, line_head l edit_marks) body.

Definition next_is_marker (lines : list pystr) : bool :=
  match lines with line :: _ => startswith MARKER line | [] => false end.

(** The hunks of an update; [pending] are the lines of a context-only block
    waiting for the hunk they locate. *)
Fixpoint parse_hunks (fuel : nat) (path : pystr) (pending : list pystr)
    (lines : list pystr) (index : nat)
    : result PatchError (list Hunk * list pystr * list pystr * nat) :=
  match fuel with
  | O => Err Unfinished
  | S fuel =>
      match lines with
      | [] => Ok ([], pending, [], index)
      | marker :: rest =>
          if operation_header marker then Ok ([], pending, lines, index)
          else
            let hunk_line := S index in
            guard! bool_decide (marker = MARKER) || startswith NAMED_MARKER marker
              else Expected_hunk path hunk_line in
            let! (chain, lines, index) :=
              if startswith NAMED_MARKER marker then anchor_chain path pending lines index
              else Ok (pending, rest, S index) in
            let! (body, lines, index) := hunk_body path lines index in
            if negb (bool_decide (body = [])) && negb (changed body) && next_is_marker lines then
              let context := drop 1 <$> body in
              guard! negb (MAX_HUNK_ANCHORS <? length chain + length context)%nat
                else Anchors_exceeded path hunk_line in
              parse_hunks fuel path (chain ++ context) lines index
            else
              guard! negb (bool_decide (body = []) || negb (changed body)) else Hunk_unchanged path hunk_line in
              let! (hunks, pending, lines, index) := parse_hunks fuel path [] lines index in
              Ok ({| anchors := chain; hunk_lines := body; patch_line := Z.of_nat hunk_line |}
                    :: hunks, pending, lines, index)
      end
  end.

(** The file operations of the envelope. *)
Fixpoint parse_operations (fuel : nat) (claimed : list pystr) (lines : list pystr) (index : nat)
    : result PatchError (list Op) :=
  match fuel with
  | O => Err Unfinished
  | S fuel =>
      match lines with
      | [] => Ok []
      | header :: rest =>
          if startswith ADD_FILE header then
            let! path := relative_path (drop (length ADD_FILE) header) in
            let! claimed := claim claimed path in
            let! (added, lines, index) := added_lines path rest (S index) in
            guard! negb (bool_decide (added = [])) else Add_empty path in
            let! ops := parse_operations fuel claimed lines index in
            Ok (AddFile path (join LF added ++ [LF]) :: ops)
          else if startswith DELETE_FILE header then
            let! path := relative_path (drop (length DELETE_FILE) header) in
            let! claimed := claim claimed path in
            guard! match rest with line :: _ => operation_header line | [] => true end
              else Delete_body path in
            let! ops := parse_operations fuel claimed rest (S index) in
            Ok (DeleteFile path :: ops)
          else if startswith UPDATE_FILE header then
            let! path := relative_path (drop (length UPDATE_FILE) header) in
            let! claimed := claim claimed path in
            let! (move_to, claimed, lines, index) :=
              match rest with
              | line :: rest' =>
                  if startswith MOVE_TO line then
                    let! target := relative_path (drop (length MOVE_TO) line) in
                    let! claimed := claim claimed target in
                    Ok (Some target, claimed, rest', S (S index))
                  else Ok (None, claimed, rest, S index)
              | [] => Ok (None, claimed, rest, S index)
              end in
            let! (hunks, pending, lines, index) :=
              parse_hunks (S (length lines)) path [] lines index in
            guard! bool_decide (pending = []) else Final_context_hunk path in
            guard! negb (bool_decide (hunks = [])) else Hunk_required path in
            let! ops := parse_operations fuel claimed lines index in
            Ok (UpdateFile path move_to hunks :: ops)
          else Err (Unexpected_line header)
      end
  end.

(** [lines.pop()] when the text ends with a newline. *)
Definition pop_empty (lines : list pystr) : list pystr :=
  match last lines with Some [] => removelast lines | _ => lines end.

(** The frame: first and last line, and the lines between them. *)
Definition framed (lines : list pystr) : bool :=
  negb (length lines <? 3)%nat && bool_decide (head lines = Some BEGIN_PATCH)
  && bool_decide (last lines = Some END_PATCH).

Definition parse_patch (patch_text : pystr) : result PatchError (list Op) :=
  match utf8_len patch_text with
  | None => Err Not_utf8
  | Some size =>
      guard! negb (MAX_PATCH_BYTES <? size) else Too_large in
      guard! negb (contains [0] patch_text || contains [CR] patch_text) else Not_lf_text in
      let lines := pop_empty (split LF patch_text) in
      guard! framed lines else Not_framed in
      let body := removelast (tail lines) in
      let! operations := parse_operations (S (length body)) [] body 1 in
      guard! negb (bool_decide (operations = [])) else No_operation in
      Ok operations
  end.

(** ** The transported plan *)

Definition plan_of_hunk (h : Hunk) : Json :=
  JDict [(lit "anchors", JList (JStr <$> anchors h));
         (lit "lines", JList (JStr <$> hunk_lines h));
         (lit "patch_line", JInt (patch_line h))].

Definition plan_of_op (op : Op) : Json :=
  match op with
  | AddFile path content =>
      JDict [(lit "action", JStr (lit "add")); (lit "path", JStr path);
             (lit "content", JStr content)]
  | DeleteFile path => JDict [(lit "action", JStr (lit "delete")); (lit "path", JStr path)]
  | UpdateFile path move_to hunks =>
      JDict [(lit "action", JStr (lit "update")); (lit "path", JStr path);
             (lit "move_to", match move_to with Some m => JStr m | None => JNull end);
             (lit "hunks", JList (plan_of_hunk <$> hunks))]
  end.

Definition plan_of (ops : list Op) : Json :=
  JDict [(lit "version", JInt PLAN_VERSION); (lit "operations", JList (plan_of_op <$> ops))].

(** A path of the plan: not a string, or one [relative_path] refuses. *)
Definition json_path (v : option Json) : result PatchError pystr :=
  match v with Some (JStr raw) => relative_path raw | _ => Err Path_empty end.

(** All strings of a list, in order; [None] when an element is not one. *)
Fixpoint json_strs (vs : list Json) : option (list pystr) :=
  match vs with
  | [] => Some []
  | JStr s :: vs => (s ::.) <$> json_strs vs
  | _ => None
  end.

Definition clean_anchor (anchor : pystr) : bool :=
  nonempty (strip anchor) && negb (has_control anchor).

Definition validated_hunk (v : Json) : result PatchError Hunk :=
  match v with
  | JDict hunk =>
      guard! keys_are hunk [lit "anchors"; lit "lines"; lit "patch_line"] else Invalid_hunk in
      match dict_get hunk (lit "anchors") with
      | Some (JList chain) =>
          guard! negb (MAX_HUNK_ANCHORS <? length chain)%nat else Invalid_anchors in
          match json_strs chain with
          | None => Err Invalid_anchors
          | Some chain =>
              guard! forallb clean_anchor chain else Invalid_anchors in
              match dict_get hunk (lit "lines") with
              | Some (JList body) =>
                  match json_strs body with
                  | None => Err Invalid_hunk_lines
                  | Some body =>
                      guard! negb (bool_decide (body = []))
                             && forallb (λ l, line_head l body_marks) body && changed body
                        else Invalid_hunk_lines in
                      match dict_get hunk (lit "patch_line") with
                      | Some (JInt n) =>
                          guard! 1 <=? n else Invalid_patch_line in
                          Ok {| anchors := chain; hunk_lines := body; patch_line := n |}
                      | _ => Err Invalid_patch_line
                      end
                  end
              | _ => Err Invalid_hunk_lines
              end
          end
      | _ => Err Invalid_anchors
      end
  | _ => Err Invalid_hunk
  end.

Fixpoint validated_hunks (vs : list Json) : result PatchError (list Hunk) :=
  match vs with
  | [] => Ok []
  | v :: vs =>
      let! h := validated_hunk v in
      let! hs := validated_hunks vs in
      Ok (h :: hs)
  end.

(** The move target of an update: absent as [None], or a path it claims. *)
Definition validated_move (claimed : list pystr) (v : option Json)
    : result PatchError (option pystr * list pystr) :=
  match v with
  | Some JNull => Ok (None, claimed)
  | _ =>
      let! target := json_path v in
      let! claimed := claim claimed target in
      Ok (Some target, claimed)
  end.

(** One operation of the plan: the paths it claims, then its own fields. *)
Definition validated_op (claimed : list pystr) (v : Json)
    : result PatchError (Op * list pystr) :=
  match v with
  | JDict op =>
      match json_in_strs (default JNull (dict_get op (lit "action")))
              [lit "add"; lit "update"; lit "delete"] with
      | None => Err Raised_TypeError
      | Some false => Err Invalid_operation
      | Some true =>
          let action := default JNull (dict_get op (lit "action")) in
          let! path := json_path (dict_get op (lit "path")) in
          let! claimed := claim claimed path in
          if match action with JStr a => bool_decide (a = lit "add") | _ => false end then
            guard! keys_are op [lit "action"; lit "path"; lit "content"] else Invalid_add in
            match dict_get op (lit "content") with
            | Some (JStr content) => Ok (AddFile path content, claimed)
            | _ => Err Invalid_add
            end
          else if match action with JStr a => bool_decide (a = lit "delete") | _ => false end then
            guard! keys_are op [lit "action"; lit "path"] else Invalid_delete in
            Ok (DeleteFile path, claimed)
          else
            guard! keys_are op [lit "action"; lit "path"; lit "move_to"; lit "hunks"]
              else Invalid_update in
            let! (move_to, claimed) :=
              validated_move claimed (dict_get op (lit "move_to")) in
            match dict_get op (lit "hunks") with
            | Some (JList hunks) =>
                guard! negb (bool_decide (length hunks = 0%nat)) else Invalid_hunks in
                let! hunks := validated_hunks hunks in
                Ok (UpdateFile path move_to hunks, claimed)
            | _ => Err Invalid_hunks
            end
      end
  | _ => Err Invalid_operation
  end.

Fixpoint validated_ops (claimed : list pystr) (vs : list Json) : result PatchError (list Op) :=
  match vs with
  | [] => Ok []
  | v :: vs =>
      let! (op, claimed) := validated_op claimed v in
      let! ops := validated_ops claimed vs in
      Ok (op :: ops)
  end.

Definition validated_plan (plan : Json) : result PatchError (list Op) :=
  match plan with
  | JDict kvs =>
      guard! keys_are kvs [lit "version"; lit "operations"]
             && match dict_get kvs (lit "version") with
                | Some v => json_eq_int v PLAN_VERSION
                | None => false
                end
        else Invalid_plan in
      match dict_get kvs (lit "operations") with
      | Some (JList ops) =>
          guard! negb (bool_decide (length ops = 0%nat)) else Invalid_operations in
          validated_ops [] ops
      | _ => Err Invalid_operations
      end
  | _ => Err Invalid_plan
  end.

(** ** Search *)

(** The occurrences of [pattern] in [sequence] at or after [start]. *)
Definition matches_at (sequence pattern : list pystr) (idx : nat) : bool :=
  bool_decide (take (length pattern) (drop idx sequence) = pattern).

(** [range(start, len(sequence) - len(pattern) + 1)] *)
Definition search_range (sequence pattern : list pystr) (start : nat) : list nat :=
  seq start (S (length sequence) - length pattern - start).

Definition matching_positions (sequence pattern : list pystr) (start : nat) : list nat :=
  List.filter (matches_at sequence pattern) (search_range sequence pattern start).

Definition find_unique (sequence pattern : list pystr) (start : nat) : result PatchError nat :=
  match pattern with
  | [] => Ok start
  | _ =>
      match matching_positions sequence pattern start with
      | [] => Err Context_mismatch
      | [idx] => Ok idx
      | _ => Err Context_ambiguous
      end
  end.

(** The [while] that moves over the earlier layer: it consumes the entries whose
    position satisfies [before] and adds their counts, saturated at two. *)
Fixpoint consume (before : nat → bool) (layer : list (nat * nat)) (prefix_count : nat)
    : list (nat * nat) * nat :=
  match layer with
  | (position, count) :: layer' =>
      if before position then consume before layer' (Nat.min 2 (prefix_count + count))
      else (layer, prefix_count)
  | [] => ([], prefix_count)
  end.

(** The counts of the next layer: for every occurrence, the chains of the
    previous layer that end strictly before it. *)
Fixpoint next_counts (layer : list (nat * nat)) (prefix_count : nat) (current : list nat)
    : list (nat * nat) :=
  match current with
  | [] => []
  | position :: current =>
      let '(layer, prefix_count) := consume (λ p, p <? position)%nat layer prefix_count in
      (position, prefix_count) :: next_counts layer prefix_count current
  end.

Definition first_counts (positions : list nat) : list (nat * nat) :=
  (λ p, (p, 1%nat)) <$> positions.

(** The layers of the chain, from the first anchor to the last. *)
Definition chain_counts (first : list nat) (rest : list (list nat)) : list (nat * nat) :=
  foldl (λ layer current, next_counts layer 0 current) (first_counts first) rest.

(** The body occurrences with the chains that end at or before each. *)
Fixpoint complete (layer : list (nat * nat)) (prefix_count : nat) (bodies : list nat)
    (complete_count : nat) (unique_at : option nat) : nat * option nat :=
  match bodies with
  | [] => (complete_count, unique_at)
  | body_at :: bodies =>
      let '(layer, prefix_count) := consume (λ p, p <=? body_at)%nat layer prefix_count in
      if (0 <? prefix_count)%nat
      then complete layer prefix_count bodies (Nat.min 2 (complete_count + prefix_count))
             (Some body_at)
      else complete layer prefix_count bodies complete_count unique_at
  end.

(** Without a body the chains themselves are counted, at their last anchor. *)
Fixpoint complete_anchors (layer : list (nat * nat)) (complete_count : nat)
    (unique_at : option nat) : nat * option nat :=
  match layer with
  | [] => (complete_count, unique_at)
  | (anchor_at, count) :: layer =>
      if (0 <? count)%nat
      then complete_anchors layer (Nat.min 2 (complete_count + count)) (Some anchor_at)
      else complete_anchors layer complete_count unique_at
  end.

Definition find_unique_chain_body (sequence anchors body : list pystr) (start : nat)
    : result PatchError nat :=
  let positions := (λ anchor, matching_positions sequence [anchor] start) <$> anchors in
  guard! negb (existsb (λ found, bool_decide (length found = 0%nat)) positions)
    else Context_mismatch in
  match positions with
  | [] => Err Raised_IndexError
  | first :: rest =>
      let layer := chain_counts first rest in
      let '(complete_count, unique_at) :=
        match body with
        | [] => complete_anchors layer 0 None
        | _ => complete layer 0 (matching_positions sequence body start) 0 None
        end in
      match complete_count, unique_at with
      | 0%nat, _ => Err Context_mismatch
      | 1%nat, Some at_ => Ok at_
      | _, _ => Err Context_ambiguous
      end
  end.

(** ** Rewriting *)

(** The records of a text: each line with its ending, which only the last line
    may lack.  Text boundaries are CR and LF only. *)
Fixpoint records (source : pystr) : list (pystr * pystr) :=
  match source with
  | [] => []
  | c :: s =>
      if c =? LF then ([], [LF]) :: records s
      else if c =? CR then
        match s with
        | d :: s' => if d =? LF then ([], [CR; LF]) :: records s' else ([], [CR]) :: records s
        | [] => [([], [CR])]
        end
      else match records s with
           | [] => [([c], [])]
           | (line, ending) :: rs => (c :: line, ending) :: rs
           end
  end.

(** [join(line + ending for line, ending in zip(lines, endings))] *)
Definition unrecords (lines endings : list pystr) : pystr :=
  mjoin (zip_with app lines endings).

(** [x or y] on strings. *)
Definition str_or (x y : pystr) : pystr := if nonempty x then x else y.

(** [next((e for e in es if e), d)] *)
Fixpoint first_nonempty (es : list pystr) (d : pystr) : pystr :=
  match es with
  | [] => d
  | e :: es => if nonempty e then e else first_nonempty es d
  end.

Definition old_marks : pystr := Eval compute in lit " -".
Definition new_marks : pystr := Eval compute in lit " +".

Definition old_lines_of (h : Hunk) : list pystr :=
  drop 1 <$> List.filter (λ l, line_head l old_marks) (hunk_lines h).

Definition new_lines_of (h : Hunk) : list pystr :=
  drop 1 <$> List.filter (λ l, line_head l new_marks) (hunk_lines h).

(** The position of a hunk, searched from [cursor] on. *)
Definition locate (lines : list pystr) (cursor : nat) (h : Hunk) : result PatchError nat :=
  let old_lines := old_lines_of h in
  match anchors h with
  | _ :: _ :: _ => find_unique_chain_body lines (anchors h) old_lines cursor
  | [anchor] =>
      let! anchor_at := find_unique lines [anchor] cursor in
      match old_lines with
      | [] => Ok anchor_at
      | _ => find_unique lines old_lines anchor_at
      end
  | [] =>
      match old_lines with
      | [] => Ok (length lines)
      | _ => find_unique lines old_lines cursor
      end
  end.

(** The ending of every new line: a kept line keeps its own, an added one takes
    the ending of the old line before it. *)
Fixpoint new_endings_of (old_endings : list pystr) (replacement : pystr) (body : list pystr)
    (old_index : nat) : result PatchError (list pystr) :=
  match body with
  | [] => Ok []
  | line :: body =>
      let next := if line_head line old_marks then S old_index else old_index in
      if line_head line (lit " ") then
        match old_endings !! old_index with
        | None => Err Raised_IndexError
        | Some ending =>
            let! es := new_endings_of old_endings replacement body next in
            Ok (ending :: es)
        end
      else if line_head line plus then
        match old_index with
        | O =>
            let! es := new_endings_of old_endings replacement body next in
            Ok (replacement :: es)
        | S before =>
            match old_endings !! before with
            | None => Err Raised_IndexError
            | Some ending =>
                let! es := new_endings_of old_endings replacement body next in
                Ok (str_or ending replacement :: es)
            end
        end
      else new_endings_of old_endings replacement body next
  end.

(** An empty ending takes the style of the nearest one before it. *)
Fixpoint repair (previous : pystr) (endings : list pystr) : list pystr :=
  match endings with
  | [] => []
  | ending :: endings =>
      let previous := str_or ending previous in
      previous :: repair previous endings
  end.

(** [l[-1] = x] of a non-empty list. *)
Definition set_last {A} (x : A) (l : list A) : list A := removelast l ++ [x].

(** The working copy of [_apply_hunks]. *)
Record Copy : Type := {
  lines : list pystr;
  endings : list pystr;
  cursor : nat
}.

Definition apply_hunk (had_final_newline : bool) (newline : pystr) (c : Copy) (h : Hunk)
    : result PatchError Copy :=
  guard! forallb nonempty (hunk_lines h) else Raised_IndexError in
  let old_lines := old_lines_of h in
  let new_lines := new_lines_of h in
  let! at_ := locate (lines c) (cursor c) h in
  let old_endings := take (length old_lines) (drop at_ (endings c)) in
  let replacement_ending := first_nonempty old_endings newline in
  let! new_endings := new_endings_of old_endings replacement_ending (hunk_lines h) 0 in
  let new_endings := repair replacement_ending new_endings in
  let new_endings :=
    if bool_decide (at_ + length old_lines = length (lines c))%nat
       && negb (bool_decide (new_endings = [])) && negb had_final_newline
    then set_last [] new_endings else new_endings in
  let! endings' :=
    match at_, new_lines with
    | S before, _ :: _ =>
        match endings c !! before with
        | None => Err Raised_IndexError
        | Some ending =>
            Ok (if nonempty ending then endings c
                else <[before := replacement_ending]> (endings c))
        end
    | _, _ => Ok (endings c)
    end in
  Ok {| lines := take at_ (lines c) ++ new_lines ++ drop (at_ + length old_lines) (lines c);
        endings := take at_ endings' ++ new_endings ++ drop (at_ + length old_lines) endings';
        cursor := at_ + length new_lines |}.

Fixpoint apply_all (had_final_newline : bool) (newline : pystr) (c : Copy) (hs : list Hunk)
    : result PatchError Copy :=
  match hs with
  | [] => Ok c
  | h :: hs =>
      let! c := apply_hunk had_final_newline newline c h in
      apply_all had_final_newline newline c hs
  end.

Definition open_copy (source : pystr) : Copy :=
  {| lines := (records source).*1; endings := (records source).*2; cursor := 0 |}.

Definition had_final_newline (source : pystr) : bool :=
  negb (nonempty source) || endswith [LF] source || endswith [CR] source.

Definition newline_of (source : pystr) : pystr :=
  first_nonempty (records source).*2 [LF].

Definition apply_hunks (source : pystr) (hunks : list Hunk) : result PatchError pystr :=
  let! c := apply_all (had_final_newline source) (newline_of source) (open_copy source) hunks in
  Ok (unrecords (lines c) (endings c)).
