(* ===== verification/PatchTheory.v ===== *)
(** * The apply_patch plan: theorems

    The record splitter loses nothing; and the lemmas on lines, endings and
    matching positions that the files on the search and the rewriting share. *)

From S2P Require Import Prelude PyStr Patch.
Open Scope string_scope.
Open Scope list_scope.
Open Scope Z_scope.

(** ** Records *)

Definition ending_ok (e : pystr) : Prop := e = [LF] ∨ e = [CR] ∨ e = [CR; LF].

Definition line_ok (l : pystr) : Prop := CR ∉ l ∧ LF ∉ l.

(** Records whose endings are all there, but for the last one's. *)
Fixpoint records_ok (rs : list (pystr * pystr)) : Prop :=
  match rs with
  | [] => True
  | [(l, e)] => line_ok l ∧ (ending_ok e ∨ e = [] ∧ l ≠ [])
  | (l, e) :: rs => line_ok l ∧ ending_ok e ∧ records_ok rs
  end.

Definition text_of (rs : list (pystr * pystr)) : pystr := mjoin ((λ r, r.1 ++ r.2) <$> rs).

Lemma unrecords_text rs : unrecords rs.*1 rs.*2 = text_of rs.
Proof.
  unfold unrecords, text_of. f_equal. induction rs as [|[l e] rs IH]; [done|]. simpl. by f_equal.
Qed.

Lemma text_of_cons r rs : text_of (r :: rs) = r.1 ++ r.2 ++ text_of rs.
Proof. unfold text_of. simpl. by rewrite <- app_assoc. Qed.

Lemma records_ok_cons r rs : records_ok (r :: rs) → records_ok rs.
Proof. destruct r, rs as [|[] rs]; simpl; naive_solver. Qed.

Lemma line_ok_nil : line_ok [].
Proof. split; apply not_elem_of_nil. Qed.

Lemma line_ok_cons c l : c ≠ CR → c ≠ LF → line_ok l → line_ok (c :: l).
Proof. intros ?? []. split; set_solver. Qed.

Lemma ending_LF : ending_ok [LF]. Proof. by left. Qed.
Lemma ending_CR : ending_ok [CR]. Proof. by right; left. Qed.
Lemma ending_CRLF : ending_ok [CR; LF]. Proof. by right; right. Qed.
#[export] Hint Resolve line_ok_nil ending_LF ending_CR ending_CRLF : odin.

Lemma records_ok_intro l e rs :
  line_ok l → ending_ok e → records_ok rs → records_ok ((l, e) :: rs).
Proof. destruct rs as [|[] rs]; simpl; auto. Qed.

(** Induction on a text, two characters at a time for the sake of CR LF. *)
Lemma text_ind (P : pystr → Prop) :
  P [] → (∀ c s, P s → (∀ d s', s = d :: s' → P s') → P (c :: s)) → ∀ s, P s.
Proof.
  intros H0 HS s. cut (P s ∧ ∀ d s', s = d :: s' → P s'); [naive_solver|].
  induction s as [|c s [IH1 IH2]]; [naive_solver|].
  split; [by apply HS|]. intros d s' [= -> ->]. done.
Qed.

Lemma records_source source :
  text_of (records source) = source ∧ records_ok (records source).
Proof.
  induction source as [|c s IH1 IH2] using text_ind; [done|].
  simpl. destruct (c =? LF) eqn:EL; [apply Z.eqb_eq in EL as ->|apply Z.eqb_neq in EL].
  { destruct IH1 as [Ht ?]. split; [by rewrite text_of_cons, Ht|by apply records_ok_intro; auto with odin]. }
  destruct (c =? CR) eqn:EC; [apply Z.eqb_eq in EC as ->|apply Z.eqb_neq in EC].
  { destruct s as [|d s']; [split; [done|simpl; auto with odin]|].
    destruct (d =? LF) eqn:ED; [apply Z.eqb_eq in ED as ->; destruct (IH2 _ _ eq_refl) as [Ht ?]
                               |destruct IH1 as [Ht ?]];
      (split; [by rewrite text_of_cons, Ht|by apply records_ok_intro; auto with odin]). }
  destruct IH1 as [Ht Hok]. destruct (records s) as [|[l e] rs].
  { simpl in Ht. subst s. split; [done|]. simpl. split; [by apply line_ok_cons; auto with odin|by right]. }
  rewrite text_of_cons in *. simpl in *. split; [by rewrite Ht|].
  destruct rs as [|[]]; simpl in *; destruct Hok as [? Hok]; split; try by apply line_ok_cons.
  - destruct Hok as [?|[? ?]]; auto.
  - done.
Qed.

(** The other way round, for texts without a bare CR. *)
Definition no_bare_cr (rs : list (pystr * pystr)) : Prop := Forall (λ r, r.2 ≠ [CR]) rs.

Lemma line_ok_inv c l : line_ok (c :: l) → (c =? LF) = false ∧ (c =? CR) = false ∧ line_ok l.
Proof.
  intros [H1 H2]. rewrite not_elem_of_cons in H1, H2.
  split; [|split]; [apply Z.eqb_neq..|split]; naive_solver.
Qed.

Lemma records_line l e s :
  line_ok l → ending_ok e → e ≠ [CR] → records (l ++ e ++ s) = (l, e) :: records s.
Proof.
  intros Hl He Hcr. induction l as [|c l IH].
  - destruct He as [->|[->| ->]]; done.
  - apply line_ok_inv in Hl as (EL & EC & Hl). simpl. by rewrite EL, EC, IH.
Qed.

Lemma records_last l : line_ok l → l ≠ [] → records l = [(l, [])].
Proof.
  intros Hl Hne. induction l as [|c l IH]; [done|].
  apply line_ok_inv in Hl as (EL & EC & Hl). simpl. rewrite EL, EC.
  destruct l; [done|]. by rewrite IH.
Qed.

Lemma records_text rs : records_ok rs → no_bare_cr rs → records (text_of rs) = rs.
Proof.
  intros Hok Hcr. induction Hcr as [|[l e] rs He Hcr IH]; [done|].
  rewrite text_of_cons. simpl fst; simpl snd.
  destruct rs as [|r rs].
  - destruct Hok as [Hl [Hok|[-> Hne]]]; [by rewrite records_line|].
    simpl. rewrite !app_nil_r. by apply records_last.
  - pose proof (records_ok_cons _ _ Hok). destruct r as [l' e'], Hok as (? & ? & ?).
    rewrite records_line by done. by rewrite IH.
Qed.

(** Texts and records correspond.  The lines and endings of any text put back
    together are that text; no line contains a CR or an LF; every ending is one of
    the three line breaks, and only a last, non-empty line may lack its ending.
    Conversely, records of that form without a bare CR are what splitting their
    text gives back. *)
Theorem records_lossless source :
  unrecords (records source).*1 (records source).*2 = source
  ∧ records_ok (records source)
  ∧ ∀ rs, records_ok rs → no_bare_cr rs → records (unrecords rs.*1 rs.*2) = rs.
Proof.
  rewrite unrecords_text. destruct (records_source source) as [H1 H2]. split_and!; [done..|].
  intros rs ??. rewrite unrecords_text. by apply records_text.
Qed.

(** ** Search *)

Lemma elem_of_search_range sequence pattern start idx :
  idx ∈ search_range sequence pattern start
  ↔ (start <= idx)%nat ∧ (idx + length pattern <= length sequence)%nat.
Proof.
  unfold search_range. rewrite elem_of_seq. lia.
Qed.

Lemma elem_of_matching_positions sequence pattern start idx :
  idx ∈ matching_positions sequence pattern start
  ↔ (start <= idx)%nat ∧ (idx + length pattern <= length sequence)%nat
    ∧ take (length pattern) (drop idx sequence) = pattern.
Proof.
  unfold matching_positions. rewrite list_elem_of_In, filter_In, <- list_elem_of_In.
  rewrite elem_of_search_range. unfold matches_at. rewrite bool_decide_eq_true. tauto.
Qed.

Lemma seq_sorted start len : StronglySorted lt (seq start len).
Proof.
  revert start; induction len as [|n IH]; intros start; simpl; constructor; [done|].
  apply Forall_forall. intros x Hx%elem_of_seq. lia.
Qed.

Lemma sorted_filter (f : nat → bool) l :
  StronglySorted lt l → StronglySorted lt (List.filter f l).
Proof.
  induction 1 as [|x l Hs IH Hx]; simpl; [constructor|].
  destruct (f x); [constructor; [done|]|done].
  apply Forall_forall. intros y. rewrite list_elem_of_In, filter_In, <- list_elem_of_In.
  intros [Hy _]. by eapply Forall_forall in Hx.
Qed.

Lemma matching_positions_sorted sequence pattern start :
  StronglySorted lt (matching_positions sequence pattern start).
Proof. apply sorted_filter, seq_sorted. Qed.

Lemma sorted_NoDup l : StronglySorted lt l → NoDup l.
Proof.
  induction 1 as [|x l Hs IH Hx]; constructor; [|done].
  intros H. eapply Forall_forall in Hx; [|done]. lia.
Qed.

(** The pattern found splits the sequence. *)
Lemma matching_split sequence pattern start idx :
  idx ∈ matching_positions sequence pattern start →
  sequence = take idx sequence ++ pattern ++ drop (idx + length pattern) sequence.
Proof.
  rewrite elem_of_matching_positions. intros (_ & _ & H).
  rewrite <- (take_drop idx sequence) at 1. f_equal. rewrite <- drop_drop.
  rewrite <- (take_drop (length pattern) (drop idx sequence)) at 1. by rewrite H.
Qed.

Lemma find_unique_ok sequence pattern start idx :
  pattern ≠ [] → find_unique sequence pattern start = Ok idx →
  matching_positions sequence pattern start = [idx].
Proof.
  intros Hne H. unfold find_unique in H. destruct pattern; [done|].
  destruct (matching_positions _ _ _) as [|? [|]]; naive_solver.
Qed.
