(* ===== verification/PatchSearch.v ===== *)
(** * The apply_patch anchor chains: counting equals enumeration

    [find_unique_chain_body] never enumerates the chains of a hunk: it counts,
    layer by layer and saturated at two, the chains that end at each occurrence.
    This file enumerates them and proves that the counting decides the same. *)

From S2P Require Import Prelude PyStr Patch PatchTheory.
Open Scope string_scope.
Open Scope list_scope.
Open Scope nat_scope.

(** ** Saturated sums *)

Notation sat n := (Nat.min 2 n).
#[local] Arguments Nat.min : simpl never.

Definition cnt (f : nat → bool) (l : list nat) : nat := length (List.filter f l).

Fixpoint wsum (f : nat → bool) (layer : list (nat * nat)) : nat :=
  match layer with
  | [] => 0
  | (p, n) :: layer => (if f p then n else 0) + wsum f layer
  end.

Definition downward (f : nat → bool) : Prop := ∀ p q, p <= q → f q = true → f p = true.

Lemma downward_lt n : downward (λ p, p <? n).
Proof. intros p q ? ?%Nat.ltb_lt. apply Nat.ltb_lt. lia. Qed.

Lemma downward_le n : downward (λ p, p <=? n).
Proof. intros p q ? ?%Nat.leb_le. apply Nat.leb_le. lia. Qed.

#[export] Hint Resolve downward_lt downward_le matching_positions_sorted sorted_NoDup : odin.

Definition above (f : nat → bool) (layer : list (nat * nat)) : list (nat * nat) :=
  List.filter (λ pn, negb (f pn.1)) layer.

Lemma wsum_split (f g : nat → bool) layer :
  (∀ p, f p = true → g p = true) → wsum g layer = wsum f layer + wsum g (above f layer).
Proof.
  intros Hfg. induction layer as [|[p n] layer IH]; simpl; [done|].
  destruct (f p) eqn:Ef; simpl; [rewrite (Hfg _ Ef)|]; lia.
Qed.

Lemma wsum_none f layer : Forall (λ pn, f pn.1 = false) layer → wsum f layer = 0.
Proof. induction 1 as [|[p n] layer Hp _ IH]; simpl in *; [done|]. by rewrite Hp, IH. Qed.

Lemma above_all f layer : Forall (λ pn, f pn.1 = false) layer → above f layer = layer.
Proof.
  induction 1 as [|[p n] layer Hp _ IH]; simpl in *; [done|]. rewrite Hp. simpl. by rewrite IH.
Qed.

Lemma above_sorted f layer : StronglySorted lt layer.*1 → StronglySorted lt (above f layer).*1.
Proof.
  induction layer as [|[p n] layer IH]; simpl; intros Hs; [constructor|].
  inversion Hs as [|? ? Hs' Hp]; subst.
  destruct (negb (f p)); simpl; [|auto]. constructor; [auto|].
  apply Forall_forall. intros x (pn & -> & Hin)%list_elem_of_fmap.
  rewrite list_elem_of_In in Hin. apply filter_In in Hin as [Hin _].
  eapply Forall_forall in Hp; [exact Hp|]. apply list_elem_of_fmap_2. by apply list_elem_of_In.
Qed.

Lemma consume_spec f layer acc :
  downward f → StronglySorted lt layer.*1 → acc <= 2 →
  consume f layer acc = (above f layer, sat (acc + wsum f layer)).
Proof.
  intros Hf. revert acc. induction layer as [|[p n] layer IH]; intros acc Hs Ha; simpl.
  { f_equal. lia. }
  inversion Hs as [|? ? Hs' Hp]; subst. destruct (f p) eqn:Ef; simpl.
  - rewrite IH by (done || lia). f_equal. lia.
  - assert (Hall : Forall (λ pn, f pn.1 = false) layer).
    { apply Forall_forall. intros [q m] Hq. simpl. destruct (f q) eqn:Eq; [|done].
      eapply Forall_forall in Hp; [|apply (list_elem_of_fmap_2 fst), Hq]. simpl in Hp.
      rewrite (Hf p q) in Ef; [done|lia|done]. }
    rewrite (wsum_none _ _ Hall), (above_all _ _ Hall). f_equal. lia.
Qed.

Lemma next_counts_spec layer acc current :
  StronglySorted lt layer.*1 → StronglySorted lt current → acc <= 2 →
  next_counts layer acc current = (λ p, (p, sat (acc + wsum (λ q, q <? p) layer))) <$> current.
Proof.
  intros Hl Hc. revert layer acc Hl. induction Hc as [|p current Hc IH Hp];
    intros layer acc Hl Ha; simpl; [done|].
  rewrite consume_spec by auto with odin. f_equal.
  rewrite IH by (try apply above_sorted; done || lia).
  apply list_fmap_ext. intros i p' Hp'. f_equal.
  rewrite (wsum_split (λ q, q <? p) (λ q, q <? p') layer); [lia|].
  intros q Hq%Nat.ltb_lt. apply Nat.ltb_lt.
  eapply Forall_lookup_1 in Hp; [|exact Hp']. lia.
Qed.

(** ** Counting occurrences in a list of ends *)

Lemma cnt_app f l1 l2 : cnt f (l1 ++ l2) = cnt f l1 + cnt f l2.
Proof. unfold cnt. by rewrite List.filter_app, length_app. Qed.

Definition occ (L : list nat) (p : nat) : nat := cnt (λ q, q =? p) L.

Definition layer_of (g : nat → nat) (ps : list nat) : list (nat * nat) := (λ p, (p, g p)) <$> ps.

Lemma layer_of_positions g ps : (layer_of g ps).*1 = ps.
Proof. unfold layer_of. rewrite <- list_fmap_compose. apply list_fmap_id. Qed.

Lemma wsum_sat f g ps a :
  sat (a + wsum f (layer_of (λ p, sat (g p)) ps)) = sat (a + wsum f (layer_of g ps)).
Proof.
  revert a. induction ps as [|p ps IH]; intros a; simpl; [done|].
  destruct (f p); [|done].
  rewrite (Nat.add_comm (sat _)), (Nat.add_comm (g p)), !Nat.add_assoc.
  specialize (IH a). lia.
Qed.

Lemma wsum_add f g h ps :
  wsum f (layer_of (λ p, g p + h p) ps) = wsum f (layer_of g ps) + wsum f (layer_of h ps).
Proof. induction ps as [|p ps IH]; simpl; [done|]. rewrite IH. destruct (f p); lia. Qed.

Lemma wsum_absent f x ps :
  x ∉ ps → wsum f (layer_of (λ p, if x =? p then 1 else 0) ps) = 0.
Proof.
  intros Hx. induction ps as [|p ps IH]; simpl; [done|].
  rewrite not_elem_of_cons in Hx. destruct Hx as [Hne Hx].
  apply Nat.eqb_neq in Hne. rewrite Hne, IH by done. by destruct (f p).
Qed.

Lemma wsum_point f x ps :
  NoDup ps → x ∈ ps →
  wsum f (layer_of (λ p, if x =? p then 1 else 0) ps) = if f x then 1 else 0.
Proof.
  intros Hnd Hx. induction Hnd as [|p ps Hp Hnd IH]; [by apply not_elem_of_nil in Hx|]. simpl.
  destruct (Nat.eqb_spec x p) as [->|Hne].
  - rewrite wsum_absent by done. by destruct (f p).
  - rewrite IH by set_solver. by destruct (f p).
Qed.

Lemma occ_cons x L p : occ (x :: L) p = (if x =? p then 1 else 0) + occ L p.
Proof. unfold occ, cnt. simpl. by destruct (x =? p). Qed.

Lemma layer_of_ext g h ps : (∀ p, p ∈ ps → g p = h p) → layer_of g ps = layer_of h ps.
Proof.
  intros H. apply list_fmap_ext. intros i p Hp. f_equal. by apply H, list_elem_of_lookup_2 with i.
Qed.

Lemma wsum_occ f L ps :
  NoDup ps → (∀ x, x ∈ L → x ∈ ps) → wsum f (layer_of (occ L) ps) = cnt f L.
Proof.
  intros Hnd. induction L as [|x L IH]; intros HL.
  { unfold cnt. simpl. clear. induction ps as [|p ps IH]; simpl; [done|].
    rewrite IH. by destruct (f p). }
  rewrite (layer_of_ext _ (λ p, (if x =? p then 1 else 0) + occ L p)) by (intros; apply occ_cons).
  rewrite wsum_add, wsum_point, IH by (done || set_solver).
  unfold cnt. simpl. by destruct (f x).
Qed.

(** ** The enumeration *)

(** A chain: the occurrences of the anchors before the last, and the last's. *)
Definition chain : Type := list nat * nat.
Definition chain_list (c : chain) : list nat := c.1 ++ [c.2].

Definition extend (E : list chain) (current : list nat) : list chain :=
  c ← E; (λ p, (chain_list c, p)) <$> List.filter (λ p, c.2 <? p) current.

Definition all_chains (first : list nat) (rest : list (list nat)) : list chain :=
  foldl extend ((λ p, ([], p)) <$> first) rest.

Lemma elem_of_extend E current c :
  c ∈ extend E current ↔ ∃ c0, c0 ∈ E ∧ c.1 = chain_list c0 ∧ c0.2 < c.2 ∧ c.2 ∈ current.
Proof.
  unfold extend. rewrite list_elem_of_bind. split.
  - intros (c0 & (p & -> & Hp)%list_elem_of_fmap & H0). exists c0.
    rewrite list_elem_of_In in Hp. apply filter_In in Hp as [Hp Hlt%Nat.ltb_lt].
    rewrite <- list_elem_of_In in Hp. done.
  - intros (c0 & H0 & H1 & Hlt & Hp). exists c0. split; [|done].
    apply list_elem_of_fmap. exists c.2. split; [destruct c; simpl in *; by subst|].
    apply list_elem_of_In, filter_In. rewrite <- list_elem_of_In, Nat.ltb_lt. done.
Qed.

Lemma extend_NoDup E current : NoDup E → NoDup current → NoDup (extend E current).
Proof.
  intros HE Hc. apply NoDup_bind; [| |done].
  - intros c1 c2 y _ _ (p1 & -> & _)%list_elem_of_fmap (p2 & Heq & _)%list_elem_of_fmap.
    injection Heq as Hc12 _. unfold chain_list in Hc12. apply app_inj_tail in Hc12 as [??].
    destruct c1, c2; simpl in *; congruence.
  - intros c _. apply NoDup_fmap_2; [intros ?? [=]; done|]. apply NoDup_ListNoDup, List.NoDup_filter. by apply NoDup_ListNoDup.
Qed.

Lemma occ_filter_lt x current p :
  NoDup current → p ∈ current →
  occ (List.filter (λ q, x <? q) current) p = if x <? p then 1 else 0.
Proof.
  intros Hnd. induction Hnd as [|q current Hq Hnd IH]; [by intros ?%not_elem_of_nil|].
  intros Hp. simpl. destruct (decide (p = q)) as [->|Hne].
  - assert (Hz : occ (List.filter (λ q, x <? q) current) q = 0).
    { clear -Hq. induction current as [|r current IH]; simpl; [done|].
      rewrite not_elem_of_cons in Hq. destruct Hq as [Hne Hq].
      destruct (x <? r); [|by auto]. rewrite occ_cons, IH by done.
      destruct (Nat.eqb_spec r q); [by subst|done]. }
    destruct (x <? q); [|done]. rewrite occ_cons, Hz, Nat.eqb_refl. done.
  - rewrite <- IH by set_solver. destruct (x <? q); [|done]. rewrite occ_cons.
    destruct (Nat.eqb_spec q p); [by subst|done].
Qed.

Lemma occ_extend E current p :
  NoDup current → p ∈ current →
  occ (extend E current).*2 p = cnt (λ q, q <? p) E.*2.
Proof.
  intros Hnd Hp. induction E as [|c E IH]; [done|].
  unfold extend in *. rewrite bind_cons, fmap_app. unfold occ in *. rewrite cnt_app, IH.
  rewrite <- list_fmap_compose.
  replace (snd ∘ (λ p0, (chain_list c, p0))) with (id : nat → nat) by done.
  rewrite list_fmap_id. fold (occ (List.filter (λ p0, c.2 <? p0) current) p).
  rewrite occ_filter_lt by done. unfold cnt. simpl. by destruct (c.2 <? p).
Qed.

Lemma cnt_ext f g l : (∀ x, x ∈ l → f x = g x) → cnt f l = cnt g l.
Proof.
  intros H. unfold cnt. f_equal. apply filter_ext_in. intros x Hx. apply H. by apply list_elem_of_In.
Qed.

Definition sorted : list nat → Prop := StronglySorted lt.

(** The counts of a layer are the saturated numbers of the chains that end at
    each of its occurrences. *)
Definition counts_of (E : list chain) (ps : list nat) : list (nat * nat) :=
  layer_of (λ p, sat (occ E.*2 p)) ps.

Definition ends_in (E : list chain) (ps : list nat) : Prop := ∀ c, c ∈ E → c.2 ∈ ps.

Lemma wsum_counts f E ps :
  sorted ps → ends_in E ps → sat (wsum f (counts_of E ps)) = sat (cnt f E.*2).
Proof.
  intros Hs HE. pose proof (wsum_sat f (occ E.*2) ps 0) as H. simpl in H.
  unfold counts_of. rewrite H, wsum_occ; [done|by apply sorted_NoDup|].
  intros x (c & -> & Hc)%list_elem_of_fmap. by apply HE.
Qed.

Lemma chain_counts_spec E ps rest :
  sorted ps → ends_in E ps → Forall sorted rest →
  foldl (λ layer current, next_counts layer 0 current) (counts_of E ps) rest
    = counts_of (foldl extend E rest) (default ps (last rest))
  ∧ ends_in (foldl extend E rest) (default ps (last rest)) ∧ sorted (default ps (last rest)).
Proof.
  intros Hs HE HF. revert ps E Hs HE. induction HF as [|current rest Hc HF IH]; intros ps E Hs HE.
  { done. }
  assert (Hends : ends_in (extend E current) current).
  { intros c (c0 & _ & _ & _ & Hin)%elem_of_extend. done. }
  simpl foldl. rewrite next_counts_spec; [|by unfold counts_of; rewrite layer_of_positions|done|lia].
  replace (_ <$> current) with (counts_of (extend E current) current).
  { destruct (IH current (extend E current) Hc Hends) as (H1 & H2 & H3).
    replace (default ps (last (current :: rest))) with (default current (last rest))
      by (rewrite last_cons; by destruct (last rest)). done. }
  apply layer_of_ext. intros p Hp. rewrite occ_extend by (done || by apply sorted_NoDup).
  simpl. by rewrite wsum_counts.
Qed.

(** ** Deciding on the matches *)

Definition decide_on (locations : list nat) : result PatchError nat :=
  match locations with
  | [] => Err Context_mismatch
  | [at_] => Ok at_
  | _ => Err Context_ambiguous
  end.

Definition locs (g : nat → nat) (bodies : list nat) : list nat := b ← bodies; repeat b (g b).

Lemma locs_cons g b bodies : locs g (b :: bodies) = repeat b (g b) ++ locs g bodies.
Proof. done. Qed.

Definition last_or (l : list nat) (u : option nat) : option nat :=
  match last l with Some x => Some x | None => u end.

Lemma last_or_repeat b n l u :
  last_or (repeat b n ++ l) u = last_or l (if 0 <? n then Some b else u).
Proof.
  unfold last_or. rewrite last_app. destruct (last l); [done|].
  destruct n as [|n]; [done|]. replace (repeat b (S n)) with (repeat b n ++ [b]).
  - by rewrite last_snoc.
  - symmetry. apply repeat_cons.
Qed.

Lemma complete_spec g layer acc bodies count u :
  StronglySorted lt layer.*1 → sorted bodies → acc <= 2 → count <= 2 →
  (∀ b, b ∈ bodies → sat (acc + wsum (λ p, p <=? b) layer) = sat (g b)) →
  complete layer acc bodies count u
  = (sat (count + length (locs g bodies)), last_or (locs g bodies) u).
Proof.
  intros Hl Hb. revert layer acc count u Hl.
  induction Hb as [|b bodies Hb IH Hle]; intros layer acc count u Hl Ha Hcount Hg; cbn [complete].
  { simpl. f_equal. lia. }
  rewrite consume_spec by auto with odin. rewrite (Hg b) by set_solver.
  assert (Hg' : ∀ b', b' ∈ bodies →
    sat (sat (g b) + wsum (λ p, p <=? b') (above (λ p, p <=? b) layer)) = sat (g b')).
  { intros b' Hb'. rewrite <- (Hg b'), <- (Hg b) by set_solver.
    rewrite (wsum_split (λ p, p <=? b) (λ p, p <=? b') layer); [lia|].
    intros q Hq%Nat.leb_le. apply Nat.leb_le. eapply Forall_forall in Hle; [|exact Hb']. lia. }
  rewrite locs_cons, length_app, repeat_length, last_or_repeat.
  pose proof (above_sorted (λ p, p <=? b) layer Hl).
  replace (0 <? g b) with (0 <? sat (g b))
    by (destruct (Nat.ltb_spec 0 (g b)), (Nat.ltb_spec 0 (sat (g b))); lia || done).
  destruct (Nat.ltb_spec 0 (sat (g b))); rewrite IH by (done || lia); f_equal; lia.
Qed.

Lemma complete_anchors_spec g ps count u :
  count <= 2 →
  complete_anchors (layer_of (λ p, sat (g p)) ps) count u
  = (sat (count + length (locs g ps)), last_or (locs g ps) u).
Proof.
  revert count u. induction ps as [|p ps IH]; intros count u Hc; [simpl; f_equal; lia|].
  change (layer_of ?g (p :: ps)) with ((p, g p) :: layer_of g ps). cbn [complete_anchors].
  rewrite locs_cons, length_app, repeat_length, last_or_repeat.
  replace (0 <? g p) with (0 <? sat (g p))
    by (destruct (Nat.ltb_spec 0 (g p)), (Nat.ltb_spec 0 (sat (g p))); lia || done).
  destruct (Nat.ltb_spec 0 (sat (g p))); rewrite IH by lia; f_equal; lia.
Qed.

Lemma decide_count l :
  match sat (0 + length l), last_or l None with
  | 0, _ => Err Context_mismatch
  | 1, Some at_ => Ok at_
  | _, _ => Err Context_ambiguous
  end = decide_on l.
Proof.
  destruct l as [|x [|y l]]; [done..|]. replace (sat (0 + length (x :: y :: l))) with 2 by (simpl; lia).
  done.
Qed.

(** ** The complete matches *)

(** Every pair of a chain and a place of the edit that [rel] relates to its end. *)
Definition matched (rel : nat → nat → bool) (E : list chain) (bodies : list nat)
    : list (chain * nat) :=
  b ← bodies; (λ c, (c, b)) <$> List.filter (λ c, rel c.2 b) E.

Lemma matched_locs rel E bodies :
  (matched rel E bodies).*2 = locs (λ b, cnt (λ q, rel q b) E.*2) bodies.
Proof.
  unfold matched. induction bodies as [|b bodies IH]; [done|].
  rewrite bind_cons, fmap_app, IH, locs_cons. f_equal. clear.
  induction E as [|c E IH]; [done|]. unfold cnt in *. simpl.
  destruct (rel c.2 b); simpl; [|done]. by f_equal.
Qed.

Lemma elem_of_matched rel E bodies c b :
  (c, b) ∈ matched rel E bodies ↔ c ∈ E ∧ b ∈ bodies ∧ rel c.2 b = true.
Proof.
  unfold matched. rewrite list_elem_of_bind. split.
  - intros (b' & (c' & [= <- <-] & Hc)%list_elem_of_fmap & Hb).
    rewrite list_elem_of_In in Hc. apply filter_In in Hc as [Hc Hr].
    rewrite <- list_elem_of_In in Hc. done.
  - intros (Hc & Hb & Hr). exists b. split; [|done]. apply list_elem_of_fmap.
    exists c. split; [done|]. apply list_elem_of_In, filter_In. by rewrite <- list_elem_of_In.
Qed.

Lemma matched_NoDup rel E bodies : NoDup E → NoDup bodies → NoDup (matched rel E bodies).
Proof.
  intros HE Hb. apply NoDup_bind; [| |done].
  - intros b1 b2 y _ _ (c1 & -> & _)%list_elem_of_fmap (c2 & Heq & _)%list_elem_of_fmap. by injection Heq.
  - intros b _. apply NoDup_fmap_2; [intros ?? [=]; done|].
    apply NoDup_ListNoDup, List.NoDup_filter. by apply NoDup_ListNoDup.
Qed.

Lemma elem_of_all_chains first rest c :
  c ∈ all_chains first rest
  ↔ Forall2 (λ p ps, p ∈ ps) (chain_list c) (first :: rest) ∧ sorted (chain_list c).
Proof.
  revert c. induction rest as [|current rest IH] using rev_ind; intros [pre p]; unfold chain_list.
  - unfold all_chains. simpl. rewrite list_elem_of_fmap. split.
    + intros (q & [= -> ->] & Hq). simpl. split; repeat constructor; done.
    + intros [HF _]. destruct pre as [|x pre]; inversion HF as [|? ? ? ? Hx HF']; subst; [eauto|].
      apply Forall2_nil_inv_r in HF'. by destruct pre.
  - unfold all_chains in *. rewrite foldl_app. simpl. rewrite elem_of_extend. simpl.
    rewrite app_comm_cons. split.
    + intros (c0 & Hc0 & -> & Hlt & Hp). apply IH in Hc0 as [HF Hs]. split.
      * apply Forall2_app; [done|]. by constructor.
      * unfold chain_list in *. apply StronglySorted_app in Hs as (Hx & Hpre & _).
        apply StronglySorted_app. split_and!; [|by apply StronglySorted_app; split_and!; [done..|repeat constructor]|repeat constructor].
        intros x y Hx' ->%list_elem_of_singleton.
        apply elem_of_app in Hx' as [Hx'| ->%list_elem_of_singleton]; [|done].
        specialize (Hx x c0.2 Hx' ltac:(by apply list_elem_of_singleton)). lia.
    + intros [HF Hs]. apply Forall2_app_inv_r in HF as (l1 & l2 & HF1 & HF2 & Heq).
      apply Forall2_cons_inv_r in HF2 as (q & l2' & Hq & HF2 & ->). apply Forall2_nil_inv_r in HF2 as ->.
      apply app_inj_tail in Heq as [<- <-].
      destruct (exists_last (l := pre)) as (l0 & q & ->); [intros ->; by apply Forall2_nil_inv_l in HF1|].
      apply StronglySorted_app in Hs as (Hlt & Hs & _).
      exists (l0, q). split_and!; [by apply IH|done| |done].
      apply Hlt; [set_solver|by apply list_elem_of_singleton].
Qed.

Lemma all_chains_NoDup first rest :
  NoDup first → Forall sorted rest → NoDup (all_chains first rest).
Proof.
  intros Hf. unfold all_chains. intros HF.
  assert (H0 : NoDup ((λ p, ([] : list nat, p)) <$> first)) by (apply NoDup_fmap_2; [intros ?? [=]; done|done]).
  revert H0. generalize ((λ p, ([] : list nat, p)) <$> first).
  induction HF as [|current rest Hc HF IH]; intros E HE; [done|].
  simpl. apply IH, extend_NoDup; [done|]. by apply sorted_NoDup.
Qed.

Definition is_nil {A} (l : list A) : bool := match l with [] => true | _ => false end.

(** All complete matches of an anchor chain and a body, by enumeration. *)
Definition complete_matches (sequence : list pystr) (anchor : pystr) (anchors body : list pystr)
    (start : nat) : list (chain * nat) :=
  let first := matching_positions sequence [anchor] start in
  let rest := (λ a, matching_positions sequence [a] start) <$> anchors in
  if is_nil body
  then matched Nat.eqb (all_chains first rest) (default first (last rest))
  else matched Nat.leb (all_chains first rest) (matching_positions sequence body start).

Lemma no_member_nil {A} (l : list A) : (∀ x, x ∉ l) → l = [].
Proof. destruct l as [|x l]; [done|]. intros H. destruct (H x). left. Qed.

Lemma all_chains_nil first rest :
  existsb (λ found, bool_decide (length found = 0)) (first :: rest) = true →
  all_chains first rest = [].
Proof.
  intros (found & Hin & H0%bool_decide_eq_true)%existsb_exists. apply no_member_nil.
  intros c [HF _]%elem_of_all_chains. apply list_elem_of_In, list_elem_of_lookup in Hin as [i Hi].
  eapply Forall2_lookup_r in HF as (p & _ & Hp); [|exact Hi].
  destruct found; [by apply not_elem_of_nil in Hp|done].
Qed.

Lemma occ_absent L p : p ∉ L → occ L p = 0.
Proof.
  induction L as [|q L IH]; intros Hp; [done|]. rewrite not_elem_of_cons in Hp. destruct Hp as [Hne Hp].
  rewrite occ_cons, IH by done. destruct (Nat.eqb_spec q p); [by subst|done].
Qed.

Lemma first_counts_spec ps : sorted ps → first_counts ps = counts_of ((λ p, ([], p)) <$> ps) ps.
Proof.
  intros Hs. apply (layer_of_ext (λ _, 1)). intros p Hp.
  rewrite <- list_fmap_compose. replace (snd ∘ _) with (id : nat → nat) by done. rewrite list_fmap_id.
  apply sorted_NoDup in Hs. induction Hs as [|q ps Hq Hs IH]; [by apply not_elem_of_nil in Hp|].
  rewrite occ_cons. destruct (Nat.eqb_spec q p) as [->|Hne]; [by rewrite occ_absent|].
  apply IH. set_solver.
Qed.

Lemma matched_nil rel bodies : matched rel [] bodies = [].
Proof. unfold matched. by induction bodies. Qed.

Lemma find_chain_decides sequence anchor anchors body start :
  find_unique_chain_body sequence (anchor :: anchors) body start
  = decide_on (complete_matches sequence anchor anchors body start).*2.
Proof.
  unfold find_unique_chain_body, complete_matches. rewrite fmap_cons.
  set (first := matching_positions sequence [anchor] start).
  set (rest := (λ a, matching_positions sequence [a] start) <$> anchors).
  destruct (existsb _ (first :: rest)) eqn:Hempty.
  { rewrite all_chains_nil, !matched_nil by done. by destruct (is_nil body). }
  assert (Hfirst : sorted first) by apply matching_positions_sorted.
  assert (Hrest : Forall sorted rest).
  { apply Forall_fmap, Forall_true. intros a. apply matching_positions_sorted. }
  destruct (chain_counts_spec ((λ p, ([], p)) <$> first) first rest) as (Hlayer & Hends & Hfinal);
    [done| |done|].
  { intros c (p & -> & Hp)%list_elem_of_fmap. done. }
  cbn [negb]. unfold chain_counts. rewrite first_counts_spec, Hlayer by done.
  fold (all_chains first rest) in *.
  destruct body as [|b body]; cbn [is_nil].
  - unfold counts_of. rewrite complete_anchors_spec by lia. rewrite decide_count, matched_locs. done.
  - rewrite (complete_spec (λ b, cnt (λ q, q <=? b) (all_chains first rest).*2)).
    + rewrite decide_count, matched_locs. done.
    + by unfold counts_of; rewrite layer_of_positions.
    + apply matching_positions_sorted.
    + lia.
    + lia.
    + intros b' _. simpl. by apply wsum_counts.
Qed.

(** A complete match: every anchor at its occurrence, in order, from [start] on,
    and the body at or after the last; without a body, at the last anchor. *)
Definition complete_match (sequence anchors body : list pystr) (start : nat)
    (occurrences : list nat) (at_ : nat) : Prop :=
  Forall2 (λ p anchor, start <= p ∧ sequence !! p = Some anchor) occurrences anchors
  ∧ sorted occurrences
  ∧ ∃ final, last occurrences = Some final
    ∧ if is_nil body then at_ = final
      else final <= at_ ∧ take (length body) (drop at_ sequence) = body
           ∧ at_ + length body <= length sequence.

Lemma elem_of_anchor_positions sequence anchor start p :
  p ∈ matching_positions sequence [anchor] start ↔ start <= p ∧ sequence !! p = Some anchor.
Proof.
  rewrite elem_of_matching_positions. simpl length. split.
  - intros (? & Hlt & H). split; [done|]. destruct (drop p sequence) eqn:Hd; [done|].
    injection H as ->. rewrite <- (Nat.add_0_r p), <- lookup_drop, Hd. done.
  - intros [? Hp]. split_and!; [done|by apply lookup_lt_Some in Hp; lia|].
    by rewrite (drop_S _ _ _ Hp).
Qed.

Lemma elem_of_complete_matches sequence anchor anchors body start c at_ :
  (c, at_) ∈ complete_matches sequence anchor anchors body start
  ↔ complete_match sequence (anchor :: anchors) body start (chain_list c) at_.
Proof.
  assert (HF : Forall2 (λ p ps, p ∈ ps) (chain_list c)
      (matching_positions sequence [anchor] start
       :: ((λ a, matching_positions sequence [a] start) <$> anchors))
    ↔ Forall2 (λ p a, start <= p ∧ sequence !! p = Some a) (chain_list c) (anchor :: anchors)).
  { change (?x :: (?f <$> anchors)) with (f <$> (anchor :: anchors)). rewrite Forall2_fmap_r.
    split; intros H; (eapply Forall2_impl; [exact H|]); intros p a; simpl;
      apply elem_of_anchor_positions. }
  unfold complete_matches, complete_match.
  assert (Hl : last (chain_list c) = Some c.2) by (unfold chain_list; apply last_snoc).
  destruct body as [|b body]; cbn [is_nil]; rewrite elem_of_matched, elem_of_all_chains, HF.
  - rewrite Nat.eqb_eq. split.
    + intros ([H1 H2] & _ & <-). eauto.
    + intros (H1 & H2 & f & Hf & ->). rewrite Hl in Hf. injection Hf as <-. split_and!; [done..| |done].
      rewrite <- HF in H1. unfold chain_list in H1. rewrite Forall2_app_inv_l in H1. destruct H1 as (l1 & l2 & _ & H1 & Heq).
      apply Forall2_cons_inv_l in H1 as (ps & l2' & Hps & H1 & ->). apply Forall2_nil_inv_l in H1 as ->.
      replace (default _ _) with ps; [done|].
      change (default ?x (last ?l)) with (default x (last l)).
      pose proof (f_equal last Heq) as Hlast. rewrite last_snoc, last_cons in Hlast.
      destruct (last (_ <$> anchors)); simpl; congruence.
  - rewrite elem_of_matching_positions, Nat.leb_le. split.
    + intros ([H1 H2] & (H3 & H4 & H5) & H6). eauto 10.
    + intros (H1 & H2 & f & Hf & H3 & H4 & H5). rewrite Hl in Hf. injection Hf as <-.
      split_and!; [done..| |done|done|done].
      destruct (Forall2_lookup_l _ _ _ _ _ H1
        (list_lookup_middle c.1 [] c.2 (length c.1) eq_refl)) as (_ & _ & ? & _). lia.
Qed.

Lemma complete_matches_NoDup sequence anchor anchors body start :
  NoDup (complete_matches sequence anchor anchors body start).
Proof.
  pose proof (λ a, matching_positions_sorted sequence [a] start) as Hp.
  assert (Hrest : Forall sorted ((λ a, matching_positions sequence [a] start) <$> anchors)).
  { apply Forall_fmap, Forall_true. exact Hp. }
  assert (HE := all_chains_NoDup _ _ (sorted_NoDup _ (Hp anchor)) Hrest).
  unfold complete_matches. destruct (is_nil body); apply matched_NoDup; try done.
  - apply sorted_NoDup. destruct (last _) as [ps|] eqn:Hl; simpl; [|apply Hp].
    apply last_Some_elem_of in Hl. by eapply Forall_forall in Hrest.
  - apply sorted_NoDup, matching_positions_sorted.
Qed.

Lemma chain_of_list occurrences x : last occurrences = Some x → ∃ c, occurrences = chain_list c.
Proof. intros [pre ->]%last_Some. by exists (pre, x). Qed.

(** C7: an anchor chain is resolved exactly when it has one complete match.  The
    layer-by-layer counting of [find_unique_chain_body] returns a place if and only
    if there is exactly one way to put every anchor at an occurrence, in order, and
    the hunk's old lines at or after the last one, and it is that match's place; a
    context mismatch means there is none, an ambiguity that there are at least two;
    nothing else is raised. *)
Theorem chain_resolved_iff_unique sequence anchor anchors body start :
  let matches := complete_match sequence (anchor :: anchors) body start in
  match find_unique_chain_body sequence (anchor :: anchors) body start with
  | Ok at_ => ∃ chain, matches chain at_
      ∧ ∀ chain' at', matches chain' at' → chain' = chain ∧ at' = at_
  | Err Context_mismatch => ∀ chain at_, ¬ matches chain at_
  | Err Context_ambiguous => ∃ chain1 at1 chain2 at2,
      matches chain1 at1 ∧ matches chain2 at2 ∧ (chain1, at1) ≠ (chain2, at2)
  | Err _ => False
  end.
Proof.
  intros matches. rewrite find_chain_decides.
  pose proof (elem_of_complete_matches sequence anchor anchors body start) as Hin.
  pose proof (complete_matches_NoDup sequence anchor anchors body start) as Hnd.
  assert (Hof : ∀ occurrences at_, matches occurrences at_ → ∃ c, occurrences = chain_list c).
  { intros o a (_ & _ & f & Hf & _). by eapply chain_of_list. }
  destruct (complete_matches _ _ _ _ _) as [|[c1 at1] [|[c2 at2] l]]; simpl.
  - intros o a Hm. destruct (Hof _ _ Hm) as [c ->]. apply Hin in Hm. by apply not_elem_of_nil in Hm.
  - exists (chain_list c1). split; [apply Hin; set_solver|].
    intros o a Hm. destruct (Hof _ _ Hm) as [c ->].
    apply Hin, list_elem_of_singleton in Hm. by injection Hm as -> ->.
  - exists (chain_list c1), at1, (chain_list c2), at2. split_and!; [apply Hin; set_solver..|].
    intros [= Hc ->]. apply NoDup_cons in Hnd as [Hnd _]. apply Hnd.
    unfold chain_list in Hc. apply app_inj_tail in Hc as [??].
    destruct c1, c2; simpl in *; subst. left.
Qed.
