(* ===== verification/PatchApply.v ===== *)
(** * The apply_patch rewriting: refinement of block replacement

    [apply_hunks] edits two parallel lists, lines and endings.  Its specification
    replaces, from top to bottom, disjoint blocks of the file's lines; the proof
    keeps the copy's endings in order so that no two lines merge. *)

From S2P Require Import Prelude PyStr Patch PatchTheory PatchSearch.
Open Scope string_scope.
Open Scope list_scope.
Open Scope nat_scope.

(** ** The specification *)

(** [rewrites hs ls ls']: every hunk, in order, replaces one block equal to its old
    lines by its new lines; everything between the blocks is kept. *)
Inductive rewrites : list Hunk → list pystr → list pystr → Prop :=
| rewrites_nil ls : rewrites [] ls ls
| rewrites_cons h hs keep rest rest' :
    rewrites hs rest rest' →
    rewrites (h :: hs) (keep ++ old_lines_of h ++ rest) (keep ++ new_lines_of h ++ rest').

(** A hunk the host accepts whose lines hold no line break. *)
Definition hunk_ok (h : Hunk) : Prop :=
  Forall (λ l, line_head l body_marks = true ∧ line_ok l) (hunk_lines h).

(** ** Locating a hunk *)

Definition block_at (ls old : list pystr) (cursor at_ : nat) : Prop :=
  cursor <= at_ ∧ at_ + length old <= length ls
  ∧ ls = take at_ ls ++ old ++ drop (at_ + length old) ls.

Lemma matching_block sequence pattern start idx :
  idx ∈ matching_positions sequence pattern start → block_at sequence pattern start idx.
Proof.
  intros H. split_and!; [..|by eapply matching_split];
    apply elem_of_matching_positions in H as (? & ? & ?); done.
Qed.

Lemma find_unique_block sequence pattern start idx :
  pattern ≠ [] → find_unique sequence pattern start = Ok idx →
  block_at sequence pattern start idx.
Proof.
  intros Hne H%find_unique_ok; [|done]. apply matching_block. rewrite H. set_solver.
Qed.

Lemma empty_block ls cursor at_ : cursor <= at_ → at_ <= length ls → block_at ls [] cursor at_.
Proof.
  intros. split_and!; [done|simpl; lia|]. simpl. by rewrite Nat.add_0_r, take_drop.
Qed.

Lemma block_weaken ls old cursor cursor' at_ :
  cursor <= cursor' → block_at ls old cursor' at_ → block_at ls old cursor at_.
Proof. intros ? (? & ? & ?). split_and!; [lia|done..]. Qed.

Lemma find_chain_block sequence anchor anchors body start at_ :
  find_unique_chain_body sequence (anchor :: anchors) body start = Ok at_ →
  block_at sequence body start at_.
Proof.
  rewrite find_chain_decides. intros H.
  assert (Hm : ∃ c, (c, at_) ∈ complete_matches sequence anchor anchors body start).
  { destruct (complete_matches _ _ _ _ _) as [|[c a] [|]]; simplify_eq/=. exists c. set_solver. }
  destruct Hm as [c (HF & Hs & f & Hl & Hb)%elem_of_complete_matches].
  apply last_Some in Hl as [pre Hpre]. rewrite Hpre in HF.
  destruct (Forall2_lookup_l _ _ _ _ _ HF (list_lookup_middle pre [] f _ eq_refl))
    as (a & _ & Hstart & Ha). apply lookup_lt_Some in Ha.
  destruct body as [|b body]; simpl in Hb.
  - subst. apply empty_block; lia.
  - destruct Hb as (? & ? & ?). apply matching_block, elem_of_matching_positions.
    split_and!; [lia|done..].
Qed.

Lemma locate_block ls cursor h at_ :
  cursor <= length ls → locate ls cursor h = Ok at_ → block_at ls (old_lines_of h) cursor at_.
Proof.
  intros Hc. unfold locate. destruct (anchors h) as [|a [|a' l]].
  - destruct (old_lines_of h) eqn:Ho; intros H; [injection H as <-; by apply empty_block|].
    by apply find_unique_block.
  - intros H. destruct (find_unique ls [a] cursor) as [aa|] eqn:Ha; simpl in H; [|done].
    apply find_unique_block in Ha as (? & ? & _); [|done].
    destruct (old_lines_of h) eqn:Ho.
    + injection H as <-. apply empty_block; simpl in *; lia.
    + eapply block_weaken; [|by apply find_unique_block]. lia.
  - apply find_chain_block.
Qed.

Definition context_error (e : PatchError) : Prop := e = Context_mismatch ∨ e = Context_ambiguous.

Lemma find_unique_error sequence pattern start e :
  find_unique sequence pattern start = Err e → context_error e.
Proof.
  unfold find_unique, context_error. destruct pattern; [done|].
  destruct (matching_positions _ _ _) as [|? []]; naive_solver.
Qed.

Lemma locate_error ls cursor h e : locate ls cursor h = Err e → context_error e.
Proof.
  unfold locate. destruct (anchors h) as [|a [|a' l]].
  - destruct (old_lines_of h); [done|]. apply find_unique_error.
  - destruct (find_unique ls [a] cursor) eqn:Ha; simpl.
    + destruct (old_lines_of h); [done|]. apply find_unique_error.
    + intros [= <-]. by eapply find_unique_error.
  - rewrite find_chain_decides. unfold context_error.
    destruct (_.*2) as [|? []]; naive_solver.
Qed.

(** ** Endings *)

(** A line break other than a bare CR. *)
Definition nl (e : pystr) : Prop := e = [LF] ∨ e = [CR; LF].

(** Every ending is a line break; only the last may be missing. *)
Definition ends_ok (es : list pystr) : Prop :=
  ∀ i e, es !! i = Some e → nl e ∨ e = [] ∧ S i = length es.

Lemma nl_nonempty e : nl e → nonempty e = true.
Proof. by intros [->| ->]. Qed.

Lemma ends_ok_nl_or_nil es e : ends_ok es → e ∈ es → nl e ∨ e = [].
Proof. intros H [i Hi]%list_elem_of_lookup. destruct (H i e Hi); naive_solver. Qed.

Lemma first_nonempty_nl es d :
  Forall (λ e, nl e ∨ e = []) es → nl d → nl (first_nonempty es d).
Proof.
  intros HF Hd. induction HF as [|e es [He| ->] HF IH]; simpl; [done| |done].
  by rewrite nl_nonempty.
Qed.

Lemma repair_nl previous es :
  nl previous → Forall (λ e, nl e ∨ e = []) es → Forall nl (repair previous es).
Proof.
  intros Hp HF. revert previous Hp. induction HF as [|e es He HF IH]; intros p Hp; simpl; [done|].
  assert (nl (str_or e p)).
  { destruct He as [He| ->]; unfold str_or; [by rewrite nl_nonempty|done]. }
  constructor; auto.
Qed.

Lemma repair_length previous es : length (repair previous es) = length es.
Proof. revert previous. induction es; intros; simpl; auto. Qed.

Lemma line_head_cases l :
  line_head l body_marks = true →
  line_head l old_marks = line_head l (lit " ") || line_head l (lit "-")
  ∧ line_head l new_marks = line_head l (lit " ") || line_head l plus
  ∧ (line_head l (lit " ") = true ∧ line_head l plus = false ∧ line_head l (lit "-") = false
     ∨ line_head l (lit " ") = false ∧ line_head l plus = true ∧ line_head l (lit "-") = false
     ∨ line_head l (lit " ") = false ∧ line_head l plus = false ∧ line_head l (lit "-") = true).
Proof.
  destruct l as [|c l]; [done|]. unfold line_head. rewrite bool_decide_eq_true.
  intros Hc. unfold body_marks in Hc. rewrite !elem_of_cons in Hc.
  destruct Hc as [->|[->|[->|Hc%not_elem_of_nil]]]; try done; vm_compute; naive_solver.
Qed.

Lemma new_endings_spec old_endings replacement body i :
  Forall (λ l, line_head l body_marks = true) body →
  i + length (List.filter (λ l, line_head l old_marks) body) = length old_endings →
  ∃ es, new_endings_of old_endings replacement body i = Ok es
        ∧ length es = length (List.filter (λ l, line_head l new_marks) body)
        ∧ Forall (λ e, e ∈ old_endings ∨ e = replacement) es.
Proof.
  intros HF. revert i. induction HF as [|l body Hl HF IH]; intros i Hi; [by exists []|].
  destruct (line_head_cases l Hl) as (Ho & Hn & Hc). simpl in Hi. cbn [new_endings_of List.filter].
  rewrite Ho, Hn. rewrite Ho in Hi.
  destruct Hc as [(E1 & E2 & E3)|[(E1 & E2 & E3)|(E1 & E2 & E3)]]; rewrite E1, E2, E3 in *; simpl in *.
  - destruct (lookup_lt_is_Some_2 old_endings i) as [e He]; [lia|].
    destruct (IH (S i)) as (es & -> & Hlen & Hes); [lia|]. rewrite He. simpl.
    exists (e :: es). split_and!; [done|simpl; lia|].
    constructor; [left; by eapply list_elem_of_lookup_2|done].
  - destruct (IH i) as (es & Hes & Hlen & HFs); [lia|]. destruct i as [|before].
    + rewrite Hes. simpl. exists (replacement :: es). split_and!; [done|simpl; lia|auto].
    + destruct (lookup_lt_is_Some_2 old_endings before) as [e He]; [lia|]. rewrite He, Hes. simpl.
      exists (str_or e replacement :: es). split_and!; [done|simpl; lia|].
      constructor; [|done]. unfold str_or. destruct (nonempty e); [left|by right].
      by eapply list_elem_of_lookup_2.
  - destruct (IH (S i)) as (es & Hes & Hlen & HFs); [lia|]. eauto.
Qed.

Lemma hunk_ok_nonempty h : hunk_ok h → forallb nonempty (hunk_lines h) = true.
Proof.
  intros H. apply forallb_forall. intros l Hl%list_elem_of_In.
  eapply Forall_forall in H as [H _]; [|exact Hl]. by destruct l.
Qed.

Lemma hunk_ok_new_lines h : hunk_ok h → Forall line_ok (new_lines_of h).
Proof.
  intros H. apply Forall_fmap, Forall_forall. intros l.
  rewrite list_elem_of_In, filter_In, <- list_elem_of_In. intros [Hl _].
  eapply Forall_forall in H as [_ [H1 H2]]; [|exact Hl].
  destruct l; [done|]. unfold line_ok. simpl. split; set_solver.
Qed.

(** ** One hunk *)

Definition copy_ok (had : bool) (c : Copy) : Prop :=
  length (endings c) = length (lines c) ∧ cursor c <= length (lines c)
  ∧ Forall line_ok (lines c) ∧ ends_ok (endings c)
  ∧ (had = true → Forall nl (endings c)).

(** The new list of endings: [E] around the replaced block [N]. *)
Lemma splice_ends_ok had (E N : list pystr) at_ k :
  at_ + k <= length E → ends_ok E → (had = true → Forall nl E) →
  Forall nl N →
  (N ≠ [] → ∀ e, at_ = length E → E !! pred at_ = Some e → nl e) →
  let N' := if bool_decide (at_ + k = length E) && negb (bool_decide (N = [])) && negb had
            then set_last [] N else N in
  let es := take at_ E ++ N' ++ drop (at_ + k) E in
  ends_ok es ∧ (had = true → Forall nl es) ∧ length N' = length N.
Proof.
  intros Hk HE Hhad HN Hprev N' es.
  assert (HN' : N' = N ∨ at_ + k = length E ∧ had = false ∧ ∃ N0 x, N = N0 ++ [x] ∧ N' = N0 ++ [[]]).
  { unfold N'. destruct (bool_decide (at_ + k = length E)) eqn:E1; [|by left].
    destruct (bool_decide (N = [])) eqn:E2; [by left|]. destruct had; [by left|]. right.
    bool_prop. split_and!; [done..|]. destruct (exists_last E2) as (N0 & x & ->). exists N0, x.
    unfold set_last. by rewrite removelast_last. }
  assert (HlenN : length N' = length N).
  { destruct HN' as [->|(_ & _ & N0 & x & -> & ->)]; [done|]. by rewrite !length_app. }
  split_and!; [|intros Hh|done].
  2:{ destruct HN' as [->|(_ & ? & _)]; [|congruence]. unfold es.
      specialize (Hhad Hh).
      rewrite !Forall_app. split_and!; [by apply Forall_take|done|by apply Forall_drop]. }
  intros i e Hi. unfold es in *. rewrite !length_app, length_take, length_drop, HlenN.
  rewrite lookup_app_Some in Hi. destruct Hi as [Hi|[Hle Hi]].
  - apply lookup_take_Some in Hi as [Hi Hlt]. destruct (HE i e Hi) as [?|[-> Hlast]]; [by left|].
    assert (k = 0) as -> by lia. assert (at_ = length E) by lia.
    destruct N as [|x N]; [right; simpl; split; [done|lia]|].
    left. apply Hprev; [done|lia|]. replace (pred at_) with i by lia. done.
  - rewrite length_take in Hle, Hi. rewrite lookup_app_Some in Hi. destruct Hi as [Hi|[Hle' Hi]].
    + destruct HN' as [Heq|(Hend & _ & N0 & x & -> & Heq)]; rewrite Heq in Hi.
      * left. by eapply Forall_lookup_1 in HN.
      * rewrite Forall_app in HN. destruct HN as [HN _].
        apply lookup_app_Some in Hi as [Hi|[Hx Hi]]; [left; by eapply Forall_lookup_1 in HN|].
        apply lookup_lt_Some in Hi as Hlt. simpl in Hlt.
        replace (i - at_ `min` length E - length N0) with 0 in Hi by lia.
        injection Hi as <-. right. split; [done|]. rewrite length_app. simpl. lia.
    + rewrite lookup_drop in Hi. apply lookup_lt_Some in Hi as Hlt. rewrite HlenN in *.
      destruct (HE _ e Hi) as [?|[-> Hlast]]; [by left|]. right. split; [done|lia].
Qed.

Lemma insert_nl_ends_ok had E i e :
  nl e → ends_ok E → (had = true → Forall nl E) →
  ends_ok (<[i := e]> E) ∧ (had = true → Forall nl (<[i := e]> E)).
Proof.
  intros He HE Hhad. split; [|intros Hh; by apply Forall_insert; auto].
  intros j x Hj. rewrite length_insert.
  destruct (decide (i = j)) as [->|Hne].
  - assert (Hlt : j < length E) by (apply lookup_lt_Some in Hj; by rewrite length_insert in Hj).
    rewrite list_lookup_insert_eq in Hj by done. injection Hj as <-. by left.
  - rewrite list_lookup_insert_ne in Hj by done. by apply HE.
Qed.

(** The repair of the ending before the edit. *)
Lemma previous_ending had (E new : list pystr) at_ replacement :
  nl replacement → ends_ok E → (had = true → Forall nl E) → at_ <= length E →
  ∃ E', match at_, new with
        | S before, _ :: _ =>
            match E !! before with
            | None => Err Raised_IndexError
            | Some ending => Ok (if nonempty ending then E else <[before := replacement]> E)
            end
        | _, _ => Ok E
        end = @Ok PatchError _ E'
    ∧ length E' = length E ∧ ends_ok E' ∧ (had = true → Forall nl E')
    ∧ (new ≠ [] → ∀ e, 0 < at_ → E' !! pred at_ = Some e → nl e).
Proof.
  intros Hr HE Hhad Hat. destruct at_ as [|before].
  { exists E. split_and!; try done. intros; lia. }
  destruct new as [|l new]; [exists E; by split_and!|].
  destruct (lookup_lt_is_Some_2 E before) as [e He]; [lia|]. rewrite He.
  destruct (nonempty e) eqn:Hne.
  - exists E. split_and!; try done. simpl. intros _ x _ Hx. rewrite He in Hx. injection Hx as <-.
    destruct (HE _ _ He) as [?|[-> _]]; [done|discriminate].
  - exists (<[before := replacement]> E).
    destruct (insert_nl_ends_ok had E before replacement Hr HE Hhad) as [H1 H2].
    split_and!; [done|by rewrite length_insert|done..|].
    intros _ x _ Hx. simpl in Hx. rewrite list_lookup_insert_eq in Hx by lia. by injection Hx as <-.
Qed.

Lemma apply_hunk_spec had newline c h :
  copy_ok had c → nl newline → hunk_ok h →
  match apply_hunk had newline c h with
  | Ok c' => copy_ok had c' ∧ ∃ at_, block_at (lines c) (old_lines_of h) (cursor c) at_
      ∧ lines c' = take at_ (lines c) ++ new_lines_of h
                     ++ drop (at_ + length (old_lines_of h)) (lines c)
      ∧ cursor c' = at_ + length (new_lines_of h)
  | Err e => context_error e
  end.
Proof.
  intros (Hlen & Hcur & Hlines & HE & Hhad) Hnl Hh. unfold apply_hunk.
  rewrite hunk_ok_nonempty by done.
  destruct (locate (lines c) (cursor c) h) as [at_|e] eqn:Hloc; simpl; [|by eapply locate_error].
  apply locate_block in Hloc; [|done]. pose proof Hloc as (Hge & Hle & Hsplit).
  set (old := old_lines_of h) in *. set (new := new_lines_of h).
  set (old_endings := take (length old) (drop at_ (endings c))).
  set (replacement := first_nonempty old_endings newline).
  assert (Hold : Forall (λ e, nl e ∨ e = []) old_endings).
  { apply Forall_take, Forall_drop, Forall_forall. intros e He. by eapply ends_ok_nl_or_nil. }
  assert (Hrep : nl replacement) by by apply first_nonempty_nl.
  destruct (new_endings_spec old_endings replacement (hunk_lines h) 0) as (N & -> & HlenN & HN).
  { eapply Forall_impl; [exact Hh|]. naive_solver. }
  { unfold old_endings. rewrite length_take, length_drop. simpl.
    unfold old, old_lines_of in *. rewrite length_fmap in *. lia. }
  simpl.
  assert (HR : Forall nl (repair replacement N)).
  { apply repair_nl; [done|]. eapply Forall_impl; [exact HN|]. intros e [He| ->]; [|by left].
    by eapply Forall_forall in Hold. }
  destruct (previous_ending had (endings c) new at_ replacement) as (E & -> & HlenE & HEok & HEhad & Hprev);
    [done..|lia|]. simpl.
  assert (Hnewlen : length (repair replacement N) = length new).
  { rewrite repair_length, HlenN. unfold new, new_lines_of. by rewrite length_fmap. }
  rewrite <- Hlen, <- HlenE.
  destruct (splice_ends_ok had E (repair replacement N) at_ (length old)) as (H1 & H2 & H3);
    [lia|done..| |].
  { intros HneN e Hat He. destruct at_ as [|before].
    { apply lookup_lt_Some in He. lia. }
    apply Hprev; [|lia|done].
    intros Hnil. apply HneN, length_zero_iff_nil. by rewrite Hnewlen, Hnil. }
  split; [|exists at_; done].
  split_and!; simpl; [|rewrite !length_app, length_take; lia| |done|done].
  - rewrite !length_app, !length_take, !length_drop, H3. lia.
  - rewrite !Forall_app. split_and!; [by apply Forall_take|by apply hunk_ok_new_lines|by apply Forall_drop].
Qed.

(** ** All hunks *)

Lemma apply_all_spec had newline c hs :
  copy_ok had c → nl newline → Forall hunk_ok hs →
  match apply_all had newline c hs with
  | Ok c' => copy_ok had c' ∧ ∃ rest,
      rewrites hs (drop (cursor c) (lines c)) rest ∧ lines c' = take (cursor c) (lines c) ++ rest
  | Err e => context_error e
  end.
Proof.
  intros Hc Hnl HF. revert c Hc. induction HF as [|h hs Hh HF IH]; intros c Hc; simpl.
  { split; [done|]. exists (drop (cursor c) (lines c)). split; [constructor|by rewrite take_drop]. }
  pose proof (apply_hunk_spec had newline c h Hc Hnl Hh) as Hspec.
  destruct (apply_hunk had newline c h) as [c1|e]; simpl; [|done].
  destruct Hspec as (Hc1 & at_ & (Hge & Hle & Hsplit) & Hlines & Hcur).
  specialize (IH c1 Hc1). destruct (apply_all had newline c1 hs) as [c'|e]; [|done].
  destruct IH as (Hc' & rest & Hrw & Hout). split; [done|].
  assert (Hlen : length (take at_ (lines c)) = at_) by (rewrite length_take; lia).
  assert (Hdrop : drop (cursor c1) (lines c1) = drop (at_ + length (old_lines_of h)) (lines c)).
  { rewrite Hlines, Hcur, app_assoc, drop_app_length'; [done|]. rewrite length_app. lia. }
  assert (Htake : take (cursor c1) (lines c1) = take at_ (lines c) ++ new_lines_of h).
  { rewrite Hlines, Hcur, app_assoc, take_app_length'; [done|]. rewrite length_app. lia. }
  rewrite Hdrop in Hrw. exists (drop (cursor c) (take at_ (lines c)) ++ new_lines_of h ++ rest). split.
  - rewrite Hsplit at 1. rewrite drop_app_le by lia. by constructor.
  - rewrite Hout, Htake, app_assoc. rewrite <- (take_drop (cursor c) (take at_ (lines c))) at 1.
    rewrite take_take, Nat.min_l by lia. by rewrite <- !app_assoc.
Qed.

(** ** From copies to texts *)

Lemma records_ok_snoc pre l e :
  Forall (λ r, line_ok r.1 ∧ nl r.2) pre → line_ok l → ending_ok e ∨ e = [] ∧ l ≠ [] →
  records_ok (pre ++ [(l, e)]).
Proof.
  intros HF Hl He. induction HF as [|[l' e'] pre [? He'] HF IH]; [done|]. simpl in *.
  apply records_ok_intro; [done|by destruct He' as [->| ->]; auto with odin|done].
Qed.

Lemma all_nl_records rs :
  Forall (λ r, line_ok r.1 ∧ nl r.2) rs → records_ok rs ∧ no_bare_cr rs.
Proof.
  intros HF. split.
  - destruct rs as [|[l e] pre _] using rev_ind; [done|].
    apply Forall_app in HF as [HF [[Hl He] _]%Forall_cons]. simpl in *.
    apply records_ok_snoc; [done..|]. left. destruct He as [->| ->]; auto with odin.
  - eapply Forall_impl; [exact HF|]. intros [l e] [_ [He|He]]; simpl in *; by subst.
Qed.

Lemma unrecords_zip ls es : length es = length ls → unrecords ls es = text_of (zip ls es).
Proof. intros H. rewrite <- unrecords_text, fst_zip, snd_zip by lia. done. Qed.

Lemma text_of_empty rs : text_of (rs ++ [([], [])]) = text_of rs.
Proof. unfold text_of. rewrite fmap_app, join_app. simpl. by rewrite app_nil_r. Qed.

(** A copy in order is the records of its text, but for an added empty line that
    ends an unterminated text. *)
Lemma copy_records ls es :
  length es = length ls → Forall line_ok ls → ends_ok es →
  (records (unrecords ls es)).*1 = ls
  ∨ ls = (records (unrecords ls es)).*1 ++ [[]] ∧ ¬ Forall nl es.
Proof.
  intros Hlen Hls Hes.
  rewrite unrecords_zip by done.
  destruct ls as [|l ls _] using rev_ind; [by left|].
  destruct es as [|e es _] using rev_ind; [rewrite length_app in Hlen; simpl in Hlen; lia|].
  rewrite !length_app in Hlen. simpl in Hlen. rewrite zip_with_app by lia. simpl.
  apply Forall_app in Hls as [Hls [Hl _]%Forall_cons].
  assert (Hpre : Forall (λ r, line_ok r.1 ∧ nl r.2) (zip ls es)).
  { apply Forall_lookup. intros i [l' e'] [Hl' He']%lookup_zip_Some. split; [by eapply Forall_lookup_1 in Hls|].
    destruct (Hes i e') as [?|[-> Hi]]; [by apply lookup_app_l_Some|done|].
    apply lookup_lt_Some in He'. rewrite length_app in Hi. simpl in *. lia. }
  assert (He : nl e ∨ e = []).
  { eapply ends_ok_nl_or_nil; [exact Hes|]. set_solver. }
  destruct (decide (e = [] ∧ l = [])) as [[-> ->]|Hne].
  - right. rewrite text_of_empty. destruct (all_nl_records _ Hpre).
    rewrite records_text, fst_zip by (done || lia). split; [done|].
    rewrite Forall_app, Forall_cons. intros [_ [[]  _]]; discriminate.
  - left. rewrite records_text; [by rewrite fmap_app, fst_zip by lia| |].
    + apply records_ok_snoc; [done..|]. destruct He as [[->| ->]| ->]; auto with odin.
      right. split; [done|]. intros ->. by apply Hne.
    + apply Forall_app. split; [by apply all_nl_records|]. constructor; [|done].
      by destruct He as [[->| ->]| ->].
Qed.

Lemma endswith_char c s : endswith [c] s = true ↔ last s = Some c.
Proof.
  unfold endswith. destruct s as [|d s _] using rev_ind; [done|].
  rewrite rev_app_distr, last_snoc. simpl. rewrite andb_true_r, Z.eqb_eq. naive_solver.
Qed.

Lemma last_text_of pre l e : e ≠ [] → last (text_of (pre ++ [(l, e)])) = last e.
Proof.
  intros He. unfold text_of. rewrite fmap_app, join_app. simpl. rewrite app_nil_r, app_assoc, last_app.
  by destruct e as [|x e _] using rev_ind; [|rewrite last_snoc].
Qed.

Lemma had_final_newline_spec s :
  had_final_newline s = true ↔ s = [] ∨ last s = Some LF ∨ last s = Some CR.
Proof.
  unfold had_final_newline. rewrite !orb_true_iff, !endswith_char. destruct s; simpl; naive_solver.
Qed.

Lemma had_final_nl ls es :
  length es = length ls → Forall nl es → had_final_newline (unrecords ls es) = true.
Proof.
  intros Hlen Hes. apply had_final_newline_spec.
  destruct es as [|e es _] using rev_ind; [by destruct ls; left|].
  destruct ls as [|l ls _] using rev_ind; [rewrite length_app in Hlen; simpl in Hlen; lia|].
  right. left. rewrite !length_app in Hlen. simpl in Hlen.
  apply Forall_app in Hes as [_ [He _]%Forall_cons].
  rewrite unrecords_zip by (rewrite !length_app; simpl; lia).
  rewrite zip_with_app by lia. simpl.
  rewrite last_text_of; by destruct He as [->| ->].
Qed.

Lemma records_ends rs :
  records_ok rs → no_bare_cr rs →
  Forall line_ok rs.*1 ∧ ends_ok rs.*2
  ∧ (had_final_newline (text_of rs) = true → Forall nl rs.*2).
Proof.
  assert (Hending : ∀ e, ending_ok e → e ≠ [CR] → nl e).
  { intros e [->|[->| ->]] ?; [by left|done|by right]. }
  induction rs as [|[l e] rs IH]; intros Hok Hcr.
  { split_and!; [constructor|intros i e He; done|constructor]. }
  apply Forall_cons in Hcr as [Hcre Hcr]. specialize (IH (records_ok_cons _ _ Hok) Hcr).
  destruct IH as (IH1 & IH2 & IH3). simpl in Hcre.
  destruct rs as [|r rs].
  - destruct Hok as [Hl He]. simpl. split_and!; [by apply Forall_singleton| |].
    + intros [|i] x Hx; [|done]. injection Hx as <-.
      destruct He as [He|[-> _]]; [left; by apply Hending|by right].
    + intros Hh%had_final_newline_spec. constructor; [|constructor]. simpl.
      destruct He as [He|[-> Hne]]; [by apply Hending|exfalso].
      unfold text_of in Hh. simpl in Hh. rewrite !app_nil_r in Hh.
      destruct Hl as [H1 H2]. destruct Hh as [?|[H%last_Some_elem_of|H%last_Some_elem_of]]; done.
  - destruct r as [l' e'], Hok as (Hl & He & Hok).
    assert (nl e) by by apply Hending.
    rewrite !(fmap_cons _ (l, e)). split_and!; [by constructor| |].
    + intros [|i] x Hx; [injection Hx as <-; by left|]. simpl in Hx.
      destruct (IH2 i x Hx) as [?|[-> ?]]; [by left|right; split; [done|simpl in *; lia]].
    + intros Hh%had_final_newline_spec. constructor; [done|]. apply IH3, had_final_newline_spec.
      rewrite text_of_cons, app_assoc, last_app in Hh.
      destruct (last (text_of _)) eqn:Hlast.
      * right. destruct Hh as [Hh|Hh]; [|done].
        apply app_eq_nil in Hh as [_ Hh]. rewrite Hh in Hlast. done.
      * left. by apply last_None.
Qed.

(** C6: an update rewrites exactly its blocks.  For hunks whose lines hold no line
    break, on a text without a bare CR, [apply_hunks] either raises a context
    mismatch or ambiguity, or returns a text whose lines are the old text's lines
    with one block per hunk, in order and without overlap, equal to the hunk's old
    lines, replaced by its new lines: no other line changes, none merge and none
    split (an empty line added at the end of an unterminated text only terminates
    it).  A text that ended with a line break still does, or is empty. *)
Theorem apply_hunks_rewrites source hs :
  no_bare_cr (records source) → Forall hunk_ok hs →
  match apply_hunks source hs with
  | Ok out =>
      (∃ ls, rewrites hs (records source).*1 ls
             ∧ (ls = (records out).*1
                ∨ ls = (records out).*1 ++ [[]] ∧ had_final_newline source = false))
      ∧ (had_final_newline source = true → had_final_newline out = true)
  | Err e => e = Context_mismatch ∨ e = Context_ambiguous
  end.
Proof.
  intros Hcr Hhs. destruct (records_source source) as [Ht Hok].
  destruct (records_ends _ Hok Hcr) as (Hls & Hes & Hhad). rewrite Ht in Hhad.
  assert (Hc : copy_ok (had_final_newline source) (open_copy source)).
  { split_and!; simpl; [by rewrite !length_fmap|lia|done..]. }
  assert (Hnl : nl (newline_of source)).
  { apply first_nonempty_nl; [|by left]. apply Forall_forall. intros e. by apply ends_ok_nl_or_nil. }
  pose proof (apply_all_spec _ _ _ hs Hc Hnl Hhs) as H. unfold apply_hunks.
  destruct (apply_all _ _ _ _) as [c|e]; simpl; [|done].
  destruct H as ((Hlen & _ & Hlsc & Hesc & Hhadc) & rest & Hrw & Heq).
  rewrite take_0 in Heq. simpl in Heq. split; [|intros Hh; apply had_final_nl; auto].
  exists rest. split; [by rewrite drop_0 in Hrw|]. subst rest.
  destruct (copy_records _ _ Hlen Hlsc Hesc) as [Hr|[Hr Hn]]; [by left|right; split; [done|]].
  destruct (had_final_newline source); [|done]. by destruct Hn; apply Hhadc.
Qed.

(** A bare CR is a line ending to the search but not to a text it is written back
    next to an LF: a line made empty between the two disappears. *)
Definition cr_source : pystr := Eval compute in lit "a" ++ [CR] ++ lit "b" ++ [LF].
Definition cr_hunk : Hunk := {| anchors := []; hunk_lines := [lit "-b"; lit "+"]; patch_line := 3 |}.

Lemma bare_cr_merges_lines :
  ∃ out, apply_hunks cr_source [cr_hunk] = Ok out
         ∧ (records cr_source).*1 = [lit "a"; lit "b"] ∧ (records out).*1 = [lit "a"].
Proof. by eexists. Qed.

Module ApplyWitness.

Definition source : pystr := Eval compute in lit "a" ++ [LF] ++ lit "b" ++ [CR; LF] ++ lit "c".
Definition hunk : Hunk :=
  {| anchors := [lit "a"]; hunk_lines := [lit " b"; lit "-c"; lit "+d"; lit "+e"]; patch_line := 3 |}.

Lemma source_no_cr : no_bare_cr (records source).
Proof. repeat constructor; discriminate. Qed.

Lemma hunks_are_ok : Forall hunk_ok [hunk].
Proof.
  apply Forall_singleton. unfold hunk_ok, line_ok.
  refine (bool_decide_unpack _ _). vm_compute. exact I.
Qed.

Lemma apply_hunks_rewrites_witness :
  apply_hunks source [hunk]
    = Ok (lit "a" ++ [LF] ++ lit "b" ++ [CR; LF] ++ lit "d" ++ [CR; LF] ++ lit "e")
  ∧ match apply_hunks source [hunk] with
    | Ok out => ∃ ls, rewrites [hunk] (records source).*1 ls
    | Err _ => False
    end.
Proof.
  split; [vm_compute; reflexivity|].
  pose proof (apply_hunks_rewrites source [hunk] source_no_cr hunks_are_ok) as H.
  destruct (apply_hunks source [hunk]) as [out|e] eqn:E; [|vm_compute in E; discriminate].
  destruct H as [(ls & Hrw & _) _]. exists ls. exact Hrw.
Defined.

End ApplyWitness.
