(* ===== verification/PatchParse.v ===== *)
(** * The apply_patch plan: what the parser and the host accept

    A small Hoare logic for the parser's results carries its loops; the theorems
    say what an accepted plan guarantees and when the host accepts it. *)

From S2P Require Import Prelude PyStr Patch PatchTheory PatchApply.
Open Scope string_scope.
Open Scope list_scope.
Open Scope nat_scope.
Local Open Scope odin_scope.

(** ** Postconditions of fallible code *)

(** [m] either returns a value of [Q] or raises one of the parser's errors: it
    never runs out of fuel. *)
Definition post {A} (Q : A → Prop) (m : result PatchError A) : Prop :=
  match m with Ok a => Q a | Err e => e ≠ Unfinished end.

Lemma post_bind {A B} (P : A → Prop) (Q : B → Prop) m (k : A → result PatchError B) :
  post P m → (∀ a, P a → post Q (k a)) → post Q (result_bind m k).
Proof. destruct m; simpl; auto. Qed.

Lemma post_guard {B} (Q : B → Prop) (b : bool) e k :
  e ≠ Unfinished → (b = true → post Q k) → post Q (if b then k else Err e).
Proof. destruct b; simpl; auto. Qed.

Lemma post_impl {A} (P Q : A → Prop) m : post P m → (∀ a, P a → Q a) → post Q m.
Proof. destruct m; simpl; auto. Qed.

Ltac pguard := apply post_guard; [done|intros ?].

(** ** Paths *)

(** A path that stays beneath the root: its components are names. *)
Definition safe_path (p : pystr) : Prop :=
  p ≠ [] ∧ Forall (λ part, part ≠ [] ∧ part ≠ dot ∧ part ≠ dotdot) (split SLASH p)
  ∧ BACKSLASH ∉ p ∧ has_control p = false ∧ strip p = p.

Lemma posix_parts_words raw : Forall (λ w, SLASH ∉ w) (posix_parts raw).
Proof.
  apply Forall_forall. intros w [_ Hw]%list_elem_of_filter.
  pose proof (split_no_sep SLASH raw) as H. by eapply Forall_forall in H.
Qed.

Lemma contains_char c s : contains [c] s = true ↔ c ∈ s.
Proof.
  induction s as [|d s IH]; simpl; [split; [done|by intros ?%not_elem_of_nil]|].
  rewrite andb_true_r, orb_true_iff, Z.eqb_eq, IH, elem_of_cons. done.
Qed.

Lemma relative_path_post raw : post (λ p, p = raw ∧ safe_path p) (relative_path raw).
Proof.
  unfold relative_path. do 4 pguard. simpl. split; [done|].
  assert (Hne : raw ≠ []) by by destruct raw.
  bool_prop. split_and!; [done| | |done|done].
  2:{ rewrite <- contains_char. congruence. }
  assert (Hsplit : split SLASH raw = posix_parts raw).
  { unfold posix_str in *. destruct (posix_parts raw) as [|w ws] eqn:Hp; [done|].
    assert (Hj : join SLASH (w :: ws) = raw) by done. rewrite <- Hj.
    apply join_split; [done|]. rewrite <- Hp. apply posix_parts_words. }
  rewrite Hsplit. apply Forall_forall. intros w Hw.
  match goal with H : existsb _ _ = false |- _ => pose proof (existsb_false _ _ w H Hw) as Hf; cbv beta in Hf end.
  bool_prop. done.
Qed.

Lemma startswith_iff p s : startswith p s = true ↔ ∃ b, s = p ++ b.
Proof.
  rewrite startswith_spec. split; [eauto|]. intros [b ->]. by rewrite drop_app_length.
Qed.

Lemma contains_iff p s : contains p s = true ↔ ∃ a b, s = a ++ p ++ b.
Proof.
  induction s as [|c s IH]; cbn [contains]; rewrite orb_true_iff, startswith_iff.
  - split; [intros [[b Hb]|?]; [by exists [], b|done]|].
    intros (a & b & H). left. exists b. by destruct a.
  - rewrite IH. split.
    + intros [[b Hb]|(a & b & ->)]; [by exists [], b|by exists (c :: a), b].
    + intros (a & b & H). destruct a as [|d a]; [left; by exists b|right].
      injection H as -> ->. eauto.
Qed.

Lemma split_app sep a b : split sep (a ++ sep :: b) = split sep a ++ split sep b.
Proof.
  induction a as [|c a IH]; simpl; [by rewrite Z.eqb_refl|].
  rewrite IH. destruct (Z.eqb c sep); [done|].
  pose proof (split_ne sep a). by destruct (split sep a).
Qed.

Lemma safe_path_accepted p : safe_path p → relative_path p = Ok p.
Proof.
  intros (Hne & Hparts & Hb & Hc & Hs).
  assert (Hempty : [] ∉ split SLASH p).
  { intros H. eapply Forall_forall in Hparts as [? _]; [|exact H]. done. }
  assert (Hfilter : posix_parts p = split SLASH p).
  { unfold posix_parts.
    induction Hparts as [|w ws Hw HF IH]; [done|].
    rewrite filter_cons_True by tauto. f_equal. apply IH. set_solver. }
  unfold relative_path. rewrite Hs, Hc, bool_decide_refl.
  assert (nonempty p = true) as -> by by destruct p.
  assert (contains [BACKSLASH] p = false) as ->.
  { apply not_true_iff_false. by rewrite contains_char. }
  assert (startswith [SLASH] p = false) as ->.
  { apply not_true_iff_false. intros [b ->]%startswith_iff. apply Hempty. simpl. set_solver. }
  assert (endswith [SLASH] p = false) as ->.
  { apply not_true_iff_false. intros [a Ha]%endswith_char%last_Some. subst p.
    apply Hempty. rewrite split_app. set_solver. }
  assert (contains [SLASH; SLASH] p = false) as ->.
  { apply not_true_iff_false. intros (a & b & ->)%contains_iff. apply Hempty.
    change ([SLASH; SLASH] ++ b) with (SLASH :: ([] ++ SLASH :: b)).
    rewrite !split_app. set_solver. }
  unfold posix_str. rewrite Hfilter. pose proof (split_ne SLASH p) as Hsne.
  cbn [negb orb]. destruct (split SLASH p) as [|w ws] eqn:Hsplit; [done|]. rewrite <- Hsplit, split_join.
  rewrite !bool_decide_refl, bool_decide_eq_false_2 by congruence.
  rewrite bool_decide_eq_false_2; [|intros ->; by apply Forall_cons in Hparts as [(? & ? & ?) _]; simplify_eq/=].
  simpl. destruct (existsb _ _) eqn:He; [|done]. exfalso.
  apply existsb_exists in He as (x & Hx & Hb'). apply list_elem_of_In in Hx.
  rewrite Hsplit in Hx. eapply Forall_forall in Hparts as (? & ? & ?); [|exact Hx].
  rewrite !bool_decide_eq_false_2 in Hb' by done. done.
Qed.

Lemma claim_post claimed path : post (λ c, c = path :: claimed ∧ path ∉ claimed) (claim claimed path).
Proof. unfold claim. pguard. by bool_prop. Qed.

(** ** Well-formed plans *)

Definition wf_hunk (h : Hunk) : Prop :=
  length (anchors h) <= MAX_HUNK_ANCHORS ∧ hunk_lines h ≠ []
  ∧ Forall (λ l, line_head l body_marks = true) (hunk_lines h) ∧ changed (hunk_lines h) = true
  ∧ (1 <= patch_line h)%Z.

Definition op_paths (op : Op) : list pystr :=
  match op with
  | AddFile p _ | DeleteFile p | UpdateFile p None _ => [p]
  | UpdateFile p (Some t) _ => [p; t]
  end.

Definition op_hunks (op : Op) : list Hunk :=
  match op with UpdateFile _ _ hs => hs | _ => [] end.

Definition wf_op (op : Op) : Prop :=
  Forall safe_path (op_paths op) ∧ Forall wf_hunk (op_hunks op)
  ∧ match op with UpdateFile _ _ hs => hs ≠ [] | _ => True end.

(** What a plan must be: some operation, no path named twice. *)
Definition wf_plan (ops : list Op) : Prop :=
  ops ≠ [] ∧ Forall wf_op ops ∧ NoDup (ops ≫= op_paths).

(** ** The loops of the parser *)

Section loops.
Context (P : pystr → Prop).

Definition suffix_of (rest lines : list pystr) : Prop := ∃ used, lines = used ++ rest.

Lemma suffix_length rest lines : suffix_of rest lines → length rest <= length lines.
Proof. intros [used ->]. rewrite length_app. lia. Qed.

Lemma suffix_Forall rest lines : suffix_of rest lines → Forall P lines → Forall P rest.
Proof. intros [used ->]. rewrite Forall_app. tauto. Qed.

Lemma suffix_cons l rest lines : suffix_of rest lines → suffix_of rest (l :: lines).
Proof. intros [used ->]. by exists (l :: used). Qed.

Lemma suffix_refl lines : suffix_of lines lines.
Proof. by exists []. Qed.

Lemma suffix_trans l1 l2 l3 : suffix_of l1 l2 → suffix_of l2 l3 → suffix_of l1 l3.
Proof. intros [u1 ->] [u2 ->]. exists (u2 ++ u1). by rewrite app_assoc. Qed.

Lemma suffix_tail l rest lines : suffix_of (l :: rest) lines → suffix_of rest lines.
Proof. apply suffix_trans. by exists [l]. Qed.

#[local] Hint Resolve suffix_refl suffix_cons suffix_tail suffix_trans suffix_Forall : odin.

Lemma added_lines_post path lines index :
  post (λ '(added, rest, _), suffix_of rest lines) (added_lines path lines index).
Proof.
  revert index. induction lines as [|line lines IH]; intros index; cbn [added_lines]; [apply suffix_refl|].
  destruct (operation_header line); [apply suffix_refl|]. pguard.
  eapply post_bind; [apply IH|]. intros [[added rest] i] Hs. simpl. auto with odin.
Qed.

Lemma anchor_chain_post path chain lines index :
  length chain <= MAX_HUNK_ANCHORS →
  post (λ '(chain', rest, _), length chain' <= MAX_HUNK_ANCHORS ∧ suffix_of rest (tail lines))
    (anchor_chain path chain lines index).
Proof.
  revert chain index. induction lines as [|marker rest IH]; intros chain index Hc; cbn [anchor_chain].
  { split; [done|apply suffix_refl]. }
  do 3 pguard.
  match goal with H : negb (_ <=? _) = true |- _ => apply negb_true_iff, Nat.leb_gt in H end.
  assert (length (chain ++ [drop 3 marker]) <= MAX_HUNK_ANCHORS) by (rewrite length_app; simpl; lia).
  destruct rest as [|next rest]; [by split; [|apply suffix_refl]|].
  destruct (startswith NAMED_MARKER next); [|by split; [|apply suffix_refl]].
  eapply post_impl; [by apply IH|]. intros [[? ?] ?] [? ?]. split; [done|]. by apply suffix_cons.
Qed.

Lemma hunk_body_post path lines index :
  post (λ '(body, rest, _), lines = body ++ rest
          ∧ Forall (λ l, line_head l body_marks = true) body) (hunk_body path lines index).
Proof.
  revert index. induction lines as [|line lines IH]; intros index; cbn [hunk_body]; [by split|].
  destruct (operation_header line || startswith MARKER line); [by split|]. pguard.
  eapply post_bind; [apply IH|]. intros [[body rest] i] [-> HF]. split; [done|by constructor].
Qed.

Lemma parse_hunks_post fuel path pending lines index :
  length lines < fuel → length pending <= MAX_HUNK_ANCHORS → Forall P lines →
  post (λ '(hunks, _, rest, _), suffix_of rest lines ∧ Forall wf_hunk hunks
          ∧ Forall (λ h, Forall P (hunk_lines h)) hunks)
    (parse_hunks fuel path pending lines index).
Proof.
  revert pending lines index. induction fuel as [|fuel IH]; intros pending lines index Hf Hp HP; [lia|].
  destruct lines as [|marker rest]; cbn [parse_hunks]; [split_and!; [apply suffix_refl|constructor..]|].
  destruct (operation_header marker); [split_and!; [apply suffix_refl|constructor..]|].
  pguard. simpl in Hf.
  eapply (post_bind (λ '(chain, lines, _), length chain <= MAX_HUNK_ANCHORS ∧ suffix_of lines rest)).
  { destruct (startswith NAMED_MARKER marker); [by apply (anchor_chain_post path pending (marker :: rest))|].
    split; [done|apply suffix_refl]. }
  intros [[chain lines] i] [Hchain Hsuf].
  eapply post_bind; [apply hunk_body_post|]. intros [[body lines'] i'] [Hlines Hbody].
  assert (Hsuf' : suffix_of lines' rest) by (eapply suffix_trans; [|exact Hsuf]; by exists body).
  pose proof (suffix_length _ _ Hsuf').
  assert (HPr : Forall P rest) by by inversion HP.
  assert (HPl : Forall P lines') by eauto using suffix_Forall.
  assert (HPb : Forall P body).
  { pose proof (suffix_Forall _ _ Hsuf HPr) as Hl. rewrite Hlines, Forall_app in Hl. tauto. }
  destruct (negb (bool_decide (body = [])) && negb (changed body) && next_is_marker lines').
  - pguard. eapply post_impl; [apply IH; [lia| |done]|].
    + match goal with H : negb (_ <? _) = true |- _ => apply negb_true_iff, Nat.ltb_ge in H end.
      by rewrite length_app.
    + intros [[[hunks ?] rest'] ?] (Hs & ?). split_and!; [|tauto..]. eauto with odin.
  - pguard. bool_prop.
    eapply post_bind; [apply IH; [lia|simpl; lia|done]|].
    intros [[[hunks ?] rest'] ?] (Hs & Hw & HPh). simpl. split_and!; [eauto with odin| |by constructor].
    constructor; [|done]. split_and!; simpl; [done|done|done|by destruct (changed body)|lia].
Qed.
End loops.

(** ** The operations *)

(** The paths of [ops] are new with respect to [claimed] and distinct. *)
Definition fresh_paths (claimed : list pystr) (ops : list Op) : Prop :=
  NoDup (ops ≫= op_paths) ∧ ∀ p, p ∈ ops ≫= op_paths → p ∉ claimed.

Lemma fresh_paths_cons claimed op ops :
  NoDup (op_paths op) → (∀ p, p ∈ op_paths op → p ∉ claimed) →
  fresh_paths (rev (op_paths op) ++ claimed) ops → fresh_paths claimed (op :: ops).
Proof.
  intros Hop Hclaimed [Hnd Hfresh]. unfold fresh_paths. rewrite bind_cons. split.
  - apply NoDup_app. split_and!; [done| |done].
    intros p Hp Hin. apply (Hfresh p Hin), elem_of_app. left. by rewrite list_elem_of_In, <- in_rev, <- list_elem_of_In.
  - intros p [Hp|Hp]%elem_of_app; [by apply Hclaimed|].
    specialize (Hfresh p Hp). rewrite elem_of_app in Hfresh. tauto.
Qed.

Definition accepted (claimed : list pystr) (ops : list Op) : Prop :=
  Forall wf_op ops ∧ Forall (λ op, Forall hunk_ok (op_hunks op)) ops ∧ fresh_paths claimed ops.

Lemma accepted_nil claimed : accepted claimed [].
Proof. split_and!; [constructor..|]. split; [constructor|]. intros p ?%not_elem_of_nil. done. Qed.

Lemma accepted_cons claimed op ops :
  wf_op op → Forall hunk_ok (op_hunks op) → NoDup (op_paths op) →
  (∀ p, p ∈ op_paths op → p ∉ claimed) →
  accepted (rev (op_paths op) ++ claimed) ops → accepted claimed (op :: ops).
Proof.
  intros ???? (? & ? & ?). split_and!; [by constructor..|by apply fresh_paths_cons].
Qed.

Lemma hunks_ok hunks :
  Forall wf_hunk hunks → Forall (λ h, Forall line_ok (hunk_lines h)) hunks → Forall hunk_ok hunks.
Proof.
  intros H1 H2. eapply Forall_impl; [apply Forall_and; split; [exact H1|exact H2]|].
  intros h [(_ & _ & Hb & _) Hl]. apply Forall_and. done.
Qed.

(** The optional move line of an update. *)
Lemma move_post claimed rest index :
  post (λ '(move_to, claimed', lines, _), suffix_of lines rest
          ∧ match move_to with
            | Some t => safe_path t ∧ t ∉ claimed ∧ claimed' = t :: claimed
            | None => claimed' = claimed
            end)
    match rest with
    | line :: rest' =>
        if startswith MOVE_TO line then
          let! target := relative_path (drop (length MOVE_TO) line) in
          let! claimed := claim claimed target in
          Ok (Some target, claimed, rest', S (S index))
        else Ok (None, claimed, rest, S index)
    | [] => Ok (None, claimed, rest, S index)
    end.
Proof.
  destruct rest as [|line rest']; [by split; [apply suffix_refl|]|].
  destruct (startswith MOVE_TO line); [|by split; [apply suffix_refl|]].
  eapply post_bind; [apply relative_path_post|]. intros t [_ Ht].
  eapply post_bind; [apply claim_post|]. intros c [-> Hc].
  simpl. split_and!; [by exists [line]|done..].
Qed.

Lemma parse_operations_post fuel claimed lines index :
  length lines < fuel → Forall line_ok lines →
  post (accepted claimed) (parse_operations fuel claimed lines index).
Proof.
  revert claimed lines index. induction fuel as [|fuel IH]; intros claimed lines index Hf Hl; [lia|].
  destruct lines as [|header rest]; [apply accepted_nil|]. cbn [parse_operations].
  simpl in Hf. apply Forall_cons in Hl as [_ Hl].
  destruct (startswith ADD_FILE header); [|destruct (startswith DELETE_FILE header);
    [|destruct (startswith UPDATE_FILE header); [|done]]];
    (eapply post_bind; [apply relative_path_post|]; intros path [_ Hpath];
     eapply post_bind; [apply claim_post|]; intros claimed' [-> Hnew]).
  - eapply post_bind; [apply added_lines_post|]. intros [[added lines] i] Hsuf.
    pguard. pose proof (suffix_length _ _ Hsuf).
    eapply post_bind; [apply IH; [lia|exact (suffix_Forall line_ok _ _ Hsuf Hl)]|]. intros ops Hops.
    apply accepted_cons; simpl; [by split_and!; [apply Forall_singleton|constructor|]|done|apply NoDup_singleton| |done].
    by intros p ->%list_elem_of_singleton.
  - pguard. eapply post_bind; [apply IH; [lia|done]|]. intros ops Hops.
    apply accepted_cons; simpl; [by split_and!; [apply Forall_singleton|constructor|]|done|apply NoDup_singleton| |done].
    by intros p ->%list_elem_of_singleton.
  - eapply post_bind; [apply move_post|]. intros [[[move claimed'] lines] i] [Hsuf Hmove].
    pose proof (suffix_length _ _ Hsuf). assert (Hll : Forall line_ok lines) by exact (suffix_Forall line_ok _ _ Hsuf Hl).
    eapply post_bind; [apply (parse_hunks_post line_ok); [lia|simpl; lia|done]|].
    intros [[[hunks pending] lines'] i'] (Hsuf' & Hwf & Hlines). pose proof (suffix_length _ _ Hsuf').
    do 2 pguard. bool_prop.
    eapply post_bind; [apply IH; [lia|exact (suffix_Forall line_ok _ _ Hsuf' Hll)]|]. intros ops Hops.
    apply accepted_cons; simpl.
    + split_and!; [|done|done]. destruct move; simpl; [apply Forall_cons; split; [done|]|];
        apply Forall_singleton; tauto.
    + by apply hunks_ok.
    + destruct move as [t|]; [|apply NoDup_singleton]. destruct Hmove as (_ & Ht & _).
      rewrite not_elem_of_cons in Ht. apply NoDup_cons. split; [set_solver|apply NoDup_singleton].
    + destruct move as [t|]; [|by intros p ->%list_elem_of_singleton].
      destruct Hmove as (_ & Ht & _). rewrite not_elem_of_cons in Ht. intros p. set_solver.
    + destruct move as [t|]; [destruct Hmove as (_ & _ & ->)|subst]; done.
Qed.

Lemma removelast_Forall {A} (Q : A → Prop) l : Forall Q l → Forall Q (removelast l).
Proof.
  intros H. destruct l as [|x l _] using rev_ind; [done|].
  rewrite removelast_last. by apply Forall_app in H as [H _].
Qed.

Lemma split_no_char sep c s : c ∉ s → Forall (λ w, c ∉ w) (split sep s).
Proof.
  induction s as [|d s IH]; intros Hn; simpl; [constructor; [apply not_elem_of_nil|done]|].
  rewrite not_elem_of_cons in Hn. destruct Hn as [Hd Hn]. specialize (IH Hn).
  destruct (Z.eqb d sep); [constructor; [apply not_elem_of_nil|done]|].
  destruct (split sep s) as [|w ws]; [repeat constructor; set_solver|].
  inversion IH; subst. constructor; [set_solver|done].
Qed.

(** The parser's guarantee, shared by the theorems below. *)
Lemma parse_patch_post text :
  post (λ ops, wf_plan ops ∧ Forall (λ op, Forall hunk_ok (op_hunks op)) ops) (parse_patch text).
Proof.
  unfold parse_patch. destruct (utf8_len text) as [size|]; [|done]. do 3 pguard.
  assert (Hl : Forall line_ok (pop_empty (split LF text))).
  { unfold pop_empty. assert (Hs : Forall line_ok (split LF text)).
    { apply Forall_and. split; [apply split_no_char|apply split_no_sep].
      rewrite <- contains_char. bool_prop. congruence. }
    case_match; [|done]. case_match; [|done]. by apply removelast_Forall. }
  eapply post_bind; [apply parse_operations_post; [lia|]|].
  { apply removelast_Forall. destruct (pop_empty _); [done|]. by inversion Hl. }
  intros ops (Hwf & Hok & Hfresh & _). pguard. bool_prop. done.
Qed.

(** C12: the parser always ends, and what it accepts is a safe plan.  Its fuel never
    runs out.  An accepted patch has an operation; every path in it, source or
    target, is relative with no empty, [.] or [..] component and no control
    character; no path is named twice; every update has hunks; and every hunk has
    at most eight anchors, only context, removed and added lines without line
    breaks, at least one of them changed. *)
Theorem parse_patch_sound text :
  match parse_patch text with
  | Ok ops => wf_plan ops ∧ Forall (λ op, Forall hunk_ok (op_hunks op)) ops
  | Err e => e ≠ Unfinished
  end.
Proof. apply parse_patch_post. Qed.

(** ** The host's validation *)

Definition clean_hunk (h : Hunk) : bool := forallb clean_anchor (anchors h).
Definition clean_op (op : Op) : bool := forallb clean_hunk (op_hunks op).

Lemma json_strs_fmap l : json_strs (JStr <$> l) = Some l.
Proof. induction l as [|s l IH]; [done|]. cbn. fold (JStr <$> l). by rewrite IH. Qed.

Lemma validated_hunk_plan h :
  wf_hunk h →
  validated_hunk (plan_of_hunk h) = if clean_hunk h then Ok h else Err Invalid_anchors.
Proof.
  intros (Hlen & Hne & Hb & Hch & Hn). destruct h as [chain body n]. simpl in *.
  unfold validated_hunk, plan_of_hunk.
  change (keys_are _ _) with true. cbn [anchors hunk_lines patch_line].
  change (dict_get _ (lit "anchors")) with (Some (JList (JStr <$> chain))).
  change (dict_get _ (lit "lines")) with (Some (JList (JStr <$> body))).
  change (dict_get _ (lit "patch_line")) with (Some (JInt n)).
  rewrite length_fmap, !json_strs_fmap, bool_decide_eq_false_2 by done.
  assert ((MAX_HUNK_ANCHORS <? length chain)%nat = false) as -> by (apply Nat.ltb_ge; done).
  assert (forallb (λ l, line_head l body_marks) body = true) as -> by by apply forallb_elem.
  assert ((1 <=? n)%Z = true) as -> by by apply Z.leb_le.
  rewrite Hch. unfold clean_hunk. cbn [negb andb anchors]. by destruct (forallb clean_anchor chain).
Qed.

Lemma validated_hunks_plan hs :
  Forall wf_hunk hs →
  validated_hunks (plan_of_hunk <$> hs)
  = if forallb clean_hunk hs then Ok hs else Err Invalid_anchors.
Proof.
  induction 1 as [|h hs Hh HF IH]; [done|]. cbn [fmap list_fmap validated_hunks forallb].
  fold (plan_of_hunk <$> hs). rewrite validated_hunk_plan by done.
  destruct (clean_hunk h); [|done]. cbn [result_bind andb]. fold (plan_of_hunk <$> hs) in IH.
  rewrite IH. by destruct (forallb clean_hunk hs).
Qed.

Lemma claim_fresh claimed p : p ∉ claimed → claim claimed p = Ok (p :: claimed).
Proof. intros H. unfold claim. by rewrite bool_decide_eq_false_2. Qed.

Lemma validated_op_plan claimed op :
  wf_op op → NoDup (op_paths op) → (∀ p, p ∈ op_paths op → p ∉ claimed) →
  validated_op claimed (plan_of_op op)
  = if clean_op op then Ok (op, rev (op_paths op) ++ claimed) else Err Invalid_anchors.
Proof.
  intros (Hpaths & Hhunks & Hne) Hnd Hnew. unfold validated_op, clean_op.
  destruct op as [path content|path|path move hunks]; cbn [plan_of_op op_hunks];
    assert (Hp : relative_path path = Ok path)
      by (apply safe_path_accepted; destruct_or? Hpaths; try destruct move; by inversion Hpaths);
    assert (Hc : claim claimed path = Ok (path :: claimed))
      by (apply claim_fresh, Hnew; try destruct move; simpl; set_solver).
  - change (json_in_strs _ _) with (Some true). cbv iota zeta.
    change (dict_get _ (lit "path")) with (Some (JStr path)). cbn [json_path]. rewrite Hp. cbn [result_bind]. by rewrite Hc.
  - change (json_in_strs _ _) with (Some true). cbv iota zeta.
    change (dict_get _ (lit "path")) with (Some (JStr path)). cbn [json_path]. rewrite Hp. cbn [result_bind]. by rewrite Hc.
  - change (json_in_strs _ _) with (Some true). cbv iota zeta.
    change (dict_get _ (lit "path")) with (Some (JStr path)). cbn [json_path]. rewrite Hp. cbn [result_bind].
    rewrite Hc. cbn [result_bind].
    change (dict_get _ (lit "action")) with (Some (JStr (lit "update"))). cbn [from_option]; unfold id.
    change (bool_decide (lit "update" = lit "add")) with false.
    change (bool_decide (lit "update" = lit "delete")) with false. cbv iota.
    change (keys_are _ _) with true.
    change (dict_get _ (lit "move_to"))
      with (Some (match move with Some m => JStr m | None => JNull end)).
    change (dict_get _ (lit "hunks")) with (Some (JList (plan_of_hunk <$> hunks))).
    assert (Hlen : bool_decide (length (plan_of_hunk <$> hunks) = 0) = false).
    { rewrite length_fmap. apply bool_decide_eq_false. by intros ?%length_zero_iff_nil. }
    destruct move as [t|]; cbv iota; cbn [validated_move json_path].
    + assert (relative_path t = Ok t) as ->.
      { apply safe_path_accepted. apply Forall_cons in Hpaths as [_ [? _]%Forall_cons]. done. }
      cbn [result_bind]. rewrite claim_fresh; [cbn [result_bind]|].
      * rewrite Hlen, validated_hunks_plan by done. by destruct (forallb clean_hunk hunks).
      * simpl in Hnd, Hnew. apply NoDup_cons in Hnd as [Hn _]. specialize (Hnew t). set_solver.
    + cbn [result_bind]. rewrite Hlen, validated_hunks_plan by done.
      by destruct (forallb clean_hunk hunks).
Qed.

Lemma validated_ops_plan claimed ops :
  Forall wf_op ops → fresh_paths claimed ops →
  validated_ops claimed (plan_of_op <$> ops)
  = if forallb clean_op ops then Ok ops else Err Invalid_anchors.
Proof.
  intros HF. revert claimed. induction HF as [|op ops Hop HF IH]; intros claimed [Hnd Hnew]; [done|].
  cbn [fmap list_fmap validated_ops forallb]. fold (plan_of_op <$> ops).
  rewrite bind_cons in Hnd, Hnew. apply NoDup_app in Hnd as (Hnd1 & Hdis & Hnd2).
  rewrite validated_op_plan; [|done..|intros p Hp; apply Hnew; set_solver].
  destruct (clean_op op); [|done]. cbn [result_bind andb]. fold (plan_of_op <$> ops) in IH.
  rewrite IH; [by destruct (forallb clean_op ops)|]. split; [done|].
  intros p Hp [Hin|Hin]%elem_of_app; [|apply (Hnew p); set_solver].
  apply (Hdis p); [|done]. by rewrite list_elem_of_In, in_rev, <- list_elem_of_In.
Qed.

(** the host accepts a parsed plan exactly when its anchors are clean.  The plan
    of an accepted patch, as the host receives it, validates to the same operations
    if every anchor is a non-blank line without control characters, and is refused
    for its anchors otherwise; no other check of the host can fail on it. *)
Theorem host_accepts_clean_plans text :
  match parse_patch text with
  | Ok ops => validated_plan (plan_of ops)
              = if forallb clean_op ops then Ok ops else Err Invalid_anchors
  | Err _ => True
  end.
Proof.
  pose proof (parse_patch_post text) as H. destruct (parse_patch text) as [ops|]; [|done].
  destruct H as ((Hne & Hwf & Hnd) & _). unfold validated_plan, plan_of.
  change (keys_are _ _) with true.
  change (dict_get _ (lit "version")) with (Some (JInt PLAN_VERSION)).
  change (dict_get _ (lit "operations")) with (Some (JList (plan_of_op <$> ops))).
  cbn [andb json_eq_int]. rewrite Z.eqb_refl, length_fmap, bool_decide_eq_false_2;
    [|by intros ?%length_zero_iff_nil].
  apply validated_ops_plan; [done|]. split; [done|]. intros p _. apply not_elem_of_nil.
Qed.

Definition patch_lines (ls : list string) : pystr := mjoin ((λ l, lit l ++ [LF]) <$> ls).

(** The parser accepts plans the host refuses.  Lines of a context-only block
    become anchors unchecked, so a blank context line before the next marker makes
    a patch that parses and whose plan the host rejects. *)
Theorem parser_accepts_refused_plan :
  ∃ text ops, parse_patch text = Ok ops ∧ validated_plan (plan_of ops) = Err Invalid_anchors.
Proof.
  exists (patch_lines ["*** Begin Patch"; "*** Update File: a.py"; "@@"; " def f():"; " ";
                       "@@"; "+    pass"; "*** End Patch"]).
  eexists. split; [vm_compute; reflexivity|vm_compute; reflexivity].
Qed.

(** *** What an arbitrary JSON value must be to be accepted *)

Lemma json_path_post v : post safe_path (json_path v).
Proof.
  unfold json_path. destruct v as [[]|]; try done.
  eapply post_impl; [apply relative_path_post|]. by intros p [_ ?].
Qed.

Lemma json_strs_length vs l : json_strs vs = Some l → length l = length vs.
Proof.
  revert l. induction vs as [|[] vs IH]; intros l; simpl; try done; [by intros [= <-]|].
  destruct (json_strs vs) as [l'|]; simpl; [|done]. intros [= <-]. simpl. by rewrite IH.
Qed.

Lemma validated_hunk_post v : post (λ h, wf_hunk h ∧ clean_hunk h = true) (validated_hunk v).
Proof.
  unfold validated_hunk. destruct v; try done. pguard.
  destruct (dict_get _ _) as [[]|]; try done. pguard.
  destruct (json_strs vs) as [chain|] eqn:Hchain; [|done]. pguard.
  apply json_strs_length in Hchain as Hlen.
  destruct (dict_get _ (lit "lines")) as [[]|]; try done.
  destruct (json_strs vs0) as [body|]; [|done]. pguard.
  destruct (dict_get _ _) as [[]|]; try done. pguard. bool_prop. simpl.
  split; [|done]. split_and!; simpl; [|done|by apply forallb_elem|done|done].
  rewrite Hlen. match goal with H : (_ <? _)%nat = false |- _ => by apply Nat.ltb_ge in H end.
Qed.

Lemma validated_hunks_post vs :
  post (λ hs, Forall wf_hunk hs ∧ forallb clean_hunk hs = true ∧ length hs = length vs)
    (validated_hunks vs).
Proof.
  induction vs as [|v vs IH]; simpl; [by split_and!|].
  eapply post_bind; [apply validated_hunk_post|]. intros h [Hh Hc].
  eapply post_bind; [apply IH|]. intros hs (Hhs & Hcs & Hl). simpl. rewrite Hc, Hcs.
  split_and!; [by constructor|done|lia].
Qed.

Definition validated (claimed : list pystr) (op : Op) (claimed' : list pystr) : Prop :=
  wf_op op ∧ clean_op op = true ∧ NoDup (op_paths op) ∧ (∀ p, p ∈ op_paths op → p ∉ claimed)
  ∧ claimed' = rev (op_paths op) ++ claimed.

Lemma validated_one claimed claimed' op path :
  op_paths op = [path] → op_hunks op = [] → safe_path path → path ∉ claimed →
  claimed' = path :: claimed → match op with UpdateFile _ _ _ => False | _ => True end →
  validated claimed op claimed'.
Proof.
  intros Hp Hh Hs Hn -> Hop. unfold validated, wf_op, clean_op. rewrite Hp, Hh.
  split; [split; [by apply Forall_singleton|split; [constructor|by destruct op]]|].
  split; [done|]. split; [apply NoDup_singleton|]. split; [|done].
  by intros p ->%list_elem_of_singleton.
Qed.

Lemma json_move_post claimed v :
  post (λ '(move, claimed'), match move with
        | Some t => safe_path t ∧ t ∉ claimed ∧ claimed' = t :: claimed
        | None => claimed' = claimed
        end)
    (validated_move claimed v).
Proof.
  unfold validated_move.
  assert (H : post (λ '(move, claimed'), match move with
        | Some t => safe_path t ∧ t ∉ claimed ∧ claimed' = t :: claimed
        | None => claimed' = claimed
        end) (let! target := json_path v in
              let! claimed := claim claimed target in Ok (Some target, claimed))).
  { eapply post_bind; [apply json_path_post|]. intros t Ht.
    eapply post_bind; [apply claim_post|]. intros c [-> Hc]. done. }
  by destruct v as [[]|].
Qed.

Lemma validated_op_post claimed v :
  post (λ '(op, claimed'), validated claimed op claimed') (validated_op claimed v).
Proof.
  unfold validated_op. destruct v; try done.
  destruct (json_in_strs _ _) as [[]|]; try done.
  eapply post_bind; [apply json_path_post|]. intros path Hpath.
  eapply post_bind; [apply claim_post|]. intros claimed1 [-> Hnew].
  destruct (match default JNull _ with JStr a => _ | _ => _ end).
  { pguard. destruct (dict_get _ _) as [[]|]; try done. by eapply validated_one. }
  destruct (match default JNull _ with JStr a => _ | _ => _ end).
  { pguard. by eapply validated_one. }
  pguard. eapply post_bind; [apply json_move_post|].
  intros [move claimed2] Hmove.
  destruct (dict_get _ (lit "hunks")) as [[]|]; try done. pguard. bool_prop.
  eapply post_bind; [apply validated_hunks_post|]. intros hunks (Hh & Hc & Hl). simpl.
  unfold validated, clean_op. cbn [op_hunks op_paths].
  destruct move as [t|]; [destruct Hmove as (Ht & Htn & ->)|subst claimed2];
    rewrite ?not_elem_of_cons in *.
  - split_and!; try done.
    + split_and!; [apply Forall_cons; split; [done|by apply Forall_singleton]|done|].
      intros ->. simpl in *. congruence.
    + apply NoDup_cons. split; [set_solver|apply NoDup_singleton].
    + intros p. set_solver.
  - split_and!; try done.
    + split_and!; [by apply Forall_singleton|done|]. intros ->. simpl in *. congruence.
    + apply NoDup_singleton.
    + by intros p ->%list_elem_of_singleton.
Qed.

Lemma validated_ops_post claimed vs :
  post (λ ops, Forall wf_op ops ∧ forallb clean_op ops = true ∧ fresh_paths claimed ops
               ∧ length ops = length vs) (validated_ops claimed vs).
Proof.
  revert claimed. induction vs as [|v vs IH]; intros claimed; simpl.
  { split_and!; [constructor|done|apply accepted_nil|done]. }
  eapply post_bind; [apply validated_op_post|]. intros [op claimed'] (Hw & Hc & Hnd & Hnew & ->).
  eapply post_bind; [apply IH|]. intros ops (Hws & Hcs & Hfresh & Hl). simpl. rewrite Hc, Hcs.
  split_and!; [by constructor|done|by apply fresh_paths_cons|lia].
Qed.

(** The host's guarantee, shared by the theorems below. *)
Lemma validated_plan_post v : post (λ ops, wf_plan ops ∧ forallb clean_op ops = true) (validated_plan v).
Proof.
  unfold validated_plan. destruct v; try done.
  destruct (keys_are _ _ && _); [|done].
  destruct (dict_get _ _) as [[]|]; try done.
  destruct (negb _) eqn:Hne; [|done]. bool_prop.
  pose proof (validated_ops_post [] vs) as H. destruct (validated_ops [] vs) as [ops|]; [|done].
  destruct H as (Hw & Hc & [Hnd _] & Hl). split; [|done]. split_and!; [|done|done].
  intros ->. simpl in Hl. congruence.
Qed.

(** the host trusts nothing it is sent.  Whatever JSON value arrives as a plan,
    if it is accepted then its operations are a well-formed plan - safe relative
    paths, none named twice, hunks that change something - whose anchors are
    non-blank lines without control characters, eight at most per hunk. *)
Theorem validated_plan_sound v :
  match validated_plan v with
  | Ok ops => wf_plan ops ∧ forallb clean_op ops = true
  | Err e => e ≠ Unfinished
  end.
Proof. apply validated_plan_post. Qed.
