(* ===== verification/PatchFs.v ===== *)
(** * The file system under apply_patch, and UTF-8

    What tools/apply_patch.py asks of the operating system: entries of directories,
    inodes, and the system calls it makes, each a function from the file system to
    the new one and a value or an errno.  Directory and file descriptors are the
    inode they hold, so an open file survives its name.  Names are case-sensitive.
    [stamp] stands for the modification and change times of an inode, which every
    change moves. *)

From S2P Require Import Prelude PyStr.
Open Scope string_scope.
Open Scope list_scope.
Open Scope Z_scope.
Local Open Scope odin_scope.

(** ** UTF-8 *)

Notation bytes := (list Z).

Definition utf8_char (c : Z) : bytes :=
  if c <? 128 then [c]
  else if c <? 2048 then [192 + c / 64; 128 + c mod 64]
  else if c <? 65536 then [224 + c / 4096; 128 + (c / 64) mod 64; 128 + c mod 64]
  else [240 + c / 262144; 128 + (c / 4096) mod 64; 128 + (c / 64) mod 64; 128 + c mod 64].

(** [s.encode("utf-8", errors="strict")] *)
Definition utf8_encode (s : pystr) : option bytes :=
  if existsb surrogate s then None else Some (mjoin (utf8_char <$> s)).

Definition continuation (b : Z) : bool := (128 <=? b) && (b <? 192).

(** [b.decode("utf-8", errors="strict")]: no overlong form, no surrogate, nothing
    above U+10FFFF. *)
Fixpoint utf8_decode (bs : bytes) : option pystr :=
  match bs with
  | [] => Some []
  | a :: bs1 =>
      if (0 <=? a) && (a <? 128) then (a ::.) <$> utf8_decode bs1
      else match bs1 with
      | [] => None
      | b :: bs2 =>
          if negb (continuation b) then None
          else if (194 <=? a) && (a <? 224) then
            (((a - 192) * 64 + (b - 128)) ::.) <$> utf8_decode bs2
          else match bs2 with
          | [] => None
          | c :: bs3 =>
              if negb (continuation c) then None
              else if (224 <=? a) && (a <? 240) then
                let code := (a - 224) * 4096 + (b - 128) * 64 + (c - 128) in
                if (2048 <=? code) && negb (surrogate code)
                then (code ::.) <$> utf8_decode bs3 else None
              else match bs3 with
              | [] => None
              | d :: bs4 =>
                  if negb (continuation d) then None
                  else if (240 <=? a) && (a <? 245) then
                    let code := (a - 240) * 262144 + (b - 128) * 4096 + (c - 128) * 64
                                + (d - 128) in
                    if (65536 <=? code) && (code <=? 1114111)
                    then (code ::.) <$> utf8_decode bs4 else None
                  else None
              end
          end
      end
  end.

(** ** The file system *)

Inductive Content : Type :=
| Dir
| Reg (data : bytes)
| Symlink
| Special.

#[export] Instance Content_eq_dec : EqDecision Content.
Proof. solve_decision. Defined.

Record Inode : Type := {
  content : Content;
  mode : Z;
  uid : Z;
  gid : Z;
  stamp : Z
}.

#[export] Instance Inode_eq_dec : EqDecision Inode.
Proof. solve_decision. Defined.

Record FS : Type := {
  entries : gmap (nat * pystr) nat;
  inodes : gmap nat Inode;
  clock : Z
}.

(** The classes of [OSError] the code tells apart. *)
Inductive Errno : Type :=
| FileNotFound
| FileExists
| OtherOSError.

#[export] Instance Errno_eq_dec : EqDecision Errno.
Proof. solve_decision. Defined.

Definition is_reg (x : Inode) : bool := match content x with Reg _ => true | _ => false end.
Definition is_dir (x : Inode) : bool := bool_decide (content x = Dir).

Definition set_stamp (t : Z) (x : Inode) : Inode :=
  {| content := content x; mode := mode x; uid := uid x; gid := gid x; stamp := t |}.
Definition set_mode (m : Z) (x : Inode) : Inode :=
  {| content := content x; mode := m; uid := uid x; gid := gid x; stamp := stamp x |}.
Definition set_owner (u g : Z) (x : Inode) : Inode :=
  {| content := content x; mode := mode x; uid := u; gid := g; stamp := stamp x |}.
Definition set_data (b : bytes) (x : Inode) : Inode :=
  {| content := Reg b; mode := mode x; uid := uid x; gid := gid x; stamp := stamp x |}.

(** A change of an inode moves its times. *)
Definition change (i : nat) (g : Inode → Inode) (f : FS) : FS :=
  {| entries := entries f;
     inodes := alter (λ x, set_stamp (clock f) (g x)) i (inodes f);
     clock := clock f + 1 |}.

Definition with_entries (es : gmap (nat * pystr) nat) (f : FS) : FS :=
  {| entries := es; inodes := inodes f; clock := clock f |}.

(** A new inode under a name. *)
Definition create (k : nat * pystr) (x : Inode) (f : FS) : FS * nat :=
  let i := fresh (dom (inodes f)) in
  ({| entries := <[k := i]> (entries f); inodes := <[i := set_stamp (clock f) x]> (inodes f);
      clock := clock f + 1 |}, i).

Definition lookup_inode (f : FS) (k : nat * pystr) : option (nat * Inode) :=
  i ← entries f !! k; x ← inodes f !! i; Some (i, x).

(** Some name refers to the inode. *)
Definition linked (f : FS) (i : nat) : bool :=
  bool_decide (i ∈ (map_to_list (entries f)).*2).

(** The names of a directory. *)
Definition names_in (f : FS) (d : nat) : list pystr :=
  omap (λ '((d', n), _), if bool_decide (d' = d) then Some n else None)
    (map_to_list (entries f)).

Definition syscall (A : Type) : Type := FS → result Errno (FS * A).

(** [os.stat(name, dir_fd=.., follow_symlinks=False)]: [None] for no entry. *)
Definition sys_stat (k : nat * pystr) : syscall (option (nat * Inode)) :=
  λ f, Ok (f, lookup_inode f k).

Definition sys_fstat (i : nat) : syscall (Inode * bool) :=
  λ f, match inodes f !! i with Some x => Ok (f, (x, linked f i)) | None => Err OtherOSError end.

(** [O_DIRECTORY | O_NOFOLLOW] *)
Definition sys_open_dir (k : nat * pystr) : syscall nat :=
  λ f, match lookup_inode f k with
       | None => Err FileNotFound
       | Some (i, x) => guard! is_dir x else OtherOSError in Ok (f, i)
       end.

(** [O_RDONLY | O_NOFOLLOW | O_NONBLOCK] *)
Definition sys_open_file (k : nat * pystr) : syscall nat :=
  λ f, match lookup_inode f k with
       | None => Err FileNotFound
       | Some (i, x) =>
           guard! negb (bool_decide (content x = Symlink)) else OtherOSError in Ok (f, i)
       end.

Definition sys_read (i : nat) : syscall bytes :=
  λ f, match content <$> inodes f !! i with
       | Some (Reg data) => Ok (f, data)
       | _ => Err OtherOSError
       end.

(** [O_CREAT | O_EXCL] *)
Definition sys_creat (euid egid : Z) (k : nat * pystr) (m : Z) : syscall nat :=
  λ f, match entries f !! k with
       | Some _ => Err FileExists
       | None => Ok (create k {| content := Reg []; mode := m; uid := euid; gid := egid;
                                 stamp := 0 |} f)
       end.

Definition sys_mkdir (euid egid : Z) (k : nat * pystr) (m : Z) : syscall unit :=
  λ f, match entries f !! k with
       | Some _ => Err FileExists
       | None => Ok (fst (create k {| content := Dir; mode := m; uid := euid; gid := egid;
                                      stamp := 0 |} f), tt)
       end.

(** The whole of [_write_all]; what a failing write left in the file is not kept. *)
Definition sys_write (i : nat) (data : bytes) : syscall unit := λ f, Ok (change i (set_data data) f, tt).
Definition sys_fsync (i : nat) : syscall unit := λ f, Ok (f, tt).
Definition sys_fchmod (i : nat) (m : Z) : syscall unit := λ f, Ok (change i (set_mode m) f, tt).
Definition sys_fchown (i : nat) (u g : Z) : syscall unit :=
  λ f, Ok (change i (set_owner u g) f, tt).

(** [os.chmod(name, m, dir_fd=.., follow_symlinks=False)] *)
Definition sys_chmod (k : nat * pystr) (m : Z) : syscall unit :=
  λ f, match entries f !! k with
       | None => Err FileNotFound
       | Some i => Ok (change i (set_mode m) f, tt)
       end.

(** [renameat2(.., RENAME_NOREPLACE)] *)
Definition sys_rename_noreplace (k k' : nat * pystr) : syscall unit :=
  λ f, match entries f !! k, entries f !! k' with
       | None, _ => Err FileNotFound
       | _, Some _ => Err FileExists
       | Some i, None =>
           Ok (change i id (with_entries (<[k' := i]> (delete k (entries f))) f), tt)
       end.

Definition sys_unlink (k : nat * pystr) : syscall unit :=
  λ f, match lookup_inode f k with
       | None => Err FileNotFound
       | Some (i, x) =>
           guard! negb (is_dir x) else OtherOSError in
           Ok (change i id (with_entries (delete k (entries f)) f), tt)
       end.

Definition sys_rmdir (k : nat * pystr) : syscall unit :=
  λ f, match lookup_inode f k with
       | None => Err FileNotFound
       | Some (i, x) =>
           guard! is_dir x && bool_decide (names_in f i = []) else OtherOSError in
           Ok (with_entries (delete k (entries f)) f, tt)
       end.

Definition sys_listdir (d : nat) : syscall (list pystr) := λ f, Ok (f, names_in f d).
