(* ===== verification/PatchTxn.v ===== *)
(** * The apply_patch transaction (src/src/tools/apply_patch.py, from _DirectoryRegistry on)

    The host's side of apply_patch after the plan is validated: it reads every
    source, derives every new content, creates the missing parents, stages the new
    files under private names, commits by no-replace renames and, on any exception,
    rolls back.  A program is a function from the world to the new world and a value
    or an exception, so that what was done before an exception stays done.

    [fault n] decides the [n]-th system call: it may fail without effect, and a
    rename may also fail after its effect or be unsupported.  [token n] is the
    [n]-th [secrets.token_hex(16)].  The Python objects the code mutates (the items
    of [prepared] with their stages and recovery slots, the directory registry, the
    flags of [apply_plan]) are fields of the world; [stages] is the stages of the
    items, in order.  Closing descriptors has no effect here. *)

From S2P Require Import Prelude PyStr Patch PatchFs.
Open Scope string_scope.
Open Scope list_scope.
Open Scope Z_scope.
Local Open Scope odin_scope.

(** ** Data *)

Inductive Fault : Type :=
| Fine
| Refused
| RefusedAfter
| Unsupported.

(** Exceptions: those of the plan and of the rewriting, those of the system, and those
    of the transaction by their message (before, during or after is left out). *)
Inductive Raised : Type :=
| Plan (e : PatchError)
| OSErr (e : Errno)
| UnicodeEncodeError
| KeyError
| Root_invalid
| Parent_missing (path : pystr)
| Parent_invalid (path : pystr)
| No_private_name
| Stage_not_dir (label : pystr)
| Created_changed (label : pystr)
| File_missing (path : pystr)
| Not_regular (path : pystr)
| Changed_while_read (path : pystr)
| Source_not_utf8 (path : pystr)
| Add_exists (path : pystr)
| Move_exists (path : pystr)
| Parents_changed
| Target_changed (path : pystr)
| Source_changed (path : pystr)
| Destination_changed (path : pystr)
| Rename_unsupported
| Committed_uncleaned
| Rolled_back (original : Raised)
| PatchRollbackError (original : Raised) (failures artifacts : list pystr).

Record Endpoint : Type := {
  parent_fd : nat;
  name : pystr;
  parent_label : pystr
}.

Definition entry_key (e : Endpoint) : nat * pystr := (parent_fd e, name e).

Record Fingerprint : Type := {
  f_ino : nat; f_size : option nat; f_stamp : Z; f_mode : Z; f_uid : Z; f_gid : Z
}.

#[export] Instance Fingerprint_eq_dec : EqDecision Fingerprint.
Proof. solve_decision. Defined.

Record Snapshot : Type := {
  s_fd : nat;
  s_data : bytes;
  s_fingerprint : Fingerprint;
  s_mode : Z;
  s_uid : Z;
  s_gid : Z
}.

(** A stage or a recovery slot; a slot holds no descriptor. *)
Record Artifact : Type := {
  a_fd : option nat;
  a_at : Endpoint;
  a_label : pystr;
  named : bool
}.

(** An element of [prepared]. *)
Record Item : Type := {
  it_op : Op;
  source : option Endpoint;
  destination : option Endpoint;
  snapshot : option Snapshot;
  new : option bytes;
  it_mode : Z;
  it_uid : Z;
  it_gid : Z;
  stage : option Artifact;
  recovery : option Artifact
}.

Record Created : Type := {
  c_at : nat * pystr;
  c_label : pystr;
  c_expected : nat
}.

(** What the transaction reads and writes. *)
Record State : Type := {
  fs : FS;
  fds : gmap (list pystr) nat;
  created : list Created;
  items : list Item;
  committed : list nat;
  preserve : bool;
  keep : bool
}.

(** With the number of system calls made and of tokens drawn. *)
Record World : Type := {
  state : State;
  tick : nat;
  draws : nat
}.

Definition op_path (op : Op) : pystr :=
  match op with AddFile p _ | DeleteFile p | UpdateFile p _ _ => p end.

Definition op_move (op : Op) : option pystr :=
  match op with UpdateFile _ m _ => m | _ => None end.

(** [item.get("move_to") or item["path"]] *)
Definition target_path (op : Op) : pystr := default (op_path op) (op_move op).

(** ** Field updates *)

Definition set_fs (f : FS) (c : State) : State :=
  {| fs := f; fds := fds c; created := created c; items := items c;
     committed := committed c; preserve := preserve c; keep := keep c |}.
Definition set_fd (p : list pystr) (d : nat) (c : State) : State :=
  {| fs := fs c; fds := <[p := d]> (fds c); created := created c; items := items c;
     committed := committed c; preserve := preserve c; keep := keep c |}.
Definition set_created (cs : list Created) (c : State) : State :=
  {| fs := fs c; fds := fds c; created := cs; items := items c;
     committed := committed c; preserve := preserve c; keep := keep c |}.
Definition set_items (its : list Item) (c : State) : State :=
  {| fs := fs c; fds := fds c; created := created c; items := its;
     committed := committed c; preserve := preserve c; keep := keep c |}.
Definition set_committed (ks : list nat) (c : State) : State :=
  {| fs := fs c; fds := fds c; created := created c; items := items c;
     committed := ks; preserve := preserve c; keep := keep c |}.
Definition set_flags (p k : bool) (c : State) : State :=
  {| fs := fs c; fds := fds c; created := created c; items := items c;
     committed := committed c; preserve := p; keep := k |}.

Definition next_tick (c : State) (w : World) : World :=
  {| state := c; tick := S (tick w); draws := draws w |}.

Definition set_named (b : bool) (a : Artifact) : Artifact :=
  {| a_fd := a_fd a; a_at := a_at a; a_label := a_label a; named := b |}.

Definition set_endpoints (s d : option Endpoint) (it : Item) : Item :=
  {| it_op := it_op it; source := s; destination := d; snapshot := snapshot it; new := new it;
     it_mode := it_mode it; it_uid := it_uid it; it_gid := it_gid it;
     stage := stage it; recovery := recovery it |}.
Definition set_stage (a : option Artifact) (it : Item) : Item :=
  {| it_op := it_op it; source := source it; destination := destination it;
     snapshot := snapshot it; new := new it; it_mode := it_mode it; it_uid := it_uid it;
     it_gid := it_gid it; stage := a; recovery := recovery it |}.
Definition set_recovery (a : option Artifact) (it : Item) : Item :=
  {| it_op := it_op it; source := source it; destination := destination it;
     snapshot := snapshot it; new := new it; it_mode := it_mode it; it_uid := it_uid it;
     it_gid := it_gid it; stage := stage it; recovery := a |}.

(** ** Programs *)

Definition M (A : Type) : Type := World → World * (A + Raised).

#[global] Instance M_ret : MRet M := λ A a w, (w, inl a).
#[global] Instance M_bind : MBind M := λ A B k m w,
  match m w with
  | (w', inl a) => k a w'
  | (w', inr e) => (w', inr e)
  end.

Definition raise {A} (e : Raised) : M A := λ w, (w, inr e).

(** [try: m  except BaseException as e: h(e)] *)
Definition catch {A} (m : M A) (h : Raised → M A) : M A := λ w,
  match m w with
  | (w', inr e) => h e w'
  | r => r
  end.

(** [try: m  except OSError as e: h(e)] *)
Definition catch_os {A} (m : M A) (h : Errno → M A) : M A :=
  catch m (λ e, match e with OSErr e => h e | _ => raise e end).

(** [try: m  finally: f] *)
Definition finally {A} (m : M A) (f : M unit) : M A := λ w,
  let '(w', r) := m w in
  match f w' with
  | (w'', inl _) => (w'', r)
  | (w'', inr e) => (w'', inr e)
  end.

Definition gets {A} (f : State → A) : M A := λ w, (w, inl (f (state w))).
Definition modify (f : State → State) : M unit :=
  λ w, ({| state := f (state w); tick := tick w; draws := draws w |}, inl tt).
Definition check_that (b : bool) (e : Raised) : M unit := if b then mret tt else raise e.

(** A lookup of the code's own data that cannot miss. *)
Definition some {A} (o : option A) : M A :=
  match o with Some a => mret a | None => raise KeyError end.

Fixpoint for_each {A} (xs : list A) (body : A → M unit) : M unit :=
  match xs with
  | [] => mret tt
  | x :: xs => body x ≫= λ _, for_each xs body
  end.

(** [for x in xs: out.extend(body(x))] *)
Fixpoint collect {A B} (xs : list A) (body : A → M (list B)) : M (list B) :=
  match xs with
  | [] => mret []
  | x :: xs => ys ← body x; zs ← collect xs body; mret (ys ++ zs)
  end.

Section transaction.
Context (fault : nat → Fault) (token : nat → pystr) (euid egid : Z) (root_value : pystr).

(** ** System calls of the program *)

Definition call {A} (sys : syscall A) : M A := λ w,
  let c := state w in
  match fault (tick w) with
  | Fine =>
      match sys (fs c) with
      | Ok (f, a) => (next_tick (set_fs f c) w, inl a)
      | Err e => (next_tick c w, inr (OSErr e))
      end
  | _ => (next_tick c w, inr (OSErr OtherOSError))
  end.

(** [_rename_noreplace], or the wrapper injected for it. *)
Definition rename_noreplace (k k' : nat * pystr) : M unit := λ w,
  let c := state w in
  match fault (tick w) with
  | Refused => (next_tick c w, inr (OSErr OtherOSError))
  | Unsupported => (next_tick c w, inr Rename_unsupported)
  | flt =>
      match sys_rename_noreplace k k' (fs c) with
      | Err e => (next_tick c w, inr (OSErr e))
      | Ok (f, _) =>
          (next_tick (set_fs f c) w,
           match flt with Fine => inl tt | _ => inr (OSErr OtherOSError) end)
      end
  end.

Definition durable_rename_noreplace (k k' : nat * pystr) : M unit :=
  rename_noreplace k k' ≫= λ _,
  call (sys_fsync k'.1) ≫= λ _,
  if bool_decide (k.1 = k'.1) then mret tt else call (sys_fsync k.1).

Definition entry_info (k : nat * pystr) : M (option (nat * Inode)) := call (sys_stat k).

Definition entry_missing (k : nat * pystr) : M bool :=
  o ← entry_info k; mret (bool_decide (o = None)).

Definition draw : M pystr :=
  λ w, ({| state := state w; tick := tick w; draws := S (draws w) |}, inl (token (draws w))).

Definition private (prefix : string) (t : pystr) : pystr := lit prefix ++ t.

Definition display (parent_label n : pystr) : pystr :=
  let relative := if nonempty parent_label then parent_label ++ SLASH :: n else n in
  if bool_decide (root_value = [SLASH]) then SLASH :: relative
  else root_value ++ SLASH :: relative.

Definition get_item (k : nat) : M Item := o ← gets (λ c, items c !! k); some o.
Definition update_item (k : nat) (g : Item → Item) : M unit :=
  modify (λ c, set_items (alter g k (items c)) c).

(** ** Directories *)

Definition get_fd (prefix : list pystr) : M nat := o ← gets (λ c, fds c !! prefix); some o.

(** [created_directories_attached] *)
Fixpoint attached (cs : list Created) : M bool :=
  match cs with
  | [] => mret true
  | c :: cs =>
      current ← entry_info (c_at c);
      match current with
      | None => mret false
      | Some (i, x) =>
          if is_dir x && bool_decide (i = c_expected c) then attached cs else mret false
      end
  end.

Definition created_directories_attached : M bool := cs ← gets created; attached cs.

(** One of the loops that pick an unpredictable name: [attempt] is what a name is
    used for, [None] asks for another. *)
Fixpoint allocate {A} (tries : nat) (prefix : string) (attempt : pystr → M (option A)) : M A :=
  match tries with
  | O => raise No_private_name
  | S tries =>
      t ← draw;
      o ← attempt (private prefix t);
      match o with
      | Some a => mret a
      | None => allocate tries prefix attempt
      end
  end.

Definition unless_exists {A} (m : M A) : M (option A) :=
  catch (a ← m; mret (Some a))
    (λ e, match e with OSErr FileExists => mret None | _ => raise e end).

(** [published = True], the record, and the registry entry. *)
Definition publish_directory (child : list pystr) (at_ : nat * pystr) (fd : nat) : M unit :=
  modify (λ c, set_fd child fd
    (set_created (created c ++ [{| c_at := at_; c_label := join SLASH child;
                                   c_expected := fd |}]) c)).

(** The handler of the publishing rename in [_create_directory]. *)
Definition directory_rename_failed (child : list pystr) (d : nat) (n stage_name : pystr)
    (fd : nat) (original : Raised) : M nat :=
  let stage_label := display (join SLASH (removelast child)) stage_name in
  target ← entry_info (d, n);
  if match target with Some (i, _) => bool_decide (i = fd) | None => false end then
    publish_directory child (d, n) fd ≫= λ _, call (sys_fsync d) ≫= λ _, raise original
  else
    '(_, is_linked) ← call (sys_fstat fd);
    gone ← (if bool_decide (target = None) then entry_missing (d, stage_name) else mret false);
    if (gone : bool) && (is_linked : bool) then
      publish_directory child (d, n) fd ≫= λ _, call (sys_fsync d) ≫= λ _, raise original
    else
      failures ← catch_os (call (sys_rmdir (d, stage_name)) ≫= λ _, call (sys_fsync d) ≫= λ _,
                           mret []) (λ _, mret [stage_label]);
      check_that (bool_decide (failures = []))
        (PatchRollbackError original failures [stage_label]) ≫= λ _,
      match original with
      | OSErr FileExists =>
          catch_os (call (sys_open_dir (d, n))) (λ _, raise (Parent_invalid (join SLASH child)))
      | _ => raise original
      end.

(** [_create_directory]; [published] is that the record was appended. *)
Definition create_directory (prefix child : list pystr) (n : pystr) : M nat :=
  d ← get_fd prefix;
  stage_name ← allocate 128 ".odin-patch-dir-" (λ stage_name,
    unless_exists (call (sys_mkdir euid egid (d, stage_name) 448) ≫= λ _, mret stage_name));
  let stage_label := display (join SLASH prefix) stage_name in
  before ← gets (λ c, length (created c));
  catch
    (fd ← call (sys_open_dir (d, stage_name));
     '(staged, _) ← call (sys_fstat fd);
     check_that (is_dir staged) (Stage_not_dir stage_label) ≫= λ _,
     call (sys_fchmod fd 493) ≫= λ _,
     call (sys_fsync fd) ≫= λ _,
     renamed ← catch (durable_rename_noreplace (d, stage_name) (d, n) ≫= λ _, mret None)
                 (λ original, i ← directory_rename_failed child d n stage_name fd original;
                              mret (Some i));
     match renamed with
     | Some existing_fd => mret existing_fd
     | None =>
         publish_directory child (d, n) fd ≫= λ _,
         target ← entry_info (d, n);
         check_that (match target with Some (i, _) => bool_decide (i = fd) | None => false end)
           (Created_changed (join SLASH child)) ≫= λ _,
         mret fd
     end)
    (λ original,
      after ← gets (λ c, length (created c));
      (if bool_decide (after = before) then
         catch_os
           (gone ← entry_missing (d, stage_name);
            if gone : bool then mret tt
            else call (sys_rmdir (d, stage_name)) ≫= λ _, call (sys_fsync d))
           (λ _, raise (PatchRollbackError original [stage_label] [stage_label]))
       else mret tt) ≫= λ _,
      raise original).

(** The loop of [parent] and [existing_parent] over the components before the last;
    [missing] handles an absent one. *)
Fixpoint descend (missing : list pystr → list pystr → pystr → M (option nat))
    (relative : pystr) (prefix parts : list pystr) : M (option nat) :=
  match parts with
  | [] => d ← get_fd prefix; mret (Some d)
  | part :: parts =>
      let child := prefix ++ [part] in
      known ← gets (λ c, fds c !! child);
      match known with
      | Some _ => descend missing relative child parts
      | None =>
          d ← get_fd prefix;
          opened ← catch (i ← call (sys_open_dir (d, part)); mret (Some i))
            (λ e, match e with
                  | OSErr FileNotFound => missing prefix child part
                  | OSErr _ => raise (Parent_invalid relative)
                  | _ => raise e
                  end);
          match opened with
          | None => mret None
          | Some i => modify (set_fd child i) ≫= λ _, descend missing relative child parts
          end
      end
  end.

Definition endpoint (parts : list pystr) (d : nat) : Endpoint :=
  {| parent_fd := d; name := default [] (last parts);
     parent_label := join SLASH (removelast parts) |}.

(** [existing_parent] *)
Definition existing_parent (relative : pystr) : M (option Endpoint) :=
  let parts := posix_parts relative in
  o ← descend (λ _ _ _, mret None) relative [] (removelast parts);
  mret (endpoint parts <$> o).

(** [parent(relative, create_missing=True)] *)
Definition parent_created (relative : pystr) : M Endpoint :=
  let parts := posix_parts relative in
  o ← descend (λ prefix child part, i ← create_directory prefix child part; mret (Some i))
        relative [] (removelast parts);
  d ← some o;
  mret (endpoint parts d).

(** [rollback_created] *)
Definition rollback_created_one (c : Created) : M (list pystr) :=
  catch_os
    (current ← entry_info (c_at c);
     match current with
     | None =>
         catch_os ('(_, is_linked) ← call (sys_fstat (c_expected c));
                   mret (if is_linked : bool then [c_label c] else []))
           (λ _, mret [c_label c])
     | Some (i, x) =>
         if negb (is_dir x && bool_decide (i = c_expected c)) then mret [c_label c]
         else call (sys_rmdir (c_at c)) ≫= λ _, call (sys_fsync (c_at c).1) ≫= λ _, mret []
     end)
    (λ _, mret [c_label c]).

Definition rollback_created : M (list pystr) :=
  cs ← gets created;
  failures ← collect (rev cs) rollback_created_one;
  modify (set_created []) ≫= λ _,
  mret failures.

(** ** Snapshots *)

Definition size_of (x : Inode) : option nat :=
  match content x with Reg data => Some (length data) | _ => None end.

Definition fingerprint (i : nat) (x : Inode) : Fingerprint :=
  {| f_ino := i; f_size := size_of x; f_stamp := stamp x; f_mode := mode x;
     f_uid := uid x; f_gid := gid x |}.

(** [_open_regular_at] *)
Definition open_regular_at (k : nat * pystr) (relative : pystr) : M Snapshot :=
  fd ← catch_os (call (sys_open_file k))
         (λ e, raise (match e with FileNotFound => File_missing relative
                               | _ => Not_regular relative end));
  '(before, _) ← call (sys_fstat fd);
  check_that (is_reg before) (Not_regular relative) ≫= λ _,
  data ← call (sys_read fd);
  '(after, _) ← call (sys_fstat fd);
  check_that (bool_decide (fingerprint fd before = fingerprint fd after))
    (Changed_while_read relative) ≫= λ _,
  mret {| s_fd := fd; s_data := data; s_fingerprint := fingerprint fd after;
          s_mode := mode after; s_uid := uid after; s_gid := gid after |}.

(** [_same_inode_as_fd] *)
Definition same_inode_as_fd (k : nat * pystr) (fd : nat) : M bool :=
  current ← entry_info k;
  match current with
  | None => mret false
  | Some (i, x) =>
      catch_os (call (sys_fstat fd) ≫= λ _, mret (is_reg x && bool_decide (i = fd)))
        (λ _, mret false)
  end.

Fixpoint filter_m {A} (p : A → M bool) (xs : list A) : M (list A) :=
  match xs with
  | [] => mret []
  | x :: xs => b ← p x; ys ← filter_m p xs; mret (if b : bool then x :: ys else ys)
  end.

(** [_move_destination_available]: the answer, and the source with the spelling it
    captures. *)
Definition move_destination_available (src dst : Endpoint) (s : Snapshot) (capture : bool)
    : M (bool * Endpoint) :=
  missing ← entry_missing (entry_key dst);
  if missing : bool then mret (true, src)
  else
    same ← same_inode_as_fd (entry_key dst) (s_fd s);
    if negb same then mret (false, src)
    else
      call (sys_fstat (parent_fd src)) ≫= λ _,
      call (sys_fstat (parent_fd dst)) ≫= λ _,
      if negb (bool_decide (parent_fd src = parent_fd dst)) then mret (false, src)
      else
        names ← call (sys_listdir (parent_fd dst));
        originals ← filter_m (λ n, same_inode_as_fd (parent_fd src, n) (s_fd s)) names;
        match originals with
        | [original] =>
            let src := if capture && negb (bool_decide (name src ∈ names))
                       then {| parent_fd := parent_fd src; name := original;
                               parent_label := parent_label src |}
                       else src in
            mret (bool_decide (name dst = name src) || negb (bool_decide (name dst ∈ names)), src)
        | _ => mret (false, src)
        end.

(** [_path_matches_snapshot] *)
Definition path_matches_snapshot (k : nat * pystr) (s : Snapshot) : M bool :=
  same ← same_inode_as_fd k (s_fd s);
  if negb same then mret false
  else
    catch_os
      ('(before, _) ← call (sys_fstat (s_fd s));
       data ← call (sys_read (s_fd s));
       '(after, _) ← call (sys_fstat (s_fd s));
       mret (bool_decide (fingerprint (s_fd s) before = fingerprint (s_fd s) after)
             && bool_decide (fingerprint (s_fd s) after = s_fingerprint s)
             && bool_decide (data = s_data s)))
      (λ _, mret false).

(** ** Artifacts *)

Inductive Ref : Type := StageOf (k : nat) | RecoveryOf (k : nat).

Definition artifact_of (r : Ref) (its : list Item) : option Artifact :=
  match r with
  | StageOf k => its !! k ≫= stage
  | RecoveryOf k => its !! k ≫= recovery
  end.

Definition set_ref_named (r : Ref) (b : bool) : M unit :=
  match r with
  | StageOf k => update_item k (λ it, set_stage (set_named b <$> stage it) it)
  | RecoveryOf k => update_item k (λ it, set_recovery (set_named b <$> recovery it) it)
  end.

Definition indices (c : State) : list nat := seq 0 (length (items c)).

(** [stages], and [[item["recovery"] for item in prepared if item.get("recovery")]]. *)
Definition stage_refs (c : State) : list Ref :=
  omap (λ k, (λ _, StageOf k) <$> (items c !! k ≫= stage)) (indices c).
Definition recovery_refs (c : State) : list Ref :=
  omap (λ k, (λ _, RecoveryOf k) <$> (items c !! k ≫= recovery)) (indices c).

(** [_private_temp] *)
Definition private_temp (at_ : Endpoint) (data : bytes) (u g : Z) : M Artifact :=
  let d := parent_fd at_ in
  '(n, fd) ← allocate 128 ".odin-patch-stage-" (λ n,
    unless_exists (fd ← call (sys_creat euid egid (d, n) 384); mret (n, fd)));
  let label := display (parent_label at_) n in
  catch
    (call (sys_fchmod fd 384) ≫= λ _,
     call (sys_write fd data) ≫= λ _,
     call (sys_fsync fd) ≫= λ _,
     '(current, _) ← call (sys_fstat fd);
     (if bool_decide (uid current = u) && bool_decide (gid current = g) then mret tt
      else call (sys_fchown fd u g)) ≫= λ _,
     call (sys_fchmod fd 384))
    (λ original,
      catch_os (call (sys_unlink (d, n)))
        (λ _, raise (PatchRollbackError original [label] [label])) ≫= λ _,
      raise original) ≫= λ _,
  mret {| a_fd := Some fd;
          a_at := {| parent_fd := d; name := n; parent_label := parent_label at_ |};
          a_label := label; named := true |}.

(** [_new_recovery_slot] *)
Definition new_recovery_slot (at_ : Endpoint) : M Artifact :=
  allocate 128 ".odin-patch-recovery-" (λ n,
    missing ← entry_missing (parent_fd at_, n);
    mret (if missing : bool then
            Some {| a_fd := None;
                    a_at := {| parent_fd := parent_fd at_; name := n;
                               parent_label := parent_label at_ |};
                    a_label := display (parent_label at_) n; named := false |}
          else None)).

(** One step of [_artifact_paths]: [_artifact_exists], then made private. *)
Definition artifact_path (r : Ref) : M (list pystr) :=
  o ← gets (λ c, artifact_of r (items c));
  match o with
  | None => mret []
  | Some a =>
      if negb (named a) then mret []
      else
        missing ← entry_missing (entry_key (a_at a));
        if missing : bool then mret []
        else
          info ← entry_info (entry_key (a_at a));
          match info with
          | Some (_, x) =>
              if is_reg x then call (sys_chmod (entry_key (a_at a)) 384) ≫= λ _, mret [a_label a]
              else mret []
          | None => mret []
          end
  end.

Definition artifact_paths : M (list pystr) :=
  rs ← gets (λ c, recovery_refs c ++ stage_refs c);
  collect rs artifact_path.

(** [_cleanup_named]: the labels of what could not be removed. *)
Definition cleanup_one (r : Ref) : M (list pystr) :=
  o ← gets (λ c, artifact_of r (items c));
  match o with
  | None => mret []
  | Some a =>
      if negb (named a) then mret []
      else
        catch_os
          (call (sys_unlink (entry_key (a_at a))) ≫= λ _, set_ref_named r false ≫= λ _, mret [])
          (λ _, mret [a_label a])
  end.

Definition cleanup_named (rs : list Ref) : M (list pystr) := collect rs cleanup_one.

(** ** The phases of [apply_plan] *)

Definition append_item (it : Item) : M unit := modify (λ c, set_items (items c ++ [it]) c).

Definition from_plan {A} (r : result PatchError A) : M A :=
  match r with Ok a => mret a | Err e => raise (Plan e) end.

Definition encoded (s : pystr) : M bytes :=
  match utf8_encode s with Some b => mret b | None => raise UnicodeEncodeError end.

(** The endpoints of an update: the source, and the destination unless its parent
    is missing. *)
Definition update_endpoints (src : Endpoint) (s : Snapshot) (move_to : option pystr)
    : M (Endpoint * option Endpoint) :=
  match move_to with
  | None => mret (src, Some src)
  | Some target =>
      existing ← existing_parent target;
      match existing with
      | None => mret (src, None)
      | Some dst =>
          '(available, src) ← move_destination_available src dst s true;
          check_that available (Move_exists target) ≫= λ _,
          mret (src, Some dst)
      end
  end.

(** The semantic phase: nothing is written. *)
Definition prepare (op : Op) : M unit :=
  existing ← existing_parent (op_path op);
  match op with
  | AddFile path content =>
      match existing with
      | Some e => missing ← entry_missing (entry_key e); check_that missing (Add_exists path)
      | None => mret tt
      end ≫= λ _,
      data ← encoded content;
      append_item {| it_op := op; source := existing; destination := existing;
                     snapshot := None; new := Some data; it_mode := 420; it_uid := euid;
                     it_gid := egid; stage := None; recovery := None |}
  | _ =>
      match existing with
      | None => raise (Parent_missing (op_path op))
      | Some src =>
          s ← open_regular_at (entry_key src) (op_path op);
          '(data, ends) ←
            match op with
            | UpdateFile path move_to hunks =>
                text ← match utf8_decode (s_data s) with
                       | Some text => mret text
                       | None => raise (Source_not_utf8 path)
                       end;
                text' ← from_plan (apply_hunks text hunks);
                data ← encoded text';
                ends ← update_endpoints src s move_to;
                mret (Some data, ends)
            | _ => mret (None, (src, None))
            end;
          append_item {| it_op := op; source := Some ends.1; destination := ends.2;
                         snapshot := Some s; new := data; it_mode := s_mode s;
                         it_uid := s_uid s; it_gid := s_gid s; stage := None;
                         recovery := None |}
      end
  end.

(** Only the destinations of adds and moves may create parents. *)
Definition make_parents (k : nat) : M unit :=
  it ← get_item k;
  match it_op it, source it, destination it with
  | AddFile path _, None, _ =>
      e ← parent_created path; update_item k (set_endpoints (Some e) (Some e))
  | UpdateFile _ move_to _, src, None =>
      target ← some move_to;
      e ← parent_created target;
      update_item k (set_endpoints src (Some e))
  | _, _, _ => mret tt
  end.

Definition stage_item (k : nat) : M unit :=
  it ← get_item k;
  match new it with
  | None => mret tt
  | Some data =>
      dst ← some (destination it);
      a ← private_temp dst data (it_uid it) (it_gid it);
      update_item k (set_stage (Some a))
  end.

Definition attached_or (e : Raised) : M unit :=
  ok ← created_directories_attached; check_that ok e.

(** What is checked after staging and again before each commit. *)
Definition validate_item (k : nat) : M unit :=
  attached_or Parents_changed ≫= λ _,
  it ← get_item k;
  src ← some (source it);
  match snapshot it with
  | None => missing ← entry_missing (entry_key src);
            check_that missing (Target_changed (op_path (it_op it)))
  | Some s =>
      same ← path_matches_snapshot (entry_key src) s;
      check_that same (Source_changed (op_path (it_op it))) ≫= λ _,
      match op_move (it_op it), destination it with
      | Some target, Some dst =>
          '(available, _) ← move_destination_available src dst s false;
          check_that available (Destination_changed target)
      | _, _ => mret tt
      end
  end.

(** [finally: x["named"] = not _entry_missing(..)] *)
Definition note_named (r : Ref) (k : nat * pystr) : M unit :=
  missing ← entry_missing k; set_ref_named r (negb missing).

(** The source goes to its recovery slot. *)
Definition retire_source (k : nat) (src : Endpoint) (s : Snapshot) (path : pystr) : M unit :=
  slot ← new_recovery_slot src;
  update_item k (set_recovery (Some slot)) ≫= λ _,
  call (sys_fchmod (s_fd s) 384) ≫= λ _,
  finally (durable_rename_noreplace (entry_key src) (entry_key (a_at slot)))
    (note_named (RecoveryOf k) (entry_key (a_at slot))) ≫= λ _,
  same ← same_inode_as_fd (entry_key (a_at slot)) (s_fd s);
  check_that same (Source_changed path).

(** The stage goes to its destination. *)
Definition publish_stage (k : nat) (a : Artifact) (dst : Endpoint) (m : Z) (path : pystr)
    : M unit :=
  fd ← some (a_fd a);
  finally (durable_rename_noreplace (entry_key (a_at a)) (entry_key dst))
    (note_named (StageOf k) (entry_key (a_at a))) ≫= λ _,
  same ← same_inode_as_fd (entry_key dst) fd;
  check_that same (Destination_changed path) ≫= λ _,
  call (sys_fchmod fd m).

Definition commit_item (k : nat) : M unit :=
  validate_item k ≫= λ _,
  modify (λ c, set_committed (committed c ++ [k]) c) ≫= λ _,
  it ← get_item k;
  src ← some (source it);
  match snapshot it with
  | Some s => retire_source k src s (op_path (it_op it))
  | None => mret tt
  end ≫= λ _,
  match stage it with
  | Some a =>
      dst ← some (destination it);
      publish_stage k a dst (it_mode it) (target_path (it_op it))
  | None => mret tt
  end ≫= λ _,
  attached_or Parents_changed.

(** [_rollback_record], in its two halves: the published destination, then the
    retired source.  Each catches everything. *)
Definition rollback_destination (k : nat) (it : Item) : M (list pystr) :=
  let failed := [op_path (it_op it)] in
  match stage it with
  | None => mret []
  | Some a =>
      if named a then mret []
      else
        catch
          (dst ← some (destination it);
           fd ← some (a_fd a);
           same ← same_inode_as_fd (entry_key dst) fd;
           if same : bool then
             call (sys_unlink (entry_key dst)) ≫= λ _, set_ref_named (StageOf k) false ≫= λ _,
             mret []
           else
             missing ← entry_missing (entry_key dst);
             mret (if missing : bool then [] else failed))
          (λ _, mret failed)
  end.

Definition rollback_source (k : nat) (it : Item) : M (list pystr) :=
  let failed := [op_path (it_op it)] in
  match snapshot it with
  | None => mret []
  | Some s =>
      catch
        (src ← some (source it);
         same ← same_inode_as_fd (entry_key src) (s_fd s);
         if same : bool then
           call (sys_fchmod (s_fd s) (s_mode s)) ≫= λ _, set_ref_named (RecoveryOf k) false ≫= λ _,
           mret []
         else
           match recovery it with
           | Some slot =>
               if negb (named slot) then mret failed
               else
                 missing ← entry_missing (entry_key src);
                 if negb missing then mret failed
                 else
                   call (sys_fchmod (s_fd s) (s_mode s)) ≫= λ _,
                   durable_rename_noreplace (entry_key (a_at slot)) (entry_key src) ≫= λ _,
                   set_ref_named (RecoveryOf k) false ≫= λ _,
                   mret []
           | None => mret failed
           end)
        (λ _, mret failed)
  end.

Definition rollback_record (k : nat) : M (list pystr) :=
  it ← get_item k;
  fs1 ← rollback_destination k it;
  fs2 ← rollback_source k it;
  mret (fs1 ++ fs2).

(** [preserve_artifacts = True], then the report. *)
Definition preserve_and_report {A} (original : Raised) (failures : list pystr) : M A :=
  modify (λ c, set_flags true (keep c) c) ≫= λ _,
  artifacts ← artifact_paths;
  raise (PatchRollbackError original failures artifacts).

Definition commit_failed (original : Raised) : M unit :=
  ks ← gets committed;
  failures ← collect (rev ks) rollback_record;
  if negb (bool_decide (failures = [])) then preserve_and_report original failures
  else
    rs ← gets stage_refs;
    cleanup ← cleanup_named rs;
    if negb (bool_decide (cleanup = [])) then preserve_and_report original cleanup
    else raise (Rolled_back original).

Definition restore_mode (k : nat) : M unit :=
  it ← get_item k;
  match snapshot it, recovery it with
  | Some s, Some _ => catch_os (call (sys_fchmod (s_fd s) (s_mode s))) (λ _, mret tt)
  | _, _ => mret tt
  end.

(** The [try] of [apply_plan], from the semantic phase to the last check. *)
Definition transaction (ops : list Op) : M unit :=
  for_each ops prepare ≫= λ _,
  ks ← gets indices;
  for_each ks make_parents ≫= λ _,
  attached_or Parents_changed ≫= λ _,
  for_each ks stage_item ≫= λ _,
  for_each ks validate_item ≫= λ _,
  catch (for_each ks commit_item) commit_failed ≫= λ _,
  rs ← gets (λ c, recovery_refs c ++ stage_refs c);
  cleanup ← cleanup_named rs;
  (if negb (bool_decide (cleanup = [])) then preserve_and_report Committed_uncleaned cleanup else mret tt)
    ≫= λ _,
  for_each ks restore_mode ≫= λ _,
  attached_or Parents_changed ≫= λ _,
  modify (λ c, set_flags (preserve c) true c).

(** The [except BaseException] around it. *)
Definition abandon {A} (original : Raised) : M A :=
  kept ← gets preserve;
  (if kept : bool then mret tt
   else
     rs ← gets (λ c, recovery_refs c ++ stage_refs c);
     cleanup ← cleanup_named rs;
     directories ← rollback_created;
     if bool_decide (cleanup ++ directories = []) then mret tt
     else
       retained ← artifact_paths;
       raise (PatchRollbackError original (cleanup ++ directories) retained)) ≫= λ _,
  raise original.

(** And its [finally]. *)
Definition release : M unit :=
  c ← gets id;
  (if preserve c then mret []
   else cleanup_named (recovery_refs c ++ stage_refs c)) ≫= λ _,
  (if negb (keep c) && negb (preserve c) then rollback_created else mret []) ≫= λ _,
  mret tt.

Definition report (op : Op) : pystr :=
  match op_move op with
  | None => op_path op
  | Some target => op_path op ++ lit " -> " ++ target
  end.

Definition apply_validated (ops : list Op) : M (list pystr) :=
  finally (catch (transaction ops) abandon) release ≫= λ _,
  mret (report <$> ops).

Definition initial (root : nat) (f : FS) : World :=
  {| state := {| fs := f; fds := {[ [] := root ]}; created := []; items := [];
                 committed := []; preserve := false; keep := false |};
     tick := 0; draws := 0 |}.

(** [apply_plan(root, plan)]; [root] is the directory the root path opens as. *)
Definition apply_plan (root : option nat) (plan : Json) (f : FS)
    : World * (list pystr + Raised) :=
  match validated_plan plan, root with
  | Err e, _ => (initial 0 f, inr (Plan e))
  | Ok _, None => (initial 0 f, inr Root_invalid)
  | Ok ops, Some root => apply_validated ops (initial root f)
  end.

End transaction.
