(* ===== verification/PatchLogic.v ===== *)
(** * A program logic for the apply_patch transaction

    [wp m Q R c]: from state [c], whatever system calls fail and whatever tokens are
    drawn, the program [m] ends in a state of [Q] with its value or in one of [R]
    with its exception.  The rules for the combinators come first, then those for
    the system calls and the reading parts of the program. *)

From S2P Require Import Prelude PyStr Patch PatchFs PatchTxn.
Open Scope string_scope.
Open Scope list_scope.
Open Scope Z_scope.

Definition wp {A} (m : M A) (Q : A → State → Prop) (R : Raised → State → Prop) (c : State) : Prop :=
  ∀ w, state w = c →
    match m w with
    | (w', inl a) => Q a (state w')
    | (w', inr e) => R e (state w')
    end.

Section rules.
Context {A B : Type}.
Implicit Types (m : M A) (k : A → M B) (R : Raised → State → Prop) (c : State).

Lemma wp_mono m (Q Q' : A → State → Prop) R R' c :
  wp m Q R c → (∀ a c, Q a c → Q' a c) → (∀ e c, R e c → R' e c) → wp m Q' R' c.
Proof. intros Hm HQ HR w Hw. specialize (Hm w Hw). destruct (m w) as [w' []]; auto. Qed.

Lemma wp_ret (Q : A → State → Prop) R c a : Q a c → wp (mret a) Q R c.
Proof. by intros HQ w <-. Qed.

Lemma wp_raise (Q : A → State → Prop) R c e : R e c → wp (raise e) Q R c.
Proof. by intros HR w <-. Qed.

Lemma wp_bind m k Q R c : wp m (λ a, wp (k a) Q R) R c → wp (m ≫= k) Q R c.
Proof.
  intros Hm w Hw. unfold mbind, M_bind. specialize (Hm w Hw).
  destruct (m w) as [w' [a|e]]; [|done]. by apply Hm.
Qed.

Lemma wp_catch m h (Q : A → State → Prop) R c :
  wp m Q (λ e, wp (h e) Q R) c → wp (catch m h) Q R c.
Proof.
  intros Hm w Hw. unfold catch. specialize (Hm w Hw).
  destruct (m w) as [w' [a|e]]; [done|]. by apply Hm.
Qed.

Lemma wp_catch_os m h (Q : A → State → Prop) R c :
  wp m Q (λ e c, match e with OSErr x => wp (h x) Q R c | _ => R e c end) c →
  wp (catch_os m h) Q R c.
Proof.
  intros Hm. apply wp_catch. eapply wp_mono; [exact Hm|done|].
  intros []; auto using wp_raise.
Qed.

Lemma wp_finally m f (Q : A → State → Prop) R c :
  wp m (λ a, wp f (λ _, Q a) R) (λ e, wp f (λ _, R e) R) c → wp (finally m f) Q R c.
Proof.
  intros Hm w Hw. unfold finally. specialize (Hm w Hw).
  destruct (m w) as [w' [a|e]]; specialize (Hm w' eq_refl);
    by destruct (f w') as [w'' [[]|e']].
Qed.

Lemma wp_gets (f : State → A) (Q : A → State → Prop) R c : Q (f c) c → wp (gets f) Q R c.
Proof. by intros HQ w <-. Qed.

Lemma wp_modify (f : State → State) (Q : unit → State → Prop) R c :
  Q tt (f c) → wp (modify f) Q R c.
Proof. by intros HQ w <-. Qed.

Lemma wp_some (o : option A) (Q : A → State → Prop) R c :
  (∀ a, o = Some a → Q a c) → (o = None → R KeyError c) → wp (some o) Q R c.
Proof. destruct o; intros; [apply wp_ret|apply wp_raise]; auto. Qed.

Lemma wp_if (b : bool) m1 m2 (Q : A → State → Prop) R c :
  (b = true → wp m1 Q R c) → (b = false → wp m2 Q R c) → wp (if b then m1 else m2) Q R c.
Proof. destruct b; auto. Qed.
End rules.

Lemma wp_check b e (Q : unit → State → Prop) R c :
  (b = true → Q tt c) → (b = false → R e c) → wp (check_that b e) Q R c.
Proof. destruct b; intros; [apply wp_ret|apply wp_raise]; auto. Qed.

(** A loop: [I xs] holds when [xs] is left to do. *)
Lemma wp_for_each {A} (xs : list A) (body : A → M unit) (I : list A → State → Prop) R c :
  I xs c →
  (∀ x ys c, I (x :: ys) c → wp (body x) (λ _, I ys) R c) →
  wp (for_each xs body) (λ _, I []) R c.
Proof.
  intros HI Hstep. revert c HI. induction xs as [|x xs IH]; intros c HI; simpl.
  - by apply wp_ret.
  - apply wp_bind. eapply wp_mono; [by apply Hstep| |done]. intros [] c'. apply IH.
Qed.

(** A loop over [range(n)]. *)
Lemma wp_for_range (body : nat → M unit) (I : nat → State → Prop) R n c :
  I 0%nat c →
  (∀ k c, (k < n)%nat → I k c → wp (body k) (λ _, I (S k)) R c) →
  wp (for_each (seq 0 n) body) (λ _, I n) R c.
Proof.
  intros HI Hstep.
  eapply wp_mono; [apply (wp_for_each _ _ (λ rest c, ∃ k, (k <= n)%nat ∧ rest = seq k (n - k) ∧ I k c))
                  | |by intros e c' Hc'; exact Hc'].
  - exists 0%nat. rewrite Nat.sub_0_r. split_and!; [lia|done|done].
  - intros x ys c' (k & Hk & Heq & HI').
    destruct (n - k)%nat as [|m] eqn:Hm; [done|]. injection Heq as -> ->.
    eapply wp_mono; [apply Hstep; [lia|done]| |done]. intros [] c'' HI''.
    exists (S k). split_and!; [lia|f_equal; lia|done].
  - intros [] c' (k & Hk & Heq & HI'). destruct (n - k)%nat eqn:Hm; [|done].
    by assert (k = n) as -> by lia.
Qed.

(** A loop that gathers failures: [I xs ok] holds when [xs] is left to do and [ok]
    says that nothing has failed yet. *)
Lemma wp_collect {A B} (xs : list A) (body : A → M (list B)) (I : list A → bool → State → Prop)
    R c ok :
  I xs ok c →
  (∀ x ys ok c, I (x :: ys) ok c →
     wp (body x) (λ zs, I ys (ok && bool_decide (zs = []))) R c) →
  wp (collect xs body) (λ zs, I [] (ok && bool_decide (zs = []))) R c.
Proof.
  intros HI Hstep. revert ok c HI. induction xs as [|x xs IH]; intros ok c HI; simpl.
  - apply wp_ret. by rewrite andb_true_r.
  - apply wp_bind. eapply wp_mono; [by apply Hstep| |done]. intros ys c' HI'. cbv beta in HI'.
    apply wp_bind. eapply wp_mono; [by apply IH| |done]. intros zs c'' HI''. apply wp_ret.
    replace (bool_decide (ys ++ zs = [])) with (bool_decide (ys = []) && bool_decide (zs = []))
      by (by destruct ys, zs).
    by rewrite andb_assoc.
Qed.

Lemma set_fs_same c : set_fs (fs c) c = c.
Proof. by destruct c. Qed.

Lemma lookup_inode_Some f k i x :
  lookup_inode f k = Some (i, x) ↔ entries f !! k = Some i ∧ inodes f !! i = Some x.
Proof.
  unfold lookup_inode. destruct (entries f !! k) as [j|]; simpl; [|naive_solver].
  destruct (inodes f !! j) eqn:E; simpl; naive_solver.
Qed.

(** What the writing system calls did when they succeeded. *)
Lemma rename_Ok k k' f f' :
  sys_rename_noreplace k k' f = Ok (f', tt) →
  ∃ i, entries f !! k = Some i ∧ entries f !! k' = None ∧
    f' = change i id (with_entries (<[k' := i]> (delete k (entries f))) f).
Proof.
  unfold sys_rename_noreplace. destruct (entries f !! k) as [i|]; [|done].
  destruct (entries f !! k'); [done|]. intros [= <-]. eauto.
Qed.

Lemma unlink_Ok k f f' :
  sys_unlink k f = Ok (f', tt) →
  ∃ i x, lookup_inode f k = Some (i, x) ∧ is_dir x = false ∧
    f' = change i id (with_entries (delete k (entries f)) f).
Proof.
  unfold sys_unlink. destruct (lookup_inode f k) as [[i x]|]; [|done].
  destruct (is_dir x) eqn:E; [done|]. intros [= <-]. eauto.
Qed.

Lemma rmdir_Ok k f f' :
  sys_rmdir k f = Ok (f', tt) →
  ∃ i x, lookup_inode f k = Some (i, x) ∧ is_dir x = true ∧ names_in f i = [] ∧
    f' = with_entries (delete k (entries f)) f.
Proof.
  unfold sys_rmdir. destruct (lookup_inode f k) as [[i x]|]; [|done].
  destruct (is_dir x && _) eqn:E; [|done]. intros [= <-]. bool_prop. eauto 6.
Qed.

(** ** Paths *)

(** The directory a list of components leads to. *)
Fixpoint walk (f : FS) (d : nat) (parts : list pystr) : option nat :=
  match parts with
  | [] => Some d
  | n :: parts =>
      match lookup_inode f (d, n) with
      | Some (i, x) => if is_dir x then walk f i parts else None
      | None => None
      end
  end.

Definition dir_at (f : FS) (d : nat) (n : pystr) (i : nat) : Prop :=
  ∃ x, lookup_inode f (d, n) = Some (i, x) ∧ is_dir x = true.

Lemma walk_snoc f d parts n i :
  walk f d (parts ++ [n]) = Some i ↔ ∃ d', walk f d parts = Some d' ∧ dir_at f d' n i.
Proof.
  revert d. induction parts as [|m parts IH]; intros d; simpl.
  - unfold dir_at. split.
    + destruct (lookup_inode f (d, n)) as [[j x]|] eqn:E; [|done].
      destruct (is_dir x) eqn:Ed; [|done]. intros [= <-]. eauto.
    + intros (d' & [= <-] & x & -> & ->). done.
  - destruct (lookup_inode f (d, m)) as [[j x]|]; [|split; [done|by intros (? & ? & _)]].
    destruct (is_dir x); [apply IH|]. split; [done|by intros (? & ? & _)].
Qed.

Definition set_fds (m : gmap (list pystr) nat) (c : State) : State :=
  {| fs := fs c; fds := m; created := created c; items := items c;
     committed := committed c; preserve := preserve c; keep := keep c |}.

(** The registry of open directories is right. *)
Definition fds_ok (root : nat) (c : State) : Prop :=
  ∀ p d, fds c !! p = Some d → walk (fs c) root p = Some d.

(** An endpoint is where a relative path says. *)
Definition at_path (root : nat) (f : FS) (relative : pystr) (e : Endpoint) : Prop :=
  walk f root (removelast (posix_parts relative)) = Some (parent_fd e) ∧
  name e = default [] (last (posix_parts relative)).

Lemma fds_ok_insert root c p i :
  fds_ok root c → walk (fs c) root p = Some i → fds_ok root (set_fd p i c).
Proof.
  intros Hok Hp p' d. simpl. intros [[<- <-]|[? ?]]%lookup_insert_Some; auto.
Qed.

(** ** System calls *)

Section calls.
Context (fault : nat → Fault) (token : nat → pystr) (euid egid : Z) (root_value : pystr).
Implicit Types (R : Raised → State → Prop) (c : State).

Lemma wp_call {A} (sys : syscall A) (Q : A → State → Prop) R c :
  (∀ f a, sys (fs c) = Ok (f, a) → Q a (set_fs f c)) → (∀ e, R (OSErr e) c) →
  wp (call fault sys) Q R c.
Proof.
  intros HQ HR w <-. unfold call. destruct (fault (tick w)); simpl; try apply HR.
  destruct (sys (fs (state w))) as [[f a]|e]; simpl; auto.
Qed.

(** A system call that only reads. *)
Definition reads {A} (sys : syscall A) : Prop := ∀ f f' a, sys f = Ok (f', a) → f' = f.

Lemma wp_read {A} (sys : syscall A) (Q : A → State → Prop) R c :
  reads sys → (∀ a, sys (fs c) = Ok (fs c, a) → Q a c) → (∀ e, R (OSErr e) c) →
  wp (call fault sys) Q R c.
Proof.
  intros Hr HQ HR. apply wp_call; [|done]. intros f a Hs.
  pose proof (Hr _ _ _ Hs) as ->. rewrite set_fs_same. auto.
Qed.

Lemma wp_rename k k' (Q : unit → State → Prop) R c :
  (∀ f, sys_rename_noreplace k k' (fs c) = Ok (f, tt) → Q tt (set_fs f c)) →
  (∀ f e, sys_rename_noreplace k k' (fs c) = Ok (f, tt) → R (OSErr e) (set_fs f c)) →
  (∀ e, R (OSErr e) c) → R Rename_unsupported c →
  wp (rename_noreplace fault k k') Q R c.
Proof.
  intros HQ HRa HR HU w <-. unfold rename_noreplace.
  destruct (fault (tick w)); simpl; try done;
    destruct (sys_rename_noreplace _ _ _) as [[f []]|e] eqn:E; simpl; auto.
Qed.

Lemma wp_durable_rename k k' (Q : unit → State → Prop) R c :
  (∀ f, sys_rename_noreplace k k' (fs c) = Ok (f, tt) → Q tt (set_fs f c)) →
  (∀ f e, sys_rename_noreplace k k' (fs c) = Ok (f, tt) → R (OSErr e) (set_fs f c)) →
  (∀ e, R (OSErr e) c) → R Rename_unsupported c →
  wp (durable_rename_noreplace fault k k') Q R c.
Proof.
  intros HQ HRa HR HU. unfold durable_rename_noreplace. apply wp_bind.
  assert (Hf : ∀ i f, reads (sys_fsync i) ∧ sys_fsync i f = Ok (f, tt)).
  { split; [|done]. by intros f1 f' [] [= ->]. }
  apply wp_rename; [|auto..]. intros f Hs. apply wp_bind.
  apply wp_read; [apply (Hf _ (fs c))|..]; [|eauto]. intros [] _.
  apply wp_if; intros _; [apply wp_ret; auto|].
  apply wp_read; [apply (Hf _ (fs c))|..]; [|eauto]. intros []; auto.
Qed.

Lemma wp_draw (Q : pystr → State → Prop) R c :
  (∀ n, Q (token n) c) → wp (draw token) Q R c.
Proof. intros HQ w <-. apply HQ. Qed.

Lemma wp_allocate {A} tries prefix (attempt : pystr → M (option A)) (I : State → Prop)
    (Q : A → State → Prop) R c :
  I c →
  (∀ n c, I c → wp (attempt (private prefix (token n)))
     (λ o c', match o with Some a => Q a c' | None => I c' end) R c) →
  (∀ e c, I c → R e c) → wp (allocate token tries prefix attempt) Q R c.
Proof.
  intros HI Hstep HR. revert c HI. induction tries as [|tries IH]; intros c HI; simpl.
  { by apply wp_raise, HR. }
  apply wp_bind, wp_draw. intros n. apply wp_bind.
  eapply wp_mono; [by apply Hstep| |done].
  intros [a|] c' Hc'; [by apply wp_ret|by apply IH].
Qed.

Lemma wp_unless_exists {A} (m : M A) (Q : option A → State → Prop) R c :
  wp m (λ a, Q (Some a)) (λ e c', match e with OSErr FileExists => Q None c' | _ => R e c' end) c →
  wp (unless_exists m) Q R c.
Proof.
  intros Hm. apply wp_catch, wp_bind. eapply wp_mono; [exact Hm| |].
  - intros a c' Hc'. by apply wp_ret.
  - intros e c' Hc'. destruct e; try by apply wp_raise.
    destruct e; [by apply wp_raise|by apply wp_ret|by apply wp_raise].
Qed.

(** ** The parts of the program that only read *)

Lemma wp_entry_info k (Q : option (nat * Inode) → State → Prop) R c :
  Q (lookup_inode (fs c) k) c → (∀ e, R (OSErr e) c) → wp (entry_info fault k) Q R c.
Proof.
  intros HQ HR. apply wp_read; [by intros f f' a [= -> _]| |done]. by intros a [= <-].
Qed.

Lemma wp_entry_missing k (Q : bool → State → Prop) R c :
  Q (bool_decide (lookup_inode (fs c) k = None)) c → (∀ e, R (OSErr e) c) →
  wp (entry_missing fault k) Q R c.
Proof. intros HQ HR. apply wp_bind, wp_entry_info; [by apply wp_ret|done]. Qed.

Lemma wp_fstat i (Q : Inode * bool → State → Prop) R c :
  (∀ x, inodes (fs c) !! i = Some x → Q (x, linked (fs c) i) c) → (∀ e, R (OSErr e) c) →
  wp (call fault (sys_fstat i)) Q R c.
Proof.
  intros HQ HR. apply wp_read; [| |done]; unfold sys_fstat.
  - intros f f' a. destruct (inodes f !! i); [|done]. by intros [= ->].
  - intros a. destruct (inodes (fs c) !! i) eqn:E; [|done]. intros [= <-]. auto.
Qed.

Lemma wp_sys_read i (Q : bytes → State → Prop) R c :
  (∀ x data, inodes (fs c) !! i = Some x → content x = Reg data → Q data c) →
  (∀ e, R (OSErr e) c) → wp (call fault (sys_read i)) Q R c.
Proof.
  intros HQ HR. apply wp_read; [| |done]; unfold sys_read.
  - intros f f' a. destruct (inodes f !! i) as [x|]; simpl; [|done].
    destruct (content x); try done. by intros [= ->].
  - intros a. destruct (inodes (fs c) !! i) as [x|] eqn:E; simpl; [|done].
    destruct (content x) eqn:Ec; try done. intros [= <-]. eauto.
Qed.

Lemma wp_fsync i (Q : unit → State → Prop) R c :
  Q tt c → (∀ e, R (OSErr e) c) → wp (call fault (sys_fsync i)) Q R c.
Proof. intros HQ HR. apply wp_read; [by intros f f' [] [= ->]| |done]. by intros []. Qed.

Lemma wp_attached cs (Q : bool → State → Prop) R c :
  (∀ b, (b = false → ∃ cr, cr ∈ cs ∧ ∀ x, lookup_inode (fs c) (c_at cr) = Some (c_expected cr, x) →
           is_dir x = false) → Q b c) →
  (∀ e, R (OSErr e) c) → wp (attached fault cs) Q R c.
Proof.
  intros HQ HR. induction cs as [|cr cs IH]; simpl; [by apply wp_ret, HQ|].
  apply wp_bind, wp_entry_info; [|done].
  destruct (lookup_inode (fs c) (c_at cr)) as [[i x]|] eqn:E.
  - apply wp_if; intros Hb.
    + apply IH. intros b Hf. apply HQ. intros ->. destruct Hf as (cr' & Hin & ?); [done|].
      exists cr'. split; [by right|done].
    + apply wp_ret, HQ. intros _. exists cr. split; [left|]. rewrite E. intros x0 [= -> ->].
      by rewrite (bool_decide_eq_true_2 (c_expected cr = c_expected cr)), andb_true_r in Hb.
  - apply wp_ret, HQ. intros _. exists cr. split; [left|]. by rewrite E.
Qed.

Lemma wp_same_inode k fd (Q : bool → State → Prop) R c :
  (∀ b, (b = true → ∃ x, lookup_inode (fs c) k = Some (fd, x) ∧ is_reg x = true) → Q b c) →
  (∀ e, R (OSErr e) c) → wp (same_inode_as_fd fault k fd) Q R c.
Proof.
  intros HQ HR. apply wp_bind, wp_entry_info; [|done].
  destruct (lookup_inode (fs c) k) as [[i x]|]; [|by apply wp_ret, HQ].
  apply wp_catch_os, wp_bind, wp_fstat; [|by intros e; apply wp_ret, HQ].
  intros y _. apply wp_ret, HQ. intros [Hx ->%bool_decide_eq_true]%andb_true_iff. eauto.
Qed.

(** The state of a source as its snapshot recorded it. *)
Definition snapped (f : FS) (k : nat * pystr) (s : Snapshot) : Prop :=
  ∃ x, lookup_inode f k = Some (s_fd s, x) ∧ content x = Reg (s_data s) ∧
    fingerprint (s_fd s) x = s_fingerprint s.

Lemma wp_path_matches k s (Q : bool → State → Prop) R c :
  (∀ b, (b = true → snapped (fs c) k s) → Q b c) → (∀ e, R (OSErr e) c) →
  wp (path_matches_snapshot fault k s) Q R c.
Proof.
  intros HQ HR. apply wp_bind, wp_same_inode; [|done]. intros b Hb.
  apply wp_if; intros Hn; [by apply wp_ret, HQ|].
  destruct b; [|done]. destruct (Hb eq_refl) as (x & Hx & _).
  pose proof Hx as [_ Hi]%lookup_inode_Some.
  apply wp_catch_os, wp_bind, wp_fstat; [|by intros e; apply wp_ret, HQ].
  intros x1 Hx1. apply wp_bind, wp_sys_read; [|by intros e; apply wp_ret, HQ].
  intros x2 data Hx2 Hd. apply wp_bind, wp_fstat; [|by intros e; apply wp_ret, HQ].
  intros x3 Hx3. simplify_eq. apply wp_ret, HQ. intros Ht. bool_prop.
  exists x. split_and!; [done|congruence|done].
Qed.

Lemma wp_open_regular k relative (Q : Snapshot → State → Prop) R c :
  (∀ s, snapped (fs c) k s → s_mode s = f_mode (s_fingerprint s) →
     s_uid s = f_uid (s_fingerprint s) → s_gid s = f_gid (s_fingerprint s) → Q s c) →
  (∀ e, R e c) → wp (open_regular_at fault k relative) Q R c.
Proof.
  intros HQ HR. apply wp_bind, wp_catch_os.
  apply wp_read; [| |by intros e; apply wp_raise].
  { intros f f' a. unfold sys_open_file. destruct (lookup_inode f k) as [[i x]|]; [|done].
    destruct (negb _); [|done]. by intros [= ->]. }
  intros fd Ho. unfold sys_open_file in Ho.
  destruct (lookup_inode (fs c) k) as [[i x]|] eqn:Hx; [|done].
  destruct (negb _); [|done]. injection Ho as <-. pose proof Hx as [_ Hi]%lookup_inode_Some.
  apply wp_bind, wp_fstat; [|done]. intros x1 Hx1. simplify_eq.
  apply wp_bind, wp_check; [|done]. intros _. apply wp_bind, wp_sys_read; [|done].
  intros x2 data Hx2 Hd. simplify_eq. apply wp_bind, wp_fstat; [|done]. intros x3 Hx3. simplify_eq.
  apply wp_bind, wp_check; [|done]. intros _. apply wp_ret, HQ; [|done..].
  exists x. simpl. done.
Qed.

Lemma wp_filter_m {A} (p : A → M bool) xs (Q : list A → State → Prop) R c :
  (∀ x, wp (p x) (λ b c', c' = c) (λ _ c', c' = c) c) →
  (∀ ys, Q ys c) → (∀ e, R e c) → wp (filter_m p xs) Q R c.
Proof.
  intros Hp HQ HR. revert Q HQ. induction xs as [|x xs IH]; intros Q HQ; simpl; [by apply wp_ret|].
  apply wp_bind. eapply wp_mono; [apply Hp| |by intros e c' ->]. intros b c' ->.
  apply wp_bind, IH. intros ys. by apply wp_ret.
Qed.

(** On a case-sensitive file system a destination is available only when it is
    missing: a name of its own cannot be an alias of the source. *)
Lemma wp_move_available src dst s capture (Q : bool * Endpoint → State → Prop) R c :
  is_Some (lookup_inode (fs c) (entry_key src)) → entry_key src ≠ entry_key dst →
  (lookup_inode (fs c) (entry_key dst) = None → Q (true, src) c) →
  (∀ src', Q (false, src') c) → (∀ e, R e c) →
  wp (move_destination_available fault src dst s capture) Q R c.
Proof.
  intros Hsrc Hne HT HF HR. apply wp_bind, wp_entry_missing; [|done]. apply wp_if; intros Hm.
  { bool_prop. by apply wp_ret, HT. }
  apply wp_bind, wp_same_inode; [|done]. intros b Hb. apply wp_if; intros Hn; [by apply wp_ret|].
  destruct b; [|done]. destruct (Hb eq_refl) as (x & Hx & _).
  apply wp_bind, wp_fstat; [|done]. intros x1 _. apply wp_bind, wp_fstat; [|done]. intros x2 _.
  apply wp_if; intros Hp; [by apply wp_ret|]. bool_prop.
  apply wp_bind, wp_read; [by intros f f' a [= -> _]| |done]. intros names [= <-].
  apply wp_bind, wp_filter_m; [| |done].
  { intros n. by apply wp_same_inode. }
  intros originals.
  destruct originals as [|original [|? ?]]; try by apply wp_ret.
  assert (Hin : ∀ e, is_Some (lookup_inode (fs c) (entry_key e)) → parent_fd e = parent_fd dst →
                name e ∈ names_in (fs c) (parent_fd dst)).
  { intros e [[i y] [Hi _]%lookup_inode_Some] He. unfold names_in. apply list_elem_of_omap.
    exists (entry_key e, i). split; [by apply elem_of_map_to_list|]. unfold entry_key.
    rewrite bool_decide_eq_true_2; done. }
  rewrite (bool_decide_eq_true_2 (name src ∈ _)) by auto. rewrite andb_false_r. simpl.
  rewrite (bool_decide_eq_true_2 (name dst ∈ _)) by eauto.
  rewrite bool_decide_eq_false_2; [by apply wp_ret|].
  intros Heq. apply Hne. unfold entry_key. congruence.
Qed.

(** The walk over the parents of a path. *)
Lemma wp_descend root missing relative (I : State → Prop) R :
  (∀ c, I c → fds_ok root c) →
  (∀ c p i, I c → walk (fs c) root p = Some i → I (set_fd p i c)) →
  (∀ prefix part c d, I c → fds c !! prefix = Some d →
     wp (missing prefix (prefix ++ [part]) part)
       (λ o c', I c' ∧ ∀ i, o = Some i → walk (fs c') root (prefix ++ [part]) = Some i) R c) →
  (∀ c e, I c → R e c) →
  ∀ parts prefix c, I c →
  wp (descend fault missing relative prefix parts)
    (λ o c', I c' ∧ ∀ d, o = Some d → walk (fs c') root (prefix ++ parts) = Some d) R c.
Proof.
  intros Hok Hset Hmiss HR parts. induction parts as [|part parts IH]; intros prefix c HI; simpl.
  { apply wp_bind, wp_bind, wp_gets, wp_some; [|by auto].
    intros d Hd. apply wp_ret. split; [done|]. intros ? [= <-]. rewrite app_nil_r. by apply Hok. }
  assert (Hnext : ∀ c', I c' →
    wp (descend fault missing relative (prefix ++ [part]) parts)
      (λ o c', I c' ∧ ∀ d, o = Some d → walk (fs c') root (prefix ++ part :: parts) = Some d) R c').
  { intros c' HI'. specialize (IH (prefix ++ [part]) c' HI').
    by rewrite <- app_assoc in IH. }
  apply wp_bind, wp_gets. destruct (fds c !! (prefix ++ [part])); [by apply Hnext|].
  apply wp_bind, wp_bind, wp_gets, wp_some; [|by auto]. intros d Hd.
  apply wp_bind. eapply (wp_mono _ (λ o c', I c' ∧ ∀ i, o = Some i →
    walk (fs c') root (prefix ++ [part]) = Some i)); [| |by intros e c' Hc'; exact Hc'].
  - apply wp_catch, wp_bind, wp_read.
    { intros f f' a. unfold sys_open_dir. destruct (lookup_inode f _) as [[i x]|]; [|done].
      destruct (is_dir x); [|done]. by intros [= ->]. }
    + intros i Ho. unfold sys_open_dir in Ho.
      destruct (lookup_inode (fs c) (d, part)) as [[j x]|] eqn:Hx; [|done].
      destruct (is_dir x) eqn:Hdir; [|done]. injection Ho as <-.
      apply wp_ret. split; [done|]. intros ? [= <-]. apply walk_snoc. exists d.
      split; [by apply (Hok c)|]. by exists x.
    + intros []; [by apply Hmiss with d|apply wp_raise; auto..].
  - intros [i|] c' [HI' Hi]; [|by apply wp_ret].
    apply wp_bind, wp_modify, Hnext. apply Hset; auto.
Qed.

Lemma wp_existing_parent root relative (Q : option Endpoint → State → Prop) R c :
  fds_ok root c →
  (∀ m o, fds_ok root (set_fds m c) →
     (∀ e, o = Some e → at_path root (fs c) relative e) → Q o (set_fds m c)) →
  (∀ m e, fds_ok root (set_fds m c) → R e (set_fds m c)) →
  wp (existing_parent fault relative) Q R c.
Proof.
  intros Hok HQ HR. apply wp_bind.
  eapply wp_mono; [apply (wp_descend root _ _ (λ c', ∃ m, c' = set_fds m c ∧ fds_ok root c'))
                  | |by intros e c' Hc'; exact Hc'].
  - by intros c' (m & _ & ?).
  - intros c' p i (m & -> & Hm) Hi. exists (<[p := i]> m). split; [done|].
    by apply (fds_ok_insert root (set_fds m c)).
  - intros prefix part c' d Hc' _. by apply wp_ret.
  - intros c' e (m & -> & Hm). by apply HR.
  - exists (fds c). split; [by destruct c|done].
  - simpl. intros o c' [(m & -> & Hm) Ho]. apply wp_ret, HQ; [done|].
    intros e He. destruct o as [d|]; [|done]. injection He as <-.
    split; [by apply Ho|done].
Qed.
End calls.
