(* ===== verification/PatchPhases.v ===== *)
(** * The apply_patch transaction: everything before the first commit

    The invariants of the semantic phase, the creation of parents and the staging.
    Until the commit nothing of the original tree is touched: [safe] says so of the
    original entries, [tidy] that whatever is new is a directory or a stage the code
    still knows by name. *)

From S2P Require Import Prelude PyStr Patch PatchTheory PatchApply PatchParse.
From S2P Require Import PatchFs PatchTxn PatchLogic.
Open Scope string_scope.
Open Scope list_scope.
Open Scope Z_scope.

(** ** Trees *)

(** Directories form a tree under [root], and names refer to inodes. *)
Record tree (root : nat) (f : FS) : Prop := {
  tree_root : ∃ x, inodes f !! root = Some x ∧ is_dir x = true;
  tree_root_free k : entries f !! k ≠ Some root;
  tree_closed k i : entries f !! k = Some i → is_Some (inodes f !! i);
  tree_unique k k' i x : entries f !! k = Some i → entries f !! k' = Some i →
    inodes f !! i = Some x → is_dir x = true → k = k'
}.

(** The entry a relative path names. *)
Definition key_at (root : nat) (f : FS) (p : pystr) : option (nat * pystr) :=
  d ← walk f root (removelast (posix_parts p)); Some (d, default [] (last (posix_parts p))).

Lemma at_path_key root f p e : at_path root f p e ↔ key_at root f p = Some (entry_key e).
Proof.
  unfold at_path, key_at, entry_key. destruct (walk f root _) as [d|]; simpl.
  - split; [by intros [[= ->] ->]|by intros [= -> ->]].
  - split; [by intros [? _]|done].
Qed.

Lemma walk_inj root f p q d :
  tree root f → walk f root p = Some d → walk f root q = Some d → p = q.
Proof.
  intros Ht. revert q d. induction p as [|n p IH] using rev_ind; intros q d.
  - intros [= <-] Hq. destruct q as [|m q _] using rev_ind; [done|].
    apply walk_snoc in Hq as (d' & _ & x & [Hx _]%lookup_inode_Some & _).
    by apply (tree_root_free _ _ Ht) in Hx.
  - intros (d1 & Hp & x & Hx & Hd)%walk_snoc Hq.
    pose proof Hx as [Hk Hi]%lookup_inode_Some.
    destruct q as [|m q _] using rev_ind.
    { injection Hq as <-. by apply (tree_root_free _ _ Ht) in Hk. }
    apply walk_snoc in Hq as (d2 & Hq & y & [Hk' Hi']%lookup_inode_Some & _).
    assert ((d1, n) = (d2, m)) as [= -> ->] by (by eapply (tree_unique _ _ Ht)).
    by rewrite (IH _ _ Hp Hq).
Qed.

Lemma safe_parts p : safe_path p → posix_parts p = split SLASH p.
Proof.
  intros (Hne & Hparts & _). unfold posix_parts.
  induction Hparts as [|w ws Hw HF IH]; [done|].
  rewrite filter_cons_True by tauto. by rewrite IH.
Qed.

Lemma removelast_last {A} (l : list A) d : l ≠ [] → removelast l ++ [default d (last l)] = l.
Proof.
  induction l as [|x l IH]; [done|]. intros _. destruct l as [|y l]; [done|].
  change (x :: (removelast (y :: l) ++ [default d (last (y :: l))]) = x :: y :: l).
  by rewrite IH.
Qed.

Lemma key_at_inj root f p q k :
  tree root f → safe_path p → safe_path q → key_at root f p = Some k → key_at root f q = Some k →
  p = q.
Proof.
  unfold key_at. intros Ht Hp Hq.
  destruct (walk f root (removelast (posix_parts p))) as [d|] eqn:Hwp; [|done].
  destruct (walk f root (removelast (posix_parts q))) as [d'|] eqn:Hwq; [|done].
  simpl. intros [= <-] [= -> Hlast].
  pose proof (walk_inj _ _ _ _ _ Ht Hwp Hwq) as Hrem.
  rewrite <- (split_join SLASH p), <- (split_join SLASH q), <- !safe_parts by done. f_equal.
  assert (Hne : ∀ r, safe_path r → posix_parts r ≠ []).
  { intros r Hr. rewrite safe_parts by done. apply split_ne. }
  rewrite <- (removelast_last (posix_parts p) []), <- (removelast_last (posix_parts q) []) by auto.
  by rewrite Hrem, Hlast.
Qed.

(** [f'] has what [f] has, directories where [f] has directories. *)
Record extends (f f' : FS) : Prop := {
  ext_entries : entries f ⊆ entries f';
  ext_inodes i x : inodes f !! i = Some x →
    ∃ x', inodes f' !! i = Some x' ∧ is_dir x' = is_dir x
}.

Lemma extends_refl f : extends f f.
Proof. split; [done|eauto]. Qed.

Lemma walk_extends f f' d p i : extends f f' → walk f d p = Some i → walk f' d p = Some i.
Proof.
  intros [He Hi]. revert d. induction p as [|n p IH]; intros d; simpl; [done|].
  destruct (lookup_inode f (d, n)) as [[j x]|] eqn:Hx; [|done].
  apply lookup_inode_Some in Hx as [Hk Hj]. destruct (Hi _ _ Hj) as (x' & Hj' & Hd).
  assert (lookup_inode f' (d, n) = Some (j, x')) as ->.
  { apply lookup_inode_Some. split; [|done]. by eapply lookup_weaken. }
  rewrite Hd. destruct (is_dir x); [apply IH|done].
Qed.

Lemma key_at_extends root f f' p k :
  extends f f' → key_at root f p = Some k → key_at root f' p = Some k.
Proof.
  unfold key_at. intros He. destruct (walk f root _) as [d|] eqn:Hw; [|done].
  by rewrite (walk_extends _ _ _ _ _ He Hw).
Qed.

(** What the phases do to a tree: create under a free name, change without changing
    what is a directory, move to a free name, remove. *)

Lemma create_entries k x f : entries (create k x f).1 = <[k := (create k x f).2]> (entries f).
Proof. done. Qed.

Lemma create_fresh k x f : inodes f !! (create k x f).2 = None.
Proof. apply not_elem_of_dom. simpl. apply is_fresh. Qed.

Lemma create_inodes k x f :
  inodes (create k x f).1 = <[(create k x f).2 := set_stamp (clock f) x]> (inodes f).
Proof. done. Qed.

Lemma tree_create root k x f :
  tree root f → entries f !! k = None → tree root (create k x f).1.
Proof.
  intros [[r [Hr Hd]] Hfree Hcl Hun] Hk. pose proof (create_fresh k x f) as Hf.
  split; rewrite ?create_entries, ?create_inodes.
  - exists r. split; [|done]. by rewrite lookup_insert_ne by congruence.
  - intros k' [[<- Heq]|[? ?]]%lookup_insert_Some; [congruence|by eapply Hfree].
  - intros k' i [[<- <-]|[? Hi]]%lookup_insert_Some; [rewrite lookup_insert_eq; eauto|].
    destruct (Hcl _ _ Hi) as [y Hy]. by rewrite lookup_insert_ne by congruence.
  - intros k1 k2 i y H1 H2. rewrite lookup_insert_Some.
    intros [[<- <-]|[Hne Hy]] Hdir.
    + apply lookup_insert_Some in H1 as [[<- _]|[? H1]], H2 as [[<- _]|[? H2]]; try done;
        exfalso; [destruct (Hcl _ _ H2)|destruct (Hcl _ _ H1)..]; congruence.
    + apply lookup_insert_Some in H1 as [[? ?]|[? H1]], H2 as [[? ?]|[? H2]]; try congruence.
      by eapply Hun.
Qed.

Lemma change_inode i g f j x' :
  inodes (change i g f) !! j = Some x' ↔
  ∃ x, inodes f !! j = Some x ∧ x' = if bool_decide (i = j) then set_stamp (clock f) (g x) else x.
Proof.
  simpl. case_bool_decide as Hij; [subst|].
  - rewrite lookup_alter_eq, fmap_Some. done.
  - rewrite lookup_alter_ne by done. naive_solver.
Qed.

Lemma tree_change root i g f :
  (∀ x, is_dir (g x) = is_dir x) → tree root f → tree root (change i g f).
Proof.
  intros Hg [[r [Hr Hd]] Hfree Hcl Hun]. split.
  - eexists. split; [apply change_inode; eauto|]. by case_bool_decide; [rewrite <- (Hg r) in Hd|].
  - exact Hfree.
  - intros k j Hk. destruct (Hcl _ _ Hk) as [y Hy]. eexists. apply change_inode. eauto.
  - intros k k' j x' Hk Hk' (x & Hx & ->)%change_inode Hdir. apply (Hun _ _ _ _ Hk Hk' Hx).
    case_bool_decide; [by rewrite <- (Hg x)|done].
Qed.

Lemma tree_delete root k f : tree root f → tree root (with_entries (delete k (entries f)) f).
Proof.
  intros [Hr Hfree Hcl Hun]. split; [done|..]; simpl.
  - intros k' [_ ?]%lookup_delete_Some. by eapply Hfree.
  - intros k' i [_ ?]%lookup_delete_Some. eauto.
  - intros k1 k2 i x [_ ?]%lookup_delete_Some [_ ?]%lookup_delete_Some. eauto.
Qed.

Lemma tree_move root k k' i f :
  tree root f → entries f !! k = Some i →
  tree root (with_entries (<[k' := i]> (delete k (entries f))) f).
Proof.
  intros Ht Hi. pose proof (tree_delete root k f Ht) as [Hr Hfree Hcl Hun]. simpl in *.
  assert (Hgone : ∀ k2 x, inodes f !! i = Some x → is_dir x = true → delete k (entries f) !! k2 ≠ Some i).
  { intros k2 x Hx Hd [Hne Hk2]%lookup_delete_Some. by destruct Hne; eapply (tree_unique _ _ Ht). }
  split; [done|..]; simpl.
  - intros k2 [[<- ->]|[? ?]]%lookup_insert_Some; [by eapply (tree_root_free _ _ Ht)|by eapply Hfree].
  - intros k2 j [[<- <-]|[? ?]]%lookup_insert_Some; [by eapply (tree_closed _ _ Ht)|eauto].
  - intros k1 k2 j x [[<- <-]|[? H1]]%lookup_insert_Some [[<- Hj]|[? H2]]%lookup_insert_Some Hx Hd;
      try done; try (subst; by edestruct Hgone); eauto.
Qed.

Section phases.
Context (fault : nat → Fault) (token : nat → pystr) (euid egid : Z) (root_value : pystr).
Context (root : nat) (f0 : FS).

(** ** What survives *)

Definition akey (a : Artifact) : nat * pystr := entry_key (a_at a).

Definition same_data (x x' : Inode) : Prop :=
  content x' = content x ∧ uid x' = uid x ∧ gid x' = gid x.

Definition data_kept (f : FS) : Prop :=
  ∀ i x, inodes f0 !! i = Some x → ∃ x', inodes f !! i = Some x' ∧ same_data x x'.
Definition modes_kept (f : FS) : Prop :=
  ∀ i x, inodes f0 !! i = Some x → ∃ x', inodes f !! i = Some x' ∧ mode x' = mode x.

(** Some item still holds a stage under this name. *)
Definition staged_at (c : State) (k : nat * pystr) : Prop :=
  ∃ j it a, items c !! j = Some it ∧ stage it = Some a ∧ named a = true ∧ akey a = k.

Record safe (c : State) : Prop := {
  safe_entries : entries f0 ⊆ entries (fs c);
  safe_data : data_kept (fs c);
  safe_stages k : staged_at c k → entries f0 !! k = None;
  safe_slots j it a : items c !! j = Some it → recovery it = Some a → named a = false;
  safe_created cr : cr ∈ created c → entries f0 !! c_at cr = None;
  safe_flags : preserve c = false ∧ keep c = false
}.

Definition dir_inode (f : FS) (i : nat) : Prop := ∃ x, inodes f !! i = Some x ∧ is_dir x = true.

Record tidy (c : State) : Prop := {
  tidy_new k i : entries (fs c) !! k = Some i → entries f0 !! k = None →
    dir_inode (fs c) i ∨ staged_at c k;
  tidy_modes : modes_kept (fs c)
}.

Definition is_rollback (e : Raised) : bool :=
  match e with PatchRollbackError _ _ _ => true | _ => false end.

(** How a phase before the commit fails. *)
Definition aborted (e : Raised) (c : State) : Prop :=
  safe c ∧ (is_rollback e = true ∨ tidy c).

(** ** The semantic phase *)

Definition edited (hunks : list Hunk) (old new : bytes) : Prop :=
  ∃ text text', utf8_decode old = Some text ∧ apply_hunks text hunks = Ok text' ∧
    utf8_encode text' = Some new.

(** The item owns a snapshot of the file at [p]. *)
Definition sourced (f : FS) (p : pystr) (it : Item) (s : Snapshot) : Prop :=
  snapshot it = Some s ∧
  (∃ e, source it = Some e ∧ key_at root f p = Some (entry_key e) ∧
     key_at root f0 p = Some (entry_key e) ∧ snapped f0 (entry_key e) s) ∧
  s_mode s = f_mode (s_fingerprint s) ∧ it_mode it = s_mode s ∧
  it_uid it = f_uid (s_fingerprint s) ∧ it_gid it = f_gid (s_fingerprint s).

(** The destination, once known, is where the path says. *)
Definition aimed (f : FS) (p : pystr) (it : Item) : Prop :=
  ∀ e, destination it = Some e → key_at root f p = Some (entry_key e).

Definition prepared (f : FS) (op : Op) (it : Item) : Prop :=
  it_op it = op ∧ recovery it = None ∧
  match op with
  | AddFile p content =>
      snapshot it = None ∧ destination it = source it ∧ aimed f p it ∧
      (∃ data, new it = Some data ∧ utf8_encode content = Some data) ∧
      it_mode it = 420 ∧ it_uid it = euid ∧ it_gid it = egid
  | DeleteFile p => (∃ s, sourced f p it s) ∧ new it = None ∧ destination it = None
  | UpdateFile p move_to hunks =>
      (∃ s data, sourced f p it s ∧ new it = Some data ∧ edited hunks (s_data s) data) ∧
      match move_to with
      | None => destination it = source it
      | Some t => aimed f t it
      end
  end.

Record ready (ops : list Op) (c : State) : Prop := {
  ready_fs : fs c = f0;
  ready_fds : fds_ok root c;
  ready_created : created c = [];
  ready_committed : committed c = [];
  ready_flags : preserve c = false ∧ keep c = false;
  ready_items : Forall2 (prepared f0) ops (items c);
  ready_stages : Forall (λ it, stage it = None) (items c)
}.

Lemma prepared_recovery f op it : prepared f op it → recovery it = None.
Proof. by intros (_ & ? & _). Qed.

Lemma items_no_recovery f ops its j it a :
  Forall2 (prepared f) ops its → its !! j = Some it → recovery it = Some a → named a = false.
Proof.
  intros HF Hj Ha. destruct (Forall2_lookup_r _ _ _ _ _ HF Hj) as (op & _ & (_ & Hn & _)). congruence.
Qed.

Lemma staged_at_none c k : Forall (λ it, stage it = None) (items c) → ¬ staged_at c k.
Proof.
  intros HF (j & it & a & Hj & Ha & _). rewrite Forall_lookup in HF. specialize (HF _ _ Hj). congruence.
Qed.

Lemma ready_aborted ops c e : ready ops c → aborted e c.
Proof.
  intros [Hfs _ Hcr _ Hfl Hits Hst]. split; [|right]; split; rewrite ?Hfs; try done.
  - intros i x Hx. exists x. done.
  - intros k Hk. by apply staged_at_none in Hk.
  - intros j it a. by apply items_no_recovery with f0 ops.
  - rewrite Hcr. by intros cr ?%not_elem_of_nil.
  - congruence.
  - intros i x Hx. by exists x.
Qed.

Lemma ready_set_fds ops m c : ready ops c → fds_ok root (set_fds m c) → ready ops (set_fds m c).
Proof. intros [] ?. by split. Qed.

Lemma ready_append ops op c it :
  ready ops c → prepared f0 op it → stage it = None →
  ready (ops ++ [op]) (set_items (items c ++ [it]) c).
Proof.
  intros [] Hp Hs. split; try done; simpl.
  - apply Forall2_app; [done|by constructor].
  - apply Forall_app. split; [done|by constructor].
Qed.

Lemma wp_update_endpoints ops c src s p move_to (Q : Endpoint * option Endpoint → State → Prop) R :
  tree root f0 → Forall safe_path (op_paths (UpdateFile p move_to [])) →
  NoDup (op_paths (UpdateFile p move_to [])) →
  ready ops c → key_at root f0 p = Some (entry_key src) → snapped f0 (entry_key src) s →
  (∀ c' d, ready ops c' →
     match move_to with
     | None => d = Some src
     | Some t => ∀ e, d = Some e → key_at root f0 t = Some (entry_key e)
     end → Q (src, d) c') →
  (∀ e c', ready ops c' → R e c') →
  wp (update_endpoints fault src s move_to) Q R c.
Proof.
  intros Ht Hsafe Hnd Hr Hsrc Hsn HQ HR. unfold update_endpoints.
  destruct move_to as [t|]; [|by apply wp_ret, HQ].
  apply Forall_cons in Hsafe as [Hp [Hst _]%Forall_cons].
  apply NoDup_cons in Hnd as [Hne _].
  apply wp_bind, (wp_existing_parent _ root); [apply Hr| |].
  2:{ intros m e Hm. by apply HR, ready_set_fds. }
  intros m o Hm Ho. rewrite (ready_fs _ _ Hr) in Ho.
  pose proof (ready_set_fds _ _ _ Hr Hm) as Hr'.
  destruct o as [dst|]; [|by apply wp_ret, HQ].
  specialize (Ho _ eq_refl). apply at_path_key in Ho.
  apply wp_bind, wp_move_available; rewrite ?(ready_fs _ _ Hr').
  - destruct Hsn as (x & -> & _). by eexists.
  - intros Heq. apply Hne, list_elem_of_singleton. apply (key_at_inj root f0 p t (entry_key src)); try done. by rewrite Heq.
  - intros _. apply wp_bind, wp_check; [|done]. intros _. apply wp_ret, HQ; [done|].
    by intros e [= <-].
  - intros src'. apply wp_bind, wp_check; [done|]. intros _. by apply HR.
  - intros e. by apply HR.
Qed.

Lemma wp_prepare ops op c :
  tree root f0 → wf_op op → NoDup (op_paths op) → ready ops c →
  wp (prepare fault euid egid op) (λ _, ready (ops ++ [op])) aborted c.
Proof.
  intros Ht (Hsafe & _) Hnd Hr.
  assert (HR : ∀ e c', ready ops c' → aborted e c') by (intros; by eapply ready_aborted).
  apply wp_bind, (wp_existing_parent _ root); [apply Hr| |].
  2:{ intros m e Hm. by apply HR, ready_set_fds. }
  intros m o Hm Ho. rewrite (ready_fs _ _ Hr) in Ho.
  pose proof (ready_set_fds _ _ _ Hr Hm) as Hr'. clear Hr Hm. revert Hr'.
  generalize (set_fds m c) as c'. clear c m. intros c Hr.
  assert (Hkey : ∀ e, o = Some e → key_at root f0 (op_path op) = Some (entry_key e)).
  { intros e He. by apply at_path_key, Ho. }
  destruct op as [p content|p|p move_to hunks]; cbn [op_path] in *.
  - apply wp_bind. eapply (wp_mono _ (λ _, ready ops) _ aborted); [|clear c Hr; intros [] c Hr|done].
    { destruct o as [e|]; [|by apply wp_ret].
      apply wp_bind, wp_entry_missing; [|by intros; apply HR].
      apply wp_check; intros _; [done|by apply HR]. }
    unfold encoded. apply wp_bind. destruct (utf8_encode content) as [data|] eqn:Henc;
      [apply wp_ret|by apply wp_raise, HR].
    apply wp_modify, ready_append; [done|split_and!; try done; by eexists|done].
  - destruct o as [src|]; [|by apply wp_raise, HR]. specialize (Hkey _ eq_refl).
    apply wp_bind, wp_open_regular; [|by intros; apply HR]. rewrite (ready_fs _ _ Hr).
    intros s Hs Hm Hu Hg. apply wp_bind, wp_ret, wp_modify, ready_append; [done| |done].
    split_and!; try done. exists s. split_and!; try done. by exists src.
  - destruct o as [src|]; [|by apply wp_raise, HR]. specialize (Hkey _ eq_refl).
    apply wp_bind, wp_open_regular; [|by intros; apply HR]. rewrite (ready_fs _ _ Hr).
    intros s Hs Hm Hu Hg. apply wp_bind, wp_bind.
    destruct (utf8_decode (s_data s)) as [text|] eqn:Hdec; [apply wp_ret|by apply wp_raise, HR].
    apply wp_bind. unfold from_plan. destruct (apply_hunks text hunks) as [text'|] eqn:Happ;
      [apply wp_ret|by apply wp_raise, HR].
    apply wp_bind. unfold encoded. destruct (utf8_encode text') as [data|] eqn:Henc;
      [apply wp_ret|by apply wp_raise, HR].
    apply wp_bind. apply (wp_update_endpoints ops _ _ _ p); try done.
    clear c Hr. intros c d Hr Hd. apply wp_ret, wp_modify, ready_append; [done| |done].
    split_and!; try done.
    exists s, data. split_and!; [split_and!; try done; by exists src|done|by exists text, text'].
Qed.

(** The whole semantic phase. *)
Lemma wp_prepare_all ops c :
  tree root f0 → wf_plan ops → ready [] c →
  wp (for_each ops (prepare fault euid egid)) (λ _, ready ops) aborted c.
Proof.
  intros Ht (_ & Hwf & Hnd) Hr.
  eapply wp_mono; [apply (wp_for_each _ _ (λ rest c, ∃ ops', ops = ops' ++ rest ∧ ready ops' c))
                  | |by intros e c' Hc'; exact Hc'].
  - by exists [].
  - intros op rest c' (ops' & -> & Hr').
    apply Forall_app in Hwf as [_ [Hop _]%Forall_cons]. rewrite bind_app, bind_cons in Hnd.
    apply NoDup_app in Hnd as (_ & _ & [Hnd _]%NoDup_app).
    eapply wp_mono; [by apply wp_prepare| |done]. intros [] c'' Hr''.
    exists (ops' ++ [op]). by rewrite <- app_assoc.
  - intros [] c' (ops' & Heq & Hr'). by rewrite app_nil_r in Heq; subst.
Qed.

(** ** The parents *)

(** The tree so far: the original one with new directories. *)
Record grown (f : FS) : Prop := {
  grown_entries : entries f0 ⊆ entries f;
  grown_inodes : inodes f0 ⊆ inodes f;
  grown_new k i : entries f !! k = Some i → entries f0 !! k = None →
    dir_inode f i ∧ inodes f0 !! i = None;
  grown_tree : tree root f
}.

Record planted (ops : list Op) (its : list Item) (c : State) : Prop := {
  planted_grown : grown (fs c);
  planted_fds : fds_ok root c;
  planted_created cr : cr ∈ created c → entries f0 !! c_at cr = None ∧
    ∃ x, lookup_inode (fs c) (c_at cr) = Some (c_expected cr, x) ∧ is_dir x = true;
  planted_committed : committed c = [];
  planted_flags : preserve c = false ∧ keep c = false;
  planted_items : items c = its;
  planted_prepared : Forall2 (prepared (fs c)) ops its;
  planted_stages : Forall (λ it, stage it = None) its
}.

Lemma prepared_extends f f' op it : extends f f' → prepared f op it → prepared f' op it.
Proof.
  intros He (Hop & Hrec & Hp). split_and!; [done..|].
  assert (Haim : ∀ p, aimed f p it → aimed f' p it).
  { intros p Ha e Hd. by eapply key_at_extends, Ha. }
  assert (Hsrc : ∀ p s, sourced f p it s → sourced f' p it s).
  { intros p s (? & (e & ? & ? & ? & ?) & ?). split; [done|]. split; [|done]. exists e.
    split_and!; try done. by eapply key_at_extends. }
  destruct op as [p content|p|p move_to hunks].
  - destruct Hp as (? & ? & ? & ?). auto.
  - destruct Hp as ((s & ?) & ?). eauto.
  - destruct Hp as ((s & data & ? & ?) & ?). split; [exists s, data; auto|].
    destruct move_to; auto.
Qed.

Lemma planted_aborted ops its c e : planted ops its c → aborted e c.
Proof.
  intros [[He Hi Hn _] _ Hcr _ Hfl <- Hits Hst].
  assert (Hin : ∀ i x, inodes f0 !! i = Some x → inodes (fs c) !! i = Some x).
  { intros i x Hx. by eapply lookup_weaken. }
  split; [|right]; split; try done.
  - intros i x Hx. exists x. by split; [apply Hin|].
  - intros k Hk. by apply staged_at_none in Hk.
  - intros j it a. by apply items_no_recovery with (fs c) ops.
  - intros cr Hin'. by apply Hcr.
  - intros k i Hk Hk0. left. by destruct (Hn _ _ Hk Hk0).
  - intros i x Hx. exists x. auto.
Qed.

(** Growth of the tree keeps everything else. *)
Lemma planted_fs ops its c f :
  planted ops its c → grown f → extends (fs c) f → planted ops its (set_fs f c).
Proof.
  intros [_ Hfd Hcr Hco Hfl <- Hits Hst] Hg He. split; try done.
  - intros p d Hp. by eapply walk_extends, Hfd.
  - intros cr Hin. destruct (Hcr _ Hin) as (Hn & x & [Hk Hx]%lookup_inode_Some & Hd).
    split; [done|]. destruct (ext_inodes _ _ He _ _ Hx) as (x' & Hx' & Hd').
    exists x'. split; [|congruence]. apply lookup_inode_Some. split; [|done].
    eapply lookup_weaken; [done|apply He].
  - eapply Forall2_impl; [exact Hits|]. intros. by eapply prepared_extends.
Qed.

(** *** Growth, one system call at a time *)

Lemma grown_create k x f :
  grown f → is_dir x = true → entries f !! k = None → grown (create k x f).1.
Proof.
  intros [He Hi Hn Ht] Hd Hk. pose proof (create_fresh k x f) as Hf.
  split; [| | |by apply tree_create]; rewrite ?create_entries, ?create_inodes.
  - etrans; [exact He|]. by apply insert_subseteq.
  - etrans; [exact Hi|]. by apply insert_subseteq.
  - intros k' i Hk' Hk0. rewrite lookup_insert_Some in Hk'. destruct Hk' as [[<- <-]|[_ Hk']].
    + split; [|by eapply lookup_weaken_None]. unfold dir_inode. rewrite create_inodes, lookup_insert_eq.
      eexists. by split.
    + destruct (Hn _ _ Hk' Hk0) as [(y & Hy & Hyd) Hi0]. split; [|done]. exists y.
      rewrite create_inodes, lookup_insert_ne by congruence. done.
Qed.

Lemma extends_create k x f f' :
  extends f f' → entries f' !! k = None → extends f (create k x f').1.
Proof.
  intros [He Hi] Hk. pose proof (create_fresh k x f') as Hf. split.
  - etrans; [exact He|]. by apply insert_subseteq.
  - intros i y Hy. destruct (Hi _ _ Hy) as (y' & Hy' & Hd). exists y'.
    rewrite create_inodes, lookup_insert_ne by congruence. done.
Qed.

Lemma grown_change i g f :
  (∀ x, is_dir (g x) = is_dir x) → inodes f0 !! i = None → grown f → grown (change i g f).
Proof.
  intros Hg Hi0 [He Hi Hn Ht]. split; [done| | |by apply tree_change].
  - apply map_subseteq_spec. intros j x Hj. apply change_inode.
    exists x. split; [by eapply lookup_weaken|]. rewrite bool_decide_eq_false_2; congruence.
  - intros k j Hk Hk0. destruct (Hn _ _ Hk Hk0) as [(x & Hx & Hd) Hj0]. split; [|done].
    eexists. split; [apply change_inode; eauto|]. case_bool_decide; [|done].
    by rewrite <- (Hg x) in Hd.
Qed.

Lemma extends_change i g f f' :
  (∀ x, is_dir (g x) = is_dir x) → extends f f' → extends f (change i g f').
Proof.
  intros Hg [He Hi]. split; [done|]. intros j x Hx. destruct (Hi _ _ Hx) as (x' & Hx' & Hd).
  eexists. split; [apply change_inode; eauto|]. rewrite <- Hd. case_bool_decide; [apply Hg|done].
Qed.

Lemma grown_entries_step f es :
  entries f0 ⊆ es → (∀ k i, es !! k = Some i → entries f0 !! k = None →
    ∃ k', entries f !! k' = Some i ∧ entries f0 !! k' = None) →
  tree root (with_entries es f) → grown f → grown (with_entries es f).
Proof.
  intros He Hn Ht [_ Hi Hn' _]. split; [done|done| |done].
  intros k i Hk Hk0. destruct (Hn _ _ Hk Hk0) as (k' & ? & ?). by apply (Hn' k').
Qed.

Lemma grown_rename k k' f f' :
  sys_rename_noreplace k k' f = Ok (f', tt) → entries f0 !! k = None → grown f → grown f'.
Proof.
  intros (i & Hk & Hk' & ->)%rename_Ok Hk0 Hg. pose proof Hg as [He _ Hn Ht].
  apply grown_change; [done|by apply (Hn k)|]. apply grown_entries_step; [| | |done].
  - apply map_subseteq_spec. intros k2 j Hk2.
    assert (entries f !! k2 = Some j) by (by eapply lookup_weaken).
    rewrite lookup_insert_ne by congruence. by rewrite lookup_delete_ne by congruence.
  - intros k2 j [[<- <-]|[_ [_ Hk2]%lookup_delete_Some]]%lookup_insert_Some Hk20; eauto.
  - by apply tree_move.
Qed.

Lemma extends_rename k k' f f1 f2 :
  sys_rename_noreplace k k' f1 = Ok (f2, tt) → entries f !! k = None → extends f f1 → extends f f2.
Proof.
  intros (i & Hk & Hk' & ->)%rename_Ok Hk0 [He Hi]. apply extends_change; [done|]. split; [|done].
  apply map_subseteq_spec. intros k2 j Hk2.
  assert (entries f1 !! k2 = Some j) by (by eapply lookup_weaken). simpl.
  rewrite lookup_insert_ne by congruence. by rewrite lookup_delete_ne by congruence.
Qed.

Lemma grown_delete k f : entries f0 !! k = None → grown f → grown (with_entries (delete k (entries f)) f).
Proof.
  intros Hk0 Hg. pose proof Hg as [He _ Hn Ht]. apply grown_entries_step; [| |by apply tree_delete|done].
  - apply map_subseteq_spec. intros k2 j Hk2. rewrite lookup_delete_ne by congruence.
    by eapply lookup_weaken.
  - intros k2 j [_ Hk2]%lookup_delete_Some Hk20. eauto.
Qed.

Lemma extends_delete k f f1 :
  entries f !! k = None → extends f f1 → extends f (with_entries (delete k (entries f1)) f1).
Proof.
  intros Hk0 [He Hi]. split; [|done]. apply map_subseteq_spec. intros k2 j Hk2. simpl.
  rewrite lookup_delete_ne by congruence. by eapply lookup_weaken.
Qed.

(** *** Creating a directory *)

(** From [c], the new directory [fd] is under its private name [k1] or, published,
    under [k2]. *)
Definition budding (c : State) (k1 k2 : nat * pystr) (fd : nat) (c' : State) : Prop :=
  ∃ f', c' = set_fs f' c ∧ grown f' ∧ extends (fs c) f' ∧
    (entries f' !! k1 = Some fd ∨ entries f' !! k2 = Some fd ∧ entries (fs c) !! k2 = None).

Lemma planted_new ops its c k : planted ops its c → entries (fs c) !! k = None → entries f0 !! k = None.
Proof. intros Hp Hk. eapply lookup_weaken_None; [exact Hk|]. apply Hp. Qed.

Lemma budding_dir ops its c k1 k2 fd c' :
  planted ops its c → entries (fs c) !! k1 = None → budding c k1 k2 fd c' →
  dir_inode (fs c') fd ∧ inodes f0 !! fd = None.
Proof.
  intros Hp Hk1 (f' & -> & Hg & _ & [Hk|[Hk Hk2]]); simpl;
    apply (grown_new _ Hg _ _ Hk); by eapply planted_new.
Qed.

Lemma budding_planted ops its c k1 k2 fd c' : planted ops its c → budding c k1 k2 fd c' → planted ops its c'.
Proof. intros Hp (f' & -> & Hg & He & _). by apply planted_fs. Qed.

(** Failed before publishing, or after. *)
Definition bud_failed (ops : list Op) (its : list Item) (c c' : State) : Prop :=
  (∃ f', c' = set_fs f' c ∧ grown f' ∧ extends (fs c) f') ∨
  (planted ops its c' ∧ length (created c') ≠ length (created c)).

Lemma budding_failed ops its c k1 k2 fd c' : budding c k1 k2 fd c' → bud_failed ops its c c'.
Proof. intros (f' & ? & ? & ? & _). left. eauto. Qed.

Lemma bud_failed_planted ops its c c' : planted ops its c → bud_failed ops its c c' → planted ops its c'.
Proof. intros Hp [(f' & -> & ? & ?)|[? _]]; [by apply planted_fs|done]. Qed.

Lemma bud_published ops its c k1 prefix n d fd c' :
  planted ops its c → walk (fs c) root prefix = Some d → entries (fs c) !! k1 = None →
  budding c k1 (d, n) fd c' → entries (fs c') !! (d, n) = Some fd →
  entries (fs c) !! (d, n) = None →
  let c'' := set_fd (prefix ++ [n]) fd (set_created (created c' ++
               [{| c_at := (d, n); c_label := join SLASH (prefix ++ [n]); c_expected := fd |}]) c') in
  planted ops its c'' ∧ length (created c'') ≠ length (created c) ∧
  walk (fs c'') root (prefix ++ [n]) = Some fd.
Proof.
  intros Hp Hw Hk1 Hb Hk2 Hfree c''.
  pose proof (budding_planted _ _ _ _ _ _ _ Hp Hb) as Hp'.
  destruct (budding_dir _ _ _ _ _ _ _ Hp Hk1 Hb) as [(x & Hx & Hd) _].
  destruct Hb as (f' & -> & Hg & He & _). simpl in *.
  assert (Hl : lookup_inode f' (d, n) = Some (fd, x)) by by apply lookup_inode_Some.
  assert (Hwalk : walk f' root (prefix ++ [n]) = Some fd).
  { apply walk_snoc. exists d. split; [by eapply walk_extends|]. by exists x. }
  split_and!; [|rewrite length_app; simpl; lia|done].
  destruct Hp' as [? Hfd Hcr ? ? ? ? ?]. split; try done.
  - by apply (fds_ok_insert root (set_fs f' c)).
  - intros cr. simpl. intros [Hin|Heq%list_elem_of_singleton]%elem_of_app; [by apply Hcr|].
    subst cr. simpl.
    split; [by eapply planted_new|]. by exists x.
Qed.

(** What carries the new directory's inode under the target name was free before. *)
Lemma budding_free ops its c d stage_name n fd c' :
  planted ops its c → entries (fs c) !! (d, stage_name) = None →
  budding c (d, stage_name) (d, n) fd c' → entries (fs c') !! (d, n) = Some fd →
  entries (fs c) !! (d, n) = None.
Proof.
  intros Hp Hk1 Hb Hl. destruct (budding_dir _ _ _ _ _ _ _ Hp Hk1 Hb) as [(x & Hx & Hd) _].
  destruct (entries (fs c) !! (d, n)) as [j|] eqn:Hj; [|done]. exfalso.
  destruct Hb as (f' & -> & Hg & _ & [Hk|[_ ?]]); [|congruence]. simpl in *.
  pose proof (tree_unique _ _ (grown_tree _ Hg) _ _ _ _ Hk Hl Hx Hd). congruence.
Qed.

Lemma wp_directory_rename_failed ops its c prefix n stage_name d fd original c' :
  planted ops its c → walk (fs c) root prefix = Some d →
  entries (fs c) !! (d, stage_name) = None →
  budding c (d, stage_name) (d, n) fd c' →
  wp (directory_rename_failed fault root_value (prefix ++ [n]) d n stage_name fd original)
    (λ i c'', planted ops its c'' ∧ walk (fs c'') root (prefix ++ [n]) = Some i)
    (λ _, bud_failed ops its c) c'.
Proof.
  intros Hp Hw Hk1 Hb. pose proof (budding_failed ops its _ _ _ _ _ Hb) as HR.
  apply wp_bind, wp_entry_info; [|done]. apply wp_if; intros Ht.
  { destruct (lookup_inode _ _) as [[i x]|] eqn:Hl; [|done]. bool_prop. subst i.
    apply lookup_inode_Some in Hl as [Hl _].
    pose proof (budding_free _ _ _ _ _ _ _ _ Hp Hk1 Hb Hl) as Hfree.
    destruct (bud_published ops its c _ prefix n d fd c' Hp Hw Hk1 Hb Hl Hfree) as (Hp'' & Hlen & _).
    apply wp_bind, wp_modify, wp_bind, wp_fsync; [apply wp_raise|intros e]; by right. }
  apply wp_bind, wp_fstat; [|done]. intros x Hx. apply wp_bind.
  eapply (wp_mono _ (λ gone c'', c'' = c' ∧ (gone = true →
    lookup_inode (fs c') (d, n) = None ∧ lookup_inode (fs c') (d, stage_name) = None)) _
    (λ _, bud_failed ops its c)).
  { apply wp_if; intros Hn; [|by apply wp_ret]. bool_prop.
    apply wp_entry_missing; [|done]. split; [done|]. intros ?. by bool_prop. }
  2: done.
  intros gone c'' [-> Hgone]. apply wp_if; intros Hg.
  { bool_prop. destruct Hgone as [Hn1 Hn2]; [done|]. exfalso.
    destruct Hb as (f' & -> & Hgr & _ & [Hk|[Hk _]]); simpl in *;
      destruct (tree_closed _ _ (grown_tree _ Hgr) _ _ Hk) as [y Hy];
      [assert (lookup_inode f' (d, stage_name) = Some (fd, y)) by by apply lookup_inode_Some
      |assert (lookup_inode f' (d, n) = Some (fd, y)) by by apply lookup_inode_Some]; congruence. }
  apply wp_bind. eapply (wp_mono _ (λ _ c'', ∃ f', c'' = set_fs f' c ∧ grown f' ∧ extends (fs c) f')
    _ (λ _, bud_failed ops its c)); [| |done].
  { apply wp_catch_os. destruct Hb as (f' & -> & Hgr & He & _).
    assert (HL : ∃ f'', set_fs f' c = set_fs f'' c ∧ grown f'' ∧ extends (fs c) f'') by eauto.
    apply wp_bind, wp_call; [|by intros e; apply wp_ret].
    intros f'' [] (i & y & _ & _ & _ & ->)%rmdir_Ok.
    assert (HL' : ∃ f'', set_fs (with_entries (delete (d, stage_name) (entries f')) f') (set_fs f' c)
                          = set_fs f'' c ∧ grown f'' ∧ extends (fs c) f'').
    { eexists. split; [done|]. split; [apply grown_delete; [by eapply planted_new|done]|].
      by apply extends_delete. }
    apply wp_bind, wp_fsync; [by apply wp_ret|]. intros e. by apply wp_ret. }
  intros failures c'' (f' & -> & Hgr & He).
  assert (HR'' : bud_failed ops its c (set_fs f' c)) by (left; eauto).
  apply wp_bind, wp_check; [|done]. intros _.
  destruct original; try (by apply wp_raise). destruct e; try (by apply wp_raise).
  apply wp_catch_os, wp_read; [| |by intros e; apply wp_raise].
  { intros f1 f2 i. unfold sys_open_dir. destruct (lookup_inode f1 _) as [[j y]|]; [|done].
    destruct (is_dir y); [|done]. by intros [= ->]. }
  intros i. unfold sys_open_dir. simpl.
  destruct (lookup_inode f' (d, n)) as [[j y]|] eqn:Hl; [|done].
  destruct (is_dir y) eqn:Hd; [|done]. intros [= <-].
  split; [by apply bud_failed_planted with c|]. apply walk_snoc. exists d.
  split; [by eapply walk_extends|by exists y].
Qed.
(** The body of [_create_directory], once the private directory exists. *)
Lemma wp_directory_body ops its c c' prefix n d stage_name fd :
  planted ops its c → walk (fs c) root prefix = Some d →
  entries (fs c) !! (d, stage_name) = None → budding c (d, stage_name) (d, n) fd c' →
  entries (fs c') !! (d, stage_name) = Some fd →
  ∀ label,
  wp (fd ← call fault (sys_open_dir (d, stage_name));
      '(staged, _) ← call fault (sys_fstat fd);
      check_that (is_dir staged) (Stage_not_dir label) ≫= λ _,
      call fault (sys_fchmod fd 493) ≫= λ _,
      call fault (sys_fsync fd) ≫= λ _,
      renamed ← catch (durable_rename_noreplace fault (d, stage_name) (d, n) ≫= λ _, mret None)
                  (λ original,
                    i ← directory_rename_failed fault root_value (prefix ++ [n]) d n stage_name fd original;
                    mret (Some i));
      match renamed with
      | Some existing_fd => mret existing_fd
      | None =>
          publish_directory (prefix ++ [n]) (d, n) fd ≫= λ _,
          target ← entry_info fault (d, n);
          check_that (match target with Some (i, _) => bool_decide (i = fd) | None => false end)
            (Created_changed (join SLASH (prefix ++ [n]))) ≫= λ _,
          mret fd
      end)
    (λ i c'', planted ops its c'' ∧ walk (fs c'') root (prefix ++ [n]) = Some i)
    (λ _, bud_failed ops its c) c'.
Proof.
  intros Hp Hw Hk1 Hb Hst label. pose proof (budding_failed ops its _ _ _ _ _ Hb) as HR.
  apply wp_bind, wp_read; [| |done].
  { intros f1 f2 i. unfold sys_open_dir. destruct (lookup_inode f1 _) as [[j y]|]; [|done].
    destruct (is_dir y); [|done]. by intros [= ->]. }
  intros i. unfold sys_open_dir.
  destruct (lookup_inode (fs c') _) as [[j y]|] eqn:Hl; [|done].
  destruct (is_dir y) eqn:Hd; [|done]. intros [= <-].
  apply lookup_inode_Some in Hl as [Hk _]. assert (j = fd) as -> by congruence. clear Hk.
  apply wp_bind, wp_fstat; [|done]. intros x Hx. apply wp_bind, wp_check; [|done]. intros _.
  apply wp_bind, wp_call; [|done]. intros f2 [] [= <-].
  assert (Hb2 : budding c (d, stage_name) (d, n) fd (set_fs (change fd (set_mode 493) (fs c')) c')).
  { destruct (budding_dir _ _ _ _ _ _ _ Hp Hk1 Hb) as [_ Hfd0].
    destruct Hb as (f' & -> & Hg & He & Hk). eexists. split; [done|].
    split; [by apply grown_change|]. split; [by apply extends_change|done]. }
  revert Hb2 Hst. change (entries (fs c')) with
    (entries (fs (set_fs (change fd (set_mode 493) (fs c')) c'))).
  generalize (set_fs (change fd (set_mode 493) (fs c')) c'). clear c' Hb HR x Hx y Hd.
  intros c' Hb Hst. pose proof (budding_failed ops its _ _ _ _ _ Hb) as HR.
  apply wp_bind, wp_fsync; [|done]. apply wp_bind.
  eapply (wp_mono _ (λ o c'', match o with
      | Some i => planted ops its c'' ∧ walk (fs c'') root (prefix ++ [n]) = Some i
      | None => budding c (d, stage_name) (d, n) fd c'' ∧ entries (fs c'') !! (d, n) = Some fd
      end) _ (λ _, bud_failed ops its c)); [| |done].
  - apply wp_catch, wp_bind.
    assert (Hfail : ∀ original c'', budding c (d, stage_name) (d, n) fd c'' →
      wp (i ← directory_rename_failed fault root_value (prefix ++ [n]) d n stage_name fd original;
          mret (Some i))
        (λ o c'', match o with
          | Some i => planted ops its c'' ∧ walk (fs c'') root (prefix ++ [n]) = Some i
          | None => budding c (d, stage_name) (d, n) fd c'' ∧ entries (fs c'') !! (d, n) = Some fd
          end) (λ _, bud_failed ops its c) c'').
    { intros original c'' Hb''. apply wp_bind.
      eapply wp_mono; [by eapply wp_directory_rename_failed| |done].
      intros i c3 Hc3. by apply wp_ret. }
    assert (Hdone : ∀ f, sys_rename_noreplace (d, stage_name) (d, n) (fs c') = Ok (f, tt) →
      budding c (d, stage_name) (d, n) fd (set_fs f c') ∧ entries f !! (d, n) = Some fd).
    { intros f Hren. pose proof (rename_Ok _ _ _ _ Hren) as (i & Hi & Hfree & Hf).
      assert (i = fd) as -> by congruence.
      assert (Hn : entries f !! (d, n) = Some fd) by (subst f; apply lookup_insert_eq).
      split; [|done]. destruct Hb as (f' & -> & Hg & He & _). simpl in *. exists f. split; [done|].
      split; [eapply grown_rename; [done|by eapply planted_new|done]|].
      split; [by eapply extends_rename|]. right. split; [done|].
      eapply lookup_weaken_None; [exact Hfree|apply He]. }
    apply wp_durable_rename.
    + intros f Hren. by apply wp_ret, Hdone.
    + intros f e Hren. apply Hfail. by apply Hdone.
    + intros e. by apply Hfail.
    + by apply Hfail.
  - intros [i|] c'' Hc''; [by apply wp_ret|]. destruct Hc'' as [Hb'' Hn].
    pose proof (budding_free _ _ _ _ _ _ _ _ Hp Hk1 Hb'' Hn) as Hfree.
    destruct (bud_published ops its c _ prefix n d fd c'' Hp Hw Hk1 Hb'' Hn Hfree) as (Hp3 & Hlen & Hw3).
    apply wp_bind, wp_modify, wp_bind, wp_entry_info; [|intros e; by right].
    apply wp_bind, wp_check; intros _; [by apply wp_ret|by right].
Qed.

Lemma wp_create_directory ops its c prefix n d :
  planted ops its c → fds c !! prefix = Some d →
  wp (create_directory fault token euid egid root_value prefix (prefix ++ [n]) n)
    (λ i c', planted ops its c' ∧ walk (fs c') root (prefix ++ [n]) = Some i)
    (λ _, planted ops its) c.
Proof.
  intros Hp Hd. pose proof (planted_fds _ _ _ Hp _ _ Hd) as Hw.
  apply wp_bind, wp_bind, wp_gets, wp_some; [|done]. intros d' Hd'. simplify_eq.
  apply wp_bind. eapply (wp_allocate _ _ _ _ (λ c', c' = c)); [done| |by intros e c' ->].
  intros t c' ->. apply wp_unless_exists, wp_bind, wp_call.
  2:{ intros []; done. }
  intros f [] Hmk. unfold sys_mkdir in Hmk.
  destruct (entries (fs c) !! (d, private ".odin-patch-dir-" (token t))) as [|] eqn:Hk1; [done|].
  injection Hmk as <-. apply wp_ret.
  set (stage_name := private ".odin-patch-dir-" (token t)) in *.
  set (x := {| content := Dir; mode := 448; uid := euid; gid := egid; stamp := 0 |}).
  set (c1 := set_fs (create (d, stage_name) x (fs c)).1 c).
  assert (Hb : budding c (d, stage_name) (d, n) (create (d, stage_name) x (fs c)).2 c1).
  { eexists. split; [done|]. split; [by apply grown_create; [apply Hp|..]|].
    split; [by apply extends_create; [apply extends_refl|]|]. left. apply lookup_insert_eq. }
  apply wp_bind, wp_gets, wp_catch.
  eapply wp_mono; [eapply wp_directory_body with (ops := ops) (its := its); try done; apply lookup_insert_eq|done|].
  intros e c' Hf. pose proof (bud_failed_planted _ _ _ _ Hp Hf) as Hp'.
  apply wp_bind, wp_gets, wp_bind.
  eapply (wp_mono _ (λ _, planted ops its) _ (λ _, planted ops its)); [|intros [] ? ?; by apply wp_raise|done].
  apply wp_if; intros Hlen; [|by apply wp_ret]. bool_prop.
  destruct Hf as [(f' & -> & Hg & He)|[_ ?]]; [|done].
  apply wp_catch_os, wp_bind, wp_entry_missing; [|intros err; by apply wp_raise].
  apply wp_if; intros _; [by apply wp_ret|].
  apply wp_bind, wp_call; [|intros err; by apply wp_raise].
  intros f'' [] (i & y & _ & _ & _ & ->)%rmdir_Ok.
  assert (planted ops its (set_fs (with_entries (delete (d, stage_name) (entries f')) f') (set_fs f' c))).
  { apply (planted_fs ops its c); [done| |by apply extends_delete].
    apply grown_delete; [by apply (planted_new ops its c)|done]. }
  apply wp_fsync; [done|]. intros err. by apply wp_raise.
Qed.

Lemma wp_parent_created ops its relative c :
  planted ops its c →
  wp (parent_created fault token euid egid root_value relative)
    (λ e c', planted ops its c' ∧ key_at root (fs c') relative = Some (entry_key e))
    (λ e c', aborted e c') c.
Proof.
  intros Hp. assert (HR : ∀ e c, planted ops its c → aborted e c) by (intros; by eapply planted_aborted).
  apply wp_bind. eapply (wp_mono _ (λ o c', planted ops its c' ∧
      ∀ d, o = Some d → walk (fs c') root ([] ++ removelast (posix_parts relative)) = Some d)
    _ (λ _, planted ops its)); [| |auto].
  - apply (wp_descend _ root _ _ (planted ops its)); try done.
    + intros c' Hc'. apply Hc'.
    + intros c' p i [] Hw. split; try done. by apply fds_ok_insert.
    + intros prefix part c' d Hc' Hd. apply wp_bind.
      eapply wp_mono; [by eapply wp_create_directory| |done].
      intros i c'' [Hc'' Hw]. apply wp_ret. split; [done|]. by intros ? [= <-].
  - intros o c' [Hc' Hw]. apply wp_bind, wp_some; [|by auto]. intros d ->. apply wp_ret.
    split; [done|]. specialize (Hw d eq_refl). unfold key_at. simpl in Hw. by rewrite Hw.
Qed.

(** Every endpoint an item needs is known. *)
Definition placed (it : Item) : Prop :=
  is_Some (source it) ∧ (new it ≠ None → is_Some (destination it)).

Lemma wp_get_item k (Q : Item → State → Prop) R c :
  (∀ it, items c !! k = Some it → Q it c) → (∀ e, R e c) → wp (get_item k) Q R c.
Proof. intros HQ HR. apply wp_bind, wp_gets, wp_some; [|done]. intros it. apply HQ. Qed.

Lemma planted_update ops its c k it it' op :
  planted ops its c → its !! k = Some it → ops !! k = Some op →
  prepared (fs c) op it' → stage it' = None →
  planted ops (<[k := it']> its) (set_items (<[k := it']> (items c)) c).
Proof.
  intros [? ? ? ? ? Hits Hpr Hst] Hk Hop Hp Hs. split; try done; simpl.
  - by rewrite Hits.
  - apply Forall2_lookup. intros j. destruct (decide (k = j)) as [<-|Hne].
    + rewrite list_lookup_insert_eq by eauto using lookup_lt_Some. rewrite Hop. by constructor.
    + rewrite list_lookup_insert_ne by done. rewrite Forall2_lookup in Hpr. apply Hpr.
  - by apply Forall_insert.
Qed.

Lemma alter_insert_item {A} (g : A → A) k (l : list A) x :
  l !! k = Some x → alter g k l = <[k := g x]> l.
Proof.
  intros Hk. apply list_eq. intros j. destruct (decide (k = j)) as [<-|Hne].
  - rewrite list_lookup_alter_eq, Hk, list_lookup_insert_eq by eauto using lookup_lt_Some. done.
  - by rewrite list_lookup_alter_ne, list_lookup_insert_ne by done.
Qed.

(** The items before [k] are placed. *)
Definition planted_to (ops : list Op) (n k : nat) (c : State) : Prop :=
  ∃ its, planted ops its c ∧ length its = n ∧
    ∀ j it, (j < k)%nat → its !! j = Some it → placed it.

Lemma planted_to_update ops its n c k it it' op :
  planted ops its c → length its = n → (∀ j it, (j < k)%nat → its !! j = Some it → placed it) →
  its !! k = Some it → ops !! k = Some op → prepared (fs c) op it' → stage it' = None → placed it' →
  planted_to ops n (S k) (set_items (<[k := it']> (items c)) c).
Proof.
  intros Hp Hn Hpl Hk Hop Hpr Hs Hpl'. exists (<[k := it']> its).
  split; [by eapply planted_update|]. split; [by rewrite length_insert|].
  intros j it2 Hj. destruct (decide (k = j)) as [<-|Hne].
  - rewrite list_lookup_insert_eq by eauto using lookup_lt_Some. by intros [= <-].
  - rewrite list_lookup_insert_ne by done. apply Hpl. lia.
Qed.

Lemma wp_make_parents ops n k c :
  planted_to ops n k c →
  wp (make_parents fault token euid egid root_value k) (λ _, planted_to ops n (S k)) aborted c.
Proof.
  intros (its & Hp & Hn & Hpl).
  assert (HR : ∀ e c, planted ops its c → aborted e c) by (intros; by eapply planted_aborted).
  apply wp_bind, wp_get_item; [|auto]. intros it Hit. rewrite (planted_items _ _ _ Hp) in Hit.
  destruct (Forall2_lookup_r _ _ _ _ _ (planted_prepared _ _ _ Hp) Hit) as (op & Hop & Hpr).
  assert (Hst : stage it = None).
  { pose proof (planted_stages _ _ _ Hp) as HF. rewrite Forall_lookup in HF. eauto. }
  assert (Hskip : placed it → planted_to ops n (S k) c).
  { intros Hit'. exists its. split_and!; [done|done|]. intros j it2 Hj Hj2.
    destruct (decide (j = k)) as [->|]; [by simplify_eq|]. apply (Hpl j); [lia|done]. }
  pose proof Hpr as (Hio & _ & Hshape). rewrite Hio.
  destruct op as [p content|p|p move_to hunks].
  - destruct Hshape as (Hsn & Hds & Haim & (data & Hnew & Henc) & ? & ? & ?).
    destruct (source it) as [e|] eqn:Hsrc.
    { apply wp_ret, Hskip. unfold placed. rewrite Hds, Hsrc. eauto. }
    apply wp_bind. eapply wp_mono; [by apply wp_parent_created| |done].
    intros e c' [Hp' Hke]. apply wp_modify. pose proof Hit as Hit'.
    rewrite <- (planted_items _ _ _ Hp') in Hit'. rewrite (alter_insert_item _ _ _ it) by done.
    eapply planted_to_update; try done.
    split; [done|]. split; [apply Hpr|]. split_and!; simpl; try done; [|by eauto].
    by intros e' [= <-].
  - destruct Hshape as ((s & Hs) & Hnew & Hdst).
    assert (placed it) by (split; [destruct Hs as (_ & (e & -> & _) & _); eauto|congruence]).
    destruct (source it); by apply wp_ret, Hskip.
  - destruct Hshape as ((s & data & Hs & Hnew & Hed) & Hmv).
    pose proof Hs as (_ & (e & Hsrc & _) & _). rewrite Hsrc.
    destruct (destination it) as [e'|] eqn:Hdst.
    { apply wp_ret, Hskip. split; rewrite ?Hsrc, ?Hdst; eauto. }
    apply wp_bind, wp_some; [|by auto]. intros t ->.
    apply wp_bind. eapply wp_mono; [by apply wp_parent_created| |done].
    intros e' c' [Hp' Hke]. apply wp_modify. pose proof Hit as Hit'.
    rewrite <- (planted_items _ _ _ Hp') in Hit'. rewrite (alter_insert_item _ _ _ it) by done.
    pose proof (Forall2_lookup_lr _ _ _ _ _ _ (planted_prepared _ _ _ Hp') Hop Hit)
      as (_ & Hrec & (s' & data' & Hs' & Hnew' & Hed') & _).
    eapply planted_to_update; try done.
    split; [done|]. split; [done|]. split; [|by intros e2 [= <-]].
    exists s', data'. split; [|done]. destruct Hs' as (? & (e2 & ? & ?) & ?).
    split; [done|]. split; [|done]. exists e2. split; [simpl; congruence|done].
Qed.

(** ** One private file *)

(** From [c], the new file [fd] with inode [x] under the private name [k]. *)
Definition sprouted (c : State) (k : nat * pystr) (fd : nat) (x : Inode) (c' : State) : Prop :=
  ∃ f', c' = set_fs f' c ∧ entries f' = <[k := fd]> (entries (fs c)) ∧
    inodes f' = <[fd := x]> (inodes (fs c)).

(** The same after its name is gone again. *)
Definition withered (c : State) (fd : nat) (c' : State) : Prop :=
  ∃ f' x, c' = set_fs f' c ∧ entries f' = entries (fs c) ∧ inodes f' = <[fd := x]> (inodes (fs c)).

Lemma sprouted_change c k fd x c' g :
  sprouted c k fd x c' →
  ∃ t, sprouted c k fd (set_stamp t (g x)) (set_fs (change fd g (fs c')) c').
Proof.
  intros (f' & -> & He & Hi). exists (clock f'). exists (change fd g f').
  split; [done|]. split; [done|]. simpl. by rewrite Hi, alter_insert_eq.
Qed.

Lemma sprouted_inode c k fd x c' y : sprouted c k fd x c' → inodes (fs c') !! fd = Some y → y = x.
Proof. intros (f' & -> & _ & Hi). simpl. rewrite Hi, lookup_insert_eq. congruence. Qed.

(** The new file is filled while it is private. *)
Lemma wp_fill_stage c k fd x data u g c1 :
  sprouted c k fd x c1 →
  wp (call fault (sys_fchmod fd 384) ≫= λ _,
      call fault (sys_write fd data) ≫= λ _,
      call fault (sys_fsync fd) ≫= λ _,
      '(current, _) ← call fault (sys_fstat fd);
      (if bool_decide (uid current = u) && bool_decide (gid current = g) then mret tt
       else call fault (sys_fchown fd u g)) ≫= λ _,
      call fault (sys_fchmod fd 384))
    (λ _ c', ∃ y, sprouted c k fd y c' ∧ content y = Reg data ∧ uid y = u ∧ gid y = g)
    (λ _ c', ∃ y, sprouted c k fd y c') c1.
Proof.
  intros Hs. apply wp_bind, wp_call; [|by eauto]. intros f [] [= <-].
  destruct (sprouted_change _ _ _ _ _ (set_mode 384) Hs) as [t1 Hs1]. clear Hs.
  apply wp_bind, wp_call; [|by eauto]. intros f [] [= <-].
  destruct (sprouted_change _ _ _ _ _ (set_data data) Hs1) as [t2 Hs2]. clear Hs1.
  apply wp_bind, wp_fsync; [|by eauto]. apply wp_bind, wp_fstat; [|by eauto].
  intros y Hy. pose proof (sprouted_inode _ _ _ _ _ _ Hs2 Hy) as Hyx. apply wp_bind.
  match type of Hs2 with sprouted _ _ _ ?z _ => set (x2 := z) in * end.
  eapply (wp_mono _ (λ _ c', ∃ z, sprouted c k fd z c' ∧ content z = Reg data ∧ uid z = u ∧ gid z = g)
            _ (λ _ c', ∃ z, sprouted c k fd z c')); [| |done].
  - apply wp_if; intros Ho.
    + bool_prop. apply wp_ret. exists x2. subst y u g. done.
    + apply wp_call; [|by eauto]. intros f [] [= <-].
      destruct (sprouted_change _ _ _ _ _ (set_owner u g) Hs2) as [t3 Hs3].
      eexists. split; [exact Hs3|done].
  - intros [] c2 (z & Hs3 & Hz). apply wp_call; [|by eauto]. intros f [] [= <-].
    destruct (sprouted_change _ _ _ _ _ (set_mode 384) Hs3) as [t4 Hs4]. eauto.
Qed.

(** A failed stage is removed, or reported. *)
Lemma wp_discard_stage {A} c k fd y c1 original label (Q : A → State → Prop) R :
  entries (fs c) !! k = None → sprouted c k fd y c1 →
  (∀ e c', withered c fd c' → R e c') →
  (∀ e y c', sprouted c k fd y c' → is_rollback e = true → R e c') →
  wp (catch_os (call fault (sys_unlink k)) (λ _, raise (PatchRollbackError original [label] [label]))
      ≫= λ _, raise original) Q R c1.
Proof.
  intros Hfree Hs HRw HRs. apply wp_bind, wp_catch_os, wp_call.
  2:{ intros err. apply wp_raise. by eapply HRs. }
  intros f' [] (i & z & [Hi _]%lookup_inode_Some & _ & ->)%unlink_Ok. apply wp_raise, HRw.
  destruct Hs as (f2 & -> & He & Hin). simpl in *.
  assert (i = fd) as -> by (rewrite He, lookup_insert_eq in Hi; congruence).
  eexists _, _. split; [done|]. simpl.
  by rewrite He, delete_insert_id, Hin, alter_insert_eq by done.
Qed.

Lemma wp_private_temp at_ data u g (Q : Artifact → State → Prop) R c :
  let key n := (parent_fd at_, private ".odin-patch-stage-" (token n)) in
  (∀ n fd x c' a, entries (fs c) !! key n = None → inodes (fs c) !! fd = None →
     sprouted c (key n) fd x c' → content x = Reg data → uid x = u → gid x = g →
     a_fd a = Some fd → akey a = key n → named a = true → Q a c') →
  (∀ e, R e c) →
  (∀ fd e c', inodes (fs c) !! fd = None → withered c fd c' → R e c') →
  (∀ n fd x e c', entries (fs c) !! key n = None → inodes (fs c) !! fd = None →
     sprouted c (key n) fd x c' → is_rollback e = true → R e c') →
  wp (private_temp fault token euid egid root_value at_ data u g) Q R c.
Proof.
  intros key HQ HR HRw HRs. apply wp_bind.
  eapply (wp_allocate _ _ _ _ (λ c', c' = c)); [done| |by intros e c' ->].
  intros n c' ->. apply wp_unless_exists, wp_bind, wp_call; [|by intros []].
  intros f fd Hcr. unfold sys_creat in Hcr. fold (key n) in Hcr.
  destruct (entries (fs c) !! key n) as [|] eqn:Hfree; [done|].
  set (x := {| content := Reg []; mode := 384; uid := euid; gid := egid; stamp := 0 |}) in *.
  injection Hcr as Hf Hfd. apply wp_ret.
  assert (Hnew : inodes (fs c) !! fd = None) by (subst fd; apply (create_fresh (key n) x)).
  assert (Hs : ∃ x', sprouted c (key n) fd x' (set_fs f c)).
  { eexists. exists f. by subst f fd. }
  clear Hf Hfd. destruct Hs as (x' & Hs).
  apply wp_bind, wp_catch. eapply wp_mono; [by eapply wp_fill_stage| |].
  - intros [] c2 (y & Hs2 & Hc & Hu & Hg). apply wp_ret.
    by apply (HQ n fd y c2).
  - intros e c2 (y & Hs2). eapply wp_discard_stage; [done|done| |]; eauto.
Qed.

End phases.
