(* ===== verification/PatchSpec.v ===== *)
(** * What apply_patch promises

    Said of the file system before and after, with no mention of stages, slots or
    phases: a plan is applied, or nothing has happened, or, when the system itself
    failed during the recovery, the originals or the results are still there. *)

From S2P Require Import Prelude PyStr Patch PatchTheory PatchApply PatchParse.
From S2P Require Import PatchFs PatchTxn PatchLogic PatchPhases.
Open Scope string_scope.
Open Scope list_scope.
Open Scope Z_scope.

#[local] Notation E f := (entries f).

(** The inode a relative path names. *)
Definition inode_at (root : nat) (f : FS) (p : pystr) : option Inode :=
  k ← key_at root f p; snd <$> lookup_inode f k.

Lemma inode_at_Some root f p x :
  inode_at root f p = Some x ↔
  ∃ k i, key_at root f p = Some k ∧ E f !! k = Some i ∧ inodes f !! i = Some x.
Proof.
  unfold inode_at. destruct (key_at root f p) as [k|]; simpl; [|naive_solver]. split.
  - intros ([i y] & Hy & ->)%fmap_Some. apply lookup_inode_Some in Hy as [? ?]. eauto.
  - intros (k' & i & [= <-] & Hk & Hi). apply fmap_Some. exists (i, x).
    split; [by apply lookup_inode_Some|done].
Qed.

(** The exceptions of a recovery that failed, or of the system itself. *)
Definition rough (e : Raised) : bool :=
  match e with PatchRollbackError _ _ _ | OSErr _ => true | _ => false end.

Section spec.
Context (euid egid : Z) (root : nat).

(** The operation has taken effect, content and owner. *)
Definition op_data (f f' : FS) (op : Op) : Prop :=
  match op with
  | AddFile p text =>
      ∃ x data, inode_at root f' p = Some x ∧ utf8_encode text = Some data ∧
        content x = Reg data ∧ uid x = euid ∧ gid x = egid
  | DeleteFile p => is_Some (inode_at root f p) ∧ inode_at root f' p = None
  | UpdateFile p move_to hunks =>
      ∃ x x' old new, inode_at root f p = Some x ∧ content x = Reg old ∧ edited hunks old new ∧
        inode_at root f' (target_path op) = Some x' ∧ content x' = Reg new ∧
        uid x' = uid x ∧ gid x' = gid x ∧ (is_Some move_to → inode_at root f' p = None)
  end.

Definition op_mode (f f' : FS) (op : Op) : Prop :=
  match op with
  | AddFile p _ => mode <$> inode_at root f' p = Some 420
  | DeleteFile _ => True
  | UpdateFile p _ _ => mode <$> inode_at root f' (target_path op) = mode <$> inode_at root f p
  end.

(** A path of the plan names the entry. *)
Definition named_by (ops : list Op) (f : FS) (key : nat * pystr) : Prop :=
  ∃ p, p ∈ ops ≫= op_paths ∧ key_at root f p = Some key.

(** The results are there and no other entry is lost. *)
Record delivered (ops : list Op) (f f' : FS) : Prop := {
  de_ops : Forall (op_data f f') ops;
  de_rest key i : E f !! key = Some i → ¬ named_by ops f key → E f' !! key = Some i;
  de_data : data_kept f f'
}.

(** Moreover permissions are right and nothing is left over: what is new is a
    directory or a result. *)
Record applied (ops : list Op) (f f' : FS) : Prop := {
  app_delivered : delivered ops f f';
  app_modes : Forall (op_mode f f') ops;
  app_other i x : inodes f !! i = Some x →
    (∃ x', inodes f' !! i = Some x' ∧ mode x' = mode x) ∨
    ∃ key, named_by ops f key ∧ E f !! key = Some i;
  app_new key i : E f' !! key = Some i → E f !! key = None →
    dir_inode f' i ∨ named_by ops f' key
}.

(** Every entry, its content, owner and mode; what is new is a directory. *)
Record unchanged (f f' : FS) : Prop := {
  un_entries : E f ⊆ E f';
  un_inodes i x : inodes f !! i = Some x →
    ∃ x', inodes f' !! i = Some x' ∧ same_data x x' ∧ mode x' = mode x;
  un_new key i : E f' !! key = Some i → E f !! key = None → dir_inode f' i
}.

(** Every original file is still in its directory with its content and owner. *)
Record preserved (f f' : FS) : Prop := {
  pre_entries key i : E f !! key = Some i → ∃ key', key'.1 = key.1 ∧ E f' !! key' = Some i;
  pre_data : data_kept f f'
}.

(** ** What later system calls leave true *)

Lemma data_kept_trans f f' f'' : data_kept f f' → data_kept f' f'' → data_kept f f''.
Proof.
  intros H H' i x Hx. destruct (H _ _ Hx) as (x' & Hx' & ? & ? & ?).
  destruct (H' _ _ Hx') as (x'' & Hx'' & ? & ? & ?). exists x''. split; [done|].
  split_and!; congruence.
Qed.

Lemma walk_chmod f d p i m : walk (change i (set_mode m) f) d p = walk f d p.
Proof.
  revert d. induction p as [|n p IH]; intros d; simpl; [done|].
  unfold lookup_inode. simpl. destruct (E f !! (d, n)) as [j|]; simpl; [|done].
  destruct (decide (i = j)) as [<-|Hne].
  - rewrite lookup_alter_eq. destruct (inodes f !! i) as [x|]; simpl; [|done].
    unfold is_dir. simpl. case_bool_decide; [apply IH|done].
  - rewrite lookup_alter_ne by done. destruct (inodes f !! j) as [x|]; simpl; [|done].
    destruct (is_dir x); [apply IH|done].
Qed.

Lemma inode_at_chmod f p i m x :
  inode_at root f p = Some x →
  ∃ x', inode_at root (change i (set_mode m) f) p = Some x' ∧ same_data x x'.
Proof.
  intros (k & j & Hk & Hj & Hx)%inode_at_Some.
  exists (if bool_decide (i = j) then set_stamp (clock f) (set_mode m x) else x). split.
  - apply inode_at_Some. exists k, j. split; [|split; [done|by apply change_inode; exists x]].
    unfold key_at in *. by rewrite walk_chmod.
  - by case_bool_decide.
Qed.

Lemma inode_at_chmod_None f p i m :
  inode_at root f p = None → inode_at root (change i (set_mode m) f) p = None.
Proof.
  intros Hn. destruct (inode_at root (change i (set_mode m) f) p) as [x|] eqn:Hx; [|done].
  apply inode_at_Some in Hx as (k & j & Hk & Hj & (y & Hy & _)%change_inode).
  unfold key_at in Hk. rewrite walk_chmod in Hk.
  assert (inode_at root f p = Some y) by (apply inode_at_Some; eauto). congruence.
Qed.

(** What a change of files does to the operations already in effect: [keep] says
    that regular files stay where they are and [gone] that no path comes back. *)
Lemma op_data_later f f' f'' op :
  (∀ p x data, inode_at root f' p = Some x → content x = Reg data →
     ∃ x', inode_at root f'' p = Some x' ∧ same_data x x') →
  (∀ p, inode_at root f' p = None → inode_at root f'' p = None) →
  op_data f f' op → op_data f f'' op.
Proof.
  intros Hkeep Hgone. destruct op as [p text|p|p move_to hunks]; simpl.
  - intros (x & data & Hx & Henc & Hc & Hu & Hg). destruct (Hkeep _ _ _ Hx Hc) as (x' & Hx' & ? & ? & ?).
    exists x', data. split_and!; congruence.
  - intros [? ?]. auto.
  - intros (x & x' & old & new & Hx & Hc & Hed & Hx' & Hc' & Hu & Hg & Hmv).
    destruct (Hkeep _ _ _ Hx' Hc') as (x'' & Hx'' & ? & ? & ?).
    exists x, x'', old, new. split_and!; try congruence; auto.
Qed.

Lemma delivered_chmod ops f f' i m : delivered ops f f' → delivered ops f (change i (set_mode m) f').
Proof.
  intros [Ho Hr Hd]. split.
  - eapply Forall_impl; [exact Ho|]. intros op. apply op_data_later.
    + intros p x data Hx _. by apply inode_at_chmod.
    + intros p. apply inode_at_chmod_None.
  - exact Hr.
  - eapply data_kept_trans; [exact Hd|]. intros j x Hx. eexists.
    split; [apply change_inode; eauto|]. by case_bool_decide.
Qed.

Lemma preserved_chmod f f' i m : preserved f f' → preserved f (change i (set_mode m) f').
Proof.
  intros [He Hd]. split; [exact He|]. eapply data_kept_trans; [exact Hd|]. intros j x Hx. eexists.
  split; [apply change_inode; eauto|]. by case_bool_decide.
Qed.

(** *** Removing an empty directory *)

Lemma names_in_elem f d n i : E f !! (d, n) = Some i → n ∈ names_in f d.
Proof.
  intros Hk. unfold names_in. apply list_elem_of_omap. exists ((d, n), i).
  split; [by apply elem_of_map_to_list|]. by rewrite bool_decide_eq_true_2.
Qed.

(** The walk to an existing entry passes through no empty directory. *)
Lemma walk_rmdir f f' k d p e n i :
  sys_rmdir k f = Ok (f', tt) → walk f d p = Some e → E f !! (e, n) = Some i →
  walk f' d p = Some e.
Proof.
  intros (j & x & [Hj _]%lookup_inode_Some & _ & Hempty & ->)%rmdir_Ok.
  revert d. induction p as [|m p IH]; intros d Hw Hn; simpl in *; [done|].
  destruct (lookup_inode f (d, m)) as [[j' y]|] eqn:Hy; [|done].
  destruct (is_dir y) eqn:Hd; [|done]. apply lookup_inode_Some in Hy as [Hj' Hy].
  assert (Hne : k ≠ (d, m)).
  { intros ->. assert (j' = j) as -> by congruence.
    assert (Hin : ∃ n' i', E f !! (j, n') = Some i').
    { destruct p as [|m' p]; simpl in Hw; [injection Hw as <-; eauto|].
      destruct (lookup_inode f (j, m')) as [[i' z]|] eqn:Hz; [|done].
      apply lookup_inode_Some in Hz as [? _]. eauto. }
    destruct Hin as (n' & i' & Hin). apply names_in_elem in Hin. rewrite Hempty in Hin.
    by apply not_elem_of_nil in Hin. }
  assert (Hl : lookup_inode (with_entries (delete k (E f)) f) (d, m) = Some (j', y)).
  { apply lookup_inode_Some. simpl. by rewrite lookup_delete_ne. }
  rewrite Hl, Hd. by apply IH.
Qed.

Lemma walk_fewer f f' d p e : E f' ⊆ E f → inodes f' = inodes f → walk f' d p = Some e → walk f d p = Some e.
Proof.
  intros He Hi. apply walk_extends. split; [done|]. rewrite Hi. eauto.
Qed.

Lemma delivered_rmdir ops f f' f'' k :
  sys_rmdir k f' = Ok (f'', tt) → E f !! k = None → delivered ops f f' → delivered ops f f''.
Proof.
  intros Hrm Hk [Ho Hr Hd]. pose proof (rmdir_Ok _ _ _ Hrm) as (j & y & Hy & Hdir & Hempty & Hf).
  apply lookup_inode_Some in Hy as [Hkj Hy].
  assert (He : E f'' = delete k (E f')) by by subst. assert (Hin : inodes f'' = inodes f') by by subst.
  split.
  - eapply Forall_impl; [exact Ho|]. intros op. apply op_data_later.
    + intros p x data (key & i & Hkey & Hi & Hx)%inode_at_Some Hc. exists x. split; [|done].
      apply inode_at_Some. exists key, i. rewrite He, Hin. split_and!; try done.
      * unfold key_at in *. destruct (walk f' root _) as [e|] eqn:Hw; [|done]. injection Hkey as <-.
        by rewrite (walk_rmdir _ _ _ _ _ _ _ _ Hrm Hw Hi).
      * rewrite lookup_delete_ne; [done|]. intros ->. assert (j = i) as -> by congruence.
        assert (y = x) as -> by congruence. unfold is_dir in Hdir. bool_prop. congruence.
    + intros p Hn. destruct (inode_at root f'' p) as [x|] eqn:Hx; [|done].
      apply inode_at_Some in Hx as (key & i & Hkey & Hi & Hx).
      rewrite He in Hi. apply lookup_delete_Some in Hi as [_ Hi]. rewrite Hin in Hx.
      assert (Hk' : key_at root f' p = Some key).
      { unfold key_at in *. destruct (walk f'' root _) as [e|] eqn:Hw; [|done].
        erewrite walk_fewer; [exact Hkey| |exact Hin|exact Hw]. rewrite He. apply delete_subseteq. }
      assert (inode_at root f' p = Some x) by (apply inode_at_Some; eauto). congruence.
  - intros key i Hki Hno. rewrite He, lookup_delete_ne by congruence. by apply Hr.
  - eapply data_kept_trans; [exact Hd|]. intros i x Hx. exists x. by rewrite Hin.
Qed.


End spec.
