(* ===== verification/PatchItem.v ===== *)
(** * The apply_patch transaction: stages and items

    After the parents exist every item has its two entries; they are distinct across
    the plan because its paths are, and no private name is one of them.  Staging adds
    one private file per new content and nothing else.

    An item owns a few entries: its source and destination, its stage, its recovery
    slot.  Where it stands is a predicate on those entries: [home] as staging left
    it, [away] with its source in the slot, [out] with its stage published; [midway]
    holds wherever a commit stops and [done] when it went through. *)

From S2P Require Import Prelude PyStr Patch PatchTheory PatchApply PatchParse PatchFs PatchTxn.
From S2P Require Import PatchLogic PatchPhases.
Open Scope string_scope.
Open Scope list_scope.
Open Scope Z_scope.

Lemma NoDup_bind_index {A B} (l : list A) (g : A → list B) j k x y b :
  NoDup (l ≫= g) → l !! j = Some x → l !! k = Some y → b ∈ g x → b ∈ g y → j = k.
Proof.
  revert j k. induction l as [|z l IH]; intros j k; [done|]. rewrite bind_cons, NoDup_app.
  intros (Hz & Hdis & Hl) Hj Hk Hx Hy.
  assert (Hin : ∀ i w, l !! i = Some w → b ∈ g w → b ∈ l ≫= g).
  { intros i w Hi Hw. apply list_elem_of_bind. exists w. split; [done|].
    by eapply list_elem_of_lookup_2. }
  destruct j as [|j], k as [|k]; simpl in *; simplify_eq; [done|..|f_equal; eauto];
    exfalso; [apply (Hdis b Hx)|apply (Hdis b Hy)]; eauto.
Qed.

Lemma NoDup_bind_lookup {A B} (l : list A) (g : A → list B) k x :
  NoDup (l ≫= g) → l !! k = Some x → NoDup (g x).
Proof.
  revert k. induction l as [|y l IH]; intros k; [done|]. rewrite bind_cons, NoDup_app.
  intros (Hy & _ & Hl). destruct k as [|k]; simpl; [by intros [= <-]|eauto].
Qed.

Lemma private_ne t t' : private ".odin-patch-stage-" t ≠ private ".odin-patch-recovery-" t'.
Proof. intros H. apply (f_equal (λ l, l !! 12%nat)) in H. vm_compute in H. discriminate H. Qed.

(** The public entries of an item. *)
Definition ends (it : Item) : list (nat * pystr) :=
  omap (fmap entry_key) [source it; destination it].

Lemma elem_of_ends it k :
  k ∈ ends it ↔ (∃ e, source it = Some e ∧ k = entry_key e) ∨
                (∃ e, destination it = Some e ∧ k = entry_key e).
Proof. unfold ends. simpl. destruct (source it), (destination it); simpl; set_solver. Qed.

Lemma source_end it e : source it = Some e → entry_key e ∈ ends it.
Proof. intros H. apply elem_of_ends. eauto. Qed.

Lemma destination_end it e : destination it = Some e → entry_key e ∈ ends it.
Proof. intros H. apply elem_of_ends. eauto. Qed.

Section stage.
Context (token : nat → pystr) (euid egid : Z).
Context (root : nat) (f0 : FS) (ops : list Op) (f1 : FS) (its1 : list Item).

Notation prepared := (prepared euid egid root f0).
Notation aborted := (aborted f0).

(** The tokens cannot be guessed: no path of the plan ends in a private name. *)
Definition unpredictable : Prop :=
  ∀ pre n p, p ∈ ops ≫= op_paths → private pre (token n) ≠ default [] (last (posix_parts p)).

Record layout : Prop := {
  lay_plan : wf_plan ops;
  lay_fresh : unpredictable;
  lay_grown : grown root f0 f1;
  lay_prepared : Forall2 (prepared f1) ops its1;
  lay_stages : Forall (λ it, stage it = None) its1;
  lay_placed k it : its1 !! k = Some it → placed it
}.

Lemma ends_path op it k :
  prepared f1 op it → k ∈ ends it → ∃ p, p ∈ op_paths op ∧ key_at root f1 p = Some k.
Proof.
  intros (_ & _ & Hp) Hk.
  pose proof (proj1 (elem_of_ends _ _) Hk) as Hin.
  assert (Hsrc : ∀ p s, sourced root f0 f1 p it s → ∀ e, source it = Some e →
            key_at root f1 p = Some (entry_key e)).
  { intros p s (_ & (e' & ? & ? & _) & _) e He. congruence. }
  destruct op as [p content|p|p move_to hunks]; simpl.
  - destruct Hp as (_ & Hd & Haim & _). exists p. split; [left|].
    rewrite Hd in Hin. destruct Hin as [(e & He & ->)|(e & He & ->)]; apply Haim; congruence.
  - destruct Hp as ((s & Hs) & _ & Hd). exists p. split; [left|].
    destruct Hin as [(e & He & ->)|(e & He & ->)]; [eauto|congruence].
  - destruct Hp as ((s & data & Hs & _) & Hmv). destruct move_to as [t|].
    + destruct Hin as [(e & He & ->)|(e & He & ->)]; [exists p|exists t]; (split; [|by eauto]); [left|right; left].
    + exists p. split; [left|]. rewrite Hmv in Hin.
      destruct Hin as [(e & He & ->)|(e & He & ->)]; eauto.
Qed.

Context (HL : layout).

Lemma layout_op k it : its1 !! k = Some it → ∃ op, ops !! k = Some op ∧ prepared f1 op it.
Proof. intros Hk. apply (Forall2_lookup_r _ _ _ _ _ (lay_prepared HL) Hk). Qed.

Lemma plan_safe p : p ∈ ops ≫= op_paths → safe_path p.
Proof.
  intros (op & Hp & Hop)%list_elem_of_bind. destruct (lay_plan HL) as (_ & Hwf & _).
  rewrite Forall_forall in Hwf. destruct (Hwf _ Hop) as (Hsafe & _).
  by eapply Forall_forall in Hsafe.
Qed.

Lemma op_path_plan k op p : ops !! k = Some op → p ∈ op_paths op → p ∈ ops ≫= op_paths.
Proof. intros Hk Hp. apply list_elem_of_bind. eauto using list_elem_of_lookup_2. Qed.

Lemma ends_distinct j k it it' key :
  its1 !! j = Some it → its1 !! k = Some it' → key ∈ ends it → key ∈ ends it' → j = k.
Proof.
  intros Hj Hk Hi Hi'.
  destruct (layout_op _ _ Hj) as (op & Hop & Hpr), (layout_op _ _ Hk) as (op' & Hop' & Hpr').
  destruct (ends_path _ _ _ Hpr Hi) as (p & Hp & Hkey).
  destruct (ends_path _ _ _ Hpr' Hi') as (p' & Hp' & Hkey').
  assert (p = p') as <-.
  { eapply key_at_inj; [apply (lay_grown HL)|..|done|done]; apply plan_safe; eauto using op_path_plan. }
  destruct (lay_plan HL) as (_ & _ & Hnd). by eapply NoDup_bind_index.
Qed.

Lemma ends_public k it key pre n : its1 !! k = Some it → key ∈ ends it → key.2 ≠ private pre (token n).
Proof.
  intros Hk Hi. destruct (layout_op _ _ Hk) as (op & Hop & Hpr).
  destruct (ends_path _ _ _ Hpr Hi) as (p & Hp & Hkey). unfold key_at in Hkey.
  destruct (walk _ _ _); [|done]. injection Hkey as <-. simpl. intros Heq.
  by eapply (lay_fresh HL pre n p); [eapply op_path_plan|].
Qed.

(** A move ends at an entry of its own; any other operation ends where it starts. *)
Lemma move_ends k it e d :
  its1 !! k = Some it → source it = Some e → destination it = Some d →
  match op_move (it_op it) with
  | Some _ => entry_key e ≠ entry_key d
  | None => destination it = source it
  end.
Proof.
  intros Hk He Hd. destruct (layout_op _ _ Hk) as (op & Hop & (Hio & _ & Hp)). rewrite Hio.
  destruct op as [p content|p|p [t|] hunks]; simpl.
  - by destruct Hp as (_ & ? & _).
  - destruct Hp as (_ & _ & ?). congruence.
  - destruct Hp as ((s & data & (_ & (e' & He' & Hke & _) & _) & _) & Haim).
    specialize (Haim _ Hd). assert (e' = e) as -> by congruence. intros Heq. rewrite <- Heq in Haim.
    destruct (lay_plan HL) as (_ & Hwf & Hnd). rewrite Forall_lookup in Hwf.
    assert (Hpt : p = t).
    { eapply key_at_inj; [apply (lay_grown HL)|..|exact Hke|exact Haim];
        apply plan_safe; eapply op_path_plan; try done; simpl; eauto using list_elem_of_here, list_elem_of_further. }
    pose proof (NoDup_bind_lookup _ _ _ _ Hnd Hop) as Hndop.
    simpl in Hndop. rewrite Hpt in Hndop. apply NoDup_cons in Hndop as [Hn _]. by destruct Hn; left.
  - by destruct Hp as (_ & ?).
Qed.

(** ** Staging *)

(** An item without its private files. *)
Definition base (it : Item) : Item := set_recovery None (set_stage None it).

(** The stage of an item: a private file, new since [f1], with the item's content. *)
Record stage_file (f : FS) (it : Item) (a : Artifact) (fd : nat) : Prop := {
  sf_fd : a_fd a = Some fd;
  sf_private : ∃ n, (akey a).2 = private ".odin-patch-stage-" (token n);
  sf_entry : entries f1 !! akey a = None;
  sf_inode : inodes f1 !! fd = None;
  sf_content : ∃ x data, new it = Some data ∧ inodes f !! fd = Some x ∧ content x = Reg data ∧
    uid x = it_uid it ∧ gid x = it_gid it
}.

Definition new_stages (its : list Item) : Prop :=
  ∀ j j' it it' a a', its !! j = Some it → its !! j' = Some it' →
    stage it = Some a → stage it' = Some a' → akey a = akey a' ∨ a_fd a = a_fd a' → j = j'.

Record staged (k : nat) (c : State) : Prop := {
  st_base : base <$> items c = its1;
  st_recovery : Forall (λ it, recovery it = None) (items c);
  st_early j it : items c !! j = Some it → (j < k)%nat → is_Some (new it) → is_Some (stage it);
  st_late j it : items c !! j = Some it → (k <= j)%nat → stage it = None;
  st_entries : entries f1 ⊆ entries (fs c);
  st_new key i : entries (fs c) !! key = Some i → entries f1 !! key = None → staged_at c key;
  st_inodes : inodes f1 ⊆ inodes (fs c);
  st_stage j it a : items c !! j = Some it → stage it = Some a →
    named a = true ∧ ∃ fd, entries (fs c) !! akey a = Some fd ∧ stage_file (fs c) it a fd;
  st_distinct : new_stages (items c);
  st_created cr : cr ∈ created c → entries f0 !! c_at cr = None ∧
    ∃ x, lookup_inode f1 (c_at cr) = Some (c_expected cr, x) ∧ is_dir x = true;
  st_committed : committed c = [];
  st_flags : preserve c = false ∧ keep c = false
}.

Lemma f0_f1_entry key : entries f1 !! key = None → entries f0 !! key = None.
Proof. intros H. eapply lookup_weaken_None; [exact H|apply (lay_grown HL)]. Qed.

Lemma f0_f1_inode i x : inodes f0 !! i = Some x → inodes f1 !! i = Some x.
Proof. intros H. eapply lookup_weaken; [exact H|apply (lay_grown HL)]. Qed.

(** A state with the original files in place and the stages among its items. *)
Lemma staged_aborted k c e : staged k c → aborted e c.
Proof.
  intros []. assert (Hin : inodes f0 ⊆ inodes (fs c)).
  { etrans; [apply (lay_grown HL)|done]. }
  assert (Hkeep : ∀ i x, inodes f0 !! i = Some x → inodes (fs c) !! i = Some x).
  { intros i x Hx. by eapply lookup_weaken. }
  split; [|right]; split; try done.
  - etrans; [apply (lay_grown HL)|done].
  - intros i x Hx. exists x. by split; [apply Hkeep|].
  - intros key (j & it & a & Hj & Ha & _ & <-). apply f0_f1_entry.
    destruct (st_stage0 _ _ _ Hj Ha) as (_ & fd & _ & []). done.
  - intros j it a Hj Ha. rewrite Forall_lookup in st_recovery0.
    rewrite (st_recovery0 _ _ Hj) in Ha. done.
  - intros cr Hcr. by apply st_created0.
  - intros key i Hk Hk0. destruct (entries f1 !! key) as [i'|] eqn:Hk1; [left|right; eauto].
    assert (i' = i) as -> by (pose proof (lookup_weaken _ _ _ _ Hk1 st_entries0); congruence).
    destruct (grown_new _ _ _ (lay_grown HL) _ _ Hk1 Hk0) as [(x & Hx & Hd) _].
    exists x. split; [|done]. by eapply lookup_weaken.
  - intros i x Hx. exists x. auto.
Qed.

Lemma stage_file_inodes f f' it a fd :
  stage_file f it a fd → inodes f' !! fd = inodes f !! fd → stage_file f' it a fd.
Proof.
  intros [? ? ? ? (x & data & ? & ? & ?)] Hi. split; try done. exists x, data. by rewrite Hi.
Qed.

(** A fresh inode without a name changes nothing. *)
Lemma staged_withered k c fd c' :
  staged k c → inodes (fs c) !! fd = None → withered c fd c' → staged k c'.
Proof.
  intros [] Hfd (f' & x & -> & He & Hi). split; try done; simpl; rewrite ?He, ?Hi; try done.
  - etrans; [exact st_inodes0|]. by apply insert_subseteq.
  - intros j it a Hj Ha. destruct (st_stage0 _ _ _ Hj Ha) as (? & fd' & ? & Hsf).
    split; [done|]. exists fd'. split; [done|].
    eapply stage_file_inodes; [exact Hsf|]. rewrite Hi.
    destruct Hsf as [_ _ _ _ (y & ? & _ & Hy & _)]. by rewrite lookup_insert_ne by congruence.
Qed.

Lemma base_lookup c j it : base <$> items c = its1 → items c !! j = Some it → its1 !! j = Some (base it).
Proof. intros <- Hj. by rewrite list_lookup_fmap, Hj. Qed.

Lemma base_insert c k it it' :
  base <$> items c = its1 → items c !! k = Some it → base it' = base it →
  base <$> <[k := it']> (items c) = its1.
Proof.
  intros Hb Hk Heq. rewrite list_fmap_insert, Hb, Heq. apply list_insert_id.
  by eapply base_lookup.
Qed.

Lemma items_insert_cases k it' (l : list Item) j it :
  <[k := it']> l !! j = Some it → (j = k ∧ it = it') ∨ (j ≠ k ∧ l !! j = Some it).
Proof. intros [(-> & -> & _)|[? ?]]%list_lookup_insert_Some; auto. Qed.

(** The new stage joins the others. *)
Lemma staged_add k c c' it data n fd x a dst :
  staged k c → items c !! k = Some it → new it = Some data → destination it = Some dst →
  entries (fs c) !! (parent_fd dst, private ".odin-patch-stage-" (token n)) = None →
  inodes (fs c) !! fd = None →
  sprouted c (parent_fd dst, private ".odin-patch-stage-" (token n)) fd x c' →
  content x = Reg data → uid x = it_uid it → gid x = it_gid it → a_fd a = Some fd →
  akey a = (parent_fd dst, private ".odin-patch-stage-" (token n)) → named a = true →
  staged (S k) (set_items (<[k := set_stage (Some a) it]> (items c)) c').
Proof.
  intros Hst Hk Hnew Hdst Hfree Hfd (f' & -> & He & Hi) Hx Hu Hg Hafd Hkey Hnamed.
  pose proof Hst as []. set (key := (parent_fd dst, private ".odin-patch-stage-" (token n))) in *.
  assert (Hkey1 : entries f1 !! key = None) by (by eapply lookup_weaken_None).
  assert (Hfd1 : inodes f1 !! fd = None) by (by eapply lookup_weaken_None).
  assert (Hsub : entries (fs c) ⊆ entries f') by (rewrite He; by apply insert_subseteq).
  assert (Hold : ∀ j it2 a2, items c !! j = Some it2 → stage it2 = Some a2 → j ≠ k).
  { intros j it2 a2 Hj Ha2 ->. rewrite Hk in Hj. injection Hj as <-.
    rewrite (st_late0 k it) in Ha2 by (done || lia). done. }
  split; simpl; try done.
  - by eapply base_insert.
  - apply Forall_insert; [done|]. rewrite Forall_lookup in st_recovery0. exact (st_recovery0 k it Hk).
  - intros j it2 [[-> ->]|[Hne Hj]]%items_insert_cases Hlt Hn; [by eexists|].
    apply (st_early0 j); [done|lia|done].
  - intros j it2 [[-> ->]|[Hne Hj]]%items_insert_cases Hle; [lia|]. apply (st_late0 j); [done|lia].
  - by etrans.
  - intros key2 i. rewrite He, lookup_insert_Some. intros [[<- <-]|[Hne Hk2]] Hk20.
    + exists k, (set_stage (Some a) it), a. simpl. rewrite list_lookup_insert_eq by eauto using lookup_lt_Some.
      done.
    + destruct (st_new0 _ _ Hk2 Hk20) as (j & it2 & a2 & Hj & Ha2 & ?). exists j, it2, a2. simpl.
      rewrite list_lookup_insert_ne; [done|]. by apply not_eq_sym, (Hold j it2 a2).
  - etrans; [exact st_inodes0|]. rewrite Hi. by apply insert_subseteq.
  - intros j it2 a2 [[-> ->]|[Hne Hj]]%items_insert_cases Ha2.
    + injection Ha2 as <-. split; [done|]. exists fd. rewrite Hkey, He, lookup_insert_eq.
      split; [done|]. split; rewrite ?Hkey; try done; [by exists n|].
      exists x, data. rewrite Hi, lookup_insert_eq. done.
    + destruct (st_stage0 _ _ _ Hj Ha2) as (? & fd2 & Hfd2 & Hsf). split; [done|]. exists fd2.
      split; [by eapply lookup_weaken|]. eapply stage_file_inodes; [exact Hsf|].
      destruct Hsf as [_ _ _ _ (y & ? & _ & Hy & _)]. rewrite Hi.
      by rewrite lookup_insert_ne by congruence.
  - assert (Hno : ∀ j it2 a2, items c !! j = Some it2 → stage it2 = Some a2 →
              akey a2 ≠ key ∧ a_fd a2 ≠ Some fd).
    { intros j it2 a2 Hj Ha2. destruct (st_stage0 _ _ _ Hj Ha2) as (_ & fd2 & Hfd2 & [Haf _ _ _ (y & ? & _ & Hy & _)]).
      split; congruence. }
    intros j j' it2 it2' a2 a2' [[-> ->]|[Hne Hj]]%items_insert_cases
      [[-> ->]|[Hne' Hj']]%items_insert_cases Ha Ha' Hor; try done.
    + injection Ha as <-. destruct (Hno _ _ _ Hj' Ha'). destruct Hor; congruence.
    + injection Ha' as <-. destruct (Hno _ _ _ Hj Ha). destruct Hor; congruence.
    + by eapply (st_distinct0 j j').
Qed.

(** A private file that could not be removed again is reported. *)
Lemma staged_leak k c key fd x e c' :
  staged k c → entries (fs c) !! key = None → inodes (fs c) !! fd = None →
  sprouted c key fd x c' → is_rollback e = true → aborted e c'.
Proof.
  intros Hst Hk Hfd (f' & -> & He & Hi) Hr.
  destruct (staged_aborted _ _ e Hst) as [[Hen Hdata Hstg Hsl Hcr Hfl] _]. split; [|by left].
  split; simpl; try done.
  - rewrite He. etrans; [exact Hen|]. by apply insert_subseteq.
  - intros i y Hy. destruct (Hdata _ _ Hy) as (y' & Hy' & ?). exists y'. split; [|done]. simpl.
    by rewrite Hi, lookup_insert_ne by congruence.
Qed.

Context (fault : nat → Fault) (root_value : pystr).

Lemma wp_stage_item k c :
  staged k c → (k < length its1)%nat →
  wp (stage_item fault token euid egid root_value k) (λ _, staged (S k)) aborted c.
Proof.
  intros Hst Hlt. assert (HR : ∀ k c e, staged k c → aborted e c) by (intros; by eapply staged_aborted).
  apply wp_bind, wp_get_item; [|by eauto]. intros it Hit.
  pose proof (base_lookup _ _ _ (st_base _ _ Hst) Hit) as Hb.
  destruct (lay_placed HL _ _ Hb) as [_ Hdst]. simpl in Hdst.
  destruct (new it) as [data|] eqn:Hnew.
  - destruct (Hdst ltac:(done)) as [dst Hd]. apply wp_bind, wp_some; [|congruence].
    intros dst' Hd'. assert (dst' = dst) as -> by congruence.
    apply wp_bind, wp_private_temp; [| |by eauto using staged_withered|by eauto using staged_leak].
    + intros n fd x c' a Hfree Hfd Hs Hx Hu Hg Ha Hka Hn. apply wp_modify.
      assert (Hit' : items c' !! k = Some it) by by destruct Hs as (f' & -> & _).
      rewrite (alter_insert_item _ _ _ it) by done.
      assert (items c' = items c) as -> by by destruct Hs as (f' & -> & _).
      by eapply staged_add.
    + intros e. by eapply HR.
  - apply wp_ret. destruct Hst. split; try done.
    + intros j it2 Hj Hlt2 Hn. destruct (decide (j = k)) as [->|].
      { simplify_eq. rewrite Hnew in Hn. by destruct Hn. }
      apply (st_early0 j); [done|lia|done].
    + intros j it2 Hj Hle. apply (st_late0 j); [done|lia].
Qed.

Lemma staged_start c : planted euid egid root f0 ops its1 c → fs c = f1 → staged 0 c.
Proof.
  intros [? ? Hcr ? ? Hits Hpr Hs] Hf.
  assert (Hnone : ∀ j it, items c !! j = Some it → stage it = None ∧ recovery it = None).
  { intros j it Hj. rewrite Hits in Hj. rewrite Forall_lookup in Hs. split; [by eapply Hs|].
    destruct (Forall2_lookup_r _ _ _ _ _ Hpr Hj) as (op & _ & (_ & ? & _)). done. }
  rewrite Hf in Hcr. split; rewrite ?Hf; try done.
  - apply list_eq. intros j. rewrite list_lookup_fmap, Hits. destruct (its1 !! j) as [it|] eqn:Hj; [|done].
    simpl. f_equal. rewrite <- Hits in Hj. destruct (Hnone _ _ Hj). by destruct it; simpl in *; subst.
  - apply Forall_lookup. intros j it Hj. by eapply Hnone.
  - intros j it _ ?. lia.
  - intros j it Hj _. by eapply Hnone.
  - intros key i Hk Hn. congruence.
  - intros j it a Hj Ha. destruct (Hnone _ _ Hj). congruence.
  - intros j j' it it' a a' Hj _ Ha. destruct (Hnone _ _ Hj). congruence.
Qed.

End stage.

(** * The apply_patch transaction: one item *)

Create HintDb own.

#[local] Arguments akey : simpl never.
#[local] Notation E f := (entries f).

(** ** Progress of one item *)

Definition own (it : Item) : list (nat * pystr) :=
  ends it ++ option_list (akey <$> stage it) ++ option_list (akey <$> recovery it).

(** The item differs from its staged form by its slot and by the name of its stage. *)
Definition variant (it2 it : Item) : Prop :=
  ∃ r b, it = set_recovery r (set_stage (set_named b <$> stage it2) it2).

Definition moves (it : Item) : Prop := op_move (it_op it) ≠ None.

Definition at_home (f : FS) (it : Item) : Prop :=
  ∀ s e, snapshot it = Some s → source it = Some e → E f !! entry_key e = Some (s_fd s).

Definition slot_idle (f : FS) (it : Item) : Prop :=
  ∀ a, recovery it = Some a → named a = false ∧ E f !! akey a = None.

(** The source is in the recovery slot. *)
Definition retired (f : FS) (it : Item) : Prop :=
  ∀ s, snapshot it = Some s → ∃ a, recovery it = Some a ∧ E f !! akey a = Some (s_fd s).

Definition unpublished (f : FS) (it : Item) : Prop :=
  ∀ a, stage it = Some a → named a = true ∧ E f !! akey a = a_fd a.

(** Nothing is at a destination that was free. *)
Definition clear (f : FS) (it : Item) : Prop :=
  (snapshot it = None → ∀ e, source it = Some e → E f !! entry_key e = None) ∧
  (moves it → ∀ d, destination it = Some d → E f !! entry_key d = None).

Definition published (f : FS) (it : Item) : Prop :=
  ∃ a d, stage it = Some a ∧ destination it = Some d ∧ E f !! akey a = None ∧
    E f !! entry_key d = a_fd a.

Definition source_gone (f : FS) (it : Item) : Prop :=
  ∀ s e, snapshot it = Some s → source it = Some e → E f !! entry_key e = None.

Definition home (f : FS) (it : Item) : Prop :=
  at_home f it ∧ slot_idle f it ∧ unpublished f it ∧ clear f it.
Definition away (f : FS) (it : Item) : Prop :=
  retired f it ∧ source_gone f it ∧ unpublished f it ∧ clear f it.
Definition out (f : FS) (it : Item) : Prop :=
  retired f it ∧ published f it ∧ (moves it → source_gone f it).

Definition midway (f : FS) (it : Item) : Prop := home f it ∨ away f it ∨ out f it.

Definition done (f : FS) (it : Item) : Prop :=
  (∀ a, recovery it = Some a → named a = true ∧ is_Some (E f !! akey a)) ∧
  (∀ a, stage it = Some a → named a = false) ∧
  match stage it with
  | None => away f it
  | Some a => out f it ∧ ∀ fd, a_fd a = Some fd →
      ∃ x, inodes f !! fd = Some x ∧ mode x = it_mode it
  end.

Lemma done_midway f it : done f it → midway f it.
Proof. intros (_ & _ & H). unfold midway. destruct (stage it); [right; right; by destruct H|by right; left]. Qed.

(** A slot is in the directory of the source. *)
Definition beside (it : Item) (a : Artifact) : Prop :=
  ∀ e, source it = Some e → (akey a).1 = parent_fd e.

(** The inodes an item may change. *)
Definition fds_of (it : Item) : list nat :=
  option_list (s_fd <$> snapshot it) ++ option_list (stage it ≫= a_fd).

(** Progress looks at the item's own entries and at the mode of its stage. *)
Definition local (Φ : FS → Item → Prop) : Prop :=
  ∀ f f' it, (∀ key, key ∈ own it → E f' !! key = E f !! key) →
    (∀ a fd x, stage it = Some a → a_fd a = Some fd → inodes f !! fd = Some x →
       ∃ x', inodes f' !! fd = Some x' ∧ mode x' = mode x) →
    Φ f it → Φ f' it.

Lemma own_source it e : source it = Some e → entry_key e ∈ own it.
Proof. intros H. apply elem_of_app. left. by apply source_end. Qed.
Lemma own_destination it e : destination it = Some e → entry_key e ∈ own it.
Proof. intros H. apply elem_of_app. left. by apply destination_end. Qed.
Lemma own_stage it a : stage it = Some a → akey a ∈ own it.
Proof. intros H. unfold own. rewrite H. simpl. set_solver. Qed.
Lemma own_recovery it a : recovery it = Some a → akey a ∈ own it.
Proof. intros H. unfold own. rewrite H. simpl. set_solver. Qed.

#[export] Hint Resolve own_source own_destination own_stage own_recovery : own.

Section ext.
Context (f f' : FS) (it : Item) (Hown : ∀ key, key ∈ own it → E f' !! key = E f !! key).

Lemma at_home_ext : at_home f it → at_home f' it.
Proof. intros H s e Hs He. rewrite Hown by auto with own. auto. Qed.
Lemma slot_idle_ext : slot_idle f it → slot_idle f' it.
Proof. intros H a Ha. rewrite Hown by auto with own. auto. Qed.
Lemma retired_ext : retired f it → retired f' it.
Proof. intros H s Hs. destruct (H s Hs) as (a & Ha & ?). exists a. by rewrite Hown by auto with own. Qed.
Lemma unpublished_ext : unpublished f it → unpublished f' it.
Proof. intros H a Ha. rewrite Hown by auto with own. auto. Qed.
Lemma clear_ext : clear f it → clear f' it.
Proof.
  intros [H1 H2]. split; [intros Hs e He|intros Hm d Hd]; rewrite Hown by auto with own; auto.
Qed.
Lemma published_ext : published f it → published f' it.
Proof.
  intros (a & d & Ha & Hd & H1 & H2). exists a, d.
  by rewrite (Hown (akey a)), (Hown (entry_key d)) by auto with own.
Qed.
Lemma source_gone_ext : source_gone f it → source_gone f' it.
Proof. intros H s e Hs He. rewrite Hown by auto with own. eauto. Qed.
End ext.

Lemma home_ext f f' it : (∀ key, key ∈ own it → E f' !! key = E f !! key) → home f it → home f' it.
Proof.
  intros Ho (H1 & H2 & H3 & H4).
  exact (conj (at_home_ext _ _ _ Ho H1) (conj (slot_idle_ext _ _ _ Ho H2)
          (conj (unpublished_ext _ _ _ Ho H3) (clear_ext _ _ _ Ho H4)))).
Qed.
Lemma away_ext f f' it : (∀ key, key ∈ own it → E f' !! key = E f !! key) → away f it → away f' it.
Proof.
  intros Ho (H1 & H2 & H3 & H4).
  exact (conj (retired_ext _ _ _ Ho H1) (conj (source_gone_ext _ _ _ Ho H2)
          (conj (unpublished_ext _ _ _ Ho H3) (clear_ext _ _ _ Ho H4)))).
Qed.
Lemma out_ext f f' it : (∀ key, key ∈ own it → E f' !! key = E f !! key) → out f it → out f' it.
Proof.
  intros Ho (H1 & H2 & H3).
  exact (conj (retired_ext _ _ _ Ho H1) (conj (published_ext _ _ _ Ho H2)
          (λ Hm, source_gone_ext _ _ _ Ho (H3 Hm)))).
Qed.

Lemma midway_local : local midway.
Proof.
  intros f f' it Ho _ [H|[H|H]]; unfold midway; eauto using home_ext, away_ext, out_ext.
Qed.

Lemma done_local : local done.
Proof.
  intros f f' it Ho Hin (Hr & Hs & H). split; [|split; [done|]].
  { intros a Ha. rewrite Ho by auto with own. auto. }
  destruct (stage it) as [a|] eqn:Ha; [|by eapply away_ext].
  destruct H as [H1 H2]. split; [by eapply out_ext|]. intros fd Hfd.
  destruct (H2 _ Hfd) as (x & Hx & Hm). destruct (Hin _ _ _ eq_refl Hfd Hx) as (x' & ? & ?).
  exists x'. split; [done|congruence].
Qed.

Definition closed (f : FS) : Prop := ∀ key i, E f !! key = Some i → is_Some (inodes f !! i).

Lemma elem_of_own it key :
  key ∈ own it ↔ key ∈ ends it ∨ (∃ a, stage it = Some a ∧ key = akey a) ∨
                 (∃ a, recovery it = Some a ∧ key = akey a).
Proof.
  unfold own. rewrite !elem_of_app. destruct (stage it), (recovery it); simpl; set_solver.
Qed.

(** What a variant shares with its staged form. *)
Record same_item (it2 it : Item) : Prop := {
  si_op : it_op it = it_op it2;
  si_source : source it = source it2;
  si_destination : destination it = destination it2;
  si_snapshot : snapshot it = snapshot it2;
  si_new : new it = new it2;
  si_mode : it_mode it = it_mode it2;
  si_stage a : stage it = Some a → ∃ a2, stage it2 = Some a2 ∧ a_fd a = a_fd a2 ∧ a_at a = a_at a2;
  si_stage2 a2 : stage it2 = Some a2 → is_Some (stage it)
}.

Lemma variant_same it2 it : variant it2 it → same_item it2 it.
Proof.
  intros (r & b & ->). split; simpl; try done.
  - intros a. destruct (stage it2) as [a2|]; [|done]. intros [= <-]. by exists a2.
  - intros a2 ->. by eexists.
Qed.

(** ** Steps of one item *)

(** What a system call on the item's own entries and inodes may do. *)
Record touches (it : Item) (f f' : FS) : Prop := {
  to_entries key : key ∉ own it → E f' !! key = E f !! key;
  to_closed : closed f → closed f';
  to_inodes i x : inodes f !! i = Some x →
    ∃ x', inodes f' !! i = Some x' ∧ same_data x x' ∧ (mode x' = mode x ∨ i ∈ fds_of it)
}.

Lemma same_data_refl x : same_data x x.
Proof. done. Qed.

Lemma same_data_trans x y z : same_data x y → same_data y z → same_data x z.
Proof. intros (? & ? & ?) (? & ? & ?). split_and!; congruence. Qed.

Lemma change_closed i g f : closed f → closed (change i g f).
Proof. intros Hc k j Hk. destruct (Hc _ _ Hk) as [y Hy]. eexists. apply change_inode. eauto. Qed.

Lemma touches_entries it f es i :
  (∀ key, key ∉ own it → es !! key = E f !! key) →
  (∀ key j, es !! key = Some j → ∃ key', E f !! key' = Some j) →
  touches it f (change i id (with_entries es f)).
Proof.
  intros Hes Hran. split.
  - done.
  - intros Hc. apply change_closed. intros key j Hk. simpl in *.
    destruct (Hran _ _ Hk) as [key' Hk']. by apply (Hc key').
  - intros j x Hx. eexists. split; [apply change_inode; exists x; split; [done|reflexivity]|].
    simpl. by case_bool_decide; (split; [|left]).
Qed.

Lemma touches_chmod it f fd m : fd ∈ fds_of it → touches it f (change fd (set_mode m) f).
Proof.
  intros Hfd. split; [done|apply change_closed|]. intros j x Hx.
  eexists. split; [apply change_inode; eauto|]. case_bool_decide; subst; (split; [done|auto]).
Qed.

Lemma touches_rename it k k' f f' :
  sys_rename_noreplace k k' f = Ok (f', tt) → k ∈ own it → k' ∈ own it → touches it f f'.
Proof.
  intros (i & Hi & Hfree & ->)%rename_Ok Hk Hk'. apply touches_entries.
  - intros key Hkey. rewrite lookup_insert_ne, lookup_delete_ne by set_solver. done.
  - intros key j [[<- <-]|[_ [_ ?]%lookup_delete_Some]]%lookup_insert_Some; eauto.
Qed.

Lemma touches_unlink it k f f' : sys_unlink k f = Ok (f', tt) → k ∈ own it → touches it f f'.
Proof.
  intros (i & x & _ & _ & ->)%unlink_Ok Hk. apply touches_entries.
  - intros key Hkey. rewrite lookup_delete_ne by set_solver. done.
  - intros key j [_ ?]%lookup_delete_Some. eauto.
Qed.

(** The item's own descriptors. *)
Lemma source_fd_of_it it s : snapshot it = Some s → s_fd s ∈ fds_of it.
Proof. intros H. unfold fds_of. rewrite H. simpl. left. Qed.
Lemma stage_fd_of_it it a fd : stage it = Some a → a_fd a = Some fd → fd ∈ fds_of it.
Proof. intros H H'. unfold fds_of. rewrite H. simpl. rewrite H'. apply elem_of_app. right. left. Qed.

Lemma closed_lookup f k : closed f → lookup_inode f k = None ↔ E f !! k = None.
Proof.
  intros Hc. unfold lookup_inode. destruct (E f !! k) as [i|] eqn:Hk; simpl; [|done].
  destruct (Hc _ _ Hk) as [x ->]. done.
Qed.

Lemma clear_ext' f f' it : (∀ key, key ∈ own it → E f' !! key = E f !! key) → clear f' it → clear f it.
Proof. intros H. apply clear_ext. intros key Hkey. symmetry. auto. Qed.

(** The entries of one item are different. *)
Record apart (it : Item) : Prop := {
  ap_stage a key : stage it = Some a → key ∈ ends it → akey a ≠ key;
  ap_slot a key : recovery it = Some a → key ∈ ends it → akey a ≠ key;
  ap_both a a' : stage it = Some a → recovery it = Some a' → akey a ≠ akey a';
  ap_move e d : source it = Some e → destination it = Some d →
    (moves it ∧ entry_key e ≠ entry_key d) ∨ (¬ moves it ∧ d = e);
  ap_add : snapshot it = None → ¬ moves it
}.

Lemma rename_entries k k' f f' : sys_rename_noreplace k k' f = Ok (f', tt) →
  ∃ i, E f !! k = Some i ∧ E f !! k' = None ∧ k ≠ k' ∧ E f' !! k = None ∧ E f' !! k' = Some i ∧
    ∀ key, key ≠ k → key ≠ k' → E f' !! key = E f !! key.
Proof.
  intros (i & Hi & Hn & ->)%rename_Ok. exists i. assert (k ≠ k') by congruence. simpl.
  split_and!; try done.
  - by rewrite lookup_insert_ne, lookup_delete_eq.
  - by rewrite lookup_insert_eq.
  - intros key ? ?. by rewrite lookup_insert_ne, lookup_delete_ne.
Qed.

(** The two renames of a commit. *)
Lemma home_away f f' it s e a :
  apart it → home f it → snapshot it = Some s → source it = Some e → recovery it = Some a →
  sys_rename_noreplace (entry_key e) (akey a) f = Ok (f', tt) → away f' it ∧ E f' !! akey a = Some (s_fd s).
Proof.
  intros Hap (Hh & _ & Hu & _ & Hm) Hs He Ha (i & Hi & Hn & Hne & Hk & Hk' & Hoth)%rename_entries.
  assert (i = s_fd s) as -> by (specialize (Hh _ _ Hs He); congruence). split; [|done].
  split_and!.
  - intros s' Hs'. exists a. split; [done|]. congruence.
  - intros s' e' Hs' He'. congruence.
  - intros a' Ha'. destruct (Hu _ Ha') as [? <-]. split; [done|]. apply Hoth.
    + apply (ap_stage _ Hap _ _ Ha'). by apply source_end.
    + by apply (ap_both _ Hap).
  - split; [congruence|]. intros Hmv d Hd. rewrite Hoth; [by apply Hm| |].
    + destruct (ap_move _ Hap _ _ He Hd) as [[_ ?]|[? _]]; [congruence|done].
    + apply not_eq_sym, (ap_slot _ Hap _ _ Ha). by apply destination_end.
Qed.

Lemma away_out f f' it a fd d :
  apart it → away f it → stage it = Some a → a_fd a = Some fd → destination it = Some d →
  sys_rename_noreplace (akey a) (entry_key d) f = Ok (f', tt) → out f' it.
Proof.
  intros Hap (Hr & Hg & Hu & Hc) Ha Hfd Hd (i & Hi & Hn & Hne & Hk & Hk' & Hoth)%rename_entries.
  destruct (Hu _ Ha) as [_ Hst']. assert (Hafd : a_fd a = Some i) by congruence.
  assert (Hde : entry_key d ∈ ends it) by (by apply destination_end). split_and!.
  - intros s Hs. destruct (Hr _ Hs) as (r & Hre & Hrs). exists r. split; [done|].
    rewrite Hoth; [done| |]; [apply not_eq_sym; by apply (ap_both _ Hap)|by apply (ap_slot _ Hap)].
  - exists a, d. split_and!; try done. congruence.
  - intros Hmv s e Hs He. rewrite Hoth; [by eapply Hg| |].
    + apply not_eq_sym, (ap_stage _ Hap _ _ Ha). by apply source_end.
    + destruct (ap_move _ Hap _ _ He Hd) as [[_ ?]|[? _]]; done.
Qed.

Definition slot_full (f : FS) (it : Item) : Prop :=
  ∀ a, recovery it = Some a → named a = true ∧ is_Some (E f !! akey a).

(** The source is away and its slot known. *)
Definition retired_item (f : FS) (it : Item) : Prop := away f it ∧ slot_full f it.

Lemma home_slot f it a :
  home f it → recovery it = None → named a = false → E f !! akey a = None →
  home f (set_recovery (Some a) it).
Proof.
  intros (Hh & _ & Hu & Hc) Hrec Hn He. split; [done|]. split; [|done]. by intros a' [= <-].
Qed.

Lemma home_midway f it : home f it → midway f it.
Proof. by left. Qed.
Lemma away_midway f it : away f it → midway f it.
Proof. right. by left. Qed.
Lemma out_midway f it : out f it → midway f it.
Proof. right. by right. Qed.

(** The stage at its destination, and its name known gone. *)
Definition out_item (f : FS) (it : Item) : Prop := out f it ∧ slot_full f it.
Definition published_item (f : FS) (it : Item) : Prop :=
  out_item f it ∧ ∀ a, stage it = Some a → named a = false.

Lemma away_named f it a b : away f it → stage it = Some a → b = true → away f (set_stage (Some (set_named b a)) it).
Proof.
  intros (Hr & Hg & Hu & Hc) Ha ->. split; [done|]. split; [done|]. split; [|done].
  intros a' [= <-]. split; [done|]. exact (proj2 (Hu _ Ha)).
Qed.

Lemma out_named f it a b : out f it → stage it = Some a → out f (set_stage (Some (set_named b a)) it).
Proof.
  intros (Hr & (a' & d & Ha' & Hd & H1 & H2) & Hm) Ha. assert (a' = a) as -> by congruence.
  split; [done|]. split; [|done]. by exists (set_named b a), d.
Qed.

Lemma published_done f it fd a x :
  published_item f it → stage it = Some a → a_fd a = Some fd → inodes f !! fd = Some x →
  done (change fd (set_mode (it_mode it)) f) it.
Proof.
  intros ((Ho & Hf) & Hn) Ha Hfd Hx. split; [done|]. split; [done|]. rewrite Ha. split; [done|].
  intros fd' Hfd'. assert (fd' = fd) as -> by congruence.
  eexists. split; [apply change_inode; eauto|]. by rewrite bool_decide_eq_true_2.
Qed.

(** ** What the code notes and checks *)

Section calls.
Context (fault : nat → Fault).

(** [finally: x["named"] = not _entry_missing(..)] *)
Lemma wp_note k r key (Q : unit → State → Prop) R c it :
  r = StageOf k ∨ r = RecoveryOf k → items c !! k = Some it → closed (fs c) →
  (let b := negb (bool_decide (E (fs c) !! key = None)) in
   Q tt (set_items (<[k := match r with
       | StageOf _ => set_stage (set_named b <$> stage it) it
       | RecoveryOf _ => set_recovery (set_named b <$> recovery it) it end]> (items c)) c)) →
  (∀ e, R e c) → wp (note_named fault r key) Q R c.
Proof.
  intros Hr Hk Hc HQ HR. apply wp_bind, wp_entry_missing; [|auto].
  rewrite (bool_decide_ext _ _ (closed_lookup _ key Hc)).
  destruct Hr as [-> | ->]; apply wp_modify; by rewrite (alter_insert_item _ _ _ it).
Qed.

Lemma wp_get_item_some k it (Q : Item → State → Prop) R c :
  items c !! k = Some it → Q it c → wp (get_item k) Q R c.
Proof. intros Hk HQ. apply wp_bind, wp_gets. rewrite Hk. by apply wp_ret. Qed.

Lemma wp_attached_or e (Q : unit → State → Prop) R c :
  Q tt c → (∀ e, R e c) → wp (attached_or fault e) Q R c.
Proof.
  intros HQ HR. apply wp_bind, wp_bind, wp_gets, wp_attached; [|done].
  intros b _. by apply wp_check.
Qed.
End calls.
