(* ===== verification/PatchPlan.v ===== *)
(** * The apply_patch transaction: the plan under commit

    The entries of different items are disjoint and everything else is as staging
    left it, so the state of the plan is one predicate per item, [txn], and work on
    one item, [focus], leaves the others where they stand. *)

From S2P Require Import Prelude PyStr Patch PatchTheory PatchApply PatchParse.
From S2P Require Import PatchFs PatchTxn PatchLogic PatchPhases PatchItem.
Open Scope string_scope.
Open Scope list_scope.
Open Scope Z_scope.

#[local] Arguments akey : simpl never.

Section plan.
Context {token : nat → pystr} {euid egid : Z}.
Context {root : nat} {f0 : FS} {ops : list Op} {f1 : FS} {its1 : list Item}.
Context (HL : layout token euid egid root f0 ops f1 its1).
Context {c2 : State} (Hst : staged token f0 f1 its1 (length its1) c2).

Notation E f := (entries f).
Notation f2 := (fs c2).
Notation its2 := (items c2).

(** ** The whole plan *)

(** The inode is the source of an item that may have changed its mode. *)
Definition loosened (L : nat → Prop) (i : nat) : Prop :=
  ∃ j it s, L j ∧ its2 !! j = Some it ∧ snapshot it = Some s ∧ s_fd s = i.

Definition modes_but (L : nat → Prop) (f : FS) : Prop :=
  ∀ i x, inodes f0 !! i = Some x →
    ∃ x', inodes f !! i = Some x' ∧ (mode x' = mode x ∨ loosened L i).

(** The first [n] items are under way, as [Φ] says; the rest is as staging left it. *)
Record txn (Φ : nat → FS → Item → Prop) (L : nat → Prop) (n : nat) (c : State) : Prop := {
  tx_items : Forall2 variant its2 (items c);
  tx_rest k : (n <= k)%nat → items c !! k = its2 !! k;
  tx_valid j it : its2 !! j = Some it → (j < n)%nat → clear f2 it;
  tx_frame key : (∀ j it, items c !! j = Some it → (j < n)%nat → key ∉ own it) →
    E (fs c) !! key = E f2 !! key;
  tx_slot j it a : items c !! j = Some it → recovery it = Some a →
    is_Some (snapshot it) ∧ E f2 !! akey a = None ∧ beside it a ∧
    ∃ t, (akey a).2 = private ".odin-patch-recovery-" (token t);
  tx_slots j j' it it' a a' : items c !! j = Some it → items c !! j' = Some it' →
    recovery it = Some a → recovery it' = Some a' → akey a = akey a' → j = j';
  tx_closed : closed (fs c);
  tx_data i x : inodes f2 !! i = Some x → ∃ x', inodes (fs c) !! i = Some x' ∧ same_data x x';
  tx_modes : modes_but L (fs c);
  tx_each j it : items c !! j = Some it → (j < n)%nat → Φ j (fs c) it;
  tx_created : created c = created c2;
  tx_flags : preserve c = false ∧ keep c = false
}.

Arguments tx_items {_ _ _ _} _.
Arguments tx_rest {_ _ _ _} _.
Arguments tx_valid {_ _ _ _} _.
Arguments tx_frame {_ _ _ _} _.
Arguments tx_slot {_ _ _ _} _.
Arguments tx_slots {_ _ _ _} _.
Arguments tx_closed {_ _ _ _} _.
Arguments tx_data {_ _ _ _} _.
Arguments tx_modes {_ _ _ _} _.
Arguments tx_each {_ _ _ _} _.

Lemma txn_mono (Φ Φ' : nat → FS → Item → Prop) (L L' : nat → Prop) n c :
  (∀ j f it, (j < n)%nat → Φ j f it → Φ' j f it) → (∀ j, L j → L' j) →
  txn Φ L n c → txn Φ' L' n c.
Proof.
  intros HΦ HL' []. split; try done; [|eauto]. intros i x Hx.
  destruct (tx_modes0 _ _ Hx) as (x' & Hx' & Hm). exists x'. split; [done|].
  destruct Hm as [?|(j & it & s & ? & ?)]; [by left|right]. exists j, it, s. auto.
Qed.

Lemma variant_lookup Φ L n c j it :
  txn Φ L n c → items c !! j = Some it → ∃ it2, its2 !! j = Some it2 ∧ variant it2 it.
Proof. intros Ht Hj. by apply (Forall2_lookup_r _ _ _ _ _ (tx_items Ht) Hj). Qed.

Lemma base_its2 j it : its2 !! j = Some it → its1 !! j = Some (base it).
Proof. intros Hj. eapply base_lookup; [apply (st_base _ _ _ _ _ _ Hst)|done]. Qed.

Section one.
Context {Φ : nat → FS → Item → Prop} {L : nat → Prop} {n : nat} {c : State} (Ht : txn Φ L n c).

Lemma txn_item j it :
  items c !! j = Some it →
  ∃ it2, its2 !! j = Some it2 ∧ same_item it2 it ∧ its1 !! j = Some (base it2).
Proof.
  intros Hj. destruct (variant_lookup _ _ _ _ _ _ Ht Hj) as (it2 & Hj2 & Hv).
  exists it2. eauto using variant_same, base_its2.
Qed.

Lemma txn_ends j it : items c !! j = Some it →
  ∃ it1, its1 !! j = Some it1 ∧ ends it1 = ends it.
Proof.
  intros Hj. destruct (txn_item _ _ Hj) as (it2 & _ & [? Hs Hd] & Hj1). exists (base it2).
  split; [done|]. unfold ends. by rewrite Hs, Hd.
Qed.

Lemma txn_stage j it a : items c !! j = Some it → stage it = Some a →
  ∃ it2 a2 fd, its2 !! j = Some it2 ∧ stage it2 = Some a2 ∧ akey a = akey a2 ∧ a_fd a = Some fd ∧
    E f2 !! akey a = Some fd ∧ stage_file token f1 f2 it2 a2 fd.
Proof.
  intros Hj Ha. destruct (txn_item _ _ Hj) as (it2 & Hj2 & Hs & _).
  destruct (si_stage _ _ Hs _ Ha) as (a2 & Ha2 & Hfd & Hat).
  destruct (st_stage _ _ _ _ _ _ Hst _ _ _ Hj2 Ha2) as (_ & fd & Hk & Hsf).
  exists it2, a2, fd. unfold akey in *. rewrite Hat, Hfd. by destruct Hsf.
Qed.

Lemma own_disjoint j k it it' key :
  items c !! j = Some it → items c !! k = Some it' → key ∈ own it → key ∈ own it' → j = k.
Proof.
  intros Hj Hk Ho Ho'. apply elem_of_own in Ho, Ho'.
  destruct (txn_ends _ _ Hj) as (it1 & Hj1 & He), (txn_ends _ _ Hk) as (it1' & Hk1 & He').
  rewrite <- He in Ho. rewrite <- He' in Ho'.
  assert (Hpub : ∀ i it pre t, its1 !! i = Some it → key ∈ ends it → key.2 ≠ private pre (token t)).
  { intros i it0 pre t. by eapply ends_public. }
  assert (Hstg : ∀ i it0 a, items c !! i = Some it0 → stage it0 = Some a →
            ∃ t, (akey a).2 = private ".odin-patch-stage-" (token t)).
  { intros i it0 a Hi Ha. destruct (txn_stage _ _ _ Hi Ha) as (? & a2 & ? & _ & _ & -> & _ & _ & []). done. }
  assert (Hrec : ∀ i it0 a, items c !! i = Some it0 → recovery it0 = Some a →
            ∃ t, (akey a).2 = private ".odin-patch-recovery-" (token t)).
  { intros i it0 a Hi Ha. by destruct (tx_slot Ht _ _ _ Hi Ha) as (_ & _ & _ & ?). }
  destruct Ho as [Ho|[(a & Ha & ->)|(a & Ha & ->)]], Ho' as [Ho'|[(a' & Ha' & Heq)|(a' & Ha' & Heq)]].
  - by eapply ends_distinct.
  - destruct (Hstg _ _ _ Hk Ha') as [t Hpr]. rewrite <- Heq in Hpr. by destruct (Hpub _ _ _ t Hj1 Ho Hpr).
  - destruct (Hrec _ _ _ Hk Ha') as [t Hpr]. rewrite <- Heq in Hpr. by destruct (Hpub _ _ _ t Hj1 Ho Hpr).
  - destruct (Hstg _ _ _ Hj Ha) as [t Hpr]. by destruct (Hpub _ _ _ t Hk1 Ho' Hpr).
  - destruct (txn_stage _ _ _ Hj Ha) as (i2 & a2 & ? & Hj2 & Ha2 & Hka & _).
    destruct (txn_stage _ _ _ Hk Ha') as (i2' & a2' & ? & Hk2 & Ha2' & Hka' & _).
    eapply (st_distinct _ _ _ _ _ _ Hst _ _ _ _ _ _ Hj2 Hk2 Ha2 Ha2'). left. congruence.
  - destruct (Hstg _ _ _ Hj Ha) as [t Hpr], (Hrec _ _ _ Hk Ha') as [t' Hpr'].
    rewrite Heq, Hpr' in Hpr. symmetry in Hpr. by apply private_ne in Hpr.
  - destruct (Hrec _ _ _ Hj Ha) as [t Hpr]. by destruct (Hpub _ _ _ t Hk1 Ho' Hpr).
  - destruct (Hrec _ _ _ Hj Ha) as [t Hpr], (Hstg _ _ _ Hk Ha') as [t' Hpr'].
    rewrite Heq, Hpr' in Hpr. by apply private_ne in Hpr.
  - by eapply (tx_slots Ht).
Qed.

(** A source was in the original tree; a stage was not. *)
Lemma txn_source_fd j it s : items c !! j = Some it → snapshot it = Some s →
  ∃ e x, source it = Some e ∧ lookup_inode f0 (entry_key e) = Some (s_fd s, x) ∧
    content x = Reg (s_data s) ∧ mode x = s_mode s.
Proof.
  intros Hj Hs. destruct (txn_item _ _ Hj) as (it2 & Hj2 & Hsi & Hj1).
  rewrite (si_source _ _ Hsi). rewrite (si_snapshot _ _ Hsi) in Hs.
  destruct (layout_op _ _ _ _ _ _ _ _ HL _ _ Hj1) as (op & _ & (_ & _ & Hp)).
  assert (Hsrc : ∀ p s', sourced root f0 f1 p (base it2) s' →
    ∃ e x, source it2 = Some e ∧ lookup_inode f0 (entry_key e) = Some (s_fd s, x) ∧
      content x = Reg (s_data s) ∧ mode x = s_mode s).
  { intros p s' (Hs' & (e & He & _ & _ & (x & Hx & Hc & Hf)) & Hm & _). simpl in *.
    assert (s' = s) as -> by congruence. exists e, x. rewrite Hm, <- Hf. done. }
  destruct op; naive_solver.
Qed.

Lemma stage_fresh j it a fd : items c !! j = Some it → stage it = Some a → a_fd a = Some fd →
  inodes f0 !! fd = None ∧ ∃ x, inodes f2 !! fd = Some x.
Proof.
  intros Hj Ha Hfd. destruct (txn_stage _ _ _ Hj Ha) as (it2 & a2 & fd2 & _ & _ & _ & Hfd2 & _ & Hsf).
  assert (fd2 = fd) as -> by congruence. destruct Hsf as [_ _ _ Hn (x & ? & _ & Hx & _)]. split; [|eauto].
  destruct (inodes f0 !! fd) eqn:Hf; [|done]. eapply f0_f1_inode in Hf; [|exact HL]. congruence.
Qed.

Lemma fds_disjoint j k it it' a fd : items c !! j = Some it → items c !! k = Some it' →
  stage it' = Some a → a_fd a = Some fd → fd ∈ fds_of it → j = k.
Proof.
  intros Hj Hk Ha Hfd [Hi|Hi]%elem_of_app.
  - destruct (snapshot it) as [s|] eqn:Hs; [|by apply not_elem_of_nil in Hi].
    apply list_elem_of_singleton in Hi as ->.
    destruct (txn_source_fd _ _ _ Hj Hs) as (e & x & _ & [_ Hx]%lookup_inode_Some & _).
    destruct (stage_fresh _ _ _ _ Hk Ha Hfd) as [Hn _]. congruence.
  - destruct (stage it) as [a'|] eqn:Ha'; [|by apply not_elem_of_nil in Hi]. simpl in Hi.
    destruct (a_fd a') as [fd'|] eqn:Hfd'; [|by apply not_elem_of_nil in Hi].
    apply list_elem_of_singleton in Hi as <-.
    destruct (txn_stage _ _ _ Hj Ha') as (i2 & a2 & ? & Hj2 & Ha2 & _ & Hfa & _ & []).
    destruct (txn_stage _ _ _ Hk Ha) as (i2' & a2' & ? & Hk2 & Ha2' & _ & Hfa' & _ & []).
    eapply (st_distinct _ _ _ _ _ _ Hst _ _ _ _ _ _ Hj2 Hk2 Ha2 Ha2'). right. congruence.
Qed.
End one.

Lemma modes_but_touches (L L' : nat → Prop) Φ n c k it f :
  txn Φ L n c → items c !! k = Some it → touches it (fs c) f → (∀ j, L j → L' j) → L' k →
  modes_but L' f.
Proof.
  intros Ht Hk Hto Hsub HLk i x Hx. destruct (tx_modes Ht _ _ Hx) as (x1 & Hx1 & Hm).
  destruct (to_inodes _ _ _ Hto _ _ Hx1) as (x2 & Hx2 & _ & Hm2). exists x2. split; [done|].
  destruct Hm as [Hm|(j & itj & s & HLj & ?)]; [|right; exists j, itj, s; auto].
  destruct Hm2 as [Hm2|[Hi|Hi]%elem_of_app]; [left; congruence|right|].
  - destruct (snapshot it) as [s|] eqn:Hs; [|by apply not_elem_of_nil in Hi].
    apply list_elem_of_singleton in Hi as ->.
    destruct (txn_item Ht _ _ Hk) as (it2 & Hk2 & Hsi & _). exists k, it2, s.
    rewrite <- (si_snapshot _ _ Hsi). done.
  - destruct (stage it) as [a|] eqn:Ha; simpl in Hi; [|by apply not_elem_of_nil in Hi].
    destruct (a_fd a) as [fd|] eqn:Hfd; [|by apply not_elem_of_nil in Hi].
    apply list_elem_of_singleton in Hi as ->. destruct (stage_fresh Ht _ _ _ _ Hk Ha Hfd). congruence.
Qed.

(** A step of item [k] on the file system. *)
Lemma txn_fs Φ Φ' (L L' : nat → Prop) n c f k it :
  txn Φ L n c → items c !! k = Some it → (k < n)%nat → touches it (fs c) f → modes_but L' f →
  (∀ j, j ≠ k → local (Φ j) ∧ ∀ f it, Φ j f it → Φ' j f it) → Φ' k f it →
  txn Φ' L' n (set_fs f c).
Proof.
  intros Ht Hk Hlt Hto Hm Hloc HΦ. pose proof Ht as []. split; simpl; try done.
  - intros key Hkey. rewrite (to_entries _ _ _ Hto); eauto.
  - by apply Hto.
  - intros i x Hx. destruct (tx_data0 _ _ Hx) as (x1 & Hx1 & Hd).
    destruct (to_inodes _ _ _ Hto _ _ Hx1) as (x2 & Hx2 & Hd2 & _).
    exists x2. eauto using same_data_trans.
  - intros j itj Hj Hjn. destruct (decide (j = k)) as [->|Hne]; [by simplify_eq|].
    destruct (Hloc _ Hne) as [Hl Himp]. apply Himp, (Hl (fs c)); [| |eauto].
    + intros key Hkey. apply (to_entries _ _ _ Hto). intros Hkey'.
      by destruct Hne; eapply (own_disjoint Ht).
    + intros a fd x Ha Hfd Hx. destruct (to_inodes _ _ _ Hto _ _ Hx) as (x' & Hx' & _ & Hmx).
      exists x'. split; [done|]. destruct Hmx as [?|Hin]; [done|].
      destruct Hne. symmetry. by eapply (fds_disjoint Ht k j).
Qed.

Lemma modes_but_entries L f es i :
  modes_but L f → modes_but L (change i id (with_entries es f)).
Proof.
  intros Hm j x Hx. destruct (Hm _ _ Hx) as (x' & Hx' & Hor). eexists.
  split; [apply change_inode; exists x'; split; [exact Hx'|reflexivity]|]. by case_bool_decide.
Qed.

(** A new slot of item [k] has a name of its own. *)
Definition slot_fresh (k : nat) (c : State) (it : Item) (a : Artifact) : Prop :=
  is_Some (snapshot it) ∧ E f2 !! akey a = None ∧ beside it a ∧
  (∃ t, (akey a).2 = private ".odin-patch-recovery-" (token t)) ∧
  ∀ j itj aj, j ≠ k → items c !! j = Some itj → recovery itj = Some aj → akey aj ≠ akey a.

(** A change of item [k]'s record. *)
Lemma txn_record Φ Φ' L n c k it it' :
  txn Φ L n c → items c !! k = Some it → (k < n)%nat →
  (∃ r b, it' = set_recovery r (set_stage (set_named b <$> stage it) it)) → own it ⊆ own it' →
  (∀ a, recovery it' = Some a → (∃ a0, recovery it = Some a0 ∧ akey a = akey a0) ∨
     slot_fresh k c it a) →
  (∀ j f it, j ≠ k → Φ j f it → Φ' j f it) → Φ' k (fs c) it' →
  txn Φ' L n (set_items (<[k := it']> (items c)) c).
Proof.
  intros Ht Hk Hlt (r & b & ->) Hown Hslot Hsame HΦ. pose proof Ht as [].
  set (it' := set_recovery r _) in *.
  assert (Hkk : <[k := it']> (items c) !! k = Some it').
  { apply list_lookup_insert_eq. by eapply lookup_lt_Some. }
  split; simpl; try done.
  - destruct (variant_lookup _ _ _ _ _ _ Ht Hk) as (it2 & Hk2 & r2 & b2 & Hit).
    apply Forall2_lookup. intros j. rewrite Forall2_lookup in tx_items0. specialize (tx_items0 j).
    destruct (decide (k = j)) as [<-|Hne].
    + rewrite Hkk, Hk2. constructor. exists r, b. subst it' it. destruct (stage it2); done.
    + by rewrite list_lookup_insert_ne.
  - intros j Hj. rewrite list_lookup_insert_ne by lia. auto.
  - intros key Hkey. apply tx_frame0. intros j itj Hj Hjn.
    destruct (decide (j = k)) as [->|Hne].
    + simplify_eq. intros Hin. by apply (Hkey k it' Hkk Hjn), Hown.
    + apply (Hkey j); [|done]. by rewrite list_lookup_insert_ne.
  - intros j itj a [[-> ->]|[Hne Hj]]%items_insert_cases Ha; [|eauto].
    change (name (a_at a)) with (akey a).2.
    destruct (Hslot _ Ha) as [(a0 & Ha0 & Heq)|(? & ? & ? & ? & _)]; [|done].
    unfold beside. rewrite Heq. exact (tx_slot0 k it a0 Hk Ha0).
  - assert (Hfresh : ∀ j itj a aj, j ≠ k → recovery it' = Some a → items c !! j = Some itj →
              recovery itj = Some aj → akey a ≠ akey aj).
    { intros j itj a aj Hne Ha Hj Haj. destruct (Hslot _ Ha) as [(a0 & Ha0 & ->)|(_ & _ & _ & _ & Hd)].
      - intros Heq. by destruct Hne; eapply tx_slots0.
      - apply not_eq_sym. eauto. }
    intros j j' i1 i2 a a' [[-> ->]|[Hne Hj]]%items_insert_cases
      [[-> ->]|[Hne' Hj']]%items_insert_cases Ha Ha' Heq; try done.
    + by destruct (Hfresh _ _ _ _ Hne' Ha Hj' Ha').
    + by destruct (Hfresh _ _ _ _ Hne Ha' Hj Ha).
    + eauto.
  - intros j itj [[-> ->]|[Hne Hj]]%items_insert_cases Hjn; eauto.
Qed.

(** Only an addition has no snapshot. *)
Lemma add_stays it k : its1 !! k = Some (base it) → snapshot it = None → ¬ moves it.
Proof.
  intros Hk Hs Hmv. apply Hmv. destruct (layout_op _ _ _ _ _ _ _ _ HL _ _ Hk) as (op & _ & Hio & _ & Hp).
  simpl in Hio. rewrite Hio. destruct op as [p ct|p|p mv h]; simpl; [done..|].
  destruct Hp as ((s & data & (Hs' & _) & _) & _). simpl in Hs'. congruence.
Qed.

Lemma txn_apart Φ L n c k it : txn Φ L n c → items c !! k = Some it → apart it.
Proof.
  intros Ht Hk. destruct (txn_ends Ht _ _ Hk) as (it1 & Hk1 & He).
  assert (Hpub : ∀ key pre t, key ∈ ends it → key.2 ≠ private pre (token t)).
  { intros key pre t. rewrite <- He. by eapply ends_public. }
  assert (Hstg : ∀ a, stage it = Some a → ∃ t, (akey a).2 = private ".odin-patch-stage-" (token t)).
  { intros a Ha. destruct (txn_stage Ht _ _ _ Hk Ha) as (? & a2 & ? & _ & _ & -> & _ & _ & []). done. }
  split.
  - intros a key Ha Hkey Heq. destruct (Hstg _ Ha) as [t Hpr]. rewrite Heq in Hpr. by eapply Hpub.
  - intros a key Ha Hkey Heq. destruct (tx_slot Ht _ _ _ Hk Ha) as (_ & _ & _ & t & Hpr).
    rewrite Heq in Hpr. by eapply Hpub.
  - intros a a' Ha Ha' Heq. destruct (Hstg _ Ha) as [t Hpr].
    destruct (tx_slot Ht _ _ _ Hk Ha') as (_ & _ & _ & t' & Hpr').
    rewrite Heq, Hpr' in Hpr. symmetry in Hpr. by apply private_ne in Hpr.
  - intros e d Hs Hd. destruct (txn_item Ht _ _ Hk) as (it2 & _ & Hsi & Hb).
    rewrite (si_source _ _ Hsi) in Hs. rewrite (si_destination _ _ Hsi) in Hd.
    pose proof (move_ends _ _ _ _ _ _ _ _ HL _ _ _ _ Hb Hs Hd) as Hme. simpl in Hme.
    unfold moves. rewrite (si_op _ _ Hsi). destruct (op_move (it_op it2)); [by left|right].
    split; [by intros []|congruence].
  - destruct (txn_item Ht _ _ Hk) as (it2 & _ & Hsi & Hb). unfold moves.
    rewrite (si_snapshot _ _ Hsi), (si_op _ _ Hsi). by apply (add_stays it2 k).
Qed.

(** ** Work on one item *)

Definition at_item (Φ : nat → FS → Item → Prop) (k : nat) (Ψ : FS → Item → Prop) (j : nat) :
    FS → Item → Prop :=
  if decide (j = k) then Ψ else Φ j.

(** Item [k] is [it] and as [Ψ] says, the others as [Φ] says. *)
Definition focus (Φ : nat → FS → Item → Prop) (L : nat → Prop) (n k : nat) (it : Item)
    (Ψ : FS → Item → Prop) (c : State) : Prop :=
  items c !! k = Some it ∧ (k < n)%nat ∧ txn (at_item Φ k (λ f it', it' = it ∧ Ψ f it')) L n c.

Section focus.
Context {Φ : nat → FS → Item → Prop} {L : nat → Prop} {n k : nat}.

Lemma at_item_same Ψ : at_item Φ k Ψ k = Ψ.
Proof. unfold at_item. by destruct (decide (k = k)). Qed.

Lemma at_item_other Ψ j : j ≠ k → at_item Φ k Ψ j = Φ j.
Proof. intros Hne. unfold at_item. by destruct (decide (j = k)). Qed.

Lemma focus_in it c : txn Φ L n c → items c !! k = Some it → (k < n)%nat → focus Φ L n k it (Φ k) c.
Proof.
  intros Ht Hk Hlt. split; [done|]. split; [done|]. destruct Ht. split; try done.
  intros j itj Hj Hjn. destruct (decide (j = k)) as [->|Hne].
  - rewrite at_item_same. split; [congruence|eauto].
  - rewrite at_item_other by done. eauto.
Qed.

Lemma focus_out {it} {Ψ : FS → Item → Prop} (Φ' : nat → FS → Item → Prop) (L' : nat → Prop) {c} :
  focus Φ L n k it Ψ c → (∀ j f it, j ≠ k → (j < n)%nat → Φ j f it → Φ' j f it) →
  (∀ f, Ψ f it → Φ' k f it) → (∀ j, L j → L' j) → txn Φ' L' n c.
Proof.
  intros (Hk & Hlt & Ht) HΦ HΨ HLL. eapply txn_mono; [|exact HLL|exact Ht].
  intros j f it' Hj. destruct (decide (j = k)) as [->|Hne].
  - rewrite at_item_same. intros [-> ?]. auto.
  - rewrite at_item_other by done. auto.
Qed.

Lemma focus_holds {it Ψ c} : focus Φ L n k it Ψ c → Ψ (fs c) it.
Proof.
  intros (Hk & Hlt & Ht). pose proof (tx_each Ht _ _ Hk Hlt) as H.
  rewrite at_item_same in H. apply H.
Qed.

Lemma focus_closed {it Ψ c} : focus Φ L n k it Ψ c → closed (fs c).
Proof. intros (_ & _ & Ht). apply (tx_closed Ht). Qed.

Lemma focus_apart {it Ψ c} : focus Φ L n k it Ψ c → apart it.
Proof. intros (Hk & _ & Ht). by eapply txn_apart. Qed.

Lemma focus_mono it (Ψ Ψ' : FS → Item → Prop) c :
  (∀ f, Ψ f it → Ψ' f it) → focus Φ L n k it Ψ c → focus Φ L n k it Ψ' c.
Proof.
  intros HΨ (Hk & Hlt & Ht). split; [done|]. split; [done|].
  eapply txn_mono; [| |exact Ht]; [|done]. intros j f it' _. unfold at_item.
  destruct (decide (j = k)); [|done]. intros [-> ?]. auto.
Qed.

Lemma focus_here it (Ψ Ψ' : FS → Item → Prop) c :
  focus Φ L n k it Ψ c → Ψ' (fs c) it → focus Φ L n k it Ψ' c.
Proof.
  intros (Hk & Hlt & Ht) HΨ. split; [done|]. split; [done|]. destruct Ht. split; try done.
  intros j itj Hj Hjn. specialize (tx_each0 _ _ Hj Hjn). revert tx_each0. unfold at_item.
  destruct (decide (j = k)) as [->|]; [|done]. intros [-> _]. done.
Qed.

Context (Hloc : ∀ j, j ≠ k → local (Φ j)).

Lemma focus_fs_modes it (Ψ Ψ' : FS → Item → Prop) c f :
  focus Φ L n k it Ψ c → touches it (fs c) f → modes_but L f → Ψ' f it →
  focus Φ L n k it Ψ' (set_fs f c).
Proof.
  intros (Hk & Hlt & Ht) Hto Hm HΨ. split; [done|]. split; [done|].
  eapply txn_fs; [exact Ht|exact Hk|done|exact Hto|exact Hm|..].
  - intros j Hne. rewrite !at_item_other by done. auto.
  - by rewrite at_item_same.
Qed.

Lemma focus_fs it (Ψ Ψ' : FS → Item → Prop) c f :
  L k → focus Φ L n k it Ψ c → touches it (fs c) f → Ψ' f it → focus Φ L n k it Ψ' (set_fs f c).
Proof.
  intros HLk Hf Hto HΨ. eapply focus_fs_modes; [exact Hf|done| |done].
  destruct Hf as (Hk & _ & Ht). by eapply modes_but_touches.
Qed.

(** The record of the item changes: its slot, or the name of its stage. *)
Lemma focus_record it it' (Ψ Ψ' : FS → Item → Prop) c :
  focus Φ L n k it Ψ c →
  (∃ r b, it' = set_recovery r (set_stage (set_named b <$> stage it) it)) → own it ⊆ own it' →
  (∀ a, recovery it' = Some a → (∃ a0, recovery it = Some a0 ∧ akey a = akey a0) ∨
     slot_fresh k c it a) →
  Ψ' (fs c) it' → focus Φ L n k it' Ψ' (set_items (<[k := it']> (items c)) c).
Proof.
  intros (Hk & Hlt & Ht) Hv Hown Hslot HΨ. split; [|split; [done|]].
  - apply list_lookup_insert_eq. by eapply lookup_lt_Some.
  - eapply txn_record; [exact Ht|exact Hk|done..| |].
    + intros j f itj Hne. by rewrite !at_item_other.
    + by rewrite at_item_same.
Qed.

Lemma named_same it : ∃ b, set_named b <$> stage it = stage it.
Proof. destruct (stage it) as [[]|]; [by eexists|by exists true]. Qed.

Lemma focus_slot it a (Ψ Ψ' : FS → Item → Prop) c :
  focus Φ L n k it Ψ c →
  (∃ a0, recovery it = Some a0 ∧ akey a = akey a0) ∨ recovery it = None ∧ slot_fresh k c it a →
  let it' := set_recovery (Some a) it in
  Ψ' (fs c) it' → focus Φ L n k it' Ψ' (set_items (<[k := it']> (items c)) c).
Proof.
  intros Hf Ha it' HΨ. eapply focus_record; [exact Hf| | | |done].
  - destruct (named_same it) as [b Hb]. exists (Some a), b. subst it'. rewrite Hb. by destruct it.
  - unfold own. simpl. destruct Ha as [(a0 & -> & Heq)|[-> _]]; simpl; [by rewrite Heq|].
    rewrite app_nil_r. intros x Hx. apply elem_of_app in Hx as [Hx|Hx]; apply elem_of_app;
      [by left|right]. apply elem_of_app. by left.
  - intros a' [= <-]. destruct Ha as [?|[_ ?]]; auto.
Qed.

Lemma focus_name_slot it a b (Ψ Ψ' : FS → Item → Prop) c :
  focus Φ L n k it Ψ c → recovery it = Some a →
  let it' := set_recovery (Some (set_named b a)) it in
  Ψ' (fs c) it' → focus Φ L n k it' Ψ' (set_items (<[k := it']> (items c)) c).
Proof. intros Hf Ha it' HΨ. eapply focus_slot; [exact Hf|left; by exists a|done]. Qed.

Lemma focus_name_stage it a b (Ψ Ψ' : FS → Item → Prop) c :
  focus Φ L n k it Ψ c → stage it = Some a →
  let it' := set_stage (Some (set_named b a)) it in
  Ψ' (fs c) it' → focus Φ L n k it' Ψ' (set_items (<[k := it']> (items c)) c).
Proof.
  intros Ht Ha it' HΨ. eapply focus_record; [exact Ht| | | |done].
  - exists (recovery it), b. rewrite Ha. by destruct it.
  - unfold own. simpl. by rewrite Ha.
  - intros a' Ha'. left. by exists a'.
Qed.
End focus.

End plan.

Arguments tx_items {_ _ _ _ _ _ _} _.
Arguments tx_rest {_ _ _ _ _ _ _} _.
Arguments tx_valid {_ _ _ _ _ _ _} _.
Arguments tx_frame {_ _ _ _ _ _ _} _.
Arguments tx_slot {_ _ _ _ _ _ _} _.
Arguments tx_slots {_ _ _ _ _ _ _} _.
Arguments tx_closed {_ _ _ _ _ _ _} _.
Arguments tx_data {_ _ _ _ _ _ _} _.
Arguments tx_modes {_ _ _ _ _ _ _} _.
Arguments tx_each {_ _ _ _ _ _ _} _.
