(* ===== verification/PatchRollback.v ===== *)
(** * The apply_patch transaction: commit and rollback

    Each item owns a few entries: its source and destination, its stage, its recovery
    slot.  The owned entries of different items are disjoint and everything else is
    as staging left it, so an item's progress is a predicate on its own entries:
    [midway] holds wherever a commit stops, [done] when it went through.

    The committed items are rolled back in reverse.  An item whose rollback reports
    no failure is [restored], up to a stage that cleanup has still to remove; in any
    case its source is [kept] under one of its names. *)

From S2P Require Import Prelude PyStr Patch PatchTheory PatchApply PatchParse PatchFs PatchTxn.
From S2P Require Import PatchLogic PatchPhases PatchItem PatchPlan.
Open Scope string_scope.
Open Scope list_scope.
Open Scope Z_scope.

Section commit.
Context (fault : nat → Fault) {token : nat → pystr} {euid egid : Z} (root_value : pystr).
Context {root : nat} {f0 : FS} {ops : list Op} {f1 : FS} {its1 : list Item}.
Context (HL : layout token euid egid root f0 ops f1 its1).
Context {c2 : State} (Hst : staged token f0 f1 its1 (length its1) c2).

#[local] Arguments akey : simpl never.

Notation E f := (entries f).
Notation f2 := (fs c2).
Notation its2 := (items c2).

Notation txn := (@txn token f0 c2).
Notation focus := (@focus token f0 c2).

(** ** One commit *)

Definition finished (n : nat) (c : State) : Prop :=
  committed c = seq 0 n ∧ txn (λ _, done) (λ j, (j < n)%nat) n c.

(** Where a failed commit leaves the plan. *)
Definition stopped (c : State) : Prop :=
  ∃ n, (n <= length its2)%nat ∧ committed c = seq 0 n ∧ txn (λ _, midway) (λ j, (j < n)%nat) n c.

Lemma finished_stopped n c : (n <= length its2)%nat → finished n c → stopped c.
Proof.
  intros Hle [Hc Ht]. exists n. split; [done|]. split; [done|]. eapply txn_mono; [| |exact Ht]; [|done].
  intros. by apply done_midway.
Qed.

(** The items before [k] are committed and item [k] is as [Ψ] says. *)
Definition turn (k : nat) (it : Item) (Ψ : FS → Item → Prop) (c : State) : Prop :=
  committed c = seq 0 (S k) ∧ focus (λ _, done) (λ j, (j < S k)%nat) (S k) k it Ψ c.

Section turn.
Context {k : nat} {it : Item} {Ψ : FS → Item → Prop} {c : State} (Ht : turn k it Ψ c).

Lemma turn_item : items c !! k = Some it.
Proof. by destruct Ht as (_ & ? & _). Qed.

Lemma turn_txn : txn (at_item (λ _, done) k (λ f it', it' = it ∧ Ψ f it')) (λ j, (j < S k)%nat) (S k) c.
Proof. by destruct Ht as (_ & _ & _ & ?). Qed.

Lemma turn_holds : Ψ (fs c) it.
Proof. destruct Ht as [_ Hf]. apply (focus_holds Hf). Qed.

Lemma turn_closed : closed (fs c).
Proof. destruct Ht as [_ Hf]. apply (focus_closed Hf). Qed.

Lemma turn_apart : apart it.
Proof. destruct Ht as [_ Hf]. apply (focus_apart HL Hst Hf). Qed.

Lemma turn_mono (Ψ' : FS → Item → Prop) : (∀ f, Ψ f it → Ψ' f it) → turn k it Ψ' c.
Proof. intros H. destruct Ht as [Hc Hf]. split; [done|]. by eapply focus_mono. Qed.

Lemma turn_stopped : (∀ f, Ψ f it → midway f it) → stopped c.
Proof.
  intros H. destruct Ht as [Hc Hf]. exists (S k). split; [|split; [done|]].
  - pose proof (Forall2_length _ _ _ (tx_items turn_txn)). pose proof (lookup_lt_Some _ _ _ turn_item). lia.
  - eapply focus_out; [exact Hf|..]; auto using done_midway.
Qed.

Lemma turn_finished : (∀ f, Ψ f it → done f it) → finished (S k) c.
Proof. intros H. destruct Ht as [Hc Hf]. split; [done|]. eapply focus_out; [exact Hf|..]; auto. Qed.

Lemma turn_fs (Ψ' : FS → Item → Prop) f :
  touches it (fs c) f → Ψ' f it → turn k it Ψ' (set_fs f c).
Proof.
  intros. destruct Ht as [Hc Hf]. split; [done|].
  eapply (focus_fs HL Hst); [intros; apply done_local|simpl; lia|exact Hf|done|done].
Qed.

Lemma turn_name_slot a b (Ψ' : FS → Item → Prop) :
  recovery it = Some a → let it' := set_recovery (Some (set_named b a)) it in
  Ψ' (fs c) it' → turn k it' Ψ' (set_items (<[k := it']> (items c)) c).
Proof. intros. destruct Ht as [Hc Hf]. split; [done|]. by eapply focus_name_slot. Qed.

Lemma turn_name_stage a b (Ψ' : FS → Item → Prop) :
  stage it = Some a → let it' := set_stage (Some (set_named b a)) it in
  Ψ' (fs c) it' → turn k it' Ψ' (set_items (<[k := it']> (items c)) c).
Proof. intros. destruct Ht as [Hc Hf]. split; [done|]. by eapply focus_name_stage. Qed.
End turn.

Lemma wp_validate_item k it (Q : unit → State → Prop) R c :
  closed (fs c) → items c !! k = Some it → its1 !! k = Some (base it) →
  (at_home (fs c) it → clear (fs c) it → Q tt c) → (∀ e, R e c) →
  wp (validate_item fault k) Q R c.
Proof.
  intros Hcl Hk Hb HQ HR. apply wp_bind, wp_attached_or; [|done].
  apply wp_bind, wp_get_item; [|done]. intros it' Hk'. simplify_eq.
  destruct (lay_placed _ _ _ _ _ _ _ _ HL _ _ Hb) as [[src Hsrc] Hdst]. simpl in Hsrc, Hdst.
  destruct (layout_op _ _ _ _ _ _ _ _ HL _ _ Hb) as (op & _ & Hpr).
  apply wp_bind, wp_some; [|congruence]. intros src' Hsrc'. simplify_eq.
  destruct (snapshot it) as [s|] eqn:Hs.
  - apply wp_bind, wp_path_matches; [|done]. intros same Hsame. apply wp_bind, wp_check; [|done].
    intros ->. destruct (Hsame eq_refl) as (x & Hx & _).
    assert (Hhome : at_home (fs c) it).
    { intros s' e Hs' He. simplify_eq. by apply lookup_inode_Some in Hx as [? _]. }
    destruct (op_move (it_op it)) as [target|] eqn:Hmv; [destruct (destination it) as [dst|] eqn:Hd|].
    + apply wp_bind, wp_move_available; [by eexists| | | |done].
      * pose proof (move_ends _ _ _ _ _ _ _ _ HL _ _ _ _ Hb Hsrc Hd) as Hme. simpl in Hme.
        by rewrite Hmv in Hme.
      * intros Hn. apply wp_check; [|done]. intros _. apply HQ; [done|]. split; [congruence|].
        intros _ d Hd'. simplify_eq. by apply closed_lookup.
      * intros src2. by apply wp_check.
    + apply wp_ret, HQ; [done|]. split; [congruence|]. intros _ d. congruence.
    + apply wp_ret, HQ; [done|]. split; [congruence|]. by intros [].
  - apply wp_bind, wp_entry_missing; [|done]. apply wp_check; [|done]. intros Hm. bool_prop.
    apply HQ; [intros s e; congruence|]. split.
    + intros _ e He. simplify_eq. by apply closed_lookup.
    + intros Hmv. by destruct (add_stays HL it k Hb Hs).
Qed.

Lemma rest_base Φ L n c k it : txn Φ L n c → (n <= k)%nat → items c !! k = Some it →
  its2 !! k = Some it ∧ its1 !! k = Some (base it) ∧ recovery it = None ∧
  (∀ a, stage it = Some a → named a = true).
Proof.
  intros Ht Hle Hk. assert (Hk2 : its2 !! k = Some it) by (rewrite <- Hk; symmetry; by eapply tx_rest).
  split; [done|]. split; [by apply (base_its2 Hst)|]. split.
  - pose proof (st_recovery _ _ _ _ _ _ Hst) as HF. rewrite Forall_lookup in HF. eauto.
  - intros a Ha. by destruct (st_stage _ _ _ _ _ _ Hst _ _ _ Hk2 Ha).
Qed.

(** The entries of an item whose turn has not come are as staging left them. *)
Lemma rest_entries Φ L n c k it key : txn Φ L n c → (n <= k)%nat → items c !! k = Some it →
  key ∈ own it → E (fs c) !! key = E f2 !! key.
Proof.
  intros Ht Hle Hk Hkey. eapply tx_frame; [exact Ht|]. intros j itj Hj Hjn Hkey'.
  assert (j = k) by (by eapply (own_disjoint HL Hst Ht)). lia.
Qed.

(** The item joins the committed ones, as staging left it. *)
Lemma finished_begin k c it :
  finished k c → items c !! k = Some it → at_home (fs c) it → clear (fs c) it →
  turn k it home (set_committed (committed c ++ [k]) c).
Proof.
  intros [Hco Ht] Hk Hhome Hclear.
  destruct (rest_base _ _ _ _ _ _ Ht (le_n _) Hk) as (Hk2 & _ & Hrec & Hnm).
  assert (Hent : ∀ key, key ∈ own it → E (fs c) !! key = E f2 !! key)
    by (intros key; by eapply rest_entries).
  split; [|split; [done|split; [lia|]]].
  { simpl. rewrite Hco. symmetry. apply (seq_S k 0). }
  split; simpl; try done; try apply Ht.
  - intros j Hj. apply (tx_rest Ht). lia.
  - intros j it2 Hj Hlt. destruct (decide (j = k)) as [->|Hne]; [|apply (tx_valid Ht j it2 Hj); lia].
    simplify_eq. eapply clear_ext'; [|exact Hclear]. done.
  - intros key Hkey. apply (tx_frame Ht). intros j itj Hj Hlt. apply (Hkey j itj Hj). lia.
  - intros i x Hx. destruct (tx_modes Ht _ _ Hx) as (x' & Hx' & Hm). exists x'. split; [done|].
    destruct Hm as [?|(j & itj & s & ? & ?)]; [by left|right]. exists j, itj, s. split; [lia|done].
  - intros j itj Hj Hlt. unfold at_item. destruct (decide (j = k)) as [->|Hne].
    + simplify_eq. split; [done|]. split_and!; try done; unfold slot_idle, unpublished.
      * intros a Ha. congruence.
      * intros a Ha. split; [by apply Hnm|]. rewrite Hent by eauto with own.
        destruct (st_stage _ _ _ _ _ _ Hst _ _ _ Hk2 Ha) as (_ & fd & Hfd & []). congruence.
    + apply (tx_each Ht j itj Hj). lia.
Qed.

(** A slot is free of every name the plan owns. *)
Lemma turn_new_slot k it (Ψ Ψ' : FS → Item → Prop) c a t d :
  turn k it Ψ c → recovery it = None → is_Some (snapshot it) → E (fs c) !! akey a = None →
  akey a = (d, private ".odin-patch-recovery-" (token t)) →
  (∀ e, source it = Some e → d = parent_fd e) → let it' := set_recovery (Some a) it in
  Ψ' (fs c) it' → turn k it' Ψ' (set_items (<[k := it']> (items c)) c).
Proof.
  intros Hturn Hrec Hsn Hfree Hka Hdir it' HΨ. pose proof (turn_item Hturn) as Hk. pose proof (turn_txn Hturn) as Ht.
  assert (Hother : ∀ j itj aj, j ≠ k → items c !! j = Some itj → recovery itj = Some aj → akey aj ≠ akey a).
  { intros j itj aj Hne Hj Haj Heq. destruct (decide (j < S k)%nat) as [Hlt|Hge].
    - pose proof (tx_each Ht _ _ Hj Hlt) as Hd. rewrite at_item_other in Hd by done.
      destruct Hd as (Hd & _). destruct (Hd _ Haj) as (_ & i & Hi). congruence.
    - assert (Hle : (S k <= j)%nat) by lia.
      destruct (rest_base _ _ _ _ _ _ Ht Hle Hj) as (_ & _ & ? & _). congruence. }
  assert (Hno : ∀ j itj, items c !! j = Some itj → akey a ∉ own itj).
  { intros j itj Hj Hin. apply elem_of_own in Hin as [Hin|[(a' & Ha' & Heq)|(a' & Ha' & Heq)]].
    - destruct (txn_ends Hst Ht _ _ Hj) as (it1 & Hj1 & He). rewrite <- He in Hin.
      eapply (ends_public _ _ _ _ _ _ _ _ HL _ _ _ ".odin-patch-recovery-" t Hj1 Hin). by rewrite Hka.
    - destruct (txn_stage Hst Ht _ _ _ Hj Ha') as (? & a2 & ? & _ & _ & Heq2 & _ & _ & [_ [t2 Hpr] _ _ _]).
      rewrite <- Heq2, <- Heq, Hka in Hpr. symmetry in Hpr. by apply private_ne in Hpr.
    - destruct (decide (j = k)) as [->|Hne]; [congruence|]. by eapply Hother. }
  split; [apply Hturn|]. eapply focus_slot; [apply Hturn| |done]. right. split; [done|]. split_and!; try done.
  - rewrite <- (tx_frame Ht); [done|]. intros j itj Hj _. by eapply Hno.
  - intros e He. rewrite Hka. by apply Hdir.
  - exists t. by rewrite Hka.
Qed.

(** What the code notes about the slot is right, whether or not the rename happened. *)
Lemma wp_note_slot_home k it a c :
  turn k it home c → recovery it = Some a →
  wp (note_named fault (RecoveryOf k) (akey a)) (λ _, stopped) (λ _, stopped) c.
Proof.
  intros Ht Ha. pose proof (turn_holds Ht) as (Hh & Hi & Hu & Hc).
  destruct (Hi _ Ha) as [_ Hfree]. eapply (wp_note fault k _ _ _ _ c it).
  - by right.
  - apply (turn_item Ht).
  - by apply (turn_closed Ht).
  - rewrite bool_decide_eq_true_2, Ha by done. eapply turn_stopped; [|intros f0'; apply home_midway].
    apply (turn_name_slot Ht); [done|]. split; [done|]. split; [|done].
    by intros a' [= <-].
  - intros _. apply (turn_stopped Ht). intros f0'. apply home_midway.
Qed.

Lemma wp_note_slot_away k it a s c :
  turn k it (λ f it, away f it ∧ E f !! akey a = Some (s_fd s)) c → recovery it = Some a →
  snapshot it = Some s →
  wp (note_named fault (RecoveryOf k) (akey a))
    (λ _, turn k (set_recovery (Some (set_named true a)) it) retired_item) (λ _, stopped) c.
Proof.
  intros Ht Ha Hs. pose proof (turn_holds Ht) as ((Hr & Hg & Hu & Hc) & Hslot).
  eapply (wp_note fault k _ _ _ _ c it).
  - by right.
  - apply (turn_item Ht).
  - by apply (turn_closed Ht).
  - rewrite bool_decide_eq_false_2, Ha by congruence. apply (turn_name_slot Ht); [done|].
    split; [split; [|done]|].
    + intros s' Hs'. exists (set_named true a). split; [done|]. simpl in Hs'.
      assert (s' = s) as -> by congruence. exact Hslot.
    + intros a' [= <-]. split; [done|]. by exists (s_fd s).
  - intros _. apply (turn_stopped Ht). intros f [? _]. by apply away_midway.
Qed.

Lemma retired_item_stopped k it c : turn k it retired_item c → stopped c.
Proof. intros Ht. apply (turn_stopped Ht). intros f [? _]. by apply away_midway. Qed.

Lemma wp_retire_rename k it a s src c :
  turn k it home c → snapshot it = Some s → source it = Some src → recovery it = Some a →
  wp (finally (durable_rename_noreplace fault (entry_key src) (akey a))
        (note_named fault (RecoveryOf k) (akey a)))
    (λ _, turn k (set_recovery (Some (set_named true a)) it) retired_item) (λ _, stopped) c.
Proof.
  intros Ht Hs Hsrc Ha.
  assert (Haway : ∀ f, sys_rename_noreplace (entry_key src) (akey a) (fs c) = Ok (f, tt) →
    wp (note_named fault (RecoveryOf k) (akey a))
      (λ _, turn k (set_recovery (Some (set_named true a)) it) retired_item) (λ _, stopped) (set_fs f c)).
  { intros f Hren. apply wp_note_slot_away with s; [|done|done].
    apply (turn_fs Ht); [eapply touches_rename; [exact Hren|eauto with own..]|].
    eapply home_away; [by apply (turn_apart Ht)|by apply (turn_holds Ht)|done..]. }
  apply wp_finally, wp_durable_rename.
  - exact Haway.
  - intros f e Hren. eapply wp_mono; [by apply Haway| |done].
    intros [] c'. apply retired_item_stopped.
  - intros e. by apply wp_note_slot_home with it.
  - by apply wp_note_slot_home with it.
Qed.

Lemma wp_retire_source k it s src path c :
  turn k it home c → snapshot it = Some s → source it = Some src → recovery it = None →
  wp (retire_source fault token root_value k src s path)
    (λ _ c', ∃ r, turn k (set_recovery r it) retired_item c') (λ _, stopped) c.
Proof.
  intros Ht Hs Hsrc Hrec.
  assert (Hstop : ∀ it c, turn k it home c → stopped c).
  { intros it' c' Ht'. apply (turn_stopped Ht'). intros f. apply home_midway. }
  apply wp_bind. eapply (wp_allocate _ _ _ _ (λ c', c' = c)); [done| |by intros e c' ->; eauto].
  intros t c' ->. apply wp_bind, wp_entry_missing; [|by eauto].
  apply wp_ret. case_bool_decide as Hm; [|done].
  apply (closed_lookup _ _ (turn_closed Ht)) in Hm.
  match goal with |- context [set_recovery (Some ?x)] => set (slot := x) in * end.
  assert (Ht1 : turn k (set_recovery (Some slot) it) home
                  (set_items (<[k := set_recovery (Some slot) it]> (items c)) c)).
  { eapply turn_new_slot with (t := t); [exact Ht|done|by eexists|exact Hm|reflexivity|by intros e He; simplify_eq|].
    apply home_slot; [by apply (turn_holds Ht)|done..]. }
  apply wp_bind, wp_modify. pose proof (turn_item Ht) as Hk. rewrite (alter_insert_item _ _ _ it) by done.
  revert Ht1. generalize (set_items (<[k := set_recovery (Some slot) it]> (items c)) c).
  clear c Ht Hk Hm. intros c Ht. set (it1 := set_recovery (Some slot) it) in *.
  assert (Hs1 : snapshot it1 = Some s) by done.
  apply wp_bind, wp_call; [|by eauto]. intros f [] [= <-].
  assert (Ht2 : turn k it1 home (set_fs (change (s_fd s) (set_mode 384) (fs c)) c)).
  { apply (turn_fs Ht); [by apply touches_chmod, source_fd_of_it|].
    eapply home_ext; [|by apply (turn_holds Ht)]. done. }
  revert Ht2. generalize (set_fs (change (s_fd s) (set_mode 384) (fs c)) c). clear c Ht. intros c Ht.
  apply wp_bind. eapply wp_mono; [by apply (wp_retire_rename k it1 slot s)| |done].
  intros [] c' Ht'. apply wp_bind, wp_same_inode; [|intros e; by eapply retired_item_stopped].
  intros same _. apply wp_check; intros _; [by exists (Some (set_named true slot))|].
  by eapply retired_item_stopped.
Qed.

Lemma out_item_stopped k it c : turn k it out_item c → stopped c.
Proof. intros Ht. apply (turn_stopped Ht). intros f [? _]. by apply out_midway. Qed.
Lemma published_item_stopped k it c : turn k it published_item c → stopped c.
Proof. intros Ht. apply (turn_stopped Ht). intros f [[? _] _]. by apply out_midway. Qed.

Lemma wp_note_stage_away k it a c :
  turn k it retired_item c → stage it = Some a →
  wp (note_named fault (StageOf k) (akey a)) (λ _, stopped) (λ _, stopped) c.
Proof.
  intros Ht Ha. pose proof (turn_holds Ht) as [Haw Hf].
  assert (Hex : E (fs c) !! akey a ≠ None).
  { destruct Haw as (_ & _ & Hu & _). destruct (Hu _ Ha) as [_ ->]. pose proof (turn_item Ht) as Hk. apply turn_txn in Ht.
    destruct (txn_stage Hst Ht _ _ _ Hk Ha) as (? & ? & fd & _ & _ & _ & -> & _). done. }
  eapply (wp_note fault k _ _ _ _ c it).
  - by left.
  - apply (turn_item Ht).
  - by apply (turn_closed Ht).
  - rewrite bool_decide_eq_false_2, Ha by done. eapply retired_item_stopped, turn_name_stage; [done..|].
    split; [by apply away_named|exact Hf].
  - intros _. by eapply retired_item_stopped.
Qed.

Lemma wp_note_stage_out k it a c :
  turn k it out_item c → stage it = Some a →
  wp (note_named fault (StageOf k) (akey a))
    (λ _, turn k (set_stage (Some (set_named false a)) it) published_item) (λ _, stopped) c.
Proof.
  intros Ht Ha. pose proof (turn_holds Ht) as [Hout Hf].
  eapply (wp_note fault k _ _ _ _ c it).
  - by left.
  - apply (turn_item Ht).
  - by apply (turn_closed Ht).
  - destruct Hout as (? & (a' & d & Ha' & Hd & Hn & ?) & ?). assert (a' = a) as -> by congruence.
    rewrite bool_decide_eq_true_2, Ha by done. eapply turn_name_stage; [done..|].
    split; [split; [apply out_named; [|done]|exact Hf]|by intros a' [= <-]].
    split; [done|]. split; [by exists a, d|done].
  - intros _. by eapply out_item_stopped.
Qed.

Lemma wp_publish_rename k it a d c :
  turn k it retired_item c → stage it = Some a → destination it = Some d →
  wp (finally (durable_rename_noreplace fault (akey a) (entry_key d))
        (note_named fault (StageOf k) (akey a)))
    (λ _, turn k (set_stage (Some (set_named false a)) it) published_item) (λ _, stopped) c.
Proof.
  intros Ht Ha Hd. pose proof (turn_holds Ht) as [Haw Hf].
  pose proof (turn_apart Ht) as Hap.
  assert (Hout : ∀ f, sys_rename_noreplace (akey a) (entry_key d) (fs c) = Ok (f, tt) →
    wp (note_named fault (StageOf k) (akey a))
      (λ _, turn k (set_stage (Some (set_named false a)) it) published_item) (λ _, stopped) (set_fs f c)).
  { intros f Hren. apply wp_note_stage_out; [|done].
    assert (∃ fd, a_fd a = Some fd) as [fd Hfd].
    { pose proof (turn_item Ht) as Hk. apply turn_txn in Ht. destruct (txn_stage Hst Ht _ _ _ Hk Ha) as (? & ? & fd & _ & _ & _ & -> & _). eauto. }
    apply (turn_fs Ht); [eapply touches_rename; [exact Hren|eauto with own..]|].
    split; [by eapply away_out|]. apply rename_entries in Hren as (i & _ & _ & _ & _ & _ & Hoth).
    intros r Hr. rewrite Hoth; [by apply Hf|apply not_eq_sym; by apply (ap_both _ Hap)|].
    apply (ap_slot _ Hap _ _ Hr). by apply destination_end. }
  apply wp_finally, wp_durable_rename.
  - exact Hout.
  - intros f e Hren. eapply wp_mono; [by apply Hout| |done].
    intros [] c'. apply published_item_stopped.
  - intros e. by apply wp_note_stage_away with it.
  - by apply wp_note_stage_away with it.
Qed.

Lemma wp_publish_stage k it a d path c :
  turn k it retired_item c → stage it = Some a → destination it = Some d →
  wp (publish_stage fault k a d (it_mode it) path) (λ _, finished (S k)) (λ _, stopped) c.
Proof.
  intros Ht Ha Hd. pose proof (turn_item Ht) as Hk. pose proof (turn_txn Ht) as Htx.
  destruct (txn_stage Hst Htx _ _ _ Hk Ha) as (it2 & a2 & fd & Hk2 & Ha2 & _ & Hfd & _).
  apply wp_bind, wp_some; [|congruence]. intros fd' Hfd'. assert (fd' = fd) as -> by congruence.
  apply wp_bind. eapply wp_mono; [by apply (wp_publish_rename k it a d)| |done].
  clear c Hk Ht Htx. intros [] c Ht.
  apply wp_bind, wp_same_inode; [|intros e; by eapply published_item_stopped]. intros same _.
  apply wp_bind, wp_check; [|intros _; by eapply published_item_stopped]. intros _.
  apply wp_call; [|intros e; by eapply published_item_stopped]. intros f [] [= <-].
  set (it' := set_stage (Some (set_named false a)) it) in *.
  pose proof (turn_item Ht) as Hk. pose proof (turn_txn Ht) as Ha'.
  destruct (stage_fresh HL Hst Ha' k it' (set_named false a) fd Hk eq_refl Hfd) as [_ [y Hy]].
  destruct (tx_data Ha' _ _ Hy) as (x & Hx & _).
  assert (Hdone : turn k it' done (set_fs (change fd (set_mode (it_mode it)) (fs c)) c)).
  { apply (turn_fs Ht); [by eapply touches_chmod, stage_fd_of_it|].
    by eapply (published_done _ it'); [apply (turn_holds Ht)|..]. }
  by apply (turn_finished Hdone).
Qed.

Lemma wp_commit_item k c :
  finished k c → (k < length its2)%nat →
  wp (commit_item fault token root_value k) (λ _, finished (S k)) (λ _, stopped) c.
Proof.
  intros Ht Hlt. pose proof Ht as [_ Htx].
  assert (Hlen : (k < length (items c))%nat).
  { by rewrite <- (Forall2_length _ _ _ (tx_items Htx)). }
  destruct (lookup_lt_is_Some_2 _ _ Hlen) as [it Hk].
  destruct (rest_base _ _ _ _ _ _ Htx (le_n _) Hk) as (Hk2 & Hb & Hrec & _).
  assert (Hstop : stopped c) by (eapply finished_stopped; [|exact Ht]; lia).
  apply wp_bind. eapply wp_validate_item; [apply (tx_closed Htx)|done|done| |done].
  intros Hhome Hclear. apply wp_bind, wp_modify.
  assert (Htn : turn k it home (set_committed (committed c ++ [k]) c)).
  { by apply finished_begin. }
  revert Htn. generalize (set_committed (committed c ++ [k]) c). clear c Ht Htx Hlen Hk Hstop Hhome Hclear.
  intros c Ht. assert (Hstop : stopped c) by (apply (turn_stopped Ht); intros f; apply home_midway).
  apply wp_bind, wp_get_item; [|done]. intros it' Hit'. pose proof Ht as Htn. pose proof (turn_item Ht) as Hk. apply turn_txn in Ht.
  assert (it' = it) as -> by congruence. clear Hit'.
  apply wp_bind, wp_some; [|done]. intros src Hsrc.
  apply wp_bind. eapply (wp_mono _ (λ _ c, ∃ r, turn k (set_recovery r it) retired_item c) _ (λ _, stopped));
    [| |done].
  { destruct (snapshot it) as [s|] eqn:Hs; [by apply wp_retire_source|]. apply wp_ret.
    exists None. pose proof (turn_holds Htn) as (? & _ & ? & ?).
    assert (Heq : set_recovery None it = it) by (destruct it; simpl in Hrec; by subst).
    rewrite Heq. apply (turn_mono Htn). intros f (_ & _ & Hu & Hc).
    split; [|intros a; congruence]. split_and!; try done; intros s; congruence. }
  clear c Hk Ht Htn Hstop. intros [] c (r & Ht). apply wp_bind.
  eapply (wp_mono _ (λ _, finished (S k)) _ (λ _, stopped)); [| |done].
  - destruct (stage it) as [a|] eqn:Ha.
    + destruct (lay_placed _ _ _ _ _ _ _ _ HL _ _ Hb) as [_ Hdst]. simpl in Hdst.
      destruct (st_stage _ _ _ _ _ _ Hst _ _ _ Hk2 Ha) as (_ & fd & _ & [_ _ _ _ (x & data & Hnew & _)]).
      destruct (Hdst ltac:(congruence)) as [d Hd].
      apply wp_bind, wp_some; [|congruence]. intros d' Hd'. assert (d' = d) as -> by congruence.
      by apply (wp_publish_stage k (set_recovery r it)).
    + apply wp_ret. apply (turn_finished Ht). intros f [Haw Hf].
      split; [done|]. split; [|simpl; rewrite Ha; exact Haw].
      intros a. simpl. congruence.
  - intros [] c' Hf. apply wp_attached_or; [done|]. intros _. eapply finished_stopped; [|exact Hf]. lia.
Qed.

Lemma staged_closed : closed f2.
Proof.
  intros key i Hk. destruct (E f1 !! key) as [i1|] eqn:Hk1.
  - pose proof (lookup_weaken _ _ _ _ Hk1 (st_entries _ _ _ _ _ _ Hst)). simplify_eq.
    destruct (tree_closed _ _ (grown_tree _ _ _ (lay_grown _ _ _ _ _ _ _ _ HL)) _ _ Hk1) as [x Hx].
    exists x. by eapply lookup_weaken, (st_inodes _ _ _ _ _ _ Hst).
  - destruct (st_new _ _ _ _ _ _ Hst _ _ Hk Hk1) as (j & it & a & Hj & Ha & _ & Hka).
    destruct (st_stage _ _ _ _ _ _ Hst _ _ _ Hj Ha) as (_ & fd & Hfd & [_ _ _ _ (x & ? & _ & Hx & _)]).
    exists x. congruence.
Qed.

Lemma finished_start : finished 0 c2.
Proof.
  pose proof (st_recovery _ _ _ _ _ _ Hst) as HR. rewrite Forall_lookup in HR.
  split; [apply Hst|]. split; try done; try apply Hst.
  - apply Forall2_lookup. intros j. destruct (its2 !! j) as [it|] eqn:Hj; constructor.
    exists None, true. specialize (HR _ _ Hj).
    destruct (stage it) as [a|] eqn:Ha; [destruct (st_stage _ _ _ _ _ _ Hst _ _ _ Hj Ha) as [Hn _]; destruct a|];
      destruct it; simpl in *; by subst.
  - intros j it _ Hlt. lia.
  - intros j it a Hj Ha. specialize (HR _ _ Hj). congruence.
  - intros j j' it it' a a' Hj _ Ha. specialize (HR _ _ Hj). congruence.
  - apply staged_closed.
  - intros i x Hx. exists x. done.
  - intros i x Hx. exists x. split; [|by left]. eapply lookup_weaken; [|apply (st_inodes _ _ _ _ _ _ Hst)].
    eapply f0_f1_inode; [exact HL|done].
  - intros j it _ Hlt. lia.
Qed.

Lemma length_its2 : length its2 = length its1.
Proof. rewrite <- (st_base _ _ _ _ _ _ Hst). by rewrite length_fmap. Qed.

(** The commit loop. *)
Lemma wp_commit_all :
  wp (for_each (seq 0 (length its2)) (commit_item fault token root_value))
    (λ _, finished (length its2)) (λ _, stopped) c2.
Proof.
  apply (wp_for_range _ finished); [apply finished_start|].
  intros k c Hlt Ht. by apply wp_commit_item.
Qed.

End commit.

(** * The apply_patch transaction: rollback *)

#[local] Notation E f := (entries f).

(** ** One item *)

Definition kept (f : FS) (it : Item) : Prop :=
  ∀ s e, snapshot it = Some s → source it = Some e →
    E f !! entry_key e = Some (s_fd s) ∨ ∃ a, recovery it = Some a ∧ E f !! akey a = Some (s_fd s).

(** The published stage has been withdrawn. *)
Definition drawn (f : FS) (it : Item) : Prop :=
  retired f it ∧ source_gone f it ∧ clear f it ∧
  ∀ a, stage it = Some a → named a = false ∧ E f !! akey a = None.

(** The code takes the stage for unpublished though its name is gone. *)
Definition stale (f : FS) (it : Item) : Prop :=
  ∃ a, stage it = Some a ∧ named a = true ∧ E f !! akey a = None.

Definition settled (f : FS) (it : Item) : Prop :=
  clear f it ∧ ∀ a, stage it = Some a → E f !! akey a = if named a then a_fd a else None.

Definition restored (f : FS) (it : Item) : Prop :=
  at_home f it ∧ slot_idle f it ∧ (settled f it ∨ stale f it).

Definition mode_back (f : FS) (it : Item) : Prop :=
  ∀ s, snapshot it = Some s → ∃ x, inodes f !! s_fd s = Some x ∧ mode x = s_mode s.

(** Where the first half of a record's rollback finds and leaves it. *)
Definition opened (f : FS) (it : Item) : Prop := midway f it ∨ drawn f it.
Definition halfway (f : FS) (it : Item) : Prop :=
  home f it ∨ away f it ∨ drawn f it ∨ (out f it ∧ stale f it).

Lemma opened_kept f it : opened f it → kept f it.
Proof.
  intros Ho s e Hs He.
  destruct Ho as [[(Hh & _)|[(Hr & _)|(Hr & _)]]|(Hr & _)]; [by left; apply Hh|right; by apply Hr..].
Qed.

Lemma at_home_kept f it : at_home f it → kept f it.
Proof. intros Hh s e Hs He. left. by apply Hh. Qed.

Lemma kept_local : local kept.
Proof.
  intros f f' it Ho _ Hk s e Hs He. destruct (Hk _ _ Hs He) as [Hf|(a & Ha & Hf)]; [left|right].
  - by rewrite Ho by eauto with own.
  - exists a. by rewrite Ho by eauto with own.
Qed.

Lemma restored_local : local restored.
Proof.
  intros f f' it Ho _ (Hh & Hi & Hs). split; [by eapply at_home_ext|].
  split; [by eapply slot_idle_ext|]. destruct Hs as [(Hc & Hs)|(a & Ha & Hn & Hs)]; [left|right].
  - split; [by eapply clear_ext|]. intros a Ha. rewrite Ho by eauto with own. auto.
  - exists a. by rewrite Ho by eauto with own.
Qed.

Lemma home_restored f it : home f it → restored f it.
Proof.
  intros (Hh & Hi & Hu & Hc). split; [done|]. split; [done|]. left. split; [done|].
  intros a Ha. by destruct (Hu _ Ha) as [-> ?].
Qed.

Lemma unlink_entries k f f' : sys_unlink k f = Ok (f', tt) →
  ∃ i, E f !! k = Some i ∧ E f' = delete k (E f).
Proof. intros (i & x & [Hk _]%lookup_inode_Some & _ & ->)%unlink_Ok. eauto. Qed.

(** The published stage is withdrawn. *)
Lemma out_drawn f f' it d :
  apart it → out f it → destination it = Some d →
  (∀ a, stage it = Some a → named a = false) →
  sys_unlink (entry_key d) f = Ok (f', tt) → drawn f' it.
Proof.
  intros Hap (Hr & (a & d' & Ha & Hd' & Hn & Hdst) & Hm) Hd Hnamed (i & Hk & Hen)%unlink_entries.
  assert (d' = d) as -> by congruence.
  assert (Hsrc : ∀ e, source it = Some e → moves it ∨ entry_key e = entry_key d).
  { intros e He. destruct (ap_move _ Hap _ _ He Hd) as [[? _]|[_ ->]]; auto. }
  split_and!.
  - intros s Hs. destruct (Hr _ Hs) as (r & Hre & Hrs). exists r. split; [done|].
    rewrite Hen, lookup_delete_ne; [done|]. apply not_eq_sym, (ap_slot _ Hap _ _ Hre).
    by apply destination_end.
  - intros s e Hs He. rewrite Hen, lookup_delete_None.
    destruct (Hsrc _ He) as [Hmv| ->]; [right; by apply (Hm Hmv s)|by left].
  - split.
    + intros Hs e He. rewrite Hen, lookup_delete_None. left.
      destruct (Hsrc _ He) as [Hmv| ->]; [by destruct (ap_add _ Hap Hs)|done].
    + intros _ d2 Hd2. simplify_eq. rewrite Hen. apply lookup_delete_eq.
  - intros a' Ha'. simplify_eq. split; [auto|]. rewrite Hen, lookup_delete_None. by right.
Qed.

(** The retired source goes home. *)
Lemma retired_home f f' it s e a :
  apart it → halfway f it → snapshot it = Some s → source it = Some e → recovery it = Some a →
  named a = true → sys_rename_noreplace (akey a) (entry_key e) f = Ok (f', tt) →
  restored f' (set_recovery (Some (set_named false a)) it).
Proof.
  intros Hap Hh Hs He Ha Hnm (i & Hi & Hn & Hne & Hk & Hk' & Hoth)%rename_entries.
  assert (Hr : retired f it).
  { destruct Hh as [(_ & Hi' & _)|[(? & _)|[(? & _)|((? & _) & _)]]]; try done.
    destruct (Hi' _ Ha). congruence. }
  destruct (Hr _ Hs) as (a' & Ha' & Hfd). assert (a' = a) as -> by congruence.
  assert (i = s_fd s) as -> by congruence.
  assert (Hstg : ∀ b, stage it = Some b → E f' !! akey b = E f !! akey b).
  { intros b Hb. apply Hoth; [by apply (ap_both _ Hap)|].
    apply (ap_stage _ Hap _ _ Hb). by apply source_end. }
  assert (Hclear : clear f it → clear f' it).
  { intros [_ Hc]. split; [congruence|]. intros Hmv d Hd. rewrite Hoth; [by apply Hc| |].
    - apply not_eq_sym, (ap_slot _ Hap _ _ Ha). by apply destination_end.
    - destruct (ap_move _ Hap _ _ He Hd) as [[_ ?]|[? _]]; [congruence|done]. }
  split; [|split].
  - intros s' e' Hs' He'. simpl in Hs', He'. congruence.
  - intros a' [= <-]. done.
  - destruct Hh as [(_ & Hi' & _)|[(_ & _ & Hu & Hc)|[(_ & _ & Hc & Hw)|(_ & b & Hb & Hbn & Hbk)]]].
    + destruct (Hi' _ Ha). congruence.
    + left. split; [by apply Hclear|]. intros b Hb. rewrite (Hstg _ Hb). by destruct (Hu _ Hb) as [-> ?].
    + left. split; [by apply Hclear|]. intros b Hb. rewrite (Hstg _ Hb). by destruct (Hw _ Hb) as [-> ?].
    + right. exists b. by rewrite (Hstg _ Hb).
Qed.

(** ** One record *)

Section rollback.
Context (fault : nat → Fault) {token : nat → pystr} {euid egid : Z}.
Context {root : nat} {f0 : FS} {ops : list Op} {f1 : FS} {its1 : list Item}.
Context (HL : layout token euid egid root f0 ops f1 its1).
Context {c2 : State} (Hst : staged token f0 f1 its1 (length its1) c2).

Notation its2 := (items c2).
Notation txn := (@txn token f0 c2).
Notation focus := (@focus token f0 c2).

Lemma set_stage_same it b : (∀ a, stage it = Some a → named a = b) → set_stage (set_named b <$> stage it) it = it.
Proof.
  destruct it as [? ? ? ? ? ? ? ? [[]|] ?]; simpl; [|done]. intros H.
  specialize (H _ eq_refl). simpl in H. by subst.
Qed.

Lemma set_recovery_same it b : (∀ a, recovery it = Some a → named a = b) → set_recovery (set_named b <$> recovery it) it = it.
Proof.
  destruct it as [? ? ? ? ? ? ? ? ? [[]|]]; simpl; [|done]. intros H.
  specialize (H _ eq_refl). simpl in H. by subst.
Qed.

Lemma set_items_same c k it : items c !! k = Some it → set_items (<[k := it]> (items c)) c = c.
Proof. intros H. rewrite list_insert_id by done. by destruct c. Qed.

Context {Φ : nat → FS → Item → Prop} {L : nat → Prop} {n k : nat}.
Context (Hloc : ∀ j, j ≠ k → local (Φ j)) (HLk : L k).

Notation focus_k := (focus Φ L n k).

(** What is published is a stage, not a source. *)
Lemma out_not_home it c Ψ s e :
  focus_k it Ψ c → out (fs c) it → snapshot it = Some s → source it = Some e →
  E (fs c) !! entry_key e ≠ Some (s_fd s).
Proof.
  intros Hf (_ & (a & d & Ha & Hd & _ & Hdst) & Hg) Hs He Hsrc.
  destruct (ap_move _ (focus_apart HL Hst Hf) _ _ He Hd) as [[Hmv _]|[_ ->]].
  - rewrite (Hg Hmv _ _ Hs He) in Hsrc. done.
  - destruct Hf as (Hk & _ & Ht). destruct (txn_source_fd HL Hst Ht _ _ _ Hk Hs) as (_ & x & _ & [_ Hx]%lookup_inode_Some & _).
    destruct (stage_fresh HL Hst Ht _ _ _ (s_fd s) Hk Ha) as [Hn _]; congruence.
Qed.

Lemma opened_home it c Ψ s e :
  focus_k it Ψ c → opened (fs c) it → snapshot it = Some s → source it = Some e →
  E (fs c) !! entry_key e = Some (s_fd s) → home (fs c) it.
Proof.
  intros Hf [[Hh|[(_ & Hg & _)|Ho]]|(_ & Hg & _)] Hs He Hsrc; [done| | |].
  - rewrite (Hg _ _ Hs He) in Hsrc. done.
  - by destruct (out_not_home _ _ _ _ _ Hf Ho Hs He).
  - rewrite (Hg _ _ Hs He) in Hsrc. done.
Qed.

Lemma wp_rollback_destination it c :
  focus_k it midway c →
  wp (rollback_destination fault k it)
    (λ zs, focus_k it (λ f it, opened f it ∧ (zs = [] → halfway f it))) (λ _ _, False) c.
Proof.
  intros Hf. pose proof (focus_holds Hf) as Hm. unfold rollback_destination.
  assert (Hfail : ∀ c (z : pystr) zs, focus_k it midway c →
    focus_k it (λ f it, opened f it ∧ (z :: zs = [] → halfway f it)) c).
  { intros c' z zs Hf'. eapply focus_mono; [|exact Hf']. intros f Hmf. split; [by left|done]. }
  destruct (stage it) as [a|] eqn:Ha.
  2:{ apply wp_ret. eapply focus_mono; [|exact Hf]. intros f Hmf. split; [by left|]. intros _.
      destruct Hmf as [?|[?|(_ & (a & _ & ? & _) & _)]]; [by left|right; by left|congruence]. }
  apply wp_if; intros Hn.
  { apply wp_ret. eapply focus_mono; [|exact Hf]. intros f Hmf. split; [by left|]. intros _.
    destruct Hmf as [?|[?|Ho]]; [by left|right; by left|do 3 right]. split; [done|].
    destruct Ho as (_ & (a' & d & Ha' & _ & Hk & _) & _). exists a'. split; [done|].
    split; [congruence|done]. }
  assert (Hout : out (fs c) it).
  { destruct Hm as [(_ & _ & Hu & _)|[(_ & _ & Hu & _)|Ho]]; [| |done];
      destruct (Hu _ Ha); congruence. }
  pose proof Hout as (_ & (a' & d & Ha' & Hd & _ & Hdst) & _). assert (a' = a) as -> by congruence.
  pose proof Hf as (Hk & _ & Ht).
  destruct (txn_stage Hst Ht _ _ _ Hk Ha) as (_ & _ & fd & _ & _ & _ & Hfd & _).
  apply wp_catch. rewrite Hd, Hfd. apply wp_bind, wp_ret, wp_bind, wp_ret.
  apply wp_bind, wp_same_inode; [|intros e; by apply wp_ret, Hfail]. intros same _.
  apply wp_if; intros _.
  - apply wp_bind, wp_call; [|intros e; by apply wp_ret, Hfail]. intros f [] Hun.
    assert (Hnm : ∀ a0, stage it = Some a0 → named a0 = false) by (intros; congruence).
    apply wp_bind, wp_modify, wp_ret. rewrite (alter_insert_item _ _ _ it) by done.
    rewrite set_stage_same by done. change (items c) with (items (set_fs f c)).
    rewrite set_items_same by done.
    assert (drawn f it).
    { eapply out_drawn; [by eapply (focus_apart HL Hst)|done..]. }
    eapply (focus_fs HL Hst); [done|done|exact Hf|eapply touches_unlink; [done|by apply own_destination]|].
    split; [by right|]. intros _. right; right; by left.
  - apply wp_bind, wp_entry_missing; [|intros e; by apply wp_ret, Hfail].
    rewrite (bool_decide_ext _ _ (closed_lookup _ _ (focus_closed Hf))).
    rewrite bool_decide_eq_false_2 by congruence. by apply wp_ret, Hfail.
Qed.

(** What the rollback of a record leaves: its source kept and, if nothing failed
    ([ok]), the item restored with its mode. *)
Definition rolled (ok : bool) (f : FS) (it : Item) : Prop :=
  kept f it ∧ (ok = true → restored f it ∧ mode_back f it).

Lemma chmod_back it Ψ c s :
  focus_k it Ψ c → snapshot it = Some s →
  mode_back (change (s_fd s) (set_mode (s_mode s)) (fs c)) it.
Proof.
  intros (Hk & _ & Ht) Hs s' Hs'. assert (s' = s) as -> by congruence.
  destruct (txn_source_fd HL Hst Ht _ _ _ Hk Hs) as (_ & x & _ & [_ Hx]%lookup_inode_Some & _).
  destruct (tx_modes Ht _ _ Hx) as (x' & Hx' & _). eexists. split; [apply change_inode; eauto|].
  by rewrite bool_decide_eq_true_2.
Qed.

Lemma rename_modes k1 k2 f f' it :
  sys_rename_noreplace k1 k2 f = Ok (f', tt) → mode_back f it → mode_back f' it.
Proof.
  intros (i & _ & _ & ->)%rename_Ok Hm s Hs. destruct (Hm _ Hs) as (x & Hx & Hmx).
  eexists. split; [apply change_inode; exists x; split; [exact Hx|reflexivity]|].
  by case_bool_decide.
Qed.

Lemma added_rolled it c b :
  focus_k it (λ f it, opened f it ∧ (b = true → halfway f it)) c → snapshot it = None →
  rolled b (fs c) it.
Proof.
  intros Hf Hs. destruct (focus_holds Hf) as [_ Hh]. split; [intros s; congruence|].
  intros Hb. split; [|intros s; congruence].
  assert (Hrec : recovery it = None).
  { destruct (recovery it) as [a|] eqn:Ha; [|done]. destruct Hf as (Hk & _ & Ht).
    destruct (tx_slot Ht _ _ _ Hk Ha) as ([s ?] & _). congruence. }
  assert (Hnone : at_home (fs c) it ∧ slot_idle (fs c) it) by (split; intros ? ?; congruence).
  destruct Hnone. destruct (Hh Hb) as [Hhm|[(_ & _ & Hu & Hc)|[(_ & _ & Hc & Hw)|(_ & Hst')]]].
  - by apply home_restored.
  - by apply home_restored.
  - split; [done|]. split; [done|]. left. split; [done|]. intros a Ha. by destruct (Hw _ Ha) as [-> ->].
  - split; [done|]. split; [done|]. by right.
Qed.

(** The second half when the source is in its slot. *)
Lemma wp_rollback_retired it b c s e a failed :
  focus_k it (λ f it, opened f it ∧ (b = true → halfway f it)) c →
  snapshot it = Some s → source it = Some e → recovery it = Some a → named a = true →
  let done_or (zs : list pystr) (c' : State) := ∃ it', focus_k it' (rolled (b && bool_decide (zs = []))) c' in
  wp (call fault (sys_fchmod (s_fd s) (s_mode s)) ≫= λ _,
      durable_rename_noreplace fault (akey a) (entry_key e) ≫= λ _,
      set_ref_named (RecoveryOf k) false ≫= λ _, mret [])
    done_or (λ _ c', wp (mret [failed]) done_or (λ _ _, False) c') c.
Proof.
  intros Hf Hs He Ha Hn done_or.
  assert (Hfail : ∀ c, focus_k it kept c → wp (mret [failed]) done_or (λ _ _, False) c).
  { intros c' Hf'. apply wp_ret. exists it. eapply focus_mono; [|exact Hf']. intros f Hk.
    rewrite bool_decide_eq_false_2, andb_false_r by done. by split. }
  assert (Hkept : focus_k it kept c).
  { eapply focus_mono; [|exact Hf]. intros f [Ho _]. by apply opened_kept. }
  apply wp_bind, wp_call; [|by auto]. intros f1' [] [= <-].
  set (f1' := change (s_fd s) (set_mode (s_mode s)) (fs c)) in *.
  assert (Hf1 : focus_k it (λ f it, (opened f it ∧ (b = true → halfway f it)) ∧ mode_back f it) (set_fs f1' c)).
  { eapply (focus_fs HL Hst); [done|done|exact Hf|by apply touches_chmod, source_fd_of_it|].
    split; [apply (focus_holds Hf)|]. by eapply chmod_back. }
  assert (Hkept1 : focus_k it kept (set_fs f1' c)).
  { eapply focus_mono; [|exact Hf1]. intros f [[Ho _] _]. by apply opened_kept. }
  assert (Hren : ∀ f, sys_rename_noreplace (akey a) (entry_key e) f1' = Ok (f, tt) →
    focus_k it (λ f it, kept f it ∧
      (b = true → restored f (set_recovery (Some (set_named false a)) it) ∧ mode_back f it)) (set_fs f c)).
  { intros f Hren. change (set_fs f c) with (set_fs f (set_fs f1' c)).
    eapply (focus_fs HL Hst); [done|done|exact Hf1|eapply touches_rename; [exact Hren|eauto with own..]|].
    pose proof (focus_holds Hf1) as [[Ho Hh] Hmb]. split.
    - destruct (rename_entries _ _ _ _ Hren) as (i & Hi & _ & _ & _ & Hto & _).
      destruct Hf as (Hk & _ & Ht). intros s' e' Hs' He'. simplify_eq. left. rewrite Hto, <- Hi.
      assert (Hr : retired f1' it ∨ slot_idle f1' it).
      { destruct Ho as [[(_ & ? & _)|[(? & _)|(? & _)]]|(? & _)]; auto. }
      destruct Hr as [Hr|Hr]; [|destruct (Hr _ Ha); congruence].
      destruct (Hr _ Hs) as (a' & Ha' & Hfd). congruence.
    - intros Hb. split; [|by eapply rename_modes].
      eapply retired_home; try done; [|by apply Hh]. by eapply (focus_apart HL Hst). }
  apply wp_bind, wp_durable_rename; [| |by auto|by auto].
  2:{ intros f err Hr. apply Hfail. eapply focus_mono; [|by apply Hren]. by intros f' [? _]. }
  intros f Hr. specialize (Hren _ Hr). change (set_fs f (set_fs f1' c)) with (set_fs f c).
  apply wp_bind, wp_modify, wp_ret. pose proof Hren as (Hk & _).
  rewrite (alter_insert_item _ _ _ it) by done. rewrite Ha.
  exists (set_recovery (Some (set_named false a)) it).
  eapply focus_name_slot; [exact Hren|done|]. destruct (focus_holds Hren) as [Hkp Hrs].
  split; [|by rewrite bool_decide_eq_true_2, andb_true_r].
  intros s' e' Hs' He'. destruct (Hkp s' e' Hs' He') as [?|(a' & Ha' & ?)]; [by left|right].
  assert (a' = a) as -> by congruence. by exists (set_named false a).
Qed.

Lemma wp_rollback_source it b c :
  is_Some (source it) →
  focus_k it (λ f it, opened f it ∧ (b = true → halfway f it)) c →
  wp (rollback_source fault k it)
    (λ zs c', ∃ it', focus_k it' (rolled (b && bool_decide (zs = []))) c') (λ _ _, False) c.
Proof.
  intros [e He] Hf. unfold rollback_source.
  destruct (snapshot it) as [s|] eqn:Hs.
  2:{ apply wp_ret. exists it. eapply focus_here; [exact Hf|]. rewrite andb_true_r. by apply added_rolled. }
  assert (Hfail : ∀ (z : pystr) zs, ∃ it', focus_k it' (rolled (b && bool_decide (z :: zs = []))) c).
  { intros z zs. exists it. eapply focus_mono; [|exact Hf]. intros f [Ho _].
    rewrite bool_decide_eq_false_2, andb_false_r by done. split; [|done].
    by apply opened_kept. }
  apply wp_catch. rewrite He. apply wp_bind, wp_ret.
  apply wp_bind, wp_same_inode; [|intros err; by apply wp_ret, Hfail]. intros same Hsame.
  apply wp_if; intros Hb.
  - subst same. destruct (Hsame eq_refl) as (x & [Hsrc _]%lookup_inode_Some & _).
    apply wp_bind, wp_call; [|intros err; by apply wp_ret, Hfail]. intros f [] [= <-].
    pose proof (opened_home _ _ _ _ _ Hf (proj1 (focus_holds Hf)) Hs He Hsrc) as Hh.
    apply wp_bind, wp_modify, wp_ret. pose proof Hf as (Hk & _).
    rewrite (alter_insert_item _ _ _ it), set_recovery_same
      by (done || intros a Ha; by destruct Hh as (_ & Hi & _); destruct (Hi _ Ha)).
    match goal with |- context [set_items _ ?c'] => set (c3 := c') in * end.
    change (items c) with (items c3). rewrite set_items_same by done. exists it.
    eapply (focus_fs HL Hst); [done|done|exact Hf|by apply touches_chmod, source_fd_of_it|].
    split; [apply at_home_kept, Hh|]. intros _.
    split; [by apply home_restored|by eapply chmod_back].
  - destruct (recovery it) as [a|] eqn:Ha; [|by apply wp_ret].
    apply wp_if; intros Hn; [by apply wp_ret|].
    apply wp_bind, wp_entry_missing; [|intros err; by apply wp_ret, Hfail].
    apply wp_if; intros _; [by apply wp_ret|].
    apply (wp_rollback_retired it b c s e a); try done. by destruct (named a).
Qed.

End rollback.

(** ** The loop over the records *)

Section rollback_all.
Context (fault : nat → Fault) {token : nat → pystr} {euid egid : Z}.
Context {root : nat} {f0 : FS} {ops : list Op} {f1 : FS} {its1 : list Item}.
Context (HL : layout token euid egid root f0 ops f1 its1).
Context {c2 : State} (Hst : staged token f0 f1 its1 (length its1) c2).

Notation its2 := (items c2).
Notation txn := (@txn token f0 c2).

Definition held (ok : bool) (f : FS) (it : Item) : Prop :=
  kept f it ∧ (ok = true → restored f it).

(** The records from [i] on are rolled back; [ok] if nothing failed. *)
Definition rolling (n i : nat) (ok : bool) (c : State) : Prop :=
  txn (λ j, if decide (j < i)%nat then midway else held ok) (λ j, ok = true → (j < i)%nat) n c.

Lemma held_local ok : local (held ok).
Proof.
  intros f f' it Ho Hin [Hk Hr]. split; [by eapply kept_local|]. intros Hok.
  eapply restored_local; [exact Ho|exact Hin|auto].
Qed.

Lemma txn_modes Φ L L' n c : txn Φ L n c → modes_but (f0 := f0) (c2 := c2) L' (fs c) → txn Φ L' n c.
Proof. intros [] Hm. by split. Qed.

(** A source whose mode is back need not be watched. *)
Lemma watch_less Φ L n c k it :
  txn Φ L n c → items c !! k = Some it → mode_back (fs c) it →
  modes_but (f0 := f0) (c2 := c2) (λ j, L j ∧ j ≠ k) (fs c).
Proof.
  intros Ht Hk Hm i x Hx. destruct (tx_modes Ht _ _ Hx) as (x' & Hx' & Hor). exists x'. split; [done|].
  destruct Hor as [?|(j & it2 & s & HLj & Hj2 & Hs & Hi)]; [by left|].
  destruct (decide (j = k)) as [->|Hne]; [left|right; by exists j, it2, s].
  destruct (txn_item Hst Ht _ _ Hk) as (it2' & Hk2 & Hsi & _). simplify_eq.
  rewrite <- (si_snapshot _ _ Hsi) in Hs.
  destruct (Hm _ Hs) as (y & Hy & Hym).
  destruct (txn_source_fd HL Hst Ht _ _ _ Hk Hs) as (_ & x0 & _ & [_ Hx0]%lookup_inode_Some & _ & Hx0m).
  congruence.
Qed.

Lemma wp_rollback_record n k ok c :
  rolling n (S k) ok c → (k < n)%nat → (n <= length its2)%nat →
  wp (rollback_record fault k) (λ zs, rolling n k (ok && bool_decide (zs = []))) (λ _ _, False) c.
Proof.
  intros Ht Hlt Hn.
  assert (Hlen : (k < length (items c))%nat).
  { rewrite <- (Forall2_length _ _ _ (tx_items Ht)). lia. }
  destruct (lookup_lt_is_Some_2 _ _ Hlen) as [it Hk].
  assert (Hsrc : is_Some (source it)).
  { destruct (txn_item Hst Ht _ _ Hk) as (it2 & _ & Hsi & Hb). rewrite (si_source _ _ Hsi).
    by destruct (lay_placed _ _ _ _ _ _ _ _ HL _ _ Hb). }
  pose proof (focus_in _ _ Ht Hk Hlt) as Hf. cbv beta in Hf. rewrite decide_True in Hf by lia.
  unfold rolling in Ht. set (Φ := λ j, if decide (j < S k)%nat then midway else held ok) in *.
  assert (Hloc : ∀ j, j ≠ k → local (Φ j)).
  { intros j _. subst Φ. simpl. destruct (decide _); [apply midway_local|apply held_local]. }
  assert (HLk : ok = true → (k < S k)%nat) by lia.
  apply wp_bind, (wp_get_item_some k it); [done|].
  apply wp_bind. eapply wp_mono; [by apply (wp_rollback_destination fault HL Hst (L := λ j, ok = true → (j < S k)%nat) (n := n) Hloc HLk)| |done].
  clear c Ht Hlen Hk Hf. intros zs1 c Hf. apply wp_bind.
  eapply wp_mono; [apply (wp_rollback_source fault HL Hst (L := λ j, ok = true → (j < S k)%nat) (n := n) Hloc HLk it
    (ok && bool_decide (zs1 = []))); [done|]| |done].
  { eapply focus_mono; [|exact Hf]. intros f [? Hh]. split; [done|]. intros Hb. bool_prop. auto. }
  clear c Hf. intros zs2 c (it' & Hf). apply wp_ret.
  replace (bool_decide (zs1 ++ zs2 = [])) with (bool_decide (zs1 = []) && bool_decide (zs2 = []))
    by (by destruct zs1, zs2).
  rewrite andb_assoc. set (ok' := ok && bool_decide (zs1 = []) && bool_decide (zs2 = [])) in *.
  assert (Hok : ok' = true → ok = true) by (intros H; subst ok'; bool_prop; done).
  pose proof Hf as (Hk & _ & Htx). destruct (focus_holds Hf) as [_ Hmb].
  assert (Ht : txn (λ j, if decide (j < k)%nat then midway else held ok')
                (λ j, ok' = true → (j < S k)%nat) n c).
  { eapply focus_out; [exact Hf| | |auto].
    - intros j f itj Hne _. subst Φ. simpl. destruct (decide (j < S k)%nat), (decide (j < k)%nat); try lia; [done|].
      intros [? ?]. split; auto.
    - intros f [Hkp Hr]. rewrite decide_False by lia. split; [done|]. intros H. by apply Hr. }
  eapply txn_modes; [exact Ht|]. destruct ok' eqn:Hok'.
  - destruct (Hmb eq_refl) as [_ Hback]. intros i x Hx.
    destruct (watch_less _ _ _ _ _ _ Ht Hk Hback i x Hx) as (x' & Hx' & Hor). exists x'. split; [done|].
    destruct Hor as [?|(j & it2 & s & [HLj Hne] & ?)]; [by left|right]. exists j, it2, s.
    split; [|done]. intros _. specialize (HLj eq_refl). lia.
  - intros i x Hx. destruct (tx_modes Ht _ _ Hx) as (x' & Hx' & Hor). exists x'. split; [done|].
    destruct Hor as [?|(j & it2 & s & _ & ?)]; [by left|right]. by exists j, it2, s.
Qed.

(** The rollback of a stopped commit. *)
Lemma wp_rollback_all c n :
  (n <= length its2)%nat → txn (λ _, midway) (λ j, (j < n)%nat) n c →
  wp (collect (rev (seq 0 n)) (rollback_record fault))
    (λ zs, rolling n 0 (bool_decide (zs = []))) (λ _ _, False) c.
Proof.
  intros Hn Ht.
  eapply wp_mono; [apply (wp_collect _ _ (λ xs ok c, ∃ i, (i <= n)%nat ∧ xs = rev (seq 0 i) ∧ rolling n i ok c)
                     _ c true)| |by intros e c' Hc'; exact Hc'].
  - exists n. split; [done|]. split; [done|]. eapply txn_mono; [| |exact Ht]; [|auto].
    intros j f it Hj. by rewrite decide_True.
  - intros x ys ok c' (i & Hi & Heq & Hr). destruct i as [|k]; [done|].
    rewrite seq_S, rev_app_distr in Heq. injection Heq as -> ->.
    eapply wp_mono; [apply wp_rollback_record; [exact Hr|lia|done]| |done].
    intros zs c'' Hr'. exists k. split; [lia|done].
  - intros zs c' (i & _ & Heq & Hr). destruct i as [|i]; [done|].
    rewrite seq_S, rev_app_distr in Heq. done.
Qed.

End rollback_all.
