(* ===== verification/PatchLanding.v ===== *)
(** * The apply_patch transaction: cleanup and result

    Cleanup of the artifacts.  After a rollback it takes the tree back to what it was
    ([aborted]); after a commit it removes the recovery slots; and when either fails
    the sources or the results stay.

    When every item is out, the promise of [PatchSpec] holds: paths lead where they
    led before the staging, the stages are the results, the sources of moves and
    deletions are gone, and no other entry has changed. *)

From S2P Require Import Prelude PyStr Patch PatchTheory PatchApply PatchParse PatchFs PatchTxn.
From S2P Require Import PatchLogic PatchPhases PatchSpec PatchItem PatchPlan PatchRollback.
Open Scope string_scope.
Open Scope list_scope.
Open Scope Z_scope.

#[local] Arguments akey : simpl never.
#[local] Notation E f := (entries f).

(** ** One artifact *)

#[export] Instance Ref_eq_dec : EqDecision Ref.
Proof. solve_decision. Defined.

Definition ref_item (r : Ref) : nat := match r with StageOf k | RecoveryOf k => k end.
Definition art (r : Ref) (it : Item) : option Artifact :=
  match r with StageOf _ => stage it | RecoveryOf _ => recovery it end.
Definition put (r : Ref) (a : Artifact) (it : Item) : Item :=
  match r with StageOf _ => set_stage (Some a) it | RecoveryOf _ => set_recovery (Some a) it end.

Lemma artifact_of_art r its : artifact_of r its = its !! ref_item r ≫= art r.
Proof. by destruct r. Qed.

Lemma elem_of_stage_refs c r :
  r ∈ stage_refs c ↔ ∃ k it, r = StageOf k ∧ items c !! k = Some it ∧ is_Some (stage it).
Proof.
  unfold stage_refs. rewrite list_elem_of_omap. split.
  - intros (k & _ & Hr). destruct (items c !! k) as [it|] eqn:Hk; [|done]. simpl in Hr.
    destruct (stage it) as [a|] eqn:Ha; [|done]. injection Hr as <-. eauto.
  - intros (k & it & -> & Hk & [a Ha]). exists k. split.
    + apply elem_of_seq. pose proof (lookup_lt_Some _ _ _ Hk). lia.
    + rewrite Hk. simpl. by rewrite Ha.
Qed.

Lemma elem_of_recovery_refs c r :
  r ∈ recovery_refs c ↔ ∃ k it, r = RecoveryOf k ∧ items c !! k = Some it ∧ is_Some (recovery it).
Proof.
  unfold recovery_refs. rewrite list_elem_of_omap. split.
  - intros (k & _ & Hr). destruct (items c !! k) as [it|] eqn:Hk; [|done]. simpl in Hr.
    destruct (recovery it) as [a|] eqn:Ha; [|done]. injection Hr as <-. eauto.
  - intros (k & it & -> & Hk & [a Ha]). exists k. split.
    + apply elem_of_seq. pose proof (lookup_lt_Some _ _ _ Hk). lia.
    + rewrite Hk. simpl. by rewrite Ha.
Qed.

Section calls.
Context (fault : nat → Fault).

Lemma wp_cleanup_one r it (Q : list pystr → State → Prop) R c :
  items c !! ref_item r = Some it →
  ((∀ a, art r it = Some a → named a = false) → Q [] c) →
  (∀ a, art r it = Some a → named a = true → Q [a_label a] c) →
  (∀ a f, art r it = Some a → named a = true → sys_unlink (akey a) (fs c) = Ok (f, tt) →
     Q [] (set_items (<[ref_item r := put r (set_named false a) it]> (items c)) (set_fs f c))) →
  wp (cleanup_one fault r) Q R c.
Proof.
  intros Hk Hskip Hfail Hdone. apply wp_bind, wp_gets. rewrite artifact_of_art, Hk. simpl.
  destruct (art r it) as [a|] eqn:Ha; [|by apply wp_ret, Hskip].
  apply wp_if; intros Hn.
  { apply wp_ret, Hskip. intros a' [= <-]. by destruct (named a). }
  assert (Hn' : named a = true) by by destruct (named a).
  apply wp_catch_os, wp_bind, wp_call; [|intros e; by apply wp_ret, Hfail].
  intros f [] Hun. specialize (Hdone _ _ eq_refl Hn' Hun).
  destruct r as [k|k]; simpl in *; apply wp_bind, wp_modify, wp_ret;
    rewrite (alter_insert_item _ _ _ it) by done; by rewrite Ha.
Qed.

(** The report touches nothing but modes. *)
Lemma wp_artifact_paths (I : State → Prop) (Q : list pystr → State → Prop) R c :
  (∀ c i m, I c → I (set_fs (change i (set_mode m) (fs c)) c)) → I c →
  (∀ zs c, I c → Q zs c) → (∀ e c, I c → R (OSErr e) c) →
  wp (artifact_paths fault) Q R c.
Proof.
  intros Hch HI HQ HR. apply wp_bind, wp_gets.
  eapply wp_mono; [apply (wp_collect _ _ (λ _ _ c, I c) (λ e c, R e c) _ true); [exact HI|]| |done].
  2:{ intros zs c' HI'. by apply HQ. }
  clear c HI. intros r rs ok c HI. apply wp_bind, wp_gets. destruct (artifact_of r (items c)) as [a|]; [|by apply wp_ret].
  apply wp_if; intros _; [by apply wp_ret|].
  apply wp_bind, wp_entry_missing; [|by auto]. apply wp_if; intros _; [by apply wp_ret|].
  apply wp_bind, wp_entry_info; [|by auto]. destruct (lookup_inode _ _) as [[i x]|]; [|by apply wp_ret].
  apply wp_if; intros _; [|by apply wp_ret].
  apply wp_bind, wp_call; [|by auto]. intros f [] Hc. unfold sys_chmod in Hc.
  destruct (entries (fs c) !! _) as [j|]; [|done]. injection Hc as <-. apply wp_ret. auto.
Qed.
End calls.

(** ** After the rollback *)

Section clean.
Context (fault : nat → Fault) {token : nat → pystr} {euid egid : Z}.
Context {root : nat} {f0 : FS} {ops : list Op} {f1 : FS} {its1 : list Item}.
Context (HL : layout token euid egid root f0 ops f1 its1).
Context {c2 : State} (Hst : staged token f0 f1 its1 (length its1) c2).

Notation f2 := (fs c2).
Notation its2 := (items c2).
Notation txn := (@txn token f0 c2).
Notation N := (length its2).

Context (Hval : ∀ j it, its2 !! j = Some it → clear f2 it).

Lemma f0_f2_entries : E f0 ⊆ E f2.
Proof. etrans; [apply (lay_grown _ _ _ _ _ _ _ _ HL)|apply (st_entries _ _ _ _ _ _ Hst)]. Qed.

Lemma f0_f2_inodes i x : inodes f0 !! i = Some x → inodes f2 !! i = Some x.
Proof.
  intros Hx. eapply lookup_weaken; [|apply (st_inodes _ _ _ _ _ _ Hst)]. by eapply f0_f1_inode.
Qed.

(** The items the commit did not reach are as staging left them. *)
Lemma txn_extend Φ L n c :
  (n <= N)%nat → txn Φ L n c → txn (λ j, if decide (j < n)%nat then Φ j else home) L N c.
Proof.
  intros Hn Ht. split; try apply Ht.
  - intros k Hk. apply (tx_rest Ht). lia.
  - intros j it Hj _. by eapply Hval.
  - intros key Hkey. apply (tx_frame Ht). intros j it Hj Hlt. apply (Hkey j it Hj). lia.
  - intros j it Hj Hlt. destruct (decide (j < n)%nat) as [Hjn|Hjn]; [by apply (tx_each Ht)|].
    assert (Hle : (n <= j)%nat) by lia.
    destruct (rest_base Hst _ _ _ _ _ _ Ht Hle Hj) as (Hj2 & _ & Hrec & Hnm).
    assert (Hent : ∀ key, key ∈ own it → E (fs c) !! key = E f2 !! key).
    { intros key Hkey. by eapply (rest_entries HL Hst). }
    split; [|split; [|split]].
    + intros s e Hs He. rewrite Hent by by apply own_source.
      destruct (txn_source_fd HL Hst Ht _ _ _ Hj Hs) as (e' & x & He' & [Hx _]%lookup_inode_Some & _).
      simplify_eq. eapply lookup_weaken; [exact Hx|apply f0_f2_entries].
    + intros a Ha. congruence.
    + intros a Ha. split; [auto|]. rewrite Hent by by apply own_stage.
      destruct (st_stage _ _ _ _ _ _ Hst _ _ _ Hj2 Ha) as (_ & fd & Hfd & []). congruence.
    + eapply clear_ext; [|by eapply Hval]. done.
Qed.

(** A step of item [k] among items that all stand as [Φ] says. *)
Lemma txn_focus Φ L n c k :
  txn Φ L n c → (k < n)%nat → (n <= N)%nat →
  ∃ it, items c !! k = Some it ∧ @focus token f0 c2 Φ L n k it (Φ k) c.
Proof.
  intros Ht Hk Hn. assert (Hlen : (k < length (items c))%nat).
  { rewrite <- (Forall2_length _ _ _ (tx_items Ht)). lia. }
  destruct (lookup_lt_is_Some_2 _ _ Hlen) as [it Hit]. exists it. split; [done|].
  by apply focus_in.
Qed.

Definition swept (it : Item) : Prop := ∀ a, stage it = Some a → named a = false.

(** While the stages are cleaned up every item stays restored; those that are no
    longer listed have lost their stage if nothing failed. *)
Definition cleaned (rs : list Ref) (ok : bool) (j : nat) (f : FS) (it : Item) : Prop :=
  restored f it ∧ (ok = true → StageOf j ∉ rs → swept it).

Lemma cleaned_local rs ok j : local (cleaned rs ok j).
Proof. intros f f' it Ho Hin [Hr Hs]. split; [by eapply restored_local|done]. Qed.

Lemma restored_unlink f f' it a :
  apart it → restored f it → stage it = Some a → named a = true →
  sys_unlink (akey a) f = Ok (f', tt) → restored f' (set_stage (Some (set_named false a)) it).
Proof.
  intros Hap (Hh & Hi & Hs) Ha Hn (i & Hk & Hen)%unlink_entries.
  assert (Hne : ∀ key, key ≠ akey a → E f' !! key = E f !! key).
  { intros key Hkey. rewrite Hen. by apply lookup_delete_ne. }
  destruct Hs as [[Hc Hs]|(a' & Ha' & _ & Hg)]; [|congruence].
  split; [|split; [|left; split]].
  - intros s e Hs' He. rewrite Hne; [by apply Hh|]. apply not_eq_sym, (ap_stage _ Hap _ _ Ha).
    by apply source_end.
  - intros r Hr. destruct (Hi _ Hr) as [? ?]. split; [done|].
    rewrite Hne; [done|]. by apply not_eq_sym, (ap_both _ Hap).
  - destruct Hc as [Hc1 Hc2]. split.
    + intros Hs' e He. rewrite Hne; [by apply Hc1|]. apply not_eq_sym, (ap_stage _ Hap _ _ Ha).
      by apply source_end.
    + intros Hm d Hd. rewrite Hne; [by apply Hc2|]. apply not_eq_sym, (ap_stage _ Hap _ _ Ha).
      by apply destination_end.
  - intros b [= <-]. simpl. rewrite Hen. apply lookup_delete_eq.
Qed.

Lemma unlink_modes L k f f' :
  sys_unlink k f = Ok (f', tt) → modes_but (f0 := f0) (c2 := c2) L f → modes_but (f0 := f0) (c2 := c2) L f'.
Proof. intros (i & x & _ & _ & ->)%unlink_Ok. apply modes_but_entries. Qed.

Lemma wp_clean_stages c :
  txn (λ _, restored) (λ _, False) N c →
  wp (cleanup_named fault (stage_refs c))
    (λ zs, txn (λ j f it, restored f it ∧ (zs = [] → swept it)) (λ _, False) N) (λ _ _, False) c.
Proof.
  intros Ht. set (refs := stage_refs c).
  assert (Hrefs : ∀ r, r ∈ refs → ∃ k, r = StageOf k ∧ (k < N)%nat).
  { intros r (k & it & -> & Hk & _)%elem_of_stage_refs. exists k. split; [done|].
    rewrite (Forall2_length _ _ _ (tx_items Ht)). by eapply lookup_lt_Some. }
  eapply wp_mono; [apply (wp_collect _ _ (λ rs ok c, (∀ r, r ∈ rs → r ∈ refs) ∧ txn (cleaned rs ok) (λ _, False) N c)
                     _ c true)| |by intros e c' Hc'; exact Hc'].
  - split; [done|]. pose proof (elem_of_stage_refs c) as Href. fold refs in Href.
    assert (Hnone : ∀ j it, items c !! j = Some it → StageOf j ∉ refs → swept it).
    { intros j it Hj Hn a Ha. destruct Hn. apply Href. exists j, it. eauto. }
    split; try apply Ht. intros j it Hj Hlt. split; [by apply (tx_each Ht _ _ Hj Hlt)|]. eauto.
  - intros r rs ok c' [Hsub Htc]. destruct (Hrefs r) as (k & -> & Hk); [apply Hsub; left|].
    destruct (txn_focus _ _ _ _ _ Htc Hk (le_n _)) as (it & Hit & Hf).
    pose proof (focus_holds Hf) as [Hres Hsw].
    assert (Hsub' : ∀ r, r ∈ rs → r ∈ refs) by (intros r Hr; apply Hsub; by right).
    assert (Hother : ∀ ok' j f itj, j ≠ k → (ok' = true → ok = true) → cleaned (StageOf k :: rs) ok j f itj →
              cleaned rs ok' j f itj).
    { intros ok' j f itj Hne Hok [? Hs]. split; [done|]. intros Ho Hn. apply Hs; [auto|].
      intros [Heq|Hin]%elem_of_cons; [congruence|done]. }
    apply (wp_cleanup_one fault (StageOf k) it); [done| | |].
    + intros Hn. split; [done|]. rewrite andb_true_r.
      eapply focus_out; [apply (focus_here _ _ (λ f it, restored f it ∧ swept it) _ Hf); split; [done|exact Hn]|..]; [|by intros f []|done].
      intros j f itj Hne _. by apply Hother.
    + intros a Ha Hn. split; [done|]. rewrite andb_false_r.
      eapply focus_out; [exact Hf|..]; [|by intros f []|done]. intros j f itj Hne _. by apply Hother.
    + intros a f Ha Hn Hun. split; [done|]. rewrite andb_true_r.
      assert (Hf' : @focus token f0 c2 (cleaned (StageOf k :: rs) ok) (λ _, False) N k it
                (λ f it, restored f (set_stage (Some (set_named false a)) it)) (set_fs f c')).
      { eapply (focus_fs_modes HL Hst); [intros; apply cleaned_local|exact Hf| | |].
        - eapply touches_unlink; [exact Hun|]. by apply own_stage.
        - eapply unlink_modes; [exact Hun|]. destruct Hf as (_ & _ & Hft). apply (tx_modes Hft).
        - eapply restored_unlink; [by apply (focus_apart HL Hst Hf)|done..]. }
      eapply focus_out; [eapply (focus_name_stage _ a false _ (λ f it, restored f it ∧ swept it) _ Hf' Ha)|..].
      * split; [apply (focus_holds Hf')|]. by intros a' [= <-].
      * intros j f' itj Hne _. by apply Hother.
      * intros f' [? ?]. by split.
      * done.
  - intros zs c' [_ Hc']. eapply txn_mono; [| |exact Hc']; [|done]. intros j f it _ [? Hs]. split; [done|].
    intros ->. apply Hs; [done|]. apply not_elem_of_nil.
Qed.

(** ** What the tree has come to *)

(** An entry an item owns and that was there before the staging is its source. *)
Lemma owned_old Φ L c j it key i :
  txn Φ L N c → items c !! j = Some it → key ∈ own it → E f1 !! key = Some i →
  ∃ s e x, snapshot it = Some s ∧ source it = Some e ∧ key = entry_key e ∧ i = s_fd s ∧
    lookup_inode f0 key = Some (i, x) ∧ content x = Reg (s_data s).
Proof.
  intros Ht Hj Hkey H1. destruct (txn_item Hst Ht _ _ Hj) as (it2 & Hj2 & Hsi & Hb).
  assert (H2 : E f2 !! key = Some i) by (eapply lookup_weaken; [exact H1|apply (st_entries _ _ _ _ _ _ Hst)]).
  destruct (Hval _ _ Hj2) as [Hc1 Hc2].
  assert (Hsrc : ∀ e, source it = Some e → key = entry_key e →
    ∃ s e x, snapshot it = Some s ∧ source it = Some e ∧ key = entry_key e ∧ i = s_fd s ∧
      lookup_inode f0 key = Some (i, x) ∧ content x = Reg (s_data s)).
  { intros e He ->. destruct (snapshot it) as [s|] eqn:Hs.
    - destruct (txn_source_fd HL Hst Ht _ _ _ Hj Hs) as (e' & x & He' & Hx & Hc & _).
      assert (e' = e) as -> by congruence. pose proof Hx as [Hk _]%lookup_inode_Some.
      assert (Hi : i = s_fd s).
      { pose proof (lookup_weaken _ _ _ _ Hk f0_f2_entries). congruence. }
      subst i. by exists s, e, x.
    - rewrite (si_snapshot _ _ Hsi) in Hs. rewrite (si_source _ _ Hsi) in He.
      specialize (Hc1 Hs _ He). congruence. }
  apply elem_of_own in Hkey as [Hkey|[(a & Ha & ->)|(a & Ha & ->)]].
  - apply elem_of_ends in Hkey as [(e & He & ->)|(d & Hd & ->)]; [by eapply Hsrc|].
    destruct (lay_placed _ _ _ _ _ _ _ _ HL _ _ Hb) as [[e He] _]. simpl in He.
    rewrite <- (si_source _ _ Hsi) in He.
    destruct (ap_move _ (txn_apart HL Hst _ _ _ _ _ _ Ht Hj) _ _ He Hd) as [[Hm _]|[_ ->]].
    + unfold moves in *. rewrite (si_op _ _ Hsi) in Hm. rewrite (si_destination _ _ Hsi) in Hd.
      specialize (Hc2 Hm _ Hd). congruence.
    + by eapply Hsrc.
  - destruct (txn_stage Hst Ht _ _ _ Hj Ha) as (_ & a2 & fd & _ & _ & Hka & _ & _ & [_ _ Hn _ _]).
    rewrite <- Hka in Hn. congruence.
  - destruct (tx_slot Ht _ _ _ Hj Ha) as (_ & Hn & _). congruence.
Qed.

Lemma owned_original Φ L c j it key i :
  txn Φ L N c → items c !! j = Some it → key ∈ own it → E f0 !! key = Some i →
  ∃ s e, snapshot it = Some s ∧ source it = Some e ∧ key = entry_key e ∧ i = s_fd s.
Proof.
  intros Ht Hj Hkey H0. assert (H1 : E f1 !! key = Some i).
  { eapply lookup_weaken; [exact H0|apply (lay_grown _ _ _ _ _ _ _ _ HL)]. }
  destruct (owned_old _ _ _ _ _ _ _ Ht Hj Hkey H1) as (s & e & _ & ? & ? & ? & ? & _). by exists s, e.
Qed.

Lemma unowned_or Φ L c key : txn Φ L N c →
  (∃ j it, items c !! j = Some it ∧ (j < N)%nat ∧ key ∈ own it) ∨ E (fs c) !! key = E f2 !! key.
Proof.
  intros Ht. destruct (decide (Exists (λ it, key ∈ own it) (items c))) as [Hex|Hno].
  - left. apply Exists_exists in Hex as (it & [j Hj]%list_elem_of_lookup & Hkey). exists j, it.
    split; [done|]. split; [|done]. rewrite (Forall2_length _ _ _ (tx_items Ht)). by eapply lookup_lt_Some.
  - right. apply (tx_frame Ht). intros j it Hj _ Hkey. apply Hno, Exists_exists. exists it.
    split; [by eapply list_elem_of_lookup_2|done].
Qed.

Lemma txn_data Φ L n c : txn Φ L n c → data_kept f0 (fs c).
Proof. intros Ht i x Hx. by apply (tx_data Ht), f0_f2_inodes. Qed.

Lemma kept_preserved L c : txn (λ _, kept) L N c → preserved f0 (fs c).
Proof.
  intros Ht. split; [|by eapply txn_data]. intros key i H0.
  destruct (unowned_or _ _ _ key Ht) as [(j & it & Hj & Hlt & Hkey)|Heq].
  - destruct (owned_original _ _ _ _ _ _ _ Ht Hj Hkey H0) as (s & e & Hs & He & -> & ->).
    destruct (tx_each Ht _ _ Hj Hlt s e Hs He) as [?|(a & Ha & ?)]; [by exists (entry_key e)|].
    exists (akey a). split; [|done]. destruct (tx_slot Ht _ _ _ Hj Ha) as (_ & _ & Hbes & _). by apply Hbes.
  - exists key. split; [done|]. rewrite Heq. eapply lookup_weaken; [exact H0|apply f0_f2_entries].
Qed.

Lemma restored_kept f it : restored f it → kept f it.
Proof. intros [Hh _]. by apply at_home_kept. Qed.

(** The created directories are as before the staging. *)
Lemma txn_created Φ L n c cr : txn Φ L n c → cr ∈ created c → E f0 !! c_at cr = None.
Proof. intros Ht. rewrite (tx_created _ _ _ _ Ht). intros Hcr. by apply (st_created _ _ _ _ _ _ Hst). Qed.

(** The rollback went through and so did its cleanup: nothing has happened. *)
Lemma restored_aborted c e :
  txn (λ _ f it, restored f it ∧ swept it) (λ _, False) N c → aborted f0 e c.
Proof.
  intros Ht. assert (Hlen : ∀ j it, items c !! j = Some it → (j < N)%nat).
  { intros j it Hj. rewrite (Forall2_length _ _ _ (tx_items Ht)). by eapply lookup_lt_Some. }
  assert (Hat : ∀ j it, items c !! j = Some it → restored (fs c) it ∧ swept it).
  { intros j it Hj. exact (tx_each Ht _ _ Hj (Hlen _ _ Hj)). }
  split; [|right]; split.
  - apply map_subseteq_spec. intros key i H0.
    destruct (unowned_or _ _ _ key Ht) as [(j & it & Hj & _ & Hkey)|Heq].
    + destruct (owned_original _ _ _ _ _ _ _ Ht Hj Hkey H0) as (s & e0 & Hs & He & -> & ->).
      destruct (Hat _ _ Hj) as [[Hh _] _]. by apply Hh.
    + rewrite Heq. eapply lookup_weaken; [exact H0|apply f0_f2_entries].
  - by eapply txn_data.
  - intros key (j & it & a & Hj & Ha & Hn & _). destruct (Hat _ _ Hj) as [_ Hsw].
    specialize (Hsw _ Ha). congruence.
  - intros j it a Hj Ha. destruct (Hat _ _ Hj) as [(_ & Hi & _) _]. by destruct (Hi _ Ha).
  - intros cr. by apply (txn_created _ _ _ _ _ Ht).
  - apply (tx_flags _ _ _ _ Ht).
  - intros key i Hk H0. left.
    destruct (unowned_or _ _ _ key Ht) as [(j & it & Hj & _ & Hkey)|Heq].
    + exfalso. destruct (Hat _ _ Hj) as [(Hh & Hi & Hs) Hsw].
      destruct Hs as [[[Hc1 Hc2] Hs]|(a & Ha & Hn & _)]; [|specialize (Hsw _ Ha); congruence].
      assert (Hsrc : ∀ e, source it = Some e → key = entry_key e → False).
      { intros e0 He ->. destruct (snapshot it) as [s|] eqn:Hsn.
        - destruct (txn_source_fd HL Hst Ht _ _ _ Hj Hsn) as (e' & x & He' & [Hx _]%lookup_inode_Some & _).
          congruence.
        - specialize (Hc1 eq_refl _ He). congruence. }
      apply elem_of_own in Hkey as [Hkey|[(a & Ha & ->)|(a & Ha & ->)]].
      * apply elem_of_ends in Hkey as [(e0 & He & ->)|(d & Hd & ->)]; [by eapply Hsrc|].
        destruct (txn_item Hst Ht _ _ Hj) as (it2 & _ & Hsi & Hb).
        destruct (lay_placed _ _ _ _ _ _ _ _ HL _ _ Hb) as [[e0 He] _]. simpl in He.
        rewrite <- (si_source _ _ Hsi) in He.
        destruct (ap_move _ (txn_apart HL Hst _ _ _ _ _ _ Ht Hj) _ _ He Hd) as [[Hm _]|[_ ->]].
        -- specialize (Hc2 Hm _ Hd). congruence.
        -- by eapply Hsrc.
      * specialize (Hs _ Ha). rewrite (Hsw _ Ha) in Hs. congruence.
      * destruct (Hi _ Ha). congruence.
    + rewrite Heq in Hk. destruct (E f1 !! key) as [i1|] eqn:H1.
      * pose proof (lookup_weaken _ _ _ _ H1 (st_entries _ _ _ _ _ _ Hst)). assert (i1 = i) as -> by congruence.
        destruct (grown_new _ _ _ (lay_grown _ _ _ _ _ _ _ _ HL) _ _ H1 H0) as [(x & Hx & Hd) _].
        assert (Hx2 : inodes f2 !! i = Some x) by (eapply lookup_weaken; [exact Hx|apply (st_inodes _ _ _ _ _ _ Hst)]).
        destruct (tx_data Ht _ _ Hx2) as (x' & Hx' & Hc & _). exists x'. split; [done|].
        unfold is_dir in *. by rewrite Hc.
      * exfalso. destruct (st_new _ _ _ _ _ _ Hst _ _ Hk H1) as (j & it2 & a2 & Hj2 & Ha2 & _ & Hka).
        destruct (Forall2_lookup_l _ _ _ _ _ (tx_items Ht) Hj2) as (it & Hj & r & b & Hit).
        destruct (Hat _ _ Hj) as [(_ & _ & Hs) Hsw].
        assert (Ha : stage it = Some (set_named b a2)) by (subst it; simpl; by rewrite Ha2).
        destruct Hs as [[_ Hs]|(a & Ha' & Hn & _)]; [|specialize (Hsw _ Ha'); congruence].
        specialize (Hs _ Ha). rewrite (Hsw _ Ha) in Hs. change (akey (set_named b a2)) with (akey a2) in Hs.
        rewrite Hka, Heq in Hs. congruence.
  - intros i x Hx. destruct (tx_modes Ht _ _ Hx) as (x' & Hx' & [?|(? & ? & ? & [] & _)]). eauto.
Qed.

(** ** Giving up *)


Lemma wp_preserve_and_report {A} (P : State → Prop) original failures (Q : A → State → Prop) c :
  (∀ c i m, P c → P (set_fs (change i (set_mode m) (fs c)) c)) →
  (∀ c p, P c → P (set_flags p (keep c) c)) → P c →
  wp (preserve_and_report fault original failures) Q
    (λ e c', rough e = true ∧ preserve c' = true ∧ P c') c.
Proof.
  intros Hch Hfl HP. apply wp_bind, wp_modify, wp_bind.
  apply (wp_artifact_paths fault (λ c', preserve c' = true ∧ P c')).
  - intros c' i m [Hp Hc']. split; [done|]. by apply Hch.
  - split; [done|]. by apply Hfl.
  - intros zs c' Hc'. by apply wp_raise.
  - intros e c' Hc'. done.
Qed.

(** How a failed commit ends. *)
Definition failed (e : Raised) (c : State) : Prop :=
  aborted f0 e c ∨ rough e = true ∧ preserve c = true ∧ preserved f0 (fs c).

Lemma wp_report_failed {A} original failures c :
  preserved f0 (fs c) →
  wp (A := A) (preserve_and_report fault original failures) (λ _ _, False) failed c.
Proof.
  intros HP.
  eapply wp_mono; [apply (wp_preserve_and_report (λ c, preserved f0 (fs c)) _ _ (λ _ _, False));
    [by intros; apply preserved_chmod|done..]|done|by right].
Qed.

Lemma wp_commit_failed original c :
  stopped (token := token) (f0 := f0) (c2 := c2) c →
  wp (commit_failed fault original) (λ _ _, False) failed c.
Proof.
  intros (n & Hn & Hco & Ht). apply wp_bind, wp_gets. rewrite Hco. apply wp_bind.
  eapply wp_mono; [by eapply (wp_rollback_all fault HL Hst)| |done].
  clear c Hco Ht. intros zs c Hr. apply wp_if; intros Hz.
  - apply wp_report_failed. eapply kept_preserved, txn_mono; [| |eapply txn_extend; [exact Hn|exact Hr]]; [|done].
    intros j f it _. simpl. destruct (decide (j < n)%nat); [by intros [? _]|].
    intros Hh. by apply at_home_kept, Hh.
  - bool_prop. subst zs. rewrite bool_decide_eq_true_2 in Hr by done.
    assert (Ht : txn (λ _, restored) (λ _, False) N c).
    { eapply txn_mono; [| |eapply txn_extend; [exact Hn|exact Hr]].
      - intros j f it _. simpl. destruct (decide (j < n)%nat); [intros [_ H]; by apply H|apply home_restored].
      - intros j H. specialize (H eq_refl). lia. }
    apply wp_bind, wp_gets, wp_bind.
    eapply wp_mono; [by apply wp_clean_stages| |done].
    clear c Hr Ht. intros zs c Ht. apply wp_if; intros Hz.
    + apply wp_report_failed. eapply kept_preserved, txn_mono; [| |exact Ht]; [|done].
      intros j f it _ [? _]. by apply restored_kept.
    + bool_prop. apply wp_raise. left. apply restored_aborted.
      eapply txn_mono; [| |exact Ht]; [|done]. intros j f it _ [? Hs]. split; [done|by apply Hs].
Qed.

(** ** After the last commit *)

Definition complete (f : FS) (it : Item) : Prop :=
  (∀ a, stage it = Some a → named a = false) ∧
  match stage it with
  | None => source_gone f it
  | Some _ => published f it ∧ (moves it → source_gone f it)
  end.

Definition stage_mode (f : FS) (it : Item) : Prop :=
  ∀ a fd, stage it = Some a → a_fd a = Some fd → ∃ x, inodes f !! fd = Some x ∧ mode x = it_mode it.

Definition slot_known (f : FS) (it : Item) : Prop :=
  ∀ a, recovery it = Some a → named a = false → E f !! akey a = None.

Definition slotless (it : Item) : Prop := ∀ a, recovery it = Some a → named a = false.

Definition landed (f : FS) (it : Item) : Prop := complete f it ∧ stage_mode f it ∧ slot_known f it.

Lemma done_landed f it : done f it → landed f it.
Proof.
  intros (Hr & Hs & H). split; [|split].
  - split; [done|]. destruct (stage it); [by destruct H as [(_ & ? & ?) _]|by destruct H as (_ & ? & _)].
  - intros a fd Ha Hfd. rewrite Ha in H. destruct H as [_ H]. by apply H.
  - intros a Ha Hn. destruct (Hr _ Ha). congruence.
Qed.

Lemma landed_local : local landed.
Proof.
  intros f f' it Ho Hin ((Hs & Hc) & Hm & Hk). split; [split; [done|]|split].
  - destruct (stage it); [destruct Hc; split|]; eauto using published_ext, source_gone_ext.
  - intros a fd Ha Hfd. destruct (Hm _ _ Ha Hfd) as (x & Hx & Hmx).
    destruct (Hin _ _ _ Ha Hfd Hx) as (x' & Hx' & ?). exists x'. split; [done|congruence].
  - intros a Ha Hn. rewrite Ho by by apply own_recovery. auto.
Qed.

Lemma landed_unlink f f' it a :
  apart it → landed f it → recovery it = Some a → sys_unlink (akey a) f = Ok (f', tt) →
  landed f' (set_recovery (Some (set_named false a)) it).
Proof.
  intros Hap ((Hs & Hc) & Hm & Hk) Ha Hun. pose proof (unlink_entries _ _ _ Hun) as (i & _ & Hen).
  assert (Hne : ∀ key, key ≠ akey a → E f' !! key = E f !! key).
  { intros key Hkey. rewrite Hen. by apply lookup_delete_ne. }
  assert (Hends : ∀ key, key ∈ ends it → key ≠ akey a).
  { intros key Hkey. by apply not_eq_sym, (ap_slot _ Hap _ _ Ha). }
  assert (Hgone : source_gone f it → source_gone f' it).
  { intros Hg s e Hsn He. rewrite Hne; [by eapply Hg|]. by apply Hends, source_end. }
  split; [split; [done|]|split].
  - simpl. destruct (stage it) as [b|] eqn:Hb; [|by apply Hgone].
    destruct Hc as [(b' & d & Hb' & Hd & H1 & H2) Hmv]. split; [|auto]. exists b', d.
    split; [simpl; congruence|]. split; [done|]. rewrite !Hne; [done|by apply Hends, destination_end|].
    apply (ap_both _ Hap); [congruence|done].
  - intros b fd Hb Hfd. destruct (Hm _ _ Hb Hfd) as (x & Hx & Hmx).
    apply unlink_Ok in Hun as (j & y & _ & _ & ->).
    eexists. split; [apply change_inode; exists x; split; [exact Hx|reflexivity]|]. by case_bool_decide.
  - intros b [= <-] _. change (akey (set_named false a)) with (akey a). rewrite Hen. apply lookup_delete_eq.
Qed.

(** The slots go; the stages have no name left. *)
Definition sweeping (rs : list Ref) (ok : bool) (j : nat) (f : FS) (it : Item) : Prop :=
  landed f it ∧ (ok = true → RecoveryOf j ∉ rs → slotless it).

Lemma sweeping_local rs ok j : local (sweeping rs ok j).
Proof. intros f f' it Ho Hin [Hl Hs]. split; [by eapply landed_local|done]. Qed.

Definition below (j : nat) : Prop := (j < N)%nat.

Lemma wp_clean_commit c :
  txn (λ _, done) below N c →
  wp (cleanup_named fault (recovery_refs c ++ stage_refs c))
    (λ zs, txn (λ j f it, landed f it ∧ (zs = [] → slotless it)) below N) (λ _ _, False) c.
Proof.
  intros Ht. set (refs := recovery_refs c ++ stage_refs c).
  assert (Hrefs : ∀ r, r ∈ refs → (ref_item r < N)%nat).
  { intros r Hr. rewrite (Forall2_length _ _ _ (tx_items Ht)).
    apply elem_of_app in Hr as [(k & it & -> & Hk & _)%elem_of_recovery_refs|(k & it & -> & Hk & _)%elem_of_stage_refs];
      by eapply lookup_lt_Some. }
  eapply wp_mono; [apply (wp_collect _ _ (λ rs ok c, (∀ r, r ∈ rs → r ∈ refs) ∧ txn (sweeping rs ok) below N c)
                     _ c true)| |by intros e c' Hc'; exact Hc'].
  - split; [done|]. pose proof (elem_of_recovery_refs c) as Href.
    split; try apply Ht. intros j it Hj Hlt. split; [by apply done_landed, (tx_each Ht _ _ Hj Hlt)|].
    intros _ Hn a Ha. destruct Hn. apply elem_of_app. left. apply Href. exists j, it. eauto.
  - intros r rs ok c' [Hsub Htc]. assert (Hk : (ref_item r < N)%nat) by (apply Hrefs, Hsub; left).
    destruct (txn_focus _ _ _ _ _ Htc Hk (le_n _)) as (it & Hit & Hf).
    pose proof (focus_holds Hf) as [Hl Hsl].
    assert (Hsub' : ∀ r, r ∈ rs → r ∈ refs) by (intros r' Hr'; apply Hsub; by right).
    assert (Hother : ∀ ok' j f itj, (RecoveryOf j ≠ r ∨ slotless itj) → (ok' = true → ok = true) →
              sweeping (r :: rs) ok j f itj → sweeping rs ok' j f itj).
    { intros ok' j f itj Hne Hok [? Hs]. split; [done|]. intros Ho Hn.
      destruct Hne as [Hne|?]; [|done]. apply Hs; [auto|]. by intros [?|?]%elem_of_cons. }
    assert (Hothers : ∀ ok' j f itj, j ≠ ref_item r → (ok' = true → ok = true) →
              sweeping (r :: rs) ok j f itj → sweeping rs ok' j f itj).
    { intros ok' j f itj Hne. apply Hother. left. intros <-. done. }
    apply (wp_cleanup_one fault r it); [done| | |].
    + intros Hn. split; [done|]. rewrite andb_true_r.
      eapply focus_out; [apply (focus_here _ _ (λ f it, sweeping rs ok (ref_item r) f it) _ Hf)|..]; [| |done|done].
      * apply Hother; [|done|by split]. destruct r as [k|k]; [by left|right; exact Hn].
      * intros j f itj Hne _. by apply Hothers.
    + intros a Ha Hn. split; [done|]. rewrite andb_false_r.
      eapply focus_out; [exact Hf|..]; [|by intros f []|done]. intros j f itj Hne _. by apply Hothers.
    + intros a f Ha Hn Hun. split; [done|]. rewrite andb_true_r.
      destruct r as [k|k]; [destruct Hl as ((Hs & _) & _); specialize (Hs _ Ha); congruence|].
      simpl in *.
      assert (Hf' : @focus token f0 c2 (sweeping (RecoveryOf k :: rs) ok) below N k it
                (λ f it, landed f (set_recovery (Some (set_named false a)) it)) (set_fs f c')).
      { eapply (focus_fs HL Hst); [intros; apply sweeping_local|exact Hk|exact Hf| |].
        - eapply touches_unlink; [exact Hun|]. by apply own_recovery.
        - eapply landed_unlink; [by apply (focus_apart HL Hst Hf)|done..]. }
      eapply focus_out; [eapply (focus_name_slot _ a false _ (λ f it, landed f it ∧ slotless it) _ Hf' Ha)|..].
      * split; [apply (focus_holds Hf')|]. by intros a' [= <-].
      * intros j f' itj Hne _. by apply Hothers.
      * intros f' [? ?]. by split.
      * done.
  - intros zs c' [_ Hc']. eapply txn_mono; [| |exact Hc']; [|done]. intros j f it _ [? Hs]. split; [done|].
    intros ->. apply Hs; [done|]. apply not_elem_of_nil.
Qed.

End clean.

(** * The apply_patch transaction: what the committed items amount to *)

(** [f'] has the directories of [f], where they were. *)
Definition dirs_kept (f f' : FS) : Prop :=
  ∀ k i x, lookup_inode f k = Some (i, x) → is_dir x = true →
    ∃ x', lookup_inode f' k = Some (i, x') ∧ is_dir x' = true.

Lemma walk_dirs f f' d p e : dirs_kept f f' → walk f d p = Some e → walk f' d p = Some e.
Proof.
  intros Hk. revert d. induction p as [|n p IH]; intros d; simpl; [done|].
  destruct (lookup_inode f (d, n)) as [[j x]|] eqn:Hx; [|done].
  destruct (is_dir x) eqn:Hd; [|done]. destruct (Hk _ _ _ Hx Hd) as (x' & -> & ->). apply IH.
Qed.

Lemma key_at_dirs root f f' p k : dirs_kept f f' → key_at root f p = Some k → key_at root f' p = Some k.
Proof.
  unfold key_at. intros Hd. destruct (walk f root _) as [e|] eqn:Hw; [|done].
  by rewrite (walk_dirs _ _ _ _ _ Hd Hw).
Qed.

Section landing.
Context {token : nat → pystr} {euid egid : Z}.
Context {root : nat} {f0 : FS} {ops : list Op} {f1 : FS} {its1 : list Item}.
Context (HL : layout token euid egid root f0 ops f1 its1).
Context {c2 : State} (Hst : staged token f0 f1 its1 (length its1) c2).

Notation f2 := (fs c2).
Notation its2 := (items c2).
Notation txn := (@txn token f0 c2).
Notation N := (length its2).

Context (Hval : ∀ j it, its2 !! j = Some it → clear f2 it).

Lemma txn_dirs Φ L c : txn Φ L N c → dirs_kept f1 (fs c).
Proof.
  intros Ht k i x [Hk Hx]%lookup_inode_Some Hd.
  assert (Hx2 : inodes f2 !! i = Some x).
  { eapply lookup_weaken; [exact Hx|apply (st_inodes _ _ _ _ _ _ Hst)]. }
  destruct (tx_data Ht _ _ Hx2) as (x' & Hx' & Hc & _).
  exists x'. unfold is_dir in *. rewrite Hc. split; [|done]. apply lookup_inode_Some. split; [|done].
  destruct (unowned_or _ _ _ k Ht) as [(j & it & Hj & _ & Hkey)|Heq].
  - destruct (owned_old HL Hst Hval _ _ _ _ _ _ _ Ht Hj Hkey Hk)
      as (s & e & y & _ & _ & _ & _ & [_ Hy]%lookup_inode_Some & Hreg).
    pose proof (f0_f1_inode _ _ _ _ _ _ _ _ HL _ _ Hy). bool_prop. congruence.
  - rewrite Heq. eapply lookup_weaken; [exact Hk|apply (st_entries _ _ _ _ _ _ Hst)].
Qed.

Lemma item_op j it : its2 !! j = Some it →
  ∃ op, ops !! j = Some op ∧ prepared euid egid root f0 f1 op (base it) ∧ placed (base it).
Proof.
  intros Hj. pose proof (base_its2 Hst _ _ Hj) as Hb.
  destruct (layout_op _ _ _ _ _ _ _ _ HL _ _ Hb) as (op & ? & ?). exists op.
  split; [done|]. split; [done|]. by eapply (lay_placed _ _ _ _ _ _ _ _ HL).
Qed.

Section landed.
Context {L : nat → Prop} {c : State} (Ht : txn (λ _, landed) L N c).

Lemma op_item j op : ops !! j = Some op →
  ∃ it2 it, its2 !! j = Some it2 ∧ items c !! j = Some it ∧ same_item it2 it ∧
    prepared euid egid root f0 f1 op (base it2) ∧ placed (base it2) ∧ landed (fs c) it.
Proof.
  intros Hop. assert (Hlt : (j < N)%nat).
  { rewrite (length_its2 Hst). rewrite <- (Forall2_length _ _ _ (lay_prepared _ _ _ _ _ _ _ _ HL)).
    by eapply lookup_lt_Some. }
  destruct (txn_focus _ _ _ _ _ Ht Hlt (le_n _)) as (it & Hj & Hf).
  destruct (txn_item Hst Ht _ _ Hj) as (it2 & Hj2 & Hsi & _). exists it2, it.
  destruct (item_op _ _ Hj2) as (op' & Hop' & Hpr & Hpl). assert (op' = op) as -> by congruence.
  split_and!; try done. apply (focus_holds Hf).
Qed.

Lemma path_f1 p key : key_at root f1 p = Some key → key_at root (fs c) p = Some key.
Proof. apply key_at_dirs. by eapply txn_dirs. Qed.

Lemma path_gone p key : key_at root f1 p = Some key → E (fs c) !! key = None → inode_at root (fs c) p = None.
Proof.
  intros Hk Hn. unfold inode_at. rewrite (path_f1 _ _ Hk). simpl. unfold lookup_inode. by rewrite Hn.
Qed.

(** The result of an item with new content. *)
Lemma landed_result j it2 it data d p :
  its2 !! j = Some it2 → items c !! j = Some it → same_item it2 it → landed (fs c) it →
  new it2 = Some data → destination it2 = Some d → key_at root f1 p = Some (entry_key d) →
  (∃ x, inode_at root (fs c) p = Some x ∧ content x = Reg data ∧ uid x = it_uid it2 ∧
     gid x = it_gid it2 ∧ mode x = it_mode it2) ∧ (moves it2 → source_gone (fs c) it).
Proof.
  intros Hj2 Hj Hsi ((_ & Hc) & Hm & _) Hnew Hd Hkey.
  assert (Hlt : (j < length its1)%nat).
  { rewrite <- (length_its2 Hst). by eapply lookup_lt_Some. }
  destruct (st_early _ _ _ _ _ _ Hst _ _ Hj2 Hlt) as [a2 Ha2]; [by eexists|].
  destruct (si_stage2 _ _ Hsi _ Ha2) as [a Ha]. rewrite Ha in Hc.
  destruct Hc as [(a' & d' & Ha' & Hd' & _ & Hdst) Hmv].
  assert (a' = a) as -> by congruence. rewrite (si_destination _ _ Hsi) in Hd'.
  assert (d' = d) as -> by congruence.
  destruct (txn_stage Hst Ht _ _ _ Hj Ha) as (i2 & b2 & fd & Hi2 & _ & _ & Hfd & _ & Hsf).
  assert (i2 = it2) as -> by congruence.
  destruct Hsf as [_ _ _ _ (x & data' & Hnew' & Hx & Hxc & Hxu & Hxg)].
  assert (data' = data) as -> by congruence.
  destruct (tx_data Ht _ _ Hx) as (x' & Hx' & Hc' & Hu' & Hg').
  destruct (Hm _ _ Ha Hfd) as (x'' & Hx'' & Hmode). assert (x'' = x') as -> by congruence. split.
  - exists x'. rewrite (si_mode _ _ Hsi) in Hmode. split_and!; try congruence.
    apply inode_at_Some. exists (entry_key d), fd. split; [by apply path_f1|]. split; [congruence|done].
  - unfold moves in *. by rewrite <- (si_op _ _ Hsi).
Qed.

Lemma sourced_inode p it s : sourced root f0 f1 p it s →
  ∃ e x, source it = Some e ∧ key_at root f1 p = Some (entry_key e) ∧ inode_at root f0 p = Some x ∧
    content x = Reg (s_data s) ∧ mode x = it_mode it ∧ uid x = it_uid it ∧ gid x = it_gid it.
Proof.
  intros (_ & (e & He & Hk & Hk0 & (x & Hx & Hc & Hf)) & Hm & Him & Hu & Hg). exists e, x.
  apply lookup_inode_Some in Hx as [Hi Hx].
  split; [done|]. split; [done|]. split; [|rewrite Him, Hm, Hu, Hg, <- Hf; done].
  apply inode_at_Some. eauto.
Qed.

Lemma op_landed j op : ops !! j = Some op →
  op_data euid egid root f0 (fs c) op ∧ op_mode root f0 (fs c) op.
Proof.
  intros Hop. destruct (op_item _ _ Hop) as (it2 & it & Hj2 & Hj & Hsi & (Hio & _ & Hp) & [[e He] Hpl] & Hl).
  simpl in Hio, He, Hpl. destruct op as [p text|p|p move_to hunks].
  - destruct Hp as (_ & Hds & Haim & (data & Hnew & Henc) & Hmode & Hu & Hg). simpl in *.
    assert (Hd : destination it2 = Some e) by congruence.
    destruct (landed_result _ _ _ data _ p Hj2 Hj Hsi Hl Hnew Hd (Haim _ Hd))
      as [(x & Hx & Hxc & Hxu & Hxg & Hxm) _].
    split; [exists x, data; split_and!; congruence|]. rewrite Hx. simpl. congruence.
  - destruct Hp as ((s & Hs) & Hnew & Hdst).
    destruct (sourced_inode _ _ _ Hs) as (e' & x & He' & Hk & Hx & _). simpl in He', Hnew.
    destruct Hs as (Hsn & _). simpl in Hsn. split; [|done]. split; [by eexists|].
    eapply path_gone; [exact Hk|]. destruct Hl as ((_ & Hc) & _).
    assert (Hst' : stage it = None).
    { destruct (stage it) as [a|] eqn:Ha; [|done]. destruct (si_stage _ _ Hsi _ Ha) as (a2 & Ha2 & _).
      destruct (st_stage _ _ _ _ _ _ Hst _ _ _ Hj2 Ha2) as (_ & fd & _ & [_ _ _ _ (y & data & Hn & _)]).
      congruence. }
    rewrite Hst' in Hc. apply (Hc s); [rewrite (si_snapshot _ _ Hsi)|rewrite (si_source _ _ Hsi)]; done.
  - destruct Hp as ((s & data & Hs & Hnew & Hed) & Hmv). simpl in Hnew.
    destruct (sourced_inode _ _ _ Hs) as (e' & x & He' & Hk & Hx & Hxc & Hxm & Hxu & Hxg). simpl in He'.
    destruct Hs as (Hsn & _). simpl in Hsn.
    destruct (Hpl ltac:(congruence)) as [d Hd].
    assert (Hkd : key_at root f1 (target_path (UpdateFile p move_to hunks)) = Some (entry_key d)).
    { destruct move_to as [t|]; [by apply Hmv|]. simpl in Hmv.
      assert (d = e') as -> by congruence. exact Hk. }
    destruct (landed_result _ _ _ data _ _ Hj2 Hj Hsi Hl Hnew Hd Hkd)
      as [(x' & Hx' & Hxc' & Hxu' & Hxg' & Hxm') Hgone]. simpl in Hxm, Hxu, Hxg. split.
    + exists x, x', (s_data s), data. split_and!; try congruence. intros [t ->].
      eapply path_gone; [exact Hk|]. apply (Hgone ltac:(unfold moves; by rewrite Hio) s);
        [rewrite (si_snapshot _ _ Hsi)|rewrite (si_source _ _ Hsi)]; done.
    + simpl. rewrite Hx, Hx'. simpl. congruence.
Qed.

(** An end of an item is named by the plan. *)
Lemma end_named j it key : items c !! j = Some it → key ∈ ends it → named_by root ops (fs c) key.
Proof.
  intros Hj Hkey. destruct (txn_ends Hst Ht _ _ Hj) as (it1 & Hj1 & He). rewrite <- He in Hkey.
  destruct (layout_op _ _ _ _ _ _ _ _ HL _ _ Hj1) as (op & Hop & Hpr).
  destruct (ends_path _ _ _ _ _ _ _ _ Hpr Hkey) as (p & Hp & Hk). exists p.
  split; [by eapply op_path_plan|by apply path_f1].
Qed.

Lemma source_named j it s e : items c !! j = Some it → snapshot it = Some s → source it = Some e →
  named_by root ops f0 (entry_key e).
Proof.
  intros Hj Hs He. destruct (txn_item Hst Ht _ _ Hj) as (it2 & Hj2 & Hsi & Hb).
  rewrite (si_source _ _ Hsi) in He. rewrite (si_snapshot _ _ Hsi) in Hs.
  destruct (layout_op _ _ _ _ _ _ _ _ HL _ _ Hb) as (op & Hop & _ & _ & Hp).
  assert (Hsrc : ∀ p s', p ∈ op_paths op → sourced root f0 f1 p (base it2) s' →
    named_by root ops f0 (entry_key e)).
  { intros p s' Hin (_ & (e' & He' & _ & Hk & _) & _). simpl in He'. exists p.
    split; [by eapply op_path_plan|congruence]. }
  destruct op as [p text|p|p mv h]; simpl in Hsrc.
  - destruct Hp as (Hn & _). simpl in Hn. congruence.
  - destruct Hp as ((s' & Hs') & _). eapply Hsrc; [left|done].
  - destruct Hp as ((s' & data & Hs' & _) & _). apply (Hsrc p s'); [destruct mv; left|done].
Qed.

Lemma landed_delivered : delivered euid egid root ops f0 (fs c).
Proof.
  split; [|intros key i H0 Hno|by eapply (txn_data HL Hst)].
  - apply Forall_lookup. intros j op Hop. by apply (op_landed j).
  - destruct (unowned_or _ _ _ key Ht) as [(j & it & Hj & _ & Hkey)|Heq].
    + destruct (owned_original HL Hst Hval _ _ _ _ _ _ _ Ht Hj Hkey H0) as (s & e & Hs & He & -> & _).
      destruct Hno. by eapply source_named.
    + rewrite Heq. eapply lookup_weaken; [exact H0|apply (f0_f2_entries HL Hst)].
Qed.
End landed.

Lemma landed_applied c :
  txn (λ _ f it, landed f it ∧ slotless it) (λ j, (j < N)%nat) N c →
  applied euid egid root ops f0 (fs c).
Proof.
  intros Ht. assert (Htl : txn (λ _, landed) (λ j, (j < N)%nat) N c).
  { eapply txn_mono; [| |exact Ht]; [|done]. by intros j f it _ [? _]. }
  split.
  - by eapply landed_delivered.
  - apply Forall_lookup. intros j op Hop. by apply (op_landed Htl j).
  - intros i x Hx. destruct (tx_modes Ht _ _ Hx) as (x' & Hx' & [Hm|(j & it2 & s & _ & Hj2 & Hs & Hi)]).
    + left. eauto.
    + right. destruct (Forall2_lookup_l _ _ _ _ _ (tx_items Ht) Hj2) as (it & Hj & Hv).
      pose proof (variant_same _ _ Hv) as Hsi. rewrite <- (si_snapshot _ _ Hsi) in Hs.
      destruct (txn_source_fd HL Hst Ht _ _ _ Hj Hs) as (e & y & He & [Hk _]%lookup_inode_Some & _).
      exists (entry_key e). split; [by eapply (source_named Htl)|congruence].
  - intros key i Hk H0. destruct (unowned_or _ _ _ key Ht) as [(j & it & Hj & Hlt & Hkey)|Heq].
    + destruct (tx_each Ht _ _ Hj Hlt) as [((_ & Hc) & _ & Hslot) Hsl].
      apply elem_of_own in Hkey as [Hkey|[(a & Ha & ->)|(a & Ha & ->)]].
      * right. by eapply (end_named Htl).
      * rewrite Ha in Hc. destruct Hc as [(a' & d & Ha' & _ & Hn & _) _]. congruence.
      * specialize (Hslot _ Ha (Hsl _ Ha)). congruence.
    + rewrite Heq in Hk. destruct (E f1 !! key) as [i1|] eqn:H1.
      * left. pose proof (lookup_weaken _ _ _ _ H1 (st_entries _ _ _ _ _ _ Hst)).
        assert (i1 = i) as -> by congruence.
        destruct (grown_new _ _ _ (lay_grown _ _ _ _ _ _ _ _ HL) _ _ H1 H0) as [(x & Hx & Hd) _].
        assert (Hlk : lookup_inode f1 key = Some (i, x)) by by apply lookup_inode_Some.
        destruct (txn_dirs _ _ _ Ht _ _ _ Hlk Hd) as (x' & [_ Hx']%lookup_inode_Some & Hd').
        by exists x'.
      * exfalso. destruct (st_new _ _ _ _ _ _ Hst _ _ Hk H1) as (j & it2 & a2 & Hj2 & Ha2 & _ & Hka).
        destruct (Forall2_lookup_l _ _ _ _ _ (tx_items Ht) Hj2) as (it & Hj & r & b & Hit).
        assert (Ha : stage it = Some (set_named b a2)) by (subst it; simpl; by rewrite Ha2).
        assert (Hlt : (j < N)%nat) by by eapply lookup_lt_Some.
        destruct (tx_each Ht _ _ Hj Hlt) as [((_ & Hc) & _) _]. rewrite Ha in Hc.
        destruct Hc as [(a' & d & Ha' & _ & Hn & _) _]. assert (a' = set_named b a2) as -> by congruence.
        change (akey (set_named b a2)) with (akey a2) in Hn. congruence.
Qed.

End landing.
