(* ===== verification/PatchAbandon.v ===== *)
(** * The apply_patch transaction: end and recovery

    Validation, the commit loop with its rollback, the cleanup of the recovery slots,
    the modes and the last check: the plan is applied, or the failure is one the
    recovery of [apply_plan] can deal with.

    The outer [except] and [finally]: what is still staged is removed, so are the
    directories that were created, and neither can undo a result or an original. *)

From S2P Require Import Prelude PyStr Patch PatchTheory PatchApply PatchParse PatchFs PatchTxn.
From S2P Require Import PatchLogic PatchPhases PatchSpec PatchItem PatchPlan PatchRollback.
From S2P Require Import PatchLanding.
Open Scope string_scope.
Open Scope list_scope.
Open Scope Z_scope.

#[local] Arguments akey : simpl never.
#[local] Notation E f := (entries f).

(** No artifact of the plan has a name left. *)
Definition nameless (c : State) : Prop :=
  ∀ j it, items c !! j = Some it → swept it ∧ slotless it.

(** ** From the staged plan to the end of the transaction *)

Section tail.
Context (fault : nat → Fault) {token : nat → pystr} {euid egid : Z} (root_value : pystr).
Context {root : nat} {f0 : FS} {ops : list Op} {f1 : FS} {its1 : list Item}.
Context (HL : layout token euid egid root f0 ops f1 its1).
Context {c2 : State} (Hst : staged token f0 f1 its1 (length its1) c2).

Notation f2 := (fs c2).
Notation its2 := (items c2).
Notation txn := (@txn token f0 c2).
Notation N := (length its2).
Notation delivered := (delivered euid egid root ops f0).
Notation applied := (applied euid egid root ops f0).

(** The plan is committed but the transaction could not be finished. *)
Definition late (c : State) : Prop :=
  delivered (fs c) ∧ (∀ cr, cr ∈ created c → E f0 !! c_at cr = None) ∧
  (preserve c = true ∨ nameless c).

Definition broken (e : Raised) (c : State) : Prop :=
  failed (f0 := f0) e c ∨ rough e = true ∧ late c.

Definition succeeded (c : State) : Prop :=
  applied (fs c) ∧ nameless c ∧ preserve c = false ∧ keep c = true.

Definition cleared : State → Prop := txn (λ _ f it, landed f it ∧ slotless it) (λ j, (j < N)%nat) N.

Section valid.
Context (Hval : ∀ j it, its2 !! j = Some it → clear f2 it).

Lemma cleared_nameless c : cleared c → nameless c.
Proof.
  intros Ht j it Hj. assert (Hlt : (j < N)%nat).
  { rewrite (Forall2_length _ _ _ (tx_items Ht)). by eapply lookup_lt_Some. }
  by destruct (tx_each Ht _ _ Hj Hlt) as [((? & _) & _) ?].
Qed.

Lemma cleared_late c : cleared c → late c.
Proof.
  intros Ht. split; [|split; [|right; by apply cleared_nameless]].
  - apply (landed_applied HL Hst Hval _ Ht).
  - intros cr. by apply (txn_created Hst _ _ _ _ _ Ht).
Qed.

Lemma landed_chmod f it fd m :
  (∀ a, stage it = Some a → a_fd a ≠ Some fd) → landed f it → landed (change fd (set_mode m) f) it.
Proof.
  intros Hne Hl. eapply landed_local; [| |exact Hl]; [done|].
  intros a i x Ha Hi Hx. eexists. split; [apply change_inode; eauto|].
  rewrite bool_decide_eq_false_2; [done|]. intros ->. by apply (Hne a).
Qed.

Lemma wp_restore_mode k c :
  cleared c → (k < N)%nat → wp (restore_mode fault k) (λ _, cleared) (λ _ _, False) c.
Proof.
  intros Ht Hk. destruct (txn_focus _ _ _ _ _ Ht Hk (le_n _)) as (it & Hj & Hf).
  apply wp_bind, (wp_get_item_some k it); [done|].
  destruct (snapshot it) as [s|] eqn:Hs; [|by apply wp_ret].
  destruct (recovery it) as [slot|]; [|by apply wp_ret].
  apply wp_catch_os, wp_call; [|intros e; by apply wp_ret]. intros f [] [= <-].
  pose proof (focus_holds Hf) as [Hl Hsl].
  assert (Hf' : @focus token f0 c2 (λ _ f it, landed f it ∧ slotless it) (λ j, (j < N)%nat) N k it
            (λ f it, landed f it ∧ slotless it) (set_fs (change (s_fd s) (set_mode (s_mode s)) (fs c)) c)).
  { eapply (focus_fs HL Hst); [|exact Hk|exact Hf|by apply touches_chmod, source_fd_of_it|].
    - intros j _ f f' itj Ho Hin [? ?]. split; [by eapply landed_local|done].
    - split; [|done]. apply landed_chmod; [|done]. intros a Ha Hfd.
      destruct (stage_fresh HL Hst Ht _ _ _ _ Hj Ha Hfd) as [Hn _].
      destruct (txn_source_fd HL Hst Ht _ _ _ Hj Hs) as (_ & x & _ & [_ Hx]%lookup_inode_Some & _). congruence. }
  eapply focus_out; [exact Hf'|done..].
Qed.

(** The created directories are still attached. *)
Lemma wp_attached_kept e c (Q : unit → State → Prop) R :
  cleared c → Q tt c → (∀ e, R (OSErr e) c) → wp (attached_or fault e) Q R c.
Proof.
  intros Ht HQ HR. apply wp_bind, wp_bind, wp_gets, wp_attached; [|done].
  intros b Hb. apply wp_check; [done|]. intros ->. exfalso. destruct (Hb eq_refl) as (cr & Hcr & Hno).
  rewrite (tx_created _ _ _ _ Ht) in Hcr.
  destruct (st_created _ _ _ _ _ _ Hst _ Hcr) as (_ & x & Hx & Hd).
  destruct (txn_dirs HL Hst Hval _ _ _ Ht _ _ _ Hx Hd) as (x' & Hx' & Hd').
  rewrite (Hno _ Hx') in Hd'. done.
Qed.

(** What follows the commit loop. *)
Lemma wp_finish c :
  finished (token := token) (f0 := f0) (c2 := c2) N c →
  wp (rs ← gets (λ c, recovery_refs c ++ stage_refs c);
      cleanup ← cleanup_named fault rs;
      (if negb (bool_decide (cleanup = [])) then preserve_and_report fault Committed_uncleaned cleanup
       else mret tt) ≫= λ _,
      for_each (seq 0 N) (restore_mode fault) ≫= λ _,
      attached_or fault Parents_changed ≫= λ _,
      modify (λ c, set_flags (preserve c) true c))
    (λ _, succeeded) broken c.
Proof.
  intros [_ Ht]. apply wp_bind, wp_gets, wp_bind.
  eapply wp_mono; [by apply (wp_clean_commit fault HL Hst)| |done].
  clear c Ht. intros zs c Ht. apply wp_bind.
  eapply (wp_mono _ (λ _, cleared) _ broken); [| |done].
  { apply wp_if; intros Hz; bool_prop.
    - assert (Hl : txn (λ _, landed) (λ j, (j < N)%nat) N c).
      { eapply txn_mono; [| |exact Ht]; [|done]. by intros j f it _ [? _]. }
      assert (Hcr : ∀ cr, cr ∈ created c → E f0 !! c_at cr = None) by (intros cr; by apply (txn_created Hst _ _ _ _ _ Ht)).
      eapply wp_mono; [apply (wp_preserve_and_report fault (λ c, delivered (fs c) ∧ ∀ cr, cr ∈ created c → E f0 !! c_at cr = None) _ _ (λ _ _, False))| |].
      + intros c' i m [Hd Hc']. split; [by apply delivered_chmod|done].
      + done.
      + split; [by eapply (landed_delivered HL Hst Hval)|done].
      + done.
      + intros e c' (Hr & Hp & Hd & Hc'). right. split; [done|]. split; [done|]. split; [done|by left].
    - apply wp_ret. eapply txn_mono; [| |exact Ht]; [|done]. intros j f it _ [? Hs]. split; [done|by apply Hs]. }
  clear c Ht. intros [] c Ht. apply wp_bind.
  eapply wp_mono; [apply (wp_for_range _ (λ _, cleared) (λ _ _, False) N c Ht)| |done].
  { intros k c' Hk Hc'. by apply wp_restore_mode. }
  clear c Ht zs. intros [] c Ht. apply wp_bind, wp_attached_kept; [done| |].
  - apply wp_modify. split; [exact (landed_applied HL Hst Hval _ Ht)|].
    split; [exact (cleared_nameless _ Ht)|]. split; [|done]. apply (tx_flags _ _ _ _ Ht).
  - intros e. right. split; [done|]. by apply cleared_late.
Qed.

Lemma wp_commit_phase :
  wp (catch (for_each (seq 0 N) (commit_item fault token root_value)) (commit_failed fault))
    (λ _, finished (token := token) (f0 := f0) (c2 := c2) N) broken c2.
Proof.
  apply wp_catch. eapply wp_mono; [apply (wp_commit_all fault root_value HL Hst)|done|].
  intros e c Hs. eapply wp_mono; [by apply (wp_commit_failed fault HL Hst Hval)|done|by left].
Qed.

End valid.

(** The last check before the commit. *)
Lemma wp_validate_all :
  wp (for_each (seq 0 N) (validate_item fault))
    (λ _ c, c = c2 ∧ ∀ j it, its2 !! j = Some it → clear f2 it) broken c2.
Proof.
  assert (HR : ∀ e, broken e c2) by (intros e; left; left; by eapply staged_aborted).
  eapply wp_mono; [apply (wp_for_range _ (λ k c, c = c2 ∧ ∀ j it, (j < k)%nat → its2 !! j = Some it → clear f2 it))
                  | |by intros e c' Hc'; exact Hc'].
  - split; [done|]. intros j it Hj. lia.
  - intros k c Hk [-> Hcl]. destruct (lookup_lt_is_Some_2 _ _ Hk) as [it Hit].
    eapply (wp_validate_item fault HL k it); [apply (staged_closed HL Hst)|done|by apply (base_its2 Hst)| |by auto].
    intros _ Hclear. split; [done|]. intros j itj Hj Hjk. destruct (decide (j = k)) as [->|]; [by simplify_eq|].
    apply (Hcl j); [lia|done].
  - intros [] c [-> Hcl]. split; [done|]. intros j it Hj. apply (Hcl j); [|done]. by eapply lookup_lt_Some.
Qed.

Lemma wp_tail :
  wp (for_each (seq 0 N) (validate_item fault) ≫= λ _,
      catch (for_each (seq 0 N) (commit_item fault token root_value)) (commit_failed fault) ≫= λ _,
      rs ← gets (λ c, recovery_refs c ++ stage_refs c);
      cleanup ← cleanup_named fault rs;
      (if negb (bool_decide (cleanup = [])) then preserve_and_report fault Committed_uncleaned cleanup
       else mret tt) ≫= λ _,
      for_each (seq 0 N) (restore_mode fault) ≫= λ _,
      attached_or fault Parents_changed ≫= λ _,
      modify (λ c, set_flags (preserve c) true c))
    (λ _, succeeded) broken c2.
Proof.
  apply wp_bind. eapply wp_mono; [apply wp_validate_all| |done].
  intros [] c [-> Hval]. apply wp_bind. eapply wp_mono; [by apply wp_commit_phase| |done].
  intros [] c Hf. by apply wp_finish.
Qed.

End tail.

(** * The apply_patch transaction: the recovery of [apply_plan] *)

Section recovery.
Context (fault : nat → Fault) {euid egid : Z} {root : nat} {f0 : FS} {ops : list Op}.

Notation delivered := (delivered euid egid root ops f0).

Lemma safe_chmod c i m : safe f0 c → safe f0 (set_fs (change i (set_mode m) (fs c)) c).
Proof.
  intros Hs. split; try apply Hs. intros j x Hx. destruct (safe_data _ _ Hs _ _ Hx) as (x' & Hx' & ?).
  eexists. split; [apply change_inode; eauto|]. by case_bool_decide.
Qed.

Lemma safe_rmdir c cr f : safe f0 c → cr ∈ created c → sys_rmdir (c_at cr) (fs c) = Ok (f, tt) →
  safe f0 (set_fs f c).
Proof.
  intros Hs Hcr (i & x & _ & _ & _ & ->)%rmdir_Ok. split; try apply Hs. simpl.
  apply map_subseteq_spec. intros key j Hk. rewrite lookup_delete_ne.
  - eapply lookup_weaken; [exact Hk|apply Hs].
  - intros <-. rewrite (safe_created _ _ Hs) in Hk by done. done.
Qed.

Lemma tidy_rmdir c k f : tidy f0 c → sys_rmdir k (fs c) = Ok (f, tt) → tidy f0 (set_fs f c).
Proof.
  intros Ht (i & x & _ & _ & _ & ->)%rmdir_Ok. split; [|apply Ht]. simpl.
  intros key j [_ Hk]%lookup_delete_Some H0. exact (tidy_new _ _ Ht _ _ Hk H0).
Qed.

(** [rollback_created] removes nothing but empty directories it has recorded. *)
Lemma wp_rollback_created (I : State → Prop) (Q : list pystr → State → Prop) c :
  (∀ c cr f, I c → cr ∈ created c → sys_rmdir (c_at cr) (fs c) = Ok (f, tt) → I (set_fs f c)) →
  (∀ c, I c → I (set_created [] c)) → I c → (∀ zs c, I c → created c = [] → Q zs c) →
  wp (rollback_created fault) Q (λ _ _, False) c.
Proof.
  intros Hrm Hcl HI HQ. apply wp_bind, wp_gets, wp_bind.
  eapply wp_mono; [apply (wp_collect _ _ (λ rs _ c', I c' ∧ ∀ cr, cr ∈ rs → cr ∈ created c')
                     (λ _ _, False) _ true)| |done].
  - split; [done|]. intros cr Hcr%list_elem_of_In%in_rev. by apply list_elem_of_In.
  - intros cr rs ok c' [HI' Hsub]. assert (Hcr : cr ∈ created c') by (apply Hsub; left).
    assert (Hsub' : ∀ cr, cr ∈ rs → cr ∈ created c') by (intros cr' ?; apply Hsub; by right).
    apply wp_catch_os, wp_bind, wp_entry_info; [|intros e; by apply wp_ret].
    destruct (lookup_inode (fs c') (c_at cr)) as [[i x]|].
    + apply wp_if; intros _; [by apply wp_ret|].
      apply wp_bind, wp_call; [|intros e; by apply wp_ret]. intros f [] Hr.
      assert (HI2 : I (set_fs f c')) by by eapply Hrm.
      apply wp_bind, wp_fsync; [by apply wp_ret|intros e; by apply wp_ret].
    + apply wp_catch_os, wp_bind, wp_fstat; [|intros e; by apply wp_ret].
      intros y _. destruct (linked _ _); by apply wp_ret.
  - intros zs c' [HI' _]. apply wp_bind, wp_modify, wp_ret, HQ; [by apply Hcl|done].
Qed.

(** Cleanup of a tree whose originals are in place. *)
Lemma safe_unlink c k it a f :
  safe f0 c → items c !! k = Some it → stage it = Some a → named a = true →
  sys_unlink (akey a) (fs c) = Ok (f, tt) →
  let c' := set_items (<[k := set_stage (Some (set_named false a)) it]> (items c)) (set_fs f c) in
  safe f0 c' ∧ (tidy f0 c → tidy f0 c') ∧ (∀ key, staged_at c' key → staged_at c key).
Proof.
  intros Hs Hk Ha Hn Hun c'.
  assert (Hat : staged_at c (akey a)) by (exists k, it, a; done).
  assert (H0 : E f0 !! akey a = None) by by apply (safe_stages _ _ Hs).
  apply unlink_Ok in Hun as (i & x & _ & _ & ->).
  assert (Hst : ∀ key, staged_at c' key → staged_at c key).
  { intros key (j & itj & aj & [[-> ->]|[Hne Hj]]%items_insert_cases & Haj & Hnj & Hkj).
    - injection Haj as <-. done.
    - by exists j, itj, aj. }
  assert (Hin : ∀ (P : Inode → Prop) j y, (∀ t z, P z → P (set_stamp t z)) → inodes (fs c) !! j = Some y → P y →
            ∃ y', inodes (fs c') !! j = Some y' ∧ P y').
  { intros P j y Hst' Hy HP. eexists. split; [apply change_inode; exists y; split; [exact Hy|reflexivity]|].
    case_bool_decide; [by apply Hst'|done]. }
  split; [split; try apply Hs|split; [intros [Hnew Hmode]; split|exact Hst]].
  - apply map_subseteq_spec. intros key j Hkey. simpl. rewrite lookup_delete_ne by congruence.
    eapply lookup_weaken; [exact Hkey|apply Hs].
  - intros j y Hy. destruct (safe_data _ _ Hs _ _ Hy) as (y' & Hy' & Hd). by apply (Hin (same_data y) j y').
  - intros key Hkey. by apply (safe_stages _ _ Hs), Hst.
  - intros j itj aj [[-> ->]|[Hne Hj]]%items_insert_cases Haj;
      [exact (safe_slots _ _ Hs _ _ _ Hk Haj)|exact (safe_slots _ _ Hs _ _ _ Hj Haj)].
  - intros key j Hkey Hkey0. simpl in Hkey. apply lookup_delete_Some in Hkey as [Hne Hkey].
    destruct (Hnew _ _ Hkey Hkey0) as [(y & Hy & Hd)|(j' & itj & aj & Hj & Haj & Hnj & Hkj)]; [left|right].
    + by apply (Hin (λ y, is_dir y = true) j y).
    + exists j', itj, aj. split; [|done]. simpl. rewrite list_lookup_insert_ne; [done|].
      intros ->. simplify_eq.
  - intros j y Hy. destruct (Hmode _ _ Hy) as (y' & Hy' & Hm). by apply (Hin (λ z, mode z = mode y) j y').
Qed.

Lemma wp_cleanup_safe c :
  safe f0 c →
  wp (cleanup_named fault (recovery_refs c ++ stage_refs c))
    (λ zs c', safe f0 c' ∧ (tidy f0 c → tidy f0 c') ∧ (∀ key, staged_at c' key → staged_at c key) ∧
      (zs = [] → ∀ key, ¬ staged_at c' key))
    (λ _ _, False) c.
Proof.
  intros Hs. set (refs := recovery_refs c ++ stage_refs c).
  eapply wp_mono; [apply (wp_collect _ _ (λ rs ok c', safe f0 c' ∧ (tidy f0 c → tidy f0 c') ∧
      (∀ key, staged_at c' key → staged_at c key) ∧ (∀ r, r ∈ rs → is_Some (items c' !! ref_item r)) ∧
      (ok = true → ∀ j it a, items c' !! j = Some it → stage it = Some a → StageOf j ∉ rs → named a = false))
    (λ _ _, False) _ true)| |done].
  - do 3 (split; [done|]). split.
    + intros r [(k & it & -> & Hk & _)%elem_of_recovery_refs|(k & it & -> & Hk & _)%elem_of_stage_refs]%elem_of_app;
        by eexists.
    + intros _ j it a Hj Ha Hn. destruct Hn. apply elem_of_app. right. apply elem_of_stage_refs. eauto 6.
  - clear Hs. intros r rs ok c' (Hs & Htd & Hsub & Hr & Hok). destruct (Hr r) as [it Hit]; [left|].
    assert (Hr' : ∀ r, r ∈ rs → is_Some (items c' !! ref_item r)) by (intros r' ?; apply Hr; by right).
    apply (wp_cleanup_one fault r it); [done| | |].
    + intros Hn. rewrite andb_true_r. do 4 (split; [done|]). intros Ho j itj a Hj Ha Hnin.
      destruct (decide (StageOf j = r)) as [<-|Hne]; [simpl in *; simplify_eq; by apply Hn|].
      eapply Hok; [done..|]. by intros [?|?]%elem_of_cons.
    + intros a Ha Hn. rewrite andb_false_r. done.
    + intros a f Ha Hn Hun. destruct r as [k|k]; simpl in *.
      2:{ rewrite (safe_slots _ _ Hs _ _ _ Hit Ha) in Hn. done. }
      destruct (safe_unlink _ _ _ _ _ Hs Hit Ha Hn Hun) as (Hs' & Ht' & Hsub'). rewrite andb_true_r.
      split; [done|]. split; [auto|]. split; [auto|]. split.
      * intros r' Hr2. simpl. apply lookup_lt_is_Some. rewrite length_insert.
        by apply lookup_lt_is_Some, Hr'.
      * intros Ho j itj aj [[-> ->]|[Hne Hj]]%items_insert_cases Haj Hnin; [by injection Haj as <-|].
        eapply Hok; [done..|]. intros [?|?]%elem_of_cons; [congruence|done].
  - intros zs c' (Hs' & Ht' & Hsub & _ & Hok). do 3 (split; [done|]). intros -> key (j & it & a & Hj & Ha & Hn & _).
    rewrite (Hok eq_refl _ _ _ Hj Ha) in Hn; [done|]. apply not_elem_of_nil.
Qed.

(** Cleanup finds nothing to do. *)
Lemma wp_cleanup_nameless c (Q : list pystr → State → Prop) R :
  nameless c → Q [] c → wp (cleanup_named fault (recovery_refs c ++ stage_refs c)) Q R c.
Proof.
  intros Hn HQ. assert (Hrefs : ∀ r, r ∈ recovery_refs c ++ stage_refs c → is_Some (items c !! ref_item r)).
  { intros r [(k & it & -> & Hk & _)%elem_of_recovery_refs|(k & it & -> & Hk & _)%elem_of_stage_refs]%elem_of_app;
      by eexists. }
  revert Hrefs. generalize (recovery_refs c ++ stage_refs c). intros rs Hrefs. unfold cleanup_named.
  revert Q HQ Hrefs. induction rs as [|r rs IH]; intros Q HQ Hrefs; simpl; [by apply wp_ret|].
  destruct (Hrefs r) as [it Hit]; [left|]. apply wp_bind.
  assert (Hall : ∀ a, art r it = Some a → named a = false).
  { intros a Ha. destruct (Hn _ _ Hit) as [Hsw Hsl]. destruct r; [by apply Hsw|by apply Hsl]. }
  apply (wp_cleanup_one fault r it); [done| | |].
  - intros _. apply wp_bind, IH; [by apply wp_ret|]. intros r' ?. apply Hrefs. by right.
  - intros a Ha Hn'. rewrite (Hall _ Ha) in Hn'. done.
  - intros a f Ha Hn'. rewrite (Hall _ Ha) in Hn'. done.
Qed.

(** ** The handler and the release *)

Lemma wp_total {A} (m : M A) (Q : A → State → Prop) R c : wp m Q (λ _ _, False) c → wp m Q R c.
Proof. intros Hm. by eapply wp_mono; [exact Hm|..]. Qed.


Notation late := (late (euid := euid) (egid := egid) (root := root) (f0 := f0) (ops := ops)).
Notation broken := (broken (euid := euid) (egid := egid) (root := root) (f0 := f0) (ops := ops)).

(** How the transaction is given up. *)
Definition spared (e : Raised) (c : State) : Prop :=
  safe f0 c ∧ created c = [] ∧ (rough e = true ∨ tidy f0 c ∧ ∀ key, ¬ staged_at c key).

Definition abandoned (e : Raised) (c : State) : Prop :=
  spared e c ∨
  rough e = true ∧ preserve c = true ∧ (preserved f0 (fs c) ∨ delivered (fs c)) ∨
  rough e = true ∧ preserve c = false ∧ delivered (fs c) ∧ created c = [] ∧ nameless c.

(** The state of a late failure that left no artifact. *)
Definition settled (c : State) : Prop :=
  delivered (fs c) ∧ (∀ cr, cr ∈ created c → E f0 !! c_at cr = None) ∧ nameless c ∧ preserve c = false.

Lemma settled_rmdir c cr f :
  settled c → cr ∈ created c → sys_rmdir (c_at cr) (fs c) = Ok (f, tt) → settled (set_fs f c).
Proof.
  intros (Hd & Hcr & Hn & Hp) Hin Hrm. split; [|done].
  eapply delivered_rmdir; [exact Hrm|by apply Hcr|done].
Qed.

Lemma settled_chmod c i m : settled c → settled (set_fs (change i (set_mode m) (fs c)) c).
Proof. intros (Hd & ?). split; [by apply delivered_chmod|done]. Qed.

Lemma wp_settled_directories c (Q : list pystr → State → Prop) R :
  settled c → (∀ zs c, settled c → created c = [] → Q zs c) → wp (rollback_created fault) Q R c.
Proof.
  intros Hs HQ. apply wp_total, (wp_rollback_created settled); [|clear..|done|done].
  - intros. by eapply settled_rmdir.
  - intros c (? & _ & ?). split; [done|]. split; [|done]. by intros cr ?%not_elem_of_nil.
Qed.

(** Safe, and as tidy as [T] says. *)
Lemma wp_safe_directories c (T : Prop) (Q : list pystr → State → Prop) R :
  safe f0 c → (T → tidy f0 c) →
  (∀ zs c', safe f0 c' → (T → tidy f0 c') → items c' = items c → created c' = [] → Q zs c') →
  wp (rollback_created fault) Q R c.
Proof.
  intros Hs Ht HQ.
  apply wp_total, (wp_rollback_created (λ c', safe f0 c' ∧ (T → tidy f0 c') ∧ items c' = items c)).
  - intros c' cr f (Hs' & Ht' & Hi) Hcr Hrm. split; [by eapply safe_rmdir|]. split; [|done].
    intros HT. by eapply tidy_rmdir; [apply Ht'|].
  - intros c' (Hs' & Ht' & Hi). split; [|split; [|done]].
    + split; try apply Hs'. by intros cr ?%not_elem_of_nil.
    + intros HT. split; apply (Ht' HT).
  - done.
  - intros zs c' (? & ? & ?) ?. by apply HQ.
Qed.

Lemma staged_at_items c c' key : items c' = items c → staged_at c' key → staged_at c key.
Proof. unfold staged_at. by intros ->. Qed.

Lemma wp_abandon_safe e c :
  safe f0 c → is_rollback e = true ∨ tidy f0 c → wp (A := unit) (abandon fault e) (λ _ _, False) spared c.
Proof.
  intros Hs Hok. destruct (safe_flags _ _ Hs) as [Hp _].
  apply wp_bind, wp_gets. rewrite Hp. apply wp_bind, wp_bind, wp_gets, wp_bind.
  eapply wp_mono; [by apply wp_cleanup_safe| |done]. intros zs c1 (Hs1 & Ht1 & _ & Hn1).
  apply wp_bind, (wp_safe_directories c1 (tidy f0 c)); [done..|].
  intros ds c2 Hs2 Ht2 Hi2 Hcr. apply wp_if; intros Hz; bool_prop.
  - apply wp_ret, wp_raise. split; [done|]. split; [done|]. destruct Hok as [Hr|Ht].
    + left. by destruct e.
    + right. split; [auto|]. apply app_eq_nil in Hz as [-> ->]. intros key Hst.
      eapply Hn1; [done|]. by eapply staged_at_items.
  - apply wp_bind, (wp_artifact_paths fault (λ c', safe f0 c' ∧ created c' = [])); [|done|..].
    + intros c' i m [? ?]. split; [by apply safe_chmod|done].
    + intros xs c' [? ?]. apply wp_raise. split; [done|]. split; [done|by left].
    + intros err c' [? ?]. split; [done|]. split; [done|by left].
Qed.

Lemma wp_abandon_settled e c :
  rough e = true → settled c →
  wp (A := unit) (abandon fault e) (λ _ _, False) (λ e c, rough e = true ∧ settled c ∧ created c = []) c.
Proof.
  intros Hr Hs. pose proof Hs as (_ & _ & Hn & Hp).
  apply wp_bind, wp_gets. rewrite Hp. apply wp_bind, wp_bind, wp_gets, wp_bind, wp_cleanup_nameless; [done|].
  apply wp_bind, wp_settled_directories; [done|]. clear c Hs Hn Hp. intros ds c Hs Hcr.
  apply wp_if; intros _; [by apply wp_ret, wp_raise|].
  apply wp_bind, (wp_artifact_paths fault (λ c', settled c' ∧ created c' = [])); [|done|..].
  - intros c' i m [? ?]. split; [by apply settled_chmod|done].
  - intros xs c' Hc'. by apply wp_raise.
  - done.
Qed.

Lemma wp_abandon e c : broken e c → wp (A := unit) (abandon fault e) (λ _ _, False) abandoned c.
Proof.
  assert (Hkept : rough e = true → preserve c = true → preserved f0 (fs c) ∨ delivered (fs c) →
            wp (A := unit) (abandon fault e) (λ _ _, False) abandoned c).
  { intros Hr Hp Hc. apply wp_bind, wp_gets. rewrite Hp. apply wp_bind, wp_ret, wp_raise.
    right; left. done. }
  intros [[[Hs Hok]|(Hr & Hp & Hc)]|(Hr & Hd & Hcr & Hpn)].
  - eapply wp_mono; [by apply wp_abandon_safe|done|by left].
  - auto.
  - destruct (preserve c) eqn:Hp; [by auto|]. destruct Hpn as [?|Hn]; [done|].
    eapply wp_mono; [by apply wp_abandon_settled|done|].
    intros e' c' (? & (? & ? & ? & ?) & ?). right; right. done.
Qed.

(** The [finally] changes none of this. *)
Lemma wp_release_nameless c :
  nameless c → preserve c = false → keep c = true → wp (release fault) (λ _ c', c' = c) (λ _ _, False) c.
Proof.
  intros Hn Hp Hk. apply wp_bind, wp_gets. simpl. rewrite Hp, Hk.
  apply wp_bind, wp_cleanup_nameless; [done|]. apply wp_bind, wp_ret. by apply wp_ret.
Qed.

Lemma wp_release_spared e c : spared e c → wp (release fault) (λ _, spared e) (λ _ _, False) c.
Proof.
  intros (Hs & Hcr & Hok). destruct (safe_flags _ _ Hs) as [Hp Hk].
  apply wp_bind, wp_gets. simpl. rewrite Hp, Hk. apply wp_bind.
  eapply wp_mono; [by apply wp_cleanup_safe| |done]. intros zs c1 (Hs1 & Ht1 & Hsub & _).
  apply wp_bind, (wp_safe_directories c1 (tidy f0 c)); [done..|]. intros ds c2 Hs2 Ht2 Hi2 Hcr2.
  apply wp_ret. split; [done|]. split; [done|]. destruct Hok as [?|[Ht Hno]]; [by left|right].
  split; [auto|]. intros key Hst. eapply Hno, Hsub, staged_at_items; [exact Hi2|done].
Qed.

Lemma wp_release e c : abandoned e c → wp (release fault) (λ _, abandoned e) (λ _ _, False) c.
Proof.
  intros [Hs|[(Hr & Hp & Hc)|(Hr & Hp & Hd & Hcr & Hn)]].
  - eapply wp_mono; [by apply wp_release_spared|by left|done].
  - apply wp_bind, wp_gets. simpl. rewrite Hp, andb_false_r. apply wp_bind, wp_ret, wp_bind, wp_ret, wp_ret.
    right; left. done.
  - apply wp_bind, wp_gets. simpl. rewrite Hp. apply wp_bind, wp_cleanup_nameless; [done|].
    assert (Hend : ∀ c', settled c' ∧ created c' = [] → abandoned e c').
    { intros c' ((? & ? & ? & ?) & ?). right; right. done. }
    assert (Hs : settled c) by (split; [done|split; [by rewrite Hcr; intros cr ?%not_elem_of_nil|done]]).
    apply wp_bind. destruct (keep c); [by apply wp_ret, wp_ret, Hend|].
    apply wp_settled_directories; [done|]. intros zs c' ? ?. by apply wp_ret, Hend.
Qed.


End recovery.
