(* ===== verification/PatchAtomic.v ===== *)
(** * The apply_patch transaction: all or nothing

    The phases put together: whatever system calls fail, [apply_plan] applies the
    whole plan, or leaves the tree as it was, or says that its own recovery failed
    with the originals or the results in place. *)

From S2P Require Import Prelude PyStr Patch PatchTheory PatchApply PatchParse.
From S2P Require Import PatchFs PatchTxn PatchLogic PatchPhases PatchSpec PatchItem PatchPlan PatchRollback.
From S2P Require Import PatchAbandon.
Open Scope string_scope.
Open Scope list_scope.
Open Scope Z_scope.

#[local] Arguments akey : simpl never.

Lemma unchanged_refl f : unchanged f f.
Proof. split; [done|by intros i x Hx; exists x|]. intros key i Hk Hn. by rewrite Hk in Hn. Qed.

Section atomic.
Context (fault : nat → Fault) (token : nat → pystr) (euid egid : Z) (root_value : pystr).
Context (root : nat) (f0 : FS) (ops : list Op).
Context (Htree : tree root f0) (Hwf : wf_plan ops) (Hsecret : unpredictable token ops).

Notation broken := (broken (euid := euid) (egid := egid) (root := root) (f0 := f0) (ops := ops)).
Notation succeeded := (succeeded (euid := euid) (egid := egid) (root := root) (f0 := f0) (ops := ops)).
Notation abandoned := (abandoned (euid := euid) (egid := egid) (root := root) (f0 := f0) (ops := ops)).
Notation planted := (planted euid egid root f0 ops).

Lemma ready_planted c : ready euid egid root f0 ops c → planted (items c) c.
Proof.
  intros []. split; try done; rewrite ?ready_fs; try done.
  - by split; try done; congruence.
  - rewrite ready_created. by intros cr ?%not_elem_of_nil.
Qed.

Lemma aborted_broken e c : aborted f0 e c → broken e c.
Proof. by left; left. Qed.

(** The plan is laid out in the tree. *)
Lemma planted_layout n c :
  planted_to euid egid root f0 ops n n c →
  ∃ its, length its = n ∧ layout token euid egid root f0 ops (fs c) its ∧ planted its c.
Proof.
  intros (its & Hp & Hn & Hpl). exists its. split; [done|]. split; [|done].
  split; try done; try apply Hp. intros k it Hk. apply (Hpl k); [|done]. subst n. by eapply lookup_lt_Some.
Qed.

Lemma wp_transaction c :
  ready euid egid root f0 [] c →
  wp (transaction fault token euid egid root_value ops) (λ _, succeeded) broken c.
Proof.
  intros Hr. apply wp_bind.
  eapply wp_mono; [by apply (wp_prepare_all fault euid egid root f0)| |intros; by apply aborted_broken].
  clear c Hr. intros [] c Hr. pose proof (ready_planted _ Hr) as Hp. apply wp_bind, wp_gets.
  unfold indices. remember (length (items c)) as n eqn:Hn. apply wp_bind.
  eapply wp_mono; [apply (wp_for_range _ (planted_to euid egid root f0 ops n) (aborted f0) n)| |intros; by apply aborted_broken].
  { exists (items c). split; [done|]. split; [done|]. intros j it Hj. lia. }
  { intros k c' _ Hc'. by apply wp_make_parents. }
  clear c Hr Hp Hn. intros [] c (its & Hn & HL & Hp)%planted_layout.
  pose proof (staged_start token _ _ _ _ _ _ _ c Hp eq_refl) as Hs.
  apply wp_bind, wp_attached_or; [|intros e; by apply aborted_broken, (planted_aborted _ _ _ _ _ _ _ _ Hp)].
  apply wp_bind.
  eapply wp_mono; [apply (wp_for_range _ (staged token f0 (fs c) its) (aborted f0) n)| |intros; by apply aborted_broken].
  { done. }
  { intros k c' Hk Hc'. eapply wp_stage_item; [done..|lia]. }
  intros [] c2 Hst. subst n. rewrite <- (length_its2 Hst). by eapply wp_tail.
Qed.

(** How [apply_validated] ends. *)
Lemma wp_apply_validated c :
  ready euid egid root f0 [] c →
  wp (apply_validated fault token euid egid root_value ops)
    (λ lines c', lines = report <$> ops ∧ succeeded c') abandoned c.
Proof.
  intros Hr. apply wp_bind, wp_finally, wp_catch.
  eapply wp_mono; [by apply wp_transaction|..].
  - intros [] c' Hs. pose proof Hs as (_ & Hn & Hp & Hk).
    eapply wp_mono; [by apply wp_release_nameless| |done]. intros [] c2 ->. by apply wp_ret.
  - intros e c' Hb. eapply wp_mono; [by apply wp_abandon|done|].
    intros e' c2 Ha. eapply wp_mono; [by apply wp_release|done|done].
Qed.

Lemma initial_ready : ready euid egid root f0 [] (state (initial root f0)).
Proof.
  split; try done.
  - intros p d Hp. cbn [initial state fds fs] in *. by apply lookup_singleton_Some in Hp as [<- <-].
Qed.

Lemma spared_unchanged c : safe f0 c → tidy f0 c → (∀ key, ¬ staged_at c key) → unchanged f0 (fs c).
Proof.
  intros Hs Ht Hno. split; [apply Hs| |].
  - intros i x Hx. destruct (safe_data _ _ Hs _ _ Hx) as (x' & Hx' & ?).
    destruct (tidy_modes _ _ Ht _ _ Hx) as (x'' & ? & ?). exists x'. split; [done|]. split; [done|]. congruence.
  - intros key i Hk H0. destruct (tidy_new _ _ Ht _ _ Hk H0) as [?|?]; [done|]. by edestruct Hno.
Qed.

Lemma safe_preserved c : safe f0 c → preserved f0 (fs c).
Proof.
  intros Hs. split; [|apply Hs]. intros key i Hk. exists key. split; [done|].
  eapply lookup_weaken; [exact Hk|apply Hs].
Qed.

Lemma abandoned_outcome e c : abandoned e c →
  unchanged f0 (fs c) ∨ rough e = true ∧ (preserved f0 (fs c) ∨ delivered euid egid root ops f0 (fs c)).
Proof.
  intros [(Hs & _ & [Hr|[Ht Hno]])|[(Hr & _ & Hc)|(Hr & _ & Hd & _)]].
  - right. split; [done|left]. by apply safe_preserved.
  - left. by apply spared_unchanged.
  - by right.
  - right. auto.
Qed.

End atomic.

(** C5: the transaction is atomic.  Take any tree of directories, any JSON value as a
    plan and any pattern of failing system calls, renames that fail after taking
    effect included; suppose only that no path of the plan ends in a random token.
    If [apply_plan] returns, the whole plan is applied: every result is in place with
    its content, owner and mode, every removed or moved source is gone, and nothing
    else is different but the directories created for it.  If it raises, the tree is
    as it was, up to new directories; or the exception is a rollback failure or an
    error of the system, and then either every original file is still in its
    directory with its content and owner or every result is in place. *)
Theorem apply_plan_atomic fault token euid egid root_value root plan f0 w r :
  tree root f0 →
  (∀ ops, validated_plan plan = Ok ops → unpredictable token ops) →
  apply_plan fault token euid egid root_value (Some root) plan f0 = (w, r) →
  match r with
  | inl lines => ∃ ops, validated_plan plan = Ok ops ∧ lines = report <$> ops ∧
      applied euid egid root ops f0 (fs (state w))
  | inr e => unchanged f0 (fs (state w)) ∨
      rough e = true ∧ (preserved f0 (fs (state w)) ∨
        ∃ ops, validated_plan plan = Ok ops ∧ delivered euid egid root ops f0 (fs (state w)))
  end.
Proof.
  intros Htree Hsecret Happ. unfold apply_plan in Happ.
  pose proof (validated_plan_post plan) as Hwf. destruct (validated_plan plan) as [ops|e]; simpl in Hwf.
  - pose proof (wp_apply_validated fault token euid egid root_value root f0 ops Htree (proj1 Hwf)
      (Hsecret _ eq_refl) _ (initial_ready euid egid root f0) _ eq_refl) as Hend.
    rewrite Happ in Hend. destruct r as [lines|e].
    + destruct Hend as [Hl (Hap & _)]. by exists ops.
    + destruct (abandoned_outcome _ _ _ _ _ _ _ Hend) as [?|(? & [?|?])]; eauto 6.
  - injection Happ as <- <-. left. apply unchanged_refl.
Qed.

Module PatchWitness.

Definition file (s : string) : Inode := {| content := Reg (lit s); mode := 420; uid := 1; gid := 1; stamp := 0 |}.
Definition directory : Inode := {| content := Dir; mode := 493; uid := 1; gid := 1; stamp := 0 |}.

(** a, c and d/b *)
Definition before : FS :=
  {| entries := list_to_map [((0%nat, lit "a"), 1%nat); ((0%nat, lit "c"), 4%nat);
                             ((0%nat, lit "d"), 2%nat); ((2%nat, lit "b"), 3%nat)];
     inodes := list_to_map [(0%nat, directory); (1%nat, file "x"); (2%nat, directory);
                            (3%nat, file "y"); (4%nat, file "zz")];
     clock := 0 |}.

Definition hunk (old new : string) : Hunk :=
  {| anchors := []; hunk_lines := [lit ("-" +:+ old); lit ("+" +:+ new)]; patch_line := 1 |}.

(** An add under new parents, a deletion, a move with an edit and an edit. *)
Definition operations : list Op :=
  [AddFile (lit "n/m/q") (lit "hello"); DeleteFile (lit "c");
   UpdateFile (lit "a") (Some (lit "d/e")) [hunk "x" "xx"];
   UpdateFile (lit "d/b") None [hunk "y" "yy"]].

Definition tokens (n : nat) : pystr := repeat 97 (32 + n).

(** The [n]-th system call is refused. *)
Definition refuse (n k : nat) : Fault := if bool_decide (k = n) then Refused else Fine.

Lemma before_tree : tree 0 before.
Proof.
  assert (Hent : map_Forall (λ k i, i ≠ 0%nat ∧ is_Some (inodes before !! i) ∧
            map_Forall (λ k' i', i' = i → k = k') (entries before)) (entries before)).
  { refine (bool_decide_unpack _ _). vm_compute. exact I. }
  split.
  - by exists directory.
  - intros k Hk. by destruct (Hent _ _ Hk).
  - intros k i Hk. by destruct (Hent _ _ Hk) as (_ & ? & _).
  - intros k k' i x Hk Hk' _ _. destruct (Hent _ _ Hk) as (_ & _ & Hun). by apply (Hun k' i).
Qed.

Lemma tokens_unpredictable ops :
  Forall (λ p, (length (default [] (last (posix_parts p))) < 32)%nat) (ops ≫= op_paths) →
  unpredictable tokens ops.
Proof.
  intros HF pre n p Hp Heq. rewrite Forall_forall in HF. specialize (HF _ Hp).
  rewrite <- Heq in HF. unfold private, tokens in HF. rewrite length_app, repeat_length in HF. lia.
Qed.

Definition run (fault : nat → Fault) : World * (list pystr + Raised) :=
  apply_plan fault tokens 7 7 (lit "/r") (Some 0%nat) (plan_of operations) before.

(** The plan applies; with its sixtieth call refused it is rolled back. *)
Lemma apply_plan_atomic_witness :
  (∃ w, run (λ _, Fine) = (w, inl (report <$> operations))) ∧
  ∃ w e, run (refuse 60) = (w, inr e) ∧
    (unchanged before (fs (state w)) ∨
     rough e = true ∧ (preserved before (fs (state w)) ∨
       ∃ ops, validated_plan (plan_of operations) = Ok ops ∧ delivered 7 7 0 ops before (fs (state w)))).
Proof.
  split; [eexists; vm_compute; reflexivity|].
  pose proof (apply_plan_atomic (refuse 60) tokens 7 7 (lit "/r") 0%nat (plan_of operations) before) as H.
  fold (run (refuse 60)) in H.
  destruct (run (refuse 60)) as [w [l|e]] eqn:Hrun; [vm_compute in Hrun; discriminate Hrun|].
  exists w, e. split; [reflexivity|]. refine (H w (inr e) before_tree _ eq_refl).
  assert (Hv : validated_plan (plan_of operations) = Ok operations) by (vm_compute; reflexivity).
  intros ops Hops. rewrite Hv in Hops. injection Hops as <-. apply tokens_unpredictable.
  refine (bool_decide_unpack _ _). vm_compute. exact I.
Defined.

End PatchWitness.
