(* ===== verification/Guard.v ===== *)
(** * The subsystem availability guard (src/src/health/subsystem_guard.py)

    Per-subsystem health driven by counted failures, by explicit marks and by a
    transient, self-clearing degradation.  A registry keeps its records in a map
    and the registration order in a list, as a Python dict does.  [clk] is the pair
    of clock readings of a call; a [reason] argument is the text after
    [sanitize_error_text], which is not modelled.

    Two invariants of one subsystem's record along every run of the registry, and
    the transition the counted thresholds get wrong. *)

From S2P Require Import Prelude.
From stdpp Require Import pretty.
Open Scope string_scope.
Open Scope list_scope.
Open Scope Z_scope.

Inductive SubsystemState : Type := AVAILABLE | DEGRADED | UNAVAILABLE.

#[export] Instance SubsystemState_eq_dec : EqDecision SubsystemState.
Proof. solve_decision. Defined.

Record Clock : Type := { monotonic : Z; wall : Z }.

Record SubsystemInfo : Type := {
  name : string;
  state : SubsystemState;
  consecutive_failures : Z;
  total_failures : Z;
  total_successes : Z;
  last_failure_reason : string;
  last_failure_at : Z;
  last_success_at : Z;
  registered_at : Z;
  transient_until : option Z
}.

Record Transition : Type := {
  t_subsystem : string;
  t_from : SubsystemState;
  t_to : SubsystemState;
  t_reason : string;
  t_at : Z
}.

Record DegradationStats : Type := {
  total_checks : Z;
  total_blocked : Z;
  total_transitions : Z;
  transition_log : list Transition
}.

Record SubsystemGuard : Type := {
  subsystems : gmap string SubsystemInfo;
  registered : list string;
  degraded_threshold : Z;
  unavailable_threshold : Z;
  stats : DegradationStats
}.

(** ** Statistics *)

Definition MAX_LOG : nat := 200.

(** [l[-n:]] *)
Definition last_n {A} (n : nat) (l : list A) : list A := drop (length l - n) l.

Definition no_stats : DegradationStats :=
  {| total_checks := 0; total_blocked := 0; total_transitions := 0; transition_log := [] |}.

Definition record_check (blocked : bool) (s : DegradationStats) : DegradationStats :=
  {| total_checks := total_checks s + 1;
     total_blocked := if blocked then total_blocked s + 1 else total_blocked s;
     total_transitions := total_transitions s; transition_log := transition_log s |}.

Definition record_transition (n : string) (from to : SubsystemState) (reason : string) (at_ : Z)
    (s : DegradationStats) : DegradationStats :=
  let log := transition_log s ++ [{| t_subsystem := n; t_from := from; t_to := to;
                                      t_reason := reason; t_at := at_ |}] in
  {| total_checks := total_checks s; total_blocked := total_blocked s;
     total_transitions := total_transitions s + 1;
     transition_log := if (MAX_LOG <? length log)%nat then last_n MAX_LOG log else log |}.

(** [as_dict]: the counters and the latest twenty transitions. *)
Definition stats_as_dict (s : DegradationStats) : Z * Z * Z * list Transition :=
  (total_checks s, total_blocked s, total_transitions s, last_n 20 (transition_log s)).

(** ** Messages *)

Definition DEFAULT_MESSAGES : gmap string string := list_to_map [
  ("knowledge", "Knowledge store is currently unavailable. Text search and document ingestion are offline. Other tools remain functional.");
  ("browser", "Browser automation is currently unavailable. Web scraping and browser tools are offline. Other tools remain functional.");
  ("mcp", "MCP (Model Context Protocol) servers are currently unavailable. External MCP tools are offline. Other tools remain functional.");
  ("sessions", "Session manager is currently unavailable. Conversation history may not persist. Other tools remain functional.");
  ("scheduler", "Task scheduler is currently unavailable. Scheduled tasks are paused. Other tools remain functional.")].

Definition fallback_message (n : string) : string :=
  "Subsystem '" +:+ n +:+ "' is currently unavailable. Other tools remain functional.".

Definition DEFAULT_DEGRADED_THRESHOLD : Z := 3.
Definition DEFAULT_UNAVAILABLE_THRESHOLD : Z := 10.

(** ** The registry *)

Definition create (degraded unavailable : Z) (s : DegradationStats) : SubsystemGuard :=
  let d := Z.max 1 degraded in
  {| subsystems := ∅; registered := []; degraded_threshold := d;
     unavailable_threshold := Z.max (d + 1) unavailable; stats := s |}.

Definition with_stats (f : DegradationStats → DegradationStats) (g : SubsystemGuard)
    : SubsystemGuard :=
  {| subsystems := subsystems g; registered := registered g;
     degraded_threshold := degraded_threshold g;
     unavailable_threshold := unavailable_threshold g; stats := f (stats g) |}.

(** Mutation of one record of the registry. *)
Definition store_info (n : string) (i : SubsystemInfo) (g : SubsystemGuard) : SubsystemGuard :=
  {| subsystems := <[n := i]> (subsystems g); registered := registered g;
     degraded_threshold := degraded_threshold g;
     unavailable_threshold := unavailable_threshold g; stats := stats g |}.

Definition register (n : string) (initial : SubsystemState) (clk : Clock) (g : SubsystemGuard)
    : SubsystemGuard :=
  match subsystems g !! n with
  | Some _ => g
  | None =>
      {| subsystems := <[n := {| name := n; state := initial; consecutive_failures := 0;
                                 total_failures := 0; total_successes := 0;
                                 last_failure_reason := ""; last_failure_at := 0;
                                 last_success_at := 0; registered_at := monotonic clk;
                                 transient_until := None |}]> (subsystems g);
         registered := registered g ++ [n];
         degraded_threshold := degraded_threshold g;
         unavailable_threshold := unavailable_threshold g; stats := stats g |}
  end.

(** Assignment of the state and the transient expiry of a record. *)
Definition with_state (s : SubsystemState) (t : option Z) (i : SubsystemInfo) : SubsystemInfo :=
  {| name := name i; state := s; consecutive_failures := consecutive_failures i;
     total_failures := total_failures i; total_successes := total_successes i;
     last_failure_reason := last_failure_reason i; last_failure_at := last_failure_at i;
     last_success_at := last_success_at i; registered_at := registered_at i;
     transient_until := t |}.

Definition with_reason (r : string) (i : SubsystemInfo) : SubsystemInfo :=
  if bool_decide (r = "") then i else
  {| name := name i; state := state i; consecutive_failures := consecutive_failures i;
     total_failures := total_failures i; total_successes := total_successes i;
     last_failure_reason := r; last_failure_at := last_failure_at i;
     last_success_at := last_success_at i; registered_at := registered_at i;
     transient_until := transient_until i |}.

Definition with_failures (n : Z) (i : SubsystemInfo) : SubsystemInfo :=
  {| name := name i; state := state i; consecutive_failures := n;
     total_failures := total_failures i; total_successes := total_successes i;
     last_failure_reason := last_failure_reason i; last_failure_at := last_failure_at i;
     last_success_at := last_success_at i; registered_at := registered_at i;
     transient_until := transient_until i |}.

Definition reason_or (r d : string) : string := if bool_decide (r = "") then d else r.

(** [_resolve]: an expired transient degradation lapses on every read. *)
Definition expired (clk : Clock) (i : SubsystemInfo) : bool :=
  bool_decide (state i = DEGRADED)
  && match transient_until i with Some t => t <=? monotonic clk | None => false end.

Definition resolve (n : string) (clk : Clock) (g : SubsystemGuard)
    : SubsystemGuard * option SubsystemInfo :=
  match subsystems g !! n with
  | None => (g, None)
  | Some i =>
      if expired clk i then
        let i := with_state AVAILABLE None i in
        (with_stats (record_transition n DEGRADED AVAILABLE "transient degradation expired" (wall clk))
           (store_info n i g), Some i)
      else (g, Some i)
  end.

Definition get_state (n : string) (clk : Clock) (g : SubsystemGuard)
    : SubsystemGuard * option SubsystemState :=
  let '(g, i) := resolve n clk g in (g, state <$> i).

Definition is_available (n : string) (clk : Clock) (g : SubsystemGuard) : SubsystemGuard * bool :=
  let '(g, i) := resolve n clk g in
  (g, match i with None => true | Some i => bool_decide (state i = AVAILABLE) end).

Definition is_usable (n : string) (clk : Clock) (g : SubsystemGuard) : SubsystemGuard * bool :=
  let '(g, i) := resolve n clk g in
  (g, match i with None => true | Some i => negb (bool_decide (state i = UNAVAILABLE)) end).

(** [check]: the message that blocks a tool, if any. *)
Definition check (n : string) (clk : Clock) (g : SubsystemGuard) : SubsystemGuard * option string :=
  let '(g, i) := resolve n clk g in
  match i with
  | None => (with_stats (record_check false) g, None)
  | Some i =>
      if bool_decide (state i = UNAVAILABLE)
      then (with_stats (record_check true) g,
            Some (default (fallback_message n) (DEFAULT_MESSAGES !! n)))
      else (with_stats (record_check false) g, None)
  end.

Definition mark_available (n : string) (clk : Clock) (g : SubsystemGuard) : SubsystemGuard :=
  match subsystems g !! n with
  | None => g
  | Some i =>
      let old := state i in
      let i := with_failures 0 (with_state old None i) in
      if bool_decide (old = AVAILABLE) then store_info n i g
      else with_stats (record_transition n old AVAILABLE "manual recovery" (wall clk))
             (store_info n (with_state AVAILABLE None i) g)
  end.

Definition mark_degraded (n reason : string) (clk : Clock) (g : SubsystemGuard) : SubsystemGuard :=
  match subsystems g !! n with
  | None => g
  | Some i =>
      let old := state i in
      if bool_decide (old = DEGRADED) then store_info n (with_state old None i) g
      else with_stats (record_transition n old DEGRADED (reason_or reason "manual") (wall clk))
             (store_info n (with_reason reason (with_state DEGRADED None i)) g)
  end.

Definition mark_unavailable (n reason : string) (clk : Clock) (g : SubsystemGuard)
    : SubsystemGuard :=
  match subsystems g !! n with
  | None => g
  | Some i =>
      let old := state i in
      if bool_decide (old = UNAVAILABLE) then g
      else with_stats (record_transition n old UNAVAILABLE (reason_or reason "manual") (wall clk))
             (store_info n (with_reason reason (with_state UNAVAILABLE None i)) g)
  end.

Definition mark_degraded_transient (n reason : string) (expires_in : Z) (clk : Clock)
    (g : SubsystemGuard) : SubsystemGuard :=
  match subsystems g !! n with
  | None => g
  | Some i =>
      if bool_decide (state i = UNAVAILABLE) then g
      else if bool_decide (state i = DEGRADED) && bool_decide (transient_until i = None) then g
      else
        let old := state i in
        let until := Some (monotonic clk + Z.max 1000 expires_in) in
        let i := with_reason reason (with_state old until i) in
        if bool_decide (old = DEGRADED) then store_info n i g
        else with_stats (record_transition n old DEGRADED
                           (reason_or reason "transient degradation") (wall clk))
               (store_info n (with_state DEGRADED until i) g)
  end.

(** ** Counted failures and successes *)

(** The state the counter asks for. *)
Definition counted_state (g : SubsystemGuard) (failures : Z) (old : SubsystemState) : SubsystemState :=
  if unavailable_threshold g <=? failures then UNAVAILABLE
  else if degraded_threshold g <=? failures then DEGRADED
  else old.

Definition record_failure (n reason : string) (clk : Clock) (g : SubsystemGuard)
    : SubsystemGuard * SubsystemState :=
  match subsystems g !! n with
  | None => (g, AVAILABLE)
  | Some i =>
      let failures := consecutive_failures i + 1 in
      let old := state i in
      let new := counted_state g failures old in
      let i := {| name := name i; state := new; consecutive_failures := failures;
                  total_failures := total_failures i + 1; total_successes := total_successes i;
                  last_failure_reason := reason_or reason (last_failure_reason i);
                  last_failure_at := monotonic clk; last_success_at := last_success_at i;
                  registered_at := registered_at i; transient_until := None |} in
      let g := store_info n i g in
      (if bool_decide (new = old) then g
       else with_stats (record_transition n old new
              (reason_or reason (pretty failures +:+ " consecutive failures")) (wall clk)) g,
       new)
  end.

Definition record_success (n : string) (clk : Clock) (g : SubsystemGuard)
    : SubsystemGuard * SubsystemState :=
  match subsystems g !! n with
  | None => (g, AVAILABLE)
  | Some i =>
      let old := state i in
      let i := {| name := name i; state := AVAILABLE; consecutive_failures := 0;
                  total_failures := total_failures i; total_successes := total_successes i + 1;
                  last_failure_reason := last_failure_reason i;
                  last_failure_at := last_failure_at i; last_success_at := monotonic clk;
                  registered_at := registered_at i; transient_until := None |} in
      let g := store_info n i g in
      (if bool_decide (old = AVAILABLE) then g
       else with_stats (record_transition n old AVAILABLE "success after recovery" (wall clk)) g,
       AVAILABLE)
  end.

(** ** Observability *)

(** The records in registration order. *)
Definition infos (g : SubsystemGuard) : list SubsystemInfo :=
  omap (λ n, subsystems g !! n) (registered g).

Definition resolve_all (clk : Clock) (g : SubsystemGuard) : SubsystemGuard :=
  foldl (λ g n, (resolve n clk g).1) g (registered g).

Definition count_state (s : SubsystemState) (g : SubsystemGuard) : nat :=
  length (List.filter (λ i, bool_decide (state i = s)) (infos g)).

Inductive Overall : Type := healthy | partial | degraded.

Record Status : Type := {
  overall : Overall;
  status_infos : list (SubsystemInfo * option Z);
  available_count : nat;
  degraded_count : nat;
  unavailable_count : nat;
  total : nat
}.

(** [get_status]: each record with the age of its last failure, and the counts. *)
Definition get_status (clk : Clock) (g : SubsystemGuard) : SubsystemGuard * Status :=
  let g := resolve_all clk g in
  let age i := if bool_decide (last_failure_at i = 0) then None
               else Some (Z.max 0 (monotonic clk - last_failure_at i)) in
  (g, {| overall := if (0 <? count_state UNAVAILABLE g)%nat then degraded
                    else if (0 <? count_state DEGRADED g)%nat then partial else healthy;
         status_infos := (λ i, (i, age i)) <$> infos g;
         available_count := count_state AVAILABLE g;
         degraded_count := count_state DEGRADED g;
         unavailable_count := count_state UNAVAILABLE g;
         total := length (registered g) |}).

Definition names_in (s : SubsystemState) (g : SubsystemGuard) : list string :=
  name <$> List.filter (λ i, bool_decide (state i = s)) (infos g).

Definition get_unavailable_names : SubsystemGuard → list string := names_in UNAVAILABLE.
Definition get_degraded_names : SubsystemGuard → list string := names_in DEGRADED.

(** ** Steps *)

Inductive Label : Type :=
| Register (n : string) (initial : SubsystemState) (clk : Clock)
| Read (n : string) (clk : Clock)
| Check (n : string) (clk : Clock)
| Mark_available (n : string) (clk : Clock)
| Mark_degraded (n reason : string) (clk : Clock)
| Mark_unavailable (n reason : string) (clk : Clock)
| Mark_transient (n reason : string) (expires_in : Z) (clk : Clock)
| Failure (n reason : string) (clk : Clock)
| Success (n : string) (clk : Clock)
| Report (clk : Clock).

Definition exec (g : SubsystemGuard) (l : Label) : SubsystemGuard :=
  match l with
  | Register n s clk => register n s clk g
  | Read n clk => (resolve n clk g).1
  | Check n clk => (check n clk g).1
  | Mark_available n clk => mark_available n clk g
  | Mark_degraded n r clk => mark_degraded n r clk g
  | Mark_unavailable n r clk => mark_unavailable n r clk g
  | Mark_transient n r e clk => mark_degraded_transient n r e clk g
  | Failure n r clk => (record_failure n r clk g).1
  | Success n clk => (record_success n clk g).1
  | Report clk => (get_status clk g).1
  end.

(** * The subsystem availability guard: theorems *)

Section theory.
Context (n : string).

Definition thresholds_ok (g : SubsystemGuard) : Prop :=
  1 <= degraded_threshold g < unavailable_threshold g.

(** Every step keeps the thresholds. *)
Definition same_thresholds (g g' : SubsystemGuard) : Prop :=
  degraded_threshold g' = degraded_threshold g ∧ unavailable_threshold g' = unavailable_threshold g.

Lemma resolve_thresholds m clk g : same_thresholds g (resolve m clk g).1.
Proof. unfold resolve. by destruct (subsystems g !! m); [destruct (expired clk s)|]. Qed.

Lemma resolve_all_thresholds clk g : same_thresholds g (resolve_all clk g).
Proof.
  unfold resolve_all. generalize (registered g). intros ms. revert g.
  induction ms as [|m ms IH]; intros g; [done|]. simpl.
  destruct (IH (resolve m clk g).1), (resolve_thresholds m clk g). split; congruence.
Qed.

Lemma check_state m clk g :
  subsystems (check m clk g).1 = subsystems (resolve m clk g).1
  ∧ same_thresholds (resolve m clk g).1 (check m clk g).1.
Proof.
  unfold check. destruct (resolve m clk g) as [g' [i|]]; simpl; [|done].
  by destruct (bool_decide (state i = UNAVAILABLE)).
Qed.

Lemma exec_thresholds g l : same_thresholds g (exec g l).
Proof.
  destruct l; simpl;
    unfold register, mark_available, mark_degraded, mark_unavailable, mark_degraded_transient,
      record_failure, record_success;
    try (apply resolve_thresholds || apply resolve_all_thresholds);
    try (destruct (subsystems g !! _); [|done]; repeat case_match; done).
  destruct (check_state n0 clk g) as [_ [H1 H2]], (resolve_thresholds n0 clk g). split; congruence.
Qed.

(** A record without a transient expiry is left alone by every read. *)
Lemma resolve_record m clk g i :
  subsystems g !! n = Some i → transient_until i = None →
  subsystems (resolve m clk g).1 !! n = Some i.
Proof.
  intros Hi Ht. unfold resolve. destruct (subsystems g !! m) as [j|] eqn:Hj; [|done].
  destruct (expired clk j) eqn:He; [|done]. simpl.
  rewrite lookup_insert_ne; [done|]. intros ->. simplify_eq.
  unfold expired in He. rewrite Ht in He. by rewrite andb_false_r in He.
Qed.

Lemma resolve_all_record clk g i :
  subsystems g !! n = Some i → transient_until i = None →
  subsystems (resolve_all clk g) !! n = Some i.
Proof.
  unfold resolve_all. generalize (registered g). intros ms. revert g.
  induction ms as [|m ms IH]; intros g Hi Ht; [done|]. simpl.
  apply IH; [by apply resolve_record|done].
Qed.

(** The name a label is about. *)
Definition subject (l : Label) : option string :=
  match l with
  | Register m _ _ | Read m _ | Check m _ | Mark_available m _ | Mark_degraded m _ _
  | Mark_unavailable m _ _ | Mark_transient m _ _ _ | Failure m _ _ | Success m _ => Some m
  | Report _ => None
  end.

Lemma exec_other g l i m :
  subject l = Some m → m ≠ n → subsystems g !! n = Some i →
  subsystems (exec g l) !! n = Some i.
Proof.
  intros Hl Hm Hi. destruct l; simplify_eq/=;
    try rewrite (proj1 (check_state _ _ _));
    unfold register, resolve, mark_available, mark_degraded, mark_unavailable,
      mark_degraded_transient, record_failure, record_success;
    (destruct (subsystems g !! m); [|by simplify_map_eq]); repeat case_match; by simplify_map_eq.
Qed.

(** What one step does to the record of [n] when it has no transient expiry. *)
Lemma exec_record g l i :
  subsystems g !! n = Some i → transient_until i = None →
  match l with
  | Mark_available m _ | Mark_degraded m _ _ | Mark_unavailable m _ _
  | Mark_transient m _ _ _ | Failure m _ _ | Success m _ => m ≠ n
  | _ => True
  end →
  subsystems (exec g l) !! n = Some i.
Proof.
  intros Hi Ht Hl. destruct l; try (by eapply exec_other).
  - destruct (decide (n0 = n)) as [->|]; [|by eapply exec_other].
    simpl. unfold register. by rewrite Hi.
  - by apply resolve_record.
  - simpl. rewrite (proj1 (check_state _ _ _)). by apply resolve_record.
  - by apply resolve_all_record.
Qed.

(** ** Counted health *)

(** Failures of [n] since its last success. *)
Fixpoint failures_since (k : Z) (ls : list Label) : Z :=
  match ls with
  | [] => k
  | Failure m _ _ :: ls => failures_since (if bool_decide (m = n) then k + 1 else k) ls
  | Success m _ :: ls => failures_since (if bool_decide (m = n) then 0 else k) ls
  | _ :: ls => failures_since k ls
  end.

(** No explicit mark of [n]. *)
Definition unmarked (l : Label) : Prop :=
  match l with
  | Mark_available m _ | Mark_degraded m _ _ | Mark_unavailable m _ _
  | Mark_transient m _ _ _ => m ≠ n
  | _ => True
  end.

Definition level (g : SubsystemGuard) (k : Z) : SubsystemState :=
  counted_state g k AVAILABLE.

Definition counted (g : SubsystemGuard) (k : Z) : Prop :=
  ∃ i, subsystems g !! n = Some i ∧ transient_until i = None
       ∧ consecutive_failures i = k ∧ state i = level g k ∧ 0 <= k.

Lemma level_succ g k :
  thresholds_ok g → 0 <= k → counted_state g (k + 1) (level g k) = level g (k + 1).
Proof.
  unfold thresholds_ok, level, counted_state. intros ??.
  destruct (Z.leb_spec (unavailable_threshold g) (k + 1)); [done|].
  destruct (Z.leb_spec (degraded_threshold g) (k + 1)); [done|].
  destruct (Z.leb_spec (unavailable_threshold g) k); [lia|].
  destruct (Z.leb_spec (degraded_threshold g) k); [lia|done].
Qed.

Lemma level_same g g' k : same_thresholds g g' → level g' k = level g k.
Proof. unfold level, counted_state. by intros [-> ->]. Qed.

Lemma counted_step g l k :
  thresholds_ok g → unmarked l → counted g k →
  counted (exec g l) (failures_since k [l]).
Proof.
  intros Hth Hl (i & Hi & Ht & Hk & Hs & Hpos).
  pose proof (exec_thresholds g l) as Hsame.
  assert (Hkeep : subsystems (exec g l) !! n = Some i → counted (exec g l) k).
  { intros H. exists i. rewrite (level_same g) by done. done. }
  destruct l; simpl failures_since; simpl in Hl;
    try (apply Hkeep, exec_record; done).
  - case_bool_decide as Hm; [subst n0|by apply Hkeep, exec_record].
    simpl in *. unfold record_failure in *. rewrite Hi in *. simpl in *.
    rewrite Hk, Hs in *. rewrite level_succ in * by done. unfold counted.
    rewrite (level_same _ _ (k + 1) Hsame).
    case_bool_decide; simpl; rewrite lookup_insert_eq; eexists; split_and!; try done; simpl; lia.
  - case_bool_decide as Hm; [subst n0|by apply Hkeep, exec_record].
    simpl in *. unfold record_success in *. rewrite Hi in *. simpl in *. unfold counted.
    rewrite (level_same _ _ 0 Hsame).
    assert (level g 0 = AVAILABLE) as ->.
    { unfold level, counted_state, thresholds_ok in *.
      destruct (Z.leb_spec (unavailable_threshold g) 0); [lia|].
      destruct (Z.leb_spec (degraded_threshold g) 0); [lia|done]. }
    case_bool_decide; simpl; rewrite lookup_insert_eq; eexists; split_and!; try done; simpl; lia.
Qed.

Lemma failures_since_cons k l ls :
  failures_since k (l :: ls) = failures_since (failures_since k [l]) ls.
Proof. by destruct l. Qed.

Lemma counted_run g ls k :
  thresholds_ok g → Forall unmarked ls → counted g k →
  counted (run exec g ls) (failures_since k ls) ∧ same_thresholds g (run exec g ls).
Proof.
  intros Hth HF. revert g k Hth. induction HF as [|l ls Hl HF IH]; intros g k Hth Hc; [done|].
  rewrite failures_since_cons. simpl. pose proof (exec_thresholds g l) as [H1 H2].
  destruct (IH (exec g l) (failures_since k [l])) as [Hr [H3 H4]].
  - unfold thresholds_ok in *. lia.
  - by apply counted_step.
  - split; [done|]. split; congruence.
Qed.

(** without explicit marks, a subsystem's health is a function of its failures
    since the last success.  Starting from a freshly registered or healthy record,
    along any run of the registry the record is AVAILABLE below the degraded
    threshold, DEGRADED from there to the unavailable threshold and UNAVAILABLE from
    that on, whatever happens to other subsystems and however often it is read; and
    [check] blocks a tool exactly in the last case. *)
Theorem health_follows_failures g ls i clk :
  thresholds_ok g → subsystems g !! n = Some i → state i = AVAILABLE →
  consecutive_failures i = 0 → transient_until i = None → Forall unmarked ls →
  let g' := run exec g ls in
  let k := failures_since 0 ls in
  (get_state n clk g').2 = Some (level g k)
  ∧ ((check n clk g').2 ≠ None ↔ unavailable_threshold g <= k).
Proof.
  intros Hth Hi Hs Hk Ht HF g' k.
  assert (Hc : counted g 0).
  { exists i. split_and!; try done. rewrite Hs. unfold level, counted_state, thresholds_ok in *.
    destruct (Z.leb_spec (unavailable_threshold g) 0); [lia|].
    destruct (Z.leb_spec (degraded_threshold g) 0); [lia|done]. }
  destruct (counted_run g ls 0 Hth HF Hc) as [(j & Hj & Htj & _ & Hsj & _) Hsame].
  fold g' k in Hj, Hsj, Hsame. rewrite (level_same _ _ k Hsame) in Hsj.
  unfold get_state, check, resolve, expired. rewrite Hj, Htj, andb_false_r. simpl.
  split; [congruence|]. rewrite Hsj. unfold level, counted_state.
  destruct (Z.leb_spec (unavailable_threshold g) k); simpl; [done|].
  destruct (Z.leb_spec (degraded_threshold g) k); simpl; split; intros; done || lia.
Qed.

(** ** Real degradation *)

Definition uncleared (l : Label) : Prop :=
  match l with Success m _ | Mark_available m _ => m ≠ n | _ => True end.

Definition down (g : SubsystemGuard) : Prop :=
  ∃ i, subsystems g !! n = Some i ∧ transient_until i = None ∧ state i ≠ AVAILABLE.

Lemma down_step l g : uncleared l → down g → down (exec g l).
Proof.
  intros Hl (i & Hi & Ht & Hs).
  destruct l; simpl in Hl; try (exists i; split; [by apply exec_record|done]).
  all: destruct (decide (n0 = n)) as [->|Hne]; [|exists i; split; [by eapply exec_other|done]].
  all: unfold down; simpl; unfold mark_degraded, mark_unavailable, mark_degraded_transient,
    record_failure, counted_state; rewrite Hi; simpl.
  - case_bool_decide; simpl; rewrite lookup_insert_eq; eexists; split; try done.
    unfold with_reason. by case_bool_decide.
  - case_bool_decide; simpl; [by exists i|].
    rewrite lookup_insert_eq; eexists; split; [done|]. unfold with_reason. by case_bool_decide.
  - destruct (state i) eqn:E; [done|..]; simpl.
    + rewrite Ht. simpl. by exists i; rewrite E.
    + by exists i; rewrite E.
  - repeat case_bool_decide; simpl; rewrite lookup_insert_eq; eexists; split; try done; simpl;
      split; try done; repeat case_match; done.
Qed.

(** real degradation never clears itself.  A subsystem that is down for a
    counted or explicit reason (not AVAILABLE and without a transient expiry) is
    not reported available by any read, at any time, until a success or an explicit
    recovery of that subsystem: neither time nor a transient mark revives it. *)
Theorem degradation_is_sticky g ls i clk :
  subsystems g !! n = Some i → transient_until i = None → state i ≠ AVAILABLE →
  Forall uncleared ls →
  (is_available n clk (run exec g ls)).2 = false.
Proof.
  intros Hi Ht Hs HF.
  assert (Hd : down (run exec g ls)).
  { apply (run_invariant_on exec uncleared down); [by exists i|done|].
    intros g' l Hl. by apply down_step. }
  destruct Hd as (j & Hj & Htj & Hsj). unfold is_available, resolve, expired.
  rewrite Hj, Htj, andb_false_r. simpl. by apply bool_decide_eq_false.
Qed.
End theory.

(** a failure can make an unavailable subsystem usable.  A subsystem marked
    UNAVAILABLE while its failure count is below the degraded threshold becomes
    DEGRADED, hence usable and no longer blocked, at the failure that reaches that
    threshold. *)
Theorem failure_revives_unavailable g n i clk :
  subsystems g !! n = Some i → state i = UNAVAILABLE → transient_until i = None →
  consecutive_failures i + 1 = degraded_threshold g → thresholds_ok g →
  (check n clk g).2 ≠ None
  ∧ (check n clk (record_failure n "" clk g).1).2 = None
  ∧ (is_usable n clk (record_failure n "" clk g).1).2 = true.
Proof.
  intros Hi Hs Ht Hk Hth. unfold thresholds_ok in Hth.
  assert (Hnew : counted_state g (consecutive_failures i + 1) UNAVAILABLE = DEGRADED).
  { unfold counted_state. destruct (Z.leb_spec (unavailable_threshold g) (consecutive_failures i + 1)); [lia|].
    destruct (Z.leb_spec (degraded_threshold g) (consecutive_failures i + 1)); [done|lia]. }
  assert (Hrec : ∃ j, subsystems (record_failure n "" clk g).1 !! n = Some j
                      ∧ state j = DEGRADED ∧ transient_until j = None).
  { unfold record_failure. rewrite Hi, Hs, Hnew. simpl. rewrite lookup_insert_eq. by eexists. }
  destruct Hrec as (j & Hj & Hsj & Htj).
  unfold check, is_usable, resolve, expired. rewrite Hi, Hs, Hj, Htj, andb_false_r. simpl.
  rewrite Hs, Hsj. done.
Qed.

Module GuardWitness.

Definition clk : Clock := {| monotonic := 0; wall := 0 |}.
Definition g0 : SubsystemGuard := register "mcp" AVAILABLE clk (create 3 10 no_stats).
Definition i0 : SubsystemInfo := default
  {| name := ""; state := DEGRADED; consecutive_failures := 0; total_failures := 0;
     total_successes := 0; last_failure_reason := ""; last_failure_at := 0;
     last_success_at := 0; registered_at := 0; transient_until := None |} (subsystems g0 !! "mcp").
Definition late : Clock := {| monotonic := 1000000; wall := 1000000 |}.

Lemma g0_thresholds : thresholds_ok g0.
Proof. unfold thresholds_ok. vm_compute. split; [discriminate|reflexivity]. Qed.

Definition storm : list Label :=
  [Failure "mcp" "" clk; Check "mcp" clk; Failure "mcp" "" clk; Failure "mcp" "" clk].

Lemma health_follows_failures_witness :
  (get_state "mcp" late (run exec g0 storm)).2 = Some (level g0 (failures_since "mcp" 0 storm))
  ∧ level g0 (failures_since "mcp" 0 storm) = DEGRADED.
Proof.
  split; [|reflexivity].
  apply (health_follows_failures "mcp" g0 storm i0 late g0_thresholds);
    [reflexivity..|repeat constructor].
Defined.

Definition g1 : SubsystemGuard := mark_degraded "mcp" "disk" clk g0.
Definition i1 : SubsystemInfo := default i0 (subsystems g1 !! "mcp").

Lemma degradation_is_sticky_witness :
  (is_available "mcp" late
     (run exec g1 [Mark_transient "mcp" "capacity" 1000 clk; Read "mcp" late])).2 = false.
Proof.
  apply (degradation_is_sticky "mcp" g1 _ i1 late);
    [reflexivity|reflexivity|discriminate|repeat constructor].
Defined.

Definition g2 : SubsystemGuard :=
  mark_unavailable "mcp" "crashed" clk (run exec g0 [Failure "mcp" "" clk; Failure "mcp" "" clk]).
Definition i2 : SubsystemInfo := default i0 (subsystems g2 !! "mcp").

Lemma failure_revives_unavailable_witness :
  (check "mcp" late g2).2 ≠ None
  ∧ (check "mcp" late (record_failure "mcp" "" late g2).1).2 = None.
Proof.
  destruct (failure_revives_unavailable g2 "mcp" i2 late) as (H1 & H2 & _);
    [reflexivity|reflexivity|reflexivity|reflexivity|unfold thresholds_ok; vm_compute; split; [discriminate|reflexivity]|].
  exact (conj H1 H2).
Defined.

End GuardWitness.
