(* ===== verification/JsonStore.v ===== *)
(** * Corruption-safe JSON stores (src/src/json_store.py, src/src/permissions/persistence.py)

    A store file is known by what reading it gives: nothing, an error, text that is
    not JSON, or the value its text parses to; [json.dumps] of a value then
    [json.loads] gives the value back.  A write either fails before the rename,
    leaving the file, or commits, with or without proven durability. *)

From S2P Require Import Prelude PyStr.
Open Scope string_scope.
Open Scope list_scope.
Open Scope Z_scope.
Local Open Scope odin_scope.

Inductive Disk : Type :=
| Missing
| Unreadable
| Malformed
| Holds (data : Json).

(** [StoreCorruptError], and whether a copy of the bytes was set aside. *)
Inductive StoreError : Type :=
| StoreCorrupt (backed_up : bool)
| WriteFailed.

Definition kvs_of (data : Json) : option (list (pystr * Json)) :=
  match data with JDict kvs => Some kvs | _ => None end.

(** [load_json_store] for a dict store with a nested-shape check. *)
Definition load_json_store (validate : list (pystr * Json) → bool) (disk : Disk)
    : result StoreError (list (pystr * Json)) :=
  match disk with
  | Missing => Ok []
  | Unreadable => Err (StoreCorrupt false)
  | Malformed => Err (StoreCorrupt true)
  | Holds data =>
      match kvs_of data with
      | None => Err (StoreCorrupt true)
      | Some kvs => guard! validate kvs else StoreCorrupt true in Ok kvs
      end
  end.

(** [load_json_store_safe]: the data and whether the store was sound. *)
Definition load_json_store_safe (validate : list (pystr * Json) → bool) (disk : Disk)
    : list (pystr * Json) * bool :=
  match load_json_store validate disk with
  | Ok kvs => (kvs, true)
  | Err _ => ([], false)
  end.

(** What the operating system makes of one publication. *)
Inductive WriteOutcome : Type :=
| PreReplaceFailure
| Replaced (directory_synced : bool).

(** [write_private_atomic]: the new file and whether durability is proven. *)
Definition write_private_atomic (o : WriteOutcome) (content : Json)
    : result StoreError (Disk * bool) :=
  match o with
  | PreReplaceFailure => Err WriteFailed
  | Replaced synced => Ok (Holds content, synced)
  end.

(** A store the strict loader refuses. *)
Definition corrupt (validate : list (pystr * Json) → bool) (disk : Disk) : Prop :=
  is_ok (load_json_store validate disk) = false.

Lemma load_safe_corrupt validate disk :
  corrupt validate disk → load_json_store_safe validate disk = ([], false).
Proof.
  unfold corrupt, load_json_store_safe. by destruct (load_json_store validate disk).
Qed.
