(* ===== verification/Permissions.v ===== *)
(** * Permission tiers (src/src/permissions/manager.py)

    The manager's cached policy, the file behind it and the request-scoped tier.
    Every method is one step: the publication lock serialises the writers.  Log
    lines are not modelled. *)

From S2P Require Import Prelude PyStr JsonStore.
Open Scope string_scope.
Open Scope list_scope.
Open Scope Z_scope.
Local Open Scope odin_scope.

Definition admin : pystr := Eval compute in lit "admin".
Definition user : pystr := Eval compute in lit "user".
Definition guest : pystr := Eval compute in lit "guest".
Definition VALID_TIERS : list pystr := [admin; user; guest].

Definition valid_tier (tier : pystr) : bool := bool_decide (tier ∈ VALID_TIERS).

Definition overrides_ok (data : list (pystr * Json)) : bool :=
  forallb (λ kv, match kv.2 with JStr _ => true | _ => false end) data.

(** The entries of a validated file, as strings. *)
Definition tiers_of (data : list (pystr * Json)) : list (pystr * pystr) :=
  omap (λ kv, match kv.2 with JStr tier => Some (kv.1, tier) | _ => None end) data.

Definition json_of_tiers (tiers : list (pystr * pystr)) : Json :=
  JDict ((λ kv, (kv.1, JStr kv.2)) <$> tiers).

Definition valid_overrides (data : list (pystr * pystr)) : list (pystr * pystr) :=
  List.filter (λ kv, valid_tier kv.2) data.

Definition invalid_overrides_of (data : list (pystr * pystr)) : list (pystr * pystr) :=
  List.filter (λ kv, negb (valid_tier kv.2)) data.

Definition USER_TIER_TOOLS : list pystr := Eval compute in lit <$>
  ["get_tool_output"; "search_history"; "search_knowledge"; "web_search"; "fetch_url";
   "list_schedules"; "list_tasks"; "list_skills"; "list_knowledge"; "manage_list"; "parse_time"].

Record PermissionManager : Type := {
  config_tiers : list (pystr * pystr);
  default_tier : pystr;
  overrides : list (pystr * pystr);
  invalid_overrides : list (pystr * pystr);
  store_corrupt : bool;
  durability_degraded : option bool
}.

(** The manager and its file. *)
Record World : Type := { manager : PermissionManager; disk : Disk }.

(** The cached policy a full set of entries gives. *)
Definition adopt (entries : list (pystr * pystr)) (is_corrupt : bool) (m : PermissionManager)
    : PermissionManager :=
  {| config_tiers := config_tiers m; default_tier := default_tier m;
     overrides := valid_overrides entries; invalid_overrides := invalid_overrides_of entries;
     store_corrupt := is_corrupt; durability_degraded := durability_degraded m |}.

Definition load_overrides (d : Disk) (m : PermissionManager) : PermissionManager :=
  let '(data, ok) := load_json_store_safe overrides_ok d in
  adopt (tiers_of data) (negb ok) m.

Definition create (config : list (pystr * pystr)) (default : pystr) (d : Disk) : World :=
  {| manager := load_overrides d
       {| config_tiers := config; default_tier := if valid_tier default then default else user;
          overrides := []; invalid_overrides := []; store_corrupt := false;
          durability_degraded := None |};
     disk := d |}.

Definition load_overrides_for_write (d : Disk) : result StoreError (list (pystr * pystr)) :=
  let! data := load_json_store overrides_ok d in
  Ok (tiers_of data).

(** [_save_overrides]: the file and the durability flag. *)
Definition save_overrides (o : WriteOutcome) (candidate : list (pystr * pystr)) (w : World)
    : result StoreError World :=
  let! (d, synced) := write_private_atomic o (json_of_tiers candidate) in
  let m := manager w in
  Ok {| manager := {| config_tiers := config_tiers m; default_tier := default_tier m;
                      overrides := overrides m; invalid_overrides := invalid_overrides m;
                      store_corrupt := store_corrupt m;
                      durability_degraded := Some (negb synced) |};
        disk := d |}.

Definition publish_overrides (o : WriteOutcome) (candidate : list (pystr * pystr)) (w : World)
    : result StoreError World :=
  let! w := save_overrides o candidate w in
  Ok {| manager := adopt candidate false (manager w); disk := disk w |}.

(** [set_request_tier]: the context's value afterwards. *)
Definition set_request_tier (tier : pystr) : option pystr :=
  if valid_tier tier then Some tier else None.

(** [get_tier] under a request-scoped tier. *)
Definition get_tier (request_tier : option pystr) (m : PermissionManager) (user_id : pystr)
    : pystr :=
  match request_tier with
  | Some tier => tier
  | None =>
      if store_corrupt m then guest
      else match dict_get (overrides m) user_id with
           | Some tier => tier
           | None => default (default_tier m) (dict_get (config_tiers m) user_id)
           end
  end.

(** What a mutation raises, next to the store's errors. *)
Inductive TierError : Type :=
| InvalidTier (tier : pystr)
| Store (e : StoreError).

Definition store_error {A} (r : result StoreError A) : result TierError A :=
  match r with Ok a => Ok a | Err e => Err (Store e) end.

(** [set_tier], also behind [async_set_tier] and [async_repair_tier]. *)
Definition set_tier (o : WriteOutcome) (user_id tier : pystr) (w : World)
    : result TierError World :=
  guard! valid_tier tier else InvalidTier tier in
  let! current := store_error (load_overrides_for_write (disk w)) in
  store_error (publish_overrides o (dict_set current user_id tier) w).

Definition repair_tier := set_tier.

(** [async_delete_tier]: whether an entry existed. *)
Definition delete_tier (o : WriteOutcome) (user_id : pystr) (w : World)
    : result TierError (World * bool) :=
  let! current := store_error (load_overrides_for_write (disk w)) in
  match dict_get current user_id with
  | Some _ =>
      let! w := store_error (publish_overrides o (dict_del current user_id) w) in
      Ok (w, true)
  | None => Ok ({| manager := adopt current false (manager w); disk := disk w |}, false)
  end.

(** [filter_tools] of tools with a name. *)
Definition filter_tools {T : Type} (tool_name : T → pystr) (request_tier : option pystr)
    (m : PermissionManager) (user_id : pystr) (tools : list T) : option (list T) :=
  let tier := get_tier request_tier m user_id in
  if bool_decide (tier = admin) then Some tools
  else if bool_decide (tier = guest) then None
  else Some (List.filter (λ t, bool_decide (tool_name t ∈ USER_TIER_TOOLS)) tools).

(** [allowed_tool_names]: no restriction, or the set of names. *)
Definition allowed_tool_names (request_tier : option pystr) (m : PermissionManager)
    (user_id : pystr) : option (list pystr) :=
  let tier := get_tier request_tier m user_id in
  if bool_decide (tier = admin) then None
  else if bool_decide (tier = guest) then Some []
  else Some USER_TIER_TOOLS.

Definition is_admin (request_tier : option pystr) (m : PermissionManager) (user_id : pystr) : bool :=
  bool_decide (get_tier request_tier m user_id = admin).

Definition is_guest (request_tier : option pystr) (m : PermissionManager) (user_id : pystr) : bool :=
  bool_decide (get_tier request_tier m user_id = guest).

(** A mutation attempt, its world unchanged when it raises. *)
Inductive Label : Type :=
| SetTier (o : WriteOutcome) (user_id tier : pystr)
| DeleteTier (o : WriteOutcome) (user_id : pystr).

Definition exec (w : World) (l : Label) : World :=
  match l with
  | SetTier o u t => match set_tier o u t w with Ok w => w | Err _ => w end
  | DeleteTier o u => match delete_tier o u w with Ok (w, _) => w | Err _ => w end
  end.
