(* ===== verification/HostAccess.v ===== *)
(** * Host access (src/src/permissions/host_access.py)

    Which hosts a user may reach: an entry per user, a default policy, the hosts
    that exist now, and the scope a request may carry.  [available] is one reading
    of the runtime inventory. *)

From S2P Require Import Prelude PyStr JsonStore.
Open Scope string_scope.
Open Scope list_scope.
Open Scope Z_scope.
Local Open Scope odin_scope.

(** [allowed_hosts]: [None] inherits all, [Some []] denies all. *)
Record HostAccessEntry : Type := {
  allowed_hosts : option (list pystr);
  default_host : pystr
}.

Definition empty_entry : HostAccessEntry := {| allowed_hosts := None; default_host := [] |}.
Definition deny_all : HostAccessEntry := {| allowed_hosts := Some []; default_host := [] |}.

Definition str_of (v : Json) : option pystr := match v with JStr s => Some s | _ => None end.

Fixpoint strs_of (vs : list Json) : option (list pystr) :=
  match vs with
  | [] => Some []
  | v :: vs => match str_of v, strs_of vs with Some s, Some l => Some (s :: l) | _, _ => None end
  end.

(** ** Validation and decoding *)

Definition entry_ok (v : Json) : bool :=
  match v with
  | JDict entry =>
      match default JNull (dict_get entry (lit "allowed_hosts")) with
      | JNull => true
      | JList hosts => match strs_of hosts with Some _ => true | None => false end
      | _ => false
      end
      && match default (JStr []) (dict_get entry (lit "default_host")) with
         | JStr _ => true
         | _ => false
         end
  | _ => false
  end.

Definition host_access_ok (data : list (pystr * Json)) : bool :=
  let default_policy := default (JDict []) (dict_get data (lit "default_policy")) in
  match default (JDict []) (dict_get data (lit "users")) with
  | JDict users =>
      match default_policy with JDict _ => true | _ => false end
      && entry_ok default_policy && forallb (λ kv, entry_ok kv.2) users
  | _ => false
  end.

Definition entry_to_dict (e : HostAccessEntry) : Json :=
  JDict [(lit "allowed_hosts", match allowed_hosts e with
                               | None => JNull
                               | Some hosts => JList (JStr <$> hosts)
                               end);
         (lit "default_host", JStr (default_host e))].

Definition entry_from_dict (v : Json) : HostAccessEntry :=
  let data := default [] (kvs_of v) in
  {| allowed_hosts := match dict_get data (lit "allowed_hosts") with
                      | Some (JList hosts) => strs_of hosts
                      | _ => None
                      end;
     default_host := default [] (dict_get data (lit "default_host") ≫= str_of) |}.

(** [_decode] of a validated file. *)
Definition decode (data : list (pystr * Json))
    : list (pystr * HostAccessEntry) * HostAccessEntry :=
  let users := default [] (dict_get data (lit "users") ≫= kvs_of) in
  ((λ kv, (kv.1, entry_from_dict kv.2)) <$> users,
   entry_from_dict (default (JDict []) (dict_get data (lit "default_policy")))).

Definition encode (users : list (pystr * HostAccessEntry)) (default_policy : HostAccessEntry) : Json :=
  JDict [(lit "default_policy", entry_to_dict default_policy);
         (lit "users", JDict ((λ kv, (kv.1, entry_to_dict kv.2)) <$> users))].

(** ** The manager *)

Record HostAccessManager : Type := {
  users : list (pystr * HostAccessEntry);
  default_policy : HostAccessEntry;
  store_corrupt : bool;
  durability_degraded : option bool
}.

Record World : Type := { manager : HostAccessManager; disk : Disk }.

Definition load (d : Disk) : HostAccessManager :=
  let '(data, ok) := load_json_store_safe host_access_ok d in
  if ok then
    let '(us, dp) := decode data in
    {| users := us; default_policy := dp; store_corrupt := false; durability_degraded := None |}
  else {| users := []; default_policy := deny_all; store_corrupt := true;
          durability_degraded := None |}.

Definition create (d : Disk) : World := {| manager := load d; disk := d |}.

Definition load_for_write (d : Disk)
    : result StoreError (list (pystr * HostAccessEntry) * HostAccessEntry) :=
  let! data := load_json_store host_access_ok d in
  Ok (decode data).

(** Adoption of policy read from, or just written to, the file. *)
Definition adopt (us : list (pystr * HostAccessEntry)) (dp : HostAccessEntry)
    (degraded : option bool) : HostAccessManager :=
  {| users := us; default_policy := dp; store_corrupt := false; durability_degraded := degraded |}.

(** [_save] then the assignments that follow it. *)
Definition save (o : WriteOutcome) (us : list (pystr * HostAccessEntry)) (dp : HostAccessEntry)
    (w : World) : result StoreError World :=
  let! (d, synced) := write_private_atomic o (encode us dp) in
  Ok {| manager := adopt us dp (Some (negb synced)); disk := d |}.

Definition get_entry (m : HostAccessManager) (user_id : pystr) : HostAccessEntry :=
  default (default_policy m) (dict_get (users m) user_id).

Definition has_user_entry (m : HostAccessManager) (user_id : pystr) : bool :=
  match dict_get (users m) user_id with Some _ => true | None => false end.

(** [[h for h in hosts if h in among]] *)
Definition among (hosts allowed : list pystr) : list pystr :=
  List.filter (λ h, bool_decide (h ∈ allowed)) hosts.

Definition get_allowed_hosts (scope : option (list pystr)) (available : list pystr)
    (m : HostAccessManager) (user_id : pystr) : list pystr :=
  if store_corrupt m then []
  else
    match scope, has_user_entry m user_id with
    | Some s, false => among s available
    | _, _ =>
        let base := match allowed_hosts (get_entry m user_id) with
                    | None => available
                    | Some hosts => among hosts available
                    end in
        match scope with Some s => among base s | None => base end
    end.

Definition mem (h : pystr) (hosts : list pystr) : bool := bool_decide (h ∈ hosts).

Definition get_default_host (scope : option (list pystr)) (request_default : pystr)
    (available : list pystr) (m : HostAccessManager) (user_id : pystr) : pystr :=
  if store_corrupt m then []
  else if nonempty request_default && mem request_default available
          && mem request_default (get_allowed_hosts scope available m user_id)
  then request_default
  else
    match scope, has_user_entry m user_id with
    | Some s, false => if mem request_default (among s available) then request_default else []
    | _, _ =>
        let h := default_host (get_entry m user_id) in
        if nonempty h && mem h available
           && match scope with None => true | Some s => mem h s end
        then h else []
    end.

Definition is_host_allowed (scope : option (list pystr)) (available : list pystr)
    (m : HostAccessManager) (user_id host : pystr) : bool :=
  mem host (get_allowed_hosts scope available m user_id).

Definition list_users (m : HostAccessManager) : list (pystr * Json) :=
  (λ kv, (kv.1, entry_to_dict kv.2)) <$> users m.

(** ** Mutations *)

(** The entry [set_user] stores. *)
Definition user_entry (available : list pystr) (allowed : option (list pystr)) (h : pystr)
    : HostAccessEntry :=
  let valid := (λ hosts, among hosts available) <$> allowed in
  let h :=
    match valid with
    | None => h
    | Some hosts =>
        if nonempty h && negb (mem h hosts)
        then match hosts with [] => [] | first :: _ => first end
        else h
    end in
  {| allowed_hosts := valid; default_host := if nonempty h && negb (mem h available) then [] else h |}.

Definition set_user (o : WriteOutcome) (available : list pystr) (user_id : pystr)
    (allowed : option (list pystr)) (h : pystr) (w : World) : result StoreError World :=
  let! (us, dp) := load_for_write (disk w) in
  save o (dict_set us user_id (user_entry available allowed h)) dp w.

(** [delete_user_entry]: the removed entry; [delete_user] asks whether there was one. *)
Definition delete_user_entry (o : WriteOutcome) (user_id : pystr) (w : World)
    : result StoreError (World * option HostAccessEntry) :=
  let! (us, dp) := load_for_write (disk w) in
  match dict_get us user_id with
  | Some previous =>
      let! w := save o (dict_del us user_id) dp w in
      Ok (w, Some previous)
  | None =>
      Ok ({| manager := adopt us dp (durability_degraded (manager w)); disk := disk w |}, None)
  end.

Definition delete_user (o : WriteOutcome) (user_id : pystr) (w : World)
    : result StoreError (World * bool) :=
  let! (w, previous) := delete_user_entry o user_id w in
  Ok (w, match previous with Some _ => true | None => false end).

(** The policy [set_default_policy] stores. *)
Definition policy_entry (available : list pystr) (allowed : option (list pystr)) (h : pystr)
    : HostAccessEntry :=
  let valid := (λ hosts, among hosts available) <$> allowed in
  let h := if nonempty h && negb (mem h available) then [] else h in
  {| allowed_hosts := valid;
     default_host :=
       match valid with
       | None => h
       | Some hosts =>
           if nonempty h && negb (mem h hosts)
           then match hosts with [] => [] | first :: _ => first end
           else h
       end |}.

Definition set_default_policy (o : WriteOutcome) (available : list pystr)
    (allowed : option (list pystr)) (h : pystr) (w : World) : result StoreError World :=
  let! (us, _) := load_for_write (disk w) in
  save o us (policy_entry available allowed h) w.

Inductive Label : Type :=
| SetUser (o : WriteOutcome) (available : list pystr) (user_id : pystr)
    (allowed : option (list pystr)) (h : pystr)
| DeleteUser (o : WriteOutcome) (user_id : pystr)
| SetDefault (o : WriteOutcome) (available : list pystr) (allowed : option (list pystr)) (h : pystr).

Definition exec (w : World) (l : Label) : World :=
  match l with
  | SetUser o av u al h => match set_user o av u al h w with Ok w => w | Err _ => w end
  | DeleteUser o u => match delete_user_entry o u w with Ok (w, _) => w | Err _ => w end
  | SetDefault o av al h => match set_default_policy o av al h w with Ok w => w | Err _ => w end
  end.
