(* ===== verification/AccessTheory.v ===== *)
(** * Permission tiers and host access: theorems

    Damaged policy files never grant anything and are never overwritten; what a
    mutation writes is what the next start reads; effective hosts stay within every
    bound that applies. *)

From S2P Require Import Prelude PyStr PyLib JsonStore.
From S2P Require Permissions HostAccess.
Open Scope string_scope.
Open Scope list_scope.
Open Scope Z_scope.

Module Tiers.
Import Permissions.

Lemma tiers_of_json tiers : tiers_of ((λ kv, (kv.1, JStr kv.2)) <$> tiers) = tiers.
Proof. induction tiers as [|[u t] tiers IH]; [done|]. simpl. by f_equal. Qed.

Lemma overrides_ok_json (tiers : list (pystr * pystr)) :
  overrides_ok ((λ kv, (kv.1, JStr kv.2)) <$> tiers) = true.
Proof. by induction tiers. Qed.

Lemma load_holds tiers :
  load_json_store overrides_ok (Holds (json_of_tiers tiers))
  = Ok ((λ kv, (kv.1, JStr kv.2)) <$> tiers).
Proof. simpl. by rewrite overrides_ok_json. Qed.

Lemma dict_get_filter {V : Type} (f : V → bool) (d : list (pystr * V)) k v :
  NoDup d.*1 →
  dict_get (List.filter (λ kv, f kv.2) d) k = Some v ↔ dict_get d k = Some v ∧ f v = true.
Proof.
  induction d as [|[k' v'] d IH]; simpl; intros Hnd; [naive_solver|].
  apply NoDup_cons in Hnd as [Hk Hnd]. specialize (IH Hnd).
  assert (Hno : ∀ x, dict_get d k' ≠ Some x).
  { intros x Hx%dict_get_Some_elem. apply Hk. by apply (list_elem_of_fmap_2 fst) in Hx. }
  destruct (f v') eqn:Hf; simpl;
    destruct (bool_decide_reflect (k = k')) as [->|]; try exact IH.
  - split; [intros [= ->]; done|by intros [[= ->] _]].
  - rewrite IH. split; [by intros [?%Hno _]|]. intros [[= ->] ?]. congruence.
Qed.

(** a damaged override file never elevates anybody.  A manager started on a file
    that is unreadable, not JSON or of the wrong shape treats every user as a guest
    until a write succeeds; and no write can succeed: every mutation is refused and
    the file is left as it was. *)
Theorem corrupt_store_never_elevates config default d ls u :
  corrupt overrides_ok d →
  let w := run exec (create config default d) ls in
  disk w = d ∧ get_tier None (manager w) u = guest.
Proof.
  intros Hd w.
  enough (Hw : disk w = d ∧ store_corrupt (manager w) = true).
  { destruct Hw as [H1 H2]. split; [done|]. unfold get_tier. by rewrite H2. }
  apply (run_invariant exec).
  - unfold create, load_overrides. simpl. by rewrite load_safe_corrupt.
  - intros w' l [Hdisk Hc]. unfold corrupt in Hd. destruct l; simpl; unfold set_tier, delete_tier,
      load_overrides_for_write; rewrite Hdisk; (destruct (load_json_store overrides_ok d); [done|]); simpl.
    + by destruct (valid_tier tier).
    + done.
Qed.

(** The entries of the file, all of them. *)
Definition entries (d : Disk) : list (pystr * pystr) :=
  match load_overrides_for_write d with Ok es => es | Err _ => [] end.

(** a tier change is exact and survives a restart.  After [set_tier] succeeds the
    user has the new tier; every other entry of the file, unrecognized tiers
    included, is still there; and a manager that loads the file again gives every
    user the tier the running one gives. *)
Theorem set_tier_persists o u tier w w' :
  NoDup (entries (disk w)).*1 → set_tier o u tier w = Ok w' →
  get_tier None (manager w') u = tier
  ∧ (∀ v, v ≠ u → dict_get (entries (disk w')) v = dict_get (entries (disk w)) v)
  ∧ (∀ v, get_tier None (load_overrides (disk w') (manager w')) v = get_tier None (manager w') v).
Proof.
  intros Hnd. unfold set_tier, entries in *. destruct (valid_tier tier) eqn:Hv; [|done].
  destruct (load_overrides_for_write (disk w)) as [es|] eqn:Hload; [|done]. simpl.
  destruct o as [|synced]; [done|]. simpl. intros [= <-]. simpl.
  pose proof (dict_set_NoDup es u tier Hnd) as Hnd'.
  split_and!.
  - unfold get_tier. simpl.
    assert (dict_get (valid_overrides (dict_set es u tier)) u = Some tier) as ->; [|done].
    apply (dict_get_filter valid_tier); [done|]. split; [|done].
    by rewrite dict_get_set, bool_decide_refl.
  - intros v Hne. unfold load_overrides_for_write. rewrite load_holds. simpl.
    rewrite tiers_of_json, dict_get_set. by rewrite bool_decide_eq_false_2.
  - intros v. unfold load_overrides, load_json_store_safe. rewrite load_holds. simpl.
    by rewrite tiers_of_json.
Qed.
End Tiers.

Module Hosts.
Import HostAccess.

Lemma elem_of_among h hosts allowed : h ∈ among hosts allowed ↔ h ∈ hosts ∧ h ∈ allowed.
Proof.
  unfold among. rewrite list_elem_of_In, filter_In, <- list_elem_of_In, bool_decide_eq_true. done.
Qed.

Lemma strs_of_json (hosts : list pystr) : strs_of (JStr <$> hosts) = Some hosts.
Proof. induction hosts as [|h hosts IH]; [done|]. simpl. fold (JStr <$> hosts). by rewrite IH. Qed.

Lemma entry_roundtrip e : entry_ok (entry_to_dict e) = true ∧ entry_from_dict (entry_to_dict e) = e.
Proof.
  destruct e as [[hosts|] h]; unfold entry_to_dict, entry_ok, entry_from_dict;
    cbn [allowed_hosts default_host kvs_of default from_option]; unfold id;
    change (dict_get _ (lit "default_host")) with (Some (JStr h)); [|done].
  change (dict_get _ (lit "allowed_hosts")) with (Some (JList (JStr <$> hosts))).
  cbn [from_option]. unfold id. by rewrite strs_of_json.
Qed.

Lemma decode_encode us dp :
  load_for_write (Holds (encode us dp)) = Ok (us, dp).
Proof.
  unfold load_for_write, encode, load_json_store. cbn [kvs_of].
  set (kvs := [_; _]).
  assert (Hd : dict_get kvs (lit "default_policy") = Some (entry_to_dict dp)) by done.
  assert (Hu : dict_get kvs (lit "users") = Some (JDict ((λ kv, (kv.1, entry_to_dict kv.2)) <$> us))) by done.
  assert (Hok : host_access_ok kvs = true).
  { unfold host_access_ok. rewrite Hd, Hu. cbn [from_option]. unfold id.
    rewrite (proj1 (entry_roundtrip dp)). cbn [entry_to_dict andb].
    apply forallb_forall. intros kv (kv' & <- & _)%in_map_iff. apply entry_roundtrip. }
  rewrite Hok. cbn [result_bind]. f_equal. unfold decode. rewrite Hd, Hu. cbn.
  rewrite (proj2 (entry_roundtrip dp)). f_equal.
  rewrite <- list_fmap_compose. clear. induction us as [|[u e] us IH]; [done|].
  simpl. rewrite (proj2 (entry_roundtrip e)). by f_equal.
Qed.

(** an effective host is inside every bound.  A host a user may use exists now,
    is in the request's scope when there is one, and is in the user's own allow-list
    when the user has one, or in the default policy's when the user has no entry and
    the request no scope; with a damaged policy there is none. *)
Theorem effective_hosts_bounded scope available m u h :
  h ∈ get_allowed_hosts scope available m u →
  store_corrupt m = false ∧ h ∈ available
  ∧ (∀ s, scope = Some s → h ∈ s)
  ∧ (∀ e hosts, dict_get (users m) u = Some e → allowed_hosts e = Some hosts → h ∈ hosts)
  ∧ (∀ hosts, dict_get (users m) u = None → scope = None →
       allowed_hosts (default_policy m) = Some hosts → h ∈ hosts).
Proof.
  unfold get_allowed_hosts, has_user_entry, get_entry.
  destruct (store_corrupt m); [by intros ?%not_elem_of_nil|].
  destruct (dict_get (users m) u) as [e|]; destruct scope as [s|]; simpl;
    repeat match goal with |- context [match ?a with Some _ => _ | None => _ end] => destruct a eqn:? end;
    rewrite ?elem_of_among; naive_solver.
Qed.

(** a damaged policy file opens no host.  A manager started on a file that is
    unreadable, not JSON or of the wrong shape allows no host to anybody, has no
    default host, refuses every mutation and leaves the file as it was. *)
Theorem corrupt_policy_denies_hosts d ls scope available u :
  corrupt host_access_ok d →
  let w := run exec (create d) ls in
  disk w = d ∧ get_allowed_hosts scope available (manager w) u = []
  ∧ ∀ rd, get_default_host scope rd available (manager w) u = [].
Proof.
  intros Hd w.
  enough (Hw : disk w = d ∧ store_corrupt (manager w) = true).
  { destruct Hw as [H1 H2]. unfold get_default_host, get_allowed_hosts. rewrite H2. done. }
  apply (run_invariant exec).
  - unfold create, load. simpl. by rewrite load_safe_corrupt.
  - intros w' l [Hdisk Hc]. unfold corrupt in Hd.
    destruct l; simpl; unfold set_user, delete_user_entry, set_default_policy, load_for_write;
      rewrite Hdisk; by destruct (load_json_store host_access_ok d).
Qed.

(** ** Default hosts *)

Definition coherent (e : HostAccessEntry) : Prop :=
  default_host e = [] ∨ match allowed_hosts e with None => True | Some hosts => default_host e ∈ hosts end.

Definition policy_ok (us : list (pystr * HostAccessEntry)) (dp : HostAccessEntry) : Prop :=
  coherent dp ∧ ∀ u e, dict_get us u = Some e → coherent e.

(** The manager is in step with its file, and all entries are coherent. *)
Definition in_step (w : World) : Prop :=
  policy_ok (users (manager w)) (default_policy (manager w))
  ∧ load_for_write (disk w) = Ok (users (manager w), default_policy (manager w)).

Lemma user_entry_coherent available allowed h : coherent (user_entry available allowed h).
Proof.
  unfold coherent, user_entry, mem. simpl. destruct allowed as [hosts|]; simpl; [|by right].
  set (valid := among hosts available).
  repeat case_match; simpl in *; bool_prop; try (by left); try (right; subst; set_solver).
  all: destruct h; [by left|right]; simpl in *; bool_prop; try done.
  all: match goal with H : negb _ = false |- _ => apply negb_false_iff, bool_decide_eq_true in H end; done.
Qed.

Lemma policy_entry_coherent available allowed h : coherent (policy_entry available allowed h).
Proof.
  unfold coherent, policy_entry, mem. simpl. destruct allowed as [hosts|]; simpl; [|by right].
  set (valid := among hosts available). generalize (if nonempty h && negb (bool_decide (h ∈ available)) then [] else h). intros h'.
  destruct h' as [|c h']; simpl; [by left|].
  destruct (bool_decide_reflect (c :: h' ∈ valid)); simpl; [by right|].
  destruct valid; [by left|right]. set_solver.
Qed.

Lemma save_in_step o us dp w w' : policy_ok us dp → save o us dp w = Ok w' → in_step w'.
Proof.
  intros Hp. unfold save. destruct o; [done|]. simpl. intros [= <-].
  split; [done|]. apply decode_encode.
Qed.

Lemma exec_in_step w l : in_step w → in_step (exec w l).
Proof.
  intros Hw. pose proof Hw as [[Hdp Hus] Hload].
  destruct l; simpl; unfold set_user, delete_user_entry, set_default_policy; rewrite Hload; simpl.
  - destruct (save _ _ _ _) eqn:Hs; [|done]. eapply save_in_step; [|exact Hs]. split; [done|].
    intros v e. rewrite dict_get_set. case_bool_decide; [|apply Hus].
    intros [= <-]. apply user_entry_coherent.
  - destruct (dict_get _ user_id) eqn:Hu; simpl.
    + destruct (save _ _ _ _) eqn:Hs; simpl; [|done]. eapply save_in_step; [|exact Hs]. split; [done|].
      intros v e. rewrite dict_get_del. case_bool_decide; [done|apply Hus].
    + by split.
  - destruct (save _ _ _ _) eqn:Hs; [|done]. eapply save_in_step; [|exact Hs].
    split; [apply policy_entry_coherent|done].
Qed.

(** a default host is a host the user may use.  In every state reached from an
    empty store by policy changes, whatever hosts exist now, whatever the request's
    scope and default, [get_default_host] is empty or a host [is_host_allowed]
    accepts for that user. *)
Theorem default_host_is_allowed ls scope rd available u :
  let m := manager (run exec (create Missing) ls) in
  let h := get_default_host scope rd available m u in
  h = [] ∨ is_host_allowed scope available m u h = true.
Proof.
  assert (Hstep : in_step (run exec (create Missing) ls)).
  { apply (run_invariant exec); [|by intros; apply exec_in_step].
    split; [|done]. split; [by left|done]. }
  destruct Hstep as [[Hdp Hus] _]. simpl.
  set (m := manager (run exec (create Missing) ls)) in *.
  assert (Hentry : coherent (get_entry m u)).
  { unfold get_entry. destruct (dict_get (users m) u) eqn:Hu; [by eapply Hus|done]. }
  unfold get_default_host. destruct (store_corrupt m) eqn:Hc; [by left|].
  destruct (nonempty rd && mem rd available && mem rd (get_allowed_hosts scope available m u)) eqn:Hrd.
  { right. bool_prop. done. }
  clear Hrd. unfold is_host_allowed, get_allowed_hosts, mem. rewrite Hc.
  destruct scope as [s|]; [destruct (has_user_entry m u)|].
  2:{ case_bool_decide as Hin; [|by left]. right. by apply bool_decide_eq_true. }
  all: destruct Hentry as [->|Hcoh]; [by left|];
    destruct (nonempty _ && _ && _) eqn:Hb; [|by left]; right; bool_prop;
    apply bool_decide_eq_true;
    destruct (allowed_hosts (get_entry m u)); rewrite ?elem_of_among; tauto.
Qed.
End Hosts.

Module AccessWitness.

Definition alice : pystr := Eval compute in lit "alice".
Definition bob : pystr := Eval compute in lit "bob".

Section tiers.
Import Permissions.

Definition torn : Disk := Holds (JDict [(alice, JInt 1)]).

Lemma corrupt_store_never_elevates_witness :
  get_tier None (manager (run exec (create [(alice, admin)] admin torn)
                            [SetTier (Replaced true) alice admin])) alice = guest.
Proof.
  apply (Tiers.corrupt_store_never_elevates [(alice, admin)] admin torn
           [SetTier (Replaced true) alice admin] alice).
  reflexivity.
Defined.

Definition w0 : World := create [] user (Holds (JDict [(bob, JStr (lit "owner"))])).
Definition w1 : World := exec w0 (SetTier (Replaced false) alice admin).

Lemma w0_entries : NoDup (Tiers.entries (disk w0)).*1.
Proof. apply NoDup_singleton. Qed.

Lemma set_tier_persists_witness :
  get_tier None (manager w1) alice = admin
  ∧ dict_get (Tiers.entries (disk w1)) bob = Some (lit "owner").
Proof.
  destruct (Tiers.set_tier_persists (Replaced false) alice admin w0 w1 w0_entries eq_refl)
    as (H1 & H2 & _).
  split; [exact H1|]. rewrite (H2 bob); [reflexivity|discriminate].
Defined.
End tiers.

Section hosts.
Import HostAccess.

Definition web : pystr := Eval compute in lit "web".
Definition db : pystr := Eval compute in lit "db".
Definition h1 : World := exec (create Missing) (SetUser (Replaced true) [web; db] alice (Some [web]) web).

Lemma effective_hosts_bounded_witness :
  web ∈ get_allowed_hosts (Some [web; db]) [web] (manager h1) alice ∧ web ∈ [web].
Proof.
  assert (Hin : web ∈ get_allowed_hosts (Some [web; db]) [web] (manager h1) alice) by left.
  destruct (Hosts.effective_hosts_bounded (Some [web; db]) [web] (manager h1) alice web Hin)
    as (_ & Hav & _).
  exact (conj Hin Hav).
Defined.

Lemma corrupt_policy_denies_hosts_witness :
  get_allowed_hosts None [web] (manager (run exec (create Malformed)
    [SetDefault (Replaced true) [web] None web])) alice = [].
Proof.
  apply (Hosts.corrupt_policy_denies_hosts Malformed
           [SetDefault (Replaced true) [web] None web] None [web] alice).
  reflexivity.
Defined.
End hosts.

End AccessWitness.
