(* ===== verification/Bulkhead.v ===== *)
(** * Bulkheads (src/src/tools/bulkhead.py)

    A concurrency limiter around one [asyncio.Semaphore].  A task enters, may wait
    for a slot, runs, and leaves; a waiting task may be cancelled.  The semaphore is
    the standard library's (Python 3.12): [release] hands the slot to the oldest
    waiter, which runs when the event loop resumes it.  Every step below is what
    runs between two suspension points. *)

From S2P Require Import Prelude.
Open Scope string_scope.
Open Scope list_scope.
Open Scope Z_scope.
Local Open Scope odin_scope.

Definition Task : Type := nat.

(** [asyncio.Semaphore]: the free slots, the waiters in order, and the waiters that
    were handed a slot and are not resumed yet. *)
Record Semaphore : Type := {
  value : nat;
  waiters : list Task;
  granted : list Task
}.

Definition locked (s : Semaphore) : bool :=
  bool_decide (value s = 0%nat) || negb (bool_decide (waiters s = []))
  || negb (bool_decide (granted s = [])).

Definition wake_up_next (s : Semaphore) : Semaphore :=
  match waiters s with
  | [] => s
  | t :: ts => {| value := pred (value s); waiters := ts; granted := granted s ++ [t] |}
  end.

Definition release (s : Semaphore) : Semaphore :=
  wake_up_next {| value := S (value s); waiters := waiters s; granted := granted s |}.

(** The end of [acquire]: every free slot goes to a waiter that arrived meanwhile. *)
Fixpoint wake_all (slots : nat) (s : Semaphore) : Semaphore :=
  match slots, waiters s with
  | S slots, _ :: _ => wake_all slots (wake_up_next s)
  | _, _ => s
  end.

Definition settle (s : Semaphore) : Semaphore := wake_all (value s) s.

(** Removal of one task from a list of tasks. *)
Definition without (t : Task) (ts : list Task) : list Task :=
  List.filter (λ u, negb (bool_decide (u = t))) ts.

Record Bulkhead : Type := {
  name : string;
  max_concurrent : nat;
  max_queued : Z;
  semaphore : Semaphore;
  running : list Task;
  active : Z;
  queued : Z;
  total : Z;
  rejected : Z;
  errors : Z;
  last_rejection : option Z;
  last_error : option Z
}.

(** [BulkheadFullError]: the name and the limits of the message. *)
Inductive BulkheadError : Type :=
| BulkheadFullError (bulkhead_name : string) (concurrent : nat) (depth : Z).

Definition create (n : string) (concurrent : nat) (depth : Z) : Bulkhead :=
  {| name := n; max_concurrent := concurrent; max_queued := depth;
     semaphore := {| value := concurrent; waiters := []; granted := [] |};
     running := []; active := 0; queued := 0; total := 0; rejected := 0; errors := 0;
     last_rejection := None; last_error := None |}.

(** The counters and the semaphore after a change of who waits and who runs. *)
Definition update (s : Semaphore) (run : list Task) (a q t e : Z) (le : option Z) (b : Bulkhead)
    : Bulkhead :=
  {| name := name b; max_concurrent := max_concurrent b; max_queued := max_queued b;
     semaphore := s; running := run; active := a; queued := q; total := t;
     rejected := rejected b; errors := e; last_rejection := last_rejection b;
     last_error := le |}.

(** A slot is obtained: [queued] down, [active] and [total] up. *)
Definition start (t : Task) (s : Semaphore) (q : Z) (b : Bulkhead) : Bulkhead :=
  update s (t :: running b) (active b + 1) (q - 1) (total b + 1) (errors b) (last_error b) b.

(** [acquire] up to its first suspension: rejected, running, or waiting. *)
Definition enter (t : Task) (now : Z) (b : Bulkhead) : Bulkhead * result BulkheadError bool :=
  if (0 <? max_queued b) && (max_queued b <=? queued b) then
    ({| name := name b; max_concurrent := max_concurrent b; max_queued := max_queued b;
        semaphore := semaphore b; running := running b; active := active b; queued := queued b;
        total := total b; rejected := rejected b + 1; errors := errors b;
        last_rejection := Some now; last_error := last_error b |},
     Err (BulkheadFullError (name b) (max_concurrent b) (max_queued b)))
  else
    let q := queued b + 1 in
    let s := semaphore b in
    if locked s then
      (update {| value := value s; waiters := waiters s ++ [t]; granted := granted s |}
         (running b) (active b) q (total b) (errors b) (last_error b) b, Ok false)
    else
      (start t {| value := pred (value s); waiters := waiters s; granted := granted s |} q b,
       Ok true).

(** The event loop resumes a waiter that was handed a slot. *)
Definition resume (t : Task) (b : Bulkhead) : Bulkhead :=
  let s := semaphore b in
  if bool_decide (t ∈ granted s)
  then start t (settle {| value := value s; waiters := waiters s;
                          granted := without t (granted s) |}) (queued b) b
  else b.

(** A waiting task is cancelled; a slot it was already handed goes to the next. *)
Definition cancel_wait (t : Task) (b : Bulkhead) : Bulkhead :=
  let s := semaphore b in
  let leave s := update s (running b) (active b) (queued b - 1) (total b) (errors b) (last_error b) b in
  if bool_decide (t ∈ granted s)
  then leave (settle {| value := S (value s); waiters := waiters s;
                       granted := without t (granted s) |})
  else if bool_decide (t ∈ waiters s)
  then leave (settle {| value := value s; waiters := without t (waiters s);
                       granted := granted s |})
  else b.

(** The body of the [async with] ends: [failed] for an [Exception], which is counted;
    a cancellation is not. *)
Definition leave (t : Task) (failed : bool) (now : Z) (b : Bulkhead) : Bulkhead :=
  if bool_decide (t ∈ running b) then
    update (release (semaphore b)) (without t (running b)) (active b - 1) (queued b) (total b)
      (if failed then errors b + 1 else errors b) (if failed then Some now else last_error b) b
  else b.

Record Metrics : Type := {
  m_name : string; m_max_concurrent : nat; m_max_queued : Z; m_active : Z; m_queued : Z;
  m_total : Z; m_rejected : Z; m_errors : Z
}.

Definition get_metrics (b : Bulkhead) : Metrics :=
  {| m_name := name b; m_max_concurrent := max_concurrent b; m_max_queued := max_queued b;
     m_active := active b; m_queued := queued b; m_total := total b; m_rejected := rejected b;
     m_errors := errors b |}.

(** ** The registry *)

Definition BulkheadRegistry : Type := list (string * Bulkhead).

Fixpoint get (n : string) (r : BulkheadRegistry) : option Bulkhead :=
  match r with
  | [] => None
  | (m, b) :: r => if bool_decide (m = n) then Some b else get n r
  end.

Fixpoint put (n : string) (b : Bulkhead) (r : BulkheadRegistry) : BulkheadRegistry :=
  match r with
  | [] => [(n, b)]
  | (m, c) :: r => if bool_decide (m = n) then (m, b) :: r else (m, c) :: put n b r
  end.

Definition register (n : string) (concurrent : nat) (depth : Z) (r : BulkheadRegistry)
    : BulkheadRegistry * Bulkhead :=
  let b := create n concurrent depth in (put n b r, b).

Definition get_or_create (n : string) (concurrent : nat) (depth : Z) (r : BulkheadRegistry)
    : BulkheadRegistry * Bulkhead :=
  match get n r with
  | Some b => (r, b)
  | None => register n concurrent depth r
  end.

Definition names (r : BulkheadRegistry) : list string := r.*1.
Definition get_all_metrics (r : BulkheadRegistry) : list (string * Metrics) :=
  (λ nb, (nb.1, get_metrics nb.2)) <$> r.

(** ** Steps *)

Inductive Label : Type :=
| Enter (t : Task) (now : Z)
| Resume (t : Task)
| CancelWait (t : Task)
| Leave (t : Task) (failed : bool) (now : Z).

(** A task enters only once at a time: it is neither waiting nor running. *)
Definition outside (t : Task) (b : Bulkhead) : bool :=
  bool_decide (t ∉ running b ∧ t ∉ waiters (semaphore b) ∧ t ∉ granted (semaphore b)).

Definition exec (b : Bulkhead) (l : Label) : Bulkhead :=
  match l with
  | Enter t now => if outside t b then (enter t now b).1 else b
  | Resume t => resume t b
  | CancelWait t => cancel_wait t b
  | Leave t failed now => leave t failed now b
  end.

(** ** Slots are conserved *)

Lemma without_absent t ts : t ∉ ts → without t ts = ts.
Proof.
  induction ts as [|u ts IH]; simpl; [done|]. rewrite not_elem_of_cons. intros [Hne Ht].
  rewrite bool_decide_eq_false_2 by done. simpl. by rewrite IH.
Qed.

Lemma without_length t ts : NoDup ts → t ∈ ts → S (length (without t ts)) = length ts.
Proof.
  induction ts as [|u ts IH]; [by intros _ ?%not_elem_of_nil|].
  intros [Hu Hnd]%NoDup_cons Ht. simpl. case_bool_decide as E; simpl.
  - subst u. by rewrite without_absent.
  - rewrite IH; [done..|]. set_solver.
Qed.

Lemma elem_of_without u t ts : u ∈ without t ts ↔ u ∈ ts ∧ u ≠ t.
Proof.
  unfold without. rewrite list_elem_of_In, filter_In, <- list_elem_of_In.
  rewrite negb_true_iff, bool_decide_eq_false. done.
Qed.

Lemma without_NoDup t ts : NoDup ts → NoDup (without t ts).
Proof. intros H. apply NoDup_ListNoDup, List.NoDup_filter. by apply NoDup_ListNoDup. Qed.

(** The bookkeeping of the slots and of the counters. *)
Definition balanced (b : Bulkhead) : Prop :=
  let s := semaphore b in
  NoDup (running b ++ waiters s ++ granted s)
  ∧ (value s + length (running b) + length (granted s) = max_concurrent b)%nat
  ∧ active b = Z.of_nat (length (running b))
  ∧ queued b = Z.of_nat (length (waiters s) + length (granted s))
  ∧ (waiters s ≠ [] → value s = 0%nat ∨ granted s ≠ [])
  ∧ (0 < max_queued b → queued b <= max_queued b).

Lemma NoDup_app3 (a b c : list Task) :
  NoDup (a ++ b ++ c) ↔ NoDup a ∧ NoDup b ∧ NoDup c
    ∧ (∀ t, t ∈ a → t ∉ b) ∧ (∀ t, t ∈ a → t ∉ c) ∧ (∀ t, t ∈ b → t ∉ c).
Proof. rewrite !NoDup_app. set_solver. Qed.

(** [settle] moves waiters to the granted ones, in order, one per free slot. *)
Lemma wake_all_spec n s :
  ∃ moved rest, waiters s = moved ++ rest ∧ waiters (wake_all n s) = rest
    ∧ granted (wake_all n s) = granted s ++ moved
    ∧ value (wake_all n s) = (value s - length moved)%nat ∧ (length moved <= n)%nat
    ∧ (rest = [] ∨ length moved = n).
Proof.
  revert s. induction n as [|n IH]; intros s.
  { exists [], (waiters s). simpl. rewrite app_nil_r. split_and!; [done|done|done|lia|lia|by right]. }
  simpl. destruct (waiters s) as [|t ts] eqn:Hw.
  { exists [], []. rewrite !app_nil_r. simpl. split_and!; [done|done|done|lia|lia|by left]. }
  destruct (IH (wake_up_next s)) as (moved & rest & H1 & H2 & H3 & H4 & H5 & H6).
  assert (Hn : wake_up_next s
    = {| value := pred (value s); waiters := ts; granted := granted s ++ [t] |})
    by (unfold wake_up_next; by rewrite Hw).
  rewrite Hn in *. simpl in *.
  exists (t :: moved), rest. rewrite H2, H3, H4, H1. simpl.
  split_and!; [done|done|by rewrite <- app_assoc|lia|lia|]. destruct H6; [by left|right; lia].
Qed.

Lemma settle_spec s :
  ∃ moved rest, waiters s = moved ++ rest ∧ waiters (settle s) = rest
    ∧ granted (settle s) = granted s ++ moved
    ∧ (value (settle s) + length moved)%nat = value s
    ∧ (rest = [] ∨ value (settle s) = 0%nat).
Proof.
  destruct (wake_all_spec (value s) s) as (moved & rest & H1 & H2 & H3 & H4 & H5 & H6).
  exists moved, rest. unfold settle. split_and!; [done..|lia|]. destruct H6; [by left|right; lia].
Qed.

Lemma release_spec s :
  (∃ t ts, waiters s = t :: ts ∧ waiters (release s) = ts ∧ granted (release s) = granted s ++ [t]
           ∧ value (release s) = value s)
  ∨ (waiters s = [] ∧ waiters (release s) = [] ∧ granted (release s) = granted s
     ∧ value (release s) = S (value s)).
Proof.
  unfold release, wake_up_next. simpl. destruct (waiters s) as [|t ts]; [by right|left].
  exists t, ts. done.
Qed.

Lemma create_balanced n c d : balanced (create n c d).
Proof. unfold balanced. simpl. split_and!; try done; [constructor|lia|lia]. Qed.

Lemma enter_balanced t now b : outside t b = true → balanced b → balanced (enter t now b).1.
Proof.
  intros Ho%bool_decide_eq_true (Hnd & Hv & Ha & Hq & Hw & Hmax). unfold enter.
  destruct ((0 <? max_queued b) && (max_queued b <=? queued b)) eqn:Hfull; [done|].
  assert (Hroom : 0 < max_queued b → queued b + 1 <= max_queued b).
  { intros Hp. apply andb_false_iff in Hfull as [H%Z.ltb_ge|H%Z.leb_gt]; lia. }
  apply NoDup_app3 in Hnd as (H1 & H2 & H3 & H4 & H5 & H6). destruct Ho as (O1 & O2 & O3).
  destruct (locked (semaphore b)) eqn:Hl; unfold balanced; simpl.
  - split_and!; try done; rewrite ?length_app; simpl; try lia.
    + apply NoDup_app3. split_and!; try done; [|set_solver..].
      apply NoDup_app. split_and!; [done|set_solver|apply NoDup_singleton].
    + intros _. unfold locked in Hl. rewrite !orb_true_iff in Hl.
      destruct Hl as [[Hl|Hl]|Hl]; bool_prop; auto.
  - unfold locked in Hl. bool_prop.
    split_and!; try lia.
    + apply (NoDup_app3 (t :: running b)). split_and!; try done; [by apply NoDup_cons|set_solver..].
    + intros Hne. by destruct Hne.
Qed.

Lemma settled_balanced b s run a q t e le :
  ∀ v ws gs, s = settle {| value := v; waiters := ws; granted := gs |} →
  NoDup (run ++ ws ++ gs) → (v + length run + length gs = max_concurrent b)%nat →
  a = Z.of_nat (length run) → q = Z.of_nat (length ws + length gs) →
  (0 < max_queued b → q <= max_queued b) →
  balanced (update s run a q t e le b).
Proof.
  intros v ws gs -> Hnd Hv Ha Hq Hmax.
  destruct (settle_spec {| value := v; waiters := ws; granted := gs |})
    as (moved & rest & H1 & H2 & H3 & H4 & H5). simpl in *.
  unfold balanced. simpl. rewrite H2, H3, !length_app. subst ws. rewrite length_app in Hq.
  split_and!; try lia.
  - eapply NoDup_Permutation_proper; [|exact Hnd]. solve_Permutation.
  - intros Hne. destruct H5 as [->|H5]; [done|by left].
Qed.

Lemma resume_balanced t b : balanced b → balanced (resume t b).
Proof.
  intros (Hnd & Hv & Ha & Hq & Hw & Hmax). unfold resume, start.
  case_bool_decide as Ht; [|done].
  apply NoDup_app3 in Hnd as (H1 & H2 & H3 & H4 & H5 & H6).
  pose proof (without_length _ _ H3 Ht) as Hlen.
  eapply settled_balanced; [reflexivity|..]; simpl; try lia.
  apply (NoDup_app3 (t :: running b)). split_and!; try done.
  - apply NoDup_cons. split; [|done]. intros Hr. by apply (H5 t).
  - by apply without_NoDup.
  - intros u [->|Hu]%elem_of_cons; [|by apply H4]. intros Hx. by apply (H6 t).
  - intros u [->|Hu]%elem_of_cons; rewrite elem_of_without; naive_solver.
  - intros u Hu. rewrite elem_of_without. naive_solver.
Qed.

Lemma cancel_balanced t b : balanced b → balanced (cancel_wait t b).
Proof.
  intros (Hnd & Hv & Ha & Hq & Hw & Hmax). unfold cancel_wait.
  apply NoDup_app3 in Hnd as (H1 & H2 & H3 & H4 & H5 & H6).
  case_bool_decide as Hg; [|case_bool_decide as Hwt; [|by unfold balanced; rewrite NoDup_app3]].
  - pose proof (without_length _ _ H3 Hg). eapply settled_balanced; [reflexivity|..]; try lia.
    apply NoDup_app3. split_and!; try done; [by apply without_NoDup|..];
      intros u Hu; rewrite elem_of_without; naive_solver.
  - pose proof (without_length _ _ H2 Hwt). eapply settled_balanced; [reflexivity|..]; try lia.
    apply NoDup_app3. split_and!; try done; [by apply without_NoDup|..];
      intros u; rewrite elem_of_without; naive_solver.
Qed.

Lemma leave_balanced t f now b : balanced b → balanced (leave t f now b).
Proof.
  intros (Hnd & Hv & Ha & Hq & Hw & Hmax). unfold leave. case_bool_decide as Ht; [|done].
  apply NoDup_app3 in Hnd as (H1 & H2 & H3 & H4 & H5 & H6).
  pose proof (without_length _ _ H1 Ht). unfold balanced. simpl.
  assert (Hnd' : NoDup (without t (running b) ++ waiters (semaphore b) ++ granted (semaphore b))).
  { apply NoDup_app3. split_and!; try done; [by apply without_NoDup|..];
      intros u; rewrite elem_of_without; naive_solver. }
  destruct (release_spec (semaphore b)) as [(u & ts & E1 & E2 & E3 & E4)|(E1 & E2 & E3 & E4)];
    rewrite E2, E3, E4; rewrite E1 in *; rewrite ?length_app; simpl in *.
  - split_and!; try lia.
    + eapply NoDup_Permutation_proper; [|exact Hnd']. solve_Permutation.
    + intros _. right. by destruct (granted (semaphore b)).
  - split_and!; try done; lia.
Qed.

(** a bulkhead conserves its slots.  Along any interleaving of arrivals,
    resumptions, cancellations and departures, at most [max_concurrent] tasks run,
    [active] and [queued] count them and the waiting ones, the queue stays within
    its depth, every slot is free, taken or handed over, and a task waits only while
    every slot is taken or a handed slot is about to be resumed. *)
Theorem bulkhead_conserves_slots n c d ls :
  let b := run exec (create n c d) ls in
  let s := semaphore b in
  0 <= active b <= Z.of_nat c
  ∧ active b = Z.of_nat (length (running b))
  ∧ queued b = Z.of_nat (length (waiters s) + length (granted s))
  ∧ (0 < d → queued b <= d)
  ∧ (value s + length (running b) + length (granted s) = c)%nat
  ∧ (waiters s ≠ [] → granted s = [] → length (running b) = c).
Proof.
  assert (H : ∀ ls, balanced (run exec (create n c d) ls)
    ∧ max_concurrent (run exec (create n c d) ls) = c ∧ max_queued (run exec (create n c d) ls) = d).
  { clear. intros ls. apply (run_invariant exec); [by split; [apply create_balanced|]|].
    intros b l (Hb & Hc & Hd). split.
    - destruct l; simpl; [|by apply resume_balanced|by apply cancel_balanced|by apply leave_balanced].
      destruct (outside t b) eqn:Ho; [by apply enter_balanced|done].
    - destruct l; simpl; unfold enter, resume, cancel_wait, leave; repeat case_match; done. }
  destruct (H ls) as ((_ & Hv & Ha & Hq & Hw & Hmax) & Hc & Hd).
  set (b := run exec (create n c d) ls) in *. rewrite Hc in Hv. rewrite Hd in Hmax. simpl.
  split_and!; try done; try lia. intros Hne Hg. destruct (Hw Hne) as [H0|]; [|done].
  rewrite H0, Hg in Hv. simpl in Hv. lia.
Qed.
