(* ===== verification/Planning.v ===== *)
(** * Execution plans (src/src/planning/store.py)

    Plans wait for approval per user and channel.  The store is a dict in insertion
    order and the file behind it; [io = false] is a failed save, which raises after
    the change in memory and leaves the file.  [J] is the type of a step.  A file
    that does not load leaves the store empty, as the code does. *)

From S2P Require Import Prelude.
Open Scope string_scope.
Open Scope list_scope.
Open Scope Z_scope.
Local Open Scope odin_scope.

Definition DEFAULT_EXPIRY_SECONDS : Z := 86400 * 1000.

Inductive PlanStatus : Type := pending | executing | completed | expired | cancelled.

#[export] Instance PlanStatus_eq_dec : EqDecision PlanStatus.
Proof. solve_decision. Defined.

Section planning.
Context {J : Type}.

Record ExecutionPlan : Type := {
  plan_id : string;
  user_id : string;
  channel_id : string;
  original_request : string;
  summary : string;
  steps : list J;
  created_at : Z;
  expires_at : Z;
  status : PlanStatus
}.

(** The dict of plans and the content of the file, [None] when there is none or it
    does not load. *)
Record PlanStore : Type := {
  plans : list (string * ExecutionPlan);
  file : option (list (string * ExecutionPlan))
}.

Definition is_expired (now : Z) (p : ExecutionPlan) : bool := expires_at p <? now.

Definition with_status (s : PlanStatus) (p : ExecutionPlan) : ExecutionPlan :=
  {| plan_id := plan_id p; user_id := user_id p; channel_id := channel_id p;
     original_request := original_request p; summary := summary p; steps := steps p;
     created_at := created_at p; expires_at := expires_at p; status := s |}.

Fixpoint get (pid : string) (ps : list (string * ExecutionPlan)) : option ExecutionPlan :=
  match ps with
  | [] => None
  | (q, p) :: ps => if bool_decide (q = pid) then Some p else get pid ps
  end.

Fixpoint put (pid : string) (p : ExecutionPlan) (ps : list (string * ExecutionPlan))
    : list (string * ExecutionPlan) :=
  match ps with
  | [] => [(pid, p)]
  | (q, p') :: ps => if bool_decide (q = pid) then (q, p) :: ps else (q, p') :: put pid p ps
  end.

(** [_load], at construction. *)
Definition boot (f : option (list (string * ExecutionPlan))) : PlanStore :=
  {| plans := default [] f; file := f |}.

(** [_save]: [None] when it raises. *)
Definition save (io : bool) (st : PlanStore) : PlanStore * bool :=
  (if io then {| plans := plans st; file := Some (plans st) |} else st, io).

(** [_prune_expired]: pending plans past their expiry; saves when there was one. *)
Definition prunable (now : Z) (p : ExecutionPlan) : bool :=
  is_expired now p && bool_decide (status p = pending).

Definition prune_expired (io : bool) (now : Z) (st : PlanStore) : PlanStore * bool :=
  if existsb (λ qp, prunable now qp.2) (plans st) then
    save io {| plans := (λ qp, (qp.1, if prunable now qp.2 then with_status expired qp.2 else qp.2))
                          <$> plans st;
               file := file st |}
  else (st, true).

(** [create]; the plan's id ends with a random suffix and is an argument. *)
Definition create (io1 io2 : bool) (pid uid cid request summ : string) (ss : list J)
    (expiry : Z) (now : Z) (st : PlanStore) : PlanStore * option ExecutionPlan :=
  let p := {| plan_id := pid; user_id := uid; channel_id := cid; original_request := request;
              summary := summ; steps := ss; created_at := now; expires_at := now + expiry;
              status := pending |} in
  let st := {| plans := put pid p (plans st); file := file st |} in
  match prune_expired io1 now st with
  | (st, false) => (st, None)
  | (st, true) =>
      match save io2 st with
      | (st, true) => (st, Some p)
      | (st, false) => (st, None)
      end
  end.

Definition candidate (uid cid : string) (now : Z) (p : ExecutionPlan) : bool :=
  bool_decide (user_id p = uid) && bool_decide (channel_id p = cid)
  && bool_decide (status p = pending) && negb (is_expired now p).

(** [max(candidates, key=created_at)]: the first of the latest. *)
Fixpoint latest (ps : list ExecutionPlan) : option ExecutionPlan :=
  match ps with
  | [] => None
  | p :: ps =>
      match latest ps with
      | Some q => if created_at p <? created_at q then Some q else Some p
      | None => Some p
      end
  end.

(** [get_pending]: [None] outside when the save of the pruning raises. *)
Definition get_pending (io : bool) (uid cid : string) (now : Z) (st : PlanStore)
    : PlanStore * option (option ExecutionPlan) :=
  match prune_expired io now st with
  | (st, false) => (st, None)
  | (st, true) => (st, Some (latest (List.filter (candidate uid cid now) (plans st).*2)))
  end.

Definition set_status (s : PlanStatus) (pid : string) (p : ExecutionPlan) (st : PlanStore)
    : PlanStore :=
  {| plans := put pid (with_status s p) (plans st); file := file st |}.

(** [mark_executing]: [None] when the save raises. *)
Definition mark_executing (io : bool) (pid : string) (st : PlanStore) : PlanStore * option bool :=
  match get pid (plans st) with
  | Some p =>
      if bool_decide (status p = pending) then
        let '(st, saved) := save io (set_status executing pid p st) in
        (st, if saved then Some true else None)
      else (st, Some false)
  | None => (st, Some false)
  end.

Definition mark (s : PlanStatus) (io : bool) (pid : string) (st : PlanStore) : PlanStore :=
  match get pid (plans st) with
  | Some p => (save io (set_status s pid p st)).1
  | None => st
  end.

Definition mark_completed : bool → string → PlanStore → PlanStore := mark completed.
Definition mark_cancelled : bool → string → PlanStore → PlanStore := mark cancelled.

(** A stable sort by descending creation time. *)
Fixpoint insert_by_age (p : ExecutionPlan) (ps : list ExecutionPlan) : list ExecutionPlan :=
  match ps with
  | [] => [p]
  | q :: ps' => if created_at q <=? created_at p then p :: ps else q :: insert_by_age p ps'
  end.

Definition sort_by_age (ps : list ExecutionPlan) : list ExecutionPlan :=
  foldr insert_by_age [] ps.

(** Truth of an optional filter: unset or empty filters nothing. *)
Definition filters (f : option string) (v : string) : bool :=
  match f with Some s => bool_decide (s = "") || bool_decide (v = s) | None => true end.

Definition list_pending (io : bool) (uid cid : option string) (now : Z) (st : PlanStore)
    : PlanStore * option (list ExecutionPlan) :=
  match prune_expired io now st with
  | (st, false) => (st, None)
  | (st, true) =>
      (st, Some (sort_by_age (List.filter
         (λ p, bool_decide (status p = pending) && negb (is_expired now p)
               && filters uid (user_id p) && filters cid (channel_id p)) (plans st).*2)))
  end.

(** ** Steps, with restarts *)

Inductive Label : Type :=
| Create (io1 io2 : bool) (pid uid cid request summ : string) (ss : list J) (expiry now : Z)
| GetPending (io : bool) (uid cid : string) (now : Z)
| ListPending (io : bool) (uid cid : option string) (now : Z)
| MarkExecuting (io : bool) (pid : string)
| MarkCompleted (io : bool) (pid : string)
| MarkCancelled (io : bool) (pid : string)
| Reboot.

Definition exec (st : PlanStore) (l : Label) : PlanStore :=
  match l with
  | Create io1 io2 pid uid cid r s ss e now => (create io1 io2 pid uid cid r s ss e now st).1
  | GetPending io uid cid now => (get_pending io uid cid now st).1
  | ListPending io uid cid now => (list_pending io uid cid now st).1
  | MarkExecuting io pid => (mark_executing io pid st).1
  | MarkCompleted io pid => mark_completed io pid st
  | MarkCancelled io pid => mark_cancelled io pid st
  | Reboot => boot (file st)
  end.

(** The approvals of [pid] a run granted. *)
Fixpoint approvals (pid : string) (st : PlanStore) (ls : list Label) : nat :=
  match ls with
  | [] => 0
  | l :: ls =>
      (match l with
       | MarkExecuting io q =>
           if bool_decide (q = pid) && bool_decide ((mark_executing io q st).2 = Some true)
           then 1 else 0
       | _ => 0
       end + approvals pid (exec st l) ls)%nat
  end.

Definition creates (pid : string) (l : Label) : bool :=
  match l with Create _ _ q _ _ _ _ _ _ _ => bool_decide (q = pid) | _ => false end.
End planning.

(** ** A plan is approved once *)

Section theory.
Context {J : Type} (pid : string).
Notation store := (@PlanStore J).

Lemma get_put q p (ps : list (string * @ExecutionPlan J)) :
  get pid (put q p ps) = if bool_decide (q = pid) then Some p else get pid ps.
Proof.
  induction ps as [|[r p'] ps IH]; simpl; [done|].
  destruct (bool_decide_reflect (r = q)) as [->|Hne]; simpl.
  - by destruct (bool_decide_reflect (q = pid)).
  - rewrite IH. destruct (bool_decide_reflect (r = pid)) as [->|]; [|done].
    by rewrite bool_decide_eq_false_2 by congruence.
Qed.

Lemma get_fmap (f : @ExecutionPlan J → @ExecutionPlan J) (ps : list (string * @ExecutionPlan J)) :
  get pid ((λ qp, (qp.1, f qp.2)) <$> ps) = f <$> get pid ps.
Proof. induction ps as [|[r p] ps IH]; simpl; [done|]. by case_bool_decide. Qed.

(** The plan is not pending among [ps]. *)
Definition settled (ps : list (string * @ExecutionPlan J)) : Prop :=
  ∀ p, get pid ps = Some p → status p ≠ pending.

(** Neither the memory nor the file holds the plan as pending. *)
Definition spent (st : store) : Prop :=
  settled (plans st) ∧ settled (default [] (file st)).

Lemma save_spent io (st : store) : spent st → spent (save io st).1.
Proof. intros [H1 H2]. unfold save. by destruct io. Qed.

Lemma put_settled q p (ps : list (string * @ExecutionPlan J)) :
  settled ps → (q = pid → status p ≠ pending) → settled (put q p ps).
Proof.
  intros Hs Hp x. rewrite get_put. case_bool_decide; [intros [= <-]; auto|apply Hs].
Qed.

Lemma prune_spent io now (st : store) : spent st → spent (prune_expired io now st).1.
Proof.
  intros [H1 H2]. unfold prune_expired. destruct (existsb _ _); [|done].
  apply save_spent. split; [|done]. simpl. intros p Hp.
  rewrite (get_fmap (λ p, if prunable now p then with_status expired p else p)) in Hp.
  destruct (get pid (plans st)) as [p0|] eqn:Hg; [|done]. injection Hp as <-.
  destruct (prunable now p0); [done|by apply H1].
Qed.

Lemma mark_spent s io q (st : store) : s ≠ pending → spent st → spent (mark s io q st).
Proof.
  intros Hs [H1 H2]. unfold mark. destruct (get q (plans st)); [|done].
  apply save_spent. split; [|done]. by apply put_settled.
Qed.

Lemma spent_step (st : store) l : creates pid l = false → spent st → spent (exec st l).
Proof.
  intros Hl Hs. destruct l; simpl in *.
  - unfold create.
    set (st' := {| plans := _; file := _ |}). assert (Hs' : spent st').
    { split; [|apply Hs]. apply put_settled; [apply Hs|]. intros ->. by bool_prop. }
    pose proof (prune_spent io1 now st' Hs') as Hp.
    destruct (prune_expired io1 now st') as [st1 []]; [|done]. simpl in Hp.
    pose proof (save_spent io2 st1 Hp) as Hsave. by destruct (save io2 st1) as [st2 []].
  - unfold get_pending. pose proof (prune_spent io now st Hs).
    by destruct (prune_expired io now st) as [st1 []].
  - unfold list_pending. pose proof (prune_spent io now st Hs).
    by destruct (prune_expired io now st) as [st1 []].
  - unfold mark_executing. destruct (get pid0 (plans st)) as [p|]; [|done].
    case_bool_decide; [|done]. destruct Hs as [H1 H2].
    assert (Hs' : spent (set_status executing pid0 p st)) by (split; [by apply put_settled|done]).
    pose proof (save_spent io _ Hs') as Hp. by destruct (save io _).
  - by apply mark_spent.
  - by apply mark_spent.
  - destruct Hs as [_ H2]. by split.
Qed.

Lemma approved_spent io (st : store) :
  (mark_executing io pid st).2 = Some true → spent (exec st (MarkExecuting io pid)).
Proof.
  simpl. unfold mark_executing. destruct (get pid (plans st)) as [p|]; [|done].
  case_bool_decide; [|done]. unfold save. destruct io; [|done]. intros _. simpl.
  assert (Hs : settled (put pid (with_status executing p) (plans st))).
  { intros x. rewrite get_put, bool_decide_refl. by intros [= <-]. }
  by split.
Qed.

Lemma spent_refused io (st : store) : spent st → (mark_executing io pid st).2 ≠ Some true.
Proof.
  intros [H1 _]. unfold mark_executing. destruct (get pid (plans st)) as [p|] eqn:Hg; [|done].
  rewrite bool_decide_eq_false_2; [done|]. by apply H1.
Qed.

Lemma spent_approvals ls (st : store) :
  Forall (λ l, creates pid l = false) ls → spent st → approvals pid st ls = 0%nat.
Proof.
  intros HF. revert st. induction HF as [|l ls Hl HF IH]; intros st Hs; [done|]. simpl.
  rewrite IH by by apply spent_step. destruct l; try done.
  destruct (bool_decide_reflect (pid0 = pid)) as [->|]; [|done].
  by rewrite (bool_decide_eq_false_2 _ (spent_refused io st Hs)).
Qed.

(** a plan is executed at most once.  Along any run that does not create the
    plan again, with any failed saves and any restarts from the file in between,
    [mark_executing] grants a plan at most one time. *)
Theorem plan_executes_once ls (st : store) :
  Forall (λ l, creates pid l = false) ls → (approvals pid st ls <= 1)%nat.
Proof.
  intros HF. revert st. induction HF as [|l ls Hl HF IH]; intros st; simpl; [lia|].
  specialize (IH (exec st l)). destruct l; try done.
  destruct (bool_decide_reflect (pid0 = pid)) as [->|]; [|done]. simpl.
  destruct (bool_decide_reflect ((mark_executing io pid st).2 = Some true)) as [Ha|]; [|done].
  rewrite spent_approvals; [lia|done|]. by apply approved_spent.
Qed.
End theory.

Module PlanningWitness.

Definition st0 : @PlanStore nat :=
  (create true true "plan-1" "u" "c" "do it" "s" [] 1000 0 (boot None)).1.

Lemma plan_executes_once_witness :
  (approvals "plan-1" st0 [MarkExecuting false "plan-1"; Reboot; MarkExecuting true "plan-1";
                           Reboot; MarkExecuting true "plan-1"] <= 1)%nat
  ∧ approvals "plan-1" st0 [MarkExecuting false "plan-1"; Reboot; MarkExecuting true "plan-1"] = 1%nat.
Proof.
  split; [|reflexivity]. apply plan_executes_once. repeat constructor.
Defined.

End PlanningWitness.
