(* ===== verification/AuditLog.v ===== *)
(** * The audit log (src/src/audit/signer.py, src/src/audit/logger.py)

    An append-only file of JSON lines.  With a key every entry carries the HMAC of
    itself and of its predecessor's HMAC; files rotate and each starts its own chain.
    A marker file says that an append may have been left half done.

    A file is the list of its bytes; what the logger writes is ASCII.  Entries arrive
    scrubbed and capped.  [json] and [hmac] enter through the classes [Codec] and
    [Mac] of [PyLib].  Every system call the logger makes may fail, and a crash is a failure
    followed by [boot]. *)

From S2P Require Import Prelude PyStr PyLib.
Open Scope string_scope.
Open Scope list_scope.
Open Scope Z_scope.

(** [not raw.strip()] of bytes, [not line.strip()] of text. *)
Definition ascii_space (c : Z) : bool := ((9 <=? c) && (c <=? 13)) || (c =? 32).
Definition blank_bytes (s : pystr) : bool := forallb ascii_space s.
Definition blank_text (s : pystr) : bool := forallb is_space s.

(** The lines of a file with their ends. *)
Fixpoint readlines (s : pystr) : list pystr :=
  match s with
  | [] => []
  | c :: s =>
      if c =? LF then [LF] :: readlines s
      else match readlines s with
           | [] => [[c]]
           | w :: ws => (c :: w) :: ws
           end
  end.

(** Text mode turns CRLF and CR into LF. *)
Fixpoint universal (s : pystr) : pystr :=
  match s with
  | [] => []
  | c :: s =>
      if c =? CR then
        LF :: match s with
              | [] => []
              | d :: s' => if d =? LF then universal s' else universal s
              end
      else c :: universal s
  end.

Definition Entry : Type := list (pystr * Json).
Definition HMAC : pystr := Eval compute in lit "_hmac".
Definition PREV_HMAC : pystr := Eval compute in lit "_prev_hmac".
Definition GENESIS_HASH : pystr := Eval compute in repeat 48 64.

Section audit.
Context `{Codec, Mac}.

(** ** The signer *)

(** [_canonical] *)
Definition canonical (e : Entry) : pystr := dumps_compact (sort_keys (JDict (dict_del e HMAC))).

(** [AuditSigner.prepare] with the running hash [prev]. *)
Definition prepare (key prev : pystr) (e : Entry) : Entry :=
  let e := dict_set e PREV_HMAC (JStr prev) in
  dict_set e HMAC (JStr (hexdigest key (canonical e))).

(** [entry["_hmac"]], which [commit] makes the running hash. *)
Definition hmac_of (e : Entry) : option pystr :=
  match dict_get e HMAC with Some (JStr s) => Some s | _ => None end.

Definition get (e : Entry) (k : pystr) : Json := default JNull (dict_get e k).

Definition verify_entry (key : pystr) (e : Entry) (expected_prev : pystr) : option bool :=
  let stored_hmac := get e HMAC in
  let stored_prev := get e PREV_HMAC in
  if negb (truthy stored_hmac) || match stored_prev with JNull => true | _ => false end
  then Some false
  else
    match compare_digest stored_prev expected_prev with
    | Some true => compare_digest stored_hmac (hexdigest key (canonical e))
    | r => r
    end.

Inductive Reason : Type :=
| REASON_INVALID_JSON
| REASON_NON_OBJECT
| REASON_UNSIGNED_AFTER_SIGNED
| REASON_HMAC_MISMATCH
| SIGNING_GAP.

Record Report : Type := {
  valid : bool;
  total : Z;
  verified : Z;
  unsigned_prefix : Z;
  first_bad : option Z;
  reason : option Reason
}.

Definition nothing_yet : Report :=
  {| valid := true; total := 0; verified := 0; unsigned_prefix := 0; first_bad := None;
     reason := None |}.

Definition count (t v u : Z) (r : Report) : Report :=
  {| valid := true; total := total r + t; verified := verified r + v;
     unsigned_prefix := unsigned_prefix r + u; first_bad := None; reason := None |}.

Definition failure (lineno : Z) (why : Reason) (r : Report) : Report :=
  {| valid := false; total := total r; verified := verified r;
     unsigned_prefix := unsigned_prefix r; first_bad := Some lineno; reason := Some why |}.

(** The loop of [verify_segment]; [lineno] is that of the next line. *)
Fixpoint verify_lines (key prev : pystr) (lineno : Z) (r : Report) (lines : list pystr) : Report :=
  match lines with
  | [] => r
  | raw :: lines =>
      if blank_bytes raw then verify_lines key prev (lineno + 1) r lines
      else
        let r := count 1 0 0 r in
        match loads raw with
        | None => failure lineno REASON_INVALID_JSON r
        | Some (JDict e) =>
            match dict_get e HMAC with
            | None =>
                if verified r =? 0 then verify_lines key prev (lineno + 1) (count 0 0 1 r) lines
                else failure lineno REASON_UNSIGNED_AFTER_SIGNED r
            | Some _ =>
                match verify_entry key e prev, hmac_of e with
                | Some true, Some next =>
                    verify_lines key next (lineno + 1) (count 0 1 0 r) lines
                | _, _ => failure lineno REASON_HMAC_MISMATCH r
                end
            end
        | Some _ => failure lineno REASON_NON_OBJECT r
        end
  end.

Definition verify_segment (key : pystr) (size : nat) (text : pystr) : Report :=
  verify_lines key GENESIS_HASH 1 nothing_yet (readlines (take size text)).

(** ** The logger *)

(** The active file, the rotated ones by their number, and the repair marker. *)
Record Disk : Type := {
  active : option pystr;
  rotated : gmap nat pystr;
  marker : bool
}.

Record Logger : Type := {
  prev_hmac : pystr;
  repair_required : bool;
  durability_degraded : bool;
  historical_break : bool;
  chain_initialized : bool
}.

Record World : Type := { disk : Disk; logger : Logger }.

(** [hmac_key], [None] for no signer. *)
Context (signer : option pystr) (max_bytes : Z) (max_files : nat).

(** [__init__] *)
Definition boot (d : Disk) : World :=
  {| disk := d;
     logger := {| prev_hmac := GENESIS_HASH; repair_required := marker d;
                  durability_degraded := marker d; historical_break := false;
                  chain_initialized := false |} |}.

Definition set_prev (p : pystr) (l : Logger) : Logger :=
  {| prev_hmac := p; repair_required := repair_required l;
     durability_degraded := durability_degraded l; historical_break := historical_break l;
     chain_initialized := chain_initialized l |}.
Definition set_repair (b : bool) (l : Logger) : Logger :=
  {| prev_hmac := prev_hmac l; repair_required := b; durability_degraded := durability_degraded l;
     historical_break := historical_break l; chain_initialized := chain_initialized l |}.
Definition set_degraded (b : bool) (l : Logger) : Logger :=
  {| prev_hmac := prev_hmac l; repair_required := repair_required l; durability_degraded := b;
     historical_break := historical_break l; chain_initialized := chain_initialized l |}.
Definition set_historical (b : bool) (l : Logger) : Logger :=
  {| prev_hmac := prev_hmac l; repair_required := repair_required l;
     durability_degraded := durability_degraded l; historical_break := b;
     chain_initialized := chain_initialized l |}.
Definition set_initialized (l : Logger) : Logger :=
  {| prev_hmac := prev_hmac l; repair_required := repair_required l;
     durability_degraded := durability_degraded l; historical_break := historical_break l;
     chain_initialized := true |}.

Definition set_active (t : option pystr) (d : Disk) : Disk :=
  {| active := t; rotated := rotated d; marker := marker d |}.
Definition set_marker (b : bool) (d : Disk) : Disk :=
  {| active := active d; rotated := rotated d; marker := b |}.
Definition on_logger (g : Logger → Logger) (w : World) : World :=
  {| disk := disk w; logger := g (logger w) |}.
Definition on_disk (g : Disk → Disk) (w : World) : World :=
  {| disk := g (disk w); logger := logger w |}.

(** *** Rotation *)

(** The renames .i to .i+1, downwards: after [budget] calls the next one fails. *)
Fixpoint shift (i budget : nat) (files : gmap nat pystr) : option nat * gmap nat pystr :=
  match i with
  | O => (Some budget, files)
  | S j =>
      match files !! i, budget with
      | None, _ => shift j budget files
      | Some _, O => (None, files)
      | Some t, S budget => shift j budget (<[S i := t]> (delete i files))
      end
  end.

Definition unlink_oldest (budget : nat) (files : gmap nat pystr) : option nat * gmap nat pystr :=
  match files !! max_files, budget with
  | None, _ => (Some budget, files)
  | Some _, O => (None, files)
  | Some _, S budget => (Some budget, delete max_files files)
  end.

Definition set_rotated (files : gmap nat pystr) (d : Disk) : Disk :=
  {| active := active d; rotated := files; marker := marker d |}.

(** [_maybe_rotate] *)
Definition maybe_rotate (stat_ok : bool) (budget : nat) (w : World) : World :=
  match active (disk w) with
  | None => w
  | Some text =>
      if negb stat_ok || (Z.of_nat (length text) <? max_bytes) then w
      else
        let '(left1, files) := unlink_oldest budget (rotated (disk w)) in
        match left1 with
        | None => on_disk (set_rotated files) w
        | Some budget =>
            let '(left2, files) := shift (max_files - 1) budget files in
            match left2 with
            | Some (S _) =>
                {| disk := {| active := None; rotated := <[1%nat := text]> files;
                              marker := marker (disk w) |};
                   logger := match signer with
                             | Some _ => set_prev GENESIS_HASH (logger w)
                             | None => logger w
                             end |}
            | _ => on_disk (set_rotated files) w
            end
        end
  end.

(** *** Appending *)

(** [_quarantine_uncertain_append]; [written] is that the marker was replaced. *)
Definition quarantine (written : bool) (w : World) : World :=
  on_disk (λ d, set_marker (marker d || written) d)
    (on_logger (λ l, set_degraded true (set_repair true l)) w).

(** How [_append_durable] goes: the file does not open; the marker is not replaced,
    or not durably; the write, flush or sync fails with [n] bytes in the file; the
    marker is not removed durably; all is well. *)
Inductive Append : Type :=
| Open_fails
| Marker_fails
| Marker_unsynced
| Write_fails (n : nat) (remarked : bool)
| Settle_fails (unlinked remarked : bool)
| Appended.

(** The append, and whether it raised. *)
Definition append_durable (line : pystr) (a : Append) (w : World) : World * bool :=
  let text := default [] (active (disk w)) in
  let holding t := on_disk (set_active (Some t)) w in
  let uncertain w := if marker (disk w) then on_logger (set_repair true) w else w in
  match a with
  | Open_fails => (uncertain w, true)
  | Marker_fails => (uncertain (holding text), true)
  | Marker_unsynced => (on_logger (set_repair true) (on_disk (set_marker true) (holding text)), true)
  | Write_fails n remarked =>
      (quarantine remarked (on_disk (set_marker true) (holding (text ++ take n line))), true)
  | Settle_fails unlinked remarked =>
      (quarantine remarked (on_disk (set_marker (negb unlinked)) (holding (text ++ line))), true)
  | Appended => (on_disk (set_marker false) (holding (text ++ line)), false)
  end.

(** *** Initialization *)

(** How [initialize_chain] goes: the file is read; the verifier reads it too; the
    marker is removed durably, or not; a quarantine replaces the marker. *)
Record Init : Type := {
  readable : bool;
  scannable : bool;
  clears : bool;
  unlinks : bool;
  remarks : bool
}.

(** The predecessor on disk, [None] for an unsettled tail. *)
Fixpoint tail_hmac (lines_reversed : list pystr) : option pystr :=
  match lines_reversed with
  | [] => Some GENESIS_HASH
  | line :: lines =>
      if blank_text line then tail_hmac lines
      else if negb (endswith [LF] line) then None
      else
        match loads line with
        | None => None
        | Some (JDict e) =>
            Some (match hmac_of e with
                  | Some s => if nonempty s then s else GENESIS_HASH
                  | None => GENESIS_HASH
                  end)
        | Some _ => Some GENESIS_HASH
        end
  end.

Definition initialize_chain (env : Init) (w : World) : World :=
  if chain_initialized (logger w) then w
  else
    match active (disk w) with
    | None => on_logger set_initialized w
    | Some text =>
        if negb (readable env) then on_logger (set_degraded true) w
        else
          let broken :=
            match signer with
            | Some key => negb (scannable env && valid (verify_segment key (length text) text))
            | None => historical_break (logger w)
            end in
          let w := on_logger (λ l, set_degraded broken (set_historical broken l)) w in
          let w :=
            match tail_hmac (rev (readlines (universal text))) with
            | None => quarantine (remarks env) w
            | Some p =>
                let w := match signer with Some _ => on_logger (set_prev p) w | None => w end in
                if negb (repair_required (logger w)) then w
                else if clears env then
                  on_disk (set_marker false) (on_logger (set_repair false) w)
                else
                  quarantine (remarks env)
                    (if unlinks env then on_disk (set_marker false) w else w)
            end in
          on_logger set_initialized w
    end.

(** *** One entry *)

Inductive Durability : Type :=
| Persisted
| Not_persisted
| Repair_required.

Record Env : Type := {
  init : Init;
  stat_ok : bool;
  renames : nat;
  append : Append
}.

(** [_persist]: the new world and the entry's [audit_durability]. *)
Definition persist (e : Entry) (env : Env) (w : World) : World * Durability :=
  let w := if chain_initialized (logger w) then w else initialize_chain (init env) w in
  if repair_required (logger w) then (w, Repair_required)
  else if negb (chain_initialized (logger w)) then (w, Not_persisted)
  else
    let w := maybe_rotate (stat_ok env) (renames env) w in
    let e := match signer with Some key => prepare key (prev_hmac (logger w)) e | None => e end in
    let '(w, raised) := append_durable (dumps (JDict e) ++ [LF]) (append env) w in
    if raised then
      let w := on_logger (set_degraded true) w in
      (w, if repair_required (logger w) then Repair_required else Not_persisted)
    else
      let w := match signer, hmac_of e with
               | Some _, Some h => on_logger (set_prev h) w
               | _, _ => w
               end in
      (on_logger (λ l, set_degraded (historical_break l) l) w, Persisted).

(** *** Verification of every retained file *)

Inductive Status : Type :=
| Verified
| Unsigned
| Broken
| Absent
| Unreadable.

#[export] Instance Status_eq_dec : EqDecision Status.
Proof. solve_decision. Defined.

Record Segment : Type := { position : nat; status : Status; report : Report }.

Definition file_at (d : Disk) (i : nat) : option pystr :=
  match i with O => active d | _ => rotated d !! i end.

(** One row of the snapshot; [unreadable] is an [OSError] on opening or reading. *)
Definition segment (key : pystr) (unreadable : nat → bool) (d : Disk) (i : nat) : Segment :=
  match file_at d i with
  | None =>
      {| position := i; status := if bool_decide (i = 0%nat) then Verified else Absent;
         report := nothing_yet |}
  | Some text =>
      if unreadable i then {| position := i; status := Unreadable; report := nothing_yet |}
      else
        let r := verify_segment key (length text) text in
        {| position := i; report := r;
           status := if negb (valid r) then Broken
                     else if (verified r =? 0) && (0 <? total r) then Unsigned
                     else Verified |}
  end.

(** The positions kept: those with a file, and the gaps below the highest. *)
Definition positions (d : Disk) : list nat :=
  let present := List.filter (λ i, bool_decide (is_Some (file_at d i))) (seq 1 max_files) in
  let highest := foldr Nat.max 0%nat present in
  0%nat :: List.filter (λ i, bool_decide (is_Some (file_at d i)) || (i <? highest)%nat)
             (seq 1 max_files).

(** From the oldest file on, a file without signatures after a signed one. *)
Fixpoint signing_gaps (signed_seen : bool) (oldest_first : list Segment) : list Segment :=
  match oldest_first with
  | [] => []
  | s :: ss =>
      let s := if bool_decide (status s = Unsigned) && signed_seen
               then {| position := position s; status := Broken;
                       report := {| valid := valid (report s); total := total (report s);
                                    verified := verified (report s);
                                    unsigned_prefix := unsigned_prefix (report s);
                                    first_bad := first_bad (report s);
                                    reason := Some SIGNING_GAP |} |}
               else s in
      s :: signing_gaps (signed_seen || (0 <? verified (report s))) ss
  end.

Definition problem (s : Segment) : bool :=
  match status s with Broken | Absent | Unreadable => true | _ => false end.

(** [verify_integrity]: the segments, newest first, and whether all is well. *)
Definition verify_integrity (unreadable : nat → bool) (d : Disk) : option (list Segment * bool) :=
  key ← signer;
  let segments := rev (signing_gaps false (rev (segment key unreadable d <$> positions d))) in
  Some (segments, negb (existsb problem segments)).

End audit.
