(* ===== verification/AuditTheory.v ===== *)
(** * Theorems about the audit log

    What the logger writes verifies, whatever fails and whenever the process dies;
    two logs that verify and end with the same HMAC hold the same entries. *)

From S2P Require Import Prelude PyStr PyLib AuditLog.
Open Scope string_scope.
Open Scope list_scope.
Open Scope Z_scope.

(** ** Lines *)

(** Empty or ended by a line feed. *)
Definition settled (t : pystr) : Prop := t = [] ∨ ∃ s, t = s ++ [LF].

Lemma settled_cons c t : settled (c :: t) → c = LF ∧ t = [] ∨ t ≠ [] ∧ settled t.
Proof.
  intros [?|[s Hs]]; [done|]. destruct s as [|d s]; simplify_list_eq; [by left|].
  right. split; [by destruct s|right; eauto].
Qed.

Lemma readlines_nil t : readlines t = [] → t = [].
Proof. destruct t as [|c t]; simpl; [done|]. destruct (c =? LF); [done|]. by destruct (readlines t). Qed.

Lemma readlines_app t s : settled t → readlines (t ++ s) = readlines t ++ readlines s.
Proof.
  induction t as [|c t IH]; [done|]. intros Ht. destruct (settled_cons _ _ Ht) as [[-> ->]|[Hne Hs]]; [done|].
  simpl. rewrite (IH Hs). destruct (c =? LF); [done|].
  destruct (readlines t) as [|w ws] eqn:Hr; [by apply readlines_nil in Hr|done].
Qed.

Lemma readlines_torn w : w ≠ [] → LF ∉ w → readlines w = [w].
Proof.
  induction w as [|c w IH]; [done|]. intros _ Hn. apply not_elem_of_cons in Hn as [Hc Hn].
  simpl. rewrite (proj2 (Z.eqb_neq c LF)) by congruence.
  destruct w as [|d w]; [done|]. by rewrite IH.
Qed.

Lemma readlines_line w : LF ∉ w → readlines (w ++ [LF]) = [w ++ [LF]].
Proof.
  induction w as [|c w IH]; [done|]. intros Hn. apply not_elem_of_cons in Hn as [Hc Hn].
  simpl. rewrite (proj2 (Z.eqb_neq c LF)) by congruence. by rewrite IH.
Qed.

Lemma universal_id t : CR ∉ t → universal t = t.
Proof.
  induction t as [|c t IH]; [done|]. intros [Hc Hn]%not_elem_of_cons. simpl.
  rewrite (proj2 (Z.eqb_neq c CR)) by congruence. by rewrite IH.
Qed.

Lemma printable_no c w : c < 32 → Forall (λ c, 32 <= c) w → c ∉ w.
Proof. intros Hc HF Hin. rewrite Forall_forall in HF. specialize (HF _ Hin). lia. Qed.

Lemma endswith_line w : endswith [LF] (w ++ [LF]) = true.
Proof. unfold endswith. rewrite rev_app_distr. done. Qed.

Lemma endswith_torn w : LF ∉ w → endswith [LF] w = false.
Proof.
  intros Hn. destruct w as [|c w _] using rev_ind; [done|]. unfold endswith. rewrite rev_app_distr.
  cbn [rev app startswith]. rewrite andb_true_r. apply Z.eqb_neq. intros <-. apply Hn, elem_of_app. right. left.
Qed.

Section theory.
Context `{Codec, Mac}.

(** ** What a chain looks like *)

Definition line_of (e : Entry) : pystr := dumps (JDict e) ++ [LF].

Fixpoint sign_all (key prev : pystr) (es : list Entry) : list Entry :=
  match es with
  | [] => []
  | e :: es =>
      let e := prepare key prev e in
      e :: sign_all key (hexdigest key (canonical e)) es
  end.

(** The running hash after the entries. *)
Definition last_hmac (prev : pystr) (signed : list Entry) : pystr :=
  default prev (last signed ≫= hmac_of).

Definition text_of (signed : list Entry) : pystr := mjoin (line_of <$> signed).

Lemma canonical_prepare key prev e :
  canonical (prepare key prev e) = canonical (dict_set e PREV_HMAC (JStr prev)).
Proof. unfold canonical, prepare. by rewrite dict_del_set_eq. Qed.

Lemma hmac_prepare key prev e : hmac_of (prepare key prev e) = Some (hexdigest key (canonical (prepare key prev e))).
Proof.
  rewrite canonical_prepare. unfold hmac_of, prepare. by rewrite dict_get_set, bool_decide_eq_true_2.
Qed.

Lemma prepared_hmac key prev e :
  dict_get (prepare key prev e) HMAC = Some (JStr (hexdigest key (canonical (prepare key prev e)))).
Proof. rewrite canonical_prepare. unfold prepare. by rewrite dict_get_set, bool_decide_eq_true_2. Qed.

Lemma prepared_prev key prev e : dict_get (prepare key prev e) PREV_HMAC = Some (JStr prev).
Proof. unfold prepare. by rewrite !dict_get_set, bool_decide_eq_false_2, bool_decide_eq_true_2. Qed.

Lemma last_hmac_app prev es e h : hmac_of e = Some h → last_hmac prev (es ++ [e]) = h.
Proof. intros Hh. unfold last_hmac. by rewrite last_snoc; simpl; rewrite Hh. Qed.

Lemma last_hmac_cons prev e es h : hmac_of e = Some h → (∀ e, e ∈ es → is_Some (hmac_of e)) →
  last_hmac prev (e :: es) = last_hmac h es.
Proof.
  intros Hh Hall. unfold last_hmac. destruct es as [|e' es _] using rev_ind; [by simpl; rewrite Hh|].
  change (e :: es ++ [e']) with ((e :: es) ++ [e']). rewrite !last_snoc. simpl.
  destruct (Hall e') as [h' ->]; [apply elem_of_app; right; left|done].
Qed.

Lemma sign_all_hmac key prev es e : e ∈ sign_all key prev es → is_Some (hmac_of e).
Proof.
  revert prev. induction es as [|e0 es IH]; intros prev; cbn [sign_all]; [by intros ?%not_elem_of_nil|].
  intros [->|Hin]%elem_of_cons; [rewrite hmac_prepare; eauto|by eapply IH].
Qed.

Lemma sign_all_snoc key prev es e :
  sign_all key prev (es ++ [e]) = sign_all key prev es ++ [prepare key (last_hmac prev (sign_all key prev es)) e].
Proof.
  revert prev. induction es as [|e0 es IH]; intros prev; [done|]. cbn [sign_all app]. f_equal. rewrite IH.
  erewrite last_hmac_cons; [done|by apply hmac_prepare|by intros ? ?%sign_all_hmac].
Qed.

Lemma text_of_snoc es e : text_of (es ++ [e]) = text_of es ++ line_of e.
Proof.
  unfold text_of. rewrite fmap_app. cbn [fmap list_fmap]. rewrite join_app. cbn. by rewrite app_nil_r.
Qed.

Lemma text_of_settled es : settled (text_of es).
Proof.
  destruct es as [|e es _] using rev_ind; [by left|]. right. rewrite text_of_snoc. unfold line_of.
  rewrite app_assoc. eauto.
Qed.

Lemma dumps_no_LF v : LF ∉ dumps v.
Proof. by apply printable_no, dumps_printable. Qed.

Lemma readlines_text es s : readlines (text_of es ++ s) = (line_of <$> es) ++ readlines s.
Proof.
  revert s. induction es as [|e es IH] using rev_ind; intros s; [done|].
  rewrite text_of_snoc, <- app_assoc, IH, fmap_app, <- app_assoc. f_equal. cbn.
  rewrite readlines_app by (right; unfold line_of; eauto).
  unfold line_of. by rewrite readlines_line by apply dumps_no_LF.
Qed.

Lemma text_no_CR es : CR ∉ text_of es.
Proof.
  induction es as [|e es IH] using rev_ind; [apply not_elem_of_nil|]. rewrite text_of_snoc. unfold line_of.
  rewrite !elem_of_app. intros [?|[Hd|Hl%list_elem_of_singleton]]; [done| |done].
  revert Hd. apply printable_no with (c := CR); [done|apply dumps_printable].
Qed.

(** ** Verification of what was signed *)

Lemma ascii_true s : Forall (λ c, 0 <= c < 128) s → ascii s = true.
Proof.
  intros HF. unfold ascii. apply forallb_elem. eapply Forall_impl; [exact HF|]. intros c [? ?]. simpl.
  apply andb_true_iff. split; [by apply Z.leb_le|by apply Z.ltb_lt].
Qed.

Lemma verify_prepared key prev e : ascii prev = true → verify_entry key (prepare key prev e) prev = Some true.
Proof.
  intros Ha. unfold verify_entry, get. rewrite prepared_hmac, prepared_prev. cbn [default from_option id truthy].
  rewrite hexdigest_nonempty. cbn [negb orb compare_digest]. rewrite Ha, bool_decide_eq_true_2 by done. cbn [andb].
  rewrite ascii_true by apply hexdigest_ascii. cbn [andb].
  by rewrite bool_decide_eq_true_2.
Qed.

Lemma line_not_blank e : blank_bytes (line_of e) = false ∧ blank_text (line_of e) = false.
Proof. unfold line_of. destruct (dumps_dict e) as [s ->]. done. Qed.

Lemma loads_line_of e : loads (line_of e) = Some (JDict e).
Proof. unfold line_of. by rewrite loads_line, loads_dumps. Qed.

Lemma count_count t v u t' v' u' r :
  count t v u (count t' v' u' r) = count (t' + t) (v' + v) (u' + u) r.
Proof. unfold count. cbn. f_equal; lia. Qed.

Lemma verify_signed key prev n r es rest :
  ascii prev = true →
  verify_lines key prev n (count 0 0 0 r) ((line_of <$> sign_all key prev es) ++ rest)
  = verify_lines key (last_hmac prev (sign_all key prev es)) (n + Z.of_nat (length es))
      (count (Z.of_nat (length es)) (Z.of_nat (length es)) 0 r) rest.
Proof.
  revert prev n r. induction es as [|e es IH]; intros prev n r Ha; cbn [sign_all length].
  { cbn [fmap list_fmap app]. by rewrite Z.add_0_r. }
  set (e' := prepare key prev e). cbn [fmap list_fmap app verify_lines].
  destruct (line_not_blank e') as [-> _]. rewrite loads_line_of. subst e'.
  rewrite prepared_hmac, verify_prepared, hmac_prepare by done. rewrite !count_count.
  change (count _ _ _ r) with (count (1 + 0) (1 + 0) (0 + 0) r) at 1. rewrite <- (count_count 0 0 0 1 1 0 r).
  rewrite IH by apply ascii_true, hexdigest_ascii.
  erewrite last_hmac_cons; [|by apply hmac_prepare|by intros ? ?%sign_all_hmac].
  rewrite count_count. f_equal; [lia|f_equal; lia].
Qed.

Lemma verify_text key es :
  verify_segment key (length (text_of (sign_all key GENESIS_HASH es))) (text_of (sign_all key GENESIS_HASH es))
  = count (Z.of_nat (length es)) (Z.of_nat (length es)) 0 nothing_yet.
Proof.
  unfold verify_segment. rewrite take_ge by done.
  rewrite <- (app_nil_r (text_of _)), readlines_text.
  change nothing_yet with (count 0 0 0 nothing_yet) at 1. by rewrite verify_signed.
Qed.

(** ** Runs of the logger *)

Context (key : pystr) (max_bytes : Z) (max_files : nat).

Inductive Event : Type :=
| Log (e : Entry) (env : Env)
| Restart.

Definition exec (w : World) (ev : Event) : World :=
  match ev with
  | Log e env => fst (persist (Some key) max_bytes max_files e env w)
  | Restart => boot (disk w)
  end.

Definition empty_disk : Disk := {| active := None; rotated := ∅; marker := false |}.

Notation chain es := (sign_all key GENESIS_HASH es).

(** The beginning of a line whose append did not finish. *)
Definition torn (t : pystr) : Prop := (∃ s, t = 123 :: s) ∧ LF ∉ t ∧ CR ∉ t.

Definition contents (d : Disk) : pystr := default [] (active d).

Record coherent (w : World) : Prop := {
  co_rotated i t : rotated (disk w) !! i = Some t → ∃ es, t = text_of (chain es);
  co_active : ∃ es rest, contents (disk w) = text_of (chain es) ++ rest ∧ (rest = [] ∨ torn rest) ∧
    (chain_initialized (logger w) = true → repair_required (logger w) = false →
       rest = [] ∧ prev_hmac (logger w) = last_hmac GENESIS_HASH (chain es));
  co_boot : chain_initialized (logger w) = false → prev_hmac (logger w) = GENESIS_HASH
}.

Lemma text_of_nil es rest : text_of (chain es) ++ rest = [] → es = [] ∧ rest = [].
Proof.
  intros [Ht ->]%app_eq_nil. split; [|done]. destruct es as [|e es _] using rev_ind; [done|].
  rewrite sign_all_snoc, text_of_snoc in Ht. apply app_eq_nil in Ht as [_ Ht]. by apply app_eq_nil in Ht as [_ ?].
Qed.

Lemma tail_hmac_text es : tail_hmac (rev (line_of <$> chain es)) = Some (last_hmac GENESIS_HASH (chain es)).
Proof.
  destruct es as [|e es _] using rev_ind; [done|].
  rewrite sign_all_snoc, fmap_app, rev_app_distr. set (e' := prepare key _ e). cbn [fmap list_fmap rev app tail_hmac].
  destruct (line_not_blank e') as [_ ->]. rewrite loads_line_of. unfold line_of. rewrite endswith_line. cbn [negb].
  erewrite last_hmac_app by apply hmac_prepare. unfold e'. rewrite hmac_prepare. by rewrite hexdigest_nonempty.
Qed.

Lemma torn_tail ls t : torn t → tail_hmac (rev (ls ++ [t])) = None.
Proof.
  intros ((s & ->) & Hn & _). rewrite rev_app_distr. cbn [rev app tail_hmac].
  by rewrite endswith_torn.
Qed.

(** What [initialize_chain] finds at the end of the file. *)
Lemma tail_contents es rest :
  rest = [] ∨ torn rest →
  tail_hmac (rev (readlines (universal (text_of (chain es) ++ rest)))) =
    if bool_decide (rest = []) then Some (last_hmac GENESIS_HASH (chain es)) else None.
Proof.
  intros Hr. rewrite universal_id, readlines_text.
  2:{ rewrite elem_of_app. intros [?|Hc]; [by eapply text_no_CR|].
      destruct Hr as [->|(_ & _ & ?)]; [by apply not_elem_of_nil in Hc|done]. }
  destruct Hr as [->|Ht]; [by rewrite app_nil_r, tail_hmac_text|].
  pose proof Ht as ((s & Hs) & Hn & _).
  rewrite bool_decide_eq_false_2, readlines_torn by (by subst). by apply torn_tail.
Qed.

Lemma initialize_coherent env w : coherent w → coherent (initialize_chain (Some key) env w).
Proof.
  intros [Hrot (es & rest & Hact & Hrest & Hgood) Hboot]. unfold initialize_chain.
  destruct (chain_initialized (logger w)) eqn:Hi; [split; [exact Hrot|exists es, rest; auto|congruence]|].
  destruct (active (disk w)) as [text|] eqn:Ha.
  2:{ unfold contents in Hact. rewrite Ha in Hact. symmetry in Hact. destruct (text_of_nil _ _ Hact) as [-> ->].
      split; [done| |done]. exists [], []. unfold contents. simpl. rewrite Ha. split; [done|]. split; [by left|]. auto. }
  destruct (negb (readable env)); [split; simpl; [done|exists es, rest; rewrite Hi; done|auto]|].
  assert (Ht : text = text_of (chain es) ++ rest) by (unfold contents in Hact; by rewrite Ha in Hact).
  rewrite Ht, tail_contents by done. case_bool_decide as Hr.
  - cbn [repair_required logger on_logger set_prev set_degraded set_historical].
    assert (Hc : ∀ b l w', prev_hmac (logger w') = last_hmac GENESIS_HASH (chain es) →
      disk w' = set_marker b (disk w) → repair_required (logger w') = l → coherent (on_logger set_initialized w')).
    { intros b l w' Hp Hd Hl. split; simpl; rewrite ?Hd; [done| |done]. exists es, rest. split; [done|]. auto. }
    destruct (repair_required (logger w)) eqn:Hq; cbn [negb].
    + destruct (clears env); [by eapply Hc|]. destruct (unlinks env); by eapply Hc.
    + apply (Hc (marker (disk w)) false); [done|by destruct w as [[] ?]|done].
  - split; simpl; [done| |done]. exists es, rest. split; [done|]. split; done.
Qed.

Lemma initialize_active env w : active (disk (initialize_chain (Some key) env w)) = active (disk w).
Proof.
  unfold initialize_chain. destruct (chain_initialized _); [done|].
  destruct (active (disk w)) as [text|] eqn:Ha; [|done]. destruct (negb _); [done|].
  destruct (tail_hmac _); [|done]. simpl. destruct (negb _); [done|]. destruct (clears env); [done|].
  by destruct (unlinks env).
Qed.

Lemma unlink_chains budget files left files' :
  unlink_oldest max_files budget files = (left, files') → files' ⊆ files.
Proof.
  unfold unlink_oldest. destruct (files !! max_files); [destruct budget|]; intros [= <- <-]; try done.
  apply delete_subseteq.
Qed.

Lemma shift_chains (P : pystr → Prop) i budget files left files' :
  (∀ j t, files !! j = Some t → P t) → shift i budget files = (left, files') →
  ∀ j t, files' !! j = Some t → P t.
Proof.
  revert budget files. induction i as [|i IH]; intros budget files HP; simpl; [by intros [= <- <-]|].
  destruct (files !! S i) as [t|] eqn:Ht; [destruct budget as [|budget]|]; [by intros [= <- <-]| |by apply IH].
  apply IH. intros j t'. rewrite lookup_insert_Some, lookup_delete_Some. intros [[<- <-]|[_ [_ ?]]]; eauto.
Qed.

(** A rotation keeps the running hash in step with the active file. *)
Lemma rotate_coherent stat_ok budget w es :
  (∀ i t, rotated (disk w) !! i = Some t → ∃ es, t = text_of (chain es)) →
  contents (disk w) = text_of (chain es) → prev_hmac (logger w) = last_hmac GENESIS_HASH (chain es) →
  ∃ es' w', maybe_rotate (Some key) max_bytes max_files stat_ok budget w = w' ∧
    (∀ i t, rotated (disk w') !! i = Some t → ∃ es, t = text_of (chain es)) ∧
    contents (disk w') = text_of (chain es') ∧ prev_hmac (logger w') = last_hmac GENESIS_HASH (chain es') ∧
    chain_initialized (logger w') = chain_initialized (logger w) ∧
    repair_required (logger w') = repair_required (logger w) ∧
    (contents (disk w') = contents (disk w) ∨
     contents (disk w') = [] ∧ rotated (disk w') !! 1%nat = active (disk w)).
Proof.
  intros Hrot Hact Hprev. unfold maybe_rotate.
  destruct (active (disk w)) as [text|] eqn:Ha; [|exists es, w; by auto 8].
  destruct (negb stat_ok || _); [exists es, w; by auto 8|].
  destruct (unlink_oldest _ _ _) as [left1 files1] eqn:Hu. apply unlink_chains in Hu.
  assert (Hrot1 : ∀ i t, files1 !! i = Some t → ∃ es, t = text_of (chain es)).
  { intros i t Hi. eapply Hrot, lookup_weaken; eauto. }
  destruct left1 as [b1|]; [|exists es; eexists; by auto 8].
  destruct (shift _ _ _) as [left2 files2] eqn:Hs. pose proof (shift_chains _ _ _ _ _ _ Hrot1 Hs) as Hrot2.
  destruct left2 as [[|b2]|]; [exists es; eexists; by auto 8| |exists es; eexists; by auto 8].
  exists []. eexists. split; [done|]. split; [|do 4 (split; [done|]); right; simpl; by rewrite lookup_insert_eq].
  simpl. intros i t [[<- <-]|[_ ?]]%lookup_insert_Some; [|eauto].
  exists es. unfold contents in Hact. by rewrite Ha in Hact.
Qed.

(** A line appended whole, or in part. *)
Lemma append_line es e n :
  let e' := prepare key (last_hmac GENESIS_HASH (chain es)) e in
  ∃ es' rest, text_of (chain es) ++ take n (line_of e') = text_of (chain es') ++ rest ∧ (rest = [] ∨ torn rest).
Proof.
  intros e'. destruct (decide (length (line_of e') <= n)%nat) as [Hn|Hn].
  { exists (es ++ [e]), []. rewrite take_ge, sign_all_snoc, text_of_snoc, app_nil_r by done. split; [done|by left]. }
  destruct n as [|n]; [exists es, []; split; [done|by left]|].
  exists es, (take (S n) (line_of e')). split; [done|right]. unfold line_of in *.
  rewrite length_app in Hn. simpl in Hn. rewrite take_app_le by lia.
  split; [|split].
  - destruct (dumps_dict e') as [s ->]. simpl. eauto.
  - intros (i & Hi%list_elem_of_lookup_2 & _)%elem_of_take. by eapply dumps_no_LF.
  - intros (i & Hi%list_elem_of_lookup_2 & _)%elem_of_take. revert Hi. by apply printable_no, dumps_printable.
Qed.

Lemma coherent_quarantine b w :
  (∀ i t, rotated (disk w) !! i = Some t → ∃ es, t = text_of (chain es)) →
  (∃ es rest, contents (disk w) = text_of (chain es) ++ rest ∧ (rest = [] ∨ torn rest)) →
  chain_initialized (logger w) = true → coherent (quarantine b w).
Proof.
  intros Hrot (es & rest & Hact & Hrest) Hi. split; simpl; [done| |congruence].
  exists es, rest. split; [done|]. split; [done|]. done.
Qed.

Lemma coherent_settled w es :
  (∀ i t, rotated (disk w) !! i = Some t → ∃ es, t = text_of (chain es)) →
  contents (disk w) = text_of (chain es) → chain_initialized (logger w) = true →
  (repair_required (logger w) = false → prev_hmac (logger w) = last_hmac GENESIS_HASH (chain es)) →
  coherent w.
Proof.
  intros Hrot Hact Hi Hp. split; [done| |congruence]. exists es, []. rewrite app_nil_r.
  split; [done|]. split; [by left|]. auto.
Qed.

(** The end of [persist]: the append and what the logger makes of it. *)
Lemma append_coherent w es e a w' raised :
  let e' := prepare key (prev_hmac (logger w)) e in
  (∀ i t, rotated (disk w) !! i = Some t → ∃ es, t = text_of (chain es)) →
  contents (disk w) = text_of (chain es) → prev_hmac (logger w) = last_hmac GENESIS_HASH (chain es) →
  chain_initialized (logger w) = true →
  append_durable (line_of e') a w = (w', raised) →
  if raised then coherent (on_logger (set_degraded true) w')
  else active (disk w') = Some (contents (disk w) ++ line_of e') ∧ rotated (disk w') = rotated (disk w) ∧
    ∀ b, coherent (on_logger (set_degraded b) (on_logger (set_prev (hexdigest key (canonical e'))) w')).
Proof.
  intros e' Hrot Hact Hprev Hi Happ.
  assert (Hpart : ∀ n b, coherent (quarantine b (on_disk (set_marker true)
            (on_disk (set_active (Some (contents (disk w) ++ take n (line_of e')))) w)))).
  { intros n b. apply coherent_quarantine; [done| |done]. unfold e'. rewrite Hprev.
    destruct (append_line es e n) as (es' & rest & Heq & Hr). exists es', rest.
    split; [|done]. rewrite <- Heq, <- Hact. done. }
  assert (Hsame : ∀ b w', disk w' = disk w ∨ disk w' = set_active (Some (contents (disk w))) (disk w) ∨
            disk w' = set_marker true (set_active (Some (contents (disk w))) (disk w)) →
            logger w' = logger w ∨ logger w' = set_repair true (logger w) →
            coherent (on_logger (set_degraded b) w')).
  { intros b w2 Hd Hl. apply coherent_settled with es; simpl.
    - by destruct Hd as [->|[->| ->]].
    - by destruct Hd as [->|[->| ->]].
    - by destruct Hl as [->| ->].
    - by destruct Hl as [->| ->]. }
  assert (Hfull : text_of (chain es) ++ line_of e' = text_of (chain (es ++ [e]))).
  { rewrite sign_all_snoc, text_of_snoc. unfold e'. by rewrite Hprev. }
  unfold append_durable in Happ. fold (contents (disk w)) in Happ.
  destruct a as [| | |n b|u b|]; injection Happ as <- <-.
  - apply Hsame; destruct (marker (disk w)); auto.
  - apply Hsame; simpl; destruct (marker (disk w)); auto.
  - apply Hsame; simpl; auto.
  - apply (Hpart n b).
  - pose proof (Hpart (length (line_of e')) b) as [Hr (es' & rest & Ha & Hrest & Hg) Hb].
    rewrite take_ge in Ha by done. split; [done| |done]. exists es', rest. done.
  - do 2 (split; [done|]). intros b. apply coherent_settled with (es ++ [e]); [done| |done|].
    + simpl. by rewrite Hact.
    + intros _. simpl. rewrite sign_all_snoc. unfold e'. rewrite Hprev.
      symmetry. apply last_hmac_app, hmac_prepare.
Qed.

(** One entry. *)
Lemma persist_coherent e env w w' d :
  coherent w → persist (Some key) max_bytes max_files e env w = (w', d) →
  coherent w' ∧ (d = Persisted → ∃ p before, active (disk w') = Some (before ++ line_of (prepare key p e)) ∧
    (before = contents (disk w) ∨ before = [] ∧ rotated (disk w') !! 1%nat = active (disk w))).
Proof.
  intros Hw Hp. unfold persist in Hp.
  set (w1 := if chain_initialized (logger w) then w else initialize_chain (Some key) (init env) w) in *.
  assert (Hw1 : coherent w1) by (unfold w1; destruct (chain_initialized _); [done|by apply initialize_coherent]).
  assert (Hd1 : active (disk w1) = active (disk w)).
  { unfold w1. destruct (chain_initialized _); [done|]. by apply initialize_active. }
  clearbody w1. destruct (repair_required (logger w1)) eqn:Hq; [by injection Hp as <- <-|].
  destruct (chain_initialized (logger w1)) eqn:Hi; [|by injection Hp as <- <-]. cbn [negb] in Hp.
  destruct Hw1 as [Hrot (es & rest & Hact & _ & Hgood) _]. destruct (Hgood Hi Hq) as [-> Hprev].
  rewrite app_nil_r in Hact.
  destruct (rotate_coherent (stat_ok env) (renames env) w1 es Hrot Hact Hprev)
    as (es2 & w2 & Hw2 & Hrot2 & Hact2 & Hprev2 & Hi2 & Hq2 & Hold).
  rewrite Hw2 in Hp. fold (line_of (prepare key (prev_hmac (logger w2)) e)) in Hp.
  destruct (append_durable _ _ _) as [w3 raised] eqn:Happ.
  pose proof (append_coherent w2 es2 e _ w3 raised Hrot2 Hact2 Hprev2 ltac:(congruence) Happ) as Hend.
  destruct raised; injection Hp as <- <-; [split; [done|by case_match]|].
  rewrite hmac_prepare. destruct Hend as (Ha & Hr & Hc). split; [apply (Hc (historical_break (logger w3)))|].
  intros _. exists (prev_hmac (logger w2)), (contents (disk w2)). split; [exact Ha|]. simpl.
  rewrite Hr, <- Hd1. destruct Hold as [Hold|[? ?]]; [left|by right].
  rewrite Hold. unfold contents. by rewrite Hd1.
Qed.

Lemma coherent_boot : coherent (boot empty_disk).
Proof.
  split; [by intros i t ?|exists [], []|done]. split; [done|]. split; [by left|done].
Qed.

Lemma exec_coherent w ev : coherent w → coherent (exec w ev).
Proof.
  intros Hw. destruct ev as [e env|].
  - simpl. destruct (persist _ _ _ e env w) as [w' d] eqn:Hp. by apply (persist_coherent _ _ _ _ _ Hw Hp).
  - destruct Hw as [Hrot (es & rest & Hact & Hrest & _) _]. split; [done| |done]. exists es, rest. done.
Qed.

Lemma verify_prefix t s : verify_segment key (length t) (t ++ s) = verify_segment key (length t) t.
Proof. unfold verify_segment. by rewrite take_app_length, take_ge. Qed.

(** ** Tamper evidence *)

(** The signed entries of a text: its lines that are objects with an HMAC. *)
Definition signed_entry (raw : pystr) : option Entry :=
  if blank_bytes raw then None
  else match loads raw with
       | Some (JDict e) => _ ← dict_get e HMAC; Some e
       | _ => None
       end.

Definition signed_entries (text : pystr) : list Entry := omap signed_entry (readlines text).

(** What a verified entry says. *)
Definition link (prev : pystr) (e : Entry) : Prop :=
  dict_get e PREV_HMAC = Some (JStr prev) ∧ hmac_of e = Some (hexdigest key (canonical e)).

Fixpoint linked (prev : pystr) (es : list Entry) : Prop :=
  match es with
  | [] => True
  | e :: es => link prev e ∧ linked (hexdigest key (canonical e)) es
  end.

Lemma linked_last prev e es : link prev e → linked (hexdigest key (canonical e)) es →
  last_hmac prev (e :: es) = last_hmac (hexdigest key (canonical e)) es.
Proof.
  intros [_ Hh] Hes. apply last_hmac_cons; [done|]. clear Hh prev. revert Hes.
  generalize (hexdigest key (canonical e)). induction es as [|e' es IH]; intros p.
  - by intros _ e' ?%not_elem_of_nil.
  - intros [[_ Hh] Hes] e2 [->|Hin]%elem_of_cons; [by eexists|by eapply IH].
Qed.

Lemma linked_snoc prev es e : linked prev (es ++ [e]) ↔ linked prev es ∧ link (last_hmac prev es) e.
Proof.
  revert prev. induction es as [|e0 es IH]; intros prev; cbn [linked app]; [unfold last_hmac; simpl; tauto|].
  rewrite IH. split.
  - intros (H1 & H2 & H3). by rewrite linked_last.
  - intros ((H1 & H2) & H3). by rewrite linked_last in H3.
Qed.

Lemma compare_true a b : compare_digest a b = Some true → a = JStr b.
Proof.
  destruct a; simpl; try done. destruct (_ && _); [|done]. intros [= ->%bool_decide_eq_true]. done.
Qed.

Lemma get_str e k s : get e k = JStr s → dict_get e k = Some (JStr s).
Proof. unfold get. by destruct (dict_get e k) as [v|]; simpl; [intros ->|]. Qed.

Lemma verify_entry_link prev e : verify_entry key e prev = Some true → link prev e.
Proof.
  unfold verify_entry, link. destruct (_ || _); [done|].
  destruct (compare_digest (get e PREV_HMAC) prev) as [[]|] eqn:Hp; try done. intros Hh.
  apply compare_true, get_str in Hp, Hh. split; [done|]. unfold hmac_of. by rewrite Hh.
Qed.

(** What the verifier accepts is linked from its start. *)
Lemma verify_lines_linked prev n r lines :
  valid (verify_lines key prev n r lines) = true → linked prev (omap signed_entry lines).
Proof.
  revert prev n r. induction lines as [|raw lines IH]; intros prev n r; [done|].
  cbn [verify_lines omap list_omap]. unfold signed_entry at 1. destruct (blank_bytes raw); [apply IH|].
  destruct (loads raw) as [v|]; [|done]. destruct v as [| | | | | |e]; try done.
  destruct (dict_get e HMAC) as [v|] eqn:Hh; cbn [mbind option_bind]; [|destruct (_ =? 0); [apply IH|done]].
  destruct (verify_entry key e prev) as [[]|] eqn:Hv; try done.
  apply verify_entry_link in Hv. pose proof (proj2 Hv) as Hhm. rewrite Hhm.
  intros Hok. split; [done|]. by eapply IH.
Qed.

(** Equal up to the order of the keys. *)
Definition same_entry (e e' : Entry) : Prop :=
  sort_keys (JDict (dict_del e HMAC)) = sort_keys (JDict (dict_del e' HMAC)) ∧ hmac_of e = hmac_of e'.

(** Two texts with one HMAC, or one whose HMAC is the genesis hash. *)
Definition forged : Prop :=
  (∃ s s', s ≠ s' ∧ hexdigest key s = hexdigest key s') ∨ ∃ s, hexdigest key s = GENESIS_HASH.

Lemma canonical_inj e e' :
  canonical e = canonical e' →
  sort_keys (JDict (dict_del e HMAC)) = sort_keys (JDict (dict_del e' HMAC)) ∧
  ∀ s, dict_get e PREV_HMAC = Some (JStr s) → ∀ s', dict_get e' PREV_HMAC = Some (JStr s') → s = s'.
Proof.
  intros Hc. assert (Hs : sort_keys (JDict (dict_del e HMAC)) = sort_keys (JDict (dict_del e' HMAC))).
  { unfold canonical in Hc. apply (f_equal loads) in Hc. rewrite !loads_compact in Hc. congruence. }
  split; [done|]. intros s Hg s' Hg'. injection Hs as Hs. apply (f_equal (λ d, dict_get d PREV_HMAC)) in Hs.
  fold (sorted_items (dict_del e HMAC)) (sorted_items (dict_del e' HMAC)) in Hs.
  rewrite !dict_get_sorted, !dict_get_del, !(bool_decide_eq_false_2 (PREV_HMAC = HMAC)) in Hs by done.
  rewrite Hg, Hg' in Hs. simpl in Hs. congruence.
Qed.

Lemma linked_binding es es' :
  linked GENESIS_HASH es → linked GENESIS_HASH es' → last_hmac GENESIS_HASH es = last_hmac GENESIS_HASH es' →
  forged ∨ Forall2 same_entry es es'.
Proof.
  revert es'. induction es as [|e es IH] using rev_ind; intros es' Hl Hl' Hlast.
  - destruct es' as [|e' es' _] using rev_ind; [by right|]. left; right.
    apply linked_snoc in Hl' as [_ [_ Hh]]. rewrite (last_hmac_app _ _ _ _ Hh) in Hlast. by eexists.
  - apply linked_snoc in Hl as [Hl [Hp Hh]]. rewrite (last_hmac_app _ _ _ _ Hh) in Hlast.
    destruct es' as [|e' es' _] using rev_ind; [left; right; by eexists|].
    apply linked_snoc in Hl' as [Hl' [Hp' Hh']]. rewrite (last_hmac_app _ _ _ _ Hh') in Hlast.
    destruct (decide (canonical e = canonical e')) as [Hc|Hc]; [|by left; left; eauto].
    destruct (canonical_inj _ _ Hc) as [Hs Hprev]. specialize (Hprev _ Hp _ Hp').
    destruct (IH es' Hl Hl' Hprev) as [?|HF]; [by left|right].
    apply Forall2_app; [done|]. constructor; [|constructor]. split; [done|]. congruence.
Qed.

End theory.

#[local] Arguments verify_segment : simpl never.

(** C13: the log always verifies.  Whatever entries are logged, whichever opens,
    writes, renames, markers and syncs fail, with any number of bytes of a line left
    behind, and whenever the process dies and starts again: every rotated file
    verifies in full, and so does the active file up to its last complete line.
    Bytes of an incomplete line remain only while the logger refuses to append. *)
Theorem audit_log_verifies `{Codec, Mac} key max_bytes max_files events :
  let w := run (exec key max_bytes max_files) (boot empty_disk) events in
  (∀ i t, rotated (disk w) !! i = Some t →
     let r := verify_segment key (length t) t in valid r = true ∧ verified r = total r) ∧
  (∀ t, active (disk w) = Some t → ∃ n, (n <= length t)%nat ∧ LF ∉ drop n t ∧
     (let r := verify_segment key n t in valid r = true ∧ verified r = total r) ∧
     (chain_initialized (logger w) = true → repair_required (logger w) = false → n = length t)).
Proof.
  intros w. assert (Hw : coherent key w).
  { apply run_invariant; [apply coherent_boot|intros; by apply exec_coherent]. }
  destruct Hw as [Hrot (es & rest & Hact & Hrest & Hgood) _]. split.
  - intros i t Hi. destruct (Hrot _ _ Hi) as [es' ->]. by rewrite verify_text.
  - intros t Ht. unfold contents in Hact. rewrite Ht in Hact. cbn in Hact. subst t.
    exists (length (text_of (sign_all key GENESIS_HASH es))). rewrite length_app, drop_app_length, verify_prefix, verify_text.
    split; [lia|]. split; [by destruct Hrest as [->|(_ & ? & _)]; [apply not_elem_of_nil|]|].
    split; [done|]. intros Hi Hq. destruct (Hgood Hi Hq) as [-> _]. by rewrite Nat.add_0_r.
Qed.

(** an entry reported as persisted is on disk.  In every reachable state, if
    [persist] does not mark the entry as not persisted or as needing repair, then the
    active file ends with the line of that entry, after what it held before or, if
    the log has just rotated, after nothing, the old content being the newest rotated
    file. *)
Theorem persisted_entries_are_on_disk `{Codec, Mac} key max_bytes max_files events e env w' :
  let w := run (exec key max_bytes max_files) (boot empty_disk) events in
  persist (Some key) max_bytes max_files e env w = (w', Persisted) →
  ∃ p before, active (disk w') = Some (before ++ line_of (prepare key p e)) ∧
    (before = contents (disk w) ∨ before = [] ∧ rotated (disk w') !! 1%nat = active (disk w)).
Proof.
  intros w Hp. assert (Hw : coherent key w).
  { apply run_invariant; [apply coherent_boot|intros; by apply exec_coherent]. }
  by apply (persist_coherent key max_bytes max_files e env w w' Persisted).
Qed.

(** verification is binding.  If two texts verify under one key and their last
    signed entries carry the same HMAC, then they hold the same signed entries in the
    same order - same fields, same values, same HMACs - or the key's HMAC has a
    collision or hits the genesis hash.  So whoever keeps the last HMAC of a log
    notices any change, removal, insertion or reordering before it. *)
Theorem verified_logs_agree `{Codec, Mac} key text text' :
  valid (verify_segment key (length text) text) = true →
  valid (verify_segment key (length text') text') = true →
  last_hmac GENESIS_HASH (signed_entries text) = last_hmac GENESIS_HASH (signed_entries text') →
  forged key ∨ Forall2 same_entry (signed_entries text) (signed_entries text').
Proof.
  unfold verify_segment. rewrite !take_ge by done. intros Hv Hv' Hlast.
  apply linked_binding; [by eapply verify_lines_linked..|done].
Qed.

(** Cutting whole lines off the end of a log leaves a log that verifies. *)
Lemma truncated_log_verifies `{Codec, Mac} key es es' :
  let t := text_of (sign_all key GENESIS_HASH es) in
  (∃ s, text_of (sign_all key GENESIS_HASH (es ++ es')) = t ++ s) ∧
  valid (verify_segment key (length t) t) = true.
Proof.
  split; [|by rewrite verify_text]. induction es' as [|e es' IH] using rev_ind.
  - exists []. by rewrite !app_nil_r.
  - destruct IH as [s IH]. rewrite app_assoc, sign_all_snoc, text_of_snoc, IH, <- app_assoc. by eexists.
Qed.

(** ** Witnesses *)

Module AuditWitness.
Import Concrete.

Definition event (action : string) : Entry := [(lit "action", JStr (lit action)); (lit "n", JInt 1)].
Definition fine (a : Append) : Env :=
  {| init := {| readable := true; scannable := true; clears := true; unlinks := true; remarks := true |};
     stat_ok := true; renames := 9; append := a |}.
Definition secret : pystr := lit "key".

(** An entry, another whose marker fails, a restart, a third one. *)
Definition history : list Event := [Log (event "a") (fine Appended); Log (event "b") (fine Marker_fails); Restart].
Definition reached : World := run (exec secret 1000000 3) (boot empty_disk) history.

Lemma persisted_entries_are_on_disk_witness :
  ∃ p before, active (disk (fst (persist (Some secret) 1000000 3 (event "c") (fine Appended) reached)))
    = Some (before ++ line_of (prepare secret p (event "c"))) ∧
    (before = contents (disk reached) ∨
     before = [] ∧ rotated (disk (fst (persist (Some secret) 1000000 3 (event "c") (fine Appended) reached))) !! 1%nat
       = active (disk reached)).
Proof.
  refine (persisted_entries_are_on_disk secret 1000000 3 history (event "c") (fine Appended) _ _).
  vm_compute. reflexivity.
Defined.

(** The log of two entries, without and with an unsigned entry in front. *)
Definition short : pystr := text_of (sign_all secret GENESIS_HASH [event "a"; event "b"]).
Definition long : pystr := line_of (event "old") ++ short.

Lemma verified_logs_agree_witness :
  length (signed_entries short) = 2%nat ∧ (forged secret ∨ Forall2 same_entry (signed_entries short) (signed_entries long)).
Proof. split; [vm_compute; reflexivity|]. apply (verified_logs_agree secret short long); vm_compute; reflexivity. Defined.

(** Four entries, one per file; then the last rename of a rotation fails half way.
    Nothing is lost but the oldest file, yet the integrity check reports a missing
    file for as long as the gap lasts. *)
Definition gap : World :=
  run (exec secret 1 3) (boot empty_disk)
    (((λ a, Log (event a) (fine Appended)) <$> ["a"; "b"; "c"; "d"]) ++
     [Log (event "e") {| init := init (fine Appended); stat_ok := true; renames := 2; append := Appended |}]).

Lemma failed_rotation_reported_missing :
  ∃ segments, verify_integrity (Some secret) 3 (λ _, false) (disk gap) = Some (segments, false) ∧
    status <$> segments = [Verified; Verified; Absent; Verified].
Proof. eexists. split; vm_compute; reflexivity. Qed.

End AuditWitness.
