(* ===== verification/Tokens.v ===== *)
(** * API tokens (src/src/permissions/token_manager.py)

    The manager keeps a parsed copy of the token file and re-reads the file whenever
    its signature changes.  Other processes may change the file at any time; a bad
    file makes every credential unusable.  An authenticated caller holds a detached
    copy of its identity, valid as long as the very entry that issued it is current.

    Python objects are numbers: [serial] is the identity of a [_StoredToken], [obj]
    that of an issued copy, and [fresh_id] counts both.  An object that was collected
    is one nobody holds, so its number is never seen again.  A stat signature is a
    number; a file read under an unchanged signature is the file of that signature.
    Python takes [1], [1.0] and [True] for equal: values of a row that differ only in
    that way count as different here. *)

From S2P Require Import Prelude PyStr PyLib.
Open Scope string_scope.
Open Scope list_scope.
Open Scope Z_scope.
Local Open Scope odin_scope.

(** [_hash_token], the digest of [_fingerprint], and [str(v)] for any value. *)
Class TokenText := {
  hash_token : pystr → pystr;
  sha256_text : pystr → pystr;
  py_str : Json → pystr;
  hash_token_ascii s : ascii (hash_token s) = true;
  hash_token_nonempty s : nonempty (hash_token s) = true;
  py_str_str s : py_str (JStr s) = s
}.

(** ** Data *)

(** [ApiTokenIdentity] without its [token] field. *)
Record Identity : Type := {
  user_id : pystr;
  username : pystr;
  tier : pystr;
  allowed_tools : list pystr;
  allowed_hosts : option (list pystr);
  default_host : pystr;
  label : pystr
}.

#[export] Instance Identity_eq_dec : EqDecision Identity.
Proof. solve_decision. Defined.

(** [_StoredToken] *)
Record StoredToken : Type := {
  serial : nat;
  token_hash : Json;
  token_prefix : Json;
  identity : Identity
}.

(** An identity handed out: the object and its fields as the holder has them. *)
Record Issued : Type := { obj : nat; fields : Identity }.

Inductive Reason : Type :=
| Not_an_object
| Missing_fields
| Invalid_tier_field
| Invalid_tools
| Invalid_hosts
| Invalid_fields
| Shadowed.

#[export] Instance Reason_eq_dec : EqDecision Reason.
Proof. solve_decision. Defined.

Record Invalid : Type := { index : nat; reason : Reason; who : option pystr }.

Inductive Status : Type := Missing | Valid | Malformed | Unreadable.

#[export] Instance Status_eq_dec : EqDecision Status.
Proof. solve_decision. Defined.

Inductive FileContent : Type :=
| Cannot_read
| Not_json
| Holds (data : Json).

Inductive File : Type :=
| No_file
| Stat_error
| Present (signature : nat) (content : FileContent).

Record Manager : Type := {
  tokens : list (pystr * StoredToken);
  raw_entries : list Json;
  valid_positions : list (pystr * list nat);
  invalid_entries : list Invalid;
  store_status : Status;
  store_signature : option nat;
  has_guard : bool;
  protection_required : bool;
  issued : gmap nat nat
}.

Record World : Type := { file : File; mgr : Manager; fresh_id : nat }.

Inductive TokenError : Type :=
| Store_needs_repair
| Already_exists
| Invalid_tier
| Stat_failed
| Changed_before
| Changed_during
| Write_failed
| Last_credential
| Remove_unusable_first
| No_valid_entries
| Entry_changed.

#[export] Instance TokenError_eq_dec : EqDecision TokenError.
Proof. solve_decision. Defined.

Definition VALID_TIERS : list pystr := Eval compute in [lit "admin"; lit "user"; lit "guest"].

Section tokens.
Context `{Codec, TokenText}.

(** ** Reading the file *)

Definition field (e : list (pystr * Json)) (k : string) (d : Json) : Json :=
  default d (dict_get e (lit k)).

Fixpoint strings (vs : list Json) : option (list pystr) :=
  match vs with
  | [] => Some []
  | JStr s :: vs => (s ::.) <$> strings vs
  | _ => None
  end.

(** One row of the file: the reason it is unusable, or its hash, prefix and identity. *)
Definition parse_row (e : list (pystr * Json)) : result Reason (Json * Json * Identity) :=
  let uid := field e "user_id" (JStr []) in
  let th := field e "token_hash" (JStr []) in
  let tp := field e "token_prefix" (JStr []) in
  guard! truthy uid && truthy th else Missing_fields in
  let t := field e "tier" (JStr (lit "admin")) in
  match json_in_strs t VALID_TIERS with
  | None => Err Invalid_fields
  | Some false => Err Invalid_tier_field
  | Some true =>
      match field e "allowed_tools" (JList []) with
      | JList vs =>
          match strings vs with
          | None => Err Invalid_tools
          | Some tools =>
              let! hosts := match field e "allowed_hosts" JNull with
                            | JNull => Ok None
                            | JList hs => match strings hs with
                                          | Some hs => Ok (Some hs)
                                          | None => Err Invalid_hosts
                                          end
                            | _ => Err Invalid_hosts
                            end in
              match uid, t with
              | JStr u, JStr t =>
                  Ok (th, tp, {| user_id := u;
                                 username := py_str (field e "username" (JStr (lit "API")));
                                 tier := t; allowed_tools := tools; allowed_hosts := hosts;
                                 default_host := py_str (field e "default_host" (JStr []));
                                 label := py_str (field e "label" (JStr [])) |})
              | _, _ => Err Invalid_fields
              end
          end
      | _ => Err Invalid_tools
      end
  end.

Record Parsed : Type := {
  parsed : list (pystr * (Json * Json * Identity));
  positions : list (pystr * list nat);
  invalid : list Invalid
}.

Definition no_rows : Parsed := {| parsed := []; positions := []; invalid := [] |}.

Definition with_invalid (i : Invalid) (p : Parsed) : Parsed :=
  {| parsed := parsed p; positions := positions p; invalid := invalid p ++ [i] |}.

(** One iteration of [_parse_store]. *)
Definition add_row (i : nat) (v : Json) (p : Parsed) : Parsed :=
  match v with
  | JDict e =>
      match parse_row e with
      | Err why =>
          with_invalid {| index := i; reason := why;
                          who := match dict_get e (lit "user_id") with
                                 | Some (JStr u) => Some u
                                 | _ => None
                                 end |} p
      | Ok row =>
          let u := user_id row.2 in
          let earlier := default [] (dict_get (positions p) u) in
          let p := match last earlier with
                   | Some j => with_invalid {| index := j; reason := Shadowed; who := Some u |} p
                   | None => p
                   end in
          {| parsed := dict_set (parsed p) u row; positions := dict_set (positions p) u (earlier ++ [i]);
             invalid := invalid p |}
      end
  | _ => with_invalid {| index := i; reason := Not_an_object; who := None |} p
  end.

Fixpoint parse_rows (i : nat) (vs : list Json) (p : Parsed) : Parsed :=
  match vs with
  | [] => p
  | v :: vs => parse_rows (S i) vs (add_row i v p)
  end.

(** [_parse_store]; [None] is its [ValueError]. *)
Definition parse_store (data : Json) : option (list Json * Parsed) :=
  match data with
  | JList rows =>
      let p := parse_rows 0 rows no_rows in
      if negb (bool_decide (rows = [])) && bool_decide (parsed p = []) then None else Some (rows, p)
  | _ => None
  end.

(** ** State updates *)

Definition set_mgr (m : Manager) (w : World) : World :=
  {| file := file w; mgr := m; fresh_id := fresh_id w |}.
Definition set_file (f : File) (w : World) : World :=
  {| file := f; mgr := mgr w; fresh_id := fresh_id w |}.
Definition interfere (f : option File) (w : World) : World :=
  match f with Some f => set_file f w | None => w end.

Definition set_protection (b : bool) (m : Manager) : Manager :=
  {| tokens := tokens m; raw_entries := raw_entries m; valid_positions := valid_positions m;
     invalid_entries := invalid_entries m; store_status := store_status m;
     store_signature := store_signature m; has_guard := has_guard m; protection_required := b;
     issued := issued m |}.

(** The store is replaced by nothing, with a status. *)
Definition cleared (s : Status) (sig : option nat) (protect : bool) (m : Manager) : Manager :=
  {| tokens := []; raw_entries := []; valid_positions := []; invalid_entries := [];
     store_status := s; store_signature := sig; has_guard := has_guard m;
     protection_required := protect; issued := issued m |}.

(** [_invalidate_store] *)
Definition invalidate_store (s : Status) (sig : option nat) (w : World) : World :=
  set_mgr (cleared s sig true (mgr w)) w.

(** ** Refreshing *)

(** [_stat_signature]; [None] is an [OSError]. *)
Definition stat_signature (w : World) : option (option nat) :=
  match file w with
  | No_file => Some None
  | Stat_error => None
  | Present sig _ => Some (Some sig)
  end.

(** An unchanged entry keeps its object, any other gets a new one. *)
Definition install_one (old : list (pystr * StoredToken)) (next : nat) (u : pystr)
    (row : Json * Json * Identity) : StoredToken * nat :=
  let fresh := {| serial := next; token_hash := row.1.1; token_prefix := row.1.2; identity := row.2 |} in
  match dict_get old u with
  | Some prev =>
      if bool_decide (token_hash prev = row.1.1) && bool_decide (token_prefix prev = row.1.2)
         && bool_decide (identity prev = row.2)
      then (prev, S next) else (fresh, S next)
  | None => (fresh, S next)
  end.

Fixpoint install (old : list (pystr * StoredToken)) (next : nat)
    (rows : list (pystr * (Json * Json * Identity))) : list (pystr * StoredToken) * nat :=
  match rows with
  | [] => ([], next)
  | (u, row) :: rows =>
      let '(st, next) := install_one old next u row in
      let '(sts, next) := install old next rows in
      ((u, st) :: sts, next)
  end.

Definition adopt (rows : list Json) (p : Parsed) (sig : nat) (w : World) : World :=
  let '(sts, next) := install (tokens (mgr w)) (fresh_id w) (parsed p) in
  {| file := file w;
     mgr := {| tokens := sts; raw_entries := rows; valid_positions := positions p;
               invalid_entries := invalid p; store_status := Valid; store_signature := Some sig;
               has_guard := has_guard (mgr w);
               protection_required := protection_required (mgr w) || negb (bool_decide (sts = []));
               issued := issued (mgr w) |};
     fresh_id := next |}.

(** [_refresh_store]; [stable] is that the file did not change while it was read. *)
Definition refresh_store (force stable : bool) (w : World) : World :=
  match file w with
  | Stat_error => invalidate_store Unreadable None w
  | No_file =>
      if negb force && bool_decide (store_signature (mgr w) = None) then w
      else if bool_decide (store_status (mgr w) = Missing) then
        set_mgr (cleared Missing None (protection_required (mgr w)) (mgr w)) w
      else invalidate_store Unreadable None w
  | Present sig content =>
      if negb force && bool_decide (store_signature (mgr w) = Some sig) then w
      else if negb stable then invalidate_store Unreadable (Some sig) w
      else
        match content with
        | Cannot_read => invalidate_store Unreadable (Some sig) w
        | Not_json => invalidate_store Malformed (Some sig) w
        | Holds data =>
            match parse_store data with
            | None => invalidate_store Malformed (Some sig) w
            | Some (rows, p) => adopt rows p sig w
            end
        end
  end.

Definition bad (s : Status) : bool := match s with Malformed | Unreadable => true | _ => false end.

(** [__init__], with the guard [set_last_credential_guard] installs. *)
Definition boot (guard stable : bool) (f : File) (next : nat) : World :=
  refresh_store true stable
    {| file := f;
       mgr := {| tokens := []; raw_entries := []; valid_positions := []; invalid_entries := [];
                 store_status := Missing; store_signature := None; has_guard := guard;
                 protection_required := false; issued := ∅ |};
       fresh_id := next |}.

(** ** Authentication *)

(** [_IdentityIssuer.issue] and [matches]. *)
Definition issue (st : StoredToken) (w : World) : World * Issued :=
  ({| file := file w;
      mgr := {| tokens := tokens (mgr w); raw_entries := raw_entries (mgr w);
                valid_positions := valid_positions (mgr w);
                invalid_entries := invalid_entries (mgr w); store_status := store_status (mgr w);
                store_signature := store_signature (mgr w); has_guard := has_guard (mgr w);
                protection_required := protection_required (mgr w);
                issued := <[fresh_id w := serial st]> (issued (mgr w)) |};
      fresh_id := S (fresh_id w) |},
   {| obj := fresh_id w; fields := identity st |}).

Definition matches (m : Manager) (i : Issued) (entry : option StoredToken) : bool :=
  match issued m !! obj i, entry with
  | Some s, Some st => bool_decide (s = serial st) && bool_decide (fields i = identity st)
  | _, _ => false
  end.

(** [TokenAuthSnapshot] *)
Record Snapshot : Type := {
  credential_store_status : Status;
  credential_store_auth_required : bool;
  entries : list StoredToken
}.

Definition dynamic_auth_required (s : Snapshot) : bool := negb (bool_decide (length (entries s) = 0%nat)).

Definition auth_snapshot (stable : bool) (w : World) : World * Snapshot :=
  let w := refresh_store false stable w in
  let m := mgr w in
  let es := if bool_decide (store_status m = Valid) then (tokens m).*2 else [] in
  (w, {| credential_store_status := store_status m;
         credential_store_auth_required :=
           bad (store_status m) || (protection_required m && bool_decide (length es = 0%nat));
         entries := es |}).

Definition hash_matches (incoming : pystr) (st : StoredToken) : bool :=
  default false (compare_digest (token_hash st) incoming).

(** [TokenAuthSnapshot.resolve] and [get]. *)
Definition find_by_token (s : Snapshot) (raw_token : pystr) : option StoredToken :=
  if negb (nonempty raw_token) then None
  else List.find (hash_matches (hash_token raw_token)) (entries s).

Definition find_by_user (s : Snapshot) (u : pystr) : option StoredToken :=
  List.find (λ st, bool_decide (user_id (identity st) = u)) (entries s).

Definition issue_found (o : option StoredToken) (w : World) : World * option Issued :=
  match o with
  | Some st => let '(w, i) := issue st w in (w, Some i)
  | None => (w, None)
  end.

Definition resolve (stable : bool) (raw_token : pystr) (w : World) : World * option Issued :=
  let '(w, s) := auth_snapshot stable w in issue_found (find_by_token s raw_token) w.

Definition get (stable : bool) (u : pystr) (w : World) : World * option Issued :=
  let '(w, s) := auth_snapshot stable w in issue_found (find_by_user s u) w.

(** [ApiTokenManager.identity_is_current] *)
Definition identity_is_current (stable : bool) (i : Issued) (w : World) : World * bool :=
  let w := refresh_store false stable w in
  (w, matches (mgr w) i (dict_get (tokens (mgr w)) (user_id (fields i)))).

(** [identity.model_dump()] without the token. *)
Definition model_dump (i : Identity) : list (pystr * Json) :=
  [(lit "user_id", JStr (user_id i)); (lit "username", JStr (username i)); (lit "tier", JStr (tier i));
   (lit "allowed_tools", JList (JStr <$> allowed_tools i));
   (lit "allowed_hosts", match allowed_hosts i with Some hs => JList (JStr <$> hs) | None => JNull end);
   (lit "default_host", JStr (default_host i)); (lit "label", JStr (label i))].

Definition fingerprint (st : StoredToken) : pystr :=
  sha256_text (dumps_compact (sort_keys (JList
    [token_hash st; JDict ((lit "token", JStr []) :: model_dump (identity st))]))).

(** [TokenAuthSnapshot.identity_is_current], [issuer_fingerprint], [restore_identity]. *)
Definition snapshot_is_current (s : Snapshot) (i : Issued) (w : World) : bool :=
  negb (credential_store_auth_required s) && matches (mgr w) i (find_by_user s (user_id (fields i))).

Definition issuer_fingerprint (s : Snapshot) (i : Issued) (w : World) : option pystr :=
  if snapshot_is_current s i w then fingerprint <$> find_by_user s (user_id (fields i)) else None.

Definition restore_identity (s : Snapshot) (u fp : pystr) (w : World) : World * option Issued :=
  if credential_store_auth_required s then (w, None)
  else issue_found (List.find (λ st, bool_decide (user_id (identity st) = u)
                                     && bool_decide (fingerprint st = fp)) (entries s)) w.

(** ** Publication *)

Definition row_of (st : StoredToken) : Json :=
  JDict (model_dump (identity st) ++ [(lit "token_hash", token_hash st); (lit "token_prefix", token_prefix st)]).

(** The positions of the users that are dropped. *)
Definition removed (m : Manager) (desired : list (pystr * StoredToken)) : list nat :=
  mjoin ((λ '(u, ixs), if bool_decide (u ∈ desired.*1) then [] else ixs) <$> valid_positions m).

Fixpoint drop_rows (gone : list nat) (i : nat) (rows : list Json) : list Json :=
  match rows with
  | [] => []
  | r :: rows => if bool_decide (i ∈ gone) then drop_rows gone (S i) rows else r :: drop_rows gone (S i) rows
  end.

(** [sum(i < index for i in removed)] of the set [removed]. *)
Definition removed_before (gone : list nat) (i : nat) : nat :=
  length (List.filter (λ j, bool_decide (j ∈ gone)) (seq 0 i)).

Definition place (m : Manager) (gone : list nat) (data : list Json) (u : pystr) (st : StoredToken) : list Json :=
  match last (default [] (dict_get (valid_positions m) u)) with
  | Some i => if bool_decide (i ∈ gone) then data ++ [row_of st]
              else <[(i - removed_before gone i)%nat := row_of st]> data
  | None => data ++ [row_of st]
  end.

(** The rows [_save] writes. *)
Definition merged (m : Manager) (desired : list (pystr * StoredToken)) : list Json :=
  let gone := removed m desired in
  foldl (λ data '(u, st), place m gone data u st) (drop_rows gone 0 (raw_entries m)) desired.

(** What happens around a publication: the first refresh reads a stable file; while
    the guard is awaited other processes change the file and other requests refresh
    the manager; the guard's answer; another change before the check; the write; a
    change after it; the re-read is stable.  [new_signature] is that of the new file. *)
Inductive WriteOutcome : Type :=
| PreReplaceFailure
| Replaced (directory_synced : bool).

Record Env : Type := {
  stable : bool;
  during : list (File * bool);
  guard_answer : bool;
  before : option File;
  write : WriteOutcome;
  new_signature : nat;
  after : option File;
  stable_after : bool
}.

(** From the signature check of [_save] to the verified re-read; only [_save] then
    sets the protection itself. *)
Definition publish (env : Env) (protect : bool) (expected : option nat) (data : list Json) (w : World)
    : World * result TokenError bool :=
  let w := interfere (before env) w in
  match stat_signature w with
  | None => (w, Err Stat_failed)
  | Some sig =>
      if negb (bool_decide (sig = expected)) then
        (refresh_store true (stable_after env) w, Err Changed_before)
      else
        match write env with
        | PreReplaceFailure => (w, Err Write_failed)
        | Replaced synced =>
            let w := set_file (Present (new_signature env) (Holds (JList data))) w in
            let w := set_mgr (set_protection
                       (protection_required (mgr w) || (protect && negb (bool_decide (data = [])))) (mgr w)) w in
            let w := refresh_store true (stable_after env) (interfere (after env) w) in
            if negb (bool_decide (store_status (mgr w) = Valid))
               || negb (bool_decide (raw_entries (mgr w) = data))
            then (w, Err Changed_during) else (w, Ok synced)
        end
  end.

Definition tier_ok (st : StoredToken) : bool := bool_decide (tier (identity st) ∈ VALID_TIERS).

(** [_save]; [expected] is its [expected_signature]. *)
Definition save (env : Env) (allow_empty : bool) (expected : option nat)
    (desired : list (pystr * StoredToken)) (w : World) : World * result TokenError bool :=
  if negb (forallb (λ kv, tier_ok kv.2) desired) then (w, Err Invalid_tier)
  else
    let expected := match expected with Some s => Some s | None => store_signature (mgr w) end in
    let '(w, r) := publish env true expected (merged (mgr w) desired) w in
    match r with
    | Ok synced =>
        (if bool_decide (tokens (mgr w) = []) && allow_empty
         then set_mgr (set_protection false (mgr w)) w else w, Ok synced)
    | Err e => (w, Err e)
    end.

(** [_require_writable_store] *)
Definition require_writable (env : Env) (w : World) : World * bool :=
  let w := refresh_store false (stable env) w in (w, negb (bad (store_status (mgr w)))).

(** A new [_StoredToken] object. *)
Definition new_token (th tp : Json) (i : Identity) (w : World) : World * StoredToken :=
  ({| file := file w; mgr := mgr w; fresh_id := S (fresh_id w) |},
   {| serial := fresh_id w; token_hash := th; token_prefix := tp; identity := i |}).

(** Save a candidate in which [u] has a new object. *)
Definition save_entry (env : Env) (u : pystr) (th tp : Json) (i : Identity) (w : World)
    : World * result TokenError unit :=
  let '(w, st) := new_token th tp i w in
  let '(w, r) := save env false None (dict_set (tokens (mgr w)) u st) w in
  (w, let! _ := r in Ok tt).

(** ** Operations *)

(** [create_token]; [raw_token] is the new secret. *)
Definition create_token (env : Env) (raw_token : pystr) (i : Identity) (w : World)
    : World * result TokenError unit :=
  let '(w, ok) := require_writable env w in
  if negb ok then (w, Err Store_needs_repair)
  else
    match dict_get (tokens (mgr w)) (user_id i) with
    | Some _ => (w, Err Already_exists)
    | None => save_entry env (user_id i) (JStr (hash_token raw_token)) (JStr (take 8 raw_token)) i w
    end.

(** [update_token] with the fields already validated by the model; [g] replaces the
    fields named in the call, which never include the user. *)
Definition update_token (env : Env) (u : pystr) (g : Identity → Identity) (w : World)
    : World * result TokenError bool :=
  let '(w, ok) := require_writable env w in
  if negb ok then (w, Err Store_needs_repair)
  else
    match dict_get (tokens (mgr w)) u with
    | None => (w, Ok false)
    | Some st =>
        let '(w, r) := save_entry env u (token_hash st) (token_prefix st) (g (identity st)) w in
        (w, let! _ := r in Ok true)
    end.

(** [regenerate_token] *)
Definition regenerate_token (env : Env) (u raw_token : pystr) (w : World) : World * result TokenError bool :=
  let '(w, ok) := require_writable env w in
  if negb ok then (w, Err Store_needs_repair)
  else
    match dict_get (tokens (mgr w)) u with
    | None => (w, Ok false)
    | Some st =>
        let '(w, r) := save_entry env u (JStr (hash_token raw_token)) (JStr (take 8 raw_token)) (identity st) w in
        (w, let! _ := r in Ok true)
    end.

(** The refusal of [delete_token] to leave a file of unusable rows only. *)
Definition leaves_unusable (m : Manager) (u : pystr) : bool :=
  if negb (bool_decide (dict_del (tokens m) u = [])) || bool_decide (length (invalid_entries m) = 0%nat) then false
  else
    let gone := default [] (dict_get (valid_positions m) u) in
    match parse_store (JList (drop_rows gone 0 (raw_entries m))) with
    | Some (_, p) => negb (bool_decide (length (invalid p) = 0%nat)) && bool_decide (length (parsed p) = 0%nat)
    | None => existsb (λ i, negb (bool_decide (index i ∈ gone))) (invalid_entries m)
    end.

(** [_may_publish_candidate]: the guard may await. *)
Definition await_guard (env : Env) (w : World) : World :=
  if has_guard (mgr w) then foldl (λ w '(f, st), refresh_store false st (set_file f w)) w (during env) else w.

Definition may_publish (env : Env) (w : World) : bool := negb (has_guard (mgr w)) || guard_answer env.

(** [delete_token] *)
Definition delete_token (env : Env) (u : pystr) (w : World) : World * result TokenError bool :=
  let '(w, ok) := require_writable env w in
  if negb ok then (w, Err Store_needs_repair)
  else
    match dict_get (tokens (mgr w)) u with
    | None => (w, Ok false)
    | Some _ =>
        let expected := store_signature (mgr w) in
        let candidate := dict_del (tokens (mgr w)) u in
        if leaves_unusable (mgr w) u then (w, Err Remove_unusable_first)
        else
          let w := await_guard env w in
          if negb (may_publish env w) then (w, Err Last_credential)
          else
            let '(w, r) := save env (has_guard (mgr w)) expected candidate w in
            (w, let! _ := r in Ok true)
    end.

(** [remove_unusable_entry] *)
Definition remove_unusable_entry (env : Env) (i : nat) (why : Reason) (u : option pystr) (w : World)
    : World * result TokenError bool :=
  let '(w, ok) := require_writable env w in
  if negb ok then (w, Err Store_needs_repair)
  else if (length (raw_entries (mgr w)) <=? i)%nat then (w, Err Entry_changed)
  else
    match List.find (λ d, bool_decide (index d = i)) (invalid_entries (mgr w)) with
    | None => (w, Err Entry_changed)
    | Some d =>
        if negb (bool_decide (reason d = why)) || negb (bool_decide (who d = u)) then (w, Err Entry_changed)
        else
          let rows := drop_rows [i] 0 (raw_entries (mgr w)) in
          match parse_store (JList rows) with
          | None => (w, Err No_valid_entries)
          | Some _ =>
              let w := await_guard env w in
              if negb (may_publish env w) then (w, Err Last_credential)
              else let '(w, r) := publish env false (store_signature (mgr w)) rows w in (w, let! _ := r in Ok true)
          end
    end.

(** ** Listing *)

(** [list_tokens]: the identities with their masked prefixes; [None] is the [TypeError]
    of a prefix that is not a string. *)
Definition masked (st : StoredToken) : option (Identity * pystr) :=
  match token_prefix st with JStr p => Some (identity st, p ++ lit "...") | _ => None end.

Definition list_tokens (stable : bool) (w : World) : World * option (list (Identity * pystr)) :=
  let w := refresh_store false stable w in
  (w, if bool_decide (store_status (mgr w) = Valid) then mapM masked (tokens (mgr w)).*2 else Some []).

(** [invalid_entries]; [unusable_entry_count] is its length. *)
Definition diagnoses (stable : bool) (w : World) : World * list Invalid :=
  let w := refresh_store false stable w in (w, invalid_entries (mgr w)).

End tokens.
