(* ===== verification/TokensFile.v ===== *)
(** * API tokens: the file of rows

    Which row of the file speaks for a user, and that the rows [_save] writes say what
    was asked: the last row of a user is replaced, or one is appended, or all of them
    are dropped, and every other row stays. *)

From S2P Require Import Prelude PyStr PyLib Tokens.
Open Scope string_scope.
Open Scope list_scope.
Open Scope Z_scope.
Local Open Scope odin_scope.

Section file.
Context `{Codec, TokenText}.

Notation Row := (Json * Json * Identity)%type.

Definition content (st : StoredToken) : Row := (token_hash st, token_prefix st, identity st).

(** ** Rows and users *)

Definition usable (v : Json) : option Row :=
  match v with
  | JDict e => match parse_row e with Ok r => Some r | Err _ => None end
  | _ => None
  end.

Definition user_of (v : Json) : option pystr := (λ r, user_id r.2) <$> usable v.

Definition row_for (u : pystr) (v : Json) : option Row :=
  r ← usable v; if bool_decide (user_id r.2 = u) then Some r else None.

(** The rows of a user, as indices from [i]. *)
Fixpoint indices_for (u : pystr) (i : nat) (rows : list Json) : list nat :=
  match rows with
  | [] => []
  | v :: rows => if bool_decide (user_of v = Some u) then i :: indices_for u (S i) rows
                 else indices_for u (S i) rows
  end.

Lemma row_for_Some u v r : row_for u v = Some r ↔ usable v = Some r ∧ user_id r.2 = u.
Proof.
  unfold row_for. destruct (usable v) as [r'|]; simpl; [|naive_solver]. case_bool_decide; naive_solver.
Qed.

Lemma user_of_row u v r : row_for u v = Some r → user_of v = Some u.
Proof. intros [Hr Hu]%row_for_Some. unfold user_of. rewrite Hr. simpl. congruence. Qed.

Lemma row_for_None u v : row_for u v = None ↔ user_of v ≠ Some u.
Proof.
  unfold row_for, user_of. destruct (usable v) as [r|]; simpl; [|naive_solver].
  case_bool_decide; naive_solver.
Qed.

(** What one more row does. *)
Lemma add_row_parsed i v p u :
  dict_get (parsed (add_row i v p)) u =
    match row_for u v with Some r => Some r | None => dict_get (parsed p) u end.
Proof.
  unfold row_for, usable. destruct v as [| | | | | |e]; try done. simpl.
  destruct (parse_row e) as [r|why]; simpl; [|done].
  rewrite dict_get_set. destruct (last _); simpl; case_bool_decide; case_bool_decide; congruence.
Qed.

Lemma add_row_positions i v p u :
  dict_get (positions (add_row i v p)) u =
    if bool_decide (user_of v = Some u) then Some (default [] (dict_get (positions p) u) ++ [i])
    else dict_get (positions p) u.
Proof.
  unfold user_of, usable. destruct v as [| | | | | |e]; try done. simpl.
  destruct (parse_row e) as [r|why]; simpl; [|done].
  assert (Hl : ∀ (o : option nat), positions (match o with
      | Some j => with_invalid {| index := j; reason := Shadowed; who := Some (user_id r.2) |} p
      | None => p end) = positions p) by by intros [].
  rewrite Hl, dict_get_set. by repeat case_bool_decide; try congruence.
Qed.

Lemma parse_rows_parsed i rows p u :
  dict_get (parsed (parse_rows i rows p)) u =
    match last (omap (row_for u) rows) with Some r => Some r | None => dict_get (parsed p) u end.
Proof.
  revert i p. induction rows as [|v rows IH]; intros i p; [done|]. cbn [parse_rows omap list_omap].
  rewrite IH, add_row_parsed. destruct (row_for u v) as [r|]; [|done]. rewrite last_cons.
  by destruct (last _).
Qed.

Lemma parse_rows_positions i rows p u :
  default [] (dict_get (positions (parse_rows i rows p)) u)
  = default [] (dict_get (positions p) u) ++ indices_for u i rows.
Proof.
  revert i p. induction rows as [|v rows IH]; intros i p; simpl; [by rewrite app_nil_r|].
  rewrite IH, add_row_positions. case_bool_decide; simpl; [by rewrite <- app_assoc|done].
Qed.

Lemma parse_rows_NoDup i rows p :
  NoDup (parsed p).*1 → NoDup (positions p).*1 →
  NoDup (parsed (parse_rows i rows p)).*1 ∧ NoDup (positions (parse_rows i rows p)).*1.
Proof.
  revert i p. induction rows as [|v rows IH]; intros i p Ht Hp; [done|]. simpl. apply IH; clear IH.
  all: destruct v as [| | | | | |e]; try done; simpl; destruct (parse_row e) as [r|why]; try done; simpl.
  all: destruct (last _); simpl; by apply dict_set_NoDup.
Qed.

(** ** The row that speaks for a user *)

Record final (u : pystr) (rows : list Json) (k : nat) (r : Row) : Prop := {
  fin_at : ∃ v, rows !! k = Some v ∧ row_for u v = Some r;
  fin_last j v : (k < j)%nat → rows !! j = Some v → user_of v ≠ Some u
}.

Definition missing (u : pystr) (rows : list Json) : Prop := ∀ v, v ∈ rows → user_of v ≠ Some u.

Lemma missing_omap u rows : missing u rows → omap (row_for u) rows = [].
Proof.
  intros Hm. induction rows as [|v rows IH]; [done|]. cbn.
  rewrite (proj2 (row_for_None u v)) by (apply Hm; left). apply IH. intros v' ?. apply Hm. by right.
Qed.

Lemma final_omap u rows k r : final u rows k r → last (omap (row_for u) rows) = Some r.
Proof.
  intros [(v & Hv & Hr) Hl]. rewrite <- (take_drop_middle _ _ _ Hv), omap_app. cbn. rewrite Hr.
  rewrite (missing_omap u (drop (S k) rows)); [by rewrite last_snoc|]. intros v' (j & Hj)%list_elem_of_lookup.
  rewrite lookup_drop in Hj. eapply Hl; [|exact Hj]. lia.
Qed.

Lemma indices_last u i rows k :
  last (indices_for u i rows) = Some k → ∃ j r, k = (i + j)%nat ∧ final u rows j r.
Proof.
  revert i. induction rows as [|v rows IH]; intros i; simpl; [done|].
  assert (Hnext : last (indices_for u (S i) rows) = Some k → ∃ j r, k = (i + j)%nat ∧ final u (v :: rows) j r).
  { intros Hl. destruct (IH _ Hl) as (j & r & -> & [Hat Hla]). exists (S j), r. split; [lia|]. split; [done|].
    intros [|j'] v' Hlt; [lia|]. apply Hla. lia. }
  case_bool_decide as Hu; [|done]. rewrite last_cons.
  destruct (last (indices_for u (S i) rows)) as [k'|] eqn:Hl; [done|]. intros [= <-].
  destruct (row_for u v) as [r|] eqn:Hr; [|by apply row_for_None in Hr].
  exists 0%nat, r. split; [lia|]. split; [by exists v|]. intros [|j] v' Hlt Hj; [lia|]. simpl in Hj.
  intros Hu'. apply last_None in Hl. clear -Hl Hj Hu'. revert i j Hl Hj.
  induction rows as [|v0 rows IH]; intros i j Hl Hj; [done|]. simpl in Hl. case_bool_decide; [done|].
  destruct j; simplify_eq/=; eauto.
Qed.

Lemma indices_nil u i rows : last (indices_for u i rows) = None → missing u rows.
Proof.
  intros Hl. apply last_None in Hl. revert i Hl. induction rows as [|v rows IH]; intros i; simpl.
  { by intros _ v ?%not_elem_of_nil. }
  case_bool_decide; [done|]. intros Hl v' [->|Hin]%elem_of_cons; [done|]. by apply (IH (S i)).
Qed.

Lemma indices_elem u i rows k : k ∈ indices_for u i rows ↔ ∃ j v, k = (i + j)%nat ∧ rows !! j = Some v ∧ user_of v = Some u.
Proof.
  revert i. induction rows as [|v rows IH]; intros i; simpl.
  { split; [by intros ?%not_elem_of_nil|]. by intros (j & v & _ & ? & _). }
  assert (Hrest : k ∈ indices_for u (S i) rows ↔ ∃ j v', k = (i + S j)%nat ∧ rows !! j = Some v' ∧ user_of v' = Some u).
  { rewrite IH. split; intros (j & v' & -> & ?); exists j, v'; (split; [lia|done]). }
  case_bool_decide as Hu; rewrite ?elem_of_cons, Hrest; split.
  - intros [->|(j & v' & ? & ?)]; [exists 0%nat, v; split; [lia|done]|by exists (S j), v'].
  - intros ([|j] & v' & Hk & Hv & ?); [left; lia|right; by exists j, v'].
  - intros (j & v' & ? & ?). by exists (S j), v'.
  - intros ([|j] & v' & Hk & Hv & ?); [simplify_eq/=; congruence|by exists j, v'].
Qed.

(** Replacing the row that speaks for [u], or appending one. *)
Lemma final_replace u rows k r v r' : final u rows k r → row_for u v = Some r' → final u (<[k:=v]> rows) k r'.
Proof.
  intros [(v0 & Hv0 & _) Hl] Hr. split.
  - exists v. split; [|done]. apply list_lookup_insert_eq. by eapply lookup_lt_Some.
  - intros j v' Hlt. rewrite list_lookup_insert_ne by lia. by apply Hl.
Qed.

Lemma final_replace_other u u' rows k r v r' k' r1 :
  u ≠ u' → final u rows k r → row_for u v = Some r' → final u' rows k' r1 → final u' (<[k:=v]> rows) k' r1.
Proof.
  intros Hne [(v0 & Hv0 & Hr0) _] Hr [(v1 & Hv1 & Hr1) Hl]. split.
  - exists v1. split; [|done]. rewrite list_lookup_insert_ne; [done|]. intros ->. simplify_eq.
    apply user_of_row in Hr0, Hr1. congruence.
  - intros j v' Hlt [(-> & <- & _)|[_ Hj]]%list_lookup_insert_Some; [|by eapply Hl].
    apply user_of_row in Hr. congruence.
Qed.

Lemma missing_replace u u' rows k v r : u ≠ u' → row_for u v = Some r → missing u' rows → missing u' (<[k:=v]> rows).
Proof.
  intros Hne Hr Hm v' (j & [(-> & <- & _)|[_ Hj]]%list_lookup_insert_Some)%list_elem_of_lookup.
  - apply user_of_row in Hr. congruence.
  - apply Hm. by eapply list_elem_of_lookup_2.
Qed.

Lemma final_append u rows v r : row_for u v = Some r → final u (rows ++ [v]) (length rows) r.
Proof.
  intros Hr. split.
  - exists v. split; [|done]. by rewrite lookup_app_r, Nat.sub_diag.
  - intros j v' Hlt Hj. apply lookup_lt_Some in Hj. rewrite length_app in Hj. simpl in Hj. lia.
Qed.

Lemma final_append_other u u' rows v r k r1 :
  u ≠ u' → row_for u v = Some r → final u' rows k r1 → final u' (rows ++ [v]) k r1.
Proof.
  intros Hne Hr [(v1 & Hv1 & Hr1) Hl]. split; [exists v1; split; [by apply lookup_app_l_Some|done]|].
  intros j v' Hlt [Hj|[Hle Hj]]%lookup_app_Some; [by eapply Hl|]. apply list_lookup_singleton_Some in Hj as [_ <-].
  apply user_of_row in Hr. congruence.
Qed.

Lemma missing_append u u' rows v r : u ≠ u' → row_for u v = Some r → missing u' rows → missing u' (rows ++ [v]).
Proof.
  intros Hne Hr Hm v' [Hin| ->%list_elem_of_singleton]%elem_of_app; [by apply Hm|].
  apply user_of_row in Hr. congruence.
Qed.

(** ** Dropping rows *)

Lemma final_split u rows k r :
  final u rows k r → ∃ l1 v l2, rows = l1 ++ v :: l2 ∧ length l1 = k ∧ row_for u v = Some r ∧ missing u l2.
Proof.
  intros [(v & Hv & Hr) Hl]. exists (take k rows), v, (drop (S k) rows). split_and!; [|..|done|].
  - by rewrite take_drop_middle.
  - rewrite length_take. apply lookup_lt_Some in Hv. lia.
  - intros v' (j & Hj)%list_elem_of_lookup. rewrite lookup_drop in Hj. eapply Hl; [|exact Hj]. lia.
Qed.

Lemma final_join u l1 v l2 r : row_for u v = Some r → missing u l2 → final u (l1 ++ v :: l2) (length l1) r.
Proof.
  intros Hr Hm. split; [exists v; split; [by apply list_lookup_middle|done]|].
  intros j v' Hlt Hj. apply Hm. rewrite lookup_app_r in Hj by lia.
  destruct (j - length l1)%nat as [|j'] eqn:Hd; [lia|]. by eapply list_elem_of_lookup_2.
Qed.

Lemma drop_rows_app gone i l1 l2 :
  drop_rows gone i (l1 ++ l2) = drop_rows gone i l1 ++ drop_rows gone (i + length l1) l2.
Proof.
  revert i. induction l1 as [|v l1 IH]; intros i; simpl; [by rewrite Nat.add_0_r|].
  rewrite IH, Nat.add_succ_comm. by case_bool_decide.
Qed.

Lemma drop_rows_length gone i l :
  (length (drop_rows gone i l) + length (List.filter (λ j, bool_decide (j ∈ gone)) (seq i (length l))) = length l)%nat.
Proof.
  revert i. induction l as [|v l IH]; intros i; simpl; [done|]. specialize (IH (S i)).
  case_bool_decide; simpl; lia.
Qed.

Lemma drop_rows_elem gone i l v :
  v ∈ drop_rows gone i l → ∃ j, l !! j = Some v ∧ (i + j)%nat ∉ gone.
Proof.
  revert i. induction l as [|v0 l IH]; intros i; simpl; [by intros ?%not_elem_of_nil|].
  assert (Hr : v ∈ drop_rows gone (S i) l → ∃ j, (v0 :: l) !! j = Some v ∧ (i + j)%nat ∉ gone).
  { intros (j & Hj & Hn)%IH. exists (S j). split; [done|]. by rewrite <- Nat.add_succ_comm. }
  case_bool_decide; [done|]. intros [->|Hin]%elem_of_cons; [|by apply Hr].
  exists 0%nat. by rewrite Nat.add_0_r.
Qed.

Lemma missing_drop u gone i l : missing u l → missing u (drop_rows gone i l).
Proof. intros Hm v (j & Hj & _)%drop_rows_elem. apply Hm. by eapply list_elem_of_lookup_2. Qed.

(** A row that is kept still speaks for its user, at the place [_save] computes. *)
Lemma final_drop u rows k r gone :
  final u rows k r → k ∉ gone → final u (drop_rows gone 0 rows) (k - removed_before gone k) r.
Proof.
  intros (l1 & v & l2 & -> & Hk & Hr & Hm)%final_split Hg. rewrite drop_rows_app. simpl. rewrite Hk.
  rewrite bool_decide_eq_false_2 by done.
  replace (k - removed_before gone k)%nat with (length (drop_rows gone 0 l1)).
  { apply final_join; [done|]. by apply missing_drop. }
  pose proof (drop_rows_length gone 0 l1) as Hl. rewrite Hk in Hl. unfold removed_before. lia.
Qed.

(** A user whose rows are all dropped is gone. *)
Lemma missing_dropped u rows gone :
  (∀ k, k ∈ indices_for u 0 rows → k ∈ gone) → missing u (drop_rows gone 0 rows).
Proof.
  intros Hall v (j & Hj & Hn)%drop_rows_elem Hu. apply Hn, Hall, indices_elem. by exists j, v.
Qed.

(** ** The rows [_save] writes *)

(** [valid_positions] is the index of the rows. *)
Record indexed (m : Manager) : Prop := {
  ix_get u : default [] (dict_get (valid_positions m) u) = indices_for u 0 (raw_entries m);
  ix_nodup : NoDup (valid_positions m).*1
}.

Definition last_row (m : Manager) (u : pystr) : option nat :=
  last (default [] (dict_get (valid_positions m) u)).

Lemma removed_spec m desired k :
  indexed m → k ∈ removed m desired ↔ ∃ u, u ∉ desired.*1 ∧ k ∈ indices_for u 0 (raw_entries m).
Proof.
  intros [Hg Hn]. unfold removed. rewrite list_elem_of_join. split.
  - intros (ixs & Hk & ([u ixs'] & -> & Hin)%list_elem_of_fmap). case_bool_decide as Hu; [by apply not_elem_of_nil in Hk|].
    exists u. split; [done|]. by rewrite <- Hg, (dict_get_elem _ _ _ Hn Hin).
  - intros (u & Hu & Hk). rewrite <- Hg in Hk. destruct (dict_get (valid_positions m) u) as [ixs|] eqn:Hix; [|by apply not_elem_of_nil in Hk].
    exists ixs. split; [done|]. apply list_elem_of_fmap. exists (u, ixs). split; [by rewrite bool_decide_eq_false_2|]. by apply dict_get_Some_elem.
Qed.

Lemma kept m desired u k : indexed m → u ∈ desired.*1 → k ∈ indices_for u 0 (raw_entries m) → k ∉ removed m desired.
Proof.
  intros Hm Hu (j & v & -> & Hv & Hv')%indices_elem (u' & Hu' & (j' & v' & Hjj & Hj & Hj')%indices_elem)%removed_spec; [|done].
  simpl in Hjj. subst j'.
  simplify_eq/=. congruence.
Qed.

(** Where the row of a user who stays is, if there is one. *)
Definition at_last (u : pystr) (data : list Json) (o : option nat) : Prop :=
  match o with Some k => ∃ r, final u data k r | None => missing u data end.

Definition new_place (m : Manager) (desired : list (pystr * StoredToken)) (u : pystr) : option nat :=
  (λ i, i - removed_before (removed m desired) i)%nat <$> last_row m u.

Lemma dropped_stays m desired u :
  indexed m → u ∈ desired.*1 →
  at_last u (drop_rows (removed m desired) 0 (raw_entries m)) (new_place m desired u).
Proof.
  intros Hm Hu. unfold new_place, last_row. rewrite (ix_get _ Hm).
  destruct (last (indices_for u 0 (raw_entries m))) as [i|] eqn:Hl; simpl.
  - destruct (indices_last _ _ _ _ Hl) as (j & r & -> & Hf). exists r. apply final_drop; [done|].
    eapply kept; [done..|]. apply last_Some_elem_of in Hl. done.
  - apply missing_drop. by eapply indices_nil.
Qed.

Lemma dropped_goes m desired u :
  indexed m → u ∉ desired.*1 → missing u (drop_rows (removed m desired) 0 (raw_entries m)).
Proof. intros Hm Hu. apply missing_dropped. intros k Hk. apply removed_spec; [done|]. by exists u. Qed.

Definition says (st : StoredToken) (u : pystr) : Prop := row_for u (row_of st) = Some (content st).

(** The rows of [u] are as they were. *)
Definition same_rows (u : pystr) (data data' : list Json) : Prop :=
  (∀ k r, final u data k r → final u data' k r) ∧ (missing u data → missing u data').

Lemma place_spec m desired data u st :
  indexed m → u ∈ desired.*1 → says st u → at_last u data (new_place m desired u) →
  let data' := place m (removed m desired) data u st in
  (∃ k, final u data' k (content st)) ∧
  ∀ u', u ≠ u' → same_rows u' data data'.
Proof.
  intros Hm Hu Hs Hat. unfold place. fold (last_row m u). unfold new_place in Hat.
  assert (Happ : (∃ k, final u (data ++ [row_of st]) k (content st)) ∧
    ∀ u', u ≠ u' → same_rows u' data (data ++ [row_of st])).
  { split; [eexists; by apply final_append|]. intros u' Hne.
    split; [intros k r; by eapply final_append_other|by eapply missing_append]. }
  destruct (last_row m u) as [i|] eqn:Hl; simpl in Hat; [|exact Happ].
  rewrite bool_decide_eq_false_2.
  2: { eapply kept; [done..|]. unfold last_row in Hl. rewrite (ix_get _ Hm) in Hl. by apply last_Some_elem_of in Hl. }
  destruct Hat as [r Hf]. split; [eexists; by eapply final_replace|].
  intros u' Hne. split; [intros k' r'; by eapply final_replace_other|by eapply missing_replace].
Qed.

Lemma at_last_mono u data data' o :
  same_rows u data data' → at_last u data o → at_last u data' o.
Proof. intros [Hf Hm]. destruct o; simpl; [intros [r Hr]; eauto|auto]. Qed.

Definition place_all (m : Manager) (desired todo : list (pystr * StoredToken)) (data : list Json) : list Json :=
  foldl (λ data '(u, st), place m (removed m desired) data u st) data todo.

Lemma place_all_spec m desired todo data u :
  indexed m → NoDup todo.*1 → (∀ u st, (u, st) ∈ todo → u ∈ desired.*1 ∧ says st u) →
  (∀ u, u ∈ todo.*1 → at_last u data (new_place m desired u)) →
  match dict_get todo u with
  | Some st => ∃ k, final u (place_all m desired todo data) k (content st)
  | None => same_rows u data (place_all m desired todo data)
  end.
Proof.
  intros Hm. revert data. induction todo as [|[u0 st0] todo IH]; intros data Hnd Hall Hat; simpl; [done|].
  apply NoDup_cons in Hnd as [Hn0 Hnd]. destruct (Hall u0 st0) as [Hu0 Hs0]; [by left|].
  destruct (place_spec m desired data u0 st0) as [Hown Hoth]; [done..|apply Hat; by left|].
  set (data1 := place m (removed m desired) data u0 st0) in *.
  specialize (IH data1 Hnd ltac:(intros ? ? ?; apply Hall; by right)).
  specialize (IH ltac:(intros u' ?; eapply at_last_mono; [apply Hoth; by intros ->|apply Hat; by right])).
  fold (place_all m desired todo data1). case_bool_decide as Hc; [subst u|].
  - apply dict_get_None in Hn0. simpl in Hn0. rewrite Hn0 in IH. destruct Hown as [k Hk]. exists k. by apply IH.
  - destruct (dict_get todo u); [done|]. destruct (Hoth u) as [H1 H2]; [done|]. destruct IH. split; auto.
Qed.

(** The merged rows say exactly what is desired. *)
Lemma merged_rows m desired u :
  indexed m → NoDup desired.*1 → (∀ u st, (u, st) ∈ desired → says st u) →
  last (omap (row_for u) (merged m desired)) = content <$> dict_get desired u.
Proof.
  intros Hm Hnd Hs.
  pose proof (place_all_spec m desired desired (drop_rows (removed m desired) 0 (raw_entries m)) u Hm Hnd) as Hp.
  specialize (Hp ltac:(intros u' st Hin; split; [by apply (list_elem_of_fmap_2 fst) in Hin|by apply Hs])
                 ltac:(intros u' Hu'; by apply dropped_stays)).
  unfold merged. fold (place_all m desired desired (drop_rows (removed m desired) 0 (raw_entries m))).
  destruct (dict_get desired u) as [st|] eqn:Hg; simpl.
  - destruct Hp as [k Hk]. by eapply final_omap.
  - destruct Hp as [_ Hp]. rewrite missing_omap; [done|]. apply Hp, dropped_goes; [done|]. by apply dict_get_None.
Qed.

(** ** What a row says of the token it was written for *)

(** An entry the parser accepts, under its user. *)
Record fit (u : pystr) (st : StoredToken) : Prop := {
  fit_user : user_id (identity st) = u;
  fit_named : nonempty u = true;
  fit_hash : truthy (token_hash st) = true;
  fit_tier : tier_ok st = true
}.

Lemma strings_strs l : strings (JStr <$> l) = Some l.
Proof. induction l as [|s l IH]; [done|]. rewrite fmap_cons. cbn [strings]. by rewrite IH. Qed.

Lemma fit_says u st : fit u st → says st u.
Proof.
  intros [Hu Hn Hh Ht]. unfold says. apply row_for_Some. split; [|exact Hu]. unfold usable, row_of.
  assert (Hp : parse_row (model_dump (identity st) ++
    [(lit "token_hash", token_hash st); (lit "token_prefix", token_prefix st)]) = Ok (content st)); [|by rewrite Hp].
  set (e := _ ++ _). destruct (identity st) as [i_user i_name i_tier i_tools i_hosts i_default i_label] eqn:Hi.
  unfold tier_ok in Ht. rewrite Hi in Ht. unfold content. rewrite Hi. simpl in Hu, Ht. subst i_user.
  unfold parse_row.
  change (field e "user_id" _) with (JStr u). change (field e "token_hash" _) with (token_hash st).
  change (field e "token_prefix" _) with (token_prefix st). change (field e "tier" _) with (JStr i_tier).
  change (field e "allowed_tools" _) with (JList (JStr <$> i_tools)).
  change (field e "allowed_hosts" _) with (match i_hosts with Some hs => JList (JStr <$> hs) | None => JNull end).
  change (field e "username" _) with (JStr i_name). change (field e "default_host" _) with (JStr i_default).
  change (field e "label" _) with (JStr i_label). clearbody e.
  cbn [truthy json_in_strs]. rewrite Hn, Hh, Ht, strings_strs, !py_str_str. cbn [andb].
  destruct i_hosts as [hs|]; [by rewrite strings_strs|done].
Qed.

(** The parser only accepts fit entries. *)
Lemma parse_row_fit e th tp i :
  parse_row e = Ok (th, tp, i) →
  nonempty (user_id i) = true ∧ truthy th = true ∧ bool_decide (tier i ∈ VALID_TIERS) = true.
Proof.
  unfold parse_row. destruct (truthy (field e "user_id" _) && _) eqn:Htr; [|done]. apply andb_true_iff in Htr as [Hu Hh].
  destruct (json_in_strs (field e "tier" _) VALID_TIERS) as [[]|] eqn:Ht; [|done..].
  destruct (field e "allowed_tools" _); try done. destruct (strings _); [|done].
  match goal with |- (let! _ := ?h in _) = _ → _ => destruct h as [hosts|]; [|done] end. simpl.
  destruct (field e "user_id" _); try done. destruct (field e "tier" _); try done.
  intros [= <- <- <-]. simpl in *. split_and!; [done..|]. congruence.
Qed.

Lemma row_for_fit u v st : row_for u v = Some (content st) → fit u st.
Proof.
  intros [Hr Hu]%row_for_Some. unfold usable in Hr. destruct v as [| | | | | |e]; try done.
  destruct (parse_row e) as [[[th tp] i]|] eqn:Hp; [|done]. injection Hr as -> -> ->.
  destruct (parse_row_fit _ _ _ _ Hp) as (? & ? & ?). simpl in Hu. split; [done|congruence|done..].
Qed.

Lemma last_row_for_fit u rows st : last (omap (row_for u) rows) = Some (content st) → fit u st.
Proof.
  intros Hl%last_Some_elem_of. apply list_elem_of_omap in Hl as (v & _ & Hv). by eapply row_for_fit.
Qed.

(** ** Unusable rows *)

Lemma parse_rows_snoc i rows v p :
  parse_rows i (rows ++ [v]) p = add_row (i + length rows) v (parse_rows i rows p).
Proof.
  revert i p. induction rows as [|v0 rows IH]; intros i p; simpl; [by rewrite Nat.add_0_r|].
  by rewrite IH, Nat.add_succ_comm.
Qed.

Lemma final_snoc u rows v k r :
  final u (rows ++ [v]) k r → user_of v = Some u ∧ k = length rows ∨ user_of v ≠ Some u ∧ final u rows k r.
Proof.
  intros [(v1 & Hv1 & Hr1) Hl]. destruct (decide (user_of v = Some u)) as [Hu|Hu]; [left|right]; (split; [done|]).
  - apply lookup_lt_Some in Hv1 as Hlt. rewrite length_app in Hlt. simpl in Hlt.
    destruct (decide (k = length rows)); [done|]. exfalso. apply (Hl (length rows) v); [lia| |done].
    by rewrite lookup_app_r, Nat.sub_diag.
  - split.
    + exists v1. split; [|done]. apply lookup_app_Some in Hv1 as [|[_ Hv1]]; [done|].
      apply list_lookup_singleton_Some in Hv1 as [_ <-]. by apply user_of_row in Hr1.
    + intros j v' Hlt Hj. apply (Hl j); [done|]. by apply lookup_app_l_Some.
Qed.

(** What one more row makes unusable: itself, or the row its user had. *)
Lemma add_row_invalid i v p d :
  d ∈ invalid (add_row i v p) →
  d ∈ invalid p ∨ index d = i ∧ usable v = None ∨
  ∃ u, user_of v = Some u ∧ index d ∈ default [] (dict_get (positions p) u).
Proof.
  assert (Hone : ∀ x, d ∈ invalid p ++ [x] → d ∈ invalid p ∨ d = x).
  { intros x [|Hx%list_elem_of_singleton]%elem_of_app; auto. }
  unfold user_of, usable. destruct v as [| | | | | |e]; simpl;
    try by (intros [| ->]%Hone; [by left|by right; left]).
  destruct (parse_row e) as [r|why]; simpl; [|by intros [| ->]%Hone; [by left|by right; left]].
  destruct (last (default [] (dict_get (positions p) (user_id r.2)))) as [j|] eqn:Hj; simpl; [|by left].
  intros [| ->]%Hone; [by left|]. right; right. exists (user_id r.2). split; [done|]. simpl.
  by apply last_Some_elem_of.
Qed.

(** The row that speaks for a user is never among the unusable ones. *)
Lemma invalid_not_final rows d :
  d ∈ invalid (parse_rows 0 rows no_rows) →
  (index d < length rows)%nat ∧ ∀ u k r, final u rows k r → index d ≠ k.
Proof.
  induction rows as [|v rows IH] using rev_ind; [by intros ?%not_elem_of_nil|].
  rewrite parse_rows_snoc, length_app. simpl. intros [Hd|[[ -> Hu]|(u & Hu & Hd)]]%add_row_invalid.
  - destruct (IH Hd) as [Hlt Hf]. split; [lia|].
    intros u k r [[_ ->]|[_ Hk]]%final_snoc; [lia|by eapply Hf].
  - split; [lia|]. intros u k r [[Hv _]|[_ [(v' & Hv' & _) _]]]%final_snoc; [unfold user_of in Hv; by rewrite Hu in Hv|].
    apply lookup_lt_Some in Hv'. lia.
  - rewrite parse_rows_positions in Hd. simpl in Hd. apply indices_elem in Hd as (j & v' & Hj & Hv' & Hu'). rewrite Hj.
    apply lookup_lt_Some in Hv' as Hlt. split; [lia|].
    intros u1 k r [[_ ->]|[Hne [(v1 & Hv1 & Hr1) _]]]%final_snoc; [lia|]. intros <-. simpl in Hv1. simplify_eq.
    apply user_of_row in Hr1. congruence.
Qed.

(** Dropping an unusable row leaves every user with the same row. *)
Lemma drop_invalid rows i u :
  (∀ k r, final u rows k r → i ≠ k) →
  last (omap (row_for u) (drop_rows [i] 0 rows)) = last (omap (row_for u) rows).
Proof.
  intros Hi. destruct (last (indices_for u 0 rows)) as [k|] eqn:Hl.
  - apply indices_last in Hl as (j & r & -> & Hf). rewrite (final_omap _ _ _ _ Hf).
    eapply final_omap, final_drop; [exact Hf|]. intros Hin%list_elem_of_singleton. by eapply (Hi j r).
  - apply indices_nil in Hl. by rewrite !missing_omap by (try apply missing_drop; done).
Qed.

End file.
