(* ===== verification/TokensTheory.v ===== *)
(** * Theorems about API tokens

    Over any sequence of calls and of changes of the file by others: an identity that
    lost its credential never gets it back, a store that once protected the listener
    never opens it again by itself, and a successful change is exactly that change. *)

From S2P Require Import Prelude PyStr PyLib Tokens TokensFile.
Open Scope string_scope.
Open Scope list_scope.
Open Scope Z_scope.

#[local] Arguments auth_snapshot : simpl never.

Section theory.
Context `{Codec, TokenText}.

(** ** Runs *)

Inductive Event : Type :=
| External (f : File)
| Snapshot_ (st : bool)
| Resolve (st : bool) (raw : pystr)
| Get (st : bool) (u : pystr)
| Current (st : bool) (i : Issued)
| Restore (st : bool) (u fp : pystr)
| Create (env : Env) (raw : pystr) (i : Identity)
| Update (env : Env) (u : pystr) (g : Identity → Identity)
| Regenerate (env : Env) (u raw : pystr)
| Delete (env : Env) (u : pystr)
| Remove (env : Env) (i : nat) (why : Reason) (u : option pystr).

Definition exec (w : World) (ev : Event) : World :=
  match ev with
  | External f => set_file f w
  | Snapshot_ st => (auth_snapshot st w).1
  | Resolve st raw => (resolve st raw w).1
  | Get st u => (get st u w).1
  | Current st i => (identity_is_current st i w).1
  | Restore st u fp => let '(w, s) := auth_snapshot st w in (restore_identity s u fp w).1
  | Create env raw i => (create_token env raw i w).1
  | Update env u g => (update_token env u g w).1
  | Regenerate env u raw => (regenerate_token env u raw w).1
  | Delete env u => (delete_token env u w).1
  | Remove env i why u => (remove_unusable_entry env i why u w).1
  end.

Lemma publish_ok env protect expected data w w' b :
  publish env protect expected data w = (w', Ok b) →
  store_status (mgr w') = Valid ∧ raw_entries (mgr w') = data.
Proof.
  unfold publish. destruct (stat_signature _); [|done]. destruct (negb _); [done|]. destruct (write env); [done|].
  destruct (_ || _) eqn:Hc; [done|]. intros [= <- _]. by bool_prop.
Qed.

Lemma refresh_guard force st w : has_guard (mgr (refresh_store force st w)) = has_guard (mgr w).
Proof.
  unfold refresh_store, invalidate_store, adopt. repeat case_match; try done; simplify_eq; done.
Qed.

Lemma await_guarded env w : has_guard (mgr (await_guard env w)) = has_guard (mgr w).
Proof.
  unfold await_guard. destruct (has_guard (mgr w)) eqn:Hg; [|done].
  generalize (during env). intros l. revert w Hg. induction l as [|[f st] l IH]; intros w Hg; simpl; [done|].
  apply IH. by rewrite refresh_guard.
Qed.

(** ** What every operation is made of *)

(** A relation between worlds that the elementary changes respect. *)
Record closed (R : World → World → Prop) : Prop := {
  cl_refl w : R w w;
  cl_trans w1 w2 w3 : R w1 w2 → R w2 w3 → R w1 w3;
  cl_file f w : R w (set_file f w);
  cl_refresh force st w : R w (refresh_store force st w);
  cl_issue st w : st ∈ (tokens (mgr w)).*2 → R w (issue st w).1;
  cl_new th tp i w : R w (new_token th tp i w).1;
  cl_protect b w : R w (set_mgr (set_protection (protection_required (mgr w) || b) (mgr w)) w)
}.

Section closed.
Context {R : World → World → Prop} (HR : closed R).

Lemma closed_publish env protect expected data w : R w (publish env protect expected data w).1.
Proof.
  assert (Hi : ∀ f w, R w (interfere f w)) by (intros [f|] w'; [apply (cl_file _ HR)|apply (cl_refl _ HR)]).
  unfold publish. eapply (cl_trans _ HR); [apply (Hi (before env) w)|].
  set (w1 := interfere (before env) w). clearbody w1.
  destruct (stat_signature w1) as [sig|]; [|apply (cl_refl _ HR)].
  destruct (negb _); [apply (cl_refresh _ HR)|]. destruct (write env); [apply (cl_refl _ HR)|].
  match goal with |- R _ (if ?c then (?x, _) else _).1 => enough (R w1 x) by by destruct c end.
  eapply (cl_trans _ HR); [apply (cl_file _ HR)|]. eapply (cl_trans _ HR); [apply (cl_protect _ HR)|].
  eapply (cl_trans _ HR); [apply (Hi (after env))|]. apply (cl_refresh _ HR).
Qed.

(** [_save] may drop the protection once the last token is deleted under a guard. *)
Definition unprotects (R : World → World → Prop) : Prop :=
  ∀ w, tokens (mgr w) = [] → store_status (mgr w) = Valid → R w (set_mgr (set_protection false (mgr w)) w).

Lemma closed_await env w : R w (await_guard env w).
Proof.
  unfold await_guard. destruct (has_guard _); [|apply (cl_refl _ HR)].
  generalize (during env). intros l. revert w. induction l as [|[f st] l IH]; intros w; simpl; [apply (cl_refl _ HR)|].
  eapply (cl_trans _ HR); [|apply IH]. eapply (cl_trans _ HR); [apply (cl_file _ HR)|apply (cl_refresh _ HR)].
Qed.

Lemma closed_save env ae expected desired w : (ae = true → unprotects R) → R w (save env ae expected desired w).1.
Proof.
  intros Hae. unfold save. destruct (negb _); [apply (cl_refl _ HR)|]. cbv zeta. set (ex := match expected with Some s => Some s | None => _ end).
  pose proof (closed_publish env true ex (merged (mgr w) desired) w) as Hp.
  destruct (publish _ _ _ _ _) as [w1 [synced|e]] eqn:Hpub; [|done]. simpl in *.
  destruct (bool_decide _ && ae) eqn:Hc; [|done]. apply andb_true_iff in Hc as [Ht ->].
  eapply (cl_trans _ HR); [exact Hp|]. bool_prop. apply Hae; [done..|]. by eapply publish_ok.
Qed.

Lemma closed_save_entry env u th tp i w : R w (save_entry env u th tp i w).1.
Proof.
  unfold save_entry. pose proof (cl_new _ HR th tp i w) as Hn. destruct (new_token th tp i w) as [w1 st].
  pose proof (closed_save env false None (dict_set (tokens (mgr w1)) u st) w1 ltac:(done)) as Hs.
  destruct (save _ _ _ _ _) as [w2 r]. by eapply (cl_trans _ HR).
Qed.

Lemma closed_require env w : R w (require_writable env w).1.
Proof. apply (cl_refresh _ HR). Qed.

Lemma closed_issue_found o w :
  (∀ st, o = Some st → st ∈ (tokens (mgr w)).*2) → R w (issue_found o w).1.
Proof. intros Ho. destruct o as [st|]; [by apply (cl_issue _ HR), Ho|apply (cl_refl _ HR)]. Qed.

Lemma find_elem {A} (f : A → bool) l x : List.find f l = Some x → x ∈ l.
Proof. intros Hx. apply list_elem_of_In. by apply find_some in Hx as [? _]. Qed.

Lemma snapshot_entries st w w' s x :
  auth_snapshot st w = (w', s) → x ∈ entries s → x ∈ (tokens (mgr w')).*2.
Proof.
  unfold auth_snapshot. intros [= <- <-]. simpl. case_bool_decide; [done|]. by intros ?%not_elem_of_nil.
Qed.

Lemma closed_snapshot st w : R w (auth_snapshot st w).1.
Proof. apply (cl_refresh _ HR). Qed.

(** Every call, except a deletion under a guard. *)
Lemma closed_exec w ev :
  (∀ env u, ev = Delete env u → (has_guard (mgr (refresh_store false (stable env) w)) = true → unprotects R)) →
  R w (exec w ev).
Proof.
  intros Hdel.
  destruct ev as [f|st|st raw|st u|st i|st u fp|env raw i|env u g|env u raw|env u|env i why u]; cbn [exec].
  - apply (cl_file _ HR).
  - apply closed_snapshot.
  - unfold resolve. pose proof (closed_snapshot st w) as Hs.
    destruct (auth_snapshot st w) as [w1 s] eqn:Hsn. eapply (cl_trans _ HR); [exact Hs|]. apply closed_issue_found.
    intros x Hx. eapply snapshot_entries; [exact Hsn|]. unfold find_by_token in Hx. destruct (negb _); [done|]. by eapply find_elem.
  - unfold get. pose proof (closed_snapshot st w) as Hs.
    destruct (auth_snapshot st w) as [w1 s] eqn:Hsn. eapply (cl_trans _ HR); [exact Hs|]. apply closed_issue_found.
    intros x Hx. eapply snapshot_entries; [exact Hsn|]. by eapply find_elem.
  - apply (cl_refresh _ HR).
  - pose proof (closed_snapshot st w) as Hs. destruct (auth_snapshot st w) as [w1 s] eqn:Hsn.
    eapply (cl_trans _ HR); [exact Hs|]. unfold restore_identity.
    destruct (credential_store_auth_required s); [apply (cl_refl _ HR)|apply closed_issue_found].
    intros x Hx. eapply snapshot_entries; [exact Hsn|]. by eapply find_elem.
  - unfold create_token, require_writable. cbv beta iota zeta. eapply (cl_trans _ HR); [apply (cl_refresh _ HR false (stable env))|].
    set (w' := refresh_store false (stable env) w).
    destruct (negb _); [apply (cl_refl _ HR)|]. destruct (dict_get _ _); [apply (cl_refl _ HR)|]. apply closed_save_entry.
  - unfold update_token, require_writable. cbv beta iota zeta. eapply (cl_trans _ HR); [apply (cl_refresh _ HR false (stable env))|].
    set (w' := refresh_store false (stable env) w).
    destruct (negb _); [apply (cl_refl _ HR)|]. destruct (dict_get _ _) as [s|]; [|apply (cl_refl _ HR)].
    pose proof (closed_save_entry env u (token_hash s) (token_prefix s) (g (identity s)) w') as Hs.
    by destruct (save_entry _ _ _ _ _ _).
  - unfold regenerate_token, require_writable. cbv beta iota zeta. eapply (cl_trans _ HR); [apply (cl_refresh _ HR false (stable env))|].
    set (w' := refresh_store false (stable env) w).
    destruct (negb _); [apply (cl_refl _ HR)|]. destruct (dict_get _ _) as [s|]; [|apply (cl_refl _ HR)].
    pose proof (closed_save_entry env u (JStr (hash_token raw)) (JStr (take 8 raw)) (identity s) w') as Hs.
    by destruct (save_entry _ _ _ _ _ _).
  - unfold delete_token, require_writable. cbv beta iota zeta. eapply (cl_trans _ HR); [apply (cl_refresh _ HR false (stable env))|].
    specialize (Hdel env u eq_refl). set (w' := refresh_store false (stable env) w) in *.
    destruct (negb _); [apply (cl_refl _ HR)|]. destruct (dict_get _ _) as [s|]; [|apply (cl_refl _ HR)].
    destruct (leaves_unusable _ _); [apply (cl_refl _ HR)|]. cbv zeta. eapply (cl_trans _ HR); [apply (closed_await env w')|].
    rewrite <- (await_guarded env w') in Hdel. set (w2 := await_guard env w') in *. destruct (negb _); [apply (cl_refl _ HR)|].
    pose proof (closed_save env (has_guard (mgr w2)) (store_signature (mgr w')) (dict_del (tokens (mgr w')) u) w2 Hdel) as Hs.
    by destruct (save _ _ _ _ _).
  - unfold remove_unusable_entry, require_writable. cbv beta iota zeta. eapply (cl_trans _ HR); [apply (cl_refresh _ HR false (stable env))|].
    set (w' := refresh_store false (stable env) w).
    destruct (negb _); [apply (cl_refl _ HR)|]. destruct (_ <=? _)%nat; [apply (cl_refl _ HR)|].
    destruct (List.find _ _) as [d|]; [|apply (cl_refl _ HR)]. destruct (_ || _); [apply (cl_refl _ HR)|].
    destruct (parse_store _) as [p|]; [|apply (cl_refl _ HR)]. cbv zeta.
    eapply (cl_trans _ HR); [apply (closed_await env w')|]. set (w2 := await_guard env w') in *.
    destruct (negb _); [apply (cl_refl _ HR)|].
    pose proof (closed_publish env false (store_signature (mgr w2)) (drop_rows [i] 0 (raw_entries (mgr w'))) w2) as Hp.
    by destruct (publish _ _ _ _ _).
Qed.
End closed.

Lemma closed_run (R : World → World → Prop) (P : Event → Prop) w evs :
  closed R → (∀ w ev, P ev → R w (exec w ev)) → Forall P evs → R w (run exec w evs).
Proof.
  intros HR Hstep HP. revert w. induction HP as [|ev evs Hev HP IH]; intros w; simpl; [apply (cl_refl _ HR)|].
  eapply (cl_trans _ HR); [by apply Hstep|apply IH].
Qed.

Lemma closed_run_all R w evs : closed R → unprotects R → R w (run exec w evs).
Proof.
  intros HR Hun. apply (closed_run R (λ _, True)); [done| |by apply Forall_true].
  intros w' ev _. apply closed_exec; auto.
Qed.

(** ** Installing a file *)

Lemma install_next old next rows : (next <= (install old next rows).2)%nat.
Proof.
  revert next. induction rows as [|[u row] rows IH]; intros next; simpl; [lia|].
  destruct (install_one old next u row) as [st next1] eqn:H1.
  assert (next1 = S next) as ->.
  { unfold install_one in H1. destruct (dict_get old u); [destruct (_ && _ && _)|]; by injection H1 as _ <-. }
  specialize (IH (S next)). destruct (install old (S next) rows). simpl in *. lia.
Qed.

(** Every installed entry is the old object of its user or a new one. *)
Lemma install_objects old next rows u st :
  (u, st) ∈ (install old next rows).1 →
  dict_get old u = Some st ∨ (next <= serial st < (install old next rows).2)%nat.
Proof.
  revert next. induction rows as [|[u' row] rows IH]; intros next; simpl; [by intros ?%not_elem_of_nil|].
  destruct (install_one old next u' row) as [st' next1] eqn:H1.
  assert (Hone : next1 = S next ∧ (dict_get old u' = Some st' ∨ serial st' = next)).
  { unfold install_one in H1. destruct (dict_get old u'); [destruct (_ && _ && _)|]; injection H1 as <- <-; auto. }
  destruct Hone as [-> Hone]. pose proof (install_next old (S next) rows) as Hn.
  specialize (IH (S next)). destruct (install old (S next) rows) as [sts next']. simpl in *.
  intros [[= -> ->]|Hin]%elem_of_cons; [destruct Hone; [by left|right; lia]|].
  destruct (IH Hin); [by left|right; lia].
Qed.

Lemma parse_store_Some data rows p :
  parse_store data = Some (rows, p) → data = JList rows ∧ p = parse_rows 0 rows no_rows.
Proof. destruct data; try done. simpl. destruct (_ && _); [done|]. by intros [= -> <-]. Qed.

(** What a refresh does to the table of tokens. *)
Lemma refresh_cases force st w :
  force = false ∧ refresh_store force st w = w ∨
  (∃ s sig p, refresh_store force st w = set_mgr (cleared s sig p (mgr w)) w ∧ s ≠ Valid ∧
     (p = true ∨ bad s = false ∧ p = protection_required (mgr w))) ∨
  ∃ rows sig, (file w = Present sig (Holds (JList rows)) ∧ parse_store (JList rows) = Some (rows, parse_rows 0 rows no_rows)) ∧
    refresh_store force st w = adopt rows (parse_rows 0 rows no_rows) sig w.
Proof.
  unfold refresh_store, invalidate_store. destruct (file w) as [| |sig cont].
  - destruct (negb force && _) eqn:Hforce; [left; by destruct force|]. right; left. destruct (bool_decide (store_status _ = _)); do 3 eexists; (split; [reflexivity|]); auto.
  - right; left. do 3 eexists. split; [reflexivity|]. auto.
  - destruct (negb force && _) eqn:Hforce; [left; by destruct force|]. destruct (negb st); [right; left; do 3 eexists; (split; [reflexivity|]); auto|].
    destruct cont as [| |data]; [right; left; do 3 eexists; (split; [reflexivity|]); by auto..|].
    destruct (parse_store data) as [[rows p]|] eqn:Hp.
    { right; right. apply parse_store_Some in Hp as Hp'. destruct Hp' as [-> ->]. by do 2 eexists. }
    right; left. do 3 eexists. split; [reflexivity|]. auto.
Qed.

(** ** The table is the file *)

Lemma install_one_content old next u row : content (install_one old next u row).1 = row.
Proof.
  destruct row as [[th tp] i]. unfold install_one. destruct (dict_get old u) as [prev|]; [|done].
  destruct (_ && _ && _) eqn:Hc; [|done]. bool_prop. unfold content. simpl in *. congruence.
Qed.

Lemma install_content old next rows u : content <$> dict_get (install old next rows).1 u = dict_get rows u.
Proof.
  revert next. induction rows as [|[u' row] rows IH]; intros next; simpl; [done|].
  pose proof (install_one_content old next u' row) as Hc. destruct (install_one old next u' row) as [st next1].
  specialize (IH next1). destruct (install old next1 rows). simpl in *. case_bool_decide; [by rewrite <- Hc|done].
Qed.

Lemma install_keys old next rows : (install old next rows).1.*1 = rows.*1.
Proof.
  revert next. induction rows as [|[u' row] rows IH]; intros next; simpl; [done|].
  destruct (install_one old next u' row) as [st next1]. specialize (IH next1).
  destruct (install old next1 rows). simpl in *. by f_equal.
Qed.

(** The table holds, for each user, the last usable row of the file as it was read. *)
Record coherent (m : Manager) : Prop := {
  co_indexed : indexed m;
  co_says u : content <$> dict_get (tokens m) u = last (omap (row_for u) (raw_entries m));
  co_nodup : NoDup (tokens m).*1;
  co_invalid d u k r : d ∈ invalid_entries m → final u (raw_entries m) k r → index d ≠ k
}.

Lemma adopt_coherent rows sig w : coherent (mgr (adopt rows (parse_rows 0 rows no_rows) sig w)).
Proof.
  destruct (parse_rows_NoDup 0 rows no_rows) as [Hnt Hnp]; [apply NoDup_nil_2..|].
  unfold adopt. pose proof (install_content (tokens (mgr w)) (fresh_id w) (parsed (parse_rows 0 rows no_rows))) as Hc.
  pose proof (install_keys (tokens (mgr w)) (fresh_id w) (parsed (parse_rows 0 rows no_rows))) as Hk.
  destruct (install _ _ _) as [sts next]. simpl in *. split; simpl; [split; simpl; [|done]| |by rewrite Hk|].
  - intros u. by rewrite parse_rows_positions.
  - intros u. rewrite Hc, parse_rows_parsed. by destruct (last _).
  - intros d u k r [_ Hd]%invalid_not_final. apply Hd.
Qed.

Lemma cleared_coherent s sig p m : coherent (cleared s sig p m).
Proof. split; simpl; [split; simpl; [done|apply NoDup_nil_2]|done|apply NoDup_nil_2|by intros d u k r ?%not_elem_of_nil]. Qed.

Lemma coherent_closed : closed (λ w w', coherent (mgr w) → coherent (mgr w')).
Proof.
  split; try by auto.
  - intros force st w Hw. destruct (refresh_cases force st w) as [[_ ->]|[(s & sig & p & -> & _)|(rows & sig & _ & ->)]];
      [done|apply cleared_coherent|apply adopt_coherent].
  - by intros st w _ [[] ? ? ?].
  - by intros b w [[] ? ? ?].
Qed.

(** ** Changes of the table *)

Definition table (w : World) (u : pystr) : option (Json * Json * Identity) :=
  content <$> dict_get (tokens (mgr w)) u.

(** The table is [T], and so is that of any manager started on the file now. *)
Definition settled (w : World) (T : pystr → option (Json * Json * Identity)) : Prop :=
  ∀ u, table w u = T u ∧ ∀ guard next, table (boot guard true (file w) next) u = T u.

Definition reached (guard : bool) (st : bool) (f : File) (next : nat) (evs : list Event) : World :=
  run exec (boot guard st f next) evs.

Lemma boot_coherent guard st f next : coherent (mgr (boot guard st f next)).
Proof. apply (cl_refresh _ coherent_closed). split; simpl; [split; simpl; [done|apply NoDup_nil_2]|done|apply NoDup_nil_2|by intros d u k r ?%not_elem_of_nil]. Qed.

Lemma reached_coherent guard st f next evs : coherent (mgr (reached guard st f next evs)).
Proof.
  apply (closed_run_all _ _ evs coherent_closed); [|apply boot_coherent].
  by intros w _ _ [[] ? ? ?].
Qed.

(** A table read by force is the last usable row of the file for each user. *)
Lemma forced_file st w :
  store_status (mgr (refresh_store true st w)) = Valid →
  let w' := refresh_store true st w in
  (∃ sig, file w' = Present sig (Holds (JList (raw_entries (mgr w')))))
  ∧ parse_store (JList (raw_entries (mgr w'))) = Some (raw_entries (mgr w'), parse_rows 0 (raw_entries (mgr w')) no_rows).
Proof.
  destruct (refresh_cases true st w) as [[? _]|[(s & sig & p & -> & Hs & _)|(rows & sig & [Hf Hp] & ->)]]; [done..|].
  intros _. unfold adopt. destruct (install _ _ _) as [sts next]. simpl. split; [by exists sig|done].
Qed.

Lemma boot_table guard next sig rows u :
  parse_store (JList rows) = Some (rows, parse_rows 0 rows no_rows) →
  table (boot guard true (Present sig (Holds (JList rows))) next) u = last (omap (row_for u) rows).
Proof.
  intros Hp. unfold table. rewrite (co_says _ (boot_coherent _ _ _ _)).
  unfold boot, refresh_store. cbn [file negb andb]. rewrite Hp. unfold adopt. by destruct (install _ _ _).
Qed.

Lemma publish_settled env protect expected data w w' b :
  coherent (mgr w) → publish env protect expected data w = (w', Ok b) →
  settled w' (λ u, last (omap (row_for u) data)).
Proof.
  intros Hw Hp. pose proof (closed_publish coherent_closed env protect expected data w Hw) as Hc. rewrite Hp in Hc. simpl in Hc.
  destruct (publish_ok _ _ _ _ _ _ _ Hp) as [Hv Hr].
  assert ((∃ sig, file w' = Present sig (Holds (JList data)))
          ∧ parse_store (JList data) = Some (data, parse_rows 0 data no_rows)) as [[sig Hf] Hps].
  { revert Hp. unfold publish. destruct (stat_signature _); [|done]. destruct (negb _); [done|]. destruct (write env); [done|].
    destruct (_ || _); [done|]. intros [= <- _].
    match goal with |- context [refresh_store true ?st ?x] => pose proof (forced_file st x Hv) as Hff end.
    cbv zeta in Hff. by rewrite Hr in Hff. }
  intros u. split; [by rewrite <- Hr; apply co_says|]. intros guard next. rewrite Hf. by apply boot_table.
Qed.

Lemma save_settled env ae expected desired w w' b :
  coherent (mgr w) → NoDup desired.*1 → (∀ u st, (u, st) ∈ desired → tier_ok st = true → says st u) →
  save env ae expected desired w = (w', Ok b) → settled w' (λ u, content <$> dict_get desired u).
Proof.
  intros Hw Hnd Hs. unfold save. destruct (forallb _ _) eqn:Hall; [|done]. simpl.
  destruct (publish _ _ _ _ _) as [w1 [synced|e]] eqn:Hp; [|done].
  pose proof (publish_settled _ _ _ _ _ _ _ Hw Hp) as Hset. intros Heq u.
  assert (Hsame : table w' u = table w1 u ∧ file w' = file w1).
  { unfold table. destruct (_ && ae); by injection Heq as <- _. }
  destruct Hsame as [-> ->]. destruct (Hset u) as [-> Hb].
  assert (Hm : last (omap (row_for u) (merged (mgr w) desired)) = content <$> dict_get desired u).
  { apply merged_rows; [apply Hw|done|]. intros u' st Hin. apply Hs; [done|].
    rewrite forallb_forall in Hall. apply (Hall (u', st)). by apply list_elem_of_In. }
  rewrite <- Hm. split; [done|exact Hb].
Qed.

Lemma coherent_fit m u st : coherent m → dict_get (tokens m) u = Some st → fit u st.
Proof.
  intros Hm Hst. apply (last_row_for_fit u (raw_entries m)). rewrite <- (co_says _ Hm), Hst. done.
Qed.

Lemma coherent_says m u st : coherent m → (u, st) ∈ tokens m → says st u.
Proof. intros Hm Hin. apply fit_says, (coherent_fit m); [done|]. apply dict_get_elem; [apply Hm|done]. Qed.

Lemma dict_set_elem {V} (d : list (pystr * V)) k v k' v' :
  NoDup d.*1 → (k', v') ∈ dict_set d k v → k' = k ∧ v' = v ∨ (k', v') ∈ d.
Proof.
  intros Hd Hin. apply dict_get_elem in Hin; [|by apply dict_set_NoDup]. rewrite dict_get_set in Hin.
  case_bool_decide; [left; split; congruence|right]. by apply dict_get_Some_elem.
Qed.

(** Exactly the entry of [u] changes. *)
Lemma save_entry_settled env u th tp i w w' r :
  coherent (mgr w) → user_id i = u → nonempty u = true → truthy th = true →
  save_entry env u th tp i w = (w', Ok r) →
  settled w' (λ u', if bool_decide (u' = u) then Some (th, tp, i) else table w u').
Proof.
  intros Hw Hu Hn Hth. unfold save_entry, new_token. simpl.
  set (st := {| serial := _; token_hash := th; token_prefix := tp; identity := i |}). set (w0 := {| file := _ |}).
  destruct (save _ _ _ _ _) as [w1 [b|e]] eqn:Hs; [|done]. simpl. intros [= <- _].
  apply save_settled in Hs; [|done|by apply dict_set_NoDup, Hw|].
  - intros u'. destruct (Hs u') as [H1 H2].
    assert (Heq : content <$> dict_get (dict_set (tokens (mgr w)) u st) u'
                  = if bool_decide (u' = u) then Some (th, tp, i) else table w u').
    { rewrite dict_get_set. by case_bool_decide. }
    rewrite <- Heq. by split.
  - intros u' st' [[-> ->]|Hin]%dict_set_elem Ht; [by apply fit_says|by eapply coherent_says|apply Hw].
Qed.

(** ** Fencing *)

(** Every number in use is below the next one. *)
Record numbered (w : World) : Prop := {
  nu_tokens u st : (u, st) ∈ tokens (mgr w) → (serial st < fresh_id w)%nat;
  nu_issued o s : issued (mgr w) !! o = Some s → (o < fresh_id w)%nat ∧ (s < fresh_id w)%nat
}.

Lemma numbered_closed : closed (λ w w', numbered w → numbered w').
Proof.
  split; try by auto.
  - intros f w []. by split.
  - intros force st w Hw. destruct (refresh_cases force st w) as [[_ ->]|[(s & sig & p & -> & _)|(rows & sig & _ & ->)]];
      [done|..]; destruct Hw as [Ht Hi].
    + split; simpl; [by intros u st' ?%not_elem_of_nil|done].
    + unfold adopt. pose proof (install_next (tokens (mgr w)) (fresh_id w) (parsed (parse_rows 0 rows no_rows))) as Hn.
      pose proof (install_objects (tokens (mgr w)) (fresh_id w) (parsed (parse_rows 0 rows no_rows))) as Ho.
      destruct (install _ _ _) as [sts next]. simpl in *. split; simpl.
      * intros u st' Hin. destruct (Ho _ _ Hin) as [Hg|]; [|lia]. specialize (Ht _ _ (dict_get_Some_elem _ _ _ Hg)). lia.
      * intros o s0 Hs. specialize (Hi _ _ Hs). lia.
  - intros st w Hin [Ht Hi]. split; simpl.
    + intros u st' Hst. specialize (Ht _ _ Hst). lia.
    + intros o s [[<- <-]|[_ Hs]]%lookup_insert_Some; [|specialize (Hi _ _ Hs); lia].
      apply list_elem_of_fmap in Hin as ([u st'] & -> & Hin). specialize (Ht _ _ Hin). simpl. lia.
  - intros th tp i w [Ht Hi]. split; simpl.
    + intros u st' Hst. specialize (Ht _ _ Hst). lia.
    + intros o s Hs. specialize (Hi _ _ Hs). lia.
  - intros b w []. by split.
Qed.

(** The entry that issued the object is not the current one of its user. *)
Definition fenced (i : Issued) (w : World) : Prop :=
  (obj i < fresh_id w)%nat ∧
  ∀ s, issued (mgr w) !! obj i = Some s → (s < fresh_id w)%nat ∧
    ∀ st, dict_get (tokens (mgr w)) (user_id (fields i)) = Some st → serial st = s → identity st ≠ fields i.

Lemma fenced_closed i : closed (λ w w', fenced i w → fenced i w').
Proof.
  split; try by auto.
  - intros force st w Hw. destruct (refresh_cases force st w) as [[_ ->]|[(s & sig & p & -> & _)|(rows & sig & _ & ->)]];
      [done|..]; destruct Hw as [Ho Hi].
    + split; simpl; [done|]. intros s0 Hs. split; [by apply Hi|done].
    + unfold adopt. pose proof (install_next (tokens (mgr w)) (fresh_id w) (parsed (parse_rows 0 rows no_rows))) as Hn.
      pose proof (install_objects (tokens (mgr w)) (fresh_id w) (parsed (parse_rows 0 rows no_rows))) as Hob.
      destruct (install _ _ _) as [sts next]. simpl in *. split; simpl; [lia|].
      intros s0 Hs. destruct (Hi _ Hs) as [Hlt Hne]. split; [lia|]. intros st' Hst' Heq.
      destruct (Hob _ _ (dict_get_Some_elem _ _ _ Hst')) as [Hg|]; [by apply Hne|lia].
  - intros st w _ [Ho Hi]. split; simpl; [lia|]. intros s. rewrite lookup_insert_ne by lia. intros Hs.
    destruct (Hi _ Hs). split; [lia|done].
  - intros th tp i' w [Ho Hi]. split; simpl; [lia|]. intros s Hs. destruct (Hi _ Hs). split; [lia|done].
Qed.

Lemma closed_fresh n : closed (λ w w', n < fresh_id w → n < fresh_id w')%nat.
Proof.
  split; try by auto.
  - intros force st w Hw. destruct (refresh_cases force st w) as [[_ ->]|[(s & sig & p & -> & _)|(rows & sig & _ & ->)]]; [done..|].
    unfold adopt. pose proof (install_next (tokens (mgr w)) (fresh_id w) (parsed (parse_rows 0 rows no_rows))) as Hn.
    destruct (install _ _ _). simpl in *. lia.
  - intros st w _ Hw. simpl. lia.
  - intros th tp i w Hw. simpl. lia.
Qed.

Lemma fenced_matches i w :
  numbered w → (obj i < fresh_id w)%nat →
  (fenced i w ↔ matches (mgr w) i (dict_get (tokens (mgr w)) (user_id (fields i))) = false).
Proof.
  intros Hn Ho. unfold fenced, matches. destruct (issued (mgr w) !! obj i) as [s|] eqn:Hs; [|by split; [|intros _; split]].
  destruct (dict_get (tokens (mgr w)) (user_id (fields i))) as [st|]; [|split; [done|intros _; split; [done|]]].
  - rewrite andb_false_iff, !bool_decide_eq_false. split.
    + intros [_ Hi]. destruct (Hi _ eq_refl) as [_ Hne]. destruct (decide (s = serial st)) as [->|]; [right|by left].
      intros Heq. by apply (Hne st).
    + intros Hor. split; [done|]. intros s' [= <-]. split; [apply (nu_issued _ Hn _ _ Hs)|].
      intros st' [= <-] <- Heq. destruct Hor; congruence.
  - intros s' [= <-]. split; [apply (nu_issued _ Hn _ _ Hs)|done].
Qed.

(** ** Protection *)

Record guarded (w : World) : Prop := {
  gu_bad : bad (store_status (mgr w)) = true → protection_required (mgr w) = true;
  gu_tokens : tokens (mgr w) ≠ [] → protection_required (mgr w) = true;
  gu_status : store_status (mgr w) ≠ Valid → tokens (mgr w) = []
}.

Lemma guarded_closed : closed (λ w w', guarded w → guarded w').
Proof.
  split; try by auto.
  - intros f w []. by split.
  - intros force st w Hw. destruct (refresh_cases force st w) as [[_ ->]|[(s & sig & p & -> & Hs & Hp)|(rows & sig & _ & ->)]];
      [done|..]; destruct Hw as [Hb Ht Hst].
    + split; simpl; try done. intros Hbad. destruct Hp as [->|[? _]]; congruence.
    + unfold adopt. destruct (install _ _ _) as [sts next]. split; simpl; try done.
      intros Hne. rewrite bool_decide_eq_false_2 by done. by destruct (protection_required _).
  - intros st w _ []. by split.
  - intros th tp i w []. by split.
  - intros b w [Hb Ht Hst]. split; simpl; [intros H1; by rewrite Hb|intros H1; by rewrite Ht|done].
Qed.

Lemma guarded_unprotects : unprotects (λ w w', guarded w → guarded w').
Proof. intros w Ht Hs [_ _ Hst]. split; simpl; [by rewrite Hs|congruence|done]. Qed.

Definition protected (w : World) : Prop := protection_required (mgr w) = true.

Lemma protected_closed : closed (λ w w', protected w → protected w').
Proof.
  unfold protected. split; try by auto.
  - intros force st w Hw. destruct (refresh_cases force st w) as [[_ ->]|[(s & sig & p & -> & _ & Hp)|(rows & sig & _ & ->)]];
      [done|..].
    + simpl. by destruct Hp as [->|[_ ->]].
    + unfold adopt. destruct (install _ _ _) as [sts next]. simpl. by rewrite Hw.
  - intros b w Hw. simpl. by rewrite Hw.
Qed.

Lemma guard_closed g : closed (λ w w', has_guard (mgr w) = g → has_guard (mgr w') = g).
Proof.
  split; try by auto.
  intros force st w Hw. destruct (refresh_cases force st w) as [[_ ->]|[(s & sig & p & -> & _ & Hp)|(rows & sig & _ & ->)]];
    [done..|]. unfold adopt. by destruct (install _ _ _).
Qed.

Lemma guard_unprotects g : unprotects (λ w w', has_guard (mgr w) = g → has_guard (mgr w') = g).
Proof. intros w _ _ Hg. exact Hg. Qed.

(** A snapshot asks for credentials. *)
Definition asks (s : Snapshot) : bool := credential_store_auth_required s || dynamic_auth_required s.

Lemma asks_protected st w : guarded w → asks (auth_snapshot st w).2 = true ↔ protected (auth_snapshot st w).1.
Proof.
  intros Hw. pose proof (cl_refresh _ guarded_closed false st w Hw) as [Hb Ht Hs].
  unfold auth_snapshot, asks, dynamic_auth_required, protected in *. simpl.
  set (m := mgr (refresh_store false st w)) in *. destruct (bad (store_status m)) eqn:Hbad; [by rewrite Hb|]. simpl.
  destruct (bool_decide_reflect (store_status m = Valid)) as [Hv|Hv].
  - destruct (tokens m) as [|kv ts] eqn:Htk; simpl; [by rewrite andb_true_r, orb_false_r|].
    rewrite Ht by done. by rewrite orb_true_r.
  - simpl. by rewrite andb_true_r, orb_false_r.
Qed.

(** ** Each change *)

(** The table a change starts from. *)
Definition seen (env : Env) (w : World) : World := refresh_store false (stable env) w.

Lemma seen_coherent env w : coherent (mgr w) → coherent (mgr (seen env w)).
Proof. apply (cl_refresh _ coherent_closed). Qed.

Definition row_of_secret (raw : pystr) (i : Identity) : Json * Json * Identity :=
  (JStr (hash_token raw), JStr (take 8 raw), i).

Lemma create_settled env raw i w w' :
  coherent (mgr w) → nonempty (user_id i) = true → create_token env raw i w = (w', Ok tt) →
  table (seen env w) (user_id i) = None ∧
  settled w' (λ u, if bool_decide (u = user_id i) then Some (row_of_secret raw i) else table (seen env w) u).
Proof.
  intros Hw Hn. unfold create_token, require_writable. fold (seen env w). destruct (negb _); [done|].
  destruct (dict_get _ _) eqn:Hg; [done|]. intros Hs. split; [unfold table; by rewrite Hg|].
  eapply save_entry_settled; [by apply seen_coherent|done..|by apply hash_token_nonempty|exact Hs].
Qed.

Lemma update_settled env u g w w' :
  coherent (mgr w) → (∀ x, user_id (g x) = user_id x) → update_token env u g w = (w', Ok true) →
  ∃ th tp i, table (seen env w) u = Some (th, tp, i) ∧
    settled w' (λ u', if bool_decide (u' = u) then Some (th, tp, g i) else table (seen env w) u').
Proof.
  intros Hw Hg. unfold update_token, require_writable. fold (seen env w). destruct (negb _); [done|].
  destruct (dict_get _ _) as [st|] eqn:Hst; [|done]. destruct (save_entry _ _ _ _ _ _) as [w1 [x|e]] eqn:Hs; [|done].
  intros [= <-]. exists (token_hash st), (token_prefix st), (identity st). split; [unfold table; by rewrite Hst|].
  destruct (coherent_fit _ _ _ (seen_coherent env w Hw) Hst).
  eapply save_entry_settled; [by apply seen_coherent|by rewrite Hg|done..|exact Hs].
Qed.

Lemma regenerate_settled env u raw w w' :
  coherent (mgr w) → regenerate_token env u raw w = (w', Ok true) →
  ∃ th tp i, table (seen env w) u = Some (th, tp, i) ∧
    settled w' (λ u', if bool_decide (u' = u) then Some (row_of_secret raw i) else table (seen env w) u').
Proof.
  intros Hw. unfold regenerate_token, require_writable. fold (seen env w). destruct (negb _); [done|].
  destruct (dict_get _ _) as [st|] eqn:Hst; [|done]. destruct (save_entry _ _ _ _ _ _) as [w1 [x|e]] eqn:Hs; [|done].
  intros [= <-]. exists (token_hash st), (token_prefix st), (identity st). split; [unfold table; by rewrite Hst|].
  destruct (coherent_fit _ _ _ (seen_coherent env w Hw) Hst).
  eapply save_entry_settled; [by apply seen_coherent|done..|by apply hash_token_nonempty|exact Hs].
Qed.

Lemma delete_settled env u w w' :
  coherent (mgr w) → delete_token env u w = (w', Ok true) →
  settled w' (λ u', if bool_decide (u' = u) then None else table (seen env w) u').
Proof.
  intros Hw. unfold delete_token, require_writable. fold (seen env w). destruct (negb _); [done|].
  destruct (dict_get _ _) as [st|] eqn:Hst; [|done]. destruct (leaves_unusable _ _); [done|]. destruct (negb _); [done|].
  destruct (save _ _ _ _ _) as [w1 [x|e]] eqn:Hs; [|done]. intros [= <-].
  pose proof (seen_coherent env w Hw) as Hc.
  apply save_settled in Hs; [|by apply (closed_await coherent_closed)|by apply dict_del_NoDup, Hc|].
  - intros u'. destruct (Hs u') as [H1 H2]. rewrite dict_get_del in H1, H2. by destruct (bool_decide (u' = u)).
  - intros u' st' Hin _. eapply coherent_says; [exact Hc|]. apply list_elem_of_In in Hin. unfold dict_del in Hin.
    apply filter_In in Hin as [Hin _]. by apply list_elem_of_In.
Qed.

Lemma remove_settled env i why u w w' :
  coherent (mgr w) → remove_unusable_entry env i why u w = (w', Ok true) → settled w' (table (seen env w)).
Proof.
  intros Hw. unfold remove_unusable_entry, require_writable. fold (seen env w). destruct (negb _); [done|]. cbv zeta.
  destruct (_ <=? _)%nat; [done|]. destruct (List.find _ _) as [d|] eqn:Hd; [|done]. destruct (_ || _); [done|].
  destruct (parse_store _); [|done]. destruct (negb _); [done|].
  destruct (publish _ _ _ _ _) as [w1 [x|e]] eqn:Hp; [|done]. intros [= <-].
  pose proof (seen_coherent env w Hw) as Hc. apply publish_settled in Hp; [|by apply (closed_await coherent_closed)].
  intros u'. destruct (Hp u') as [H1 H2].
  assert (Hsame : last (omap (row_for u') (drop_rows [i] 0 (raw_entries (mgr (seen env w))))) = table (seen env w) u').
  { unfold table. rewrite (co_says _ Hc). apply drop_invalid. intros k r Hf <-. apply find_some in Hd as [Hin Hi].
    bool_prop. eapply (co_invalid _ Hc d); [by apply list_elem_of_In|exact Hf|done]. }
  rewrite Hsame in H1, H2. by split.
Qed.

(** C16: A change of the token file that reports success is exactly that change.  After
    any sequence of calls and of changes of the file by other processes: creating,
    updating, regenerating, deleting a token or removing an unusable row leaves the
    table of tokens as it was read at the start of the call but for the one entry that
    was named (and a removal of a row changes no entry at all); and a manager started
    on the file that was written has that same table. *)
Theorem token_changes_are_exact guard st f next evs env :
  let w := reached guard st f next evs in
  let before := table (seen env w) in
  (∀ raw i w', nonempty (user_id i) = true → create_token env raw i w = (w', Ok tt) →
     before (user_id i) = None ∧
     settled w' (λ u, if bool_decide (u = user_id i) then Some (row_of_secret raw i) else before u)) ∧
  (∀ u g w', (∀ x, user_id (g x) = user_id x) → update_token env u g w = (w', Ok true) →
     ∃ th tp i, before u = Some (th, tp, i) ∧
     settled w' (λ u', if bool_decide (u' = u) then Some (th, tp, g i) else before u')) ∧
  (∀ u raw w', regenerate_token env u raw w = (w', Ok true) →
     ∃ th tp i, before u = Some (th, tp, i) ∧
     settled w' (λ u', if bool_decide (u' = u) then Some (row_of_secret raw i) else before u')) ∧
  (∀ u w', delete_token env u w = (w', Ok true) →
     settled w' (λ u', if bool_decide (u' = u) then None else before u')) ∧
  (∀ i why u w', remove_unusable_entry env i why u w = (w', Ok true) → settled w' before).
Proof.
  intros w before. pose proof (reached_coherent guard st f next evs) as Hw. split_and!.
  - intros raw i w'. by apply create_settled.
  - intros u g w'. by apply update_settled.
  - intros u raw w'. by apply regenerate_settled.
  - intros u w'. by apply delete_settled.
  - intros i why u w'. by apply remove_settled.
Qed.

(** C15: An identity that was fenced stays fenced.  Once an identity that was handed out
    is found not to be current (its token was changed, regenerated or deleted, or the
    file was bad at that moment), no later sequence of calls and changes of the file,
    not even one that restores the file as it was, makes it current again: the holder
    has to authenticate anew. *)
Theorem fenced_identities_stay_fenced guard st f next evs i st1 w1 :
  let w := reached guard st f next evs in
  (obj i < fresh_id w)%nat → identity_is_current st1 i w = (w1, false) →
  ∀ later st2, (identity_is_current st2 i (run exec w1 later)).2 = false.
Proof.
  intros w Ho Hc later st2.
  assert (Hnum : ∀ evs' w0, numbered w0 → numbered (run exec w0 evs')).
  { intros evs' w0. apply (closed_run_all _ _ evs' numbered_closed). by intros w' _ _ []. }
  assert (Hn : numbered w).
  { apply Hnum, (cl_refresh _ numbered_closed). split; simpl; [by intros u st' ?%not_elem_of_nil|done]. }
  unfold identity_is_current in *. simpl. injection Hc as <- Hm.
  pose proof (cl_refresh _ numbered_closed false st1 w Hn) as Hn1.
  pose proof (cl_refresh _ (closed_fresh (obj i)) false st1 w Ho) as Ho1.
  apply fenced_matches in Hm; [|done..].
  pose proof (closed_run_all _ (refresh_store false st1 w) later (fenced_closed i) ltac:(by intros w' _ _ []) Hm) as Hf.
  apply (cl_refresh _ (fenced_closed i) false st2) in Hf.
  refine (proj1 (fenced_matches i _ _ _) Hf); [by apply (cl_refresh _ numbered_closed), Hnum|by destruct Hf].
Qed.

(** A deletion that goes through and leaves no token. *)
Definition empties (w : World) (ev : Event) : Prop :=
  match ev with Delete env u => (delete_token env u w).2 = Ok true ∧ tokens (mgr (delete_token env u w).1) = [] | _ => False end.

Fixpoint never_empties (w : World) (evs : list Event) : Prop :=
  match evs with [] => True | ev :: evs => ¬ empties w ev ∧ never_empties (exec w ev) evs end.

Lemma protected_save env ae expected desired w : protected w →
  protected (save env ae expected desired w).1
  ∨ ∃ b, (save env ae expected desired w).2 = Ok b ∧ tokens (mgr (save env ae expected desired w).1) = [].
Proof.
  intros Hp. unfold save. destruct (negb _); [by left|]. cbv zeta.
  pose proof (closed_publish protected_closed env true (match expected with Some s => Some s | None => store_signature (mgr w) end)
    (merged (mgr w) desired) w Hp) as Hpub.
  destruct (publish _ _ _ _ _) as [w1 [synced|e]]; [|by left]. simpl in *.
  destruct (bool_decide _ && ae) eqn:Hc; [|by left]. apply andb_true_iff in Hc as [Ht%bool_decide_eq_true _].
  right. by exists synced.
Qed.

Lemma protected_delete env u w : ¬ empties w (Delete env u) → protected w → protected (delete_token env u w).1.
Proof.
  unfold empties, delete_token, require_writable. cbv beta iota zeta. intros Hne Hp.
  pose proof (cl_refresh _ protected_closed false (stable env) w Hp) as Hp'.
  set (w' := refresh_store false (stable env) w) in *. destruct (negb _); [done|]. destruct (dict_get _ _) as [st|]; [|done].
  destruct (leaves_unusable _ _); [done|]. cbv zeta in *. pose proof (closed_await protected_closed env w' Hp') as Hp2.
  set (w2 := await_guard env w') in *. destruct (negb _); [done|].
  destruct (protected_save env (has_guard (mgr w2)) (store_signature (mgr w')) (dict_del (tokens (mgr w')) u) w2 Hp2) as [Hs|(x & Hr & Ht)];
    destruct (save _ _ _ _ _) as [w3 r]; [done|]. simpl in *. subst r. by destruct Hne.
Qed.

Lemma protected_run guard w evs :
  has_guard (mgr w) = guard → guard = false ∨ never_empties w evs → protected w → protected (run exec w evs).
Proof.
  revert w. induction evs as [|ev evs IH]; intros w Hg Hk Hp; [done|]. simpl. apply IH.
  - apply (closed_exec (guard_closed guard)); [by intros; apply guard_unprotects|done].
  - destruct Hk as [|[_ ?]]; auto.
  - destruct Hk as [->|[Hne _]].
    + apply (closed_exec protected_closed); [|done]. intros env u -> Hgu.
      pose proof (cl_refresh _ (guard_closed false) false (stable env) w Hg). congruence.
    + destruct ev; try (by apply (closed_exec protected_closed)). by apply protected_delete.
Qed.

(** C14: The token file fails closed.  After any sequence of calls and changes of the
    file: whenever the file could not be read as a valid list of tokens a snapshot has
    no token at all, so every secret is refused, and it demands credentials if the file
    is unreadable or malformed; and once a snapshot has demanded credentials every
    later one does, whatever happens to the file, unless an administrator deletes the
    last token under a guard that allows it: every other deletion is covered. *)
Theorem token_store_fails_closed guard st f next evs st1 :
  let w := reached guard st f next evs in
  let '(w1, s) := auth_snapshot st1 w in
  (credential_store_status s ≠ Valid → ∀ raw, (resolve st1 raw w).2 = None) ∧
  (bad (credential_store_status s) = true → credential_store_auth_required s = true) ∧
  (asks s = true → ∀ later st2, guard = false ∨ never_empties w1 later →
     asks (auth_snapshot st2 (run exec w1 later)).2 = true).
Proof.
  intros w. destruct (auth_snapshot st1 w) as [w1 s] eqn:Hs. split_and!.
  - intros Hst raw. unfold resolve. rewrite Hs. unfold find_by_token.
    unfold auth_snapshot in Hs. injection Hs as <- <-. simpl in *.
    rewrite bool_decide_eq_false_2 by done. by destruct (negb _).
  - unfold auth_snapshot in Hs. injection Hs as <- <-. simpl. by intros ->.
  - intros Ha later st2 Hkeep.
    assert (Hgu : ∀ evs' w0, guarded w0 → guarded (run exec w0 evs')).
    { intros evs' w0. apply (closed_run_all _ _ evs' guarded_closed), guarded_unprotects. }
    assert (Hw : guarded w) by (apply Hgu, (cl_refresh _ guarded_closed); by split).
    assert (Hg : has_guard (mgr w) = guard).
    { apply (closed_run_all _ _ evs (guard_closed guard)); [apply guard_unprotects|]. by apply (cl_refresh _ (guard_closed guard)). }
    assert (Hw1 : guarded w1 ∧ has_guard (mgr w1) = guard ∧ protected w1).
    { change w1 with (w1, s).1. change s with (w1, s).2 in Ha. rewrite <- Hs in *. split_and!.
      - by apply (cl_refresh _ guarded_closed).
      - by apply (cl_refresh _ (guard_closed guard)).
      - by apply asks_protected. }
    destruct Hw1 as (Hw1 & Hg1 & Hp1).
    assert (Hend : guarded (run exec w1 later) ∧ protected (run exec w1 later)).
    { split; [by apply Hgu|]. by apply (protected_run guard). }
    destruct Hend as [He1 He2]. apply asks_protected; [done|]. by apply (cl_refresh _ protected_closed).
Qed.

End theory.

Module TokensWitness.
Import Concrete.

#[export] Instance plain_text : TokenText.
Proof.
  refine {| hash_token := λ s, 104 :: ((λ c, 48 + c mod 64) <$> s); sha256_text := id;
            py_str := λ v, match v with JStr s => s | _ => [] end |}; [|done..].
  intros s. unfold ascii. apply forallb_forall. intros c [<-|Hc]; [done|].
  apply in_map_iff in Hc as (c' & <- & _). pose proof (Z.mod_pos_bound c' 64). lia.
Defined.

Definition who (u : string) : Identity :=
  {| user_id := lit u; username := lit u; tier := lit "user"; allowed_tools := []; allowed_hosts := None;
     default_host := []; label := [] |}.
Definition calm (sig : nat) : Env :=
  {| stable := true; during := []; guard_answer := true; before := None; write := Replaced true; new_signature := sig;
     after := None; stable_after := true |}.

(** Two tokens; one of them resolved. *)
Definition start : list Event := [Create (calm 1) (lit "secret-a") (who "a"); Create (calm 2) (lit "secret-b") (who "b")].
Definition w0 : World := reached true true No_file 0 start.

Lemma token_changes_are_exact_witness :
  (seen (calm 3) w0).(file) = file w0 ∧
  ∃ w', create_token (calm 3) (lit "secret-c") (who "c") w0 = (w', Ok tt) ∧
    settled w' (λ u, if bool_decide (u = lit "c") then Some (row_of_secret (lit "secret-c") (who "c"))
                     else table (seen (calm 3) w0) u) ∧
    table w' (lit "a") = Some (row_of_secret (lit "secret-a") (who "a")).
Proof.
  split; [vm_compute; reflexivity|].
  destruct (token_changes_are_exact true true No_file 0 start (calm 3)) as [Hcreate _].
  assert (Hc : (create_token (calm 3) (lit "secret-c") (who "c") w0).2 = Ok tt) by (vm_compute; reflexivity).
  destruct (create_token (calm 3) (lit "secret-c") (who "c") w0) as [w' r] eqn:Heq. simpl in Hc. subst r.
  exists w'. split; [reflexivity|]. destruct (Hcreate (lit "secret-c") (who "c") w') as [_ Hs]; [reflexivity|exact Heq|].
  split; [exact Hs|]. destruct (Hs (lit "a")) as [-> _]. vm_compute. reflexivity.
Defined.

(** The holder of [a] is fenced by a new secret, and stays fenced when the old file is
    put back and its old secret works again. *)
Definition held : Issued := {| obj := 5; fields := who "a" |}.
Definition fenced_run : list Event := start ++ [Resolve true (lit "secret-a"); Regenerate (calm 3) (lit "a") (lit "other")].
Definition put_back : list Event := [External (file w0)].
Definition w1 : World := (identity_is_current true held (reached true true No_file 0 fenced_run)).1.

Lemma fenced_identities_stay_fenced_witness :
  (resolve true (lit "secret-a") w0).2 = Some held ∧
  obj <$> (resolve true (lit "secret-a") (run exec w1 put_back)).2 = Some 11%nat ∧
  (identity_is_current true held (run exec w1 put_back)).2 = false.
Proof.
  split; [vm_compute; reflexivity|]. split; [vm_compute; reflexivity|].
  assert (Hc : (identity_is_current true held (reached true true No_file 0 fenced_run)).2 = false)
    by (vm_compute; reflexivity).
  assert (Ho : (obj held <? fresh_id (reached true true No_file 0 fenced_run))%nat = true) by (vm_compute; reflexivity).
  refine (fenced_identities_stay_fenced true true No_file 0 fenced_run held true w1 _ _ put_back true).
  - by apply Nat.ltb_lt.
  - unfold w1. destruct (identity_is_current true held (reached true true No_file 0 fenced_run)) as [x b].
    simpl in Hc. by rewrite Hc.
Defined.

(** The file is overwritten with garbage and later removed. *)
Definition garbage : list Event := start ++ [External (Present 9 Not_json)].

Lemma token_store_fails_closed_witness :
  (resolve true (lit "secret-a") (reached false true No_file 0 garbage)).2 = None ∧
  asks (auth_snapshot true (run exec (auth_snapshot true (reached false true No_file 0 garbage)).1 [External No_file])).2 = true.
Proof.
  pose proof (token_store_fails_closed false true No_file 0 garbage true) as Hc. cbv zeta in Hc.
  destruct (auth_snapshot true (reached false true No_file 0 garbage)) as [w s] eqn:Hs.
  assert (Hst : credential_store_status (auth_snapshot true (reached false true No_file 0 garbage)).2 = Malformed)
    by (vm_compute; reflexivity).
  rewrite Hs in Hst. simpl in Hst. destruct Hc as (Hresolve & Hbad & Hlater). split.
  - apply Hresolve. by rewrite Hst.
  - apply Hlater; [|by left]. unfold asks. rewrite Hbad; [done|]. by rewrite Hst.
Defined.

(** [remove_unusable_entry] reads the signature it expects after the guard was awaited:
    a token another process revoked meanwhile, and a request already saw revoked, is
    written back. *)
Definition row (st : string) (secret : string) : Json :=
  row_of {| serial := 0; token_hash := JStr (hash_token (lit secret)); token_prefix := JStr (lit "x"); identity := who st |}.
Definition revoking : Env :=
  {| stable := true; during := [(Present 2 (Holds (JList [row "a" "secret-a"; JNull])), true)]; guard_answer := true;
     before := None; write := Replaced true; new_signature := 3; after := None; stable_after := true |}.
Definition two_rows : File := Present 1 (Holds (JList [row "a" "secret-a"; row "b" "secret-b"; JNull])).

Lemma awaited_removal_restores_revoked :
  let w := boot true true two_rows 0 in
  dict_get (tokens (mgr (await_guard revoking w))) (lit "b") = None ∧
  (remove_unusable_entry revoking 2 Not_an_object None w).2 = Ok true ∧
  (resolve true (lit "secret-b") (remove_unusable_entry revoking 2 Not_an_object None w).1).2 ≠ None ∧
  (delete_token revoking (lit "a") w).2 = Err Changed_before.
Proof. cbv zeta. split_and!; vm_compute; done. Qed.

(** One row without a text prefix, which the parser accepts and which authenticates,
    makes the list of tokens unavailable. *)
Lemma null_prefix_breaks_list :
  let no_prefix := row_of {| serial := 0; token_hash := JStr (hash_token (lit "secret-a")); token_prefix := JNull;
                             identity := who "a" |} in
  let w := boot true true (Present 1 (Holds (JList [no_prefix; row "b" "secret-b"]))) 0 in
  (resolve true (lit "secret-a") w).2 ≠ None ∧ (diagnoses true w).2 = [] ∧ (list_tokens true w).2 = None.
Proof. cbv zeta. split_and!; vm_compute; done. Qed.

End TokensWitness.
