(* ===== verification/Agents.v ===== *)
(** * Agents and their manager (src/src/agents/manager.py)

    The life-cycle state machine, the state of one agent, and AgentManager: spawning
    within the limits of a tree, messages, kills, lineage, removal and health checks.
    The worker that drives an agent is [AgentRun].

    A method of the manager has no await and is one step.  [None] and the empty string
    are alike to every test on a parent, so a missing parent is the empty string.  The
    prompt, the model overrides, the transport telemetry and the texts for display are
    left out. *)

From S2P Require Import Prelude PyStr PyLib AgentReports.
Open Scope string_scope.
Open Scope list_scope.
Open Scope Z_scope.
Local Open Scope odin_scope.

Definition MAX_CONCURRENT_AGENTS : Z := 5.
Definition MAX_AGENT_LIFETIME : Z := 3600000.
Definition MAX_AGENT_ITERATIONS : Z := 120.
Definition STALE_WARN_SECONDS : Z := 120000.
Definition CLEANUP_DELAY : Z := 300000.
Definition ITERATION_CB_TIMEOUT : Z := 120000.
Definition MAX_CHILDREN_PER_AGENT : Z := 3.
Definition TREE_MAX_AGENTS : Z := 25.

(** ** The state machine *)

Inductive AgentState : Type :=
| SPAWNING | READY | EXECUTING | RECOVERING | COMPLETED | FAILED | TIMEOUT | KILLED.

#[export] Instance AgentState_eq_dec : EqDecision AgentState.
Proof. solve_decision. Defined.

Definition TERMINAL_STATES : list AgentState := [COMPLETED; FAILED; TIMEOUT; KILLED].
Definition ACTIVE_STATES : list AgentState := [SPAWNING; READY; EXECUTING; RECOVERING].

Definition VALID_TRANSITIONS (s : AgentState) : list AgentState :=
  match s with
  | SPAWNING => [READY; KILLED; FAILED; TIMEOUT]
  | READY => [EXECUTING; COMPLETED; KILLED; TIMEOUT]
  | EXECUTING => [READY; RECOVERING; COMPLETED; FAILED; KILLED; TIMEOUT]
  | RECOVERING => [EXECUTING; FAILED; KILLED; TIMEOUT]
  | COMPLETED | FAILED | TIMEOUT | KILLED => []
  end.

(** [_STATE_TO_LEGACY] *)
Inductive LegacyStatus : Type := Is_running | Is_completed | Is_failed | Is_timeout | Is_killed.

Definition legacy_status (s : AgentState) : LegacyStatus :=
  match s with
  | COMPLETED => Is_completed | FAILED => Is_failed | TIMEOUT => Is_timeout | KILLED => Is_killed
  | _ => Is_running
  end.

Record StateTransition : Type := {
  from_state : AgentState;
  to_state : AgentState;
  timestamp : Z;
  because : pystr
}.

Record AgentStateMachine : Type := {
  state : AgentState;
  history : list StateTransition;
  entered_at : Z
}.

Definition new_machine (now : Z) : AgentStateMachine :=
  {| state := SPAWNING; history := []; entered_at := now |}.

Definition terminal (s : AgentState) : bool := bool_decide (s ∈ TERMINAL_STATES).
Definition active (s : AgentState) : bool := bool_decide (s ∈ ACTIVE_STATES).
Definition can_transition (m : AgentStateMachine) (to : AgentState) : bool :=
  bool_decide (to ∈ VALID_TRANSITIONS (state m)).

(** [AgentStateMachine.transition]; [None] is InvalidStateTransition. *)
Definition move (to : AgentState) (reason : pystr) (now : Z) (m : AgentStateMachine) : option AgentStateMachine :=
  if can_transition m to then
    Some {| state := to;
            history := history m ++ [{| from_state := state m; to_state := to; timestamp := now; because := reason |}];
            entered_at := now |}
  else None.

(** ** One agent *)

(** What a spawn fixes. *)
Record Spawned : Type := {
  id : pystr;
  label : pystr;
  goal : pystr;
  channel_id : pystr;
  requester_id : pystr;
  created_at : Z;
  iteration_timeout : Z;
  max_lifetime : Z;
  max_iterations : Z;
  max_children : Z;
  max_depth : Z;
  root_id : pystr;
  depth : Z;
  parent_id : pystr;
  turn_id : option pystr;
  report_to : option ReportTarget
}.

(** A message of the model's transcript is the dict the code builds. *)
Definition user_message (content : Json) (extra : list (pystr * Json)) : Json :=
  JDict ([(lit "role", JStr (lit "user")); (lit "content", content)] ++ extra).

(** A queued event carries the number; the text that was admitted under it stands beside
    it for the theory alone. *)
Record Mail : Type := {
  messages : list Json;
  inbox : list (Z * pystr);
  inbox_sequence : Z;
  last_consumed_sequence : Z;
  inbox_event : bool;
  queued_events : list (Z * pystr);
  consumed_events : list Z
}.

Inductive Phase : Type := Phase_ready | Generating | Executing_tool | Waiting_for_children.

#[export] Instance Phase_eq_dec : EqDecision Phase.
Proof. solve_decision. Defined.

Record Work : Type := {
  iteration_count : Z;
  tool_execution_count : Z;
  tools_used : list pystr;
  recovery_attempts : Z;
  phase : Phase;
  phase_started_at : Z;
  last_activity : Z;
  phase_deadline : option Z;
  result_text : pystr;
  error_text : pystr
}.

Record AgentInfo : Type := {
  base : Spawned;
  machine : AgentStateMachine;
  ended_at : option Z;
  children_ids : list pystr;
  cancel_event : bool;
  task_cancelled : bool;
  mail : Mail;
  reports : ReportMailbox;
  work : Work
}.

Definition is_terminal (a : AgentInfo) : bool := terminal (state (machine a)).
Definition is_active (a : AgentInfo) : bool := active (state (machine a)).

Definition set_machine (m : AgentStateMachine) (a : AgentInfo) : AgentInfo :=
  {| base := base a; machine := m; ended_at := ended_at a; children_ids := children_ids a;
     cancel_event := cancel_event a; task_cancelled := task_cancelled a; mail := mail a;
     reports := reports a; work := work a |}.
Definition set_ended (now : Z) (a : AgentInfo) : AgentInfo :=
  {| base := base a; machine := machine a; ended_at := Some now; children_ids := children_ids a;
     cancel_event := cancel_event a; task_cancelled := task_cancelled a; mail := mail a;
     reports := reports a; work := work a |}.
Definition add_child (c : pystr) (a : AgentInfo) : AgentInfo :=
  {| base := base a; machine := machine a; ended_at := ended_at a; children_ids := children_ids a ++ [c];
     cancel_event := cancel_event a; task_cancelled := task_cancelled a; mail := mail a;
     reports := reports a; work := work a |}.
Definition set_mail (m : Mail) (a : AgentInfo) : AgentInfo :=
  {| base := base a; machine := machine a; ended_at := ended_at a; children_ids := children_ids a;
     cancel_event := cancel_event a; task_cancelled := task_cancelled a; mail := m;
     reports := reports a; work := work a |}.
Definition set_reports (r : ReportMailbox) (a : AgentInfo) : AgentInfo :=
  {| base := base a; machine := machine a; ended_at := ended_at a; children_ids := children_ids a;
     cancel_event := cancel_event a; task_cancelled := task_cancelled a; mail := mail a;
     reports := r; work := work a |}.
Definition set_work (w : Work) (a : AgentInfo) : AgentInfo :=
  {| base := base a; machine := machine a; ended_at := ended_at a; children_ids := children_ids a;
     cancel_event := cancel_event a; task_cancelled := task_cancelled a; mail := mail a;
     reports := reports a; work := w |}.

(** [AgentInfo.set_phase] *)
Definition set_phase (p : Phase) (deadline : option Z) (now : Z) (a : AgentInfo) : AgentInfo :=
  set_work {| iteration_count := iteration_count (work a); tool_execution_count := tool_execution_count (work a);
              tools_used := tools_used (work a); recovery_attempts := recovery_attempts (work a);
              phase := p; phase_started_at := now; last_activity := now; phase_deadline := deadline;
              result_text := result_text (work a); error_text := error_text (work a) |} a.

Definition set_error (e : pystr) (a : AgentInfo) : AgentInfo :=
  set_work {| iteration_count := iteration_count (work a); tool_execution_count := tool_execution_count (work a);
              tools_used := tools_used (work a); recovery_attempts := recovery_attempts (work a);
              phase := phase (work a); phase_started_at := phase_started_at (work a);
              last_activity := last_activity (work a); phase_deadline := phase_deadline (work a);
              result_text := result_text (work a); error_text := e |} a.

(** [AgentInfo.transition]: a terminal state closes the report mailbox. *)
Definition transition `{AgentText} (to : AgentState) (reason : pystr) (now : Z) (a : AgentInfo) : option AgentInfo :=
  m ← move to reason now (machine a);
  let a := set_machine m a in
  Some (if terminal (state m)
        then set_phase Phase_ready None now
               (set_reports (close_box (lit "terminal_parent") now (reports a)) a)
        else a).

(** ** The manager *)

Record Retired : Type := {
  was_child_of : pystr;
  had_children : list pystr;
  last_status : LegacyStatus
}.

Record AgentManager : Type := {
  agents : list (pystr * AgentInfo);
  retired_lineage : list (pystr * Retired);
  result_savers : list pystr;
  cleanup_tasks : list pystr;
  tree_spawn_counts : list (pystr * Z)
}.

Definition new_manager : AgentManager :=
  {| agents := []; retired_lineage := []; result_savers := []; cleanup_tasks := []; tree_spawn_counts := [] |}.

Definition set_agents (d : list (pystr * AgentInfo)) (m : AgentManager) : AgentManager :=
  {| agents := d; retired_lineage := retired_lineage m; result_savers := result_savers m;
     cleanup_tasks := cleanup_tasks m; tree_spawn_counts := tree_spawn_counts m |}.

(** An agent is a shared object: a change of it is seen through the registry. *)
Definition update_agent (i : pystr) (f : AgentInfo → AgentInfo) (m : AgentManager) : AgentManager :=
  match dict_get (agents m) i with
  | Some a => set_agents (dict_set (agents m) i (f a)) m
  | None => m
  end.

(** The arguments of [spawn] the model keeps; 0 stands for an argument that is None. *)
Record SpawnRequest : Type := {
  sp_label : pystr;
  sp_goal : pystr;
  sp_channel : pystr;
  sp_requester : pystr;
  sp_parent : pystr;
  sp_max_depth : Z;
  sp_max_children : Z;
  sp_max_iterations : Z;
  sp_iteration_timeout : Z;
  sp_max_lifetime : Z;
  sp_turn : option pystr;
  sp_report_to : option ReportTarget;
  sp_saver : bool
}.

Inductive SpawnError : Type :=
| Channel_full (limit : Z)
| Label_and_goal_required
| Parent_not_found
| Too_deep (max_depth : Z)
| Too_many_children (max_children : Z)
| Tree_full.

(** [x or d] for an optional number. *)
Definition or_else (x d : Z) : Z := if x =? 0 then d else x.

Definition channel_count (c : pystr) (m : AgentManager) : Z :=
  Z.of_nat (length (List.filter (λ kv, bool_decide (channel_id (base kv.2) = c) && is_active kv.2) (agents m))).

(** [parent.root_id or parent.id] *)
Definition root_of (a : AgentInfo) : pystr := if nonempty (root_id (base a)) then root_id (base a) else id (base a).

(** The checks on the parent: the depth of the child. *)
Definition admit_child (m : AgentManager) (r : SpawnRequest) : result SpawnError Z :=
  match dict_get (agents m) (sp_parent r) with
  | None => Err Parent_not_found
  | Some p =>
      let d := depth (base p) + 1 in
      if max_depth (base p) <? d then Err (Too_deep (max_depth (base p)))
      else if max_children (base p) <=? Z.of_nat (length (children_ids p)) then
        Err (Too_many_children (max_children (base p)))
      else if TREE_MAX_AGENTS <=? default 0 (dict_get (tree_spawn_counts m) (root_of p)) then Err Tree_full
      else Ok d
  end.

(** The record a spawn builds; [p] is the parent's, if there is one. *)
Definition new_spawned (i : pystr) (now d : Z) (p : option AgentInfo) (r : SpawnRequest) : Spawned :=
  {| id := i; label := sp_label r; goal := sp_goal r; channel_id := sp_channel r; requester_id := sp_requester r;
     created_at := now; iteration_timeout := or_else (sp_iteration_timeout r) ITERATION_CB_TIMEOUT;
     max_lifetime := or_else (sp_max_lifetime r) MAX_AGENT_LIFETIME;
     max_iterations := or_else (sp_max_iterations r) MAX_AGENT_ITERATIONS;
     max_children := match p with Some p => max_children (base p)
                                | None => or_else (sp_max_children r) MAX_CHILDREN_PER_AGENT end;
     max_depth := match p with Some p => max_depth (base p) | None => sp_max_depth r end;
     root_id := match p with Some p => root_of p | None => i end;
     depth := d; parent_id := sp_parent r;
     turn_id := match p with Some p => turn_id (base p) | None => sp_turn r end;
     report_to := sp_report_to r |}.

(** [AgentInfo(...)], with [incarnation] the name of its report mailbox. *)
Definition new_agent (b : Spawned) (incarnation : pystr) : AgentInfo :=
  {| base := b; machine := new_machine (created_at b); ended_at := None; children_ids := [];
     cancel_event := false; task_cancelled := false;
     mail := {| messages := [user_message (JStr (goal b)) []]; inbox := []; inbox_sequence := 0;
                last_consumed_sequence := 0; inbox_event := false; queued_events := []; consumed_events := [] |};
     reports := new_mailbox (recipient_of (For_agent (id b))) incarnation;
     work := {| iteration_count := 0; tool_execution_count := 0; tools_used := []; recovery_attempts := 0;
                phase := Phase_ready; phase_started_at := created_at b; last_activity := created_at b;
                phase_deadline := None; result_text := []; error_text := [] |} |}.

Definition register (a : AgentInfo) (saver : bool) (m : AgentManager) : AgentManager :=
  let i := id (base a) in
  {| agents := dict_set (agents m) i a; retired_lineage := retired_lineage m;
     result_savers := if saver then i :: result_savers m else result_savers m;
     cleanup_tasks := cleanup_tasks m;
     tree_spawn_counts := dict_set (tree_spawn_counts m) (root_id (base a))
                            (default 0 (dict_get (tree_spawn_counts m) (root_id (base a))) + 1) |}.

(** [spawn]; [limit] is what the provider of the channel limit says, [i] the new name. *)
Definition spawn (limit : option Z) (i incarnation : pystr) (now : Z) (r : SpawnRequest) (m : AgentManager)
    : AgentManager * result SpawnError pystr :=
  let limit := default MAX_CONCURRENT_AGENTS limit in
  if limit <=? channel_count (sp_channel r) m then (m, Err (Channel_full limit))
  else if negb (nonempty (sp_label r)) || negb (nonempty (sp_goal r)) then (m, Err Label_and_goal_required)
  else if nonempty (sp_parent r) then
    match admit_child m r with
    | Err e => (m, Err e)
    | Ok d =>
        let p := dict_get (agents m) (sp_parent r) in
        let a := new_agent (new_spawned i now d p r) incarnation in
        (register a (sp_saver r) (update_agent (sp_parent r) (add_child i) m), Ok i)
    end
  else
    (register (new_agent (new_spawned i now 0 None r) incarnation) (sp_saver r) m, Ok i).

(** [filter_agent_tools] on the names of the tools. *)
Definition AGENT_MANAGEMENT_TOOLS : list pystr := Eval compute in
  [lit "spawn_agent"; lit "send_to_agent"; lit "list_agents"; lit "kill_agent"; lit "get_agent_results"; lit "wait_for_agents"].

Definition filter_agent_tools (tools : list pystr) (depth max_depth : Z) : list pystr :=
  if depth <? max_depth then tools else List.filter (λ t, negb (bool_decide (t ∈ AGENT_MANAGEMENT_TOOLS))) tools.

(** [send]: the sequence number of the message. *)
Inductive SendError : Type := Agent_not_found | Not_running (status : LegacyStatus) | Empty_message.

Definition queue_message (s : pystr) (a : AgentInfo) : AgentInfo :=
  let n := inbox_sequence (mail a) + 1 in
  set_mail {| messages := messages (mail a); inbox := inbox (mail a) ++ [(n, s)]; inbox_sequence := n;
              last_consumed_sequence := last_consumed_sequence (mail a); inbox_event := true;
              queued_events := queued_events (mail a) ++ [(n, s)]; consumed_events := consumed_events (mail a) |} a.

Definition send (i : pystr) (s : pystr) (m : AgentManager) : AgentManager * result SendError Z :=
  match dict_get (agents m) i with
  | None => (m, Err Agent_not_found)
  | Some a =>
      if is_terminal a then (m, Err (Not_running (legacy_status (state (machine a)))))
      else if negb (nonempty s) then (m, Err Empty_message)
      else (update_agent i (queue_message s) m, Ok (inbox_sequence (mail a) + 1))
  end.

(** [report_endpoint] *)
Definition report_endpoint (i : pystr) (m : AgentManager) : ReportEndpoint :=
  match dict_get (agents m) i with
  | Some a =>
      if is_terminal a || negb (accepting (reports a)) then
        {| ep_status := Ep_closed; mailbox := None; ep_reason := Some (lit "terminal_parent"); ep_label := [] |}
      else if cancel_event a then {| ep_status := Ep_stopping; mailbox := None; ep_reason := None; ep_label := [] |}
      else {| ep_status := Ep_open; mailbox := Some (reports a); ep_reason := None; ep_label := label (base a) |}
  | None => {| ep_status := Ep_closed; mailbox := None; ep_reason := Some (lit "terminal_parent"); ep_label := [] |}
  end.

(** ** Kills *)

(** [_force_cancel]; a task that is done is not cancelled, but its agent is terminal. *)
Definition force_cancel (a : AgentInfo) : AgentInfo :=
  {| base := base a; machine := machine a; ended_at := ended_at a; children_ids := children_ids a;
     cancel_event := true; task_cancelled := task_cancelled a || negb (is_terminal a); mail := mail a;
     reports := reports a; work := work a |}.

Definition active_at (m : AgentManager) (i : pystr) : bool :=
  match dict_get (agents m) i with Some a => is_active a | None => false end.

(** Cancel the active ones of these agents: their names, in order. *)
Fixpoint cancel_active (ids : list pystr) (m : AgentManager) : AgentManager * list pystr :=
  match ids with
  | [] => (m, [])
  | i :: ids =>
      if active_at m i
      then let '(m', killed) := cancel_active ids (update_agent i force_cancel m) in (m', i :: killed)
      else cancel_active ids m
  end.

(** [kill_for_turn]: what the job reaper is called with, too. *)
Definition kill_for_turn (t : pystr) (m : AgentManager) : AgentManager * list pystr :=
  cancel_active ((List.filter (λ kv, bool_decide (turn_id (base kv.2) = Some t)) (agents m)).*1) m.

(** Children and parent of an agent, registered or retired. *)
Definition children_of (m : AgentManager) (i : pystr) : list pystr :=
  match dict_get (agents m) i with
  | Some a => children_ids a
  | None => match dict_get (retired_lineage m) i with Some r => had_children r | None => [] end
  end.

Definition parent_of (m : AgentManager) (i : pystr) : pystr :=
  match dict_get (agents m) i with
  | Some a => parent_id (base a)
  | None => match dict_get (retired_lineage m) i with Some r => was_child_of r | None => [] end
  end.

(** The loop of [get_descendants]: [queue] and [visited], in the order of the visits. *)
Fixpoint descend (fuel : nat) (m : AgentManager) (queue visited : list pystr) : option (list pystr) :=
  match fuel with
  | O => None
  | S fuel =>
      match queue with
      | [] => Some visited
      | c :: queue =>
          if bool_decide (c ∈ visited) then descend fuel m queue visited
          else descend fuel m (queue ++ children_of m c) (visited ++ [c])
      end
  end.

(** Enough for every queue: each list of children is appended at most once. *)
Definition all_children (m : AgentManager) : nat :=
  (length (mjoin ((λ kv, children_ids kv.2) <$> agents m))
   + length (mjoin ((λ kv, had_children kv.2) <$> retired_lineage m)))%nat.

Definition get_descendants (m : AgentManager) (i : pystr) : list pystr :=
  default [] (descend (S (length (children_of m i) + all_children m)) m (children_of m i) []).

(** The loop of [get_lineage], from the agent up. *)
Fixpoint ascend (fuel : nat) (m : AgentManager) (current : pystr) (visited : list pystr) : option (list pystr) :=
  match fuel with
  | O => None
  | S fuel =>
      if negb (nonempty current) || bool_decide (current ∈ visited) then Some visited
      else if negb (nonempty (parent_of m current)) then Some (visited ++ [current])
      else ascend fuel m (parent_of m current) (visited ++ [current])
  end.

Definition get_lineage (m : AgentManager) (i : pystr) : list pystr :=
  rev (default [] (ascend (S (S (length (agents m) + length (retired_lineage m)))) m i [])).

Inductive KillOutcome : Type :=
| Kill_not_found
| Kill_sent (was_active : bool) (descendants : nat).

(** [kill_with_receipt]: the outcome, and the agents whose jobs are reaped. *)
Definition kill_with_receipt (i : pystr) (cascade : bool) (m : AgentManager)
    : AgentManager * KillOutcome * list pystr :=
  match dict_get (agents m) i, dict_get (retired_lineage m) i with
  | None, None => (m, Kill_not_found, [])
  | _, _ =>
      let '(m, own) := cancel_active [i] m in
      let '(m, below) := if cascade then cancel_active (get_descendants m i) m else (m, []) in
      (m, Kill_sent (bool_decide (own ≠ [])) (length below), own ++ below)
  end.

(** ** Removal *)

Definition needed (m : AgentManager) (i : pystr) : bool :=
  existsb (λ a, bool_decide (i ∈ get_lineage m a)) (agents m).*1.

(** [_remove_agent]; [published] says whether the result could be saved. *)
Definition remove_agent (i : pystr) (published : bool) (m : AgentManager) : AgentManager * bool :=
  match dict_get (agents m) i with
  | Some a =>
      if bool_decide (i ∈ result_savers m) && negb published then (m, false)
      else
        let m := {| agents := dict_del (agents m) i;
                    retired_lineage := dict_set (retired_lineage m) i
                      {| was_child_of := parent_id (base a); had_children := children_ids a;
                         last_status := legacy_status (state (machine a)) |};
                    result_savers := List.filter (λ j, negb (bool_decide (i = j))) (result_savers m);
                    cleanup_tasks := List.filter (λ j, negb (bool_decide (i = j))) (cleanup_tasks m);
                    tree_spawn_counts := tree_spawn_counts m |} in
        let kept := List.filter (λ kv, needed m kv.1) (retired_lineage m) in
        let root := if nonempty (root_id (base a)) then root_id (base a) else i in
        ({| agents := agents m; retired_lineage := kept; result_savers := result_savers m;
            cleanup_tasks := cleanup_tasks m;
            tree_spawn_counts := if existsb (λ kv, bool_decide (root_of kv.2 = root)) (agents m)
                                 then tree_spawn_counts m
                                 else dict_del (tree_spawn_counts m) root |}, true)
  | None =>
      ({| agents := agents m; retired_lineage := retired_lineage m;
          result_savers := List.filter (λ j, negb (bool_decide (i = j))) (result_savers m);
          cleanup_tasks := List.filter (λ j, negb (bool_decide (i = j))) (cleanup_tasks m);
          tree_spawn_counts := tree_spawn_counts m |}, false)
  end.

(** [cleanup]: the agents that ended long enough ago. *)
Definition expired_agents (now : Z) (m : AgentManager) : list pystr :=
  (List.filter (λ kv, is_terminal kv.2 &&
     match ended_at kv.2 with Some t => negb (t =? 0) && (CLEANUP_DELAY <? now - t) | None => false end) (agents m)).*1.

Definition cleanup (now : Z) (published : pystr → bool) (m : AgentManager) : AgentManager * nat :=
  foldl (λ '(m, n) i, let '(m, ok) := remove_agent i (published i) m in (m, if ok then S n else n))
    (m, 0%nat) (expired_agents now m).

(** [_agent_task_done]; [None] when the settlement itself raises, in which case no
    cleanup is scheduled. *)
Definition agent_task_done `{AgentText} (i : pystr) (cancelled : bool) (now : Z) (m : AgentManager) : option AgentManager :=
  let schedule m := {| agents := agents m; retired_lineage := retired_lineage m; result_savers := result_savers m;
                       cleanup_tasks := i :: cleanup_tasks m; tree_spawn_counts := tree_spawn_counts m |} in
  match dict_get (agents m) i with
  | Some a =>
      if is_terminal a then Some (schedule m)
      else
        a' ← (if cancelled then transition KILLED (lit "task cancelled before terminal settlement") now a
              else set_error (lit "Agent task exited without terminal settlement.")
                     <$> transition FAILED (lit "task exited without terminal settlement") now a);
        Some (schedule (update_agent i (λ _, set_ended now a') m))
  | None => Some (schedule m)
  end.

(** [check_health]: the agents past their lifetime are cancelled. *)
Definition overdue (now : Z) (a : AgentInfo) : bool :=
  negb (is_terminal a) && (max_lifetime (base a) <? now - created_at (base a)).

Definition stale (now : Z) (a : AgentInfo) : bool :=
  negb (is_terminal a) && negb (overdue now a)
  && (match phase_deadline (work a) with Some d => d <? now | None => false end
      || (bool_decide (phase (work a) = Phase_ready) && (STALE_WARN_SECONDS <? now - last_activity (work a)))).

Definition check_health (now : Z) (m : AgentManager) : AgentManager * nat * nat :=
  (set_agents ((λ kv, (kv.1, if overdue now kv.2 then force_cancel kv.2 else kv.2)) <$> agents m) m,
   length (List.filter (λ kv, overdue now kv.2) (agents m)),
   length (List.filter (λ kv, stale now kv.2) (agents m))).
