(* ===== verification/AgentTree.v ===== *)
(** * The theory of lineages and trees of agents

    Over any sequence of spawns, messages, kills, work, settlements, removals and health
    checks: the limits of every tree hold for its whole life, although removal forgets
    agents; and a kill reaches every live descendant, although the agents in between
    may be forgotten.

    The invariant of the registry, the retired lineage and the lifetime counters, and
    the theorems about the limits of a tree and about kills. *)

From S2P Require Import Prelude PyStr PyLib AgentReports Agents.
Open Scope string_scope.
Open Scope list_scope.
Open Scope Z_scope.

(** ** Dicts *)

Lemma dict_get_map {V W} (f : V → W) (d : list (pystr * V)) k :
  dict_get ((λ kv, (kv.1, f kv.2)) <$> d) k = f <$> dict_get d k.
Proof. induction d as [|[k' v] d IH]; simpl; [done|]. by case_bool_decide. Qed.

Lemma dict_set_map {V W} (f : V → W) (d : list (pystr * V)) k v :
  (λ kv, (kv.1, f kv.2)) <$> dict_set d k v = dict_set ((λ kv, (kv.1, f kv.2)) <$> d) k (f v).
Proof. induction d as [|[k' v'] d IH]; simpl; [done|]. case_bool_decide; simpl; [done|]. by f_equal. Qed.

Lemma dict_set_same {V} (d : list (pystr * V)) k v : dict_get d k = Some v → dict_set d k v = d.
Proof.
  induction d as [|[k' v'] d IH]; simpl; [done|]. case_bool_decide; [by intros [= ->]|]. intros Hd. f_equal. auto.
Qed.

Lemma dict_set_fresh {V} (d : list (pystr * V)) k v : k ∉ d.*1 → dict_set d k v = d ++ [(k, v)].
Proof.
  induction d as [|[k' v'] d IH]; simpl; [done|]. intros [Hne Hk]%not_elem_of_cons.
  rewrite bool_decide_eq_false_2 by done. f_equal. auto.
Qed.

Section theory.
Context `{AgentText}.

(** ** Runs *)

(** What the worker of an agent changes: not who it is, its children, or its cancellation. *)
Definition keep (a a' : AgentInfo) : AgentInfo :=
  {| base := base a; machine := machine a'; ended_at := ended_at a'; children_ids := children_ids a;
     cancel_event := cancel_event a; task_cancelled := task_cancelled a; mail := mail a'; reports := reports a';
     work := work a' |}.

Inductive Event : Type :=
| Spawn (limit : option Z) (i incarnation : pystr) (now : Z) (r : SpawnRequest)
| Send (i s : pystr)
| Kill (i : pystr) (cascade : bool)
| Kill_turn (t : pystr)
| Progress (i : pystr) (f : AgentInfo → AgentInfo)
| Task_done (i : pystr) (cancelled : bool) (now : Z)
| Remove (i : pystr) (published : bool)
| Cleanup (now : Z) (published : pystr → bool)
| Health (now : Z).

(** The manager, and everything that was ever spawned. *)
Record World : Type := { mgr : AgentManager; births : list Spawned }.

Definition with_mgr (m : AgentManager) (w : World) : World := {| mgr := m; births := births w |}.

Definition birth_of (i : pystr) (m : AgentManager) : list Spawned :=
  match dict_get (agents m) i with Some a => [base a] | None => [] end.

(** A name is never given twice. *)
Definition exec (w : World) (ev : Event) : World :=
  match ev with
  | Spawn limit i incarnation now r =>
      if negb (nonempty i) || bool_decide (i ∈ id <$> births w) then w
      else match spawn limit i incarnation now r (mgr w) with
           | (m, Ok i) => {| mgr := m; births := births w ++ birth_of i m |}
           | (m, Err _) => with_mgr m w
           end
  | Send i s => with_mgr (send i s (mgr w)).1 w
  | Kill i cascade => with_mgr (kill_with_receipt i cascade (mgr w)).1.1 w
  | Kill_turn t => with_mgr (kill_for_turn t (mgr w)).1 w
  | Progress i f => with_mgr (update_agent i (λ a, keep a (f a)) (mgr w)) w
  | Task_done i cancelled now => with_mgr (default (mgr w) (agent_task_done i cancelled now (mgr w))) w
  | Remove i published => with_mgr (remove_agent i published (mgr w)).1 w
  | Cleanup now published => with_mgr (cleanup now published (mgr w)).1 w
  | Health now => with_mgr (check_health now (mgr w)).1.1 w
  end.

Definition boot : World := {| mgr := new_manager; births := [] |}.

(** ** Lineage and descent *)

Definition nodes (m : AgentManager) : list pystr := (agents m).*1 ++ (retired_lineage m).*1.

Lemma parent_node m k : parent_of m k ≠ [] → k ∈ nodes m.
Proof.
  unfold parent_of, nodes. intros Hk. apply elem_of_app.
  destruct (dict_get (agents m) k) eqn:Ha.
  - left. apply dict_get_Some_elem in Ha. by apply (list_elem_of_fmap_2 fst) in Ha.
  - destruct (dict_get (retired_lineage m) k) eqn:Hr; [|done]. right.
    apply dict_get_Some_elem in Hr. by apply (list_elem_of_fmap_2 fst) in Hr.
Qed.

Lemma nonempty_spec (s : pystr) : nonempty s = true ↔ s ≠ [].
Proof. by destruct s. Qed.

Lemma ascend_some fuel m c vis :
  NoDup vis → vis ⊆ nodes m → (length (nodes m) < fuel + length vis)%nat → is_Some (ascend fuel m c vis).
Proof.
  revert c vis. induction fuel as [|fuel IH]; intros c vis Hnd Hsub Hlt.
  { apply NoDup_submseteq in Hsub; [|done]. apply submseteq_length in Hsub. lia. }
  simpl. destruct (negb (nonempty c) || _) eqn:Hc; [done|]. bool_prop.
  destruct (negb (nonempty (parent_of m c))) eqn:Hp; [done|]. bool_prop. apply IH.
  - apply NoDup_app. split_and!; [done| |apply NoDup_singleton]. by intros x Hx ->%list_elem_of_singleton.
  - intros x [| ->%list_elem_of_singleton]%elem_of_app; [by apply Hsub|]. by apply parent_node, nonempty_spec.
  - rewrite length_app. simpl. lia.
Qed.

Lemma ascend_closed fuel m c vis out :
  ascend fuel m c vis = Some out →
  (∀ k, k ∈ vis → parent_of m k ≠ [] → parent_of m k ∈ vis ∨ parent_of m k = c) →
  vis ⊆ out ∧ (c ≠ [] → c ∈ out) ∧ ∀ k, k ∈ out → parent_of m k ≠ [] → parent_of m k ∈ out.
Proof.
  revert c vis. induction fuel as [|fuel IH]; intros c vis; simpl; [done|]. intros Ha Hv.
  destruct (negb (nonempty c) || _) eqn:Hc.
  - injection Ha as <-. apply orb_true_iff in Hc as [Hc|Hc]; bool_prop.
    + destruct c; [|done]. split_and!; [done..|]. intros k Hk Hp. destruct (Hv k Hk Hp); [done|congruence].
    + split_and!; [done..|]. intros k Hk Hp. destruct (Hv k Hk Hp) as [|Heq]; [done|by rewrite Heq].
  - bool_prop. destruct (negb (nonempty (parent_of m c))) eqn:Hp; bool_prop.
    + injection Ha as <-. split_and!; [set_solver..|]. intros k [Hk| ->%list_elem_of_singleton]%elem_of_app Hpk.
      * apply elem_of_app. destruct (Hv k Hk Hpk) as [|Heq]; [by left|right; rewrite Heq; by apply list_elem_of_singleton].
      * by destruct (parent_of m c).
    + apply IH in Ha as (Hsub & Hin & Hcl).
      * split_and!; [set_solver| |done]. intros _. apply Hsub. set_solver.
      * intros k [Hk| ->%list_elem_of_singleton]%elem_of_app Hpk; [|by right].
        left. apply elem_of_app. destruct (Hv k Hk Hpk) as [|Heq]; [by left|right; rewrite Heq; by apply list_elem_of_singleton].
Qed.

(** The lineage of an agent holds it and is closed under parents. *)
Lemma lineage_closed m i :
  i ≠ [] → i ∈ get_lineage m i ∧
  ∀ k, k ∈ get_lineage m i → parent_of m k ≠ [] → parent_of m k ∈ get_lineage m i.
Proof.
  intros Hi. unfold get_lineage.
  destruct (ascend_some (S (S (length (agents m) + length (retired_lineage m)))) m i []) as [out Hout];
    [apply NoDup_nil_2|set_solver|unfold nodes; rewrite length_app, !length_fmap; simpl; lia|].
  rewrite Hout. simpl. apply ascend_closed in Hout as (_ & Hin & Hcl); [|by intros k ?%not_elem_of_nil].
  assert (Hrev : ∀ x, x ∈ rev out ↔ x ∈ out) by (intros x; rewrite !list_elem_of_In; symmetry; apply in_rev).
  split; [by apply Hrev, Hin|]. intros k Hk%Hrev Hp. by apply Hrev, Hcl.
Qed.

(** What is left of the lists of children once [vis] is visited. *)
Definition left_over (d : list (pystr * nat)) (vis : list pystr) : nat :=
  foldr (λ kn n, ((if bool_decide (kn.1 ∈ vis) then 0 else kn.2) + n)%nat) 0%nat d.

Lemma left_over_visit d vis c : (left_over d (vis ++ [c]) <= left_over d vis)%nat.
Proof.
  induction d as [|[k n] d IH]; simpl; [lia|].
  destruct (decide (k ∈ vis)) as [Hk|Hk].
  - rewrite !bool_decide_eq_true_2 by set_solver. lia.
  - rewrite (bool_decide_eq_false_2 (k ∈ vis)) by done. case_bool_decide; lia.
Qed.

Lemma left_over_spend d vis c n :
  (c, n) ∈ d → c ∉ vis → (left_over d (vis ++ [c]) + n <= left_over d vis)%nat.
Proof.
  intros Hin Hc. induction d as [|[k n'] d IH]; [by apply not_elem_of_nil in Hin|]. simpl.
  pose proof (left_over_visit d vis c). apply elem_of_cons in Hin as [[= -> ->]|Hin].
  - rewrite (bool_decide_eq_true_2 (k ∈ vis ++ [k])) by set_solver. rewrite bool_decide_eq_false_2 by done. lia.
  - specialize (IH Hin). destruct (decide (k ∈ vis)) as [Hk|Hk].
    + rewrite !bool_decide_eq_true_2 by set_solver. lia.
    + rewrite (bool_decide_eq_false_2 (k ∈ vis)) by done. case_bool_decide; lia.
Qed.

Definition to_visit (m : AgentManager) (vis : list pystr) : nat :=
  (left_over ((λ kv, (kv.1, length (children_ids kv.2))) <$> agents m) vis
   + left_over ((λ kv, (kv.1, length (had_children kv.2))) <$> retired_lineage m) vis)%nat.

Lemma to_visit_spend m vis c :
  c ∉ vis → (to_visit m (vis ++ [c]) + length (children_of m c) <= to_visit m vis)%nat.
Proof.
  intros Hc. unfold to_visit, children_of.
  set (d1 := _ <$> agents m). set (d2 := _ <$> retired_lineage m).
  pose proof (left_over_visit d1 vis c). pose proof (left_over_visit d2 vis c).
  destruct (dict_get (agents m) c) as [a|] eqn:Ha.
  - assert (Hin : (c, length (children_ids a)) ∈ d1).
    { apply list_elem_of_fmap. exists (c, a). split; [done|]. by apply dict_get_Some_elem. }
    pose proof (left_over_spend d1 vis c _ Hin Hc). lia.
  - destruct (dict_get (retired_lineage m) c) as [r|] eqn:Hr; [|simpl; lia].
    assert (Hin : (c, length (had_children r)) ∈ d2).
    { apply list_elem_of_fmap. exists (c, r). split; [done|]. by apply dict_get_Some_elem. }
    pose proof (left_over_spend d2 vis c _ Hin Hc). lia.
Qed.

Lemma to_visit_all m : to_visit m [] = all_children m.
Proof.
  unfold to_visit, all_children. f_equal.
  - induction (agents m) as [|[k a] d IH]; simpl; [done|]. rewrite length_app. f_equal. exact IH.
  - induction (retired_lineage m) as [|[k a] d IH]; simpl; [done|]. rewrite length_app. f_equal. exact IH.
Qed.

Lemma descend_some fuel m q vis : (length q + to_visit m vis < fuel)%nat → is_Some (descend fuel m q vis).
Proof.
  revert q vis. induction fuel as [|fuel IH]; intros q vis Hlt; [lia|]. simpl.
  destruct q as [|c q]; [done|]. simpl in Hlt. case_bool_decide as Hc; apply IH; [lia|].
  pose proof (to_visit_spend m vis c Hc). rewrite length_app. lia.
Qed.

Lemma descend_closed fuel m q vis out :
  descend fuel m q vis = Some out →
  (∀ v c, v ∈ vis → c ∈ children_of m v → c ∈ vis ∨ c ∈ q) →
  vis ⊆ out ∧ q ⊆ out ∧ ∀ v c, v ∈ out → c ∈ children_of m v → c ∈ out.
Proof.
  revert q vis. induction fuel as [|fuel IH]; intros q vis; simpl; [done|]. intros Hd Hv.
  destruct q as [|c q].
  { injection Hd as <-. split_and!; [done|set_solver|]. intros v c Hin Hc. by destruct (Hv v c Hin Hc) as [|?%not_elem_of_nil]. }
  case_bool_decide as Hc.
  - apply IH in Hd as (H1 & H2 & H3); [set_solver|]. intros v c' Hin Hc'.
    destruct (Hv v c' Hin Hc') as [|[ ->|]%elem_of_cons]; auto.
  - apply IH in Hd as (H1 & H2 & H3); [set_solver|].
    intros v c' [Hin| ->%list_elem_of_singleton]%elem_of_app Hc'; [|set_solver].
    destruct (Hv v c' Hin Hc') as [|[ ->|]%elem_of_cons]; set_solver.
Qed.

Lemma descend_sound fuel m q vis out (P : pystr → Prop) :
  descend fuel m q vis = Some out → (∀ v c, P v → c ∈ children_of m v → P c) →
  Forall P q → Forall P vis → Forall P out.
Proof.
  intros Hd HP. revert q vis Hd. induction fuel as [|fuel IH]; intros q vis; simpl; [done|].
  destruct q as [|c q]; [by intros [= <-]|]. intros Hd [Hc Hq]%Forall_cons Hv. case_bool_decide; [by eapply IH|].
  eapply IH; [exact Hd|apply Forall_app; split; [done|]|apply Forall_app; split; [done|by apply Forall_singleton]].
  apply Forall_forall. intros x. by apply HP.
Qed.

(** [get_descendants] is what is reachable through lists of children, and nothing else. *)
Lemma descendants_closed m i :
  children_of m i ⊆ get_descendants m i ∧
  ∀ v c, v ∈ get_descendants m i → c ∈ children_of m v → c ∈ get_descendants m i.
Proof.
  unfold get_descendants.
  destruct (descend_some (S (length (children_of m i) + all_children m)) m (children_of m i) []) as [out Hout];
    [rewrite to_visit_all; lia|].
  rewrite Hout. simpl. apply descend_closed in Hout as (_ & H1 & H2); [done|]. by intros v c ?%not_elem_of_nil.
Qed.

Lemma descendants_sound m i (P : pystr → Prop) :
  (∀ v c, P v → c ∈ children_of m v → P c) → (∀ c, c ∈ children_of m i → P c) → Forall P (get_descendants m i).
Proof.
  intros HP Hi. unfold get_descendants. destruct (descend _ _ _ _) as [out|] eqn:Hout; simpl; [|done].
  eapply descend_sound; [exact Hout|done|by apply Forall_forall|done].
Qed.

End theory.

(** * Trees of agents *)

Section tree.
Context `{AgentText}.

(** ** What was spawned *)

(** The children ever spawned by [p], in order; the size of a tree so far. *)
Definition kids (bs : list Spawned) (p : pystr) : list pystr :=
  id <$> List.filter (λ b, bool_decide (parent_id b = p)) bs.

Definition members (bs : list Spawned) (r : pystr) : Z :=
  Z.of_nat (length (List.filter (λ b, bool_decide (root_id b = r)) bs)).

(** An agent belongs to the tree of a root whose limits it has; it is the root, or one
    deeper than its parent and within the depth limit. *)
Definition placed (bs : list Spawned) (b : Spawned) : Prop :=
  ∃ rt, rt ∈ bs ∧ id rt = root_id b ∧ parent_id rt = [] ∧ depth rt = 0 ∧
    max_depth b = max_depth rt ∧ max_children b = max_children rt ∧ turn_id b = turn_id rt ∧
    (b = rt ∨ ∃ p, p ∈ bs ∧ id p = parent_id b ∧ root_id p = root_id b ∧
                   depth b = depth p + 1 ∧ depth b <= max_depth b).

(** [c] was spawned below [i]. *)
Inductive below (bs : list Spawned) (i : pystr) : pystr → Prop :=
| below_child b : b ∈ bs → parent_id b = i → i ≠ [] → below bs i (id b)
| below_step p b : below bs i p → b ∈ bs → parent_id b = p → p ≠ [] → below bs i (id b).

Definition has_member (m : AgentManager) (r : pystr) : bool :=
  existsb (λ kv, bool_decide (root_of kv.2 = r)) (agents m).

Record tree_ok (w : World) : Prop := {
  tk_nodup : NoDup (agents (mgr w)).*1;
  tk_births : NoDup (id <$> births w);
  tk_named b : b ∈ births w → id b ≠ [];
  tk_agent k a : dict_get (agents (mgr w)) k = Some a →
    id (base a) = k ∧ base a ∈ births w ∧ children_ids a = kids (births w) k;
  tk_retired k r : dict_get (retired_lineage (mgr w)) k = Some r →
    had_children r = kids (births w) k ∧ ∃ b, b ∈ births w ∧ id b = k ∧ was_child_of r = parent_id b;
  tk_disjoint k : k ∈ (agents (mgr w)).*1 → dict_get (retired_lineage (mgr w)) k = None;
  tk_placed b : b ∈ births w → placed (births w) b;
  tk_kids b : b ∈ births w → Z.of_nat (length (kids (births w) (id b))) <= Z.max 0 (max_children b);
  tk_counts r : dict_get (tree_spawn_counts (mgr w)) r
    = if has_member (mgr w) r then Some (members (births w) r) else None;
  tk_members r : members (births w) r <= TREE_MAX_AGENTS;
  tk_linked k : k ∈ nodes (mgr w) → parent_of (mgr w) k ≠ [] → parent_of (mgr w) k ∈ nodes (mgr w)
}.

Lemma placed_app bs bs' b : placed bs b → placed (bs ++ bs') b.
Proof.
  intros (rt & Hrt & H1 & H2 & H3 & H4 & H5 & H6 & Hp). exists rt. split_and!; try done; [set_solver|].
  destruct Hp as [->|(p & Hp & ?)]; [by left|right]. exists p. split; [set_solver|done].
Qed.

Lemma placed_root bs b : placed bs b → (∀ b, b ∈ bs → id b ≠ []) → root_id b ≠ [].
Proof. intros (rt & Hrt & <- & _) Hn. auto. Qed.

(** ** Changes that leave the tree alone *)

Definition skeleton (m : AgentManager) : list (pystr * (Spawned * list pystr)) :=
  (λ kv, (kv.1, (base kv.2, children_ids kv.2))) <$> agents m.

Definition same_tree (m m' : AgentManager) : Prop :=
  skeleton m' = skeleton m ∧ retired_lineage m' = retired_lineage m ∧ tree_spawn_counts m' = tree_spawn_counts m.

#[global] Instance same_tree_preorder : PreOrder same_tree.
Proof.
  split; [by intros m|]. intros m1 m2 m3 (? & ? & ?) (? & ? & ?). split_and!; congruence.
Qed.

Lemma skeleton_get m k :
  dict_get (skeleton m) k = (λ a, (base a, children_ids a)) <$> dict_get (agents m) k.
Proof. unfold skeleton. apply (dict_get_map (λ a, (base a, children_ids a))). Qed.

Lemma skeleton_keys m : (skeleton m).*1 = (agents m).*1.
Proof. unfold skeleton. by rewrite <- list_fmap_compose. Qed.

Lemma has_member_skeleton m r :
  has_member m r = existsb (λ kv, bool_decide ((if nonempty (root_id kv.2.1) then root_id kv.2.1 else id kv.2.1) = r)) (skeleton m).
Proof. unfold has_member, skeleton, root_of. by induction (agents m) as [|kv d IH]; simpl; [|rewrite IH]. Qed.

Lemma same_tree_ok w m' : same_tree (mgr w) m' → tree_ok w → tree_ok (with_mgr m' w).
Proof.
  intros (Hsk & Hr & Hc) [].
  assert (Hkeys : (agents m').*1 = (agents (mgr w)).*1) by (by rewrite <- !skeleton_keys, Hsk).
  assert (Hpar : ∀ k, parent_of m' k = parent_of (mgr w) k).
  { intros k. unfold parent_of. pose proof (skeleton_get m' k) as H1. pose proof (skeleton_get (mgr w) k) as H2.
    rewrite Hsk, H2 in H1. rewrite Hr.
    destruct (dict_get (agents (mgr w)) k), (dict_get (agents m') k); simplify_eq/=; congruence. }
  assert (Hnodes : nodes m' = nodes (mgr w)) by (unfold nodes; by rewrite Hkeys, Hr).
  split; simpl; try done.
  - by rewrite Hkeys.
  - intros k a Ha. pose proof (skeleton_get m' k) as H1. rewrite Hsk, skeleton_get, Ha in H1.
    destruct (dict_get (agents (mgr w)) k) as [a0|] eqn:Ha0; simplify_eq/=.
    specialize (tk_agent0 _ _ Ha0) as (? & ? & ?). split_and!; congruence.
  - intros k r. rewrite Hr. apply tk_retired0.
  - intros k. rewrite Hkeys, Hr. apply tk_disjoint0.
  - intros r. by rewrite Hc, tk_counts0, !has_member_skeleton, Hsk.
  - intros k. rewrite Hnodes, Hpar. apply tk_linked0.
Qed.

Lemma update_same i f m :
  (∀ a, dict_get (agents m) i = Some a → base (f a) = base a ∧ children_ids (f a) = children_ids a) →
  same_tree m (update_agent i f m).
Proof.
  intros Hf. unfold update_agent. destruct (dict_get (agents m) i) as [a|] eqn:Ha; [|done].
  split_and!; [|done..]. unfold skeleton. simpl. rewrite (dict_set_map (λ a, (base a, children_ids a))).
  apply dict_set_same. destruct (Hf a eq_refl) as [-> ->]. rewrite (dict_get_map (λ a, (base a, children_ids a))), Ha. done.
Qed.

Lemma cancel_active_same ids m : same_tree m (cancel_active ids m).1.
Proof.
  revert m. induction ids as [|i ids IH]; intros m; simpl; [done|]. destruct (active_at m i); [|apply IH].
  specialize (IH (update_agent i force_cancel m)). destruct (cancel_active ids _). simpl in *.
  etrans; [apply (update_same i force_cancel); by intros|exact IH].
Qed.

(** ** Spawning *)

Lemma kids_app bs bs' p : kids (bs ++ bs') p = kids bs p ++ kids bs' p.
Proof. unfold kids. by rewrite List.filter_app, fmap_app. Qed.

Lemma members_app bs bs' r : members (bs ++ bs') r = members bs r + members bs' r.
Proof. unfold members. rewrite List.filter_app, length_app. lia. Qed.

Lemma has_member_true m r : has_member m r = true ↔ ∃ k a, (k, a) ∈ agents m ∧ root_of a = r.
Proof.
  unfold has_member. rewrite existsb_exists. split.
  - intros ([k a] & Hin & Hr). bool_prop. exists k, a. split; [by apply list_elem_of_In|done].
  - intros (k & a & Hin & Hr). exists (k, a). split; [by apply list_elem_of_In|]. by apply bool_decide_eq_true.
Qed.

Lemma tree_ok_root w k a : tree_ok w → dict_get (agents (mgr w)) k = Some a → root_of a = root_id (base a).
Proof.
  intros Hw Ha. destruct (tk_agent _ Hw _ _ Ha) as (_ & Hb & _).
  pose proof (placed_root _ _ (tk_placed _ Hw _ Hb) (tk_named _ Hw)) as Hr.
  unfold root_of. by rewrite (proj2 (nonempty_spec _)).
Qed.

(** What a successful spawn has checked. *)
Record fits (w : World) (b : Spawned) : Prop := {
  fi_named : id b ≠ [];
  fi_fresh : id b ∉ id <$> births w;
  fi_placed : placed (births w ++ [b]) b;
  fi_parent : parent_id b = [] ∨
    ∃ p, dict_get (agents (mgr w)) (parent_id b) = Some p ∧ parent_id b ≠ [] ∧
         Z.of_nat (length (children_ids p)) < max_children (base p);
  fi_root : root_id b = id b ∨ has_member (mgr w) (root_id b) = true ∧ members (births w) (root_id b) < TREE_MAX_AGENTS
}.

Definition grown (b : Spawned) (incarnation : pystr) (saver : bool) (m : AgentManager) : AgentManager :=
  register (new_agent b incarnation) saver (update_agent (parent_id b) (add_child (id b)) m).

Lemma kids_none bs p : (∀ b, b ∈ bs → parent_id b ≠ p) → kids bs p = [].
Proof.
  intros Hn. unfold kids. induction bs as [|b bs IH]; simpl; [done|].
  rewrite bool_decide_eq_false_2 by (apply Hn; by left). apply IH. intros b' ?. apply Hn. by right.
Qed.

Lemma NoDup_fmap_elem {A B} (f : A → B) l x y : NoDup (f <$> l) → x ∈ l → y ∈ l → f x = f y → x = y.
Proof.
  intros Hnd (i & Hi)%list_elem_of_lookup (j & Hj)%list_elem_of_lookup Heq.
  assert (i = j) as ->; [|congruence]. eapply NoDup_lookup; [exact Hnd|by rewrite list_lookup_fmap, Hi|].
  by rewrite list_lookup_fmap, Hj, Heq.
Qed.

Section grow.
Context {w : World} {b : Spawned} (inc : pystr) (saver : bool) (Hw : tree_ok w) (Hb : fits w b).

Let m := mgr w.
Let m' := grown b inc saver m.
Let bs := births w.

Lemma known_id k a : dict_get (agents m) k = Some a → k ∈ id <$> bs.
Proof.
  intros (<- & Hin & _)%(tk_agent _ Hw). by apply (list_elem_of_fmap_2 id) in Hin.
Qed.

Lemma node_known k : k ∈ nodes m → k ∈ id <$> bs.
Proof.
  unfold nodes. intros [Hk|Hk]%elem_of_app.
  - destruct (dict_get (agents m) k) as [a|] eqn:Ha; [by eapply known_id|]. by apply dict_get_None in Ha.
  - destruct (dict_get (retired_lineage m) k) as [r|] eqn:Hr; [|by apply dict_get_None in Hr].
    destruct (tk_retired _ Hw _ _ Hr) as (_ & b0 & Hb0 & <- & _). by apply (list_elem_of_fmap_2 id) in Hb0.
Qed.

Lemma grown_get k :
  dict_get (agents m') k =
    if bool_decide (k = id b) then Some (new_agent b inc)
    else (λ a, if bool_decide (k = parent_id b) then add_child (id b) a else a) <$> dict_get (agents m) k.
Proof.
  unfold m', grown, register. simpl. rewrite dict_get_set. case_bool_decide; [done|].
  unfold update_agent. fold m. destruct (dict_get (agents m) (parent_id b)) as [p|] eqn:Hp; simpl.
  - rewrite dict_get_set. case_bool_decide; [by subst; rewrite Hp|]. by destruct (dict_get (agents m) k).
  - case_bool_decide; [by subst; rewrite Hp|]. by destruct (dict_get (agents m) k).
Qed.

Lemma update_keys i f : (agents (update_agent i f m)).*1 = (agents m).*1.
Proof.
  unfold update_agent. destruct (dict_get (agents m) i) as [a|] eqn:Ha; [|done]. simpl.
  assert (Hf : ∀ (d : list (pystr * AgentInfo)) v, dict_get d i = Some v → (dict_set d i (f a)).*1 = d.*1); [|by eapply Hf].
  intros d. induction d as [|[k v] d IH]; simpl; [done|]. intros v0. case_bool_decide; [done|].
  intros Hd. simpl. f_equal. by eapply IH.
Qed.

Lemma fresh_key : id b ∉ (agents m).*1.
Proof.
  intros Hin. apply (fi_fresh _ _ Hb). destruct (dict_get (agents m) (id b)) as [a|] eqn:Ha; [by eapply known_id|].
  by apply dict_get_None in Ha.
Qed.

Lemma grown_keys : (agents m').*1 = (agents m).*1 ++ [id b].
Proof.
  unfold m', grown, register. simpl. rewrite dict_set_fresh; [|rewrite update_keys; apply fresh_key].
  by rewrite fmap_app, update_keys.
Qed.

Lemma grown_retired : retired_lineage m' = retired_lineage m.
Proof. unfold m', grown, update_agent. simpl. by destruct (dict_get _ _). Qed.

Lemma grown_parent k : k ≠ id b → parent_of m' k = parent_of m k.
Proof.
  intros Hk. unfold parent_of. rewrite grown_get, grown_retired. rewrite bool_decide_eq_false_2 by done.
  destruct (dict_get (agents m) k); [|done]. simpl. by case_bool_decide.
Qed.

Lemma grown_root k a : dict_get (agents m') k = Some a →
  root_of a = root_id b ∧ k = id b ∨ ∃ a0, dict_get (agents m) k = Some a0 ∧ root_of a0 = root_of a.
Proof.
  rewrite grown_get. case_bool_decide.
  - intros [= <-]. left. split; [|done]. unfold root_of. simpl.
    destruct (fi_placed _ _ Hb) as (rt & Hrt & Hid & _). rewrite (proj2 (nonempty_spec _)); [done|].
    rewrite <- Hid. apply elem_of_app in Hrt as [Hrt| ->%list_elem_of_singleton]; [by apply (tk_named _ Hw)|apply Hb].
  - intros (a0 & -> & ->)%fmap_Some. right. exists a0. split; [done|]. by case_bool_decide.
Qed.

Lemma grown_members r : members (bs ++ [b]) r = members bs r + (if bool_decide (root_id b = r) then 1 else 0).
Proof. rewrite members_app. unfold members at 2. simpl. by case_bool_decide. Qed.

Lemma no_members r : (∀ b0, b0 ∈ bs → root_id b0 ≠ r) → members bs r = 0.
Proof.
  intros Hn. unfold members. destruct (List.filter _ bs) as [|b0 l] eqn:Hf; [done|].
  assert (Hin : In b0 (List.filter (λ b, bool_decide (root_id b = r)) bs)) by (rewrite Hf; by left).
  apply filter_In in Hin as [Hin Hr]. bool_prop. apply list_elem_of_In in Hin. by apply Hn in Hin.
Qed.

Lemma fresh_root b0 : b0 ∈ bs → root_id b0 ≠ id b.
Proof.
  intros Hin Heq. destruct (tk_placed _ Hw _ Hin) as (rt & Hrt & Hid & _). apply (fi_fresh _ _ Hb).
  rewrite <- Heq, <- Hid. by apply (list_elem_of_fmap_2 id) in Hrt.
Qed.
Lemma has_member_get m0 r : NoDup (agents m0).*1 →
  has_member m0 r = true ↔ ∃ k a, dict_get (agents m0) k = Some a ∧ root_of a = r.
Proof.
  intros Hnd. rewrite has_member_true. split; intros (k & a & Ha & Hr); exists k, a; (split; [|done]).
  - by apply dict_get_elem.
  - by apply dict_get_Some_elem.
Qed.

Lemma grown_nodup : NoDup (agents m').*1.
Proof.
  rewrite grown_keys. apply NoDup_app. split_and!; [apply Hw| |apply NoDup_singleton].
  intros k Hk Heq%list_elem_of_singleton. subst k. by apply fresh_key.
Qed.

Lemma grown_member r : has_member m' r = bool_decide (root_id b = r) || has_member m r.
Proof.
  apply eq_true_iff_eq. rewrite orb_true_iff, bool_decide_eq_true, !has_member_get by (apply grown_nodup || apply Hw).
  split.
  - intros (k & a & Ha & <-). destruct (grown_root k a Ha) as [[-> _]|(a0 & Ha0 & Hr)]; [by left|right]. eauto.
  - intros [Hr|(k & a & Ha & Hr)].
    + exists (id b), (new_agent b inc). assert (Hn : dict_get (agents m') (id b) = Some (new_agent b inc))
        by (rewrite grown_get; by rewrite bool_decide_eq_true_2).
      split; [done|]. destruct (grown_root _ _ Hn) as [[-> _]|(a0 & Ha0 & _)]; [done|].
      exfalso. apply fresh_key. apply dict_get_Some_elem in Ha0. by apply (list_elem_of_fmap_2 fst) in Ha0.
    + assert (Hk : k ≠ id b) by (intros ->; by apply (fi_fresh _ _ Hb), (known_id _ a)).
      eexists k, _. rewrite grown_get, bool_decide_eq_false_2, Ha by done. split; [reflexivity|].
      simpl. by case_bool_decide.
Qed.

Lemma grown_counts r :
  dict_get (tree_spawn_counts m') r = if has_member m' r then Some (members (bs ++ [b]) r) else None.
Proof.
  rewrite grown_member, grown_members. unfold m', grown, register. simpl.
  assert (Hsame : tree_spawn_counts (update_agent (parent_id b) (add_child (id b)) m) = tree_spawn_counts m)
    by (unfold update_agent; by destruct (dict_get _ _)).
  rewrite Hsame, dict_get_set, !(tk_counts _ Hw). fold m.
  destruct (bool_decide_reflect (root_id b = r)) as [<-|Hne]; simpl.
  - rewrite bool_decide_eq_true_2 by done. f_equal. f_equal.
    destruct (has_member m (root_id b)) eqn:Hm; simpl; [done|]. symmetry.
    destruct (fi_root _ _ Hb) as [Hr|[Hr _]]; [|unfold m in Hm; congruence].
    apply no_members. rewrite Hr. apply fresh_root.
  - rewrite bool_decide_eq_false_2 by congruence. destruct (has_member m r); [f_equal; unfold bs; lia|done].
Qed.

Lemma kids_fresh : kids (bs ++ [b]) (id b) = [].
Proof.
  apply kids_none. intros b0 [Hin| ->%list_elem_of_singleton]%elem_of_app Heq.
  - destruct (tk_placed _ Hw _ Hin) as (rt & Hrt & _ & Hroot & _ & _ & _ & _ & [->|(p & Hp & Hid & _)]).
    + rewrite Hroot in Heq. by apply (fi_named _ _ Hb).
    + apply (fi_fresh _ _ Hb). rewrite <- Heq, <- Hid. by apply (list_elem_of_fmap_2 id) in Hp.
  - destruct (fi_parent _ _ Hb) as [Hr|(p & Hp & _)]; [rewrite Hr in Heq; by apply (fi_named _ _ Hb)|].
    rewrite Heq in Hp. by apply (fi_fresh _ _ Hb), (known_id _ p).
Qed.

Lemma grown_kids k : kids (bs ++ [b]) k = kids bs k ++ (if bool_decide (parent_id b = k) then [id b] else []).
Proof. rewrite kids_app. unfold kids at 2. simpl. by case_bool_decide. Qed.

Lemma grown_agent k a : dict_get (agents m') k = Some a →
  id (base a) = k ∧ base a ∈ bs ++ [b] ∧ children_ids a = kids (bs ++ [b]) k.
Proof.
  rewrite grown_get. case_bool_decide as Hk.
  - intros [= <-]. subst k. simpl. split_and!; [done|set_solver|by rewrite kids_fresh].
  - intros (a0 & Ha0 & ->)%fmap_Some. destruct (tk_agent _ Hw _ _ Ha0) as (Hid & Hin & Hc). rewrite grown_kids.
    destruct (bool_decide_reflect (k = parent_id b)) as [Hpk|Hpk]; simpl.
    + rewrite bool_decide_eq_true_2 by done. rewrite Hc. split_and!; [done|set_solver|done].
    + rewrite bool_decide_eq_false_2 by congruence. rewrite app_nil_r. split_and!; [done|set_solver|done].
Qed.

Lemma grown_kids_limit b0 : b0 ∈ bs ++ [b] →
  Z.of_nat (length (kids (bs ++ [b]) (id b0))) <= Z.max 0 (max_children b0).
Proof.
  intros [Hin| ->%list_elem_of_singleton]%elem_of_app; [|rewrite kids_fresh; simpl; lia].
  pose proof (tk_kids _ Hw _ Hin) as Hlim. rewrite grown_kids, length_app.
  case_bool_decide as Hp; [|simpl; fold bs in Hlim; lia].
  destruct (fi_parent _ _ Hb) as [Hr|(p & Hp0 & _ & Hlt)]; [by rewrite Hr in Hp; apply (tk_named _ Hw) in Hin|].
  destruct (tk_agent _ Hw _ _ Hp0) as (Hid & Hbase & Hc).
  assert (base p = b0) as Heq.
  { eapply (NoDup_fmap_elem id); [apply Hw|done..|congruence]. }
  rewrite Heq in Hlt. fold bs in Hc. rewrite <- Hp, <- Hc. simpl. lia.
Qed.

Lemma grown_ok : tree_ok {| mgr := m'; births := bs ++ [b] |}.
Proof.
  split; cbn [mgr births].
  - apply grown_nodup.
  - rewrite fmap_app. apply NoDup_app. split_and!; [apply Hw| |apply NoDup_singleton].
    intros k Hk Heq%list_elem_of_singleton. subst k. by apply (fi_fresh _ _ Hb).
  - intros b0 [Hin| ->%list_elem_of_singleton]%elem_of_app; [by apply (tk_named _ Hw)|apply Hb].
  - apply grown_agent.
  - intros k r. rewrite grown_retired. intros Hr. destruct (tk_retired _ Hw _ _ Hr) as (Hc & b0 & Hb0 & Hid & Hp).
    rewrite grown_kids, bool_decide_eq_false_2.
    + rewrite app_nil_r. split; [done|]. exists b0. split_and!; [set_solver|done..].
    + intros Heq. destruct (fi_parent _ _ Hb) as [Hr0|(p & Hp0 & Hne & _)]; [rewrite Hr0 in Heq; subst k; by apply (tk_named _ Hw) in Hb0|].
      apply dict_get_Some_elem, (list_elem_of_fmap_2 fst) in Hp0. simpl in Hp0. rewrite Heq in Hp0.
      pose proof (tk_disjoint _ Hw _ Hp0) as Hd. fold m in Hd. congruence.
  - intros k. rewrite grown_keys, grown_retired. intros [Hk| ->%list_elem_of_singleton]%elem_of_app; [by apply (tk_disjoint _ Hw)|].
    destruct (dict_get (retired_lineage m) (id b)) as [r|] eqn:Hr; [|done]. exfalso.
    apply (fi_fresh _ _ Hb), node_known, elem_of_app. right. apply dict_get_Some_elem in Hr. by apply (list_elem_of_fmap_2 fst) in Hr.
  - intros b0 [Hin| ->%list_elem_of_singleton]%elem_of_app; [by apply placed_app, (tk_placed _ Hw)|apply Hb].
  - apply grown_kids_limit.
  - apply grown_counts.
  - intros r. rewrite grown_members. pose proof (tk_members _ Hw r) as Hm. fold bs in Hm. case_bool_decide as Hr; [|lia]. subst r.
    destruct (fi_root _ _ Hb) as [Hr|[_ Hlt]]; [|fold bs in Hlt; lia].
    rewrite no_members by (rewrite Hr; apply fresh_root). unfold TREE_MAX_AGENTS. lia.
  - intros k Hk. unfold nodes in *. rewrite grown_keys, grown_retired in *.
    destruct (decide (k = id b)) as [->|Hne].
    + unfold parent_of. rewrite grown_get, bool_decide_eq_true_2 by done. simpl. intros Hp.
      destruct (fi_parent _ _ Hb) as [|(p & Hp0 & _)]; [done|]. apply dict_get_Some_elem, (list_elem_of_fmap_2 fst) in Hp0.
      set_solver.
    + rewrite grown_parent by done. intros Hp.
      assert (Hin : parent_of m k ∈ nodes m) by (apply (tk_linked _ Hw); [unfold nodes; set_solver|done]).
      unfold nodes in Hin. set_solver.
Qed.
End grow.

End tree.
