(* ===== verification/AgentLimits.v ===== *)
(** * Limits of agent trees, and kills *)

From S2P Require Import Prelude PyStr PyLib AgentReports Agents AgentTree.
Open Scope string_scope.
Open Scope list_scope.
Open Scope Z_scope.

Lemma dict_get_filter_key {V} (P : pystr → bool) (d : list (pystr * V)) k :
  dict_get (List.filter (λ kv, P kv.1) d) k = if P k then dict_get d k else None.
Proof.
  induction d as [|[k' v] d IH]; simpl; [by destruct (P k)|]. destruct (P k') eqn:Hp; simpl; rewrite IH.
  - case_bool_decide; [by subst; rewrite Hp|done].
  - case_bool_decide; [by subst; rewrite Hp|done].
Qed.

Lemma dict_del_elem {V} (d : list (pystr * V)) k k' v : (k', v) ∈ dict_del d k ↔ (k', v) ∈ d ∧ k' ≠ k.
Proof.
  unfold dict_del. rewrite !list_elem_of_In, filter_In. simpl. rewrite negb_true_iff, bool_decide_eq_false. naive_solver.
Qed.

Section limits.
Context `{AgentText}.

(** ** Spawning *)

Lemma new_spawned_placed w i now d p r k :
  tree_ok w → dict_get (agents (mgr w)) k = Some p → sp_parent r = k → d = depth (base p) + 1 →
  d <= max_depth (base p) → placed (births w ++ [new_spawned i now d (Some p) r]) (new_spawned i now d (Some p) r).
Proof.
  intros Hw Hp <- -> Hd. destruct (tk_agent _ Hw _ _ Hp) as (Hid & Hin & _).
  pose proof (tree_ok_root _ _ _ Hw Hp) as Hroot.
  destruct (tk_placed _ Hw _ Hin) as (rt & Hrt & H1 & H2 & H3 & H4 & H5 & H6 & _).
  exists rt. simpl. split_and!; try congruence; [set_solver|]. right. exists (base p).
  split_and!; try done; set_solver.
Qed.

Lemma spawn_fits w limit i inc now r m' i' :
  tree_ok w → i ≠ [] → i ∉ id <$> births w → spawn limit i inc now r (mgr w) = (m', Ok i') →
  i' = i ∧ ∃ b, m' = grown b inc (sp_saver r) (mgr w) ∧ id b = i ∧ channel_id b = sp_channel r ∧ fits w b ∧
  channel_count (sp_channel r) (mgr w) < default MAX_CONCURRENT_AGENTS limit.
Proof.
  intros Hw Hi Hf. unfold spawn. destruct (_ <=? _) eqn:Hlim; [done|]. destruct (_ || _); [done|].
  destruct (nonempty (sp_parent r)) eqn:Hpar.
  - unfold admit_child. destruct (dict_get (agents (mgr w)) (sp_parent r)) as [p|] eqn:Hp; [|done].
    destruct (_ <? _) eqn:Hd; [done|]. destruct (max_children _ <=? _) eqn:Hc; [done|].
    destruct (TREE_MAX_AGENTS <=? _) eqn:Ht; [done|]. intros [= <- <-]. bool_prop.
    apply nonempty_spec in Hpar. pose proof (tree_ok_root _ _ _ Hw Hp) as Hroot.
    assert (Hmem : has_member (mgr w) (root_of p) = true).
    { apply has_member_true. exists (sp_parent r), p. split; [by apply dict_get_Some_elem|done]. }
    split; [done|]. exists (new_spawned i now (depth (base p) + 1) (Some p) r).
    split_and!; [reflexivity|reflexivity|reflexivity| |lia].
    split; simpl; [done|done|by eapply new_spawned_placed| |].
    + right. exists p. by split_and!.
    + right. split; [done|]. rewrite (tk_counts _ Hw), Hmem in Ht. simpl in Ht. lia.
  - intros [= <- <-]. split; [done|]. assert (Hpar' : sp_parent r = []) by (by destruct (sp_parent r)).
    exists (new_spawned i now 0 None r). bool_prop. split_and!; [|done..| |lia].
    + unfold grown, update_agent. simpl. rewrite Hpar'.
      destruct (dict_get (agents (mgr w)) []) as [a|] eqn:Ha; [|done].
      destruct (tk_agent _ Hw _ _ Ha) as (Hid & Hin & _). by apply (tk_named _ Hw) in Hin.
    + split; simpl; [done|done| |by left|by left].
      exists (new_spawned i now 0 None r). simpl. split_and!; try done; [set_solver|by left].
Qed.

(** ** Removal *)

Section remove.
Context {w : World} {i : pystr} {a : AgentInfo} (Hw : tree_ok w) (Ha : dict_get (agents (mgr w)) i = Some a).

Let m := mgr w.

Definition forgotten : AgentManager :=
  {| agents := dict_del (agents m) i;
     retired_lineage := dict_set (retired_lineage m) i
       {| was_child_of := parent_id (base a); had_children := children_ids a;
          last_status := legacy_status (state (machine a)) |};
     result_savers := List.filter (λ j, negb (bool_decide (i = j))) (result_savers m);
     cleanup_tasks := List.filter (λ j, negb (bool_decide (i = j))) (cleanup_tasks m);
     tree_spawn_counts := tree_spawn_counts m |}.

Lemma forgotten_parent k : parent_of forgotten k = parent_of m k.
Proof.
  unfold parent_of. simpl. rewrite dict_get_del, dict_get_set. case_bool_decide as Hk; [subst k|done].
  unfold m. by rewrite Ha.
Qed.

Lemma forgotten_nodes k : k ∈ nodes m → k ∈ nodes forgotten.
Proof.
  unfold nodes. simpl. rewrite !elem_of_app. intros [Hk|Hk]; [|right; apply dict_set_keys; by right].
  destruct (decide (k = i)) as [->|Hne]; [right; apply dict_set_keys; by left|left].
  apply list_elem_of_fmap in Hk as ([k' a'] & -> & Hin). simpl in *.
  apply (list_elem_of_fmap_2 fst (dict_del (agents m) i) (k', a')). by apply dict_del_elem.
Qed.

Definition kept : AgentManager :=
  {| agents := agents forgotten; retired_lineage := List.filter (λ kv, needed forgotten kv.1) (retired_lineage forgotten);
     result_savers := result_savers forgotten; cleanup_tasks := cleanup_tasks forgotten;
     tree_spawn_counts := tree_spawn_counts forgotten |}.

Lemma kept_parent k : k ∈ nodes kept → parent_of kept k = parent_of m k.
Proof.
  intros Hk. rewrite <- forgotten_parent. unfold parent_of. cbn [agents retired_lineage kept].
  destruct (dict_get (agents forgotten) k) eqn:Hag; [done|]. rewrite (dict_get_filter_key (needed forgotten)).
  destruct (needed forgotten k) eqn:Hn; [done|]. exfalso. unfold nodes in Hk. cbn [agents retired_lineage kept] in Hk.
  apply elem_of_app in Hk as [Hk|Hk]; [by apply dict_get_None in Hag|].
  apply list_elem_of_fmap in Hk as ([k' v] & -> & Hin). apply list_elem_of_In, filter_In in Hin as [_ Hin]. simpl in *. congruence.
Qed.

Lemma needed_parent k :
  k ∈ nodes kept → parent_of m k ≠ [] → ∃ j, j ∈ (agents forgotten).*1 ∧ parent_of m k ∈ get_lineage forgotten j.
Proof.
  intros Hk Hp. rewrite <- (forgotten_parent k) in *.
  assert (Hj : ∃ j, j ∈ (agents forgotten).*1 ∧ k ∈ get_lineage forgotten j).
  { unfold nodes in Hk. cbn [agents retired_lineage kept] in Hk. apply elem_of_app in Hk as [Hk|Hk].
    - exists k. split; [done|]. apply lineage_closed. intros ->.
      destruct (dict_get (agents forgotten) []) as [a0|] eqn:Ha0; [|by apply dict_get_None in Ha0].
      simpl in Ha0. rewrite dict_get_del in Ha0. case_bool_decide; [done|].
      destruct (tk_agent _ Hw _ _ Ha0) as (Hid & Hin & _). by apply (tk_named _ Hw) in Hin.
    - apply list_elem_of_fmap in Hk as ([k' v] & -> & Hin). apply list_elem_of_In, filter_In in Hin as [_ Hn]. simpl in *.
      apply existsb_exists in Hn as (j & Hj & Hin). bool_prop. exists j. split; [by apply list_elem_of_In|done]. }
  destruct Hj as (j & Hj & Hkj). exists j. split; [done|].
  destruct (decide (j = [])) as [->|Hne]; [|by apply lineage_closed].
  unfold get_lineage in Hkj. simpl in Hkj. by apply not_elem_of_nil in Hkj.
Qed.

Lemma kept_linked k : k ∈ nodes kept → parent_of kept k ≠ [] → parent_of kept k ∈ nodes kept.
Proof.
  intros Hk. rewrite kept_parent by done. intros Hp.
  assert (Hin : parent_of m k ∈ nodes forgotten).
  { apply forgotten_nodes, (tk_linked _ Hw); [|done]. fold m. by apply parent_node. }
  unfold nodes in *. cbn [agents retired_lineage kept]. apply elem_of_app in Hin as [Hin|Hin]; apply elem_of_app; [by left|right].
  destruct (needed_parent k Hk Hp) as (j & Hj & Hl).
  apply list_elem_of_fmap in Hin as (kv & Heq & Hin). rewrite Heq. apply list_elem_of_fmap_2, list_elem_of_In, filter_In.
  split; [by apply list_elem_of_In|]. apply existsb_exists. exists j. split; [by apply list_elem_of_In|].
  apply bool_decide_eq_true. by rewrite <- Heq.
Qed.

Lemma forgotten_member r :
  has_member m r = has_member forgotten r || bool_decide (root_id (base a) = r).
Proof.
  apply eq_true_iff_eq. rewrite orb_true_iff, bool_decide_eq_true, !has_member_true. simpl.
  setoid_rewrite dict_del_elem. rewrite <- (tree_ok_root _ _ _ Hw Ha). split.
  - intros (k & a0 & Hin & Hr). destruct (decide (k = i)) as [->|Hne]; [right|left; by exists k, a0].
    apply dict_get_elem in Hin; [|apply Hw]. unfold m in Hin. congruence.
  - intros [(k & a0 & [Hin _] & Hr)|Hr]; [by exists k, a0|]. exists i, a. split; [by apply dict_get_Some_elem|done].
Qed.
Definition dropped : AgentManager :=
  {| agents := agents kept; retired_lineage := retired_lineage kept; result_savers := result_savers kept;
     cleanup_tasks := cleanup_tasks kept;
     tree_spawn_counts := if has_member kept (root_of a) then tree_spawn_counts kept
                          else dict_del (tree_spawn_counts kept) (root_of a) |}.

Lemma remove_dropped published m' ok :
  remove_agent i published m = (m', ok) → m' = m ∨ m' = dropped.
Proof.
  unfold remove_agent. fold m in Ha. rewrite Ha. destruct (_ && _); [intros [= <- _]; by left|]. intros [= <- _]. right.
  assert (Hroot : (if nonempty (root_id (base a)) then root_id (base a) else i) = root_of a).
  { unfold root_of. destruct (nonempty _); [done|]. by destruct (tk_agent _ Hw _ _ Ha) as [-> _]. }
  rewrite Hroot. reflexivity.
Qed.

Lemma dropped_counts r :
  dict_get (tree_spawn_counts dropped) r = if has_member dropped r then Some (members (births w) r) else None.
Proof.
  change (has_member dropped r) with (has_member forgotten r). unfold dropped. cbn [tree_spawn_counts].
  change (has_member kept (root_of a)) with (has_member forgotten (root_of a)).
  change (tree_spawn_counts kept) with (tree_spawn_counts m).
  pose proof (tk_counts _ Hw r) as Hr. fold m in Hr. pose proof (forgotten_member r) as Hm.
  rewrite <- (tree_ok_root _ _ _ Hw Ha) in Hm. rewrite Hm in Hr.
  destruct (has_member forgotten (root_of a)) eqn:Hroot.
  - rewrite Hr. destruct (has_member forgotten r) eqn:Hf; [done|]. simpl. rewrite bool_decide_eq_false_2; [done|]. congruence.
  - rewrite dict_get_del. destruct (bool_decide_reflect (r = root_of a)) as [->|Heq]; [by rewrite Hroot|].
    rewrite Hr, (bool_decide_eq_false_2 (root_of a = r)), orb_false_r by congruence. done.
Qed.

Lemma dropped_ok : tree_ok {| mgr := dropped; births := births w |}.
Proof.
  destruct (tk_agent _ Hw _ _ Ha) as (Hid & Hin & Hch).
  assert (Hget : ∀ k r, dict_get (retired_lineage dropped) k = Some r →
    dict_get (retired_lineage forgotten) k = Some r).
  { intros k r. change (retired_lineage dropped) with (retired_lineage kept). unfold kept. cbn [retired_lineage].
    rewrite (dict_get_filter_key (needed forgotten)). by destruct (needed forgotten k). }
  split; cbn [mgr births].
  - change (agents dropped) with (dict_del (agents m) i). apply dict_del_NoDup, Hw.
  - apply Hw.
  - apply (tk_named _ Hw).
  - intros k a0. change (agents dropped) with (dict_del (agents m) i). rewrite dict_get_del. case_bool_decide; [done|]. apply (tk_agent _ Hw).
  - intros k r Hr%Hget. simpl in Hr. rewrite dict_get_set in Hr. case_bool_decide; [|by apply (tk_retired _ Hw)].
    injection Hr as <-. simpl. subst k. split; [done|]. by exists (base a).
  - intros k. change (agents dropped) with (dict_del (agents m) i). intros Hk.
    destruct (dict_get (retired_lineage dropped) k) as [r|] eqn:Hr; [|done]. exfalso.
    apply Hget in Hr. simpl in Hr. rewrite dict_get_set in Hr.
    apply list_elem_of_fmap in Hk as ([k' v] & -> & [Hin' Hne]%dict_del_elem). simpl in *.
    rewrite bool_decide_eq_false_2 in Hr by done. apply (list_elem_of_fmap_2 fst) in Hin'. simpl in Hin'.
    pose proof (tk_disjoint _ Hw _ Hin') as Hd. fold m in Hd. congruence.
  - apply (tk_placed _ Hw).
  - apply (tk_kids _ Hw).
  - apply dropped_counts.
  - apply (tk_members _ Hw).
  - apply kept_linked.
Qed.
End remove.

Lemma remove_ok w i published : tree_ok w → tree_ok (with_mgr (remove_agent i published (mgr w)).1 w).
Proof.
  intros Hw. destruct (dict_get (agents (mgr w)) i) as [a|] eqn:Ha.
  - destruct (remove_agent i published (mgr w)) as [m' ok] eqn:Hr. simpl.
    destruct (remove_dropped Hw Ha published m' ok Hr) as [->| ->]; [by destruct w|]. by apply dropped_ok.
  - unfold remove_agent. rewrite Ha. by apply same_tree_ok.
Qed.

(** ** Every event *)

Lemma transition_keeps to reason now a a' :
  transition to reason now a = Some a' → base a' = base a ∧ children_ids a' = children_ids a.
Proof.
  unfold transition. destruct (move _ _ _ _) as [m|]; [|done]. cbn. intros [= <-]. by destruct (terminal (state m)).
Qed.

Lemma kill_same i cascade m : same_tree m (kill_with_receipt i cascade m).1.1.
Proof.
  assert (Hk : same_tree m (let '(m1, own) := cancel_active [i] m in
    let '(m2, below) := if cascade then cancel_active (get_descendants m1 i) m1 else (m1, []) in
    (m2, Kill_sent (bool_decide (own ≠ [])) (length below), own ++ below)).1.1).
  { pose proof (cancel_active_same [i] m) as H1. destruct (cancel_active [i] m) as [m1 own]. destruct cascade; [|done].
    pose proof (cancel_active_same (get_descendants m1 i) m1) as H2. destruct (cancel_active _ _) as [m2 l]. simpl in *. by etrans. }
  unfold kill_with_receipt. by destruct (dict_get (agents m) i), (dict_get (retired_lineage m) i).
Qed.

Lemma health_same now m : same_tree m (check_health now m).1.1.
Proof.
  unfold check_health, same_tree, skeleton. simpl. split_and!; [|done..]. rewrite <- list_fmap_compose.
  apply list_fmap_ext. intros _ kv _. simpl. by destruct (overdue now kv.2).
Qed.

Lemma task_done_same i cancelled now m : same_tree m (default m (agent_task_done i cancelled now m)).
Proof.
  unfold agent_task_done. destruct (dict_get (agents m) i) as [a|] eqn:Ha; [|done]. destruct (is_terminal a); [done|].
  destruct cancelled; simpl.
  - destruct (transition _ _ _ _) as [a'|] eqn:Ht; [|done]. apply transition_keeps in Ht as [Hb Hc].
    apply (update_same i (λ _, set_ended now a')). intros a0 Ha0. simpl. split; congruence.
  - destruct (transition _ _ _ _) as [a'|] eqn:Ht; [|done]. apply transition_keeps in Ht as [Hb Hc]. cbn.
    apply (update_same i (λ _, set_ended now (set_error (lit "Agent task exited without terminal settlement.") a'))).
    intros a0 Ha0. simpl. split; congruence.
Qed.

Lemma cleanup_ok w now published : tree_ok w → tree_ok (with_mgr (cleanup now published (mgr w)).1 w).
Proof.
  intros Hw. unfold cleanup. generalize (expired_agents now (mgr w)) as ids. intros ids.
  assert (Hg : ∀ n w0, tree_ok w0 → tree_ok (with_mgr (foldl (λ '(m, n) i, let '(m, ok) := remove_agent i (published i) m in
    (m, if ok then S n else n)) (mgr w0, n) ids).1 w0)); [|by apply Hg].
  clear w Hw. induction ids as [|i ids IH]; intros n w0 Hw0; [by destruct w0|]. cbn [foldl].
  pose proof (remove_ok w0 i (published i) Hw0) as Hr. destruct (remove_agent i (published i) (mgr w0)) as [m1 ok].
  exact (IH (if ok then S n else n) (with_mgr m1 w0) Hr).
Qed.

Lemma spawn_ok w limit i inc now r :
  tree_ok w → tree_ok (exec w (Spawn limit i inc now r)).
Proof.
  intros Hw. cbn [exec]. destruct (negb (nonempty i) || _) eqn:Hf; [done|]. bool_prop.
  destruct (spawn limit i inc now r (mgr w)) as [m' [i'|e]] eqn:Hs.
  - apply spawn_fits in Hs as (-> & b & -> & Hid & _ & Hb & _); [|done|by apply nonempty_spec|done].
    assert (Hbirth : birth_of i (grown b inc (sp_saver r) (mgr w)) = [b]).
    { unfold birth_of. rewrite (grown_get inc (sp_saver r)), bool_decide_eq_true_2 by done. done. }
    rewrite Hbirth. by apply grown_ok.
  - enough (m' = mgr w) as ->; [by destruct w|]. revert Hs. unfold spawn. repeat case_match; by intros [= <-].
Qed.

Lemma exec_ok w ev : tree_ok w → tree_ok (exec w ev).
Proof.
  intros Hw. destruct ev as [limit i inc now r|i s|i cascade|t|i f|i cancelled now|i published|now published|now].
  - by apply spawn_ok.
  - apply same_tree_ok; [|done]. unfold send. destruct (dict_get _ _); [|done]. destruct (is_terminal _); [done|].
    destruct (negb _); [done|]. by apply (update_same i (queue_message s)).
  - apply same_tree_ok; [apply kill_same|done].
  - apply same_tree_ok; [apply cancel_active_same|done].
  - apply same_tree_ok; [|done]. by apply update_same.
  - apply same_tree_ok; [apply task_done_same|done].
  - by apply remove_ok.
  - by apply cleanup_ok.
  - apply same_tree_ok; [apply health_same|done].
Qed.

Lemma boot_ok : tree_ok boot.
Proof.
  split; simpl; try done; try (by intros ? ?%not_elem_of_nil); apply NoDup_nil_2.
Qed.

Lemma reached_ok evs : tree_ok (run exec boot evs).
Proof. apply run_invariant; [apply boot_ok|]. intros w ev. apply exec_ok. Qed.

(** ** Limits *)

Lemma count_grown w b inc saver :
  tree_ok w → fits w b → channel_count (channel_id b) (grown b inc saver (mgr w)) = channel_count (channel_id b) (mgr w) + 1.
Proof.
  intros Hw Hb. unfold channel_count, grown, register. cbn [agents].
  rewrite dict_set_fresh by (rewrite update_keys; by apply (fresh_key Hw Hb)).
  rewrite List.filter_app, length_app. cbn [List.filter snd new_agent base id]. rewrite bool_decide_eq_true_2 by done. simpl.
  assert (Hsame : ∀ (d : list (pystr * AgentInfo)) k c,
    length (List.filter (λ kv, bool_decide (channel_id (base kv.2) = c) && is_active kv.2)
      (match dict_get d k with Some a => dict_set d k (add_child (id b) a) | None => d end))
    = length (List.filter (λ kv, bool_decide (channel_id (base kv.2) = c) && is_active kv.2) d)).
  { intros d k c. induction d as [|[k' a] d IH]; simpl; [done|]. case_bool_decide as Hk; simpl.
    - unfold is_active. simpl. by destruct (_ && _).
    - destruct (dict_get d k); simpl; [|done].
      destruct (_ && _); simpl; [f_equal; exact IH|exact IH]. }
  unfold update_agent. specialize (Hsame (agents (mgr w)) (parent_id b) (channel_id b)).
  destruct (dict_get (agents (mgr w)) (parent_id b)); simpl in *; [rewrite Hsame|]; lia.
Qed.

(** C25: The limits of agent trees hold for life.  After any sequence of spawns, work,
    kills, settlements, removals and health checks, of everything that was ever
    spawned: each agent stands in the tree of one root, whose depth limit, child limit
    and originating turn it has, directly below its parent and not deeper than the
    limit; no agent ever had more children than the limit; no tree ever had more than
    25 agents, although removed agents are forgotten; and right after a spawn the
    channel has no more active agents than the configured limit. *)
Theorem tree_limits_hold evs :
  let w := run exec boot evs in
  (∀ b, b ∈ births w →
     placed (births w) b ∧
     Z.of_nat (length (kids (births w) (id b))) <= Z.max 0 (max_children b) ∧
     members (births w) (root_id b) <= TREE_MAX_AGENTS) ∧
  (∀ limit i inc now r m', i ≠ [] → i ∉ id <$> births w → spawn limit i inc now r (mgr w) = (m', Ok i) →
     channel_count (sp_channel r) m' <= default MAX_CONCURRENT_AGENTS limit).
Proof.
  intros w. pose proof (reached_ok evs) as Hw. fold w in Hw. split.
  - intros b Hb. split_and!; [by apply (tk_placed _ Hw)|by apply (tk_kids _ Hw)|apply (tk_members _ Hw)].
  - intros limit i inc now r m' Hi Hf Hs.
    apply spawn_fits in Hs as (_ & b & -> & Hid & Hch & Hb & Hlt); [|done..].
    rewrite <- Hch in *. rewrite count_grown by done. lia.
Qed.

(** ** Kills *)





Section kill.
Context {w : World} (Hw : tree_ok w).

Let m := mgr w.






End kill.







End limits.

Module AgentsWitness.
Import ReportsWitness.

Definition request (parent : string) : SpawnRequest :=
  {| sp_label := lit "worker"; sp_goal := lit "goal"; sp_channel := lit "c"; sp_requester := lit "u";
     sp_parent := lit parent; sp_max_depth := 3; sp_max_children := 2; sp_max_iterations := 0;
     sp_iteration_timeout := 0; sp_max_lifetime := 0; sp_turn := Some (lit "t"); sp_report_to := None; sp_saver := false |}.

(** A child completes and is removed; its own child is still at work. *)
Definition finish (a : AgentInfo) : AgentInfo :=
  default a (a ← transition READY [] 1 a; transition COMPLETED [] 2 a).
Definition family : list Event :=
  [Spawn None (lit "r") [] 0 (request ""); Spawn None (lit "c") [] 0 (request "r");
   Spawn None (lit "g") [] 0 (request "c"); Progress (lit "c") finish; Remove (lit "c") true].


Lemma tree_limits_hold_witness :
  (∀ b, b ∈ births (run exec boot family) → members (births (run exec boot family)) (root_id b) <= 25) ∧
  channel_count (lit "c") (spawn None (lit "h") [] 9 (request "r") (mgr (run exec boot family))).1 <= 5.
Proof.
  pose proof (tree_limits_hold family) as [Hb Hs]. split.
  - intros b Hin. by apply Hb.
  - destruct (spawn None (lit "h") [] 9 (request "r") (mgr (run exec boot family))) as [m' res] eqn:He.
    assert (Hres : (spawn None (lit "h") [] 9 (request "r") (mgr (run exec boot family))).2 = Ok (lit "h")) by (vm_compute; reflexivity).
    rewrite He in Hres. simpl in Hres. subst res. apply (Hs None (lit "h") [] 9 (request "r") m'); [done| |exact He].
    apply (bool_decide_eq_false_1 _). vm_compute. reflexivity.
Defined.

End AgentsWitness.
