(* ===== verification/Transcript.v ===== *)
(** * The native tool transcript (src/src/llm/tool_history.py, tool_replay.py)

    Tool calls are normalized once, when a generation is accepted; the assistant message
    and the message of the results keep their ids; [settled_call_ids] checks that every
    call of a transcript has its result before the next generation.

    A message is the dict the code builds.  A ReplayDict is a dict with a slot that is
    not an item: the slot is an entry under a key no Python string equals. *)

From S2P Require Import Prelude PyStr PyLib.
Open Scope string_scope.
Open Scope list_scope.
Open Scope Z_scope.

(** ** Messages and blocks *)

(** [v.get(k)] of a dict. *)
Definition field (v : Json) (k : string) : option Json :=
  match v with JDict kvs => dict_get kvs (lit k) | _ => None end.

Definition str_field (v : Json) (k : string) : option pystr :=
  match field v k with Some (JStr s) => Some s | _ => None end.

Definition has_type (b : Json) (t : string) : bool := bool_decide (str_field b "type" = Some (lit t)).
Definition has_role (m : Json) (r : string) : bool := bool_decide (str_field m "role" = Some (lit r)).

(** The blocks of a content that is a list. *)
Definition blocks_of (m : Json) : list Json :=
  match field m "content" with Some (JList bs) => bs | _ => [] end.

(** The slot [codex_replay] of a ReplayDict; [codex_arguments]. *)
Definition REPLAY_SLOT : pystr := [-1].

Definition replay_mapping (mapping : list (pystr * Json)) (replay : option pystr) : Json :=
  JDict (mapping ++ match replay with Some a => [(REPLAY_SLOT, JStr a)] | None => [] end).

Definition codex_arguments (b : Json) : option pystr :=
  match b with
  | JDict kvs => match dict_get kvs REPLAY_SLOT with Some (JStr a) => Some a | _ => None end
  | _ => None
  end.

(** ** Calls *)

(** A call as a provider returns it; the empty text is a missing [parse_error]. *)
Record RawCall : Type := {
  raw_id : option Json;
  raw_name : pystr;
  raw_input : option Json;
  raw_error : pystr;
  raw_replay : option pystr
}.

(** A normalized call. *)
Record Call : Type := {
  call_id : pystr;
  name : pystr;
  input : Json;
  parse_error : pystr;
  replay : option pystr
}.

Definition or_text (a b : pystr) : pystr := if nonempty a then a else b.

(** The identity of a call and the error a repair adds; [uuid] is [uuid4().hex]. *)
Definition identify (uuid : pystr) (seen : list pystr) (c : RawCall) : pystr * pystr :=
  match raw_id c with
  | Some (JStr i) =>
      if negb (nonempty (strip i)) then (lit "call_" ++ uuid, raw_error c)
      else if bool_decide (i ∈ seen) then
        (lit "call_" ++ uuid, or_text (raw_error c) (lit "Duplicate tool call identity; call not executed."))
      else (i, raw_error c)
  | _ => (lit "call_" ++ uuid, raw_error c)
  end.

Definition arguments_of (c : RawCall) (error : pystr) : Json * pystr :=
  match raw_input c with
  | None => (JDict [], error)
  | Some (JDict kvs) => (JDict kvs, error)
  | Some _ => (JDict [], or_text error (lit "Tool arguments must be a JSON object; call not executed."))
  end.

Definition normalize_call (uuid : pystr) (seen : list pystr) (c : RawCall) : Call :=
  let '(i, error) := identify uuid seen c in
  let '(arguments, error) := arguments_of c error in
  {| call_id := i; name := raw_name c; input := arguments; parse_error := error; replay := raw_replay c |}.

(** [normalize_tool_calls]; the [k]-th call would get [uuids k]. *)
Fixpoint normalize (uuids : nat → pystr) (k : nat) (seen : list pystr) (calls : list RawCall) : list Call :=
  match calls with
  | [] => []
  | c :: calls =>
      let c := normalize_call (uuids k) seen c in
      c :: normalize uuids (S k) (call_id c :: seen) calls
  end.

Definition normalize_tool_calls (uuids : nat → pystr) (calls : list RawCall) : list Call := normalize uuids 0 [] calls.

(** [parse_tool_arguments] *)
Definition parse_tool_arguments `{Codec} (v : Json) : Json * option pystr :=
  let decoded := match v with JStr s => loads s | _ => Some v end in
  match decoded with
  | None => (JDict [], Some (lit "Invalid tool argument JSON; call not executed."))
  | Some (JDict kvs) => (JDict kvs, None)
  | Some _ => (JDict [], Some (lit "Tool arguments must be a JSON object; call not executed."))
  end.

(** [assistant_content] *)
Definition tool_use_block (c : Call) : Json :=
  replay_mapping [(lit "type", JStr (lit "tool_use")); (lit "id", JStr (call_id c)); (lit "name", JStr (name c));
                  (lit "input", input c)] (replay c).

Definition text_block (t : pystr) : Json := JDict [(lit "type", JStr (lit "text")); (lit "text", JStr t)].

Definition assistant_content (text : pystr) (calls : list Call) : list Json :=
  (if nonempty text then [text_block text] else []) ++ (tool_use_block <$> calls).

(** [content_text] *)
Definition content_text (content : Json) : pystr :=
  match content with
  | JStr s => s
  | JList bs => join LF (omap (λ b, if has_type b "text" then str_field b "text" else None) bs)
  | _ => []
  end.

(** ** Settled transcripts *)

Definition fold_opt {A S : Type} (f : S → A → option S) : S → list A → option S :=
  fix go s l := match l with [] => Some s | x :: l => s ← f s x; go s l end.

(** The ids of the current reply, and those without a result. *)
Record Ids : Type := { seen : list pystr; pending : list pystr }.

Definition settle_block (st : Ids) (b : Json) : option Ids :=
  if has_type b "tool_use" then
    match str_field b "id" with
    | Some i => if negb (nonempty (strip i)) || bool_decide (i ∈ seen st) then None
                else Some {| seen := i :: seen st; pending := i :: pending st |}
    | None => None
    end
  else if has_type b "tool_result" then
    match str_field b "tool_use_id" with
    | Some i => if bool_decide (i ∈ pending st)
                then Some {| seen := seen st; pending := List.filter (λ j, negb (bool_decide (i = j))) (pending st) |}
                else None
    | None => None
    end
  else Some st.

Definition settle_message (st : Ids) (m : Json) : option Ids :=
  match field m "content" with
  | Some (JList bs) =>
      if has_role m "assistant" then
        match pending st with
        | [] => fold_opt settle_block {| seen := []; pending := [] |} bs
        | _ => None
        end
      else fold_opt settle_block st bs
  | _ => Some st
  end.

(** [settled_call_ids]; [None] is its ValueError. *)
Definition settled_call_ids (ms : list Json) : option (list pystr) :=
  st ← fold_opt settle_message {| seen := []; pending := [] |} ms;
  match pending st with [] => Some (seen st) | _ => None end.

(** ** Folds that can fail *)

Lemma fold_opt_cons {A S : Type} (f : S → A → option S) s x l : fold_opt f s (x :: l) = s' ← f s x; fold_opt f s' l.
Proof. done. Qed.

Lemma fold_opt_app {A S : Type} (f : S → A → option S) s l k :
  fold_opt f s (l ++ k) = s' ← fold_opt f s l; fold_opt f s' k.
Proof. revert s. induction l as [|x l IH]; intros s; cbn; [done|]. destruct (f s x); cbn; [apply IH|done]. Qed.

Lemma fold_opt_skip {A S : Type} (f : S → A → option S) s l :
  (∀ x, x ∈ l → f s x = Some s) → fold_opt f s l = Some s.
Proof.
  induction l as [|x l IH]; intros Hl; [done|]. cbn. rewrite (Hl x) by set_solver. apply IH. set_solver.
Qed.

(** ** Normalization *)

Section normalization.
Variable uuids : nat → pystr.

(** uuid4 gives new names: none twice, and none a provider has used. *)
Definition fresh_uuids (calls : list RawCall) : Prop :=
  (∀ i j, uuids i = uuids j → i = j) ∧
  ∀ i c, c ∈ calls → raw_id c ≠ Some (JStr (lit "call_" ++ uuids i)).

Lemma identify_cases uuid sn c :
  (identify uuid sn c).1 = lit "call_" ++ uuid
  ∨ (raw_id c = Some (JStr (identify uuid sn c).1) ∧ (identify uuid sn c).1 ∉ sn
     ∧ nonempty (strip (identify uuid sn c).1) = true ∧ (identify uuid sn c).2 = raw_error c).
Proof.
  unfold identify. destruct (raw_id c) as [[| | | |s| |]|]; try by left.
  destruct (nonempty (strip s)) eqn:E; cbn; [|by left].
  destruct (bool_decide_reflect (s ∈ sn)); [by left|by right].
Qed.

Lemma normalize_call_id uuid sn c : call_id (normalize_call uuid sn c) = (identify uuid sn c).1.
Proof. unfold normalize_call. destruct (identify uuid sn c) as [i e]. by destruct (arguments_of c e). Qed.

Lemma nonblank_uuid u : nonempty (strip (lit "call_" ++ u)) = true.
Proof.
  unfold strip, rstrip. change (lstrip (lit "call_" ++ u)) with (lit "call_" ++ u).
  rewrite rev_app_distr. change (rev (lit "call_")) with ([95; 108; 108; 97] ++ [99]).
  assert (Hl : ∀ s, lstrip (s ++ [99]) ≠ []).
  { induction s as [|c s IH]; cbn; [done|]. destruct (is_space c); [done|by destruct s]. }
  rewrite app_assoc. specialize (Hl (rev u ++ [95; 108; 108; 97])).
  destruct (lstrip _) as [|x l]; [done|]. cbn. by destruct (rev l).
Qed.

Lemma normalize_ids k sn calls :
  fresh_uuids calls → (∀ i, (k <= i)%nat → lit "call_" ++ uuids i ∉ sn) →
  let ids := call_id <$> normalize uuids k sn calls in
  NoDup ids ∧ (∀ i, i ∈ ids → i ∉ sn ∧ nonempty (strip i) = true).
Proof.
  intros [Hinj Hnew]. revert k sn. induction calls as [|c calls IH]; intros k sn Hsn; cbn; [by split; [constructor|set_solver]|].
  rewrite normalize_call_id. set (i := (identify (uuids k) sn c).1).
  assert (Hi : i ∉ sn ∧ nonempty (strip i) = true ∧ ∀ j, (S k <= j)%nat → lit "call_" ++ uuids j ≠ i).
  { destruct (identify_cases (uuids k) sn c) as [E|(E & Hs & Hb & _)]; [fold i in E|fold i in E, Hs, Hb].
    - rewrite E. split_and!; [by apply Hsn|apply nonblank_uuid|]. intros j Hj Ej%app_inv_head%Hinj. lia.
    - split_and!; [done..|]. intros j Hj Ej. rewrite <- Ej in E. by eapply (Hnew j c); [left|]. }
  destruct Hi as (H1 & H2 & H3).
  destruct (IH ltac:(intros j c' Hc'; apply Hnew; by right) (S k) (i :: sn)) as [IH1 IH2].
  { intros j Hj. apply not_elem_of_cons. split; [by apply H3|]. apply Hsn. lia. }
  split.
  - constructor; [|done]. intros Hin%IH2. set_solver.
  - intros j [ ->|Hj]%elem_of_cons; [done|]. apply IH2 in Hj. set_solver.
Qed.

Lemma normalize_tool_calls_ids calls :
  fresh_uuids calls →
  NoDup (call_id <$> normalize_tool_calls uuids calls)
  ∧ (∀ i, i ∈ call_id <$> normalize_tool_calls uuids calls → nonempty (strip i) = true).
Proof.
  intros F. destruct (normalize_ids 0 [] calls F) as [H1 H2]; [set_solver|]. split; [done|]. intros i Hi. by apply H2.
Qed.

End normalization.

(** ** Settling *)

Definition settled (ms : list Json) : Prop := is_Some (settled_call_ids ms).

(** A message that settles nothing and asks for nothing. *)
Definition plain_block (b : Json) : bool := negb (has_type b "tool_use") && negb (has_type b "tool_result").
Definition plain_message (m : Json) : Prop :=
  match field m "content" with
  | Some (JList bs) => has_role m "assistant" = false ∧ forallb plain_block bs = true
  | _ => True
  end.

Lemma plain_blocks_skip st bs : forallb plain_block bs = true → fold_opt settle_block st bs = Some st.
Proof.
  intros Hb. apply fold_opt_skip. intros b Hin. eapply forallb_forall in Hb; [|by apply list_elem_of_In].
  unfold plain_block in Hb. unfold settle_block. by destruct (has_type b "tool_use"), (has_type b "tool_result").
Qed.

Lemma plain_message_skip st m : plain_message m → settle_message st m = Some st.
Proof.
  unfold plain_message, settle_message. destruct (field m "content") as [[| | | | |bs|]|]; try done.
  intros [-> Hb]. by apply plain_blocks_skip.
Qed.

Lemma settled_final ms : settled ms ↔ ∃ sn, fold_opt settle_message {| seen := []; pending := [] |} ms = Some {| seen := sn; pending := [] |}.
Proof.
  unfold settled, settled_call_ids. destruct (fold_opt _ _ ms) as [[sn [|p ps]]|]; cbn; split; try (by intros []);
    try (by intros [? [=]]); intros _; by eexists.
Qed.

Lemma settled_app_plain ms ps : Forall plain_message ps → settled ms → settled (ms ++ ps).
Proof.
  intros Hp [sn E]%settled_final. apply settled_final. exists sn. rewrite fold_opt_app, E. cbn.
  apply fold_opt_skip. intros m Hm. apply plain_message_skip. by eapply Forall_forall in Hp.
Qed.

Lemma settle_use st c :
  nonempty (strip (call_id c)) = true → call_id c ∉ seen st →
  settle_block st (tool_use_block c) = Some {| seen := call_id c :: seen st; pending := call_id c :: pending st |}.
Proof.
  intros Hb Hs. unfold settle_block.
  change (has_type (tool_use_block c) "tool_use") with true.
  change (str_field (tool_use_block c) "id") with (Some (call_id c)). cbn iota.
  by rewrite Hb, bool_decide_eq_false_2.
Qed.

Lemma settle_uses st calls :
  (∀ i, i ∈ call_id <$> calls → nonempty (strip i) = true ∧ i ∉ seen st) → NoDup (call_id <$> calls) →
  fold_opt settle_block st (tool_use_block <$> calls)
  = Some {| seen := rev (call_id <$> calls) ++ seen st; pending := rev (call_id <$> calls) ++ pending st |}.
Proof.
  revert st. induction calls as [|c calls IH]; intros st Hi Hn; [by destruct st|].
  rewrite fmap_cons, fold_opt_cons. apply NoDup_cons in Hn as [Hc Hn].
  rewrite settle_use by (apply Hi; by left). cbn [mbind option_bind].
  rewrite IH; cbn [seen pending]; [|intros i Hin; split; [apply Hi; by right|]|done].
  - rewrite fmap_cons; cbn [rev]. by rewrite <- !app_assoc.
  - apply not_elem_of_cons. split; [by intros ->|]. apply Hi. by right.
Qed.

(** A block that carries the result of a call. *)
Definition result_for (i : pystr) (b : Json) : Prop :=
  has_type b "tool_use" = false ∧ has_type b "tool_result" = true ∧ str_field b "tool_use_id" = Some i.

Lemma filter_out_all (l : list pystr) i : i ∉ l → List.filter (λ j, negb (bool_decide (i = j))) l = l.
Proof.
  induction l as [|x l IH]; intros Hi; cbn; [done|]. rewrite bool_decide_eq_false_2 by set_solver. cbn. f_equal. apply IH. set_solver.
Qed.

Lemma settle_result st i b :
  result_for i b → i ∈ pending st →
  settle_block st b = Some {| seen := seen st; pending := List.filter (λ j, negb (bool_decide (i = j))) (pending st) |}.
Proof. intros (H1 & H2 & H3) Hi. unfold settle_block. by rewrite H1, H2, H3, bool_decide_eq_true_2. Qed.

(** The results of all pending calls, in any order without repetition. *)
Lemma settle_results sn ps ids bs :
  Forall2 result_for ids bs → NoDup ids → (∀ i, i ∈ ids → i ∈ ps) →
  fold_opt settle_block {| seen := sn; pending := ps |} bs
  = Some {| seen := sn; pending := List.filter (λ j, negb (bool_decide (j ∈ ids))) ps |}.
Proof.
  intros F. revert ps. induction F as [|i b ids bs Hb F IH]; intros ps Hn Hp.
  { cbn. do 2 f_equal. symmetry. clear. induction ps as [|x ps IH]; cbn; [done|by f_equal]. }
  apply NoDup_cons in Hn as [Hi Hn]. rewrite fold_opt_cons, (settle_result _ i) by (try done; apply Hp; by left).
  cbn [mbind option_bind seen pending]. rewrite IH; [|done|].
  - do 2 f_equal. clear. induction ps as [|x ps IH]; cbn; [done|].
    destruct (decide (i = x)) as [ ->|Hx].
    + rewrite bool_decide_eq_true_2 by done. cbn. rewrite (bool_decide_eq_true_2 (x ∈ x :: ids)) by by left. done.
    + rewrite bool_decide_eq_false_2 by done. cbn.
      rewrite (bool_decide_ext (x ∈ i :: ids) (x ∈ ids)) by set_solver. destruct (bool_decide _); cbn; [done|by f_equal].
  - intros j Hj. apply list_elem_of_In, filter_In. split; [apply list_elem_of_In, Hp; by right|].
    rewrite bool_decide_eq_false_2; [done|]. by intros ->.
Qed.

Lemma elem_of_rev {A : Type} (x : A) l : x ∈ rev l ↔ x ∈ l.
Proof. by rewrite !list_elem_of_In, <- in_rev. Qed.

Lemma filter_none (l ids : list pystr) : (∀ i, i ∈ l → i ∈ ids) → List.filter (λ j, negb (bool_decide (j ∈ ids))) l = [].
Proof.
  induction l as [|x l IH]; intros Hl; cbn; [done|]. rewrite bool_decide_eq_true_2 by set_solver. cbn. apply IH. set_solver.
Qed.

Lemma settle_reply sn m bs :
  has_role m "assistant" = true → field m "content" = Some (JList bs) →
  settle_message {| seen := sn; pending := [] |} m = fold_opt settle_block {| seen := []; pending := [] |} bs.
Proof. intros Hr Hc. unfold settle_message. by rewrite Hc, Hr. Qed.

Lemma settle_user st m bs :
  has_role m "assistant" = false → field m "content" = Some (JList bs) → settle_message st m = fold_opt settle_block st bs.
Proof. intros Hr Hc. unfold settle_message. by rewrite Hc, Hr. Qed.

(** The calls of one reply, the result of each, then messages without tool blocks. *)
Lemma settled_turn ms a u text calls extra :
  settled ms → NoDup (call_id <$> calls) → (∀ i, i ∈ call_id <$> calls → nonempty (strip i) = true) →
  has_role a "assistant" = true → field a "content" = Some (JList (extra ++ assistant_content text calls)) →
  forallb plain_block extra = true →
  has_role u "assistant" = false → Forall2 result_for (call_id <$> calls) (blocks_of u) → calls ≠ [] →
  settled (ms ++ [a; u]).
Proof.
  intros [sn E]%settled_final Hn Hb Ha Hca Hx Hu Hf Hne.
  assert (Hcu : field u "content" = Some (JList (blocks_of u))).
  { unfold blocks_of in *. destruct (field u "content") as [[| | | | |bs|]|]; try done;
      inversion Hf as [He|]; destruct calls; done. }
  apply settled_final. exists (rev (call_id <$> calls)). rewrite fold_opt_app, E. cbn [mbind option_bind]. rewrite fold_opt_cons.
  rewrite (settle_reply _ _ _ Ha Hca), fold_opt_app, plain_blocks_skip by done. cbn [mbind option_bind]. unfold assistant_content.
  rewrite fold_opt_app, plain_blocks_skip by by destruct (nonempty text). cbn [mbind option_bind].
  rewrite settle_uses; [|intros i Hi; split; [by apply Hb|set_solver]|done]. cbn [mbind option_bind seen pending].
  rewrite !app_nil_r, fold_opt_cons. rewrite (settle_user _ _ _ Hu Hcu).
  rewrite (settle_results _ _ (call_id <$> calls)); [|done..|].
  - cbn. do 2 f_equal. apply filter_none. intros i. by rewrite elem_of_rev.
  - intros i. by rewrite elem_of_rev.
Qed.

(** A reply without calls. *)
Lemma settled_reply ms a bs :
  settled ms → has_role a "assistant" = true → field a "content" = Some (JList bs) → forallb plain_block bs = true →
  settled (ms ++ [a]).
Proof.
  intros [sn E]%settled_final Ha Hc Hp. apply settled_final. exists []. rewrite fold_opt_app, E. cbn [mbind option_bind].
  by rewrite fold_opt_cons, (settle_reply _ _ _ Ha Hc), plain_blocks_skip.
Qed.
