(* ===== verification/AgentCycle.v ===== *)
(** * One tool cycle of an agent (src/src/agents/tool_cycle.py, repetition.py)

    An accepted generation asks for several tool calls.  They run one after the other,
    and every call gets exactly one result, whatever stops the cycle: a kill, the
    lifetime, a message from the parent, a timeout, an exception.

    The environment says what happens at every await: which messages arrive, whether
    the agent is killed, how late it is afterwards, and how the await ends. *)

From S2P Require Import Prelude PyStr PyLib Transcript Effects AgentReports Agents MediaResult.
Open Scope string_scope.
Open Scope list_scope.
Open Scope Z_scope.

Inductive CallStatus : Type :=
| Succeeded | Call_failed | Denied | Outcome_unknown | Timed_out | Invalid_arguments
| Interrupted | Interrupted_effect_free | Not_executed.

#[export] Instance CallStatus_eq_dec : EqDecision CallStatus.
Proof. solve_decision. Defined.

Definition status_text (s : CallStatus) : pystr :=
  match s with
  | Succeeded => lit "succeeded" | Call_failed => lit "failed" | Denied => lit "denied"
  | Outcome_unknown => lit "outcome_unknown" | Timed_out => lit "timed_out"
  | Invalid_arguments => lit "invalid_arguments" | Interrupted => lit "interrupted"
  | Interrupted_effect_free => lit "interrupted_effect_free" | Not_executed => lit "not_executed"
  end.

(** A text; [Delivered] is a DeliveredOutput with its evidence digest. *)
Inductive Output : Type := Plain (s : pystr) | Delivered (s digest : pystr).

Definition chars (o : Output) : pystr := match o with Plain s | Delivered s _ => s end.
Definition digest_of (o : Output) : pystr := match o with Plain _ => [] | Delivered _ d => d end.

(** Delivery, error recognition and image evidence, which the cycle calls (src/src/tools). *)
Class ToolText := {
  scrub_text : pystr → pystr;
  deliver : pystr → pystr → CallStatus → Output;
  is_error_result : pystr → bool;
  evidence_digest : Output → pystr;
  image_evidence_digest : pystr → list Json → pystr;
  show_seconds : Z → pystr
}.

Record CallResult : Type := {
  of_name : pystr;
  tool_use_id : pystr;
  output : Output;
  digest : pystr;
  ok : bool;
  status : CallStatus;
  uncertain_outcome : bool;
  audit_metadata : list (pystr * Json)
}.

(** The value of a tool: a ToolResult, or a text that may be an uncertain ToolFailure. *)
Inductive Raw : Type :=
| Structured (text : Output) (fine : bool) (error : pystr) (uncertain : bool)
    (metadata : list (pystr * Json)) (image_blocks : list Json)
| Text (s : Output) (uncertain : bool).

(** What arrives while an agent awaits. *)
Record Arrival : Type := { sent : list pystr; stop : bool; later : Z }.

Inductive Before : Type := Proceeds | Late | Cancelled_before.
Inductive During : Type := Returned (raw : Raw) | Late_running | Raised (text : pystr) | Cancelled_during.

(** The environment of one call: the clock at its admission, its timeout ([None]: the
    resolver raises), the await before the dispatch and the one on the tool. *)
Record CallEnv : Type := {
  admitted_at : Z;
  timeout : option Z;
  until_dispatch : Arrival;
  dispatch : Before;
  until_end : Arrival;
  running : During
}.

Inductive Cause : Type := Parent_message | Stopped | Lifetime.

#[export] Instance Cause_eq_dec : EqDecision Cause.
Proof. solve_decision. Defined.

Definition is_wait (n : pystr) : bool := bool_decide (n = lit "wait_for_agents").

(** Membership in effect_free_observation_tools(), as classify_tool_effect tests it. *)
Definition observes (n : pystr) : bool :=
  bool_decide (n ∈ lit <$> elements effect_free_observation_tools).

Section cycle.
Context `{AgentText, ToolText}.

(** ** Texts of results *)

Definition scrub_output (o : Output) : Output := match o with Plain s => Plain (scrub_text s) | o => o end.

Definition looks_failed (s : pystr) : bool :=
  existsb (λ p, startswith (lit p) s) ["Error"; "Denied"; "Permission denied"; "Command failed"; "Script failed"].

Definition error_prefix (s : CallStatus) (o : Output) : Output :=
  match o with
  | Plain t => if looks_failed t then o else Plain (lit "Error (" ++ status_text s ++ lit "):" ++ [LF] ++ t)
  | _ => o
  end.

(** [result_record] *)
Definition result_record (c : Call) (text : Output) (s : CallStatus) (uncertain : bool) : CallResult :=
  let o := scrub_output text in
  let o := match s with Succeeded | Not_executed => o | _ => error_prefix s o end in
  let o := match o with
           | Plain t => if bool_decide (name c = lit "read_file") then o else deliver t (name c) s
           | _ => o
           end in
  {| of_name := name c; tool_use_id := call_id c; output := o; digest := digest_of o;
     ok := bool_decide (s = Succeeded); status := s; uncertain_outcome := uncertain; audit_metadata := [] |}.

Definition not_run_text (c : option Cause) : pystr :=
  match c with
  | Some Parent_message => lit ("Not run: a message from your parent arrived before this call was dispatched. " ++
      "This is not a tool failure or an agent stop; this call did not execute. Read the " ++
      "[Message from parent] below, then reissue this call only if it is still needed and " ++
      "consistent with that message.")
  | Some Stopped => lit "Not run: this agent was stopped before this call started."
  | Some Lifetime => lit "Not run: this agent reached its lifetime limit before this call started."
  | None => lit "Not run: this call was not dispatched because the tool batch ended early."
  end.

(** ** Holding back *)

(** [hold_back_cause] *)
Definition hold_back_cause (a : AgentInfo) (now : Z) : option Cause :=
  if cancel_event a then Some Stopped
  else if created_at (base a) + max_lifetime (base a) <=? now then Some Lifetime
  else match inbox (mail a) with [] => None | _ => Some Parent_message end.

(** Messages and a kill that arrive during an await. *)
Definition arrive (x : Arrival) (a : AgentInfo) : AgentInfo :=
  let a := foldl (λ a s, queue_message s a) a (sent x) in
  if stop x then force_cancel a else a.

(** The dispatch of a call counts it. *)
Definition count_dispatch (n : pystr) (a : AgentInfo) : AgentInfo :=
  set_work {| iteration_count := iteration_count (work a); tool_execution_count := tool_execution_count (work a) + 1;
              tools_used := if bool_decide (n ∈ tools_used (work a)) then tools_used (work a) else tools_used (work a) ++ [n];
              recovery_attempts := recovery_attempts (work a); phase := phase (work a);
              phase_started_at := phase_started_at (work a); last_activity := last_activity (work a);
              phase_deadline := phase_deadline (work a); result_text := result_text (work a);
              error_text := error_text (work a) |} a.

(** ** Results of dispatched calls *)

(** The status of a value. *)
Definition status_of (raw : Raw) : CallStatus :=
  match raw with
  | Structured _ fine error uncertain _ _ =>
      if uncertain then Outcome_unknown
      else if bool_decide (error ∈ lit <$> ["denied"; "permission_denied"; "host_denied"]) then Denied
      else if fine then Succeeded else Call_failed
  | Text text uncertain =>
      if uncertain then Outcome_unknown
      else if existsb (λ p, startswith (lit p) (chars text)) ["Denied"; "Permission denied"; "Unknown or disallowed host"]
      then Denied
      else if is_error_result (chars text) then Call_failed else Succeeded
  end.

Definition set_metadata (fine : bool) (metadata : list (pystr * Json)) (blocks : list Json) (r : CallResult) : CallResult :=
  {| of_name := of_name r; tool_use_id := tool_use_id r; output := output r;
     digest := match blocks with
               | [] => digest r
               | _ => image_evidence_digest (evidence_digest (output r)) blocks
               end;
     ok := ok r;
     status := if fine && bool_decide (dict_get metadata (lit "wait_interrupted") = Some (JStr (lit "parent_message")))
               then Interrupted_effect_free else status r;
     uncertain_outcome := uncertain_outcome r; audit_metadata := metadata |}.

Definition mark_failure (r : CallResult) : CallResult :=
  if ok r then r
  else {| of_name := of_name r; tool_use_id := tool_use_id r; output := error_prefix (status r) (output r);
          digest := digest r; ok := ok r; status := status r; uncertain_outcome := uncertain_outcome r;
          audit_metadata := audit_metadata r |}.

(** What the value of a tool is recorded as. *)
Definition record_raw (c : Call) (raw : Raw) : CallResult :=
  mark_failure
    match raw with
    | Structured text fine error uncertain metadata blocks =>
        set_metadata fine metadata blocks (result_record c text (status_of raw) uncertain)
    | Text text uncertain => result_record c text (status_of raw) uncertain
    end.

Definition images_of (c : Call) (raw : Raw) : list Json :=
  match raw with
  | Structured _ _ _ _ _ ((_ :: _) as blocks) => image_messages blocks (name c) (call_id c)
  | _ => []
  end.

Definition timed_out (c : Call) (t : Z) : CallResult :=
  result_record c
    (Plain (lit "Error: Tool '" ++ name c ++ lit "' timed out after " ++ show_seconds t ++ lit "s; "
            ++ (if is_wait (name c) then lit "children continue." else lit "external outcome unknown.")))
    Timed_out (negb (is_wait (name c))).

(** ** The loop *)

(** [executed] lists the positions of the calls that reached the executor. *)
Record Cycle : Type := {
  agent : AgentInfo;
  clock : Z;
  results : list CallResult;
  images : list Json;
  executed : list nat
}.

Definition at_ (x : Arrival) (c : Cycle) : Cycle :=
  {| agent := arrive x (agent c); clock := later x; results := results c; images := images c; executed := executed c |}.
Definition on_agent (f : AgentInfo → AgentInfo) (c : Cycle) : Cycle :=
  {| agent := f (agent c); clock := clock c; results := results c; images := images c; executed := executed c |}.
Definition add_result (r : CallResult) (imgs : list Json) (c : Cycle) : Cycle :=
  {| agent := set_phase Phase_ready None (clock c) (agent c); clock := clock c; results := results c ++ [r];
     images := images c ++ imgs; executed := executed c |}.
Definition execute (k : nat) (n : pystr) (c : Cycle) : Cycle :=
  {| agent := count_dispatch n (agent c); clock := clock c; results := results c; images := images c;
     executed := executed c ++ [k] |}.

(** How the loop ends: normally, by a cancellation, or by the resolver's exception;
    with the cause and the call that was running. *)
Inductive Ending : Type := Normal | By_cancellation | By_exception.

Record Unwound : Type := { ending : Ending; cause : option Cause; interrupted : option Call }.

(** One call: [inl] when the loop goes on. *)
Definition one_call (e : CallEnv) (k : nat) (c : Call) (w : Cycle) : Cycle * option Unwound :=
  let w := {| agent := agent w; clock := admitted_at e; results := results w; images := images w;
              executed := executed w |} in
  match hold_back_cause (agent w) (clock w) with
  | Some why => (w, Some {| ending := Normal; cause := Some why; interrupted := None |})
  | None =>
      if nonempty (parse_error c) then
        ({| agent := agent w; clock := clock w;
            results := results w ++ [result_record c (Plain (lit "Error: " ++ parse_error c)) Invalid_arguments false];
            images := images w; executed := executed w |}, None)
      else
        match timeout e with
        | None => (w, Some {| ending := By_exception; cause := None; interrupted := None |})
        | Some t =>
            let lifetime := max_lifetime (base (agent w)) - (clock w - created_at (base (agent w))) in
            let t := Z.min t lifetime in
            let w := on_agent (set_phase (if is_wait (name c) then Waiting_for_children else Executing_tool)
                                 (Some (clock w + t)) (clock w)) w in
            let w := at_ (until_dispatch e) w in
            match dispatch e with
            | Cancelled_before => (w, Some {| ending := By_cancellation; cause := Some Stopped; interrupted := None |})
            | Late => (add_result (timed_out c t) [] w, None)
            | Proceeds =>
                match hold_back_cause (agent w) (clock w) with
                | Some why => (w, Some {| ending := Normal; cause := Some why; interrupted := None |})
                | None =>
                    let w := at_ (until_end e) (execute k (name c) w) in
                    match running e with
                    | Cancelled_during =>
                        (w, Some {| ending := By_cancellation; cause := Some Stopped; interrupted := Some c |})
                    | Late_running => (add_result (timed_out c t) [] w, None)
                    | Raised text =>
                        let uncertain := negb (observes (name c)) in
                        (add_result (result_record c (Plain (lit "Error: " ++ text))
                                       (if uncertain then Outcome_unknown else Call_failed) uncertain) [] w, None)
                    | Returned raw => (add_result (record_raw c raw) (images_of c raw) w, None)
                    end
                end
            end
        end
  end.

Fixpoint call_loop (env : nat → CallEnv) (k : nat) (calls : list Call) (w : Cycle) : Cycle * Unwound :=
  match calls with
  | [] => (w, {| ending := Normal; cause := None; interrupted := None |})
  | c :: calls =>
      match one_call (env k) k c w with
      | (w, None) => call_loop env (S k) calls w
      | (w, Some u) => (w, u)
      end
  end.

(** The [finally]: the interrupted call, then the calls that never ran. *)
Definition interrupted_record (c : Call) : CallResult :=
  if is_wait (name c) then
    result_record c (Plain (lit "Wait interrupted; children continue.")) Interrupted_effect_free false
  else result_record c (Plain (lit "Tool interrupted after dispatch; external outcome unknown.")) Interrupted true.

Definition tool_result_block (r : CallResult) : Json :=
  JDict [(lit "type", JStr (lit "tool_result")); (lit "tool_use_id", JStr (tool_use_id r));
         (lit "content", JStr (chars (output r))); (lit "is_error", JBool (negb (ok r)));
         (lit "status", JStr (status_text (status r))); (lit "uncertain_outcome", JBool (uncertain_outcome r))].

Definition append_messages (ms : list Json) (a : AgentInfo) : AgentInfo :=
  set_mail {| messages := messages (mail a) ++ ms; inbox := inbox (mail a); inbox_sequence := inbox_sequence (mail a);
              last_consumed_sequence := last_consumed_sequence (mail a); inbox_event := inbox_event (mail a);
              queued_events := queued_events (mail a); consumed_events := consumed_events (mail a) |} a.

Definition settle (calls : list Call) (w : Cycle) (u : Unwound) : Cycle :=
  let rs := results w ++ match interrupted u with Some c => [interrupted_record c] | None => [] end in
  let rest := (λ c, result_record c (Plain (not_run_text (cause u))) Not_executed false) <$> drop (length rs) calls in
  {| agent := append_messages (user_message (JList (tool_result_block <$> (rs ++ rest))) [] :: images w) (agent w);
     clock := clock w; results := rs ++ rest; images := images w; executed := executed w |}.

(** [execute_cycle] *)
Definition execute_cycle (env : nat → CallEnv) (calls : list Call) (a : AgentInfo) (now : Z) : Cycle * Ending :=
  let '(w, u) := call_loop env 0 calls {| agent := a; clock := now; results := []; images := []; executed := [] |} in
  (settle calls w u, ending u).

(** ** The repetition guard *)

Definition REPEAT_NUDGE_AT : nat := 3.

Record RepetitionGuard : Type := { fingerprint : pystr; repeats : nat }.

Inductive RepeatAction : Type := No_action | Nudge | Stop_repeating.

#[export] Instance RepeatAction_eq_dec : EqDecision RepeatAction.
Proof. solve_decision. Defined.

(** What one executed call contributes to the fingerprint. *)
Definition pair_of (c : Call) (r : CallResult) : list Json :=
  match status r with
  | Not_executed | Invalid_arguments | Interrupted_effect_free => []
  | _ =>
      if observes (name c) then []
      else [JDict [(lit "name", JStr (name c)); (lit "input", input c);
                   (lit "result", JStr (if nonempty (digest r) then digest r else chars (output r)));
                   (lit "status", JStr (status_text (status r))); (lit "uncertain_outcome", JBool (uncertain_outcome r))]]
  end.

(** The pairs of the cycle; [None] is the ValueError of [zip(strict=True)]. *)
Fixpoint pairs_of (calls : list Call) (rs : list CallResult) : option (list Json) :=
  match calls, rs with
  | [], [] => Some []
  | c :: calls, r :: rs => app (pair_of c r) <$> pairs_of calls rs
  | _, _ => None
  end.

Definition fingerprint_of `{Codec} (pairs : list Json) : pystr :=
  match pairs with [] => [] | _ => sha256_hex (dumps (sort_keys (JList pairs))) end.

Definition step_guard (f : pystr) (g : RepetitionGuard) : RepetitionGuard * RepeatAction :=
  let g := if nonempty f && bool_decide (f = fingerprint g) then {| fingerprint := fingerprint g; repeats := S (repeats g) |}
           else {| fingerprint := f; repeats := if nonempty f then 1%nat else 0%nat |} in
  (g, if (repeats g =? REPEAT_NUDGE_AT)%nat then Nudge
      else if (REPEAT_NUDGE_AT <? repeats g)%nat then Stop_repeating else No_action).

(** [RepetitionGuard.observe] *)
Definition observe `{Codec} (calls : list Call) (rs : list CallResult) (g : RepetitionGuard)
    : option (RepetitionGuard * RepeatAction) :=
  pairs ← pairs_of calls rs; Some (step_guard (fingerprint_of pairs) g).

Definition new_guard : RepetitionGuard := {| fingerprint := []; repeats := 0 |}.

End cycle.
