(* ===== verification/AgentCycleTheory.v ===== *)
(** * Theorems about the tool cycle and the repetition guard

    Every accepted call is settled exactly once, whatever the environment does; nothing
    is dispatched once a message or a kill has arrived; the guard counts streaks. *)

From S2P Require Import Prelude PyStr PyLib Transcript Effects AgentReports Agents AgentCycle.
From Stdlib Require Import Sorted.
Open Scope string_scope.
Open Scope list_scope.
Open Scope Z_scope.

Section theory.
Context `{AgentText, ToolText}.

(** ** Records *)

(** Which statuses a result can have: membership in literal lists, by cases. *)
Ltac by_status :=
  intros; first [done | rewrite ?elem_of_cons, ?elem_of_nil in *; intuition (done || congruence)].

Lemma record_fields c o s u :
  let r := result_record c o s u in
  of_name r = name c ∧ tool_use_id r = call_id c ∧ status r = s ∧ uncertain_outcome r = u ∧ ok r = bool_decide (s = Succeeded).
Proof. done. Qed.

(** What the status says of the fate of the call. *)
Record settles (c : Call) (ran : bool) (r : CallResult) : Prop := {
  settles_name : of_name r = name c;
  settles_id : tool_use_id r = call_id c;
  settles_ran : ran = true → status r ∉ [Not_executed; Invalid_arguments];
  settles_not_ran : ran = false → status r ∈ [Not_executed; Invalid_arguments; Timed_out];
  settles_unknown : status r = Outcome_unknown ∨ status r = Interrupted → uncertain_outcome r = true;
  settles_timeout : status r = Timed_out → uncertain_outcome r = negb (is_wait (name c));
  settles_ok : ok r = true → ran = true
}.

Lemma status_of_values raw :
  status_of raw ∈ [Succeeded; Call_failed; Denied; Outcome_unknown]
  ∧ (status_of raw = Outcome_unknown ↔ match raw with Structured _ _ _ u _ _ | Text _ u => u end = true).
Proof.
  assert (Hif : ∀ (u b b' : bool) (x y : CallStatus), x ∈ [Succeeded; Call_failed; Denied] → y ∈ [Succeeded; Call_failed] →
    (if u then Outcome_unknown else if b then Denied else if b' then x else y) ∈ [Succeeded; Call_failed; Denied; Outcome_unknown]
    ∧ ((if u then Outcome_unknown else if b then Denied else if b' then x else y) = Outcome_unknown ↔ u = true)).
  { intros [] [] [] x y Hx Hy; split; try split; try done; try set_solver. }
  destruct raw; apply Hif; set_solver.
Qed.

Lemma mark_failure_fields r :
  of_name (mark_failure r) = of_name r ∧ tool_use_id (mark_failure r) = tool_use_id r ∧ status (mark_failure r) = status r
  ∧ uncertain_outcome (mark_failure r) = uncertain_outcome r ∧ ok (mark_failure r) = ok r.
Proof. unfold mark_failure. by destruct (ok r) eqn:E. Qed.

Lemma settles_raw c raw : settles c true (record_raw c raw) ∧ status (record_raw c raw) ≠ Not_executed.
Proof.
  unfold record_raw.
  match goal with |- context [mark_failure ?r] =>
    pose proof (mark_failure_fields r) as (Hn & Hi & Hs & Hu & Ho);
    assert (Hr : of_name r = name c ∧ tool_use_id r = call_id c
      ∧ (status r = status_of raw ∨ status r = Interrupted_effect_free)
      ∧ uncertain_outcome r = match raw with Structured _ _ _ u _ _ | Text _ u => u end)
  end.
  { destruct raw as [t fine err u md bl|t u]; repeat split; [|by left]. unfold set_metadata. cbn [status].
    destruct (fine && _); [by right|by left]. }
  destruct Hr as (H1 & H2 & H3 & H4). destruct (status_of_values raw) as [V1 V2].
  split; [split|]; rewrite ?Hn, ?Hi, ?Hs, ?Hu, ?Ho, ?H4; by_status.
Qed.

(** ** One call *)

(** What a cycle leaves alone, and how the mail may grow during one. *)
Definition static (a : AgentInfo) := (base a, machine a, ended_at a, reports a).

Record mail_grows (m m' : Mail) : Prop := {
  grows_messages : messages m' = messages m;
  grows_consumed : consumed_events m' = consumed_events m;
  grows_inbox : ∃ new, inbox m' = inbox m ++ new ∧ queued_events m' = queued_events m ++ new
}.

Lemma mail_grows_refl m : mail_grows m m.
Proof. split; try done. exists []. by rewrite !app_nil_r. Qed.

#[local] Hint Resolve mail_grows_refl : core.

Lemma mail_grows_trans a b c : mail_grows a b → mail_grows b c → mail_grows a c.
Proof.
  intros [M1 C1 (n1 & I1 & Q1)] [M2 C2 (n2 & I2 & Q2)]. split; [congruence..|]. exists (n1 ++ n2).
  by rewrite I2, Q2, I1, Q1, !app_assoc.
Qed.

Lemma static_base a b : static a = static b → base a = base b.
Proof. by intros [= ? _ _ _]. Qed.

Definition quiet (a : AgentInfo) : Prop := cancel_event a = false ∧ inbox (mail a) = [].
Definition quiet_arrival (x : Arrival) : Prop := stop x = false ∧ sent x = [].
Definition lifetime_end (a : AgentInfo) : Z := created_at (base a) + max_lifetime (base a).

Lemma hold_back_quiet a now : hold_back_cause a now = None ↔ quiet a ∧ now < lifetime_end a.
Proof.
  unfold hold_back_cause, quiet, lifetime_end. destruct (cancel_event a); [split; [done|intros [[? _] _]; done]|].
  destruct (Z.leb_spec (created_at (base a) + max_lifetime (base a)) now).
  - split; [done|intros [_ ?]; lia].
  - destruct (inbox (mail a)); split; try done. intros [[_ ?] _]. done.
Qed.

Lemma queue_all_fields l a :
  let a' := foldl (λ a s, queue_message s a) a l in
  cancel_event a' = cancel_event a ∧ static a' = static a ∧ mail_grows (mail a) (mail a')
  ∧ (inbox (mail a') = [] ↔ inbox (mail a) = [] ∧ l = []).
Proof.
  revert a. induction l as [|s l IH]; intros a; cbn [foldl].
  - split_and!; [done..|apply mail_grows_refl|]. split; [done|by intros [? _]].
  - destruct (IH (queue_message s a)) as (H1 & H2 & H3 & H4). cbn zeta. rewrite H1, H2, H4.
    split_and!; [done..| |].
    { eapply mail_grows_trans; [|exact H3]. split; [done..|]. eexists. done. }
    cbn. split.
    + intros [? _]. by destruct (inbox (mail a)).
    + by intros [_ ?].
Qed.

Lemma arrive_fields x a :
  static (arrive x a) = static a ∧ mail_grows (mail a) (mail (arrive x a))
  ∧ (quiet (arrive x a) ↔ quiet a ∧ quiet_arrival x).
Proof.
  unfold arrive, quiet, quiet_arrival. destruct (queue_all_fields (sent x) a) as (H1 & H2 & H3 & H4).
  cbn zeta in *. destruct (stop x).
  - change (static (force_cancel ?b)) with (static b). rewrite H2. split_and!; [done|exact H3|]. cbn -[foldl]. intuition congruence.
  - rewrite H1, H2, H4. split_and!; [done|exact H3|]. intuition congruence.
Qed.

(** What one call does to the cycle, whichever branch it takes. *)
Record step_shape (e : CallEnv) (k : nat) (c : Call) (w w' : Cycle) (o : option Unwound) (ran : bool) : Prop := {
  step_executed : executed w' = executed w ++ (if ran then [k] else []);
  step_results : match o with
                 | None => ∃ r, results w' = results w ++ [r] ∧ settles c ran r ∧ status r ≠ Not_executed
                 | Some u => results w' = results w ∧ interrupted u = (if ran then Some c else None)
                 end;
  step_static : static (agent w') = static (agent w);
  step_mail : mail_grows (mail (agent w)) (mail (agent w'));
  step_quiet : quiet (agent w') → quiet (agent w);
  step_ran : ran = true →
    quiet (agent w) ∧ quiet_arrival (until_dispatch e) ∧ later (until_dispatch e) < lifetime_end (agent w)
    ∧ (quiet (agent w') → quiet_arrival (until_end e))
}.

Lemma settles_timed_out c ran t : settles c ran (timed_out c t).
Proof.
  pose proof (record_fields c (Plain (lit "Error: Tool '" ++ name c ++ lit "' timed out after " ++ show_seconds t ++ lit "s; "
            ++ (if is_wait (name c) then lit "children continue." else lit "external outcome unknown.")))
            Timed_out (negb (is_wait (name c)))) as (H1 & H2 & H3 & H4 & H5).
  fold (timed_out c t) in *.
  split; rewrite ?H1, ?H2, ?H3, ?H4, ?H5; by_status.
Qed.

Lemma settles_raised c text (u : bool) :
  settles c true (result_record c text (if u then Outcome_unknown else Call_failed) u).
Proof.
  destruct (record_fields c text (if u then Outcome_unknown else Call_failed) u) as (H1 & H2 & H3 & H4 & H5).
  split; rewrite ?H1, ?H2, ?H3, ?H4, ?H5; destruct u; by_status.
Qed.

Lemma settles_refused c text : settles c false (result_record c text Invalid_arguments false).
Proof.
  destruct (record_fields c text Invalid_arguments false) as (H1 & H2 & H3 & H4 & H5).
  split; rewrite ?H1, ?H2, ?H3, ?H4, ?H5; by_status.
Qed.

Lemma settles_held_back c text : settles c false (result_record c text Not_executed false).
Proof.
  destruct (record_fields c text Not_executed false) as (H1 & H2 & H3 & H4 & H5).
  split; rewrite ?H1, ?H2, ?H3, ?H4, ?H5; by_status.
Qed.

Lemma settles_interrupted c : settles c true (interrupted_record c).
Proof. unfold interrupted_record. destruct (is_wait (name c)); split; by_status. Qed.

Lemma set_phase_fields p d t a :
  base (set_phase p d t a) = base a ∧ mail (set_phase p d t a) = mail a ∧ cancel_event (set_phase p d t a) = cancel_event a.
Proof. done. Qed.

(** The cycle once the call has been admitted: phase set, the first await over. *)
Definition after_wait (e : CallEnv) (n : pystr) (t : Z) (w : Cycle) : Cycle :=
  at_ (until_dispatch e)
    (on_agent (set_phase (if is_wait n then Waiting_for_children else Executing_tool)
                 (Some (admitted_at e + t)) (admitted_at e))
       {| agent := agent w; clock := admitted_at e; results := results w; images := images w; executed := executed w |}).

Lemma after_wait_fields e n t w :
  let w' := after_wait e n t w in
  results w' = results w ∧ executed w' = executed w ∧ static (agent w') = static (agent w)
  ∧ mail_grows (mail (agent w)) (mail (agent w'))
  ∧ (quiet (agent w') ↔ quiet (agent w) ∧ quiet_arrival (until_dispatch e)).
Proof.
  cbn zeta. unfold after_wait, at_, on_agent. cbn [agent results executed].
  match goal with |- context [arrive ?x ?a] => destruct (arrive_fields x a) as (H1 & H2 & H3) end.
  by rewrite H1, H3.
Qed.

(** A call that was not dispatched leaves the records as they are, or adds one. *)
Lemma shape_idle e k c w w' o :
  executed w' = executed w → static (agent w') = static (agent w) →
  mail_grows (mail (agent w)) (mail (agent w')) → (quiet (agent w') → quiet (agent w)) →
  match o with
  | None => ∃ r, results w' = results w ++ [r] ∧ settles c false r ∧ status r ≠ Not_executed
  | Some u => results w' = results w ∧ interrupted u = None
  end → step_shape e k c w w' o false.
Proof. intros. split; try done. by rewrite app_nil_r. Qed.

Lemma shape_dispatched e k c w w' w1 o t :
  w1 = after_wait e (name c) t w → hold_back_cause (agent w1) (clock w1) = None →
  let w2 := at_ (until_end e) (execute k (name c) w1) in
  executed w' = executed w2 → static (agent w') = static (agent w2) →
  mail (agent w') = mail (agent w2) → cancel_event (agent w') = cancel_event (agent w2) →
  match o with
  | None => ∃ r, results w' = results w2 ++ [r] ∧ settles c true r ∧ status r ≠ Not_executed
  | Some u => results w' = results w2 ∧ interrupted u = Some c
  end → step_shape e k c w w' o true.
Proof.
  intros -> [Hq Hl]%hold_back_quiet. cbn zeta.
  destruct (after_wait_fields e (name c) t w) as (F1 & F2 & F3 & F4 & F5).
  set (w1 := after_wait e (name c) t w) in *.
  assert (Hc : clock w1 = later (until_dispatch e)) by done. rewrite Hc in Hl.
  destruct (arrive_fields (until_end e) (count_dispatch (name c) (agent w1))) as (A1 & A2 & A3).
  unfold at_, execute. cbn [agent clock results executed]. intros He Hb Hm Hce Ho.
  assert (Hquiet : quiet (agent w') ↔ quiet (agent w1) ∧ quiet_arrival (until_end e)).
  { unfold quiet at 1. by rewrite Hm, Hce, <- A3. }
  unfold lifetime_end in Hl. rewrite (static_base _ _ F3) in Hl. apply F5 in Hq as Hq'. destruct Hq'.
  split.
  - by rewrite He, F2.
  - by rewrite <- F1.
  - rewrite Hb, A1. exact F3.
  - rewrite Hm. eapply mail_grows_trans; [exact F4|exact A2].
  - done.
  - intros _. rewrite Hquiet. unfold lifetime_end. tauto.
Qed.

Lemma one_call_shape e k c w :
  ∃ ran, step_shape e k c w (one_call e k c w).1 (one_call e k c w).2 ran.
Proof.
  unfold one_call. cbn zeta. cbn [agent clock].
  destruct (hold_back_cause (agent w) (admitted_at e)) as [why|] eqn:Eh; [by exists false; apply shape_idle|].
  destruct (nonempty (parse_error c)).
  { exists false. apply shape_idle; try done. eexists. split; [done|]. split; [apply settles_refused|done]. }
  destruct (timeout e) as [t|]; [|by exists false; apply shape_idle].
  set (t' := Z.min t _).
  change (at_ (until_dispatch e) _) with (after_wait e (name c) t' w).
  destruct (after_wait_fields e (name c) t' w) as (F1 & F2 & F3 & F4 & F5).
  set (w1 := after_wait e (name c) t' w) in *.
  assert (Hback : quiet (agent w1) → quiet (agent w)) by tauto.
  destruct (dispatch e).
  2: { exists false. apply shape_idle; try done.
       eexists. split; [done|]. split; [apply settles_timed_out|done]. }
  2: { exists false. by apply shape_idle. }
  destruct (hold_back_cause (agent w1) (clock w1)) as [why|] eqn:Eh2.
  { exists false. by apply shape_idle. }
  exists true. destruct (running e) as [raw| |text|];
    eapply (shape_dispatched e k c w _ w1 _ t'); try done; eexists; (split; [done|]).
  - apply settles_raw.
  - split; [apply settles_timed_out|done].
  - split; [apply settles_raised|]. cbn. by destruct (observes (name c)).
Qed.

(** ** The loop *)

(** What is known of the dispatches when [n] calls have been handled. *)
Record dispatched (env : nat → CallEnv) (a : AgentInfo) (n : nat) (w : Cycle) : Prop := {
  dis_static : static (agent w) = static a;
  dis_mail : mail_grows (mail a) (mail (agent w));
  dis_below : ∀ j, j ∈ executed w → (j < n)%nat;
  dis_sorted : StronglySorted lt (executed w);
  dis_quiet : quiet (agent w) → quiet a;
  dis_now : ∀ j, j ∈ executed w → quiet a ∧ quiet_arrival (until_dispatch (env j)) ∧ later (until_dispatch (env j)) < lifetime_end a;
  dis_past : ∀ j, j ∈ executed w → quiet (agent w) → quiet_arrival (until_end (env j));
  dis_order : ∀ i j, (i < j)%nat → i ∈ executed w → j ∈ executed w → quiet_arrival (until_end (env i))
}.

(** The results of the calls [cs], so far. *)
Record settled (cs : list Call) (w : Cycle) : Prop := {
  set_length : length (results w) = length cs;
  set_records j c r : cs !! j = Some c → results w !! j = Some r →
    settles c (bool_decide (j ∈ executed w)) r ∧ status r ≠ Not_executed
}.

Lemma sorted_snoc l n : StronglySorted lt l → (∀ j, j ∈ l → (j < n)%nat) → StronglySorted lt (l ++ [n]).
Proof.
  induction 1 as [|x l Hs IH Hx]; intros Hn; cbn; [by repeat constructor|].
  constructor; [apply IH; set_solver|]. rewrite Forall_app. split; [done|]. repeat constructor. set_solver.
Qed.

Lemma dispatched_step env a k c w w' o ran :
  dispatched env a k w → step_shape (env k) k c w w' o ran → dispatched env a (S k) w'.
Proof.
  intros D S.
  assert (He : ∀ j, j ∈ executed w' ↔ j ∈ executed w ∨ (ran = true ∧ j = k)).
  { intros j. rewrite (step_executed _ _ _ _ _ _ _ S), elem_of_app. destruct ran; set_solver. }
  assert (Hr : ran = true → quiet a ∧ quiet_arrival (until_dispatch (env k)) ∧ later (until_dispatch (env k)) < lifetime_end a
     ∧ (quiet (agent w') → quiet_arrival (until_end (env k)))).
  { intros E. destruct (step_ran _ _ _ _ _ _ _ S E) as (Q & ? & L & ?). unfold lifetime_end in *.
    rewrite (static_base _ _ (dis_static _ _ _ _ D)) in L. split_and!; try done. by apply (dis_quiet _ _ _ _ D). }
  split.
  - rewrite (step_static _ _ _ _ _ _ _ S). apply D.
  - eapply mail_grows_trans; [apply D|apply S].
  - intros j [Hj|[_ ->]]%He; [apply D in Hj|]; lia.
  - rewrite (step_executed _ _ _ _ _ _ _ S). destruct ran; [|rewrite app_nil_r; apply D].
    apply sorted_snoc; [apply D|apply (dis_below _ _ _ _ D)].
  - intros Q. apply (dis_quiet _ _ _ _ D). by apply S.
  - intros j [Hj|[E ->]]%He; [by apply D|]. by destruct (Hr E) as (? & ? & ? & _).
  - intros j [Hj|[E ->]]%He Q; [|by apply Hr]. apply (dis_past _ _ _ _ D); [done|]. by apply S.
  - intros i j Hij [Hi|[_ ->]]%He [Hj|[E ->]]%He; [by eapply (dis_order _ _ _ _ D i j)| | |lia].
    + apply (dis_past _ _ _ _ D); [done|]. by apply (step_ran _ _ _ _ _ _ _ S).
    + apply (dis_below _ _ _ _ D) in Hj. lia.
Qed.

(** A settled cycle stays so with one more result, and with later dispatches. *)
Lemma settled_snoc cs c (ran : bool) r w w' :
  settled cs w → (∀ j, j ∈ executed w → (j < length cs)%nat) →
  executed w' = executed w ++ (if ran then [length cs] else []) → results w' = results w ++ [r] →
  settles c ran r → status r ≠ Not_executed → settled (cs ++ [c]) w'.
Proof.
  intros [L R] B He Hr Hs Hn. split; [rewrite Hr, !length_app, L; done|].
  intros j c' r'. rewrite Hr, !lookup_app, L.
  destruct (cs !! j) as [c0|] eqn:E.
  - apply lookup_lt_Some in E as Hj. destruct (results w !! j) as [r0|] eqn:E'; [|apply lookup_ge_None in E'; lia].
    intros [= <-] [= <-]. erewrite (bool_decide_ext _ (j ∈ executed w)); [by apply R|].
    rewrite He, elem_of_app. destruct ran; [|set_solver]. rewrite list_elem_of_singleton. split; [|tauto]. intros []; [done|lia].
  - apply lookup_ge_None in E as Hj. destruct (results w !! j) eqn:E'; [apply lookup_lt_Some in E'; lia|].
    intros [Hk Hc]%list_lookup_singleton_Some [_ Hr']%list_lookup_singleton_Some. subst c' r'.
    replace j with (length cs) by lia. replace (bool_decide _) with ran; [done|].
    symmetry. destruct ran.
    + apply bool_decide_eq_true. rewrite He. set_solver.
    + apply bool_decide_eq_false. rewrite He, app_nil_r. intros ?%B. lia.
Qed.

Lemma settled_later cs w w' (ran : bool) :
  settled cs w → executed w' = executed w ++ (if ran then [length cs] else []) → results w' = results w → settled cs w'.
Proof.
  intros [L R] He Hr. split; rewrite Hr; [done|]. intros j c r Hc Hj.
  erewrite (bool_decide_ext _ (j ∈ executed w)); [by apply R|].
  apply lookup_lt_Some in Hc. rewrite He, elem_of_app. destruct ran; [|set_solver].
  rewrite list_elem_of_singleton. split; [|tauto]. intros []; [done|lia].
Qed.

Lemma dispatched_at env a n m w :
  dispatched env a n w → (∀ j, j ∈ executed w → (j < m)%nat) → dispatched env a m w.
Proof. intros [] ?. by split. Qed.

Lemma call_loop_spec env a calls pre w :
  dispatched env a (length pre) w → settled pre w →
  let '(w', u) := call_loop env (length pre) calls w in
  ∃ handled rest, calls = handled ++ rest ∧ settled (pre ++ handled) w' ∧
    match interrupted u with
    | None => dispatched env a (length (pre ++ handled)) w'
    | Some c => ∃ rest', rest = c :: rest' ∧ dispatched env a (S (length (pre ++ handled))) w'
                         ∧ length (pre ++ handled) ∈ executed w'
    end.
Proof.
  revert pre w. induction calls as [|c calls IH]; intros pre w D S; cbn [call_loop].
  { exists [], []. rewrite !app_nil_r. split; [done|]. split; [exact S|exact D]. }
  destruct (one_call_shape (env (length pre)) (length pre) c w) as [ran Sh].
  destruct (one_call _ _ c w) as [w1 [u|]]; cbn [fst snd] in Sh; pose proof (dispatched_step _ _ _ _ _ _ _ _ D Sh) as D1.
  - exists [], (c :: calls). rewrite app_nil_r.
    destruct (step_results _ _ _ _ _ _ _ Sh) as [Hr ->].
    split_and!; [done|eapply settled_later; [exact S|apply Sh|done]|].
    pose proof (step_executed _ _ _ _ _ _ _ Sh) as He. destruct ran.
    + exists calls. split_and!; [done..|]. rewrite He. set_solver.
    + rewrite app_nil_r in He. eapply dispatched_at; [exact D1|]. rewrite He. apply D.
  - destruct (step_results _ _ _ _ _ _ _ Sh) as (r & Hr & Hs & Hn).
    assert (S1 : settled (pre ++ [c]) w1).
    { eapply settled_snoc; [exact S|apply (dis_below _ _ _ _ D)|apply Sh|done..]. }
    specialize (IH (pre ++ [c]) w1). rewrite length_app, Nat.add_1_r in IH. specialize (IH D1 S1).
    destruct (call_loop _ _ calls w1) as [w' u]. destruct IH as (handled & rest & -> & IH).
    exists (c :: handled), rest. split; [done|]. by rewrite <- app_assoc in IH.
Qed.

(** ** The finally *)

Lemma settle_fields calls w u :
  executed (settle calls w u) = executed w ∧ images (settle calls w u) = images w
  ∧ messages (mail (agent (settle calls w u)))
    = messages (mail (agent w)) ++ user_message (JList (tool_result_block <$> results (settle calls w u))) [] :: images w.
Proof. done. Qed.

Lemma settled_forall2 cs w : settled cs w →
  Forall2 (λ c r, of_name r = name c ∧ tool_use_id r = call_id c) cs (results w).
Proof.
  intros [L R]. apply Forall2_same_length_lookup_2; [done|]. intros j c r Hc Hr.
  destruct (R j c r Hc Hr) as [[] _]. done.
Qed.

(** The results of a finished cycle: a prefix that was handled, and the rest. *)
Record finished (env : nat → CallEnv) (a : AgentInfo) (calls : list Call) (w : Cycle) : Prop := {
  fin_length : length (results w) = length calls;
  fin_records j c r : calls !! j = Some c → results w !! j = Some r → settles c (bool_decide (j ∈ executed w)) r;
  fin_suffix : ∃ n, ∀ j r, results w !! j = Some r → (status r = Not_executed ↔ (n <= j)%nat);
  fin_static : static (agent w) = static a;
  fin_mail : ∃ b, mail_grows (mail a) (mail b)
    ∧ mail (agent w) = mail (append_messages (user_message (JList (tool_result_block <$> results w)) [] :: images w) b);
  fin_dispatched : ∃ w1, executed w1 = executed w ∧ dispatched env a (length calls) w1
}.

(** A list of records extended: each position is in one part. *)
Lemma lookup_app_cases {A} (l k : list A) j x :
  (l ++ k) !! j = Some x → (j < length l)%nat ∧ l !! j = Some x ∨ (length l <= j)%nat ∧ k !! (j - length l)%nat = Some x.
Proof. intros [Hl|[? ?]]%lookup_app_Some; [left|by right]. split; [by eapply lookup_lt_Some|done]. Qed.

Lemma finish_records (ex : list nat) (text : pystr) cs rest rs :
  let out := rs ++ ((λ c, result_record c (Plain text) Not_executed false) <$> rest) in
  length rs = length cs →
  (∀ j c r, cs !! j = Some c → rs !! j = Some r → settles c (bool_decide (j ∈ ex)) r ∧ status r ≠ Not_executed) →
  (∀ j, j ∈ ex → (j < length cs)%nat) →
  length out = length (cs ++ rest)
  ∧ (∀ j c r, (cs ++ rest) !! j = Some c → out !! j = Some r → settles c (bool_decide (j ∈ ex)) r)
  ∧ (∃ n, ∀ j r, out !! j = Some r → (status r = Not_executed ↔ (n <= j)%nat)).
Proof.
  cbn zeta. intros L R B. split_and!.
  - by rewrite !length_app, length_fmap, L.
  - intros j c r [[Hj Hc]|[Hj Hc]]%lookup_app_cases [[Hj' Hr]|[Hj' Hr]]%lookup_app_cases; try lia; [by apply R|].
    rewrite list_lookup_fmap, L in Hr. rewrite Hc in Hr. injection Hr as <-.
    rewrite bool_decide_eq_false_2 by (intros ?%B; lia). apply settles_held_back.
  - exists (length rs). intros j r [[Hj Hr]|[Hj Hr]]%lookup_app_cases.
    + destruct (lookup_lt_is_Some_2 cs j) as [c Hc]; [lia|]. destruct (R j c r Hc Hr). split; [done|lia].
    + apply list_lookup_fmap_Some in Hr as (c & -> & _). split; [done|]. done.
Qed.

Lemma execute_cycle_finished env calls a now w e : execute_cycle env calls a now = (w, e) → finished env a calls w.
Proof.
  unfold execute_cycle. set (w0 := {| agent := a; clock := now; results := []; images := []; executed := [] |}).
  assert (D0 : dispatched env a 0 w0) by (split; cbn; try done; try set_solver; constructor).
  assert (S0 : settled [] w0) by (split; [done|by intros [|j]]).
  pose proof (call_loop_spec env a calls [] w0 D0 S0) as Hl.
  destruct (call_loop env 0 calls w0) as [w1 u] eqn:E. cbn [length] in Hl. rewrite E in Hl.
  destruct Hl as (handled & rest & -> & S1 & Hu). cbn [app] in *. intros [= <- <-].
  set (extra := match interrupted u with Some c => [c] | None => [] end).
  assert (Hx : ∃ rest', rest = extra ++ rest' ∧ dispatched env a (length (handled ++ extra)) w1
                       ∧ (∀ c, interrupted u = Some c → length handled ∈ executed w1)).
  { unfold extra. destruct (interrupted u) as [c|].
    - destruct Hu as (rest' & -> & ? & ?). exists rest'. rewrite length_app, Nat.add_1_r. split; [done|]. by split; [|intros ? [= <-]].
    - exists rest. rewrite app_nil_r. by split_and!. }
  destruct Hx as (rest' & -> & D1 & Hex).
  assert (Hrs : results w1 ++ match interrupted u with Some c => [interrupted_record c] | None => [] end
    = results w1 ++ (interrupted_record <$> extra)) by (unfold extra; by destruct (interrupted u)).
  assert (Hlen : length (results w1 ++ (interrupted_record <$> extra)) = length (handled ++ extra)).
  { by rewrite !length_app, length_fmap, (set_length _ _ S1). }
  destruct (finish_records (executed w1) (not_run_text (cause u)) (handled ++ extra) rest'
              (results w1 ++ (interrupted_record <$> extra)) Hlen) as (F1 & F2 & F3).
  - intros j c r [[Hj Hc]|[Hj Hc]]%lookup_app_cases [[Hj' Hr]|[Hj' Hr]]%lookup_app_cases;
      rewrite ?(set_length _ _ S1) in *; try lia; [by apply S1|].
    rewrite list_lookup_fmap, Hc in Hr. injection Hr as <-. unfold extra in Hc.
    destruct (interrupted u) as [c'|]; [|done]. apply list_lookup_singleton_Some in Hc as [Hj0 ->].
    replace j with (length handled) by lia. rewrite bool_decide_eq_true_2 by (by apply (Hex c)).
    split; [apply settles_interrupted|]. unfold interrupted_record. by destruct (is_wait (name c)).
  - apply D1.
  - rewrite app_assoc.
    assert (Hres : results (settle ((handled ++ extra) ++ rest') w1 u) = (results w1 ++ (interrupted_record <$> extra))
              ++ ((λ c, result_record c (Plain (not_run_text (cause u))) Not_executed false) <$> rest')).
    { unfold settle. cbn [results]. rewrite Hrs, Hlen, drop_app_length. done. }
    split; rewrite ?Hres; try done.
    + apply (dis_static _ _ _ _ D1).
    + exists (agent w1). split; [apply D1|]. rewrite <- Hres. done.
    + exists w1. split; [done|]. eapply dispatched_at; [exact D1|]. intros j ?%(dis_below _ _ _ _ D1). rewrite length_app. lia.
Qed.

(** ** The repetition guard *)

(** The number of equal, nonempty fingerprints at the head of a list. *)
Fixpoint run_of (f : pystr) (fs : list pystr) : nat :=
  match fs with
  | g :: fs => if decide (f = g) then S (run_of f fs) else 0
  | [] => 0
  end.

Definition streak (latest_first : list pystr) : nat :=
  match latest_first with
  | f :: fs => if nonempty f then S (run_of f fs) else 0
  | [] => 0
  end.

Definition verdict (n : nat) : RepeatAction :=
  if (n =? 3)%nat then Nudge else if (3 <? n)%nat then Stop_repeating else No_action.

(** The guard over a sequence of cycles, the latest first. *)
Fixpoint observe_all `{Codec} (cycles : list (list Call * list CallResult)) : option (RepetitionGuard * RepeatAction) :=
  match cycles with
  | [] => Some (new_guard, No_action)
  | (calls, rs) :: cycles => '(g, _) ← observe_all cycles; observe calls rs g
  end.

Definition prints_of `{Codec} (cycles : list (list Call * list CallResult)) : option (list pystr) :=
  mapM (λ x, fingerprint_of <$> pairs_of x.1 x.2) cycles.

Lemma pairs_of_total calls rs : length rs = length calls → is_Some (pairs_of calls rs).
Proof.
  revert rs. induction calls as [|c calls IH]; intros [|r rs]; cbn; try done; intros [= E].
  destruct (IH rs E) as [ps ->]. by eexists.
Qed.

Lemma step_guard_streak f fs g :
  fingerprint g = default [] (head fs) → repeats g = streak fs →
  step_guard f g = ({| fingerprint := f; repeats := streak (f :: fs) |}, verdict (streak (f :: fs))).
Proof.
  intros Hf Hr. unfold step_guard, streak at 1 2. fold streak. rewrite Hf, Hr.
  destruct (nonempty f) eqn:Ef; [|done]. cbn [andb]. destruct fs as [|h fs]; cbn [head default run_of].
  - rewrite bool_decide_eq_false_2; [done|]. by intros ->.
  - destruct (decide (f = h)) as [ ->|Hn]; [|by rewrite bool_decide_eq_false_2].
    rewrite bool_decide_eq_true_2 by done. cbn [streak]. by rewrite Ef.
Qed.

Lemma observe_all_streak `{Codec} cycles :
  Forall (λ x, length x.2 = length x.1) cycles →
  ∃ fs, prints_of cycles = Some fs ∧
    observe_all cycles = Some ({| fingerprint := default [] (head fs); repeats := streak fs |}, verdict (streak fs)).
Proof.
  induction 1 as [|[calls rs] cycles Hl _ (fs & Hp & Ho)]; [by exists []|].
  destruct (pairs_of_total calls rs Hl) as [ps Hps].
  exists (fingerprint_of ps :: fs). unfold prints_of in *. cbn [mapM fst snd]. rewrite Hps, Hp. split; [done|].
  cbn [observe_all]. rewrite Ho. cbn [mbind option_bind]. unfold observe. rewrite Hps. cbn [mbind option_bind].
  by erewrite step_guard_streak.
Qed.

(** ** Properties *)


(** C31: A call is dispatched only while the agent is neither stopped, expired nor
    addressed by its parent: at the dispatch the inbox is empty, no kill is pending and the
    lifetime is not over, and nothing at all is dispatched after a call during which a
    message or a kill arrived.  Calls are dispatched in order, each at most once. *)
Theorem nothing_dispatched_after_a_message env calls a now w e :
  execute_cycle env calls a now = (w, e) →
  StronglySorted lt (executed w)
  ∧ ∀ j, j ∈ executed w →
      (j < length calls)%nat ∧ cancel_event a = false ∧ inbox (mail a) = []
      ∧ stop (until_dispatch (env j)) = false ∧ sent (until_dispatch (env j)) = []
      ∧ later (until_dispatch (env j)) < created_at (base a) + max_lifetime (base a)
      ∧ ∀ i, i ∈ executed w → (i < j)%nat → stop (until_end (env i)) = false ∧ sent (until_end (env i)) = [].
Proof.
  intros F%execute_cycle_finished. destruct (fin_dispatched _ _ _ _ F) as (w1 & <- & [? ? Hb Hs _ Hn _ Ho]).
  split; [done|]. intros j Hj. destruct (Hn j Hj) as ([? ?] & [? ?] & ?).
  split_and!; try done; [by apply Hb|]. intros i Hi Hij. by apply (Ho i j).
Qed.

(** The repetition guard, fed with finished cycles, never raises, nudges exactly when
    the last three cycles had the same nonempty evidence, stops from the fourth on, and
    a cycle without evidence (only waits and calls that were not run) resets it. *)
Theorem guard_stops_on_streaks `{Codec} (cycles : list (list Call * list CallResult)) :
  Forall (λ x, ∃ env a now w e, execute_cycle env x.1 a now = (w, e) ∧ x.2 = results w) cycles →
  ∃ prints, prints_of cycles = Some prints ∧
    observe_all cycles = Some ({| fingerprint := default [] (head prints); repeats := streak prints |},
                               verdict (streak prints)).
Proof.
  intros F. apply observe_all_streak. eapply Forall_impl; [exact F|].
  intros x (env & a & now & w & e & E%execute_cycle_finished & ->). apply E.
Qed.

End theory.

Module CycleWitness.
Import ReportsWitness Concrete.

(** Outputs as they are; no images. *)
#[export] Instance plain_tool_text : ToolText :=
  {| scrub_text s := s; deliver s _ _ := Plain s; is_error_result s := startswith (lit "Error") s;
     evidence_digest := digest_of; image_evidence_digest s _ := s;
     show_seconds _ := lit "t" |}.

Definition worker : AgentInfo :=
  new_agent {| id := lit "a"; label := lit "w"; goal := lit "g"; channel_id := lit "c"; requester_id := lit "u";
               created_at := 0; iteration_timeout := 10; max_lifetime := 100; max_iterations := 5; max_children := 3;
               max_depth := 1; root_id := lit "a"; depth := 0; parent_id := []; turn_id := None; report_to := None |} (lit "i").

Definition shell (i : string) : Call :=
  {| call_id := lit i; name := lit "run_command"; input := JStr (lit "ls"); parse_error := []; replay := None |}.

Definition calm (t : Z) : Arrival := {| sent := []; stop := false; later := t |}.

(** The first call succeeds; a message arrives during the second, which raises. *)
Definition env (k : nat) : CallEnv :=
  {| admitted_at := Z.of_nat k; timeout := Some 9; until_dispatch := calm (Z.of_nat k); dispatch := Proceeds;
     until_end := {| sent := if (k =? 1)%nat then [lit "stop that"] else []; stop := false; later := Z.of_nat k |};
     running := if (k =? 0)%nat then Returned (Text (Plain (lit "fine")) false) else Raised (lit "lost") |}.

Definition three : list Call := [shell "1"; shell "2"; shell "3"].
Definition ran_three : Cycle := (execute_cycle env three worker 0).1.

Example three_statuses :
  (status <$> results ran_three) = [Succeeded; Outcome_unknown; Not_executed] ∧ executed ran_three = [0; 1]%nat
  ∧ (uncertain_outcome <$> results ran_three) = [false; true; false].
Proof. by vm_compute. Qed.


Lemma nothing_dispatched_after_a_message_witness :
  executed ran_three = [0; 1]%nat ∧ ∀ j, j ∈ executed ran_three → (j < 3)%nat ∧ later (until_dispatch (env j)) < 100.
Proof.
  split; [apply three_statuses|]. intros j Hj.
  destruct (nothing_dispatched_after_a_message env three worker 0 ran_three (execute_cycle env three worker 0).2) as [_ Hd].
  - unfold ran_three. by destruct (execute_cycle env three worker 0).
  - split; by apply (Hd j Hj).
Defined.

(** Four cycles with the same failing call. *)
Definition lost (k : nat) : CallEnv :=
  {| admitted_at := 0; timeout := Some 9; until_dispatch := calm 0; dispatch := Proceeds; until_end := calm 1;
     running := Raised (lit "lost") |}.
Definition again (i : string) : list Call * list CallResult :=
  ([shell i], results (execute_cycle lost [shell i] worker 0).1).
Definition four : list (list Call * list CallResult) := [again "4"; again "3"; again "2"; again "1"].

Lemma guard_stops_on_streaks_witness :
  (snd <$> observe_all four) = Some Stop_repeating ∧ (snd <$> observe_all (drop 1 four)) = Some Nudge
  ∧ is_Some (prints_of four).
Proof.
  split; [by vm_compute|]. split; [by vm_compute|].
  destruct (guard_stops_on_streaks four) as (fs & -> & _); [|by eexists].
  repeat constructor; (eexists lost, worker, 0, _, _; split; [apply surjective_pairing|done]).
Defined.

End CycleWitness.
