(* ===== verification/Compress.v ===== *)
(** * Context compression (src/src/llm/context_compressor.py, retained_output.py)

    The character estimate of a transcript, its split into a prefix and tool iterations,
    the soft pass, and the emergency pass that bounds a whole payload, for agents and for
    surfaces that declare their request.

    [None] is an exception: a ValueError of [json.loads] on the related part of a retained
    output, or the IndexError of [kept[-1]]. *)

From S2P Require Import Prelude PyStr PyLib Transcript.
Open Scope string_scope.
Open Scope list_scope.
Open Scope Z_scope.

(** Texts of other modules: why a result failed (src/src/tools/tool_text.py; the empty text
    is None), and [str(v)] of a value that is not a string. *)
Class Rendering := { failure_reason : pystr → pystr; str_of : Json → pystr }.

Definition DEFAULT_MAX_CONTEXT_CHARS : Z := 750000.
Definition DEFAULT_KEEP_RECENT : Z := 30.
Definition COMPRESSED_ITERATION_MAX_CHARS : nat := 120.
Definition EMERGENCY_SINGLE_RESULT_SHARE : Z := 3.
Definition EMERGENCY_SUMMARY_MAX : Z := 20000.
Definition EMERGENCY_SUMMARY_PREFIX : pystr := lit "[Emergency context compression - earlier tool calls: ".
Definition EMERGENCY_SUMMARY_SUFFIX : pystr := lit "]".

Definition len {A : Type} (l : list A) : Z := Z.of_nat (length l).

(** [sep.join(ws)] for a longer separator. *)
Fixpoint join_with (sep : pystr) (ws : list pystr) : pystr :=
  match ws with [] => [] | [w] => w | w :: ws => w ++ sep ++ join_with sep ws end.

Definition take_z {A : Type} (n : Z) (l : list A) : list A := take (Z.to_nat n) l.

(** ** Classification *)

Definition is_injected_directive (m : Json) : bool :=
  match str_field m "provenance" with
  | Some p => bool_decide (p = lit "agent_parent") || bool_decide (p = lit "human_steer")
  | None => false
  end.

Definition is_tool_block (b : Json) : bool := has_type b "tool_use" || has_type b "tool_result".
Definition legacy_result (s : pystr) : bool := startswith (lit "[Tool result:") s.

Definition is_tool_message (m : Json) : bool :=
  negb (is_injected_directive m) &&
  match field m "content" with
  | Some (JList bs) => existsb is_tool_block bs
  | Some (JStr s) => legacy_result s
  | _ => false
  end.

Definition is_tool_use_message (m : Json) : bool := existsb (λ b, has_type b "tool_use") (blocks_of m).

Definition is_tool_result_message (m : Json) : bool :=
  negb (is_injected_directive m) &&
  match field m "content" with
  | Some (JList bs) => existsb (λ b, has_type b "tool_result") bs
  | Some (JStr s) => legacy_result s
  | _ => false
  end.

(** ** Prefix and iterations *)

Fixpoint prefix_end (ms : list Json) : nat :=
  match ms with
  | [] => 0
  | m :: rest =>
      if is_tool_message m then 0
      else if has_role m "assistant" && match rest with n :: _ => is_tool_result_message n | [] => false end then 0
      else S (prefix_end rest)
  end.

Definition is_boundary (m : Json) : bool :=
  is_tool_use_message m
  || (has_role m "assistant" && match field m "content" with Some (JStr _) | None => true | _ => false end).

Fixpoint group_from (current : list Json) (ms : list Json) : list (list Json) :=
  match ms with
  | [] => match current with [] => [] | _ => [current] end
  | m :: ms =>
      if is_boundary m then match current with [] => group_from [m] ms | _ => current :: group_from [m] ms end
      else group_from (current ++ [m]) ms
  end.

(** [_group_iterations] *)
Definition group_iterations (ms : list Json) : list (list Json) := group_from [] ms.

Definition split_prefix_and_iterations (ms : list Json) : list Json * list (list Json) :=
  (take (prefix_end ms) ms, group_iterations (drop (prefix_end ms) ms)).

(** [_structural_envelope_end] *)
Fixpoint structural_envelope_end (ms : list Json) : nat :=
  match ms with
  | [] => 0
  | m :: ms => if existsb is_tool_block (blocks_of m) then 0 else S (structural_envelope_end ms)
  end.

(** ** Estimates *)

(** A block that reaches the wire as an image. *)
Definition is_image (b : Json) : bool :=
  has_type b "image" &&
  match field b "source" with
  | Some src => has_type src "base64" && match str_field src "data" with Some d => nonempty d | None => false end
  | None => false
  end.

Definition estimate_message_images (ms : list Json) : Z :=
  foldr (λ m n, len (List.filter is_image (blocks_of m)) + n) 0 ms.

Definition COUNTED_BLOCK_KEYS : list string := ["text"; "content"; "input"; "arguments"; "reasoning_content"].
Definition ELIDABLE_BLOCK_KEYS : list string := ["text"; "content"; "input"; "arguments"].

Definition sumZ {A : Type} (f : A → Z) (l : list A) : Z := foldr (λ x n, f x + n) 0 l.

Section compress.
Context `{Codec, Rendering}.

Definition value_chars (v : option Json) : Z :=
  match v with Some (JStr s) => len s | Some (JDict _ as d) => len (dumps d) | _ => 0 end.

Definition key_chars (b : Json) (k : string) : Z :=
  if bool_decide (k = "input") && has_type b "tool_use" then
    match codex_arguments b with Some a => len a | None => value_chars (field b k) end
  else value_chars (field b k).

Definition is_dict (b : Json) : bool := match b with JDict _ => true | _ => false end.

Definition block_chars (b : Json) : Z :=
  if is_dict b then
    (if has_type b "tool_result" then match field b "content" with Some (JList _ as l) => len (dumps l) | _ => 0 end else 0)
    + sumZ (key_chars b) COUNTED_BLOCK_KEYS
  else 0.

Definition message_chars (m : Json) : Z :=
  match field m "content" with
  | Some (JStr s) => len s
  | Some (JList bs) => sumZ block_chars bs
  | _ => 0
  end + len (default [] (str_field m "role")).

(** [estimate_message_chars] *)
Definition estimate_message_chars (ms : list Json) : Z := sumZ message_chars ms.

(** ** Summaries *)

Definition ERROR_PREFIXES : list string :=
  ["Error"; "error"; "ERROR"; "Command failed"; "Timeout"; "Permission denied"; "Unknown tool"].

Definition failure_label (r : pystr) : pystr := lit "ERR (" ++ or_text (failure_reason r) (lit "error") ++ lit ")".

Definition outcome_from_text (r : pystr) : pystr :=
  if nonempty (failure_reason r) || existsb (λ p, startswith (lit p) r) ERROR_PREFIXES then failure_label r else lit "OK".

Definition text_of (v : Json) : pystr := match v with JStr s => s | v => str_of v end.

(** [s.find("]")] as a position, if there is one. *)
Fixpoint find_char (c : Z) (s : pystr) : option nat :=
  match s with [] => None | x :: s => if x =? c then Some 0%nat else S <$> find_char c s end.

Record Summary : Type := {
  calls : list (pystr * option pystr);
  by_id : list (pystr * pystr);
  unkeyed : list pystr
}.

Definition result_text (v : Json) : pystr :=
  match v with
  | JList bs => PyStr.join 32 (omap (λ b, if has_type b "text" then Some (default [] (str_field b "text")) else None) bs)
  | v => text_of v
  end.

Definition outcome_of (b : Json) : pystr :=
  let r := result_text (default (JStr []) (field b "content")) in
  match field b "status" with
  | Some v => if truthy v then text_of v
              else match field b "is_error" with
                   | Some e => if truthy e then failure_label r else lit "OK"
                   | None => outcome_from_text r
                   end
  | None => match field b "is_error" with
            | Some e => if truthy e then failure_label r else lit "OK"
            | None => outcome_from_text r
            end
  end.

Definition keyed (o : option pystr) : option pystr := match o with Some ((_ :: _) as i) => Some i | _ => None end.

Definition summarize_block (s : Summary) (b : Json) : Summary :=
  if has_type b "tool_use" then
    {| calls := calls s ++ [(text_of (default (JStr (lit "?")) (field b "name")), keyed (str_field b "id"))];
       by_id := by_id s; unkeyed := unkeyed s |}
  else if has_type b "tool_result" then
    match keyed (str_field b "tool_use_id") with
    | Some i => {| calls := calls s; by_id := dict_set (by_id s) i (outcome_of b); unkeyed := unkeyed s |}
    | None => {| calls := calls s; by_id := by_id s; unkeyed := unkeyed s ++ [outcome_of b] |}
    end
  else s.

(** The legacy form [[Tool result: name]] of a string message. *)
Definition summarize_legacy (s : Summary) (t : pystr) : Summary :=
  let name := match find_char 93 t with
              | Some e => if (14 <? e)%nat then [(strip (drop 14 (take e t)), None)] else []
              | None => []
              end in
  let body := match find_char 93 t with Some (S e) => strip (drop (S (S e)) t) | _ => t end in
  {| calls := calls s ++ name; by_id := by_id s; unkeyed := unkeyed s ++ [outcome_from_text body] |}.

Definition summarize_message (s : Summary) (m : Json) : Summary :=
  if is_injected_directive m then s
  else match field m "content" with
       | Some (JList bs) => foldl summarize_block s bs
       | Some (JStr t) => if legacy_result t then summarize_legacy s t else s
       | _ => s
       end.

Definition ARROW : Z := 8594.

Fixpoint outcome_parts (by_id : list (pystr * pystr)) (unkeyed : list pystr) (cs : list (pystr * option pystr)) : list pystr :=
  match cs with
  | [] => []
  | (n, Some i) :: cs => (n ++ ARROW :: default (lit "?") (dict_get by_id i)) :: outcome_parts by_id unkeyed cs
  | (n, None) :: cs =>
      match unkeyed with
      | o :: unkeyed => (n ++ ARROW :: o) :: outcome_parts by_id unkeyed cs
      | [] => (n ++ ARROW :: lit "?") :: outcome_parts by_id [] cs
      end
  end.

Definition summarize_iteration (it : list Json) : pystr :=
  let s := foldl summarize_message {| calls := []; by_id := []; unkeyed := [] |} it in
  let t := join_with (lit ", ") (outcome_parts (by_id s) (unkeyed s) (calls s)) in
  if (COMPRESSED_ITERATION_MAX_CHARS <? length t)%nat
  then take (COMPRESSED_ITERATION_MAX_CHARS - 3) t ++ lit "..." else t.

(** ** The soft pass *)

(** A surface declares where its request starts, what was elided before it, and, if it
    likes, how long the protected envelope is. *)
Record SurfaceBoundary : Type := { request_start : Z; elided_replay : Z; envelope_len : option Z }.

Definition clamp (z : Z) {A : Type} (l : list A) : nat := Z.to_nat (Z.max 0 (Z.min z (len l))).

Definition envelope_of (b : SurfaceBoundary) (rest : list Json) : nat :=
  match envelope_len b with Some n => clamp n rest | None => structural_envelope_end rest end.

Definition soft_split (ms : list Json) (b : option SurfaceBoundary) : list Json * list (list Json) :=
  match b with
  | None => split_prefix_and_iterations ms
  | Some b =>
      let start := clamp (request_start b) ms in
      let stop := (start + envelope_of b (drop start ms))%nat in
      (take stop ms, group_iterations (drop stop ms))
  end.

Definition user_text (s : pystr) : Json := JDict [(lit "role", JStr (lit "user")); (lit "content", JStr s)].

(** [compress_tool_context]: the messages and the number of compressed iterations. *)
Definition compress_tool_context (ms : list Json) (max_context_chars keep_recent : Z) (b : option SurfaceBoundary)
    : list Json * nat :=
  if estimate_message_chars ms <=? max_context_chars then (ms, 0%nat)
  else
    let '(prefix, its) := soft_split ms b in
    let keep := Z.to_nat (Z.max 1 keep_recent) in
    if (length its <=? keep)%nat then (ms, 0%nat)
    else
      let n := (length its - keep)%nat in
      let summary := lit "[Earlier tool calls: " ++ join_with (lit "; ") (summarize_iteration <$> take n its) ++ lit "]" in
      (prefix ++ [user_text summary] ++ List.filter is_injected_directive (mjoin (take n its)) ++ mjoin (drop n its), n).

(** ** Elision *)

(** [int(keep * 0.7)] in binary64: the product is rounded to 53 bits, to even. *)
Definition round_53 (m : Z) : Z :=
  let shift := Z.max 0 (Z.log2 m - 52) in
  let q := Z.shiftr m shift in
  let r := m - Z.shiftl q shift in
  let half := Z.shiftl 1 shift in
  let up := (half <? 2 * r) || ((2 * r =? half) && Z.odd q && (0 <? shift)) in
  Z.shiftl (if up then q + 1 else q) shift.

Definition seven_tenths (keep : Z) : Z := Z.shiftr (round_53 (keep * 6305039478318694)) 53.

Definition elision_marker (elided : Z) : pystr :=
  [LF] ++ lit "...[emergency truncation: " ++ show elided ++ lit " chars elided]..." ++ [LF].

Definition last_chars (n : Z) (s : pystr) : pystr := drop (Z.to_nat (len s - n)) s.

Definition elision (s : pystr) (keep : Z) : pystr :=
  let head := seven_tenths keep in
  let tail := keep - head in
  take_z head s ++ elision_marker (len s - keep) ++ (if tail =? 0 then [] else last_chars tail s).

(** The search of [_elide_string]; [None] when the fuel runs out. *)
Fixpoint elide_search (fuel : nat) (s : pystr) (limit lo hi : Z) (best : pystr) : option pystr :=
  match fuel with
  | O => None
  | S fuel =>
      if hi <? lo then Some best
      else
        let keep := (lo + hi) / 2 in
        if len (elision s keep) <=? limit then elide_search fuel s limit (keep + 1) hi (elision s keep)
        else elide_search fuel s limit lo (keep - 1) best
  end.

Definition compact_elision (s : pystr) (limit : Z) : pystr :=
  take_z limit (lit "...[" ++ show (len s) ++ lit " chars elided]...").

Definition elide_string (s : pystr) (limit : Z) : pystr :=
  let limit := Z.max 0 limit in
  match elide_search (S (length s)) s limit 0 (len s - 1) [] with
  | Some ((_ :: _) as best) => best
  | _ => compact_elision s limit
  end.

(** ** Retained outputs *)

Definition RETENTION : pystr := [LF] ++ lit "[output retention] ".

(** [s.rsplit(sep, 1)] when [sep] occurs in [s]. *)
Fixpoint rsplit (sep s : pystr) : option (pystr * pystr) :=
  match s with
  | [] => None
  | c :: s' =>
      match rsplit sep s' with
      | Some (a, b) => Some (c :: a, b)
      | None => if startswith sep s then Some ([], drop (length sep) s) else None
      end
  end.

Definition kind_is (v : Json) (k : string) : bool := bool_decide (str_field v "kind" = Some (lit k)).

Definition get_tool_output_cursor (v : Json) : option Json :=
  match field v "result_id", field v "start" with
  | Some (JStr i), Some (JInt n) =>
      if n <? 0 then None
      else Some (JDict [(lit "tool", JStr (lit "get_tool_output"));
                        (lit "arguments", JDict [(lit "cursor", JStr (i ++ lit ":" ++ show n))])])
  | _, _ => None
  end.

(** How the removed preview is retrieved; [None] when the value is no envelope. *)
Definition retrieval_of (v : Json) : option Json :=
  if (kind_is v "tool_output" || kind_is v "tool_attachment_page")
     && bool_decide (str_field v "retention" = Some (lit "retained"))
  then get_tool_output_cursor v
  else if kind_is v "process_output" then
    match field v "generation", field v "pid" with
    | Some (JStr g), Some (JInt pid) =>
        Some (JDict [(lit "tool", JStr (lit "manage_process"));
                     (lit "arguments", JDict [(lit "action", JStr (lit "poll")); (lit "pid", JInt pid);
                                              (lit "cursor", JStr (g ++ lit ":0"))])])
    | _, _ => None
    end
  else if forallb (λ k, bool_decide (is_Some (field v k))) ["id"; "preview"; "original_bytes"; "result_bytes"; "error_bytes"] then
    match field v "id" with
    | Some (JStr i) => Some (JDict [(lit "tool", JStr (lit "get_agent_results"));
                                    (lit "arguments", JDict [(lit "agent_id", JStr i)])])
    | _ => None
    end
  else None.

Definition envelope (v retrieval : Json) (related : option Json) : Json :=
  JDict ([(lit "kind", JStr (lit "tool_output_compacted")); (lit "status", default (JStr (lit "unknown")) (field v "status"));
          (lit "notice", JStr (lit "Preview removed by context compression; retrieve retained evidence."));
          (lit "retrieval", retrieval)]
         ++ match field v "expires_at" with Some e => if truthy e then [(lit "expires_at", e)] else [] | None => [] end
         ++ match field v "exit_code" with Some JNull | None => [] | Some e => [(lit "exit_code", e)] end
         ++ match related with Some r => [(lit "related_retained_output", r)] | None => [] end).

(** As an attachment page that starts at 0. *)
Definition rewound (v : Json) : Json :=
  match v with
  | JDict kvs => if kind_is v "tool_attachment_manifest"
                 then JDict (dict_set (dict_set kvs (lit "kind") (JStr (lit "tool_output"))) (lit "start") (JInt 0)) else v
  | v => v
  end.

(** [compact_retained_output] on a text whose retained part is [source] and whose related
    part, if any, is [related]; the outer [None] is the ValueError of its last [loads]. *)
Definition compact_source (text source : pystr) (related : option pystr) : option (option pystr) :=
  match loads source with
  | Some (JDict kvs) =>
      let v := JDict kvs in
      if kind_is v "tool_output_compacted" then Some (Some text)
      else match retrieval_of (rewound v) with
           | None => Some None
           | Some r =>
               match related with
               | None => Some (Some (dumps_compact (envelope (rewound v) r None)))
               | Some t => match loads t with
                           | Some w => Some (Some (dumps_compact (envelope (rewound v) r (Some w))))
                           | None => None
                           end
               end
           end
  | _ => Some None
  end.

Definition compact_retained_output (text : pystr) : option (option pystr) :=
  match rsplit RETENTION text with
  | None => compact_source text text None
  | Some (body, source) =>
      related ← compact_source body (match rsplit RETENTION body with Some (_, s) => s | None => body end) None;
      compact_source text source related
  end.

(** ** Truncation of one iteration *)

(** A payload string: the message, the block in it unless it is the content itself, the key. *)
Record Slot : Type := { slot_message : nat; slot_block : option nat; slot_key : pystr; slot_text : pystr }.

Definition set_field (v : Json) (k : pystr) (x : Json) : Json :=
  match v with JDict kvs => JDict (dict_set kvs k x) | v => v end.

Definition block_slots (i j : nat) (b : Json) : list Slot :=
  if is_dict b && negb (has_type b "tool_use") then
    omap (λ k, match str_field b k with
               | Some s => Some {| slot_message := i; slot_block := Some j; slot_key := lit k; slot_text := s |}
               | None => None
               end) ELIDABLE_BLOCK_KEYS
  else [].

Definition message_slots (i : nat) (m : Json) : list Slot :=
  if is_injected_directive m then []
  else match field m "content" with
       | Some (JStr s) => [{| slot_message := i; slot_block := None; slot_key := lit "content"; slot_text := s |}]
       | None => [{| slot_message := i; slot_block := None; slot_key := lit "content"; slot_text := [] |}]
       | Some (JList bs) => mjoin (imap (block_slots i) bs)
       | _ => []
       end.

Definition slots_of (it : list Json) : list Slot := mjoin (imap message_slots it).

(** [strings.sort(key=len, reverse=True)], which is stable. *)
Fixpoint insert_slot (x : Slot) (l : list Slot) : list Slot :=
  match l with
  | [] => [x]
  | y :: l => if (length (slot_text y) <=? length (slot_text x))%nat then x :: y :: l else y :: insert_slot x l
  end.

Definition sort_slots (l : list Slot) : list Slot := foldr insert_slot [] l.

Definition set_block (j : nat) (k : pystr) (x : pystr) (m : Json) : Json :=
  set_field m (lit "content") (JList (alter (λ b, set_field b k (JStr x)) j (blocks_of m))).

Definition set_slot (s : Slot) (x : pystr) (it : list Json) : list Json :=
  alter (λ m, match slot_block s with
              | None => set_field m (slot_key s) (JStr x)
              | Some j => set_block j (slot_key s) x m
              end) (slot_message s) it.

(** What a payload becomes when the iteration is [overshoot] characters too long. *)
Definition shrunk (t : pystr) (overshoot : Z) : option pystr :=
  r ← compact_retained_output t;
  Some match r with
       | Some c => if len c <? len t then c else t
       | None => elide_string t (Z.max 0 (len t - overshoot))
       end.

Fixpoint shrink_slots (max_chars : Z) (ss : list Slot) (it : list Json) : option (list Json) :=
  match ss with
  | [] => Some it
  | s :: ss =>
      let now := estimate_message_chars it in
      if now <=? max_chars then Some it
      else x ← shrunk (slot_text s) (now - max_chars); shrink_slots max_chars ss (set_slot s x it)
  end.

(** [_truncate_iteration]: the iteration and the characters it lost. *)
Definition truncate_iteration (it : list Json) (max_chars : Z) : option (list Json * Z) :=
  if estimate_message_chars it <=? max_chars then Some (it, 0)
  else
    work ← shrink_slots max_chars (sort_slots (slots_of it)) it;
    Some (work, Z.max 0 (estimate_message_chars it - estimate_message_chars work)).

Definition preserved_reasoning_chars (it : list Json) : Z :=
  sumZ (λ m, sumZ (λ b, if has_type b "reasoning_content" then len (default [] (str_field b "reasoning_content")) else 0)
               (blocks_of m)) it.

(** ** The emergency pass *)

Definition is_emergency_summary (m : Json) : bool :=
  has_role m "user" && negb (is_injected_directive m) &&
  match field m "content" with
  | Some (JStr s) => startswith EMERGENCY_SUMMARY_PREFIX s && endswith EMERGENCY_SUMMARY_SUFFIX s
  | _ => false
  end.

Definition emergency_summary_body (m : Json) : pystr :=
  match field m "content" with
  | Some (JStr s) =>
      if startswith EMERGENCY_SUMMARY_PREFIX s && endswith EMERGENCY_SUMMARY_SUFFIX s
      then drop (length EMERGENCY_SUMMARY_PREFIX) (take (length s - length EMERGENCY_SUMMARY_SUFFIX) s)
      else s
  | _ => []
  end.

Definition body_of (m : Json) : list pystr :=
  match emergency_summary_body m with [] => [] | b => [b] end.

Record Report : Type := {
  original_chars : Z;
  compressed_chars : Z;
  prefix_chars : Z;
  iterations_total : nat;
  iterations_kept : nat;
  results_truncated : nat;
  chars_elided : Z;
  target_chars : Z;
  fits : bool
}.

(** The payload as the pass sees it. *)
Record Parts : Type := { prefix : list Json; carried : list pystr; iterations : list (list Json) }.

(** The end of the prefix, reversed: summaries come off, directives stay. *)
Fixpoint peel_prefix (rprefix : list Json) : list Json * list Json * list pystr :=
  match rprefix with
  | m :: (_ :: _) as rest =>
      if is_injected_directive m then let '(p, cs, ss) := peel_prefix rest in (p, cs ++ [m], ss)
      else if is_emergency_summary m then let '(p, cs, ss) := peel_prefix rest in (p, cs, ss ++ body_of m)
      else (rprefix, [], [])
  | _ => (rprefix, [], [])
  end.

Fixpoint peel_territory (ms : list Json) : list pystr * list Json :=
  match ms with
  | m :: rest => if is_emergency_summary m then let '(ss, ms) := peel_territory rest in (body_of m ++ ss, ms) else ([], ms)
  | [] => ([], [])
  end.

Definition agent_parts (ms : list Json) : Parts :=
  let '(raw, its) := split_prefix_and_iterations ms in
  let '(p, controls, ss) := peel_prefix (rev raw) in
  {| prefix := rev p ++ controls; carried := ss; iterations := its |}.

Definition pinned_parts (pin : Z) (ms : list Json) : Parts :=
  let '(ss, territory) := peel_territory (drop (clamp pin ms) ms) in
  {| prefix := take (clamp pin ms) ms; carried := ss; iterations := group_iterations territory |}.

(** Directives between cycles join the prefix. *)
Definition hoist_controls (p : Parts) : Parts :=
  match List.filter is_injected_directive (mjoin (iterations p)) with
  | [] => p
  | controls =>
      {| prefix := prefix p ++ controls; carried := carried p;
         iterations := List.filter (λ it, match it with [] => false | _ => true end)
                         (List.filter (λ m, negb (is_injected_directive m)) <$> iterations p) |}
  end.

Definition parts_of (pin : option Z) (ms : list Json) : Parts :=
  hoist_controls (match pin with Some n => pinned_parts n ms | None => agent_parts ms end).

(** The newest summaries that fit, in order; [more] says that newer ones were kept. *)
Fixpoint newest_summaries (budget used : Z) (more : bool) (rev_summaries : list pystr) : list pystr :=
  match rev_summaries with
  | [] => []
  | s :: rest =>
      let extra := len s + (if more then 2 else 0) in
      if budget <? used + extra then [] else newest_summaries budget (used + extra) true rest ++ [s]
  end.

(** The kept ones behind a count of the others, dropping the oldest until it fits. *)
Fixpoint collapse (budget : Z) (elided : nat) (kept : list pystr) : pystr :=
  let label := show (Z.of_nat elided) ++ lit " earlier iterations elided" in
  let candidate := match kept with [] => label | _ => label ++ lit "; " ++ join_with (lit "; ") kept end in
  match kept with
  | [] => candidate
  | _ :: rest => if budget <? len candidate then collapse budget (S elided) rest else candidate
  end.

(** [_summary_message] *)
Definition summary_text (budget : Z) (ss : list pystr) : pystr :=
  let t := join_with (lit "; ") ss in
  if len t <=? budget then t
  else let kept := newest_summaries budget 0 false (rev ss) in
       take_z budget (collapse budget (length ss - length kept) kept).

Definition summary_message (carried : list pystr) (older : list (list Json)) (max_content_chars : Z) : option Json :=
  let ss := carried ++ (summarize_iteration <$> older) in
  let budget := Z.min max_content_chars EMERGENCY_SUMMARY_MAX
                - (len EMERGENCY_SUMMARY_PREFIX + len EMERGENCY_SUMMARY_SUFFIX) in
  if bool_decide (ss = []) || (max_content_chars <=? 0) || (budget <=? 0) then None
  else Some (user_text (EMERGENCY_SUMMARY_PREFIX ++ summary_text budget ss ++ EMERGENCY_SUMMARY_SUFFIX)).

(** [_assemble]: the payload that keeps the last iterations, as [kept], and the summary. *)
Definition summary_for (p : Parts) (kept : list (list Json)) (limit : Z) : option Json :=
  summary_message (carried p) (take (length (iterations p) - length kept) (iterations p)) limit.

Definition payload (p : Parts) (summary : option Json) (kept : list (list Json)) : list Json :=
  prefix p ++ option_list summary ++ mjoin kept.

Definition assemble (p : Parts) (kept : list (list Json)) : list Json :=
  payload p (summary_for p kept EMERGENCY_SUMMARY_MAX) kept.

Record Kept : Type := { kept : list (list Json); used : Z; truncated : nat; elided : Z }.

Definition note_truncation (e : Z) (k : Kept) : Kept :=
  if e =? 0 then k else {| kept := kept k; used := used k; truncated := S (truncated k); elided := elided k + e |}.

Definition truncate_over (it : list Json) (limit : Z) : option (list Json * Z) :=
  if limit <? estimate_message_chars it then truncate_iteration it limit else Some (it, 0).

(** The retained iterations, newest first; each at most a share, the newest whatever it takes. *)
Fixpoint keep_newest (budget : Z) (rev_its : list (list Json)) (k : Kept) : option Kept :=
  match rev_its with
  | [] => Some k
  | it :: rest =>
      '(it, e) ← truncate_over it (Z.max (budget / EMERGENCY_SINGLE_RESULT_SHARE) 2000 + preserved_reasoning_chars it);
      let k := note_truncation e k in
      let size := estimate_message_chars it in
      match kept k with
      | _ :: _ =>
          if budget <? used k + size then Some k
          else keep_newest budget rest
                 {| kept := it :: kept k; used := used k + size; truncated := truncated k; elided := elided k |}
      | [] =>
          '(it, e) ← truncate_over it budget;
          let k := note_truncation e k in
          keep_newest budget rest
            {| kept := [it]; used := used k + estimate_message_chars it; truncated := truncated k; elided := elided k |}
      end
  end.

(** Trade the oldest retained iteration into the summary, never the newest. *)
Fixpoint converge (p : Parts) (target : Z) (kept : list (list Json)) : list (list Json) :=
  match kept with
  | _ :: (_ :: _) as rest => if target <? estimate_message_chars (assemble p kept) then converge p target rest else kept
  | _ => kept
  end.

(** The last resort: a shorter summary, then a shorter newest iteration. *)
Definition squeeze (p : Parts) (target : Z) (k : Kept) : option (list Json * Kept) :=
  let summary := summary_for p (kept k) EMERGENCY_SUMMARY_MAX in
  let over := estimate_message_chars (payload p summary (kept k)) - target in
  if over <=? 0 then Some (payload p summary (kept k), k)
  else
    let summary :=
      match summary with
      | Some m => summary_for p (kept k) (Z.max 0 (estimate_message_chars [m] - over))
      | None => None
      end in
    let ms := payload p summary (kept k) in
    if estimate_message_chars ms <=? target then Some (ms, k)
    else
      let base := prefix p ++ option_list summary in
      let budget := target - estimate_message_chars base in
      if budget <? 0 then Some (ms, k)
      else
        newest ← last (kept k);
        '(newest, e) ← truncate_iteration newest budget;
        Some (base ++ newest,
              note_truncation e {| kept := [newest]; used := used k; truncated := truncated k; elided := elided k |}).

Definition report_of (p : Parts) (original target : Z) (compressed : Z) (k : Kept) (fit : bool) : Report :=
  {| original_chars := original; compressed_chars := compressed;
     prefix_chars := estimate_message_chars (prefix p); iterations_total := length (iterations p);
     iterations_kept := length (kept k); results_truncated := truncated k; chars_elided := elided k;
     target_chars := target; fits := fit |}.

Definition nothing_kept : Kept := {| kept := []; used := 0; truncated := 0; elided := 0 |}.

(** [emergency_compress_for_window] without a boundary. *)
Definition emergency_compress (pin : option Z) (ms : list Json) (target : Z) : option (list Json * Report) :=
  let p := parts_of pin ms in
  let original := estimate_message_chars ms in
  let available := target - estimate_message_chars (prefix p) in
  if original <=? target then
    Some (ms, report_of p original target original
                {| kept := iterations p; used := 0; truncated := 0; elided := 0 |} true)
  else if available <=? 0 then Some (ms, report_of p original target original nothing_kept false)
  else
    k ← keep_newest available (rev (iterations p)) nothing_kept;
    let k := {| kept := converge p target (kept k); used := used k; truncated := truncated k; elided := elided k |} in
    '(out, k) ← squeeze p target k;
    let compressed := estimate_message_chars out in
    Some (if compressed <=? target then out else ms,
          report_of p original target compressed k (compressed <=? target)).

(** ** Surfaces with a boundary *)

Definition replay_marker (n : Z) : Json :=
  user_text (lit "[Context recovery: " ++ show n ++ lit " older conversation messages elided]").

Record SurfaceReport : Type := {
  inner : Report;
  whole_original : Z;
  whole_compressed : Z;
  whole_fits : bool;
  replay_original : Z;
  replay_elided : Z;
  boundary_request_start : Z;
  boundary_elided_replay : Z
}.

Definition marker_for (n : Z) : list Json := if 0 <? n then [replay_marker n] else [].

(** The core on the request, with the room the replayed messages leave. *)
Definition inner_pass (pin target : Z) (rest replay : list Json) (elided_total : Z) : option (list Json * Report) :=
  emergency_compress (Some pin) rest
    (Z.max 0 (target - estimate_message_chars (marker_for elided_total ++ replay))).

Record Spent : Type := { replay_left : list Json; spent_total : Z; spent_request : list Json; spent_core : Report }.

(** Spend the oldest replayed messages until the whole fits. *)
Fixpoint spend_replay (pin target : Z) (rest replay : list Json) (elided_total : Z) (request : list Json) (core : Report)
    : option Spent :=
  let whole := marker_for elided_total ++ replay ++ request in
  match replay with
  | [] => Some {| replay_left := []; spent_total := elided_total; spent_request := request; spent_core := core |}
  | _ :: replay' =>
      if estimate_message_chars whole <=? target
      then Some {| replay_left := replay; spent_total := elided_total; spent_request := request; spent_core := core |}
      else
        '(request, core) ← inner_pass pin target rest replay' (elided_total + 1);
        spend_replay pin target rest replay' (elided_total + 1) request core
  end.

(** [_compress_with_boundary] *)
Definition compress_with_boundary (ms : list Json) (target : Z) (b : SurfaceBoundary) : option (list Json * SurfaceReport) :=
  let start := clamp (request_start b) ms in
  let marker := (0 <? elided_replay b) && (0 <? start)%nat in
  let replay := drop (if marker then 1 else 0) (take start ms) in
  let rest := drop start ms in
  let pin := Z.of_nat (envelope_of b rest) in
  '(request, core) ← inner_pass pin target rest replay (elided_replay b);
  s ← spend_replay pin target rest replay (elided_replay b) request core;
  let head := marker_for (spent_total s) ++ replay_left s in
  let whole := head ++ spent_request s in
  let chars := estimate_message_chars whole in
  let ok := (chars <=? target) && fits (spent_core s) in
  let refused := negb ok && negb (fits (spent_core s)) && bool_decide (replay_left s = []) in
  Some (if refused then ms else whole,
        {| inner := spent_core s; whole_original := estimate_message_chars ms;
           whole_compressed := if refused then estimate_message_chars ms else chars; whole_fits := ok;
           replay_original := len replay; replay_elided := spent_total s - elided_replay b;
           boundary_request_start := if refused then request_start b else len head;
           boundary_elided_replay := if refused then elided_replay b else spent_total s |}).

(** ** Counters *)

Record CompressionStats : Type := { compressions : Z; iterations_compressed : Z; chars_saved : Z }.

Definition count_compression (iterations saved : Z) (s : CompressionStats) : CompressionStats :=
  {| compressions := compressions s + 1; iterations_compressed := iterations_compressed s + iterations;
     chars_saved := chars_saved s + Z.max 0 saved |}.

End compress.
