(* ===== verification/CompressTheory.v ===== *)
(** * Theorems about context compression

    Compression bounds the payload or leaves it alone, keeps every directive of a parent
    and the newest tool cycle, and leaves a transcript that still replays. *)

From S2P Require Import Prelude PyStr PyLib Transcript Compress.
Open Scope string_scope.
Open Scope list_scope.
Open Scope Z_scope.

(** ** Messages of the same shape *)

(** Equal but for payload strings: what settling and classification look at. *)
Record same_block (b b' : Json) : Prop := {
  same_type : str_field b' "type" = str_field b "type";
  same_id : str_field b' "id" = str_field b "id";
  same_use_id : str_field b' "tool_use_id" = str_field b "tool_use_id";
  same_source : field b' "source" = field b "source"
}.

Definition list_content (m : Json) : option (list Json) :=
  match field m "content" with Some (JList bs) => Some bs | _ => None end.

Record same_shape (m m' : Json) : Prop := {
  same_role : str_field m' "role" = str_field m "role";
  same_provenance : str_field m' "provenance" = str_field m "provenance";
  same_content : option_Forall2 (Forall2 same_block) (list_content m) (list_content m')
}.

#[export] Instance same_block_refl : Reflexive same_block.
Proof. by split. Qed.

#[export] Instance same_shape_refl : Reflexive same_shape.
Proof. by intros m. Qed.

#[export] Instance same_block_trans : Transitive same_block.
Proof. intros a b c [] []. split; congruence. Qed.

#[export] Instance same_shape_trans : Transitive same_shape.
Proof.
  intros a b c [R1 P1 C1] [R2 P2 C2]. split; [congruence..|].
  inversion C1 as [x y Hxy E1 E2|E1 E2]; inversion C2 as [x' y' Hxy' E3 E4|E3 E4]; try congruence.
  - constructor. rewrite <- E2 in E3. injection E3 as ->. by etrans.
Qed.

Lemma same_has_type b b' t : same_block b b' → has_type b' t = has_type b t.
Proof. intros [H _ _ _]. unfold has_type. by rewrite H. Qed.

Lemma same_has_role m m' r : same_shape m m' → has_role m' r = has_role m r.
Proof. intros [H _ _]. unfold has_role. by rewrite H. Qed.

Lemma same_directive m m' : same_shape m m' → is_injected_directive m' = is_injected_directive m.
Proof. intros [_ H _]. unfold is_injected_directive. by rewrite H. Qed.

Lemma same_settle_block st b b' : same_block b b' → settle_block st b' = settle_block st b.
Proof.
  intros S. unfold settle_block. by rewrite !(same_has_type _ _ _ S), (same_id _ _ S), (same_use_id _ _ S).
Qed.

Lemma settle_content st m :
  settle_message st m =
  match list_content m with
  | Some bs => if has_role m "assistant" then match pending st with
                                              | [] => fold_opt settle_block {| seen := []; pending := [] |} bs
                                              | _ => None
                                              end
               else fold_opt settle_block st bs
  | None => Some st
  end.
Proof. unfold settle_message, list_content. by destruct (field m "content") as [[]|]. Qed.

Lemma fold_same_blocks st bs bs' : Forall2 same_block bs bs' → fold_opt settle_block st bs' = fold_opt settle_block st bs.
Proof.
  intros F. revert st. induction F as [|b b' bs bs' S F IH]; intros st; [done|].
  rewrite !fold_opt_cons, (same_settle_block _ _ _ S). destruct (settle_block st b); cbn; [apply IH|done].
Qed.

Lemma same_settle_message st m m' : same_shape m m' → settle_message st m' = settle_message st m.
Proof.
  intros S. rewrite !settle_content, (same_has_role _ _ _ S).
  destruct (same_content _ _ S) as [bs bs' F|]; [|done].
  destruct (has_role m "assistant"); [destruct (pending st); [|done]|]; by apply fold_same_blocks.
Qed.

Lemma same_run st ms ms' : Forall2 same_shape ms ms' → fold_opt settle_message st ms' = fold_opt settle_message st ms.
Proof.
  intros F. revert st. induction F as [|m m' ms ms' S F IH]; intros st; [done|].
  rewrite !fold_opt_cons, (same_settle_message _ _ _ S). destruct (settle_message st m); cbn; [apply IH|done].
Qed.

Lemma same_directives ms ms' : Forall2 same_shape ms ms' →
  forallb (λ m, negb (is_injected_directive m)) ms' = forallb (λ m, negb (is_injected_directive m)) ms.
Proof. induction 1 as [|m m' ms ms' S F IH]; cbn; [done|]. by rewrite (same_directive _ _ S), IH. Qed.

(** ** Truncation keeps the shape *)

Lemma field_set v k x k' : lit k' ≠ k → field (set_field v k x) k' = field v k'.
Proof. intros Hk. destruct v; try done. cbn. by rewrite dict_get_set, bool_decide_eq_false_2. Qed.

Lemma str_field_set v k x k' : lit k' ≠ k → str_field (set_field v k x) k' = str_field v k'.
Proof. intros Hk. unfold str_field. by rewrite field_set. Qed.

Lemma field_set_same kvs k x : field (set_field (JDict kvs) (lit k) x) k = Some x.
Proof. cbn. by rewrite dict_get_set, bool_decide_eq_true_2. Qed.

Definition elidable (k : pystr) : Prop := k ∈ lit <$> ELIDABLE_BLOCK_KEYS.

Lemma set_elidable_same b k x : elidable k → same_block b (set_field b k x).
Proof.
  intros Hk. unfold elidable in Hk.
  split; [apply str_field_set..|apply field_set]; intros <-; revert Hk; by vm_compute; set_solver.
Qed.

Lemma Forall2_alter_refl {A : Type} (R : A → A → Prop) `{!Reflexive R} (f : A → A) i l :
  (∀ x, l !! i = Some x → R x (f x)) → Forall2 R l (alter f i l).
Proof.
  revert i. induction l as [|x l IH]; intros [|i] Hx; cbn; [constructor..| |].
  - constructor; [by apply Hx|done].
  - constructor; [done|]. apply IH, Hx.
Qed.

Lemma list_content_set m k x : lit "content" ≠ k → list_content (set_field m k x) = list_content m.
Proof. intros Hk. unfold list_content. by rewrite field_set. Qed.

(** Where a slot may write. *)
Definition valid_slot (it : list Json) (s : Slot) : Prop :=
  match slot_block s with
  | None => slot_key s = lit "content" ∧ ∀ m, it !! slot_message s = Some m → list_content m = None
  | Some _ => elidable (slot_key s) ∧ ∀ m, it !! slot_message s = Some m → is_Some (list_content m)
  end.

Lemma set_content_same m x : list_content m = None → same_shape m (set_field m (lit "content") (JStr x)).
Proof.
  intros Hm. split; try by apply str_field_set. rewrite Hm. destruct m; try (by constructor).
  unfold list_content. rewrite field_set_same. constructor.
Qed.

Lemma set_block_same m j k x : elidable k → is_Some (list_content m) → same_shape m (set_block j k x m).
Proof.
  intros Hk [bs Hm]. unfold set_block. split; try by apply str_field_set.
  assert (Hb : blocks_of m = bs).
  { unfold list_content in Hm. unfold blocks_of. destruct (field m "content") as [[]|]; congruence. }
  rewrite Hm, Hb. destruct m; try done. unfold list_content. rewrite field_set_same. constructor.
  apply Forall2_alter_refl; [apply _|]. intros b _. by apply set_elidable_same.
Qed.

Lemma set_slot_same it s x : valid_slot it s → Forall2 same_shape it (set_slot s x it).
Proof.
  intros V. unfold set_slot. apply Forall2_alter_refl; [apply _|]. intros m Hm. unfold valid_slot in V.
  destruct (slot_block s) as [j|]; destruct V as [Hk V].
  - apply set_block_same; [done|by apply V].
  - rewrite Hk. by apply set_content_same, V.
Qed.

Lemma valid_slot_same it it' s : Forall2 same_shape it it' → valid_slot it s → valid_slot it' s.
Proof.
  intros F V. unfold valid_slot in *. assert (Hc : ∀ m', it' !! slot_message s = Some m' →
    ∃ m, it !! slot_message s = Some m ∧ option_Forall2 (Forall2 same_block) (list_content m) (list_content m')).
  { intros m' Hm'. destruct (Forall2_lookup_r _ _ _ _ _ F Hm') as (m & Hm & S). exists m. split; [done|apply S]. }
  destruct (slot_block s); destruct V as [Hk V]; split; try done; intros m' (m & Hm & O)%Hc; specialize (V m Hm).
  - destruct O; [done|by destruct V].
  - by destruct O.
Qed.

Lemma insert_slot_elem x y l : y ∈ insert_slot x l ↔ y = x ∨ y ∈ l.
Proof. induction l as [|z l IH]; cbn; [set_solver|]. destruct (_ <=? _)%nat; set_solver. Qed.

Lemma sort_slots_elem y l : y ∈ sort_slots l ↔ y ∈ l.
Proof. induction l as [|x l IH]; cbn; [done|]. rewrite insert_slot_elem, IH. set_solver. Qed.

Lemma elem_of_imap_join {A B : Type} (f : nat → A → list B) l y :
  y ∈ mjoin (imap f l) → ∃ i x, l !! i = Some x ∧ y ∈ f i x.
Proof.
  intros (b & Hb & Hin)%list_elem_of_join. apply elem_of_lookup_imap_1 in Hin as (i & x & -> & Hi). by exists i, x.
Qed.

Lemma slots_valid it : Forall (valid_slot it) (slots_of it).
Proof.
  apply Forall_forall. intros s (i & m & Hi & Hs)%elem_of_imap_join. unfold message_slots in Hs.
  destruct (is_injected_directive m); [set_solver|].
  destruct (field m "content") as [[| | | |t|bs|]|] eqn:Em; try set_solver.
  - apply list_elem_of_singleton in Hs as ->. split; [done|]. intros m'. cbn. rewrite Hi. intros [= <-]. unfold list_content. by rewrite Em.
  - apply elem_of_imap_join in Hs as (j & b & _ & Hs). unfold block_slots in Hs.
    destruct (is_dict b && _); [|set_solver].
    apply list_elem_of_omap in Hs as (k & Hk & Hs). destruct (str_field b k); [|done]. injection Hs as <-.
    split; cbn [slot_key slot_message]; [by apply list_elem_of_fmap_2|]. rewrite Hi. intros m' [= <-]. unfold list_content. by rewrite Em.
  - apply list_elem_of_singleton in Hs as ->. split; [done|]. intros m'. cbn. rewrite Hi. intros [= <-]. unfold list_content. by rewrite Em.
Qed.

(** ** Native transcripts

    What the agents and the surfaces write: a reply has a list of blocks, calls are in
    replies only, and a directive is a user's text. *)

Definition toolless (m : Json) : Prop := existsb is_tool_block (blocks_of m) = false.

Record native (m : Json) : Prop := {
  native_reply : has_role m "assistant" = true → is_Some (list_content m);
  native_uses : is_tool_use_message m = true → has_role m "assistant" = true;
  native_directive : is_injected_directive m = true → toolless m ∧ has_role m "assistant" = false
}.

Lemma blocks_of_content m : blocks_of m = default [] (list_content m).
Proof. unfold blocks_of, list_content. by destruct (field m "content") as [[]|]. Qed.

Lemma toolless_plain m : toolless m → forallb plain_block (blocks_of m) = true.
Proof.
  unfold toolless. induction (blocks_of m) as [|b bs IH]; [done|]. cbn [existsb forallb]. intros [Hb Hbs]%orb_false_iff.
  unfold is_tool_block in Hb. apply orb_false_iff in Hb as [H1 H2]. unfold plain_block at 1. by rewrite H1, H2, IH.
Qed.

Abbreviation run_settle := (fold_opt settle_message).

(** Settled from an empty state, whatever was seen before. *)
Definition closed (ms : list Json) : Prop := ∀ sn, ∃ sn', run_settle {| seen := sn; pending := [] |} ms = Some {| seen := sn'; pending := [] |}.

Lemma closed_nil : closed [].
Proof. intros sn. by exists sn. Qed.

Lemma closed_app a b : closed a → closed b → closed (a ++ b).
Proof. intros Ha Hb sn. destruct (Ha sn) as [s1 E1]. destruct (Hb s1) as [s2 E2]. exists s2. by rewrite fold_opt_app, E1. Qed.

Lemma closed_join its : Forall closed its → closed (mjoin its).
Proof. induction 1; [apply closed_nil|]. by apply closed_app. Qed.

Lemma closed_settled ms : closed ms → settled ms.
Proof. intros Hc. apply settled_final, Hc. Qed.

Lemma toolless_closed ms : Forall toolless ms → closed ms.
Proof.
  induction 1 as [|m ms Hm _ IH]; [apply closed_nil|]. change (m :: ms) with ([m] ++ ms). apply closed_app; [|done].
  apply toolless_plain in Hm. rewrite blocks_of_content in Hm. intros sn. rewrite fold_opt_cons, settle_content.
  destruct (list_content m) as [bs|]; cbn [default] in Hm; [|by exists sn].
  destruct (has_role m "assistant"); cbn [pending]; rewrite plain_blocks_skip by done; by eexists.
Qed.

(** Without calls, what was seen does not matter. *)
Lemma settle_block_seen b sn ps st :
  has_type b "tool_use" = false → settle_block {| seen := sn; pending := ps |} b = Some st →
  seen st = sn ∧ ∀ sn2, settle_block {| seen := sn2; pending := ps |} b = Some {| seen := sn2; pending := pending st |}.
Proof.
  unfold settle_block. intros ->. cbn [pending seen]. destruct (has_type b "tool_result"); [|by intros [= <-]].
  destruct (str_field b "tool_use_id") as [i|]; [|done]. destruct (bool_decide _); [|done]. by intros [= <-].
Qed.

Lemma fold_blocks_seen bs : existsb (λ b, has_type b "tool_use") bs = false → ∀ sn ps st,
  fold_opt settle_block {| seen := sn; pending := ps |} bs = Some st →
  ∀ sn2, ∃ sn', fold_opt settle_block {| seen := sn2; pending := ps |} bs = Some {| seen := sn'; pending := pending st |}.
Proof.
  induction bs as [|b bs IH]; intros Hb sn ps st; [intros [= <-] sn2; by exists sn2|].
  cbn [existsb] in Hb. apply orb_false_iff in Hb as [Hu Hb]. rewrite fold_opt_cons.
  destruct (settle_block _ b) as [[sn1 ps1]|] eqn:E1; [|done]. cbn [mbind option_bind]. intros E sn2.
  apply settle_block_seen in E1 as [_ E1]; [|done]. rewrite fold_opt_cons, E1. by eapply IH.
Qed.

Lemma run_seen ms : Forall native ms → ∀ sn ps st, run_settle {| seen := sn; pending := ps |} ms = Some st →
  ∀ sn2, ∃ sn', run_settle {| seen := sn2; pending := ps |} ms = Some {| seen := sn'; pending := pending st |}.
Proof.
  induction 1 as [|m ms Hm _ IH]; intros sn ps st; [intros [= <-] sn2; by exists sn2|].
  rewrite fold_opt_cons. destruct (settle_message _ m) as [[sn1 ps1]|] eqn:E; [|done]. cbn [mbind option_bind]. intros Er sn2.
  assert (∃ sn1', settle_message {| seen := sn2; pending := ps |} m = Some {| seen := sn1'; pending := ps1 |}) as [sn1' E'].
  { revert E. rewrite !settle_content. destruct (list_content m) as [bs|] eqn:Ec; [|intros [= <- <-]; by eexists].
    destruct (has_role m "assistant") eqn:Ea; [cbn [pending]; intros E; by exists sn1|].
    intros E. destruct (fold_blocks_seen bs) with (sn := sn) (ps := ps) (st := {| seen := sn1; pending := ps1 |}) (sn2 := sn2); try done.
    - destruct (existsb _ bs) eqn:Eu; [|done]. exfalso. enough (has_role m "assistant" = true) by congruence.
      apply (native_uses _ Hm). unfold is_tool_use_message. by rewrite blocks_of_content, Ec.
    - by eexists. }
  rewrite fold_opt_cons, E'. by eapply IH.
Qed.

Lemma native_closed ms sn sn' : Forall native ms →
  run_settle {| seen := sn; pending := [] |} ms = Some {| seen := sn'; pending := [] |} → closed ms.
Proof. intros Hn E sn2. destruct (run_seen ms Hn _ _ _ E sn2) as [s2 E2]. by exists s2. Qed.

Lemma boundary_reply m : native m → is_boundary m = true → has_role m "assistant" = true ∧ is_Some (list_content m).
Proof.
  intros Hm. unfold is_boundary. destruct (is_tool_use_message m) eqn:E; cbn.
  - intros _. apply (native_uses _ Hm) in E. split; [done|by apply Hm].
  - intros [Ha Hc]%andb_true_iff. split; [done|by apply Hm].
Qed.

(** The groups of a settled transcript are settled each. *)
Lemma group_from_closed cur ms sn sn' :
  Forall native (cur ++ ms) → run_settle {| seen := sn; pending := [] |} (cur ++ ms) = Some {| seen := sn'; pending := [] |} →
  Forall (λ g, closed g ∧ Forall native g) (group_from cur ms) ∧ mjoin (group_from cur ms) = cur ++ ms.
Proof.
  revert cur sn. induction ms as [|m ms IH]; intros cur sn Hn E; cbn [group_from].
  { rewrite app_nil_r in *. destruct cur; cbn; [by repeat constructor|]. rewrite app_nil_r. split; [|done].
    apply Forall_singleton. split; [by eapply native_closed|done]. }
  destruct (is_boundary m) eqn:Eb.
  2: { destruct (IH (cur ++ [m]) sn) as [? ?]; rewrite <- ?app_assoc in *; done. }
  destruct cur as [|c cur]; [by apply (IH [m] sn)|].
  apply Forall_app in Hn as [Hc Hn]. rewrite fold_opt_app in E.
  destruct (run_settle _ (c :: cur)) as [[s1 p1]|] eqn:E1; [|done]. cbn [mbind option_bind] in E.
  assert (p1 = []) as ->.
  { pose proof Hn as Hm. apply Forall_cons in Hm as [Hm _]. apply boundary_reply in Eb as [Ha [bs Hbs]]; [|done].
    rewrite fold_opt_cons, settle_content, Hbs, Ha in E. cbn [pending] in E. by destruct p1. }
  destruct (IH [m] s1) as [F1 F2]; [done..|]. split; [constructor; [|done]|].
  - split; [by eapply native_closed|done].
  - cbn [mjoin list_join]. change (mjoin (group_from [m] ms)) with (mjoin (group_from [m] ms)). by rewrite F2.
Qed.

Lemma group_from_join cur ms : mjoin (group_from cur ms) = cur ++ ms.
Proof.
  revert cur. induction ms as [|m ms IH]; intros cur; cbn [group_from].
  { destruct cur; [done|]. unfold mjoin. cbn. by rewrite !app_nil_r. }
  destruct (is_boundary m); [|by rewrite IH, <- app_assoc]. destruct cur as [|c cur]; [by rewrite IH|].
  change (mjoin ((c :: cur) :: group_from [m] ms)) with ((c :: cur) ++ mjoin (group_from [m] ms)). by rewrite IH.
Qed.

(** ** The parts of a payload *)

Abbreviation directives := (List.filter is_injected_directive).

Lemma directives_app a b : directives (a ++ b) = directives a ++ directives b.
Proof. apply List.filter_app. Qed.

Lemma directives_none ms : forallb (λ m, negb (is_injected_directive m)) ms = true → directives ms = [].
Proof. induction ms as [|m ms IH]; cbn; [done|]. intros [Hm Hms]%andb_true_iff. apply negb_true_iff in Hm. by rewrite Hm, IH. Qed.

Lemma directives_idem ms : directives (directives ms) = directives ms.
Proof. induction ms as [|m ms IH]; cbn; [done|]. destruct (is_injected_directive m) eqn:E; cbn; [by rewrite E, IH|done]. Qed.

Lemma summary_not_directive m : is_emergency_summary m = true → is_injected_directive m = false ∧ list_content m = None.
Proof.
  unfold is_emergency_summary, list_content. intros [[_ Hd%negb_true_iff]%andb_true_iff Hc]%andb_true_iff.
  split; [done|]. by destruct (field m "content") as [[]|].
Qed.

Lemma peel_prefix_spec rp :
  let '(p, cs, _) := peel_prefix rp in
  directives (rev p ++ cs) = directives (rev rp) ∧ (∀ m, m ∈ p ++ cs → m ∈ rp) ∧ last p = last rp.
Proof.
  induction rp as [|m rp IH]; cbn; [done|]. destruct rp as [|m2 rp].
  { rewrite app_nil_r. by split_and!; [|set_solver|]. }
  destruct (is_injected_directive m) eqn:Ed; [|destruct (is_emergency_summary m) eqn:Es].
  - destruct (peel_prefix (m2 :: rp)) as [[p cs] ss]. destruct IH as (H1 & H2 & H3). split_and!; [|set_solver|done].
    cbn [rev] in *. by rewrite app_assoc, directives_app, H1, <- directives_app.
  - destruct (peel_prefix (m2 :: rp)) as [[p cs] ss]. destruct IH as (H1 & H2 & H3). split_and!; [|set_solver|done].
    cbn [rev] in *. rewrite H1, (directives_app _ [m]). cbn. apply summary_not_directive in Es as [-> _]. by rewrite app_nil_r.
  - rewrite app_nil_r. by split_and!; [|set_solver|].
Qed.

Lemma peel_territory_spec ms :
  directives (peel_territory ms).2 = directives ms ∧ ∃ n, (peel_territory ms).2 = drop n ms
    ∧ Forall (λ m, list_content m = None) (take n ms).
Proof.
  induction ms as [|m ms (IH1 & n & IH2 & IH3)]; cbn; [by split; [|exists 0%nat]|].
  destruct (is_emergency_summary m) eqn:E; [|by split; [|exists 0%nat]].
  apply summary_not_directive in E as [Hd Hc]. destruct (peel_territory ms) as [ss t]. cbn in *. rewrite Hd.
  split; [done|]. exists (S n). by split; [|constructor].
Qed.

Lemma hoist_directives p :
  let p' := hoist_controls p in
  directives (prefix p') = directives (prefix p ++ mjoin (iterations p))
  ∧ Forall (λ it, forallb (λ m, negb (is_injected_directive m)) it = true) (iterations p').
Proof.
  unfold hoist_controls. destruct (directives (mjoin (iterations p))) as [|c cs] eqn:E; cbn zeta.
  - rewrite directives_app, E, app_nil_r. split; [done|]. revert E. induction (iterations p) as [|it its IH]; [constructor|].
    change (mjoin (it :: its)) with (it ++ mjoin its). rewrite directives_app. intros [E1 E2]%app_eq_nil. constructor; [|by apply IH].
    clear -E1. induction it as [|m it IH]; cbn in *; [done|]. by destruct (is_injected_directive m); [|apply IH].
  - cbn [prefix iterations]. rewrite !directives_app, <- E, directives_idem. split; [done|].
    apply Forall_forall. intros g Hg. apply list_elem_of_In, filter_In in Hg as [Hg _]. apply list_elem_of_In in Hg.
    apply list_elem_of_fmap in Hg as (it & -> & _). clear. induction it as [|m it IH]; cbn; [done|].
    destruct (negb (is_injected_directive m)) eqn:E; cbn; [by rewrite E|done].
Qed.

(** Every directive of the payload is in the prefix, in order. *)
Lemma parts_directives pin ms :
  directives (prefix (parts_of pin ms)) = directives ms
  ∧ Forall (λ it, forallb (λ m, negb (is_injected_directive m)) it = true) (iterations (parts_of pin ms)).
Proof.
  unfold parts_of. match goal with |- context [hoist_controls ?p] => destruct (hoist_directives p) as [-> H] end.
  split; [|done]. clear H. destruct pin as [n|].
  - unfold pinned_parts. destruct (peel_territory_spec (drop (clamp n ms) ms)) as [H _].
    destruct (peel_territory _) as [ss t]. cbn [prefix iterations snd] in *. unfold group_iterations. rewrite group_from_join, directives_app. cbn [app].
    by rewrite H, <- directives_app, take_drop.
  - unfold agent_parts, split_prefix_and_iterations. pose proof (peel_prefix_spec (rev (take (prefix_end ms) ms))) as Hp.
    destruct (peel_prefix _) as [[p cs] ss]. destruct Hp as [Hp _]. cbn [prefix iterations].
    unfold group_iterations. rewrite group_from_join, !directives_app. cbn [app]. rewrite directives_app in Hp.
    change (directives []) with (@nil Json). cbn [app]. by rewrite Hp, rev_involutive, <- directives_app, take_drop.
Qed.

(** ** Settling the parts *)

Lemma directive_skip st m : native m → is_injected_directive m = true → settle_message st m = Some st.
Proof.
  intros Hm Hd. destruct (native_directive _ Hm Hd) as [Ht Ha]. apply toolless_plain in Ht.
  rewrite blocks_of_content in Ht. rewrite settle_content. destruct (list_content m) as [bs|]; [|done].
  rewrite Ha. by apply plain_blocks_skip.
Qed.

Lemma run_without_directives g st : Forall native g →
  run_settle st (List.filter (λ m, negb (is_injected_directive m)) g) = run_settle st g.
Proof.
  intros Hg. revert st. induction Hg as [|m g Hm Hg IH]; intros st; cbn [List.filter]; [done|].
  destruct (is_injected_directive m) eqn:E; cbn [negb].
  - by rewrite fold_opt_cons, (directive_skip _ _ Hm E), IH.
  - rewrite !fold_opt_cons. destruct (settle_message st m); cbn; [apply IH|done].
Qed.

Lemma prefix_toolless ms : Forall native ms → Forall toolless (take (prefix_end ms) ms).
Proof.
  induction 1 as [|m ms Hm _ IH]; cbn [prefix_end]; [constructor|].
  destruct (is_tool_message m) eqn:Et; [constructor|]. destruct (has_role m "assistant" && _); [constructor|].
  cbn [take]. constructor; [|done]. unfold is_tool_message in Et. destruct (is_injected_directive m) eqn:Ed; [by apply Hm|].
  cbn in Et. unfold toolless, blocks_of. by destruct (field m "content") as [[]|].
Qed.

Lemma envelope_toolless ms n : (n <= structural_envelope_end ms)%nat → Forall toolless (take n ms).
Proof.
  revert n. induction ms as [|m ms IH]; intros [|n] Hn; cbn in *; [constructor..|].
  destruct (existsb is_tool_block (blocks_of m)) eqn:E; [lia|]. constructor; [done|]. apply IH. lia.
Qed.

(** What makes compression safe: a prefix without tools, and iterations settled each. *)
Record settled_parts (p : Parts) : Prop := {
  sp_prefix : Forall (λ m, toolless m ∧ native m) (prefix p);
  sp_iterations : Forall (λ it, closed it ∧ Forall native it) (iterations p)
}.

Lemma Forall_both {A : Type} (P Q : A → Prop) l : Forall P l → Forall Q l → Forall (λ x, P x ∧ Q x) l.
Proof. intros HP HQ. apply Forall_and. by split. Qed.

Lemma Forall_elem_of {A : Type} (P : A → Prop) l l' : Forall P l → (∀ x, x ∈ l' → x ∈ l) → Forall P l'.
Proof. intros HP Hl. apply Forall_forall. intros x Hx. eapply Forall_forall in HP; [exact HP|by apply Hl]. Qed.

Lemma hoist_settled p : settled_parts p → settled_parts (hoist_controls p).
Proof.
  intros [Hp Hi]. unfold hoist_controls. destruct (directives (mjoin (iterations p))) as [|c cs] eqn:E; [by split|].
  rewrite <- E. clear E. split; cbn [prefix iterations].
  - apply Forall_app. split; [done|]. apply Forall_forall. intros m Hm. apply list_elem_of_In, filter_In in Hm as [Hm Hd].
    apply list_elem_of_In, list_elem_of_join in Hm as (it & Hm & Hit). eapply Forall_forall in Hi; [|exact Hit].
    destruct Hi as [_ Hn]. eapply Forall_forall in Hn; [|exact Hm]. split; [by apply Hn|done].
  - apply Forall_forall. intros g Hg. apply list_elem_of_In, filter_In in Hg as [Hg _].
    apply list_elem_of_In, list_elem_of_fmap in Hg as (it & -> & Hit). eapply Forall_forall in Hi as [Hc Hn]; [|exact Hit].
    split.
    + intros sn. rewrite run_without_directives by done. apply Hc.
    + eapply Forall_elem_of; [exact Hn|]. intros m Hm. by apply list_elem_of_In, filter_In in Hm as [Hm%list_elem_of_In _].
Qed.

(** The pin of a surface lies before the first tool block. *)
Definition good_pin (pin : option Z) (ms : list Json) : Prop :=
  match pin with Some n => (clamp n ms <= structural_envelope_end ms)%nat | None => True end.

Lemma rest_closed prefix rest : Forall toolless prefix → Forall native (prefix ++ rest) → settled (prefix ++ rest) →
  ∃ sn sn', run_settle {| seen := sn; pending := [] |} rest = Some {| seen := sn'; pending := [] |}.
Proof.
  intros Hp%toolless_closed Hn [sn' E]%settled_final. destruct (Hp []) as [sn Ep].
  rewrite fold_opt_app, Ep in E. by exists sn, sn'.
Qed.

Lemma parts_settled pin ms : Forall native ms → settled ms → good_pin pin ms → settled_parts (parts_of pin ms).
Proof.
  intros Hn Hs Hg. apply hoist_settled. destruct pin as [n|]; cbn in Hg.
  - unfold pinned_parts. apply envelope_toolless in Hg. rewrite <- (take_drop (clamp n ms) ms) in Hn, Hs.
    destruct (rest_closed _ _ Hg Hn Hs) as (sn & sn' & E). apply Forall_app in Hn as [Hn1 Hn2].
    destruct (peel_territory_spec (drop (clamp n ms) ms)) as (_ & k & Ek & Hk).
    destruct (peel_territory _) as [ss t]. cbn [snd] in Ek. subst t.
    split; cbn [prefix iterations]; [by apply Forall_both|].
    apply (group_from_closed [] _ sn sn').
    + by apply Forall_drop.
    + rewrite <- (take_drop k (drop (clamp n ms) ms)) in E. rewrite fold_opt_app, fold_opt_skip in E; [done|].
      intros m Hm. rewrite settle_content. by eapply Forall_forall in Hk as ->.
  - unfold agent_parts, split_prefix_and_iterations. pose proof (prefix_toolless _ Hn) as Ht.
    pose proof (peel_prefix_spec (rev (take (prefix_end ms) ms))) as Hp.
    destruct (peel_prefix _) as [[p cs] ss]. destruct Hp as (_ & Hin & _).
    rewrite <- (take_drop (prefix_end ms) ms) in Hn, Hs. destruct (rest_closed _ _ Ht Hn Hs) as (sn & sn' & E).
    apply Forall_app in Hn as [Hn1 Hn2]. split; cbn [prefix iterations]; [|by apply (group_from_closed [] _ sn sn')].
    eapply Forall_elem_of; [exact (Forall_both _ _ _ Ht Hn1)|]. intros m Hm. rewrite <- elem_of_rev. apply Hin.
    rewrite elem_of_app, <- elem_of_rev. by rewrite elem_of_app in Hm.
Qed.

Lemma same_toolless m m' : same_shape m m' → is_tool_use_message m' = is_tool_use_message m ∧ (toolless m → toolless m').
Proof.
  intros S. unfold is_tool_use_message, toolless. rewrite !blocks_of_content.
  destruct (same_content _ _ S) as [bs bs' F|]; cbn [default]; unfold id; [|done].
  induction F as [|b b' bs bs' Sb F IH]; [done|]. cbn [existsb]. unfold is_tool_block in *. rewrite !(same_has_type _ _ _ Sb).
  destruct IH as [-> IH]. split; [done|]. intros [-> Hb]%orb_false_iff. by rewrite IH.
Qed.

Lemma same_native m m' : same_shape m m' → native m → native m'.
Proof.
  intros S [H1 H2 H3]. destruct (same_toolless _ _ S) as [Hu Ht]. split; rewrite ?(same_has_role _ _ _ S), ?(same_directive _ _ S), ?Hu.
  - intros Ha. destruct (H1 Ha) as [bs Hb]. destruct (same_content _ _ S); [by eexists|done].
  - done.
  - intros Hd. destruct (H3 Hd). split; [by apply Ht|done].
Qed.

Lemma same_iterations_good its its' : Forall2 (Forall2 same_shape) its its' →
  Forall (λ it, closed it ∧ Forall native it) its → Forall (λ it, closed it ∧ Forall native it) its'.
Proof.
  induction 1 as [|it it' its its' S F IH]; intros Hf; [constructor|]. apply Forall_cons in Hf as [[Hc Hn] Hf].
  constructor; [|by apply IH]. split.
  - intros sn. rewrite (same_run _ _ _ S). apply Hc.
  - clear -S Hn. induction S as [|m m' it it' Sm S IH]; [constructor|]. apply Forall_cons in Hn as [Hm Hn].
    constructor; [by eapply same_native|by apply IH].
Qed.

Lemma user_text_native s : native (user_text s) ∧ toolless (user_text s).
Proof. by split. Qed.

Section theory.
Context `{Codec, Rendering}.

Lemma shrink_slots_same max_chars ss it out :
  Forall (valid_slot it) ss → shrink_slots max_chars ss it = Some out → Forall2 same_shape it out.
Proof.
  revert it. induction ss as [|s ss IH]; intros it V; cbn; [by intros [= <-]|].
  destruct (_ <=? _); [by intros [= <-]|]. destruct (shrunk _ _) as [x|]; [|done]. cbn. intros E.
  apply Forall_cons in V as [Vs V]. pose proof (set_slot_same it s x Vs) as S.
  etrans; [exact S|]. eapply IH; [|done]. eapply Forall_impl; [exact V|]. intros s'. by apply valid_slot_same.
Qed.

Lemma truncate_same it n out e : truncate_iteration it n = Some (out, e) → Forall2 same_shape it out.
Proof.
  unfold truncate_iteration. destruct (_ <=? _); [by intros [= <- <-]|].
  destruct (shrink_slots _ _ it) as [w|] eqn:E; [|done]. cbn. intros [= <- <-].
  eapply shrink_slots_same; [|done]. apply Forall_forall. intros s Hs. rewrite sort_slots_elem in Hs.
  eapply Forall_forall in Hs; [exact Hs|apply slots_valid].
Qed.

Lemma truncate_over_same it n out e : truncate_over it n = Some (out, e) → Forall2 same_shape it out.
Proof. unfold truncate_over. destruct (_ <? _); [apply truncate_same|by intros [= <- <-]]. Qed.

(** ** What the emergency pass builds *)

Abbreviation same_iterations := (Forall2 (Forall2 same_shape)).

(** The prefix verbatim, perhaps a summary, and the last iterations up to truncation. *)
Definition compacted (p : Parts) (out : list Json) : Prop :=
  ∃ summary kept n, out = payload p (user_text <$> summary) kept
    ∧ same_iterations (drop n (iterations p)) kept ∧ (iterations p ≠ [] → (n < length (iterations p))%nat).

Lemma keep_newest_same budget rev_its base k k' :
  keep_newest budget rev_its k = Some k' → same_iterations base (kept k) →
  ∃ n, same_iterations (drop n (rev rev_its) ++ base) (kept k')
    ∧ (base = [] → rev_its ≠ [] → (n < length rev_its)%nat).
Proof.
  revert base k. induction rev_its as [|it rest IH]; intros base k; cbn [keep_newest].
  { intros [= <-] F. by exists 0%nat. }
  destruct (truncate_over it _) as [[it' e]|] eqn:E1; [|done]. cbn [mbind option_bind]. apply truncate_over_same in E1.
  assert (Hk : kept (note_truncation e k) = kept k) by (unfold note_truncation; by destruct (_ =? _)).
  rewrite Hk. cbn [rev]. destruct (kept k) as [|x xs] eqn:Ek.
  - destruct (truncate_over it' budget) as [[it2 e2]|] eqn:E2; [|done]. cbn [mbind option_bind]. apply truncate_over_same in E2.
    intros E F. inversion F; subst. eapply (IH [it]) in E as (n & Fn & _).
    2: { cbn [kept]. constructor; [by etrans|constructor]. }
    destruct (decide (n <= length rest)%nat) as [Hn|Hn].
    + exists n. rewrite app_nil_r, drop_app_le by (by rewrite length_rev). split; [done|]. cbn. lia.
    + exists (length rest). rewrite app_nil_r, drop_app_length' by (by rewrite length_rev).
      rewrite drop_ge in Fn by (rewrite length_rev; lia). split; [done|]. cbn. lia.
  - destruct (_ <? _).
    + intros [= <-] F. exists (length (rev rest ++ [it])). rewrite drop_all. cbn [app]. rewrite Hk.
      split; [done|]. intros ->. inversion F.
    + intros E F. eapply (IH (it :: base)) in E as (n & Fn & _); [|by constructor].
      destruct (decide (n <= length rest)%nat) as [Hn|Hn].
      * exists n. rewrite drop_app_le by (by rewrite length_rev). rewrite <- app_assoc. split; [done|]. intros ->. inversion F.
      * exists (length rest). rewrite drop_app_length' by (by rewrite length_rev).
        rewrite drop_ge in Fn by (rewrite length_rev; lia). split; [done|]. intros ->. inversion F.
Qed.

Lemma converge_drop p target its :
  ∃ j, converge p target its = drop j its ∧ (its ≠ [] → (j < length its)%nat)
    ∧ (estimate_message_chars (assemble p (drop j its)) <= target ∨ (length (drop j its) <= 1)%nat).
Proof.
  induction its as [|x [|y its] IH];
    [exists 0%nat; cbn; split_and!; [done|by intros []|right; lia]|exists 0%nat; cbn; split_and!; [done|lia|right; lia]|].
  cbn [converge]. destruct (Z.ltb_spec target (estimate_message_chars (assemble p (x :: y :: its)))).
  - destruct IH as (j & E & Hj & Hd). exists (S j). cbn [drop]. split; [exact E|]. split; [|done]. specialize (Hj ltac:(done)). cbn in *. lia.
  - exists 0%nat. cbn [drop]. split_and!; [done|cbn; lia|by left].
Qed.

Lemma summary_for_text p its limit : ∃ s, summary_for p its limit = user_text <$> s.
Proof.
  unfold summary_for, summary_message. destruct (_ || _); [by exists None|]. eexists (Some _). reflexivity.
Qed.

Lemma squeeze_same p target k out k' :
  squeeze p target k = Some (out, k') →
  estimate_message_chars (assemble p (kept k)) <= target ∨ (length (kept k) <= 1)%nat →
  ∃ s its, out = payload p (user_text <$> s) its ∧ same_iterations (kept k) its.
Proof.
  unfold squeeze. destruct (summary_for_text p (kept k) EMERGENCY_SUMMARY_MAX) as [s1 E1].
  destruct (Z.leb_spec (estimate_message_chars (payload p (summary_for p (kept k) EMERGENCY_SUMMARY_MAX) (kept k)) - target) 0) as [Hl|Hl].
  { intros [= <- <-] _. exists s1, (kept k). by rewrite E1. }
  intros Ho [Hf|Hlen]; [unfold assemble in Hf; lia|]. revert Ho.
  match goal with |- context [payload p ?sm (kept k)] => assert (Hs : ∃ s, sm = user_text <$> s) end.
  { destruct (summary_for p (kept k) EMERGENCY_SUMMARY_MAX); [apply summary_for_text|by exists None]. }
  destruct Hs as [s2 ->].
  destruct (_ <=? target). { intros [= <- <-]. by exists s2, (kept k). }
  destruct (_ <? 0). { intros [= <- <-]. by exists s2, (kept k). }
  destruct (kept k) as [|x [|y l]] eqn:Ek; [done| |cbn in Hlen; lia]. cbn [last mbind option_bind].
  destruct (truncate_iteration x _) as [[x' e]|] eqn:Et; [|done]. cbn [mbind option_bind]. intros [= <- <-].
  exists s2, [x']. split; [|constructor; [by eapply truncate_same|constructor]].
  unfold payload. cbn. by rewrite app_nil_r, <- app_assoc.
Qed.

(** The outcome, in full. *)
Lemma emergency_compress_spec pin ms target out r :
  emergency_compress pin ms target = Some (out, r) →
  (fits r = true → estimate_message_chars out <= target ∧ compressed_chars r = estimate_message_chars out)
  ∧ (fits r = false → out = ms ∧ target < estimate_message_chars ms)
  ∧ (out = ms ∨ target < estimate_message_chars ms ∧ compacted (parts_of pin ms) out).
Proof.
  unfold emergency_compress. destruct (Z.leb_spec (estimate_message_chars ms) target) as [Hle|Hgt].
  { intros [= <- <-]. cbn. split_and!; [done|done|by left]. }
  destruct (_ <=? 0). { intros [= <- <-]. cbn. split_and!; [done|done|by left]. }
  set (p := parts_of pin ms).
  destruct (keep_newest _ _ nothing_kept) as [k|] eqn:Ek; [|done]. cbn [mbind option_bind].
  apply (keep_newest_same _ _ []) in Ek as (n & Fn & Hn); [|constructor]. rewrite rev_involutive, app_nil_r in Fn.
  destruct (converge_drop p target (kept k)) as (j & -> & Hj & Hd).
  destruct (squeeze _ _ _) as [[o k2]|] eqn:Es; [|done]. cbn [mbind option_bind].
  intros E. injection E as Ho Hr. apply squeeze_same in Es as (s & its & Hpay & Fits); [|done]. cbn [kept] in Fits.
  assert (Hc : compacted p o).
  { exists s, its, (n + j)%nat. split; [done|]. split.
    - rewrite <- drop_drop. etrans; [|exact Fits]. by apply Forall2_drop.
    - intros Hne. apply Forall2_length in Fn as Hl. rewrite length_drop in Hl.
      assert (Hn' : (n < length (iterations p))%nat).
      { rewrite <- length_rev. apply Hn; [done|]. intros E. apply Hne. apply (f_equal (@rev _)) in E. by rewrite rev_involutive in E. }
      assert (kept k ≠ []) as Hk by (intros E; rewrite E in Hl; cbn in Hl; lia). specialize (Hj Hk). lia. }
  subst r. destruct (Z.leb_spec (estimate_message_chars o) target); subst out; cbn; split_and!; try done; [by right|by left].
Qed.

Lemma payload_settled p s its :
  settled_parts p → Forall (λ it, closed it ∧ Forall native it) its →
  closed (payload p (user_text <$> s) its) ∧ Forall native (payload p (user_text <$> s) its).
Proof.
  intros [Hp _] Hi. unfold payload. apply Forall_and in Hp as [Ht Hn]. apply Forall_and in Hi as [Hc Hni].
  assert (Hs : Forall (λ m, toolless m ∧ native m) (option_list (user_text <$> s))).
  { destruct s as [s|]; cbn; [|constructor]. constructor; [|constructor]. split; apply user_text_native. }
  apply Forall_and in Hs as [Hs1 Hs2].
  split; [|rewrite !Forall_app; split_and!; [done..|by apply Forall_join]].
  apply closed_app; [by apply toolless_closed|]. apply closed_app; [by apply toolless_closed|by apply closed_join].
Qed.

Lemma compacted_settled p out : settled_parts p → compacted p out → closed out ∧ Forall native out.
Proof.
  intros S (s & its & n & -> & F & _). apply payload_settled; [done|].
  eapply same_iterations_good; [exact F|]. apply Forall_drop, S.
Qed.

Lemma emergency_settled pin ms target out r :
  Forall native ms → settled ms → good_pin pin ms → emergency_compress pin ms target = Some (out, r) →
  settled out ∧ Forall native out.
Proof.
  intros Hn Hs Hg (_ & _ & [ ->|[_ Hc]])%emergency_compress_spec; [done|].
  apply compacted_settled in Hc as [Hc Hn']; [|by apply parts_settled]. split; [by apply closed_settled|done].
Qed.

Lemma emergency_directives pin ms target out r :
  emergency_compress pin ms target = Some (out, r) → directives out = directives ms.
Proof.
  intros (_ & _ & [ ->|[_ (s & its & n & -> & F & _)]])%emergency_compress_spec; [done|].
  destruct (parts_directives pin ms) as [<- Hd]. unfold payload. rewrite !directives_app.
  assert (directives (option_list (user_text <$> s)) = []) as -> by by destruct s.
  cbn [app]. rewrite (directives_none (mjoin its)); [by rewrite app_nil_r|].
  apply (Forall_drop _ n) in Hd. revert Hd. induction F as [|it it' its0 its' S F IH]; [done|].
  intros [H1 H2]%Forall_cons. change (mjoin (it' :: its')) with (it' ++ mjoin its'). rewrite forallb_app.
  by rewrite (same_directives _ _ S), H1, IH.
Qed.

(** ** The soft pass *)

Lemma soft_split_join ms b : (soft_split ms b).1 ++ mjoin (soft_split ms b).2 = ms.
Proof.
  unfold soft_split, split_prefix_and_iterations, group_iterations. destruct b; cbn [fst snd]; rewrite group_from_join; apply take_drop.
Qed.

Lemma soft_spec ms max_chars keep b :
  let out := (compress_tool_context ms max_chars keep b).1 in
  out = ms ∨ ∃ s n, (n < length (soft_split ms b).2)%nat ∧
    out = (soft_split ms b).1 ++ [user_text s] ++ directives (mjoin (take n (soft_split ms b).2)) ++ mjoin (drop n (soft_split ms b).2).
Proof.
  cbn zeta. unfold compress_tool_context. destruct (_ <=? max_chars); [by left|].
  destruct (soft_split ms b) as [prefix its]. cbn [fst snd]. destruct (Nat.leb_spec (length its) (Z.to_nat (Z.max 1 keep))); [by left|].
  right. eexists _, (length its - Z.to_nat (Z.max 1 keep))%nat. split; [lia|]. reflexivity.
Qed.

Lemma soft_directives ms max_chars keep b : directives (compress_tool_context ms max_chars keep b).1 = directives ms.
Proof.
  destruct (soft_spec ms max_chars keep b) as [E|(s & n & _ & E)]; cbn zeta in E; rewrite E; [done|].
  rewrite !directives_app, directives_idem. change (directives [user_text s]) with (@nil Json). cbn [app].
  rewrite <- (directives_app (mjoin (take n _))), <- join_app, take_drop, <- directives_app. by rewrite soft_split_join.
Qed.

Lemma soft_settled ms max_chars keep :
  Forall native ms → settled ms →
  settled (compress_tool_context ms max_chars keep None).1 ∧ Forall native (compress_tool_context ms max_chars keep None).1.
Proof.
  intros Hn Hs. destruct (soft_spec ms max_chars keep None) as [E|(s & n & _ & E)]; cbn zeta in E; rewrite E; [done|].
  unfold soft_split, split_prefix_and_iterations. cbn [fst snd]. pose proof (prefix_toolless _ Hn) as Ht.
  rewrite <- (take_drop (prefix_end ms) ms) in Hn, Hs. destruct (rest_closed _ _ Ht Hn Hs) as (sn & sn' & Er).
  apply Forall_app in Hn as [Hn1 Hn2]. destruct (group_from_closed [] _ sn sn' Hn2 Er) as [Hg _].
  fold (group_iterations (drop (prefix_end ms) ms)) in Hg. set (its := group_iterations _) in *.
  assert (Hd : Forall (λ m, toolless m ∧ native m) (directives (mjoin (take n its)))).
  { apply Forall_forall. intros m [Hm Hd]%list_elem_of_In%filter_In. apply list_elem_of_In, list_elem_of_join in Hm as (it & Hm & Hit).
    apply (Forall_take _ n) in Hg. eapply Forall_forall in Hg as [_ Hni]; [|exact Hit]. eapply Forall_forall in Hni; [|exact Hm].
    split; [by apply Hni|done]. }
  apply Forall_and in Hd as [Hd1 Hd2]. apply (Forall_drop _ n), Forall_and in Hg as [Hc Hni].
  split; [apply closed_settled; repeat apply closed_app|rewrite !Forall_app; split_and!].
  - by apply toolless_closed.
  - apply toolless_closed. by repeat constructor.
  - by apply toolless_closed.
  - by apply closed_join.
  - done.
  - apply Forall_singleton, user_text_native.
  - done.
  - by apply Forall_join.
Qed.

(** ** The task *)

(** A text of a user that no legacy heuristic takes for a tool result. *)
Definition task_message (m : Json) : Prop :=
  is_tool_message m = false ∧ has_role m "assistant" = false.

Lemma prefix_end_task t ms : task_message t → prefix_end (t :: ms) = S (prefix_end ms).
Proof. intros [H1 H2]. cbn. by rewrite H1, H2. Qed.

Lemma parts_task t ms : task_message t → head (prefix (parts_of None (t :: ms))) = Some t.
Proof.
  intros Ht. unfold parts_of, agent_parts, split_prefix_and_iterations. rewrite (prefix_end_task _ _ Ht). cbn [take drop].
  pose proof (peel_prefix_spec (rev (t :: take (prefix_end ms) ms))) as Hp. destruct (peel_prefix _) as [[p cs] ss].
  destruct Hp as (_ & _ & Hl). cbn [rev] in Hl. rewrite last_snoc in Hl.
  assert (Hh : head (rev p ++ cs) = Some t).
  { destruct p as [|x p] using rev_ind; [done|]. rewrite last_snoc in Hl. injection Hl as ->. by rewrite rev_app_distr. }
  unfold hoist_controls. destruct (directives _); cbn [prefix iterations]; [done|].
  by destruct (rev p ++ cs).
Qed.

Lemma emergency_task t ms target out r :
  task_message t → emergency_compress None (t :: ms) target = Some (out, r) → head out = Some t.
Proof.
  intros Ht (_ & _ & [ ->|[_ (s & its & n & -> & _)]])%emergency_compress_spec; [done|].
  apply (parts_task t ms) in Ht. unfold payload. by destruct (prefix (parts_of None (t :: ms))).
Qed.

Lemma soft_task t ms max_chars keep : task_message t → head (compress_tool_context (t :: ms) max_chars keep None).1 = Some t.
Proof.
  intros Ht. destruct (soft_spec (t :: ms) max_chars keep None) as [E|(s & n & _ & E)]; cbn zeta in E; rewrite E; [done|].
  unfold soft_split, split_prefix_and_iterations. cbn [fst]. by rewrite (prefix_end_task _ _ Ht).
Qed.

(** ** Elision *)

Lemma elide_search_ends fuel s limit lo hi best :
  0 <= lo → (Z.to_nat (hi - lo + 1) < fuel)%nat → is_Some (elide_search fuel s limit lo hi best).
Proof.
  revert lo hi best. induction fuel as [|fuel IH]; intros lo hi best Hlo Hf; [lia|]. cbn [elide_search].
  destruct (Z.ltb_spec hi lo); [by eexists|]. assert (lo <= (lo + hi) / 2 <= hi) by (split; [apply Z.div_le_lower_bound|apply Z.div_le_upper_bound]; lia).
  destruct (_ <=? limit); apply IH; lia.
Qed.

Lemma elide_search_bound fuel s limit lo hi best out :
  len best <= limit → elide_search fuel s limit lo hi best = Some out → len out <= limit.
Proof.
  revert lo hi best. induction fuel as [|fuel IH]; intros lo hi best Hb; [done|]. cbn [elide_search].
  destruct (_ <? _); [by intros [= <-]|]. destruct (Z.leb_spec (len (elision s ((lo + hi) / 2))) limit); by apply IH.
Qed.

(** The replacement is never longer than its bound. *)
Lemma elide_string_bound s limit : len (elide_string s limit) <= Z.max 0 limit.
Proof.
  assert (Hc : len (compact_elision s (Z.max 0 limit)) <= Z.max 0 limit).
  { unfold compact_elision, take_z, len. rewrite length_take. lia. }
  unfold elide_string. destruct (elide_search _ _ _ _ _ _) as [[|c best]|] eqn:E; try done.
  eapply elide_search_bound; [|exact E]. unfold len. cbn [length]. lia.
Qed.

Lemma elide_search_total s limit : is_Some (elide_search (S (length s)) s limit 0 (len s - 1) []).
Proof. apply elide_search_ends; [lia|]. unfold len. lia. Qed.

(** ** Surfaces *)

Lemma hoist_prefix p : ∃ cs, prefix (hoist_controls p) = prefix p ++ cs.
Proof. unfold hoist_controls. destruct (directives _) as [|c cs]; [exists []; by rewrite app_nil_r|]. by exists (c :: cs). Qed.

(** The pinned envelope stays at the front. *)
Lemma emergency_envelope n ms target out r :
  emergency_compress (Some n) ms target = Some (out, r) → ∃ tail, out = take (clamp n ms) ms ++ tail.
Proof.
  intros (_ & _ & [ ->|[_ (s & its & k & -> & _)]])%emergency_compress_spec; [exists (drop (clamp n ms) ms); by rewrite take_drop|].
  unfold payload, parts_of. destruct (hoist_prefix (pinned_parts n ms)) as [cs ->].
  unfold pinned_parts. destruct (peel_territory _) as [ss t]. cbn [prefix]. eexists. by rewrite <- app_assoc.
Qed.

Lemma spend_replay_spec pin target rest replay n request core s :
  (∃ t, emergency_compress (Some pin) rest t = Some (request, core)) →
  spend_replay pin target rest replay n request core = Some s →
  (∃ t, emergency_compress (Some pin) rest t = Some (spent_request s, spent_core s))
  ∧ ∃ k, replay_left s = drop k replay ∧ spent_total s = n + Z.of_nat k ∧ (k <= length replay)%nat.
Proof.
  revert n request core. induction replay as [|x replay IH]; intros n request core Hc; cbn [spend_replay].
  { intros [= <-]. split; [done|]. exists 0%nat. cbn. split_and!; [done|lia|done]. }
  destruct (_ <=? target). { intros [= <-]. split; [done|]. exists 0%nat. cbn. split_and!; [done|lia|lia]. }
  destruct (inner_pass _ _ _ _ _) as [[req2 core2]|] eqn:E; [|done]. cbn [mbind option_bind]. intros Es.
  apply IH in Es as (Hs & k & E1 & E2 & Hk); [|by eexists]. split; [done|]. exists (S k). cbn. split_and!; [done|lia|lia].
Qed.

(** For a surface that declares its request, compression never touches the protected
    envelope: in the result it stands verbatim at the reported position, behind the
    newest part of the replayed conversation; when the report says that the payload fits
    it does, with the reported size; and when nothing could be done the payload is
    unchanged and so is the boundary. *)
Theorem surface_request_survives ms target b out r :
  compress_with_boundary ms target b = Some (out, r) →
  let start := clamp (request_start b) ms in
  let envelope := take (envelope_of b (drop start ms)) (drop start ms) in
  let marked := (0 <? elided_replay b) && (0 <? start)%nat in
  (out = ms ∨ ∃ tail, drop (Z.to_nat (boundary_request_start r)) out = envelope ++ tail)
  ∧ (out = ms ∨ ∃ k tail, out = marker_for (boundary_elided_replay r)
       ++ drop k (drop (if marked then 1 else 0) (take start ms)) ++ envelope ++ tail)
  ∧ (whole_fits r = true → estimate_message_chars out <= target)
  ∧ whole_compressed r = estimate_message_chars out.
Proof.
  cbn zeta. unfold compress_with_boundary. set (start := clamp (request_start b) ms). set (rest := drop start ms).
  set (replay := drop _ (take start ms)). set (pin := Z.of_nat (envelope_of b rest)).
  destruct (inner_pass pin target rest replay _) as [[req core]|] eqn:E1; [|done]. cbn [mbind option_bind].
  destruct (spend_replay _ _ _ _ _ _ _) as [s|] eqn:E2; [|done]. cbn [mbind option_bind].
  apply spend_replay_spec in E2 as ([t Ht] & k & Hk & _ & _); [|by eexists].
  apply emergency_envelope in Ht as [tail Ht].
  assert (Hp : take (clamp pin rest) rest = take (envelope_of b rest) rest).
  { unfold clamp, pin. destruct (decide (envelope_of b rest <= length rest)%nat).
    - f_equal. unfold len. lia.
    - rewrite !take_ge; [done|lia|unfold len; lia]. }
  rewrite Hp in Ht. set (head := marker_for (spent_total s) ++ replay_left s).
  destruct (_ && bool_decide _) eqn:Er; intros [= <- <-]; cbn.
  - split_and!; [by left|by left| |done]. intros [_ Hf]%andb_true_iff. rewrite Hf in Er.
    by rewrite andb_false_r in Er.
  - split_and!.
    + right. exists tail. unfold len. rewrite Nat2Z.id, drop_app_length. exact Ht.
    + right. exists k, tail. unfold head. by rewrite Hk, Ht, <- !app_assoc.
    + intros [Hle _]%andb_true_iff. by apply Z.leb_le.
    + done.
Qed.

(** Emergency compression of an agent's transcript either meets its target or changes
    nothing, and a payload that already fits stays as it is.  What it changes is the
    middle: the prefix and every directive stay, the last iterations stay up to elided
    payload strings, the newest among them always, and what is between becomes at most
    one summary. *)
Theorem emergency_meets_target pin ms target out r :
  emergency_compress pin ms target = Some (out, r) →
  (fits r = true → estimate_message_chars out <= target ∧ compressed_chars r = estimate_message_chars out)
  ∧ (fits r = false → out = ms)
  ∧ (estimate_message_chars ms <= target → out = ms)
  ∧ (out = ms ∨ ∃ s kept n, out = prefix (parts_of pin ms) ++ option_list (user_text <$> s) ++ mjoin kept
       ∧ Forall2 (Forall2 same_shape) (drop n (iterations (parts_of pin ms))) kept
       ∧ (iterations (parts_of pin ms) ≠ [] → (n < length (iterations (parts_of pin ms)))%nat)).
Proof.
  intros (H1 & H2 & H3)%emergency_compress_spec. split_and!; [done|by intros [? _]%H2| |].
  - intros Hle. destruct H3 as [ ->|[? _]]; [done|lia].
  - destruct H3 as [ ->|[_ Hc]]; [by left|by right].
Qed.

(** C39: Compression, soft or emergency, keeps a transcript replayable: if every call of an
    agent's transcript has its result before, it has afterwards; the result is again such
    a transcript; the messages of the parent all survive, verbatim and in order; and a
    task that does not open like a tool result ([task_message]; one that does is lost,
    example task_like_a_result_is_lost) stays the first message. *)
Theorem compression_keeps_transcripts task ms :
  Forall native (task :: ms) → settled (task :: ms) → task_message task →
  (∀ target out r, emergency_compress None (task :: ms) target = Some (out, r) →
     settled out ∧ Forall native out ∧ directives out = directives (task :: ms) ∧ head out = Some task)
  ∧ (∀ max_chars keep, let out := (compress_tool_context (task :: ms) max_chars keep None).1 in
     settled out ∧ Forall native out ∧ directives out = directives (task :: ms) ∧ head out = Some task).
Proof.
  intros Hn Hs Ht. split.
  - intros target out r E. destruct (emergency_settled None _ _ _ _ Hn Hs I E) as [S N].
    split_and!; [done..|by eapply emergency_directives|by eapply emergency_task].
  - intros max_chars keep. cbn zeta. destruct (soft_settled _ max_chars keep Hn Hs) as [S N].
    split_and!; [done..|apply soft_directives|by apply soft_task].
Qed.

End theory.

Module CompressWitness.
Import Concrete.

#[export] Instance no_reasons : Rendering := {| failure_reason _ := []; str_of _ := [] |}.

Definition long (n : nat) : pystr := replicate n 120.
Definition use (i : string) : Json :=
  JDict [(lit "role", JStr (lit "assistant"));
         (lit "content", JList (assistant_content [] [{| call_id := lit i; name := lit "read"; input := JDict []; parse_error := []; replay := None |}]))].
Definition done (i : string) (text : pystr) : Json :=
  JDict [(lit "role", JStr (lit "user"));
         (lit "content", JList [JDict [(lit "type", JStr (lit "tool_result")); (lit "tool_use_id", JStr (lit i));
                                       (lit "content", JStr text); (lit "status", JStr (lit "succeeded"))]])].
Definition parent (s : string) : Json :=
  JDict [(lit "role", JStr (lit "user")); (lit "content", JStr (lit s)); (lit "provenance", JStr (lit "agent_parent"))].

Definition task : Json := user_text (lit "count the files").
Definition story : list Json :=
  [use "a"; done "a" (long 3000); parent "only the big ones"; use "b"; done "b" (long 3000); use "c"; done "c" (long 3000)].

Lemma story_native : Forall native (task :: story).
Proof. repeat (apply Forall_cons; split; [by split; intros; [try done|..]; try done; by eexists|]). constructor. Qed.

(** The newest cycle alone exceeds the target: it is elided down to the whole budget, which
    leaves no room for a summary of the two others. *)
Example story_compressed :
  match emergency_compress None (task :: story) 1500 with
  | Some (out, r) => fits r = true ∧ iterations_kept r = 1%nat ∧ iterations_total r = 3%nat
                     ∧ length out = 4%nat ∧ (out !! 0%nat, out !! 1%nat) = (Some task, Some (parent "only the big ones"))
  | None => False
  end.
Proof. by vm_compute. Qed.

Definition compressed : list Json * Report :=
  default ([], report_of {| prefix := []; carried := []; iterations := [] |} 0 0 0 nothing_kept false)
    (emergency_compress None (task :: story) 1500).

Lemma emergency_meets_target_witness :
  emergency_compress None (task :: story) 1500 = Some compressed
  ∧ estimate_message_chars compressed.1 <= 1500.
Proof.
  assert (E : emergency_compress None (task :: story) 1500 = Some compressed) by (vm_compute; reflexivity).
  split; [exact E|].
  destruct (emergency_meets_target None (task :: story) 1500 compressed.1 compressed.2) as (H1 & _ & _ & _).
  - rewrite E. by destruct compressed.
  - apply H1. by vm_compute.
Defined.

Lemma compression_keeps_transcripts_witness :
  settled (task :: story) ∧ settled compressed.1 ∧ settled (compress_tool_context (task :: story) 100 1 None).1.
Proof.
  assert (S : settled (task :: story)) by (vm_compute; by eexists).
  destruct (compression_keeps_transcripts task story story_native S) as [H1 H2]; [by vm_compute|].
  split; [exact S|]. split.
  - apply (H1 1500 compressed.1 compressed.2). by vm_compute.
  - apply (H2 100 1).
Defined.

(** A chat: three replayed messages, the request, one cycle. *)
Definition boundary : SurfaceBoundary := {| request_start := 3; elided_replay := 0; envelope_len := Some 1 |}.
Definition chat : list Json :=
  [user_text (long 900); user_text (long 900); user_text (long 90); task; use "a"; done "a" (long 300)].

Definition chat_compressed : list Json * SurfaceReport :=
  default ([], {| inner := compressed.2; whole_original := 0; whole_compressed := 0; whole_fits := false; replay_original := 0;
                  replay_elided := 0; boundary_request_start := 0; boundary_elided_replay := 0 |})
    (compress_with_boundary chat 800 boundary).

Lemma surface_request_survives_witness :
  compress_with_boundary chat 800 boundary = Some chat_compressed
  ∧ boundary_request_start chat_compressed.2 = 2 ∧ boundary_elided_replay chat_compressed.2 = 2
  ∧ ∃ tail, drop 2 chat_compressed.1 = [task] ++ tail.
Proof.
  assert (E : compress_with_boundary chat 800 boundary = Some chat_compressed) by (vm_compute; reflexivity).
  split; [exact E|]. split; [by vm_compute|]. split; [by vm_compute|].
  destruct (surface_request_survives chat 800 boundary chat_compressed.1 chat_compressed.2) as ([H|H] & _ & _ & _).
  - rewrite E. by destruct chat_compressed.
  - apply (f_equal length) in H. by vm_compute in H.
  - destruct H as [tail H]. exists tail. by vm_compute in H.
Defined.

(** An agent's task that opens like a legacy tool result is taken for one: it is summarized
    away with its first cycle. *)
Example task_like_a_result_is_lost :
  let odd := user_text (lit "[Tool result: audit] check the log above") in
  match emergency_compress None (odd :: story) 1500 with
  | Some (out, r) => fits r = true ∧ odd ∉ out
  | None => False
  end.
Proof. vm_compute. split; [done|]. intros H. repeat (apply elem_of_cons in H as [H|H]; [done|]). by apply elem_of_nil in H. Qed.

End CompressWitness.
