(* ===== verification/Budget.v ===== *)
(** * Context budgets (src/src/llm/context_budget.py, src/src/config/schema.py)

    From a model to character targets: the believed window, the policy on its use, the
    rescue ladder, and the estimate that admission compares with the window.  All is
    integer arithmetic; densities are in thousandths of a character per token. *)

From S2P Require Import Prelude PyStr PyLib.
From Stdlib Require Import Sorted.
Open Scope string_scope.
Open Scope list_scope.
Open Scope Z_scope.

Definition FIXED_ENVELOPE_RESERVE_TOKENS : Z := 42000.
Definition COMPATIBLE_REQUEST_OUTPUT_CEILING : Z := 32768.
Definition DEFAULT_DENSITY_MILLI : Z := 2500.
Definition MIN_DENSITY_MILLI : Z := 400.
Definition MAX_DENSITY_MILLI : Z := DEFAULT_DENSITY_MILLI.
Definition IMAGE_TOKEN_SURCHARGE : Z := 2500.
Definition LEGACY_UTILIZATION_FLOOR_TOKENS : Z := 272000.
Definition RESCUE_CEILING_CHARS : Z := 400000.
Definition COMPATIBLE_RESCUE_MIN_USABLE_TOKENS : Z := 63000.

Definition CODEX_MODEL_INPUT_BUDGETS : list (pystr * Z) := Eval compute in
  [(lit "gpt-6-astra", 917534); (lit "gpt-6.1-sol", 921849); (lit "gpt-6.1-terra", 921847); (lit "gpt-6-sol", 921799);
   (lit "gpt-6-luna", 921799); (lit "gpt-5.6-sol", 921601); (lit "gpt-5.6-terra", 917506); (lit "gpt-5.6-luna", 917506);
   (lit "gpt-5.4", 917506); (lit "gpt-5.4-mini", 262146)].
Definition CODEX_UNKNOWN_MODEL_INPUT_BUDGET : Z := 272000.
Inductive BaseSource : Type := Override | Floor | Unknown_default | Compatible_profile | Unknown_compatible | Persisted.

#[export] Instance BaseSource_eq_dec : EqDecision BaseSource.
Proof. solve_decision. Defined.

Record ContextBudgetSnapshot : Type := {
  canonical_model : pystr;
  base_budget : Z;
  base_source : BaseSource;
  effective_budget : Z;
  clamp_applied : bool;
  working_budget : Z;
  compactable_tokens : Z;
  derived_chars : Z;
  primary_chars : Z;
  ceiling_applied : bool;
  ladder : list Z;
  density_milli : Z;
  calibrated : bool
}.

(** [clamp_density_milli] of an integer. *)
Definition clamp_density_milli (d : Z) : Z := Z.max MIN_DENSITY_MILLI (Z.min MAX_DENSITY_MILLI d).

(** [_estimate_request_tokens_at_density] *)
Definition estimate_at_density (chars images density : Z) : Z :=
  FIXED_ENVELOPE_RESERVE_TOKENS + - (- (Z.max 0 chars) * 1000 / density) + Z.max 0 images * IMAGE_TOKEN_SURCHARGE.

Definition estimate_request_tokens (chars images density : Z) : Z :=
  estimate_at_density chars images (clamp_density_milli density).

(** [None] is its ValueError. *)
Definition estimate_request_tokens_forensic (chars images density : Z) : option Z :=
  if density <=? 0 then None else Some (estimate_at_density chars images density).

Definition base_of (overrides : list (pystr * Z)) (canonical : pystr) : Z * BaseSource :=
  match dict_get overrides canonical with
  | Some b => (b, Override)
  | None => match dict_get CODEX_MODEL_INPUT_BUDGETS canonical with
            | Some b => (b, Floor)
            | None => (CODEX_UNKNOWN_MODEL_INPUT_BUDGET, Unknown_default)
            end
  end.

Definition rungs (primary : Z) : list Z :=
  let r1 := primary * 7 / 10 in
  let r2 := Z.min r1 RESCUE_CEILING_CHARS in
  (if 0 <? r1 then [r1] else []) ++ (if (0 <? r2) && negb (r2 =? r1) then [r2] else []).

(** [resolve_context_budget]; [canonical] is what [canonical_codex_model] makes of the
    name (it raises for a reference to another provider). *)
Definition resolve_context_budget (canonical : pystr) (overrides : list (pystr * Z)) (utilization : Z)
    (max_context_chars observed_clamp density : option Z) : ContextBudgetSnapshot :=
  let '(base, source) := base_of overrides canonical in
  let clamped := match observed_clamp with Some c => c <? base | None => false end in
  let effective := match observed_clamp with Some c => if c <? base then c else base | None => base end in
  let working := Z.min effective (Z.max LEGACY_UTILIZATION_FLOOR_TOKENS (effective * utilization / 100)) in
  let compactable := Z.max 0 (working - FIXED_ENVELOPE_RESERVE_TOKENS) in
  let resolved := match density with Some d => clamp_density_milli d | None => DEFAULT_DENSITY_MILLI end in
  let derived := compactable * resolved / 1000 in
  let ceiling := match max_context_chars with Some m => m <? derived | None => false end in
  let primary := match max_context_chars with Some m => if m <? derived then m else derived | None => derived end in
  {| canonical_model := canonical; base_budget := base; base_source := source; effective_budget := effective;
     clamp_applied := clamped; working_budget := working; compactable_tokens := compactable; derived_chars := derived;
     primary_chars := primary; ceiling_applied := ceiling; ladder := rungs primary; density_milli := resolved;
     calibrated := bool_decide (is_Some density) |}.

(** ** Compatible endpoints *)

Definition COMPATIBLE_MODEL_ALIASES : list (pystr * pystr) := Eval compute in
  [(lit "deepseek-flash", lit "deepseek-v4-flash"); (lit "deepseek-chat", lit "deepseek-v4-flash");
   (lit "deepseek-reasoner", lit "deepseek-v4-pro")].

Definition canonical_compatible_model (model : pystr) : pystr :=
  let raw := strip model in
  let raw := if startswith (lit "compat:") raw then drop 7 raw else raw in
  default raw (dict_get COMPATIBLE_MODEL_ALIASES raw).

(** A profile with its total window and its output cap, if it declares one. *)
Record Profile : Type := { total_window_tokens : Z; max_output_tokens : option Z }.

Definition compatible_request_output_tokens (p : Profile) : option Z :=
  match max_output_tokens p with
  | Some cap => if 0 <? cap then Some (Z.min cap COMPATIBLE_REQUEST_OUTPUT_CEILING) else None
  | None => None
  end.

Definition compatible_usable_input_tokens (p : option Profile) : option Z :=
  p ← p; reserve ← compatible_request_output_tokens p; Some (Z.max 0 (total_window_tokens p - reserve)).

(** The configured profiles, and those of an OpenRouter catalogue. *)
Definition compatible_model_profile (model : pystr) (profiles : list (pystr * Profile)) (catalogue : option (list (pystr * Profile)))
    : option Profile :=
  match dict_get profiles (canonical_compatible_model model) with
  | Some p => Some p
  | None => c ← catalogue; dict_get c (canonical_compatible_model model)
  end.

(** [snapshot_for_compatible_profile] *)
Definition snapshot_for_compatible_profile (model : pystr) (profile : option Profile) (utilization : Z)
    (max_context_chars : option Z) : ContextBudgetSnapshot :=
  let usable := default 0 (compatible_usable_input_tokens profile) in
  let working := usable * Z.max 0 (Z.min 100 utilization) / 100 in
  let compactable := Z.max 0 (working - FIXED_ENVELOPE_RESERVE_TOKENS) in
  let derived := compactable * DEFAULT_DENSITY_MILLI / 1000 in
  let primary := match max_context_chars with Some m => Z.min derived m | None => derived end in
  {| canonical_model := canonical_compatible_model model; base_budget := usable;
     base_source := match profile with Some _ => Compatible_profile | None => Unknown_compatible end;
     effective_budget := usable; clamp_applied := false; working_budget := working; compactable_tokens := compactable;
     derived_chars := derived; primary_chars := primary; ceiling_applied := negb (primary =? derived);
     ladder := if COMPATIBLE_RESCUE_MIN_USABLE_TOKENS <=? working then rungs primary else [];
     density_milli := DEFAULT_DENSITY_MILLI; calibrated := false |}.

(** [_compatible_overflow_target_chars] (src/src/agents/manager.py): the target a rejection
    with a window of [window] tokens gives, for a request that asks for [cap] tokens. *)
Definition compatible_overflow_target (window cap : option Z) (density : Z) : option Z :=
  window ← window; cap ← cap;
  if (window <=? 0) || (cap <=? 0) || (window - cap <=? 0) then None
  else Some (Z.max 1 (Z.max 0 (window - cap - FIXED_ENVELOPE_RESERVE_TOKENS) * (if 0 <? density then density else 2500) / 1000)).

(** ** Theorems *)

Lemma rungs_spec primary :
  StronglySorted Z.gt (rungs primary) ∧ Forall (λ r, 0 < r ∧ r < primary ∧ 10 * r <= 7 * primary) (rungs primary)
  ∧ (length (rungs primary) <= 2)%nat ∧ (∀ r, last (rungs primary) = Some r → r <= RESCUE_CEILING_CHARS)
  ∧ (rungs primary = [] ↔ primary < 2).
Proof.
  unfold rungs, RESCUE_CEILING_CHARS. set (r1 := primary * 7 / 10).
  assert (10 * r1 <= primary * 7 < 10 * r1 + 10) as [H1 H2] by (unfold r1; pose proof (Z.div_mod (primary * 7) 10); pose proof (Z.mod_pos_bound (primary * 7) 10); lia).
  destruct (Z.ltb_spec 0 r1), (Z.ltb_spec 0 (Z.min r1 400000)), (Z.eqb_spec (Z.min r1 400000) r1); cbn; try lia;
    split_and!; repeat constructor; try lia; try (intros ? [= <-]; lia); try done.
Qed.

(** What the estimate charges for a text of [chars] characters. *)
Lemma estimate_char_tokens chars density tokens :
  0 < density → chars * 1000 <= tokens * density → 0 <= tokens →
  estimate_at_density chars 0 density <= FIXED_ENVELOPE_RESERVE_TOKENS + tokens.
Proof.
  intros Hd Hc Ht. unfold estimate_at_density. change (Z.max 0 0) with 0.
  assert (- tokens <= - Z.max 0 chars * 1000 / density); [|lia]. apply Z.div_le_lower_bound; [done|]. nia.
Qed.

Lemma clamp_density_range d : MIN_DENSITY_MILLI <= clamp_density_milli d <= MAX_DENSITY_MILLI.
Proof. unfold clamp_density_milli, MIN_DENSITY_MILLI, MAX_DENSITY_MILLI, DEFAULT_DENSITY_MILLI. lia. Qed.

Lemma clamp_density_idem d : clamp_density_milli (clamp_density_milli d) = clamp_density_milli d.
Proof. unfold clamp_density_milli, MIN_DENSITY_MILLI, MAX_DENSITY_MILLI, DEFAULT_DENSITY_MILLI. lia. Qed.

Section resolve.
Variables (canonical : pystr) (overrides : list (pystr * Z)) (utilization : Z) (max_chars clamp density : option Z).

Let s := resolve_context_budget canonical overrides utilization max_chars clamp density.

Lemma resolve_fields :
  density_milli s = match density with Some d => clamp_density_milli d | None => DEFAULT_DENSITY_MILLI end
  ∧ effective_budget s <= base_budget s ∧ working_budget s <= effective_budget s
  ∧ compactable_tokens s = Z.max 0 (working_budget s - FIXED_ENVELOPE_RESERVE_TOKENS)
  ∧ derived_chars s = compactable_tokens s * density_milli s / 1000
  ∧ primary_chars s <= derived_chars s ∧ ladder s = rungs (primary_chars s)
  ∧ (LEGACY_UTILIZATION_FLOOR_TOKENS <= effective_budget s → LEGACY_UTILIZATION_FLOOR_TOKENS <= working_budget s)
  ∧ (effective_budget s <= LEGACY_UTILIZATION_FLOOR_TOKENS → working_budget s = effective_budget s).
Proof.
  unfold s, resolve_context_budget. destruct (base_of overrides canonical) as [base source]. cbn.
  unfold LEGACY_UTILIZATION_FLOOR_TOKENS.
  split_and!; try done; destruct clamp as [c|]; try (destruct (Z.ltb_spec c base)); try lia;
    destruct max_chars as [m|]; try lia; match goal with |- context [if ?b then _ else _] => destruct b eqn:E end; lia.
Qed.

Lemma resolve_density : MIN_DENSITY_MILLI <= density_milli s <= MAX_DENSITY_MILLI.
Proof.
  destruct resolve_fields as [-> _]. destruct density as [d|]; [apply clamp_density_range|].
  unfold MIN_DENSITY_MILLI, MAX_DENSITY_MILLI, DEFAULT_DENSITY_MILLI. lia.
Qed.
End resolve.

(** The budget of a generation is consistent for any model, override, policy, ceiling,
    clamp and density.  A payload at its primary target, and so one at any rescue rung, is
    estimated to fit the believed window whenever the window holds the fixed envelope; the
    rungs are positive, at most two, strictly falling and below seven tenths of the target,
    the last within the rescue ceiling; there is no rung exactly when the target is below
    two characters; and policy and calibration only ever shrink the target. *)
Theorem targets_fit_the_window canonical overrides utilization max_chars clamp density chars :
  let s := resolve_context_budget canonical overrides utilization max_chars clamp density in
  let plain := resolve_context_budget canonical overrides utilization None clamp None in
  (FIXED_ENVELOPE_RESERVE_TOKENS <= effective_budget s → chars <= primary_chars s ∨ chars ∈ ladder s →
     estimate_request_tokens chars 0 (density_milli s) <= effective_budget s)
  ∧ StronglySorted Z.gt (ladder s) ∧ Forall (λ r, 0 < r ∧ 10 * r <= 7 * primary_chars s) (ladder s)
  ∧ (length (ladder s) <= 2)%nat ∧ (∀ r, last (ladder s) = Some r → r <= RESCUE_CEILING_CHARS)
  ∧ (ladder s = [] ↔ primary_chars s < 2)
  ∧ primary_chars s <= primary_chars plain
  ∧ working_budget s <= effective_budget s <= base_budget s
  ∧ (effective_budget s <= LEGACY_UTILIZATION_FLOOR_TOKENS → working_budget s = effective_budget s).
Proof.
  cbn zeta. set (s := resolve_context_budget _ _ _ max_chars _ _). set (plain := resolve_context_budget _ _ _ _ _ _).
  pose proof (resolve_density canonical overrides utilization max_chars clamp density) as Hd. fold s in Hd.
  destruct (resolve_fields canonical overrides utilization max_chars clamp density) as (F1 & F2 & F3 & F4 & F5 & F6 & F7 & F8 & F9).
  fold s in F1, F2, F3, F4, F5, F6, F7, F8, F9.
  destruct (rungs_spec (primary_chars s)) as (R1 & R2 & R3 & R4 & R5). rewrite F7.
  split_and!; try done; [| |].
  - intros He Hc. assert (Hp : chars <= primary_chars s ∨ chars <= 0).
    { destruct Hc as [Hc|Hc]; [by left|]. eapply Forall_forall in R2; [|exact Hc]. lia. }
    unfold estimate_request_tokens. replace (clamp_density_milli (density_milli s)) with (density_milli s).
    2: { unfold clamp_density_milli, MIN_DENSITY_MILLI, MAX_DENSITY_MILLI, DEFAULT_DENSITY_MILLI in *. lia. }
    etrans; [apply (estimate_char_tokens _ _ (compactable_tokens s))|].
    + unfold MIN_DENSITY_MILLI in Hd. lia.
    + assert (0 <= compactable_tokens s) by lia. assert (0 <= density_milli s) by (unfold MIN_DENSITY_MILLI in Hd; lia).
      pose proof (Z.mul_div_le (compactable_tokens s * density_milli s) 1000). nia.
    + lia.
    + unfold FIXED_ENVELOPE_RESERVE_TOKENS, LEGACY_UTILIZATION_FLOOR_TOKENS in *. lia.
  - eapply Forall_impl; [exact R2|]. cbn. lia.
  - etrans; [exact F6|]. rewrite F5.
    assert (Hc : compactable_tokens plain = compactable_tokens s) by (unfold plain, s, resolve_context_budget; by destruct (base_of _ _)).
    assert (primary_chars plain = compactable_tokens plain * DEFAULT_DENSITY_MILLI / 1000) as -> by (unfold plain, resolve_context_budget; by destruct (base_of _ _)).
    rewrite Hc. apply Z.div_le_mono; [lia|]. assert (0 <= compactable_tokens s) by lia. unfold MAX_DENSITY_MILLI in Hd. nia.
Qed.

Lemma targets_fit_the_window_witness :
  let s := resolve_context_budget (lit "gpt-5.4-mini") [] 60 (Some 500000) None (Some 700) in
  ladder s = [107871] ∧ estimate_request_tokens 107871 0 (density_milli s) <= effective_budget s.
Proof.
  split; [by vm_compute|].
  destruct (targets_fit_the_window (lit "gpt-5.4-mini") [] 60 (Some 500000) None (Some 700) 107871) as [H _].
  apply H; [by vm_compute|]. right. vm_compute. by left.
Defined.
