(* ===== verification/ImageFit.v ===== *)
(** * Image retention (src/src/agents/image_retention.py)

    Images reach an agent in labelled user messages.  When a request does not fit, the
    oldest images the model has seen become notes, one group at a time; the unseen ones
    only when nothing else helps.  The size of a request is bounded without building it. *)

From S2P Require Import Prelude PyStr PyLib Transcript Compress CompressTheory.
Open Scope string_scope.
Open Scope list_scope.
Open Scope Z_scope.

Definition REQUEST_PAYLOAD_LIMIT : Z := 512 * 1024 * 1024.
Definition CHAR_BYTES : Z := 14.
Definition NODE_BYTES : Z := 512.
Definition ENVELOPE_BYTES : Z := 64 * 1024.

Definition OMITTED_SEEN : pystr :=
  lit ("[Image omitted from later requests to keep the request within limits. " ++ "Call the tool again to see it.]").
Definition WITHHELD_UNSEEN : pystr :=
  lit ("[Image not sent: the images from this call do not fit the request limits together. " ++
       "Nothing was re-run; load fewer images at a time.]").

(** ** Groups *)

Definition is_group (m : Json) : bool := has_role m "user" && existsb is_image (blocks_of m).

(** The positions of the messages that satisfy a test. *)
Definition positions (f : Json → bool) (ms : list Json) : list nat :=
  List.filter (λ i, match ms !! i with Some m => f m | None => false end) (seq 0 (length ms)).

Definition image_groups (ms : list Json) : list nat := positions is_group ms.

(** The position after the last reply: [_last_assistant], plus one. *)
Definition after_last_assistant (ms : list Json) : nat :=
  match last (positions (λ m, has_role m "assistant") ms) with Some i => S i | None => 0%nat end.

Definition has_images (ms : list Json) : bool := match image_groups ms with [] => false | _ => true end.

Definition seen_groups (ms : list Json) : list nat :=
  List.filter (λ i, S i <? after_last_assistant ms)%nat (image_groups ms).

Definition unseen_groups (ms : list Json) : list nat :=
  List.filter (λ i, after_last_assistant ms <? S i)%nat (image_groups ms).

Definition group_count (ms : list Json) : nat := length (image_groups ms).

(** ** Size of a request *)

Section sizes.
Context `{Codec, Rendering}.

Definition SHORT_ESCAPES : list Z := [10; 13; 9; 8; 12].
Definition is_control (c : Z) : bool := ((0 <=? c) && (c <=? 31)) || (c =? 127).

Definition count (f : Z → bool) (s : pystr) : Z := len (List.filter f s).

(** [_json_string_bytes] *)
Definition json_string_bytes (s : pystr) : Z :=
  if ascii s then
    let controls := count is_control s in
    let short := count (λ c, bool_decide (c ∈ SHORT_ESCAPES)) s in
    len s + 2 + count (λ c, (c =? 34) || (c =? 92)) s + short + 5 * (controls - short)
  else 12 * len s + 2.

(** [_bound]: the slot of a ReplayDict is charged apart from the items. *)
Fixpoint bound (v : Json) : Z :=
  match v with
  | JStr s => CHAR_BYTES * len s + 2
  | JDict kvs =>
      NODE_BYTES
      + (fix items kvs := match kvs with
                          | [] => 0
                          | (k, x) :: kvs => (if bool_decide (k = REPLAY_SLOT) then 0 else CHAR_BYTES * len k + 2 + bound x) + items kvs
                          end) kvs
      + match codex_arguments (JDict kvs) with Some a => json_string_bytes a | None => 0 end
  | JList vs => NODE_BYTES + (fix elems vs := match vs with [] => 0 | x :: vs => bound x + elems vs end) vs
  | v => len (dumps v) + NODE_BYTES
  end.

(** [_native_image_bytes]; a media type that is not a text is shown as [str] does. *)
Definition native_image_bytes (b : Json) : Z :=
  let src := default JNull (field b "source") in
  json_string_bytes (default [] (str_field src "data"))
  + (CHAR_BYTES * len (match field src "media_type" with Some v => text_of v | None => [] end) + 2) + NODE_BYTES.

Definition message_bytes (m : Json) : Z :=
  match m, field m "content" with
  | JDict kvs, Some (JList bs) =>
      NODE_BYTES
      + sumZ (λ kv, if bool_decide (kv.1 = lit "content") then 0 else CHAR_BYTES * len kv.1 + 2 + bound kv.2) kvs
      + (CHAR_BYTES * len (lit "content") + 2) + NODE_BYTES
      + sumZ (λ b, if is_image b then native_image_bytes b else bound b) bs
  | _, _ => bound m
  end.

(** [fixed_request_bytes], from the prompt and the tools as JSON. *)
Definition fixed_request_bytes (system_prompt : pystr) (tools : Json) : Z :=
  (CHAR_BYTES * len system_prompt + 2) + (CHAR_BYTES * len (dumps tools) + 2).

Definition request_bytes_bound (ms : list Json) (fixed : Z) : Z :=
  ENVELOPE_BYTES + fixed + NODE_BYTES + sumZ message_bytes ms.

Definition within_request_limit (ms : list Json) (fixed : Z) (limit : option Z) : bool :=
  request_bytes_bound ms fixed <=? default REQUEST_PAYLOAD_LIMIT limit.

(** [check_request_size]; the error carries the bound of the fixed parts. *)
Definition check_request_size (ms : list Json) (system : pystr) (tools : Json) : result Z () :=
  let fixed := fixed_request_bytes system tools in
  if within_request_limit ms fixed None then Ok () else Err fixed.

End sizes.

(** ** Omission *)

Definition note_block (note : pystr) (b : Json) : Json := if is_image b then text_block note else b.

Definition note_message (note : pystr) (m : Json) : Json :=
  set_field m (lit "content") (JList (note_block note <$> blocks_of m)).

(** [_replace_images] *)
Definition replace_images (ms : list Json) (indices : list nat) (note : pystr) : list Json :=
  imap (λ i m, if bool_decide (i ∈ indices) then note_message note m else m) ms.

Definition omit_seen (ms : list Json) (count : nat) : list Json * nat :=
  match take count (seen_groups ms) with
  | [] => (ms, 0%nat)
  | groups => (replace_images ms groups OMITTED_SEEN, length groups)
  end.

(** [fit_seen]; every round but the last omits a group, so the fuel is their number. *)
Fixpoint fit_seen_from (fuel : nat) (ok : list Json → bool) (ms : list Json) (omitted : nat) : option (list Json * nat) :=
  if ok ms then Some (ms, omitted)
  else
    match omit_seen ms 1 with
    | (_, O) => Some (ms, omitted)
    | (ms, n) => match fuel with O => None | S fuel => fit_seen_from fuel ok ms (omitted + n) end
    end.

Definition fit_seen (ok : list Json → bool) (ms : list Json) : option (list Json * nat) :=
  fit_seen_from (length (seen_groups ms)) ok ms 0.

Definition withhold_unseen (ms : list Json) : list Json * nat :=
  match unseen_groups ms with
  | [] => (ms, 0%nat)
  | groups => (replace_images ms groups WITHHELD_UNSEEN, length groups)
  end.

(** ** Notes keep the transcript *)

Lemma is_group_dict m : is_group m = true → ∃ kvs, m = JDict kvs.
Proof. unfold is_group. destruct m; try by rewrite andb_false_r. intros _. by eexists. Qed.

Lemma note_fields note m :
  str_field (note_message note m) "role" = str_field m "role"
  ∧ str_field (note_message note m) "provenance" = str_field m "provenance".
Proof. by split; apply str_field_set. Qed.

Lemma note_content note m : is_group m = true → list_content (note_message note m) = Some (note_block note <$> blocks_of m).
Proof. intros (kvs & ->)%is_group_dict. unfold list_content, note_message. by rewrite field_set_same. Qed.

Lemma note_block_type note b t : t = "tool_use" ∨ t = "tool_result" → has_type (note_block note b) t = has_type b t.
Proof.
  intros Ht. unfold note_block. destruct (is_image b) eqn:E; [|done]. unfold is_image in E. apply andb_true_iff in E as [E _].
  unfold has_type in *. apply bool_decide_eq_true in E. rewrite E. by destruct Ht as [ -> | -> ].
Qed.

Lemma note_settle_block note st b : settle_block st (note_block note b) = settle_block st b.
Proof.
  unfold settle_block. rewrite !note_block_type by auto. unfold note_block. destruct (is_image b) eqn:E; [|done].
  unfold is_image in E. apply andb_true_iff in E as [E _]. unfold has_type in *. apply bool_decide_eq_true in E. by rewrite E.
Qed.

Lemma group_not_reply m : is_group m = true → has_role m "assistant" = false ∧ list_content m = Some (blocks_of m).
Proof.
  unfold is_group, has_role. intros [Hr Hb]%andb_true_iff. apply bool_decide_eq_true in Hr. rewrite Hr. split; [done|].
  revert Hb. unfold blocks_of, list_content. by destruct (field m "content") as [[]|].
Qed.

Lemma note_settle note st m : is_group m = true → settle_message st (note_message note m) = settle_message st m.
Proof.
  intros Hg. rewrite !settle_content, (note_content _ _ Hg). destruct (group_not_reply _ Hg) as [Ha Hc].
  unfold has_role in *. rewrite (proj1 (note_fields note m)), Ha, Hc.
  clear Hc. revert st. induction (blocks_of m) as [|b bs IH]; intros st; [done|]. rewrite fmap_cons, !fold_opt_cons, note_settle_block.
  destruct (settle_block st b); cbn; [apply IH|done].
Qed.

Lemma existsb_note note bs t : t = "tool_use" ∨ t = "tool_result" →
  existsb (λ b, has_type b t) (note_block note <$> bs) = existsb (λ b, has_type b t) bs.
Proof. intros Ht. induction bs as [|b bs IH]; [done|]. cbn. by rewrite note_block_type, IH. Qed.

Lemma note_native note m : is_group m = true → native m → native (note_message note m) ∧ is_injected_directive (note_message note m) = is_injected_directive m.
Proof.
  intros Hg [H1 H2 H3]. destruct (group_not_reply _ Hg) as [Ha Hc].
  assert (Hd : is_injected_directive (note_message note m) = is_injected_directive m).
  { unfold is_injected_directive. by rewrite (proj2 (note_fields note m)). }
  assert (Hr : has_role (note_message note m) "assistant" = false).
  { unfold has_role in *. by rewrite (proj1 (note_fields note m)). }
  split; [|done]. split; rewrite ?Hr, ?Hd; [done| |].
  - unfold is_tool_use_message in *. rewrite blocks_of_content, (note_content _ _ Hg). cbn [default]. unfold id.
    rewrite existsb_note by auto. intros Hu%H2. congruence.
  - intros Hi. destruct (H3 Hi) as [Ht _]. split; [|done]. unfold toolless in *. rewrite blocks_of_content, (note_content _ _ Hg).
    cbn [default]. unfold id. clear Hc. revert Ht. induction (blocks_of m) as [|b bs IH]; [done|]. cbn. intros [Hb Hbs]%orb_false_iff.
    rewrite IH by done. unfold is_tool_block in *. rewrite !note_block_type by auto. by rewrite Hb.
Qed.

(** Replacing images in groups, pointwise. *)
Definition noted (ms ms' : list Json) : Prop :=
  Forall2 (λ m m', m' = m ∨ ∃ note, is_group m = true ∧ m' = note_message note m) ms ms'.

Lemma noted_run st ms ms' : noted ms ms' → fold_opt settle_message st ms' = fold_opt settle_message st ms.
Proof.
  intros F. revert st. induction F as [|m m' ms ms' Hm F IH]; intros st; [done|]. rewrite !fold_opt_cons.
  assert (settle_message st m' = settle_message st m) as ->.
  { destruct Hm as [ ->|(note & Hg & ->)]; [done|by apply note_settle]. }
  destruct (settle_message st m); cbn; [apply IH|done].
Qed.

Lemma noted_settled ms ms' : noted ms ms' → settled ms → settled ms'.
Proof. intros F Hs. unfold settled, settled_call_ids in *. by rewrite (noted_run _ _ _ F). Qed.

Lemma noted_native ms ms' : noted ms ms' → Forall native ms → Forall native ms' ∧ forallb is_injected_directive ms' = forallb is_injected_directive ms.
Proof.
  induction 1 as [|m m' ms ms' Hm F IH]; intros Hn; [done|]. apply Forall_cons in Hn as [Hnm Hn]. destruct (IH Hn) as [IH1 IH2].
  cbn. rewrite IH2. destruct Hm as [ ->|(note & Hg & ->)]; [by split; [constructor|]|].
  destruct (note_native note m Hg Hnm) as [Hnn ->]. by split; [constructor|].
Qed.

Lemma positions_elem f ms i : i ∈ positions f ms ↔ ∃ m, ms !! i = Some m ∧ f m = true.
Proof.
  unfold positions. rewrite list_elem_of_In, filter_In, in_seq. split.
  - intros [_ H]. destruct (ms !! i) as [m|]; [by exists m|done].
  - intros (m & Hm & Hf). rewrite Hm. split; [|done]. apply lookup_lt_Some in Hm. lia.
Qed.

Lemma groups_are_groups ms i m : i ∈ image_groups ms → ms !! i = Some m → is_group m = true.
Proof. intros (m' & Hm' & Hg)%positions_elem Hm. congruence. Qed.

Lemma replace_noted ms idx note : (∀ i, i ∈ idx → i ∈ image_groups ms) → noted ms (replace_images ms idx note).
Proof.
  intros Hi. apply Forall2_same_length_lookup_2; [unfold replace_images; by rewrite length_imap|]. intros i m m' Hm Hm'.
  unfold replace_images in Hm'. rewrite list_lookup_imap, Hm in Hm'. injection Hm' as <-.
  destruct (bool_decide_reflect (i ∈ idx)) as [Hin|]; [right|by left]. exists note. split; [|done]. by eapply groups_are_groups; [apply Hi|].
Qed.

Lemma note_no_group note m : is_group m = true → is_group (note_message note m) = false.
Proof.
  intros Hg. unfold is_group. rewrite blocks_of_content, (note_content _ _ Hg). cbn [default]. unfold id.
  apply andb_false_iff. right. induction (blocks_of m) as [|b bs IH]; [done|]. cbn. rewrite IH. unfold note_block.
  destruct (is_image b) eqn:E; [done|by rewrite E].
Qed.

Lemma noted_trans a b c : noted a b → noted b c → noted a c.
Proof.
  intros F G. apply Forall2_same_length_lookup_2; [rewrite (Forall2_length _ _ _ F); by eapply Forall2_length|]. intros i x z Hx Hz.
  destruct (Forall2_lookup_l _ _ _ _ _ F Hx) as (y & Hy & Hxy).
  destruct (Forall2_lookup_l _ _ _ _ _ G Hy) as (z' & Hz' & Hyz). replace z' with z in Hyz by congruence.
  destruct Hxy as [ ->|(n & Hg & ->)]; [done|]. destruct Hyz as [ ->|(n' & Hg' & _)]; [right; by exists n|].
  by rewrite (note_no_group _ _ Hg) in Hg'.
Qed.

Section replacing.
Variables (ms : list Json) (idx : list nat) (note : pystr).
Hypothesis groups : ∀ i, i ∈ idx → i ∈ image_groups ms.

Let ms' := replace_images ms idx note.

Lemma replace_lookup i : ms' !! i = (λ m, if bool_decide (i ∈ idx) then note_message note m else m) <$> ms !! i.
Proof. unfold ms', replace_images. by rewrite list_lookup_imap. Qed.

Lemma replace_groups : image_groups ms' = List.filter (λ i, negb (bool_decide (i ∈ idx))) (image_groups ms).
Proof.
  unfold image_groups, positions. unfold ms' at 2. unfold replace_images. rewrite length_imap. fold ms'.
  induction (seq 0 (length ms)) as [|i l IH]; [done|]. cbn [List.filter]. rewrite replace_lookup, IH.
  destruct (ms !! i) as [m|] eqn:E; cbn [fmap option_fmap option_map]; [|done].
  destruct (bool_decide_reflect (i ∈ idx)) as [Hi|Hi]; cbn.
  - assert (is_group m = true) as Hg by (eapply groups_are_groups; [by apply groups|done]). rewrite (note_no_group _ _ Hg), Hg. cbn.
    by rewrite bool_decide_eq_true_2.
  - destruct (is_group m); [|done]. cbn. by rewrite bool_decide_eq_false_2.
Qed.

Lemma replace_after_last : after_last_assistant ms' = after_last_assistant ms.
Proof.
  unfold after_last_assistant. f_equal. assert (positions (λ m, has_role m "assistant") ms' = positions (λ m, has_role m "assistant") ms) as ->; [|done].
  unfold positions. unfold ms' at 2. unfold replace_images. rewrite length_imap. fold ms'.
  induction (seq 0 (length ms)) as [|i l IH]; [done|]. cbn [List.filter]. rewrite replace_lookup, IH.
  destruct (ms !! i) as [m|]; cbn [fmap option_fmap option_map]; [|done].
  destruct (bool_decide (i ∈ idx)); [|done]. unfold has_role. by rewrite (proj1 (note_fields note m)).
Qed.

Lemma replace_seen : seen_groups ms' = List.filter (λ i, negb (bool_decide (i ∈ idx))) (seen_groups ms).
Proof.
  unfold seen_groups. rewrite replace_groups, replace_after_last. generalize (after_last_assistant ms). intros n.
  generalize (image_groups ms) as l. induction l as [|i l IH]; [done|]. cbn [List.filter].
  destruct (bool_decide (i ∈ idx)) eqn:E1, (S i <? n)%nat eqn:E2; cbn [negb List.filter]; by rewrite ?E1, ?E2, ?IH.
Qed.
End replacing.

Lemma NoDup_positions f ms : NoDup (positions f ms).
Proof. unfold positions. apply NoDup_ListNoDup, List.NoDup_filter, List.seq_NoDup. Qed.

Lemma seen_in_groups ms i : i ∈ seen_groups ms → i ∈ image_groups ms.
Proof. unfold seen_groups. rewrite !list_elem_of_In, filter_In. tauto. Qed.

(** Omitting one seen group leaves the others. *)
Lemma omit_one ms g gs : seen_groups ms = g :: gs →
  omit_seen ms 1 = (replace_images ms [g] OMITTED_SEEN, 1%nat)
  ∧ seen_groups (replace_images ms [g] OMITTED_SEEN) = gs ∧ noted ms (replace_images ms [g] OMITTED_SEEN).
Proof.
  intros E. assert (Hg : ∀ i, i ∈ [g] → i ∈ image_groups ms).
  { intros i ->%list_elem_of_singleton. apply seen_in_groups. rewrite E. by left. }
  split; [unfold omit_seen; by rewrite E|]. split; [|by apply replace_noted].
  rewrite replace_seen by done. rewrite E.
  assert (Hn : NoDup (g :: gs)).
  { rewrite <- E. unfold seen_groups. apply NoDup_ListNoDup, List.NoDup_filter, NoDup_ListNoDup, NoDup_positions. }
  apply NoDup_cons in Hn as [Hn _]. cbn. rewrite bool_decide_eq_true_2 by by left. cbn.
  assert (Hf : ∀ i, i ∈ gs → i ≠ g) by (intros i Hi ->; done). clear -Hf.
  induction gs as [|x gs IH]; [done|]. cbn. rewrite bool_decide_eq_false_2; [cbn; f_equal; apply IH; set_solver|].
  rewrite list_elem_of_singleton. apply Hf. by left.
Qed.

(** The transcript with the [n] oldest seen groups omitted, one after the other. *)
Fixpoint omit_oldest (n : nat) (ms : list Json) : list Json :=
  match n with O => ms | S n => omit_oldest n (omit_seen ms 1).1 end.

Lemma fit_seen_spec ok ms : ∃ n,
  fit_seen ok ms = Some (omit_oldest n ms, n) ∧ (n <= length (seen_groups ms))%nat ∧ noted ms (omit_oldest n ms)
  ∧ (∀ k, (k < n)%nat → ok (omit_oldest k ms) = false)
  ∧ (ok (omit_oldest n ms) = true ∨ n = length (seen_groups ms)).
Proof.
  unfold fit_seen. enough (∀ l omitted, length (seen_groups ms) = l → ∃ n,
    fit_seen_from l ok ms omitted = Some (omit_oldest n ms, (omitted + n)%nat) ∧ (n <= l)%nat ∧ noted ms (omit_oldest n ms)
    ∧ (∀ k, (k < n)%nat → ok (omit_oldest k ms) = false) ∧ (ok (omit_oldest n ms) = true ∨ n = l)) as Hgo by by apply Hgo.
  assert (Hrefl : ∀ ms, noted ms ms) by (intros l; apply Forall2_same_length_lookup_2; [done|intros i x y ? ?; left; congruence]).
  intros l. revert ms. induction l as [|l IH]; intros ms omitted E; cbn [fit_seen_from].
  - exists 0%nat. cbn [omit_oldest]. rewrite Nat.add_0_r. assert (omit_seen ms 1 = (ms, 0%nat)) as ->.
    { unfold omit_seen. by destruct (seen_groups ms). }
    destruct (ok ms); split_and!; try done; try lia; by (left + right).
  - destruct (ok ms) eqn:Eo.
    { exists 0%nat. cbn [omit_oldest]. rewrite Nat.add_0_r. split_and!; try done; try lia; by left. }
    destruct (seen_groups ms) as [|g gs] eqn:Es; [done|]. destruct (omit_one ms g gs Es) as (E1 & E2 & E3). rewrite E1.
    destruct (IH (replace_images ms [g] OMITTED_SEEN) (omitted + 1)%nat) as (n & En & Hn & Hnt & Hk & Hd); [rewrite E2; cbn in E; lia|].
    exists (S n). cbn [omit_oldest]. rewrite E1. cbn [fst]. split_and!; [rewrite En; do 2 f_equal; lia|lia| | |].
    + by eapply noted_trans.
    + intros [|k] Hlt; [done|]. cbn [omit_oldest]. rewrite E1. apply Hk. lia.
    + destruct Hd; [by left|right; lia].
Qed.

(** Omitting groups one after the other is replacing the oldest of them. *)
Lemma replace_replace ms g gs note : g ∉ gs →
  replace_images (replace_images ms [g] note) gs note = replace_images ms (g :: gs) note.
Proof.
  intros Hg. unfold replace_images. apply list_eq. intros i. rewrite !list_lookup_imap. destruct (ms !! i) as [m|]; [|done]. cbn.
  destruct (decide (i = g)) as [ ->|Hi].
  - rewrite (bool_decide_eq_true_2 (g ∈ [g])), (bool_decide_eq_false_2 (g ∈ gs)), (bool_decide_eq_true_2 (g ∈ g :: gs)); [done| |done|]; set_solver.
  - rewrite (bool_decide_eq_false_2 (i ∈ [g])) by set_solver. f_equal. by rewrite (bool_decide_ext (i ∈ g :: gs) (i ∈ gs)) by set_solver.
Qed.

Lemma replace_nil ms note : replace_images ms [] note = ms.
Proof.
  unfold replace_images. apply list_eq. intros i. rewrite list_lookup_imap. by destruct (ms !! i).
Qed.

Lemma NoDup_seen ms : NoDup (seen_groups ms).
Proof. unfold seen_groups. apply NoDup_ListNoDup, List.NoDup_filter, NoDup_ListNoDup, NoDup_positions. Qed.

Lemma omit_oldest_replace n ms : omit_oldest n ms = replace_images ms (take n (seen_groups ms)) OMITTED_SEEN.
Proof.
  revert ms. induction n as [|n IH]; intros ms; cbn [omit_oldest]; [by rewrite take_0, replace_nil|].
  destruct (seen_groups ms) as [|g gs] eqn:E.
  - unfold omit_seen. rewrite E. cbn [take fst]. by rewrite IH, E, take_nil.
  - destruct (omit_one ms g gs E) as (-> & E2 & _). cbn [fst]. rewrite IH, E2. cbn [take]. apply replace_replace.
    pose proof (NoDup_seen ms) as Hn. rewrite E in Hn. apply NoDup_cons in Hn as [Hn _]. intros H%list_elem_of_In.
    apply Hn. rewrite <- (take_drop n gs). apply elem_of_app. left. by apply list_elem_of_In.
Qed.

(** When a request does not fit, the fewest images make way: the oldest ones the model
    has already seen become notes, one message after the other and no more than needed;
    if they do not suffice, all of them.  Nothing else of the transcript changes, no image
    the model has not seen is touched, and every call keeps its result. *)
Theorem oldest_seen_images_make_way ok ms :
  ∃ n, let out := replace_images ms (take n (seen_groups ms)) OMITTED_SEEN in
  fit_seen ok ms = Some (out, n) ∧ (n <= length (seen_groups ms))%nat
  ∧ (∀ k, (k < n)%nat → ok (replace_images ms (take k (seen_groups ms)) OMITTED_SEEN) = false)
  ∧ (ok out = true ∨ seen_groups out = [])
  ∧ seen_groups out = drop n (seen_groups ms) ∧ unseen_groups out = unseen_groups ms
  ∧ (∀ i, i ∉ take n (seen_groups ms) → out !! i = ms !! i)
  ∧ (settled ms → settled out).
Proof.
  destruct (fit_seen_spec ok ms) as (n & E & Hn & Hnt & Hk & Hd). exists n. cbn zeta. rewrite <- omit_oldest_replace.
  assert (Hin : ∀ i, i ∈ take n (seen_groups ms) → i ∈ image_groups ms).
  { intros i Hi. apply seen_in_groups. rewrite <- (take_drop n (seen_groups ms)). set_solver. }
  assert (Hs : seen_groups (omit_oldest n ms) = drop n (seen_groups ms)).
  { rewrite omit_oldest_replace, replace_seen by done. pose proof (NoDup_seen ms) as Hnd. clear -Hnd. revert n.
    induction (seen_groups ms) as [|g gs IH]; intros [|n]; cbn [take drop]; [done..| |].
    - clear. induction (g :: gs) as [|x l IH]; [done|]. cbn. by rewrite IH.
    - apply NoDup_cons in Hnd as [Hg Hnd]. cbn [List.filter]. rewrite bool_decide_eq_true_2 by by left. cbn [negb]. rewrite <- (IH Hnd n).
      assert (Hf : ∀ x, x ∈ gs → x ≠ g) by (intros x Hx ->; done). revert Hf. generalize (take n gs) as l. clear. intros l.
      induction gs as [|x gs IH]; intros Hf; [done|]. cbn.
      rewrite (bool_decide_ext (x ∈ g :: l) (x ∈ l)) by (assert (x ≠ g) by (apply Hf; by left); set_solver).
      rewrite IH; [done|]. intros y Hy. apply Hf. by right. }
  split_and!; try done.
  - intros k Hlt. rewrite <- omit_oldest_replace. by apply Hk.
  - destruct Hd as [Hd| ->]; [by left|right]. rewrite Hs. by apply drop_ge.
  - unfold unseen_groups. rewrite omit_oldest_replace, replace_groups, replace_after_last by done.
    assert (Hu : ∀ i, i ∈ take n (seen_groups ms) → (after_last_assistant ms <? S i)%nat = false).
    { intros i Hi. assert (i ∈ seen_groups ms) as Hi' by (rewrite <- (take_drop n (seen_groups ms)); set_solver).
      unfold seen_groups in Hi'. apply list_elem_of_In, filter_In in Hi' as [_ Hi']. apply Nat.ltb_lt in Hi'. apply Nat.ltb_ge. lia. }
    revert Hu. generalize (take n (seen_groups ms)) as l. generalize (after_last_assistant ms) as b. clear.
    intros b l Hu. induction (image_groups ms) as [|i gs IH]; [done|]. cbn [List.filter]. destruct (bool_decide_reflect (i ∈ l)) as [Hi|Hi]; cbn [negb List.filter].
    + by rewrite (Hu i Hi).
    + by destruct (b <? S i)%nat; [f_equal|].
  - intros i Hi. rewrite omit_oldest_replace. unfold replace_images. rewrite list_lookup_imap, bool_decide_eq_false_2 by done.
    by destruct (ms !! i).
  - by apply noted_settled.
Qed.

Module ImageWitness.
Import Concrete CompressWitness.

Definition shot (n : nat) : Json :=
  JDict [(lit "role", JStr (lit "user")); (lit "content", JList [text_block (lit "1 image(s) from tool look");
    JDict [(lit "type", JStr (lit "image"));
           (lit "source", JDict [(lit "type", JStr (lit "base64")); (lit "media_type", JStr (lit "image/png")); (lit "data", JStr (long n))])]])].

Definition reply : Json := JDict [(lit "role", JStr (lit "assistant")); (lit "content", JList [text_block (lit "I see")])].

(** Two images the model has seen, and one it has not; the limit has room for two. *)
Definition gallery : list Json := [task; shot 5000; shot 4000; reply; shot 4000].
Definition room (ms : list Json) : bool := within_request_limit ms 0 (Some 88000).

Lemma oldest_seen_images_make_way_witness :
  image_groups gallery = [1; 2; 4]%nat ∧ room gallery = false
  ∧ ∃ out, fit_seen room gallery = Some (out, 1%nat) ∧ room out = true ∧ seen_groups out = [2]%nat ∧ unseen_groups out = [4]%nat
    ∧ settled out.
Proof.
  split; [by vm_compute|]. split; [by vm_compute|].
  destruct (oldest_seen_images_make_way room gallery) as (n & E & _ & _ & _ & Hs & Hu & _ & Ht). cbn zeta in *.
  assert (E1 : snd <$> fit_seen room gallery = Some 1%nat) by (vm_compute; reflexivity). rewrite E in E1. injection E1 as ->.
  eexists. split; [exact E|]. split; [by vm_compute|]. rewrite Hs, Hu. split; [by vm_compute|]. split; [by vm_compute|].
  apply Ht. vm_compute. by eexists.
Defined.

End ImageWitness.
