(* ===== verification/AgentLlm.v ===== *)
(** * One generation of an agent (_call_llm_with_recovery of src/src/agents/manager.py)

    A generation is one logical call of the model: a believed fit before it is sent, one
    retry of a wall or an empty reply, and rescues of a payload that is too large, on a
    ladder of character targets and then by omitting images.

    The environment gives the end of every attempt and what arrives meanwhile.  The clock
    moves at awaits.  Usage, density and window evidence are telemetry and left out, but
    for the await of the evidence recorder. *)

From S2P Require Import Prelude PyStr PyLib Transcript Compress Budget ImageFit AgentReports Agents AgentCycle.
Open Scope string_scope.
Open Scope list_scope.
Open Scope Z_scope.

Definition MAX_AGENT_EDGE_RETRIES : nat := 1.

(** The plan of a generation, as far as it is read here. *)
Record Plan : Type := { is_codex : bool; snapshot : option ContextBudgetSnapshot }.

(** An accepted response; [reasoning] is the empty text when there is none. *)
Record Reply : Type := {
  reply_text : pystr;
  reply_calls : list RawCall;
  incomplete : bool;
  reasoning : pystr;
  by_codex : bool
}.

(** The exceptions of an attempt; an overflow may carry a target of its own, the result of
    [compatible_overflow_target]. *)
Inductive LlmError : Type := Empty_reply | Request_too_large (fixed_bytes : Z) | Window_overflow (target : option Z) | Other_error.

Inductive AttemptEnd : Type :=
| Accepted (r : Reply)
| Hit_wall
| Raised_error (e : LlmError) (text : pystr)
| Attempt_cancelled.

(** One attempt: its await, the ladder of the plan then published ([None]: there is no
    snapshot), and the await of the evidence recorder, if there is one. *)
Record AttemptEnv : Type := {
  meanwhile : Arrival;
  attempt_end : AttemptEnd;
  published_ladder : option (list Z);
  recorder : option (Arrival * bool)
}.

(** An agent at work: its clock and the latch of a proven size. *)
Record Worker : Type := { self : AgentInfo; now : Z; context_char_ceiling : option Z }.

Definition with_self (f : AgentInfo → AgentInfo) (w : Worker) : Worker :=
  {| self := f (self w); now := now w; context_char_ceiling := context_char_ceiling w |}.
Definition at_arrival (x : Arrival) (w : Worker) : Worker :=
  {| self := arrive x (self w); now := later x; context_char_ceiling := context_char_ceiling w |}.
Definition latch (c : Z) (w : Worker) : Worker :=
  {| self := self w; now := now w; context_char_ceiling := Some c |}.

Definition transcript (w : Worker) : list Json := messages (mail (self w)).

Definition set_transcript (ms : list Json) (a : AgentInfo) : AgentInfo :=
  set_mail {| messages := ms; inbox := inbox (mail a); inbox_sequence := inbox_sequence (mail a);
              last_consumed_sequence := last_consumed_sequence (mail a); inbox_event := inbox_event (mail a);
              queued_events := queued_events (mail a); consumed_events := consumed_events (mail a) |} a.

Definition set_outcome (result error : pystr) (a : AgentInfo) : AgentInfo :=
  set_work {| iteration_count := iteration_count (work a); tool_execution_count := tool_execution_count (work a);
              tools_used := tools_used (work a); recovery_attempts := recovery_attempts (work a);
              phase := phase (work a); phase_started_at := phase_started_at (work a);
              last_activity := last_activity (work a); phase_deadline := phase_deadline (work a);
              result_text := result; error_text := error |} a.

Definition count_recovery (a : AgentInfo) : AgentInfo :=
  set_work {| iteration_count := iteration_count (work a); tool_execution_count := tool_execution_count (work a);
              tools_used := tools_used (work a); recovery_attempts := recovery_attempts (work a) + 1;
              phase := phase (work a); phase_started_at := phase_started_at (work a);
              last_activity := last_activity (work a); phase_deadline := phase_deadline (work a);
              result_text := result_text (work a); error_text := error_text (work a) |} a.

(** How a generation ends; [Raised_out] is an exception that leaves it. *)
Inductive Generation : Type := Replied (r : Reply) | Ended | Cancelled_out | Raised_out (text : pystr).

Definition NO_OUTPUT : pystr := lit "(no output)".

(** [_get_last_progress] *)
Fixpoint last_text (rev_ms : list Json) : pystr :=
  match rev_ms with
  | [] => NO_OUTPUT
  | m :: ms =>
      let t := if has_role m "assistant" then content_text (default JNull (field m "content")) else [] in
      if nonempty t then t else last_text ms
  end.

Definition get_last_progress (a : AgentInfo) : pystr := last_text (rev (messages (mail a))).

Section llm.
Context `{Codec, Rendering, AgentText}.

Definition remaining_lifetime (w : Worker) : Z := max_lifetime (base (self w)) - (now w - created_at (base (self w))).

(** A transition and the end of the agent; [None] is InvalidStateTransition. *)
Definition end_as (to : AgentState) (reason result error : pystr) (w : Worker) : option Worker :=
  a ← transition to reason (now w) (self w);
  Some (with_self (λ _, set_ended (now w) (set_outcome result error a)) w).

(** [int(t)] of a time in seconds; times are kept in milliseconds. *)
Definition whole_seconds (t : Z) : Z := Z.quot t 1000.

Definition invalid : pystr := lit "invalid state transition".

(** End, and say so; an invalid transition is the exception instead. *)
Definition ending_as (to : AgentState) (reason result error : pystr) (w : Worker) : Worker * Generation :=
  match end_as to reason result error w with
  | Some w => (w, Ended)
  | None => (w, Raised_out invalid)
  end.

Definition fail_with (reason : pystr) (w : Worker) : Worker * Generation :=
  ending_as FAILED reason (result_text (work (self w))) reason w.

(** [_lifetime_timeout] *)
Definition lifetime_reason (w : Worker) : pystr :=
  lit "lifetime exceeded (" ++ show (whole_seconds (now w - created_at (base (self w)))) ++ lit "s)".

Definition lifetime_timeout (w : Worker) : Worker * Generation :=
  ending_as TIMEOUT (lifetime_reason w) (get_last_progress (self w)) (error_text (work (self w))) w.

(** ** Fitting before and after an attempt *)

(** [_believed_within_effective_budget] *)
Definition believed_within (ms : list Json) (s : ContextBudgetSnapshot) : option bool :=
  if bool_decide (base_source s = Persisted) || (effective_budget s <=? 0) then None
  else Some (estimate_request_tokens (estimate_message_chars ms) (estimate_message_images ms) (density_milli s) <=? effective_budget s).

Definition not_refuted (s : ContextBudgetSnapshot) (ms : list Json) : bool :=
  match believed_within ms s with Some false => false | _ => true end.

(** [_predictive_image_fit]: the transcript and the groups omitted. *)
Definition predictive_image_fit (s : ContextBudgetSnapshot) (ms : list Json) : list Json * nat :=
  if not_refuted s ms || bool_decide (seen_groups ms = []) then (ms, 0%nat)
  else if negb (not_refuted s (omit_seen ms (length (seen_groups ms))).1) then (ms, 0%nat)
  else default (ms, 0%nat) (fit_seen (not_refuted s) ms).

(** [_predictive_presend_descent]: the transcript and the rungs consumed. *)
Fixpoint presend_descent (s : ContextBudgetSnapshot) (rungs : list Z) (consumed : nat) (ms : list Json) : list Json * nat :=
  match rungs with
  | [] => (ms, consumed)
  | target :: rungs =>
      if not_refuted s ms then (ms, consumed)
      else
        match emergency_compress None ms target with
        | None => (ms, consumed)
        | Some (out, r) =>
            if original_chars r <? compressed_chars r then (ms, S consumed)
            else presend_descent s rungs (S consumed) (if compressed_chars r =? original_chars r then ms else out)
        end
  end.

(** The rungs of [_fit_request_size]; [None] is an exception of the compressor. *)
Fixpoint size_rungs (fits_limit : list Json → bool) (rungs : list Z) (passes omitted : nat) (ms : list Json)
    : option (list Json * nat * nat) :=
  if fits_limit ms then Some (ms, passes, omitted)
  else
    match rungs with
    | [] => Some (ms, passes, omitted)
    | target :: rungs =>
        if estimate_message_chars ms <=? target then size_rungs fits_limit rungs (S passes) omitted ms
        else
          '(out, r) ← emergency_compress None ms target;
          if compressed_chars r <? original_chars r
          then size_rungs fits_limit rungs (S passes) (omitted + (group_count ms - group_count out)) out
          else size_rungs fits_limit rungs (S passes) omitted ms
    end.

(** [_fit_request_size]: the transcript, the rungs consumed, the groups omitted, whether
    the request fits. *)
Definition fit_request_size (fixed : Z) (ladder : list Z) (passes : nat) (ms : list Json)
    : option (list Json * nat * nat * bool) :=
  let ok ms := within_request_limit ms fixed None in
  if ok ms then Some (ms, passes, 0%nat, true)
  else
    '(ms, n) ← fit_seen ok ms;
    '(ms, passes, n) ← size_rungs ok (drop passes ladder) passes n ms;
    let '(ms, k) := if ok ms then (ms, 0%nat) else withhold_unseen ms in
    Some (ms, passes, (n + k)%nat, ok ms).

(** The oldest half of the seen images, or all unseen ones. *)
Definition drop_images (ms : list Json) : list Json * nat :=
  match seen_groups ms with
  | [] => withhold_unseen ms
  | seen => omit_seen ms (Nat.div2 (length seen + 1))
  end.

(** With images, the rungs the text meets already are skipped. *)
Fixpoint skip_met (chars : Z) (rungs : list Z) (passes : nat) : nat :=
  match rungs with
  | t :: rungs => if chars <=? t then skip_met chars rungs (S passes) else passes
  | [] => passes
  end.

(** ** The loop *)

Record Attempting : Type := {
  worker : Worker;
  passes : nat;
  omitted : nat;
  pending_ceiling : option Z;
  call_timeout : Z;
  deadline : Z;
  first_attempt : bool;
  edge_retries : nat;
  rejected : bool
}.

Definition set_worker (w : Worker) (s : Attempting) : Attempting :=
  {| worker := w; passes := passes s; omitted := omitted s; pending_ceiling := pending_ceiling s;
     call_timeout := call_timeout s; deadline := deadline s; first_attempt := first_attempt s;
     edge_retries := edge_retries s; rejected := rejected s |}.

(** The payload changed: so many rungs and images were spent. *)
Definition resize (ms : list Json) (p n : nat) (s : Attempting) : Attempting :=
  {| worker := with_self (set_transcript ms) (worker s); passes := p; omitted := omitted s + n;
     pending_ceiling := pending_ceiling s; call_timeout := call_timeout s; deadline := deadline s;
     first_attempt := first_attempt s; edge_retries := edge_retries s; rejected := rejected s |}.

Definition rescued (chars : Z) (s : Attempting) : Attempting :=
  {| worker := worker s; passes := passes s; omitted := omitted s; pending_ceiling := Some chars;
     call_timeout := call_timeout s; deadline := deadline s; first_attempt := first_attempt s;
     edge_retries := edge_retries s; rejected := true |}.

(** One step of the loop: [inr] when it goes round again. *)
Definition Step : Type := (Worker * Generation) + Attempting.

(** A fresh wall for a timeout or an empty reply, once. *)
Definition retry_edge (reason retrying : pystr) (s : Attempting) : Step :=
  let w := with_self count_recovery (worker s) in
  match (a ← transition RECOVERING reason (now w) (self w); transition EXECUTING retrying (now w) a) with
  | None => inl (w, Raised_out invalid)
  | Some a =>
      let w := with_self (λ _, a) w in
      let t := Z.min (iteration_timeout (base a)) (remaining_lifetime w) in
      inr {| worker := w; passes := passes s; omitted := omitted s; pending_ceiling := pending_ceiling s;
             call_timeout := t; deadline := now w + t; first_attempt := true; edge_retries := S (edge_retries s);
             rejected := rejected s |}
  end.

Definition wall_text (s : Attempting) : pystr := lit "LLM timeout after " ++ show (whole_seconds (call_timeout s)) ++ lit "s".

(** The acceptance publishes the rescued size, unless images were omitted. *)
Definition accept (plan : Plan) (e : AttemptEnv) (r : Reply) (s : Attempting) : Worker * Generation :=
  match pending_ceiling s with
  | Some c =>
      if (omitted s =? 0)%nat then
        let w := latch c (worker s) in
        match recorder e with
        | Some (x, cancelled) =>
            if rejected s && is_codex plan && by_codex r
            then if cancelled then (at_arrival x w, Cancelled_out) else (at_arrival x w, Replied r)
            else (w, Replied r)
        | None => (w, Replied r)
        end
      else (worker s, Replied r)
  | None => (worker s, Replied r)
  end.

(** A request over the documented size: fit it and retry, or fail. *)
Definition handle_size (size_ladder : list Z) (fixed : Z) (s : Attempting) : Step :=
  let ms := transcript (worker s) in
  match fit_request_size fixed size_ladder (passes s) ms with
  | None => inl (worker s, Raised_out (lit "compression failed"))
  | Some (ms', p, n, ok) =>
      let s := resize ms' p n s in
      if ok && bool_decide (ms' ≠ ms) then inr s
      else inl (fail_with (lit "Request exceeds the provider's size limit even without images") (worker s))
  end.

(** Without a smaller payload, images go; without images, the generation fails. *)
Definition drop_or_fail (text : pystr) (s : Attempting) : Step :=
  let ms := transcript (worker s) in
  if has_images ms then
    match drop_images ms with
    | (_, O) => inl (fail_with text (worker s))
    | (ms, n) => inr (resize ms (passes s) n s)
    end
  else inl (fail_with text (worker s)).

(** A window overflow: the next rung, then images. *)
Definition handle_overflow (ladder : list Z) (text : pystr) (s : Attempting) : Step :=
  let ms := transcript (worker s) in
  let p := if has_images ms then skip_met (estimate_message_chars ms) (drop (passes s) ladder) (passes s) else passes s in
  match drop p ladder with
  | [] => drop_or_fail text (resize ms p 0 s)
  | target :: _ =>
      match emergency_compress None ms target with
      | None => inl (worker s, Raised_out (lit "compression failed"))
      | Some (out, r) =>
          if fits r
          then inr (rescued (compressed_chars r) (resize out (S p) (group_count ms - group_count out) s))
          else drop_or_fail text (resize ms (S p) 0 s)
      end
  end.

Definition overflow_ladder (rescue_ladder : list Z) (e : AttemptEnv) (target : option Z) (chars : Z) : list Z :=
  match target with
  | Some t => if t <? chars then [t] else default rescue_ladder (published_ladder e)
  | None => default rescue_ladder (published_ladder e)
  end.

(** The handlers of one attempt. *)
Definition attempt_ended (plan : Plan) (size_ladder rescue_ladder : list Z) (e : AttemptEnv) (s : Attempting) : Step :=
  let chars := estimate_message_chars (transcript (worker s)) in
  let s := set_worker (at_arrival (meanwhile e) (worker s)) s in
  match attempt_end e with
  | Accepted r => inl (accept plan e r s)
  | Attempt_cancelled => inl (worker s, Cancelled_out)
  | Hit_wall =>
      if remaining_lifetime (worker s) <=? 0 then inl (lifetime_timeout (worker s))
      else if is_codex plan && (edge_retries s <? MAX_AGENT_EDGE_RETRIES)%nat
      then retry_edge (lit "Codex generation hit iteration wall") (lit "retrying Codex generation") s
      else inl (fail_with (wall_text s) (worker s))
  | Raised_error err text =>
      if remaining_lifetime (worker s) <=? 0 then inl (lifetime_timeout (worker s))
      else
        let text := lit "LLM error: " ++ text in
        match err with
        | Empty_reply => if (edge_retries s <? MAX_AGENT_EDGE_RETRIES)%nat
                         then retry_edge (lit "provider returned empty response") (lit "retrying empty response") s
                         else inl (fail_with text (worker s))
        | Request_too_large fixed => handle_size size_ladder fixed s
        | Window_overflow target => handle_overflow (overflow_ladder rescue_ladder e target chars) text s
        | Other_error => inl (fail_with text (worker s))
        end
  end.

(** The head of the loop: the lifetime, then the time the call has left. *)
Definition attempt (plan : Plan) (size_ladder rescue_ladder : list Z) (e : AttemptEnv) (s : Attempting) : Step :=
  if remaining_lifetime (worker s) <=? 0 then inl (lifetime_timeout (worker s))
  else
    let budget := if first_attempt s then call_timeout s else deadline s - now (worker s) in
    let s := {| worker := worker s; passes := passes s; omitted := omitted s; pending_ceiling := pending_ceiling s;
                call_timeout := call_timeout s; deadline := deadline s; first_attempt := false;
                edge_retries := edge_retries s; rejected := rejected s |} in
    if budget <=? 0 then inl (fail_with (wall_text s) (worker s))
    else attempt_ended plan size_ladder rescue_ladder e s.

Fixpoint attempts (fuel : nat) (plan : Plan) (size_ladder rescue_ladder : list Z) (env : nat → AttemptEnv) (k : nat)
    (s : Attempting) : option (Worker * Generation) :=
  match fuel with
  | O => None
  | S fuel =>
      match attempt plan size_ladder rescue_ladder (env k) s with
      | inl out => Some out
      | inr s => attempts fuel plan size_ladder rescue_ladder env (S k) s
      end
  end.

(** The fit before the first attempt, for Codex. *)
Definition presend (plan : Plan) (ms : list Json) : list Json * nat * nat :=
  match is_codex plan, snapshot plan with
  | true, Some snap =>
      let '(ms, n1) := predictive_image_fit snap ms in
      let '(ms', p) := match ladder snap with [] => (ms, 0%nat) | l => presend_descent snap l 0 ms end in
      let n2 := (group_count ms - group_count ms')%nat in
      let '(ms'', n3) := predictive_image_fit snap ms' in
      (ms'', p, (n1 + n2 + n3)%nat)
  | _, _ => (ms, 0%nat, 0%nat)
  end.

Definition size_ladder_of (plan : Plan) (rescue_ladder : list Z) : list Z :=
  match snapshot plan with Some s => ladder s | None => rescue_ladder end.

(** The ladder of an unknown model. *)
Definition fallback_ladder : list Z := ladder (resolve_context_budget [] [] 60 None None None).

(** Every round spends an edge retry, a rung or an image group; [bound] bounds the ladders. *)
Definition enough (bound : nat) (ms : list Json) : nat := (3 + bound + group_count ms)%nat.

(** [_call_llm_with_recovery] *)
Definition call_llm (bound : nat) (plan : Plan) (rescue_ladder : option (list Z)) (env : nat → AttemptEnv) (w : Worker)
    : option (Worker * Generation) :=
  let rescue := default fallback_ladder rescue_ladder in
  if remaining_lifetime w <=? 0 then Some (lifetime_timeout w)
  else
    let t := Z.min (iteration_timeout (base (self w))) (remaining_lifetime w) in
    let '(ms, p, n) := presend plan (transcript w) in
    attempts (enough bound (transcript w)) plan (size_ladder_of plan rescue) rescue env 0
      {| worker := with_self (set_transcript ms) w; passes := p; omitted := n; pending_ceiling := None;
         call_timeout := t; deadline := now w + t; first_attempt := true; edge_retries := 0; rejected := false |}.

End llm.
