(* ===== verification/AgentLlmTheory.v ===== *)
(** * Theorems about a generation

    Every step of a generation keeps the transcript good: replayable, with the messages
    of the parent in place.  Every round spends an edge retry, a rung or an image group,
    so a generation ends, in a state its worker can go on from. *)

From S2P Require Import Prelude PyStr PyLib Transcript Compress CompressTheory Budget ImageFit AgentReports Agents AgentCycle AgentCycleTheory AgentLlm.
Open Scope string_scope.
Open Scope list_scope.
Open Scope Z_scope.

(** ** Good transcripts *)

(** A transcript that can be replayed, and whose directives are [ds]. *)
Record good (ds ms : list Json) : Prop := {
  good_native : Forall native ms;
  good_settled : Transcript.settled ms;
  good_directives : directives ms = ds;
  good_bare : Forall (λ d, list_content d = None) ds
}.

(** A change that keeps a transcript good and brings no new image message. *)
Record shrinks (ms ms' : list Json) : Prop := {
  shrinks_good ds : good ds ms → good ds ms';
  shrinks_images : (group_count ms' <= group_count ms)%nat
}.

Lemma shrinks_refl ms : shrinks ms ms.
Proof. by split. Qed.

Lemma shrinks_trans a b c : shrinks a b → shrinks b c → shrinks a c.
Proof. intros [G1 N1] [G2 N2]. split; [intros ds ?%G1; by apply G2|lia]. Qed.

#[export] Hint Resolve shrinks_refl : core.

(** ** Counting images *)

Definition cnt (ms : list Json) : nat := length (List.filter is_group ms).

Lemma filter_seq_lookup (f : Json → bool) pre ms :
  length (List.filter (λ i, match (pre ++ ms) !! i with Some m => f m | None => false end) (seq (length pre) (length ms)))
  = length (List.filter f ms).
Proof.
  revert pre. induction ms as [|m ms IH]; intros pre; [done|]. cbn [length seq List.filter]. rewrite list_lookup_middle by done.
  specialize (IH (pre ++ [m])). rewrite length_app, Nat.add_1_r, <- app_assoc in IH. cbn [app] in IH.
  destruct (f m); cbn [length]; by rewrite IH.
Qed.

Lemma group_count_cnt ms : group_count ms = cnt ms.
Proof. exact (filter_seq_lookup is_group [] ms). Qed.

Lemma cnt_concat a b : cnt (a ++ b) = (cnt a + cnt b)%nat.
Proof. unfold cnt. by rewrite List.filter_app, length_app. Qed.

Lemma cnt_cons m a : cnt (m :: a) = ((if is_group m then 1 else 0) + cnt a)%nat.
Proof. unfold cnt. cbn. by destruct (is_group m). Qed.

Lemma cnt_rev a : cnt (rev a) = cnt a.
Proof. induction a as [|m a IH]; [done|]. cbn [rev]. rewrite cnt_concat, IH, !cnt_cons. unfold cnt at 2. cbn. lia. Qed.

Lemma cnt_partition (f : Json → bool) ms : (cnt (List.filter f ms) + cnt (List.filter (λ m, negb (f m)) ms) = cnt ms)%nat.
Proof. induction ms as [|m ms IH]; [done|]. cbn [List.filter]. rewrite (cnt_cons m ms). destruct (f m); cbn [negb]; rewrite cnt_cons; lia. Qed.

Lemma cnt_drop_join n its : (cnt (mjoin (drop n its)) <= cnt (mjoin its))%nat.
Proof. rewrite <- (take_drop n its) at 2. rewrite join_app, cnt_concat. lia. Qed.

Lemma join_filter_nonempty (its : list (list Json)) :
  mjoin (List.filter (λ it, match it with [] => false | _ => true end) its) = mjoin its.
Proof.
  induction its as [|[|m it] its IH]; [done|exact IH|]. change (mjoin ((m :: it) :: its)) with ((m :: it) ++ mjoin its).
  by rewrite <- IH.
Qed.

Lemma join_map_filter (f : Json → bool) (its : list (list Json)) : mjoin (List.filter f <$> its) = List.filter f (mjoin its).
Proof.
  induction its as [|it its IH]; [done|]. change (mjoin (it :: its)) with (it ++ mjoin its). rewrite List.filter_app, <- IH. done.
Qed.

Lemma hoist_cnt p : (cnt (prefix (hoist_controls p)) + cnt (mjoin (iterations (hoist_controls p)))
                     = cnt (prefix p) + cnt (mjoin (iterations p)))%nat.
Proof.
  unfold hoist_controls. destruct (List.filter is_injected_directive (mjoin (iterations p))) as [|c cs] eqn:E; [done|].
  rewrite <- E. cbn [prefix iterations]. rewrite cnt_concat, join_filter_nonempty, join_map_filter.
  pose proof (cnt_partition is_injected_directive (mjoin (iterations p))). lia.
Qed.

Lemma cnt_nil : cnt [] = 0%nat.
Proof. done. Qed.

Lemma peel_prefix_cnt rp : let '(p, cs, _) := peel_prefix rp in (cnt p + cnt cs <= cnt rp)%nat.
Proof.
  induction rp as [|m rp IH]; cbn [peel_prefix]; [done|]. destruct rp as [|m2 rp]; [rewrite cnt_nil; lia|].
  destruct (peel_prefix (m2 :: rp)) as [[p cs] ss].
  destruct (is_injected_directive m); [|destruct (is_emergency_summary m)]; rewrite ?cnt_concat, !(cnt_cons m), ?cnt_nil; lia.
Qed.

Lemma agent_parts_cnt ms : (cnt (prefix (agent_parts ms)) + cnt (mjoin (iterations (agent_parts ms))) <= cnt ms)%nat.
Proof.
  unfold agent_parts, split_prefix_and_iterations, group_iterations. pose proof (peel_prefix_cnt (rev (take (prefix_end ms) ms))) as Hp.
  destruct (peel_prefix _) as [[p cs] ss]. cbn [prefix iterations]. rewrite group_from_join, cnt_concat, cnt_rev. cbn [app].
  rewrite cnt_rev in Hp. rewrite <- (take_drop (prefix_end ms) ms) at 3. rewrite cnt_concat. lia.
Qed.

Lemma same_is_image b b' : same_block b b' → is_image b' = is_image b.
Proof. intros S. unfold is_image. by rewrite (same_has_type _ _ _ S), (same_source _ _ S). Qed.

Lemma same_is_group m m' : same_shape m m' → is_group m' = is_group m.
Proof.
  intros S. unfold is_group. rewrite (same_has_role _ _ _ S). f_equal. rewrite !blocks_of_content.
  destruct (same_content _ _ S) as [bs bs' F|]; cbn [default]; unfold Datatypes.id; [|done].
  induction F as [|b b' bs bs' Sb F IH]; [done|]. cbn. by rewrite (same_is_image _ _ Sb), IH.
Qed.

Lemma same_cnt ms ms' : Forall2 same_shape ms ms' → cnt ms' = cnt ms.
Proof. induction 1 as [|m m' ms ms' S F IH]; [done|]. by rewrite !cnt_cons, IH, (same_is_group _ _ S). Qed.

(** ** Notes for images *)

Lemma bare_no_group m : list_content m = None → is_group m = false.
Proof. intros E. unfold is_group. rewrite blocks_of_content, E. apply andb_false_r. Qed.

Lemma note_directive note m : is_injected_directive (note_message note m) = is_injected_directive m.
Proof. unfold is_injected_directive. by rewrite (proj2 (note_fields note m)). Qed.

Lemma noted_directives ms ms' : noted ms ms' → Forall (λ d, list_content d = None) (directives ms) → directives ms' = directives ms.
Proof.
  induction 1 as [|m m' ms ms' Hm F IH]; [done|]. intros Hd. unfold directives in *. cbn [List.filter] in *.
  assert (E : is_injected_directive m' = is_injected_directive m ∧ (is_injected_directive m = true → m' = m)).
  { destruct Hm as [ ->|(note & Hg & ->)]; [done|]. rewrite note_directive. split; [done|]. intros Ei. rewrite Ei in Hd.
    apply Forall_cons in Hd as [Hb _]. apply bare_no_group in Hb. congruence. }
  destruct E as [-> E]. destruct (is_injected_directive m); [|by apply IH]. apply Forall_cons in Hd as [_ Hd]. f_equal; [by apply E|by apply IH].
Qed.

Lemma noted_fewer ms ms' : noted ms ms' → (cnt ms' <= cnt ms)%nat ∧ (ms' ≠ ms → (cnt ms' < cnt ms)%nat).
Proof.
  induction 1 as [|m m' ms ms' Hm F [IH1 IH2]]; [done|]. rewrite !cnt_cons. destruct Hm as [ ->|(note & Hg & ->)].
  - split; [lia|]. intros Hne. apply Nat.add_lt_mono_l, IH2. by intros ->.
  - rewrite (note_no_group _ _ Hg), Hg. split; [|intros _]; lia.
Qed.

Lemma noted_shrinks ms ms' : noted ms ms' → shrinks ms ms'.
Proof.
  intros F. split; [|rewrite !group_count_cnt; by apply noted_fewer].
  intros ds [Hn Hs Hd Hb]. split; [by apply (noted_native _ _ F)|by eapply noted_settled| |done].
  rewrite (noted_directives _ _ F); [done|by rewrite Hd].
Qed.

Lemma noted_strict ms ms' : noted ms ms' → ms' ≠ ms → (group_count ms' < group_count ms)%nat.
Proof. intros F Hne. rewrite !group_count_cnt. by apply noted_fewer. Qed.

Lemma noted_refl ms : noted ms ms.
Proof. apply Forall2_same_length_lookup_2; [done|]. intros i x y Hx Hy. left. congruence. Qed.

#[export] Hint Resolve noted_refl : core.

Lemma filter_shorter {A : Type} (f : A → bool) l x : x ∈ l → f x = false → (length (List.filter f l) < length l)%nat.
Proof.
  intros Hx Hf. induction l as [|y l IH]; [by apply elem_of_nil in Hx|]. cbn. pose proof (List.filter_length_le f l).
  apply elem_of_cons in Hx as [<-|Hx]; [rewrite Hf; lia|]. specialize (IH Hx). destruct (f y); cbn; lia.
Qed.

Lemma replace_fewer ms i js note : (∀ j, j ∈ i :: js → j ∈ image_groups ms) →
  (group_count (replace_images ms (i :: js) note) < group_count ms)%nat.
Proof.
  intros Hi. unfold group_count. rewrite replace_groups by done. apply (filter_shorter _ _ i); [by apply Hi; left|].
  by rewrite bool_decide_eq_true_2 by by left.
Qed.

Lemma unseen_in_groups ms i : i ∈ unseen_groups ms → i ∈ image_groups ms.
Proof. unfold unseen_groups. rewrite !list_elem_of_In, filter_In. tauto. Qed.

(** Omitting or withholding: notes, and fewer images unless nothing happened. *)
Lemma omit_seen_spec ms k : noted ms (omit_seen ms k).1
  ∧ ((omit_seen ms k).2 ≠ 0%nat → (group_count (omit_seen ms k).1 < group_count ms)%nat).
Proof.
  unfold omit_seen. destruct (take k (seen_groups ms)) as [|g gs] eqn:E; [by split|].
  assert (Hg : ∀ i, i ∈ g :: gs → i ∈ image_groups ms).
  { rewrite <- E. intros i Hi. apply seen_in_groups. rewrite <- (take_drop k (seen_groups ms)). set_solver. }
  split; [by apply replace_noted|]. intros _. by apply replace_fewer.
Qed.

Lemma withhold_spec ms : noted ms (withhold_unseen ms).1
  ∧ ((withhold_unseen ms).2 ≠ 0%nat → (group_count (withhold_unseen ms).1 < group_count ms)%nat).
Proof.
  unfold withhold_unseen. destruct (unseen_groups ms) as [|g gs] eqn:E; [by split|].
  assert (Hg : ∀ i, i ∈ g :: gs → i ∈ image_groups ms) by (rewrite <- E; apply unseen_in_groups).
  split; [by apply replace_noted|]. intros _. by apply replace_fewer.
Qed.

Lemma drop_images_spec ms : noted ms (drop_images ms).1
  ∧ ((drop_images ms).2 ≠ 0%nat → (group_count (drop_images ms).1 < group_count ms)%nat).
Proof. unfold drop_images. destruct (seen_groups ms); [apply withhold_spec|apply omit_seen_spec]. Qed.

Lemma fit_seen_noted ok ms out n : fit_seen ok ms = Some (out, n) → noted ms out.
Proof. destruct (fit_seen_spec ok ms) as (k & -> & _ & Hn & _). by intros [= <- _]. Qed.

(** ** Compression *)

Section llm.
Context `{Codec, Rendering, AgentText}.

Lemma emergency_shrinks ms target out r : emergency_compress None ms target = Some (out, r) → shrinks ms out.
Proof.
  intros E. split.
  - intros ds [Hn Hs Hd Hb]. destruct (emergency_settled None _ _ _ _ Hn Hs I E) as [Hs' Hn']. split; try done.
    by rewrite (emergency_directives _ _ _ _ _ E).
  - rewrite !group_count_cnt. apply emergency_compress_spec in E as (_ & _ & [ ->|[_ (s & its & n & -> & F & _)]]); [done|].
    unfold payload. rewrite !cnt_concat. assert (cnt (option_list (user_text <$> s)) = 0%nat) as -> by by destruct s.
    assert (cnt (mjoin its) = cnt (mjoin (drop n (iterations (parts_of None ms))))) as ->.
    { clear -F. induction F as [|it it' its0 its S F IH]; [done|].
      change (mjoin (it' :: its)) with (it' ++ mjoin its). change (mjoin (it :: its0)) with (it ++ mjoin its0).
      by rewrite !cnt_concat, IH, (same_cnt _ _ S). }
    pose proof (cnt_drop_join n (iterations (parts_of None ms))). pose proof (hoist_cnt (agent_parts ms)). pose proof (agent_parts_cnt ms).
    unfold parts_of in *. lia.
Qed.

Lemma soft_good ds ms max_chars keep : good ds ms → good ds (compress_tool_context ms max_chars keep None).1.
Proof.
  intros [Hn Hs Hd Hb]. destruct (soft_settled ms max_chars keep Hn Hs) as [Hs' Hn']. split; try done. by rewrite soft_directives.
Qed.

Lemma predictive_noted s ms : noted ms (predictive_image_fit s ms).1.
Proof.
  unfold predictive_image_fit. destruct (_ || _); [done|]. destruct (negb _); [done|].
  destruct (fit_seen _ ms) as [[out n]|] eqn:E; [|done]. by eapply fit_seen_noted.
Qed.

Lemma descent_shrinks s rungs k ms : shrinks ms (presend_descent s rungs k ms).1.
Proof.
  revert k ms. induction rungs as [|t rungs IH]; intros k ms; cbn [presend_descent]; [done|]. destruct (not_refuted s ms); [done|].
  destruct (emergency_compress None ms t) as [[out r]|] eqn:E; [|done]. destruct (_ <? _); [done|].
  destruct (_ =? _); [apply IH|]. eapply shrinks_trans; [by eapply emergency_shrinks|apply IH].
Qed.

Lemma presend_shrinks plan ms : shrinks ms (presend plan ms).1.1.
Proof.
  unfold presend. destruct (is_codex plan); [|done]. destruct (snapshot plan) as [snap|]; [|done].
  pose proof (noted_shrinks _ _ (predictive_noted snap ms)) as Sh1.
  destruct (predictive_image_fit snap ms) as [ms1 n1]. cbn [fst] in Sh1.
  set (d := match ladder snap with [] => (ms1, 0%nat) | l => presend_descent snap l 0 ms1 end).
  assert (Sh2 : shrinks ms1 d.1) by (unfold d; destruct (ladder snap); [done|apply descent_shrinks]).
  destruct d as [ms2 p]. cbn [fst] in Sh2. pose proof (noted_shrinks _ _ (predictive_noted snap ms2)) as Sh3.
  destruct (predictive_image_fit snap ms2) as [ms3 n3]. cbn [fst] in *. eapply shrinks_trans; [exact Sh1|]. by eapply shrinks_trans.
Qed.

Lemma size_rungs_spec ok rungs p o ms out p' o' :
  size_rungs ok rungs p o ms = Some (out, p', o') →
  shrinks ms out ∧ (p <= p' <= p + length rungs)%nat ∧ (p' = p → out = ms).
Proof.
  revert p o ms. induction rungs as [|t rungs IH]; intros p o ms; cbn [size_rungs].
  { destruct (ok ms); intros [= <- <- <-]; split_and!; try done; cbn; lia. }
  destruct (ok ms). { intros [= <- <- <-]; split_and!; try done; cbn; lia. }
  destruct (_ <=? t). { intros (S & Hp & _)%IH. split_and!; [done|cbn; lia..|lia]. }
  destruct (emergency_compress None ms t) as [[c r]|] eqn:E; [|done]. cbn [mbind option_bind].
  destruct (_ <? _); intros (S & Hp & _)%IH; (split_and!; [|cbn; lia..|lia]); [|done].
  eapply shrinks_trans; [by eapply emergency_shrinks|done].
Qed.

Lemma fit_request_size_spec fixed rungs p ms out p' n ok :
  fit_request_size fixed rungs p ms = Some (out, p', n, ok) →
  shrinks ms out ∧ (p <= p')%nat ∧ ((p < p')%nat → (p' <= length rungs)%nat) ∧ (p' = p → noted ms out).
Proof.
  unfold fit_request_size. destruct (within_request_limit ms fixed None); [intros [= <- <- _ _]; split_and!; [done..|lia|done]|].
  destruct (fit_seen _ ms) as [[ms1 n1]|] eqn:E1; [|done]. cbn [mbind option_bind]. apply fit_seen_noted in E1.
  destruct (size_rungs _ _ p n1 ms1) as [[[ms2 p2] n2]|] eqn:E2; [|done]. cbn [mbind option_bind].
  apply size_rungs_spec in E2 as (S2 & Hp & He). rewrite length_drop in Hp.
  set (w := if within_request_limit ms2 fixed None then (ms2, 0%nat) else withhold_unseen ms2).
  assert (E3 : noted ms2 w.1) by (unfold w; destruct (within_request_limit _ _ _); [done|apply withhold_spec]).
  destruct w as [ms3 k]. cbn [fst] in E3. intros [= <- <- _ _]. split_and!; [|lia..|].
  - eapply shrinks_trans; [by apply noted_shrinks|]. eapply shrinks_trans; [exact S2|by apply noted_shrinks].
  - intros ->. eapply noted_trans; [exact E1|]. rewrite He in E3 by done. exact E3.
Qed.

Lemma skip_met_bound chars rungs p : (p <= skip_met chars rungs p <= p + length rungs)%nat.
Proof. revert p. induction rungs as [|t rungs IH]; intros p; cbn; [lia|]. destruct (_ <=? t); [specialize (IH (S p)); lia|lia]. Qed.

(** ** The agent meanwhile *)

(** The mail may grow; what was consumed stays. *)
Record posted (m m' : Mail) : Prop := {
  posted_consumed : consumed_events m' = consumed_events m;
  posted_inbox : ∃ new, inbox m' = inbox m ++ new ∧ queued_events m' = queued_events m ++ new
}.

Lemma posted_refl m m' : consumed_events m' = consumed_events m → inbox m' = inbox m → queued_events m' = queued_events m → posted m m'.
Proof. intros ? Hi Hq. split; [done|]. exists []. by rewrite !app_nil_r. Qed.

Lemma posted_trans a b c : posted a b → posted b c → posted a c.
Proof.
  intros [C1 (n1 & I1 & Q1)] [C2 (n2 & I2 & Q2)]. split; [congruence|]. exists (n1 ++ n2).
  by rewrite I2, Q2, I1, Q1, !app_assoc.
Qed.

Lemma mail_grows_posted m m' : mail_grows m m' → posted m m'.
Proof. by intros [_ ? ?]. Qed.

(** What holds of an agent however a generation went. *)
Record evolves (a a' : AgentInfo) : Prop := {
  evolves_base : base a' = base a;
  evolves_posted : posted (mail a) (mail a');
  evolves_shrinks : shrinks (messages (mail a)) (messages (mail a'))
}.

Lemma evolves_same a a' : base a' = base a → mail a' = mail a → evolves a a'.
Proof. intros Hb Hm. split; rewrite ?Hm; [done|by apply posted_refl|done]. Qed.

Lemma evolves_trans a b c : evolves a b → evolves b c → evolves a c.
Proof.
  intros [B1 P1 S1] [B2 P2 S2]. split; [congruence|by eapply posted_trans|by eapply shrinks_trans].
Qed.

Lemma evolves_transcript a ms : shrinks (messages (mail a)) ms → evolves a (set_transcript ms a).
Proof. intros S. split; [done|by apply posted_refl|exact S]. Qed.

Definition executing (a : AgentInfo) : Prop := state (machine a) = EXECUTING ∧ ended_at a = None.

(** Settled in one of these states at this time, its report mailbox closed and empty. *)
Record ended (ss : list AgentState) (t : Z) (a : AgentInfo) : Prop := {
  ended_state : state (machine a) ∈ ss;
  ended_time : ended_at a = Some t;
  ended_closed : accepting (reports a) = false ∧ AgentReports.pending (reports a) = []
}.

Lemma ended_more ss ss' t a : ended ss t a → ss ⊆ ss' → ended ss' t a.
Proof. intros [] Hs. split; try done. by apply Hs. Qed.

Lemma arrive_evolves x a : evolves a (arrive x a) ∧ (executing a → executing (arrive x a)).
Proof.
  destruct (arrive_fields x a) as ([= B M E _] & G & _). split; [|unfold executing; by rewrite M, E].
  split; [done|by apply mail_grows_posted|]. by rewrite (grows_messages _ _ G).
Qed.

Lemma close_box_closed reason t m : accepting (close_box reason t m) = false ∧ AgentReports.pending (close_box reason t m) = [].
Proof.
  unfold close_box. cbn zeta. match goal with |- context [record_all ?k ?t ?r ?i ?m] => destruct (record_all_same k t r i m) as (-> & _ & -> & _) end.
  split; [|done]. unfold stop_accepting. by destruct (accepting m) eqn:E.
Qed.

Lemma transition_goes to reason t a : to ∈ VALID_TRANSITIONS (state (machine a)) →
  ∃ a', transition to reason t a = Some a' ∧ state (machine a') = to ∧ base a' = base a ∧ mail a' = mail a ∧ ended_at a' = ended_at a
    ∧ cancel_event a' = cancel_event a
    ∧ (terminal to = true → accepting (reports a') = false ∧ AgentReports.pending (reports a') = []).
Proof.
  intros Hv. unfold transition, move, can_transition. rewrite bool_decide_eq_true_2 by done. cbn [mbind option_bind state].
  eexists. split; [done|]. destruct (terminal to); split_and!; try done. intros _. apply close_box_closed.
Qed.

Lemma end_as_goes to reason result error w :
  to ∈ VALID_TRANSITIONS (state (machine (self w))) → terminal to = true →
  ∃ w', end_as to reason result error w = Some w' ∧ now w' = now w ∧ ended [to] (now w) (self w')
    ∧ base (self w') = base (self w) ∧ mail (self w') = mail (self w).
Proof.
  intros Hv Ht. destruct (transition_goes to reason (now w) (self w) Hv) as (a & E & Hs & Hb & Hm & _ & _ & Hc).
  unfold end_as. rewrite E. cbn [mbind option_bind]. eexists. split_and!; try done. split; [|done|by apply Hc].
  cbn. rewrite Hs. by left.
Qed.

(** ** How a generation may end *)

Definition outcome (accepted : Reply → Prop) (w : Worker) (g : Generation) : Prop :=
  match g with
  | Replied r => executing (self w) ∧ accepted r
  | Ended => ended [FAILED; TIMEOUT] (now w) (self w)
  | Cancelled_out | Raised_out _ => executing (self w)
  end.

Lemma ending_outcome P to reason result error w :
  executing (self w) → to ∈ [FAILED; TIMEOUT] →
  outcome P (ending_as to reason result error w).1 (ending_as to reason result error w).2
  ∧ evolves (self w) (self (ending_as to reason result error w).1).
Proof.
  intros [Hs He] Ht. unfold ending_as.
  destruct (end_as_goes to reason result error w) as (w' & -> & Hn & Hd & Hb & Hm).
  - rewrite Hs. set_solver.
  - unfold terminal. apply bool_decide_eq_true. set_solver.
  - cbn [fst snd outcome]. rewrite Hn. split; [|by apply evolves_same]. eapply ended_more; [exact Hd|]. set_solver.
Qed.

(** ** Every round spends something *)

Definition spare (bound : nat) (s : Attempting) : nat :=
  ((1 - edge_retries s) + (bound - passes s) + group_count (transcript (worker s)))%nat.

(** What a step of the loop leads to, from an agent [a] with so much to spare. *)
Definition leads (bound : nat) (P : Reply → Prop) (a : AgentInfo) (n : nat) (st : Step) : Prop :=
  match st with
  | inl (w, g) => evolves a (self w) ∧ outcome P w g
  | inr s => evolves a (self (worker s)) ∧ executing (self (worker s)) ∧ (spare bound s < n)%nat
  end.

Lemma leads_from bound P a b n st : evolves a b → leads bound P b n st → leads bound P a n st.
Proof.
  intros E. destruct st as [[w g]|s]; cbn.
  - intros [E' ?]. split; [by eapply evolves_trans|done].
  - intros (E' & ? & ?). split; [by eapply evolves_trans|done].
Qed.

Lemma leads_ending bound P a n to reason result error w :
  executing (self w) → evolves a (self w) → to ∈ [FAILED; TIMEOUT] → leads bound P a n (inl (ending_as to reason result error w)).
Proof.
  intros He Hev Ht. destruct (ending_outcome P to reason result error w He Ht) as [Ho Hw].
  cbn [leads]. destruct (ending_as to reason result error w). split; [by eapply evolves_trans|done].
Qed.

Lemma leads_fail bound P a n reason w : executing (self w) → evolves a (self w) → leads bound P a n (inl (fail_with reason w)).
Proof. intros. apply leads_ending; [done..|]. set_solver. Qed.

Section steps.
Variables (bound : nat) (P : Reply → Prop) (s : Attempting).
Hypothesis at_it : executing (self (worker s)).
Let a := self (worker s).
Let n := spare bound s.

Lemma leads_resize ms p k : shrinks (transcript (worker s)) ms → (passes s <= p)%nat →
  (group_count ms < group_count (transcript (worker s)))%nat ∨ (passes s < p <= bound)%nat →
  leads bound P a n (inr (resize ms p k s)).
Proof.
  intros S Hp Hless. split_and!; [by apply evolves_transcript|done|]. destruct S as [_ Hc]. unfold n, spare, transcript in *. cbn -[group_count].
  lia.
Qed.

Lemma leads_retry reason retrying : (edge_retries s < 1)%nat → leads bound P a n (retry_edge reason retrying s).
Proof.
  intros He. unfold retry_edge. set (w := with_self count_recovery (worker s)).
  assert (Hw : state (machine (self w)) = EXECUTING ∧ ended_at (self w) = None) by apply at_it.
  destruct (transition_goes RECOVERING reason (now w) (self w)) as (a1 & -> & S1 & B1 & M1 & E1 & _).
  { rewrite (proj1 Hw). set_solver. }
  cbn [mbind option_bind].
  destruct (transition_goes EXECUTING retrying (now w) a1) as (a2 & -> & S2 & B2 & M2 & E2 & _).
  { rewrite S1. set_solver. }
  cbn. split_and!.
  - apply evolves_same; [by rewrite B2, B1|by rewrite M2, M1].
  - split; [done|]. by rewrite E2, E1, (proj2 Hw).
  - unfold n, spare, transcript. cbn -[group_count]. rewrite M2, M1. cbn -[group_count]. lia.
Qed.

Lemma leads_drop text p : (passes s <= p)%nat → leads bound P a n (drop_or_fail text (resize (transcript (worker s)) p 0 s)).
Proof.
  intros Hp. unfold drop_or_fail. change (transcript (worker (resize _ p 0 s))) with (transcript (worker s)).
  pose proof (drop_images_spec (transcript (worker s))) as [Hn Hf].
  assert (Hfail : leads bound P a n (inl (fail_with text (worker (resize (transcript (worker s)) p 0 s))))).
  { apply leads_fail; [exact at_it|]. by apply evolves_transcript. }
  destruct (has_images _); [|done]. destruct (drop_images _) as [ms [|k]]; [done|]. cbn [fst snd] in *.
  split_and!; [exact (evolves_transcript a ms (noted_shrinks _ _ Hn))|done|]. specialize (Hf ltac:(done)).
  unfold n, spare, transcript in *. cbn -[group_count]. lia.
Qed.

Lemma leads_size ladder fixed : (length ladder <= bound)%nat → leads bound P a n (handle_size ladder fixed s).
Proof.
  intros Hl. unfold handle_size.
  destruct (fit_request_size fixed ladder (passes s) (transcript (worker s))) as [[[[ms p] k] ok]|] eqn:E.
  2: { split; [by apply evolves_same|exact at_it]. }
  apply fit_request_size_spec in E as (S & Hp & Hlt & Hn).
  destruct (ok && bool_decide (ms ≠ transcript (worker s))) eqn:Eo.
  - apply leads_resize; [done..|]. apply andb_true_iff in Eo as [_ Hne%bool_decide_eq_true].
    destruct (decide (p = passes s)) as [ ->|]; [left; apply noted_strict; auto|right; split; [lia|]]. etrans; [apply Hlt; lia|done].
  - apply leads_fail; [exact at_it|]. by apply evolves_transcript.
Qed.

Lemma leads_overflow ladder text : (length ladder <= bound)%nat → leads bound P a n (handle_overflow ladder text s).
Proof.
  intros Hl. unfold handle_overflow. set (p := if has_images _ then _ else _).
  assert (Hp : (passes s <= p)%nat).
  { unfold p. destruct (has_images _); [|done]. pose proof (skip_met_bound (estimate_message_chars (transcript (worker s))) (drop (passes s) ladder) (passes s)). lia. }
  destruct (drop p ladder) as [|target rest] eqn:E; [by apply leads_drop|].
  assert (Hpl : (p < length ladder)%nat) by (apply (f_equal length) in E; rewrite length_drop in E; cbn in E; lia).
  destruct (emergency_compress None _ target) as [[out r]|] eqn:Ec; [|split; [by apply evolves_same|exact at_it]].
  destruct (fits r); [|apply leads_drop; lia].
  change (leads bound P a n (inr (rescued (compressed_chars r) (resize out (S p) (group_count (transcript (worker s)) - group_count out) s)))).
  apply emergency_shrinks in Ec.
  pose proof (leads_resize out (S p) (group_count (transcript (worker s)) - group_count out) Ec ltac:(lia) ltac:(right; lia)) as L.
  exact L.
Qed.

End steps.

(** ** The loop *)

Record bounded_attempt (bound : nat) (e : AttemptEnv) : Prop := {
  bounded_ladder : match published_ladder e with Some l => (length l <= bound)%nat | None => True end
}.

Lemma overflow_ladder_bound bound rescue e target chars :
  (1 <= bound)%nat → (length rescue <= bound)%nat → bounded_attempt bound e → (length (overflow_ladder rescue e target chars) <= bound)%nat.
Proof.
  intros B1 Hr [He]. assert (Hd : (length (default rescue (published_ladder e)) <= bound)%nat) by (by destruct (published_ladder e)).
  unfold overflow_ladder. destruct target as [t|]; [|done]. by destruct (t <? chars).
Qed.

Lemma accept_leads bound a n plan e r s :
  executing (self (worker s)) → evolves a (self (worker s)) → attempt_end e = Accepted r →
  leads bound (λ r, attempt_end e = Accepted r) a n (inl (accept plan e r s)).
Proof.
  intros Hx Ha He. unfold accept. destruct (pending_ceiling s) as [c|]; [|done]. destruct (omitted s =? 0)%nat; [|done].
  destruct (recorder e) as [[x stop]|]; [|done]. destruct (arrive_evolves x (self (worker s))) as [E1 E2].
  destruct (_ && _); [|done]. destruct stop; cbn; (split; [by eapply evolves_trans|]); [by apply E2|]. split; [by apply E2|done].
Qed.

Section attempts.
Variables (bound : nat) (plan : Plan) (size_ladder rescue_ladder : list Z).
Hypothesis bound_one : (1 <= bound)%nat.
Hypothesis size_bound : (length size_ladder <= bound)%nat.
Hypothesis rescue_bound : (length rescue_ladder <= bound)%nat.

Lemma attempt_leads e s :
  bounded_attempt bound e → executing (self (worker s)) →
  leads bound (λ r, attempt_end e = Accepted r) (self (worker s)) (spare bound s) (attempt plan size_ladder rescue_ladder e s).
Proof.
  intros Hb Hx. unfold attempt. destruct (_ <=? 0); [apply leads_ending; [done|by apply evolves_same|set_solver]|].
  cbn zeta. destruct (_ <=? 0); [apply leads_fail; [exact Hx|by apply evolves_same]|].
  unfold attempt_ended. cbn [worker]. set (w := at_arrival (meanwhile e) (worker s)).
  destruct (arrive_evolves (meanwhile e) (self (worker s))) as [E1 E2]. specialize (E2 Hx).
  change (arrive (meanwhile e) (self (worker s))) with (self w) in E1, E2.
  set (s1 := set_worker w _). assert (Hw : worker s1 = w) by done.
  assert (Hs : spare bound s1 = spare bound s).
  { destruct (arrive_fields (meanwhile e) (self (worker s))) as (_ & G & _). unfold spare, transcript. rewrite Hw. cbn -[group_count].
    by rewrite (grows_messages _ _ G). }
  assert (Hlift : ∀ st, leads bound (λ r, attempt_end e = Accepted r) (self (worker s1)) (spare bound s1) st →
    leads bound (λ r, attempt_end e = Accepted r) (self (worker s)) (spare bound s) st).
  { intros st. rewrite Hs, Hw. by apply leads_from. }
  cbn zeta. rewrite Hw.
  destruct (attempt_end e) as [r| |err text|] eqn:Ee.
  - rewrite <- Ee. apply accept_leads; [done..|]. done.
  - destruct (_ <=? 0); [by apply leads_ending; [..|set_solver]|].
    destruct (is_codex plan && _) eqn:Er; [|by apply leads_fail]. apply Hlift. apply leads_retry; [exact E2|].
    apply andb_true_iff in Er as [_ Er]. apply Nat.ltb_lt in Er. exact Er.
  - destruct (_ <=? 0); [by apply leads_ending; [..|set_solver]|]. destruct err as [|fixed|target|].
    + destruct (_ <? _)%nat eqn:Er; [|by apply leads_fail]. apply Hlift, leads_retry; [exact E2|]. by apply Nat.ltb_lt in Er.
    + apply Hlift. by apply leads_size.
    + apply Hlift. apply leads_overflow; [exact E2|]. by apply overflow_ladder_bound.
    + by apply leads_fail.
  - split; [exact E1|exact E2].
Qed.

Lemma attempts_end env fuel k s :
  (∀ k, bounded_attempt bound (env k)) → executing (self (worker s)) → (spare bound s < fuel)%nat →
  ∃ w g, attempts fuel plan size_ladder rescue_ladder env k s = Some (w, g)
    ∧ evolves (self (worker s)) (self w) ∧ outcome (λ r, ∃ k, attempt_end (env k) = Accepted r) w g.
Proof.
  intros Hb. revert k s. induction fuel as [|fuel IH]; intros k s Hx Hf; [lia|]. cbn [attempts].
  pose proof (attempt_leads (env k) s (Hb k) Hx) as L. destruct (attempt _ _ _ (env k) s) as [[w g]|s']; cbn [leads] in L.
  - destruct L as [He Ho]. exists w, g. split_and!; [done..|]. destruct g; cbn in *; try done. destruct Ho. split; [done|by exists k].
  - destruct L as (He & Hx' & Hlt). destruct (IH (S k) s' Hx' ltac:(lia)) as (w & g & E & He' & Ho).
    exists w, g. split_and!; [done| |done]. by eapply evolves_trans.
Qed.
End attempts.

(** The ladders a generation may use. *)
Record bounded_generation (bound : nat) (plan : Plan) (rescue : option (list Z)) (env : nat → AttemptEnv) : Prop := {
  bound_two : (2 <= bound)%nat;
  bound_plan : match snapshot plan with Some s => (length (ladder s) <= bound)%nat | None => True end;
  bound_rescue : match rescue with Some l => (length l <= bound)%nat | None => True end;
  bound_env k : bounded_attempt bound (env k)
}.

Lemma fallback_short : (length fallback_ladder <= 2)%nat.
Proof. apply Nat.leb_le. vm_compute. reflexivity. Qed.

Lemma call_llm_ends bound plan rescue env w :
  bounded_generation bound plan rescue env → executing (self w) →
  ∃ w' g, call_llm bound plan rescue env w = Some (w', g)
    ∧ evolves (self w) (self w') ∧ outcome (λ r, ∃ k, attempt_end (env k) = Accepted r) w' g.
Proof.
  intros [B2 Bp Br Be] Hx. unfold call_llm. destruct (_ <=? 0).
  - destruct (ending_outcome (λ r, ∃ k, attempt_end (env k) = Accepted r) TIMEOUT (lifetime_reason w) (get_last_progress (self w))
      (error_text (work (self w))) w Hx) as [Ho He]; [set_solver|]. unfold lifetime_timeout. destruct (ending_as _ _ _ _ _) as [w' g].
    by exists w', g.
  - pose proof fallback_short. assert (Hr : (length (default fallback_ladder rescue) <= bound)%nat) by (destruct rescue; cbn; [done|lia]).
    pose proof (presend_shrinks plan (transcript w)) as S. destruct (presend plan (transcript w)) as [[ms p] k] eqn:Ep. cbn [fst] in S.
    set (s := {| worker := _ |}).
    destruct (attempts_end bound plan (size_ladder_of plan (default fallback_ladder rescue)) (default fallback_ladder rescue)
      ltac:(lia)) with (env := env) (fuel := enough bound (transcript w)) (k := 0%nat) (s := s) as (w' & g & E & He & Ho); try done.
    + unfold size_ladder_of. by destruct (snapshot plan).
    + unfold spare, enough. destruct S as [_ Hc]. unfold s, transcript in *. cbn -[group_count] in *. lia.
    + exists w', g. split_and!; [exact E| |done]. eapply evolves_trans; [|exact He]. by apply evolves_transcript.
Qed.

(** C28: A generation always ends, whatever the provider does.  With ladders of at most
    [bound] rungs it takes at most [bound] rungs, one edge retry and one round per image
    message; it keeps the transcript good, the parent's messages verbatim in place, and
    adds no image; mail that arrives stays queued; and it ends with an accepted reply and
    an agent still at work, with an agent that has failed or timed out and is settled, or
    with an exception or a cancellation its worker can still settle. *)
Theorem generation_ends bound plan rescue env w ds :
  bounded_generation bound plan rescue env → executing (self w) → good ds (transcript w) →
  ∃ w' g, call_llm bound plan rescue env w = Some (w', g)
    ∧ good ds (transcript w') ∧ (group_count (transcript w') <= group_count (transcript w))%nat
    ∧ posted (mail (self w)) (mail (self w'))
    ∧ match g with
      | Replied r => executing (self w') ∧ ∃ k, attempt_end (env k) = Accepted r
      | Ended => ended [FAILED; TIMEOUT] (now w') (self w')
      | Cancelled_out | Raised_out _ => executing (self w')
      end.
Proof.
  intros Hb Hx Hg. destruct (call_llm_ends bound plan rescue env w Hb Hx) as (w' & g & E & [_ Hp [S N]] & Ho).
  exists w', g. split_and!; try done. by apply S.
Qed.

End llm.

Module GenerationWitness.
Import ReportsWitness Concrete CompressWitness CycleWitness.

(** The agent of the tool cycle, at work on the transcript of the compression. *)
Definition busy : AgentInfo :=
  set_transcript (task :: story)
    (default worker (a ← transition READY (lit "r") 0 worker; transition EXECUTING (lit "e") 0 a)).

Definition at_start : Worker := {| self := busy; now := 0; context_char_ceiling := None |}.

(** The first attempt overflows the window; the second, on a smaller payload, is accepted. *)
Definition answer : Reply := {| reply_text := lit "done"; reply_calls := []; incomplete := false; reasoning := []; by_codex := false |}.
Definition overflow_once (k : nat) : AttemptEnv :=
  {| meanwhile := calm (Z.of_nat k);
     attempt_end := if (k =? 0)%nat then Raised_error (Window_overflow None) (lit "too long") else Accepted answer;
     published_ladder := None; recorder := None |}.
Definition plain_plan : Plan := {| is_codex := false; snapshot := None |}.

Lemma start_transcript : transcript at_start = task :: story.
Proof. vm_compute. reflexivity. Qed.

Lemma start_good : good [parent "only the big ones"] (transcript at_start).
Proof.
  rewrite start_transcript. split; [exact story_native| | |].
  - vm_compute. by eexists.
  - by vm_compute.
  - apply Forall_singleton. by vm_compute.
Qed.

Lemma generation_ends_witness :
  ∃ w', call_llm 2 plain_plan (Some [1500]) overflow_once at_start = Some (w', Replied answer)
    ∧ Transcript.settled (transcript w') ∧ estimate_message_chars (transcript w') <= 1500 ∧ context_char_ceiling w' ≠ None
    ∧ directives (transcript w') = [parent "only the big ones"].
Proof.
  destruct (generation_ends 2 plain_plan (Some [1500]) overflow_once at_start [parent "only the big ones"])
    as (w' & g & E & G & _ & _ & _).
  - split; [lia|done|cbn; lia|by intros k; split].
  - by vm_compute.
  - exact start_good.
  - assert (C : match call_llm 2 plain_plan (Some [1500]) overflow_once at_start with
                | Some (w, Replied r) => r = answer ∧ estimate_message_chars (transcript w) <= 1500 ∧ context_char_ceiling w ≠ None
                | _ => False
                end) by (vm_compute; split_and!; done).
    rewrite E in C. destruct g as [r| | |text]; [|destruct C..]. destruct C as (Er & C1 & C2). exists w'. rewrite <- Er.
    split; [exact E|]. split; [exact (good_settled _ _ G)|]. split; [exact C1|]. split; [exact C2|exact (good_directives _ _ G)].
Defined.

End GenerationWitness.
