(* ===== verification/AgentRun.v ===== *)
(** * The worker of an agent (_run_agent of src/src/agents/manager.py)

    Generations and tool cycles until the agent ends.  The environment gives, for every
    iteration, the plan, the attempts of the generation, the judge and the calls.  The
    trajectory, the log and the result that is only displayed are left out. *)

From S2P Require Import Prelude PyStr PyLib Transcript Compress Budget ImageFit AgentReports Agents AgentCycle AgentLlm.
Open Scope string_scope.
Open Scope list_scope.
Open Scope Z_scope.

Definition MAX_AGENT_COMPLETION_CONTINUATIONS : nat := 3.

(** What the spawn fixes for the worker. *)
Record Config : Type := {
  max_rounds : nat;
  budget_warnings : list Z;
  compression_enabled : bool;
  max_context_chars : Z;
  keep_recent_iterations : Z;
  has_classifier : bool
}.

(** The judge of a candidate answer; its failure counts as complete. *)
Inductive Judged : Type := Verdict (complete : bool) (reason : pystr) | Judge_failed | Judge_cancelled.

(** One iteration: the plan ([None]: no plan provider, or it failed), the snapshot of the
    budget provider, which is asked when there is no plan provider, the attempts, the fresh
    ids, the judge, the tools. *)
Record IterationEnv : Type := {
  plan : option Plan;
  other_snapshot : option ContextBudgetSnapshot;
  attempts_env : nat → AttemptEnv;
  uuids_env : nat → pystr;
  judge_meanwhile : Arrival;
  judged : Judged;
  calls_env : nat → CallEnv
}.

(** The state of the loop. *)
Record Loop : Type := {
  at_work : Worker;
  guard : RepetitionGuard;
  continuations : nat;
  incomplete_answer : bool;
  incomplete_reason : pystr
}.

Definition set_work_of (w : Worker) (l : Loop) : Loop :=
  {| at_work := w; guard := guard l; continuations := continuations l;
     incomplete_answer := incomplete_answer l; incomplete_reason := incomplete_reason l |}.
Definition set_judgement (incomplete : bool) (reason : pystr) (l : Loop) : Loop :=
  {| at_work := at_work l; guard := guard l; continuations := continuations l;
     incomplete_answer := incomplete; incomplete_reason := reason |}.
Definition set_guard (g : RepetitionGuard) (l : Loop) : Loop :=
  {| at_work := at_work l; guard := g; continuations := continuations l;
     incomplete_answer := incomplete_answer l; incomplete_reason := incomplete_reason l |}.

(** What a part of the iteration leads to: the next part, the next iteration, the end of
    the worker, a cancellation, an exception. *)
Inductive Flow : Type := Onward (l : Loop) | Next (l : Loop) | Finished (w : Worker) | Stopped_by_cancel (w : Worker) | Crashed (w : Worker) (text : pystr).

Definition and_then (f : Flow) (k : Loop → Flow) : Flow := match f with Onward l => k l | f => f end.

Section run.
Context `{Codec, Rendering, AgentText, ToolText}.

(** The message of [render_reports], with its structural metadata. *)
Definition report_message (items : list ReportItem) : Json :=
  JDict [(lit "role", JStr (lit "user")); (lit "content", JStr (render_reports items));
         (lit "provenance", JStr (lit "agent_report"));
         (lit "report_items",
           JList ((λ x, JDict [(lit "recipient", JStr (recipient x)); (lit "incarnation", JStr (incarnation x));
                               (lit "report_sequence", JInt (sequence x)); (lit "agent_id", JStr (sender_id x));
                               (lit "sender_iteration", JInt (sender_iteration x));
                               (lit "sender_call_ref", JStr (call_ref x)); (lit "queued_at", JInt (queued_at x))]) <$> items))].

(** [drain_reports] *)
Definition drain_reports (t : Z) (a : AgentInfo) : AgentInfo :=
  match pending (reports a) with
  | [] => a
  | items => set_transcript (messages (mail a) ++ [report_message items]) (set_reports (drain t (reports a)).1 a)
  end.

Definition parent_message (n : Z) (s : pystr) : Json :=
  user_message (JStr (lit "[Message from parent] " ++ s)) [(lit "provenance", JStr (lit "agent_parent")); (lit "sequence", JInt n)].

Definition touch (t : Z) (a : AgentInfo) : AgentInfo :=
  set_work {| iteration_count := iteration_count (work a); tool_execution_count := tool_execution_count (work a);
              tools_used := tools_used (work a); recovery_attempts := recovery_attempts (work a);
              phase := phase (work a); phase_started_at := phase_started_at (work a);
              last_activity := t; phase_deadline := phase_deadline (work a);
              result_text := result_text (work a); error_text := error_text (work a) |} a.

(** [drain_inbox]: the reports first, then every message once. *)
Definition drain_inbox (t : Z) (a : AgentInfo) : AgentInfo * bool :=
  let items := inbox (mail a) in
  let a := match items with [] => a | _ => drain_reports t a end in
  let ml := {| messages := messages (mail a) ++ ((λ x, parent_message x.1 x.2) <$> items); inbox := [];
               inbox_sequence := inbox_sequence (mail a);
               last_consumed_sequence := default (last_consumed_sequence (mail a)) (fst <$> last items);
               inbox_event := false; queued_events := queued_events (mail a);
               consumed_events := consumed_events (mail a) ++ items.*1 |} in
  let a := set_mail ml a in
  match items with
  | [] => (a, false)
  | _ => (touch t a, true)
  end.

Definition drained (l : Loop) : Loop * bool :=
  let w := at_work l in
  let '(a, consumed) := drain_inbox (now w) (self w) in
  let l := set_work_of (with_self (λ _, a) w) l in
  (if consumed then set_judgement false [] l else l, consumed).

(** ** Ends *)

Definition finish (to : AgentState) (reason result error : pystr) (w : Worker) : Flow :=
  match end_as to reason result error w with
  | Some w => Finished w
  | None => Crashed w invalid
  end.

(** A transition that does not end the agent. *)
Definition step_to (to : AgentState) (reason : pystr) (l : Loop) : Flow :=
  match transition to reason (now (at_work l)) (self (at_work l)) with
  | Some a => Onward (set_work_of (with_self (λ _, a) (at_work l)) l)
  | None => Crashed (at_work l) invalid
  end.

(** [_check_kill]: an agent that is terminal already stays as it is. *)
Definition check_kill (l : Loop) : Flow :=
  let w := at_work l in
  if cancel_event (self w) then
    if is_terminal (self w) then Finished w
    else finish KILLED (lit "cancel signal") (result_text (work (self w))) (error_text (work (self w))) w
  else Onward l.

(** [_check_lifetime] *)
Definition check_lifetime (l : Loop) : Flow :=
  let w := at_work l in
  if remaining_lifetime w <=? 0 then
    finish TIMEOUT (lifetime_reason w) (get_last_progress (self w)) (error_text (work (self w))) w
  else Onward l.

Definition NO_BUDGET : pystr := lit "Parent correction consumed, but no iteration budget remains to replan.".

Definition failed (reason error : pystr) (l : Loop) : Flow :=
  finish FAILED reason (result_text (work (self (at_work l)))) error (at_work l).

(** READY cannot fail directly. *)
Definition fail_from_ready (settling reason result error : pystr) (l : Loop) : Flow :=
  and_then (step_to EXECUTING settling l) (λ l, finish FAILED reason result error (at_work l)).

(** ** Before a generation *)

Definition say (m : Json) (l : Loop) : Loop :=
  set_work_of (with_self (λ a, set_transcript (messages (mail a) ++ [m]) a) (at_work l)) l.

Definition snapshot_of (e : IterationEnv) : option ContextBudgetSnapshot :=
  match plan e with Some p => snapshot p | None => other_snapshot e end.

Definition soft_target (c : Config) (e : IterationEnv) : Z :=
  match snapshot_of e with Some s => primary_chars s | None => max_context_chars c end.

Definition budget_warning (c : Config) (i : nat) : list Json :=
  let remaining := Z.of_nat (max_rounds c) - Z.of_nat i in
  if bool_decide (remaining ∈ budget_warnings c) then
    [user_text
       (if remaining =? 1 then lit "[Agent budget: FINAL iteration. Produce your final summary NOW.]"
        else if remaining <=? 5 then
          lit "[Agent budget: " ++ show remaining ++
          lit " iterations remaining. Commit any changes, run validation, and produce your final summary.]"
        else
          lit "[Agent budget: " ++ show remaining ++
          lit (" iterations remaining. Begin wrapping up " ) ++ [8212] ++
          lit " finish the smallest useful change, validate, and prepare your final summary.]")]
  else [].

(** The soft pass, the warning, and after the transition the pass of the latch. *)
Definition soft_pass (c : Config) (e : IterationEnv) (i : nat) (a : AgentInfo) : AgentInfo :=
  if compression_enabled c && (0 <? i)%nat && (soft_target c e <? estimate_message_chars (messages (mail a)))
  then set_transcript (compress_tool_context (messages (mail a)) (soft_target c e) (keep_recent_iterations c) None).1 a
  else a.

Definition latch_pass (c : Config) (e : IterationEnv) (w : Worker) : Worker :=
  match context_char_ceiling w with
  | Some ceiling =>
      let target := Z.min ceiling (soft_target c e) in
      if target <? estimate_message_chars (transcript w) then
        match emergency_compress None (transcript w) target with
        | Some (out, _) => with_self (set_transcript out) w
        | None => w
        end
      else w
  | None => w
  end.

Definition count_iteration (i : nat) (a : AgentInfo) : AgentInfo :=
  set_work {| iteration_count := Z.of_nat i + 1; tool_execution_count := tool_execution_count (work a);
              tools_used := tools_used (work a); recovery_attempts := recovery_attempts (work a);
              phase := phase (work a); phase_started_at := phase_started_at (work a);
              last_activity := last_activity (work a); phase_deadline := phase_deadline (work a);
              result_text := result_text (work a); error_text := error_text (work a) |} a.

Definition prepare (c : Config) (e : IterationEnv) (i : nat) (l : Loop) : Flow :=
  and_then (check_kill l) (λ l, and_then (check_lifetime l) (λ l,
    let l := set_work_of (with_self (drain_reports (now (at_work l))) (at_work l)) l in
    let l := (drained l).1 in
    let l := set_work_of (with_self (soft_pass c e i) (at_work l)) l in
    let l := foldl (λ l m, say m l) l (budget_warning c i) in
    and_then (step_to EXECUTING (lit "iteration " ++ show (Z.of_nat i + 1)) l) (λ l,
      match settled_call_ids (transcript (at_work l)) with
      | None => Crashed (at_work l) (lit "unsettled transcript")
      | Some _ =>
          let w := at_work l in
          let t := now w + Z.min (iteration_timeout (base (self w))) (remaining_lifetime w) in
          let w := with_self (λ a, count_iteration i (set_phase Generating (Some t) (now w) a)) w in
          Onward (set_work_of (latch_pass c e w) l)
      end))).

(** ** The candidate answer *)

Definition continuation (reason : pystr) : Json :=
  JDict [(lit "role", JStr (lit "user")); (lit "provenance", JStr (lit "agent_completion_classifier"));
         (lit "content", JStr (lit "You are not done. " ++ or_text reason (lit "The requested task is incomplete.")
                               ++ lit " Continue with tool calls now."))].

Definition back_to_ready (reason : pystr) (l : Loop) : Flow :=
  match step_to READY reason l with
  | Onward l => Next (set_work_of (with_self (λ a, set_phase Phase_ready None (now (at_work l)) a) (at_work l)) l)
  | f => f
  end.

Definition complete (text : pystr) (l : Loop) : Flow :=
  let w := at_work (set_judgement false [] l) in
  finish COMPLETED (lit "no more tool calls") text (error_text (work (self w))) w.

(** The judge is asked after tools were used, at most three times to no avail. *)
Definition judge (c : Config) (e : IterationEnv) (i : nat) (text : pystr) (l : Loop) : Flow :=
  let w := at_work l in
  if remaining_lifetime w <=? 0 then
    finish TIMEOUT (lifetime_reason w) (get_last_progress (self w)) (error_text (work (self w))) w
  else
    let l := set_work_of (at_arrival (judge_meanwhile e) w) l in
    match judged e with
    | Judge_cancelled => Stopped_by_cancel (at_work l)
    | v =>
        let '(ok, reason) := match v with Verdict ok reason => (ok, reason) | _ => (true, []) end in
        and_then (check_lifetime l) (λ l,
          let '(l, consumed) := drained l in
          if consumed then
            if (max_rounds c <=? i + 1)%nat then failed NO_BUDGET NO_BUDGET l
            else back_to_ready (lit "parent correction during completion classification") l
          else
            let l := set_judgement (negb ok) (if ok then [] else reason) l in
            if ok then complete text l
            else if (MAX_AGENT_COMPLETION_CONTINUATIONS <=? continuations l)%nat || (max_rounds c <=? i + 1)%nat
                    || (remaining_lifetime (at_work l) <=? 0)
            then
              let detail := lit "Agent did not complete the task: " ++ or_text reason (lit "completion criteria unmet")
                            ++ lit ". Continuation limit or execution budget exhausted." in
              finish FAILED detail text detail (at_work l)
            else
              back_to_ready (lit "completion classifier requested continuation")
                (say (continuation reason)
                   {| at_work := at_work l; guard := guard l; continuations := S (continuations l);
                      incomplete_answer := incomplete_answer l; incomplete_reason := incomplete_reason l |}))
    end.

Definition candidate (c : Config) (e : IterationEnv) (i : nat) (text : pystr) (l : Loop) : Flow :=
  let '(l, consumed) := drained l in
  if consumed then
    if (i + 1 =? max_rounds c)%nat then failed (lit "budget exhausted with parent correction") NO_BUDGET l
    else back_to_ready (lit "parent correction before finalization") l
  else if has_classifier c && negb (bool_decide (tools_used (work (self (at_work l))) = []))
          && (continuations l <? MAX_AGENT_COMPLETION_CONTINUATIONS)%nat
  then judge c e i text l
  else complete text l.

(** ** The tool cycle *)

Definition nudge : Json :=
  JDict [(lit "role", JStr (lit "user")); (lit "provenance", JStr (lit "agent_guard"));
         (lit "content", JStr (lit ("Repeated identical tool calls returned identical results. " ++
            "Review the recorded call/result pairs; do not repeat unchanged work. " ++
            "Replan or return a truthful final result.")))].

Definition STOPPED : pystr := lit "Stopped repeated identical tool calls and results after one warning.".

Definition repetition_report (rs : list CallResult) : pystr :=
  STOPPED ++ [LF] ++ PyStr.join LF ((λ r, of_name r ++ lit " [" ++ status_text (status r) ++ lit "]: " ++ take 300 (chars (output r))) <$> rs).

(** After the results: the guard, which cannot raise on the results of a cycle. *)
Definition after_tools (c : Config) (i : nat) (calls : list Call) (rs : list CallResult) (l : Loop) : Flow :=
  and_then (check_lifetime l) (λ l, and_then (check_kill l) (λ l, and_then (step_to READY (lit "tools complete") l) (λ l,
    let l := set_work_of (with_self (λ a, set_phase Phase_ready None (now (at_work l)) a) (at_work l)) l in
    let '(l, consumed) := drained l in
    if consumed && (i + 1 =? max_rounds c)%nat then
      fail_from_ready (lit "settling exhausted correction") (lit "budget exhausted with parent correction") (result_text (work (self (at_work l)))) NO_BUDGET l
    else
      match observe calls rs (guard l) with
      | None => Crashed (at_work l) (lit "results do not match the calls")
      | Some (g, No_action) => Next (set_guard g l)
      | Some (g, Nudge) => Next (say nudge (set_guard g l))
      | Some (g, Stop_repeating) =>
          fail_from_ready (lit "settling repetition guard") (lit "unchanged tool/result cycle after warning") (repetition_report rs) STOPPED (set_guard g l)
      end))).

Definition reply_message (r : Reply) (calls : list Call) : Json :=
  JDict [(lit "role", JStr (lit "assistant"));
         (lit "content", JList ((if nonempty (reasoning r)
                                 then [JDict [(lit "type", JStr (lit "reasoning_content")); (lit "reasoning_content", JStr (reasoning r))]]
                                 else []) ++ assistant_content (reply_text r) calls))].

Definition INCOMPLETE : pystr := lit "Provider marked this response incomplete; partial output retained.".

Definition run_tools (c : Config) (e : IterationEnv) (i : nat) (calls : list Call) (l : Loop) : Flow :=
  let w := at_work l in
  let '(cy, ending) := execute_cycle (calls_env e) calls (self w) (now w) in
  let w := {| self := agent cy; now := clock cy; context_char_ceiling := context_char_ceiling w |} in
  match ending with
  | By_cancellation => Stopped_by_cancel w
  | By_exception => Crashed w (lit "timeout resolver failed")
  | Normal => after_tools c i calls (results cy) (set_work_of w l)
  end.

Definition replied (c : Config) (e : IterationEnv) (i : nat) (r : Reply) (l : Loop) : Flow :=
  let calls := normalize_tool_calls (uuids_env e) (reply_calls r) in
  if incomplete r then finish FAILED INCOMPLETE (reply_text r) INCOMPLETE (at_work l)
  else
    let l := say (reply_message r calls) l in
    match calls with
    | [] => candidate c e i (reply_text r) l
    | _ => run_tools c e i calls l
    end.

(** ** One iteration, and all of them *)

Definition rescue_of (e : IterationEnv) : option (list Z) := ladder <$> snapshot_of e.
Definition plan_of (e : IterationEnv) : Plan := default {| is_codex := false; snapshot := None |} (plan e).

Definition generate (bound : nat) (c : Config) (e : IterationEnv) (i : nat) (l : Loop) : option Flow :=
  '(w, g) ← call_llm bound (plan_of e) (rescue_of e) (attempts_env e) (at_work l);
  Some match g with
       | Replied r => replied c e i r (set_work_of w l)
       | Ended => Finished w
       | Cancelled_out => Stopped_by_cancel w
       | Raised_out text => Crashed w text
       end.

Definition iteration (bound : nat) (c : Config) (e : IterationEnv) (i : nat) (l : Loop) : option Flow :=
  match prepare c e i l with
  | Onward l => generate bound c e i l
  | f => Some f
  end.

(** [_synthesize_fallback]: what the agent did, when it said nothing. *)
Definition recent_results (m : Json) : list pystr :=
  if has_role m "user" then
    match field m "content" with
    | Some (JStr s) => if legacy_result s then [take 300 s] else []
    | Some (JList bs) =>
        omap (λ b, if has_type b "tool_result"
                   then Some (take 300 (lit "[" ++ text_of (default (JStr (lit "result")) (field b "status")) ++ lit "] "
                                        ++ text_of (default (JStr []) (field b "content"))))
                   else None) (rev bs)
    | _ => []
    end
  else [].

(** The results of the latest messages, until there are three. *)
Fixpoint last_results (rev_ms : list Json) (found : list pystr) : list pystr :=
  match rev_ms with
  | [] => found
  | m :: ms =>
      let found := found ++ recent_results m in
      if has_role m "user" && (3 <=? length found)%nat then take 3 found else last_results ms found
  end.

Definition synthesize_fallback (a : AgentInfo) (rounds : nat) : pystr :=
  let results := last_results (rev (messages (mail a))) [] in
  PyStr.join LF
    ([lit "Agent reached max iterations (" ++ show (Z.of_nat rounds) ++ lit ") without producing a final response."]
     ++ match tools_used (work a) with [] => [] | ts => [lit "Tools used: " ++ join_with (lit ", ") ts] end
     ++ match results with [] => [] | _ => lit "Last tool results:" :: ((λ r, lit "  " ++ r) <$> rev results) end).

Definition cap_result (c : Config) (a : AgentInfo) : pystr :=
  let t := get_last_progress a in
  if bool_decide (t = NO_OUTPUT) then synthesize_fallback a (max_rounds c) else t.

(** The cap: a rejected answer must not become a success. *)
Definition at_cap (c : Config) (l : Loop) : Flow :=
  if incomplete_answer l then
    let error := lit "Task remained incomplete when the agent iteration budget was exhausted."
                 ++ (if nonempty (incomplete_reason l) then lit " Completion judge: " ++ incomplete_reason l ++ lit "." else []) in
    fail_from_ready (lit "settling incomplete completion at iteration cap")
      (lit "completion incomplete at iteration cap (" ++ show (Z.of_nat (max_rounds c)) ++ lit ")") (cap_result c (self (at_work l))) error l
  else finish COMPLETED (lit "max iterations (" ++ show (Z.of_nat (max_rounds c)) ++ lit ") reached") (cap_result c (self (at_work l)))
         (error_text (work (self (at_work l)))) (at_work l).

Fixpoint iterations_from (bound : nat) (c : Config) (env : nat → IterationEnv) (i rounds : nat) (l : Loop) : option Flow :=
  match rounds with
  | O => Some (at_cap c l)
  | S rounds =>
      f ← iteration bound c (env i) i l;
      match f with
      | Onward l | Next l => iterations_from bound c env (S i) rounds l
      | f => Some f
      end
  end.

(** The handlers of the worker; [None] is an exception that leaves it. *)
Definition settle_worker (f : Flow) : option Worker :=
  match f with
  | Onward l | Next l => Some (at_work l)
  | Finished w => Some w
  | Stopped_by_cancel w =>
      if is_terminal (self w) then Some (with_self (set_ended (now w)) w)
      else end_as KILLED (lit "task cancelled") (result_text (work (self w))) (error_text (work (self w))) w
  | Crashed w text =>
      if is_terminal (self w) then Some (with_self (λ a, set_ended (now w) (set_error text a)) w)
      else end_as FAILED (lit "unhandled: " ++ text) (result_text (work (self w))) text w
  end.

Definition fresh_loop (w : Worker) : Loop :=
  {| at_work := w; guard := new_guard; continuations := 0; incomplete_answer := false; incomplete_reason := [] |}.

(** [_run_agent]: the outer [None] is a generation without fuel. *)
Definition run_agent (bound : nat) (c : Config) (env : nat → IterationEnv) (a : AgentInfo) (t : Z) : option (option Worker) :=
  let w := {| self := a; now := t; context_char_ceiling := None |} in
  f ← match step_to READY (lit "initialization complete") (fresh_loop w) with
      | Onward l => iterations_from bound c env 0 (max_rounds c) l
      | f => Some f
      end;
  Some (settle_worker f).

End run.
