(* ===== verification/AgentRunTheory.v ===== *)
(** * Theorems about the worker of an agent

    Whatever its environment does, the worker of an agent ends in a terminal state; its
    transcript can be replayed all along; every message of the parent is handed over
    once, verbatim and in order, and an agent that completes has read them all. *)

From S2P Require Import Prelude PyStr PyLib Transcript Compress CompressTheory Budget ImageFit AgentReports Agents MediaResult AgentCycle AgentCycleTheory AgentLlm AgentLlmTheory AgentRun.
Open Scope string_scope.
Open Scope list_scope.
Open Scope Z_scope.

(** ** Messages an agent adds *)

(** A message of a user without blocks. *)
Definition texts (m : Json) : Prop := list_content m = None ∧ has_role m "assistant" = false.

Lemma texts_fine m : texts m → native m ∧ plain_message m.
Proof.
  intros [Hc Ha]. assert (Hb : blocks_of m = []) by by rewrite blocks_of_content, Hc. split.
  - split; [by rewrite Ha|unfold is_tool_use_message; by rewrite Hb|]. intros _. split; [unfold toolless; by rewrite Hb|done].
  - unfold plain_message. unfold list_content in Hc. by destruct (field m "content") as [[]|].
Qed.

Lemma good_app ds ms ps : good ds ms → Forall native ps → Forall plain_message ps →
  Forall (λ d, list_content d = None) (directives ps) → good (ds ++ directives ps) (ms ++ ps).
Proof.
  intros [Hn Hs Hd Hb] Hnp Hpp Hbp. split; [by apply Forall_app|by apply settled_app_plain| |by apply Forall_app].
  by rewrite directives_app, Hd.
Qed.

Lemma good_texts ds ms ps : good ds ms → Forall texts ps → good (ds ++ directives ps) (ms ++ ps).
Proof.
  intros G Hp. apply good_app; [done|eapply Forall_impl; [exact Hp|apply texts_fine]..|].
  eapply Forall_elem_of.
  - eapply Forall_impl; [exact Hp|]. by intros m [? _].
  - intros m [Hm _]%list_elem_of_In%filter_In. by apply list_elem_of_In.
Qed.

(** One that is no directive. *)
Lemma good_say ds ms m : good ds ms → texts m → is_injected_directive m = false → good ds (ms ++ [m]).
Proof.
  intros G Hm Hd. pose proof (good_texts ds ms [m] G ltac:(by constructor)) as G'. cbn in G'. rewrite Hd in G'. by rewrite app_nil_r in G'.
Qed.

Definition no_tool (b : Json) : Prop := is_tool_block b = false.

Lemma no_tools bs : Forall no_tool bs → existsb is_tool_block bs = false ∧ forallb plain_block bs = true
  ∧ existsb (λ b, has_type b "tool_use") bs = false.
Proof.
  induction 1 as [|b bs Hb _ (IH1 & IH2 & IH3)]; [done|]. cbn. rewrite IH1, IH2, IH3. unfold no_tool, is_tool_block, plain_block in *.
  by destruct (has_type b "tool_use"), (has_type b "tool_result").
Qed.

Lemma carrier_fine m : carrier no_tool m → native m ∧ plain_message m ∧ is_injected_directive m = false.
Proof.
  intros (bs & -> & (H1 & H2 & H3)%no_tools). split_and!; [|by split|done].
  split; [done| |done]. intros Hu. change (existsb (λ b, has_type b "tool_use") bs = true) in Hu. congruence.
Qed.

Lemma carriers_fine ps : Forall (carrier no_tool) ps → Forall native ps ∧ Forall plain_message ps ∧ directives ps = [].
Proof.
  induction 1 as [|m ps (Hn & Hp & Hd)%carrier_fine _ (IH1 & IH2 & IH3)]; [done|].
  split_and!; [by constructor..|]. cbn. by rewrite Hd.
Qed.

Lemma image_messages_carriers bs tool call : Forall no_tool bs → Forall (carrier no_tool) (image_messages bs tool call).
Proof.
  intros Hb. apply append_carriers; [|by constructor]. intros b. unfold no_tool, is_tool_block. by rewrite !has_type_drop_count.
Qed.

(** ** The state of a worker *)

Definition delivered (read : list (Z * pystr)) : list Json := (λ x, parent_message x.1 x.2) <$> read.

(** The transcript holds exactly the messages [read], the events account for all of them. *)
Record running (read : list (Z * pystr)) (a : AgentInfo) : Prop := {
  running_good : good (delivered read) (messages (mail a));
  running_consumed : consumed_events (mail a) = read.*1;
  running_queued : queued_events (mail a) = read ++ inbox (mail a)
}.

Lemma running_evolves read a a' : running read a → evolves a a' → running read a'.
Proof.
  intros [G C Q] [_ [Hc (new & Hi & Hq)] S]. split; [by apply S|congruence|].
  by rewrite Hq, Q, Hi, app_assoc.
Qed.

Lemma running_mail read a a' : running read a → mail a' = mail a → running read a'.
Proof. intros [G C Q] Hm. by split; rewrite Hm. Qed.

(** A running agent in a state; what is left to read may be given. *)
Definition runs_in (st : AgentState) (a : AgentInfo) : Prop :=
  (∃ read, running read a) ∧ state (machine a) = st ∧ ended_at a = None.

Definition loop_in (st : AgentState) (l : Loop) : Prop := runs_in st (self (at_work l)).
Definition all_read (l : Loop) : Prop := inbox (mail (self (at_work l))) = [].

Lemma runs_mail st a a' : runs_in st a → mail a' = mail a → machine a' = machine a → ended_at a' = ended_at a → runs_in st a'.
Proof. intros ([read R] & Hs & He) Hm Hc Hd. split; [exists read; by eapply running_mail|]. by rewrite Hc, Hd. Qed.

Lemma runs_transcript st a ms : runs_in st a → (∀ ds, good ds (messages (mail a)) → good ds ms) → runs_in st (set_transcript ms a).
Proof. intros ([read [G C Q]] & Hs & He) Hg. split; [|done]. exists read. split; [by apply Hg|done..]. Qed.

(** What is true of a worker that has ended. *)
Definition over (a : AgentInfo) : Prop :=
  (∃ read, running read a) ∧ (∃ t, ended TERMINAL_STATES t a) ∧ (state (machine a) = COMPLETED → inbox (mail a) = []).

(** Where a part of the iteration may lead. *)
Definition flows (onward next : Loop → Prop) (f : Flow) : Prop :=
  match f with
  | Onward l => onward l
  | Next l => next l
  | Finished w => over (self w)
  | Stopped_by_cancel w | Crashed w _ => runs_in EXECUTING (self w)
  end.

Definition nowhere (l : Loop) : Prop := False.
Definition next_round (l : Loop) : Prop := loop_in READY l ∧ all_read l.

Lemma flows_then (P Q N : Loop → Prop) f k :
  flows P N f → (∀ l, P l → flows Q N (k l)) → flows Q N (and_then f k).
Proof. destruct f; cbn; auto. Qed.

Lemma flows_mono (P P' N N' : Loop → Prop) f : flows P N f → (∀ l, P l → P' l) → (∀ l, N l → N' l) → flows P' N' f.
Proof. destruct f; cbn; auto. Qed.

Section run.
Context `{cd : Codec, rd : Rendering, tx : AgentText, tt : ToolText}.

(** ** Steps of the loop *)

Lemma step_to_goes to reason l st : loop_in st l → to ∈ VALID_TRANSITIONS st →
  ∃ l', step_to to reason l = Onward l' ∧ loop_in to l' ∧ mail (self (at_work l')) = mail (self (at_work l))
    ∧ cancel_event (self (at_work l')) = cancel_event (self (at_work l)).
Proof.
  intros ([read R] & Hs & He) Hv.
  destruct (transition_goes to reason (now (at_work l)) (self (at_work l))) as (a & E & S & B & M & D & C & _); [by rewrite Hs|].
  unfold step_to. rewrite E. eexists. split; [done|]. split_and!; [|done..].
  split; [exists read; by eapply running_mail|]. cbn. by rewrite D.
Qed.

Lemma finish_over (P N : Loop → Prop) to reason result error w st :
  runs_in st (self w) → to ∈ VALID_TRANSITIONS st → terminal to = true → (to = COMPLETED → inbox (mail (self w)) = []) →
  flows P N (finish to reason result error w).
Proof.
  intros ([read R] & Hs & He) Hv Ht Hc.
  destruct (end_as_goes to reason result error w) as (w' & E & _ & D & B & M); [by rewrite Hs|done|].
  unfold finish. rewrite E. split_and!.
  - exists read. by eapply running_mail.
  - exists (now w). eapply ended_more; [exact D|]. intros s ->%list_elem_of_singleton. by apply bool_decide_eq_true in Ht.
  - destruct D as [S _ _]. apply list_elem_of_singleton in S. rewrite S, M. exact Hc.
Qed.

Lemma failed_over (P N : Loop → Prop) reason error l : loop_in EXECUTING l → flows P N (failed reason error l).
Proof. intros Hl. eapply finish_over; [exact Hl|set_solver|done|done]. Qed.

Lemma check_kill_flows st N l : loop_in st l → KILLED ∈ VALID_TRANSITIONS st → flows (loop_in st) N (check_kill l).
Proof.
  intros Hl Hv. unfold check_kill. cbn zeta. destruct (cancel_event _); [|done]. destruct (is_terminal _) eqn:E.
  - destruct Hl as (_ & Hs & _). unfold is_terminal, terminal in E. apply bool_decide_eq_true in E. rewrite Hs in E.
    exfalso. revert Hv. by destruct st; vm_compute in E |- *; set_solver.
  - by eapply finish_over.
Qed.

Lemma check_lifetime_flows st N l : loop_in st l → TIMEOUT ∈ VALID_TRANSITIONS st → flows (loop_in st) N (check_lifetime l).
Proof. intros Hl Hv. unfold check_lifetime. cbn zeta. destruct (_ <=? 0); [by eapply finish_over|done]. Qed.

Lemma fail_from_ready_over (P N : Loop → Prop) settling reason result error l :
  loop_in READY l → flows P N (fail_from_ready settling reason result error l).
Proof.
  intros Hl. unfold fail_from_ready. destruct (step_to_goes EXECUTING settling l READY Hl) as (l' & -> & Hl' & _); [set_solver|].
  cbn [and_then]. eapply finish_over; [exact Hl'|set_solver|done|done].
Qed.

Lemma back_to_ready_next (P : Loop → Prop) reason l : loop_in EXECUTING l → all_read l → flows P next_round (back_to_ready reason l).
Proof.
  intros Hl Hr. unfold back_to_ready. destruct (step_to_goes READY reason l EXECUTING Hl) as (l' & -> & Hl' & M & _); [set_solver|].
  cbn. split; [by eapply runs_mail; [exact Hl'|..]|]. unfold all_read in *. cbn. by rewrite M.
Qed.

Lemma say_in st m l : loop_in st l → texts m → is_injected_directive m = false → loop_in st (say m l).
Proof. intros Hl Hm Hd. apply runs_transcript; [exact Hl|]. intros ds G. by apply good_say. Qed.

(** ** Draining *)

Lemma drain_reports_in st t a : runs_in st a → runs_in st (drain_reports t a) ∧ inbox (mail (drain_reports t a)) = inbox (mail a).
Proof.
  intros Ha. unfold drain_reports. destruct (AgentReports.pending (reports a)); [done|]. split; [|done].
  eapply (runs_mail _ (set_transcript (messages (mail a) ++ _) a)); [|done..].
  apply runs_transcript; [done|]. intros ds G. by apply good_say.
Qed.

Lemma directives_parents items : directives ((λ x, parent_message x.1 x.2) <$> items) = delivered items.
Proof. unfold delivered. induction items as [|x items IH]; [done|]. rewrite !fmap_cons. cbn. by f_equal. Qed.

Lemma drain_inbox_in st t a : runs_in st a →
  runs_in st (drain_inbox t a).1 ∧ inbox (mail (drain_inbox t a).1) = [] ∧ ((drain_inbox t a).2 = false → inbox (mail a) = [])
  ∧ cancel_event (drain_inbox t a).1 = cancel_event a.
Proof.
  intros Ha. unfold drain_inbox. cbn zeta.
  set (b := match inbox (mail a) with [] => a | _ => drain_reports t a end).
  assert (Hb : runs_in st b ∧ inbox (mail b) = inbox (mail a) ∧ cancel_event b = cancel_event a).
  { unfold b. destruct (inbox (mail a)) eqn:E; [done|]. rewrite <- E. destruct (drain_reports_in st t a Ha). split_and!; [done..|].
    unfold drain_reports. by destruct (AgentReports.pending (reports a)). }
  destruct Hb as (([read [G C Q]] & Hs & He) & Hi & Hc). rewrite <- Hi. set (ml := {| messages := _ |}).
  assert (R : running (read ++ inbox (mail b)) (set_mail ml b)).
  { split; cbn.
    - unfold delivered. rewrite fmap_app. fold (delivered read) (delivered (inbox (mail b))).
      pose proof (good_texts _ _ (delivered (inbox (mail b))) G) as Gd. unfold delivered at 3 in Gd.
      rewrite directives_parents in Gd. apply Gd. apply Forall_fmap, Forall_true. by intros x.
    - by rewrite C, fmap_app.
    - by rewrite Q, app_nil_r. }
  destruct (inbox (mail b)) as [|i is']; cbn [fst snd].
  - split_and!; [by split; [eexists|]|done..].
  - split_and!; [split; [eexists; by eapply running_mail|done]|done..].
Qed.

Lemma drained_in st l : loop_in st l →
  loop_in st (drained l).1 ∧ all_read (drained l).1 ∧ ((drained l).2 = false → all_read l).
Proof.
  intros Hl. unfold drained. cbn zeta. destruct (drain_inbox_in st (now (at_work l)) _ Hl) as (Ha & Hi & Hf & _).
  destruct (drain_inbox _ _) as [a []]; cbn [fst snd] in *; split_and!; done.
Qed.

(** ** Before the generation *)

Lemma budget_warning_texts c i : Forall (λ m, texts m ∧ is_injected_directive m = false) (budget_warning c i).
Proof.
  unfold budget_warning. cbn zeta. destruct (bool_decide _); [|constructor]. apply Forall_singleton. split; [by split|done].
Qed.

Lemma prepare_flows c e i l : loop_in READY l → flows (loop_in EXECUTING) nowhere (prepare c e i l).
Proof.
  intros Hl. unfold prepare. eapply flows_then; [apply check_kill_flows; [exact Hl|set_solver]|]. clear l Hl. intros l Hl.
  eapply flows_then; [apply check_lifetime_flows; [exact Hl|set_solver]|]. clear l Hl. intros l Hl. cbn zeta.
  set (l1 := set_work_of (with_self (drain_reports _) _) l).
  assert (H1 : loop_in READY l1) by (apply (drain_reports_in READY (now (at_work l)) _ Hl)).
  destruct (drained_in READY l1 H1) as (H2 & _ & _). set (l2 := (drained l1).1) in *.
  set (l3 := set_work_of (with_self (soft_pass c e i) (at_work l2)) l2).
  assert (H3 : loop_in READY l3).
  { unfold loop_in, l3. cbn. unfold soft_pass. destruct (_ && _); [|done]. apply runs_transcript; [exact H2|]. intros ds. apply soft_good. }
  assert (H4 : loop_in READY (foldl (λ l m, say m l) l3 (budget_warning c i))).
  { pose proof (budget_warning_texts c i) as Hw. revert H3. generalize l3. induction Hw as [|m ms [Hm Hd] _ IH]; intros l0 H0; [done|].
    cbn [foldl]. apply IH. by apply say_in. }
  set (l4 := foldl _ l3 _) in *.
  destruct (step_to_goes EXECUTING (lit "iteration " ++ show (Z.of_nat i + 1)) l4 READY H4) as (l5 & -> & H5 & _); [set_solver|]. cbn [and_then].
  destruct H5 as ([read R] & Hs & He). destruct (good_settled _ _ (running_good _ _ R)) as [ids Hids].
  unfold transcript. rewrite Hids. cbn [flows]. set (w := with_self _ (at_work l5)).
  assert (Hw : runs_in EXECUTING (self w)).
  { split; [exists read; by eapply running_mail|done]. }
  unfold loop_in. cbn [at_work set_work_of]. unfold latch_pass. destruct (context_char_ceiling w) as [t|]; [|done].
  cbn zeta. destruct (_ <? _); [|done]. destruct (emergency_compress None (transcript w) _) as [[out r]|] eqn:E; [|done].
  apply runs_transcript; [exact Hw|]. intros ds. by apply (shrinks_good _ _ (emergency_shrinks _ _ _ _ E)).
Qed.

(** ** The candidate answer *)

Lemma complete_over (P N : Loop → Prop) text l : loop_in EXECUTING l → all_read l → flows P N (complete text l).
Proof. intros Hl Hr. eapply finish_over; [exact Hl|set_solver|done|done]. Qed.

Lemma judge_flows c e i text l : loop_in EXECUTING l → flows nowhere next_round (judge c e i text l).
Proof.
  intros Hl. unfold judge. cbn zeta. destruct (_ <=? 0); [eapply finish_over; [exact Hl|set_solver|done|done]|].
  set (l1 := set_work_of (at_arrival _ _) l).
  assert (H1 : loop_in EXECUTING l1).
  { destruct Hl as ([read R] & Hs & He). destruct (arrive_evolves (judge_meanwhile e) (self (at_work l))) as [Ev Ex].
    split; [exists read; by eapply running_evolves|]. by apply Ex. }
  assert (Hgo : ∀ ok reason, flows nowhere next_round (and_then (check_lifetime l1) (λ l,
          let '(l, consumed) := drained l in
          if consumed then
            if (max_rounds c <=? i + 1)%nat then failed NO_BUDGET NO_BUDGET l
            else back_to_ready (lit "parent correction during completion classification") l
          else
            let l := set_judgement (negb ok) (if ok then [] else reason) l in
            if ok then complete text l
            else if (MAX_AGENT_COMPLETION_CONTINUATIONS <=? continuations l)%nat || (max_rounds c <=? i + 1)%nat
                    || (remaining_lifetime (at_work l) <=? 0)
            then
              let detail := lit "Agent did not complete the task: " ++ or_text reason (lit "completion criteria unmet")
                            ++ lit ". Continuation limit or execution budget exhausted." in
              finish FAILED detail text detail (at_work l)
            else
              back_to_ready (lit "completion classifier requested continuation")
                (say (continuation reason)
                   {| at_work := at_work l; guard := guard l; continuations := S (continuations l);
                      incomplete_answer := incomplete_answer l; incomplete_reason := incomplete_reason l |})))).
  { intros ok reason. eapply flows_then; [apply check_lifetime_flows; [exact H1|set_solver]|]. clear. intros l Hl.
    destruct (drained_in EXECUTING l Hl) as (Hd & Hr & _). destruct (drained l) as [l2 []]; cbn [fst snd] in *.
    - destruct (_ <=? _)%nat; [by apply failed_over|by apply back_to_ready_next].
    - cbn zeta. destruct ok; [by apply complete_over|]. destruct (_ || _); [eapply finish_over; [exact Hd|set_solver|done|done]|].
      apply back_to_ready_next; [|exact Hr]. by apply say_in. }
  destruct (judged e) as [ok reason| |]; [apply Hgo|apply (Hgo true [])|exact H1].
Qed.

Lemma candidate_flows c e i text l : loop_in EXECUTING l → flows nowhere next_round (candidate c e i text l).
Proof.
  intros Hl. unfold candidate. destruct (drained_in EXECUTING l Hl) as (Hd & Hr & _). destruct (drained l) as [l2 []]; cbn [fst snd] in *.
  - destruct (_ =? _)%nat; [by apply failed_over|by apply back_to_ready_next].
  - destruct (_ && _); [by apply judge_flows|by apply complete_over].
Qed.

(** ** The tool cycle *)

Lemma one_call_images (P : Json → Prop) e k c w :
  (∀ raw, AgentCycle.running e = Returned raw → Forall P (images_of c raw)) → Forall P (images w) → Forall P (images (one_call e k c w).1).
Proof.
  intros He Hw. unfold one_call. cbn zeta. cbn [agent clock images results executed].
  repeat (case_match; cbn [fst images add_result at_ on_agent execute]; try done; try (by rewrite app_nil_r)).
  all: apply Forall_app; split; [done|by apply He].
Qed.

Lemma call_loop_images (P : Json → Prop) env k calls w :
  (∀ k c raw, AgentCycle.running (env k) = Returned raw → Forall P (images_of c raw)) → Forall P (images w) →
  Forall P (images (call_loop env k calls w).1).
Proof.
  intros He. revert k w. induction calls as [|c calls IH]; intros k w Hw; cbn [call_loop]; [done|].
  pose proof (one_call_images P (env k) k c w (He k c) Hw) as Ho. destruct (one_call (env k) k c w) as [w' [u|]]; [done|]. by apply IH.
Qed.

(** What the tools are trusted with: blocks of images hold no tool blocks. *)
Definition honest_images (env : nat → CallEnv) : Prop :=
  ∀ k t fine error u md blocks, AgentCycle.running (env k) = Returned (Structured t fine error u md blocks) → Forall no_tool blocks.

Lemma cycle_images env calls a t : honest_images env → Forall (carrier no_tool) (images (execute_cycle env calls a t).1).
Proof.
  intros He. unfold execute_cycle. pose proof (call_loop_images (carrier no_tool) env 0 calls
    {| agent := a; clock := t; results := []; images := []; executed := [] |}) as Hl.
  destruct (call_loop _ _ _ _) as [w u]. cbn [fst settle images] in *. apply Hl; [|constructor].
  intros k c raw Hr. unfold images_of. destruct raw as [o fine error un md [|b bs]|]; [constructor| |constructor].
  apply image_messages_carriers. by eapply He.
Qed.

Lemma results_for calls rs : length rs = length calls →
  (∀ j c r, calls !! j = Some c → rs !! j = Some r → tool_use_id r = call_id c) →
  Forall2 result_for (call_id <$> calls) (tool_result_block <$> rs).
Proof.
  intros Hl Hr. apply Forall2_fmap, Forall2_same_length_lookup_2; [done|]. intros j c r Hc Hj. unfold result_for.
  split_and!; [done..|]. change (str_field (tool_result_block r) "tool_use_id") with (Some (tool_use_id r)). by rewrite (Hr j c r).
Qed.

(** The assistant message of a reply. *)
Lemma reply_native r calls : native (reply_message r calls) ∧ is_injected_directive (reply_message r calls) = false.
Proof. split; [|done]. split; [by eexists|done|done]. Qed.

Lemma reply_extra r : forallb plain_block
  (if nonempty (reasoning r) then [JDict [(lit "type", JStr (lit "reasoning_content")); (lit "reasoning_content", JStr (reasoning r))]] else []) = true.
Proof. by destruct (nonempty (reasoning r)). Qed.

Lemma results_native bs : existsb (λ b, has_type b "tool_use") bs = false →
  native (user_message (JList bs) []) ∧ is_injected_directive (user_message (JList bs) []) = false.
Proof.
  intros Hb. split; [|done]. split; [done| |done]. intros Hu. change (existsb (λ b, has_type b "tool_use") bs = true) in Hu. congruence.
Qed.

Lemma result_blocks_uses rs : existsb (λ b, has_type b "tool_use") (tool_result_block <$> rs) = false.
Proof. by induction rs as [|r rs IH]. Qed.

(** A whole turn, with the images after it, and an answer without calls. *)
Lemma good_turn ds ms r uuids raws rs imgs :
  let calls := normalize_tool_calls uuids raws in
  fresh_uuids uuids raws → calls ≠ [] → good ds ms →
  length rs = length calls → (∀ j c r, calls !! j = Some c → rs !! j = Some r → tool_use_id r = call_id c) →
  Forall (carrier no_tool) imgs →
  good ds ((ms ++ [reply_message r calls]) ++ user_message (JList (tool_result_block <$> rs)) [] :: imgs).
Proof.
  cbn zeta. intros Hu Hne G Hl Hr Hi. set (calls := normalize_tool_calls uuids raws) in *.
  destruct (normalize_tool_calls_ids uuids raws Hu) as [Hnd Hb]. fold calls in Hnd, Hb.
  destruct (reply_native r calls) as [Hrn Hrd]. destruct (results_native _ (result_blocks_uses rs)) as [Hsn Hsd].
  set (a := reply_message r calls) in *. set (u := user_message _ []) in *.
  assert (G2 : good ds (ms ++ [a; u])).
  { destruct G as [Hn Hs Hd Hbare]. split; [apply Forall_app; split; [done|by apply Forall_cons; split; [|apply Forall_singleton]]| | |done].
    - eapply (settled_turn ms a u (reply_text r) calls);
        [exact Hs|exact Hnd|exact Hb|done|reflexivity|apply reply_extra|done|by apply results_for|done].
    - rewrite directives_app, Hd. unfold directives. cbn [List.filter]. rewrite Hrd, Hsd. by rewrite app_nil_r. }
  destruct (carriers_fine imgs Hi) as (I1 & I2 & I3).
  pose proof (good_app ds _ imgs G2 I1 I2) as G3. rewrite I3, app_nil_r, <- app_assoc in G3. rewrite <- app_assoc. by apply G3.
Qed.

Lemma good_answer ds ms r : good ds ms → good ds (ms ++ [reply_message r []]).
Proof.
  intros [Hn Hs Hd Hb]. destruct (reply_native r []) as [Hrn Hrd]. split; [apply Forall_app; split; [done|by apply Forall_singleton]| | |done].
  - eapply (settled_reply ms _ ((if nonempty (reasoning r) then _ else []) ++ assistant_content (reply_text r) [])); [done..|].
    rewrite forallb_app, reply_extra. unfold assistant_content. by destruct (nonempty (reply_text r)).
  - rewrite directives_app, Hd. unfold directives. cbn [List.filter]. by rewrite Hrd, app_nil_r.
Qed.

Lemma after_tools_flows c i calls rs l :
  loop_in EXECUTING l → length rs = length calls → flows nowhere next_round (after_tools c i calls rs l).
Proof.
  intros Hl Hrs. unfold after_tools. eapply flows_then; [apply check_lifetime_flows; [exact Hl|set_solver]|]. clear l Hl. intros l Hl.
  eapply flows_then; [apply check_kill_flows; [exact Hl|set_solver]|]. clear l Hl. intros l Hl.
  destruct (step_to_goes READY (lit "tools complete") l EXECUTING Hl) as (l1 & -> & H1 & _); [set_solver|]. cbn [and_then]. cbn zeta.
  set (l2 := set_work_of _ l1). assert (H2 : loop_in READY l2) by (by eapply runs_mail; [exact H1|..]).
  destruct (drained_in READY l2 H2) as (H3 & Hr & _). destruct (drained l2) as [l3 b]. cbn [fst snd] in *.
  destruct (b && _); [by apply fail_from_ready_over|].
  unfold observe. destruct (pairs_of_total calls rs Hrs) as [ps ->]. cbn [mbind option_bind].
  destruct (step_guard _ _) as [g []]; cbn [flows].
  - done.
  - split; [|exact Hr]. by apply say_in.
  - by apply fail_from_ready_over.
Qed.

Record well_behaved (bound : nat) (e : IterationEnv) : Prop := {
  wb_generation : bounded_generation bound (plan_of e) (rescue_of e) (attempts_env e);
  wb_uuids k r : attempt_end (attempts_env e k) = Accepted r → fresh_uuids (uuids_env e) (reply_calls r);
  wb_images : honest_images (calls_env e)
}.

Lemma run_tools_flows c e i r l :
  let calls := normalize_tool_calls (uuids_env e) (reply_calls r) in
  fresh_uuids (uuids_env e) (reply_calls r) → honest_images (calls_env e) → calls ≠ [] → loop_in EXECUTING l →
  flows nowhere next_round (run_tools c e i calls (say (reply_message r calls) l)).
Proof.
  cbn zeta. intros Hu Hi Hne Hl. unfold run_tools. set (calls := normalize_tool_calls _ _) in *.
  set (a := self (at_work (say _ l))). cbn zeta.
  pose proof (cycle_images (calls_env e) calls a (now (at_work (say (reply_message r calls) l))) Hi) as Him.
  destruct (execute_cycle _ calls a _) as [cy ending] eqn:E. cbn [fst] in Him. apply execute_cycle_finished in E.
  set (w := {| self := agent cy; now := clock cy; context_char_ceiling := _ |}).
  assert (Hw : runs_in EXECUTING (agent cy)).
  { destruct Hl as ([read [G C Q]] & Hs & He). pose proof (fin_static _ _ _ _ E) as [= _ Sm Se _]. destruct (fin_mail _ _ _ _ E) as (b & M & Hm).
    split; [exists read|by rewrite Sm, Se].
    eapply (running_mail read (append_messages (user_message (JList (tool_result_block <$> results cy)) [] :: images cy) b)); [|done].
    destruct M as [Mm Mc (new & Mi & Mq)]. split; cbn.
    - rewrite Mm. apply good_turn; try done; [by rewrite (fin_length _ _ _ _ E)|].
      intros j c' r' Hc Hr. by apply (fin_records _ _ _ _ E j c' r').
    - rewrite Mc. exact C.
    - rewrite Mq, Mi, app_assoc. cbn. by rewrite Q. }
  destruct ending; [|exact Hw..]. apply after_tools_flows; [exact Hw|apply E].
Qed.

Lemma replied_flows bound c e i r l :
  well_behaved bound e → (∃ k, attempt_end (attempts_env e k) = Accepted r) → loop_in EXECUTING l →
  flows nowhere next_round (replied c e i r l).
Proof.
  intros W [k Hk] Hl. unfold replied. cbn zeta. destruct (incomplete r); [by eapply finish_over; [exact Hl|set_solver|..]|].
  destruct (normalize_tool_calls (uuids_env e) (reply_calls r)) as [|x xs] eqn:E.
  - apply candidate_flows. apply runs_transcript; [exact Hl|]. intros ds. by apply good_answer.
  - rewrite <- E. apply run_tools_flows; [by eapply wb_uuids|by eapply wb_images|by rewrite E|exact Hl].
Qed.

(** ** Iterations *)

Lemma iteration_flows bound c e i l :
  well_behaved bound e → loop_in READY l → ∃ f, iteration bound c e i l = Some f ∧ flows nowhere next_round f.
Proof.
  intros W Hl. unfold iteration. pose proof (prepare_flows c e i l Hl) as Hp.
  destruct (prepare c e i l) as [l1|l1|w|w|w text]; [|done|by eexists..]. cbn [flows] in Hp.
  unfold generate. destruct Hp as ([read R] & Hx).
  destruct (call_llm_ends bound (plan_of e) (rescue_of e) (attempts_env e) (at_work l1) (wb_generation _ _ W) Hx) as (w & g & -> & Ev & Ho).
  cbn [mbind option_bind]. eexists. split; [done|]. pose proof (running_evolves _ _ _ R Ev) as R'.
  destruct g as [r| | |text]; cbn [outcome] in Ho.
  - destruct Ho as [Ho Hk]. eapply replied_flows; [exact W|exact Hk|]. split; [by exists read|exact Ho].
  - split_and!; [by exists read|exists (now w); eapply ended_more; [exact Ho|set_solver]|]. destruct Ho as [Hs _ _]. intros Hc. rewrite Hc in Hs. set_solver.
  - split; [by exists read|exact Ho].
  - split; [by exists read|exact Ho].
Qed.

Lemma at_cap_over (P N : Loop → Prop) c l : next_round l → flows P N (at_cap c l).
Proof.
  intros [Hl Hr]. unfold at_cap. cbn zeta. destruct (incomplete_answer l); [by apply fail_from_ready_over|].
  eapply finish_over; [exact Hl|set_solver|done|done].
Qed.

Lemma iterations_flow bound c env i rounds l :
  (∀ i, well_behaved bound (env i)) → loop_in READY l → (rounds = 0%nat → all_read l) →
  ∃ f, iterations_from bound c env i rounds l = Some f ∧ flows nowhere nowhere f.
Proof.
  intros W. revert i l. induction rounds as [|rounds IH]; intros i l Hl Hr; cbn [iterations_from].
  - eexists. split; [done|]. apply at_cap_over. split; [done|by apply Hr].
  - destruct (iteration_flows bound c (env i) i l (W i) Hl) as (f & -> & Hf). cbn [mbind option_bind].
    destruct f as [l'|l'|w|w|w text]; [done| |by eexists..]. destruct Hf. by apply IH.
Qed.

Lemma settle_over f : flows nowhere nowhere f → ∃ w, settle_worker f = Some w ∧ over (self w).
Proof.
  assert (Hend : ∀ to reason result error w, to ∈ [FAILED; KILLED] → runs_in EXECUTING (self w) →
    ∃ w', end_as to reason result error w = Some w' ∧ over (self w')).
  { intros to reason result error w Ht Hw.
    assert (Hf : flows nowhere nowhere (finish to reason result error w)).
    { eapply finish_over; [exact Hw|set_solver|apply bool_decide_eq_true; set_solver|set_solver]. }
    destruct Hw as (_ & Hs & _).
    destruct (end_as_goes to reason result error w) as (w' & E & _); [rewrite Hs; set_solver|apply bool_decide_eq_true; set_solver|].
    unfold finish in Hf. rewrite E in *. by exists w'. }
  assert (Hnt : ∀ a, runs_in EXECUTING a → is_terminal a = false) by (intros a (_ & Hs & _); unfold is_terminal; by rewrite Hs).
  destruct f as [l|l|w|w|w text]; cbn [flows settle_worker]; [done|done|intros Hw; by exists w| |]; intros Hw; rewrite (Hnt _ Hw); apply Hend; try done; set_solver.
Qed.

(** A fresh agent, to which messages may have been sent before its task starts. *)
Lemma run_agent_over bound c env x b incarnation t :
  (∀ i, well_behaved bound (env i)) → (0 < max_rounds c)%nat →
  ∃ w, run_agent bound c env (arrive x (new_agent b incarnation)) t = Some (Some w) ∧ over (self w).
Proof.
  intros W Hm. unfold run_agent. cbn zeta. set (a := arrive x _). set (w0 := {| self := a; now := t; context_char_ceiling := None |}).
  assert (H0 : runs_in SPAWNING a).
  { unfold a. destruct (arrive_fields x (new_agent b incarnation)) as ([= _ Sm Se _] & [Mm Mc (new & Mi & Mq)] & _).
    split; [exists []|by rewrite Sm, Se]. split; [rewrite Mm|by rewrite Mc|by rewrite Mq, Mi].
    split; [by repeat constructor|by eexists|done|constructor]. }
  destruct (step_to_goes READY (lit "initialization complete") (fresh_loop w0) SPAWNING H0) as (l & -> & Hl & _); [set_solver|].
  destruct (iterations_flow bound c env 0 (max_rounds c) l W Hl) as (f & -> & Hf); [lia|]. cbn [mbind option_bind].
  destruct (settle_over f Hf) as (w & -> & Ho). by exists w.
Qed.

(** ** Properties *)

(** C26: The worker of an agent always settles it: from a fresh agent, whatever messages,
    kills, timeouts, exceptions, cancellations, replies and verdicts come, the worker
    returns, no invalid state transition escapes, and the agent ends in a terminal state
    with its end time set and its report mailbox closed and empty. *)
Theorem worker_always_settles bound c env x b incarnation t :
  (∀ i, well_behaved bound (env i)) → (0 < max_rounds c)%nat →
  ∃ w, run_agent bound c env (arrive x (new_agent b incarnation)) t = Some (Some w)
    ∧ is_terminal (self w) = true ∧ is_Some (ended_at (self w))
    ∧ accepting (reports (self w)) = false ∧ AgentReports.pending (reports (self w)) = [].
Proof.
  intros W Hm. destruct (run_agent_over bound c env x b incarnation t W Hm) as (w & E & _ & [t' [D1 D2 [D3 D4]]] & _).
  exists w. split_and!; try done. by apply bool_decide_eq_true.
Qed.

(** C29: The transcript an agent leaves behind can be replayed: through all its iterations,
    compressions, rescues, cycles and interruptions every call it holds is followed by
    exactly its result, and the messages keep the shape the code builds, so that the
    check before a generation never raises. *)
Theorem worker_transcript_replays bound c env x b incarnation t w :
  (∀ i, well_behaved bound (env i)) → (0 < max_rounds c)%nat →
  run_agent bound c env (arrive x (new_agent b incarnation)) t = Some (Some w) →
  Transcript.settled (messages (mail (self w))) ∧ Forall native (messages (mail (self w))).
Proof.
  intros W Hm E. destruct (run_agent_over bound c env x b incarnation t W Hm) as (w' & E' & [read [[Hn Hs _ _] _ _]] & _).
  rewrite E in E'. by injection E' as ->.
Qed.

(** C27: No message of the parent is lost, repeated or reordered: those handed to the model
    stand verbatim and in order in the final transcript, which holds no other directives;
    what was ever queued, with the very texts that were admitted, is what was read and
    then what is still in the inbox; the events say which were consumed; and an agent that
    has completed has read them all. *)
Theorem parent_messages_read_once bound c env x b incarnation t w :
  (∀ i, well_behaved bound (env i)) → (0 < max_rounds c)%nat →
  run_agent bound c env (arrive x (new_agent b incarnation)) t = Some (Some w) →
  ∃ read, directives (messages (mail (self w))) = (λ y, parent_message y.1 y.2) <$> read
    ∧ consumed_events (mail (self w)) = read.*1
    ∧ queued_events (mail (self w)) = read ++ inbox (mail (self w))
    ∧ (state (machine (self w)) = COMPLETED → inbox (mail (self w)) = []).
Proof.
  intros W Hm E. destruct (run_agent_over bound c env x b incarnation t W Hm) as (w' & E' & [read [[_ _ Hd _] Hc Hq]] & _ & Hr).
  rewrite E in E'. injection E' as ->. by exists read.
Qed.

End run.

Module RunWitness.
Import ReportsWitness Concrete CompressWitness CycleWitness GenerationWitness.

Definition settings : Config :=
  {| max_rounds := 3; budget_warnings := [1]; compression_enabled := true; max_context_chars := 1000;
     keep_recent_iterations := 1; has_classifier := false |}.

(** The first reply asks for a command, during which the parent writes; the second one
    is the answer. *)
Definition asks : Reply :=
  {| reply_text := lit "let me see";
     reply_calls := [{| raw_id := Some (JStr (lit "c1")); raw_name := lit "run_command"; raw_input := None; raw_error := []; raw_replay := None |}];
     incomplete := false; reasoning := []; by_codex := false |}.

Definition replies (r : Reply) (k : nat) : AttemptEnv :=
  {| meanwhile := calm 1; attempt_end := Accepted r; published_ladder := None; recorder := None |}.

Definition listen (k : nat) : CallEnv :=
  {| admitted_at := 2; timeout := Some 9; until_dispatch := calm 3; dispatch := Proceeds;
     until_end := {| sent := [lit "only the big ones"]; stop := false; later := 4 |};
     AgentCycle.running := Returned (Text (Plain (lit "fine")) false) |}.

Definition story_env (i : nat) : IterationEnv :=
  {| plan := Some plain_plan; other_snapshot := None; attempts_env := replies (if (i =? 0)%nat then asks else answer);
     uuids_env := long; judge_meanwhile := calm 5; judged := Judge_failed; calls_env := listen |}.

Lemma story_behaves i : well_behaved 2 (story_env i).
Proof.
  split.
  - split; [lia|done|done|by intros k; split].
  - intros k r E0. assert (r = if (i =? 0)%nat then asks else answer) as -> by (cbn in E0; congruence). split.
    + intros j j' E. apply (f_equal length) in E. unfold uuids_env, story_env, long in E. by rewrite !length_replicate in E.
    + intros j c Hc. destruct (i =? 0)%nat; cbn in Hc; [|by apply elem_of_nil in Hc].
      apply list_elem_of_singleton in Hc as ->. by intros [=].
  - by intros k t fine error u md blocks E.
Qed.

Definition birth : Spawned := base worker.
Definition early : Arrival := {| sent := [lit "be quick"]; stop := false; later := 0 |}.
Abbreviation run := (run_agent 2 settings story_env (arrive early (new_agent birth (lit "i"))) 0).

Lemma worker_always_settles_witness :
  ∃ w, run = Some (Some w) ∧ is_terminal (self w) = true ∧ state (machine (self w)) = COMPLETED
    ∧ result_text (work (self w)) = lit "done" ∧ iteration_count (work (self w)) = 2.
Proof.
  destruct (worker_always_settles 2 settings story_env early birth (lit "i") 0 story_behaves) as (w & E & Ht & _); [cbn; lia|].
  assert (C : match run with
              | Some (Some w) => state (machine (self w)) = COMPLETED ∧ result_text (work (self w)) = lit "done"
                                 ∧ iteration_count (work (self w)) = 2
              | _ => False
              end) by (vm_compute; split_and!; done).
  rewrite E in C. exists w. split; [exact E|]. split; [exact Ht|exact C].
Defined.

Lemma worker_transcript_replays_witness :
  ∃ w, run = Some (Some w) ∧ length (messages (mail (self w))) = 6%nat ∧ Transcript.settled (messages (mail (self w))).
Proof.
  assert (C : match run with Some (Some w) => length (messages (mail (self w))) = 6%nat | _ => False end) by (vm_compute; done).
  destruct run as [[w|]|] eqn:E; [|destruct C..]. exists w. split; [reflexivity|]. split; [exact C|].
  apply (worker_transcript_replays 2 settings story_env early birth (lit "i") 0 w story_behaves); [cbn; lia|exact E].
Defined.

Lemma parent_messages_read_once_witness :
  ∃ w, run = Some (Some w) ∧ state (machine (self w)) = COMPLETED ∧ consumed_events (mail (self w)) = [1; 2]
    ∧ inbox (mail (self w)) = [].
Proof.
  assert (C : match run with Some (Some w) => state (machine (self w)) = COMPLETED ∧ consumed_events (mail (self w)) = [1; 2] | _ => False end)
    by (vm_compute; done).
  destruct run as [[w|]|] eqn:E; [|destruct C..]. destruct C as [C1 C2]. exists w. split; [reflexivity|]. split; [exact C1|]. split; [exact C2|].
  destruct (parent_messages_read_once 2 settings story_env early birth (lit "i") 0 w story_behaves) as (read & _ & _ & _ & Hr);
    [cbn; lia|exact E|exact (Hr C1)].
Defined.

End RunWitness.
