(* ===== verification/Cron.v ===== *)
(** * The next run of a cron schedule (src/src/scheduler/scheduler.py)

    [cron_next_run] is [_cron_next_run] of a cron expression and a time zone, both
    values of the schedule file.  [croniter] and [zoneinfo] are the classes
    [CronTab] and [TimeZones], with the laws their documentation gives; a wall
    clock is a number of microseconds and the fold of the local time, an instant
    is a number of microseconds of UTC.  [cron_skips_the_second_copy]: a job at
    fixed times is never set to the second copy of a wall time that has passed,
    and lies in the future. *)

From S2P Require Import Prelude PyStr PyLib.
Open Scope string_scope.
Open Scope list_scope.
Open Scope Z_scope.
Local Open Scope odin_scope.

Definition SECOND : Z := 1000000.
Definition MINUTE : Z := 60 * SECOND.

(** ** The libraries *)

(** [zoneinfo]: whether [ZoneInfo(name)] loads, the instant of a local time and the
    local time of an instant. *)
Class TimeZones := {
  zone_known : pystr → bool;
  instant : pystr → Z → bool → Z;
  local : pystr → Z → Z * bool;
  instant_local z t : instant z (local z t).1 (local z t).2 = t;
  (** A local time that happens once is after every earlier local time. *)
  once_after z w w' f f' : instant z w' false = instant z w' true → w < w' → instant z w f < instant z w' f';
  (** Offsets are whole seconds. *)
  offset_seconds z w f : (instant z w f - w) mod SECOND = 0
}.

(** [croniter]: [is_valid], the first part of [expand] ([None] where it raises) and
    the local time of [croniter(expr, base).get_next] in the zone of [base] ([None]
    is its [ValueError]; no zone is UTC). *)
Class CronTab `{TimeZones} := {
  cron_is_valid : pystr → bool;
  cron_expand : pystr → option (list (list Json));
  cron_get_next : pystr → option pystr → Z → option (Z * bool);
  get_next_after e z t w f : cron_get_next e (Some z) t = Some (w, f) → t < instant z w f;
  get_next_after_utc e t w f : cron_get_next e None t = Some (w, f) → t < w;
  get_next_seconds e z t w f : cron_get_next e z t = Some (w, f) → w mod SECOND = 0
}.

(** [datetime.isoformat] of an instant of UTC, and [datetime.fromisoformat]: the local
    time it names and its offset; [None] is its [ValueError]. *)
Class IsoTime := {
  isoformat : Z → pystr;
  fromisoformat : pystr → option (Z * option Z);
  from_isoformat t : fromisoformat (isoformat t) = Some (t, Some 0);
  isoformat_nonempty t : nonempty (isoformat t) = true
}.

(** [_utc_iso] of what [fromisoformat] read. *)
Definition utc_iso `{IsoTime} (dt : Z * option Z) : pystr :=
  isoformat (match dt.2 with None => dt.1 | Some offset => dt.1 - offset end).

(** ** Fixed-time jobs *)

(** [s.split()] *)
Fixpoint words (s : pystr) : list pystr :=
  match s with
  | [] => []
  | c :: s' =>
      if is_space c then words s'
      else match s' with
           | [] => [[c]]
           | c' :: _ =>
               if is_space c' then [c] :: words s'
               else match words s' with [] => [[c]] | w :: ws => (c :: w) :: ws end
           end
  end.

Definition is_digit (c : Z) : bool := (48 <=? c) && (c <=? 57).

(** [_FIXED_CRON_FIELD.fullmatch]: a digit, then digits and the characters [,/*-]. *)
Definition fixed_cron_field (field : pystr) : bool :=
  match field with
  | [] => false
  | c :: rest => is_digit c && forallb (λ c, is_digit c || bool_decide (c ∈ lit ",/*-")) rest
  end.

Definition star : list Json := [JStr (lit "*")].

Definition is_fixed_time_cron `{CronTab} (cron_expr : pystr) : bool :=
  let expr := strip cron_expr in
  if startswith (lit "@") expr then
    match cron_expand expr with
    | Some (minute :: hour :: _) => negb (bool_decide (minute = star)) && negb (bool_decide (hour = star))
    | _ => false
    end
  else
    let fields := words expr in
    (2 <=? Z.of_nat (length fields)) && forallb fixed_cron_field (take 2 fields).

(** ** Local times that happen twice *)

Section zone.
Context `{TimeZones}.

Definition is_repeated_wall_time (zone : pystr) (candidate : Z * bool) (now : Z) : bool :=
  let earlier := instant zone candidate.1 false in
  let later := instant zone candidate.1 true in
  if earlier =? later then false
  else (instant zone candidate.1 candidate.2 =? later) && (earlier <=? now).

(** The minutes tried from [probe] on. *)
Fixpoint find_end (fuel : nat) (zone : pystr) (probe : Z) : option Z :=
  match fuel with
  | O => None
  | S fuel =>
      let probe := probe + MINUTE in
      let earlier := instant zone probe false in
      if earlier =? instant zone probe true then Some earlier else find_end fuel zone probe
  end.

Definition REPEAT_MINUTES : nat := 24 * 60.

(** [None] is its [RuntimeError]. *)
Definition end_of_repeat (zone : pystr) (candidate : Z * bool) : option Z :=
  find_end REPEAT_MINUTES zone (candidate.1 - candidate.1 mod MINUTE).

End zone.

(** ** [_cron_next_run] *)

Inductive CronError : Type :=
| NoEndOfRepeat
| NoEligibleRun
| BadCron
| BadCronType.

Definition MAX_REPEAT_JUMPS : nat := 64.

Section next.
Context `{CronTab} `{IsoTime}.

(** The loop over repeated hours; [None] inside is croniter's [ValueError]. *)
Fixpoint past_repeats (fuel : nat) (cron_expr zone : pystr) (base : Z) (candidate : Z * bool)
    : result CronError (option (Z * bool)) :=
  match fuel with
  | O => Err NoEligibleRun
  | S fuel =>
      if is_repeated_wall_time zone candidate base then
        match end_of_repeat zone candidate with
        | None => Err NoEndOfRepeat
        | Some stop =>
            match cron_get_next cron_expr (Some zone) (stop - SECOND) with
            | None => Ok None
            | Some candidate => past_repeats fuel cron_expr zone base candidate
            end
        end
      else Ok (Some candidate)
  end.

(** The instant chosen in a zone; [None] where the zone or croniter raises a
    [ValueError]. *)
Definition next_in_zone (cron_expr zone : pystr) (now : Z) : result CronError (option Z) :=
  if zone_known zone then
    match cron_get_next cron_expr (Some zone) now with
    | None => Ok None
    | Some candidate =>
        let! chosen := if is_fixed_time_cron cron_expr
                       then past_repeats MAX_REPEAT_JUMPS cron_expr zone now candidate
                       else Ok (Some candidate) in
        Ok ((λ c, instant zone c.1 c.2) <$> chosen)
    end
  else Ok None.

Definition next_in_utc (cron_expr : pystr) (now : Z) : result CronError Z :=
  match cron_get_next cron_expr None now with
  | None => Err BadCron
  | Some c => Ok c.1
  end.

Definition cron_next_instant (cron_expr tz_name : Json) (now : Z) : result CronError Z :=
  match cron_expr with
  | JStr expr =>
      if truthy tz_name then
        match tz_name with
        | JStr zone =>
            let! chosen := next_in_zone expr zone now in
            match chosen with Some t => Ok t | None => next_in_utc expr now end
        | _ => Err BadCronType
        end
      else next_in_utc expr now
  | _ => Err BadCronType
  end.

Definition cron_next_run (cron_expr tz_name : Json) (now : Z) : result CronError pystr :=
  let! t := cron_next_instant cron_expr tz_name now in Ok (isoformat t).

(** [Scheduler._is_usable_cron] *)
Definition is_usable_cron (expr : Json) : bool :=
  match expr with JStr e => nonempty e && cron_is_valid e | _ => false end.

End next.

(** ** The chosen instant *)

Section theory.
Context `{CronTab} `{IsoTime}.

Lemma find_end_spec fuel zone probe t : find_end fuel zone probe = Some t →
  ∃ w, probe < w ∧ (w - probe) mod MINUTE = 0 ∧ t = instant zone w false ∧ instant zone w false = instant zone w true.
Proof.
  revert probe. induction fuel as [|fuel IH]; intros probe; cbn [find_end]; [done|].
  destruct (Z.eqb_spec (instant zone (probe + MINUTE) false) (instant zone (probe + MINUTE) true)) as [He|Hne].
  - intros [= <-]. exists (probe + MINUTE). rewrite Z.add_simpl_l, Z_mod_same_full. unfold MINUTE, SECOND. repeat split; [lia|done].
  - intros (w & Hw & Hmod & -> & He)%IH. exists w. repeat split; [unfold MINUTE, SECOND in *; lia| |done].
    replace (w - probe) with (w - (probe + MINUTE) + 1 * MINUTE) by lia. by rewrite Z.mod_add.
Qed.

Lemma seconds_apart a b : a mod SECOND = 0 → b mod SECOND = 0 → a < b → a <= b - SECOND.
Proof. unfold SECOND. intros Ha Hb Hlt. apply Z.mod_divide in Ha as [x ->], Hb as [y ->]; lia. Qed.

Lemma instant_seconds zone w f : w mod SECOND = 0 → instant zone w f mod SECOND = 0.
Proof.
  intros Hw. replace (instant zone w f) with ((instant zone w f - w) + w) by lia.
  rewrite Zplus_mod, offset_seconds, Hw. done.
Qed.

(** The repeated hour ends at least a second after each of its times. *)
Lemma end_of_repeat_after zone w f stop : w mod SECOND = 0 →
  end_of_repeat zone (w, f) = Some stop → instant zone w f <= stop - SECOND.
Proof.
  intros Hw (w' & Hlt & Hmod & -> & Hone)%find_end_spec. cbn [fst] in *.
  assert (w' mod MINUTE = 0) as Hmin.
  { replace w' with ((w' - (w - w mod MINUTE)) + (w - w mod MINUTE)) by lia.
    rewrite Zplus_mod, Hmod, Zminus_mod, Zmod_mod, Z.sub_diag, Zmod_0_l. done. }
  apply seconds_apart; [by apply instant_seconds|apply instant_seconds|].
  - unfold MINUTE in Hmin. apply Z.mod_divide in Hmin as [k ->]; [|done]. rewrite Z.mul_assoc. apply Z_mod_mult.
  - apply once_after; [done|]. apply Z.mod_divide in Hmin as [k ->]; [|done].
    pose proof (Z_div_mod_eq_full w MINUTE) as Hd. set (q := w / MINUTE) in *.
    pose proof (Z.mod_pos_bound w MINUTE ltac:(done)). unfold MINUTE, SECOND in *. lia.
Qed.

(** The later copy of a wall time that has passed. *)
Definition second_copy (zone : pystr) (now w : Z) (f : bool) : Prop :=
  instant zone w false < instant zone w true ∧ instant zone w f = instant zone w true ∧ instant zone w false <= now.

Lemma not_repeated zone now w f :
  is_repeated_wall_time zone (w, f) now = false → ¬ second_copy zone now w f.
Proof.
  unfold is_repeated_wall_time, second_copy. cbn [fst snd]. intros Hr (Hlt & He & Hle).
  destruct (Z.eqb_spec (instant zone w false) (instant zone w true)); [lia|].
  apply andb_false_iff in Hr as [Hr|Hr]; bool_prop; lia.
Qed.

Lemma past_repeats_spec fuel expr zone base w f w' f' : w mod SECOND = 0 → base < instant zone w f →
  past_repeats fuel expr zone base (w, f) = Ok (Some (w', f')) →
  base < instant zone w' f' ∧ ¬ second_copy zone base w' f'.
Proof.
  revert w f. induction fuel as [|fuel IH]; intros w f Hw Hlt; cbn [past_repeats]; [done|].
  destruct (is_repeated_wall_time zone (w, f) base) eqn:Hr.
  - destruct (end_of_repeat zone (w, f)) as [stop|] eqn:Hend; [|done].
    destruct (cron_get_next expr (Some zone) (stop - SECOND)) as [[w1 f1]|] eqn:Hnext; [|done].
    apply end_of_repeat_after in Hend; [|done]. apply IH; [by eapply get_next_seconds|].
    apply get_next_after in Hnext. lia.
  - intros [= <- <-]. split; [done|]. by apply not_repeated.
Qed.

Lemma next_in_zone_spec expr zone now t : next_in_zone expr zone now = Ok (Some t) →
  ∃ w f, t = instant zone w f ∧ now < t
    ∧ (is_fixed_time_cron expr = true → ¬ second_copy zone now w f).
Proof.
  unfold next_in_zone. destruct (zone_known zone); [|done].
  destruct (cron_get_next expr (Some zone) now) as [[w f]|] eqn:Hn; [|done].
  pose proof (get_next_after _ _ _ _ _ Hn) as Hlt. pose proof (get_next_seconds _ _ _ _ _ Hn) as Hsec.
  destruct (is_fixed_time_cron expr).
  - destruct (past_repeats _ _ _ _ _) as [[[w' f']|]|e] eqn:Hp; cbn; [|done..].
    intros [= <-]. exists w', f'. destruct (past_repeats_spec _ _ _ _ _ _ _ _ Hsec Hlt Hp) as [Ha Hb]. repeat split; [exact Ha|by intros _].
  - cbn. intros [= <-]. exists w, f. by repeat split.
Qed.

(** A next run lies in the future. *)
Lemma cron_next_instant_future expr zone now t : cron_next_instant expr zone now = Ok t → now < t.
Proof.
  assert (∀ e, next_in_utc e now = Ok t → now < t) as Hutc.
  { intros e. unfold next_in_utc. destruct (cron_get_next e None now) as [[w f]|] eqn:Hn; [|done].
    intros [= <-]. by apply get_next_after_utc in Hn. }
  unfold cron_next_instant. destruct expr as [| | | |e| |]; try done. destruct (truthy zone); [|apply Hutc].
  destruct zone as [| | | |z| |]; try done. destruct (next_in_zone e z now) as [[t'|]|] eqn:Hz; cbn; [|apply Hutc|done].
  intros [= <-]. by apply next_in_zone_spec in Hz as (w & f & _ & Hlt & _).
Qed.

(** the next run of a cron schedule lies in the future, and where its expression
    names fixed times and its zone is used, it is not the second copy of a wall time
    that already passed when the clocks went back, whatever zone and expression. *)
Theorem cron_skips_the_second_copy expr zone now t :
  cron_next_instant (JStr expr) (JStr zone) now = Ok t →
  now < t ∧ (is_fixed_time_cron expr = true → nonempty zone = true → next_in_zone expr zone now ≠ Ok None →
    ∃ w f, t = instant zone w f ∧ ¬ second_copy zone now w f).
Proof.
  intros Ht. split; [by eapply cron_next_instant_future|]. intros Hfix Hz Hutc.
  unfold cron_next_instant in Ht. cbn [truthy] in Ht. rewrite Hz in Ht.
  destruct (next_in_zone expr zone now) as [[t'|]|] eqn:Hn; cbn in Ht; [injection Ht as ->|done..].
  apply next_in_zone_spec in Hn as (w & f & -> & _ & Hsec). eauto.
Qed.

End theory.

(** ** Clocks that go back one hour at the instant zero *)

Module Fallback.

Definition HOUR : Z := 60 * MINUTE.
Definition DAY : Z := 24 * HOUR.

Definition fall_instant (w : Z) (f : bool) : Z :=
  if w <? 0 then w - HOUR else if w <? HOUR then (if f then w else w - HOUR) else w.
Definition fall_local (t : Z) : Z * bool :=
  if t <? 0 then (t + HOUR, false) else (t, t <? HOUR).

#[export] Instance fall_zone : TimeZones.
Proof.
  refine {| zone_known := λ _, true; instant := λ _, fall_instant; local := λ _, fall_local |};
    intros z; unfold fall_instant, fall_local, HOUR, MINUTE, SECOND.
  - intros t. destruct (Z.ltb_spec t 0); cbn [fst snd]; repeat case_match; bool_prop; lia.
  - intros w w' f f'. repeat case_match; bool_prop; lia.
  - intros w f. repeat case_match; rewrite ?Z.sub_diag; try done;
      replace (w - 60 * (60 * 1000000) - w) with ((- 3600) * 1000000) by lia; apply Z_mod_mult.
Defined.

(** A job at half past midnight, local time. *)
Definition slots (t : Z) : list (Z * bool) :=
  [-1; 0; 1; 2] ≫= λ d, [((t / DAY + d) * DAY + 30 * MINUTE, false); ((t / DAY + d) * DAY + 30 * MINUTE, true)].
Definition next_slot (z : option pystr) (t : Z) : option (Z * bool) :=
  List.find (λ c, t <? (if z then fall_instant c.1 c.2 else c.1)) (slots t).

Lemma next_slot_spec z t c : next_slot z t = Some c →
  t < (if z then fall_instant c.1 c.2 else c.1) ∧ c.1 mod SECOND = 0.
Proof.
  unfold next_slot. intros [Hin Hlt]%find_some. split; [lia|].
  assert (∀ d, ((t / DAY + d) * DAY + 30 * MINUTE) mod SECOND = 0) as Hd.
  { intros d. replace ((t / DAY + d) * DAY + 30 * MINUTE) with (((t / DAY + d) * 86400 + 1800) * SECOND)
      by (unfold DAY, HOUR, MINUTE; lia). apply Z_mod_mult. }
  unfold slots in Hin. cbn [fmap list_fmap mbind list_bind app List.map In] in Hin.
  repeat destruct Hin as [<-|Hin]; cbn [fst]; try apply Hd. done.
Qed.

#[export] Instance nightly : CronTab.
Proof.
  refine {| cron_is_valid := λ _, true; cron_expand := λ _, None; cron_get_next := λ _, next_slot |}.
  - intros e z t w f Hn. by apply next_slot_spec in Hn as [? _].
  - intros e t w f Hn. by apply next_slot_spec in Hn as [? _].
  - intros e z t w f Hn. by apply next_slot_spec in Hn as [_ ?].
Defined.

(** Half past the first midnight has passed: the job waits for the next day. *)
Lemma cron_skips_the_second_copy_witness :
  let now := fall_instant (30 * MINUTE) false in
  cron_next_instant (JStr (lit "30 0 * * *")) (JStr (lit "Europe/Paris")) now = Ok (DAY + 30 * MINUTE)
  ∧ next_slot (Some []) now = Some (30 * MINUTE, true)
  ∧ now < DAY + 30 * MINUTE.
Proof.
  cbv zeta.
  assert (cron_next_instant (JStr (lit "30 0 * * *")) (JStr (lit "Europe/Paris"))
            (fall_instant (30 * MINUTE) false) = Ok (DAY + 30 * MINUTE)) as Ht by (vm_compute; reflexivity).
  split; [exact Ht|]. split; [vm_compute; reflexivity|].
  exact (proj1 (cron_skips_the_second_copy (lit "30 0 * * *") (lit "Europe/Paris") _ _ Ht)).
Defined.

End Fallback.
