(* ===== verification/Schedule.v ===== *)
(** * Schedules as the store keeps them (src/src/scheduler/scheduler.py)

    A schedule is a dict of the JSON file.  This file holds the ways the scheduler
    reads one, Python's [==] on the values, the identity of an execution, the
    quarantine of a record the clock cannot serve, what a restart makes of the
    file, and the time of the next retry. *)

From S2P Require Import Prelude PyStr PyLib Cron.
From Stdlib Require Import QArith_base.
Open Scope string_scope.
Open Scope list_scope.
Open Scope Z_scope.
Local Open Scope odin_scope.

Notation Schedule := (list (pystr * Json)).

(** ** Values *)

(** [isinstance(v, (int, float))] and the number. *)
Definition number (v : Json) : option Q :=
  match v with
  | JInt z => Some (inject_Z z)
  | JBool b => Some (inject_Z (Z.b2z b))
  | JFloat q => Some q
  | _ => None
  end.

(** [a == b] *)
Fixpoint py_eq (a b : Json) : bool :=
  match a, b with
  | JNull, JNull => true
  | JStr s, JStr t => bool_decide (s = t)
  | JList vs, JList ws =>
      (fix lists vs ws :=
         match vs, ws with
         | [], [] => true
         | v :: vs, w :: ws => py_eq v w && lists vs ws
         | _, _ => false
         end) vs ws
  | JDict d, JDict e =>
      bool_decide (length d = length e)
      && (fix items d :=
            match d with
            | [] => true
            | (k, v) :: d => match dict_get e k with Some w => py_eq v w | None => false end && items d
            end) d
  | _, _ =>
      match number a, number b with
      | Some x, Some y => Qeq_bool x y
      | _, _ => false
      end
  end.

(** [v + 1]; [None] is the [TypeError] of a value that is not a number. *)
Definition plus_one (v : Json) : option Json :=
  match v with
  | JInt z => Some (JInt (z + 1))
  | JBool b => Some (JInt (Z.b2z b + 1))
  | JFloat q => Some (JFloat (q + inject_Z 1))
  | _ => None
  end.

(** [repr], [str] and [str.lower], [str.upper]. *)
Class PyText := {
  py_repr : Json → pystr;
  py_str : Json → pystr;
  lower : pystr → pystr;
  upper : pystr → pystr
}.

(** [json.dump(v, f, indent=2)] *)
Class IndentedDump `{Codec} := {
  dumps_indent : Json → pystr;
  loads_indent v : loads (dumps_indent v) = Some v
}.

(** ** Fields *)

(** [schedule.get(k)] and [schedule.get(k, d)] *)
Definition get (s : Schedule) (k : string) : Json := default JNull (dict_get s (lit k)).
Definition get_or (s : Schedule) (k : string) (d : Json) : Json := default d (dict_get s (lit k)).
Definition put (s : Schedule) (k : string) (v : Json) : Schedule := dict_set s (lit k) v.
Definition pop (s : Schedule) (k : string) : Schedule := dict_del s (lit k).
Definition is_set (s : Schedule) (k : string) : bool := truthy (get s k).

(** [schedule["id"]], a string in every record the scheduler writes. *)
Definition id_of (s : Schedule) : pystr := match get s "id" with JStr i => i | _ => [] end.

Definition action_is (s : Schedule) (a : string) : bool := bool_decide (get s "action" = JStr (lit a)).

(** [_lane] *)
Inductive Lane : Type := ReminderLane | WebhookLane | WorkLane.

#[export] Instance Lane_eq_dec : EqDecision Lane.
Proof. solve_decision. Defined.

Definition lane_of (s : Schedule) : Lane :=
  if action_is s "reminder" then ReminderLane else if action_is s "webhook" then WebhookLane else WorkLane.

Definition requires_connection (s : Schedule) : bool := negb (action_is s "webhook").

(** [_tracks_run_start] *)
Definition tracks_run_start (s : Schedule) : bool :=
  is_set s "one_time" && negb (action_is s "reminder" || action_is s "digest").

(** [_execution_identity] *)
Definition identity_of (s : Schedule) : Json * Json :=
  (get_or s "_generation" (get s "created_at"), get_or s "_execution_revision" (JInt 0)).

Definition same_identity (i j : Json * Json) : bool := py_eq i.1 j.1 && py_eq i.2 j.2.

(** [_field_snapshot]: whether the field is there, and its value. *)
Definition field_snapshot (s : Schedule) (k : string) : option Json := dict_get s (lit k).

Definition snapshot_eq (a b : option Json) : bool :=
  match a, b with
  | None, None => true
  | Some v, Some w => py_eq v w
  | _, _ => false
  end.

Definition put_snapshot (s : Schedule) (k : string) (v : option Json) : Schedule :=
  match v with Some v => put s k v | None => pop s k end.

(** ** Quarantine *)

Definition quarantine_schedule (s : Schedule) (reason : pystr) : Schedule :=
  put (put s "paused" (JBool true)) "inert_reason" (JStr (take 300 reason)).

(** A record that no tick, trigger or manual run starts. *)
Definition inert (s : Schedule) : bool := is_set s "paused" && is_set s "inert_reason".

Section schedules.
Context `{CronTab} `{IsoTime} `{PyText}.

(** [_parse_persisted_time]: the wall clock the text names, its offset dropped. *)
Definition parse_persisted_time (v : Json) : option Z :=
  match v with JStr s => fst <$> fromisoformat s | _ => None end.

Definition interrupted_reason (started : Json) : pystr :=
  lit "One-time schedule started at " ++ py_repr started
  ++ lit " but its completion was never recorded (Odin stopped or could not save the result); it may have partly run, so it was not run again. Check what it did, then set a new run_at to re-arm it".

(** [_resolve_interrupted_run]: the record, and whether it was quarantined. *)
Definition resolve_interrupted_run (s : Schedule) : Schedule * bool :=
  let started := get s "run_started_at" in
  let s := pop s "run_started_at" in
  if negb (truthy started) || negb (tracks_run_start s) then (s, false)
  else (quarantine_schedule s (interrupted_reason started), true).

(** [_degrade_removed_trigger_sources], for one record. *)
Definition REMOVED_TRIGGER_SOURCES : list pystr := [lit "discord_reaction"; lit "discord_message"; lit "grafana"].

Definition degrade_removed_trigger_source (s : Schedule) : Schedule :=
  match get s "trigger" with
  | JDict trigger =>
      let source := default JNull (dict_get trigger (lit "source")) in
      let removed_filter := bool_decide (is_Some (dict_get trigger (lit "alert_name"))) in
      let removed_source := match source with JStr t => bool_decide (t ∈ REMOVED_TRIGGER_SOURCES) | _ => false end in
      if removed_source || removed_filter then
        put (put s "paused" (JBool true)) "inert_reason"
          (JStr (lit "Trigger source '" ++ py_str source
                 ++ lit "' or its alert filter was removed; replace the timing trigger before resuming this schedule."))
      else s
  | _ => s
  end.

(** [_advance_stale_cron], for one record. *)
Definition advance_stale_cron (now : Z) (s : Schedule) : Schedule :=
  let cron_expr := get s "cron" in
  if negb (truthy cron_expr) || negb (is_set s "next_run") then s
  else match parse_persisted_time (get s "next_run") with
       | Some next_run =>
           if next_run <? now then
             match cron_next_run cron_expr (get s "timezone") now with
             | Ok t => put s "next_run" (JStr t)
             | Err _ => s
             end
           else s
       | None => s
       end.

(** ** The file *)

Context `{IndentedDump}.

Definition as_dict (v : Json) : option Schedule := match v with JDict s => Some s | _ => None end.

(** What [json.loads] must give for [_load] to keep it: a list of dicts, or an empty
    container.  [None] is the exception that sets the file aside. *)
Definition records_of (v : Json) : option (list Schedule) :=
  match v with
  | JList vs => mapM as_dict vs
  | JDict [] | JStr [] => Some []
  | _ => None
  end.

(** [_load]: the schedules, and whether the file is corrupt. *)
Definition load (file : option pystr) (now : Z) : list Schedule * bool :=
  match file with
  | None => ([], false)
  | Some text =>
      match loads text ≫= records_of with
      | Some records => (advance_stale_cron now <$> records, false)
      | None => ([], true)
      end
  end.

(** The schedules [Scheduler.__init__] starts from. *)
Definition boot_schedules (file : option pystr) (now : Z) : list Schedule :=
  (λ s, (resolve_interrupted_run (degrade_removed_trigger_source s)).1) <$> (load file now).1.

(** The text [_save] writes. *)
Definition save (schedules : list Schedule) : pystr := dumps_indent (JList (JDict <$> schedules)).

Lemma load_save schedules now : load (Some (save schedules)) now = (advance_stale_cron now <$> schedules, false).
Proof.
  unfold load, save. rewrite loads_indent. cbn [mbind option_bind records_of].
  assert (mapM as_dict (JDict <$> schedules) = Some schedules) as ->; [|done].
  induction schedules as [|s l IH]; cbn; [done|]. cbn in IH. by rewrite IH.
Qed.

(** ** Retries *)

Definition DEFAULT_MAX_RETRIES : Z := 0.
Definition DEFAULT_RETRY_BACKOFF_SECONDS : Z := 60.
Definition MAX_BACKOFF_SECONDS : Z := 3600.
Definition DEFAULT_FAILURE_ALERT_THRESHOLD : Z := 3.

(** The delay in seconds. *)
Definition retry_delay (attempt base : Z) : Z :=
  Z.min (base * 2 ^ Z.max 0 (attempt - 1)) MAX_BACKOFF_SECONDS.

(** An int or a bool; [None] is any other value, on which the arithmetic of the
    retry fields is not modelled. *)
Definition as_int (v : Json) : option Z :=
  match v with JInt z => Some z | JBool b => Some (Z.b2z b) | _ => None end.

Definition compute_retry_at (s : Schedule) (now : Z) : option pystr :=
  attempt ← as_int (get_or s "retry_count" (JInt 1));
  base ← as_int (get_or s "retry_backoff_seconds" (JInt DEFAULT_RETRY_BACKOFF_SECONDS));
  Some (isoformat (now + retry_delay attempt base * SECOND)).

End schedules.
