(* ===== verification/ScheduleCrud.v ===== *)
(** * Creating and changing schedules (src/src/scheduler/scheduler.py)

    [new_schedule] is [Scheduler.add] up to the publication of its record, and
    [updated_schedule] is [Scheduler.update] from the record it found to the record
    it publishes, with every check in the order the code makes them.  A [ValueError]
    is the constructor of the check that raised it. *)

From S2P Require Import Prelude PyStr PyLib Cron Schedule.
From Stdlib Require Import QArith_base.
Open Scope string_scope.
Open Scope list_scope.
Open Scope Z_scope.
Local Open Scope odin_scope.

(** ** Errors *)

Inductive ScheduleError : Type :=
| FormatNotString
| FormatOnlyForChecks
| NoFormatsRegistered
| FormatsUnavailable
| UnsupportedFormat
| ToolRequired
| ToolNotAllowed
| WebhookConfigNotDict
| WebhookUrlRequired
| WebhookUrlTooLong
| WebhookUrlScheme
| WebhookUrlRefused
| WebhookMethodNotString
| WebhookMethodInvalid
| WebhookHeadersNotDict
| WebhookHeadersNotStrings
| WebhookBodyTooLong
| WebhookTimeoutInvalid
| WebhookTimeoutTooLong
| WebhookCodesNotList
| WebhookCodeInvalid
| StepsRequired
| StepNotDict
| StepInputRequired
| TriggerNotDict
| TriggerUnknownKeys
| TriggerValueType
| TriggerSourceInvalid
| TriggerEmpty
| SeveralTimings
| NaiveRunAt
| TimingRequired
| InvalidRunAt
| InvalidCron
| InvalidTimezone
| NegativeRetries
| BackoffTooShort
| StillInert (reason : Json)
| CronFailed (e : CronError)
| NoAction
| RevisionNotANumber.

(** What the checks read of the rest of the program: the provider of report formats
    ([None] before it is installed, [Some None] where it raises) and whether
    [_validate_webhook_url] accepts a URL. *)
Class SchedulePolicy := {
  report_formats : option (option (list pystr));
  url_allowed : pystr → bool
}.

Definition ALLOWED_CHECK_TOOLS : list pystr := [lit "run_command"; lit "run_command_multi"; lit "run_script"].
Definition WEBHOOK_VALID_METHODS : list pystr :=
  [lit "GET"; lit "POST"; lit "PUT"; lit "PATCH"; lit "DELETE"; lit "HEAD"].
Definition WEBHOOK_DEFAULT_METHOD : pystr := lit "POST".
Definition WEBHOOK_DEFAULT_TIMEOUT : Z := 30.
Definition WEBHOOK_MAX_TIMEOUT : Z := 300.
Definition WEBHOOK_MAX_URL_LEN : Z := 2048.
Definition WEBHOOK_MAX_BODY_LEN : Z := 1000000.

Definition str_len (s : pystr) : Z := Z.of_nat (length s).
Definition is_none (v : Json) : bool := bool_decide (v = JNull).
Definition is_str (v : Json) : bool := match v with JStr _ => true | _ => false end.

Section checks.
Context `{CronTab} `{IsoTime} `{PyText} `{SchedulePolicy}.

(** ** The payloads *)

Definition validate_report_format (report_format : Json) (action : Json) : result ScheduleError unit :=
  guard! is_none report_format || is_str report_format else FormatNotString in
  guard! negb (truthy report_format && negb (bool_decide (action = JStr (lit "check")))) else FormatOnlyForChecks in
  match report_format with
  | JStr format =>
      if negb (nonempty format) then Ok tt
      else match report_formats with
           | None => Err NoFormatsRegistered
           | Some None => Err FormatsUnavailable
           | Some (Some known) => guard! bool_decide (format ∈ known) else UnsupportedFormat in Ok tt
           end
  | _ => Ok tt
  end.

Definition validate_timezone (tz_name : Json) : result ScheduleError unit :=
  match tz_name with
  | JStr name => guard! nonempty name && zone_known name else InvalidTimezone in Ok tt
  | _ => Err InvalidTimezone
  end.

(** [_STEP_REQUIRED_INPUTS.get(str(tool_name))] *)
Definition step_required_input (tool_name : Json) : option pystr :=
  match tool_name with
  | JStr t =>
      if bool_decide (t = lit "run_command") then Some (lit "command")
      else if bool_decide (t = lit "run_script") then Some (lit "script")
      else if bool_decide (t = lit "run_command_multi") then Some (lit "command")
      else None
  | _ => None
  end.

Definition step_ok (step : Json) : result ScheduleError unit :=
  match step with
  | JDict kvs =>
      match dict_get kvs (lit "tool_name") with
      | None => Err StepNotDict
      | Some tool_name =>
          match step_required_input tool_name with
          | None => Ok tt
          | Some required =>
              match default JNull (dict_get kvs (lit "tool_input")) with
              | JDict tool_input =>
                  guard! nonempty (strip (py_str (default (JStr []) (dict_get tool_input required))))
                    else StepInputRequired in Ok tt
              | _ => Err StepInputRequired
              end
          end
      end
  | _ => Err StepNotDict
  end.

(** The first error of a list of checks. *)
Fixpoint check_all {A : Type} (check : A → result ScheduleError unit) (l : list A) : result ScheduleError unit :=
  match l with
  | [] => Ok tt
  | x :: l => let! _ := check x in check_all check l
  end.

Definition validate_workflow_steps (steps : Json) : result ScheduleError unit :=
  match steps with
  | JList (step :: steps) => check_all step_ok (step :: steps)
  | _ => Err StepsRequired
  end.

Definition TRIGGER_KEYS : list pystr := [lit "source"; lit "event"; lit "repo"].
Definition TRIGGER_SOURCES : list pystr := [lit "gitea"; lit "generic"; lit "github"; lit "gitlab"].

Definition validate_trigger (trigger : Json) : result ScheduleError unit :=
  match trigger with
  | JDict t =>
      guard! forallb (λ k, bool_decide (k ∈ TRIGGER_KEYS)) t.*1 else TriggerUnknownKeys in
      guard! forallb (λ v, is_none v || is_str v) t.*2 else TriggerValueType in
      guard! match dict_get t (lit "source") with
             | Some (JStr source) => negb (nonempty source) || bool_decide (source ∈ TRIGGER_SOURCES)
             | _ => true
             end else TriggerSourceInvalid in
      guard! existsb truthy t.*2 else TriggerEmpty in
      Ok tt
  | _ => Err TriggerNotDict
  end.

(** [isinstance(v, int)]: a bool is one. *)
Definition status_code_ok (v : Json) : bool :=
  match as_int v with Some c => (100 <=? c) && (c <=? 599) | None => false end.

Definition validate_webhook_config (config : Json) : result ScheduleError unit :=
  match config with
  | JDict c =>
      match default JNull (dict_get c (lit "url")) with
      | JStr url =>
          guard! nonempty url else WebhookUrlRequired in
          guard! str_len url <=? WEBHOOK_MAX_URL_LEN else WebhookUrlTooLong in
          guard! startswith (lit "http://") url || startswith (lit "https://") url else WebhookUrlScheme in
          guard! url_allowed url else WebhookUrlRefused in
          match default (JStr WEBHOOK_DEFAULT_METHOD) (dict_get c (lit "method")) with
          | JStr method =>
              guard! bool_decide (upper method ∈ WEBHOOK_VALID_METHODS) else WebhookMethodInvalid in
              let! _ := match default JNull (dict_get c (lit "headers")) with
                        | JNull => Ok tt
                        | JDict headers => guard! forallb is_str headers.*2 else WebhookHeadersNotStrings in Ok tt
                        | _ => Err WebhookHeadersNotDict
                        end in
              let! _ := match default JNull (dict_get c (lit "body")) with
                        | JStr body => guard! str_len body <=? WEBHOOK_MAX_BODY_LEN else WebhookBodyTooLong in Ok tt
                        | _ => Ok tt
                        end in
              let! _ := match default JNull (dict_get c (lit "timeout")) with
                        | JNull => Ok tt
                        | timeout =>
                            match number timeout with
                            | None => Err WebhookTimeoutInvalid
                            | Some q =>
                                guard! negb (Qle_bool q (inject_Z 0)) else WebhookTimeoutInvalid in
                                guard! Qle_bool q (inject_Z WEBHOOK_MAX_TIMEOUT) else WebhookTimeoutTooLong in Ok tt
                            end
                        end in
              match default JNull (dict_get c (lit "expected_status_codes")) with
              | JNull => Ok tt
              | JList codes => guard! forallb status_code_ok codes else WebhookCodeInvalid in Ok tt
              | _ => Err WebhookCodesNotList
              end
          | _ => Err WebhookMethodNotString
          end
      | _ => Err WebhookUrlRequired
      end
  | _ => Err WebhookConfigNotDict
  end.

(** Of a configuration that passed the check. *)
Definition normalize_webhook_config (config : Json) : Json :=
  let c := match config with JDict c => c | _ => [] end in
  let field k d := default d (dict_get c (lit k)) in
  let headers := field "headers" JNull in
  JDict [(lit "url", field "url" JNull);
         (lit "method", match field "method" (JStr WEBHOOK_DEFAULT_METHOD) with JStr m => JStr (upper m) | v => v end);
         (lit "headers", if truthy headers then headers else JDict []);
         (lit "body", field "body" JNull);
         (lit "timeout", field "timeout" (JInt WEBHOOK_DEFAULT_TIMEOUT));
         (lit "expected_status_codes", field "expected_status_codes" JNull)].

(** ** The timing *)

(** Of [cron], [run_at] and [trigger], at most one holds. *)
Definition reject_multiple_timing_modes (cron run_at trigger : Json) : result ScheduleError unit :=
  guard! Nat.leb (length (List.filter truthy [cron; run_at; trigger])) 1 else SeveralTimings in Ok tt.

Definition reject_naive_run_at (run_at : Json) : result ScheduleError unit :=
  match run_at with
  | JStr text =>
      if negb (nonempty text) then Ok tt
      else match fromisoformat text with
           | Some (_, None) => Err NaiveRunAt
           | _ => Ok tt
           end
  | _ => Ok tt
  end.

Definition normalized_run_at (run_at : Json) : result ScheduleError pystr :=
  match run_at with
  | JStr text => match fromisoformat text with Some dt => Ok (utc_iso dt) | None => Err InvalidRunAt end
  | _ => Err InvalidRunAt
  end.

Definition next_cron_run (cron tz_name : Json) (now : Z) : result ScheduleError pystr :=
  match cron_next_run cron tz_name now with Ok t => Ok t | Err e => Err (CronFailed e) end.

Definition check_cron (cron : Json) : result ScheduleError unit :=
  match cron with
  | JStr e => guard! cron_is_valid e else InvalidCron in Ok tt
  | _ => Err InvalidCron
  end.

End checks.

(** ** [add] *)

Record AddArgs := {
  description : pystr;
  action : pystr;
  channel_id : pystr;
  cron : Json;
  run_at : Json;
  message : Json;
  tool_name : Json;
  tool_input : Json;
  steps : Json;
  trigger : Json;
  max_retries : option Z;
  retry_backoff_seconds : option Z;
  webhook_config : Json;
  requester_id : pystr;
  cron_timezone : Json;
  report_format : Json;
  nested_payload_validated : bool
}.

(** What the call reads of its surroundings: two fresh identifiers and the clock. *)
Record AddEnv := { new_id : pystr; new_generation : pystr; created_now : Z }.

Section add.
Context `{CronTab} `{IsoTime} `{PyText} `{SchedulePolicy}.

Definition check_payload (a : AddArgs) : result ScheduleError unit :=
  let is_action name := bool_decide (action a = lit name) in
  if is_action "digest" then Ok tt
  else if is_action "check" then
    guard! truthy (tool_name a) else ToolRequired in
    guard! match tool_name a with JStr t => bool_decide (t ∈ ALLOWED_CHECK_TOOLS) | _ => false end
      else ToolNotAllowed in Ok tt
  else if is_action "webhook" then validate_webhook_config (webhook_config a)
  else if is_action "workflow" then validate_workflow_steps (steps a)
  else Ok tt.

Definition check_retries (retries backoff : option Z) : result ScheduleError unit :=
  guard! match retries with Some n => 0 <=? n | None => true end else NegativeRetries in
  guard! match backoff with Some n => 1 <=? n | None => true end else BackoffTooShort in Ok tt.

(** Every check before the record is built. *)
Definition check_args (a : AddArgs) : result ScheduleError unit :=
  let! _ := validate_report_format (report_format a) (JStr (action a)) in
  let! _ := check_payload a in
  let! _ := reject_multiple_timing_modes (cron a) (run_at a) (trigger a) in
  let! _ := reject_naive_run_at (run_at a) in
  let! _ := if negb (is_none (trigger a)) then validate_trigger (trigger a)
            else guard! truthy (cron a) || truthy (run_at a) else TimingRequired in Ok tt in
  if is_none (cron_timezone a) then Ok tt else validate_timezone (cron_timezone a).

Definition base_record (a : AddArgs) (e : AddEnv) : Schedule :=
  [(lit "id", JStr (new_id e)); (lit "_generation", JStr (new_generation e));
   (lit "_revision", JInt 0); (lit "_execution_revision", JInt 0);
   (lit "description", JStr (description a)); (lit "action", JStr (action a));
   (lit "channel_id", JStr (channel_id a)); (lit "requester_id", JStr (requester_id a));
   (lit "_nested_payload_validated", JBool (nested_payload_validated a));
   (lit "created_at", JStr (isoformat (created_now e))); (lit "last_run", JNull)].

Definition with_timing (a : AddArgs) (now : Z) (s : Schedule) : result ScheduleError Schedule :=
  if negb (is_none (trigger a)) then Ok (put (put s "trigger" (trigger a)) "one_time" (JBool false))
  else if truthy (cron a) then
    let! _ := check_cron (cron a) in
    let s := put (put s "cron" (cron a)) "one_time" (JBool false) in
    let s := if truthy (cron_timezone a) then put s "timezone" (cron_timezone a) else s in
    let! t := next_cron_run (cron a) (cron_timezone a) now in
    Ok (put s "next_run" (JStr t))
  else
    let! normalized := normalized_run_at (run_at a) in
    Ok (put (put (put s "run_at" (JStr normalized)) "next_run" (JStr normalized)) "one_time" (JBool true)).

Definition with_payload (a : AddArgs) (s : Schedule) : Schedule :=
  let is_action name := bool_decide (action a = lit name) in
  if is_action "reminder" then
    put s "message" (if truthy (message a) then message a else JStr (description a))
  else if is_action "check" then
    let s := put (put s "tool_name" (tool_name a)) "tool_input"
               (if truthy (tool_input a) then tool_input a else JDict []) in
    if truthy (report_format a) then put s "report_format" (report_format a) else s
  else if is_action "webhook" then put s "webhook_config" (normalize_webhook_config (webhook_config a))
  else if is_action "workflow" then put s "steps" (steps a)
  else s.

Definition with_retries (a : AddArgs) (s : Schedule) : Schedule :=
  let s := put s "max_retries" (JInt (default DEFAULT_MAX_RETRIES (max_retries a))) in
  let s := put s "retry_backoff_seconds" (JInt (default DEFAULT_RETRY_BACKOFF_SECONDS (retry_backoff_seconds a))) in
  put (put (put (put s "consecutive_failures" (JInt 0)) "retry_count" (JInt 0)) "last_error" JNull)
    "last_error_at" JNull.

(** The record [add] publishes. *)
Definition new_schedule (a : AddArgs) (e : AddEnv) : result ScheduleError Schedule :=
  let! _ := check_args a in
  let! s := with_timing a (created_now e) (base_record a e) in
  let! _ := check_retries (max_retries a) (retry_backoff_seconds a) in
  Ok (with_retries a (with_payload a s)).

End add.

(** ** [update] *)

Record UpdateArgs := {
  u_description : option pystr;
  u_cron : Json;
  u_run_at : Json;
  u_message : Json;
  u_tool_name : option pystr;
  u_tool_input : Json;
  u_steps : Json;
  u_trigger : Json;
  u_channel_id : option pystr;
  u_max_retries : option Z;
  u_retry_backoff_seconds : option Z;
  u_webhook_config : Json;
  u_paused : option bool;
  u_cron_timezone : Json;
  u_report_format : Json;
  u_nested_payload_validated : bool
}.

Definition supplied (v : Json) : bool := negb (is_none v).

(** [if v is not None: target[k] = v] *)
Definition put_supplied (s : Schedule) (k : string) (v : Json) : Schedule :=
  if supplied v then put s k v else s.
Definition of_str (v : option pystr) : Json := match v with Some t => JStr t | None => JNull end.
Definition of_int (v : option Z) : Json := match v with Some n => JInt n | None => JNull end.
Definition of_bool (v : option bool) : Json := match v with Some b => JBool b | None => JNull end.

Definition new_timing (u : UpdateArgs) : bool :=
  supplied (u_trigger u) || supplied (u_cron u) || supplied (u_run_at u).

Section update.
Context `{CronTab} `{IsoTime} `{PyText} `{SchedulePolicy}.

(** The text fields, and [paused]. *)
Definition update_text (u : UpdateArgs) (act : Json) (s : Schedule) : result ScheduleError Schedule :=
  let s := if u_nested_payload_validated u
              && ((bool_decide (act = JStr (lit "check")) && supplied (u_tool_input u))
                  || (bool_decide (act = JStr (lit "workflow")) && supplied (u_steps u)))
           then put s "_nested_payload_validated" (JBool true) else s in
  let! _ := if supplied (u_steps u) && bool_decide (act = JStr (lit "workflow"))
            then validate_workflow_steps (u_steps u) else Ok tt in
  let s := put_supplied s "description" (of_str (u_description u)) in
  let s := put_supplied s "message" (u_message u) in
  let s := put_supplied s "channel_id" (of_str (u_channel_id u)) in
  match u_paused u with
  | None => Ok s
  | Some paused =>
      guard! paused || negb (is_set s "inert_reason") || new_timing u else StillInert (get s "inert_reason") in
      Ok (put s "paused" (JBool paused))
  end.

(** The fields of the action. *)
Definition update_payload (u : UpdateArgs) (act : Json) (s : Schedule) : result ScheduleError Schedule :=
  let! _ := match u_tool_name u with
            | Some t => guard! negb (bool_decide (act = JStr (lit "check"))) || bool_decide (t ∈ ALLOWED_CHECK_TOOLS)
                          else ToolNotAllowed in Ok tt
            | None => Ok tt
            end in
  let s := put_supplied s "tool_name" (of_str (u_tool_name u)) in
  let s := put_supplied s "tool_input" (u_tool_input u) in
  let! s := if supplied (u_report_format u) then
              let! _ := validate_report_format (u_report_format u) (get_or s "action" (JStr [])) in
              Ok (if truthy (u_report_format u) then put s "report_format" (u_report_format u)
                  else pop s "report_format")
            else Ok s in
  let s := put_supplied s "steps" (u_steps u) in
  if supplied (u_webhook_config u) then
    let! _ := validate_webhook_config (u_webhook_config u) in
    Ok (put s "webhook_config" (normalize_webhook_config (u_webhook_config u)))
  else Ok s.

(** The retry fields and the time zone. *)
Definition update_retries (u : UpdateArgs) (s : Schedule) : result ScheduleError Schedule :=
  let! _ := check_retries (u_max_retries u) (u_retry_backoff_seconds u) in
  let s := put_supplied s "max_retries" (of_int (u_max_retries u)) in
  let s := put_supplied s "retry_backoff_seconds" (of_int (u_retry_backoff_seconds u)) in
  Ok (put_supplied s "timezone" (u_cron_timezone u)).

(** The previous timing, its retry and its markers are dropped. *)
Definition clear_timing (s : Schedule) : Schedule :=
  foldl pop s ["cron"; "run_at"; "next_run"; "trigger"; "retry_at"; "inert_reason"; "run_started_at"].

Definition replace_timing (u : UpdateArgs) (now : Z) (s : Schedule) : result ScheduleError Schedule :=
  let s := clear_timing s in
  if supplied (u_trigger u) then
    let! _ := validate_trigger (u_trigger u) in
    Ok (pop (put (put s "trigger" (u_trigger u)) "one_time" (JBool false)) "timezone")
  else if supplied (u_cron u) then
    let! _ := check_cron (u_cron u) in
    let s := put (put s "cron" (u_cron u)) "one_time" (JBool false) in
    let! t := next_cron_run (u_cron u) (get s "timezone") now in
    Ok (put s "next_run" (JStr t))
  else
    let! normalized := normalized_run_at (u_run_at u) in
    Ok (pop (put (put (put s "run_at" (JStr normalized)) "next_run" (JStr normalized)) "one_time" (JBool true))
          "timezone").

Definition retry_passed_reason (retry : Json) : pystr :=
  lit "One-time schedule ran and failed, but its retry time " ++ py_repr retry
  ++ lit " passed while paused; set a new run_at to re-arm it".
Definition run_at_passed_reason (at_ : Json) : pystr :=
  lit "One-time schedule was not run because run_at " ++ py_repr at_
  ++ lit " passed while it was paused; set a new run_at to re-arm it".

Definition passed (v : Json) (now : Z) : bool :=
  match parse_persisted_time v with Some t => t <=? now | None => false end.

(** A one-time schedule whose instant elapsed while it was paused is spent. *)
Definition resume_one_time (now : Z) (s : Schedule) : Schedule :=
  if is_set s "last_run" then
    if passed (get s "retry_at") now then quarantine_schedule s (retry_passed_reason (get s "retry_at")) else s
  else if passed (get s "run_at") now then quarantine_schedule s (run_at_passed_reason (get s "run_at"))
  else s.

Definition resumed (original target : Schedule) : bool :=
  is_set original "paused" && bool_decide (dict_get target (lit "paused") = Some (JBool false)).

(** The timing part of the method. *)
Definition update_timing (u : UpdateArgs) (now : Z) (original s : Schedule) : result ScheduleError Schedule :=
  let! _ := reject_multiple_timing_modes (u_cron u) (u_run_at u) (u_trigger u) in
  let! _ := reject_naive_run_at (u_run_at u) in
  let s := if new_timing u && is_set original "inert_reason" && bool_decide (u_paused u = None)
           then put s "paused" (JBool false) else s in
  let resuming := resumed original s in
  let! s :=
    if new_timing u then replace_timing u now s
    else if supplied (u_cron_timezone u) && is_set s "cron" then
      let! t := next_cron_run (get s "cron") (u_cron_timezone u) now in Ok (put s "next_run" (JStr t))
    else if resuming && is_set s "cron" && negb (is_set s "one_time") then
      let! t := next_cron_run (get s "cron") (get s "timezone") now in Ok (put s "next_run" (JStr t))
    else if resuming && is_set s "one_time" then Ok (resume_one_time now s)
    else Ok s in
  Ok (if resuming && negb (is_set s "one_time") then pop s "retry_at" else s).

Definition json_opt_neq (a b : Json) : bool := negb (py_eq a b).

(** Whether the update changes anything but the description. *)
Definition changes_execution (original target : Schedule) : bool :=
  existsb (λ k, negb (bool_decide (k ∈ [lit "description"; lit "_revision"]))
                && json_opt_neq (default JNull (dict_get target k)) (default JNull (dict_get original k)))
    (target.*1 ++ original.*1).

Definition bump (original target : Schedule) (k : string) : result ScheduleError Schedule :=
  match plus_one (get_or original k (JInt 0)) with
  | Some v => Ok (put target k v)
  | None => Err RevisionNotANumber
  end.

(** The record [update] publishes in the place of [original]. *)
Definition updated_schedule (u : UpdateArgs) (now : Z) (original : Schedule) : result ScheduleError Schedule :=
  match dict_get original (lit "action") with
  | None => Err NoAction
  | Some act =>
      let! s := update_text u act original in
      let! s := update_payload u act s in
      let! s := update_retries u s in
      let! s := update_timing u now original s in
      let! s := bump original s "_revision" in
      if changes_execution original s then bump original s "_execution_revision" else Ok s
  end.

(** [reset_failures], for its record. *)
Definition reset_record (s : Schedule) : result ScheduleError Schedule :=
  let s := put (put (put (put s "consecutive_failures" (JInt 0)) "retry_count" (JInt 0)) "last_error" JNull)
             "last_error_at" JNull in
  let s := pop s "retry_at" in
  let! s := bump s s "_revision" in
  bump s s "_execution_revision".

End update.
