(* ===== verification/Scheduler.v ===== *)
(** * The scheduler (src/src/scheduler/scheduler.py)

    The scheduler's state is [World]: the schedules in memory and on disk, the ids
    in flight, the reservations, the executions that have been created and not
    finished, and the holder of the lock.  The code runs on one thread; between two
    of its awaits it is one step.  A section under [_lock] is two steps: its body up
    to the write of [_publish], which leaves a [Holder], and [Written], which
    publishes what was written, or nothing, and goes on with the code after it.
    [step] takes an operation, with what the code reads from outside as its
    arguments (the clock, the connection, the result of the effect and of the
    write), to the next state and the events of the step.

    An execution ([Exec]) is one call of [_execute_and_record] on a detached copy of
    the record; its [Phase] is the point where it awaits.  Not modelled: the text
    of the log, the admission token that [_execute_and_record] itself has just set,
    and [_mark_run_started], which no caller reaches. *)

From S2P Require Import Prelude PyStr PyLib Cron Schedule ScheduleCrud.
From Stdlib Require Import QArith_base.
From stdpp Require Import gmap.
Open Scope string_scope.
Open Scope list_scope.
Open Scope Z_scope.
Local Open Scope odin_scope.

(** ** The connection *)

Inductive ConnectionReason : Type := AVAILABLE | DISCONNECTED | UNAVAILABLE | PROVIDER_ERROR.

Record ConnectionAvailability := { available : bool; reason : ConnectionReason; epoch : Z }.

(** What the provider gives; [None] where it raises or gives another type. *)
Definition connection_availability (p : option ConnectionAvailability) : ConnectionAvailability :=
  default {| available := false; reason := PROVIDER_ERROR; epoch := -1 |} p.

(** ** Executions *)

Record Reservation := {
  r_id : pystr;
  r_identity : Json * Json;
  r_epoch : option Z;
  r_before : option Json * option Json;
  r_after : option (option Json * option Json);
  r_preserve : bool
}.

(** The fields [last_run] and [next_run]. *)
Definition run_fields (s : Schedule) : option Json * option Json :=
  (field_snapshot s "last_run", field_snapshot s "next_run").

Definition capture_before (s : Schedule) (e : option Z) : Reservation :=
  {| r_id := id_of s; r_identity := identity_of s; r_epoch := e; r_before := run_fields s;
     r_after := None; r_preserve := false |}.
Definition capture_after (r : Reservation) (s : Schedule) : Reservation :=
  {| r_id := r_id r; r_identity := r_identity r; r_epoch := r_epoch r; r_before := r_before r;
     r_after := Some (run_fields s); r_preserve := r_preserve r |}.
Definition mark_preserve (r : Reservation) (b : bool) : Reservation :=
  {| r_id := r_id r; r_identity := r_identity r; r_epoch := r_epoch r; r_before := r_before r;
     r_after := r_after r; r_preserve := b |}.

(** A reserved copy, its reservation and the epoch it was admitted in. *)
Definition Reserved : Type := Schedule * nat * option Z.

(** Who awaits the execution. *)
Inductive Owner : Type :=
| Manual (failures_before : Json)
| Fired (lane : Lane)
| Triggered (rest : list Reserved) (executed : nat).

(** Why an unstarted reservation is undone. *)
Inductive Unstarted : Type := Overlap | Disconnected | Refused.

Inductive Phase : Type :=
| Queued
| Restoring (why : Unstarted)
| Admitting
| Running (identity : Json * Json)
| Settling (identity : Json * Json).

Record Exec := {
  x_key : nat;
  x_schedule : Schedule;
  x_reservation : nat;
  x_epoch : option Z;
  x_owner : Owner;
  x_phase : Phase
}.

Definition x_sid (x : Exec) : pystr := id_of (x_schedule x).
Definition with_phase (x : Exec) (p : Phase) : Exec :=
  {| x_key := x_key x; x_schedule := x_schedule x; x_reservation := x_reservation x; x_epoch := x_epoch x;
     x_owner := x_owner x; x_phase := p |}.
Definition with_schedule (x : Exec) (s : Schedule) : Exec :=
  {| x_key := x_key x; x_schedule := s; x_reservation := x_reservation x; x_epoch := x_epoch x;
     x_owner := x_owner x; x_phase := x_phase x |}.

(** Whether the execution put its id in [_in_flight]. *)
Definition in_flight_phase (p : Phase) : bool :=
  match p with Queued | Restoring Overlap => false | _ => true end.

(** ** The state *)

(** What the code does once its write has settled. *)
Inductive Continuation : Type :=
| AfterAdd (s : Schedule)
| AfterUpdate (s : Schedule) (rearmed : bool)
| AfterDelete (sid : pystr)
| AfterReset (s : Schedule)
| AfterResolve (reason : Json)
| AfterRunNow (r : Reserved)
| AfterTick (to_fire : list (Reserved * Lane))
| AfterTriggers (matched : list Reserved)
| AfterRestore (x : nat)
| AfterAdmit (x : nat) (started : pystr)
| AfterSettle (x : nat).

Record Holder := { h_candidate : list Schedule; h_then : Continuation }.

Record World := {
  schedules : list Schedule;
  disk : option pystr;
  in_flight : list pystr;
  scheduled_runs : list pystr;
  reservations : gmap nat Reservation;
  next_key : nat;
  execs : gmap nat Exec;
  lock : option Holder;
  callback : bool;
  failure_callback : bool
}.

Definition set_schedules (w : World) (l : list Schedule) : World :=
  {| schedules := l; disk := disk w; in_flight := in_flight w; scheduled_runs := scheduled_runs w;
     reservations := reservations w; next_key := next_key w; execs := execs w; lock := lock w;
     callback := callback w; failure_callback := failure_callback w |}.
Definition set_disk (w : World) (d : option pystr) : World :=
  {| schedules := schedules w; disk := d; in_flight := in_flight w; scheduled_runs := scheduled_runs w;
     reservations := reservations w; next_key := next_key w; execs := execs w; lock := lock w;
     callback := callback w; failure_callback := failure_callback w |}.
Definition set_flight (w : World) (f s : list pystr) : World :=
  {| schedules := schedules w; disk := disk w; in_flight := f; scheduled_runs := s;
     reservations := reservations w; next_key := next_key w; execs := execs w; lock := lock w;
     callback := callback w; failure_callback := failure_callback w |}.
Definition set_reservations (w : World) (r : gmap nat Reservation) (k : nat) : World :=
  {| schedules := schedules w; disk := disk w; in_flight := in_flight w; scheduled_runs := scheduled_runs w;
     reservations := r; next_key := k; execs := execs w; lock := lock w;
     callback := callback w; failure_callback := failure_callback w |}.
Definition set_execs (w : World) (xs : gmap nat Exec) : World :=
  {| schedules := schedules w; disk := disk w; in_flight := in_flight w; scheduled_runs := scheduled_runs w;
     reservations := reservations w; next_key := next_key w; execs := xs; lock := lock w;
     callback := callback w; failure_callback := failure_callback w |}.
Definition set_lock (w : World) (h : option Holder) : World :=
  {| schedules := schedules w; disk := disk w; in_flight := in_flight w; scheduled_runs := scheduled_runs w;
     reservations := reservations w; next_key := next_key w; execs := execs w; lock := h;
     callback := callback w; failure_callback := failure_callback w |}.

(** A section that goes on to [_publish]. *)
Definition publishing (w : World) (candidate : list Schedule) (k : Continuation) : World :=
  set_lock w (Some {| h_candidate := candidate; h_then := k |}).

Definition pop_reservation (w : World) (k : nat) : World :=
  set_reservations w (delete k (reservations w)) (next_key w).
Definition get_exec (w : World) (k : nat) : option Exec := execs w !! k.
Definition put_exec (w : World) (x : Exec) : World := set_execs w (<[x_key x := x]> (execs w)).
Definition drop_exec (w : World) (k : nat) : World := set_execs w (delete k (execs w)).
Definition all_execs (w : World) : list Exec := (map_to_list (execs w)).*2.
Definition has_id (sid : pystr) (s : Schedule) : bool := bool_decide (id_of s = sid).
Definition flying (w : World) (sid : pystr) : bool := bool_decide (sid ∈ in_flight w).
Definition discard (sid : pystr) (l : list pystr) : list pystr := List.filter (λ i, negb (bool_decide (i = sid))) l.

(** ** Events *)

Inductive RunStatus : Type := StatusSuccess | StatusFailure | StatusSkipped.

(** How an execution ends: true, false, [ScheduleConnectionUnavailableError] or
    another exception. *)
Inductive Outcome : Type := Ran | NotRun | NoConnection | Raised.

(** Why a call is refused before it changes anything. *)
Inductive Refusal : Type :=
| Invalid (e : ScheduleError)
| NotFound
| IsInert (reason : Json)
| NoCallback
| ConnectionUnavailable (a : ConnectionAvailability).

Inductive Event : Type :=
| EffectStarted (sid : pystr) (tracked : bool)
| CompletionPublished (sid : pystr)
| Rearmed (sid : pystr)
| Created (sid : pystr)
| Recorded (sid : pystr) (ok : bool) (retry_attempt : Z)
| Alerted (sid : pystr) (consecutive : Z)
| Returned (v : option Json)
| Refuses (why : Refusal)
| RunReturned (sid : pystr) (status : RunStatus) (warned : bool)
| TriggersReturned (executed : nat).

Section scheduler.
Context `{CronTab} `{IsoTime} `{PyText} `{SchedulePolicy} `{IndentedDump}.

(** ** Creating and changing schedules *)

Definition find_schedule (l : list Schedule) (sid : pystr) : option (nat * Schedule) :=
  list_find (λ s, id_of s = sid) l.

Definition add (w : World) (a : AddArgs) (e : AddEnv) (p : option ConnectionAvailability) : World * list Event :=
  match new_schedule a e with
  | Err err => (w, [Refuses (Invalid err)])
  | Ok s =>
      let av := connection_availability p in
      if requires_connection s && negb (available av) then (w, [Refuses (ConnectionUnavailable av)])
      else (publishing w (schedules w ++ [s]) (AfterAdd s), [])
  end.

Definition update (w : World) (sid : pystr) (u : UpdateArgs) (now : Z) (p : option ConnectionAvailability)
    : World * list Event :=
  match (if is_none (u_cron_timezone u) then Ok tt else validate_timezone (u_cron_timezone u)) with
  | Err err => (w, [Refuses (Invalid err)])
  | Ok _ =>
      match find_schedule (schedules w) sid with
      | None => (w, [Returned None])
      | Some (i, original) =>
          match updated_schedule u now original with
          | Err err => (w, [Refuses (Invalid err)])
          | Ok target =>
              let av := connection_availability p in
              if resumed original target && requires_connection target && negb (available av)
              then (w, [Refuses (ConnectionUnavailable av)])
              else (publishing w (<[i := target]> (schedules w)) (AfterUpdate target (new_timing u)), [])
          end
      end
  end.

Definition delete_schedule (w : World) (sid : pystr) : World * list Event :=
  let candidate := List.filter (λ s, negb (has_id sid s)) (schedules w) in
  if Nat.ltb (length candidate) (length (schedules w)) then (publishing w candidate (AfterDelete sid), [])
  else (w, [Returned (Some (JBool false))]).

Definition reset_failures (w : World) (sid : pystr) : World * list Event :=
  match find_schedule (schedules w) sid with
  | None => (w, [Returned None])
  | Some (i, s) =>
      match reset_record s with
      | Err err => (w, [Refuses (Invalid err)])
      | Ok s => (publishing w (<[i := s]> (schedules w)) (AfterReset s), [])
      end
  end.

(** ** Reservations *)

(** The copy a manual run or a trigger reserves: its [last_run] is now. *)
Definition reserve (s : Schedule) (e : option Z) (now : Z) : Schedule * Reservation :=
  let s' := put s "last_run" (JStr (isoformat now)) in
  (s', capture_after (capture_before s e) s').

Definition keep_reservation (w : World) (r : Reservation) : World :=
  set_reservations w (<[next_key w := r]> (reservations w)) (S (next_key w)).

(** [_restore_unstarted_reservation] on the records it reads under the lock: what it
    publishes, if it publishes. *)
Definition restorable (r : Reservation) (s current : Schedule) : bool :=
  bool_decide (id_of current = r_id r) && same_identity (identity_of current) (r_identity r)
  && bool_decide (id_of s = r_id r) && same_identity (identity_of s) (r_identity r).

Definition restored (r : Reservation) (preserve_next_run : bool) (current : Schedule) : option Schedule :=
  match r_after r with
  | None => None
  | Some (last_run, next_run) =>
      if snapshot_eq (field_snapshot current "last_run") last_run
         && snapshot_eq (field_snapshot current "next_run") next_run
      then let current := put_snapshot current "last_run" (r_before r).1 in
           Some (if preserve_next_run then current else put_snapshot current "next_run" (r_before r).2)
      else None
  end.

Definition restore_records (l : list Schedule) (r : Reservation) (s : Schedule) (preserve_next_run : bool)
    : option (list Schedule) :=
  match list_find (λ current, restorable r s current = true) l with
  | None => None
  | Some (i, current) => (λ current, <[i := current]> l) <$> restored r preserve_next_run current
  end.

(** ** The manual run *)

Definition run_now (w : World) (sid : pystr) (now : Z) (p : option ConnectionAvailability) : World * list Event :=
  match find_schedule (schedules w) sid with
  | None => (w, [Refuses NotFound])
  | Some (i, s) =>
      let flying_ := flying w sid in
      let '(s, was_resolved) := if flying_ then (s, false) else resolve_interrupted_run s in
      let w := set_schedules w (<[i := s]> (schedules w)) in
      if was_resolved then (publishing w (schedules w) (AfterResolve (get s "inert_reason")), [])
      else if is_set s "inert_reason" then (w, [Refuses (IsInert (get s "inert_reason"))])
      else if requires_connection s && negb (callback w) then (w, [Refuses NoCallback])
      else if flying_ then (w, [RunReturned sid StatusSkipped (is_set s "paused")])
      else
        let av := connection_availability p in
        if requires_connection s && negb (available av) then (w, [Refuses (ConnectionUnavailable av)])
        else
          let e := if requires_connection s then Some (epoch av) else None in
          let '(s', r) := reserve s e now in
          let k := next_key w in
          let candidate := (λ c, if has_id sid c then s' else c) <$> schedules w in
          (publishing (keep_reservation w r) candidate (AfterRunNow (s', k, e)), [])
  end.

(** ** Triggers *)

(** [_trigger_matches] of a trigger that passed [_validate_trigger]; [None] is the
    [AttributeError] of a [repo] that is not a string. *)
Definition trigger_matches (trigger : list (pystr * Json)) (source : pystr) (event_data : list (pystr * Json))
    : option bool :=
  let field k := match dict_get trigger (lit k) with Some (JStr v) => v | _ => [] end in
  if bool_decide (field "source" ∈ REMOVED_TRIGGER_SOURCES) || bool_decide (is_Some (dict_get trigger (lit "alert_name")))
  then Some false
  else if nonempty (field "source") && negb (bool_decide (field "source" = source)) then Some false
  else if nonempty (field "event")
          && negb (py_eq (JStr (field "event")) (default JNull (dict_get event_data (lit "event")))) then Some false
  else if nonempty (field "repo") then
    match default (JStr []) (dict_get event_data (lit "repo")) with
    | JStr repo => Some (contains (lower (field "repo")) (lower repo))
    | _ => None
    end
  else Some true.

Definition trigger_fires (s : Schedule) (source : pystr) (event_data : list (pystr * Json)) : bool :=
  match get s "trigger" with
  | JDict trigger =>
      is_ok (validate_trigger (JDict trigger))
      && default false (trigger_matches trigger source event_data)
  | _ => false
  end.

(** The loop over the records: the candidate, the reservations and what matched. *)
Record Matching := {
  m_candidate : list Schedule;
  m_reservations : gmap nat Reservation;
  m_next : nat;
  m_matched : list Reserved
}.

Definition match_one (w : World) (av : ConnectionAvailability) (source : pystr) (event_data : list (pystr * Json))
    (now : Z) (m : Matching) (s : Schedule) : Matching :=
  if negb (is_set s "paused") && trigger_fires s source event_data
     && (negb (requires_connection s) || (available av && callback w)) then
    let e := if requires_connection s then Some (epoch av) else None in
    let '(s', r) := reserve s e now in
    {| m_candidate := m_candidate m ++ [s']; m_reservations := <[m_next m := r]> (m_reservations m);
       m_next := S (m_next m); m_matched := m_matched m ++ [(s', m_next m, e)] |}
  else
    {| m_candidate := m_candidate m ++ [s]; m_reservations := m_reservations m; m_next := m_next m;
       m_matched := m_matched m |}.

Definition fire_triggers (w : World) (source : pystr) (event_data : list (pystr * Json)) (now : Z)
    (p : option ConnectionAvailability) : World * list Event :=
  if bool_decide (source ∈ REMOVED_TRIGGER_SOURCES) then (w, [TriggersReturned 0])
  else
    let m := foldl (match_one w (connection_availability p) source event_data now)
               {| m_candidate := []; m_reservations := reservations w; m_next := next_key w; m_matched := [] |}
               (schedules w) in
    match m_matched m with
    | [] => (w, [TriggersReturned 0])
    | _ => (publishing (set_reservations w (m_reservations m) (m_next m)) (m_candidate m)
              (AfterTriggers (m_matched m)), [])
    end.

(** ** The tick *)

(** [_busy_lanes] *)
Definition busy_lanes (w : World) : list Lane :=
  omap (λ x, match x_owner x with Fired lane => Some lane | _ => None end) (all_execs w).

(** [_owned_by_running_execution] *)
Definition owned_by_running_execution (w : World) (s : Schedule) : bool :=
  flying w (id_of s)
  && (is_set s "retry_at" || is_set s "one_time" || bool_decide (id_of s ∈ scheduled_runs w)).

(** A due time of the record at an index of the list. *)
Record Due := { d_at : Z; d_index : nat; d_epoch : option Z; d_retry : bool }.

Definition unreadable (field : string) (v : Json) (what : string) : pystr :=
  lit "Unreadable " ++ lit field ++ lit " " ++ py_repr v ++ lit "; " ++ lit what.

(** The first loop of [_start_due], for one record: the record, whether it was
    quarantined, and its due time. *)
Definition scan (w : World) (av : ConnectionAvailability) (now : Z) (started : list pystr) (index : nat)
    (s : Schedule) : Schedule * bool * option Due :=
  let skip := (s, false, None) in
  let due at_ retry :=
    (s, false, Some {| d_at := at_; d_index := index;
                       d_epoch := if requires_connection s then Some (epoch av) else None; d_retry := retry |}) in
  if is_set s "paused" then skip
  else if is_set s "run_started_at" && negb (flying w (id_of s)) then
    let '(s, q) := resolve_interrupted_run s in (s, q, None)
  else if owned_by_running_execution w s then skip
  else if bool_decide (id_of s ∈ started) then skip
  else if requires_connection s && negb (available av) then skip
  else if is_set s "retry_at" then
    match parse_persisted_time (get s "retry_at") with
    | None => (quarantine_schedule s (unreadable "retry_at" (get s "retry_at") "retry time could not be parsed"),
               true, None)
    | Some retry_at => if retry_at <=? now then due retry_at true else skip
    end
  else if negb (is_set s "next_run") then skip
  else
    match parse_persisted_time (get s "next_run") with
    | None => (quarantine_schedule s (unreadable "next_run" (get s "next_run") "next run time could not be parsed"),
               true, None)
    | Some next_run =>
        if now <? next_run then skip
        else if negb (is_set s "one_time") && negb (is_usable_cron (get s "cron")) then
          (quarantine_schedule s (unreadable "cron" (get s "cron") "next run could not be computed"), true, None)
        else due next_run false
    end.

(** [sorted(due, key=lambda entry: (entry[0], entry[1]))] *)
Definition due_le (a b : Due) : bool :=
  (d_at a <? d_at b) || ((d_at a =? d_at b) && Nat.leb (d_index a) (d_index b)).
Fixpoint insert_due (d : Due) (l : list Due) : list Due :=
  match l with
  | [] => [d]
  | e :: l' => if due_le d e then d :: l else e :: insert_due d l'
  end.
Definition sort_due (l : list Due) : list Due := foldr insert_due [] l.

(** The second loop of [_start_due]. *)
Record Firing := {
  f_candidate : list Schedule;
  f_reservations : gmap nat Reservation;
  f_next : nat;
  f_to_fire : list (Reserved * Lane);
  f_busy : list Lane
}.

(** The copy a due record is started on and its reservation; [None] where the next
    slot cannot be computed. *)
Definition reserve_due (s : Schedule) (d : Due) (now : Z) : option (Schedule * Reservation) :=
  let '(s1, r) := reserve s (d_epoch d) now in
  if d_retry d then Some (s1, r)
  else if is_set s1 "cron" then
    match cron_next_run (get s1 "cron") (get s1 "timezone") now with
    | Err _ => None
    | Ok t => let s2 := put s1 "next_run" (JStr t) in
              Some (s2, mark_preserve (capture_after (capture_before s (d_epoch d)) s2) true)
    end
  else Some (s1, r).

(** [_rollback_reservation_in_place] of the record as the failed start left it. *)
Definition rollback_in_place (s : Schedule) (e : option Z) (now : Z) : Schedule :=
  let r := capture_before s e in
  let s1 := put s "last_run" (JStr (isoformat now)) in
  put_snapshot (put_snapshot s1 "last_run" (r_before r).1) "next_run" (r_before r).2.

Definition fire_one (now : Z) (f : Firing) (d : Due) : Firing :=
  match f_candidate f !! d_index d with
  | None => f
  | Some s =>
      let lane := lane_of s in
      if bool_decide (lane ∈ f_busy f) then f
      else if negb (bool_decide (is_Some (dict_get s (lit "description")))) then f
      else match reserve_due s d now with
           | None =>
               {| f_candidate := <[d_index d := rollback_in_place s (d_epoch d) now]> (f_candidate f);
                  f_reservations := f_reservations f; f_next := S (f_next f);
                  f_to_fire := f_to_fire f; f_busy := f_busy f |}
           | Some (s', r) =>
               {| f_candidate := <[d_index d := s']> (f_candidate f);
                  f_reservations := <[f_next f := r]> (f_reservations f); f_next := S (f_next f);
                  f_to_fire := f_to_fire f ++ [((s', f_next f, d_epoch d), lane)];
                  f_busy := f_busy f ++ [lane] |}
           end
  end.

Definition scan_all (w : World) (av : ConnectionAvailability) (now : Z) (started : list pystr)
    : list (Schedule * bool * option Due) := imap (scan w av now started) (schedules w).

Definition fire_due (w : World) (av : ConnectionAvailability) (now : Z) (started : list pystr) : Firing :=
  let scanned := scan_all w av now started in
  foldl (fire_one now)
    {| f_candidate := (λ x, x.1.1) <$> scanned; f_reservations := reservations w; f_next := next_key w;
       f_to_fire := []; f_busy := busy_lanes w |}
    (sort_due (omap (λ x, x.2) scanned)).

Definition start_due (w : World) (now : Z) (started : list pystr) (p : option ConnectionAvailability)
    : World * list Event :=
  let av := connection_availability p in
  let f := fire_due w av now started in
  let w := set_reservations w (f_reservations f) (f_next f) in
  if negb (bool_decide (length (f_to_fire f) = 0%nat)) || existsb (λ x, x.1.2) (scan_all w av now started)
  then (publishing w (f_candidate f) (AfterTick (f_to_fire f)), [])
  else (w, []).

(** [_compute_tick_delay], in microseconds. *)
Definition pending_time (w : World) (s : Schedule) : option Z :=
  if is_set s "paused" || bool_decide (lane_of s ∈ busy_lanes w) || owned_by_running_execution w s then None
  else
    let nxt := if is_set s "retry_at" then get s "retry_at" else get s "next_run" in
    if truthy nxt then parse_persisted_time nxt else None.

Definition compute_tick_delay (w : World) (now : Z) : Z :=
  match omap (pending_time w) (schedules w) with
  | [] => MINUTE
  | t :: ts => Z.max SECOND (Z.min MINUTE (foldl Z.min t ts - now))
  end.

(** ** Executions *)

(** [_execute_and_record] up to its first await. *)
Definition begin_exec (w : World) (x : Exec) (p : option ConnectionAvailability) : World :=
  let sid := x_sid x in
  if flying w sid then put_exec w (with_phase x (Restoring Overlap))
  else
    let is_fired := match x_owner x with Fired _ => true | _ => false end in
    let w := set_flight w (sid :: in_flight w) (if is_fired then sid :: scheduled_runs w else scheduled_runs w) in
    let av := connection_availability p in
    let gone := requires_connection (x_schedule x)
                && (negb (available av) || match x_epoch x with Some e => negb (epoch av =? e) | None => false end) in
    put_exec w (with_phase x (if gone then Restoring Disconnected else Admitting)).

(** An execution known by [key], the reservation its caller began with. *)
Definition new_exec (key : nat) (r : Reserved) (owner : Owner) : Exec :=
  {| x_key := key; x_schedule := r.1.1; x_reservation := r.1.2; x_epoch := r.2; x_owner := owner;
     x_phase := Queued |}.

Definition json_lt (a b : Json) : bool :=
  match number a, number b with Some x, Some y => negb (Qle_bool y x) | _, _ => false end.

(** What the caller that awaited the execution does with its end. *)
Definition owner_next (x : Exec) (o : Outcome) : option Exec * list Event :=
  let s := x_schedule x in
  match x_owner x with
  | Fired _ => (None, [])
  | Manual before =>
      (None, match o with
           | Ran => [RunReturned (x_sid x)
                       (if json_lt before (get_or s "consecutive_failures" (JInt 0)) then StatusFailure
                        else StatusSuccess) (is_set s "paused")]
           | NotRun => [RunReturned (x_sid x) StatusSkipped (is_set s "paused")]
           | _ => []
           end)
  | Triggered rest executed =>
      let executed := match o with Ran => S executed | _ => executed end in
      match o, rest with
      | Raised, _ => (None, [])
      | _, [] => (None, [TriggersReturned executed])
      | _, r :: rest => (Some (new_exec (x_key x) r (Triggered rest executed)), [])
      end
  end.

(** The end of [_execute_and_record], its [finally] included, and of its task. *)
Definition finish (w : World) (x : Exec) (o : Outcome) : World * list Event :=
  let w := if in_flight_phase (x_phase x)
           then set_flight w (discard (x_sid x) (in_flight w)) (discard (x_sid x) (scheduled_runs w)) else w in
  let w := match x_phase x, o, x_owner x with
           | Restoring Overlap, Raised, Manual _ | Restoring Overlap, Raised, Triggered _ _ => w
           | _, _, _ => pop_reservation w (x_reservation x)
           end in
  let '(next, evs) := owner_next x o in
  (match next with Some x' => put_exec w x' | None => drop_exec w (x_key x) end, evs).

Definition unstarted_outcome (why : Unstarted) : Outcome :=
  match why with Disconnected => NoConnection | _ => NotRun end.

(** [_restore_unstarted_reservation], once it has the lock. *)
Definition restore_section (w : World) (x : Exec) (why : Unstarted) : World * list Event :=
  let publishes r :=
    restore_records (schedules w) r (x_schedule x) (match why with Overlap => r_preserve r | _ => false end) in
  match reservations w !! x_reservation x ≫= publishes with
  | Some candidate => (publishing w candidate (AfterRestore (x_key x)), [])
  | None => finish w x (unstarted_outcome why)
  end.

(** From the admission to the start of the effect. *)
Definition start_effect (w : World) (x : Exec) : World * list Event :=
  let s := x_schedule x in
  let i := identity_of s in
  if action_is s "webhook" || callback w
  then (put_exec w (with_phase x (Running i)), [EffectStarted (id_of s) (tracks_run_start s)])
  else (put_exec w (with_phase x (Settling i)), []).

(** [_admit_reserved_execution] *)
Definition admit_section (w : World) (x : Exec) (now : Z) : World * list Event :=
  let s := x_schedule x in
  let refuse := (put_exec w (with_phase x (Restoring Refused)), []) in
  match find_schedule (schedules w) (id_of s) with
  | None => refuse
  | Some (i, current) =>
      if negb (same_identity (identity_of current) (identity_of s)) then refuse
      else if is_set current "paused" && negb (is_set s "paused") then refuse
      else if tracks_run_start s then
        let started := isoformat now in
        (publishing w (<[i := put current "run_started_at" (JStr started)]> (schedules w))
           (AfterAdmit (x_key x) started), [])
      else start_effect w x
  end.

(** The fields a settled run copies to its record. *)
Definition OUTCOME_FIELDS : list string :=
  ["last_run"; "consecutive_failures"; "retry_count"; "last_error"; "last_error_at"; "retry_at"].

Definition copy_outcome (s current : Schedule) : Schedule :=
  foldl (λ c k, put_snapshot c k (field_snapshot s k)) current OUTCOME_FIELDS.

(** The section that records the outcome: what it publishes. *)
Definition settle_records (l : list Schedule) (s : Schedule) (identity : Json * Json) : option (list Schedule) :=
  match find_schedule l (id_of s) with
  | None => None
  | Some (i, current) =>
      let current := if py_eq (get current "run_started_at") (get s "run_started_at")
                     then pop current "run_started_at" else current in
      if negb (same_identity (identity_of current) identity) then Some (<[i := current]> l)
      else
        let current := copy_outcome s current in
        if is_set s "one_time" then
          if negb (is_set s "last_error") then Some (delete i l)
          else Some (<[i := if bool_decide (dict_get s (lit "next_run") = None) then pop current "next_run"
                            else current]> l)
        else Some (<[i := current]> l)
  end.

Definition settle_section (w : World) (x : Exec) (identity : Json * Json) : World * list Event :=
  match settle_records (schedules w) (x_schedule x) identity with
  | Some candidate => (publishing w candidate (AfterSettle (x_key x)), [])
  | None => finish w x Ran
  end.

(** ** The outcome of an effect *)

Definition handle_success (s : Schedule) : Schedule :=
  pop (put (put (put (put s "consecutive_failures" (JInt 0)) "retry_count" (JInt 0)) "last_error" JNull)
         "last_error_at" JNull) "retry_at".

(** Dropping the retry of a schedule, and the instant of one that runs once. *)
Definition no_retry (s : Schedule) : Schedule :=
  let s := pop s "retry_at" in if is_set s "one_time" then pop s "next_run" else s.

(** [_handle_failure] up to the alert; [None] where a counter is not a number. *)
Definition handle_failure (s : Schedule) (error : pystr) (non_retryable : bool) (now : Z) : option Schedule :=
  consecutive ← plus_one (get_or s "consecutive_failures" (JInt 0));
  let s := put s "consecutive_failures" consecutive in
  let s := put (put s "last_error" (JStr (take 500 error))) "last_error_at" (JStr (isoformat now)) in
  if non_retryable then Some (no_retry s)
  else
    max_retries ← as_int (get_or s "max_retries" (JInt DEFAULT_MAX_RETRIES));
    retry_count ← as_int (get_or s "retry_count" (JInt 0));
    if (0 <? max_retries) && (retry_count <? max_retries) then
      let s := put s "retry_count" (JInt (retry_count + 1)) in
      retry_at ← compute_retry_at s now;
      Some (put s "retry_at" (JStr retry_at))
    else Some (no_retry s).

(** Whether [_handle_failure] goes on to alert, given the two looks at the connection. *)
Definition alerts (w : World) (s : Schedule) (p1 p2 : option ConnectionAvailability) : list Event :=
  let admitted := connection_availability p1 in
  let current := connection_availability p2 in
  match as_int (get s "consecutive_failures") with
  | Some n =>
      if failure_callback w && (DEFAULT_FAILURE_ALERT_THRESHOLD <=? n)
         && (n mod DEFAULT_FAILURE_ALERT_THRESHOLD =? 0)
         && available admitted && available current && (epoch current =? epoch admitted)
      then [Alerted (id_of s) n] else []
  | None => []
  end.

(** The attempt that the history is told of. *)
Definition retry_attempt (s : Schedule) (non_retryable : bool) : option Z :=
  if non_retryable then Some 0
  else
    n ← as_int (get_or s "retry_count" (JInt 0));
    max_retries ← as_int (get_or s "max_retries" (JInt 0));
    Some (if 0 <? max_retries then n + 1 else 0).

(** What the effect, and the history after it, give. *)
Inductive EffectResult : Type :=
| Succeeded
| SucceededUnrecorded (error : pystr)
| Failed (error : pystr) (non_retryable recorded : bool)
| Interrupted.

Definition fail_with (w : World) (x : Exec) (s : Schedule) (identity : Json * Json) (error : pystr)
    (non_retryable recorded : bool) (now : Z) (p1 p2 : option ConnectionAvailability) : World * list Event :=
  match retry_attempt s non_retryable, handle_failure s error non_retryable now with
  | Some attempt, Some s' =>
      let evs := alerts w s' p1 p2 in
      if recorded
      then (put_exec w (with_phase (with_schedule x s') (Settling identity)),
            evs ++ [Recorded (id_of s') false attempt])
      else let '(w, out) := finish w x Raised in (w, evs ++ out)
  | _, _ => finish w x Raised
  end.

(** The end of the effect of an execution that runs. *)
Definition end_effect (w : World) (x : Exec) (identity : Json * Json) (r : EffectResult) (now : Z)
    (p1 p2 : option ConnectionAvailability) : World * list Event :=
  let s := x_schedule x in
  match r with
  | Succeeded =>
      (put_exec w (with_phase (with_schedule x (handle_success s)) (Settling identity)), [Recorded (id_of s) true 0])
  | SucceededUnrecorded error => fail_with w x (handle_success s) identity error false true now p1 p2
  | Failed error non_retryable recorded => fail_with w x s identity error non_retryable recorded now p1 p2
  | Interrupted => finish w x Raised
  end.

(** ** Steps *)

(** What the writer thread and the task that awaits it give. *)
Inductive WriteResult : Type := Saved | SavedCancelled | NotSaved.

Inductive Op : Type :=
| OpAdd (a : AddArgs) (e : AddEnv) (p : option ConnectionAvailability)
| OpUpdate (sid : pystr) (u : UpdateArgs) (now : Z) (p : option ConnectionAvailability)
| OpDelete (sid : pystr)
| OpReset (sid : pystr)
| OpRunNow (sid : pystr) (now : Z) (p : option ConnectionAvailability)
| OpFire (source : pystr) (event_data : list (pystr * Json)) (now : Z) (p : option ConnectionAvailability)
| OpTick (now : Z) (started : list pystr) (p : option ConnectionAvailability)
| OpWritten (r : WriteResult) (p : option ConnectionAvailability)
| OpBegin (x : nat) (p : option ConnectionAvailability)
| OpEnter (x : nat) (now : Z)
| OpEffect (x : nat) (r : EffectResult) (now : Z) (p1 p2 : option ConnectionAvailability)
| OpCancel (x : nat)
| OpStart (alerting : bool)
| OpBoot (now : Z) (landed backed_up : bool).

(** [Scheduler.__init__] over the file: nothing of the previous process is left but
    the file, which is set aside if it is corrupt and the backup can be made. *)
Definition boot (file : option pystr) (now : Z) (backed_up : bool) : World :=
  {| schedules := boot_schedules file now; disk := if (load file now).2 && backed_up then None else file;
     in_flight := []; scheduled_runs := []; reservations := ∅; next_key := 0; execs := ∅; lock := None;
     callback := false; failure_callback := false |}.

(** The published candidate. *)
Definition published (w : World) (h : Holder) : World :=
  set_lock (set_disk (set_schedules w (h_candidate h)) (Some (save (h_candidate h)))) None.

(** The execution a continuation belongs to. *)
Definition holder_exec (k : Continuation) : option nat :=
  match k with AfterRestore x | AfterAdmit x _ | AfterSettle x => Some x | _ => None end.

(** The events of a publication, whatever becomes of the task that asked for it. *)
Definition publication_events (w : World) (k : Continuation) : list Event :=
  match k with
  | AfterAdd s => [Created (id_of s)]
  | AfterUpdate s true => [Rearmed (id_of s)]
  | AfterSettle x => match get_exec w x with Some x => [CompletionPublished (x_sid x)] | None => [] end
  | _ => []
  end.

(** A process that dies, in a write too: the file has been replaced, or not. *)
Definition restart (w : World) (now : Z) (landed backed_up : bool) : World * list Event :=
  match lock w with
  | Some h =>
      if landed then (boot (Some (save (h_candidate h))) now backed_up, publication_events w (h_then h))
      else (boot (disk w) now backed_up, [])
  | None => (boot (disk w) now backed_up, [])
  end.

(** The exception, or the cancellation, of a write. *)
Definition abandon (w : World) (k : Continuation) : World * list Event :=
  match holder_exec k ≫= get_exec w with
  | Some x => finish w x Raised
  | None => (w, [])
  end.

Definition trigger_exec (w : World) (matched : list Reserved) : World :=
  match matched with [] => w | r :: rest => put_exec w (new_exec r.1.2 r (Triggered rest 0)) end.

Definition fired_exec (r : Reserved * Lane) : Exec := new_exec r.1.1.2 r.1 (Fired r.2).

(** The code after a write that published. *)
Definition continue (w : World) (k : Continuation) (p : option ConnectionAvailability) : World * list Event :=
  match k with
  | AfterAdd s | AfterUpdate s _ | AfterReset s => (w, [Returned (Some (JDict s))])
  | AfterDelete _ => (w, [Returned (Some (JBool true))])
  | AfterResolve reason => (w, [Refuses (IsInert reason)])
  | AfterRunNow r =>
      let x := new_exec r.1.2 r (Manual (get_or r.1.1 "consecutive_failures" (JInt 0))) in
      (begin_exec (put_exec w x) x p, [])
  | AfterTick to_fire => (foldl (λ w r, put_exec w (fired_exec r)) w to_fire, [])
  | AfterTriggers matched => (trigger_exec w matched, [])
  | AfterRestore x =>
      match get_exec w x with
      | Some x => finish w x (match x_phase x with Restoring why => unstarted_outcome why | _ => NotRun end)
      | None => (w, [])
      end
  | AfterAdmit x started =>
      match get_exec w x with
      | Some x => start_effect w (with_schedule x (put (x_schedule x) "run_started_at" (JStr started)))
      | None => (w, [])
      end
  | AfterSettle x =>
      match get_exec w x with Some x => finish w x Ran | None => (w, []) end
  end.

(** A task that a tick has just created runs before any write can settle: the loop
    runs it in its next pass, and a write needs a thread to report back. *)
Definition starting (x : Exec) : bool :=
  match x_owner x, x_phase x with Fired _, Queued => true | _, _ => false end.

Definition written (w : World) (r : WriteResult) (p : option ConnectionAvailability) : option (World * list Event) :=
  match lock w with
  | Some h =>
      if existsb starting (all_execs w) then None
      else match r with
           | Saved =>
               let '(w', evs) := continue (published w h) (h_then h) p in
               Some (w', publication_events w (h_then h) ++ evs)
           | SavedCancelled =>
               let '(w', evs) := abandon (published w h) (h_then h) in
               Some (w', publication_events w (h_then h) ++ evs)
           | NotSaved => Some (abandon (set_lock w None) (h_then h))
           end
  | None => None
  end.

(** An execution that waits for the lock takes it. *)
Definition enter (w : World) (x : Exec) (now : Z) : option (World * list Event) :=
  match x_phase x with
  | Restoring why => Some (restore_section w x why)
  | Admitting => Some (admit_section w x now)
  | Settling identity => Some (settle_section w x identity)
  | _ => None
  end.

(** Calls whose section starts when the lock is free.  [uuid4] gives [add] an id that
    no schedule has. *)
Definition call (w : World) (o : Op) : option (World * list Event) :=
  match o with
  | OpAdd a e p => if bool_decide (new_id e ∈ id_of <$> schedules w) then None else Some (add w a e p)
  | OpUpdate sid u now p => Some (update w sid u now p)
  | OpDelete sid => Some (delete_schedule w sid)
  | OpReset sid => Some (reset_failures w sid)
  | OpRunNow sid now p => Some (run_now w sid now p)
  | OpFire source event_data now p => Some (fire_triggers w source event_data now p)
  | OpTick now started p => Some (start_due w now started p)
  | OpEnter k now => x ← get_exec w k; enter w x now
  | _ => None
  end.

(** A cancellation of a task that does not hold the lock. *)
Definition cancelled (w : World) (k : nat) : option (World * list Event) :=
  x ← get_exec w k;
  if bool_decide (lock w ≫= (λ h, holder_exec (h_then h)) = Some k) then None else Some (finish w x Raised).

Definition step (w : World) (o : Op) : option (World * list Event) :=
  match o with
  | OpWritten r p => written w r p
  | OpBegin k p =>
      x ← get_exec w k;
      match x_phase x with Queued => Some (begin_exec w x p, []) | _ => None end
  | OpEffect k r now p1 p2 =>
      x ← get_exec w k;
      match x_phase x with Running i => Some (end_effect w x i r now p1 p2) | _ => None end
  | OpCancel k => cancelled w k
  | OpStart alerting =>
      Some ({| schedules := schedules w; disk := disk w; in_flight := in_flight w;
               scheduled_runs := scheduled_runs w; reservations := reservations w; next_key := next_key w;
               execs := execs w; lock := lock w; callback := true; failure_callback := alerting |}, [])
  | OpBoot now landed backed_up => Some (restart w now landed backed_up)
  | _ => match lock w with None => call w o | Some _ => None end
  end.

(** A run of operations, with the events it leaves. *)
Fixpoint run_ops (w : World) (ops : list Op) : option (World * list Event) :=
  match ops with
  | [] => Some (w, [])
  | o :: ops =>
      '(w, evs) ← step w o;
      '(w, evs') ← run_ops w ops;
      Some (w, evs ++ evs')
  end.

End scheduler.
