(* ===== verification/ScheduleRuns.v ===== *)
(** * Concrete surroundings of the scheduler

    Instances of the interfaces the scheduler is proved against, which show that
    their laws can hold, and the runs the witnesses use. *)

From S2P Require Import Prelude PyStr PyLib Cron Schedule ScheduleCrud Scheduler.
Open Scope string_scope.
Open Scope list_scope.
Open Scope Z_scope.

Module ScheduleRuns.
Export Concrete Fallback.

#[export] Instance bits_time : IsoTime.
Proof.
  refine {| isoformat := λ t, 84 :: bits (encode t);
            fromisoformat := λ s, match s with
                                  | 84 :: s => (λ t, (t, Some 0)) <$> (decode (of_bits s) : option Z)
                                  | _ => None
                                  end |}; [|done].
  intros t. cbn. destruct (bits_plain (encode t)) as (_ & _ & ->). by rewrite decode_encode.
Defined.

#[export] Instance plain_text : PyText :=
  {| py_repr := λ v, match v with JStr s => s | _ => [] end;
     py_str := λ v, match v with JStr s => s | _ => [] end;
     lower := λ s, s; upper := λ s, s |}.

#[export] Instance open_policy : SchedulePolicy := {| report_formats := None; url_allowed := λ _, true |}.

#[export] Instance tree_dump : IndentedDump := {| dumps_indent := dumps; loads_indent := loads_dumps |}.

(** A workflow of one step, to run at the second 10. *)
Definition at_second (n : Z) : pystr := isoformat (n * SECOND).
Definition one_shot : AddArgs :=
  {| description := lit "deploy"; action := lit "workflow"; channel_id := lit "c"; cron := JNull;
     run_at := JStr (at_second 10); message := JNull; tool_name := JNull; tool_input := JNull;
     steps := JList [JDict [(lit "tool_name", JStr (lit "noop"))]]; trigger := JNull; max_retries := None;
     retry_backoff_seconds := None; webhook_config := JNull; requester_id := []; cron_timezone := JNull;
     report_format := JNull; nested_payload_validated := true |}.
Definition up : option ConnectionAvailability := Some {| available := true; reason := AVAILABLE; epoch := 7 |}.
Definition sid : pystr := lit "aaaaaaaa".
Definition added : list Op :=
  [OpStart true; OpAdd one_shot {| new_id := sid; new_generation := lit "g"; created_now := 0 |} up; OpWritten Saved up].
Definition fired : list Op :=
  [OpTick (11 * SECOND) [] up; OpWritten Saved up; OpBegin 0 up; OpEnter 0 (11 * SECOND); OpWritten Saved up].

Definition no_change : UpdateArgs :=
  {| u_description := None; u_cron := JNull; u_run_at := JNull; u_message := JNull; u_tool_name := None;
     u_tool_input := JNull; u_steps := JNull; u_trigger := JNull; u_channel_id := None; u_max_retries := None;
     u_retry_backoff_seconds := None; u_webhook_config := JNull; u_paused := None; u_cron_timezone := JNull;
     u_report_format := JNull; u_nested_payload_validated := false |}.
Definition run_at_second (n : Z) : UpdateArgs :=
  {| u_description := None; u_cron := JNull; u_run_at := JStr (at_second n); u_message := JNull; u_tool_name := None;
     u_tool_input := JNull; u_steps := JNull; u_trigger := JNull; u_channel_id := None; u_max_retries := None;
     u_retry_backoff_seconds := None; u_webhook_config := JNull; u_paused := None; u_cron_timezone := JNull;
     u_report_format := JNull; u_nested_payload_validated := false |}.

(** The workflow is interrupted, the ticks and a manual run leave it, an operator
    gives it a new time, and it runs again. *)
Definition rearmed : list Op :=
  added ++ fired ++
  [OpBoot (13 * SECOND) false true; OpStart true; OpTick (14 * SECOND) [] up; OpRunNow sid (14 * SECOND) up;
   OpUpdate sid (run_at_second 20) (15 * SECOND) up; OpWritten Saved up;
   OpTick (21 * SECOND) [] up; OpWritten Saved up; OpBegin 0 up; OpEnter 0 (21 * SECOND); OpWritten Saved up].

(** The record of the workflow, and of a nightly check. *)
Definition nightly_check : AddArgs :=
  {| description := lit "disk"; action := lit "check"; channel_id := lit "c"; cron := JStr (lit "30 0 * * *");
     run_at := JNull; message := JNull; tool_name := JStr (lit "run_command"); tool_input := JNull; steps := JNull;
     trigger := JNull; max_retries := Some 2; retry_backoff_seconds := None; webhook_config := JNull;
     requester_id := []; cron_timezone := JStr (lit "Europe/Paris"); report_format := JNull;
     nested_payload_validated := true |}.
Definition record_of (a : AddArgs) : Schedule :=
  match new_schedule a {| new_id := sid; new_generation := lit "g"; created_now := 0 |} with Ok s => s | Err _ => [] end.

(** The world after a run, and its events. *)
Definition world_after (ops : list Op) : World := default (boot None 0 true) (fst <$> run_ops (boot None 0 true) ops).
Definition events_of (ops : list Op) : list Event := default [] (snd <$> run_ops (boot None 0 true) ops).

End ScheduleRuns.
