(* ===== verification/ScheduleTheory.v ===== *)
(** * Fields of a schedule, and what changing one keeps

    [keeps s s'] is the frame of the operations on a record: the fields that decide
    whether and how a run of it may start are the same in both.  [blocked] is what
    keeps an interrupted one-time record from being started again. *)

From S2P Require Import Prelude PyStr PyLib Cron Schedule ScheduleCrud Scheduler.
Open Scope string_scope.
Open Scope list_scope.
Open Scope Z_scope.
Local Open Scope odin_scope.

(** ** Fields *)

Definition same_field (k k' : string) : bool := bool_decide (lit k' = lit k).

Lemma field_put s k v k' : dict_get (put s k v) (lit k') = if same_field k k' then Some v else dict_get s (lit k').
Proof. unfold put, same_field. by rewrite dict_get_set. Qed.

Lemma field_pop s k k' : dict_get (pop s k) (lit k') = if same_field k k' then None else dict_get s (lit k').
Proof. unfold pop, same_field. by rewrite dict_get_del. Qed.

Lemma get_put_field s k v k' : get (put s k v) k' = if same_field k k' then v else get s k'.
Proof. unfold get. rewrite field_put. by destruct (same_field k k'). Qed.

Lemma get_pop_field s k k' : get (pop s k) k' = if same_field k k' then JNull else get s k'.
Proof. unfold get. rewrite field_pop. by destruct (same_field k k'). Qed.

Lemma is_set_put s k v k' : is_set (put s k v) k' = if same_field k k' then truthy v else is_set s k'.
Proof. unfold is_set. rewrite get_put_field. by destruct (same_field k k'). Qed.

Lemma is_set_pop s k k' : is_set (pop s k) k' = if same_field k k' then false else is_set s k'.
Proof. unfold is_set. rewrite get_pop_field. by destruct (same_field k k'). Qed.

(** Reads of a changed record. *)
Ltac fields := repeat first
  [ rewrite is_set_put | rewrite is_set_pop | rewrite get_put_field | rewrite get_pop_field
  | rewrite field_put | rewrite field_pop
  | match goal with
    | |- context [same_field ?a ?b] =>
        let r := eval vm_compute in (same_field a b) in change (same_field a b) with r; cbv iota
    end ].

(** ** The frame *)

Definition ADMISSION_FIELDS : list string :=
  ["id"; "one_time"; "action"; "trigger"; "run_started_at"; "paused"; "inert_reason"].

Definition keeps (s s' : Schedule) : Prop :=
  Forall (λ k, dict_get s' (lit k) = dict_get s (lit k)) ADMISSION_FIELDS.

Definition framed (k : string) : bool := negb (existsb (same_field k) ADMISSION_FIELDS).

#[export] Instance keeps_preorder : PreOrder keeps.
Proof.
  split.
  - intros s. by apply Forall_forall.
  - intros s s' s'' Ha Hb. unfold keeps in *. rewrite Forall_forall in *. intros k Hk. rewrite Hb, Ha; done.
Qed.

Lemma keeps_put s k v : framed k = true → keeps s (put s k v).
Proof.
  intros Hk. apply Forall_forall. intros k' Hin. rewrite field_put.
  apply negb_true_iff in Hk. by rewrite (existsb_false _ _ _ Hk Hin).
Qed.

Lemma keeps_pop s k : framed k = true → keeps s (pop s k).
Proof.
  intros Hk. apply Forall_forall. intros k' Hin. rewrite field_pop.
  apply negb_true_iff in Hk. by rewrite (existsb_false _ _ _ Hk Hin).
Qed.

Lemma keeps_put_snapshot s k v : framed k = true → keeps s (put_snapshot s k v).
Proof. destruct v; [apply keeps_put|apply keeps_pop]. Qed.

Lemma keeps_put_supplied s k v : framed k = true → keeps s (put_supplied s k v).
Proof. unfold put_supplied. destruct (supplied v); [apply keeps_put|done]. Qed.

Lemma keeps_field s s' k : keeps s s' → k ∈ ADMISSION_FIELDS → dict_get s' (lit k) = dict_get s (lit k).
Proof. intros Hk. unfold keeps in Hk. rewrite Forall_forall in Hk. apply Hk. Qed.

Lemma keeps_get s s' k : keeps s s' → k ∈ ADMISSION_FIELDS → get s' k = get s k.
Proof. intros Hk Hin. unfold get. by rewrite (keeps_field _ _ _ Hk Hin). Qed.

Ltac admission_field := repeat first [apply list_elem_of_here | apply list_elem_of_further].

Lemma keeps_is_set s s' k : keeps s s' → k ∈ ADMISSION_FIELDS → is_set s' k = is_set s k.
Proof. intros Hk Hin. unfold is_set. by rewrite (keeps_get _ _ _ Hk Hin). Qed.

Lemma keeps_id s s' : keeps s s' → id_of s' = id_of s.
Proof. intros Hk. unfold id_of. by rewrite (keeps_get _ _ "id" Hk ltac:(admission_field)). Qed.

Lemma keeps_tracks s s' : keeps s s' → tracks_run_start s' = tracks_run_start s.
Proof.
  intros Hk. unfold tracks_run_start, action_is.
  rewrite (keeps_is_set _ _ "one_time" Hk ltac:(admission_field)).
  by rewrite (keeps_get _ _ "action" Hk ltac:(admission_field)).
Qed.

Lemma keeps_inert s s' : keeps s s' → inert s' = inert s.
Proof.
  intros Hk. unfold inert. rewrite (keeps_is_set _ _ "paused" Hk ltac:(admission_field)).
  by rewrite (keeps_is_set _ _ "inert_reason" Hk ltac:(admission_field)).
Qed.

#[export] Hint Resolve keeps_put keeps_pop keeps_put_snapshot keeps_put_supplied : odin.
#[export] Hint Extern 1 (framed _ = true) => reflexivity : odin.
#[export] Hint Extern 2 (keeps ?s ?s) => reflexivity : odin.

(** Chains of changes. *)
Ltac keeps_chain :=
  repeat match goal with
  | |- keeps ?s ?s => reflexivity
  | |- keeps _ (put ?s' _ _) => etransitivity; [|apply keeps_put; reflexivity]
  | |- keeps _ (pop ?s' _) => etransitivity; [|apply keeps_pop; reflexivity]
  | |- keeps _ (put_snapshot ?s' _ _) => etransitivity; [|apply keeps_put_snapshot; reflexivity]
  | |- keeps _ (put_supplied ?s' _ _) => etransitivity; [|apply keeps_put_supplied; reflexivity]
  | |- keeps _ (if ?b then _ else _) => destruct b
  end.

(** ** Records *)

(** A record with a trigger does not run once. *)
Definition record_ok (s : Schedule) : Prop := is_set s "trigger" = true → is_set s "one_time" = false.

(** Neither a tick, nor a trigger, nor a manual run starts the record while it runs
    once and keeps track of its start. *)
Definition blocked (s : Schedule) : Prop :=
  tracks_run_start s = true → is_set s "run_started_at" = true ∨ inert s = true.

Lemma keeps_record_ok s s' : keeps s s' → record_ok s → record_ok s'.
Proof.
  intros Hk. unfold record_ok. rewrite (keeps_is_set _ _ "trigger" Hk ltac:(admission_field)).
  by rewrite (keeps_is_set _ _ "one_time" Hk ltac:(admission_field)).
Qed.

Lemma keeps_blocked s s' : keeps s s' → blocked s → blocked s'.
Proof.
  intros Hk. unfold blocked. rewrite (keeps_tracks _ _ Hk), (keeps_inert _ _ Hk).
  by rewrite (keeps_is_set _ _ "run_started_at" Hk ltac:(admission_field)).
Qed.

Lemma tracks_one_time s : tracks_run_start s = true → is_set s "one_time" = true.
Proof. unfold tracks_run_start. by destruct (is_set s "one_time"). Qed.

Lemma inert_blocked s : inert s = true → blocked s.
Proof. by right. Qed.

(** Like [keeps] without the markers of a pause: what a quarantine keeps. *)
Definition keeps_identity (s s' : Schedule) : Prop :=
  id_of s' = id_of s ∧ (record_ok s → record_ok s').

#[export] Instance keeps_identity_preorder : PreOrder keeps_identity.
Proof. split; [by intros s; split|]. intros s s' s'' [H1 H2] [H3 H4]. split; [congruence|auto]. Qed.

Lemma keeps_keeps_identity s s' : keeps s s' → keeps_identity s s'.
Proof. intros Hk. split; [by apply keeps_id|by apply keeps_record_ok]. Qed.

Lemma quarantine_inert s reason : nonempty reason = true → inert (quarantine_schedule s reason) = true.
Proof. intros Hr. unfold inert, quarantine_schedule. fields. by destruct reason. Qed.

Lemma quarantine_identity s reason : keeps_identity s (quarantine_schedule s reason).
Proof. unfold keeps_identity, id_of, record_ok, quarantine_schedule. by fields. Qed.

Section records.
Context `{CronTab} `{IsoTime} `{PyText}.

Lemma advance_keeps now s : keeps s (advance_stale_cron now s).
Proof. unfold advance_stale_cron. repeat case_match; keeps_chain. Qed.

Lemma resolve_identity s : keeps_identity s (resolve_interrupted_run s).1.
Proof.
  assert (keeps_identity s (pop s "run_started_at")) as Hp.
  { unfold keeps_identity, id_of, record_ok. by fields. }
  unfold resolve_interrupted_run. destruct (_ || _); cbn [fst]; [done|].
  etransitivity; [exact Hp|apply quarantine_identity].
Qed.

Lemma resolve_inert s s' : resolve_interrupted_run s = (s', true) → inert s' = true ∧ is_set s' "inert_reason" = true.
Proof.
  unfold resolve_interrupted_run. destruct (_ || _); [done|]. intros [= <-].
  pose proof (quarantine_inert (pop s "run_started_at") (interrupted_reason (get s "run_started_at")) eq_refl) as Hi.
  split; [done|]. unfold inert in Hi. by bool_prop.
Qed.

(** A resolved record does not wait for its start any more. *)
Lemma resolve_blocked s : blocked s → tracks_run_start s = true → inert (resolve_interrupted_run s).1 = true.
Proof.
  intros Hb Ht. specialize (Hb Ht). unfold resolve_interrupted_run.
  assert (tracks_run_start (pop s "run_started_at") = true) as ->.
  { unfold tracks_run_start, action_is in *. by fields. }
  destruct (truthy (get s "run_started_at")) eqn:Hs; cbn [negb orb fst].
  - by apply quarantine_inert.
  - destruct Hb as [Hb|Hb]; [unfold is_set in Hb; congruence|]. unfold inert in *. by fields.
Qed.

Lemma resolve_tracks s : tracks_run_start (resolve_interrupted_run s).1 = tracks_run_start s.
Proof.
  unfold resolve_interrupted_run. destruct (_ || _); cbn [fst]; unfold tracks_run_start, action_is, quarantine_schedule; by fields.
Qed.

Lemma resolve_keeps_blocked s : blocked s → blocked (resolve_interrupted_run s).1.
Proof. intros Hb Ht. right. apply resolve_blocked; [done|]. by rewrite resolve_tracks in Ht. Qed.

Lemma degrade_spec s : let s' := degrade_removed_trigger_source s in
  keeps_identity s s' ∧ (blocked s → blocked s').
Proof.
  cbv zeta. unfold degrade_removed_trigger_source.
  destruct (get s "trigger"); try (split; [reflexivity|done]). cbv zeta. destruct (_ || _); [|by split].
  split; [unfold keeps_identity, id_of, record_ok; by fields|]. intros _. apply inert_blocked. unfold inert. by fields.
Qed.

End records.

(** ** Updates *)

(** What an update without new timing does to the fields of the frame: only a pause
    may change, and an inert record stays inert. *)
Definition still (s s' : Schedule) : Prop :=
  id_of s' = id_of s ∧ is_set s' "trigger" = is_set s "trigger" ∧ is_set s' "one_time" = is_set s "one_time"
  ∧ tracks_run_start s' = tracks_run_start s ∧ is_set s' "run_started_at" = is_set s "run_started_at"
  ∧ (inert s = true → inert s' = true).

#[export] Instance still_preorder : PreOrder still.
Proof.
  split; [by intros s|]. intros s s' s'' (H1 & H2 & H3 & H4 & H5 & H6) (J1 & J2 & J3 & J4 & J5 & J6).
  unfold still. rewrite J1, J2, J3, J4, J5. auto 10.
Qed.

Lemma keeps_still s s' : keeps s s' → still s s'.
Proof.
  intros Hk. unfold still. rewrite (keeps_id _ _ Hk), (keeps_tracks _ _ Hk), (keeps_inert _ _ Hk).
  rewrite (keeps_is_set _ _ "trigger" Hk ltac:(admission_field)), (keeps_is_set _ _ "one_time" Hk ltac:(admission_field)).
  by rewrite (keeps_is_set _ _ "run_started_at" Hk ltac:(admission_field)).
Qed.

Lemma still_blocked s s' : still s s' → blocked s → blocked s'.
Proof. intros (_ & _ & _ & Ht & Hs & Hi) Hb. unfold blocked. rewrite Ht, Hs. intros Hx. destruct (Hb Hx); auto. Qed.

Lemma still_record_ok s s' : still s s' → record_ok s → record_ok s'.
Proof. intros (_ & Ht & Ho & _) Hr. unfold record_ok. by rewrite Ht, Ho. Qed.

Lemma quarantine_still s reason : nonempty reason = true → still s (quarantine_schedule s reason).
Proof.
  intros Hr. unfold still. rewrite quarantine_inert by done.
  unfold quarantine_schedule, id_of, tracks_run_start, action_is. by fields.
Qed.

Section updates.
Context `{CronTab} `{IsoTime} `{PyText} `{SchedulePolicy}.

Lemma update_text_still u act s s' : new_timing u = false → update_text u act s = Ok s' → still s s'.
Proof.
  intros Hn. unfold update_text. set (s0 := if _ && _ then put s _ _ else s).
  assert (keeps s s0) as Hk0 by (unfold s0; keeps_chain). cbv zeta.
  destruct (if _ && _ then _ else Ok tt) as [[]|]; cbn [result_bind]; [|done].
  set (s1 := put_supplied (put_supplied (put_supplied s0 _ _) _ _) _ _).
  assert (keeps s s1) as Hk by (unfold s1; etransitivity; [exact Hk0|keeps_chain]).
  destruct (u_paused u) as [paused|]; [|intros [= <-]; by apply keeps_still].
  rewrite Hn, orb_false_r. destruct (paused || negb (is_set s1 "inert_reason")) eqn:Hg; [|done]. intros [= <-].
  etransitivity; [by apply keeps_still|]. unfold still, id_of, tracks_run_start, action_is, inert. fields.
  repeat split. intros Hi. bool_prop. destruct paused; [by fields|]. cbn in Hg. bool_prop. congruence.
Qed.

Lemma update_text_id u act s s' : update_text u act s = Ok s' →
  keeps_identity s s' ∧ is_set s' "trigger" = is_set s "trigger".
Proof.
  unfold update_text. set (s0 := if _ && _ then put s _ _ else s).
  assert (keeps s s0) as Hk0 by (unfold s0; keeps_chain). cbv zeta.
  destruct (if _ && _ then _ else Ok tt) as [[]|]; cbn [result_bind]; [|done].
  set (s1 := put_supplied (put_supplied (put_supplied s0 _ _) _ _) _ _).
  assert (keeps s s1) as Hk by (unfold s1; etransitivity; [exact Hk0|keeps_chain]).
  assert (keeps_identity s s1 ∧ is_set s1 "trigger" = is_set s "trigger") as [Hi Ht].
  { split; [by apply keeps_keeps_identity|]. apply keeps_still in Hk. apply Hk. }
  destruct (u_paused u) as [paused|]; [|by intros [= <-]].
  destruct (paused || negb (is_set s1 "inert_reason") || new_timing u); [|done]. intros [= <-].
  split; [etransitivity; [exact Hi|]|]; unfold keeps_identity, id_of, record_ok; by fields.
Qed.

Lemma update_payload_keeps u act s s' : update_payload u act s = Ok s' → keeps s s'.
Proof.
  unfold update_payload.
  destruct (match u_tool_name u with Some t => _ | None => Ok tt end) as [[]|]; cbn [result_bind]; [|done].
  set (s1 := put_supplied (put_supplied s _ _) _ _).
  assert (keeps s s1) as H1' by (unfold s1; keeps_chain).
  destruct (if supplied (u_report_format u) then _ else Ok s1) as [s2|] eqn:H2'; cbn [result_bind]; [|done].
  assert (keeps s s2) as Hs2.
  { destruct (supplied (u_report_format u)); [|by injection H2' as <-].
    destruct (validate_report_format _ _) as [[]|]; cbn [result_bind] in H2'; [|done]. injection H2' as <-.
    etransitivity; [exact H1'|keeps_chain]. }
  destruct (supplied (u_webhook_config u)).
  - destruct (validate_webhook_config _) as [[]|]; cbn [result_bind]; [|done]. intros [= <-].
    etransitivity; [exact Hs2|keeps_chain].
  - intros [= <-]. etransitivity; [exact Hs2|keeps_chain].
Qed.

Lemma update_retries_keeps u s s' : update_retries u s = Ok s' → keeps s s'.
Proof.
  unfold update_retries. destruct (check_retries _ _) as [[]|]; cbn [result_bind]; [|done].
  intros [= <-]. keeps_chain.
Qed.

Lemma clear_timing_spec s : id_of (clear_timing s) = id_of s ∧ is_set (clear_timing s) "trigger" = false.
Proof. unfold clear_timing, id_of. cbn [foldl]. by fields. Qed.

Lemma replace_timing_spec u now s s' : replace_timing u now s = Ok s' → id_of s' = id_of s ∧ record_ok s'.
Proof.
  unfold replace_timing. destruct (clear_timing_spec s) as [<- Ht]. set (c := clear_timing s) in *. clearbody c. cbv zeta.
  destruct (supplied (u_trigger u)).
  - destruct (validate_trigger _) as [[]|]; cbn [result_bind]; [|done]. intros [= <-].
    unfold id_of, record_ok. by fields.
  - destruct (supplied (u_cron u)).
    + destruct (check_cron _) as [[]|]; cbn [result_bind]; [|done].
      destruct (next_cron_run _ _ _) as [t|]; cbn [result_bind]; [|done]. intros [= <-].
      unfold id_of, record_ok. by fields.
    + destruct (normalized_run_at _) as [t|]; cbn [result_bind]; [|done]. intros [= <-].
      unfold id_of, record_ok. fields. by rewrite Ht.
Qed.

Lemma resume_one_time_still now s : still s (resume_one_time now s).
Proof. unfold resume_one_time. repeat case_match; try reflexivity; by apply quarantine_still. Qed.

Lemma update_timing_spec u now original s s' : update_timing u now original s = Ok s' →
  id_of s' = id_of s ∧ (record_ok s → record_ok s') ∧ (new_timing u = false → still s s').
Proof.
  unfold update_timing. destruct (reject_multiple_timing_modes _ _ _) as [[]|]; cbn [result_bind]; [|done].
  destruct (reject_naive_run_at _) as [[]|]; cbn [result_bind]; [|done]. cbv zeta.
  set (s0 := if _ && _ && _ then put s _ _ else s).
  assert (id_of s0 = id_of s ∧ (record_ok s → record_ok s0) ∧ (new_timing u = false → s0 = s)) as (Hi & Hr & Hs).
  { unfold s0. destruct (new_timing u); cbn [andb]; [|done]. destruct (_ && _); [|done].
    unfold id_of, record_ok. by fields. }
  clearbody s0. set (r := resumed original s0).
  destruct (new_timing u).
  - destruct (replace_timing u now s0) as [s1|] eqn:Hrep; cbn [result_bind]; [|done]. intros [= <-].
    apply replace_timing_spec in Hrep as [Hid Hok]. set (s2 := if _ && _ then _ else s1).
    assert (keeps s1 s2) as Hk by (unfold s2; keeps_chain).
    rewrite (keeps_id _ _ Hk), Hid, Hi. split_and!; [done| |done]. intros _. by eapply keeps_record_ok.
  - pose proof (Hs eq_refl) as ->. clearbody r; clear Hs Hi Hr.
    match goal with |- result_bind ?m _ = _ → _ => destruct m as [s1|] eqn:Hm end; cbn [result_bind]; [|done].
    assert (still s s1) as Hst.
    { repeat match type of Hm with
      | (if ?b then _ else _) = _ => destruct b
      | result_bind ?m _ = _ => destruct m; cbn [result_bind] in Hm; [|discriminate Hm]
      end; injection Hm as <-; first [reflexivity|apply resume_one_time_still|apply keeps_still; keeps_chain]. }
    intros [= <-]. set (s2 := if _ && _ then _ else s1).
    assert (still s s2) as H2'.
    { etransitivity; [exact Hst|]. apply keeps_still. unfold s2; keeps_chain. }
    split_and!; [apply H2'|by apply still_record_ok|done].
Qed.

Lemma bump_keeps original s k s' : framed k = true → bump original s k = Ok s' → keeps s s'.
Proof. intros Hk. unfold bump. destruct (plus_one _); [|done]. intros [= <-]. by apply keeps_put. Qed.

Lemma updated_spec u now s t : updated_schedule u now s = Ok t →
  id_of t = id_of s ∧ (record_ok s → record_ok t) ∧ (new_timing u = false → blocked s → blocked t).
Proof.
  unfold updated_schedule. destruct (dict_get s (lit "action")) as [act|]; [|done].
  destruct (update_text u act s) as [s1|] eqn:H1'; cbn [result_bind]; [|done].
  destruct (update_payload u act s1) as [s2|] eqn:H2'; cbn [result_bind]; [|done].
  destruct (update_retries u s2) as [s3|] eqn:H3'; cbn [result_bind]; [|done].
  destruct (update_timing u now s s3) as [s4|] eqn:H4'; cbn [result_bind]; [|done].
  destruct (bump s s4 "_revision") as [s5|] eqn:H5'; cbn [result_bind]; [|done].
  intros Hend.
  assert (keeps s4 t) as Hlast.
  { apply bump_keeps in H5'; [|done]. etransitivity; [exact H5'|].
    destruct (changes_execution s s5); [by apply bump_keeps in Hend|by injection Hend as ->]. }
  apply update_payload_keeps in H2'. apply update_retries_keeps in H3'.
  assert (keeps s1 s3) as Hmid by (by etransitivity).
  apply update_timing_spec in H4' as (Hid & Hok & Hst).
  pose proof (update_text_id _ _ _ _ H1') as [[Hid1 Hok1] _].
  split_and!.
  - by rewrite (keeps_id _ _ Hlast), Hid, (keeps_id _ _ Hmid).
  - intros Hr. eapply keeps_record_ok; [exact Hlast|]. apply Hok. eapply keeps_record_ok; [exact Hmid|auto].
  - intros Hn. apply still_blocked. apply update_text_still in H1'; [|done].
    etransitivity; [exact H1'|]. etransitivity; [by apply keeps_still|]. etransitivity; [by apply Hst|].
    by apply keeps_still.
Qed.

Lemma reset_record_keeps s s' : reset_record s = Ok s' → keeps s s'.
Proof.
  unfold reset_record. set (s1 := pop _ "retry_at"). assert (keeps s s1) as H1' by (unfold s1; keeps_chain).
  destruct (bump s1 s1 "_revision") as [s2|] eqn:H2'; cbn [result_bind]; [|done]. intros H3'.
  apply bump_keeps in H2'; [|done]. apply bump_keeps in H3'; [|done]. by do 2 (etransitivity; [done|]).
Qed.

(** ** New schedules *)

Lemma new_schedule_spec a e s : new_schedule a e = Ok s → id_of s = new_id e ∧ record_ok s.
Proof.
  unfold new_schedule. destruct (check_args a) as [[]|]; cbn [result_bind]; [|done].
  destruct (with_timing _ _ _) as [s1|] eqn:Ht; cbn [result_bind]; [|done].
  destruct (check_retries _ _) as [[]|]; cbn [result_bind]; [|done]. intros [= <-].
  assert (keeps s1 (with_retries a (with_payload a s1))) as Hk.
  { unfold with_retries. keeps_chain. unfold with_payload. cbv zeta. keeps_chain. }
  assert (id_of s1 = new_id e ∧ record_ok s1) as [Hi Hr].
  { assert (id_of (base_record a e) = new_id e ∧ is_set (base_record a e) "trigger" = false) as [Hi Ht0] by done.
    set (b := base_record a e) in *. clearbody b. unfold with_timing in Ht. destruct (negb (is_none (trigger a))).
    - injection Ht as <-. unfold id_of, record_ok in *. by fields.
    - destruct (truthy (cron a)).
      + destruct (check_cron _) as [[]|]; cbn [result_bind] in Ht; [|done].
        destruct (next_cron_run _ _ _) as [t|]; cbn [result_bind] in Ht; [|done]. injection Ht as <-.
        destruct (truthy (cron_timezone a)); unfold id_of, record_ok in *; by fields.
      + destruct (normalized_run_at _) as [t|]; cbn [result_bind] in Ht; [|done]. injection Ht as <-.
        unfold id_of, record_ok in *. fields. split; [done|]. by rewrite Ht0. }
  rewrite (keeps_id _ _ Hk). split; [done|]. by eapply keeps_record_ok.
Qed.

End updates.
