(* ===== verification/SchedulerTheory.v ===== *)
(** * The runs of the scheduler

    [structure] is the invariant of the executions: one in flight per schedule, one
    started by the ticks per lane, and a holder of the lock that exists.
    [scheduler_runs_each_schedule_once_at_a_time] states it of every run of
    operations from a boot. *)

From S2P Require Import Prelude PyStr PyLib Cron Schedule ScheduleCrud Scheduler ScheduleTheory ScheduleRuns.
From stdpp Require Import gmap.
Open Scope string_scope.
Open Scope list_scope.
Open Scope Z_scope.
Local Open Scope odin_scope.

(** ** The invariant *)

Definition fires (x : Exec) (lane : Lane) : Prop := x_owner x = Fired lane.

Definition fresh_key (w : World) (r : Reserved) : Prop := (r.1.2 < next_key w)%nat ∧ execs w !! r.1.2 = None.

Definition holder_ok (w : World) (k : Continuation) : Prop :=
  match k with
  | AfterRunNow r => fresh_key w r
  | AfterTick to_fire =>
      NoDup ((λ r, r.1.1.2) <$> to_fire) ∧ Forall (λ r, fresh_key w r.1) to_fire ∧ NoDup to_fire.*2
      ∧ Forall (λ lane, ∀ k x, execs w !! k = Some x → ¬ fires x lane) to_fire.*2
  | AfterTriggers (r :: _) => fresh_key w r
  | AfterRestore k => ∃ x why, execs w !! k = Some x ∧ x_phase x = Restoring why
  | AfterAdmit k _ => ∃ x, execs w !! k = Some x ∧ x_phase x = Admitting
  | AfterSettle k => ∃ x i, execs w !! k = Some x ∧ x_phase x = Settling i
  | _ => True
  end.

Record runs_ok (w : World) : Prop := {
  ro_key : ∀ k x, execs w !! k = Some x → x_key x = k ∧ (k < next_key w)%nat;
  ro_flight : ∀ k x, execs w !! k = Some x → in_flight_phase (x_phase x) = true → x_sid x ∈ in_flight w;
  ro_once : ∀ k k' x x', execs w !! k = Some x → execs w !! k' = Some x' →
    in_flight_phase (x_phase x) = true → in_flight_phase (x_phase x') = true → x_sid x = x_sid x' → k = k';
  ro_lane : ∀ k k' x x' lane, execs w !! k = Some x → execs w !! k' = Some x' → fires x lane → fires x' lane → k = k';
  ro_queued : ∀ k x b, execs w !! k = Some x → x_phase x = Queued → x_owner x ≠ Manual b
}.

Definition structure (w : World) : Prop := runs_ok w ∧ ∀ h, lock w = Some h → holder_ok w (h_then h).

Lemma elem_discard sid l i : i ∈ discard sid l ↔ i ∈ l ∧ i ≠ sid.
Proof.
  unfold discard. rewrite !list_elem_of_In, List.filter_In. case_bool_decide; naive_solver.
Qed.

Lemma elem_busy w lane : lane ∈ busy_lanes w ↔ ∃ k x, execs w !! k = Some x ∧ fires x lane.
Proof.
  unfold busy_lanes, all_execs, fires. rewrite list_elem_of_omap. split.
  - intros (x & ((k & x') & -> & Hin)%list_elem_of_fmap & Hl). apply elem_of_map_to_list in Hin. exists k, x'.
    cbn in Hl. destruct (x_owner x'); naive_solver.
  - intros (k & x & Hx & Hl). exists x. split; [|by rewrite Hl]. apply list_elem_of_fmap. exists (k, x).
    split; [done|]. by apply elem_of_map_to_list.
Qed.

(** ** Changes of one execution *)

(** [x'] takes the place of [x] in its slot. *)
Record succeeds (x x' : Exec) : Prop := {
  su_key : x_key x' = x_key x;
  su_sid : x_sid x' = x_sid x;
  su_owner : x_owner x' = x_owner x
}.

Lemma put_lookup w x k : execs (put_exec w x) !! k = if decide (k = x_key x) then Some x else execs w !! k.
Proof. cbn. case_decide; [subst; by rewrite lookup_insert_eq|by rewrite lookup_insert_ne]. Qed.

Lemma drop_lookup w k k' : execs (drop_exec w k) !! k' = if decide (k' = k) then None else execs w !! k'.
Proof. cbn. case_decide; [subst; by rewrite lookup_delete_eq|by rewrite lookup_delete_ne]. Qed.

(** The holder does not see a change of another execution. *)
Lemma holder_ok_put w k x x' : holder_ok w k → execs w !! x_key x = Some x → x_key x' = x_key x →
  holder_exec k ≠ Some (x_key x) → (∀ lane, fires x' lane → fires x lane) → holder_ok (put_exec w x') k.
Proof.
  intros Hk Hx Hkey Hh Hl.
  assert (∀ r, fresh_key w r → fresh_key (put_exec w x') r) as Hfresh.
  { intros r [Hlt Hn]. split; [done|]. rewrite put_lookup. case_decide; [congruence|done]. }
  destruct k as [| | | | |r|to_fire|[|r l]|k|k t|k]; cbn [holder_ok holder_exec] in *; auto.
  - destruct Hk as (H1 & H2 & H3 & H4). split_and!; [done| |done|].
    + eapply Forall_impl; [exact H2|]. auto.
    + eapply Forall_impl; [exact H4|]. intros lane Hno k y. rewrite put_lookup. case_decide as Hd; [|apply Hno].
      intros [= <-] Hf. by eapply Hno, Hl.
  - destruct Hk as (y & why & Hy & Hp). exists y, why. rewrite put_lookup. case_decide; [exfalso; congruence|by split].
  - destruct Hk as (y & Hy & Hp). exists y. rewrite put_lookup. case_decide; [exfalso; congruence|by split].
  - destruct Hk as (y & i & Hy & Hp). exists y, i. rewrite put_lookup. case_decide; [exfalso; congruence|by split].
Qed.

Lemma holder_ok_drop w k x : holder_ok w k → holder_exec k ≠ Some x → holder_ok (drop_exec w x) k.
Proof.
  intros Hk Hh.
  assert (∀ r, fresh_key w r → fresh_key (drop_exec w x) r) as Hfresh.
  { intros r [Hlt Hn]. split; [done|]. rewrite drop_lookup. by case_decide. }
  destruct k as [| | | | |r|to_fire|[|r l]|k|k t|k]; cbn [holder_ok holder_exec] in *; auto.
  - destruct Hk as (H1 & H2 & H3 & H4). split_and!; [done| |done|].
    + eapply Forall_impl; [exact H2|]. auto.
    + eapply Forall_impl; [exact H4|]. intros lane Hno k y. rewrite drop_lookup. case_decide; [done|apply Hno].
  - destruct Hk as (y & why & Hy & Hp). exists y, why. rewrite drop_lookup. case_decide; [exfalso; congruence|by split].
  - destruct Hk as (y & Hy & Hp). exists y. rewrite drop_lookup. case_decide; [exfalso; congruence|by split].
  - destruct Hk as (y & i & Hy & Hp). exists y, i. rewrite drop_lookup. case_decide; [exfalso; congruence|by split].
Qed.

(** An execution keeps its flight: it moves to a phase of the same kind. *)
Lemma runs_ok_put w x x' : runs_ok w → execs w !! x_key x = Some x → succeeds x x' →
  in_flight_phase (x_phase x') = in_flight_phase (x_phase x) →
  (x_phase x' = Queued → x_phase x = Queued) → runs_ok (put_exec w x').
Proof.
  intros [Hkey Hfl Honce Hlane Hq] Hx [Hk Hs Ho] Hp Hqq.
  assert (∀ k y, execs (put_exec w x') !! k = Some y → ∃ z, execs w !! k = Some z ∧ x_key y = x_key z ∧ x_sid y = x_sid z
            ∧ x_owner y = x_owner z ∧ in_flight_phase (x_phase y) = in_flight_phase (x_phase z)
            ∧ (x_phase y = Queued → x_phase z = Queued)) as Hall.
  { intros k y. rewrite put_lookup. case_decide as Hd; [|eauto 10]. intros [= <-]. exists x. subst k. rewrite Hk. auto 10. }
  split.
  - intros k y (z & Hz & -> & _)%Hall. by apply Hkey.
  - intros k y (z & Hz & _ & -> & _ & -> & _)%Hall. by eapply Hfl.
  - intros k k' y y' (z & Hz & _ & -> & _ & -> & _)%Hall (z' & Hz' & _ & -> & _ & -> & _)%Hall. by apply Honce.
  - unfold fires. intros k k' y y' lane (z & Hz & _ & _ & -> & _)%Hall (z' & Hz' & _ & _ & -> & _)%Hall. by apply Hlane.
  - intros k y b (z & Hz & _ & _ & -> & _ & Hqz)%Hall HQ. eapply Hq; eauto.
Qed.

Lemma runs_ok_drop w k : runs_ok w → runs_ok (drop_exec w k).
Proof.
  intros [Hkey Hfl Honce Hlane Hq].
  assert (∀ k' y, execs (drop_exec w k) !! k' = Some y → execs w !! k' = Some y) as Hall.
  { intros k' y. rewrite drop_lookup. by case_decide. }
  split; intros; eauto.
Qed.

(** A world that differs in nothing the invariant of the executions reads. *)
Lemma runs_ok_frame w w' : execs w' = execs w → in_flight w' = in_flight w → (next_key w <= next_key w')%nat →
  runs_ok w → runs_ok w'.
Proof.
  intros He Hf Hn [Hkey Hfl Honce Hlane Hq]. split; rewrite He, ?Hf; try done.
  intros k x Hx. destruct (Hkey k x Hx). split; [done|lia].
Qed.

Lemma holder_ok_frame w w' k : execs w' = execs w → next_key w' = next_key w → holder_ok w k → holder_ok w' k.
Proof.
  intros He Hn. unfold holder_ok, fresh_key. by rewrite He, Hn.
Qed.

Lemma structure_unlocked w : runs_ok w → lock w = None → structure w.
Proof. intros Hr Hl. split; [done|]. intros h. by rewrite Hl. Qed.

Lemma structure_put w x x' : structure w → execs w !! x_key x = Some x → succeeds x x' →
  in_flight_phase (x_phase x') = in_flight_phase (x_phase x) → (x_phase x' = Queued → x_phase x = Queued) →
  (∀ h, lock w = Some h → holder_exec (h_then h) ≠ Some (x_key x)) → structure (put_exec w x').
Proof.
  intros [Hr Hl] Hx Hs Hp Hq Hh. split; [by eapply runs_ok_put|]. intros h Hlock.
  eapply holder_ok_put; eauto; [apply Hs|]. unfold fires. by rewrite (su_owner _ _ Hs).
Qed.

(** A phase that no holder of the lock is in. *)
Lemma holder_other w k x : structure w → execs w !! k = Some x →
  match x_phase x with Queued | Running _ => True | _ => False end →
  ∀ h, lock w = Some h → holder_exec (h_then h) ≠ Some k.
Proof.
  intros [_ Hl] Hx Hp h Hh Heq. specialize (Hl h Hh).
  destruct (h_then h); cbn [holder_exec holder_ok] in *; try discriminate Heq; injection Heq as ->.
  - destruct Hl as (y & why & Hy & Hpy). simplify_eq. by rewrite Hpy in Hp.
  - destruct Hl as (y & Hy & Hpy). simplify_eq. by rewrite Hpy in Hp.
  - destruct Hl as (y & i & Hy & Hpy). simplify_eq. by rewrite Hpy in Hp.
Qed.

(** ** The end of an execution *)

Lemma finish_structure w x o : structure w → execs w !! x_key x = Some x →
  (∀ h, lock w = Some h → holder_exec (h_then h) ≠ Some (x_key x)) → structure (finish w x o).1.
Proof.
  intros [Hr Hl] Hx Hh. unfold finish.
  set (w1 := if in_flight_phase (x_phase x) then _ else w).
  set (w2 := match x_phase x with Restoring _ => _ | _ => _ end).
  assert (execs w2 = execs w ∧ in_flight w2 = in_flight w1 ∧ next_key w2 = next_key w ∧ lock w2 = lock w) as (He & Hf & Hn & Hlk).
  { unfold w2. assert (∀ k, execs (pop_reservation w1 k) = execs w ∧ in_flight (pop_reservation w1 k) = in_flight w1
        ∧ next_key (pop_reservation w1 k) = next_key w ∧ lock (pop_reservation w1 k) = lock w) as Hpop.
    { intros k. unfold w1. by destruct (in_flight_phase _). }
    destruct (x_phase x) as [|[]| | |]; try exact (Hpop _). destruct o, (x_owner x); try exact (Hpop _);
      unfold w1; by destruct (in_flight_phase _). }
  clearbody w2.
  assert (runs_ok (drop_exec w2 (x_key x))) as Hdrop.
  { destruct Hr as [Hkey Hfl Honce Hlane Hq].
    assert (∀ k' y, execs (drop_exec w2 (x_key x)) !! k' = Some y → k' ≠ x_key x ∧ execs w !! k' = Some y) as Hall.
    { intros k' y. rewrite drop_lookup, He. by case_decide. }
    split; cbn [next_key drop_exec set_execs]; rewrite ?Hn.
    - intros k y [_ Hy]%Hall. by apply Hkey.
    - intros k y [Hne Hy]%Hall Hp. change (in_flight (drop_exec w2 (x_key x))) with (in_flight w2). rewrite Hf. unfold w1.
      destruct (in_flight_phase (x_phase x)) eqn:Hpx; [|by eapply Hfl]. cbn. apply elem_discard.
      split; [by eapply Hfl|]. intros Heq. apply Hne. by eapply Honce.
    - intros k k' y y' [_ Hy]%Hall [_ Hy']%Hall. by apply Honce.
    - intros k k' y y' lane [_ Hy]%Hall [_ Hy']%Hall. by eapply Hlane.
    - intros k y b [_ Hy]%Hall. by eapply Hq. }
  destruct (owner_next x o) as [[x'|] evs] eqn:Hnext; cbn [fst].
  - assert (x_key x' = x_key x ∧ x_phase x' = Queued ∧ (∃ rest n, x_owner x' = Triggered rest n)) as (Hk' & Hp' & rest & n & Ho').
    { unfold owner_next in Hnext. destruct (x_owner x) as [| |[|r rest] n], o; simplify_eq; cbn; eauto 10. }
    split.
    + destruct Hdrop as [Hkey Hfl Honce Hlane Hq].
      assert (∀ k y, execs (put_exec w2 x') !! k = Some y → (k = x_key x ∧ y = x') ∨ execs (drop_exec w2 (x_key x)) !! k = Some y) as Hall.
      { intros k y. rewrite put_lookup, drop_lookup, Hk'. case_decide; [intros [= ->]; auto|auto]. }
      destruct (ro_key _ Hr _ _ Hx) as [_ Hlt].
      split.
      * intros k y [[-> ->]|Hy]%Hall; [|by apply Hkey]. split; [done|]. cbn. by rewrite Hn.
      * intros k y [[-> ->]|Hy]%Hall; [by rewrite Hp'|by eapply Hfl].
      * intros k k' y y' [[-> ->]|Hy]%Hall; [by rewrite Hp'|].
        intros [[-> ->]|Hy']%Hall; [by rewrite Hp'|by apply Honce].
      * unfold fires. intros k k' y y' lane [[-> ->]|Hy]%Hall; [by rewrite Ho'|].
        intros [[-> ->]|Hy']%Hall; [by rewrite Ho'|by eapply Hlane].
      * intros k y b [[-> ->]|Hy]%Hall; [by rewrite Ho'|by eapply Hq].
    + intros h Hlock. cbn in Hlock. rewrite Hlk in Hlock.
      apply (holder_ok_put w2 _ x x'); [by apply (holder_ok_frame w); auto|by rewrite He|done|by apply Hh|].
      intros lane Hf'. unfold fires in Hf'. congruence.
  - split; [exact Hdrop|]. intros h Hlock. cbn in Hlock. rewrite Hlk in Hlock.
    apply holder_ok_drop; [by apply (holder_ok_frame w); auto|by apply Hh].
Qed.

(** ** New executions *)

(** [x'] takes a slot that no execution in flight holds. *)
Lemma runs_ok_insert w w' x' : runs_ok w → next_key w' = next_key w →
  (∀ k, execs w' !! k = if decide (k = x_key x') then Some x' else execs w !! k) → (x_key x' < next_key w)%nat →
  (∀ y, execs w !! x_key x' = Some y → in_flight_phase (x_phase y) = false) →
  (∀ lane k y, fires x' lane → execs w !! k = Some y → fires y lane → k = x_key x') →
  (x_phase x' = Queued → ∀ b, x_owner x' ≠ Manual b) →
  (if in_flight_phase (x_phase x') then x_sid x' ∉ in_flight w ∧ in_flight w' = x_sid x' :: in_flight w
   else in_flight w' = in_flight w) → runs_ok w'.
Proof.
  intros [Hkey Hfl Honce Hlane Hq] Hn He Hlt Hslot Hl Hqueued Hflight.
  assert (∀ k y, execs w' !! k = Some y → (k = x_key x' ∧ y = x') ∨ (k ≠ x_key x' ∧ execs w !! k = Some y)) as Hall.
  { intros k y. rewrite He. case_decide; [intros [= ->]; auto|auto]. }
  assert (∀ sid, sid ∈ in_flight w → sid ∈ in_flight w') as Hmono.
  { intros sid Hin. destruct (in_flight_phase (x_phase x')); [destruct Hflight as [_ ->]; by right|by rewrite Hflight]. }
  split; rewrite ?Hn.
  - intros k y [[-> ->]|[_ Hy]]%Hall; [done|by apply Hkey].
  - intros k y [[-> ->]|[_ Hy]]%Hall Hp; [rewrite Hp in Hflight; destruct Hflight as [_ ->]; by left|].
    apply Hmono. by eapply Hfl.
  - intros k k' y y' [[-> ->]|[_ Hy]]%Hall [[-> ->]|[_ Hy']]%Hall Hp Hp' Hs; [done|..|by eapply Honce].
    + rewrite Hp in Hflight. destruct Hflight as [Hno _]. destruct Hno. rewrite Hs. by eapply Hfl.
    + rewrite Hp' in Hflight. destruct Hflight as [Hno _]. destruct Hno. rewrite <- Hs. by eapply Hfl.
  - intros k k' y y' lane [[-> ->]|[_ Hy]]%Hall [[-> ->]|[_ Hy']]%Hall Hf Hf'; [done|..|by eapply Hlane].
    + symmetry. by eapply Hl.
    + by eapply Hl.
  - intros k y b [[-> ->]|[_ Hy]]%Hall HQ; [by apply Hqueued|by eapply Hq].
Qed.

(** The lookups of [begin_exec] and what it does to [_in_flight]. *)
Lemma begin_exec_spec w x p : let w' := begin_exec w x p in
  next_key w' = next_key w ∧ lock w' = lock w ∧ schedules w' = schedules w ∧ disk w' = disk w ∧
  ∃ ph, execs w' = <[x_key x := with_phase x ph]> (execs w) ∧ ph ≠ Queued ∧
    (if in_flight_phase ph then x_sid x ∉ in_flight w ∧ in_flight w' = x_sid x :: in_flight w
     else in_flight w' = in_flight w) ∧ (ph = Admitting ∨ ∃ why, ph = Restoring why).
Proof.
  cbv zeta. unfold begin_exec, flying. destruct (bool_decide_reflect (x_sid x ∈ in_flight w)) as [Hin|Hno].
  - split_and!; try done. exists (Restoring Overlap). split_and!; [done|done|done|eauto].
  - set (w1 := set_flight w _ _). set (gone := requires_connection _ && _).
    split_and!; [done..|]. exists (if gone then Restoring Disconnected else Admitting).
    destruct gone; split_and!; eauto; done.
Qed.

Lemma structure_begin w x p : structure w → execs w !! x_key x = Some x → x_phase x = Queued →
  structure (begin_exec w x p).
Proof.
  intros Hs Hx Hq. destruct (begin_exec_spec w x p) as (Hn & Hl & _ & _ & ph & He & Hph & Hfl & _).
  pose proof Hs as [Hr Hlock]. split.
  - apply (runs_ok_insert w _ (with_phase x ph)); cbn [x_key with_phase x_owner x_phase]; auto.
    + intros k. rewrite He. case_decide; [subst; by rewrite lookup_insert_eq|by rewrite lookup_insert_ne].
    + by eapply ro_key.
    + intros y Hy. simplify_eq. by rewrite Hq.
    + intros lane k y Hf Hy Hf'. by eapply (ro_lane _ Hr k (x_key x) y x lane).
  - intros h Hh. rewrite Hl in Hh. apply (holder_ok_frame (put_exec w (with_phase x ph))); [by rewrite He|by rewrite Hn|].
    apply (holder_ok_put _ _ x); auto. eapply holder_other; eauto. by rewrite Hq.
Qed.

(** A manual run starts where its section ends. *)
Lemma structure_run_now w r before p : runs_ok w → lock w = None → fresh_key w r →
  structure (begin_exec (put_exec w (new_exec r.1.2 r (Manual before))) (new_exec r.1.2 r (Manual before)) p).
Proof.
  intros Hr Hl [Hlt Hnone]. set (x := new_exec _ _ _).
  destruct (begin_exec_spec (put_exec w x) x p) as (Hn & Hl' & _ & _ & ph & He & Hph & Hfl & _).
  apply structure_unlocked; [|by rewrite Hl'].
  apply (runs_ok_insert w _ (with_phase x ph)); cbn [x_key with_phase x_owner x_phase]; auto.
  - intros k. rewrite He. cbn. case_decide; [subst; by rewrite lookup_insert_eq|by rewrite !lookup_insert_ne].
  - intros y Hy. cbn in Hy. congruence.
  - done.
Qed.

Lemma structure_fired w to_fire : runs_ok w → lock w = None → holder_ok w (AfterTick to_fire) →
  structure (foldl (λ w r, put_exec w (fired_exec r)) w to_fire).
Proof.
  revert w. induction to_fire as [|r l IH]; intros w Hr Hl (Hk & Hf & Hd & Hb); [by apply structure_unlocked|].
  cbn [foldl]. cbn in Hk, Hd. apply NoDup_cons in Hk as [Hk1 Hk], Hd as [Hd1 Hd].
  apply Forall_cons in Hf as [[Hlt Hnone] Hf], Hb as [Hb1 Hb].
  apply IH; [|done|].
  - apply (runs_ok_insert w _ (fired_exec r)); cbn [fired_exec new_exec x_key x_phase x_owner in_flight_phase]; auto.
    + intros k. by rewrite put_lookup.
    + congruence.
    + intros lane k y Hf1 Hy Hf2. exfalso. cbv in Hf1. injection Hf1 as <-. by eapply Hb1.
  - split_and!; [done| |done|].
    + apply Forall_forall. intros r' Hin. rewrite Forall_forall in Hf. destruct (Hf _ Hin) as [Hlt' Hn'].
      split; [done|]. rewrite put_lookup. case_decide as Hd'; [|done]. exfalso. apply Hk1.
      change (r'.1.1.2 = r.1.1.2) in Hd'. change (r.1.1.2 ∈ (λ r : Reserved * Lane, r.1.1.2) <$> l). rewrite <- Hd'. by apply (list_elem_of_fmap_2 (λ r : Reserved * Lane, r.1.1.2)).
    + apply Forall_forall. intros lane Hin k x. rewrite put_lookup. case_decide as Hd'.
      * intros [= <-] Hf'. cbv in Hf'. injection Hf' as <-. by apply Hd1.
      * rewrite Forall_forall in Hb. by apply Hb.
Qed.

Lemma structure_triggered w matched : runs_ok w → lock w = None → holder_ok w (AfterTriggers matched) →
  structure (trigger_exec w matched).
Proof.
  intros Hr Hl Hh. apply structure_unlocked; [|by destruct matched]. destruct matched as [|r rest]; [done|].
  destruct Hh as [Hlt Hnone]. cbn [trigger_exec].
  apply (runs_ok_insert w _ (new_exec r.1.2 r (Triggered rest 0)));
    cbn [new_exec x_key x_phase x_owner in_flight_phase]; auto.
  - intros k. by rewrite put_lookup.
  - congruence.
  - done.
Qed.

(** ** Sections *)

Lemma holder_ok_set_lock w h k : holder_ok (set_lock w h) k ↔ holder_ok w k.
Proof. done. Qed.

Lemma structure_publishing w candidate k : runs_ok w → holder_ok w k → structure (publishing w candidate k).
Proof.
  intros Hr Hk. split; [by eapply runs_ok_frame; [..|exact Hr]|]. intros h [= <-]. exact Hk.
Qed.

Lemma structure_frame w w' : execs w' = execs w → in_flight w' = in_flight w → next_key w' = next_key w →
  lock w' = lock w → structure w → structure w'.
Proof.
  intros He Hf Hn Hl [Hr Hh]. split; [eapply runs_ok_frame; eauto; lia|]. intros h Hlock.
  eapply holder_ok_frame; eauto. apply Hh. congruence.
Qed.

Section steps.
Context `{CronTab} `{IsoTime} `{PyText} `{SchedulePolicy} `{IndentedDump}.

Definition unlocked_structure (w : World) : Prop := runs_ok w ∧ lock w = None.

Lemma unlocked_structure_structure w : unlocked_structure w → structure w.
Proof. intros [? ?]. by apply structure_unlocked. Qed.

Lemma structure_restore w x why : unlocked_structure w → execs w !! x_key x = Some x → x_phase x = Restoring why →
  structure (restore_section w x why).1.
Proof.
  intros [Hr Hl] Hx Hp. unfold restore_section. case_match.
  - apply structure_publishing; [done|]. exists x, why. done.
  - apply finish_structure; [by apply structure_unlocked|done|]. intros h. by rewrite Hl.
Qed.

Lemma structure_phase w x ph : structure w → execs w !! x_key x = Some x →
  in_flight_phase ph = in_flight_phase (x_phase x) → ph ≠ Queued →
  (∀ h, lock w = Some h → holder_exec (h_then h) ≠ Some (x_key x)) → structure (put_exec w (with_phase x ph)).
Proof. intros Hs Hx Hp Hq Hh. by apply (structure_put w x). Qed.

(** The effect may start on a copy that carries its start. *)
Lemma structure_start_effect w x s : structure w → execs w !! x_key x = Some x → x_phase x = Admitting →
  id_of s = id_of (x_schedule x) →
  (∀ h, lock w = Some h → holder_exec (h_then h) ≠ Some (x_key x)) → structure (start_effect w (with_schedule x s)).1.
Proof.
  intros Hs Hx Hp Hid Hh. unfold start_effect. cbv zeta. destruct (_ || _); cbn [fst];
    (apply (structure_put w x); [done|done| |by rewrite Hp|done|done]); by split.
Qed.

Lemma with_schedule_same x : with_schedule x (x_schedule x) = x.
Proof. by destruct x. Qed.

Lemma structure_admit w x now : unlocked_structure w → execs w !! x_key x = Some x → x_phase x = Admitting →
  structure (admit_section w x now).1.
Proof.
  intros [Hr Hl] Hx Hp. pose proof (structure_unlocked w Hr Hl) as Hs.
  assert (∀ h, lock w = Some h → holder_exec (h_then h) ≠ Some (x_key x)) as Hh by (intros h; by rewrite Hl).
  assert (structure (put_exec w (with_phase x (Restoring Refused)))) as Hrefuse.
  { apply structure_phase; try done. by rewrite Hp. }
  unfold admit_section. destruct (find_schedule _ _) as [[i current]|]; [|done].
  destruct (negb (same_identity _ _)); [done|]. destruct (_ && _); [done|]. destruct (tracks_run_start _).
  - apply structure_publishing; [done|]. by exists x.
  - pose proof (structure_start_effect w x (x_schedule x) Hs Hx Hp eq_refl Hh) as Hstart. by rewrite with_schedule_same in Hstart.
Qed.

Lemma structure_settle w x i : unlocked_structure w → execs w !! x_key x = Some x → x_phase x = Settling i →
  structure (settle_section w x i).1.
Proof.
  intros [Hr Hl] Hx Hp. unfold settle_section. case_match.
  - apply structure_publishing; [done|]. by exists x, i.
  - apply finish_structure; [by apply structure_unlocked|done|]. intros h. by rewrite Hl.
Qed.

Lemma keeps_sid s s' : keeps s s' → id_of s' = id_of s.
Proof. apply keeps_id. Qed.

Lemma handle_success_keeps s : keeps s (handle_success s).
Proof. unfold handle_success. keeps_chain. Qed.

Lemma handle_failure_keeps s error nr now s' : handle_failure s error nr now = Some s' → keeps s s'.
Proof.
  unfold handle_failure. destruct (plus_one _) as [c|]; cbn [mbind option_bind]; [|done].
  set (s1 := put (put _ _ _) _ _). assert (keeps s s1) as H1' by (unfold s1; keeps_chain).
  assert (keeps s (no_retry s1)) as Hno by (etransitivity; [exact H1'|unfold no_retry; keeps_chain]).
  destruct nr; [by intros [= <-]|]. destruct (as_int (get_or s1 "max_retries" _)) as [m|]; cbn [mbind option_bind]; [|done].
  destruct (as_int (get_or s1 "retry_count" _)) as [n|]; cbn [mbind option_bind]; [|done].
  destruct (_ && _); [|by intros [= <-]]. destruct (compute_retry_at _ _); cbn [mbind option_bind]; [|done].
  intros [= <-]. etransitivity; [exact H1'|keeps_chain].
Qed.

Lemma structure_end_effect w x i r now p1 p2 : structure w → execs w !! x_key x = Some x → x_phase x = Running i →
  structure (end_effect w x i r now p1 p2).1.
Proof.
  intros Hs Hx Hp.
  assert (∀ h, lock w = Some h → holder_exec (h_then h) ≠ Some (x_key x)) as Hh.
  { eapply holder_other; eauto. by rewrite Hp. }
  assert (structure (finish w x Raised).1) as Hfin by by apply finish_structure.
  assert (∀ s, keeps (x_schedule x) s → structure (put_exec w (with_phase (with_schedule x s) (Settling i)))) as Hput.
  { intros s Hk. apply (structure_put w x); [done|done| |by rewrite Hp|done|done]. split; [done| |done]. by apply keeps_id. }
  assert (∀ s error nr recorded, keeps (x_schedule x) s →
            structure (fail_with w x s i error nr recorded now p1 p2).1) as Hfail.
  { intros s error nr recorded Hk. unfold fail_with. destruct (retry_attempt s nr); [|done].
    destruct (handle_failure s error nr now) as [s'|] eqn:Hf; [|done]. apply handle_failure_keeps in Hf.
    destruct recorded; cbn [fst]; [apply Hput; by etransitivity|]. by destruct (finish w x Raised). }
  destruct r; cbn [end_effect]; [apply Hput, handle_success_keeps|apply Hfail, handle_success_keeps|by apply Hfail|done].
Qed.

(** ** Calls *)

Lemma fresh_above w n (r : Reserved) : runs_ok w → (next_key w <= r.1.2 < n)%nat →
  (r.1.2 < n)%nat ∧ execs w !! r.1.2 = None.
Proof.
  intros Hr [Hge Hlt]. split; [done|]. destruct (execs w !! r.1.2) as [x|] eqn:Hx; [|done].
  apply (ro_key _ Hr) in Hx as [_ ?]. lia.
Qed.

Lemma match_all_keys w av source event_data now l m n0 : (n0 <= m_next m)%nat →
  Forall (λ r : Reserved, n0 <= r.1.2 < m_next m)%nat (m_matched m) →
  let m' := foldl (match_one w av source event_data now) m l in
  (n0 <= m_next m')%nat ∧ Forall (λ r : Reserved, n0 <= r.1.2 < m_next m')%nat (m_matched m').
Proof.
  revert m. induction l as [|s l IH]; intros m Hn Hf; [done|]. apply IH; unfold match_one.
  - destruct (_ && _); cbn; [lia|done].
  - destruct (_ && _); cbn; [|done]. apply Forall_app. split; [|constructor; [cbn; lia|done]].
    eapply Forall_impl; [exact Hf|]. cbn. lia.
Qed.

Definition fired_keys (f : Firing) : list nat := (λ r : Reserved * Lane, r.1.1.2) <$> f_to_fire f.

Record firing_ok (n0 : nat) (busy : list Lane) (f : Firing) : Prop := {
  fo_next : (n0 <= f_next f)%nat;
  fo_keys : NoDup (fired_keys f);
  fo_range : Forall (λ k, n0 <= k < f_next f)%nat (fired_keys f);
  fo_lanes : NoDup (f_to_fire f).*2;
  fo_busy : ∀ lane, lane ∈ f_busy f ↔ lane ∈ busy ∨ lane ∈ (f_to_fire f).*2;
  fo_free : ∀ lane, lane ∈ (f_to_fire f).*2 → lane ∉ busy
}.

Lemma fire_one_ok n0 busy now f d : firing_ok n0 busy f → firing_ok n0 busy (fire_one now f d).
Proof.
  intros [Hn Hk Hr Hl Hb Hfree]. unfold fire_one. destruct (f_candidate f !! d_index d) as [s|]; [|done].
  destruct (bool_decide_reflect (lane_of s ∈ f_busy f)) as [|Hno]; [done|]. destruct (negb _); [done|].
  assert (Forall (λ k, n0 <= k < S (f_next f))%nat (fired_keys f)) as Hr'.
  { eapply Forall_impl; [exact Hr|]. cbn. lia. }
  destruct (reserve_due s d now) as [[s' r]|].
  - split; unfold fired_keys; cbn [f_next f_to_fire f_busy]; rewrite ?fmap_app; cbn [fmap list_fmap].
    + lia.
    + apply NoDup_app. split_and!; [done| |apply NoDup_singleton]. intros k Hin ->%list_elem_of_singleton.
      rewrite Forall_forall in Hr. apply Hr in Hin. cbn in Hin. lia.
    + apply Forall_app. split; [done|]. constructor; [cbn; lia|done].
    + apply NoDup_app. split_and!; [done| |apply NoDup_singleton]. intros lane Hin ->%list_elem_of_singleton.
      apply Hno. apply Hb. by right.
    + intros lane. rewrite !elem_of_app, Hb. cbn. tauto.
    + intros lane [Hin| ->%list_elem_of_singleton]%elem_of_app; [by apply Hfree|]. intros Hin. apply Hno, Hb. by left.
  - split; cbn [f_next f_to_fire f_busy]; auto.
Qed.

Lemma fire_due_ok w av now started :
  firing_ok (next_key w) (busy_lanes w) (fire_due w av now started).
Proof.
  unfold fire_due. set (dues := sort_due _). set (f := {| f_candidate := _ |}).
  assert (firing_ok (next_key w) (busy_lanes w) f) as Hf.
  { split; cbn; [lia|constructor..| |]; [set_solver|by intros ? ?%not_elem_of_nil]. }
  clearbody f. revert f Hf. induction dues as [|d l IH]; intros f Hf; [done|]. apply IH, fire_one_ok, Hf.
Qed.

Lemma fire_due_holder w av now started : runs_ok w →
  holder_ok (set_reservations w (f_reservations (fire_due w av now started)) (f_next (fire_due w av now started)))
    (AfterTick (f_to_fire (fire_due w av now started))).
Proof.
  intros Hr. destruct (fire_due_ok w av now started) as [Hn Hk Hrange Hl Hb Hfree].
  set (f := fire_due _ _ _ _) in *. split_and!; [done| |done|].
  - apply Forall_fmap in Hrange. eapply Forall_impl; [exact Hrange|]. intros [r lane] Hin.
    by apply (fresh_above w).
  - apply Forall_forall. intros lane Hin k x Hx Hf. apply (Hfree _ Hin). apply elem_busy. eauto.
Qed.

Lemma runs_ok_reservations w r n : runs_ok w → (next_key w <= n)%nat → runs_ok (set_reservations w r n).
Proof. intros Hr Hn. by apply (runs_ok_frame w). Qed.

Lemma structure_call w o w' evs : unlocked_structure w → call w o = Some (w', evs) → structure w'.
Proof.
  intros Hu Hc. pose proof (unlocked_structure_structure w Hu) as Hs. destruct Hu as [Hr Hl].
  destruct o as [a e p|sid u now p|sid|sid|sid now p|source ed now p|now started p| | |k now| | | |]; cbn [call] in Hc; try done.
  - destruct (bool_decide _); [done|]. injection Hc as Hc. apply (f_equal fst) in Hc. cbn [fst] in Hc. subst w'. unfold add.
    destruct (new_schedule a e); [|done]. destruct (_ && _); [done|]. by apply structure_publishing.
  - injection Hc as Hc. apply (f_equal fst) in Hc. cbn [fst] in Hc. subst w'. unfold update.
    repeat case_match; try done; by apply structure_publishing.
  - injection Hc as Hc. apply (f_equal fst) in Hc. cbn [fst] in Hc. subst w'. unfold delete_schedule.
    case_match; [by apply structure_publishing|done].
  - injection Hc as Hc. apply (f_equal fst) in Hc. cbn [fst] in Hc. subst w'. unfold reset_failures.
    repeat case_match; try done; by apply structure_publishing.
  - injection Hc as Hc. apply (f_equal fst) in Hc. cbn [fst] in Hc. subst w'. unfold run_now.
    destruct (find_schedule _ _) as [[i s]|]; [|done].
    destruct (if flying w sid then _ else _) as [s1 b] eqn:?. set (w1 := set_schedules w _).
    assert (structure w1 ∧ runs_ok w1) as [Hs1 Hr1].
    { split; [by apply (structure_frame w)|by apply (runs_ok_frame w)]. }
    destruct b; [by apply structure_publishing|]. destruct (is_set s1 "inert_reason"); [done|]. destruct (_ && _); [done|]. destruct (flying w sid); [done|].
    destruct (_ && _); [done|]. cbv zeta. destruct (reserve _ _ _) as [s' r]. cbn [fst].
    apply structure_publishing; [apply runs_ok_reservations; [done|lia]|]. apply (fresh_above w1); [done|]. cbn. lia.
  - injection Hc as Hc. apply (f_equal fst) in Hc. cbn [fst] in Hc. subst w'. unfold fire_triggers.
    case_match; [done|]. set (m0 := {| m_candidate := [] |}).
    destruct (match_all_keys w (connection_availability p) source ed now (schedules w) m0 (next_key w)) as [Hn Hf];
      [cbn; lia|constructor|]. set (m := foldl _ _ _) in *. clearbody m.
    destruct (m_matched m) as [|r rest] eqn:Hm; [done|]. apply Forall_cons in Hf as [Hf _].
    apply structure_publishing; [by apply runs_ok_reservations|]. by apply (fresh_above w).
  - injection Hc as Hc. apply (f_equal fst) in Hc. cbn [fst] in Hc. subst w'. unfold start_due. cbv zeta.
    pose proof (fire_due_holder w (connection_availability p) now started Hr) as Hh.
    pose proof (fo_next _ _ _ (fire_due_ok w (connection_availability p) now started)) as Hn.
    set (f := fire_due _ _ _ _) in *. clearbody f.
    assert (runs_ok (set_reservations w (f_reservations f) (f_next f))) as Hr1 by by apply runs_ok_reservations.
    case_match; [by apply structure_publishing|]. by apply structure_unlocked.
  - destruct (get_exec w k) as [x|] eqn:Hx; cbn [mbind option_bind] in Hc; [|done].
    assert (x_key x = k) as Hk by (by eapply ro_key). unfold get_exec in Hx. rewrite <- Hk in Hx. unfold enter in Hc.
    destruct (x_phase x) as [|why| |i|i] eqn:Hp; try done; injection Hc as Hc; apply (f_equal fst) in Hc;
      cbn [fst] in Hc; subst w'.
    + by apply structure_restore.
    + by apply structure_admit.
    + by apply structure_settle.
Qed.

(** ** Writes and restarts *)

Lemma published_structure w h : runs_ok w → runs_ok (published w h) ∧ lock (published w h) = None.
Proof. intros Hr. split; [by apply (runs_ok_frame w)|done]. Qed.

Lemma structure_abandon w k : unlocked_structure w → holder_ok w k → structure (abandon w k).1.
Proof.
  intros [Hr Hl] Hk. unfold abandon. pose proof (structure_unlocked w Hr Hl) as Hs.
  destruct (holder_exec k ≫= get_exec w) as [x|] eqn:Hx; [|done].
  apply bind_Some in Hx as (key & _ & Hx). assert (x_key x = key) as Hkey by (by eapply ro_key).
  unfold get_exec in Hx. rewrite <- Hkey in Hx. apply finish_structure; [done|done|]. intros h. by rewrite Hl.
Qed.

Lemma structure_continue w k p : unlocked_structure w → holder_ok w k → structure (continue w k p).1.
Proof.
  intros Hu Hk. pose proof (unlocked_structure_structure w Hu) as Hs. pose proof Hu as [Hr Hl].
  assert (∀ key x, get_exec w key = Some x → x_key x = key ∧ execs w !! x_key x = Some x) as Hget.
  { intros key x Hx. unfold get_exec in Hx. destruct (ro_key _ Hr _ _ Hx) as [-> _]. done. }
  assert (∀ x h, lock w = Some h → holder_exec (h_then h) ≠ Some (x_key x)) as Hh by (intros x h; by rewrite Hl).
  destruct k as [| | | | |r|to_fire|matched|k|k t|k]; cbn [continue fst]; try done.
  - by apply structure_run_now.
  - by apply structure_fired.
  - by apply structure_triggered.
  - destruct (get_exec w k) as [x|] eqn:Hx; [|done]. apply Hget in Hx as [_ Hx]. apply finish_structure; [done|done|by apply Hh].
  - destruct Hk as (y & Hy & Hp). unfold get_exec. rewrite Hy. destruct (Hget k y Hy) as [_ Hx].
    apply structure_start_effect; [done|done|done| |by apply Hh]. by unfold id_of; fields.
  - destruct (get_exec w k) as [x|] eqn:Hx; [|done]. apply Hget in Hx as [_ Hx]. apply finish_structure; [done|done|by apply Hh].
Qed.

Lemma structure_written w r p w' evs : structure w → written w r p = Some (w', evs) → structure w'.
Proof.
  intros [Hr Hlock] Hw. unfold written in Hw. destruct (lock w) as [h|] eqn:Hl; [|done].
  destruct (existsb _ _); [done|]. specialize (Hlock h eq_refl).
  destruct (published_structure w h Hr) as [Hrp Hlp].
  assert (unlocked_structure (published w h)) as Hup by done.
  destruct r; cbn [fst] in Hw.
  - pose proof (structure_continue (published w h) (h_then h) p Hup Hlock) as Hc.
    destruct (continue _ _ _) as [w1 e1]. by injection Hw as <- _.
  - pose proof (structure_abandon (published w h) (h_then h) Hup Hlock) as Hc.
    destruct (abandon _ _) as [w1 e1]. by injection Hw as <- _.
  - injection Hw as Hw. apply (f_equal fst) in Hw. cbn [fst] in Hw. subst w'.
    apply structure_abandon; [|done]. split; [by apply (runs_ok_frame w)|done].
Qed.

Lemma boot_structure file now b : structure (boot file now b).
Proof. apply structure_unlocked; [|done]. by split; cbn; intros; rewrite lookup_empty in *. Qed.

Lemma structure_step w o w' evs : structure w → step w o = Some (w', evs) → structure w'.
Proof.
  intros Hs Ho.
  assert (∀ key x, get_exec w key = Some x → x_key x = key ∧ execs w !! x_key x = Some x) as Hget.
  { intros key x Hx. unfold get_exec in Hx. destruct Hs as [Hr _]. destruct (ro_key _ Hr _ _ Hx) as [-> _]. done. }
  destruct o as [a e p|sid u now p|sid|sid|sid now p|source ed now p|now started p|r p|k p|k now|k r now p1 p2|k|al|now landed b];
    cbn [step] in Ho;
    try (destruct (lock w) as [?|] eqn:Hl; [discriminate Ho|]; eapply structure_call; [split; [apply Hs|done]|exact Ho]).
  - by eapply structure_written.
  - destruct (get_exec w k) as [x|] eqn:Hx; cbn [mbind option_bind] in Ho; [|done]. apply Hget in Hx as [_ Hx].
    destruct (x_phase x) eqn:Hp; try done. injection Ho as <- _. by apply structure_begin.
  - destruct (get_exec w k) as [x|] eqn:Hx; cbn [mbind option_bind] in Ho; [|done]. apply Hget in Hx as [_ Hx].
    destruct (x_phase x) as [| | |i|] eqn:Hp; try done. injection Ho as Ho. apply (f_equal fst) in Ho. cbn [fst] in Ho.
    subst w'. by apply structure_end_effect.
  - unfold cancelled in Ho. destruct (get_exec w k) as [x|] eqn:Hx; cbn [mbind option_bind] in Ho; [|done].
    apply Hget in Hx as [Hk Hx]. destruct (bool_decide_reflect ((lock w ≫= (λ h, holder_exec (h_then h))) = Some k)) as [|Hno]; [done|].
    injection Ho as Ho. apply (f_equal fst) in Ho. cbn [fst] in Ho. subst w'. apply finish_structure; [done|done|].
    intros h Hh. rewrite Hk. by rewrite Hh in Hno.
  - injection Ho as <- _. by apply (structure_frame w).
  - injection Ho as Ho. apply (f_equal fst) in Ho. cbn [fst] in Ho. subst w'. unfold restart.
    destruct (lock w); [destruct landed|]; apply boot_structure.
Qed.

Lemma run_ops_ind (I : World → Prop) : (∀ w o w' evs, I w → step w o = Some (w', evs) → I w') →
  ∀ ops w w' evs, I w → run_ops w ops = Some (w', evs) → I w'.
Proof.
  intros Hstep. induction ops as [|o ops IH]; intros w w' evs Hi Hr; cbn in Hr; [by injection Hr as <- _|].
  destruct (step w o) as [[w1 e1]|] eqn:Ho; cbn in Hr; [|done].
  destruct (run_ops w1 ops) as [[w2 e2]|] eqn:Hops; cbn in Hr; [|done]. injection Hr as <- _.
  eapply IH; [|exact Hops]. by eapply Hstep.
Qed.

(** C23: whatever the operations, their order, the failures and cancellations of
    writes and the restarts: at any time a schedule has at most one execution in
    flight (admitted, running or settling), and every lane at most one execution
    started by the ticks. *)
Theorem scheduler_runs_each_schedule_once_at_a_time file now b ops w evs k k' x x' :
  run_ops (boot file now b) ops = Some (w, evs) → execs w !! k = Some x → execs w !! k' = Some x' →
  (in_flight_phase (x_phase x) = true → in_flight_phase (x_phase x') = true → x_sid x = x_sid x' → k = k')
  ∧ (∀ lane, x_owner x = Fired lane → x_owner x' = Fired lane → k = k').
Proof.
  intros Hrun Hx Hx'. destruct (run_ops_ind structure structure_step _ _ _ _ (boot_structure file now b) Hrun) as [Hr _].
  split; [intros Hp Hp' Hs; by eapply (ro_once _ Hr)|]. intros lane Hf Hf'. by eapply (ro_lane _ Hr).
Qed.

End steps.

(** ** A workflow in flight *)

Module SchedulerWitness.
Import ScheduleRuns.

Lemma scheduler_runs_each_schedule_once_at_a_time_witness : ∃ x,
  execs (world_after (added ++ fired)) !! 0%nat = Some x ∧ in_flight_phase (x_phase x) = true
  ∧ x_sid x = sid ∧ x_owner x = Fired WorkLane ∧ 0%nat = 0%nat.
Proof.
  assert (run_ops (boot None 0 true) (added ++ fired)
          = Some (world_after (added ++ fired), events_of (added ++ fired))) as Hrun by (vm_compute; reflexivity).
  destruct (execs (world_after (added ++ fired)) !! 0%nat) as [x|] eqn:Hx; [|vm_compute in Hx; discriminate Hx].
  assert (in_flight_phase (x_phase x) = true ∧ x_sid x = sid ∧ x_owner x = Fired WorkLane) as (Hp & Hs & Ho).
  { assert ((λ x, (in_flight_phase (x_phase x), x_sid x, x_owner x)) <$> (execs (world_after (added ++ fired)) !! 0%nat)
            = Some (true, sid, Fired WorkLane)) as He by (vm_compute; reflexivity).
    rewrite Hx in He. cbn in He. injection He as -> -> ->. split; [reflexivity|split; reflexivity]. }
  exists x. split; [reflexivity|]. split; [exact Hp|]. split; [exact Hs|]. split; [exact Ho|].
  exact (proj1 (scheduler_runs_each_schedule_once_at_a_time None 0 true _ _ _ 0%nat 0%nat x x Hrun Hx Hx) Hp Hp eq_refl).
Defined.

End SchedulerWitness.
