(* ===== verification/SchedulerSafety.v ===== *)
(** * An interrupted one-time run is not started again

    The scheduler stamps a one-time record before its effects start and clears the
    stamp when the outcome is published.  [safe] is the invariant that ties the
    stamps, in memory, on disk and in the candidate being written, to the runs whose
    effects started and whose completion was not published.
    [interrupted_runs_are_not_replayed] is its consequence for the events. *)

From S2P Require Import Prelude PyStr PyLib Cron Schedule ScheduleCrud Scheduler ScheduleTheory ScheduleRuns SchedulerTheory.
From stdpp Require Import gmap.
Open Scope string_scope.
Open Scope list_scope.
Open Scope Z_scope.
Local Open Scope odin_scope.

(** ** Open runs *)

(** What closes a run: its completion is published, the schedule is given new
    timing, or its id is that of a new schedule. *)
Definition closes (sid : pystr) (e : Event) : bool :=
  match e with
  | CompletionPublished i | Rearmed i | Created i => bool_decide (i = sid)
  | _ => false
  end.

(** The ids of the tracked runs that started and are not closed. *)
Definition opens (O : list pystr) (e : Event) : list pystr :=
  match e with
  | EffectStarted sid true => sid :: O
  | CompletionPublished sid | Rearmed sid | Created sid => discard sid O
  | _ => O
  end.
Definition open_after (O : list pystr) (evs : list Event) : list pystr := foldl opens O evs.

Definition quiet (e : Event) : Prop :=
  match e with
  | EffectStarted _ true | CompletionPublished _ | Rearmed _ | Created _ => False
  | _ => True
  end.

Lemma open_quiet O evs : Forall quiet evs → open_after O evs = O.
Proof. induction 1 as [|e evs He _ IH] in O |- *; [done|]. cbn. rewrite IH. by destruct e as [? []| | | | | | | | |]. Qed.

Lemma open_app O evs evs' : open_after O (evs ++ evs') = open_after (open_after O evs) evs'.
Proof. apply foldl_app. Qed.

Lemma open_stays O sid evs : Forall (λ e, closes sid e = false) evs → sid ∈ O → sid ∈ open_after O evs.
Proof.
  intros Hf. revert O. induction Hf as [|e evs He _ IH]; intros O Hin; [done|]. apply IH.
  destruct e as [i []|i|i|i| | | | | |]; cbn in *; try done; [by right|..]; apply elem_discard; bool_prop; done.
Qed.

(** No tracked run starts while one of its schedule is open. *)
Definition no_replay (O : list pystr) (evs : list Event) : Prop :=
  ∀ l1 sid l2, evs = l1 ++ EffectStarted sid true :: l2 → sid ∉ open_after O l1.

Lemma no_replay_quiet O evs : Forall quiet evs → no_replay O evs.
Proof. intros Hf l1 sid l2 ->. apply Forall_app in Hf as [_ [[] _]%Forall_cons]. Qed.

Lemma no_replay_app O evs evs' : no_replay O evs → no_replay (open_after O evs) evs' → no_replay O (evs ++ evs').
Proof.
  intros Hl Hr l1 sid l2 Heq. apply app_eq_inv in Heq as [(k & Hk & Hk')|(k & -> & Hk')].
  - destruct k as [|e k]; cbn in Hk'; [|injection Hk' as <- _; by apply (Hl l1 sid k)].
    rewrite app_nil_r in Hk. subst l1. by apply (Hr [] sid l2).
  - rewrite open_app. by apply (Hr k sid l2).
Qed.

(** ** Stores *)

Definition guarded (O : list pystr) (l : list Schedule) : Prop :=
  NoDup (id_of <$> l) ∧ Forall record_ok l ∧ Forall (λ s, id_of s ∈ O → blocked s) l.

(** A change of one record. *)
Definition evolves (O : list pystr) (s s' : Schedule) : Prop :=
  id_of s' = id_of s ∧ (record_ok s → record_ok s') ∧ (id_of s ∈ O → blocked s → blocked s').

#[export] Instance evolves_preorder O : PreOrder (evolves O).
Proof.
  split; [by intros s|]. intros s s' s'' (H1 & H2 & H3) (J1 & J2 & J3). split_and!; [congruence|auto|].
  intros Hin Hb. apply J3; [by rewrite H1|auto].
Qed.

Lemma keeps_evolves O s s' : keeps s s' → evolves O s s'.
Proof. intros Hk. split_and!; [by apply keeps_id|by apply keeps_record_ok|]. intros _. by apply keeps_blocked. Qed.

Lemma guarded_weaken O O' l : O' ⊆ O → guarded O l → guarded O' l.
Proof.
  intros Hsub (H1 & H2 & H3). split_and!; [done..|]. eapply Forall_impl; [exact H3|]. cbn. intros s Hs Hin. by apply Hs, Hsub.
Qed.

Lemma guarded_evolves O O' l l' : O' ⊆ O → guarded O l → Forall2 (evolves O') l l' → guarded O' l'.
Proof.
  intros Hsub (H1 & H2 & H3) Hall.
  assert (id_of <$> l' = id_of <$> l) as Hids.
  { clear -Hall. induction Hall as [|s s' l l' (Hid & _) _ IH]; [done|]. cbn. by rewrite Hid, IH. }
  split; [by rewrite Hids|]. clear H1 Hids.
  induction Hall as [|s s' l l' (Hid & Hok & Hb) _ IH]; [by split; constructor|].
  apply Forall_cons in H2 as [H2 H2'], H3 as [H3 H3']. destruct (IH H2' H3') as [I1 I2].
  split; constructor; auto. rewrite Hid. intros Hin. apply Hb; auto.
Qed.

Lemma evolves_insert O l i s s' : l !! i = Some s → evolves O s s' → Forall2 (evolves O) l (<[i := s']> l).
Proof.
  intros Hi He. revert i Hi. induction l as [|t l IH]; intros [|i] Hi; cbn in *; simplify_eq.
  - constructor; [done|]. by apply Forall2_same_length_lookup_2; [|intros; simplify_eq; reflexivity].
  - constructor; [reflexivity|auto].
Qed.

Lemma guarded_insert O O' l i s s' : O' ⊆ O → guarded O l → l !! i = Some s → evolves O' s s' →
  guarded O' (<[i := s']> l).
Proof. intros Hsub Hg Hi He. eapply guarded_evolves; [exact Hsub|exact Hg|]. by eapply evolves_insert. Qed.

Lemma guarded_sublist O l l' : sublist l' l → guarded O l → guarded O l'.
Proof.
  intros Hs (H1 & H2 & H3).
  assert (∀ P : Schedule → Prop, Forall P l → Forall P l') as Hf.
  { intros P. rewrite !Forall_forall. intros HP s Hin. apply HP. eapply elem_of_submseteq; [exact Hin|].
    by apply sublist_submseteq. }
  split_and!; [|by apply Hf..]. eapply sublist_NoDup; [exact H1|by apply fmap_sublist].
Qed.

Lemma guarded_snoc O sid l s : guarded O l → id_of s = sid → sid ∉ id_of <$> l → record_ok s →
  guarded (discard sid O) (l ++ [s]).
Proof.
  intros (H1 & H2 & H3) Hid Hno Hok. split_and!.
  - rewrite fmap_app. apply NoDup_app. split_and!; [done| |apply NoDup_singleton]. intros i Hi ->%list_elem_of_singleton.
    by rewrite Hid in Hi.
  - apply Forall_app. by split; [|constructor].
  - apply Forall_app. split; [|constructor; [|constructor]].
    + eapply Forall_impl; [exact H3|]. cbn. intros t Ht [Hin _]%elem_discard. auto.
    + rewrite Hid. by intros [_ ?]%elem_discard.
Qed.

Lemma find_schedule_spec l sid i s : find_schedule l sid = Some (i, s) → l !! i = Some s ∧ id_of s = sid.
Proof. unfold find_schedule. intros (Hi & Hid & _)%list_find_Some. done. Qed.

Lemma guarded_unique O l i j s t : guarded O l → l !! i = Some s → l !! j = Some t → id_of s = id_of t → i = j.
Proof.
  intros [Hn _] Hi Hj Hid. eapply (NoDup_lookup _ _ _ (id_of s)); [exact Hn|..]; rewrite list_lookup_fmap.
  - by rewrite Hi.
  - by rewrite Hj, Hid.
Qed.

Lemma discard_sub sid O : discard sid O ⊆ O.
Proof. by intros i [? _]%elem_discard. Qed.

(** ** The invariant *)

Definition untracked (r : Reserved) : Prop := tracks_run_start r.1.1 = false.

(** A copy whose run may start: it is not open. *)
Definition startable (O : list pystr) (s : Schedule) : Prop := tracks_run_start s = true → id_of s ∉ O.

Definition holder_safe (O : list pystr) (w : World) (h : Holder) : Prop :=
  match h_then h with
  | AfterRunNow r => startable O r.1.1
  | AfterTick to_fire => Forall (λ r, startable O r.1.1.1) to_fire
  | AfterTriggers matched => Forall untracked matched
  | AfterAdmit k _ => ∀ x, execs w !! k = Some x → guarded (x_sid x :: O) (h_candidate h)
  | _ => True
  end.

Section safety.
Context `{CronTab} `{IsoTime} `{PyText} `{SchedulePolicy} `{IndentedDump}.

Definition file_records (file : option pystr) : list Schedule :=
  match file with Some text => default [] (loads text ≫= records_of) | None => [] end.

Record safe (O : list pystr) (w : World) : Prop := {
  sf_memory : guarded O (schedules w);
  sf_disk : guarded O (file_records (disk w));
  sf_exec : ∀ k x, execs w !! k = Some x → x_phase x = Queued ∨ x_phase x = Admitting → startable O (x_schedule x);
  sf_trigger : ∀ k x rest n, execs w !! k = Some x → x_owner x = Triggered rest n →
    tracks_run_start (x_schedule x) = false ∧ Forall untracked rest;
  sf_lock : ∀ h, lock w = Some h →
    guarded (open_after O (publication_events w (h_then h))) (h_candidate h) ∧ holder_safe O w h
}.

Lemma startable_weaken O O' s : O' ⊆ O → startable O s → startable O' s.
Proof. intros Hsub Hs Ht Hin. by apply (Hs Ht), Hsub. Qed.

Lemma untracked_startable O s : tracks_run_start s = false → startable O s.
Proof. intros Hf Ht. congruence. Qed.

Lemma startable_keeps O s s' : keeps s s' → startable O s → startable O s'.
Proof. intros Hk. unfold startable. by rewrite (keeps_tracks _ _ Hk), (keeps_id _ _ Hk). Qed.

Lemma publication_sub w k O : open_after O (publication_events w k) ⊆ O.
Proof.
  destruct k as [s|s []| | | | | | | | |x]; cbn; try done; try apply discard_sub.
  destruct (get_exec w x); cbn; [apply discard_sub|done].
Qed.

Lemma file_records_save l : file_records (Some (save l)) = l.
Proof.
  cbn. unfold save. rewrite loads_indent. cbn [mbind option_bind records_of].
  assert (mapM as_dict (JDict <$> l) = Some l) as ->; [|done].
  induction l as [|s l IH]; cbn; [done|]. cbn in IH. by rewrite IH.
Qed.

(** ** Changes that keep the invariant *)

(** Memory, file and executions; the lock is free. *)
Definition safe_open (O : list pystr) (w : World) : Prop := safe O w ∧ lock w = None.

Lemma safe_frame O w w' : schedules w' = schedules w → disk w' = disk w → execs w' = execs w →
  (lock w' = None ∨ lock w' = lock w) → safe O w → safe O w'.
Proof.
  intros Hs Hd He Hl [S1 S2 S3 S4 S5]. split; rewrite ?Hs, ?Hd; try done; rewrite ?He; try done.
  intros h Hh. destruct Hl as [Hl|Hl]; [congruence|]. rewrite Hl in Hh. destruct (S5 h Hh) as [Hg Hsafe].
  unfold publication_events, get_exec, holder_safe in *. rewrite He. done.
Qed.

Lemma safe_publishing O w candidate k : safe_open O w →
  guarded (open_after O (publication_events w k)) candidate →
  holder_safe O w {| h_candidate := candidate; h_then := k |} → safe O (publishing w candidate k).
Proof.
  intros [[S1 S2 S3 S4 S5] _] Hg Hh. split; try done. intros h [= <-]. split; [exact Hg|exact Hh].
Qed.

(** An execution in a slot is replaced. *)
Lemma safe_put O w x' : safe O w →
  (x_phase x' = Queued ∨ x_phase x' = Admitting → startable O (x_schedule x')) →
  (∀ rest n, x_owner x' = Triggered rest n → tracks_run_start (x_schedule x') = false ∧ Forall untracked rest) →
  (∀ h, lock w = Some h → holder_exec (h_then h) ≠ Some (x_key x')) → safe O (put_exec w x').
Proof.
  intros [S1 S2 S3 S4 S5] Hx Ht Hh. split; try done.
  - intros k x. rewrite put_lookup. case_decide; [by intros [= <-]|apply S3].
  - intros k x rest n. rewrite put_lookup. case_decide; [intros [= <-]; apply Ht|apply S4].
  - intros h Hlock. destruct (S5 h Hlock) as [Hg Hsafe]. specialize (Hh h Hlock).
    assert (∀ k, holder_exec (h_then h) = Some k → execs (put_exec w x') !! k = execs w !! k) as Hlook.
    { intros k Hk. rewrite put_lookup. case_decide; [congruence|done]. }
    unfold publication_events, holder_safe, get_exec in *. destruct (h_then h); cbn [holder_exec] in *; try done;
      rewrite Hlook by done; done.
Qed.

Lemma safe_drop O w key : safe O w → (∀ h, lock w = Some h → holder_exec (h_then h) ≠ Some key) → safe O (drop_exec w key).
Proof.
  intros [S1 S2 S3 S4 S5] Hh. split; try done.
  - intros k x. rewrite drop_lookup. case_decide; [done|apply S3].
  - intros k x rest n. rewrite drop_lookup. case_decide; [done|apply S4].
  - intros h Hlock. destruct (S5 h Hlock) as [Hg Hsafe]. specialize (Hh h Hlock).
    assert (∀ k, holder_exec (h_then h) = Some k → execs (drop_exec w key) !! k = execs w !! k) as Hlook.
    { intros k Hk. rewrite drop_lookup. case_decide; [congruence|done]. }
    unfold publication_events, holder_safe, get_exec in *. destruct (h_then h); cbn [holder_exec] in *; try done;
      rewrite Hlook by done; done.
Qed.

(** The end of an execution says nothing of open runs. *)
Lemma owner_next_quiet x o : Forall quiet (owner_next x o).2.
Proof. unfold owner_next. repeat case_match; repeat constructor. Qed.

Lemma finish_safe O w x o : safe O w → execs w !! x_key x = Some x →
  (∀ h, lock w = Some h → holder_exec (h_then h) ≠ Some (x_key x)) →
  safe O (finish w x o).1 ∧ Forall quiet (finish w x o).2.
Proof.
  intros Hs Hx Hh. pose proof (owner_next_quiet x o) as Hq. unfold finish.
  set (w1 := if in_flight_phase (x_phase x) then _ else w).
  set (w2 := match x_phase x with Restoring _ => _ | _ => _ end).
  assert (schedules w2 = schedules w ∧ disk w2 = disk w ∧ execs w2 = execs w ∧ lock w2 = lock w) as (E1 & E2 & E3 & E4).
  { assert (schedules w1 = schedules w ∧ disk w1 = disk w ∧ execs w1 = execs w ∧ lock w1 = lock w) as Hw1
      by (unfold w1; by destruct (in_flight_phase _)).
    unfold w2. destruct (x_phase x) as [|[]| | |]; try exact Hw1. by destruct o, (x_owner x). }
  assert (safe O w2) as Hs2 by (apply (safe_frame O w); auto).
  destruct (owner_next x o) as [[x'|] evs] eqn:Hnext; cbn [fst snd] in *.
  - assert (x_key x' = x_key x ∧ (∃ rest n r l m, x_owner x = Triggered (r :: l) m ∧ x' = new_exec (x_key x) r (Triggered rest n) ∧ rest = l))
      as (Hk' & rest & n & r & l & m & Ho & -> & ->).
    { unfold owner_next in Hnext. destruct (x_owner x) as [| |[|r rest] n], o; simplify_eq; cbn; eauto 10. }
    destruct (sf_trigger _ _ Hs _ _ _ _ Hx Ho) as [_ [Hr Hl]%Forall_cons].
    split; [|done]. destruct Hs2 as [S1 S2 S3 S4 S5]. split; try done.
    + intros k y. rewrite put_lookup. case_decide; [intros [= <-] _; by apply untracked_startable|apply S3].
    + intros k y rest' n'. rewrite put_lookup. case_decide; [by intros [= <-] [= <- <-]|apply S4].
    + intros h Hlock. cbn in Hlock. destruct (S5 h Hlock) as [Hg Hsafe]. rewrite E4 in Hlock. specialize (Hh h Hlock).
      set (x' := new_exec _ _ _) in *.
      assert (∀ k, holder_exec (h_then h) = Some k → execs (put_exec w2 x') !! k = execs w2 !! k) as Hlook.
      { intros k Hk. rewrite put_lookup. case_decide as Hd; [|done]. rewrite Hk' in Hd. congruence. }
      unfold publication_events, holder_safe, get_exec in *. destruct (h_then h); cbn [holder_exec] in *; try done;
        rewrite Hlook by done; done.
  - split; [|done]. apply safe_drop; [done|]. intros h. rewrite E4. apply Hh.
Qed.

(** ** Calls *)

(** What a step of an invariant world does. *)
Definition goes (O : list pystr) (r : World * list Event) : Prop :=
  safe (open_after O r.2) r.1 ∧ no_replay O r.2.

Lemma goes_quiet O w evs : safe O w → Forall quiet evs → goes O (w, evs).
Proof. intros Hs Hq. split; cbn; [by rewrite open_quiet|by apply no_replay_quiet]. Qed.

Lemma goes_publishing O w candidate k : safe_open O w →
  guarded (open_after O (publication_events w k)) candidate →
  holder_safe O w {| h_candidate := candidate; h_then := k |} → goes O (publishing w candidate k, []).
Proof. intros. apply goes_quiet; [by apply safe_publishing|constructor]. Qed.

Lemma add_goes O w a e p : safe_open O w → new_id e ∉ id_of <$> schedules w → goes O (add w a e p).
Proof.
  intros Hs Hno. unfold add. destruct (new_schedule a e) as [s|] eqn:Hnew; [|apply goes_quiet; [apply Hs|by repeat constructor]].
  destruct (_ && _); [apply goes_quiet; [apply Hs|by repeat constructor]|].
  destruct (new_schedule_spec a e s Hnew) as [Hid Hok].
  apply goes_publishing; [done| |done]. cbn. apply guarded_snoc; [apply Hs|done|by rewrite Hid|done].
Qed.

Lemma updated_evolves O u now s t : updated_schedule u now s = Ok t →
  evolves (if new_timing u then discard (id_of t) O else O) s t.
Proof.
  intros Hu. destruct (updated_spec u now s t Hu) as (Hid & Hok & Hb). split_and!; [done..|].
  destruct (new_timing u); [by rewrite Hid; intros [_ ?]%elem_discard|]. intros _. by apply Hb.
Qed.

Lemma update_goes O w sid u now p : safe_open O w → goes O (update w sid u now p).
Proof.
  intros Hs. assert (∀ e, quiet e → goes O (w, [e])) as Hq by (intros e He; apply goes_quiet; [apply Hs|by constructor]).
  unfold update. destruct (if is_none _ then _ else _); [|by apply Hq].
  destruct (find_schedule _ _) as [[i s]|] eqn:Hf; [|by apply Hq]. apply find_schedule_spec in Hf as [Hi _].
  destruct (updated_schedule u now s) as [t|] eqn:Hu; [|by apply Hq]. cbv zeta. destruct (_ && _ && _); [by apply Hq|].
  apply (updated_evolves O) in Hu. apply goes_publishing; [done| |done].
  eapply guarded_insert; [apply publication_sub|apply Hs|exact Hi|]. cbn. by destruct (new_timing u).
Qed.

Lemma delete_goes O w sid : safe_open O w → goes O (delete_schedule w sid).
Proof.
  intros Hs. unfold delete_schedule. cbv zeta. destruct (Nat.ltb _ _); [|apply goes_quiet; [apply Hs|by repeat constructor]].
  apply goes_publishing; [done| |done]. cbn. eapply guarded_sublist; [|apply Hs].
  induction (schedules w) as [|s l IH]; cbn [List.filter]; [done|]. destruct (negb _); [by apply sublist_skip|by apply sublist_cons].
Qed.

Lemma reset_goes O w sid : safe_open O w → goes O (reset_failures w sid).
Proof.
  intros Hs. unfold reset_failures. destruct (find_schedule _ _) as [[i s]|] eqn:Hf; [|apply goes_quiet; [apply Hs|by repeat constructor]].
  apply find_schedule_spec in Hf as [Hi _]. destruct (reset_record s) as [t|] eqn:Hr; [|apply goes_quiet; [apply Hs|by repeat constructor]].
  apply goes_publishing; [done| |done]. cbn. eapply guarded_insert; [done|apply Hs|exact Hi|].
  by apply keeps_evolves, reset_record_keeps.
Qed.

Lemma reserve_keeps s e now : keeps s (reserve s e now).1.
Proof. unfold reserve. cbn. keeps_chain. Qed.

Lemma resolve_evolves O s : evolves O s (resolve_interrupted_run s).1.
Proof.
  destruct (resolve_identity s) as [Hid Hok]. split_and!; [done..|]. intros _. apply resolve_keeps_blocked.
Qed.

(** An open record is not started by hand. *)
Lemma resolved_startable O s s1 : (id_of s ∈ O → blocked s) → resolve_interrupted_run s = (s1, false) →
  is_set s1 "inert_reason" = false → startable O s1.
Proof.
  intros Hb Hr Hi Ht Hin. pose proof (resolve_tracks s) as Htr. destruct (resolve_identity s) as [Hid _].
  rewrite Hr in *. cbn [fst] in *. rewrite Hid in Hin. rewrite Ht in Htr.
  pose proof (resolve_blocked s (Hb Hin) (eq_sym Htr)) as Hin'. rewrite Hr in Hin'. cbn in Hin'.
  unfold inert in Hin'. bool_prop. congruence.
Qed.

Lemma run_now_goes O w sid now p : safe_open O w → goes O (run_now w sid now p).
Proof.
  intros Hs. assert (∀ e, quiet e → goes O (w, [e])) as Hq by (intros e He; apply goes_quiet; [apply Hs|by constructor]).
  unfold run_now. destruct (find_schedule _ _) as [[i s]|] eqn:Hf; [|by apply Hq].
  apply find_schedule_spec in Hf as [Hi Hsid]. destruct (sf_memory _ _ (proj1 Hs)) as (Hn & Hok & Hb).
  assert (id_of s ∈ O → blocked s) as Hbs by (rewrite Forall_lookup in Hb; by apply (Hb i)).
  destruct (if flying w sid then (s, false) else resolve_interrupted_run s) as [s1 b] eqn:Hres.
  assert (evolves O s s1) as He.
  { destruct (flying w sid); [by injection Hres as <- _; reflexivity|]. pose proof (resolve_evolves O s) as He. by rewrite Hres in He. }
  set (w1 := set_schedules w _).
  assert (guarded O (schedules w1)) as Hg1 by (eapply guarded_insert; [done|apply Hs|exact Hi|exact He]).
  assert (safe_open O w1) as Hs1.
  { split; [|apply Hs]. destruct Hs as [[S1 S2 S3 S4 S5] Hl]. by split. }
  assert (∀ e, quiet e → goes O (w1, [e])) as Hq1 by (intros e Hqe; apply goes_quiet; [apply Hs1|by constructor]).
  destruct b; [by apply goes_publishing|].
  destruct (is_set s1 "inert_reason") eqn:Hinert; [by apply Hq1|]. destruct (_ && _); [by apply Hq1|].
  destruct (flying w sid) eqn:Hfly; [by apply Hq1|]. destruct (_ && _); [by apply Hq1|]. cbv zeta.
  set (e := if requires_connection s1 then _ else None). pose proof (reserve_keeps s1 e now) as Hk.
  destruct (reserve s1 e now) as [s' r]. cbn [fst] in Hk.
  assert (startable O s') as Hstart by (eapply startable_keeps; [exact Hk|by eapply resolved_startable]).
  apply goes_publishing; [split; [by apply (safe_frame O w1); auto; apply Hs1|apply Hs1]| |done].
  cbn [publication_events open_after foldl]. eapply guarded_evolves; [done|exact Hg1|].
  apply Forall2_fmap_r, Forall2_same_length_lookup_2; [done|]. intros j c c' Hj Hj'. rewrite Hj in Hj'. injection Hj' as <-.
  unfold compose, has_id. destruct (bool_decide_reflect (id_of c = sid)) as [Hc|]; [|reflexivity].
  assert (schedules w1 !! i = Some s1) as Hi1 by (apply list_lookup_insert_eq; by eapply lookup_lt_Some).
  assert (j = i) as -> by (eapply guarded_unique; [exact Hg1|exact Hj|exact Hi1|rewrite Hc; destruct He as [-> _]; done]).
  simplify_eq. by apply keeps_evolves.
Qed.

(** A schedule that a trigger fires does not run once. *)
Lemma trigger_untracked s source ed : record_ok s → trigger_fires s source ed = true → tracks_run_start s = false.
Proof.
  unfold trigger_fires. intros Hok Hf.
  assert (is_set s "trigger" = true) as Ht.
  { unfold is_set. destruct (get s "trigger") as [| | | | | |[|kv t]]; done. }
  apply Hok in Ht. destruct (tracks_run_start s) eqn:E; [|done]. apply tracks_one_time in E. congruence.
Qed.

Lemma match_all_spec w av source ed now l m : Forall record_ok l →
  let m' := foldl (match_one w av source ed now) m l in
  ∃ l' rs, m_candidate m' = m_candidate m ++ l' ∧ Forall2 keeps l l'
    ∧ m_matched m' = m_matched m ++ rs ∧ Forall untracked rs.
Proof.
  intros Hok. revert m. induction Hok as [|s l Hs Hok IH]; intros m; cbn [foldl].
  - exists [], []. rewrite !app_nil_r. split_and!; constructor.
  - destruct (IH (match_one w av source ed now m s)) as (l' & rs & Hc & Hl & Hm & Hr). cbv zeta in *. rewrite Hc, Hm.
    unfold match_one. destruct (_ && _) eqn:Hf.
    + set (e := if requires_connection s then _ else None). pose proof (reserve_keeps s e now) as Hk.
      destruct (reserve s e now) as [s' r]. cbn [fst m_candidate m_matched] in *.
      exists (s' :: l'), ((s', m_next m, e) :: rs). rewrite <- !app_assoc. split_and!; [done|by constructor|done|].
      constructor; [|done]. unfold untracked. cbn [fst]. rewrite (keeps_tracks _ _ Hk).
      apply andb_true_iff in Hf as [Hf _]. apply andb_true_iff in Hf as [_ Hf]. by eapply trigger_untracked.
    + exists (s :: l'), rs. cbn. rewrite <- app_assoc. split_and!; [done|by constructor|done|done].
Qed.

Lemma keeps_all_evolves O l l' : Forall2 keeps l l' → Forall2 (evolves O) l l'.
Proof. intros Hf. eapply Forall2_impl; [exact Hf|]. intros. by apply keeps_evolves. Qed.

Lemma safe_reservations O w r n : safe O w → safe O (set_reservations w r n).
Proof. intros Hs. apply (safe_frame O w); auto. Qed.

Lemma fire_goes O w source ed now p : safe_open O w → goes O (fire_triggers w source ed now p).
Proof.
  intros Hs. unfold fire_triggers. destruct (bool_decide _); [apply goes_quiet; [apply Hs|by repeat constructor]|]. cbv zeta.
  destruct (sf_memory _ _ (proj1 Hs)) as (Hn & Hok & Hb).
  destruct (match_all_spec w (connection_availability p) source ed now (schedules w)
              {| m_candidate := []; m_reservations := reservations w; m_next := next_key w; m_matched := [] |} Hok)
    as (l' & rs & Hc & Hl & Hm & Hr). set (m := foldl _ _ _) in *. clearbody m. cbn [m_candidate m_matched app] in Hc, Hm.
  destruct (m_matched m) as [|r rest] eqn:Hmm; [apply goes_quiet; [apply Hs|by repeat constructor]|].
  apply goes_publishing; [split; [by apply safe_reservations, Hs|apply Hs]| |].
  - cbn [publication_events open_after foldl]. rewrite Hc. eapply guarded_evolves; [done|apply Hs|by apply keeps_all_evolves].
  - cbn. by rewrite Hm.
Qed.

(** ** The tick *)

Lemma scan_evolves O w av now started i s : evolves O s (scan w av now started i s).1.1.
Proof.
  assert (∀ reason, nonempty reason = true → evolves O s (quarantine_schedule s reason)) as Hq.
  { intros reason Hr. destruct (quarantine_identity s reason) as [Hid Hok]. split_and!; [done..|].
    intros _ _. by apply inert_blocked, quarantine_inert. }
  pose proof (resolve_evolves O s) as Hres. unfold scan. cbv zeta.
  destruct (resolve_interrupted_run s) as [s1 b]. cbn [fst] in Hres.
  repeat case_match; cbn [fst]; try reflexivity; try done; by apply Hq.
Qed.

(** A due record is as it was, and its run may start. *)
Lemma scan_due O w av now started i s d : (id_of s ∈ O → blocked s) →
  (scan w av now started i s).2 = Some d → (scan w av now started i s).1.1 = s ∧ d_index d = i ∧ startable O s.
Proof.
  intros Hb. unfold scan. cbv zeta. destruct (is_set s "paused") eqn:Hp; [done|].
  destruct (is_set s "run_started_at" && negb (flying w (id_of s))) eqn:Hst; [by destruct (resolve_interrupted_run s)|].
  destruct (owned_by_running_execution w s) eqn:Hown; [done|]. intros Hd.
  assert (startable O s) as Hs.
  { intros Ht Hin. pose proof (tracks_one_time s Ht) as Hone. destruct (Hb Hin Ht) as [Hr|Hi].
    - rewrite Hr in Hst. cbn in Hst. apply negb_false_iff in Hst. unfold owned_by_running_execution in Hown.
      rewrite Hst, Hone, orb_true_r in Hown. done.
    - unfold inert in Hi. by rewrite Hp in Hi. }
  revert Hd. repeat case_match; cbn [fst snd]; try done; intros [= <-]; done.
Qed.

(** Records of the candidate, and the copies started, while the due records fire. *)
Definition firing_safe (O : list pystr) (l : list Schedule) (f : Firing) : Prop :=
  Forall2 keeps l (f_candidate f) ∧ Forall (λ r, startable O r.1.1.1) (f_to_fire f).

Lemma reserve_due_keeps s d now s' r : reserve_due s d now = Some (s', r) → keeps s s'.
Proof.
  unfold reserve_due. pose proof (reserve_keeps s (d_epoch d) now) as Hk.
  destruct (reserve s (d_epoch d) now) as [s1 r1]. cbn [fst] in Hk. destruct (d_retry d); [by intros [= <- _]|].
  destruct (is_set s1 "cron"); [|by intros [= <- _]]. destruct (cron_next_run _ _ _); [|done]. intros [= <- _].
  etransitivity; [exact Hk|keeps_chain].
Qed.

Lemma rollback_keeps s e now : keeps s (rollback_in_place s e now).
Proof. unfold rollback_in_place. keeps_chain. Qed.

Lemma keeps_replace l c i s s' : Forall2 keeps l c → c !! i = Some s → keeps s s' → Forall2 keeps l (<[i := s']> c).
Proof.
  intros Hf Hi Hk. apply Forall2_same_length_lookup. rewrite length_insert.
  split; [by eapply Forall2_length|]. intros j x y Hx Hy.
  destruct (decide (i = j)) as [->|Hne].
  - rewrite list_lookup_insert_eq in Hy by (by eapply lookup_lt_Some). injection Hy as <-.
    etransitivity; [|exact Hk]. by eapply Forall2_lookup_lr.
  - rewrite list_lookup_insert_ne in Hy by done. by eapply Forall2_lookup_lr.
Qed.

Lemma fire_one_safe O now l f d : firing_safe O l f →
  (∀ s, l !! d_index d = Some s → startable O s) → firing_safe O l (fire_one now f d).
Proof.
  intros [Hc Hf] Hd. unfold fire_one. destruct (f_candidate f !! d_index d) as [s|] eqn:Hs; [|done].
  destruct (bool_decide _); [done|]. destruct (negb _); [done|].
  destruct (reserve_due s d now) as [[s' r]|] eqn:Hr.
  - apply reserve_due_keeps in Hr. split; cbn; [by eapply keeps_replace|].
    apply Forall_app. split; [done|]. constructor; [|constructor]. cbn.
    destruct (Forall2_lookup_r _ _ _ _ _ Hc Hs) as (s0 & Hs0 & Hk).
    eapply startable_keeps; [|by apply Hd]. by etransitivity.
  - split; cbn; [|done]. eapply keeps_replace; [done|exact Hs|apply rollback_keeps].
Qed.

Lemma elem_sort_due d l : d ∈ sort_due l ↔ d ∈ l.
Proof.
  assert (∀ e l, d ∈ insert_due e l ↔ d = e ∨ d ∈ l) as Hi.
  { intros e l'. induction l' as [|x l' IH]; cbn; [by rewrite list_elem_of_singleton, elem_of_nil; tauto|].
    destruct (due_le e x); rewrite !elem_of_cons, ?IH; tauto. }
  induction l as [|e l IH]; cbn; [done|]. by rewrite Hi, elem_of_cons, IH.
Qed.

Lemma scan_all_evolves O w av now started :
  Forall2 (evolves O) (schedules w) ((λ x, x.1.1) <$> scan_all w av now started).
Proof.
  unfold scan_all. apply Forall2_same_length_lookup. rewrite length_fmap, length_imap. split; [done|].
  intros i s s' Hs Hs'. rewrite list_lookup_fmap, list_lookup_imap, Hs in Hs'. cbn in Hs'. injection Hs' as <-.
  apply scan_evolves.
Qed.

Lemma fire_due_safe O w av now started : guarded O (schedules w) →
  firing_safe O ((λ x, x.1.1) <$> scan_all w av now started) (fire_due w av now started).
Proof.
  intros (_ & _ & Hb). unfold fire_due. set (l := _ <$> scan_all w av now started).
  set (dues := sort_due _).
  assert (∀ d, d ∈ dues → ∀ s, l !! d_index d = Some s → startable O s) as Hdues.
  { intros d Hd s Hs. unfold dues in Hd. rewrite elem_sort_due, list_elem_of_omap in Hd.
    destruct Hd as (x & Hx & Hxd). apply list_elem_of_lookup in Hx as (i & Hi). unfold scan_all in Hi.
    rewrite list_lookup_imap in Hi. destruct (schedules w !! i) as [t|] eqn:Ht; [|done]. cbn in Hi. injection Hi as <-.
    assert (id_of t ∈ O → blocked t) as Hbt by (rewrite Forall_lookup in Hb; by apply (Hb i)).
    destruct (scan_due O w av now started i t d Hbt Hxd) as (He & Hidx & Hst).
    unfold l, scan_all in Hs. rewrite list_lookup_fmap, list_lookup_imap, Hidx, Ht in Hs. cbn in Hs. injection Hs as <-.
    by rewrite He. }
  set (f := {| f_candidate := l |}).
  assert (firing_safe O l f) as Hf.
  { split; [|constructor]. apply Forall2_same_length_lookup_2; [done|]. intros i x y Hx Hy. cbn in Hy. simplify_eq. reflexivity. }
  clearbody f dues. revert f Hf. induction dues as [|d ds IH]; intros f Hf; [done|]. cbn [foldl].
  apply IH; [intros d' Hd'; apply Hdues; by right|]. apply fire_one_safe; [done|]. apply Hdues. by left.
Qed.

Lemma tick_goes O w now started p : safe_open O w → goes O (start_due w now started p).
Proof.
  intros Hs. unfold start_due. cbv zeta. set (av := connection_availability p).
  destruct (fire_due_safe O w av now started (sf_memory _ _ (proj1 Hs))) as [Hc Hf].
  pose proof (scan_all_evolves O w av now started) as Hsc. set (f := fire_due _ _ _ _) in *. clearbody f.
  assert (safe_open O (set_reservations w (f_reservations f) (f_next f))) as Hs'.
  { split; [by apply safe_reservations, Hs|apply Hs]. }
  destruct (_ || _); [|apply goes_quiet; [apply Hs'|constructor]].
  apply goes_publishing; [done| |done]. cbn [publication_events open_after foldl].
  eapply guarded_evolves; [done| |by apply keeps_all_evolves]. eapply guarded_evolves; [done|apply Hs|exact Hsc].
Qed.

(** ** Executions *)

Lemma goes_finish O w x o : safe O w → execs w !! x_key x = Some x →
  (∀ h, lock w = Some h → holder_exec (h_then h) ≠ Some (x_key x)) → goes O (finish w x o).
Proof.
  intros Hs Hx Hh. destruct (finish_safe O w x o Hs Hx Hh) as [Hf Hq]. destruct (finish w x o). by apply goes_quiet.
Qed.

Lemma restored_keeps r b s s' : restored r b s = Some s' → keeps s s'.
Proof.
  unfold restored. destruct (r_after r) as [[last next]|]; [|done]. destruct (_ && _); [|done]. cbv zeta. intros [= <-].
  keeps_chain.
Qed.

Lemma restore_goes O w x why : safe_open O w → execs w !! x_key x = Some x → goes O (restore_section w x why).
Proof.
  intros Hs Hx. unfold restore_section. cbv zeta.
  destruct (reservations w !! x_reservation x ≫= _) as [c|] eqn:Hc;
    [|apply goes_finish; [apply Hs|done|]; intros h; by rewrite (proj2 Hs)].
  apply bind_Some in Hc as (r & _ & Hc). unfold restore_records in Hc.
  destruct (list_find _ _) as [[i s]|] eqn:Hf; [|done]. apply list_find_Some in Hf as (Hi & _).
  apply fmap_Some in Hc as (s' & Hr & ->). apply restored_keeps in Hr.
  apply goes_publishing; [done| |done]. cbn. eapply guarded_insert; [done|apply Hs|exact Hi|by apply keeps_evolves].
Qed.

(** The stamp that the admission publishes closes the record to other starts. *)
Lemma stamped_guarded O l i s started : guarded O l → l !! i = Some s → nonempty started = true →
  guarded (id_of s :: O) (<[i := put s "run_started_at" (JStr started)]> l).
Proof.
  intros Hg Hi Hne. pose proof Hg as (Hn & Hok & Hb). set (s' := put s _ _).
  assert (id_of s' = id_of s ∧ (record_ok s → record_ok s') ∧ is_set s' "run_started_at" = true) as (Hid & Hok' & Hset).
  { unfold s', id_of, record_ok. fields. done. }
  destruct (guarded_insert O O l i s s' ltac:(done) Hg Hi) as (Hn' & Hok'' & Hb').
  { split_and!; [done..|]. intros _ _. by left. }
  split_and!; [done..|]. apply Forall_lookup. intros j t Ht [Hin|Hin]%elem_of_cons.
  - assert (<[i:=s']> l !! i = Some s') as Hi' by (apply list_lookup_insert_eq; by eapply lookup_lt_Some).
    assert (j = i) as ->; [|rewrite Ht in Hi'; injection Hi' as ->; by left].
    apply (guarded_unique O (<[i:=s']> l) j i t s'); [done|done|done|congruence].
  - rewrite Forall_lookup in Hb'. by eapply Hb'.
Qed.

Lemma start_effect_goes O w x s : safe O w → structure w → lock w = None → existsb starting (all_execs w) = false →
  execs w !! x_key x = Some x → x_phase x = Admitting → keeps_identity (x_schedule x) s →
  tracks_run_start s = tracks_run_start (x_schedule x) →
  guarded (if tracks_run_start s then id_of s :: O else O) (schedules w) →
  guarded (if tracks_run_start s then id_of s :: O else O) (file_records (disk w)) →
  goes O (start_effect w (with_schedule x s)).
Proof.
  intros Hs Hst Hl Hno Hx Hp [Hid _] Htr Hgm Hgd. unfold start_effect. cbv zeta. cbn [x_schedule with_schedule].
  assert (∀ ph, ph ≠ Queued → ph ≠ Admitting → safe O (put_exec w (with_phase (with_schedule x s) ph))) as Hput.
  { intros ph Hq Ha. apply safe_put; [done| |intros rest n Ho|intros h; by rewrite Hl].
    - intros [E|E]; cbn in E; congruence.
    - cbn [with_phase with_schedule x_schedule]. rewrite Htr. by eapply sf_trigger. }
  destruct (_ || callback w); [|apply goes_quiet; [by apply Hput|constructor]].
  destruct (tracks_run_start s) eqn:Ht; [|apply goes_quiet; [by apply Hput|by repeat constructor]].
  split.
  - cbn [fst snd open_after foldl opens]. destruct (Hput (Running (identity_of s)) ltac:(done) ltac:(done)) as [S1 S2 S3 S4 S5].
    split; try done; [|intros h Hh; cbn in Hh; congruence].
    intros k y Hy Hph Hty. intros [Hin|Hin]%elem_of_cons; [|by apply (S3 k y Hy Hph Hty)].
    rewrite put_lookup in Hy. case_decide as Hd; [injection Hy as <-; cbn in Hph; by destruct Hph|].
    destruct Hst as [Hr _]. cbn in Hd. destruct Hph as [Hq|Ha].
    + destruct (x_owner y) as [b|lane|rest n] eqn:Ho.
      * by eapply (ro_queued _ Hr).
      * apply not_true_iff_false in Hno. apply Hno, existsb_exists. exists y. split.
        -- apply list_elem_of_In. unfold all_execs. apply list_elem_of_fmap. exists (k, y). split; [done|]. by apply elem_of_map_to_list.
        -- unfold starting. by rewrite Ho, Hq.
      * destruct (sf_trigger _ _ Hs _ _ _ _ Hy Ho) as [Hf _]. congruence.
    + apply Hd. eapply (ro_once _ Hr); [exact Hy|exact Hx|by rewrite Ha|by rewrite Hp|]. unfold x_sid. congruence.
  - intros l1 sid l2 Heq. destruct l1 as [|e [|]]; cbn in Heq; simplify_eq. cbn.
    rewrite Hid. apply (sf_exec _ _ Hs _ _ Hx); [by right|congruence].
Qed.

Lemma admit_goes O w x now : safe_open O w → structure w → execs w !! x_key x = Some x → x_phase x = Admitting →
  goes O (admit_section w x now).
Proof.
  intros Hs Hst Hx Hp.
  assert (∀ h, lock w = Some h → holder_exec (h_then h) ≠ Some (x_key x)) as Hh by (intros h; by rewrite (proj2 Hs)).
  assert (goes O (put_exec w (with_phase x (Restoring Refused)), [])) as Hrefuse.
  { apply goes_quiet; [|constructor]. apply safe_put; [apply Hs|by intros [|]| |done].
    intros rest n Ho. exact (sf_trigger _ _ (proj1 Hs) _ _ _ _ Hx Ho). }
  unfold admit_section. destruct (find_schedule _ _) as [[i c]|] eqn:Hf; [|done].
  destruct (negb _); [done|]. destruct (_ && _); [done|]. apply find_schedule_spec in Hf as [Hi Hid].
  destruct (tracks_run_start (x_schedule x)) eqn:Ht.
  - pose proof (stamped_guarded O _ i c (isoformat now) (sf_memory _ _ (proj1 Hs)) Hi (isoformat_nonempty now)) as Hg.
    apply goes_publishing; [done| |].
    + cbn [publication_events open_after foldl]. eapply guarded_weaken; [|exact Hg]. set_solver.
    + cbn. intros y Hy. simplify_eq. unfold x_sid. by rewrite <- Hid.
  - unfold start_effect. cbv zeta. rewrite Ht.
    assert (∀ ph, ph ≠ Queued → ph ≠ Admitting → safe O (put_exec w (with_phase x ph))) as Hput.
    { intros ph Hq Ha. apply safe_put; [apply Hs| | |done]; cbn; [by intros [?|?]|].
      intros rest n Ho. exact (sf_trigger _ _ (proj1 Hs) _ _ _ _ Hx Ho). }
    destruct (_ || _); (apply goes_quiet; [by apply Hput|by repeat constructor]).
Qed.

Lemma copy_outcome_keeps s c : keeps c (copy_outcome s c).
Proof. unfold copy_outcome, OUTCOME_FIELDS. cbn [foldl]. keeps_chain. Qed.

Lemma settle_guarded O l s identity c : guarded O l → settle_records l s identity = Some c →
  guarded (discard (id_of s) O) c.
Proof.
  intros Hg. unfold settle_records. destruct (find_schedule l (id_of s)) as [[i t]|] eqn:Hf; [|done].
  apply find_schedule_spec in Hf as [Hi Hid]. cbv zeta. set (t1 := if py_eq _ _ then _ else t).
  assert (keeps_identity t t1) as H1'.
  { unfold t1. destruct (py_eq _ _); [|done]. unfold keeps_identity, id_of, record_ok. by fields. }
  assert (∀ t2, keeps_identity t t2 → guarded (discard (id_of s) O) (<[i := t2]> l)) as Hins.
  { intros t2 [Hid2 Hok2]. eapply guarded_insert; [apply discard_sub|exact Hg|exact Hi|]. split_and!; [done..|].
    rewrite Hid. by intros [_ ?]%elem_discard. }
  assert (∀ t2, keeps t1 t2 → keeps_identity t t2) as Hk.
  { intros t2 Hk. etransitivity; [exact H1'|by apply keeps_keeps_identity]. }
  pose proof (copy_outcome_keeps s t1) as Hcopy.
  destruct (negb _); [intros [= <-]; by apply Hins|].
  destruct (is_set s "one_time"); [|intros [= <-]; by apply Hins, Hk].
  destruct (negb _).
  - intros [= <-]. eapply guarded_weaken; [apply discard_sub|]. eapply guarded_sublist; [apply sublist_delete|exact Hg].
  - intros [= <-]. apply Hins, Hk. etransitivity; [exact Hcopy|]. destruct (bool_decide _); [|done]. keeps_chain.
Qed.

Lemma settle_goes O w x i : safe_open O w → execs w !! x_key x = Some x → goes O (settle_section w x i).
Proof.
  intros Hs Hx. unfold settle_section. destruct (settle_records _ _ _) as [c|] eqn:Hc;
    [|apply goes_finish; [apply Hs|done|]; intros h; by rewrite (proj2 Hs)].
  apply goes_publishing; [done| |done]. cbn [publication_events]. unfold get_exec. rewrite Hx.
  cbn [open_after foldl opens]. eapply settle_guarded; [apply Hs|exact Hc].
Qed.

Lemma alerts_quiet w s p1 p2 : Forall quiet (alerts w s p1 p2).
Proof. unfold alerts. repeat case_match; repeat constructor. Qed.

Lemma end_effect_goes O w x i r now p1 p2 : safe O w → structure w → execs w !! x_key x = Some x →
  x_phase x = Running i → goes O (end_effect w x i r now p1 p2).
Proof.
  intros Hs Hst Hx Hp.
  assert (∀ h, lock w = Some h → holder_exec (h_then h) ≠ Some (x_key x)) as Hh.
  { eapply holder_other; eauto. by rewrite Hp. }
  pose proof (goes_finish O w x Raised Hs Hx Hh) as Hfin.
  assert (∀ s, keeps (x_schedule x) s → safe O (put_exec w (with_phase (with_schedule x s) (Settling i)))) as Hput.
  { intros s Hk. apply safe_put; [done|by intros [|]| |done]. intros rest n Ho. cbn [with_phase with_schedule x_schedule].
    rewrite (keeps_tracks _ _ Hk). by eapply sf_trigger. }
  assert (∀ s error nr recorded, keeps (x_schedule x) s → goes O (fail_with w x s i error nr recorded now p1 p2)) as Hfail.
  { intros s error nr recorded Hk. unfold fail_with. destruct (retry_attempt s nr); [|done].
    destruct (handle_failure s error nr now) as [s'|] eqn:Hf; [|done]. apply handle_failure_keeps in Hf. cbv zeta.
    destruct recorded.
    - apply goes_quiet; [apply Hput; by etransitivity|]. apply Forall_app. split; [apply alerts_quiet|by repeat constructor].
    - destruct (finish_safe O w x Raised Hs Hx Hh) as [Hf' Hq]. destruct (finish w x Raised) as [w' out].
      apply goes_quiet; [done|]. apply Forall_app. split; [apply alerts_quiet|done]. }
  destruct r; cbn [end_effect]; [|apply Hfail, handle_success_keeps|by apply Hfail|done].
  apply goes_quiet; [apply Hput, handle_success_keeps|by repeat constructor].
Qed.

(** ** Writes *)

Lemma begin_safe O w x p : safe O w → structure w → startable O (x_schedule x) →
  (∀ rest n, x_owner x = Triggered rest n → tracks_run_start (x_schedule x) = false ∧ Forall untracked rest) →
  (∀ h, lock w = Some h → holder_exec (h_then h) ≠ Some (x_key x)) → safe O (begin_exec w x p).
Proof.
  intros Hs Hst Hx Ht Hh. destruct (begin_exec_spec w x p) as (_ & Hl & Hsch & Hd & ph & He & _).
  assert (safe O (put_exec w (with_phase x ph))) as Hput by (by apply safe_put).
  apply (safe_frame O (put_exec w (with_phase x ph))); auto.
Qed.

Lemma fired_safe O w to_fire : safe_open O w → Forall (λ r, startable O r.1.1.1) to_fire →
  safe O (foldl (λ w r, put_exec w (fired_exec r)) w to_fire).
Proof.
  intros Hs Hf. revert w Hs. induction Hf as [|r l Hr Hf IH]; intros w Hs; [apply Hs|]. cbn [foldl]. apply IH.
  split; [|apply Hs]. apply safe_put; [apply Hs|done|done|]. intros h. by rewrite (proj2 Hs).
Qed.

(** The publication itself. *)
Lemma published_safe O w h : safe O w → structure w → lock w = Some h →
  let O' := open_after O (publication_events w (h_then h)) in
  safe_open O' (published w h) ∧ structure (published w h) ∧ holder_ok (published w h) (h_then h)
  ∧ holder_safe O' (published w h) h ∧ no_replay O (publication_events w (h_then h)).
Proof.
  intros Hs [Hr Hlock] Hl O'. destruct (sf_lock _ _ Hs h Hl) as [Hg Hh].
  pose proof (publication_sub w (h_then h) O : O' ⊆ O) as Hsub.
  destruct (published_structure w h Hr) as [Hrp Hlp]. split_and!.
  - split; [|done]. split; cbn [published set_lock set_disk set_schedules schedules disk execs lock].
    + done.
    + by rewrite file_records_save.
    + intros k x Hx Hp. eapply startable_weaken; [exact Hsub|]. by eapply sf_exec.
    + intros k x rest n Hx Ho. by eapply sf_trigger.
    + done.
  - by apply structure_unlocked.
  - by apply Hlock.
  - unfold holder_safe in *. destruct (h_then h); try done.
  - intros l1 sid l2 Heq. exfalso. destruct (h_then h) as [s|s []| | | | | | | | |x]; cbn in Heq;
      try (destruct (get_exec w x)); destruct l1 as [|? [|]]; discriminate Heq.
Qed.

Lemma abandon_goes O w k : safe_open O w → structure w → goes O (abandon w k).
Proof.
  intros Hs [Hr _]. unfold abandon. destruct (holder_exec k ≫= get_exec w) as [x|] eqn:Hx.
  - apply bind_Some in Hx as (key & _ & Hx). destruct (ro_key _ Hr _ _ Hx) as [Hk _]. unfold get_exec in Hx.
    rewrite <- Hk in Hx. apply goes_finish; [apply Hs|done|]. intros h. by rewrite (proj2 Hs).
  - apply goes_quiet; [apply Hs|constructor].
Qed.

Lemma continue_goes O w h p : safe_open O w → structure w → schedules w = h_candidate h →
  file_records (disk w) = h_candidate h → holder_ok w (h_then h) → holder_safe O w h →
  existsb starting (all_execs w) = false → goes O (continue w (h_then h) p).
Proof.
  intros Hs Hst Hm Hd Hok Hh Hno. pose proof (proj2 Hs) as Hl.
  assert (∀ e, quiet e → goes O (w, [e])) as Hq by (intros e He; apply goes_quiet; [apply Hs|by constructor]).
  assert (∀ key x, get_exec w key = Some x → execs w !! x_key x = Some x) as Hget.
  { intros key x Hx. unfold get_exec in Hx. destruct (ro_key _ (proj1 Hst) _ _ Hx) as [-> _]. done. }
  assert (∀ x h, lock w = Some h → holder_exec (h_then h) ≠ Some (x_key x)) as Hnone by (intros x h'; by rewrite Hl).
  unfold holder_safe in Hh. destruct (h_then h) as [s|s b|sid|s|reason|r|to_fire|matched|k|k t|k]; cbn [continue];
    try (by apply Hq).
  - set (x := new_exec _ _ _). apply goes_quiet; [|constructor]. destruct Hok as [Hlt Hfresh].
    destruct (begin_exec_spec (put_exec w x) x p) as (_ & Hl' & Hsch & Hdk & ph & He & Hph & _).
    assert (safe O (put_exec w (with_phase x ph))) as Hput.
    { apply safe_put; [apply Hs|intros _; exact Hh|done|apply Hnone]. }
    eapply (safe_frame O (put_exec w (with_phase x ph))); auto. rewrite He. cbn. by rewrite insert_insert_eq.
  - apply goes_quiet; [by apply fired_safe|constructor].
  - apply goes_quiet; [|constructor]. destruct matched as [|r rest]; [apply Hs|]. apply Forall_cons in Hh as [Hr Hrest].
    apply safe_put; [apply Hs|intros _; by apply untracked_startable|by intros ? ? [= <- <-]|apply Hnone].
  - destruct (get_exec w k) as [x|] eqn:Hx; [|apply goes_quiet; [apply Hs|constructor]].
    apply goes_finish; [apply Hs|by eapply Hget|apply Hnone].
  - destruct Hok as (x & Hx & Hp). unfold get_exec. rewrite Hx. pose proof (Hget k x Hx) as Hx'.
    set (s := put _ _ _).
    assert (keeps_identity (x_schedule x) s ∧ tracks_run_start s = tracks_run_start (x_schedule x)) as [Hid Ht].
    { unfold s, keeps_identity, id_of, record_ok, tracks_run_start, action_is. fields. done. }
    assert (guarded (if tracks_run_start s then id_of s :: O else O) (h_candidate h)) as Hg.
    { specialize (Hh x Hx). rewrite (proj1 Hid). destruct (tracks_run_start s); [exact Hh|].
      eapply guarded_weaken; [|exact Hh]. set_solver. }
    apply start_effect_goes; try done; [apply Hs|by rewrite Hm|by rewrite Hd].
  - destruct (get_exec w k) as [x|] eqn:Hx; [|apply goes_quiet; [apply Hs|constructor]].
    apply goes_finish; [apply Hs|by eapply Hget|apply Hnone].
Qed.

Lemma goes_after O evs r : no_replay O evs → goes (open_after O evs) r → goes O (r.1, evs ++ r.2).
Proof. intros Hn [H1' H2']. split; cbn [fst snd]; [by rewrite open_app|by apply no_replay_app]. Qed.

Lemma written_goes O w r p w' evs : safe O w → structure w → written w r p = Some (w', evs) → goes O (w', evs).
Proof.
  intros Hs Hst Hw. unfold written in Hw. destruct (lock w) as [h|] eqn:Hl; [|done].
  destruct (existsb starting (all_execs w)) eqn:Hno; [done|].
  destruct (published_safe O w h Hs Hst Hl) as (Hsp & Hstp & Hok & Hh & Hnr). set (O' := open_after O _) in *.
  destruct r.
  - assert (goes O' (continue (published w h) (h_then h) p)) as Hc.
    { apply continue_goes; try done. apply file_records_save. }
    destruct (continue _ _ _) as [w1 e1]. injection Hw as <- <-. by apply (goes_after O _ (w1, e1)).
  - pose proof (abandon_goes O' (published w h) (h_then h) Hsp Hstp) as Hc.
    destruct (abandon _ _) as [w1 e1]. injection Hw as <- <-. by apply (goes_after O _ (w1, e1)).
  - injection Hw as Hw. rewrite <- Hw. apply abandon_goes.
    + split; [|done]. by apply (safe_frame O w); auto.
    + split; [by apply (runs_ok_frame w); [..|apply Hst]|done].
Qed.

(** ** Restarts *)

Lemma boot_records file now : boot_schedules file now
  = (λ s, (resolve_interrupted_run (degrade_removed_trigger_source (advance_stale_cron now s))).1) <$> file_records file.
Proof.
  unfold boot_schedules, load, file_records. destruct file as [text|]; [|done].
  destruct (loads text ≫= records_of); [|done]. cbn [fst default]. by rewrite <- list_fmap_compose.
Qed.

Lemma boot_safe O file now b : guarded O (file_records file) → safe O (boot file now b).
Proof.
  intros Hg. split; cbn; try done.
  - rewrite boot_records. eapply guarded_evolves; [done|exact Hg|].
    apply Forall2_fmap_r, Forall2_same_length_lookup_2; [done|]. intros i s s' Hs Hs'. simplify_eq. unfold compose.
    etransitivity; [apply keeps_evolves, (advance_keeps now)|].
    destruct (degrade_spec (advance_stale_cron now s)) as [[Hid Hok] Hb].
    etransitivity; [|apply resolve_evolves]. by split_and!.
  - destruct ((load file now).2 && b); [|done]. by split_and!; constructor.
Qed.

Lemma restart_goes O w now landed b : safe O w → structure w → goes O (restart w now landed b).
Proof.
  intros Hs Hst. unfold restart. destruct (lock w) as [h|] eqn:Hl; [destruct landed|];
    try (apply goes_quiet; [apply boot_safe, Hs|constructor]).
  destruct (published_safe O w h Hs Hst Hl) as (Hsp & _ & _ & _ & Hnr).
  split; [|done]. apply boot_safe. apply (sf_disk _ _ (proj1 Hsp)).
Qed.

Lemma step_goes O w o w' evs : safe O w → structure w → step w o = Some (w', evs) → goes O (w', evs).
Proof.
  intros Hs Hst Ho.
  assert (∀ key x, get_exec w key = Some x → x_key x = key ∧ execs w !! x_key x = Some x) as Hget.
  { intros key x Hx. unfold get_exec in Hx. destruct (ro_key _ (proj1 Hst) _ _ Hx) as [-> _]. done. }
  destruct o as [a e p|sid u now p|sid|sid|sid now p|source ed now p|now started p|r p|k p|k now|k r now p1 p2|k|al|now landed b];
    cbn [step call] in Ho;
    try (destruct (lock w) as [?|] eqn:Hl; [discriminate Ho|]; assert (safe_open O w) as Hso by done).
  - destruct (bool_decide_reflect (new_id e ∈ id_of <$> schedules w)); [done|]. injection Ho as Ho. rewrite <- Ho. by apply add_goes.
  - injection Ho as Ho. rewrite <- Ho. by apply update_goes.
  - injection Ho as Ho. rewrite <- Ho. by apply delete_goes.
  - injection Ho as Ho. rewrite <- Ho. by apply reset_goes.
  - injection Ho as Ho. rewrite <- Ho. by apply run_now_goes.
  - injection Ho as Ho. rewrite <- Ho. by apply fire_goes.
  - injection Ho as Ho. rewrite <- Ho. by apply tick_goes.
  - by eapply written_goes.
  - destruct (get_exec w k) as [x|] eqn:Hx; cbn [mbind option_bind] in Ho; [|done]. apply Hget in Hx as [_ Hx].
    destruct (x_phase x) eqn:Hp; try done. injection Ho as <- <-. apply goes_quiet; [|constructor].
    apply begin_safe; [done|done|by eapply sf_exec; eauto| |].
    + intros rest n Hown. by eapply sf_trigger.
    + eapply holder_other; eauto. by rewrite Hp.
  - destruct (get_exec w k) as [x|] eqn:Hx; cbn [mbind option_bind] in Ho; [|done]. apply Hget in Hx as [_ Hx].
    unfold enter in Ho. destruct (x_phase x) eqn:Hp; try done; injection Ho as Ho; rewrite <- Ho.
    + by apply restore_goes.
    + by apply admit_goes.
    + by apply settle_goes.
  - destruct (get_exec w k) as [x|] eqn:Hx; cbn [mbind option_bind] in Ho; [|done]. apply Hget in Hx as [_ Hx].
    destruct (x_phase x) eqn:Hp; try done. injection Ho as Ho. rewrite <- Ho. by apply end_effect_goes.
  - unfold cancelled in Ho. destruct (get_exec w k) as [x|] eqn:Hx; cbn [mbind option_bind] in Ho; [|done].
    apply Hget in Hx as [Hk Hx]. destruct (bool_decide_reflect ((lock w ≫= (λ h, holder_exec (h_then h))) = Some k)) as [|Hno]; [done|].
    injection Ho as Ho. rewrite <- Ho. apply goes_finish; [done|done|]. intros h Hh. rewrite Hk. by rewrite Hh in Hno.
  - injection Ho as <- <-. apply goes_quiet; [|constructor]. by apply (safe_frame O w); auto.
  - injection Ho as Ho. rewrite <- Ho. by apply restart_goes.
Qed.

Lemma run_goes ops O w w' evs : safe O w → structure w → run_ops w ops = Some (w', evs) → goes O (w', evs).
Proof.
  revert O w w' evs. induction ops as [|o ops IH]; intros O w w' evs Hs Hst Hr; cbn in Hr.
  - injection Hr as <- <-. apply goes_quiet; [done|constructor].
  - destruct (step w o) as [[w1 e1]|] eqn:Ho; cbn in Hr; [|done].
    destruct (run_ops w1 ops) as [[w2 e2]|] eqn:Hops; cbn in Hr; [|done]. injection Hr as <- <-.
    destruct (step_goes O w o w1 e1 Hs Hst Ho) as [Hs1 Hn1]. cbn [fst snd] in *.
    apply (goes_after O e1 (w2, e2)); [done|]. eapply IH; [done|by eapply structure_step|done].
Qed.

(** C22: between two starts of the effects of a one-time check, workflow or webhook,
    its completion was published, or it was given new timing, or created anew.  So a
    run that was interrupted, by a crash at any point, a cancellation or a write
    that failed, is never started again by a tick, a trigger or by hand.  The file
    of the first boot has each id once and no schedule with both a trigger and
    [one_time]. *)
Theorem interrupted_runs_are_not_replayed file now b ops w l1 sid l2 l3 :
  NoDup (id_of <$> file_records file) → Forall record_ok (file_records file) →
  run_ops (boot file now b) ops = Some (w, l1 ++ EffectStarted sid true :: l2 ++ EffectStarted sid true :: l3) →
  ∃ e, e ∈ l2 ∧ closes sid e = true.
Proof.
  intros Hn Hok Hrun.
  assert (guarded [] (file_records file)) as Hg.
  { split_and!; [done..|]. apply Forall_forall. intros s _ Hin. by apply not_elem_of_nil in Hin. }
  pose proof (run_goes ops [] _ _ _ (boot_safe [] file now b Hg) (boot_structure file now b) Hrun) as [_ Hnr].
  cbn [snd] in Hnr. specialize (Hnr (l1 ++ EffectStarted sid true :: l2) sid l3).
  rewrite <- app_assoc in Hnr. specialize (Hnr eq_refl). rewrite open_app in Hnr. cbn [open_after foldl opens] in Hnr.
  destruct (existsb (closes sid) l2) eqn:He.
  - apply existsb_exists in He as (e & Hin & Hc). exists e. by rewrite list_elem_of_In.
  - exfalso. apply Hnr. apply open_stays; [|by left]. apply Forall_forall. intros e Hin. by eapply existsb_false.
Qed.

End safety.

(** ** A workflow that is interrupted and re-armed *)

Module ReplayWitness.
Import ScheduleRuns.

Lemma interrupted_runs_are_not_replayed_witness : ∃ l1 l2,
  events_of rearmed = l1 ++ EffectStarted sid true :: l2 ++ [EffectStarted sid true]
  ∧ ∃ e, e ∈ l2 ∧ closes sid e = true.
Proof.
  exists (take 2 (events_of rearmed)), (take 3 (drop 3 (events_of rearmed))).
  assert (run_ops (boot None 0 true) rearmed
          = Some (world_after rearmed, take 2 (events_of rearmed) ++ EffectStarted sid true
                    :: take 3 (drop 3 (events_of rearmed)) ++ [EffectStarted sid true])) as Hrun
    by (vm_compute; reflexivity).
  split; [vm_compute; reflexivity|].
  exact (interrupted_runs_are_not_replayed None 0 true rearmed _ _ sid _ []
           (NoDup_nil_2 (A := pystr)) (List.Forall_nil _) Hrun).
Defined.

End ReplayWitness.
