(* ===== verification/ScheduleOutcomes.v ===== *)
(** * Starts that are refused, and failures that are final

    [refused_start_restores_the_store]: undoing a reservation gives back the exact
    records it was made on.  [final_failures_stay_stopped]: a schedule whose failure
    is final is left by every later tick. *)

From S2P Require Import Prelude PyStr PyLib Cron Schedule ScheduleCrud Scheduler ScheduleTheory ScheduleRuns SchedulerTheory SchedulerSafety.
From Stdlib Require Import QArith_base.
From stdpp Require Import gmap.
Open Scope string_scope.
Open Scope list_scope.
Open Scope Z_scope.
Local Open Scope odin_scope.

(** ** Undoing changes of a dict *)

Section dicts.
Context {V : Type}.
Implicit Types d : list (pystr * V).

Lemma dict_set_back d k v : dict_get d k = Some v → dict_set d k v = d.
Proof.
  induction d as [|[k' v'] d IH]; cbn [dict_get dict_set]; [done|].
  destruct (bool_decide_reflect (k = k')) as [->|]; [by intros [= ->]|]. intros Hg. by rewrite IH.
Qed.

Lemma dict_set_set d k v v' : dict_set (dict_set d k v) k v' = dict_set d k v'.
Proof.
  induction d as [|[k' v0] d IH]; cbn [dict_set]; [by rewrite bool_decide_refl|].
  destruct (bool_decide_reflect (k = k')) as [->|Hne]; cbn [dict_set]; [by rewrite bool_decide_refl|].
  rewrite bool_decide_eq_false_2 by done. by rewrite IH.
Qed.

Lemma dict_del_absent d k : dict_get d k = None → dict_del d k = d.
Proof.
  unfold dict_del. induction d as [|[k' v] d IH]; cbn [dict_get List.filter]; [done|]. cbn [fst].
  destruct (bool_decide_reflect (k = k')); [done|]. intros Hg. cbn [negb]. by rewrite IH.
Qed.

Lemma dict_set_comm d a b v w : a ≠ b → is_Some (dict_get d a) → dict_set (dict_set d b w) a v = dict_set (dict_set d a v) b w.
Proof.
  intros Hab. induction d as [|[k u] d IH]; cbn [dict_get dict_set]; [by intros [? ?]|].
  destruct (bool_decide_reflect (b = k)) as [->|Hb]; destruct (bool_decide_reflect (a = k)) as [->|Ha]; cbn [dict_set];
    repeat first [rewrite bool_decide_refl | rewrite bool_decide_eq_false_2 by done]; try done.
  intros Hs. by rewrite IH.
Qed.

Lemma dict_del_set d a b w : a ≠ b → dict_del (dict_set d b w) a = dict_set (dict_del d a) b w.
Proof.
  intros Hab. unfold dict_del. induction d as [|[k u] d IH]; cbn [dict_set List.filter fst].
  - by rewrite bool_decide_eq_false_2.
  - destruct (bool_decide_reflect (b = k)) as [->|Hb]; cbn [List.filter fst].
    + rewrite bool_decide_eq_false_2 by done. cbn [negb dict_set]. by rewrite bool_decide_refl.
    + destruct (bool_decide_reflect (a = k)); cbn [negb]; [done|]. cbn [dict_set].
      rewrite bool_decide_eq_false_2 by done. by rewrite IH.
Qed.

End dicts.

(** Setting a field and putting its snapshot back. *)
Lemma undo_put s k v : put_snapshot (put s k v) k (field_snapshot s k) = s.
Proof.
  unfold put_snapshot, field_snapshot, put, pop. destruct (dict_get s (lit k)) as [v0|] eqn:Hg.
  - by rewrite dict_set_set, dict_set_back.
  - by rewrite dict_del_set_eq, dict_del_absent.
Qed.

Lemma undo_none s k : put_snapshot s k (field_snapshot s k) = s.
Proof.
  unfold put_snapshot, field_snapshot, put, pop. destruct (dict_get s (lit k)) eqn:Hg;
    [by apply dict_set_back|by apply dict_del_absent].
Qed.

(** The same under a later change of another field. *)
Lemma undo_put_under s a b v w : lit a ≠ lit b →
  put_snapshot (put (put s a v) b w) a (field_snapshot s a) = put s b w.
Proof.
  intros Hab. rewrite <- (undo_put s a v) at 3. unfold put_snapshot, field_snapshot, put, pop.
  destruct (dict_get s (lit a)) as [v0|] eqn:Hg; [|by apply dict_del_set].
  apply dict_set_comm; [done|]. rewrite dict_get_set, bool_decide_refl. by eexists.
Qed.

Lemma field_snapshot_put s k v k' :
  field_snapshot (put s k v) k' = if same_field k k' then Some v else field_snapshot s k'.
Proof. apply field_put. Qed.

(** ** Equal to themselves *)

(** A value that is neither a list nor a dict. *)
Definition plain (v : Json) : bool := match v with JList _ | JDict _ => false | _ => true end.

Lemma py_eq_plain v : plain v = true → py_eq v v = true.
Proof.
  destruct v; cbn [plain py_eq number]; try done; intros _;
    [by apply Qeq_bool_iff|by apply Qeq_bool_iff|by apply Qeq_bool_iff|by apply bool_decide_eq_true].
Qed.

Definition plain_run (s : Schedule) : bool :=
  plain (identity_of s).1 && plain (identity_of s).2 && plain (get s "last_run") && plain (get s "next_run").

Lemma snapshot_plain v : match v with Some v => plain v | None => true end = true → snapshot_eq v v = true.
Proof. destruct v; [apply py_eq_plain|done]. Qed.

Lemma identity_plain s : plain_run s = true → same_identity (identity_of s) (identity_of s) = true.
Proof. unfold plain_run, same_identity. intros Hp. bool_prop. by rewrite !py_eq_plain. Qed.

Section outcomes.
Context `{CronTab} `{IsoTime} `{PyText}.

(** ** Reservations *)

(** What a reservation changes: [last_run], and the next slot of a cron schedule. *)
Lemma reserve_due_shape s d now s' r : reserve_due s d now = Some (s', r) →
  let s1 := put s "last_run" (JStr (isoformat now)) in
  (s' = s1 ∨ ∃ t, s' = put s1 "next_run" (JStr t))
  ∧ r_id r = id_of s ∧ r_identity r = identity_of s ∧ r_before r = run_fields s ∧ r_after r = Some (run_fields s').
Proof.
  cbv zeta. unfold reserve_due, reserve. destruct (d_retry d); [by intros [= <- <-]; auto|].
  destruct (is_set _ "cron"); [|by intros [= <- <-]; auto]. destruct (cron_next_run _ _ _) as [t|]; [|done].
  intros [= <- <-]. split; [right; by exists t|done].
Qed.

(** The restored record is the record that was reserved. *)
Lemma restored_reserved s d now s' r : plain_run s = true → reserve_due s d now = Some (s', r) →
  restored r false s' = Some s.
Proof.
  intros Hp Hr. destruct (reserve_due_shape s d now s' r Hr) as (Hs & _ & _ & Hb & Ha). cbv zeta in Hs.
  unfold restored. rewrite Ha, Hb. unfold run_fields. cbn [fst snd].
  unfold plain_run in Hp. bool_prop.
  assert (∀ v, match v with Some v => plain v | None => true end = true → snapshot_eq v v = true) as Hself by apply snapshot_plain.
  set (s1 := put s "last_run" (JStr (isoformat now))) in *.
  destruct Hs as [->|[t ->]].
  - rewrite !Hself.
    + cbn [andb]. unfold s1. by rewrite undo_put, undo_none.
    + unfold s1. rewrite field_snapshot_put. change (same_field _ _) with false. cbv iota.
      unfold get in *. unfold field_snapshot. by destruct (dict_get s (lit "next_run")).
    + unfold s1. by rewrite field_snapshot_put.
  - rewrite !Hself.
    + cbn [andb]. unfold s1. rewrite undo_put_under by done. by rewrite undo_put.
    + by rewrite field_snapshot_put.
    + unfold s1. by rewrite !field_snapshot_put.
Qed.

(** The record where a cron slot that overlapped a run is consumed. *)
Lemma restored_overlap s d now s' r : plain_run s = true → reserve_due s d now = Some (s', r) →
  restored r true s' = Some (put_snapshot s "next_run" (field_snapshot s' "next_run")).
Proof.
  intros Hp Hr. pose proof (restored_reserved s d now s' r Hp Hr) as Hall.
  destruct (reserve_due_shape s d now s' r Hr) as (Hs & _ & _ & Hb & Ha). cbv zeta in Hs.
  unfold restored in *. rewrite Ha, Hb in *. unfold run_fields in *. cbn [fst snd] in *.
  destruct (_ && _); [|done]. f_equal. destruct Hs as [->|[t ->]].
  - rewrite undo_put, field_snapshot_put. change (same_field _ _) with false. cbv iota. by rewrite undo_none.
  - rewrite undo_put_under by done. by rewrite field_snapshot_put.
Qed.

(** undoing a published reservation of a start that never began gives back exactly
    the records it was made on, the consumed cron slot and the absent [last_run] of a
    schedule that never ran included; a cron slot that overlapped a run stays
    consumed, and that is all that is left. *)
Theorem refused_start_restores_the_store l i s d now s' r :
  NoDup (id_of <$> l) → l !! i = Some s → plain_run s = true → reserve_due s d now = Some (s', r) →
  restore_records (<[i := s']> l) r s' false = Some l
  ∧ restore_records (<[i := s']> l) r s' true
    = Some (<[i := put_snapshot s "next_run" (field_snapshot s' "next_run")]> l).
Proof.
  intros Hn Hi Hp Hr. destruct (reserve_due_shape s d now s' r Hr) as (Hs & Hid & Hident & _). cbv zeta in Hs.
  assert (id_of s' = id_of s ∧ identity_of s' = identity_of s) as [Hid' Hident'].
  { destruct Hs as [->|[t ->]]; unfold id_of, identity_of, get_or; by fields. }
  assert (restorable r s' s' = true) as Hself.
  { unfold restorable. rewrite Hid', Hid, Hident', Hident, bool_decide_refl, identity_plain by done. done. }
  assert (list_find (λ current, restorable r s' current = true) (<[i := s']> l) = Some (i, s')) as Hf.
  { apply list_find_Some. split_and!; [|done|].
    - apply list_lookup_insert_eq. by eapply lookup_lt_Some.
    - intros j c Hc Hlt Hre. rewrite list_lookup_insert_ne in Hc by lia.
      unfold restorable in Hre. bool_prop.
      assert (j = i); [|lia]. eapply (NoDup_lookup _ _ _ (id_of s)); [exact Hn|..]; rewrite list_lookup_fmap.
      + rewrite Hc. cbn. congruence.
      + by rewrite Hi. }
  unfold restore_records. rewrite !Hf, (restored_reserved s d now s' r Hp Hr), (restored_overlap s d now s' r Hp Hr).
  cbn [fmap option_fmap option_map]. rewrite !list_insert_insert_eq. by rewrite list_insert_id.
Qed.

(** ** Failures *)

Lemma no_retry_fields s : is_set (no_retry s) "retry_at" = false
  ∧ (is_set s "one_time" = true → dict_get (no_retry s) (lit "next_run") = None)
  ∧ get (no_retry s) "last_error" = get s "last_error" ∧ is_set (no_retry s) "one_time" = is_set s "one_time".
Proof. unfold no_retry. fields. destruct (is_set s "one_time") eqn:Ho; fields; by rewrite ?Ho. Qed.

(** A failure sets the time of a retry, or drops it with the instant of a one-time run. *)
Lemma handle_failure_spec s error nr now s' : handle_failure s error nr now = Some s' →
  get s' "last_error" = JStr (take 500 error)
  ∧ (is_set s' "retry_at" = false → is_set s "one_time" = true → dict_get s' (lit "next_run") = None).
Proof.
  unfold handle_failure. destruct (plus_one _) as [c|]; cbn [mbind option_bind]; [|done]. cbv zeta.
  set (s1 := put (put (put _ _ _) _ _) _ _).
  assert (get s1 "last_error" = JStr (take 500 error) ∧ is_set s1 "one_time" = is_set s "one_time") as [He Ho].
  { unfold s1. by fields. }
  clearbody s1. destruct (no_retry_fields s1) as (_ & Hn & Hl & _). rewrite He, Ho in *.
  destruct nr; [by intros [= <-]|].
  destruct (as_int (get_or s1 "max_retries" _)) as [m|]; cbn [mbind option_bind]; [|done].
  destruct (as_int (get_or s1 "retry_count" _)) as [n|]; cbn [mbind option_bind]; [|done].
  destruct (_ && _); [|by intros [= <-]].
  unfold compute_retry_at.
  destruct (as_int (get_or (put s1 _ _) "retry_count" _)) as [k|]; cbn [mbind option_bind]; [|done].
  destruct (as_int (get_or (put s1 _ _) "retry_backoff_seconds" _)) as [base|]; cbn [mbind option_bind]; [|done].
  intros [= <-]. fields. split; [done|]. cbn [truthy]. by rewrite isoformat_nonempty.
Qed.

Lemma get_put_snapshot s k v k' :
  dict_get (put_snapshot s k v) (lit k') = if same_field k k' then v else dict_get s (lit k').
Proof. unfold put_snapshot. destruct v; rewrite ?field_put, ?field_pop; by destruct (same_field k k'). Qed.

(** The outcome fields of a settled record are those of the run's copy. *)
Lemma copy_outcome_field s c k : k ∈ OUTCOME_FIELDS → dict_get (copy_outcome s c) (lit k) = dict_get s (lit k).
Proof.
  intros Hk. unfold copy_outcome, OUTCOME_FIELDS, field_snapshot in *. cbn [foldl].
  repeat (apply elem_of_cons in Hk as [->|Hk]; [rewrite !get_put_snapshot; reflexivity|]). by apply not_elem_of_nil in Hk.
Qed.

(** A record with no times left is not due. *)
Lemma no_times_not_due s : is_set s "retry_at" = false → is_set s "next_run" = false →
  ∀ w av now started i, (scan w av now started i s).2 = None.
Proof.
  intros Hr Hn w av now started i. unfold scan. cbv zeta. rewrite Hr, Hn. cbn [negb].
  repeat (case_match; try done).
Qed.

(** a failure of a one-time schedule that sets no retry is final.  If the record
    was not edited during the run, the settled record stays in the store with the
    error, and no later tick finds it due, whatever the clock, the connection and
    the other runs. *)
Theorem final_failures_stay_stopped l s error nr now s' identity c i current :
  is_set s "one_time" = true → nonempty error = true → handle_failure s error nr now = Some s' →
  is_set s' "retry_at" = false → find_schedule l (id_of s') = Some (i, current) →
  same_identity (identity_of current) identity = true → settle_records l s' identity = Some c →
  ∃ t, c = <[i := t]> l ∧ id_of t = id_of s' ∧ get t "last_error" = JStr (take 500 error)
    ∧ ∀ w av now' started k, (scan w av now' started k t).2 = None.
Proof.
  intros Hone Herr Hf Hretry Hfind Hsame Hset.
  destruct (handle_failure_spec s error nr now s' Hf) as [Hlast Hnext]. specialize (Hnext Hretry Hone).
  assert (is_set s' "one_time" = true) as Hone'.
  { apply handle_failure_keeps in Hf. rewrite (keeps_is_set _ _ "one_time" Hf ltac:(admission_field)). done. }
  assert (is_set s' "last_error" = true) as Hset'.
  { unfold is_set. rewrite Hlast. cbn. by destruct error. }
  unfold settle_records in Hset. rewrite Hfind in Hset. cbv zeta in Hset.
  set (t1 := if py_eq _ _ then _ else current) in *.
  assert (identity_of t1 = identity_of current ∧ id_of t1 = id_of current) as [Hi1 Hid1].
  { unfold t1. destruct (py_eq _ _); [|done]. unfold identity_of, get_or, id_of. by fields. }
  rewrite Hi1, Hsame, Hone', Hset', (bool_decide_eq_true_2 _ Hnext) in Hset. cbn [negb] in Hset. injection Hset as <-.
  apply find_schedule_spec in Hfind as [Hi Hid]. exists (pop (copy_outcome s' t1) "next_run"). split_and!; [done|..].
  - rewrite <- Hid, <- Hid1. rewrite <- (keeps_id _ _ (copy_outcome_keeps s' t1)). unfold id_of. by fields.
  - unfold get at 1. rewrite field_pop. change (same_field _ _) with false. cbv iota.
    rewrite copy_outcome_field by (unfold OUTCOME_FIELDS; admission_field). exact Hlast.
  - apply no_times_not_due; fields; [|done]. unfold is_set, get.
    rewrite copy_outcome_field by (unfold OUTCOME_FIELDS; admission_field). exact Hretry.
Qed.

(** An error without a text is taken for success: the failed record is deleted, its
    retry with it. *)
Lemma silent_failure_deletes_the_schedule l s nr now s' identity i current :
  is_set s "one_time" = true → handle_failure s [] nr now = Some s' →
  find_schedule l (id_of s') = Some (i, current) → same_identity (identity_of current) identity = true →
  settle_records l s' identity = Some (delete i l).
Proof.
  intros Hone Hf Hfind Hsame. pose proof (proj1 (handle_failure_spec s [] nr now s' Hf)) as Hlast.
  assert (is_set s' "one_time" = true) as Hone'.
  { apply handle_failure_keeps in Hf. rewrite (keeps_is_set _ _ "one_time" Hf ltac:(admission_field)). done. }
  unfold settle_records. rewrite Hfind. cbv zeta. set (t1 := if py_eq _ _ then _ else current).
  assert (identity_of t1 = identity_of current) as ->.
  { unfold t1. destruct (py_eq _ _); [|done]. unfold identity_of, get_or. by fields. }
  rewrite Hsame, Hone'. unfold is_set. by rewrite Hlast.
Qed.

End outcomes.

(** ** A nightly check, and a workflow that fails *)

Module OutcomeWitness.
Import ScheduleRuns.

Definition check : Schedule := record_of nightly_check.
Definition slot : Due := {| d_at := 30 * MINUTE; d_index := 0; d_epoch := Some 7; d_retry := false |}.
Definition reserved : Schedule * Reservation := default (check, capture_before check None) (reserve_due check slot (31 * MINUTE)).

Lemma refused_start_restores_the_store_witness :
  reserved.1 ≠ check
  ∧ restore_records [reserved.1] reserved.2 reserved.1 false = Some [check].
Proof.
  assert (reserve_due check slot (31 * MINUTE) = Some (reserved.1, reserved.2)) as Hr by (vm_compute; reflexivity).
  split; [vm_compute; discriminate|].
  exact (proj1 (refused_start_restores_the_store [check] 0 check slot (31 * MINUTE) _ _
                  (NoDup_singleton (id_of check)) eq_refl eq_refl Hr)).
Defined.

Definition workflow : Schedule := record_of one_shot.
Definition failed : Schedule := default workflow (handle_failure workflow (lit "boom") false (12 * SECOND)).

Lemma final_failures_stay_stopped_witness : ∃ t c,
  settle_records [workflow] failed (identity_of workflow) = Some c ∧ c = [t]
  ∧ get t "last_error" = JStr (lit "boom") ∧ ∀ w av now started k, (scan w av now started k t).2 = None.
Proof.
  assert (handle_failure workflow (lit "boom") false (12 * SECOND) = Some failed) as Hf by (vm_compute; reflexivity).
  assert (find_schedule [workflow] (id_of failed) = Some (0%nat, workflow)) as Hfind by (vm_compute; reflexivity).
  destruct (settle_records [workflow] failed (identity_of workflow)) as [c|] eqn:Hc; [|vm_compute in Hc; discriminate Hc].
  destruct (final_failures_stay_stopped [workflow] workflow (lit "boom") false (12 * SECOND) failed (identity_of workflow)
              c 0%nat workflow eq_refl eq_refl Hf eq_refl Hfind eq_refl Hc) as (t & -> & _ & He & Hscan).
  exists t, [t]. split; [reflexivity|]. split; [reflexivity|]. split; [exact He|exact Hscan].
Defined.

End OutcomeWitness.
