(* ===== verification/ScheduleTicks.v ===== *)
(** * Which schedules a tick starts, and how long the loop sleeps

    [ticks_start_the_earliest_due]: each free lane starts its earliest due schedule.
    [ticks_wake_for_due_schedules]: the loop does not sleep past a due time that the
    next tick can serve. *)

From S2P Require Import Prelude PyStr PyLib Cron Schedule ScheduleCrud Scheduler ScheduleTheory SchedulerTheory SchedulerSafety.
From Stdlib Require Import Sorted.
From stdpp Require Import gmap.
Open Scope string_scope.
Open Scope list_scope.
Open Scope Z_scope.
Local Open Scope odin_scope.

(** ** The order of the due times *)

Definition before (a b : Due) : Prop := due_le a b = true.

Lemma before_spec a b : before a b ↔ d_at a < d_at b ∨ (d_at a = d_at b ∧ (d_index a <= d_index b)%nat).
Proof.
  unfold before, due_le. rewrite orb_true_iff, andb_true_iff, Z.ltb_lt, Z.eqb_eq, Nat.leb_le. done.
Qed.

Lemma before_total a b : before a b ∨ before b a.
Proof. rewrite !before_spec. lia. Qed.

#[export] Instance before_trans : Transitive before.
Proof. intros a b c. rewrite !before_spec. lia. Qed.

Lemma insert_due_perm d l : insert_due d l ≡ₚ d :: l.
Proof.
  induction l as [|e l IH]; cbn; [done|]. destruct (due_le d e); [done|]. rewrite IH. apply Permutation_swap.
Qed.

Lemma sort_due_perm l : sort_due l ≡ₚ l.
Proof. induction l as [|d l IH]; cbn; [done|]. by rewrite insert_due_perm, IH. Qed.

Lemma insert_due_sorted d l : StronglySorted before l → StronglySorted before (insert_due d l).
Proof.
  induction 1 as [|e l Hs IH Hf]; cbn; [by repeat constructor|]. destruct (due_le d e) eqn:Hle.
  - constructor; [by constructor|]. constructor; [done|]. eapply Forall_impl; [exact Hf|]. intros x Hx. by transitivity e.
  - constructor; [done|]. apply Forall_forall. intros x Hx. rewrite insert_due_perm in Hx.
    apply elem_of_cons in Hx as [->|Hx]; [|by rewrite Forall_forall in Hf; apply Hf].
    destruct (before_total e d) as [|Hd]; [done|]. unfold before in Hd. congruence.
Qed.

Lemma sort_due_sorted l : StronglySorted before (sort_due l).
Proof. induction l; cbn; [constructor|]. by apply insert_due_sorted. Qed.

Section ticks.
Context `{CronTab} `{IsoTime} `{PyText}.

(** A due record is found at its own time, which has come. *)
Lemma scan_due_spec w av now started i s d : (scan w av now started i s).2 = Some d →
  (scan w av now started i s).1.1 = s ∧ d_index d = i ∧ d_at d <= now
  ∧ is_set s "paused" = false ∧ owned_by_running_execution w s = false
  ∧ (if is_set s "retry_at" then parse_persisted_time (get s "retry_at") = Some (d_at d)
     else is_set s "next_run" = true ∧ parse_persisted_time (get s "next_run") = Some (d_at d)).
Proof.
  unfold scan. cbv zeta. destruct (is_set s "paused"); [done|].
  destruct (is_set s "run_started_at" && _); [by destruct (resolve_interrupted_run s)|].
  destruct (owned_by_running_execution w s); [done|]. destruct (bool_decide _); [done|]. destruct (_ && _); [done|].
  destruct (is_set s "retry_at").
  - destruct (parse_persisted_time _) as [t|]; [|done]. destruct (Z.leb_spec t now); [|done]. by intros [= <-].
  - destruct (is_set s "next_run"); cbn [negb]; [|done]. destruct (parse_persisted_time _) as [t|]; [|done].
    destruct (Z.ltb_spec now t); [done|]. destruct (_ && _); [done|]. by intros [= <-].
Qed.

Lemma due_indices (f : nat → Schedule → Schedule * bool * option Due) l n :
  (∀ i s d, (f (n + i)%nat s).2 = Some d → d_index d = (n + i)%nat) →
  NoDup (d_index <$> omap (λ x, x.2) (imap (λ i, f (n + i)%nat) l))
  ∧ Forall (λ k, n <= k)%nat (d_index <$> omap (λ x, x.2) (imap (λ i, f (n + i)%nat) l)).
Proof.
  revert n. induction l as [|s l IH]; intros n Hf; [split; constructor|].
  rewrite imap_cons.
  assert (imap ((λ i, f (n + i)%nat) ∘ S) l = imap (λ i, f (S n + i)%nat) l) as ->.
  { apply imap_ext. intros i x _. unfold compose. f_equal. lia. }
  destruct (IH (S n)) as [Hn Hge].
  { intros i x d Hd. specialize (Hf (S i) x d). replace (S n + i)%nat with (n + S i)%nat in * by lia. auto. }
  assert (Forall (λ k, n <= k)%nat (d_index <$> omap (λ x, x.2) (imap (λ i, f (S n + i)%nat) l))) as Hge'.
  { eapply Forall_impl; [exact Hge|]. cbn. lia. }
  cbn [omap list_omap]. destruct (f (n + 0)%nat s).2 as [d|] eqn:Hd; [|done].
  specialize (Hf 0%nat s d Hd). cbn [fmap list_fmap]. split.
  - constructor; [|done]. rewrite Forall_forall in Hge. intros Hin. apply Hge in Hin. cbn in Hin. lia.
  - constructor; [cbn; lia|done].
Qed.

(** ** The second loop *)

(** A due time is served by an entry of the list to fire. *)
Definition serves (now : Z) (l : list Schedule) (d : Due) (e : Reserved * Lane) : Prop :=
  ∃ s s' r k, l !! d_index d = Some s ∧ reserve_due s d now = Some (s', r) ∧ e = ((s', k, d_epoch d), lane_of s).

(** After the due times [P]: untouched records, entries that serve one of [P], and
    for each of [P] that could start in a lane that was free, an entry for an earlier
    one of the lane. *)
Record fired_ok (now : Z) (l : list Schedule) (busy : list Lane) (P : list Due) (f : Firing) : Prop := {
  fd_rest : ∀ i, i ∉ d_index <$> P → f_candidate f !! i = l !! i;
  fd_busy : ∀ lane, lane ∈ f_busy f → lane ∈ busy ∨ ∃ e, e ∈ f_to_fire f ∧ e.2 = lane;
  fd_serves : ∀ e, e ∈ f_to_fire f → ∃ d, d ∈ P ∧ serves now l d e;
  fd_earliest : ∀ d s, d ∈ P → l !! d_index d = Some s → lane_of s ∉ busy →
    is_Some (dict_get s (lit "description")) → is_Some (reserve_due s d now) →
    ∃ d' e, d' ∈ P ∧ before d' d ∧ e ∈ f_to_fire f ∧ serves now l d' e ∧ e.2 = lane_of s
}.

Lemma fire_one_fired now l busy P f d : fired_ok now l busy P f → d_index d ∉ d_index <$> P →
  (∀ p, p ∈ P → before p d) → fired_ok now l busy (P ++ [d]) (fire_one now f d).
Proof.
  intros [Hrest Hbusy Hserves Hearly] Hno Hsorted.
  assert (before d d) as Hrefl by (destruct (before_total d d); done).
  assert (∀ g, f_to_fire g = f_to_fire f → f_busy g = f_busy f →
    (∀ i, i ∉ d_index <$> (P ++ [d]) → f_candidate g !! i = l !! i) →
    (∀ s, l !! d_index d = Some s → lane_of s ∉ busy → is_Some (dict_get s (lit "description")) →
       is_Some (reserve_due s d now) → lane_of s ∈ f_busy f) →
    fired_ok now l busy (P ++ [d]) g) as Hsame.
  { intros g Hg Hb Hc Hd. split; rewrite ?Hg, ?Hb; try done.
    - intros e He. destruct (Hserves e He) as (d' & Hin & Hs). exists d'. split; [|done]. apply elem_of_app. by left.
    - intros d' s [Hin| ->%list_elem_of_singleton]%elem_of_app Hs Hl Hdesc Hres.
      + destruct (Hearly d' s Hin Hs Hl Hdesc Hres) as (d0 & e & Hin' & Hle & He). exists d0, e. rewrite elem_of_app. auto.
      + destruct (Hbusy _ (Hd s Hs Hl Hdesc Hres)) as [?|(e & He & Hlane)]; [done|].
        destruct (Hserves e He) as (d0 & Hin & Hse). exists d0, e. rewrite elem_of_app. auto 10. }
  assert (∀ i, i ∉ d_index <$> (P ++ [d]) → i ∉ d_index <$> P ∧ i ≠ d_index d) as Hnot.
  { intros i. rewrite fmap_app, elem_of_app. cbn. rewrite list_elem_of_singleton. tauto. }
  unfold fire_one. rewrite (Hrest _ Hno). destruct (l !! d_index d) as [s|] eqn:Hs.
  2:{ apply Hsame; try done. intros i Hi. apply Hrest. by apply Hnot. }
  destruct (bool_decide_reflect (lane_of s ∈ f_busy f)) as [Hin|Hlane].
  { apply Hsame; try done; [intros i Hi; apply Hrest; by apply Hnot|]. intros s0 [= <-]. done. }
  destruct (bool_decide_reflect (is_Some (dict_get s (lit "description")))) as [Hdesc|Hdesc]; cbn [negb].
  2:{ apply Hsame; try done; [intros i Hi; apply Hrest; by apply Hnot|]. by intros s0 [= <-]. }
  destruct (reserve_due s d now) as [[s' r]|] eqn:Hres.
  2:{ apply Hsame; try done.
      - intros i [Hi Hne]%Hnot. cbn [f_candidate]. rewrite list_lookup_insert_ne by done. by apply Hrest.
      - intros s0 [= <-] _ _ [? Habs]. congruence. }
  set (e := ((s', f_next f, d_epoch d), lane_of s)).
  assert (serves now l d e) as Hserve by (exists s, s', r, (f_next f); done).
  split; cbn [f_candidate f_busy f_to_fire].
  - intros i [Hi Hne]%Hnot. rewrite list_lookup_insert_ne by done. by apply Hrest.
  - intros lane [Hin| ->%list_elem_of_singleton]%elem_of_app.
    + destruct (Hbusy _ Hin) as [?|(e' & He' & ?)]; [by left|]. right. exists e'. rewrite elem_of_app. auto.
    + right. exists e. rewrite elem_of_app, list_elem_of_singleton. auto.
  - intros e' [Hin| ->%list_elem_of_singleton]%elem_of_app.
    + destruct (Hserves e' Hin) as (d' & Hd' & ?). exists d'. rewrite elem_of_app. auto.
    + exists d. rewrite elem_of_app, list_elem_of_singleton. auto.
  - intros d' s0 [Hin| ->%list_elem_of_singleton]%elem_of_app Hs0 Hl Hdesc0 Hres0.
    + destruct (Hearly d' s0 Hin Hs0 Hl Hdesc0 Hres0) as (d0 & e' & ? & ? & ? & ?). exists d0, e'. rewrite !elem_of_app. auto 10.
    + simplify_eq. exists d, e. rewrite !elem_of_app, !list_elem_of_singleton. auto 10.
Qed.

Lemma fire_all_fired now l busy ds P f : fired_ok now l busy P f → NoDup (d_index <$> P ++ ds) →
  StronglySorted before ds → (∀ p d, p ∈ P → d ∈ ds → before p d) →
  fired_ok now l busy (P ++ ds) (foldl (fire_one now) f ds).
Proof.
  revert P f. induction ds as [|d ds IH]; intros P f Hf Hn Hs Hp; [by rewrite app_nil_r|]. cbn [foldl].
  inversion Hs as [|? ? Hs' Hall]; subst. rewrite cons_middle, (assoc (++)) in *.
  apply IH; [|done|done|].
  - apply fire_one_fired; [done| |intros p Hin; apply Hp; [done|by left]].
    rewrite !fmap_app in Hn. apply NoDup_app in Hn as (Hn & _ & _). apply NoDup_app in Hn as (_ & Hn & _).
    intros Hin. by apply (Hn _ Hin); left.
  - intros p d' [Hin| ->%list_elem_of_singleton]%elem_of_app Hd'; [apply Hp; [done|by right]|].
    rewrite Forall_forall in Hall. by apply Hall.
Qed.

Lemma fire_due_fired w av now started :
  fired_ok now ((λ x, x.1.1) <$> scan_all w av now started) (busy_lanes w)
    (sort_due (omap (λ x, x.2) (scan_all w av now started))) (fire_due w av now started).
Proof.
  unfold fire_due. set (l := _ <$> scan_all w av now started). set (ds := sort_due _).
  change ds with ([] ++ ds) at 1. apply fire_all_fired.
  - split; cbn; auto; by intros ? ?%not_elem_of_nil || intros ? ? ?%not_elem_of_nil.
  - cbn [app]. unfold ds. rewrite sort_due_perm. unfold scan_all.
    apply (due_indices (scan w av now started) (schedules w) 0). intros i s d Hd. by apply scan_due_spec in Hd as (_ & ? & _).
  - apply sort_due_sorted.
  - by intros p d ?%not_elem_of_nil.
Qed.

(** The due times of a tick are those of the records it scans. *)
Lemma elem_dues w av now started d : d ∈ sort_due (omap (λ x, x.2) (scan_all w av now started)) ↔
  ∃ i s, schedules w !! i = Some s ∧ (scan w av now started i s).2 = Some d.
Proof.
  rewrite elem_sort_due, list_elem_of_omap. unfold scan_all. split.
  - intros (x & Hx & Hd). apply list_elem_of_lookup in Hx as (i & Hi). rewrite list_lookup_imap in Hi.
    destruct (schedules w !! i) as [s|] eqn:Hs; [|done]. cbn in Hi. injection Hi as <-. eauto.
  - intros (i & s & Hs & Hd). exists (scan w av now started i s). split; [|done].
    apply list_elem_of_lookup. exists i. by rewrite list_lookup_imap, Hs.
Qed.

Lemma scanned_lookup w av now started i s d : schedules w !! i = Some s → (scan w av now started i s).2 = Some d →
  ((λ x, x.1.1) <$> scan_all w av now started) !! d_index d = Some s.
Proof.
  intros Hs Hd. destruct (scan_due_spec _ _ _ _ _ _ _ Hd) as (He & -> & _). unfold scan_all.
  rewrite list_lookup_fmap, list_lookup_imap, Hs. cbn. by rewrite He.
Qed.

(** The record a tick starts: it was due, in time, and its lane was free. *)
Definition started_by (w : World) (av : ConnectionAvailability) (now : Z) (started : list pystr) (d : Due)
    (e : Reserved * Lane) : Prop :=
  ∃ i s s' r k, schedules w !! i = Some s ∧ (scan w av now started i s).2 = Some d ∧ d_at d <= now
    ∧ reserve_due s d now = Some (s', r) ∧ e = ((s', k, d_epoch d), lane_of s).

(** C40: a tick starts only schedules that are due, at most one per lane and none in a
    lane that is busy; and for every due schedule whose lane is free and whose next
    slot can be computed, the one its lane starts is due no later (at equal times, no
    later in the list). *)
Theorem ticks_start_the_earliest_due w av now started :
  let fired := f_to_fire (fire_due w av now started) in
  NoDup fired.*2
  ∧ (∀ e, e ∈ fired → e.2 ∉ busy_lanes w ∧ ∃ d, started_by w av now started d e)
  ∧ (∀ i s d, schedules w !! i = Some s → (scan w av now started i s).2 = Some d → lane_of s ∉ busy_lanes w →
       is_Some (dict_get s (lit "description")) → is_Some (reserve_due s d now) →
       ∃ d' e, before d' d ∧ e ∈ fired ∧ started_by w av now started d' e ∧ e.2 = lane_of s).
Proof.
  cbv zeta. pose proof (fire_due_ok w av now started) as [_ _ _ Hl _ Hfree].
  destruct (fire_due_fired w av now started) as [_ _ Hserves Hearly].
  set (f := fire_due w av now started) in *.
  assert (∀ d e, d ∈ sort_due (omap (λ x, x.2) (scan_all w av now started)) →
    serves now ((λ x, x.1.1) <$> scan_all w av now started) d e → started_by w av now started d e) as Hby.
  { intros d e (i & s & Hs & Hd)%elem_dues (s0 & s' & r & k & Hl0 & Hr & ->).
    rewrite (scanned_lookup _ _ _ _ _ _ _ Hs Hd) in Hl0. injection Hl0 as <-.
    exists i, s, s', r, k. split_and!; try done. by apply scan_due_spec in Hd as (_ & _ & ? & _). }
  split_and!; [done|..].
  - intros e He. split; [apply Hfree; by apply list_elem_of_fmap_2|].
    destruct (Hserves e He) as (d & Hd & Hs). exists d. by apply Hby.
  - intros i s d Hs Hd Hlane Hdesc Hres.
    destruct (Hearly d s) as (d' & e & Hin & Hle & He & Hse & Heq); try done.
    + apply elem_dues. eauto.
    + by eapply scanned_lookup.
    + exists d', e. auto.
Qed.

(** ** The sleep of the loop *)

Lemma foldl_min l t : foldl Z.min t l <= t ∧ ∀ u, u ∈ l → foldl Z.min t l <= u.
Proof.
  revert t. induction l as [|v l IH]; intros t; cbn; [split; [done|by intros u ?%not_elem_of_nil]|].
  destruct (IH (Z.min t v)) as [H1' H2']. split; [lia|]. intros u [->|Hin]%elem_of_cons; [lia|auto].
Qed.

Lemma delay_spec w now : SECOND <= compute_tick_delay w now <= MINUTE
  ∧ ∀ s t, s ∈ schedules w → pending_time w s = Some t → now + compute_tick_delay w now <= Z.max t (now + SECOND).
Proof.
  unfold compute_tick_delay. destruct (omap (pending_time w) (schedules w)) as [|t ts] eqn:Ho.
  - split; [done|]. intros s t Hs Ht. exfalso.
    assert (t ∈ omap (pending_time w) (schedules w)) as Hin by (apply list_elem_of_omap; eauto).
    rewrite Ho in Hin. by apply not_elem_of_nil in Hin.
  - destruct (foldl_min ts t) as [H1' H2']. split; [unfold MINUTE, SECOND; lia|]. intros s u Hs Hu.
    assert (u ∈ omap (pending_time w) (schedules w)) as Hin by (apply list_elem_of_omap; eauto).
    rewrite Ho in Hin. apply elem_of_cons in Hin as [->|Hin]; [lia|]. apply H2' in Hin. lia.
Qed.

(** What a tick would find due is pending. *)
Lemma due_pending w av t started i s d : (scan w av t started i s).2 = Some d → lane_of s ∉ busy_lanes w →
  pending_time w s = Some (d_at d).
Proof.
  intros (_ & _ & _ & Hp & Ho & Ht)%scan_due_spec Hl. unfold pending_time.
  rewrite Hp, Ho, bool_decide_eq_false_2 by done. cbn [orb].
  destruct (is_set s "retry_at") eqn:Hr; [unfold is_set in Hr; by rewrite Hr|].
  destruct Ht as [Hn Ht]. unfold is_set in Hn. by rewrite Hn.
Qed.

(** the loop sleeps between a second and a minute, and never past the due time of
    a schedule that a tick finds due in a free lane, at whatever time and connection
    that tick comes, by more than the second it always sleeps. *)
Theorem ticks_wake_for_due_schedules w now :
  SECOND <= compute_tick_delay w now <= MINUTE
  ∧ ∀ i s av t started d, schedules w !! i = Some s → (scan w av t started i s).2 = Some d →
      lane_of s ∉ busy_lanes w → now + compute_tick_delay w now <= Z.max (d_at d) (now + SECOND).
Proof.
  destruct (delay_spec w now) as [Hb Hd]. split; [done|]. intros i s av t started d Hs Hdue Hl.
  apply (Hd s); [by eapply list_elem_of_lookup_2|]. by eapply due_pending.
Qed.

End ticks.
