(* ===== verification/ScheduleHistory.v ===== *)
(** * The history of scheduled runs (src/src/scheduler/history.py)

    The history is a file of JSON lines.  [record] appends one and, every hundred
    records, prunes: a file of too many entries keeps the newest of each schedule.  A
    write that fails leaves a prefix of its line.  [None] is an exception of the
    code: a field read of an entry that is not a dict, an id that cannot be hashed, or
    timestamps that are not texts.  [pruning_is_invisible]: the last runs of a schedule
    read the same before and after. *)

From S2P Require Import Prelude PyStr PyLib AuditLog Schedule.
From Stdlib Require Import Sorted.
From stdpp Require Import sorting.
Open Scope string_scope.
Open Scope list_scope.
Open Scope Z_scope.
Local Open Scope odin_scope.

Definition DEFAULT_MAX_ENTRIES : nat := 200.
Definition MAX_TOTAL_ENTRIES : Z := 5000.
Definition AUTO_PRUNE_INTERVAL : Z := 100.

(** The store: its file and [_records_since_prune]. *)
Record History := { history_file : option pystr; records_since_prune : Z }.

Definition entry_get (e : list (pystr * Json)) (k : string) : Json := default JNull (dict_get e (lit k)).

(** The text of a dict ends with its brace. *)
Class ClosedDump `{Codec} := { dumps_close kvs : ∃ s, dumps (JDict kvs) = s ++ [125] }.

Section history.
Context `{Codec}.

(** ** Reading *)

(** [f.readlines()], each stripped, without the empty ones. *)
Definition stripped_lines (text : pystr) : list pystr :=
  List.filter nonempty (strip <$> readlines (universal text)).

(** The lines that are JSON. *)
Definition parsed_lines (text : pystr) : list Json := omap loads (stripped_lines text).

(** [if schedule_id and ...], [if status and ...] *)
Definition selects (schedule_id status : pystr) (e : list (pystr * Json)) : bool :=
  (negb (nonempty schedule_id) || py_eq (entry_get e "schedule_id") (JStr schedule_id))
  && (negb (nonempty status) || py_eq (entry_get e "status") (JStr status)).

(** A filter reads the fields of a dict; without one every entry is taken. *)
Definition selected (schedule_id status : pystr) (entry : Json) : option bool :=
  if nonempty schedule_id || nonempty status then selects schedule_id status <$> as_dict entry else Some true.

(** The loop over the reversed lines; [room] is what is left of the limit.  An entry
    is added before the limit is looked at. *)
Fixpoint collect (schedule_id status : pystr) (entries : list Json) (room : Z)
    : option (list Json) :=
  match entries with
  | [] => Some []
  | entry :: entries =>
      chosen ← selected schedule_id status entry;
      if chosen : bool then
        if room <=? 1 then Some [entry] else cons entry <$> collect schedule_id status entries (room - 1)
      else collect schedule_id status entries room
  end.

Definition query (file : option pystr) (schedule_id status : pystr) (limit : Z) (readable : bool)
    : option (list Json) :=
  match file with
  | None => Some []
  | Some text => if readable then collect schedule_id status (rev (parsed_lines text)) limit else Some []
  end.

(** ** Pruning *)

(** A key of [by_schedule]: [None] is the [TypeError] of a list or a dict. *)
Definition hashable (v : Json) : option Json := match v with JList _ | JDict _ => None | v => Some v end.

Definition group_key (e : list (pystr * Json)) : option Json :=
  hashable (default (JStr (lit "unknown")) (dict_get e (lit "schedule_id"))).

(** [by_schedule[sid].append(entry)], the groups in the order of their first entry. *)
Fixpoint add_to_group (k : Json) (e : list (pystr * Json)) (groups : list (Json * list (list (pystr * Json))))
    : list (Json * list (list (pystr * Json))) :=
  match groups with
  | [] => [(k, [e])]
  | (k', es) :: groups => if py_eq k' k then (k', es ++ [e]) :: groups else (k', es) :: add_to_group k e groups
  end.

Fixpoint group_from (groups : list (Json * list (list (pystr * Json)))) (entries : list (list (pystr * Json)))
    : option (list (Json * list (list (pystr * Json)))) :=
  match entries with
  | [] => Some groups
  | e :: entries => k ← group_key e; group_from (add_to_group k e groups) entries
  end.

(** [l[-n:]], which for zero is all of [l]. *)
Definition last_n {A : Type} (n : nat) (l : list A) : list A :=
  match n with O => l | _ => drop (length l - n) l end.

(** The sort key: [None] where the comparison of the timestamps is not that of texts. *)
Definition stamp (e : list (pystr * Json)) : option pystr :=
  match default (JStr []) (dict_get e (lit "timestamp")) with JStr t => Some t | _ => None end.

Definition stamp_le (a b : list (pystr * Json)) : bool :=
  match stamp a, stamp b with Some s, Some t => str_leb s t | _, _ => false end.

(** The stable sort of [list.sort]. *)
Fixpoint insert_entry (e : list (pystr * Json)) (l : list (list (pystr * Json))) : list (list (pystr * Json)) :=
  match l with
  | [] => [e]
  | x :: l' => if stamp_le e x then e :: l else x :: insert_entry e l'
  end.
Definition sort_entries (l : list (list (pystr * Json))) : list (list (pystr * Json)) := foldr insert_entry [] l.

(** What pruning keeps of the entries. *)
Definition kept_entries (max_per_schedule : nat) (entries : list (list (pystr * Json)))
    : option (list (list (pystr * Json))) :=
  groups ← group_from [] entries;
  let kept := groups ≫= λ g, last_n max_per_schedule g.2 in
  if forallb (λ e, bool_decide (is_Some (stamp e))) kept then Some (sort_entries kept) else None.

Definition render_entries (entries : list (list (pystr * Json))) : pystr :=
  entries ≫= λ e, dumps (JDict e) ++ [LF].

(** [_prune_locked]: the file and the number of entries removed. *)
Definition prune_locked (max_per_schedule : nat) (file : option pystr) (readable writable : bool)
    : option (option pystr * Z) :=
  match file with
  | None => Some (file, 0)
  | Some text =>
      if negb readable then Some (file, 0)
      else
        let parsed := parsed_lines text in
        if Z.of_nat (length parsed) <=? MAX_TOTAL_ENTRIES then Some (file, 0)
        else
          entries ← mapM as_dict parsed;
          kept ← kept_entries max_per_schedule entries;
          let removed := Z.of_nat (length parsed) - Z.of_nat (length kept) in
          if 0 <? removed then
            if writable then Some (Some (render_entries kept), removed) else Some (file, 0)
          else Some (file, removed)
  end.

(** ** Recording *)

Record RunRecord := {
  h_timestamp : pystr;
  h_schedule_id : pystr;
  h_description : pystr;
  h_action : pystr;
  h_status : pystr;
  h_duration_ms : Z;
  h_error : pystr;
  h_retry_attempt : Z
}.

Definition entry_of (r : RunRecord) : list (pystr * Json) :=
  [(lit "timestamp", JStr (h_timestamp r)); (lit "schedule_id", JStr (h_schedule_id r));
   (lit "description", JStr (h_description r)); (lit "action", JStr (h_action r));
   (lit "status", JStr (h_status r)); (lit "duration_ms", JInt (h_duration_ms r))]
  ++ (if nonempty (h_error r) then [(lit "error", JStr (take 500 (h_error r)))] else [])
  ++ (if 0 <? h_retry_attempt r then [(lit "retry_attempt", JInt (h_retry_attempt r))] else []).

(** [record] with the number of characters that reach the file. *)
Definition record (max_per_schedule : nat) (h : History) (r : RunRecord) (written : nat) (readable writable : bool)
    : option (History * list (pystr * Json)) :=
  let line := dumps (JDict (entry_of r)) ++ [LF] in
  let file := if bool_decide (written = 0%nat) then history_file h
              else Some (default [] (history_file h) ++ take written line) in
  let n := records_since_prune h + 1 in
  if AUTO_PRUNE_INTERVAL <=? n then
    '(file, _) ← prune_locked max_per_schedule file readable writable;
    Some ({| history_file := file; records_since_prune := 0 |}, entry_of r)
  else Some ({| history_file := file; records_since_prune := n |}, entry_of r).

(** ** Statistics *)

Record RunStats := {
  st_total : nat;
  st_successes : nat;
  st_failures : nat;
  st_durations : list Json;
  st_last_run : Json
}.

(** [stats] up to the average of [st_durations]. *)
Definition stats (max_per_schedule : nat) (file : option pystr) (schedule_id : pystr) (readable : bool) : option RunStats :=
  found ← query file schedule_id [] (Z.of_nat max_per_schedule) readable;
  entries ← mapM as_dict found;
  let count s := length (List.filter (λ e, py_eq (entry_get e "status") (JStr (lit s))) entries) in
  Some {| st_total := length entries; st_successes := count "success"; st_failures := count "failure";
          st_durations := (λ e, default (JInt 0) (dict_get e (lit "duration_ms"))) <$> entries;
          st_last_run := match entries with e :: _ => entry_get e "timestamp" | [] => JNull end |}.

End history.

(** ** Queries *)

Notation Run := (list (pystr * Json)).

Section queries.
Context `{ClosedDump}.

Lemma selected_dict sid status e : selected sid status (JDict e) = Some (selects sid status e).
Proof. unfold selected, selects. by destruct (nonempty sid), (nonempty status). Qed.

Lemma collect_spec sid status (l : list Run) room : 1 <= room →
  collect sid status (JDict <$> l) room = Some (JDict <$> take (Z.to_nat room) (List.filter (selects sid status) l)).
Proof.
  revert room. induction l as [|e l IH]; intros room Hr; cbn [fmap list_fmap collect List.filter];
    [by rewrite take_nil|]. rewrite selected_dict. cbn [mbind option_bind].
  destruct (selects sid status e); [|by apply IH]. destruct (Z.leb_spec room 1).
  - assert (room = 1) as -> by lia. by destruct (List.filter _ l).
  - change (list (pystr * Json)) with Run in *. rewrite IH by lia. cbn [fmap option_fmap option_map].
    replace (Z.to_nat room) with (S (Z.to_nat (room - 1))) by lia. done.
Qed.

Lemma filter_rev {A} (f : A → bool) (l : list A) : List.filter f (rev l) = rev (List.filter f l).
Proof.
  induction l as [|x l IH]; cbn [rev List.filter]; [done|]. rewrite List.filter_app, IH. cbn [List.filter].
  destruct (f x); [done|by rewrite app_nil_r].
Qed.

(** The newest [n] of a file of dicts. *)
Lemma query_spec text (l : list Run) sid status room : parsed_lines text = JDict <$> l → 1 <= room →
  query (Some text) sid status room true
  = Some (JDict <$> take (Z.to_nat room) (rev (List.filter (selects sid status) l))).
Proof.
  intros Hp Hr. unfold query. rewrite Hp. change (rev (JDict <$> l)) with (rev (List.map JDict l)).
  rewrite <- List.map_rev. change (List.map JDict (rev l)) with (JDict <$> rev l).
  by rewrite collect_spec, filter_rev.
Qed.

(** ** What a rendered file reads as *)

Lemma universal_app s t : Forall (λ c, 32 <= c) s → universal (s ++ t) = s ++ universal t.
Proof. induction 1 as [|c s Hc _ IH]; cbn; [done|]. unfold CR. destruct (Z.eqb_spec c 13); [lia|]. by rewrite IH. Qed.

Lemma readlines_cons s t : Forall (λ c, 32 <= c) s → readlines (s ++ LF :: t) = (s ++ [LF]) :: readlines t.
Proof.
  induction 1 as [|c s Hc _ IH]; cbn [app readlines]; [done|].
  destruct (Z.eqb_spec c LF) as [->|]; [unfold LF in Hc; lia|]. by rewrite IH.
Qed.

Lemma lstrip_brace s : lstrip (123 :: s) = 123 :: s.
Proof. done. Qed.

Lemma strip_line kvs : strip (dumps (JDict kvs) ++ [LF]) = dumps (JDict kvs).
Proof.
  destruct (dumps_dict kvs) as [s Hs]. destruct (dumps_close kvs) as [t Ht]. unfold strip, rstrip.
  rewrite Hs at 1. cbn [app]. rewrite lstrip_brace. change (123 :: s ++ [LF]) with ((123 :: s) ++ [LF]).
  rewrite <- Hs, Ht, !rev_app_distr. cbn. by rewrite rev_involutive.
Qed.

Lemma parsed_render (l : list Run) : parsed_lines (render_entries l) = JDict <$> l.
Proof.
  unfold parsed_lines, stripped_lines. induction l as [|e l IH]; [done|].
  unfold render_entries in *. cbn [mbind list_bind]. rewrite <- app_assoc.
  pose proof (dumps_printable (JDict e)) as Hp. rewrite universal_app by done.
  assert (∀ t, universal ([LF] ++ t) = LF :: universal t) as -> by done.
  rewrite readlines_cons by done. cbn [fmap list_fmap]. rewrite strip_line.
  cbn [List.filter]. destruct (dumps_dict e) as [s Hs]. rewrite Hs at 1. cbn [nonempty omap list_omap].
  rewrite loads_dumps. by f_equal.
Qed.

(** ** The groups *)

(** The entries of a schedule. *)
Definition of_schedule (sid : pystr) (e : Run) : bool := bool_decide (dict_get e (lit "schedule_id") = Some (JStr sid)).
Definition runs_of (sid : pystr) (l : list Run) : list Run := List.filter (of_schedule sid) l.

Definition named (e : Run) : Prop := ∃ sid, dict_get e (lit "schedule_id") = Some (JStr sid).

Definition group_of (sid : pystr) (groups : list (Json * list Run)) : list Run :=
  match List.find (λ g, bool_decide (g.1 = JStr sid)) groups with Some g => g.2 | None => [] end.

Definition good_groups (groups : list (Json * list Run)) : Prop :=
  NoDup groups.*1 ∧ Forall (λ g, ∃ sid, g.1 = JStr sid ∧ Forall (λ e, of_schedule sid e = true) g.2) groups.

Lemma py_eq_str v s : py_eq v (JStr s) = bool_decide (v = JStr s).
Proof.
  destruct v as [|b|z|q|t|vs|kvs]; cbn; rewrite ?bool_decide_eq_false_2 by done; try done.
  apply bool_decide_ext. naive_solver.
Qed.

Lemma add_to_group_spec sid e groups : good_groups groups → of_schedule sid e = true →
  good_groups (add_to_group (JStr sid) e groups)
  ∧ (∀ k, k ∈ (add_to_group (JStr sid) e groups).*1 ↔ k = JStr sid ∨ k ∈ groups.*1)
  ∧ ∀ t, group_of t (add_to_group (JStr sid) e groups) = group_of t groups ++ (if bool_decide (t = sid) then [e] else []).
Proof.
  intros [Hn Hf] He. induction groups as [|[k es] groups IH]; cbn [add_to_group].
  - split_and!.
    + split; [apply NoDup_singleton|]. constructor; [|constructor]. exists sid. split; [done|by constructor].
    + intros k. cbn. set_solver.
    + intros t. unfold group_of. cbn [List.find fst snd]. destruct (decide (t = sid)) as [->|Hne].
      * by rewrite !bool_decide_refl.
      * rewrite !bool_decide_eq_false_2 by naive_solver. done.
  - cbn [fmap list_fmap fst] in Hn. apply NoDup_cons in Hn as [Hk Hn]. apply Forall_cons in Hf as [(s0 & Hs0 & Hes) Hf].
    cbn [fst snd] in *. subst k. rewrite py_eq_str. destruct (bool_decide_reflect (JStr s0 = JStr sid)) as [Heq|Hne].
    + injection Heq as ->. split_and!.
      * split; [by apply NoDup_cons|]. constructor; [|done]. exists sid. split; [done|]. apply Forall_app. split; [done|by constructor].
      * intros k. cbn. set_solver.
      * intros t. unfold group_of. cbn [List.find fst snd]. destruct (decide (t = sid)) as [->|Hne].
        -- by rewrite !bool_decide_refl.
        -- rewrite (bool_decide_eq_false_2 (JStr sid = JStr t)) by naive_solver.
           rewrite (bool_decide_eq_false_2 (t = sid)) by done. by rewrite app_nil_r.
    + destruct (IH Hn Hf) as ([Hn' Hf'] & Hkeys & Hgroup). split_and!.
      * split; [|constructor; [by exists s0|done]]. cbn [fmap list_fmap fst]. apply NoDup_cons. split; [|done].
        rewrite Hkeys. by intros [|].
      * intros k. cbn. rewrite !elem_of_cons. change (list_fmap _ _ fst) with (@fmap list _ _ _ (@fst Json (list Run))) in *.
        rewrite Hkeys. tauto.
      * intros t. unfold group_of in *. cbn [List.find fst snd]. destruct (bool_decide_reflect (JStr s0 = JStr t)) as [Heq|Hnt].
        -- injection Heq as ->. rewrite bool_decide_eq_false_2 by congruence. by rewrite app_nil_r.
        -- apply Hgroup.
Qed.

Lemma group_from_spec (l : list Run) groups : good_groups groups → Forall named l →
  ∃ groups', group_from groups l = Some groups' ∧ good_groups groups'
    ∧ ∀ sid, group_of sid groups' = group_of sid groups ++ runs_of sid l.
Proof.
  intros Hg Hl. revert groups Hg. induction Hl as [|e l [s Hs] Hl IH]; intros groups Hg.
  - exists groups. split_and!; [done|done|]. intros sid. cbn. by rewrite app_nil_r.
  - cbn [group_from]. unfold group_key. rewrite Hs. cbn [default hashable mbind option_bind].
    assert (of_schedule s e = true) as He by (unfold of_schedule; by apply bool_decide_eq_true).
    destruct (add_to_group_spec s e groups Hg He) as (Hg' & _ & Hgroup).
    destruct (IH _ Hg') as (groups' & Hfrom & Hgood & Hof). exists groups'. split_and!; [done|done|].
    intros sid. rewrite Hof, Hgroup, <- app_assoc. f_equal. unfold runs_of. cbn [List.filter]. unfold of_schedule at 2.
    rewrite Hs. destruct (decide (sid = s)) as [->|Hne].
    + by rewrite !bool_decide_refl.
    + rewrite !bool_decide_eq_false_2 by naive_solver. done.
Qed.

Lemma last_n_drop n : ∃ f, ∀ A (l : list A), last_n n l = drop (f (length l)) l.
Proof. destruct n as [|n]; [by exists (λ _, 0%nat)|by exists (λ k, (k - S n)%nat)]. Qed.

Lemma last_n_sub {A} n (l : list A) x : x ∈ last_n n l → x ∈ l.
Proof.
  destruct (last_n_drop n) as [f Hf]. rewrite Hf. intros Hx. rewrite <- (take_drop (f (length l)) l), elem_of_app. by right.
Qed.

Lemma runs_of_all sid l : Forall (λ e, of_schedule sid e = true) l → runs_of sid l = l.
Proof. induction 1 as [|e l He _ IH]; cbn; [done|]. unfold runs_of in IH. by rewrite He, IH. Qed.

Lemma runs_of_none sid t l : sid ≠ t → Forall (λ e, of_schedule t e = true) l → runs_of sid l = [].
Proof.
  intros Hne. induction 1 as [|e l He _ IH]; cbn; [done|]. unfold of_schedule in He. apply bool_decide_eq_true in He.
  unfold of_schedule at 1. rewrite He, bool_decide_eq_false_2 by naive_solver. exact IH.
Qed.

(** Of the groups that are cut, the entries of a schedule are the newest of its group. *)
Lemma runs_of_cut n sid groups : good_groups groups →
  runs_of sid (groups ≫= λ g, last_n n g.2) = last_n n (group_of sid groups).
Proof.
  intros [Hn Hf]. induction Hf as [|[k es] groups (s & Hk & Hes) Hf IH]; [by destruct n|]. cbn [fst snd] in *. subst k.
  cbn [fmap list_fmap fst] in Hn. apply NoDup_cons in Hn as [Hno Hn]. cbn [mbind list_bind snd].
  unfold runs_of in *. rewrite List.filter_app. unfold group_of in *. cbn [List.find fst snd].
  assert (Forall (λ e, of_schedule s e = true) (last_n n es)) as Hcut.
  { apply Forall_forall. intros e He%last_n_sub. rewrite Forall_forall in Hes. by apply Hes. }
  change ((fix go (xs : list (Json * list Run)) := match xs with [] => [] | x :: xs => last_n n x.2 ++ go xs end) groups)
    with (groups ≫= λ g, last_n n g.2) in *. rewrite IH by done.
  destruct (bool_decide_reflect (JStr s = JStr sid)) as [Heq|Hne].
  - injection Heq as ->. rewrite (runs_of_all sid _ Hcut : List.filter (of_schedule sid) _ = _).
    assert (List.find (λ g, bool_decide (g.1 = JStr sid)) groups = None) as ->.
    { destruct (List.find _ groups) as [g|] eqn:Hg; [|done].
      apply find_some in Hg as [Hin Hg]. apply bool_decide_eq_true in Hg. exfalso. apply Hno. rewrite <- Hg.
      apply (list_elem_of_fmap_2 fst). by apply list_elem_of_In. }
    assert (last_n n ([] : list Run) = []) as -> by by destruct n. by rewrite app_nil_r.
  - rewrite (runs_of_none sid s _ ltac:(congruence) Hcut : List.filter (of_schedule sid) _ = _). done.
Qed.

(** ** The order *)

Lemma str_leb_total s t : str_leb s t = true ∨ str_leb t s = true.
Proof.
  revert t. induction s as [|x s IH]; intros [|y t]; cbn; auto. destruct (Z.ltb_spec x y), (Z.ltb_spec y x); auto.
  assert (x = y) as -> by lia. rewrite Z.eqb_refl. apply IH.
Qed.

Lemma str_leb_trans s t u : str_leb s t = true → str_leb t u = true → str_leb s u = true.
Proof.
  revert t u. induction s as [|x s IH]; intros [|y t] [|z u]; cbn; try done. intros H1' H2'.
  apply orb_true_iff in H1', H2'. apply orb_true_iff. rewrite !andb_true_iff, !Z.ltb_lt, !Z.eqb_eq in *.
  destruct H1' as [|[-> ?]], H2' as [|[-> ?]]; [left; lia|by left|by left|]. right. split; [done|]. by eapply IH.
Qed.

Definition stamped (e : Run) : Prop := is_Some (stamp e).
Definition no_later (a b : Run) : Prop := stamp_le a b = true.

Lemma no_later_total a b : stamped a → stamped b → no_later a b ∨ no_later b a.
Proof. unfold no_later, stamp_le. intros [s ->] [t ->]. apply str_leb_total. Qed.

#[export] Instance no_later_trans : Transitive no_later.
Proof. intros a b c. unfold no_later, stamp_le. repeat case_match; try done. apply str_leb_trans. Qed.

Lemma insert_entry_perm e l : insert_entry e l ≡ₚ e :: l.
Proof.
  induction l as [|x l IH]; cbn; [done|]. destruct (stamp_le e x); [done|]. rewrite IH. apply Permutation_swap.
Qed.

Lemma sort_entries_perm l : sort_entries l ≡ₚ l.
Proof. induction l as [|e l IH]; cbn; [done|]. by rewrite insert_entry_perm, IH. Qed.

Lemma insert_entry_sorted e l : stamped e → Forall stamped l → StronglySorted no_later l →
  StronglySorted no_later (insert_entry e l).
Proof.
  intros He Hl Hs. induction Hs as [|x l Hs IH Hx]; cbn; [by repeat constructor|].
  apply Forall_cons in Hl as [Hxs Hl]. destruct (stamp_le e x) eqn:Hle.
  - constructor; [by constructor|]. constructor; [done|]. eapply Forall_impl; [exact Hx|]. intros y Hy. by transitivity x.
  - constructor; [by apply IH|]. apply Forall_forall. intros y Hy. rewrite insert_entry_perm in Hy.
    apply elem_of_cons in Hy as [->|Hy]; [|by rewrite Forall_forall in Hx; apply Hx].
    destruct (no_later_total e x He Hxs) as [Habs|]; [unfold no_later in Habs; congruence|done].
Qed.

Lemma sort_entries_sorted l : Forall stamped l → StronglySorted no_later (sort_entries l).
Proof.
  induction 1 as [|e l He Hl IH]; cbn; [constructor|]. apply insert_entry_sorted; [done| |done].
  by rewrite sort_entries_perm.
Qed.

(** Selecting entries commutes with the stable sort. *)
Lemma filter_insert (f : Run → bool) e l : StronglySorted no_later l →
  List.filter f (insert_entry e l) = if f e then insert_entry e (List.filter f l) else List.filter f l.
Proof.
  induction 1 as [|x l Hs IH Hx]; cbn [insert_entry List.filter]; [by destruct (f e)|].
  destruct (stamp_le e x) eqn:Hle.
  - cbn [List.filter]. destruct (f e); [|done].
    assert (Forall (no_later e) (List.filter f (x :: l))) as Hall.
    { apply Forall_forall. intros y Hy. apply list_elem_of_In, List.filter_In in Hy as [Hy _]. apply list_elem_of_In in Hy.
      apply elem_of_cons in Hy as [->|Hy]; [done|]. transitivity x; [done|]. rewrite Forall_forall in Hx. by apply Hx. }
    cbn [List.filter] in Hall. destruct Hall as [|y l' Hy _]; [done|]. cbn [insert_entry]. unfold no_later in Hy. by rewrite Hy.
  - cbn [List.filter]. rewrite IH. destruct (f x), (f e); cbn [insert_entry]; try done. by rewrite Hle.
Qed.

Lemma filter_sort (f : Run → bool) l : Forall stamped l →
  List.filter f (sort_entries l) = sort_entries (List.filter f l).
Proof.
  induction 1 as [|e l He Hl IH]; [done|]. cbn [sort_entries foldr]. fold (sort_entries l).
  rewrite filter_insert by by apply sort_entries_sorted. rewrite IH. cbn [List.filter]. by destruct (f e).
Qed.

Lemma sort_sorted l : StronglySorted no_later l → sort_entries l = l.
Proof.
  induction 1 as [|e l Hs IH He]; [done|]. cbn [sort_entries foldr]. fold (sort_entries l). rewrite IH.
  destruct He as [|x l Hx _]; [done|]. cbn. unfold no_later in Hx. by rewrite Hx.
Qed.

Lemma drop_sorted n (l : list Run) : StronglySorted no_later l → StronglySorted no_later (drop n l).
Proof. revert l. induction n as [|n IH]; intros l Hs; [done|]. destruct Hs; cbn; [constructor|by apply IH]. Qed.

(** ** Pruning *)

Lemma selects_named sid (l : list Run) : nonempty sid = true → Forall named l →
  List.filter (selects sid []) l = runs_of sid l.
Proof.
  intros Hsid Hl. induction Hl as [|e l [s Hs] _ IH]; [done|]. unfold runs_of in *. cbn [List.filter]. rewrite IH.
  assert (selects sid [] e = of_schedule sid e) as ->; [|done].
  unfold selects, of_schedule, entry_get. rewrite Hsid, Hs. cbn [negb orb nonempty default]. rewrite andb_true_r, py_eq_str.
  apply bool_decide_ext. naive_solver.
Qed.

Lemma in_group sid e groups g : good_groups groups → g ∈ groups → e ∈ g.2 → of_schedule sid e = true → e ∈ group_of sid groups.
Proof.
  intros [Hn Hf] Hg He Hof. unfold group_of. destruct (List.find _ groups) as [h|] eqn:Hh.
  - apply find_some in Hh as [Hin Hk]. apply bool_decide_eq_true in Hk. apply list_elem_of_In in Hin.
    rewrite Forall_forall in Hf. destruct (Hf g Hg) as (s & Hs & Hall). rewrite Forall_forall in Hall.
    specialize (Hall e He). unfold of_schedule in *. bool_prop. assert (s = sid) as -> by naive_solver.
    assert (h = g) as ->; [|done]. destruct g as [k es], h as [k' es']. cbn in *. subst.
    apply list_elem_of_lookup in Hg as (i & Hi), Hin as (j & Hj).
    assert (i = j) as ->; [|by simplify_eq]. eapply (NoDup_lookup _ _ _ (JStr sid) Hn); rewrite list_lookup_fmap; [by rewrite Hi|by rewrite Hj].
  - exfalso. pose proof (find_none _ _ Hh g (proj1 (list_elem_of_In _ _) Hg)) as Habs. cbn in Habs.
    rewrite Forall_forall in Hf. destruct (Hf g Hg) as (s & Hs & Hall). rewrite Forall_forall in Hall. specialize (Hall e He).
    unfold of_schedule in *. bool_prop. apply Habs. rewrite Hs. naive_solver.
Qed.

Lemma kept_spec n (l : list Run) : Forall named l → Forall stamped l →
  ∃ kept, kept_entries n l = Some kept ∧ Forall named kept
    ∧ ∀ sid, StronglySorted no_later (runs_of sid l) → runs_of sid kept = last_n n (runs_of sid l).
Proof.
  intros Hn Hs. destruct (group_from_spec l [] (conj (NoDup_nil_2 (A := Json)) (List.Forall_nil _)) Hn)
    as (groups & Hg & Hgood & Hof). unfold kept_entries. rewrite Hg. cbn [mbind option_bind].
  set (cut := groups ≫= λ g, last_n n g.2).
  assert (∀ e, e ∈ cut → e ∈ l) as Hsub.
  { intros e He. unfold cut in He. apply list_elem_of_bind in He as (g & He & Hing). apply last_n_sub in He.
    pose proof Hgood as [_ Hf]. rewrite Forall_forall in Hf. destruct (Hf g Hing) as (s & Hk & Hall).
    rewrite Forall_forall in Hall. pose proof (Hall e He) as Hes.
    pose proof (in_group s e groups g Hgood Hing He Hes) as Hin. rewrite Hof in Hin. cbn in Hin. unfold runs_of in Hin.
    by apply list_elem_of_In, List.filter_In in Hin as [Hin%list_elem_of_In _]. }
  assert (Forall stamped cut) as Hcs.
  { apply Forall_forall. intros e He. rewrite Forall_forall in Hs. by apply Hs, Hsub. }
  assert (forallb (λ e, bool_decide (is_Some (stamp e))) cut = true) as ->.
  { apply forallb_forall. intros e He%list_elem_of_In. apply bool_decide_eq_true. rewrite Forall_forall in Hcs. by apply Hcs. }
  exists (sort_entries cut). split_and!; [done|..].
  - rewrite sort_entries_perm. apply Forall_forall. intros e He. rewrite Forall_forall in Hn. by apply Hn, Hsub.
  - intros sid Hsorted. unfold runs_of at 1. rewrite filter_sort by done.
    pose proof (runs_of_cut n sid groups Hgood) as Hcut. fold cut in Hcut. unfold runs_of in Hcut. rewrite Hcut, Hof.
    cbn [group_of List.find app]. apply sort_sorted. destruct (last_n_drop n) as [f Hd]. rewrite Hd.
    by apply drop_sorted.
Qed.

(** Pruning a history whose entries name their schedule and are stamped raises
    nothing, and the last runs of every schedule whose runs are in the order of their
    stamps, up to the number pruning keeps, read the same before and after, whether
    the pruned file could be written or not. *)
Theorem pruning_is_invisible max_per_schedule text (l : list Run) sid limit writable :
  parsed_lines text = JDict <$> l → Forall named l → Forall stamped l →
  StronglySorted no_later (runs_of sid l) → nonempty sid = true → 1 <= limit <= Z.of_nat max_per_schedule →
  ∃ file removed, prune_locked max_per_schedule (Some text) true writable = Some (file, removed)
    ∧ query file sid [] limit true = query (Some text) sid [] limit true.
Proof.
  intros Hp Hn Hs Hsorted Hsid Hlim. unfold prune_locked. cbn [negb]. destruct (_ <=? MAX_TOTAL_ENTRIES); [eauto|].
  assert (mapM as_dict (parsed_lines text) = Some l) as ->.
  { rewrite Hp. apply mapM_Some, Forall2_fmap_l. by apply Forall2_same_length_lookup_2; [|intros; simplify_eq]. }
  destruct (kept_spec max_per_schedule l Hn Hs) as (kept & Hk & Hkn & Hruns). cbn [mbind option_bind]. rewrite Hk.
  cbn [mbind option_bind]. destruct (_ <? _); [|eauto]. destruct writable; [|eauto].
  eexists _, _. split; [done|]. rewrite (query_spec _ kept) by (by apply parsed_render || lia).
  rewrite (query_spec text l) by (done || lia). f_equal. rewrite !selects_named by done. rewrite Hruns by done.
  destruct max_per_schedule as [|m]; [lia|]. unfold last_n. rewrite <- List.firstn_rev. change @firstn with @take.
  rewrite take_take. do 2 f_equal. lia.
Qed.

End queries.

(** ** A history that is pruned *)

Module HistoryWitness.
Import Concrete.

Definition closed_print (v : Json) : pystr := 123 :: bits (encode (enc v)) ++ [125].
Definition closed_read (s : pystr) : option Json :=
  match List.filter (λ c, negb (c =? LF)) s with
  | 123 :: s => decode (of_bits (removelast s)) ≫= dec
  | _ => None
  end.

Lemma closed_read_print v : closed_read (closed_print v) = Some v.
Proof.
  unfold closed_read, closed_print. cbn [List.filter]. rewrite List.filter_app.
  destruct (bits_plain (encode (enc v))) as (_ & -> & Hof). cbn. rewrite removelast_last, Hof, decode_encode. apply dec_enc.
Qed.

#[export] Instance closed_codec : Codec.
Proof.
  refine {| dumps := closed_print; dumps_compact := closed_print; loads := closed_read;
            loads_dumps := closed_read_print; loads_compact := closed_read_print |}.
  - intros s. unfold closed_read. rewrite List.filter_app. by rewrite app_nil_r.
  - intros v. constructor; [lia|]. apply Forall_app. split; [apply bits_plain|by constructor].
  - intros kvs. eexists. reflexivity.
Defined.

#[export] Instance closed_dump : ClosedDump.
Proof. split. intros kvs. by exists (123 :: bits (encode (enc (JDict kvs)))). Defined.

Definition nightly_run : Run := [(lit "schedule_id", JStr (lit "a")); (lit "timestamp", JStr (lit "t"))].
Definition many : list Run := replicate 5001 nightly_run.

Lemma many_sorted n : StronglySorted no_later (runs_of (lit "a") (replicate n nightly_run)).
Proof.
  induction n as [|n IH]; [constructor|]. cbn. constructor; [exact IH|]. apply Forall_forall. intros e He.
  apply list_elem_of_In, List.filter_In in He as [He _]. apply list_elem_of_In, elem_of_replicate in He as [-> _]. done.
Qed.

(** Of five thousand and one runs the last two hundred read as before. *)
Lemma pruning_is_invisible_witness : ∃ file removed,
  prune_locked 200 (Some (render_entries many)) true true = Some (file, removed)
  ∧ query file (lit "a") [] 200 true = query (Some (render_entries many)) (lit "a") [] 200 true.
Proof.
  apply (pruning_is_invisible 200 (render_entries many) many (lit "a") 200 true).
  - apply parsed_render.
  - apply Forall_replicate. by exists (lit "a").
  - apply Forall_replicate. by eexists.
  - apply many_sorted.
  - reflexivity.
  - lia.
Defined.

End HistoryWitness.
