(* ===== verification/SessionText.v ===== *)
(** * Texts of the conversation history (the functions of src/src/sessions/manager.py
    and src/src/relevance.py that only read and build texts)

    Summaries are defused ([_sanitize_summary]), long answers of a tool run are cut
    to their outcome ([summarize_tool_response]), the history sent to a model is cut
    to its budget ([apply_token_budget]), and texts are ranked by the words they share
    with a query.  Case folding is Python's for ASCII letters and for the four other
    characters that fold to one. *)

From S2P Require Import Prelude PyStr PyLib.
From Stdlib Require Import QArith.
Open Scope string_scope.
Open Scope list_scope.
Open Scope Z_scope.

(** ** Words *)

(** [re.IGNORECASE] on a letter of a pattern. *)
Definition fold_case (c : Z) : Z :=
  if (65 <=? c) && (c <=? 90) then c + 32
  else if (c =? 304) || (c =? 305) then 105
  else if c =? 383 then 115
  else if c =? 8490 then 107
  else c.

(** The pattern, in lower case, at the start of [s]. *)
Fixpoint folded_prefix (p s : pystr) : bool :=
  match p, s with
  | [], _ => true
  | _, [] => false
  | x :: p, y :: s => (x =? fold_case y) && folded_prefix p s
  end.

Definition IMPERATIVES : list pystr :=
  Eval compute in lit <$> ["run"; "execute"; "restart"; "deploy"; "check"; "install"; "update";
    "delete"; "create"; "stop"; "start"; "kill"; "push"; "merge"; "build"].

(** How many characters of white space [s] starts with. *)
Fixpoint leading_spaces (s : pystr) : nat :=
  match s with
  | c :: s => if is_space c then S (leading_spaces s) else 0
  | [] => 0
  end.

(** The length of a match of [(?:run|...)\s+] at the start of [s]. *)
Definition imperative (s : pystr) : option nat :=
  foldr (λ w rest,
    if folded_prefix w s then
      match leading_spaces (drop (length w) s) with O => rest | n => Some (length w + n)%nat end
    else rest) None IMPERATIVES.

Definition COMPLETED : pystr := Eval compute in lit "[completed] ".

(** [_IMPERATIVE_RE.sub]: [inside] characters of a match are still to be copied, and
    [bol] tells that the place is one where [^] matches. *)
Fixpoint defuse (inside : nat) (bol : bool) (s : pystr) : pystr :=
  match s with
  | [] => []
  | c :: s' =>
      match inside with
      | S n => c :: defuse n (c =? LF) s'
      | O =>
          match (if bol then imperative s else None) with
          | Some n => COMPLETED ++ c :: defuse (n - 1) (c =? LF) s'
          | None => c :: defuse 0 (c =? LF) s'
          end
      end
  end.

Definition sanitize_summary (summary : pystr) : pystr := defuse 0 true summary.

(** ** Tokens *)

Definition CHARS_PER_TOKEN : Z := 4.
Definition estimate_tokens (text : pystr) : Z := Z.max 1 (Z.of_nat (length text) / CHARS_PER_TOKEN).

(** ** Answers of a tool run *)

Definition TOOL_SUMMARY_THRESHOLD : nat := 10.
Definition TOOL_SUMMARY_MAX_CHARS : nat := 2000.

(** [s.split(b"\n\n")] *)
Fixpoint paragraphs_from (word : pystr) (s : pystr) : list pystr :=
  match s with
  | 10 :: ((10 :: s') as rest) => rev word :: paragraphs_from [] s'
  | c :: s => paragraphs_from (c :: word) s
  | [] => [rev word]
  end.

Definition paragraphs (s : pystr) : list pystr :=
  List.filter nonempty (strip <$> paragraphs_from [] s).

(** [", ".join(ws)] *)
Fixpoint commas (ws : list pystr) : pystr :=
  match ws with
  | [] => []
  | [w] => w
  | w :: ws => w ++ lit ", " ++ commas ws
  end.

(** The tools in the order of their first use. *)
Definition unique (tools : list pystr) : list pystr :=
  foldl (λ seen t, if bool_decide (t ∈ seen) then seen else seen ++ [t]) [] tools.

Definition tool_header (tools : list pystr) : pystr :=
  let uniq := unique tools in
  lit "[Task used " ++ show (Z.of_nat (length tools)) ++ lit " tool calls (" ++ commas (take 15 uniq)
  ++ (if bool_decide (15 < length uniq)%nat then lit " (+" ++ show (Z.of_nat (length uniq) - 15) ++ lit " more)" else [])
  ++ lit ")]" ++ [LF].

(** [s[-k:]] of an integer. *)
Definition slice_from_end (k : Z) (s : pystr) : pystr :=
  if k <=? 0 then drop (Z.to_nat (- k)) s else drop (length s - Z.to_nat k) s.

(** [s.find(" ")] *)
Fixpoint first_blank (s : pystr) : option nat :=
  match s with
  | [] => None
  | c :: s => if c =? 32 then Some 0%nat else S <$> first_blank s
  end.

(** The last paragraph, with the one before it when it is short. *)
Definition outcome_of (response : pystr) : pystr :=
  match rev (paragraphs response) with
  | [] => slice_from_end 400 response
  | [p] => p
  | p :: q :: _ => if bool_decide (length p < 100)%nat then q ++ [LF; LF] ++ p else p
  end.

Definition fit_outcome (budget : Z) (outcome : pystr) : pystr :=
  if Z.of_nat (length outcome) <=? budget then outcome
  else
    let outcome := slice_from_end (budget - 3) outcome in
    match first_blank outcome with
    | Some (S n) => if bool_decide (S n < 50)%nat then lit "..." ++ drop (S n) outcome else lit "..." ++ outcome
    | _ => lit "..." ++ outcome
    end.

Definition summarize_tool_response (response : pystr) (tools_used : list pystr) (threshold : nat) : pystr :=
  if bool_decide (length tools_used < threshold)%nat then response
  else if bool_decide (length response <= TOOL_SUMMARY_MAX_CHARS)%nat then response
  else
    let header := tool_header tools_used in
    header ++ fit_outcome (Z.of_nat TOOL_SUMMARY_MAX_CHARS - Z.of_nat (length header)) (outcome_of response).

(** ** The budget of a request *)

Definition BUDGET_KEEP_RECENT : nat := 12.
Definition CONTEXT_TOKEN_BUDGET : Z := 64000.

(** A message of a request: its role and its content. *)
Notation Turn := (pystr * pystr)%type.

Definition PROTECTED_PREFIXES : list pystr :=
  Eval compute in lit <$> ["[HISTORY_READ_ONLY]"; "[SESSION_CONTEXT_READ_ONLY]"; "[Previous conversation summary:"].
Definition UNDERSTOOD : pystr := Eval compute in lit "Understood, I have context from our previous conversation.".

Definition protected (m : Turn) : bool :=
  existsb (λ p, startswith p m.2) PROTECTED_PREFIXES || bool_decide (m.2 = UNDERSTOOD).

(** The number of messages at the start that are protected. *)
Fixpoint protected_count (older : list Turn) : nat :=
  match older with
  | m :: older => if protected m then S (protected_count older) else 0
  | [] => 0
  end.

Definition tokens (ms : list Turn) : Z := foldr (λ m n, estimate_tokens m.2 + n) 0 ms.

(** [while droppable and recent_tokens + _older_tokens() > budget] *)
Fixpoint drop_oldest (budget kept : Z) (droppable : list Turn) : list Turn * Z :=
  match droppable with
  | [] => ([], 0)
  | m :: rest =>
      if budget <? kept + tokens droppable then
        let '(ms, n) := drop_oldest budget kept rest in (ms, n + 1)
      else (droppable, 0)
  end.

(** The history that is sent and the number of dropped messages it reports. *)
Definition apply_token_budget (messages : list Turn) (budget : Z) : list Turn * Z :=
  if bool_decide (messages = []) then (messages, 0)
  else if tokens messages <=? budget then (messages, 0)
  else
    let keep_n := Nat.min BUDGET_KEEP_RECENT (length messages) in
    let older := take (length messages - keep_n) messages in
    let recent := drop (length messages - keep_n) messages in
    let n := protected_count older in
    let summary_pair := take n older in
    let '(droppable, dropped) := drop_oldest budget (tokens recent + tokens summary_pair) (drop n older) in
    if bool_decide (summary_pair <> []) && (budget <? tokens recent + tokens (summary_pair ++ droppable))
    then (droppable ++ recent, dropped + 2)
    else (summary_pair ++ droppable ++ recent, dropped).

(** ** Relevance *)

Definition STOP_WORDS : list pystr :=
  Eval compute in lit <$> ["a"; "an"; "the"; "is"; "it"; "in"; "on"; "to"; "of"; "and"; "or"; "for"; "that";
    "this"; "with"; "was"; "are"; "be"; "has"; "have"; "had"; "do"; "does"; "did"; "but"; "not"; "you"; "i";
    "me"; "my"; "we"; "he"; "she"; "they"; "what"; "how"; "can"; "will"; "just"; "so"; "if"; "no"; "yes";
    "at"; "by"; "from"; "up"; "out"; "as"].

(** [[a-z0-9_./:-]] *)
Definition token_char (c : Z) : bool :=
  ((97 <=? c) && (c <=? 122)) || ((45 <=? c) && (c <=? 58)) || (c =? 95).

(** [_TOKEN_RE.findall]: the longest runs of such characters. *)
Fixpoint token_runs (word : pystr) (s : pystr) : list pystr :=
  match s with
  | [] => if nonempty word then [rev word] else []
  | c :: s =>
      if token_char c then token_runs (c :: word) s
      else (if nonempty word then [rev word] else []) ++ token_runs [] s
  end.
Definition findall_tokens (s : pystr) : list pystr := token_runs [] s.

(** [str.lower], a parameter. *)
Class Lower := { str_lower : pystr → pystr }.

Section relevance.
Context `{Lower}.

Definition tokenize (text : pystr) : gset pystr :=
  list_to_set (List.filter (λ t, bool_decide (t ∉ STOP_WORDS) && bool_decide (1 < length t)%nat)
                 (findall_tokens (str_lower text))).

(** The quotient of the two sizes. *)
Definition score (query text : pystr) : Q :=
  let query_tokens := tokenize query in
  if bool_decide (query_tokens = ∅) then 0%Q
  else if bool_decide (tokenize text = ∅) then 0%Q
  else Z.of_nat (size (query_tokens ∩ tokenize text)) # Pos.of_nat (size query_tokens).

(** [kept.sort(key=lambda x: (-x[0], x[1]))]: better first, ties in their order. *)
Fixpoint insert_scored {T : Type} (x : Q * T) (l : list (Q * T)) : list (Q * T) :=
  match l with
  | [] => [x]
  | y :: l' => if Qle_bool y.1 x.1 then x :: l else y :: insert_scored x l'
  end.
Definition sort_scored {T : Type} (l : list (Q * T)) : list (Q * T) := foldr insert_scored [] l.

(** [rank] with the floor 0, which every score reaches. *)
Definition rank {T : Type} (query : pystr) (items : list T) (text_fn : T → pystr) (top_k : nat) : list T :=
  (take top_k (sort_scored ((λ item, (score query (text_fn item), item)) <$> items))).*2.

End relevance.

(** ** Defused summaries *)

(** Some line of [s] asks for something to be done. *)
Fixpoint requests (bol : bool) (s : pystr) : bool :=
  match s with
  | [] => false
  | c :: s' => (bol && bool_decide (is_Some (imperative s))) || requests (c =? LF) s'
  end.

(** A text up to its first line feed. *)
Fixpoint first_line (s : pystr) : pystr :=
  match s with
  | [] => []
  | c :: s => if c =? LF then [c] else c :: first_line s
  end.

(** A word of the pattern and what follows it. *)
Definition asks (w s : pystr) : bool :=
  folded_prefix w s && match leading_spaces (drop (length w) s) with O => false | _ => true end.

Lemma imperative_None s : imperative s = None ↔ Forall (λ w, asks w s = false) IMPERATIVES.
Proof.
  unfold imperative, asks. induction IMPERATIVES as [|w ws IH]; [done|]. cbn [foldr]. rewrite Forall_cons, <- IH.
  destruct (folded_prefix w s); cbn [andb]; [|naive_solver]. destruct (leading_spaces _); naive_solver.
Qed.

Lemma imperative_spec s n : imperative s = Some n →
  ∃ w sp rest, s = w ++ sp ++ rest ∧ n = (length w + length sp)%nat ∧ w ≠ [] ∧ sp ≠ [] ∧ LF ∉ w
    ∧ Forall (λ c, is_space c = true) sp.
Proof.
  assert (∀ p t, Forall (λ c, 97 <= c) p → folded_prefix p t = true → LF ∉ take (length p) t ∧ (length p <= length t)%nat) as Hpre.
  { intros p. induction p as [|x p IH]; intros [|y t] Hp Hf; cbn in *; try (split; [set_solver|lia]).
    apply Forall_cons in Hp as [Hx Hp]. bool_prop. destruct (IH t Hp) as [Hn Hl]; [done|]. split; [|lia].
    apply not_elem_of_cons. split; [|done]. intros <-. unfold fold_case, LF in *. cbn in *. lia. }
  assert (∀ t, t = take (leading_spaces t) t ++ drop (leading_spaces t) t
    ∧ Forall (λ c, is_space c = true) (take (leading_spaces t) t) ∧ (leading_spaces t <= length t)%nat) as Hsp.
  { intros t. rewrite take_drop. split; [done|]. induction t as [|c t IH]; cbn; [split; [constructor|lia]|].
    destruct (is_space c) eqn:Hc; cbn; [|split; [constructor|lia]]. destruct IH. split; [by constructor|lia]. }
  assert (Forall (λ w : pystr, Forall (λ c, 97 <= c) w ∧ w ≠ []) IMPERATIVES) as Hwords.
  { repeat constructor; done || lia. }
  unfold imperative. induction Hwords as [|w ws [Hw Hne] _ IH]; cbn [foldr]; [done|].
  destruct (folded_prefix w s) eqn:Hf; [|done]. destruct (leading_spaces _) as [|k] eqn:Hk; [done|]. intros [= <-].
  destruct (Hpre w s Hw Hf) as [Hlf Hlen]. destruct (Hsp (drop (length w) s)) as (Heq & Hall & Hle). rewrite Hk in *.
  exists (take (length w) s), (take (S k) (drop (length w) s)), (drop (S k) (drop (length w) s)).
  rewrite <- Heq, take_drop. split_and!; [done|..|done|done].
  - rewrite !length_take. lia.
  - intros H0. apply (f_equal length) in H0. rewrite length_take in H0. destruct w; [done|]. cbn [length] in *. lia.
  - intros H0. apply (f_equal length) in H0. rewrite length_take in H0. cbn [length] in H0. lia.
Qed.

Lemma asks_first_line w s : Forall (λ c, 97 <= c) w → asks w s = asks w (first_line s).
Proof.
  intros Hw. revert s. induction Hw as [|x w Hx Hw IH]; intros s; unfold asks in *; cbn [folded_prefix length drop].
  - cbn [andb]. destruct s as [|c s]; [done|]. cbn [first_line]. destruct (Z.eqb_spec c LF) as [->|]; cbn; [done|].
    by destruct (is_space c).
  - destruct s as [|c s]; [done|]. cbn [first_line folded_prefix drop]. destruct (Z.eqb_spec c LF) as [->|Hc].
    + assert ((x =? fold_case LF) = false) as -> by (apply Z.eqb_neq; cbn; unfold LF; lia). done.
    + destruct (x =? fold_case c); cbn [andb]; [|done]. apply IH.
Qed.

Lemma imperative_first_line s t : first_line s = first_line t → imperative s = None → imperative t = None.
Proof.
  rewrite !imperative_None. intros Heq. assert (Forall (λ w : pystr, Forall (λ c, 97 <= c) w) IMPERATIVES) as Hw.
  { repeat constructor; lia. }
  rewrite !Forall_forall. rewrite Forall_forall in Hw. intros Hs w Hin.
  rewrite asks_first_line, <- Heq, <- asks_first_line; auto.
Qed.

Lemma defuse_first_line s n b : n ≠ 0%nat ∨ b = false → first_line (defuse n b s) = first_line s.
Proof.
  revert n b. induction s as [|c s IH]; intros n b Hn; [done|].
  assert (∃ m, defuse n b (c :: s) = c :: defuse m (c =? LF) s) as [m ->].
  { cbn [defuse]. destruct n; [|eauto]. destruct Hn as [|Hn]; [done|]. rewrite Hn. eauto. }
  cbn [first_line]. destruct (c =? LF) eqn:Hc; [done|]. f_equal. apply IH. by right.
Qed.

(** What is left of a match: the rest of its word, then white space. *)
Definition inside (n : nat) (b : bool) (s : pystr) : Prop :=
  ∃ w sp rest, s = w ++ sp ++ rest ∧ n = (length w + length sp)%nat ∧ LF ∉ w ∧ Forall (λ c, is_space c = true) sp
    ∧ (b = true → w = []).

Lemma space_asks_nothing c s : is_space c = true → imperative (c :: s) = None.
Proof.
  intros Hc. apply imperative_None. assert (∀ x, 97 <= x <= 122 → (x =? fold_case c) = false) as Hne.
  { intros x Hx. apply Z.eqb_neq. unfold is_space, fold_case in *. repeat case_match; bool_prop; lia. }
  unfold IMPERATIVES. repeat (constructor; [unfold asks; cbn [folded_prefix]; rewrite Hne by lia; done|]). constructor.
Qed.

Lemma requests_completed b s : requests b (COMPLETED ++ s) = requests false s.
Proof.
  assert (imperative (COMPLETED ++ s) = None) as Hn by done. unfold COMPLETED in *. cbn [app requests] in *.
  rewrite Hn, andb_false_r. cbn. done.
Qed.

Lemma defuse_requests s n b : (n ≠ 0%nat → inside n b s) → requests b (defuse n b s) = false.
Proof.
  revert n b. induction s as [|c s IH]; intros n b Hin; [done|]. cbn [defuse]. destruct n as [|n].
  - destruct b; cycle 1.
    { cbn [requests andb orb]. by apply IH. }
    destruct (imperative (c :: s)) as [n|] eqn:Hi.
    + rewrite requests_completed. cbn [requests andb orb]. apply IH. intros Hn.
      apply imperative_spec in Hi as (w & sp & rest & Heq & -> & Hw & Hsp & Hlf & Hall).
      destruct w as [|x w]; [done|]. cbn in Heq. injection Heq as <- ->. apply not_elem_of_cons in Hlf as [Hc Hlf].
      exists w, sp, rest. split_and!; [done|cbn in *; lia|done|done|]. intros Hb. apply Z.eqb_eq in Hb. congruence.
    + assert (imperative (c :: defuse 0 (c =? LF) s) = None) as Hn.
      { revert Hi. apply imperative_first_line. cbn [first_line]. destruct (c =? LF) eqn:Hc; [done|].
        f_equal. symmetry. apply defuse_first_line. by right. }
      cbn [requests]. rewrite Hn. rewrite bool_decide_eq_false_2 by (by intros []). cbn. by apply IH.
  - destruct (Hin ltac:(done)) as (w & sp & rest & Heq & Hlen & Hlf & Hall & Hb). cbn [requests].
    assert (b && bool_decide (is_Some (imperative (c :: defuse n (c =? LF) s))) = false) as ->.
    { destruct b; [|done]. rewrite (Hb eq_refl) in *. destruct sp as [|x sp]; [done|]. cbn in Heq. injection Heq as <- _.
      apply Forall_cons in Hall as [Hx _]. rewrite space_asks_nothing by done. by rewrite bool_decide_eq_false_2 by (by intros []). }
    cbn [orb]. apply IH. intros _. destruct w as [|x w].
    + destruct sp as [|x sp]; [done|]. cbn in Heq. injection Heq as <- ->. apply Forall_cons in Hall as [_ Hall].
      exists [], sp, rest. split_and!; [done|cbn in *; lia|set_solver|done|done].
    + cbn in Heq. injection Heq as <- ->. apply not_elem_of_cons in Hlf as [Hc Hlf].
      exists w, sp, rest. split_and!; [done|cbn in *; lia|done|done|]. intros He. apply Z.eqb_eq in He. congruence.
Qed.

Lemma defuse_sublist s n b : sublist s (defuse n b s).
Proof.
  revert n b. induction s as [|c s IH]; intros n b; [constructor|]. cbn [defuse]. destruct n; [|by constructor].
  destruct (if b then _ else _); [|by constructor]. apply sublist_inserts_l. by constructor.
Qed.

(** No line of a defused summary asks for something to be done, and nothing but
    markers was added to the summary. *)
Lemma sanitized_summaries_request_nothing summary :
  requests true (sanitize_summary summary) = false ∧ sublist summary (sanitize_summary summary).
Proof. split; [by apply defuse_requests|apply defuse_sublist]. Qed.

Example sanitized_lines :
  sanitize_summary (lit "Run tests" ++ [LF; LF] ++ lit "running" ++ [LF] ++ lit "DEPLOY  it")
  = lit "[completed] Run tests" ++ [LF; LF] ++ lit "running" ++ [LF] ++ lit "[completed] DEPLOY  it".
Proof. reflexivity. Qed.

(** ** Requests within their budget *)

Lemma tokens_app ms ms' : tokens (ms ++ ms') = tokens ms + tokens ms'.
Proof. induction ms as [|m ms IH]; cbn [app tokens foldr]; [done|]. unfold tokens in IH. rewrite IH. unfold tokens. lia. Qed.

Lemma protected_prefix older : Forall (λ m, protected m = true) (take (protected_count older) older).
Proof. induction older as [|m older IH]; cbn; [constructor|]. destruct (protected m) eqn:Hm; cbn; by constructor. Qed.

Lemma drop_oldest_spec budget kept ms :
  let '(rest, n) := drop_oldest budget kept ms in
  ∃ gone, ms = gone ++ rest ∧ n = Z.of_nat (length gone) ∧ (rest = [] ∨ kept + tokens rest <= budget)
    ∧ (gone = [] ∨ ∃ g m, gone = g ++ [m] ∧ budget < kept + tokens (m :: rest)).
Proof.
  induction ms as [|m ms IH]; cbn [drop_oldest].
  { exists []. split_and!; auto. }
  destruct (Z.ltb_spec budget (kept + tokens (m :: ms))) as [Hover|Hfit].
  - destruct (drop_oldest budget kept ms) as [rest n]. destruct IH as (gone & -> & -> & Hrest & Hlast).
    exists (m :: gone). split_and!; [done|cbn [length]; lia|done|]. right. destruct Hlast as [->|(g & x & -> & Hx)].
    + by exists [], m.
    + by exists (m :: g), x.
  - exists []. split_and!; auto.
Qed.

(** The history that is sent consists of the protected block at its start, the
    newest of the older messages and the twelve newest.  It fits the budget unless
    these twelve alone exceed it, no message was dropped that would still have fitted,
    and the protected block goes only after every other older message; the number
    reported is that of the messages dropped, but counts two for the block. *)
Lemma history_fits_the_budget messages budget :
  let '(sent, dropped) := apply_token_budget messages budget in
  ∃ block gone kept recent, messages = block ++ gone ++ kept ++ recent
    ∧ length recent = Nat.min BUDGET_KEEP_RECENT (length messages)
    ∧ (gone ≠ [] → Forall (λ m, protected m = true) block)
    ∧ (gone = [] ∨ ∃ g m, gone = g ++ [m] ∧ budget < tokens (block ++ m :: kept ++ recent))
    ∧ ((sent = block ++ kept ++ recent ∧ dropped = Z.of_nat (length gone)
        ∧ (tokens sent <= budget ∨ sent = recent))
       ∨ (block ≠ [] ∧ kept = [] ∧ sent = recent ∧ budget < tokens (block ++ recent)
          ∧ dropped = Z.of_nat (length gone) + 2)).
Proof.
  unfold apply_token_budget. set (k := Nat.min BUDGET_KEEP_RECENT (length messages)).
  set (older := take (length messages - k) messages). set (recent := drop (length messages - k) messages).
  assert (length recent = k) as Hk by (unfold recent, k; rewrite length_drop; lia).
  assert (messages = older ++ recent) as Hms by (unfold older, recent; by rewrite take_drop).
  assert (tokens messages <= budget → ∃ block gone kept recent', messages = block ++ gone ++ kept ++ recent'
    ∧ length recent' = k ∧ (gone ≠ [] → Forall (λ m, protected m = true) block)
    ∧ (gone = [] ∨ ∃ g m, gone = g ++ [m] ∧ budget < tokens (block ++ m :: kept ++ recent'))
    ∧ ((messages = block ++ kept ++ recent' ∧ 0 = Z.of_nat (length gone) ∧ (tokens messages <= budget ∨ messages = recent'))
       ∨ (block ≠ [] ∧ kept = [] ∧ messages = recent' ∧ budget < tokens (block ++ recent') ∧ 0 = Z.of_nat (length gone) + 2)))
    as Hall.
  { intros Ht. exists older, [], [], recent. split_and!; [done|done|done|by left|]. left. split_and!; [done|done|by left]. }
  case_bool_decide as Hnil.
  { exists [], [], [], []. unfold k. rewrite Hnil. split_and!; [done|done|done|by left|]. left. split_and!; [done|done|by right]. }
  destruct (Z.leb_spec (tokens messages) budget) as [Ht|Ht]; [by apply Hall|]. clear Hall.
  set (n := protected_count older). pose proof (protected_prefix older) as Hp. fold n in Hp.
  pose proof (drop_oldest_spec budget (tokens recent + tokens (take n older)) (drop n older)) as Hd.
  destruct (drop_oldest _ _ _) as [droppable dropped]. destruct Hd as (gone & Hgone & -> & Hrest & Hlast).
  assert (messages = take n older ++ gone ++ droppable ++ recent) as Hsplit.
  { rewrite Hms at 1. rewrite <- (take_drop n older) at 1. by rewrite Hgone, <- !app_assoc. }
  assert (gone = [] ∨ ∃ g m, gone = g ++ [m] ∧ budget < tokens (take n older ++ m :: droppable ++ recent)) as Hlast'.
  { destruct Hlast as [->|(g & m & -> & Hm)]; [by left|right]. exists g, m. split; [done|].
    change (m :: droppable ++ recent) with ((m :: droppable) ++ recent). rewrite !tokens_app. lia. }
  destruct (bool_decide (take n older <> []) && _) eqn:Hlost.
  - apply andb_true_iff in Hlost as [Hne Hover]. apply bool_decide_eq_true in Hne. apply Z.ltb_lt in Hover.
    rewrite tokens_app in Hover. assert (droppable = []) as -> by (destruct Hrest; [done|lia]).
    exists (take n older), gone, [], recent. split_and!; [done|done|done|done|]. right.
    split_and!; [done|done|done| |done]. rewrite tokens_app. cbn in Hover. unfold tokens in *. lia.
  - exists (take n older), gone, droppable, recent. split_and!; [done|done|done|done|]. left. split_and!; [done|done|].
    apply andb_false_iff in Hlost as [Hnone|Hfit].
    + apply bool_decide_eq_false in Hnone. destruct (decide (take n older = [])) as [He|]; [|done]. rewrite He in *.
      destruct Hrest as [->|Hrest]; [by right|left]. cbn [app] in *. rewrite tokens_app. unfold tokens at 2 in Hrest. cbn in Hrest. lia.
    + apply Z.ltb_ge in Hfit. left. rewrite !tokens_app in *. lia.
Qed.

(** The number reported when the block is dropped is not the number of its messages. *)
Example dropped_block_is_counted_as_two :
  let long := lit "x" in
  apply_token_budget ((lit "developer", lit "[HISTORY_READ_ONLY]") :: repeat (lit "user", long) 12) 3
  = (repeat (lit "user", long) 12, 2).
Proof. vm_compute. reflexivity. Qed.

(** ** Summarized answers *)

(** A summarized answer is at most [TOOL_SUMMARY_MAX_CHARS] long, when the names of
    the tools leave room for more than the dots. *)
Lemma fit_outcome_length budget outcome : 3 < budget → Z.of_nat (length (fit_outcome budget outcome)) <= budget.
Proof.
  intros Hb. unfold fit_outcome. destruct (Z.leb_spec (Z.of_nat (length outcome)) budget) as [|Hl]; [done|].
  assert (Z.of_nat (length (slice_from_end (budget - 3) outcome)) = budget - 3) as Hs.
  { unfold slice_from_end. destruct (Z.leb_spec (budget - 3) 0); [lia|]. rewrite length_drop. lia. }
  destruct (first_blank _) as [[|n]|]; [| |]; try case_bool_decide; rewrite ?length_app, ?length_drop; cbn; lia.
Qed.

Lemma tool_summaries_are_bounded response tools threshold :
  (threshold <= length tools)%nat → (length (tool_header tools) < TOOL_SUMMARY_MAX_CHARS - 3)%nat →
  (length (summarize_tool_response response tools threshold) <= TOOL_SUMMARY_MAX_CHARS)%nat.
Proof.
  intros Ht Hh. unfold summarize_tool_response. rewrite bool_decide_eq_false_2 by lia. case_bool_decide; [done|].
  rewrite length_app. pose proof (fit_outcome_length (Z.of_nat TOOL_SUMMARY_MAX_CHARS - Z.of_nat (length (tool_header tools)))
    (outcome_of response)) as Hf. unfold TOOL_SUMMARY_MAX_CHARS in *. lia.
Qed.

(** ** Relevance *)

Section ranked.
Context `{Lower}.

Lemma score_range query text : (0 <= score query text <= 1)%Q.
Proof.
  unfold score. case_bool_decide as Hq; [done|]. case_bool_decide; [done|].
  assert (size (tokenize query) ≠ 0%nat) as Hs by by rewrite size_non_empty_iff, leibniz_equiv_iff.
  assert (size (tokenize query ∩ tokenize text) <= size (tokenize query))%nat as Hle by (apply subseteq_size; set_solver).
  split; unfold Qle; cbn; lia.
Qed.

Lemma insert_scored_perm {T} (x : Q * T) l : insert_scored x l ≡ₚ x :: l.
Proof. induction l as [|y l IH]; cbn; [done|]. case_match; [done|]. rewrite IH. apply Permutation_swap. Qed.

Lemma sort_scored_perm {T} (l : list (Q * T)) : sort_scored l ≡ₚ l.
Proof. induction l as [|x l IH]; cbn; [done|]. by rewrite insert_scored_perm, IH. Qed.

Lemma rank_bounds {T} query (items : list T) f k :
  (length (rank query items f k) <= k)%nat ∧ ∀ x, x ∈ rank query items f k → x ∈ items.
Proof.
  unfold rank. split; [rewrite length_fmap, length_take; lia|].
  intros x ([q y] & -> & Hin)%list_elem_of_fmap. cbn.
  assert ((q, y) ∈ sort_scored ((λ item, (score query (f item), item)) <$> items)) as Hs.
  { rewrite <- (take_drop k (sort_scored _)), elem_of_app. by left. }
  rewrite sort_scored_perm in Hs. apply list_elem_of_fmap in Hs as (z & [= -> ->] & Hz). done.
Qed.

End ranked.
