(* ===== verification/SessionCompact.v ===== *)
(** * The conversation of a channel and its compaction (src/src/sessions/manager.py)

    Older messages of a session are closed into summary segments: [needs_compaction]
    decides when, [split_for_compaction] which messages, [append_segment] builds the
    segment, and [fallback_compact] does without a model.  Times are counted in ticks
    of 2^-22 seconds, the spacing of the floats of [time.time()] from 2004 to 2038, so
    that [int(t)] and [math.nextafter] are exact.  Rates and ratios are rationals
    where the code has floats. *)

From S2P Require Import Prelude PyStr PyLib SessionText.
From Stdlib Require Import QArith Qround Qminmax Lqa.
Open Scope string_scope.
Open Scope list_scope.
Open Scope Z_scope.

Definition SECOND : Z := 4194304.
Definition HOUR : Z := 3600 * SECOND.

Definition COMPACTION_THRESHOLD : Z := 100.
Definition COMPACTION_MAX_CHARS : Z := 2000.
Definition ACTIVITY_LOW : Q := 5.
Definition ACTIVITY_HIGH : Q := 20.
Definition ADAPTIVE_THRESHOLD_LOW : Z := 120.
Definition ADAPTIVE_THRESHOLD_HIGH : Z := 80.
Definition ADAPTIVE_SUMMARY_LOW : Z := 2500.
Definition ADAPTIVE_SUMMARY_HIGH : Z := 1500.
Definition ADAPTIVE_KEEP_LOW : Q := 60 # 100.
Definition ADAPTIVE_KEEP_HIGH : Q := 35 # 100.
Definition ADAPTIVE_KEEP_DEFAULT : Q := 50 # 100.
Definition ACTIVITY_WINDOW : Z := HOUR.

Definition SEGMENT_HARD_CHARS : nat := 4000.
Definition SEGMENT_TRUNCATION_MARKER : pystr :=
  Eval compute in LF :: lit "[segment truncated: source messages exceeded budget]".
Definition SEGMENT_IDLE_GAP_SECONDS : Z := 6 * HOUR.
Definition SEGMENT_MIN_MESSAGES : nat := 15.
Definition MAX_STORED_SEGMENTS : nat := 100.
Definition MAX_SESSION_POSTS : nat := 200.
Definition KEEP_TAIL_MIN : nat := 20.
Definition COMPACTION_SOURCE_MAX_CHARS : nat := 4000.
Definition MESSAGE_TOKEN_OVERHEAD : Z := 4.
Definition SESSION_SCHEMA_VERSION : Z := 2.

(** ** Data *)

Record Message := {
  role : pystr;
  content : pystr;
  timestamp : Z;
  user_id : option pystr;
  message_id : option pystr
}.

Record Segment := {
  seg_id : pystr;
  start_ts : Z;
  end_ts : Z;
  participants : list pystr;
  seg_summary : pystr;
  source_count : nat;
  seg_created_at : Z;
  topics : list pystr;
  entities : list pystr;
  decisions : list pystr;
  open_threads : list pystr;
  seg_fallback : bool;
  seg_legacy : bool
}.

Record Session := {
  channel_id : pystr;
  messages : list Message;
  created_at : Z;
  last_active : Z;
  summary : pystr;
  last_user_id : option pystr;
  summary_segments : list Segment;
  schema_version : Z;
  channel_name : option pystr;
  is_dm : option bool;
  source : option pystr;
  posts : list Message
}.

#[export] Instance Message_eq_dec : EqDecision Message.
Proof. solve_decision. Defined.
#[export] Instance Segment_eq_dec : EqDecision Segment.
Proof. solve_decision. Defined.
#[export] Instance Session_eq_dec : EqDecision Session.
Proof. solve_decision. Defined.

(** [Session(channel_id=...)] *)
Definition new_session (cid : pystr) (now : Z) : Session :=
  {| channel_id := cid; messages := []; created_at := now; last_active := now; summary := []; last_user_id := None;
     summary_segments := []; schema_version := SESSION_SCHEMA_VERSION; channel_name := None; is_dm := None;
     source := None; posts := [] |}.

Definition set_messages (ms : list Message) (s : Session) : Session :=
  {| channel_id := channel_id s; messages := ms; created_at := created_at s; last_active := last_active s;
     summary := summary s; last_user_id := last_user_id s; summary_segments := summary_segments s;
     schema_version := schema_version s; channel_name := channel_name s; is_dm := is_dm s; source := source s;
     posts := posts s |}.

Definition set_last_active (now : Z) (s : Session) : Session :=
  {| channel_id := channel_id s; messages := messages s; created_at := created_at s; last_active := now;
     summary := summary s; last_user_id := last_user_id s; summary_segments := summary_segments s;
     schema_version := schema_version s; channel_name := channel_name s; is_dm := is_dm s; source := source s;
     posts := posts s |}.

Definition set_posts (ps : list Message) (s : Session) : Session :=
  {| channel_id := channel_id s; messages := messages s; created_at := created_at s; last_active := last_active s;
     summary := summary s; last_user_id := last_user_id s; summary_segments := summary_segments s;
     schema_version := schema_version s; channel_name := channel_name s; is_dm := is_dm s; source := source s;
     posts := ps |}.

Definition set_summary (text : pystr) (segs : list Segment) (s : Session) : Session :=
  {| channel_id := channel_id s; messages := messages s; created_at := created_at s; last_active := last_active s;
     summary := text; last_user_id := last_user_id s; summary_segments := segs;
     schema_version := schema_version s; channel_name := channel_name s; is_dm := is_dm s; source := source s;
     posts := posts s |}.

(** [if m.user_id] *)
Definition truthy_id (u : option pystr) : bool := match u with Some u => nonempty u | None => false end.

(** [l[-k:]] and [l[:-k]] *)
Definition tail_of {A : Type} (k : nat) (l : list A) : list A := match k with O => l | _ => drop (length l - k) l end.
Definition but_tail {A : Type} (k : nat) (l : list A) : list A := match k with O => [] | _ => take (length l - k) l end.

(** ** Activity *)

(** [round] of a rational, ties to even. *)
Definition round_q (q : Q) : Z :=
  let f := Qfloor q in
  match (q - inject_Z f ?= 1 # 2)%Q with
  | Lt => f
  | Gt => f + 1
  | Eq => if Z.even f then f else f + 1
  end.

Definition lerp (low high t : Q) : Q :=
  let t := Qmax 0 (Qmin 1 t) in (low + (high - low) * t)%Q.

(** Messages per hour. *)
Definition compute_activity_rate (ms : list Message) (window : Z) : Q :=
  match last ms with
  | None => 0%Q
  | Some newest =>
      if bool_decide (length ms < 2)%nat then 0%Q
      else
        let recent := List.filter (λ m, timestamp newest - window <=? timestamp m) ms in
        if bool_decide (length recent < 2)%nat then 0%Q
        else
          match recent, last recent with
          | first :: _, Some final =>
              let span := timestamp final - timestamp first in
              if span <=? 0 then 0%Q else (Z.of_nat (length recent) * HOUR) # Z.to_pos span
          | _, _ => 0%Q
          end
  end.

Definition activity_part (rate : Q) : Q := (rate - ACTIVITY_LOW) / (ACTIVITY_HIGH - ACTIVITY_LOW).

Definition adaptive_compaction_threshold (rate : Q) : Z :=
  if Qle_bool rate ACTIVITY_LOW then ADAPTIVE_THRESHOLD_LOW
  else if Qle_bool ACTIVITY_HIGH rate then ADAPTIVE_THRESHOLD_HIGH
  else round_q (lerp (inject_Z ADAPTIVE_THRESHOLD_LOW) (inject_Z ADAPTIVE_THRESHOLD_HIGH) (activity_part rate)).

Definition adaptive_summary_chars (rate : Q) : Z :=
  if Qle_bool rate ACTIVITY_LOW then ADAPTIVE_SUMMARY_LOW
  else if Qle_bool ACTIVITY_HIGH rate then ADAPTIVE_SUMMARY_HIGH
  else round_q (lerp (inject_Z ADAPTIVE_SUMMARY_LOW) (inject_Z ADAPTIVE_SUMMARY_HIGH) (activity_part rate)).

Definition adaptive_keep_ratio (rate : Q) : Q :=
  if Qle_bool rate ACTIVITY_LOW then ADAPTIVE_KEEP_LOW
  else if Qle_bool ACTIVITY_HIGH rate then ADAPTIVE_KEEP_HIGH
  else round_q (100 * lerp ADAPTIVE_KEEP_LOW ADAPTIVE_KEEP_HIGH (activity_part rate))%Q # 100.

(** ** When and what to compact *)

(** The settings of the manager that compaction reads. *)
Record Limits := {
  max_history : nat;
  token_budget : Z;
  adaptive_compaction : bool
}.

Record Params := { threshold : Z; summary_chars : Z; keep_ratio : Q; activity_rate : Q }.

Definition get_compaction_params (lim : Limits) (s : Session) : Params :=
  if negb (adaptive_compaction lim) || bool_decide (length (messages s) < 2)%nat then
    {| threshold := COMPACTION_THRESHOLD; summary_chars := COMPACTION_MAX_CHARS; keep_ratio := ADAPTIVE_KEEP_DEFAULT;
       activity_rate := 0 |}
  else
    let rate := compute_activity_rate (messages s) ACTIVITY_WINDOW in
    {| threshold := adaptive_compaction_threshold rate; summary_chars := adaptive_summary_chars rate;
       keep_ratio := adaptive_keep_ratio rate; activity_rate := rate |}.

(** [_estimate_session_tokens] *)
Definition estimated_tokens (s : Session) : Z :=
  (if nonempty (summary s) then estimate_tokens (summary s) else 0)
  + foldr (λ seg n, estimate_tokens (seg_summary seg) + MESSAGE_TOKEN_OVERHEAD + n) 0 (summary_segments s)
  + foldr (λ m n, estimate_tokens (content m) + MESSAGE_TOKEN_OVERHEAD + n) 0 (messages s).

(** The loop from [i] down to one. *)
Fixpoint idle_from (i : nat) (ms : list Message) : option nat :=
  match i with
  | O => None
  | S j =>
      match ms !! i, ms !! j with
      | Some m, Some before =>
          if (SEGMENT_IDLE_GAP_SECONDS <? timestamp m - timestamp before) && bool_decide (SEGMENT_MIN_MESSAGES <= i)%nat
          then Some i else idle_from j ms
      | _, _ => idle_from j ms
      end
  end.

Definition find_idle_split (ms : list Message) : option nat := idle_from (length ms - 1) ms.

Definition needs_compaction (lim : Limits) (s : Session) : bool :=
  (threshold (get_compaction_params lim s) <? Z.of_nat (length (messages s)))
  || (token_budget lim <? estimated_tokens s)
  || bool_decide (is_Some (find_idle_split (messages s))).

(** How many messages stay when no idle gap splits them. *)
Definition keep_count (lim : Limits) (s : Session) : nat :=
  let n := length (messages s) in
  let k := Nat.max KEEP_TAIL_MIN (Z.to_nat (round_q (inject_Z (Z.of_nat n) * keep_ratio (get_compaction_params lim s)))) in
  let k := Nat.min k (max_history lim) in
  if bool_decide (n <= k)%nat && bool_decide (2 < n)%nat then Nat.max 2 (n / 2) else k.

Definition split_for_compaction (lim : Limits) (s : Session) : list Message * list Message :=
  match find_idle_split (messages s) with
  | Some i => (take i (messages s), drop i (messages s))
  | None =>
      let k := keep_count lim s in
      if bool_decide (length (messages s) <= k)%nat then ([], messages s)
      else (but_tail k (messages s), tail_of k (messages s))
  end.

(** ** Segments *)

(** [s.rfind("\n")] *)
Fixpoint last_newline (s : pystr) : Z :=
  match s with
  | [] => -1
  | c :: s =>
      let r := last_newline s in
      if 0 <=? r then r + 1 else if c =? LF then 0 else -1
  end.

Definition clip_segment_text (text : pystr) : pystr :=
  if bool_decide (length text <= SEGMENT_HARD_CHARS)%nat then text
  else
    let limit := (SEGMENT_HARD_CHARS - length SEGMENT_TRUNCATION_MARKER)%nat in
    let clipped := take limit text in
    let newline := last_newline clipped in
    let clipped := if Z.of_nat limit / 2 <? newline then take (Z.to_nat newline) clipped else clipped in
    rstrip clipped ++ SEGMENT_TRUNCATION_MARKER.

(** The ends of lines of [str.splitlines]. *)
Definition line_break (c : Z) : bool :=
  ((10 <=? c) && (c <=? 13)) || ((28 <=? c) && (c <=? 30)) || (c =? 133) || (c =? 8232) || (c =? 8233).

Fixpoint splitlines_from (word : pystr) (s : pystr) : list pystr :=
  match s with
  | [] => if nonempty word then [rev word] else []
  | 13 :: 10 :: s => rev word :: splitlines_from [] s
  | c :: s => if line_break c then rev word :: splitlines_from [] s else splitlines_from (c :: word) s
  end.
Definition splitlines (s : pystr) : list pystr := splitlines_from [] s.

(** [^\[Name:\s*(.*?)\]\s*$] on a stripped line, its group stripped. *)
Definition header_field (name line : pystr) : option pystr :=
  if folded_prefix (91 :: name ++ [58]) line then
    match rev (drop (length name + 2) line) with
    | 93 :: body => Some (strip (rev body))
    | _ => None
    end
  else None.

Definition metadata_values (sep : Z) (raw : pystr) : list pystr :=
  take 12 (List.filter nonempty (strip <$> PyStr.split sep raw)).

(** A field of the last of the first six lines that gives it. *)
Definition metadata (name : pystr) (sep : Z) (summary_text : pystr) : list pystr :=
  foldl (λ values line,
    match header_field name (strip line) with
    | Some raw =>
        if nonempty raw && negb (bool_decide (((λ c, if (65 <=? c) && (c <=? 90) then c + 32 else c) <$> raw) = lit "none"))
        then metadata_values sep raw else values
    | None => values
    end) [] (take 6 (splitlines summary_text)).

Definition TOPICS : pystr := Eval compute in lit "topics".
Definition ENTITIES : pystr := Eval compute in lit "entities".
Definition DECISIONS : pystr := Eval compute in lit "decisions".
Definition OPEN : pystr := Eval compute in lit "open".

(** [sorted({...})] *)
Fixpoint insert_name (n : pystr) (l : list pystr) : list pystr :=
  match l with
  | [] => [n]
  | x :: l' => if bool_decide (x = n) then l else if str_leb n x then n :: l else x :: insert_name n l'
  end.
Definition sorted_names (ns : list pystr) : list pystr := foldr insert_name [] ns.

Definition speakers (ms : list Message) : list pystr :=
  omap (λ m, if truthy_id (user_id m) then user_id m else None) ms.

Definition segment_of (s : Session) (summary_text : pystr) (source_messages : list Message) (fallback : bool) (now : Z) : Segment :=
  let text := clip_segment_text (strip summary_text) in
  let final := match last source_messages with Some m => timestamp m | None => now end in
  {| seg_id := lit "seg_" ++ show (final / SECOND) ++ lit "_" ++ show (Z.of_nat (length (summary_segments s)));
     start_ts := match head source_messages with Some m => timestamp m | None => now end;
     end_ts := final;
     participants := sorted_names (speakers source_messages);
     seg_summary := text;
     source_count := length source_messages;
     seg_created_at := now;
     topics := metadata TOPICS 44 text;
     entities := metadata ENTITIES 44 text;
     decisions := metadata DECISIONS 59 text;
     open_threads := metadata OPEN 59 text;
     seg_fallback := fallback;
     seg_legacy := false |}.

Definition append_segment (s : Session) (summary_text : pystr) (source_messages : list Message) (fallback : bool) (now : Z) : Session :=
  let segs := summary_segments s ++ [segment_of s summary_text source_messages fallback now] in
  set_summary (summary s) (tail_of MAX_STORED_SEGMENTS segs) s.

Definition fold_legacy_summary (s : Session) (now : Z) : Session :=
  if nonempty (summary s) then
    set_summary []
      ({| seg_id := lit "seg_legacy"; start_ts := created_at s; end_ts := last_active s; participants := [];
          seg_summary := summary s; source_count := 0; seg_created_at := now;
          topics := metadata TOPICS 44 (summary s); entities := metadata ENTITIES 44 (summary s);
          decisions := metadata DECISIONS 59 (summary s); open_threads := metadata OPEN 59 (summary s);
          seg_fallback := false; seg_legacy := true |} :: summary_segments s) s
  else s.

(** What a compaction publishes: the segment takes the place of the messages. *)
Definition close_segment (s : Session) (summary_text : pystr) (to_summarize to_keep : list Message) (now : Z) : Session :=
  set_messages to_keep (append_segment (fold_legacy_summary s now) summary_text to_summarize false now).

(** The text the model is asked to summarize. *)
Definition convo_line (m : Message) : pystr :=
  (match user_id m with
   | Some u => if nonempty u then role m ++ lit "[" ++ u ++ lit "]" else role m
   | None => role m
   end) ++ lit ": " ++ take COMPACTION_SOURCE_MAX_CHARS (content m).
Definition convo_text (ms : list Message) : pystr := join LF (convo_line <$> ms).

(** ** Without a model *)

Definition FALLBACK_MARKERS : list pystr :=
  Eval compute in lit <$> ["Tool call:"; "tool_name"; "run_command"; "apply_patch"; "browser_"; "schedule_"; "spawn_agent"].

(** [marker.rstrip("_")] *)
Fixpoint strip_underscores (reversed : pystr) : pystr :=
  match reversed with
  | 95 :: s => strip_underscores s
  | s => rev s
  end.

Definition first_snippet (m : Message) : pystr := take 120 (default [] (head (PyStr.split LF (content m)))).
Definition mentioned (m : Message) : option pystr :=
  (λ k, strip_underscores (rev k)) <$> List.find (λ k, contains k (content m)) FALLBACK_MARKERS.

(** [sep.join(ws)] *)
Fixpoint join_with (sep : pystr) (ws : list pystr) : pystr :=
  match ws with
  | [] => []
  | [w] => w
  | w :: ws => w ++ sep ++ join_with sep ws
  end.

Definition fallback_text (discarded : list Message) : pystr :=
  let users := sorted_names (speakers discarded) in
  let tools := sorted_names (omap mentioned discarded) in
  let snippets := List.filter nonempty (first_snippet <$> discarded) in
  join LF
    ([lit "[compaction fallback: " ++ show (Z.of_nat (length discarded)) ++ lit " messages trimmed]"]
     ++ (if bool_decide (users = []) then [] else [lit "Participants: " ++ commas users])
     ++ (if bool_decide (tools = []) then [] else [lit "Tools used: " ++ commas tools])
     ++ (if bool_decide (snippets = []) then [] else [lit "Recent topics: " ++ join_with (lit " | ") (take 8 snippets)])).

(** [None] when there is nothing to do. *)
Definition fallback_compact (lim : Limits) (s : Session) (now : Z) : option Session :=
  let keep := max_history lim in
  if bool_decide (length (messages s) <= keep)%nat then None
  else
    let discarded := but_tail keep (messages s) in
    let s := set_messages (tail_of keep (messages s)) s in
    Some (append_segment (fold_legacy_summary s now) (fallback_text discarded) discarded true now).

(** ** Slices *)

Lemma but_tail_tail {A} k (l : list A) : but_tail k l ++ tail_of k l = l.
Proof. destruct k; [done|]. apply take_drop. Qed.

Lemma tail_of_length {A} k (l : list A) : k ≠ 0%nat → length (tail_of k l) = Nat.min k (length l).
Proof. destruct k; [done|]. intros _. unfold tail_of. rewrite length_drop. lia. Qed.

Lemma but_tail_nonempty {A} k (l : list A) : k ≠ 0%nat → (k < length l)%nat → but_tail k l ≠ [].
Proof.
  destruct k; [done|]. intros _ Hk Hn. apply (f_equal length) in Hn. unfold but_tail in Hn.
  rewrite length_take in Hn. cbn in Hn. lia.
Qed.

Lemma tail_of_small {A} k (l : list A) : (length l <= k)%nat → tail_of k l = l.
Proof. destruct k; [done|]. intros Hk. unfold tail_of. replace (length l - S k)%nat with 0%nat by lia. done. Qed.

Lemma tail_of_snoc {A} k (l : list A) x : last (tail_of k (l ++ [x])) = Some x.
Proof.
  unfold tail_of. destruct k; [by rewrite last_snoc|]. rewrite length_app. cbn [length].
  rewrite drop_app_le by lia. by rewrite last_snoc.
Qed.

Lemma Forall_tail_of {A} (P : A → Prop) k l : Forall P l → Forall P (tail_of k l).
Proof. destruct k; [done|]. intros Hl. by apply Forall_drop. Qed.

(** ** Adaptive parameters *)

Lemma round_q_mono p q : (p <= q)%Q → round_q p <= round_q q.
Proof.
  intros Hpq. unfold round_q. pose proof (Qfloor_resp_le _ _ Hpq) as Hf.
  destruct (Z.eq_dec (Qfloor p) (Qfloor q)) as [He|Hne].
  - rewrite <- He. destruct (Qcompare_spec (p - inject_Z (Qfloor p)) (1 # 2)) as [Hc|Hc|Hc],
      (Qcompare_spec (q - inject_Z (Qfloor p)) (1 # 2)) as [Hd|Hd|Hd]; repeat case_match; try lia; exfalso; lra.
  - repeat case_match; lia.
Qed.

Lemma round_q_Z z : round_q (inject_Z z) = z.
Proof.
  unfold round_q. rewrite Qfloor_Z. destruct (Qcompare_spec (inject_Z z - inject_Z z) (1 # 2)) as [Hc|Hc|Hc]; [|done|];
    exfalso; lra.
Qed.

Lemma lerp_range low high t : (high <= low)%Q → (high <= lerp low high t <= low)%Q.
Proof.
  intros Hle. unfold lerp. assert (0 <= Qmax 0 (Qmin 1 t) <= 1)%Q as [H0 H1].
  { split; [apply Q.le_max_l|]. apply Q.max_lub; [done|apply Q.le_min_l]. }
  generalize dependent (Qmax 0 (Qmin 1 t)). intros x H0 H1. split; nra.
Qed.

(** Busier channels are compacted sooner, into shorter segments, and keep less, always
    within the configured range. *)
Lemma lerp_antitone low high s t : (high <= low)%Q → (s <= t)%Q → (lerp low high t <= lerp low high s)%Q.
Proof.
  intros Hle Hst. unfold lerp. assert (Qmax 0 (Qmin 1 s) <= Qmax 0 (Qmin 1 t))%Q as Hm.
  { apply Q.max_le_compat_l, Q.min_le_compat_l, Hst. }
  generalize dependent (Qmax 0 (Qmin 1 s)). generalize dependent (Qmax 0 (Qmin 1 t)). intros x y Hm. nra.
Qed.

Lemma compaction_threshold_range rate : ADAPTIVE_THRESHOLD_HIGH <= adaptive_compaction_threshold rate <= ADAPTIVE_THRESHOLD_LOW.
Proof.
  unfold adaptive_compaction_threshold. destruct (Qle_bool _ _); [unfold ADAPTIVE_THRESHOLD_HIGH, ADAPTIVE_THRESHOLD_LOW; lia|].
  destruct (Qle_bool _ _); [unfold ADAPTIVE_THRESHOLD_HIGH, ADAPTIVE_THRESHOLD_LOW; lia|].
  destruct (lerp_range (inject_Z ADAPTIVE_THRESHOLD_LOW) (inject_Z ADAPTIVE_THRESHOLD_HIGH) (activity_part rate)) as [Hl Hh];
    [done|]. apply round_q_mono in Hl, Hh. rewrite round_q_Z in Hl, Hh. done.
Qed.

Lemma keep_ratio_range rate : (ADAPTIVE_KEEP_HIGH <= adaptive_keep_ratio rate <= ADAPTIVE_KEEP_LOW)%Q.
Proof.
  unfold adaptive_keep_ratio. destruct (Qle_bool _ _); [done|]. destruct (Qle_bool _ _); [done|].
  destruct (lerp_range ADAPTIVE_KEEP_LOW ADAPTIVE_KEEP_HIGH (activity_part rate)) as [Hl Hh]; [done|].
  set (x := lerp _ _ _) in *. assert (inject_Z 35 <= 100 * x <= inject_Z 60)%Q as [H1 H2].
  { unfold ADAPTIVE_KEEP_HIGH, ADAPTIVE_KEEP_LOW in *. split; unfold inject_Z; lra. }
  apply round_q_mono in H1, H2. rewrite round_q_Z in H1, H2. unfold ADAPTIVE_KEEP_HIGH, ADAPTIVE_KEEP_LOW, Qle. cbn. lia.
Qed.

(** ** What is compacted *)

Lemma idle_from_spec ms i : (i < length ms)%nat →
  match idle_from i ms with
  | Some k => (SEGMENT_MIN_MESSAGES <= k <= i)%nat
      ∧ (∃ m b, ms !! k = Some m ∧ ms !! (k - 1)%nat = Some b ∧ SEGMENT_IDLE_GAP_SECONDS < timestamp m - timestamp b)
      ∧ (∀ j m b, (k < j <= i)%nat → ms !! j = Some m → ms !! (j - 1)%nat = Some b →
           timestamp m - timestamp b <= SEGMENT_IDLE_GAP_SECONDS)
  | None => ∀ j m b, (SEGMENT_MIN_MESSAGES <= j <= i)%nat → ms !! j = Some m → ms !! (j - 1)%nat = Some b →
              timestamp m - timestamp b <= SEGMENT_IDLE_GAP_SECONDS
  end.
Proof.
  induction i as [|i IH]; intros Hi; cbn [idle_from].
  { intros j m b Hj. unfold SEGMENT_MIN_MESSAGES in Hj. lia. }
  destruct (lookup_lt_is_Some_2 ms (S i) Hi) as [m Hm]. destruct (lookup_lt_is_Some_2 ms i ltac:(lia)) as [b Hb].
  rewrite Hm, Hb. specialize (IH ltac:(lia)).
  assert (∀ j m' b', j = S i → ms !! j = Some m' → ms !! (j - 1)%nat = Some b' → m' = m ∧ b' = b) as Hhere.
  { intros j m' b' -> Hm' Hb'. replace (S i - 1)%nat with i in Hb' by lia. by simplify_eq. }
  destruct (Z.ltb_spec SEGMENT_IDLE_GAP_SECONDS (timestamp m - timestamp b)) as [Hgap|Hgap]; cbn [andb].
  - destruct (bool_decide_reflect (SEGMENT_MIN_MESSAGES <= S i)%nat) as [Hmin|Hmin].
    + split_and!; [lia|lia| |intros; lia]. exists m, b. replace (S i - 1)%nat with i by lia. done.
    + destruct (idle_from i ms) as [k|]; [lia|]. intros j m' b' Hj. lia.
  - destruct (idle_from i ms) as [k|].
    + destruct IH as (Hk & Hw & Hlast). split_and!; [lia|lia|done|]. intros j m' b' Hj Hm' Hb'.
      destruct (Nat.eq_dec j (S i)) as [He|]; [by destruct (Hhere j m' b' He Hm' Hb') as [-> ->]|]. apply (Hlast j); auto. lia.
    + intros j m' b' Hj Hm' Hb'. destruct (Nat.eq_dec j (S i)) as [He|]; [by destruct (Hhere j m' b' He Hm' Hb') as [-> ->]|].
      apply (IH j); auto. lia.
Qed.

Lemma find_idle_split_bounds ms k : find_idle_split ms = Some k → (0 < k < length ms)%nat.
Proof.
  unfold find_idle_split. destruct ms as [|m ms]; [done|]. intros Hk. pose proof (idle_from_spec (m :: ms) (length (m :: ms) - 1)) as Hs.
  cbn [length] in *. rewrite Hk in Hs. destruct Hs as [Hb _]; [lia|]. unfold SEGMENT_MIN_MESSAGES in Hb. lia.
Qed.

(** What a split closes and what it keeps is the conversation, and something stays. *)
Lemma split_spec lim s gone kept : (0 < max_history lim)%nat → split_for_compaction lim s = (gone, kept) →
  messages s = gone ++ kept ∧ (messages s ≠ [] → kept ≠ []).
Proof.
  intros Hmax. unfold split_for_compaction. destruct (find_idle_split (messages s)) as [i|] eqn:Hi.
  - intros [= <- <-]. split; [by rewrite take_drop|]. intros _ Hn. apply find_idle_split_bounds in Hi.
    apply (f_equal length) in Hn. rewrite length_drop in Hn. cbn in Hn. lia.
  - assert (keep_count lim s ≠ 0%nat) as Hk.
    { unfold keep_count. case_match; unfold KEEP_TAIL_MIN; lia. }
    case_bool_decide as Hle; intros [= <- <-]; [done|]. split; [by rewrite but_tail_tail|].
    intros _ Hn. apply (f_equal length) in Hn. rewrite tail_of_length in Hn by done. cbn in Hn. lia.
Qed.

(** A conversation that is too long leaves something to close. *)
Lemma long_conversations_split lim s : (2 < length (messages s))%nat → (0 < max_history lim)%nat →
  (split_for_compaction lim s).1 ≠ [].
Proof.
  intros Hlen Hmax. unfold split_for_compaction. destruct (find_idle_split (messages s)) as [i|] eqn:Hi; cbn [fst].
  - apply find_idle_split_bounds in Hi. intros Hn. apply (f_equal length) in Hn. rewrite length_take in Hn. cbn in Hn. lia.
  - assert (0 < keep_count lim s < length (messages s))%nat as Hk.
    { unfold keep_count. set (k := Nat.min _ (max_history lim)).
      assert (0 < k)%nat by (unfold k, KEEP_TAIL_MIN; lia).
      destruct (bool_decide_reflect (length (messages s) <= k)%nat); cbn [andb]; [|lia].
      rewrite bool_decide_eq_true_2 by lia. pose proof (Nat.Div0.div_mod (length (messages s)) 2).
      pose proof (Nat.mod_upper_bound (length (messages s)) 2). lia. }
    rewrite bool_decide_eq_false_2 by lia. cbn [fst]. apply but_tail_nonempty; lia.
Qed.

(** ** The segments it leaves *)

Lemma lstrip_length s : (length (lstrip s) <= length s)%nat.
Proof. induction s as [|c s IH]; cbn; [done|]. case_match; cbn; lia. Qed.

Lemma clip_length text : (length (clip_segment_text text) <= SEGMENT_HARD_CHARS)%nat.
Proof.
  unfold clip_segment_text. case_bool_decide; [done|]. rewrite length_app. unfold rstrip. rewrite length_rev.
  set (x := if _ : bool then _ else _).
  assert (length x <= SEGMENT_HARD_CHARS - length SEGMENT_TRUNCATION_MARKER)%nat as Hx.
  { unfold x. case_match; rewrite ?length_take; lia. }
  pose proof (lstrip_length (rev x)) as Hl. rewrite length_rev in Hl.
  assert (length SEGMENT_TRUNCATION_MARKER <= SEGMENT_HARD_CHARS)%nat by (apply Nat.leb_le; reflexivity). lia.
Qed.

Lemma insert_name_spec n l x : x ∈ insert_name n l ↔ x = n ∨ x ∈ l.
Proof.
  induction l as [|y l IH]; cbn [insert_name]; [set_solver|]. case_bool_decide as Hy; [set_solver|]. case_match; [set_solver|].
  rewrite !elem_of_cons, IH. tauto.
Qed.

Lemma sorted_names_spec ns x : x ∈ sorted_names ns ↔ x ∈ ns.
Proof. induction ns as [|n ns IH]; cbn [sorted_names foldr]; [done|]. rewrite insert_name_spec, elem_of_cons. by rewrite <- IH. Qed.

(** The segment [seg] stands for the messages [gone]. *)
Record closes (seg : Segment) (gone : list Message) : Prop := {
  closes_count : source_count seg = length gone;
  closes_start m : head gone = Some m → start_ts seg = timestamp m;
  closes_end m : last gone = Some m → end_ts seg = timestamp m;
  closes_speakers u : u ∈ participants seg ↔ nonempty u = true ∧ ∃ m, m ∈ gone ∧ user_id m = Some u;
  closes_size : (length (seg_summary seg) <= SEGMENT_HARD_CHARS)%nat
}.

Lemma segment_of_closes s text gone fallback now : closes (segment_of s text gone fallback now) gone.
Proof.
  split; cbn [segment_of source_count start_ts end_ts participants seg_summary]; [done|by intros m ->|by intros m ->| |apply clip_length].
  intros u. rewrite sorted_names_spec. unfold speakers. rewrite list_elem_of_omap. split.
  - intros (m & Hm & Hu). destruct (user_id m) as [v|] eqn:Hv; cbn in Hu; [|done].
    destruct (nonempty v) eqn:Hn; [|done]. injection Hu as ->. split; [done|]. by exists m.
  - intros [Hn (m & Hm & Hu)]. exists m. split; [done|]. rewrite Hu. cbn. by rewrite Hn.
Qed.

Lemma fold_legacy_keeps s now : messages (fold_legacy_summary s now) = messages s
  ∧ channel_id (fold_legacy_summary s now) = channel_id s ∧ posts (fold_legacy_summary s now) = posts s
  ∧ created_at (fold_legacy_summary s now) = created_at s ∧ last_active (fold_legacy_summary s now) = last_active s
  ∧ summary (fold_legacy_summary s now) = [].
Proof. unfold fold_legacy_summary. destruct (nonempty (summary s)) eqn:Hn; [done|]. by destruct (summary s). Qed.

Lemma fold_legacy_set_messages ms s now :
  fold_legacy_summary (set_messages ms s) now = set_messages ms (fold_legacy_summary s now).
Proof. unfold fold_legacy_summary. cbn [set_messages summary]. by destruct (nonempty (summary s)). Qed.

(** The segments after [gone] was closed, the oldest beyond the cap dropped. *)
Definition closed_into (s s' : Session) (gone : list Message) (now : Z) : Prop :=
  ∃ seg, closes seg gone ∧ summary s' = [] ∧ posts s' = posts s ∧ channel_id s' = channel_id s
    ∧ last (summary_segments s') = Some seg
    ∧ summary_segments s' = tail_of MAX_STORED_SEGMENTS (summary_segments (fold_legacy_summary s now) ++ [seg]).

(** C34: A compaction, by the model or without it, replaces the oldest messages by one
    segment that counts them, names every speaker among them and spans their times;
    the newest messages, the posts and the older segments stay as they were. *)
Theorem compaction_conserves_the_conversation lim s gone kept text now s' :
  (0 < max_history lim)%nat →
  (split_for_compaction lim s = (gone, kept) ∧ gone ≠ [] ∧ s' = close_segment s text gone kept now)
    ∨ (fallback_compact lim s now = Some s' ∧ gone = but_tail (max_history lim) (messages s)
       ∧ kept = tail_of (max_history lim) (messages s)) →
  messages s = gone ++ kept ∧ gone ≠ [] ∧ kept ≠ [] ∧ messages s' = kept ∧ closed_into s s' gone now.
Proof.
  intros Hmax Hcase. pose proof (fold_legacy_keeps s now) as (_ & Hc & Hp & _ & _ & Hsum).
  destruct Hcase as [(Hsplit & Hgone & ->)|(Hfb & -> & ->)].
  - destruct (split_spec lim s gone kept Hmax Hsplit) as [Hms Hkept].
    assert (messages s ≠ []) as Hne by (rewrite Hms; by destruct gone).
    split_and!; [done|done|by apply Hkept|done|]. eexists. split_and!; [apply (segment_of_closes (fold_legacy_summary s now) text gone false now)|done|done|done| |done].
    apply tail_of_snoc.
  - unfold fallback_compact in Hfb. case_bool_decide as Hlen; [done|]. injection Hfb as <-.
    rewrite fold_legacy_set_messages. set (kept := tail_of _ _). set (gone := but_tail _ _).
    split_and!; [by unfold gone, kept; rewrite but_tail_tail|apply but_tail_nonempty; lia| |done|].
    + intros Hn. apply (f_equal length) in Hn. unfold kept in Hn. rewrite tail_of_length in Hn by lia. cbn in Hn. lia.
    + eexists. split_and!; [apply (segment_of_closes (set_messages kept (fold_legacy_summary s now)) (fallback_text gone) gone true now)
        |done|done|done| |done]. apply tail_of_snoc.
Qed.

Module CompactWitness.

Definition said (who text : string) (at_ : Z) : Message :=
  {| role := lit who; content := lit text; timestamp := at_ * SECOND; user_id := Some (lit who); message_id := None |}.

(** Three messages, the first a day before the others. *)
Definition talk : Session :=
  set_messages [said "ann" "hello" 1; said "bob" "deploy done" 86400; said "ann" "thanks" 86401] (new_session (lit "c") 0).
Definition two_messages : Limits := {| max_history := 2; token_budget := 100; adaptive_compaction := false |}.
Definition compacted : Session := Eval vm_compute in default talk (fallback_compact two_messages talk (90000 * SECOND)).

Lemma talk_is_compacted : fallback_compact two_messages talk (90000 * SECOND) = Some compacted
  ∧ but_tail 2 (messages talk) = [said "ann" "hello" 1].
Proof. split; vm_compute; reflexivity. Qed.

Lemma compaction_conserves_the_conversation_witness :
  messages talk = but_tail 2 (messages talk) ++ tail_of 2 (messages talk) ∧ but_tail 2 (messages talk) ≠ []
  ∧ tail_of 2 (messages talk) ≠ [] ∧ messages compacted = tail_of 2 (messages talk)
  ∧ closed_into talk compacted (but_tail 2 (messages talk)) (90000 * SECOND).
Proof.
  apply (compaction_conserves_the_conversation two_messages talk _ _ [] (90000 * SECOND) compacted); [cbn; lia|].
  right. split; [exact (proj1 talk_is_compacted)|done].
Defined.

End CompactWitness.
