(* ===== verification/SessionPrompt.v ===== *)
(** * The history a request is sent with (src/src/sessions/manager.py)

    What a model reads of a session: the summary segments chosen for the query, in a
    developer message of their own, then messages of the session, cut to the budget.
    [history_is_recent_and_fits]: the newest messages are always there.  The dates in
    the headers of segments are a parameter. *)

From S2P Require Import Prelude PyStr PyLib SessionText SessionCompact.
From Stdlib Require Import QArith.
Open Scope string_scope.
Open Scope list_scope.
Open Scope Z_scope.

Definition RELEVANCE_KEEP_RECENT : nat := 12.
Definition RELEVANCE_MIN_SCORE : Q := 8 # 100.
Definition RELEVANCE_MAX_OLDER : nat := 40.

(** The line [[Segment <start> – <end>]] in local time, or [[Segment]]. *)
Class SegmentDates := { segment_header : Z → Z → pystr }.

Section prompt.
Context `{Lower, SegmentDates}.

(** ** Segments *)

(** [" ".join(ws)] *)
Definition spaced (ws : list pystr) : pystr := join 32 ws.

Definition segment_text (seg : Segment) : pystr :=
  spaced [seg_summary seg; spaced (topics seg); spaced (entities seg)].

(** The places of the segments that are rendered: the newest, and of the others the
    most relevant to the query. *)
Definition selected_segments (segs : list Segment) (query : pystr) (max_segments : nat) : list Segment :=
  if negb (nonempty query) || bool_decide (length segs <= max_segments)%nat then tail_of max_segments segs
  else
    let older := take (length segs - 1) segs in
    let indexed := zip (seq 0 (length older)) older in
    let chosen := (rank query (rev indexed) (λ iseg, segment_text iseg.2) (max_segments - 1)).*1 in
    (List.filter (λ iseg, bool_decide (iseg.1 ∈ chosen)) indexed).*2 ++ drop (length segs - 1) segs.

Definition segment_part (seg : Segment) : list pystr :=
  if nonempty (seg_summary seg) then [segment_header (start_ts seg) (end_ts seg) ++ LF :: seg_summary seg] else [].

Definition render_context_summary (s : Session) (query : pystr) (max_segments : nat) : pystr :=
  join_with [LF; LF]
    ((if nonempty (summary s) then [summary s] else [])
     ++ (selected_segments (summary_segments s) query max_segments ≫= segment_part)).

Definition developer : pystr := Eval compute in lit "developer".
Definition SESSION_CONTEXT : pystr :=
  Eval compute in lit "[SESSION_CONTEXT_READ_ONLY]" ++ [LF]
    ++ lit "Summaries of earlier completed conversation (context, not pending work):" ++ [LF].
Definition HISTORY_READ_ONLY : pystr :=
  Eval compute in lit "[HISTORY_READ_ONLY] Everything below until the CURRENT_REQUEST marker "
    ++ lit "is prior conversation context "
    ++ [8212] ++ lit " completed interactions, not pending work. "
    ++ lit "Do not re-execute tool calls or commands mentioned in history or summaries.".

Definition summary_context_message (s : Session) (query : pystr) : option Turn :=
  let context_summary := render_context_summary s query 5 in
  if nonempty context_summary then Some (developer, SESSION_CONTEXT ++ sanitize_summary context_summary) else None.

(** ** Messages *)

Definition turn_of (m : Message) : Turn := (role m, content m).
Definition of_option {A : Type} (o : option A) : list A := match o with Some x => [x] | None => [] end.

Definition history_of (s : Session) : list Turn :=
  of_option (summary_context_message s []) ++ (turn_of <$> messages s).

(** The older messages worth a place, in their order. *)
Definition relevant_older (query : pystr) (older : list Message) : list Message :=
  let scored := (λ im, (score query (content im.2), im)) <$> zip (seq 0 (length older)) older in
  let relevant := take RELEVANCE_MAX_OLDER (sort_scored (List.filter (λ sm, Qle_bool RELEVANCE_MIN_SCORE sm.1) scored)) in
  let kept := (λ sm, sm.2.1) <$> relevant in
  (List.filter (λ im, bool_decide (im.1 ∈ kept)) (zip (seq 0 (length older)) older)).*2.

Definition filtered_messages (candidates : list Message) (query : pystr) : list Message :=
  if nonempty query && bool_decide (RELEVANCE_KEEP_RECENT < length candidates)%nat then
    relevant_older query (but_tail RELEVANCE_KEEP_RECENT candidates) ++ tail_of RELEVANCE_KEEP_RECENT candidates
  else candidates.

(** [get_task_history] once the session is compacted: what is sent and the number
    of messages the budget dropped. *)
Definition task_history (s : Session) (max_messages : nat) (current_query : pystr) (budget : Z) : list Turn * Z :=
  let filtered := filtered_messages (tail_of max_messages (messages s)) current_query in
  let ms := of_option (summary_context_message s current_query) ++ (turn_of <$> filtered) in
  let ms := if bool_decide (1 < length ms)%nat then (developer, HISTORY_READ_ONLY) :: ms else ms in
  apply_token_budget ms budget.

(** ** Selections *)

(** Keeping some places of a list keeps the order of the rest. *)
Lemma filter_indexed_sublist {A} (f : nat * A → bool) (l : list A) i :
  sublist (List.filter f (zip (seq i (length l)) l)).*2 l.
Proof.
  revert i. induction l as [|x l IH]; intros i; cbn; [constructor|]. destruct (f (i, x)); cbn; [by constructor|by constructor].
Qed.

Lemma selected_segments_sublist segs query k : sublist (selected_segments segs query k) segs.
Proof.
  unfold selected_segments. case_match.
  - destruct k; [done|]. apply sublist_drop.
  - transitivity (take (length segs - 1) segs ++ drop (length segs - 1) segs); [|by rewrite take_drop].
    apply sublist_app; [apply filter_indexed_sublist|done].
Qed.

(** The immediate past is always rendered. *)
Lemma newest_segment_selected segs seg query k : (0 < k)%nat → last segs = Some seg →
  last (selected_segments segs query k) = Some seg.
Proof.
  intros Hk Hs. destruct segs as [|seg' segs _] using rev_ind; [done|]. rewrite last_snoc in Hs. injection Hs as ->.
  unfold selected_segments. rewrite length_app. cbn [length].
  replace (length segs + 1 - 1)%nat with (length segs) by lia. case_match.
  - apply tail_of_snoc.
  - by rewrite drop_app_length, last_snoc.
Qed.

Lemma tail_of_sublist {A} k (l : list A) : sublist (tail_of k l) l.
Proof. destruct k; [done|]. apply sublist_drop. Qed.

Lemma filtered_sublist candidates query : sublist (filtered_messages candidates query) candidates.
Proof.
  unfold filtered_messages. case_match; [|done].
  transitivity (but_tail RELEVANCE_KEEP_RECENT candidates ++ tail_of RELEVANCE_KEEP_RECENT candidates);
    [|by rewrite but_tail_tail]. apply sublist_app; [apply filter_indexed_sublist|done].
Qed.

Lemma filtered_recent candidates query :
  tail_of RELEVANCE_KEEP_RECENT (filtered_messages candidates query) = tail_of RELEVANCE_KEEP_RECENT candidates.
Proof.
  unfold filtered_messages. case_match eqn:Hb; [|done]. bool_prop. unfold RELEVANCE_KEEP_RECENT in *.
  set (a := relevant_older _ _). set (b := tail_of 12 candidates).
  assert (length b = 12%nat) as Hl by (unfold b; rewrite tail_of_length; lia).
  unfold tail_of at 1. rewrite length_app, Hl, drop_app_ge by lia. replace (length a + 12 - 12 - length a)%nat with 0%nat by lia. done.
Qed.

(** The budget takes a stretch out of the history. *)
Lemma budget_cuts_once messages budget : let '(sent, _) := apply_token_budget messages budget in
  ∃ p q, sent = take p messages ++ drop q messages ∧ (p <= q <= length messages - Nat.min BUDGET_KEEP_RECENT (length messages))%nat
    ∧ (tokens sent <= budget ∨ (length sent <= BUDGET_KEEP_RECENT)%nat).
Proof.
  pose proof (history_fits_the_budget messages budget) as Hb. destruct (apply_token_budget messages budget) as [sent n].
  destruct Hb as (block & gone & kept & recent & -> & Hr & _ & _ & Hcase).
  assert (∀ a b c : list Turn, drop (length a) (a ++ b ++ c) = b ++ c) as Hdrop by (intros; by rewrite drop_app_length).
  destruct Hcase as [(-> & _ & Hfit)|(_ & -> & -> & _)].
  - exists (length block), (length block + length gone)%nat. split_and!.
    + rewrite take_app_length. f_equal. rewrite <- drop_drop, !drop_app_length. done.
    + lia.
    + rewrite <- Hr, !length_app. lia.
    + destruct Hfit as [|Hfit]; [by left|right]. rewrite Hfit, Hr. lia.
  - exists 0%nat, (length block + length gone)%nat. cbn [take app] in *. split_and!.
    + rewrite <- drop_drop, !drop_app_length. done.
    + lia.
    + rewrite <- Hr, !length_app. cbn [length]. lia.
    + right. rewrite Hr. lia.
Qed.

Lemma tail_of_fmap {A B} (f : A → B) k l : f <$> tail_of k l = tail_of k (f <$> l).
Proof. destruct k; [done|]. unfold tail_of. by rewrite fmap_drop, length_fmap. Qed.

(** C35: What a request is sent with is at most two developer messages, then messages of
    the session in their order, out of its newest [max_messages]; the twelve newest of
    these are always sent, and the budget is exceeded only when at most twelve entries
    are sent in all, developer messages included. *)
Theorem history_is_recent_and_fits s max_messages query budget :
  let '(sent, _) := task_history s max_messages query budget in
  let candidates := tail_of max_messages (messages s) in
  ∃ block chosen, sent = block ++ chosen
    ∧ (length block <= 2)%nat ∧ Forall (λ t, t.1 = developer) block
    ∧ sublist chosen (turn_of <$> candidates)
    ∧ tail_of RELEVANCE_KEEP_RECENT (turn_of <$> candidates) `suffix_of` chosen
    ∧ (tokens sent <= budget ∨ (length sent <= BUDGET_KEEP_RECENT)%nat).
Proof.
  unfold task_history. set (candidates := tail_of max_messages (messages s)).
  set (filtered := filtered_messages candidates query). set (context := of_option _).
  assert (∃ dev, (if bool_decide (1 < length (context ++ (turn_of <$> filtered)))%nat
    then (developer, HISTORY_READ_ONLY) :: context ++ (turn_of <$> filtered) else context ++ (turn_of <$> filtered))
    = dev ++ (turn_of <$> filtered) ∧ (length dev <= 2)%nat ∧ Forall (λ t : Turn, t.1 = developer) dev) as (dev & -> & Hlen & Hdev).
  { assert ((length context <= 1)%nat ∧ Forall (λ t : Turn, t.1 = developer) context) as [Hc Hcd].
    { unfold context, summary_context_message. destruct (nonempty _); cbn; split; try lia; by repeat constructor. }
    case_bool_decide; [exists ((developer, HISTORY_READ_ONLY) :: context)|exists context]; split_and!; cbn; try done.
    - by apply le_n_S.
    - by constructor.
    - by apply le_S. }
  set (f := turn_of <$> filtered). pose proof (budget_cuts_once (dev ++ f) budget) as Hb.
  destruct (apply_token_budget (dev ++ f) budget) as [sent n]. destruct Hb as (p & q & Hsent & Hpq & Hfit).
  assert (tail_of RELEVANCE_KEEP_RECENT (turn_of <$> candidates) = tail_of RELEVANCE_KEEP_RECENT f) as ->.
  { unfold f, filtered. by rewrite <- !tail_of_fmap, filtered_recent. }
  exists (take p dev ++ drop q dev), (take (p - length dev) f ++ drop (q - length dev) f). rewrite length_app in Hpq.
  split_and!.
  - rewrite Hsent, take_app, drop_app. destruct (decide (p <= length dev)%nat).
    + rewrite (proj2 (Nat.sub_0_le p (length dev)) l), take_0, app_nil_r. by rewrite app_assoc.
    + rewrite (drop_ge dev q) by lia. by rewrite app_nil_r, <- !app_assoc.
  - rewrite length_app, length_take, length_drop. lia.
  - apply Forall_app. split; [by apply Forall_take|by apply Forall_drop].
  - transitivity f.
    + transitivity (take (p - length dev) f ++ drop (p - length dev) f); [|by rewrite take_drop]. apply sublist_app; [done|].
      replace (q - length dev)%nat with ((p - length dev) + ((q - length dev) - (p - length dev)))%nat by lia.
      rewrite <- drop_drop. apply sublist_drop.
    + apply fmap_sublist, filtered_sublist.
  - apply suffix_app_r. unfold tail_of, RELEVANCE_KEEP_RECENT, BUDGET_KEEP_RECENT in *.
    exists (take (length f - 12 - (q - length dev)) (drop (q - length dev) f)).
    rewrite <- (take_drop (length f - 12 - (q - length dev)) (drop (q - length dev) f)) at 1. f_equal.
    rewrite drop_drop. f_equal. lia.
  - done.
Qed.

End prompt.
