(* ===== verification/Sessions.v ===== *)
(** * The sessions of all channels (class SessionManager of src/src/sessions/manager.py)

    The manager keeps a session per channel, saves the changed ones to a file each,
    moves idle ones to an archive and brings them back when the channel is active
    again.  A reset writes an epoch for the channel to a ledger: what is older must not
    come back.  [World] is the memory of the process and its directory; every label of
    [step] is a section the code runs under its locks, an answer of the disk or of the
    summarizing model, or a restart.  Each step takes at least a tick of the clock.

    A file holds the dict the code writes; [Unreadable] is any other content.  The
    glob of a channel's archives is read as a prefix, as it is for ids without
    wildcards; no channel is called reset_epochs. *)

From S2P Require Import Prelude PyStr PyLib SessionText SessionCompact.
Open Scope string_scope.
Open Scope list_scope.
Open Scope Z_scope.

(** The decimal text of a time in the name of an archive, and [float] of a text. *)
Class ArchiveNames := {
  float_text : Z → pystr;
  read_float : pystr → option Z;
  read_float_text t : read_float (float_text t) = Some t;
  float_text_plain t : 95 ∉ float_text t
}.

(** ** Files *)

Record SessionData := {
  d_channel_id : pystr;
  d_messages : list Message;
  d_created_at : option Z;
  d_last_active : option Z;
  d_summary : pystr;
  d_last_user_id : option pystr;
  d_segments : list Segment;
  d_channel_name : option pystr;
  d_is_dm : option bool;
  d_source : option pystr;
  d_posts : list Message;
  d_reset_epoch : option Z
}.

Inductive File : Type := Unreadable | Readable (data : SessionData).

(** A file of the archive with its modification time and its size. *)
Record Archive := { a_file : File; a_mtime : Z; a_size : Z }.

#[export] Instance SessionData_eq_dec : EqDecision SessionData.
Proof. solve_decision. Defined.
#[export] Instance File_eq_dec : EqDecision File.
Proof. solve_decision. Defined.
#[export] Instance Archive_eq_dec : EqDecision Archive.
Proof. solve_decision. Defined.

(** [asdict(session)]; [data["reset_epoch"]] of a live file. *)
Definition asdict (s : Session) (reset_epoch : option Z) : SessionData :=
  {| d_channel_id := channel_id s; d_messages := messages s; d_created_at := Some (created_at s);
     d_last_active := Some (last_active s); d_summary := summary s; d_last_user_id := last_user_id s;
     d_segments := summary_segments s; d_channel_name := channel_name s; d_is_dm := is_dm s; d_source := source s;
     d_posts := posts s; d_reset_epoch := reset_epoch |}.

Definition session_from_dict (d : SessionData) (now : Z) : Session :=
  {| channel_id := d_channel_id d; messages := d_messages d; created_at := default now (d_created_at d);
     last_active := default now (d_last_active d); summary := d_summary d; last_user_id := d_last_user_id d;
     summary_segments := d_segments d; schema_version := SESSION_SCHEMA_VERSION; channel_name := d_channel_name d;
     is_dm := d_is_dm d; source := d_source d; posts := d_posts d |}.

(** [path.stem.rsplit("_", 1)] *)
Fixpoint rsplit (s : pystr) : option (pystr * pystr) :=
  match s with
  | [] => None
  | c :: s' =>
      match rsplit s' with
      | Some (a, b) => Some (c :: a, b)
      | None => if c =? 95 then Some ([], s') else None
      end
  end.

(** [_atomic_json]: the rename may be visible although the call raises. *)
Inductive Written : Type := Synced | Unsynced | NotWritten.

#[export] Instance Written_eq_dec : EqDecision Written.
Proof. solve_decision. Defined.

Definition visible (o : Written) : bool := match o with NotWritten => false | _ => true end.

Section names.
Context `{ArchiveNames}.

Definition archive_stem (c : pystr) (t : Z) : pystr := c ++ 95 :: float_text t.

(** The time in the name, else the file's. *)
Definition archived_at (stem : pystr) (a : Archive) : Z :=
  default (a_mtime a) ('(_, t) ← rsplit stem; read_float t).
End names.

(** ** State *)

(** The section of a save that is under way: a snapshot with the revision and the
    object it was taken of, then whether it was written. *)
Record Snapshot := { n_channel : pystr; n_object : nat; n_revision : Z; n_data : SessionData }.
Inductive SavePhase : Type := Next | Writing (n : Snapshot) | Acking (n : Snapshot) (ok : bool).
Record Saving := { v_queue : list pystr; v_phase : SavePhase }.

(** A compaction that waits for the model. *)
Record Compacting := {
  k_channel : pystr;
  k_object : nat;
  k_revision : Z;
  k_summarize : list Message;
  k_keep : list Message
}.

Record World := {
  clock : Z;
  sessions : list (pystr * (nat * Session));
  dirty : gset pystr;
  ephemeral_channels : gset pystr;
  revisions : gmap pystr Z;
  pending : gmap pystr Z;
  degraded : bool;
  epochs : gmap pystr Z;
  next_object : nat;
  saving : option Saving;
  compactions : list Compacting;
  live : gmap pystr File;
  archives : gmap pystr Archive;
  ledger : gmap pystr Z;
  ledger_readable : bool;
  ledger_before : option (gmap pystr Z)
}.

Record Settings := {
  limits : Limits;
  max_age : Z;
  archive_max_bytes : option Z;
  archive_max_files : option Z
}.

Definition set_sessions (ss : list (pystr * (nat * Session))) (w : World) : World :=
  {| clock := clock w; sessions := ss; dirty := dirty w; ephemeral_channels := ephemeral_channels w; revisions := revisions w;
     pending := pending w; degraded := degraded w; epochs := epochs w; next_object := next_object w; saving := saving w;
     compactions := compactions w; live := live w; archives := archives w; ledger := ledger w;
     ledger_readable := ledger_readable w; ledger_before := ledger_before w |}.

Definition set_marks (d : gset pystr) (e : gset pystr) (r : gmap pystr Z) (w : World) : World :=
  {| clock := clock w; sessions := sessions w; dirty := d; ephemeral_channels := e; revisions := r;
     pending := pending w; degraded := degraded w; epochs := epochs w; next_object := next_object w; saving := saving w;
     compactions := compactions w; live := live w; archives := archives w; ledger := ledger w;
     ledger_readable := ledger_readable w; ledger_before := ledger_before w |}.

Definition set_epochs (p e : gmap pystr Z) (w : World) : World :=
  {| clock := clock w; sessions := sessions w; dirty := dirty w; ephemeral_channels := ephemeral_channels w;
     revisions := revisions w; pending := p; degraded := degraded w; epochs := e; next_object := next_object w;
     saving := saving w; compactions := compactions w; live := live w; archives := archives w; ledger := ledger w;
     ledger_readable := ledger_readable w; ledger_before := ledger_before w |}.

Definition set_work (s : option Saving) (k : list Compacting) (w : World) : World :=
  {| clock := clock w; sessions := sessions w; dirty := dirty w; ephemeral_channels := ephemeral_channels w;
     revisions := revisions w; pending := pending w; degraded := degraded w; epochs := epochs w;
     next_object := next_object w; saving := s; compactions := k; live := live w; archives := archives w;
     ledger := ledger w; ledger_readable := ledger_readable w; ledger_before := ledger_before w |}.

Definition set_files (l : gmap pystr File) (a : gmap pystr Archive) (w : World) : World :=
  {| clock := clock w; sessions := sessions w; dirty := dirty w; ephemeral_channels := ephemeral_channels w;
     revisions := revisions w; pending := pending w; degraded := degraded w; epochs := epochs w;
     next_object := next_object w; saving := saving w; compactions := compactions w; live := l; archives := a;
     ledger := ledger w; ledger_readable := ledger_readable w; ledger_before := ledger_before w |}.

Definition set_ledger (g : gmap pystr Z) (ok : bool) (before : option (gmap pystr Z)) (w : World) : World :=
  {| clock := clock w; sessions := sessions w; dirty := dirty w; ephemeral_channels := ephemeral_channels w;
     revisions := revisions w; pending := pending w; degraded := degraded w; epochs := epochs w;
     next_object := next_object w; saving := saving w; compactions := compactions w; live := live w;
     archives := archives w; ledger := g; ledger_readable := ok; ledger_before := before |}.

Definition pass (d : Z) (w : World) : World :=
  {| clock := clock w + Z.max 1 d; sessions := sessions w; dirty := dirty w; ephemeral_channels := ephemeral_channels w;
     revisions := revisions w; pending := pending w; degraded := degraded w; epochs := epochs w;
     next_object := next_object w; saving := saving w; compactions := compactions w; live := live w;
     archives := archives w; ledger := ledger w; ledger_readable := ledger_readable w; ledger_before := ledger_before w |}.

(** ** Access *)

Definition session_of (w : World) (c : pystr) : option Session := snd <$> dict_get (sessions w) c.
Definition mutation_revision (w : World) (c : pystr) : Z := default 0 (revisions w !! c).
Definition epoch_of (w : World) (c : pystr) : Z := default 0 (epochs w !! c).

(** [_dirty.add] and [_bump_mutation_revision] *)
Definition mark (c : pystr) (w : World) : World :=
  set_marks ({[c]} ∪ dirty w) (ephemeral_channels w) (<[c := mutation_revision w c + 1]> (revisions w)) w.

(** The session of [c] changed in place. *)
Definition put_session (c : pystr) (o : nat) (s : Session) (w : World) : World :=
  set_sessions (dict_set (sessions w) c (o, s)) w.

(** A session object that is new to the dict. *)
Definition new_object (c : pystr) (s : Session) (w : World) : World :=
  let w := put_session c (next_object w) s w in
  {| clock := clock w; sessions := sessions w; dirty := dirty w; ephemeral_channels := ephemeral_channels w;
     revisions := revisions w; pending := pending w; degraded := degraded w; epochs := epochs w;
     next_object := S (next_object w); saving := saving w; compactions := compactions w; live := live w;
     archives := archives w; ledger := ledger w; ledger_readable := ledger_readable w; ledger_before := ledger_before w |}.

Section sessions.
Context `{ArchiveNames}.

(** ** Restoring *)

(** [candidates.sort(reverse=True)] by time, then by path. *)
Definition newer (a b : Z * (pystr * Archive)) : bool :=
  (b.1 <? a.1) || ((b.1 =? a.1) && str_leb b.2.1 a.2.1).

Fixpoint insert_newest (a : Z * (pystr * Archive)) (l : list (Z * (pystr * Archive))) : list (Z * (pystr * Archive)) :=
  match l with
  | [] => [a]
  | b :: l' => if newer a b then a :: l else b :: insert_newest a l'
  end.
Definition newest_first (l : list (Z * (pystr * Archive))) : list (Z * (pystr * Archive)) := foldr insert_newest [] l.

Definition candidates (w : World) (c : pystr) : list (Z * (pystr * Archive)) :=
  List.filter (λ ta, epoch_of w c <? ta.1)
    ((λ sa, (archived_at sa.1 sa.2, sa)) <$>
       List.filter (λ sa, startswith (c ++ [95]) sa.1) (map_to_list (archives w))).

Definition readable (f : File) : option SessionData := match f with Readable d => Some d | Unreadable => None end.

Definition restore_from_archive (w : World) (c : pystr) : option Session :=
  if degraded w then None
  else (λ d, session_from_dict d (clock w)) <$>
         head (omap (λ ta, readable (a_file ta.2.2)) (newest_first (candidates w c))).

(** [None] is the exception of a channel whose reset is not durable. *)
Definition get_or_create (c : pystr) (w : World) : option (World * nat * Session) :=
  if bool_decide (is_Some (pending w !! c)) then None
  else
    let w :=
      match dict_get (sessions w) c with
      | Some _ => w
      | None =>
          let restored := if bool_decide (c ∈ ephemeral_channels w) then None else restore_from_archive w c in
          mark c (new_object c (default (new_session c (clock w)) restored) w)
      end in
    '(o, s) ← dict_get (sessions w) c;
    let s := set_last_active (clock w) s in
    Some (put_session c o s w, o, s).

(** ** Messages *)

Record NewMessage := {
  m_role : pystr;
  m_content : pystr;
  m_user_id : option pystr;
  m_message_id : option pystr;
  m_channel_name : option pystr;
  m_is_dm : option bool;
  m_source : option pystr
}.

Definition user : pystr := Eval compute in lit "user".
Definition post : pystr := Eval compute in lit "post".

Definition message_of (m : NewMessage) (now : Z) : Message :=
  {| role := m_role m; content := m_content m; timestamp := now;
     user_id := if bool_decide (m_role m = user) then m_user_id m else None; message_id := m_message_id m |}.

(** [if x is not None: session.x = x] *)
Definition supplied {A : Type} (new old : option A) : option A := match new with Some x => Some x | None => old end.

Definition with_message (m : NewMessage) (now : Z) (s : Session) : Session :=
  {| channel_id := channel_id s; messages := messages s ++ [message_of m now]; created_at := created_at s;
     last_active := last_active s; summary := summary s;
     last_user_id := if bool_decide (m_role m = user) && truthy_id (m_user_id m) then m_user_id m else last_user_id s;
     summary_segments := summary_segments s; schema_version := schema_version s;
     channel_name := supplied (m_channel_name m) (channel_name s); is_dm := supplied (m_is_dm m) (is_dm s);
     source := supplied (m_source m) (source s); posts := posts s |}.

(** The session after a mutation that starts with [get_or_create]. *)
Definition mutate (c : pystr) (f : Session → option Session) (w : World) : World :=
  match get_or_create c w with
  | Some (w, o, s) => match f s with Some s => mark c (put_session c o s w) | None => w end
  | None => w
  end.

Definition add_message (c : pystr) (m : NewMessage) (w : World) : World :=
  mutate c (λ s, Some (with_message m (clock w) s)) w.

Definition add_unique_message (c : pystr) (m : NewMessage) (w : World) : World :=
  mutate c (λ s,
    if existsb (λ x, bool_decide (message_id x = m_message_id m)) (messages s) then None
    else Some (with_message m (clock w) s)) w.

Definition add_post (c : pystr) (text : pystr) (w : World) : World :=
  mutate c (λ s,
    Some (set_posts (tail_of MAX_SESSION_POSTS
      (posts s ++ [{| role := post; content := text; timestamp := clock w; user_id := None; message_id := None |}])) s)) w.

(** The session after a mutation of a channel that is in memory. *)
Definition mutate_present (c : pystr) (f : Session → option Session) (w : World) : World :=
  match dict_get (sessions w) c with
  | Some (o, s) => match f s with Some s => mark c (put_session c o s w) | None => w end
  | None => w
  end.

Definition without_last (r : pystr) (s : Session) : option Session :=
  match last (messages s) with
  | Some m => if bool_decide (role m = r) then Some (set_messages (take (length (messages s) - 1) (messages s)) s) else None
  | None => None
  end.

Definition remove_last_message (c r : pystr) (w : World) : World := mutate_present c (without_last r) w.

Definition scrubbed (text : pystr) (s : Session) : option Session :=
  let kept := List.filter (λ m, negb (contains text (content m))) (messages s) in
  if bool_decide (length kept = length (messages s)) then None else Some (set_messages kept s).

Definition scrub_secrets (c text : pystr) (w : World) : World := mutate_present c (scrubbed text) w.

(** ** Compaction *)

Context (cfg : Settings).

(** [get_history_with_compaction] up to the call of the model. *)
Definition begin_compaction (c : pystr) (w : World) : World :=
  match get_or_create c w with
  | Some (w, o, s) =>
      if needs_compaction (limits cfg) s then
        let '(gone, kept) := split_for_compaction (limits cfg) s in
        if bool_decide (gone = []) then w
        else set_work (saving w) (compactions w ++
               [{| k_channel := channel_id s; k_object := o; k_revision := mutation_revision w (channel_id s);
                   k_summarize := gone; k_keep := kept |}]) w
      else w
  | None => w
  end.

(** The session the compaction was begun for, unless it has changed since. *)
Definition still_there (k : Compacting) (w : World) : option Session :=
  match dict_get (sessions w) (k_channel k) with
  | Some (o, s) =>
      if bool_decide (o = k_object k) && negb (bool_decide (is_Some (pending w !! k_channel k)))
         && bool_decide (mutation_revision w (k_channel k) = k_revision k)
      then Some s else None
  | None => None
  end.

(** The model's answer; [None] is an exception of the call. *)
Definition publish_compaction (k : Compacting) (answer : option pystr) (w : World) : World :=
  match still_there k w with
  | Some s =>
      match answer with
      | Some text =>
          if nonempty (strip text) then
            mark (k_channel k) (put_session (k_channel k) (k_object k)
              (close_segment s text (k_summarize k) (k_keep k) (clock w)) w)
          else match fallback_compact (limits cfg) s (clock w) with
               | Some s => mark (k_channel k) (put_session (k_channel k) (k_object k) s w)
               | None => w
               end
      | None =>
          match fallback_compact (limits cfg) s (clock w) with
          | Some s => mark (k_channel k) (put_session (k_channel k) (k_object k) s w)
          | None => w
          end
      end
  | None => w
  end.

Definition finish_compaction (i : nat) (answer : option pystr) (w : World) : World :=
  match compactions w !! i with
  | Some k => publish_compaction k answer (set_work (saving w) (delete i (compactions w)) w)
  | None => w
  end.

(** ** Saving *)

Definition undirty (c : pystr) (w : World) : World := set_marks (dirty w ∖ {[c]}) (ephemeral_channels w) (revisions w) w.
Definition redirty (c : pystr) (w : World) : World := set_marks ({[c]} ∪ dirty w) (ephemeral_channels w) (revisions w) w.

(** [_save_sessions] takes the publication lock; [order] is that of the set. *)
Definition begin_save (all_sessions : bool) (order : list pystr) (w : World) : World :=
  match saving w with
  | Some _ => w
  | None =>
      let channels := if all_sessions then (sessions w).*1
                      else if bool_decide (NoDup order ∧ list_to_set order = dirty w) then order else elements (dirty w) in
      set_work (Some {| v_queue := channels; v_phase := Next |}) (compactions w) w
  end.

(** The section before the file of the next channel is written. *)
Definition snapshot (c : pystr) (queue : list pystr) (w : World) : World :=
  let skip w := set_work (Some {| v_queue := queue; v_phase := Next |}) (compactions w) w in
  if bool_decide (c ∈ ephemeral_channels w) then skip (undirty c w)
  else if bool_decide (is_Some (pending w !! c)) then skip w
  else match dict_get (sessions w) c with
       | None => skip (undirty c w)
       | Some (o, s) =>
           let n := {| n_channel := c; n_object := o; n_revision := mutation_revision w c;
                       n_data := asdict s (Some (epoch_of w c)) |} in
           set_work (Some {| v_queue := queue; v_phase := Writing n |}) (compactions w) w
       end.

(** The section after it: a save that was overtaken leaves the channel dirty. *)
Definition acknowledge (n : Snapshot) (ok : bool) (w : World) : World :=
  if negb ok then redirty (n_channel n) w
  else match dict_get (sessions w) (n_channel n) with
       | Some (o, _) =>
           if bool_decide (o = n_object n) && bool_decide (mutation_revision w (n_channel n) = n_revision n)
           then undirty (n_channel n) w else w
       | None => w
       end.

(** The next section of the save; [o] answers a write. *)
Definition continue_save (o : Written) (w : World) : World :=
  match saving w with
  | None => w
  | Some v =>
      match v_phase v with
      | Next =>
          match v_queue v with
          | [] => set_work None (compactions w) w
          | c :: queue => snapshot c queue w
          end
      | Writing n =>
          let w := if visible o then set_files (<[n_channel n := Readable (n_data n)]> (live w)) (archives w) w else w in
          set_work (Some {| v_queue := v_queue v; v_phase := Acking n (bool_decide (o = Synced)) |}) (compactions w) w
      | Acking n ok =>
          set_work (Some {| v_queue := v_queue v; v_phase := Next |}) (compactions w) (acknowledge n ok w)
      end
  end.

(** ** Resets *)

Definition forget (c : pystr) (w : World) : World := undirty c (set_sessions (dict_del (sessions w) c) w).
Definition bump (c : pystr) (w : World) : World :=
  set_marks (dirty w) (ephemeral_channels w) (<[c := mutation_revision w c + 1]> (revisions w)) w.

(** The end of a durable reset of [c]; a file that cannot be removed is [retained]. *)
Definition clear_channel (retained : gset pystr) (c : pystr) (w : World) : World :=
  let w := bump c (forget c (set_epochs (delete c (pending w)) (epochs w) w)) in
  if bool_decide (c ∈ retained) then w else set_files (delete c (live w)) (archives w) w.

(** [reset_many]; the second component tells whether it returned. *)
Definition reset_many (cids : list pystr) (o : Written) (retained : gset pystr) (w : World) : World * bool :=
  let requested : gset pystr := list_to_set cids in
  if bool_decide (requested = ∅) then (w, true)
  else
    let w := foldl (λ w c, bump c (forget c w)) w (elements (requested ∩ ephemeral_channels w)) in
    let requested := requested ∖ ephemeral_channels w in
    if bool_decide (requested = ∅) then (w, true)
    else if degraded w then (w, false)
    else
      let previous := epochs w in
      let fences := gset_to_gmap (clock w) requested in
      let current := fences ∪ previous in
      match o with
      | NotWritten => (set_epochs (fences ∪ pending w) previous w, false)
      | Unsynced =>
          (set_epochs (fences ∪ pending w) current
             (set_ledger current true (Some (default (ledger w) (ledger_before w))) w), false)
      | Synced =>
          (foldl (λ w c, clear_channel retained c w) (set_epochs (pending w) current (set_ledger current true None w))
             (elements requested), true)
      end.

(** [clear_all]: every channel known from memory, from a file or from an archive. *)
Definition known_channels (w : World) : list pystr :=
  (sessions w).*1 ++ (map_to_list (live w)).*1 ++ omap (λ sa, fst <$> rsplit sa.1) (map_to_list (archives w)).

Definition clear_all (o : Written) (retained : gset pystr) (w : World) : World * bool :=
  reset_many (known_channels w) o retained w.

(** ** Archiving *)

Definition has_conversation (s : Session) : bool :=
  negb (bool_decide (messages s = [])) || nonempty (summary s) || negb (bool_decide (summary_segments s = [])).

(** [while path.exists()]: [fuel] bounds the number of archives. *)
Fixpoint free_time (taken : gmap pystr Archive) (c : pystr) (fuel : nat) (t : Z) : Z :=
  match fuel with
  | O => t
  | S fuel => if bool_decide (is_Some (taken !! archive_stem c t)) then free_time taken c fuel (t + 1) else t
  end.

Definition archive_time (c : pystr) (s : Session) (w : World) : Z :=
  free_time (archives w) c (S (size (archives w))) (last_active s / SECOND * SECOND).

(** *** The caps of the archive *)

(** [sorted(files, key=lambda p: (mtime, archived_at(p)))] *)
Definition file_time (sa : pystr * Archive) : Z := archived_at sa.1 sa.2.
Definition older (a b : pystr * Archive) : bool :=
  (a_mtime a.2 <? a_mtime b.2) || ((a_mtime a.2 =? a_mtime b.2) && (file_time a <=? file_time b)).

Fixpoint insert_older (a : pystr * Archive) (l : list (pystr * Archive)) : list (pystr * Archive) :=
  match l with
  | [] => [a]
  | b :: l' => if older a b then a :: l else b :: insert_older a l'
  end.
Definition oldest_first (l : list (pystr * Archive)) : list (pystr * Archive) := foldr insert_older [] l.

Definition archive_channel (stem : pystr) : pystr := match rsplit stem with Some (c, _) => c | None => stem end.

(** The newest archive of each channel; of equally new ones the last. *)
Definition newest_per_channel (files : list (pystr * Archive)) : gmap pystr (pystr * Archive) :=
  foldl (λ best f,
    let c := archive_channel f.1 in
    match best !! c with
    | Some current => if file_time current <=? file_time f then <[c := f]> best else best
    | None => <[c := f]> best
    end) ∅ files.

Definition is_protected (files : list (pystr * Archive)) (f : pystr * Archive) : bool :=
  match newest_per_channel files !! archive_channel f.1 with Some g => bool_decide (g.1 = f.1) | None => false end.

Definition evict_order (files : list (pystr * Archive)) : list (pystr * Archive) :=
  List.filter (λ f, negb (is_protected files f)) files ++ List.filter (is_protected files) files.

Definition over_cap (bytes count : Z) : bool :=
  match archive_max_bytes cfg with Some m => m <? bytes | None => false end
  || match archive_max_files cfg with Some m => m <? count | None => false end.

(** The loop over the order of eviction; after [unlinks] removals one fails. *)
Fixpoint evict (order : list (pystr * Archive)) (unlinks : nat) (bytes count : Z) (kept : gmap pystr Archive) : gmap pystr Archive :=
  match order with
  | [] => kept
  | f :: order =>
      if over_cap bytes count then
        match unlinks with
        | O => kept
        | S unlinks => evict order unlinks (bytes - a_size f.2) (count - 1) (delete f.1 kept)
        end
      else kept
  end.

Definition prune_old_archives (unlinks : nat) (w : World) : World :=
  let files := oldest_first (map_to_list (archives w)) in
  let bytes := foldr (λ f n, a_size f.2 + n) 0 files in
  set_files (live w) (evict (evict_order files) unlinks bytes (Z.of_nat (length files)) (archives w)) w.

(** *** Pruning *)

(** What the disk answers for one channel: the archive, its size, the removals of
    old archives, and whether the live file could be removed. *)
Record Disposal := { p_written : Written; p_size : Z; p_unlinks : nat; p_removed : bool }.

(** [_archive_session]; [false] is an exception. *)
Definition archive_session (c : pystr) (p : Disposal) (w : World) : World * bool :=
  match dict_get (sessions w) c with
  | None => (w, true)
  | Some (_, s) =>
      if negb (has_conversation s) || bool_decide (c ∈ ephemeral_channels w) then (w, true)
      else
        let a := {| a_file := Readable (asdict s None); a_mtime := clock w; a_size := p_size p |} in
        let w := if visible (p_written p)
                 then set_files (live w) (<[archive_stem c (archive_time c s w) := a]> (archives w)) w else w in
        if bool_decide (p_written p = Synced) then (prune_old_archives (p_unlinks p) w, true) else (w, false)
  end.

Definition expired (w : World) : list pystr :=
  (List.filter (λ cs, (max_age cfg <? clock w - last_active cs.2.2)
     && negb (bool_decide (is_Some (pending w !! cs.1))) && negb (bool_decide (cs.1 ∈ ephemeral_channels w)))
     (sessions w)).*1.

(** The loop of [prune]: an exception leaves the rest for another time. *)
Fixpoint prune_all (cids : list pystr) (answers : list Disposal) (w : World) : World :=
  match cids, answers with
  | c :: cids, p :: answers =>
      match archive_session c p w with
      | (w, false) => w
      | (w, true) =>
          if bool_decide (is_Some (live w !! c)) && negb (p_removed p) then w
          else prune_all cids answers
                 (set_sessions (dict_del (sessions w) c) (set_files (delete c (live w)) (archives w) w))
      end
  | _, _ => w
  end.

Definition prune (answers : list Disposal) (w : World) : World :=
  if degraded w then w else prune_all (expired w) answers w.

(** ** Ephemeral channels *)

Definition enter_ephemeral (c : pystr) (w : World) : World :=
  if bool_decide (is_Some (dict_get (sessions w) c)) || bool_decide (c ∈ ephemeral_channels w)
     || bool_decide (is_Some (epochs w !! c)) || bool_decide (is_Some (pending w !! c)) || bool_decide (is_Some (live w !! c))
  then w
  else set_marks (dirty w) ({[c]} ∪ ephemeral_channels w) (revisions w) w.

Definition leave_ephemeral (c : pystr) (w : World) : World :=
  if bool_decide (c ∈ ephemeral_channels w) then
    set_sessions (dict_del (sessions w) c)
      (set_marks (dirty w ∖ {[c]}) (ephemeral_channels w ∖ {[c]}) (delete c (revisions w)) w)
  else w.

(** ** Starting *)

(** [if epoch and data.get("reset_epoch", data.get("created_at", 0.0)) < epoch] *)
Definition suppressed (w : World) (d : SessionData) : bool :=
  let epoch := epoch_of w (d_channel_id d) in
  let mark := match d_reset_epoch d with Some e => e | None => default 0 (d_created_at d) end in
  negb (epoch =? 0) && (mark <? epoch).

Definition load_file (w : World) (f : File) : World :=
  match f with
  | Readable d => if suppressed w d then w else new_object (d_channel_id d) (session_from_dict d (clock w)) w
  | Unreadable => w
  end.

Definition load (w : World) : World := foldl load_file w (map_to_list (live w)).*2.

(** A new process over the directory; [lost]: a rename that was not synced is undone. *)
Definition restart (lost : bool) (w : World) : World :=
  let g := match ledger_before w with Some g => if lost then g else ledger w | None => ledger w end in
  load {| clock := clock w; sessions := []; dirty := ∅; ephemeral_channels := ∅; revisions := ∅; pending := ∅;
          degraded := negb (ledger_readable w); epochs := if ledger_readable w then g else ∅;
          next_object := next_object w; saving := None; compactions := []; live := live w; archives := archives w;
          ledger := g; ledger_readable := ledger_readable w; ledger_before := None |}.

(** ** Steps *)

Inductive Op : Type :=
| OpGet (c : pystr)
| OpAdd (c : pystr) (m : NewMessage)
| OpAddUnique (c : pystr) (m : NewMessage)
| OpPost (c : pystr) (text : pystr)
| OpRemoveLast (c r : pystr)
| OpScrub (c text : pystr)
| OpCompact (c : pystr)
| OpSummary (i : nat) (answer : option pystr)
| OpSave (all_sessions : bool) (order : list pystr)
| OpContinue (o : Written)
| OpReset (cids : list pystr) (o : Written) (retained : gset pystr)
| OpClearAll (o : Written) (retained : gset pystr)
| OpPrune (answers : list Disposal)
| OpEphemeral (c : pystr)
| OpSettle (c : pystr)
| OpRestart (lost : bool)
| OpDamageLedger
| OpRepairLedger
| OpDamageArchive (stem : pystr).

(** What waits for the publication lock while a save holds it. *)
Definition locked (w : World) (w' : World) : World := match saving w with Some _ => w | None => w' end.

Definition apply (op : Op) (w : World) : World :=
  match op with
  | OpGet c => match get_or_create c w with Some (w, _, _) => w | None => w end
  | OpAdd c m => add_message c m w
  | OpAddUnique c m => add_unique_message c m w
  | OpPost c text => add_post c text w
  | OpRemoveLast c r => remove_last_message c r w
  | OpScrub c text => scrub_secrets c text w
  | OpCompact c => begin_compaction c w
  | OpSummary i answer => finish_compaction i answer w
  | OpSave all order => begin_save all order w
  | OpContinue o => continue_save o w
  | OpReset cids o retained => locked w (reset_many cids o retained w).1
  | OpClearAll o retained => locked w (clear_all o retained w).1
  | OpPrune answers => locked w (prune answers w)
  | OpEphemeral c => locked w (enter_ephemeral c w)
  | OpSettle c => locked w (leave_ephemeral c w)
  | OpRestart lost => restart lost w
  | OpDamageLedger => set_ledger (ledger w) false (ledger_before w) w
  | OpRepairLedger => set_ledger (ledger w) true (ledger_before w) w
  | OpDamageArchive stem =>
      set_files (live w) (alter (λ a, {| a_file := Unreadable; a_mtime := a_mtime a; a_size := a_size a |}) stem (archives w)) w
  end.

Definition step (w : World) (l : Z * Op) : World := apply l.2 (pass l.1 w).

(** An empty directory. *)
Definition empty_world (now : Z) : World :=
  {| clock := now; sessions := []; dirty := ∅; ephemeral_channels := ∅; revisions := ∅; pending := ∅; degraded := false;
     epochs := ∅; next_object := 0; saving := None; compactions := []; live := ∅; archives := ∅; ledger := ∅;
     ledger_readable := true; ledger_before := None |}.

End sessions.

(** ** A concrete directory *)

Module SessionExample.
Import Concrete.

Lemma bits_no_underscore p : 95 ∉ bits p.
Proof. induction p as [p IH|p IH|]; cbn; rewrite ?not_elem_of_cons; try (split; [done|exact IH]). set_solver. Qed.

#[export] Instance bit_names : ArchiveNames.
Proof.
  refine {| float_text := λ t, bits (encode t); read_float := λ s, (decode (of_bits s) : option Z) |}.
  - intros t. destruct (bits_plain (encode t)) as (_ & _ & ->). apply decode_encode.
  - intros t. apply bits_no_underscore.
Defined.

Definition defaults : Settings :=
  {| limits := {| max_history := 50; token_budget := 256000; adaptive_compaction := true |};
     max_age := 24 * HOUR; archive_max_bytes := None; archive_max_files := None |}.

Definition says (text : string) : NewMessage :=
  {| m_role := user; m_content := lit text; m_user_id := Some (lit "7"); m_message_id := None; m_channel_name := None;
     m_is_dm := None; m_source := None |}.
Definition archived : Disposal := {| p_written := Synced; p_size := 1; p_unlinks := 0; p_removed := true |}.
Definition saved : list (Z * Op) := [(1, OpSave false []); (1, OpContinue Synced); (1, OpContinue Synced); (1, OpContinue Synced); (1, OpContinue Synced)].
Definition days : Z := 48 * HOUR.

(** The channels and contents in memory after a run from an empty directory. *)
Definition after_run (ls : list (Z * Op)) : list (pystr * list pystr) :=
  (λ cs, (channel_id cs.2.2, content <$> messages cs.2.2)) <$> sessions (run (step defaults) (empty_world (100 * SECOND)) ls).

(** A session survives its archive. *)
Example restored_session_is_back :
  after_run [(1, OpAdd (lit "a") (says "hello")); (days, OpPrune [archived]); (1, OpAdd (lit "a") (says "again"))]
  = [(lit "a", [lit "hello"; lit "again"])].
Proof. vm_compute. reflexivity. Qed.

(** The id of a session may continue another with an underscore: the glob of the
    shorter one then finds the archives of the longer, and a channel is given the
    conversation of another one. *)
Example foreign_archive_is_restored :
  after_run [(1, OpAdd (lit "bob_smith") (says "secret")); (days, OpPrune [archived]); (1, OpAdd (lit "bob") (says "hello"))]
  = [(lit "bob_smith", [lit "secret"; lit "hello"])].
Proof. vm_compute. reflexivity. Qed.

(** The archive of a conversation that began in the second of a reset has the time
    of the whole second, before the reset, and is never restored. *)
Example archive_in_the_second_of_a_reset_is_lost :
  after_run [(1, OpReset [lit "a"] Synced ∅); (1, OpAdd (lit "a") (says "hello")); (days, OpPrune [archived]); (1, OpGet (lit "a"))]
  = [(lit "a", [])].
Proof. vm_compute. reflexivity. Qed.

(** A live file a reset could not remove is loaded when the ledger is unreadable. *)
Example retained_file_returns_without_ledger :
  after_run ([(1, OpAdd (lit "a") (says "secret"))] ++ saved
    ++ [(1, OpReset [lit "a"] Synced {[lit "a"]}); (1, OpDamageLedger); (1, OpRestart false)])
  = [(lit "a", [lit "secret"])].
Proof. vm_compute. reflexivity. Qed.

(** What is saved while the ledger is unreadable carries no epoch, and is passed over
    once the ledger is repaired: the conversation is lost. *)
Example saved_without_ledger_is_lost :
  after_run ([(1, OpReset [lit "a"] Synced ∅); (SECOND, OpDamageLedger); (1, OpRestart false);
              (1, OpAdd (lit "a") (says "hello"))] ++ saved)
  = [(lit "a", [lit "hello"])]
  ∧ after_run ([(1, OpReset [lit "a"] Synced ∅); (SECOND, OpDamageLedger); (1, OpRestart false);
              (1, OpAdd (lit "a") (says "hello"))] ++ saved ++ [(1, OpRepairLedger); (1, OpRestart false)])
  = [].
Proof. vm_compute. done. Qed.

(** A session that holds only posts is removed without an archive. *)
Example posts_are_not_archived :
  let ls := [(1, OpPost (lit "a") (lit "done")); (days, OpPrune [archived])] in
  let w := run (step defaults) (empty_world (100 * SECOND)) ls in
  (sessions w, map_to_list (live w), map_to_list (archives w)) = ([], [], []).
Proof. vm_compute. reflexivity. Qed.

End SessionExample.
