(* ===== verification/SessionTheory.v ===== *)
(** * What a reset removes stays removed

    [Fenced c t w] is the invariant of a world in which everything of channel [c] up
    to the time [t] is gone for good: no session of [c] holds it, and every file that
    does is one that loading and restoring pass over.  Every step keeps it, and a
    reset of [c] that returns establishes it for the time of the reset
    ([resets_are_final]). *)

From S2P Require Import Prelude PyStr PyLib SessionText SessionCompact Sessions.
Open Scope string_scope.
Open Scope list_scope.
Open Scope Z_scope.

(** ** Content newer than a time *)

Record after (t : Z) (s : Session) : Prop := {
  after_messages : Forall (λ m, t < timestamp m) (messages s);
  after_posts : Forall (λ m, t < timestamp m) (posts s);
  after_segments : Forall (λ g, t < start_ts g) (summary_segments s);
  after_summary : nonempty (summary s) = true → t < created_at s
}.

Definition data_after (t : Z) (d : SessionData) : Prop :=
  ∀ now, t < now → after t (session_from_dict d now).

Lemma after_new c t now : t < now → after t (new_session c now).
Proof. intros Ht. by split. Qed.

Lemma after_data t s e : after t s → data_after t (asdict s e).
Proof. intros [Hm Hp Hs Hsum] now Hnow. by split. Qed.

Lemma after_messages_of t ms s : after t s → Forall (λ m, t < timestamp m) ms → after t (set_messages ms s).
Proof. intros [Hm Hp Hs Hsum] Hms. by split. Qed.

Lemma after_active t now s : after t s → after t (set_last_active now s).
Proof. intros [Hm Hp Hs Hsum]. by split. Qed.

Lemma after_fold t s now : after t s → after t (fold_legacy_summary s now).
Proof.
  intros [Hm Hp Hs Hsum]. unfold fold_legacy_summary. destruct (nonempty (summary s)) eqn:Hn; [|by split; rewrite ?Hn].
  split; cbn; [done|done| |done]. constructor; [by apply Hsum|done].
Qed.

Lemma after_append t s text gone fallback now : after t s → t < now → Forall (λ m, t < timestamp m) gone →
  after t (append_segment s text gone fallback now).
Proof.
  intros [Hm Hp Hs Hsum] Hnow Hg. split; cbn; [done|done| |done]. apply (Forall_tail_of _ MAX_STORED_SEGMENTS), Forall_app.
  split; [done|]. constructor; [|constructor]. cbn. destruct gone as [|m gone]; [done|]. by apply Forall_cons in Hg as [Hg _].
Qed.

Lemma after_close t s text gone kept now : after t s → t < now → Forall (λ m, t < timestamp m) (gone ++ kept) →
  after t (close_segment s text gone kept now).
Proof.
  intros Hs Hnow [Hg Hk]%Forall_app. unfold close_segment. apply after_messages_of; [|done].
  apply after_append; [by apply after_fold|done|done].
Qed.

Lemma after_fallback t lim s now s' : after t s → t < now → fallback_compact lim s now = Some s' → after t s'.
Proof.
  intros Hs Hnow. unfold fallback_compact. case_match; [done|]. intros [= <-]. pose proof (after_messages _ _ Hs) as Hm.
  rewrite <- (but_tail_tail (max_history lim)), Forall_app in Hm. destruct Hm as [Hg Hk].
  apply after_append; [|done|done]. by apply after_fold, after_messages_of.
Qed.

Lemma after_message t m now s : after t s → t < now → after t (with_message m now s).
Proof. intros [Hm Hp Hs Hsum] Hnow. split; cbn; [|done|done|done]. apply Forall_app. split; [done|]. by repeat constructor. Qed.

Lemma Forall_filter {A} (P : A → Prop) (f : A → bool) l : Forall P l → Forall P (List.filter f l).
Proof. induction 1; cbn; [constructor|]. case_match; [by constructor|done]. Qed.

(** The mutations of one channel. *)
Lemma after_without_last t r s s' : after t s → without_last r s = Some s' → after t s'.
Proof.
  intros Hs. unfold without_last. repeat case_match; try done. intros [= <-]. apply after_messages_of; [done|].
  apply Forall_take, after_messages, Hs.
Qed.

Lemma after_scrubbed t text s s' : after t s → scrubbed text s = Some s' → after t s'.
Proof.
  intros Hs. unfold scrubbed. case_match; [done|]. intros [= <-]. apply after_messages_of; [done|].
  apply Forall_filter, after_messages, Hs.
Qed.

(** ** Names of archives *)

Section stems.
Context `{ArchiveNames}.

Lemma rsplit_none s : 95 ∉ s → rsplit s = None.
Proof.
  induction s as [|c s IH]; cbn; [done|]. intros [Hc Hs]%not_elem_of_cons. rewrite IH by done.
  destruct (Z.eqb_spec c 95); [congruence|done].
Qed.

Lemma rsplit_last a b : 95 ∉ b → rsplit (a ++ 95 :: b) = Some (a, b).
Proof. intros Hb. induction a as [|c a IH]; cbn; [by rewrite rsplit_none|by rewrite IH]. Qed.

Lemma rsplit_stem c t : rsplit (archive_stem c t) = Some (c, float_text t).
Proof. apply rsplit_last, float_text_plain. Qed.

Lemma archived_at_stem c t a : archived_at (archive_stem c t) a = t.
Proof. unfold archived_at. rewrite rsplit_stem. cbn. by rewrite read_float_text. Qed.

Lemma archive_stem_inj c t c' t' : archive_stem c t = archive_stem c' t' → c = c' ∧ t = t'.
Proof.
  intros He. pose proof (rsplit_stem c t) as H1'. rewrite He, rsplit_stem in H1'. injection H1' as -> Ht. split; [done|].
  apply (f_equal read_float) in Ht. rewrite !read_float_text in Ht. congruence.
Qed.

(** The glob of a channel finds its archives alone when no id goes on where another
    one ends with an underscore. *)
Definition separate (c c' : pystr) : Prop := startswith (c ++ [95]) c' = false.

Lemma startswith_prefix p s : startswith p s = true → ∃ r, s = p ++ r.
Proof. intros Hs. apply startswith_spec in Hs. eauto. Qed.

Lemma glob_finds_its_own c c' t : separate c c' → startswith (c ++ [95]) (archive_stem c' t) = true → c' = c.
Proof.
  unfold separate. intros Hsep [r Hr]%startswith_prefix. unfold archive_stem in Hr.
  pose proof (float_text_plain t) as Hplain. revert Hr. generalize dependent (float_text t). intros b Hb Hr.
  rewrite <- app_assoc in Hr. cbn in Hr.
  apply app_eq_inv in Hr as [(k & -> & Hk)|(k & -> & Hk)].
  - destruct k as [|x k]; cbn in Hk; [by rewrite app_nil_r|]. injection Hk as <- Hk. exfalso.
    rewrite <- not_true_iff_false in Hsep. apply Hsep. replace (c ++ 95 :: k) with ((c ++ [95]) ++ k) by by rewrite <- app_assoc.
    apply startswith_app.
  - destruct k as [|x k]; cbn in Hk; [by rewrite app_nil_r|]. injection Hk as <- Hk. exfalso. apply Hb. rewrite Hk. set_solver.
Qed.

End stems.

(** ** What restoring and archiving select *)

Section selections.
Context `{ArchiveNames}.

Lemma insert_newest_elem a l x : x ∈ insert_newest a l ↔ x = a ∨ x ∈ l.
Proof. induction l as [|b l IH]; cbn; [set_solver|]. case_match; [set_solver|]. rewrite !elem_of_cons, IH. tauto. Qed.

Lemma newest_first_elem l x : x ∈ newest_first l ↔ x ∈ l.
Proof. induction l as [|a l IH]; cbn [newest_first foldr]; [done|]. rewrite insert_newest_elem, elem_of_cons. by rewrite <- IH. Qed.

Lemma elem_of_filter_list {A} (f : A → bool) l x : x ∈ List.filter f l ↔ x ∈ l ∧ f x = true.
Proof. by rewrite !list_elem_of_In, filter_In. Qed.

Lemma restored_from w c' s : restore_from_archive w c' = Some s →
  degraded w = false ∧ ∃ stem a d, archives w !! stem = Some a ∧ startswith (c' ++ [95]) stem = true ∧ a_file a = Readable d
    ∧ epoch_of w c' < archived_at stem a ∧ s = session_from_dict d (clock w).
Proof.
  unfold restore_from_archive. destruct (degraded w); [done|]. intros Hr. split; [done|].
  destruct (head _) as [d|] eqn:Hd; [|done]. injection Hr as <-. apply head_Some_elem_of in Hd.
  apply list_elem_of_omap in Hd as ([u [stem a]] & Hin & Hread). rewrite newest_first_elem in Hin. unfold candidates in Hin.
  apply elem_of_filter_list in Hin as [Hin Hlt]. apply list_elem_of_fmap in Hin as ([stem' a'] & [= -> -> ->] & Hin).
  apply elem_of_filter_list in Hin as [Hin Hpre]. apply elem_of_map_to_list in Hin. apply Z.ltb_lt in Hlt.
  exists stem', a', d. cbn in *. split_and!; try done. by destruct (a_file a'); simplify_eq/=.
Qed.

Lemma free_time_spec taken c' fuel u : ∃ k, free_time taken c' fuel u = u + Z.of_nat k
  ∧ (k = 0%nat ∨ is_Some (taken !! archive_stem c' (u + Z.of_nat k - 1))).
Proof.
  revert u. induction fuel as [|fuel IH]; intros u; cbn [free_time]; [exists 0%nat; split; [lia|by left]|].
  case_bool_decide as Ht; [|exists 0%nat; split; [lia|by left]]. destruct (IH (u + 1)) as (k & -> & Hk). exists (S k).
  split; [lia|]. right. destruct Hk as [->|Hk].
  - replace (u + Z.of_nat 1 - 1) with u by lia. done.
  - replace (u + Z.of_nat (S k) - 1) with (u + 1 + Z.of_nat k - 1) by lia. done.
Qed.

Lemma evict_subseteq cfg order unlinks bytes count files : evict cfg order unlinks bytes count files ⊆ files.
Proof.
  revert unlinks bytes count files. induction order as [|f order IH]; intros unlinks bytes count files; cbn; [done|].
  case_match; [|done]. destruct unlinks; [done|]. etrans; [apply IH|]. apply delete_subseteq.
Qed.

End selections.

(** ** The fence *)

Section fence.
Context `{ArchiveNames} (cfg : Settings) (ID : pystr → Prop).
Context (ids_separate : ∀ c c', ID c → ID c' → separate c c').
(** The channel, the time, and whether the ledger stays readable. *)
Context (quiet : bool) (c : pystr) (t : Z).

(** A file of the channel [c'] that is not from the future. *)
Definition data_of (now : Z) (c' : pystr) (d : SessionData) : Prop :=
  d_channel_id d = c' ∧ default 0 (d_last_active d) <= now.

Definition fenced_archives (now : Z) (files : gmap pystr Archive) : Prop :=
  ∀ stem a, files !! stem = Some a → ∃ c' u, stem = archive_stem c' u ∧ ID c' ∧ u <= now
    ∧ ∀ d, a_file a = Readable d → data_of now c' d ∧ (c' = c → u <= t ∨ data_after t d).

Definition fenced_live (now : Z) (files : gmap pystr File) : Prop :=
  ∀ c' f, files !! c' = Some f → ID c' ∧ ∀ d, f = Readable d → data_of now c' d
    ∧ ∃ e, d_reset_epoch d = Some e ∧ e <= now ∧ (c' = c → data_after t d ∨ quiet = true ∧ 0 < t ∧ e < t).

Definition fenced_sessions (now : Z) (next : nat) (ss : list (pystr * (nat * Session))) : Prop :=
  NoDup ss.*1 ∧ ∀ c' o s, dict_get ss c' = Some (o, s) →
    ID c' ∧ channel_id s = c' ∧ (o < next)%nat ∧ last_active s <= now ∧ (c' = c → after t s).

Definition bounded (now : Z) (g : gmap pystr Z) : Prop := ∀ c', default 0 (g !! c') <= now.
Definition reaches (g : gmap pystr Z) : Prop := t <= default 0 (g !! c).

Definition fenced_ledger (now : Z) (g : gmap pystr Z) (before : option (gmap pystr Z)) : Prop :=
  bounded now g ∧ reaches g ∧ ∀ b, before = Some b → bounded now b ∧ reaches b.

Definition in_save (s : option Saving) : option Snapshot :=
  match s with
  | Some {| v_phase := Writing n |} | Some {| v_phase := Acking n _ |} => Some n
  | _ => None
  end.

Definition fenced_save (now : Z) (s : option Saving) : Prop :=
  ∀ n, in_save s = Some n → ID (n_channel n) ∧ data_of now (n_channel n) (n_data n)
    ∧ ∃ e, d_reset_epoch (n_data n) = Some e ∧ e <= now ∧ (n_channel n = c → data_after t (n_data n)).

Definition fenced_compactions (next : nat) (ss : list (pystr * (nat * Session))) (ks : list Compacting) : Prop :=
  Forall (λ k, (k_object k < next)%nat ∧ ∀ s, dict_get ss (k_channel k) = Some (k_object k, s) → k_channel k = c →
    Forall (λ m, t < timestamp m) (k_summarize k ++ k_keep k)) ks.

Record Fenced (w : World) : Prop := {
  f_clock : 0 <= clock w ∧ t <= clock w;
  f_archives : fenced_archives (clock w) (archives w);
  f_live : fenced_live (clock w) (live w);
  f_sessions : fenced_sessions (clock w) (next_object w) (sessions w);
  f_epochs : bounded (clock w) (epochs w) ∧ (degraded w = false → reaches (epochs w));
  f_ledger : fenced_ledger (clock w) (ledger w) (ledger_before w);
  f_save : fenced_save (clock w) (saving w);
  f_compactions : fenced_compactions (next_object w) (sessions w) (compactions w);
  f_quiet : quiet = true → degraded w = false ∧ ledger_readable w = true
}.

(** Time passes. *)
Lemma data_of_later now later c' d : now <= later → data_of now c' d → data_of later c' d.
Proof. intros Hle [? ?]. split; [done|lia]. Qed.

Lemma fenced_pass d w : Fenced w → Fenced (pass d w) ∧ t < clock (pass d w) ∧ 0 < clock (pass d w)
  ∧ ∀ c' u a, archives (pass d w) !! archive_stem c' u = Some a → u < clock (pass d w).
Proof.
  intros [Hc Ha Hl Hs He Hg Hv Hk Hq]. assert (clock w < clock (pass d w)) as Hlt by (cbn; lia).
  split_and!; [|lia|lia|]; cycle 1.
  { intros c' u a Hin. destruct (Ha _ _ Hin) as (c2 & u2 & Heq & _ & Hu & _). apply archive_stem_inj in Heq as [<- <-]. lia. }
  split; [lia|..|done|done].
  - intros stem a Hin. destruct (Ha _ _ Hin) as (c' & u & -> & Hid & Hu & Hd). exists c', u. split_and!; [done|done|lia|].
    intros x Hx. destruct (Hd x Hx). split; [|done]. eapply data_of_later; [|done]. lia.
  - intros c' f Hin. destruct (Hl _ _ Hin) as [Hid Hd]. split; [done|]. intros x Hx.
    destruct (Hd x Hx) as (Hof & e & He' & Hle & Ht). split; [eapply data_of_later; [|done]; lia|]. exists e. split_and!; [done|lia|done].
  - destruct Hs as [Hn Hs]. split; [done|]. intros c' o s Hin. destruct (Hs _ _ _ Hin) as (? & ? & ? & ? & ?). split_and!; done || lia.
  - destruct He as [Hb Hr]. split; [|done]. intros c'. specialize (Hb c'). cbn in *. lia.
  - destruct Hg as (Hb & Hr & Hbef). split_and!; [intros c'; specialize (Hb c'); cbn in *; lia|done|].
    intros b Hb'. destruct (Hbef b Hb') as [Hbb Hbr]. split; [|done]. intros c'. specialize (Hbb c'). cbn in *. lia.
  - intros n Hn. destruct (Hv n Hn) as (Hid & Hof & e & He' & Hle & Ht). split_and!; [done|eapply data_of_later; [|done]; lia|].
    exists e. split_and!; [done|lia|done].
Qed.

Lemma fenced_marks d e r w : Fenced w → Fenced (set_marks d e r w).
Proof. intros []. by split. Qed.

Lemma fenced_mark c' w : Fenced w → Fenced (mark c' w).
Proof. apply fenced_marks. Qed.

Lemma fenced_put w c' o s0 s : Fenced w → dict_get (sessions w) c' = Some (o, s0) → channel_id s = c' →
  last_active s <= clock w → (c' = c → after t s0 → after t s) → Fenced (put_session c' o s w).
Proof.
  intros [Hc Ha Hl [Hn Hs] He Hg Hv Hk Hq] Hin Hcid Hla Haft. destruct (Hs _ _ _ Hin) as (Hid & _ & Ho & _ & Ht).
  split; try done.
  - split; [by apply dict_set_NoDup|]. intros c2 o2 s2 H2. cbn in H2. rewrite dict_get_set in H2. case_bool_decide; [|by apply Hs].
    simplify_eq. split_and!; auto.
  - eapply Forall_impl; [exact Hk|]. intros k [Hko Hkm]. split; [done|]. intros s2 H2. cbn in H2. rewrite dict_get_set in H2.
    case_bool_decide as Hkc; [|by eapply Hkm]. injection H2 as -> ->. eapply Hkm. by rewrite Hkc.
Qed.

Lemma fenced_new w c' s : Fenced w → ID c' → channel_id s = c' → last_active s <= clock w → (c' = c → after t s) →
  Fenced (new_object c' s w).
Proof.
  intros [Hc Ha Hl [Hn Hs] He Hg Hv Hk Hq] Hid Hcid Hla Haft. split; try done.
  - split; [by apply dict_set_NoDup|]. intros c2 o2 s2 H2. cbn in H2. rewrite dict_get_set in H2. case_bool_decide.
    + simplify_eq. split_and!; [done|done|cbn; lia|done|done].
    + destruct (Hs _ _ _ H2) as (? & ? & ? & ? & ?). split_and!; try done. cbn. lia.
  - eapply Forall_impl; [exact Hk|]. intros k [Hko Hkm]. split; [cbn; lia|]. intros s2 H2. cbn in H2. rewrite dict_get_set in H2.
    case_bool_decide; [|by eapply Hkm]. injection H2 as H2 _. lia.
Qed.

(** ** Restoring *)

Lemma restored_session w c' s : Fenced w → t < clock w → 0 < clock w → ID c' → restore_from_archive w c' = Some s →
  channel_id s = c' ∧ last_active s <= clock w ∧ (c' = c → after t s).
Proof.
  intros Hw Ht H0 Hid (Hdeg & stem & a & d & Hin & Hpre & Hfile & Hlt & ->)%restored_from.
  destruct (f_archives _ Hw _ _ Hin) as (c2 & u & -> & Hid2 & Hu & Hd). rewrite archived_at_stem in Hlt.
  apply glob_finds_its_own in Hpre; [subst c2|by apply ids_separate]. destruct (Hd d Hfile) as [[Hcid Hla] Haft].
  cbn. split_and!; [done|destruct (d_last_active d); cbn in *; lia|]. intros ->.
  destruct (Haft eq_refl) as [Hle|Haf]; [|by apply Haf]. destruct (f_epochs _ Hw) as [_ Hr]. specialize (Hr Hdeg).
  unfold reaches, epoch_of in *. lia.
Qed.

Lemma fenced_get w c' w' o s : Fenced w → t < clock w → 0 < clock w → ID c' → get_or_create c' w = Some (w', o, s) →
  Fenced w' ∧ clock w' = clock w ∧ archives w' = archives w ∧ dict_get (sessions w') c' = Some (o, s).
Proof.
  intros Hw Ht H0 Hid Hg. unfold get_or_create in Hg. case_bool_decide; [done|].
  set (w1 := match dict_get _ _ with Some _ => _ | None => _ end) in Hg.
  assert (Fenced w1 ∧ clock w1 = clock w ∧ archives w1 = archives w) as (Hw1 & Hc1 & Ha1).
  { unfold w1. destruct (dict_get (sessions w) c') as [p|] eqn:Hin; [done|]. split; [|done]. apply fenced_mark.
    destruct (if bool_decide _ then _ else _) as [s1|] eqn:Hres; cbn [default].
    - case_bool_decide; [done|]. destruct (restored_session _ _ _ Hw Ht H0 Hid Hres) as (? & ? & ?). by apply fenced_new.
    - apply fenced_new; [done|done|done|cbn; lia|]. intros _. by apply after_new. }
  destruct (dict_get (sessions w1) c') as [[o1 s1]|] eqn:Hin; cbn in Hg; [|done]. injection Hg as <- <- <-.
  destruct (f_sessions _ Hw1) as [_ Hs]. destruct (Hs _ _ _ Hin) as (_ & Hcid & _ & _ & _).
  split_and!; [|done|done|].
  - apply (fenced_put _ _ _ s1); [done|done|done|cbn; lia|]. intros _. apply after_active.
  - cbn. by rewrite dict_get_set, bool_decide_refl.
Qed.

(** ** Mutations *)

(** What a mutation does to a session. *)
Definition gentle (now : Z) (f : Session → option Session) : Prop :=
  ∀ s s', f s = Some s' → channel_id s' = channel_id s ∧ last_active s' = last_active s ∧ (t < now → after t s → after t s').

Lemma fenced_mutate w c' f : Fenced w → t < clock w → 0 < clock w → ID c' → gentle (clock w) f → Fenced (mutate c' f w).
Proof.
  intros Hw Ht H0 Hid Hf. unfold mutate. destruct (get_or_create c' w) as [[[w1 o] s]|] eqn:Hg; [|done].
  destruct (fenced_get _ _ _ _ _ Hw Ht H0 Hid Hg) as (Hw1 & Hc & _ & Hin). destruct (f s) as [s'|] eqn:Hfs; [|done].
  destruct (Hf _ _ Hfs) as (Hcid & Hla & Haft). destruct (f_sessions _ Hw1) as [_ Hs].
  destruct (Hs _ _ _ Hin) as (_ & Hc' & _ & Hl & _). apply fenced_mark, (fenced_put _ _ _ s); [done|done|congruence|congruence|auto].
Qed.

Lemma fenced_mutate_present w c' f : Fenced w → t < clock w → gentle (clock w) f → Fenced (mutate_present c' f w).
Proof.
  intros Hw Ht Hf. unfold mutate_present. destruct (dict_get (sessions w) c') as [[o s]|] eqn:Hin; [|done].
  destruct (f s) as [s'|] eqn:Hfs; [|done]. destruct (Hf _ _ Hfs) as (Hcid & Hla & Haft). destruct (f_sessions _ Hw) as [_ Hs].
  destruct (Hs _ _ _ Hin) as (_ & Hc' & _ & Hl & _). apply fenced_mark, (fenced_put _ _ _ s); [done|done|congruence|congruence|auto].
Qed.

Lemma gentle_message now m : gentle now (λ s, Some (with_message m now s)).
Proof. intros s s' [= <-]. split_and!; [done|done|]. intros Ht Hs. by apply after_message. Qed.

Lemma gentle_unique now m : gentle now (λ s, if existsb (λ x, bool_decide (message_id x = m_message_id m)) (messages s)
  then None else Some (with_message m now s)).
Proof. intros s s'. case_match; [done|]. apply gentle_message. Qed.

Lemma gentle_post now text : gentle now (λ s, Some (set_posts (tail_of MAX_SESSION_POSTS
  (posts s ++ [{| role := post; content := text; timestamp := now; user_id := None; message_id := None |}])) s)).
Proof.
  intros s s' [= <-]. split_and!; [done|done|]. intros Ht [Hm Hp Hs Hsum]. split; cbn; [done| |done|done].
  apply (Forall_tail_of _ MAX_SESSION_POSTS), Forall_app. split; [done|]. by repeat constructor.
Qed.

Lemma gentle_without_last now r : gentle now (without_last r).
Proof.
  intros s s' Hs. split_and!; [| |intros _ Ha; by eapply after_without_last]; unfold without_last in Hs; repeat case_match; by simplify_eq.
Qed.

Lemma gentle_scrubbed now text : gentle now (scrubbed text).
Proof.
  intros s s' Hs. split_and!; [| |intros _ Ha; by eapply after_scrubbed]; unfold scrubbed in Hs; case_match; by simplify_eq.
Qed.

(** ** Compactions *)

Lemma fold_append_ids s text gone fallback now :
  channel_id (append_segment (fold_legacy_summary s now) text gone fallback now) = channel_id s
  ∧ last_active (append_segment (fold_legacy_summary s now) text gone fallback now) = last_active s.
Proof. destruct (fold_legacy_keeps s now) as (_ & H1' & _ & _ & H2' & _). done. Qed.

Lemma fallback_ids lim s now s' : fallback_compact lim s now = Some s' → channel_id s' = channel_id s ∧ last_active s' = last_active s.
Proof. unfold fallback_compact. case_match; [done|]. intros [= <-]. exact (fold_append_ids (set_messages _ s) _ _ true now). Qed.

Lemma fenced_begin_compaction w c' : Fenced w → t < clock w → 0 < clock w → ID c' → (0 < max_history (limits cfg))%nat →
  Fenced (begin_compaction cfg c' w).
Proof.
  intros Hw Ht H0 Hid Hmax. unfold begin_compaction. destruct (get_or_create c' w) as [[[w1 o] s]|] eqn:Hg; [|done].
  destruct (fenced_get _ _ _ _ _ Hw Ht H0 Hid Hg) as (Hw1 & Hc & _ & Hin). destruct (needs_compaction _ _); [|done].
  destruct (split_for_compaction (limits cfg) s) as [gone kept] eqn:Hsplit. case_bool_decide; [done|].
  destruct (f_sessions _ Hw1) as [_ Hs]. destruct (Hs _ _ _ Hin) as (_ & Hcid & Ho & _ & Haft).
  destruct Hw1 as [Hc1 Ha Hl Hs1 He Hgl Hv Hk Hq]. split; try done. cbn. apply Forall_app. split; [done|]. constructor; [|done].
  cbn. split; [done|]. rewrite Hcid. intros s2 H2 ->. rewrite Hin in H2. injection H2 as <-.
  destruct (split_spec _ _ _ _ Hmax Hsplit) as [Hms _]. rewrite <- Hms. by apply after_messages, Haft.
Qed.

Lemma fenced_publish w k answer : Fenced w → t < clock w →
  (∀ s, dict_get (sessions w) (k_channel k) = Some (k_object k, s) → k_channel k = c →
    Forall (λ m, t < timestamp m) (k_summarize k ++ k_keep k)) →
  Fenced (publish_compaction cfg k answer w).
Proof.
  intros Hw Ht Hk. unfold publish_compaction, still_there.
  destruct (dict_get (sessions w) (k_channel k)) as [[o s]|] eqn:Hin; [|done].
  destruct (bool_decide (o = k_object k) && _ && _) eqn:Hb; [|done]. bool_prop. subst o.
  destruct (f_sessions _ Hw) as [_ Hs]. destruct (Hs _ _ _ Hin) as (_ & Hcid & _ & Hla & _).
  assert (Fenced (match fallback_compact (limits cfg) s (clock w) with
    Some s => mark (k_channel k) (put_session (k_channel k) (k_object k) s w) | None => w end)) as Hfb.
  { destruct (fallback_compact _ _ _) as [s'|] eqn:Hf; [|done]. destruct (fallback_ids _ _ _ _ Hf) as [Hc1 Hl1].
    apply fenced_mark, (fenced_put _ _ _ s); [done|done|congruence|congruence|]. intros _ Ha. by eapply after_fallback. }
  destruct answer as [text|]; [|done]. destruct (nonempty _); [|done].
  destruct (fold_append_ids s text (k_summarize k) false (clock w)) as [Hc1 Hl1].
  apply fenced_mark, (fenced_put _ _ _ s); [done|done|cbn in *; congruence|cbn in *; congruence|].
  intros Hc' Ha. apply after_close; [done|done|by eapply Hk].
Qed.

Lemma fenced_finish_compaction w i answer : Fenced w → t < clock w → Fenced (finish_compaction cfg i answer w).
Proof.
  intros Hw Ht. unfold finish_compaction. destruct (compactions w !! i) as [k|] eqn:Hi; [|done].
  pose proof (f_compactions _ Hw) as Hk. apply fenced_publish; [|done|].
  - destruct Hw as [Hc Ha Hl Hs He Hg Hv _ Hq]. split; try done. cbn. unfold fenced_compactions in *.
    apply Forall_delete. done.
  - intros s Hin. eapply Forall_lookup_1 in Hk as [_ Hk]; [|exact Hi]. exact (Hk s Hin).
Qed.

(** ** Saves *)

Lemma fenced_work w s : Fenced w → fenced_save (clock w) s → Fenced (set_work s (compactions w) w).
Proof. intros [] Hs. by split. Qed.

Lemma fenced_begin_save w all order : Fenced w → Fenced (begin_save all order w).
Proof. intros Hw. unfold begin_save. destruct (saving w); [done|]. apply fenced_work; [done|]. by intros n. Qed.

Lemma fenced_snapshot w c' queue : Fenced w → t < clock w → Fenced (snapshot c' queue w).
Proof.
  intros Hw Ht. unfold snapshot. case_bool_decide; [by apply fenced_work; [apply fenced_marks|intros n]|].
  case_bool_decide; [by apply fenced_work; [|intros n]|].
  destruct (dict_get (sessions w) c') as [[o s]|] eqn:Hin; [|by apply fenced_work; [apply fenced_marks|intros n]].
  destruct (f_sessions _ Hw) as [_ Hs]. destruct (Hs _ _ _ Hin) as (Hid & Hcid & _ & Hla & Haft).
  destruct (f_epochs _ Hw) as [Hb _]. apply fenced_work; [done|]. intros n [= <-]. cbn. split_and!; [done|done|].
  exists (epoch_of w c'). split_and!; [done|apply Hb|]. intros Heq. by apply after_data, Haft.
Qed.

Lemma fenced_continue w o : Fenced w → t < clock w → Fenced (continue_save o w).
Proof.
  intros Hw Ht. unfold continue_save. pose proof (f_save _ Hw) as Hv. destruct (saving w) as [[queue phase]|]; [|done].
  cbn [v_phase v_queue]. destruct phase as [|n|n ok].
  - destruct queue as [|c' queue]; [by apply fenced_work; [|intros n]|by apply fenced_snapshot].
  - destruct (Hv n eq_refl) as (Hid & Hof & e & He & Hle & Haft).
    assert (Fenced (if visible o then set_files (<[n_channel n := Readable (n_data n)]> (live w)) (archives w) w else w)) as Hw'.
    { destruct (visible o); [|done]. destruct Hw as [Hc Ha Hl Hs Hep Hg Hv' Hk Hq]. split; try done. intros c2 f2 H2. cbn in H2.
      apply lookup_insert_Some in H2 as [[<- <-]|[_ H2]]; [|by apply Hl]. split; [done|]. intros d [= <-]. split; [done|].
      exists e. split_and!; [done|done|]. intros Heq. left. by apply Haft. }
    assert (clock (if visible o then set_files (<[n_channel n := Readable (n_data n)]> (live w)) (archives w) w else w) = clock w) as Hcl
      by by destruct (visible o).
    apply fenced_work; [done|]. rewrite Hcl. intros n' [= <-]. split_and!; [done|done|]. by exists e.
  - assert (Fenced (acknowledge n ok w) ∧ compactions (acknowledge n ok w) = compactions w) as [Hw' Hcomp].
    { unfold acknowledge. destruct ok; cbn [negb]; [|split; [by apply fenced_marks|done]].
      destruct (dict_get _ _) as [[o' s]|]; [|done]. case_match; [split; [by apply fenced_marks|done]|done]. }
    rewrite <- Hcomp. apply fenced_work; [done|]. by intros n'.
Qed.

(** ** Resets *)

Lemma fenced_del w c' : Fenced w → Fenced (set_sessions (dict_del (sessions w) c') w).
Proof.
  intros [Hc Ha Hl [Hn Hs] He Hg Hv Hk Hq]. split; try done.
  - split; [by apply dict_del_NoDup|]. intros c2 o2 s2 H2. cbn in H2. rewrite dict_get_del in H2. case_bool_decide; [done|by apply Hs].
  - eapply Forall_impl; [exact Hk|]. intros k [Hko Hkm]. split; [done|]. intros s2 H2. cbn in H2. rewrite dict_get_del in H2.
    case_bool_decide; [done|by eapply Hkm].
Qed.

Lemma fenced_forget w c' : Fenced w → Fenced (forget c' w).
Proof. intros Hw. by apply fenced_marks, fenced_del. Qed.

Lemma fenced_delete_live w c' : Fenced w → Fenced (set_files (delete c' (live w)) (archives w) w).
Proof.
  intros [Hc Ha Hl Hs He Hg Hv Hk Hq]. split; try done. intros c2 f2 H2. cbn in H2. apply lookup_delete_Some in H2 as [_ H2]. by apply Hl.
Qed.

Lemma fenced_set_epochs w p e : Fenced w → bounded (clock w) e → (degraded w = false → reaches e) → Fenced (set_epochs p e w).
Proof. intros [Hc Ha Hl Hs He Hg Hv Hk Hq] Hb Hr. by split. Qed.

Lemma fenced_set_ledger w g ok before : Fenced w → fenced_ledger (clock w) g before → (quiet = true → ok = true) →
  Fenced (set_ledger g ok before w).
Proof. intros [Hc Ha Hl Hs He Hg Hv Hk Hq] Hg' Hok. split; try done. intros Hquiet. cbn. split; [by apply Hq|by apply Hok]. Qed.

Lemma fenced_clear_channel retained w c' : Fenced w → Fenced (clear_channel retained c' w).
Proof.
  intros Hw. unfold clear_channel. assert (Fenced (bump c' (forget c' (set_epochs (delete c' (pending w)) (epochs w) w)))) as Hb.
  { apply fenced_marks, fenced_forget, fenced_set_epochs; [done|apply Hw|apply Hw]. }
  case_bool_decide; [done|]. by apply fenced_delete_live.
Qed.

(** The epochs after a reset of [requested]. *)
Definition fences_of (w : World) (requested : gset pystr) : gmap pystr Z := gset_to_gmap (clock w) requested ∪ epochs w.

Lemma fences_lookup w requested c' :
  default 0 (fences_of w requested !! c') = if bool_decide (c' ∈ requested) then clock w else epoch_of w c'.
Proof.
  unfold fences_of. case_bool_decide as Hin.
  - erewrite lookup_union_Some_l; [|by rewrite lookup_gset_to_gmap, option_guard_True by done]. done.
  - rewrite lookup_union_r; [done|]. by rewrite lookup_gset_to_gmap, option_guard_False by done.
Qed.

Lemma fenced_reset w cids o retained : Fenced w → Fenced (reset_many cids o retained w).1.
Proof.
  intros Hw. unfold reset_many. case_bool_decide; [done|]. set (w1 := foldl _ w _).
  assert (Fenced w1) as Hw1.
  { apply (run_invariant (λ w c', bump c' (forget c' w)) Fenced); [done|]. intros w2 c2 H2. by apply fenced_marks, fenced_forget. }
  clearbody w1. case_bool_decide; [done|]. destruct (degraded w1) eqn:Hdeg; [done|]. destruct (f_epochs _ Hw1) as [Hb Hr].
  assert (bounded (clock w1) (fences_of w1 (list_to_set cids ∖ ephemeral_channels w1))) as Hb'.
  { intros c'. rewrite fences_lookup. case_bool_decide; [done|apply Hb]. }
  assert (reaches (fences_of w1 (list_to_set cids ∖ ephemeral_channels w1))) as Hr'.
  { unfold reaches. rewrite fences_lookup. case_bool_decide; [apply (f_clock _ Hw1)|by apply Hr]. }
  destruct (f_ledger _ Hw1) as (Hgb & Hgr & Hbef). fold (fences_of w1 (list_to_set cids ∖ ephemeral_channels w1)). destruct o; cbn [fst].
  - apply (run_invariant (λ w c', clear_channel retained c' w) Fenced).
    + apply (fenced_set_epochs (set_ledger _ true None w1)); [|done|done]. apply fenced_set_ledger; [done|split_and!; [done|done|by intros b]|done].
    + intros w2 c2 H2. by apply fenced_clear_channel.
  - apply (fenced_set_epochs (set_ledger _ true _ w1)); [|done|done]. apply fenced_set_ledger; [done| |done].
    split_and!; [done|done|]. intros b [= <-]. destruct (ledger_before w1) as [b|]; [by apply Hbef|done].
  - by apply fenced_set_epochs.
Qed.

(** ** Archiving *)

(** The archives of the channels [cs] have times before this step. *)
Definition earlier (w : World) (cs : list pystr) : Prop :=
  ∀ c' u, c' ∈ cs → is_Some (archives w !! archive_stem c' u) → u < clock w.

Lemma archive_time_now w c' s : 0 <= clock w → last_active s <= clock w →
  (∀ u, is_Some (archives w !! archive_stem c' u) → u < clock w) → archive_time c' s w <= clock w.
Proof.
  intros H0 Hla He. unfold archive_time. destruct (free_time_spec (archives w) c' (S (size (archives w)))
    (last_active s / SECOND * SECOND)) as (k & -> & [->|Hk]).
  - unfold SECOND. pose proof (Z.mod_pos_bound (last_active s) 4194304 ltac:(lia)).
    pose proof (Z.div_mod (last_active s) 4194304 ltac:(lia)). lia.
  - apply He in Hk. lia.
Qed.

Lemma fenced_archives_sub now files files' : files' ⊆ files → fenced_archives now files → fenced_archives now files'.
Proof. intros Hsub Hf stem a Hin. apply Hf. by eapply lookup_weaken. Qed.

Lemma fenced_prune_old w unlinks : Fenced w → Fenced (prune_old_archives cfg unlinks w).
Proof.
  intros [Hc Ha Hl Hs He Hg Hv Hk Hq]. split; try done. cbn. eapply fenced_archives_sub; [|exact Ha]. apply evict_subseteq.
Qed.

Lemma fenced_archive w c' p : Fenced w → (∀ u, is_Some (archives w !! archive_stem c' u) → u < clock w) →
  Fenced (archive_session cfg c' p w).1 ∧ clock (archive_session cfg c' p w).1 = clock w
  ∧ sessions (archive_session cfg c' p w).1 = sessions w
  ∧ ∀ c2 u, c2 ≠ c' → is_Some (archives (archive_session cfg c' p w).1 !! archive_stem c2 u) → is_Some (archives w !! archive_stem c2 u).
Proof.
  intros Hw He. unfold archive_session. destruct (dict_get (sessions w) c') as [[o s]|] eqn:Hin; [|done].
  case_match; [done|]. set (a := {| a_file := _ |}). set (stem := archive_stem c' _).
  destruct (f_sessions _ Hw) as [_ Hs]. destruct (Hs _ _ _ Hin) as (Hid & Hcid & _ & Hla & Haft).
  set (w1 := if visible _ then _ else _).
  assert (Fenced w1 ∧ clock w1 = clock w ∧ sessions w1 = sessions w ∧
    ∀ c2 u, c2 ≠ c' → is_Some (archives w1 !! archive_stem c2 u) → is_Some (archives w !! archive_stem c2 u)) as (Hw1 & Hc1 & Hs1 & Hother).
  { unfold w1. destruct (visible _); [|done]. split_and!; [|done|done|].
    - destruct Hw as [Hc Ha Hl Hs' Hep Hg Hv Hk Hq]. split; try done. intros stem2 a2 H2. cbn in H2.
      apply lookup_insert_Some in H2 as [[<- <-]|[_ H2]]; [|by apply Ha]. exists c', (archive_time c' s w).
      split_and!; [done|done|exact (archive_time_now w c' s (proj1 Hc) Hla He)|]. intros d [= <-]. split; [done|]. intros Heq. right.
      by apply after_data, Haft.
    - intros c2 u Hne. cbn. rewrite lookup_insert_ne; [done|]. unfold stem. by intros [? _]%archive_stem_inj. }
  destruct (bool_decide (p_written p = Synced)); [|by split_and!]. cbn [fst]. split_and!; [by apply fenced_prune_old|done|done|].
  intros c2 u Hne [x Hx]. cbn in Hx. apply Hother; [done|]. exists x. eapply lookup_weaken; [exact Hx|]. apply evict_subseteq.
Qed.

Lemma fenced_prune_all w cids answers : Fenced w → NoDup cids → earlier w cids → Fenced (prune_all cfg cids answers w).
Proof.
  intros Hw Hn. revert answers w Hw. induction Hn as [|c' cids Hc' Hn IH]; intros answers w Hw He; cbn [prune_all]; [done|].
  destruct answers as [|p answers]; [done|]. destruct (fenced_archive w c' p Hw) as (Hw1 & Hc1 & Hs1 & Hother).
  { intros u Hu. apply (He c'); [by left|done]. }
  destruct (archive_session cfg c' p w) as [w1 [|]]; cbn [fst] in *; [|done]. case_match; [done|]. apply IH.
  - apply (fenced_del (set_files _ _ w1)). by apply fenced_delete_live.
  - intros c2 u Hin Hsome. cbn in *. rewrite Hc1. apply (He c2); [by right|]. apply Hother; [|done]. intros ->. done.
Qed.

Lemma fenced_prune w answers : Fenced w → earlier w (sessions w).*1 → Fenced (prune cfg answers w).
Proof.
  intros Hw He. unfold prune. destruct (degraded w); [done|]. destruct (f_sessions _ Hw) as [Hn _].
  assert (sublist (expired cfg w) (sessions w).*1) as Hsub.
  { unfold expired. apply fmap_sublist. generalize (sessions w). intros l. induction l as [|x l IH]; cbn; [constructor|].
    case_match; by constructor. }
  apply fenced_prune_all; [done|by eapply sublist_NoDup|]. intros c' u Hin. apply He. eapply (sublist_subseteq (A := pystr)); [|exact Hin]. done.
Qed.

(** ** Starting *)

Lemma suppressed_false w d e : d_reset_epoch d = Some e → suppressed w d = false →
  epoch_of w (d_channel_id d) = 0 ∨ epoch_of w (d_channel_id d) <= e.
Proof. unfold suppressed. intros ->. destruct (Z.eqb_spec (epoch_of w (d_channel_id d)) 0); [by left|]. cbn. intros. right. bool_prop. lia. Qed.

Lemma fenced_load_file w f : Fenced w →
  (∀ d, f = Readable d → ID (d_channel_id d) ∧ data_of (clock w) (d_channel_id d) d
     ∧ ∃ e, d_reset_epoch d = Some e ∧ (d_channel_id d = c → data_after t d ∨ quiet = true ∧ 0 < t ∧ e < t)) →
  t < clock w → Fenced (load_file w f).
Proof.
  intros Hw Hf Ht. destruct f as [|d]; [done|]. cbn [load_file]. destruct (suppressed w d) eqn:Hsup; [done|].
  destruct (Hf d eq_refl) as (Hid & [_ Hla] & e & He & Haft). apply fenced_new; [done|done|done| |].
  - cbn. pose proof (f_clock _ Hw). destruct (d_last_active d); cbn in *; lia.
  - intros Heq. destruct (Haft Heq) as [Hd|(Hq & H0 & Hlt)]; [by apply Hd|]. exfalso.
    destruct (f_quiet _ Hw Hq) as [Hdeg _]. destruct (f_epochs _ Hw) as [_ Hr]. specialize (Hr Hdeg). unfold reaches in Hr.
    destruct (suppressed_false _ _ _ He Hsup) as [Hz|Hle]; unfold epoch_of in *; rewrite Heq in *; lia.
Qed.

Lemma fenced_load w : Fenced w → t < clock w → Fenced (load w).
Proof.
  intros Hw Ht. unfold load. assert (∀ f, f ∈ (map_to_list (live w)).*2 → ∀ d, f = Readable d → ID (d_channel_id d)
    ∧ data_of (clock w) (d_channel_id d) d
    ∧ ∃ e, d_reset_epoch d = Some e ∧ (d_channel_id d = c → data_after t d ∨ quiet = true ∧ 0 < t ∧ e < t)) as Hall.
  { intros f ([c' f'] & -> & Hin)%list_elem_of_fmap d Hd. apply elem_of_map_to_list in Hin.
    destruct (f_live _ Hw _ _ Hin) as [Hid Hf]. destruct (Hf d Hd) as ([Hcid Hla] & e & He & _ & Haft). subst c'.
    split_and!; [done|done|]. by exists e. }
  generalize dependent ((map_to_list (live w)).*2). intros fs. revert w Hw Ht.
  induction fs as [|f fs IH]; intros w Hw Ht Hall; [done|].
  cbn [foldl]. assert (clock (load_file w f) = clock w) as Hc by (destruct f; cbn; [done|by case_match]). apply IH.
  - apply fenced_load_file; [done| |done]. apply Hall. by left.
  - lia.
  - rewrite Hc. intros f' Hin. apply Hall. by right.
Qed.

Lemma fenced_restart w lost : Fenced w → t < clock w → Fenced (restart lost w).
Proof.
  intros [Hc Ha Hl Hs He (Hgb & Hgr & Hbef) Hv Hk Hq] Ht. unfold restart.
  assert (bounded (clock w) (match ledger_before w with Some g => if lost then g else ledger w | None => ledger w end)
    ∧ reaches (match ledger_before w with Some g => if lost then g else ledger w | None => ledger w end)) as [Hb Hr].
  { destruct (ledger_before w) as [b|]; [|done]. destruct lost; [by apply Hbef|done]. }
  apply fenced_load; [|done]. split; cbn; try done.
  - split; [constructor|done].
  - split; destruct (ledger_readable w); [done|intros c'; rewrite lookup_empty; cbn; lia|done|done].
  - constructor.
  - intros Hquiet. by destruct (Hq Hquiet) as [_ ->].
Qed.

(** ** Every step *)

Definition op_ids (op : Op) : Prop :=
  match op with
  | OpGet c | OpAdd c _ | OpAddUnique c _ | OpPost c _ | OpCompact c => ID c
  | _ => True
  end.

Lemma fenced_apply w op : Fenced w → t < clock w → 0 < clock w → (∀ c' u a, archives w !! archive_stem c' u = Some a → u < clock w) →
  (0 < max_history (limits cfg))%nat → op_ids op → (quiet = true → op ≠ OpDamageLedger) → Fenced (apply cfg op w).
Proof.
  intros Hw Ht H0 He Hmax Hid Hquiet.
  assert (∀ w', Fenced w' → Fenced (locked w w')) as Hlock by (intros w' Hw'; unfold locked; by destruct (saving w)).
  destruct op; cbn [apply op_ids] in *.
  - destruct (get_or_create c0 w) as [[[w1 o] s]|] eqn:Hg; [|done]. by eapply fenced_get.
  - apply fenced_mutate; [done|done|done|done|apply gentle_message].
  - apply fenced_mutate; [done|done|done|done|apply gentle_unique].
  - apply fenced_mutate; [done|done|done|done|apply gentle_post].
  - apply fenced_mutate_present; [done|done|apply gentle_without_last].
  - apply fenced_mutate_present; [done|done|apply gentle_scrubbed].
  - by apply fenced_begin_compaction.
  - by apply fenced_finish_compaction.
  - by apply fenced_begin_save.
  - by apply fenced_continue.
  - by apply Hlock, fenced_reset.
  - by apply Hlock, fenced_reset.
  - apply Hlock, fenced_prune; [done|]. intros c' u _ [a Ha]. by eapply He.
  - apply Hlock. unfold enter_ephemeral. case_match; [done|]. by apply fenced_marks.
  - apply Hlock. unfold leave_ephemeral. case_bool_decide; [|done]. by apply (fenced_del (set_marks _ _ _ w)), fenced_marks.
  - by apply fenced_restart.
  - apply fenced_set_ledger; [done|apply Hw|]. intros Hq. by destruct (Hquiet Hq).
  - by apply fenced_set_ledger; [|apply Hw|].
  - destruct Hw as [Hc Ha Hl Hs Hep Hg Hv Hk Hq]. split; try done. intros stem2 a2 H2. cbn in H2.
    apply lookup_alter_Some in H2 as [(-> & a & Hin & ->)|[_ Hin]]; [|by apply Ha].
    destruct (Ha _ _ Hin) as (c' & u & -> & Hid' & Hu & Hd). by exists c', u.
Qed.

Lemma fenced_step w l : Fenced w → (0 < max_history (limits cfg))%nat → op_ids l.2 → (quiet = true → l.2 ≠ OpDamageLedger) →
  Fenced (step cfg w l).
Proof.
  intros Hw Hmax Hid Hq. destruct (fenced_pass l.1 w Hw) as (Hp & Ht & H0 & He). by apply fenced_apply.
Qed.

Lemma fenced_run w ls : Fenced w → (0 < max_history (limits cfg))%nat → Forall (λ l, op_ids l.2 ∧ (quiet = true → l.2 ≠ OpDamageLedger)) ls →
  Fenced (run (step cfg) w ls).
Proof. intros Hw Hmax Hls. eapply (run_invariant_on _ _ Fenced); [done|exact Hls|]. intros w' l [Hid Hq] Hw'. by apply fenced_step. Qed.

End fence.

(** ** The reset *)

(** A change that only removes sessions and live files. *)
Record removes (w w' : World) : Prop := {
  r_clock : clock w' = clock w;
  r_archives : archives w' = archives w;
  r_epochs : epochs w' = epochs w ∧ degraded w' = degraded w;
  r_ledger : ledger w' = ledger w ∧ ledger_readable w' = ledger_readable w ∧ ledger_before w' = ledger_before w;
  r_saving : saving w' = saving w;
  r_ephemeral : ephemeral_channels w' = ephemeral_channels w;
  r_live : live w' ⊆ live w;
  r_sessions c : dict_get (sessions w) c = None → dict_get (sessions w') c = None
}.

#[export] Instance removes_refl : Reflexive removes.
Proof. intros w. by split. Qed.
#[export] Instance removes_trans : Transitive removes.
Proof.
  intros w1 w2 w3 [] []. split; try congruence; try naive_solver congruence. by etrans.
Qed.

Lemma removes_forget c w : removes w (bump c (forget c w)).
Proof. split; try done. intros c' Hn. cbn. rewrite dict_get_del. by case_bool_decide. Qed.

Lemma removes_clear retained w c : removes w (clear_channel retained c w).
Proof.
  unfold clear_channel. case_bool_decide; split; try done.
  2: { cbn. apply delete_subseteq. }
  all: intros c' Hn; change (dict_get (dict_del (sessions w) c) c' = None); rewrite dict_get_del; by case_bool_decide.
Qed.

Lemma cleared retained c w : dict_get (sessions (clear_channel retained c w)) c = None
  ∧ (c ∉ retained → live (clear_channel retained c w) !! c = None).
Proof.
  split.
  - unfold clear_channel. case_bool_decide; change (dict_get (dict_del (sessions w) c) c = None); by rewrite dict_get_del, bool_decide_refl.
  - intros Hr. unfold clear_channel. rewrite bool_decide_false by done. apply lookup_delete_eq.
Qed.

Lemma removes_fold (f : World → pystr → World) w cs : (∀ w c, removes w (f w c)) → removes w (foldl f w cs).
Proof. intros Hf. revert w. induction cs as [|c cs IH]; intros w; cbn; [done|]. etrans; [apply Hf|apply IH]. Qed.

Lemma cleared_fold retained c w cs : c ∈ cs →
  dict_get (sessions (foldl (λ w c, clear_channel retained c w) w cs)) c = None
  ∧ (c ∉ retained → live (foldl (λ w c, clear_channel retained c w) w cs) !! c = None).
Proof.
  revert w. induction cs as [|c' cs IH]; intros w; [by intros ?%not_elem_of_nil|]. intros [->|Hin]%elem_of_cons; cbn [foldl]; [|by apply IH].
  destruct (cleared retained c' w) as [Hs Hl].
  destruct (removes_fold (λ w c, clear_channel retained c w) (clear_channel retained c' w) cs (removes_clear retained)) as
    [_ _ _ _ _ _ Hlive Hsess]. split; [by apply Hsess|]. intros Hr. specialize (Hl Hr).
  destruct (live (foldl _ _ _) !! c') as [x|] eqn:Hx; [|done]. exfalso. eapply lookup_weaken in Hx; [|exact Hlive]. congruence.
Qed.

Section final.
Context `{ArchiveNames} (cfg : Settings) (ID : pystr → Prop).
Context (ids_separate : ∀ c c', ID c → ID c' → separate c c').

(** A reset that returns puts up the fence for its time. *)
Lemma reset_fences c w w' cids retained :
  Fenced ID false c (-1) w → 0 < clock w →
  (∀ f d, live w !! c = Some f → f = Readable d → ∃ e, d_reset_epoch d = Some e ∧ e < clock w) →
  saving w = None → reset_many cids Synced retained w = (w', true) → c ∈ cids → c ∉ ephemeral_channels w →
  clock w' = clock w ∧ Fenced ID (bool_decide (c ∈ retained)) c (clock w) w'.
Proof.
  intros Hw H0 Hold Hsave Hreset Hc Hne. pose proof (fenced_reset ID false c (-1) w cids Synced retained Hw) as Hw'.
  rewrite Hreset in Hw'. cbn [fst] in Hw'. revert Hreset. unfold reset_many. case_bool_decide as Hempty; [set_solver|].
  set (w1 := foldl _ w _). assert (removes w w1) as Hr1 by (apply removes_fold; intros; apply removes_forget). clearbody w1.
  assert (c ∈ list_to_set cids ∖ ephemeral_channels w1) as Hreq by (rewrite (r_ephemeral _ _ Hr1); set_solver).
  case_bool_decide as Hempty2; [set_solver|]. destruct (degraded w1) eqn:Hdeg; [done|].
  change (gset_to_gmap (clock w1) ?r ∪ epochs w1) with (fences_of w1 r). set (g := fences_of w1 _).
  set (w2 := set_epochs _ _ _). intros [= <-].
  pose proof (removes_fold (λ w c, clear_channel retained c w) w2 (elements (list_to_set cids ∖ ephemeral_channels w1))
    (removes_clear retained)) as Hr2.
  destruct (cleared_fold retained c w2 (elements (list_to_set cids ∖ ephemeral_channels w1))) as [Hgone Hfile]; [by apply elem_of_elements|].
  set (w3 := foldl _ w2 _) in *. destruct Hr1 as [Hc1 _ [_ Hd1] _ Hs1 _ Hl1 _]. destruct Hr2 as [Hc2 Ha2 [He2 Hd2] (Hg2 & Hok2 & Hb2) Hs2 _ Hl2 _].
  assert (clock w3 = clock w) as Hclock by (rewrite Hc2; exact Hc1). split; [done|].
  assert (reaches c (clock w) g) as Hg by (unfold reaches, g; rewrite fences_lookup, bool_decide_true by done; lia).
  destruct Hw' as [Hcl Ha Hl [Hn Hs] [Heb _] (Hgb & _ & _) Hv Hk _]. split.
  - lia.
  - intros stem a Hin. destruct (Ha _ _ Hin) as (c' & u & -> & Hid & Hu & Hd). exists c', u. split_and!; [done|done|done|].
    intros d Hd'. destruct (Hd d Hd') as [Hof _]. split; [done|]. left. lia.
  - intros c' f Hin. destruct (Hl _ _ Hin) as [Hid Hd]. split; [done|]. intros d Hd'. destruct (Hd d Hd') as (Hof & e & He & Hle & _).
    split; [done|]. exists e. split_and!; [done|done|]. intros ->. right. case_bool_decide as Hret; [|by rewrite Hfile in Hin].
    destruct (Hold f d) as (e' & He' & Hlt); [|done|]; [|split_and!; [done|done|congruence]].
    eapply lookup_weaken; [exact Hin|]. etrans; [exact Hl2|exact Hl1].
  - split; [done|]. intros c' o s Hin. destruct (Hs _ _ _ Hin) as (? & ? & ? & ? & _). split_and!; [done..|]. intros ->. congruence.
  - split; [done|]. intros _. by rewrite He2.
  - rewrite Hg2, Hb2. split_and!; [|done|by intros b]. by rewrite Hg2 in Hgb.
  - intros n. rewrite Hs2. cbn. by rewrite Hs1, Hsave.
  - eapply Forall_impl; [exact Hk|]. intros k [Hko _]. split; [done|]. intros s Hin Hkc. rewrite Hkc in Hin. congruence.
  - intros _. rewrite Hd2, Hok2. done.
Qed.

Lemma fenced_empty c now : 0 <= now → Fenced ID false c (-1) (empty_world now).
Proof.
  intros H0. split; cbn; try done.
  - lia.
  - split; [constructor|done].
  - assert (bounded now ∅) by (intros c'; rewrite lookup_empty; cbn; lia). split; [done|done].
  - assert (bounded now ∅) by (intros c'; rewrite lookup_empty; cbn; lia). by split_and!.
  - constructor.
Qed.

Lemma empty_run_fenced c now ls : 0 <= now → (0 < max_history (limits cfg))%nat → Forall (λ l, op_ids ID l.2) ls →
  Fenced ID false c (-1) (run (step cfg) (empty_world now) ls).
Proof.
  intros H0 Hmax Hls. apply fenced_run; [done|by apply fenced_empty|done|]. eapply Forall_impl; [exact Hls|]. by intros l Hl.
Qed.

(** C17: What a reset that returned removed from a channel that is not ephemeral never
    comes back. After any run of operations, failed writes, restarts and evictions, no
    session of the channel holds a message, a post or a summary from before the reset:
    not from a live file that could not be removed, not from an archive, not from a save
    or a compaction that was under way. Two cases are excluded: an id that continues
    another one with an underscore, whose archives the other's glob finds, and a
    retained live file when the ledger is later unreadable. *)
Theorem resets_are_final now ls1 d w cids retained w' c ls2 o s :
  0 <= now → (0 < max_history (limits cfg))%nat →
  Forall (λ l, op_ids ID l.2) ls1 → Forall (λ l, op_ids ID l.2) ls2 →
  w = pass d (run (step cfg) (empty_world now) ls1) →
  saving w = None → reset_many cids Synced retained w = (w', true) → c ∈ cids → c ∉ ephemeral_channels w →
  c ∉ retained ∨ Forall (λ l, l.2 ≠ OpDamageLedger) ls2 →
  dict_get (sessions (run (step cfg) w' ls2)) c = Some (o, s) → after (clock w) s.
Proof.
  intros H0 Hmax Hls1 Hls2 Hw1 Hsave Hreset Hc Hne Hok Hin.
  pose proof (empty_run_fenced c now ls1 H0 Hmax Hls1) as Hw0.
  destruct (fenced_pass ID false c (-1) d _ Hw0) as (Hw & _ & Hpos & _). rewrite <- Hw1 in Hw, Hpos.
  destruct (reset_fences c w w' cids retained Hw Hpos) as [Hcl Hw']; [|done|done|done|done|].
  { intros f x Hf Hx. rewrite Hw1 in Hf. destruct (f_live _ _ _ _ _ Hw0 _ _ Hf) as [_ Hd]. destruct (Hd x Hx) as (_ & e & He & Hle & _). exists e.
    split; [done|]. rewrite Hw1. cbn. lia. }
  assert (Fenced ID (bool_decide (c ∈ retained)) c (clock w) (run (step cfg) w' ls2)) as Hend.
  { apply fenced_run; [done|done|done|]. destruct Hok as [Hnr|Hnd].
    - rewrite bool_decide_false by done. eapply Forall_impl; [exact Hls2|]. by intros l Hl.
    - apply Forall_and. split; [done|]. eapply Forall_impl; [exact Hnd|]. auto. }
  destruct (f_sessions _ _ _ _ _ Hend) as [_ Hs]. by destruct (Hs _ _ _ Hin) as (_ & _ & _ & _ & Ha); apply Ha.
Qed.

End final.

Module ResetWitness.
Import SessionExample.

Definition only_a (c : pystr) : Prop := c = lit "a".
Lemma a_separate c c' : only_a c → only_a c' → separate c c'.
Proof. unfold only_a. by intros -> ->. Qed.

Definition before_reset : list (Z * Op) := [(1, OpAdd (lit "a") (says "secret"))] ++ saved.
Definition since_reset : list (Z * Op) := [(1, OpAdd (lit "a") (says "hello")); (days, OpPrune [archived]); (1, OpGet (lit "a"))].
Definition at_reset : World := pass 5 (run (step defaults) (empty_world 0) before_reset).
Definition reset_world : World := (reset_many [lit "a"] Synced ∅ at_reset).1.

Notation last_one := (dict_get (sessions (run (step defaults) reset_world since_reset)) (lit "a")).

Lemma witness_is_idle : saving at_reset = None.
Proof. vm_compute. reflexivity. Qed.
Lemma witness_resets : reset_many [lit "a"] Synced ∅ at_reset = (reset_world, true).
Proof.
  unfold reset_world. assert ((reset_many [lit "a"] Synced ∅ at_reset).2 = true) as He by (vm_compute; reflexivity).
  destruct (reset_many _ _ _ _). cbn in *. by rewrite He.
Qed.
Lemma witness_ephemeral : lit "a" ∉ ephemeral_channels at_reset.
Proof. apply (bool_decide_unpack _). vm_compute. exact I. Qed.
Lemma witness_session : is_Some last_one.
Proof. apply (bool_decide_unpack _). vm_compute. exact I. Qed.

(** After a reset the channel talks again and its conversation goes through an
    archive. *)
Lemma resets_are_final_witness : ∃ o s, last_one = Some (o, s) ∧ after (clock at_reset) s.
Proof.
  destruct witness_session as [[o s] Hs]. exists o, s. split; [exact Hs|].
  apply (resets_are_final defaults only_a a_separate 0 before_reset 5 at_reset [lit "a"] ∅ reset_world (lit "a") since_reset o s).
  - lia.
  - cbn. lia.
  - repeat constructor.
  - repeat constructor.
  - reflexivity.
  - exact witness_is_idle.
  - exact witness_resets.
  - by left.
  - exact witness_ephemeral.
  - left. apply not_elem_of_empty.
  - exact Hs.
Defined.

End ResetWitness.
