(* ===== verification/SessionDurable.v ===== *)
(** * What was saved survives a crash

    [Durable w]: the file of a channel that is not dirty holds its session, whatever
    saves are under way, and would be loaded.  Every step keeps it
    ([saved_sessions_survive_restarts]). *)

From S2P Require Import Prelude PyStr PyLib SessionText SessionCompact Sessions SessionTheory.
Open Scope string_scope.
Open Scope list_scope.
Open Scope Z_scope.

(** Sessions that differ in the time of their last use only. *)
Definition same_content (a b : Session) : Prop := set_last_active 0 a = set_last_active 0 b.

#[export] Instance same_content_equiv : Equivalence same_content.
Proof. split; [done|by intros a b|]. intros a b c. unfold same_content. congruence. Qed.

Lemma same_content_active now s : same_content (set_last_active now s) s.
Proof. done. Qed.

(** The file [d] holds the session [s]. *)
Definition holds (d : SessionData) (s : Session) : Prop := ∀ now, same_content (session_from_dict d now) s.

Lemma holds_same d s s' : same_content s s' → holds d s → holds d s'.
Proof. intros He Hd now. by transitivity s. Qed.

Lemma holds_asdict s e : schema_version s = SESSION_SCHEMA_VERSION → holds (asdict s e) s.
Proof. intros Hv now. unfold same_content, session_from_dict, set_last_active. cbn. by rewrite <- Hv. Qed.

(** Data a manager wrote. *)
Record complete (d : SessionData) : Prop := {
  complete_created : is_Some (d_created_at d);
  complete_epoch : ∃ e, d_reset_epoch d = Some e ∧ 0 <= e
}.

Lemma holds_loaded d now : complete d → holds d (session_from_dict d now).
Proof. intros [[x Hx] _] now'. unfold same_content, session_from_dict, set_last_active. cbn. by rewrite Hx. Qed.

Section durable.
Context `{ArchiveNames} (cfg : Settings).

(** The file would be loaded under the epochs of [w]. *)
Definition loadable (w : World) (c : pystr) (d : SessionData) : Prop :=
  pending w !! c = None → ∃ e, d_reset_epoch d = Some e ∧ epoch_of w c <= e.

Definition on_disk (w : World) (c : pystr) (s : Session) : Prop :=
  ∃ d, live w !! c = Some (Readable d) ∧ holds d s ∧ loadable w c d.

Record snapshot_of (w : World) (n : Snapshot) : Prop := {
  so_ephemeral : n_channel n ∉ ephemeral_channels w;
  so_revision : n_revision n <= mutation_revision w (n_channel n);
  so_loadable : loadable w (n_channel n) (n_data n);
  so_complete : complete (n_data n);
  so_session : ∃ s, dict_get (sessions w) (n_channel n) = Some (n_object n, s)
    ∧ (n_revision n = mutation_revision w (n_channel n) → holds (n_data n) s)
    ∧ (n_revision n < mutation_revision w (n_channel n) → n_channel n ∈ dirty w)
}.

Record Durable (w : World) : Prop := {
  d_clock : 0 <= clock w;
  d_version c o s : dict_get (sessions w) c = Some (o, s) → schema_version s = SESSION_SCHEMA_VERSION;
  d_clean c o s : dict_get (sessions w) c = Some (o, s) → c ∉ dirty w → c ∉ ephemeral_channels w → on_disk w c s;
  d_complete c d : live w !! c = Some (Readable d) → complete d;
  d_snapshot n : in_save (saving w) = Some n → snapshot_of w n;
  d_written n queue : saving w = Some {| v_queue := queue; v_phase := Acking n true |} → live w !! n_channel n = Some (Readable (n_data n));
  d_epochs c : 0 <= epoch_of w c <= clock w;
  d_ledger : epochs w = ledger w ∧ ∀ g c, ledger_before w = Some g → 0 <= default 0 (g !! c) <= epoch_of w c
}.

Lemma durable_pass d w : Durable w → Durable (pass d w).
Proof.
  intros [Hc Hv Hcl Hco Hs Hw He Hl]. split; try done; [cbn; lia| |].
  - intros n Hn. by destruct (Hs n Hn).
  - intros c. specialize (He c). unfold epoch_of in *. cbn. lia.
Qed.

(** A session is used: nothing changes but its time. *)
Lemma durable_touch w c o s0 s : Durable w → dict_get (sessions w) c = Some (o, s0) → same_content s s0 →
  schema_version s = schema_version s0 → Durable (put_session c o s w).
Proof.
  intros [Hc Hv Hcl Hco Hs Hw He Hl] Hin Hsame Hsv. split; try done.
  - intros c2 o2 s2 H2. cbn in H2. rewrite dict_get_set in H2. case_bool_decide; [|by eapply Hv]. simplify_eq. rewrite Hsv. by eapply Hv.
  - intros c2 o2 s2 H2 Hd Hep. cbn in H2. rewrite dict_get_set in H2. case_bool_decide; [|by eapply Hcl]. simplify_eq.
    destruct (Hcl _ _ _ Hin Hd Hep) as (d & Hf & Hh & Hload). exists d. split_and!; [done| |done]. by eapply holds_same; [symmetry|].
  - intros n Hn. destruct (Hs n Hn) as [Ho Hr Hld Hcm (s2 & H2 & Heq & Hlt)]. split; try done. cbn. rewrite dict_get_set.
    case_bool_decide as Hch; [|by exists s2]. rewrite Hch, Hin in H2. injection H2 as <- <-. exists s.
    split_and!; [done| |done]. intros Hrev. eapply holds_same; [symmetry; exact Hsame|]. by apply Heq.
Qed.

(** A session is changed, and its channel marked. *)
Lemma durable_change w c o s0 s : Durable w → dict_get (sessions w) c = Some (o, s0) → schema_version s = SESSION_SCHEMA_VERSION →
  Durable (mark c (put_session c o s w)).
Proof.
  intros [Hc Hv Hcl Hco Hs Hw He Hl] Hin Hsv. split; try done.
  - intros c2 o2 s2 H2. cbn in H2. rewrite dict_get_set in H2. case_bool_decide; [|by eapply Hv]. by simplify_eq.
  - intros c2 o2 s2 H2 Hd Hep. cbn in H2, Hd. rewrite dict_get_set in H2. case_bool_decide; [set_solver|]. eapply Hcl; [done|set_solver|done].
  - intros n Hn. destruct (Hs n Hn) as [Ho Hr Hld Hcm (s2 & H2 & Heq & Hlt)].
    assert (n_channel n = c → mutation_revision (mark c (put_session c o s w)) (n_channel n) = mutation_revision w (n_channel n) + 1) as Hsame.
    { intros ->. unfold mutation_revision at 1. cbn. by rewrite lookup_insert_eq. }
    assert (n_channel n ≠ c → mutation_revision (mark c (put_session c o s w)) (n_channel n) = mutation_revision w (n_channel n)) as Hother.
    { intros Hne. unfold mutation_revision. cbn. by rewrite lookup_insert_ne. }
    split; [done| |done|done|].
    + destruct (decide (n_channel n = c)) as [Hch|Hch]; [rewrite (Hsame Hch)|rewrite (Hother Hch)]; lia.
    + cbn [sessions mark set_marks put_session set_sessions]. rewrite dict_get_set. case_bool_decide as Hch.
      * rewrite Hch, Hin in H2. injection H2 as <- <-. exists s. split_and!; [done| |].
        -- intros Hrev. rewrite (Hsame Hch) in Hrev. rewrite Hch in *. lia.
        -- intros _. cbn. set_solver.
      * exists s2. rewrite (Hother Hch). split_and!; [done|done|]. intros Hlt'. cbn. set_solver.
Qed.

(** A session is made. *)
Lemma durable_new w c s : Durable w → dict_get (sessions w) c = None → schema_version s = SESSION_SCHEMA_VERSION →
  Durable (mark c (new_object c s w)).
Proof.
  intros [Hc Hv Hcl Hco Hs Hw He Hl] Hin Hsv. split; try done.
  - intros c2 o2 s2 H2. cbn in H2. rewrite dict_get_set in H2. case_bool_decide; [|by eapply Hv]. by simplify_eq.
  - intros c2 o2 s2 H2 Hd Hep. cbn in H2, Hd. rewrite dict_get_set in H2. case_bool_decide; [set_solver|]. eapply Hcl; [done|set_solver|done].
  - intros n Hn. destruct (Hs n Hn) as [Ho Hr Hld Hcm (s2 & H2 & Heq & Hlt)].
    assert (n_channel n ≠ c) as Hne by congruence.
    assert (mutation_revision (mark c (new_object c s w)) (n_channel n) = mutation_revision w (n_channel n)) as Hrev.
    { unfold mutation_revision. cbn. by rewrite lookup_insert_ne. }
    split; [done|by rewrite Hrev|done|done|]. exists s2. rewrite Hrev. cbn. rewrite dict_get_set, bool_decide_eq_false_2 by done.
    split_and!; [done|done|]. intros Hlt'. set_solver.
Qed.

Lemma restored_version w c s : restore_from_archive w c = Some s → schema_version s = SESSION_SCHEMA_VERSION.
Proof. by intros (_ & stem & a & d & _ & _ & _ & _ & ->)%restored_from. Qed.

Lemma durable_get w c w' o s : Durable w → get_or_create c w = Some (w', o, s) →
  Durable w' ∧ dict_get (sessions w') c = Some (o, s).
Proof.
  intros Hw Hg. unfold get_or_create in Hg. case_bool_decide; [done|].
  set (w1 := match dict_get _ _ with Some _ => _ | None => _ end) in Hg.
  assert (Durable w1) as Hw1.
  { unfold w1. destruct (dict_get (sessions w) c) as [p|] eqn:Hin; [done|]. apply durable_new; [done|done|].
    destruct (if bool_decide _ then _ else _) as [s1|] eqn:Hres; cbn [default]; [|done]. case_bool_decide; [done|].
    by apply restored_version in Hres. }
  destruct (dict_get (sessions w1) c) as [[o1 s1]|] eqn:Hin; cbn in Hg; [|done]. injection Hg as <- <- <-.
  split; [by apply (durable_touch _ _ _ s1)|]. cbn. by rewrite dict_get_set, bool_decide_refl.
Qed.

(** ** Mutations *)

Definition keeps_version (f : Session → option Session) : Prop :=
  ∀ s s', f s = Some s' → schema_version s' = schema_version s.

Lemma durable_mutate w c f : Durable w → keeps_version f → Durable (mutate c f w).
Proof.
  intros Hw Hf. unfold mutate. destruct (get_or_create c w) as [[[w1 o] s]|] eqn:Hg; [|done].
  destruct (durable_get _ _ _ _ _ Hw Hg) as [Hw1 Hin]. destruct (f s) as [s'|] eqn:Hfs; [|done].
  apply (durable_change _ _ _ s); [done|done|]. rewrite (Hf _ _ Hfs). by eapply d_version.
Qed.

Lemma durable_mutate_present w c f : Durable w → keeps_version f → Durable (mutate_present c f w).
Proof.
  intros Hw Hf. unfold mutate_present. destruct (dict_get (sessions w) c) as [[o s]|] eqn:Hin; [|done].
  destruct (f s) as [s'|] eqn:Hfs; [|done]. apply (durable_change _ _ _ s); [done|done|]. rewrite (Hf _ _ Hfs). by eapply d_version.
Qed.

Lemma fold_append_version s text gone fallback now :
  schema_version (append_segment (fold_legacy_summary s now) text gone fallback now) = schema_version s.
Proof. unfold append_segment, fold_legacy_summary. by destruct (nonempty (summary s)). Qed.

Lemma fallback_version lim s now s' : fallback_compact lim s now = Some s' → schema_version s' = schema_version s.
Proof. unfold fallback_compact. case_match; [done|]. intros [= <-]. exact (fold_append_version (set_messages _ s) _ _ true now). Qed.

Lemma durable_work w s k : Durable w → in_save s = None → Durable (set_work s k w).
Proof.
  intros [Hc Hv Hcl Hco Hs Hw He Hl] Hn. split; try done.
  - intros n Hin. cbn in Hin. congruence.
  - intros n queue Hin. cbn in Hin. subst s. done.
Qed.

Lemma durable_compactions w k : Durable w → Durable (set_work (saving w) k w).
Proof. intros [Hc Hv Hcl Hco Hs Hw He Hl]. split; try done. intros n Hin. by destruct (Hs n Hin). Qed.

Lemma durable_begin_compaction w c : Durable w → Durable (begin_compaction cfg c w).
Proof.
  intros Hw. unfold begin_compaction. destruct (get_or_create c w) as [[[w1 o] s]|] eqn:Hg; [|done].
  destruct (durable_get _ _ _ _ _ Hw Hg) as [Hw1 _]. destruct (needs_compaction _ _); [|done].
  destruct (split_for_compaction _ _). case_bool_decide; [done|]. by apply durable_compactions.
Qed.

Lemma durable_publish w k answer : Durable w → Durable (publish_compaction cfg k answer w).
Proof.
  intros Hw. unfold publish_compaction, still_there. destruct (dict_get (sessions w) (k_channel k)) as [[o s]|] eqn:Hin; [|done].
  destruct (bool_decide (o = k_object k) && _ && _) eqn:Hb; [|done]. bool_prop. subst o. pose proof (d_version _ Hw _ _ _ Hin) as Hv.
  assert (Durable (match fallback_compact (limits cfg) s (clock w) with
    Some s => mark (k_channel k) (put_session (k_channel k) (k_object k) s w) | None => w end)) as Hfb.
  { destruct (fallback_compact _ _ _) as [s'|] eqn:Hf; [|done]. apply (durable_change _ _ _ s); [done|done|].
    by rewrite (fallback_version _ _ _ _ Hf). }
  destruct answer as [text|]; [|done]. destruct (nonempty _); [|done]. apply (durable_change _ _ _ s); [done|done|].
  rewrite <- Hv. apply fold_append_version.
Qed.

Lemma durable_finish_compaction w i answer : Durable w → Durable (finish_compaction cfg i answer w).
Proof.
  intros Hw. unfold finish_compaction. destruct (compactions w !! i); [|done]. by apply durable_publish, durable_compactions.
Qed.

(** ** Saves *)

(** Marks that only leave out channels without a session, or ephemeral ones. *)
Lemma durable_undirty w c : Durable w →
  (∀ o s, dict_get (sessions w) c = Some (o, s) → c ∈ ephemeral_channels w ∨ on_disk w c s) →
  (∀ n, in_save (saving w) = Some n → n_channel n = c → n_revision n = mutation_revision w c) → Durable (undirty c w).
Proof.
  intros [Hc Hv Hcl Hco Hs Hw He Hl] Hdisk Hn. split; try done.
  - intros c2 o2 s2 H2 Hd Hep. cbn in *. destruct (decide (c2 = c)) as [->|]; [|eapply Hcl; [done|set_solver|done]].
    by destruct (Hdisk _ _ H2).
  - intros n Hin. destruct (Hs n Hin) as [Ho Hr Hld Hcm (s2 & H2 & Heq & Hlt)]. split; try done. exists s2. split_and!; [done|done|].
    intros Hlt'. cbn. destruct (decide (n_channel n = c)) as [Hch|].
    + specialize (Hn n Hin Hch). rewrite Hch in Hlt'. unfold mutation_revision in *. cbn in *. lia.
    + specialize (Hlt Hlt'). set_solver.
Qed.

Lemma durable_redirty w c : Durable w → Durable (redirty c w).
Proof.
  intros [Hc Hv Hcl Hco Hs Hw He Hl]. split; try done.
  - intros c2 o2 s2 H2 Hd Hep. eapply Hcl; [done|cbn in Hd; set_solver|done].
  - intros n Hin. destruct (Hs n Hin) as [Ho Hr Hld Hcm (s2 & H2 & Heq & Hlt)]. split; try done. exists s2. split_and!; [done|done|].
    intros Hlt'. specialize (Hlt Hlt'). cbn. set_solver.
Qed.

Lemma durable_begin_save w all order : Durable w → Durable (begin_save all order w).
Proof. intros Hw. unfold begin_save. destruct (saving w); [done|]. by apply durable_work. Qed.

Lemma durable_snapshot w c queue : Durable w → in_save (saving w) = None → Durable (snapshot c queue w).
Proof.
  intros Hw Hnone. unfold snapshot. case_bool_decide as Hep.
  { apply (durable_work (undirty c w)); [|done]. apply durable_undirty; [done|by left|]. intros n Hn. congruence. }
  case_bool_decide as Hpe; [by apply durable_work|]. destruct (dict_get (sessions w) c) as [[o s]|] eqn:Hin.
  - pose proof (d_version _ Hw _ _ _ Hin) as Hver. pose proof (d_epochs _ Hw c) as Hpos.
    destruct Hw as [Hc Hv Hcl Hco Hs Hw He Hl]. split; try done. intros n [= <-]. split; cbn.
    + done.
    + apply Z.le_refl.
    + intros _. by exists (epoch_of w c).
    + split; cbn; [done|]. exists (epoch_of w c). split; [done|apply Hpos].
    + exists s. split_and!; [done|intros _; by apply holds_asdict|]. unfold mutation_revision. cbn. lia.
  - apply (durable_work (undirty c w)); [|done]. apply durable_undirty; [done|congruence|]. intros n Hn. congruence.
Qed.

Lemma durable_continue w o : Durable w → Durable (continue_save o w).
Proof.
  intros Hw. unfold continue_save. destruct (saving w) as [[queue phase]|] eqn:Hsave; [|done]. cbn [v_phase v_queue].
  destruct phase as [|n|n ok].
  - destruct queue as [|c queue]; [by apply durable_work|]. apply durable_snapshot; [done|by rewrite Hsave].
  - destruct Hw as [Hc Hv Hcl Hco Hs Hw He Hl]. rewrite Hsave in Hs. destruct (Hs n eq_refl) as [Ho Hr Hld Hcm (s & Hin & Heq & Hlt)].
    destruct (visible o) eqn:Hvis; split; try done; cbn.
    + intros c2 o2 s2 H2 Hd Hep. destruct (decide (c2 = n_channel n)) as [->|Hne].
      * rewrite Hin in H2. injection H2 as <- <-. exists (n_data n). cbn. rewrite lookup_insert_eq. split_and!; [done| |done].
        apply Heq. destruct (Z.eq_dec (n_revision n) (mutation_revision w (n_channel n))) as [|Hne]; [done|].
        exfalso. apply Hd, Hlt. lia.
      * destruct (Hcl _ _ _ H2 Hd Hep) as (d & Hf & Hh & Hload). exists d. cbn. by rewrite lookup_insert_ne.
    + intros c2 d H2. apply lookup_insert_Some in H2 as [[<- [= <-]]|[_ H2]]; [done|by eapply Hco].
    + intros n' [= <-]. split; try done. by exists s.
    + intros n' queue' [= <- <- Hok]. apply lookup_insert_eq.
    + intros n' [= <-]. split; try done. by exists s.
    + intros n' queue' [= <- <- Hok]. bool_prop. by subst o.
  - assert (Durable (acknowledge n ok w) ∧ compactions (acknowledge n ok w) = compactions w) as [Hw' Hcomp].
    { unfold acknowledge. destruct ok; cbn [negb]; [|split; [by apply durable_redirty|done]].
      destruct (dict_get (sessions w) (n_channel n)) as [[o' s']|] eqn:Hin; [|done].
      destruct (bool_decide (o' = n_object n) && _) eqn:Hb; [|done]. bool_prop. split; [|done].
      pose proof (d_written _ Hw n queue) as Hfile. rewrite Hsave in Hfile. specialize (Hfile eq_refl).
      pose proof (d_snapshot _ Hw n) as Hsn. rewrite Hsave in Hsn. destruct (Hsn eq_refl) as [Ho Hr Hld Hcm (s & H2 & Heq & Hlt)].
      apply durable_undirty; [done| |].
      - intros o2 s2 H3. right. rewrite H2 in H3. injection H3 as <- <-. exists (n_data n). split_and!; [done|by apply Heq|done].
      - rewrite Hsave. by intros n' [= <-] _. }
    rewrite <- Hcomp. by apply durable_work.
Qed.

(** ** Removing sessions *)

(** What stays in memory is untouched, its file too. *)
Record drops (w w' : World) : Prop := {
  dr_clock : clock w' = clock w;
  dr_saving : saving w' = saving w;
  dr_live : live w' ⊆ live w;
  dr_session c o s : dict_get (sessions w') c = Some (o, s) → dict_get (sessions w) c = Some (o, s)
    ∧ (c ∈ dirty w → c ∈ dirty w') ∧ (c ∈ ephemeral_channels w → c ∈ ephemeral_channels w') ∧ live w' !! c = live w !! c
    ∧ (pending w' !! c = None → pending w !! c = None ∧ epoch_of w' c = epoch_of w c)
}.

#[export] Instance drops_refl : Reflexive drops.
Proof. by split. Qed.
#[export] Instance drops_trans : Transitive drops.
Proof.
  intros w1 w2 w3 [Hc1 Hs1 Hl1 Hd1] [Hc2 Hs2 Hl2 Hd2]. split; [congruence|congruence|by etrans|].
  intros c o s H3. destruct (Hd2 _ _ _ H3) as (H2 & Hdi2 & Hep2 & Hli2 & Hpe2). destruct (Hd1 _ _ _ H2) as (H1 & Hdi1 & Hep1 & Hli1 & Hpe1).
  split_and!; [done|auto|auto|congruence|]. intros Hp3. destruct (Hpe2 Hp3) as [Hp2 He2]. destruct (Hpe1 Hp2) as [Hp1 He1].
  split; [done|congruence].
Qed.

Lemma durable_drops w w' : Durable w → in_save (saving w) = None → drops w w' → (∀ c, 0 <= epoch_of w' c <= clock w') →
  epochs w' = ledger w' ∧ (∀ g c, ledger_before w' = Some g → 0 <= default 0 (g !! c) <= epoch_of w' c) → Durable w'.
Proof.
  intros [Hc Hv Hcl Hco Hs Hw He Hl] Hn [Hdc Hds Hdl Hd] He' Hl'. split; try done.
  - lia.
  - intros c o s (Hin & _)%Hd. by eapply Hv.
  - intros c o s Hin Hdi Hep. destruct (Hd _ _ _ Hin) as (H2 & Hdi2 & Hep2 & Hli2 & Hpe2).
    destruct (Hcl _ _ _ H2) as (d & Hf & Hh & Hload); [tauto|tauto|]. exists d. split_and!; [congruence|done|].
    intros Hp. destruct (Hpe2 Hp) as [Hp2 Heq]. rewrite Heq. by apply Hload.
  - intros c d Hf. eapply Hco, lookup_weaken; [exact Hf|done].
  - intros n Hin. congruence.
  - intros n queue Hin. rewrite Hds in Hin. rewrite Hin in Hn. done.
Qed.

Lemma drops_forget w c : drops w (bump c (forget c w)).
Proof.
  split; try done. intros c2 o s H2. change (dict_get (dict_del (sessions w) c) c2 = Some (o, s)) in H2.
  rewrite dict_get_del in H2. case_bool_decide; [done|]. split_and!; try done. cbn. set_solver.
Qed.

Lemma drops_fold (f : World → pystr → World) w cs : (∀ w c, drops w (f w c)) → drops w (foldl f w cs).
Proof. intros Hf. revert w. induction cs as [|c cs IH]; intros w; cbn; [done|]. etrans; [apply Hf|apply IH]. Qed.

(** Clearing a channel drops it, whatever its epoch was. *)
Lemma drops_clear retained w c : drops w (clear_channel retained c w) ∧ dict_get (sessions (clear_channel retained c w)) c = None
  ∧ epochs (clear_channel retained c w) = epochs w ∧ ledger (clear_channel retained c w) = ledger w
  ∧ ledger_before (clear_channel retained c w) = ledger_before w.
Proof.
  split; [|split; [apply cleared|by unfold clear_channel; case_bool_decide]].
  split; try (unfold clear_channel; case_bool_decide; done).
  - unfold clear_channel. case_bool_decide; [done|]. apply delete_subseteq.
  - intros c2 o s H2. assert (c2 ≠ c) as Hne by (intros ->; destruct (cleared retained c w) as [Hcl _]; congruence).
    assert (dict_get (dict_del (sessions w) c) c2 = Some (o, s)) as H3 by (revert H2; unfold clear_channel; by case_bool_decide).
    rewrite dict_get_del, bool_decide_eq_false_2 in H3 by done.
    assert (pending (clear_channel retained c w) = delete c (pending w)) as Hp by (unfold clear_channel; by case_bool_decide).
    assert (dirty (clear_channel retained c w) = dirty w ∖ {[c]}) as Hd by (unfold clear_channel; by case_bool_decide).
    assert (epochs (clear_channel retained c w) = epochs w) as He by (unfold clear_channel; by case_bool_decide).
    split_and!; [done|rewrite Hd; set_solver|unfold clear_channel; by case_bool_decide| |].
    + unfold clear_channel. case_bool_decide; [done|]. cbn. by rewrite lookup_delete_ne.
    + rewrite Hp, lookup_delete_ne by done. unfold epoch_of. by rewrite He.
Qed.

Lemma drops_clear_fold retained w cs : drops w (foldl (λ w c, clear_channel retained c w) w cs)
  ∧ (∀ c, c ∈ cs → dict_get (sessions (foldl (λ w c, clear_channel retained c w) w cs)) c = None)
  ∧ epochs (foldl (λ w c, clear_channel retained c w) w cs) = epochs w ∧ ledger (foldl (λ w c, clear_channel retained c w) w cs) = ledger w
  ∧ ledger_before (foldl (λ w c, clear_channel retained c w) w cs) = ledger_before w.
Proof.
  split; [apply drops_fold; intros; apply drops_clear|]. split; [intros c Hc; by apply cleared_fold|].
  revert w. induction cs as [|c cs IH]; intros w; cbn; [done|]. destruct (IH (clear_channel retained c w)) as (-> & -> & ->).
  apply drops_clear.
Qed.

Lemma durable_reset w cids o retained : Durable w → in_save (saving w) = None → Durable (reset_many cids o retained w).1.
Proof.
  intros Hw Hn. unfold reset_many. case_bool_decide; [done|]. set (w1 := foldl _ w _).
  assert (drops w w1) as Hd1 by (apply drops_fold; intros; apply drops_forget).
  assert (epochs w1 = epochs w ∧ ledger w1 = ledger w ∧ ledger_before w1 = ledger_before w) as (He1 & Hg1 & Hb1).
  { unfold w1. clear. generalize (elements (list_to_set (C := gset pystr) cids ∩ ephemeral_channels w)). intros cs. revert w.
    induction cs as [|c cs IH]; intros w; cbn; [done|]. by destruct (IH (bump c (forget c w))) as (-> & -> & ->). }
  assert (Durable w1) as Hw1.
  { apply (durable_drops w); [done|done|done|intros c; unfold epoch_of; rewrite He1, (dr_clock _ _ Hd1); apply Hw|].
    unfold epoch_of. rewrite He1, Hg1, Hb1. apply Hw. }
  assert (in_save (saving w1) = None) as Hn1 by (by rewrite (dr_saving _ _ Hd1)). clearbody w1.
  case_bool_decide; [done|]. destruct (degraded w1); [done|].
  change (gset_to_gmap (clock w1) ?r ∪ epochs w1) with (fences_of w1 r). set (req := list_to_set cids ∖ ephemeral_channels w1).
  assert (∀ c, 0 <= default 0 (fences_of w1 req !! c) <= clock w1) as Hpos.
  { intros c. rewrite fences_lookup. pose proof (d_clock _ Hw1). case_bool_decide; [lia|apply Hw1]. }
  assert (∀ c, c ∉ req → default 0 (fences_of w1 req !! c) = epoch_of w1 c) as Hkeep.
  { intros c Hc. rewrite fences_lookup. by case_bool_decide. }
  assert (∀ c, (gset_to_gmap (clock w1) req ∪ pending w1) !! c = None → c ∉ req ∧ pending w1 !! c = None) as Hpend.
  { intros c Hc. apply lookup_union_None in Hc as [Hc Hp]. split; [|done]. intros Hr.
    rewrite lookup_gset_to_gmap, option_guard_True in Hc by done. done. }
  destruct (d_ledger _ Hw1) as [Hgl Hbef]. destruct o; cbn [fst].
  - set (w2 := set_epochs _ _ _). destruct (drops_clear_fold retained w2 (elements req)) as (Hd & Hgone & Hef & Hlf & Hbf).
    apply (durable_drops w1); [done|done| | |].
    + destruct Hd as [Hdc Hds Hdl Hds']. split; [exact Hdc|exact Hds|exact Hdl|]. intros c o s Hin.
      assert (c ∉ req) as Hr. { intros Hr. rewrite Hgone in Hin; [done|]. by apply elem_of_elements. }
      destruct (Hds' _ _ _ Hin) as (H2 & Hdi & Hep & Hli & Hpe). split_and!; [exact H2|exact Hdi|exact Hep|exact Hli|].
      intros Hp. destruct (Hpe Hp) as [Hp2 He2]. split; [exact Hp2|]. rewrite He2. exact (Hkeep c Hr).
    + intros c. unfold epoch_of. rewrite Hef, (dr_clock _ _ Hd). apply Hpos.
    + rewrite Hef, Hlf. split; [done|]. intros g c Hg. by rewrite Hbf in Hg.
  - apply (durable_drops w1); [done|done| |exact Hpos|].
    + split; try done. intros c o s Hin. split_and!; try done. intros Hp. destruct (Hpend c Hp) as [Hr Hp2]. split; [exact Hp2|].
      exact (Hkeep c Hr).
    + split; [done|]. intros g c [= <-]. change (epoch_of _ c) with (default 0 (fences_of w1 req !! c)).
      assert (0 <= default 0 (default (ledger w1) (ledger_before w1) !! c) <= epoch_of w1 c) as Hle.
      { destruct (ledger_before w1) as [b|]; [by apply Hbef|]. cbn. rewrite <- Hgl. unfold epoch_of. split; [apply Hw1|lia]. }
      split; [apply Hle|]. etrans; [apply Hle|]. rewrite fences_lookup. case_bool_decide; [apply Hw1|lia].
  - apply (durable_drops w1); [done|done| |apply Hw1|apply Hw1]. split; try done. intros c o s Hin. split_and!; try done.
    intros Hp. by destruct (Hpend c Hp) as [_ Hp2].
Qed.

(** *** Pruning and ephemeral channels *)

Lemma durable_del w c : Durable w → in_save (saving w) = None → Durable (set_sessions (dict_del (sessions w) c) (set_files (delete c (live w)) (archives w) w)).
Proof.
  intros Hw Hn. apply (durable_drops w); [done|done| |apply Hw|apply Hw]. split; try done; [apply delete_subseteq|].
  intros c2 o s H2. cbn in H2. rewrite dict_get_del in H2. case_bool_decide; [done|]. split_and!; try done. cbn. by rewrite lookup_delete_ne.
Qed.

Lemma durable_archives w a : Durable w → in_save (saving w) = None → Durable (set_files (live w) a w).
Proof. intros Hw Hn. apply (durable_drops w); [done|done| |apply Hw|apply Hw]. by split. Qed.

Lemma durable_archive w c p : Durable w → in_save (saving w) = None → Durable (archive_session cfg c p w).1
  ∧ in_save (saving (archive_session cfg c p w).1) = None.
Proof.
  intros Hw Hn. unfold archive_session. destruct (dict_get (sessions w) c) as [[o s]|]; [|done]. case_match; [done|].
  set (w1 := if visible _ then _ else _). assert (Durable w1 ∧ in_save (saving w1) = None) as [Hw1 Hn1].
  { unfold w1. destruct (visible _); [|done]. split; [by apply durable_archives|done]. }
  destruct (bool_decide (p_written p = Synced)); [|done]. split; [by apply (durable_archives w1)|done].
Qed.

Lemma durable_prune w answers : Durable w → in_save (saving w) = None → Durable (prune cfg answers w).
Proof.
  intros Hw Hn. unfold prune. destruct (degraded w); [done|]. generalize (expired cfg w). intros cids.
  revert answers w Hw Hn. induction cids as [|c cids IH]; intros answers w Hw Hn; cbn [prune_all]; [done|].
  destruct answers as [|p answers]; [done|]. destruct (durable_archive w c p Hw Hn) as [Hw1 Hn1].
  destruct (archive_session cfg c p w) as [w1 [|]]; cbn [fst] in *; [|done]. case_match; [done|].
  apply IH; [by apply durable_del|done].
Qed.

Lemma durable_enter w c : Durable w → in_save (saving w) = None → Durable (enter_ephemeral c w).
Proof.
  intros Hw Hn. unfold enter_ephemeral. case_match; [done|]. apply (durable_drops w); [done|done| |apply Hw|apply Hw].
  split; try done. intros c2 o s H2. split_and!; try done. cbn. set_solver.
Qed.

Lemma durable_leave w c : Durable w → in_save (saving w) = None → Durable (leave_ephemeral c w).
Proof.
  intros Hw Hn. unfold leave_ephemeral. case_match; [|done]. apply (durable_drops w); [done|done| |apply Hw|apply Hw].
  split; try done. intros c2 o s H2. cbn in H2. rewrite dict_get_del in H2. case_bool_decide; [done|]. split_and!; try done; cbn; set_solver.
Qed.

(** ** Starting *)

Lemma load_file_frame w f : clock (load_file w f) = clock w ∧ live (load_file w f) = live w ∧ epochs (load_file w f) = epochs w
  ∧ saving (load_file w f) = saving w.
Proof. destruct f; cbn; [done|by case_match]. Qed.

Lemma durable_load_file w f : Durable w → in_save (saving w) = None →
  (∀ d, f = Readable d → live w !! d_channel_id d = Some (Readable d)) → Durable (load_file w f).
Proof.
  intros Hw Hn Hf. destruct f as [|d]; [done|]. cbn [load_file]. destruct (suppressed w d) eqn:Hsup; [done|]. specialize (Hf d eq_refl).
  pose proof (d_complete _ Hw _ _ Hf) as Hcm. destruct Hw as [Hc Hv Hcl Hco Hs Hw He Hl]. split; try done.
  - intros c2 o2 s2 H2. cbn in H2. rewrite dict_get_set in H2. case_bool_decide; [|by eapply Hv]. by simplify_eq.
  - intros c2 o2 s2 H2 Hd Hep. cbn in H2. rewrite dict_get_set in H2. case_bool_decide as Hch; [|by eapply Hcl].
    injection H2 as <- <-. subst c2. exists d. split_and!; [done|by apply holds_loaded|]. intros _.
    destruct Hcm as [_ (e & Hde & Hpos)]. exists e. split; [done|].
    destruct (suppressed_false _ _ _ Hde Hsup) as [Hz|Hle]; unfold epoch_of in *; cbn in *; lia.
  - intros n Hin. cbn in Hin. congruence.
Qed.

Lemma durable_load_fold fs w : Durable w → in_save (saving w) = None →
  (∀ d, Readable d ∈ fs → live w !! d_channel_id d = Some (Readable d)) → Durable (foldl load_file w fs).
Proof.
  revert w. induction fs as [|f fs IH]; intros w Hw Hn Hf; cbn; [done|]. destruct (load_file_frame w f) as (_ & Hl & _ & Hs). apply IH.
  - apply durable_load_file; [done|done|]. intros d ->. apply Hf. by left.
  - by rewrite Hs.
  - rewrite Hl. intros d Hin. apply Hf. by right.
Qed.

(** A file that is not suppressed is in memory after loading. *)
Lemma loaded_fold fs w d : (∀ d', Readable d' ∈ fs → d_channel_id d' = d_channel_id d → d' = d) → suppressed w d = false →
  Readable d ∈ fs ∨ (∃ o, dict_get (sessions w) (d_channel_id d) = Some (o, session_from_dict d (clock w))) →
  ∃ o, dict_get (sessions (foldl load_file w fs)) (d_channel_id d) = Some (o, session_from_dict d (clock w)).
Proof.
  revert w. induction fs as [|f fs IH]; intros w Huniq Hsup Hor; cbn [foldl].
  { destruct Hor as [?%not_elem_of_nil|]; done. }
  destruct (load_file_frame w f) as (Hc & _ & He & _). rewrite <- Hc. apply IH.
  - intros d' Hin. apply Huniq. by right.
  - unfold suppressed, epoch_of. rewrite He. exact Hsup.
  - rewrite Hc. destruct f as [|d'].
    { destruct Hor as [[|]%elem_of_cons|]; [done|by left|by right]. }
    destruct (decide (d_channel_id d' = d_channel_id d)) as [Hch|Hch].
    + right. assert (d' = d) as -> by (apply Huniq; [by left|done]). cbn [load_file]. rewrite Hsup.
      exists (next_object w). cbn. by rewrite dict_get_set, bool_decide_refl.
    + destruct Hor as [[Heq|]%elem_of_cons|(o & Ho)]; [by injection Heq as ->|by left|right]. exists o. cbn [load_file].
      destruct (suppressed w d'); [done|]. cbn. rewrite dict_get_set. by rewrite bool_decide_eq_false_2.
Qed.

(** The files are named after their channels. *)
Definition named_files (w : World) : Prop := ∀ c d, live w !! c = Some (Readable d) → d_channel_id d = c.

(** The memory of a new process before it loads the files. *)
Definition started (lost : bool) (w : World) : World :=
  let g := match ledger_before w with Some g => if lost then g else ledger w | None => ledger w end in
  {| clock := clock w; sessions := []; dirty := ∅; ephemeral_channels := ∅; revisions := ∅; pending := ∅;
     degraded := negb (ledger_readable w); epochs := if ledger_readable w then g else ∅;
     next_object := next_object w; saving := None; compactions := []; live := live w; archives := archives w;
     ledger := g; ledger_readable := ledger_readable w; ledger_before := None |}.

Lemma restart_started lost w : restart lost w = load (started lost w).
Proof. done. Qed.

Lemma started_epochs lost w c : Durable w → ledger_readable w = true → 0 <= epoch_of (started lost w) c <= epoch_of w c.
Proof.
  intros Hw Hr. unfold epoch_of, started. cbn. rewrite Hr. destruct (d_ledger _ Hw) as [Hg Hb]. pose proof (d_epochs _ Hw c) as He.
  unfold epoch_of in *. destruct (ledger_before w) as [b|]; [|rewrite <- Hg; lia]. specialize (Hb b c eq_refl).
  destruct lost; [exact Hb|rewrite <- Hg; lia].
Qed.

Lemma durable_started lost w : Durable w → ledger_readable w = true → Durable (started lost w).
Proof.
  intros Hw Hr. pose proof (λ c, started_epochs lost w c Hw Hr) as He. split; try done; [apply Hw|apply Hw| |].
  - intros c. pose proof (d_epochs _ Hw c). specialize (He c). cbn. lia.
  - split; [|by intros g c]. unfold started. cbn. by rewrite Hr.
Qed.

Lemma loaded_files w : named_files w → ∀ d, Readable d ∈ (map_to_list (live w)).*2 → live w !! d_channel_id d = Some (Readable d).
Proof.
  intros Hn d ([c f] & Heq & Hin)%list_elem_of_fmap. cbn in Heq. subst f. apply elem_of_map_to_list in Hin. by rewrite (Hn _ _ Hin).
Qed.

Lemma durable_restart lost w : Durable w → named_files w → ledger_readable w = true → Durable (restart lost w).
Proof.
  intros Hw Hn Hr. rewrite restart_started. apply durable_load_fold; [by apply durable_started|done|]. by apply (loaded_files w).
Qed.

Lemma restart_keeps lost w c o s : Durable w → named_files w → ledger_readable w = true →
  dict_get (sessions w) c = Some (o, s) → c ∉ dirty w → c ∉ ephemeral_channels w → pending w !! c = None →
  ∃ o' s', dict_get (sessions (restart lost w)) c = Some (o', s') ∧ same_content s' s.
Proof.
  intros Hw Hn Hr Hin Hd Hep Hp. destruct (d_clean _ Hw _ _ _ Hin Hd Hep) as (d & Hf & Hh & Hload).
  destruct (Hload Hp) as (e & He & Hle). rewrite restart_started.
  assert (suppressed (started lost w) d = false) as Hsup.
  { unfold suppressed. rewrite He, (Hn _ _ Hf). pose proof (started_epochs lost w c Hw Hr). apply andb_false_iff. right. apply Z.ltb_ge. lia. }
  destruct (loaded_fold (map_to_list (live w)).*2 (started lost w) d) as [o' Ho].
  - intros d' Hin' Hch. apply (loaded_files w Hn) in Hin'. rewrite Hch, (Hn _ _ Hf), Hf in Hin'. congruence.
  - done.
  - left. apply list_elem_of_fmap. exists (c, Readable d). split; [done|]. by apply elem_of_map_to_list.
  - rewrite (Hn _ _ Hf) in Ho. exists o', (session_from_dict d (clock w)). split; [exact Ho|apply Hh].
Qed.

(** ** Every step *)

Lemma durable_apply w op : Durable w → named_files w → ledger_readable w = true → op ≠ OpDamageLedger → Durable (apply cfg op w).
Proof.
  intros Hw Hn Hr Hop.
  assert (∀ w', (in_save (saving w) = None → Durable w') → Durable (locked w w')) as Hlock.
  { intros w' Hw'. unfold locked. destruct (saving w) eqn:Hs; [done|]. by apply Hw'. }
  destruct op; cbn [apply]; try done.
  - destruct (get_or_create c w) as [[[w1 o] s]|] eqn:Hg; [|done]. by eapply durable_get.
  - apply durable_mutate; [done|]. by intros s s' [= <-].
  - apply durable_mutate; [done|]. intros s s'. case_match; [done|]. by intros [= <-].
  - apply durable_mutate; [done|]. by intros s s' [= <-].
  - apply durable_mutate_present; [done|]. intros s s'. unfold without_last. repeat case_match; try done. by intros [= <-].
  - apply durable_mutate_present; [done|]. intros s s'. unfold scrubbed. case_match; [done|]. by intros [= <-].
  - by apply durable_begin_compaction.
  - by apply durable_finish_compaction.
  - by apply durable_begin_save.
  - by apply durable_continue.
  - apply Hlock. intros Hs. by apply durable_reset.
  - apply Hlock. intros Hs. by apply durable_reset.
  - apply Hlock. intros Hs. by apply durable_prune.
  - apply Hlock. intros Hs. by apply durable_enter.
  - apply Hlock. intros Hs. by apply durable_leave.
  - by apply durable_restart.
  - destruct Hw as [Hc Hv Hcl Hco Hs Hwr He Hl]. split; try done. intros n Hin. by destruct (Hs n Hin).
  - destruct Hw as [Hc Hv Hcl Hco Hs Hwr He Hl]. split; try done. intros n Hin. by destruct (Hs n Hin).
Qed.

Lemma durable_empty now : 0 <= now → Durable (empty_world now).
Proof. intros H0. by split. Qed.

Context (ID : pystr → Prop) (ids_separate : ∀ c c', ID c → ID c' → separate c c').

(** A run from an empty directory whose ledger stays readable. *)
Lemma durable_run now ls : 0 <= now → (0 < max_history (limits cfg))%nat → Forall (λ l, op_ids ID l.2 ∧ l.2 ≠ OpDamageLedger) ls →
  Durable (run (step cfg) (empty_world now) ls) ∧ named_files (run (step cfg) (empty_world now) ls)
  ∧ ledger_readable (run (step cfg) (empty_world now) ls) = true.
Proof.
  intros H0 Hmax Hls. assert (Fenced ID true [] (-1) (empty_world now)) as H1'.
  { destruct (fenced_empty ID [] now H0) as [Hc Ha Hl Hs He Hg Hv Hk _]. split; try done. }
  assert (∀ w, Fenced ID true [] (-1) w → named_files w ∧ ledger_readable w = true) as Hfacts.
  { intros w Hw. split; [|by apply (f_quiet _ _ _ _ _ Hw)]. intros c d Hf. destruct (f_live _ _ _ _ _ Hw _ _ Hf) as [_ Hd].
    by destruct (Hd d eq_refl) as [[Hc _] _]. }
  assert (Durable (run (step cfg) (empty_world now) ls) ∧ Fenced ID true [] (-1) (run (step cfg) (empty_world now) ls)) as [Hd Hf].
  { apply (run_invariant_on (step cfg) (λ l, op_ids ID l.2 ∧ l.2 ≠ OpDamageLedger) (λ w, Durable w ∧ Fenced ID true [] (-1) w));
      [by split; [apply durable_empty|]|done|]. intros w l [Hid Hop] [Hd Hf]. split; [|by apply fenced_step].
    destruct (fenced_pass ID true [] (-1) l.1 w Hf) as (Hp & _). destruct (Hfacts _ Hp) as [Hn Hr].
    apply durable_apply; [by apply durable_pass|done|done|done]. }
  split; [done|]. by apply Hfacts.
Qed.

(** C18: Whatever saves, compactions, resets and evictions are under way, a session
    whose channel is not marked dirty is in its file, as it is in memory but for the
    time of its last use: a process that dies and starts again has it back, even when
    a rename that was not synced is undone.  The session of a channel whose reset
    failed half way is excluded, and so is a ledger that cannot be read. *)
Theorem saved_sessions_survive_restarts now ls lost c o s w :
  0 <= now → (0 < max_history (limits cfg))%nat → Forall (λ l, op_ids ID l.2 ∧ l.2 ≠ OpDamageLedger) ls →
  w = run (step cfg) (empty_world now) ls →
  dict_get (sessions w) c = Some (o, s) → c ∉ dirty w → c ∉ ephemeral_channels w → pending w !! c = None →
  ∃ o' s', dict_get (sessions (step cfg w (1, OpRestart lost))) c = Some (o', s') ∧ same_content s' s.
Proof.
  intros H0 Hmax Hls -> Hin Hd Hep Hp. destruct (durable_run now ls H0 Hmax Hls) as (Hw & Hn & Hr).
  by apply (restart_keeps lost (pass 1 _) c o s (durable_pass 1 _ Hw)).
Qed.

End durable.

Module DurableWitness.
Import SessionExample ResetWitness.

Definition two_saves : list (Z * Op) := before_reset ++ [(1, OpAdd (lit "a") (says "more"))] ++ saved.
Definition saved_world : World := run (step defaults) (empty_world 0) two_saves.

Lemma witness_saved : is_Some (dict_get (sessions saved_world) (lit "a")) ∧ lit "a" ∉ dirty saved_world
  ∧ lit "a" ∉ ephemeral_channels saved_world ∧ pending saved_world !! lit "a" = None.
Proof. apply (bool_decide_unpack _). vm_compute. exact I. Qed.

Lemma saved_sessions_survive_restarts_witness : ∃ o s o' s', dict_get (sessions saved_world) (lit "a") = Some (o, s)
  ∧ dict_get (sessions (step defaults saved_world (1, OpRestart true))) (lit "a") = Some (o', s') ∧ same_content s' s.
Proof.
  destruct witness_saved as ([[o s] Hs] & Hd & He & Hp).
  destruct (saved_sessions_survive_restarts defaults only_a a_separate 0 two_saves true (lit "a") o s saved_world) as (o' & s' & Hs' & Hsame).
  - lia.
  - cbn. lia.
  - repeat constructor; done.
  - reflexivity.
  - exact Hs.
  - exact Hd.
  - exact He.
  - exact Hp.
  - exists o, s, o', s'. split; [exact Hs|]. split; [exact Hs'|exact Hsame].
Defined.

End DurableWitness.
