(* ===== verification/SessionArchive.v ===== *)
(** * The archive of the sessions

    A session that is pruned comes back as it was ([pruned_sessions_come_back]), and
    the caps of the archive are met by removing the archives no restore needs first
    ([eviction_spares_restore_points]). *)

From S2P Require Import Prelude PyStr PyLib SessionText SessionCompact Sessions SessionTheory SessionDurable.
Open Scope string_scope.
Open Scope list_scope.
Open Scope Z_scope.

(** ** The order of restoring *)

Lemma newest_first_head l x : x ∈ l → (∀ y, y ∈ l → y = x ∨ y.1 < x.1) → ∃ rest, newest_first l = x :: rest.
Proof.
  assert (∀ l, (∀ y, y ∈ l → y = x ∨ y.1 < x.1) → x ∈ l → ∃ rest, newest_first l = x :: rest) as Hall; [|eauto].
  assert (∀ y, newer x y = true ∨ x.1 <= y.1) as Hnewer.
  { intros y. unfold newer. destruct (Z.ltb_spec y.1 x.1); [by left|right; lia]. }
  clear l. intros l. induction l as [|y l IH]; intros Hmax Hin; [by apply not_elem_of_nil in Hin|].
  cbn [newest_first foldr]. fold (newest_first l).
  assert (∀ z, z ∈ l → z = x ∨ z.1 < x.1) as Hmax' by (intros z Hz; apply Hmax; by right).
  destruct (decide (x ∈ l)) as [Hl|Hl].
  - destruct (IH Hmax' Hl) as [rest ->]. cbn [insert_newest]. destruct (Hmax y) as [->|Hlt]; [by left| |].
    + case_match; eauto.
    + unfold newer at 1. destruct (Z.ltb_spec x.1 y.1); [lia|]. destruct (Z.eqb_spec x.1 y.1); [lia|]. cbn. eauto.
  - apply elem_of_cons in Hin as [<-|]; [|done]. destruct (newest_first l) as [|z rest] eqn:Hz; [by exists []|].
    cbn [insert_newest]. assert (z ∈ l) as Hzl by (apply newest_first_elem; rewrite Hz; by left).
    destruct (Hnewer z) as [->|Hle]; [eauto|]. destruct (Hmax' z Hzl) as [->|]; [done|lia].
Qed.

Section archive.
Context `{ArchiveNames} (cfg : Settings).

(** The whole second in the name of the archive of [s]. *)
Definition second_of (s : Session) : Z := last_active s / SECOND * SECOND.

Lemma free_time_free taken c fuel u : taken !! archive_stem c u = None → free_time taken c (S fuel) u = u.
Proof. intros Hn. cbn. rewrite Hn. by rewrite bool_decide_eq_false_2 by (by intros []). Qed.

Lemma stem_prefix c u : startswith (c ++ [95]) (archive_stem c u) = true.
Proof. unfold archive_stem. replace (c ++ 95 :: float_text u) with ((c ++ [95]) ++ float_text u) by by rewrite <- app_assoc. apply startswith_app. Qed.

(** Restoring picks the archive of the latest time. *)
Lemma restore_latest w c u a d : degraded w = false → archives w !! archive_stem c u = Some a → a_file a = Readable d →
  epoch_of w c < u →
  (∀ stem b, archives w !! stem = Some b → startswith (c ++ [95]) stem = true → stem = archive_stem c u ∨ archived_at stem b < u) →
  restore_from_archive w c = Some (session_from_dict d (clock w)).
Proof.
  intros Hdeg Hin Hfile Hep Hmax. unfold restore_from_archive. rewrite Hdeg.
  destruct (newest_first_head (candidates w c) (u, (archive_stem c u, a))) as [rest Hrest].
  - unfold candidates. apply elem_of_filter_list. split; [|by apply Z.ltb_lt]. apply list_elem_of_fmap.
    exists (archive_stem c u, a). cbn [fst snd]. rewrite archived_at_stem. split; [done|]. apply elem_of_filter_list.
    split; [by apply elem_of_map_to_list|apply stem_prefix].
  - intros y Hy. unfold candidates in Hy. apply elem_of_filter_list in Hy as [Hy _].
    apply list_elem_of_fmap in Hy as ([stem b] & -> & Hy). apply elem_of_filter_list in Hy as [Hy Hpre].
    apply elem_of_map_to_list in Hy. destruct (Hmax _ _ Hy Hpre) as [->|Hlt]; [left|by right].
    rewrite Hin in Hy. injection Hy as <-. cbn [fst snd]. by rewrite archived_at_stem.
  - rewrite Hrest. cbn. by rewrite Hfile.
Qed.

(** *** A sweep over idle sessions *)

(** The archives the sweep may have left since [w0]: older ones, those of other channels,
    and the one of [c]. *)
Definition swept (w0 : World) (c : pystr) (s : Session) (gone : bool) (w : World) : Prop :=
  ∀ stem a, archives w !! stem = Some a →
    archives w0 !! stem = Some a ∨ (∃ c' u, c' ∈ (sessions w0).*1 ∧ c' ≠ c ∧ stem = archive_stem c' u)
    ∨ (gone = true ∧ stem = archive_stem c (second_of s) ∧ a_file a = Readable (asdict s None)).

(** What the sweep leaves alone, and where it has come with [c]. *)
Record sweeping (w0 : World) (c : pystr) (o : nat) (s : Session) (gone : bool) (w : World) : Prop := {
  sw_clock : clock w = clock w0;
  sw_ephemeral : ephemeral_channels w = ephemeral_channels w0;
  sw_pending : pending w = pending w0;
  sw_degraded : degraded w = degraded w0;
  sw_epochs : epochs w = epochs w0;
  sw_session : dict_get (sessions w) c = if gone then None else Some (o, s);
  sw_sessions : (sessions w).*1 ⊆ (sessions w0).*1;
  sw_archives : swept w0 c s gone w
}.

Definition good (p : Disposal) : Prop := p_written p = Synced ∧ p_removed p = true.

Lemma archive_frame c' p w : good p → ∃ ts, archive_session cfg c' p w = (set_files (live w) ts w, true)
  ∧ ∀ stem a, ts !! stem = Some a →
      archives w !! stem = Some a
      ∨ ∃ o' s', dict_get (sessions w) c' = Some (o', s') ∧ stem = archive_stem c' (archive_time c' s' w) ∧ a_file a = Readable (asdict s' None).
Proof.
  intros [Hwr _]. unfold archive_session.
  assert (∀ v, v = set_files (live v) (archives v) v) as Heta by by intros [].
  destruct (dict_get (sessions w) c') as [[o' s']|] eqn:Hin; [|exists (archives w); split; [by rewrite <- Heta|by auto]].
  destruct (_ || _); [exists (archives w); split; [by rewrite <- Heta|by auto]|].
  rewrite Hwr. cbn [visible]. rewrite (bool_decide_refl Synced). eexists. split; [reflexivity|].
  intros stem a Ha. eapply lookup_weaken in Ha; [|apply evict_subseteq]. cbn in Ha.
  apply lookup_insert_Some in Ha as [[<- <-]|[_ Ha]]; [right; by exists o', s'|by left].
Qed.

Lemma dict_del_keys {V} (d : list (pystr * V)) k : (dict_del d k).*1 ⊆ d.*1.
Proof. intros x Hx. unfold dict_del in Hx. apply list_elem_of_fmap in Hx as (kv & -> & Hx). apply elem_of_filter_list in Hx as [Hx _]. by apply list_elem_of_fmap_2. Qed.

Lemma dict_get_key {V} (d : list (pystr * V)) k v : dict_get d k = Some v → k ∈ d.*1.
Proof. intros Hk. apply dict_get_Some_elem in Hk. by apply (list_elem_of_fmap_2 fst) in Hk. Qed.

Section sweep.
Context (w0 : World) (c : pystr) (o : nat) (s : Session).
Context (Hold : ∀ stem a, archives w0 !! stem = Some a → startswith (c ++ [95]) stem = true → ∃ u, stem = archive_stem c u ∧ u < second_of s).

Lemma sweep_one c' p gone w : good p → sweeping w0 c o s gone w →
  archive_session cfg c' p w = ((archive_session cfg c' p w).1, true)
  ∧ ∀ l, sweeping w0 c o s (gone || bool_decide (c' = c))
      (let v := (archive_session cfg c' p w).1 in set_sessions (dict_del (sessions v) c') (set_files l (archives v) v)).
Proof.
  intros Hp [H1' H2' H3' H4' H5' Hs Hss Ha]. destruct (archive_frame c' p w Hp) as (ts & He & Hts). rewrite He. split; [done|]. intros l.
  split; [done..| | |].
  - change (dict_get (dict_del (sessions w) c') c = if gone || bool_decide (c' = c) then None else Some (o, s)). rewrite dict_get_del, Hs. destruct (decide (c' = c)) as [->|Hn].
    + by rewrite !bool_decide_refl, orb_true_r.
    + rewrite !bool_decide_false, orb_false_r by congruence. done.
  - intros x Hx. apply Hss. by eapply (dict_del_keys (sessions w) c').
  - intros stem a Hin. destruct (Hts stem a Hin) as [Hin'|(o' & s' & Hc' & -> & Hf)].
    + destruct (Ha stem a Hin') as [?|[?|(-> & ? & ?)]]; [by left|by right; left|right; right]. by rewrite orb_true_l.
    + destruct (decide (c' = c)) as [->|Hn]; [|right; left; exists c', (archive_time c' s' w); split; [by apply Hss; eapply dict_get_key|done]].
      rewrite Hs in Hc'. destruct gone; [done|]. injection Hc' as <- <-. right. right. rewrite bool_decide_refl, orb_true_r.
      split_and!; [done| |done]. f_equal. unfold archive_time. apply free_time_free.
      destruct (archives w !! _) as [b|] eqn:Hb; [|done].
      destruct (Ha _ _ Hb) as [Hb'|[(c2 & u & _ & Hne & Heq)|(? & _)]]; [| |done].
      * destruct (Hold _ _ Hb' (stem_prefix _ _)) as (u & Heq & Hlt). apply archive_stem_inj in Heq as [_ <-]. lia.
      * by apply archive_stem_inj in Heq as [<- _].
Qed.

Lemma sweep_all cids answers gone w : Forall good answers → (length cids <= length answers)%nat → sweeping w0 c o s gone w →
  sweeping w0 c o s (gone || bool_decide (c ∈ cids)) (prune_all cfg cids answers w).
Proof.
  revert answers gone w. induction cids as [|c' cids IH]; intros answers gone w Hg Hl Hw.
  - rewrite bool_decide_false, orb_false_r by apply not_elem_of_nil. exact Hw.
  - destruct answers as [|p answers]; [cbn in Hl; lia|]. apply Forall_cons in Hg as [Hp Hg]. destruct (sweep_one c' p gone w Hp Hw) as [He Hn].
    cbn [prune_all]. rewrite He. destruct Hp as [_ Hrem]. rewrite Hrem, andb_false_r.
    replace (gone || bool_decide (c ∈ c' :: cids)) with ((gone || bool_decide (c' = c)) || bool_decide (c ∈ cids)).
    + apply IH; [done|cbn in Hl; lia|]. apply Hn.
    + rewrite <- orb_assoc. f_equal. destruct (decide (c' = c)) as [->|Hne].
      * rewrite bool_decide_refl. symmetry. apply bool_decide_eq_true. by left.
      * rewrite (bool_decide_false (c' = c)) by done. apply bool_decide_ext. rewrite elem_of_cons. naive_solver.
Qed.
End sweep.

(** C32: A session that was idle for too long goes to the archive and, when its channel
    is active again, comes back with every message, summary and post, however much
    later. It needs an archive that the sweep wrote and did not evict (posts alone are
    not archived), a last use in a later second than its channel's last reset and last
    archive, disks that answer, a readable ledger with no reset of the channel pending,
    and no channel whose id continues its own with an underscore. *)
Theorem pruned_sessions_come_back w c o s answers d :
  dict_get (sessions w) c = Some (o, s) → max_age cfg < clock w - last_active s →
  schema_version s = SESSION_SCHEMA_VERSION →
  c ∉ ephemeral_channels w → pending w !! c = None → degraded w = false → epoch_of w c < second_of s →
  (∀ stem a, archives w !! stem = Some a → startswith (c ++ [95]) stem = true → ∃ u, stem = archive_stem c u ∧ u < second_of s) →
  (∀ c' u, c' ∈ (sessions w).*1 → startswith (c ++ [95]) (archive_stem c' u) = true → c' = c) →
  Forall good answers → (length (expired cfg w) <= length answers)%nat →
  is_Some (archives (prune cfg answers w) !! archive_stem c (second_of s)) →
  dict_get (sessions (prune cfg answers w)) c = None
  ∧ ∃ w' o' s', get_or_create c (pass d (prune cfg answers w)) = Some (w', o', s') ∧ same_content s' s.
Proof.
  intros Hin Hidle Hver Heph Hpend Hdeg Hep Hold Halone Hgood Hlen Hkept. unfold prune in *. rewrite Hdeg in *.
  assert (sweeping w c o s false w) as H0 by (split; try done; by left).
  pose proof (sweep_all w c o s Hold (expired cfg w) answers false w Hgood Hlen H0) as Hend. rewrite orb_false_l, bool_decide_true in Hend.
  2: { unfold expired. apply list_elem_of_fmap. exists (c, (o, s)). split; [done|]. apply elem_of_filter_list.
       split; [by apply dict_get_Some_elem|]. cbn. rewrite Hpend, !bool_decide_false by (done || by intros []). cbn.
       rewrite !andb_true_r. by apply Z.ltb_lt. }
  set (w2 := prune_all cfg (expired cfg w) answers w) in *. destruct Hend as [Hc He Hp Hd Hes Hgone _ Ha]. split; [done|].
  destruct Hkept as [a Hka]. assert (a_file a = Readable (asdict s None)) as Hfile.
  { destruct (Ha _ _ Hka) as [Hk|[(c' & u & _ & Hne & Heq)|(_ & _ & ?)]]; [| |done].
    - destruct (Hold _ _ Hk (stem_prefix _ _)) as (u & Heq & Hlt). apply archive_stem_inj in Heq as [_ <-]. lia.
    - by apply archive_stem_inj in Heq as [<- _]. }
  assert (restore_from_archive (pass d w2) c = Some (session_from_dict (asdict s None) (clock (pass d w2)))) as Hres.
  { apply (restore_latest _ _ (second_of s) a); [cbn; congruence|done|done| |].
    - unfold epoch_of in *. cbn. by rewrite Hes.
    - intros stem b Hb Hpre. cbn in Hb. destruct (Ha _ _ Hb) as [Hk|[(c' & u & Hin' & Hne & ->)|(_ & -> & _)]]; [right| |by left].
      + destruct (Hold _ _ Hk Hpre) as (u & -> & Hlt). by rewrite archived_at_stem.
      + by destruct Hne; apply (Halone c' u). }
  unfold get_or_create. change (pending (pass d w2)) with (pending w2). rewrite Hp, Hpend, bool_decide_eq_false_2 by (by intros []).
  change (sessions (pass d w2)) with (sessions w2). rewrite Hgone. change (ephemeral_channels (pass d w2)) with (ephemeral_channels w2).
  rewrite He, bool_decide_eq_false_2 by done. rewrite Hres. cbn [default].
  cbn [mark new_object set_marks sessions put_session set_sessions]. rewrite dict_get_set, bool_decide_refl. cbn [mbind option_bind].
  eexists _, _, _. split; [reflexivity|]. etrans; [apply same_content_active|]. by apply (holds_asdict s None).
Qed.

(** ** Eviction *)

Notation Entry := (pystr * Archive)%type.

Lemma insert_older_perm a l : insert_older a l ≡ₚ a :: l.
Proof. induction l as [|b l IH]; cbn; [done|]. case_match; [done|]. rewrite IH. apply Permutation_swap. Qed.

Lemma oldest_first_perm l : oldest_first l ≡ₚ l.
Proof. induction l as [|a l IH]; cbn; [done|]. by rewrite insert_older_perm, IH. Qed.

(** The best of each channel among the files seen so far. *)
Definition best_of (best : gmap pystr Entry) (files : list Entry) : Prop :=
  (∀ c g, best !! c = Some g → g ∈ files ∧ archive_channel g.1 = c)
  ∧ ∀ f, f ∈ files → ∃ g, best !! archive_channel f.1 = Some g ∧ file_time f <= file_time g.

Lemma best_insert best seen f : best_of best seen →
  (∀ g, best !! archive_channel f.1 = Some g → file_time g <= file_time f) →
  best_of (<[archive_channel f.1 := f]> best) (seen ++ [f]).
Proof.
  intros [Hin Hmax] Hle. split.
  - intros c' h Hh. apply lookup_insert_Some in Hh as [[<- <-]|[_ Hh]]; [split; [set_solver|done]|].
    destruct (Hin _ _ Hh). split; [set_solver|done].
  - intros h [Hh| ->%list_elem_of_singleton]%elem_of_app; [|exists f; by rewrite lookup_insert_eq].
    destruct (Hmax h Hh) as (k & Hk & Hlk). destruct (decide (archive_channel h.1 = archive_channel f.1)) as [He|He].
    + exists f. rewrite He in *. rewrite lookup_insert_eq. split; [done|]. specialize (Hle _ Hk). lia.
    + exists k. by rewrite lookup_insert_ne.
Qed.

Lemma best_keep best seen f g : best_of best seen → best !! archive_channel f.1 = Some g → file_time f <= file_time g →
  best_of best (seen ++ [f]).
Proof.
  intros [Hin Hmax] Hg Hle. split.
  - intros c' h Hh. destruct (Hin _ _ Hh). split; [set_solver|done].
  - intros h [Hh| ->%list_elem_of_singleton]%elem_of_app; [by apply Hmax|by exists g].
Qed.

Lemma newest_per_channel_spec files : best_of (newest_per_channel files) files.
Proof.
  unfold newest_per_channel. set (step := λ (best : gmap pystr Entry) (f : Entry), _).
  assert (∀ fs seen best, best_of best seen → best_of (foldl step best fs) (seen ++ fs)) as Hfold.
  { intros fs. induction fs as [|f fs IH]; intros seen best Hb; cbn; [by rewrite app_nil_r|].
    change (f :: fs) with ([f] ++ fs). rewrite app_assoc. apply IH. unfold step.
    destruct (best !! archive_channel f.1) as [g|] eqn:Hg; [|apply best_insert; [done|congruence]].
    destruct (Z.leb_spec (file_time g) (file_time f)); [|eapply best_keep; [done|done|lia]].
    apply best_insert; [done|]. intros g'. rewrite Hg. by intros [= <-]. }
  apply (Hfold files [] ∅). split; [intros c' g; by rewrite lookup_empty|]. by intros f ?%not_elem_of_nil.
Qed.

(** A protected archive is the newest of its channel, and each channel has one. *)
Lemma protected_is_newest files f g : NoDup files.*1 → f ∈ files → g ∈ files → is_protected files f = true →
  archive_channel g.1 = archive_channel f.1 → file_time g <= file_time f.
Proof.
  intros Hn Hf Hg Hp Hch. destruct (newest_per_channel_spec files) as [Hin Hmax]. unfold is_protected in Hp.
  destruct (Hmax g Hg) as (h & Hh & Hle). rewrite Hch in Hh. rewrite Hh in Hp. apply bool_decide_eq_true in Hp.
  destruct (Hin _ _ Hh) as [Hhf _]. assert (h = f) as ->; [|done].
  destruct h as [sh ah], f as [sf af]. cbn in Hp. subst sf. f_equal.
  pose proof (dict_get_elem _ _ _ Hn Hhf). pose proof (dict_get_elem _ _ _ Hn Hf). congruence.
Qed.

Lemma channel_has_protected files f : f ∈ files →
  ∃ g, g ∈ files ∧ is_protected files g = true ∧ archive_channel g.1 = archive_channel f.1 ∧ file_time f <= file_time g.
Proof.
  intros Hf. destruct (newest_per_channel_spec files) as [Hin Hmax]. destruct (Hmax f Hf) as (g & Hg & Hle).
  destruct (Hin _ _ Hg) as [Hgf Hch]. exists g. split_and!; [done| |done|done]. unfold is_protected. rewrite Hch, Hg. apply bool_decide_refl.
Qed.

(** The total size of the files. *)
Definition sizes (files : list Entry) : Z := foldr (λ f n, a_size f.2 + n) 0 files.

Lemma sizes_perm files files' : files ≡ₚ files' → sizes files = sizes files'.
Proof. unfold sizes. induction 1; cbn; lia. Qed.

Lemma sizes_delete (m : gmap pystr Archive) k a : m !! k = Some a →
  sizes (map_to_list (delete k m)) = sizes (map_to_list m) - a_size a.
Proof. intros Hk. rewrite <- (sizes_perm _ _ (map_to_list_delete m k a Hk)). unfold sizes. cbn. lia. Qed.

Lemma size_delete_one (m : gmap pystr Archive) k a : m !! k = Some a → Z.of_nat (size (delete k m)) = Z.of_nat (size m) - 1.
Proof. intros Hk. pose proof (map_size_delete_Some k m (ex_intro _ a Hk)). pose proof (map_size_ne_0_lookup_2 m k (ex_intro _ a Hk)). lia. Qed.

(** The first archives of the order go, until the caps hold, a removal fails or
    none is left. *)
Lemma evict_spec (order : list Entry) (unlinks : nat) (m : gmap pystr Archive) : NoDup order.*1 → (∀ f, f ∈ order → m !! f.1 = Some f.2) →
  let m' := evict cfg order unlinks (sizes (map_to_list m)) (Z.of_nat (size m)) m in
  ∃ k, (∀ stem, m' !! stem = if bool_decide (stem ∈ (take k order).*1) then None else m !! stem)
    ∧ (k = length order ∨ k = unlinks ∨ over_cap cfg (sizes (map_to_list m')) (Z.of_nat (size m')) = false).
Proof.
  revert unlinks m. induction order as [|f order IH]; intros unlinks m Hn Hin; cbn [evict].
  { exists 0%nat. split; [by intros stem; rewrite bool_decide_eq_false_2 by set_solver|by left]. }
  destruct (over_cap cfg _ _) eqn:Hover.
  - destruct unlinks as [|unlinks].
    { exists 0%nat. split; [by intros stem; rewrite bool_decide_eq_false_2 by set_solver|by right; left]. }
    cbn [fmap list_fmap] in Hn. apply NoDup_cons in Hn as [Hf Hn]. assert (m !! f.1 = Some f.2) as Hmf by (apply Hin; by left).
    rewrite <- (sizes_delete m f.1 f.2 Hmf), <- (size_delete_one m f.1 f.2 Hmf).
    destruct (IH unlinks (delete f.1 m)) as (k & Hk & Hstop); [done| |].
    { intros g Hg. rewrite lookup_delete_ne; [apply Hin; by right|]. intros Heq. apply Hf. rewrite Heq. by apply (list_elem_of_fmap_2 fst). }
    exists (S k). split; [|destruct Hstop as [->|[->|]]; auto]. intros stem. rewrite Hk. cbn [take fmap list_fmap].
    destruct (decide (stem = f.1)) as [->|Hne].
    + rewrite (bool_decide_eq_true_2 (f.1 ∈ f.1 :: _)) by set_solver. case_bool_decide; [done|apply lookup_delete_eq].
    + rewrite lookup_delete_ne by done. by rewrite (bool_decide_ext (stem ∈ f.1 :: _) (stem ∈ (take k order).*1)) by set_solver.
  - exists 0%nat. split; [by intros stem; rewrite bool_decide_eq_false_2 by set_solver|by right; right].
Qed.

Lemma evict_order_perm files : evict_order files ≡ₚ files.
Proof.
  unfold evict_order. generalize (is_protected files). intros f. induction files as [|x files IH]; cbn; [done|].
  destruct (f x); cbn; [|by rewrite IH]. by rewrite <- Permutation_middle, IH.
Qed.

(** The caps of the archive cost no channel its restore point while another
    archive is left: each channel's newest archive is protected, a protected archive
    goes only after every other, nothing goes that the caps allow, and unless a
    removal fails the caps hold afterwards or the archive is empty. *)
Theorem eviction_spares_restore_points unlinks w :
  let files := oldest_first (map_to_list (archives w)) in
  let kept := archives (prune_old_archives cfg unlinks w) in
  (∀ f, f ∈ files → ∃ g, g ∈ files ∧ is_protected files g = true ∧ archive_channel g.1 = archive_channel f.1 ∧ file_time f <= file_time g)
  ∧ (∀ f g, f ∈ files → g ∈ files → is_protected files f = true → archive_channel g.1 = archive_channel f.1 → file_time g <= file_time f)
  ∧ (∀ f stem a, f ∈ files → is_protected files f = true → kept !! f.1 = None → kept !! stem = Some a → is_protected files (stem, a) = true)
  ∧ (over_cap cfg (sizes files) (Z.of_nat (length files)) = false → kept = archives w)
  ∧ ((length files <= unlinks)%nat → kept = ∅ ∨ over_cap cfg (sizes (map_to_list kept)) (Z.of_nat (size kept)) = false).
Proof.
  cbv zeta. set (files := oldest_first (map_to_list (archives w))). set (kept := archives _).
  pose proof (oldest_first_perm (map_to_list (archives w))) as Hperm. fold files in Hperm.
  assert (NoDup files.*1) as Hn by (rewrite Hperm; apply NoDup_fst_map_to_list).
  assert (NoDup (evict_order files).*1) as Hno by (by rewrite evict_order_perm).
  assert (∀ f, f ∈ files ↔ archives w !! f.1 = Some f.2) as Hfiles.
  { intros [stem a]. rewrite Hperm. apply elem_of_map_to_list. }
  assert (sizes files = sizes (map_to_list (archives w))) as Hsz by by apply sizes_perm.
  assert (length files = size (archives w)) as Hlen by (by rewrite Hperm, length_map_to_list).
  destruct (evict_spec (evict_order files) unlinks (archives w) Hno) as (k & Hk & Hstop).
  { intros f. rewrite evict_order_perm. apply Hfiles. }
  assert (evict cfg (evict_order files) unlinks (sizes (map_to_list (archives w))) (Z.of_nat (size (archives w))) (archives w) = kept) as Hkept.
  { unfold kept. cbn. unfold prune_old_archives. cbn. fold files. by rewrite <- Hsz, <- Hlen. }
  rewrite Hkept in *. clear Hkept. split_and!.
  - apply channel_has_protected.
  - intros f g. by apply protected_is_newest.
  - intros f stem a Hf Hp Hgone Hleft. rewrite Hk in Hgone, Hleft. case_bool_decide as Hstem; [done|].
    case_bool_decide as Hft; [|apply Hfiles in Hf; congruence]. destruct (is_protected files (stem, a)) eqn:Hsp; [done|]. exfalso. apply Hstem.
    assert ((stem, a) ∈ files) as Hsf by by apply Hfiles.
    set (others := List.filter (λ f, negb (is_protected files f)) files).
    assert ((stem, a) ∈ others) as Hso by (apply elem_of_filter_list; by rewrite Hsp).
    assert (f.1 ∈ (take k others).*1 → False) as Hfo.
    { intros Hin. apply list_elem_of_fmap in Hin as (g & Heq & Hg). assert (g ∈ others) as Hgo by (rewrite <- (take_drop k others), elem_of_app; by left).
      apply elem_of_filter_list in Hgo as [Hgf Hgp]. destruct f as [sf af], g as [sg ag]. cbn in Heq. subst sg.
      apply Hfiles in Hf, Hgf. cbn in *. assert (ag = af) as -> by congruence. rewrite Hp in Hgp. done. }
    unfold evict_order in Hft |- *. fold others in Hft |- *. rewrite take_app, fmap_app, elem_of_app in Hft |- *.
    destruct (Nat.le_gt_cases (length others) k) as [Hle|Hlt].
    + left. rewrite take_ge by done. by apply (list_elem_of_fmap_2 fst) in Hso.
    + replace (k - length others)%nat with 0%nat in Hft by lia. rewrite take_0 in Hft. destruct Hft as [|Hft]; [done|]. by apply not_elem_of_nil in Hft.
  - intros Hover. unfold kept. cbn. unfold prune_old_archives. cbn. fold files. change (foldr _ 0 files) with (sizes files).
    destruct (evict_order files); cbn; [done|]. by rewrite Hover.
  - intros Hul. destruct Hstop as [->|[->|]]; [| |by right]; left; apply map_eq; intros stem; rewrite Hk, lookup_empty.
    all: assert (length (evict_order files) = length files) as Hle by (by rewrite evict_order_perm).
    all: rewrite take_ge by lia; case_bool_decide as Hs; [done|]; destruct (archives w !! stem) as [a|] eqn:Ha; [|done]; exfalso; apply Hs.
    all: apply (list_elem_of_fmap_2' fst (evict_order files) (stem, a)); [rewrite evict_order_perm; by apply Hfiles|done].
Qed.

End archive.

Module ArchiveWitness.
Import SessionExample.

Definition idle_world : World := run (step defaults) (empty_world (100 * SECOND)) [(1, OpAdd (lit "a") (says "hello")); (days, OpSave true [])].
Notation idle_session := (dict_get (sessions idle_world) (lit "a")).

Lemma witness_idle : ∃ o s, idle_session = Some (o, s) ∧ max_age defaults < clock idle_world - last_active s
  ∧ has_conversation s = true ∧ schema_version s = SESSION_SCHEMA_VERSION ∧ epoch_of idle_world (lit "a") < second_of s
  ∧ is_Some (archives (prune defaults [archived] idle_world) !! archive_stem (lit "a") (second_of s)).
Proof.
  assert (bool_decide (match idle_session with
    | Some (o, s) => max_age defaults < clock idle_world - last_active s ∧ has_conversation s = true ∧ schema_version s = SESSION_SCHEMA_VERSION
        ∧ epoch_of idle_world (lit "a") < second_of s
        ∧ is_Some (archives (prune defaults [archived] idle_world) !! archive_stem (lit "a") (second_of s))
    | None => False end) = true) as Hb by (vm_compute; reflexivity).
  apply bool_decide_eq_true in Hb. destruct idle_session as [[o s]|]; [|done]. by exists o, s.
Qed.

Lemma witness_quiet : lit "a" ∉ ephemeral_channels idle_world ∧ pending idle_world !! lit "a" = None ∧ degraded idle_world = false
  ∧ map_to_list (archives idle_world) = [] ∧ (sessions idle_world).*1 = [lit "a"] ∧ (length (expired defaults idle_world) <= 1)%nat.
Proof. apply (bool_decide_unpack _). vm_compute. exact I. Qed.

Lemma pruned_sessions_come_back_witness : ∃ o s w' o' s', idle_session = Some (o, s)
  ∧ get_or_create (lit "a") (pass 7 (prune defaults [archived] idle_world)) = Some (w', o', s') ∧ same_content s' s.
Proof.
  destruct witness_idle as (o & s & Hs & Hidle & Hconv & Hver & Hep & Hkept). destruct witness_quiet as (Heph & Hpend & Hdeg & Harch & Hids & Hlen).
  destruct (pruned_sessions_come_back defaults idle_world (lit "a") o s [archived] 7) as (_ & w' & o' & s' & Hget & Hsame).
  - exact Hs.
  - exact Hidle.
  - exact Hver.
  - exact Heph.
  - exact Hpend.
  - exact Hdeg.
  - exact Hep.
  - intros stem a Ha. apply elem_of_map_to_list in Ha. rewrite Harch in Ha. by apply not_elem_of_nil in Ha.
  - intros c' u Hc'. rewrite Hids in Hc'. apply list_elem_of_singleton in Hc' as ->. intros _. reflexivity.
  - constructor; [split; reflexivity|constructor].
  - exact Hlen.
  - exact Hkept.
  - exists o, s, w', o', s'. split; [exact Hs|]. split; [exact Hget|exact Hsame].
Defined.

End ArchiveWitness.
