(* ===== verification/SessionSearch.v ===== *)
(** * Searching conversations (search_history and _search_archives of
    src/src/sessions/manager.py)

    A search reads the sessions in memory, then the archives from the newest, then
    the logs of the channels and the index of old sessions, until the limit is
    reached.  The two backends are functions from the number of results asked for; an
    exception of theirs leaves the search and is not a value here.
    [search_respects_scope_and_resets]: no result is outside of what was asked for,
    and none from a file or a backend is older than the reset of its channel. *)

From S2P Require Import Prelude PyStr PyLib SessionText SessionCompact Sessions SessionTheory.
Open Scope string_scope.
Open Scope list_scope.
Open Scope Z_scope.

(** [summary_segment_doc_id], a hash. *)
Class SegmentIds := { doc_id_of : pystr → Segment → pystr }.

Record Hit := {
  h_type : pystr;
  h_content : pystr;
  h_timestamp : Z;
  h_channel_id : pystr;
  h_user_id : option pystr;
  h_message_id : option pystr;
  h_channel_name : option pystr;
  h_is_dm : option bool;
  h_doc_id : option pystr
}.

#[export] Instance Hit_eq_dec : EqDecision Hit.
Proof. solve_decision. Defined.

(** The arguments of a search; an empty text is no filter. *)
Record Query := {
  q_text : pystr;
  q_limit : Z;
  q_channel_id : pystr;
  q_user_id : pystr;
  q_after : option Z;
  q_before : option Z;
  q_exclude : option (pystr * pystr)
}.

(** Text that SQLite can hold: [validate_search_query]. *)
Definition valid_query (text : pystr) : bool := forallb (λ c, negb (c =? 0) && negb (surrogate c)) text.

Section search.
Context `{Lower, SegmentIds, ArchiveNames}.

Definition segment_visible_to (seg : Segment) (user : pystr) : bool :=
  negb (nonempty user) || bool_decide (user ∈ participants seg).

(** [_ts_ok], and the test of the archives, where a bound of zero is no bound. *)
Definition ts_ok (q : Query) (ts : Z) : bool :=
  match q_after q with Some a => a <=? ts | None => true end
  && match q_before q with Some b => ts <=? b | None => true end.

Definition archived_ts_ok (q : Query) (ts : Z) : bool :=
  match q_after q with Some a => (a =? 0) || (a <=? ts) | None => true end
  && match q_before q with Some b => (b =? 0) || (ts <=? b) | None => true end.

Definition mentions (q : Query) (text : pystr) : bool := contains (str_lower (q_text q)) (str_lower text).

Definition excluded (q : Query) (cid : pystr) (mid : option pystr) : bool :=
  match q_exclude q, mid with
  | Some (c, m), Some m' => bool_decide (c = cid) && bool_decide (m = m')
  | _, _ => false
  end.

(** ** Sessions and archives *)

Definition summary_type : pystr := Eval compute in lit "summary".

(** What a conversation offers, in the order it is looked at; a segment carries the
    id under which it is shown once. *)
Record Conversation := {
  v_channel : pystr;
  v_name : option pystr;
  v_dm : option bool;
  v_active : Z;
  v_summary : pystr;
  v_segments : list Segment;
  v_messages : list Message
}.

Definition conversation_of (s : Session) : Conversation :=
  {| v_channel := channel_id s; v_name := channel_name s; v_dm := is_dm s; v_active := last_active s; v_summary := summary s;
     v_segments := summary_segments s; v_messages := messages s |}.
Definition archived_conversation (d : SessionData) : Conversation :=
  {| v_channel := d_channel_id d; v_name := d_channel_name d; v_dm := d_is_dm d; v_active := default 0 (d_last_active d);
     v_summary := d_summary d; v_segments := d_segments d; v_messages := d_messages d |}.

Definition summary_hit (v : Conversation) (text : pystr) (ts : Z) : Hit :=
  {| h_type := summary_type; h_content := take 500 text; h_timestamp := ts; h_channel_id := v_channel v; h_user_id := None;
     h_message_id := None; h_channel_name := v_name v; h_is_dm := v_dm v; h_doc_id := None |}.
Definition message_hit (v : Conversation) (m : Message) : Hit :=
  {| h_type := role m; h_content := take 500 (content m); h_timestamp := timestamp m; h_channel_id := v_channel v;
     h_user_id := user_id m; h_message_id := message_id m; h_channel_name := v_name v; h_is_dm := v_dm v; h_doc_id := None |}.

(** [ok] is the test of a time: for archives it includes the epoch. *)
Definition offers (q : Query) (ok : Z → bool) (v : Conversation) : list (option pystr * Hit) :=
  (if negb (nonempty (q_user_id q)) && nonempty (v_summary v) && mentions q (v_summary v) && ok (v_active v)
   then [(None, summary_hit v (v_summary v) (v_active v))] else [])
  ++ ((λ seg, (Some (doc_id_of (v_channel v) seg), summary_hit v (seg_summary seg) (end_ts seg))) <$>
       List.filter (λ seg, segment_visible_to seg (q_user_id q) && nonempty (seg_summary seg) && mentions q (seg_summary seg)
                           && ok (end_ts seg)) (v_segments v))
  ++ ((λ m, (None, message_hit v m)) <$>
       List.filter (λ m, negb (excluded q (v_channel v) (message_id m))
           && (negb (nonempty (q_user_id q)) || bool_decide (user_id m = Some (q_user_id q)))
           && ok (timestamp m) && mentions q (content m)) (rev (v_messages v))).

(** The hits so far, the segments shown, and whether the limit is reached. *)
Fixpoint take_offers (limit : Z) (os : list (option pystr * Hit)) (found : list Hit) (seen : list pystr)
    : list Hit * list pystr * bool :=
  match os with
  | [] => (found, seen, false)
  | (Some i, h) :: os =>
      if bool_decide (i ∈ seen) then take_offers limit os found seen
      else if limit <=? Z.of_nat (length (found ++ [h])) then (found ++ [h], i :: seen, true)
      else take_offers limit os (found ++ [h]) (i :: seen)
  | (None, h) :: os =>
      if limit <=? Z.of_nat (length (found ++ [h])) then (found ++ [h], seen, true)
      else take_offers limit os (found ++ [h]) seen
  end.

Definition in_scope (q : Query) (cid : pystr) : bool := negb (nonempty (q_channel_id q)) || bool_decide (cid = q_channel_id q).

(** [sorted(..., key=lambda p: (archived_at(p), p.name), reverse=True)] *)
Definition archives_newest (w : World) : list (pystr * Archive) :=
  (newest_first ((λ sa, (archived_at sa.1 sa.2, sa)) <$> map_to_list (archives w))).*2.

Definition search_archives (w : World) (q : Query) (limit : Z) (seen : list pystr) : list Hit * list pystr :=
  if limit <=? 0 then ([], seen)
  else
    let os := archives_newest w ≫= λ sa,
      match a_file sa.2 with
      | Readable d =>
          if in_scope q (d_channel_id d)
          then offers q (λ ts, archived_ts_ok q ts && (epoch_of w (d_channel_id d) <? ts)) (archived_conversation d) else []
      | Unreadable => []
      end in
    (take_offers limit os [] seen).1.

(** ** Backends *)

Definition key_of (h : Hit) : pystr * Z := (h_channel_id h, h_timestamp h).

Definition eligible (w : World) (q : Query) (segments : bool) (shown : list pystr) (h : Hit) : bool :=
  negb (excluded q (h_channel_id h) (h_message_id h))
  && in_scope q (h_channel_id h) && ts_ok q (h_timestamp h) && (epoch_of w (h_channel_id h) <? h_timestamp h)
  && negb (segments && match h_doc_id h with Some i => bool_decide (i ∈ shown) | None => false end).

(** One pass over the candidates; the flag tells that enough were selected. *)
Fixpoint select (ok : Hit → bool) (room : Z) (cs : list Hit) (selected : list Hit) (seen : list (pystr * Z)) : list Hit * bool :=
  match cs with
  | [] => (selected, false)
  | h :: cs =>
      if ok h && negb (bool_decide (key_of h ∈ seen)) then
        if room <=? Z.of_nat (length (selected ++ [h])) then (selected ++ [h], true)
        else select ok room cs (selected ++ [h]) (key_of h :: seen)
      else select ok room cs selected seen
  end.

(** [_eligible_ranked]: the candidates are doubled until enough are eligible or the
    backend has no more. *)
Fixpoint eligible_ranked (fuel : nat) (ok : Hit → bool) (limit : Z) (results : list Hit) (fetch : nat → list Hit) (n : nat)
    : option (list Hit) :=
  match fuel with
  | O => None
  | S fuel =>
      let cs := fetch n in
      let '(selected, enough) := select ok (limit - Z.of_nat (length results)) cs [] (key_of <$> results) in
      if enough || bool_decide (length cs < n)%nat then Some selected
      else eligible_ranked fuel ok limit results fetch (2 * n)
  end.

(** The loop that appends what a backend gave. *)
Fixpoint append_matches (ok : Hit → bool) (limit : Z) (hits : list Hit) (results : list Hit) : list Hit :=
  match hits with
  | [] => results
  | h :: hits =>
      if ok h && negb (bool_decide (key_of h ∈ key_of <$> results)) then
        if limit <=? Z.of_nat (length (results ++ [h])) then results ++ [h] else append_matches ok limit hits (results ++ [h])
      else append_matches ok limit hits results
  end.

(** What is registered: the index of channel logs, the logs themselves (for one author
    when the search is a user's), and the store of old sessions. *)
Record Backends := {
  b_logger : bool;
  b_fts : option (nat → list Hit);
  b_log : option (nat → list Hit);
  b_hybrid : option (nat → list Hit)
}.

Definition channel_matches (fuel : nat) (w : World) (q : Query) (b : Backends) (results : list Hit) : option (list Hit) :=
  if (Z.of_nat (length results) <? q_limit q) && b_logger b then
    let ok := eligible w q false [] in
    let start := Z.to_nat (Z.max 1 (q_limit q)) in
    from_fts ← match b_fts b with
               | Some fetch => if nonempty (q_user_id q) then Some [] else eligible_ranked fuel ok (q_limit q) results fetch start
               | None => Some []
               end;
    hits ← match from_fts, b_log b with
           | [], Some fetch => eligible_ranked fuel ok (q_limit q) results fetch start
           | _, _ => Some from_fts
           end;
    Some (append_matches (λ h, ts_ok q (h_timestamp h) && in_scope q (h_channel_id h)
                               && (epoch_of w (h_channel_id h) <? h_timestamp h)) (q_limit q) hits results)
  else Some results.

Definition hybrid_matches (fuel : nat) (w : World) (q : Query) (b : Backends) (shown : list pystr) (results : list Hit)
    : option (list Hit) :=
  match b_hybrid b with
  | Some fetch =>
      if negb (nonempty (q_user_id q)) && (Z.of_nat (length results) <? q_limit q) then
        hits ← eligible_ranked fuel (eligible w q true shown) (q_limit q) results fetch (Z.to_nat (Z.max 1 (q_limit q)));
        Some (append_matches (λ h, match h_doc_id h with Some i => negb (bool_decide (i ∈ shown)) | None => true end
                                   && in_scope q (h_channel_id h) && ts_ok q (h_timestamp h)
                                   && (epoch_of w (h_channel_id h) <? h_timestamp h)) (q_limit q) hits results)
      else Some results
  | None => Some results
  end.

(** ** The search *)

Inductive Search : Type := InvalidQuery | OutOfFuel | Found (hits : list Hit).

Definition sessions_searched (w : World) (q : Query) : list Session :=
  if nonempty (q_channel_id q)
  then match session_of w (q_channel_id q) with Some s => [s] | None => [] end
  else (λ cs, cs.2.2) <$> sessions w.

Definition search_history (fuel : nat) (w : World) (q : Query) (b : Backends) : Search :=
  if negb (valid_query (q_text q)) then InvalidQuery
  else if (q_limit q <=? 0) || negb (nonempty (strip (q_text q))) then Found []
  else
    let '(results, shown, full) :=
      take_offers (q_limit q) (sessions_searched w q ≫= λ s, offers q (ts_ok q) (conversation_of s)) [] [] in
    if full : bool then Found results
    else
      let '(archived, shown) := search_archives w q (q_limit q - Z.of_nat (length results)) shown in
      let results := results ++ archived in
      if q_limit q <=? Z.of_nat (length results) then Found (take (Z.to_nat (q_limit q)) results)
      else
        match
          results ← (if nonempty (q_channel_id q) then Some results else channel_matches fuel w q b results);
          results ← hybrid_matches fuel w q b shown results;
          if nonempty (q_channel_id q) then channel_matches fuel w q b results else Some results
        with
        | Some results => Found results
        | None => OutOfFuel
        end.

End search.

(** ** What a search finds *)

Section found.
Context `{Lower, SegmentIds, ArchiveNames}.

Lemma take_offers_spec (P : Hit → Prop) limit os found seen : Z.of_nat (length found) < limit →
  Forall P found → Forall (λ o, P o.2) os →
  let '(found', _, full) := take_offers limit os found seen in
  Forall P found' ∧ Z.of_nat (length found') <= limit ∧ (full = false → Z.of_nat (length found') < limit).
Proof.
  intros Hlen Hf Hos. revert found seen Hlen Hf. induction Hos as [|[i h] os Hh Hos IH]; intros found seen Hlen Hf; cbn [take_offers];
    [by split_and!; [|lia|]|]. cbn in Hh.
  assert (Forall P (found ++ [h])) as Hf' by (apply Forall_app; split; [done|by constructor]).
  assert (length (found ++ [h]) = S (length found)) as Hl by (rewrite length_app; cbn; lia).
  destruct i as [i|]; [case_bool_decide; [by apply IH|]|].
  all: destruct (Z.leb_spec limit (Z.of_nat (length (found ++ [h])))); [split_and!; [done|lia|done]|apply IH; [lia|done]].
Qed.

Lemma append_matches_spec (P : Hit → Prop) ok limit hits results : (∀ h, ok h = true → P h) →
  Z.of_nat (length results) < limit → Forall P results →
  Forall P (append_matches ok limit hits results) ∧ Z.of_nat (length (append_matches ok limit hits results)) <= limit.
Proof.
  intros Hok. revert results. induction hits as [|h hits IH]; intros results Hlen Hr; cbn [append_matches]; [split; [done|lia]|].
  destruct (ok h) eqn:Hh; cbn [andb]; [|by apply IH]. destruct (negb _); [|by apply IH].
  assert (Forall P (results ++ [h])) as Hr' by (apply Forall_app; split; [done|by constructor; [apply Hok|]]).
  assert (length (results ++ [h]) = S (length results)) as Hl by (rewrite length_app; cbn; lia).
  destruct (Z.leb_spec limit (Z.of_nat (length (results ++ [h])))); [split; [done|lia]|apply IH; [lia|done]].
Qed.

(** A backend that holds finitely many results is read to its end. *)
Lemma eligible_ranked_ends fuel ok limit results fetch n N : (∀ k, (length (fetch k) <= N)%nat) → (0 < n)%nat → (S N < fuel + n)%nat →
  (0 < fuel)%nat → is_Some (eligible_ranked fuel ok limit results fetch n).
Proof.
  intros Hb. revert n. induction fuel as [|fuel IH]; intros n Hn HN Hf; [lia|]. cbn [eligible_ranked].
  destruct (select _ _ _ _ _) as [selected [|]]; cbn [orb]; [by eexists|]. case_bool_decide as Hlt; [by eexists|].
  specialize (Hb n). apply IH; lia.
Qed.

Definition bounded_by (N : nat) (b : Backends) : Prop :=
  ∀ fetch k, b_fts b = Some fetch ∨ b_log b = Some fetch ∨ b_hybrid b = Some fetch → (length (fetch k) <= N)%nat.

(** A result of the sessions in memory. *)
Definition from_memory (w : World) (q : Query) (h : Hit) : Prop :=
  ∃ s i, s ∈ sessions_searched w q ∧ (i, h) ∈ offers q (ts_ok q) (conversation_of s).

(** A result of an archive. *)
Definition from_archive (w : World) (q : Query) (h : Hit) : Prop :=
  ∃ sa d i, sa ∈ archives_newest w ∧ a_file sa.2 = Readable d
    ∧ (i, h) ∈ offers q (λ ts, archived_ts_ok q ts && (epoch_of w (d_channel_id d) <? ts)) (archived_conversation d).

(** A bound that archives do not apply. *)
Definition zero_bound (q : Query) : Prop := q_after q = Some 0 ∨ q_before q = Some 0.

Definition proper (w : World) (q : Query) (h : Hit) : Prop :=
  in_scope q (h_channel_id h) = true
  ∧ (ts_ok q (h_timestamp h) = true ∨ zero_bound q ∧ from_archive w q h ∧ archived_ts_ok q (h_timestamp h) = true)
  ∧ (from_memory w q h ∨ epoch_of w (h_channel_id h) < h_timestamp h).

Lemma archived_ts q ts : archived_ts_ok q ts = true → ts_ok q ts = true ∨ zero_bound q.
Proof.
  intros Ha. destruct (decide (q_after q = Some 0)) as [|Ha0]; [by right; left|].
  destruct (decide (q_before q = Some 0)) as [|Hb0]; [by right; right|]. left. rewrite <- Ha. unfold ts_ok, archived_ts_ok. f_equal.
  - destruct (q_after q) as [a|]; [|done]. destruct (Z.eqb_spec a 0); [congruence|done].
  - destruct (q_before q) as [b|]; [|done]. destruct (Z.eqb_spec b 0); [congruence|done].
Qed.

Lemma offers_spec q ok v i h : (i, h) ∈ offers q ok v → h_channel_id h = v_channel v ∧ ok (h_timestamp h) = true.
Proof.
  unfold offers. rewrite !elem_of_app. intros [Hin|[Hin|Hin]].
  - destruct (_ && ok (v_active v)) eqn:Hb; [|by apply not_elem_of_nil in Hin]. bool_prop. apply list_elem_of_singleton in Hin.
    injection Hin as -> ->. done.
  - apply list_elem_of_fmap in Hin as (seg & [= -> ->] & Hin). apply elem_of_filter_list in Hin as [_ Hb]. by bool_prop.
  - apply list_elem_of_fmap in Hin as (m & [= -> ->] & Hin). apply elem_of_filter_list in Hin as [_ Hb]. by bool_prop.
Qed.

Lemma channel_matches_spec fuel w q b N results : bounded_by N b → (N < fuel)%nat → 0 < q_limit q →
  Z.of_nat (length results) <= q_limit q → Forall (proper w q) results →
  ∃ results', channel_matches fuel w q b results = Some results' ∧ Forall (proper w q) results' ∧ Z.of_nat (length results') <= q_limit q.
Proof.
  intros Hb Hf Hlim Hlen Hr. unfold channel_matches. destruct (_ && b_logger b) eqn:Hroom; [|by exists results]. bool_prop.
  set (ok := eligible w q false []). set (start := Z.to_nat _). assert (0 < start)%nat by (unfold start; lia).
  assert (∀ fetch, b_fts b = Some fetch ∨ b_log b = Some fetch → is_Some (eligible_ranked fuel ok (q_limit q) results fetch start)) as Hends.
  { intros fetch Hfetch. apply (eligible_ranked_ends _ _ _ _ _ _ N); [|done|lia|lia]. intros k. apply (Hb fetch). tauto. }
  set (fts := match b_fts b with Some _ => _ | None => _ end). assert (is_Some fts) as [from_fts Hfts].
  { unfold fts. destruct (b_fts b) as [fetch|]; [|done]. destruct (nonempty _); [done|]. apply Hends. by left. }
  rewrite Hfts. cbn [mbind option_bind]. set (log := match from_fts, b_log b with [], Some _ => _ | _, _ => _ end).
  assert (is_Some log) as [hits Hlog].
  { unfold log. destruct from_fts; [|done]. destruct (b_log b) as [fetch|]; [|done]. apply Hends. by right. }
  rewrite Hlog. cbn [mbind option_bind]. eexists. split; [done|]. apply append_matches_spec; [|done|done].
  intros h Hok. bool_prop. split_and!; [done|by left|by right].
Qed.

Lemma hybrid_matches_spec fuel w q b N shown results : bounded_by N b → (N < fuel)%nat → 0 < q_limit q →
  Z.of_nat (length results) <= q_limit q → Forall (proper w q) results →
  ∃ results', hybrid_matches fuel w q b shown results = Some results' ∧ Forall (proper w q) results' ∧ Z.of_nat (length results') <= q_limit q.
Proof.
  intros Hb Hf Hlim Hlen Hr. unfold hybrid_matches. destruct (b_hybrid b) as [fetch|] eqn:Hh; [|by exists results].
  destruct (_ && _) eqn:Hroom; [|by exists results]. bool_prop.
  destruct (eligible_ranked_ends fuel (eligible w q true shown) (q_limit q) results fetch (Z.to_nat (Z.max 1 (q_limit q))) N) as [hits ->];
    [intros k; apply (Hb fetch); tauto|lia|lia|lia|]. cbn [mbind option_bind]. eexists. split; [done|].
  apply append_matches_spec; [|done|done]. intros h Hok. bool_prop. split_and!; [done|by left|by right].
Qed.

Lemma archive_results_spec w q limit shown : 0 < limit →
  Forall (proper w q) (search_archives w q limit shown).1 ∧ Z.of_nat (length (search_archives w q limit shown).1) <= limit.
Proof.
  intros Hlim. unfold search_archives. destruct (Z.leb_spec limit 0); [lia|]. set (os := _ ≫= _).
  pose proof (take_offers_spec (proper w q) limit os [] shown) as Hs. destruct (take_offers limit os [] shown) as [[found' shown'] full].
  cbn [fst]. destruct Hs as (Hf & Hl & _); [done|constructor| |done].
  apply Forall_forall. intros [i h] Hin. unfold os in Hin. apply list_elem_of_bind in Hin as ([stem a] & Hin & Hsa).
  cbn [snd] in *. destruct (a_file a) as [|d] eqn:Hfile; [by apply not_elem_of_nil in Hin|].
  destruct (in_scope q (d_channel_id d)) eqn:Hsc; [|by apply not_elem_of_nil in Hin].
  pose proof (offers_spec _ _ _ _ _ Hin) as [Hch Hok]. cbn in Hch. bool_prop. unfold proper. rewrite Hch. split_and!; [done| |by right].
  destruct (archived_ts q (h_timestamp h)) as [?|Hz]; [done|by left|]. right. split_and!; [done| |done]. exists (stem, a), d, i. by split_and!.
Qed.

(** C33: Where sessions are filed under their channel ids, a search of a valid text
    ends, with at most the results asked for, whatever the backends hold; every result
    lies in the channel and the times asked for, except that what an archive holds
    ignores a bound of zero (example archive_ignores_a_zero_bound); and what is not read
    from a session in memory, be it from an archive, the logs or the index, is newer
    than the last reset of its channel. *)
Theorem search_respects_scope_and_resets fuel w q b N :
  (∀ c s, session_of w c = Some s → channel_id s = c) → valid_query (q_text q) = true → bounded_by N b → (N < fuel)%nat →
  ∃ hits, search_history fuel w q b = Found hits ∧ Z.of_nat (length hits) <= Z.max 0 (q_limit q) ∧ Forall (proper w q) hits.
Proof.
  intros Hnames Hvalid Hb Hf. unfold search_history. rewrite Hvalid. cbn [negb].
  destruct (Z.leb_spec (q_limit q) 0) as [Hz|Hlim]; cbn [orb]; [exists []; split_and!; [done|cbn; lia|constructor]|].
  destruct (negb _); [exists []; split_and!; [done|cbn; lia|constructor]|].
  set (os := sessions_searched w q ≫= _). pose proof (take_offers_spec (proper w q) (q_limit q) os [] []) as Hs.
  destruct (take_offers (q_limit q) os [] []) as [[results shown] full]. destruct Hs as (Hr & Hlen & Hfull); [done|constructor| |].
  { apply Forall_forall. intros [i h] Hin. unfold os in Hin. apply list_elem_of_bind in Hin as (s & Hin & Hs).
    destruct (offers_spec _ _ _ _ _ Hin) as [Hch Hok]. cbn in Hch |- *. split_and!; [|by left|left; by exists s, i].
    rewrite Hch. unfold in_scope. unfold sessions_searched in Hs. destruct (nonempty (q_channel_id q)) eqn:Hn; [|done]. cbn.
    destruct (session_of w (q_channel_id q)) as [s'|] eqn:Hs'; [|by apply not_elem_of_nil in Hs]. apply list_elem_of_singleton in Hs as ->.
    rewrite (Hnames _ _ Hs'). apply bool_decide_refl. }
  destruct full; [exists results; split_and!; [done|lia|done]|]. specialize (Hfull eq_refl).
  destruct (archive_results_spec w q (q_limit q - Z.of_nat (length results)) shown) as [Ha Hal]; [lia|].
  destruct (search_archives w q _ shown) as [archived shown']. cbn [fst] in *.
  assert (Forall (proper w q) (results ++ archived)) as Hra by by apply Forall_app.
  assert (Z.of_nat (length (results ++ archived)) <= q_limit q) as Hrl by (rewrite length_app; lia).
  destruct (Z.leb_spec (q_limit q) (Z.of_nat (length (results ++ archived)))).
  { eexists. split_and!; [done|rewrite length_take; lia|by apply Forall_take]. }
  set (first := if nonempty (q_channel_id q) then Some _ else _).
  assert (∃ r, first = Some r ∧ Forall (proper w q) r ∧ Z.of_nat (length r) <= q_limit q) as (r1 & -> & Hr1 & Hl1).
  { unfold first. destruct (nonempty _); [by eexists|]. by apply (channel_matches_spec _ _ _ _ N). }
  cbn [mbind option_bind]. destruct (hybrid_matches_spec fuel w q b N shown' r1) as (r2 & -> & Hr2 & Hl2); [done..|].
  cbn [mbind option_bind]. destruct (nonempty (q_channel_id q)); [|exists r2; split_and!; [done|lia|done]].
  destruct (channel_matches_spec fuel w q b N r2) as (r3 & -> & Hr3 & Hl3); [done..|]. exists r3. split_and!; [done|lia|done].
Qed.

End found.

Module SearchWitness.
Import SessionExample.

#[export] Instance plain_lower : Lower := {| str_lower := λ s, s |}.
#[export] Instance plain_ids : SegmentIds := {| doc_id_of := λ c seg, c ++ seg_id seg |}.

Definition talked : World := run (step defaults) (empty_world (100 * SECOND))
  [(1, OpAdd (lit "a") (says "old hello")); (days, OpPrune [archived]); (1, OpReset [lit "a"] Synced ∅); (1, OpAdd (lit "a") (says "hello"))].
Definition ask : Query :=
  {| q_text := lit "hello"; q_limit := 5; q_channel_id := []; q_user_id := []; q_after := None; q_before := None; q_exclude := None |}.
Definition logged (c : string) (ts : Z) : Hit :=
  {| h_type := user; h_content := lit "hello"; h_timestamp := ts; h_channel_id := lit c; h_user_id := None; h_message_id := None;
     h_channel_name := None; h_is_dm := None; h_doc_id := None |}.
Definition some_log : Backends :=
  {| b_logger := true; b_fts := None; b_log := Some (λ n, take n [logged "a" 5; logged "b" 7]); b_hybrid := None |}.

(** The archive and the log of the channel that was reset are passed over. *)
Example search_after_reset : match search_history 3 talked ask some_log with
  | Found hits => (λ h, (h_channel_id h, h_content h)) <$> hits
  | _ => [] end = [(lit "a", lit "hello"); (lit "b", lit "hello")].
Proof. vm_compute. reflexivity. Qed.

(** A pruned conversation is found before the beginning of time. *)
Definition pruned : World := run (step defaults) (empty_world (100 * SECOND))
  [(1, OpAdd (lit "a") (says "old hello")); (days, OpPrune [archived])].
Definition ask_before_zero : Query :=
  {| q_text := lit "hello"; q_limit := 5; q_channel_id := lit "a"; q_user_id := []; q_after := None; q_before := Some 0; q_exclude := None |}.
Example archive_ignores_a_zero_bound : match search_history 3 pruned ask_before_zero some_log with
  | Found hits => (λ h, (h_content h, 0 <? h_timestamp h)) <$> hits
  | _ => [] end = [(lit "old hello", true)].
Proof. vm_compute. reflexivity. Qed.

Definition named (w : World) : bool := forallb (λ cs, bool_decide (channel_id cs.2.2 = cs.1)) (sessions w).

Lemma named_spec w : named w = true → ∀ c s, session_of w c = Some s → channel_id s = c.
Proof.
  unfold named. intros Hw c s Hs. unfold session_of in Hs. destruct (dict_get (sessions w) c) as [[o s']|] eqn:Hg; [|discriminate Hs].
  injection Hs as <-. apply dict_get_Some_elem, list_elem_of_In in Hg. rewrite forallb_forall in Hw. exact (bool_decide_eq_true_1 _ (Hw _ Hg)).
Qed.

Lemma talked_is_named : named talked = true.
Proof. vm_compute. reflexivity. Qed.

Lemma log_is_bounded : bounded_by 2 some_log.
Proof. intros fetch k [Hf|[Hf|Hf]]; try discriminate Hf. injection Hf as <-. rewrite length_take. cbn. lia. Qed.

Lemma hello_is_valid : valid_query (q_text ask) = true.
Proof. vm_compute. reflexivity. Qed.

Lemma search_respects_scope_and_resets_witness : ∃ hits, search_history 4 talked ask some_log = Found hits
  ∧ Z.of_nat (length hits) <= Z.max 0 (q_limit ask) ∧ Forall (proper talked ask) hits.
Proof.
  exact (search_respects_scope_and_resets 4 talked ask some_log 2 (named_spec talked talked_is_named) hello_is_valid log_is_bounded (le_S _ _ (le_n 3))).
Defined.

End SearchWitness.
