(* ===== verification/Retention.v ===== *)
(** * Retained tool output (src/src/tools/output_retention.py)

    Output too long for a reply is kept for a day in two tables, text in one and
    attached files in the other, under one quota.  A file store of many threads: a call
    prepares a snapshot, registers it under its delivery's hold, and then writes it in
    a transaction, so that other calls may come in between.

    [held_output_stays_readable]: what a delivery holds is there until it expires,
    whole.  [retention_keeps_its_quota]: the tables never outgrow the quota, and hold
    only what was asked for, scrubbed; [room_is_made_by_the_oldest]: a snapshot makes
    room by the oldest cohorts that are not held, or not at all.

    Times are microseconds.  The columns that hold JSON hold their values here; [int]
    reads ASCII digits only. *)

From S2P Require Import Prelude Sql PyStr PyLib.
From stdpp Require Import gmap.
From Stdlib Require Import Sorted.
Open Scope string_scope.
Open Scope list_scope.
Open Scope Z_scope.
Local Open Scope odin_scope.

(** The scrubber, SHA-256 of bytes, and a time in ISO form. *)
Class OutputText := {
  scrub_output_secrets : pystr → pystr;
  sha256_hex : list Z → pystr;
  isoformat : Z → pystr
}.

(** ** Data *)

Record Scope := { s_owner : pystr; s_channel : pystr; s_tool : pystr; s_hosts : list Json; s_status : pystr }.

Record Snapshot := {
  result_id : pystr;
  text : pystr;
  owner : pystr;
  channel : pystr;
  tool : pystr;
  hosts : list Json;
  expires_at : Z;
  status : pystr;
  boundaries : list Z
}.

Record BinarySnapshot := {
  b_result_id : pystr;
  data : list Z;
  b_owner : pystr;
  b_channel : pystr;
  b_tool : pystr;
  b_hosts : list Json;
  b_expires_at : Z;
  b_status : pystr;
  media_type : pystr;
  content_index : Z;
  kind : pystr;
  sha256 : pystr
}.

(** A file to attach. *)
Record Attachment := { a_data : list Z; a_media_type : pystr; a_content_index : Z; a_kind : pystr }.

(** A row of [outputs] or [output_blobs] and its column [size]. *)
Record Row (T : Type) := { body : T; size : Z }.
Arguments body {T} _.
Arguments size {T} _.

Record Db := { outputs : gmap pystr (Row Snapshot); output_blobs : gmap pystr (Row BinarySnapshot) }.

Inductive RetentionError : Type :=
| NoScope | ResultQuota | GlobalQuota | BundleSize | ManifestQuota | NotUtf8 | StoreFailed
| InvalidCursor | Expired | Denied | InvalidOffset.

Record Quotas := { per_result_bytes : Z; global_bytes : Z }.

Definition DAY : Z := 86400 * 1000000.
Definition BLOB_OVERHEAD : Z := 512.

(** ** The tables *)

Definition expires (r : Row Snapshot) : Z := expires_at (body r).
Definition blob_expires (r : Row BinarySnapshot) : Z := b_expires_at (body r).

(** Every row as its expiry and its size. *)
Definition charges (db : Db) : list (Z * Z) :=
  ((λ kr, (expires kr.2, size kr.2)) <$> map_to_list (outputs db))
  ++ ((λ kr, (blob_expires kr.2, size kr.2)) <$> map_to_list (output_blobs db)).

Definition total (l : list (Z * Z)) : Z := foldr (λ es n, es.2 + n) 0 l.

Definition delete_where (P : Z → bool) (db : Db) : Db :=
  {| outputs := sql_delete (λ _ r, P (expires r)) (outputs db);
     output_blobs := sql_delete (λ _ r, P (blob_expires r)) (output_blobs db) |}.

Definition prune (now : Z) (db : Db) : Db := delete_where (λ e, e <=? now) db.

Definition used (now : Z) (db : Db) : Z := total (List.filter (λ es, now <? es.1) (charges db)).

(** [SELECT expires, SUM(size) ... GROUP BY expires ORDER BY expires] *)
Fixpoint add_charge (e n : Z) (cohorts : list (Z * Z)) : list (Z * Z) :=
  match cohorts with
  | [] => [(e, n)]
  | (e', n') :: rest =>
      if e <? e' then (e, n) :: cohorts
      else if e =? e' then (e', n + n') :: rest
      else (e', n') :: add_charge e n rest
  end.

Definition cohorts (now : Z) (db : Db) : list (Z * Z) :=
  foldr (λ es l, add_charge es.1 es.2 l) [] (List.filter (λ es, now <? es.1) (charges db)).

(** The expiries of the rows that are held. *)
Definition protected (holds : gmap pystr Z) (db : Db) : list Z :=
  ((λ kr, expires kr.2) <$> List.filter (λ kr, bool_decide (is_Some (holds !! kr.1))) (map_to_list (outputs db)))
  ++ ((λ kr, blob_expires kr.2) <$> List.filter (λ kr, bool_decide (is_Some (holds !! kr.1))) (map_to_list (output_blobs db))).

(** The loop over the cohorts: the victims, and what they free. *)
Fixpoint choose (keep : list Z) (excess : Z) (cs : list (Z * Z)) (freed : Z) : list Z * Z :=
  match cs with
  | [] => ([], freed)
  | (e, n) :: cs =>
      if bool_decide (e ∈ keep) then choose keep excess cs freed
      else if excess <=? freed + n then ([e], freed + n)
      else let '(victims, freed) := choose keep excess cs (freed + n) in (e :: victims, freed)
  end.

Section retention.
Context `{OutputText, Codec}.
Context (q : Quotas).

(** [_make_room]; [None] is the error that nothing is deleted for. *)
Definition make_room (holds : gmap pystr Z) (now charge : Z) (db : Db) : option Db :=
  let excess := used now db + charge - global_bytes q in
  if excess <=? 0 then Some db
  else
    let '(victims, freed) := choose (protected holds db) excess (cohorts now db) 0 in
    if freed <? excess then None else Some (delete_where (λ e, bool_decide (e ∈ victims)) db).

(** ** What is retained *)

Definition CHUNK : nat := Z.to_nat 65536.

(** The sizes of the encodings of a part, a chunk at a time; [fuel] exceeds its length. *)
Fixpoint encode_chunks (fuel : nat) (raw : Z) (part : pystr) : result RetentionError Z :=
  match fuel, part with
  | S fuel, _ :: _ =>
      match utf8_len (take CHUNK part) with
      | None => Err NotUtf8
      | Some n =>
          if per_result_bytes q <? raw + n then Err ResultQuota else encode_chunks fuel (raw + n) (drop CHUNK part)
      end
  | _, _ => Ok raw
  end.

Fixpoint encode_parts (raw : Z) (parts : list pystr) : result RetentionError Z :=
  match parts with
  | [] => Ok raw
  | part :: parts =>
      guard! negb (per_result_bytes q <? raw + Z.of_nat (length part)) else ResultQuota in
      let! raw := encode_chunks (S (length part)) raw part in
      encode_parts raw parts
  end.

(** [max(0, len(matches)-1)*2] *)
Definition separators (matches : list pystr) : Z := 2 * Z.max 0 (Z.of_nat (length matches) - 1).

(** ["\n\n".join(parts)], and the offset after each part with its separator. *)
Fixpoint joined (parts : list pystr) : pystr :=
  match parts with
  | [] => []
  | [part] => part
  | part :: parts => part ++ LF :: LF :: joined parts
  end.

Fixpoint ends_from (from : Z) (parts : list pystr) : list Z :=
  match parts with
  | [] => []
  | [part] => [from + Z.of_nat (length part)]
  | part :: parts => let n := from + Z.of_nat (length part) + 2 in n :: ends_from n parts
  end.

(** [retain] up to its transaction: the snapshot and its size. *)
Definition prepare_text (s : Scope) (output : pystr) (matches : list pystr) (now : Z) (id : pystr) : result RetentionError (Row Snapshot) :=
  guard! nonempty (s_owner s) else NoScope in
  let! raw := encode_parts (separators matches) (match matches with [] => [output] | _ => matches end) in
  guard! negb (global_bytes q <? raw) else GlobalQuota in
  let parts := scrub_output_secrets <$> matches in
  let stored := match matches with [] => scrub_output_secrets output | _ => joined parts end in
  match utf8_len stored with
  | None => Err NotUtf8
  | Some n =>
      guard! negb (per_result_bytes q <? n) else ResultQuota in
      Ok {| body := {| result_id := id; text := stored; owner := s_owner s; channel := s_channel s; tool := s_tool s;
                       hosts := s_hosts s; expires_at := now + DAY; status := s_status s; boundaries := ends_from 0 parts |};
            size := n |}
  end.

Definition blob_of (s : Scope) (now : Z) (id : pystr) (a : Attachment) : Row BinarySnapshot :=
  {| body := {| b_result_id := id; data := a_data a; b_owner := s_owner s; b_channel := s_channel s; b_tool := s_tool s;
                b_hosts := s_hosts s; b_expires_at := now + DAY; b_status := scrub_output_secrets (s_status s);
                media_type := scrub_output_secrets (a_media_type a); content_index := a_content_index a;
                kind := scrub_output_secrets (a_kind a); sha256 := sha256_hex (a_data a) |};
     size := Z.of_nat (length (a_data a)) + BLOB_OVERHEAD |}.

(** [binary_reference] of output_delivery.py. *)
Definition binary_reference (b : BinarySnapshot) : Json :=
  let str k v := (lit k, JStr v) in
  JDict [str "kind" (lit "tool_attachment"); str "retention" (lit "retained");
         str "status" (scrub_output_secrets (b_status b)); str "result_id" (b_result_id b);
         (lit "content_index", JInt (content_index b)); str "content_type" (scrub_output_secrets (kind b));
         str "media_type" (scrub_output_secrets (media_type b)); (lit "total_bytes", JInt (Z.of_nat (length (data b))));
         str "sha256" (sha256 b); str "expires_at" (isoformat (b_expires_at b));
         (lit "retrieval", JDict [str "tool" (lit "get_tool_output");
            (lit "arguments", JDict [str "cursor" (b_result_id b ++ lit ":0")])])].

Definition manifest_text (blobs : list (Row BinarySnapshot)) : pystr :=
  dumps_compact (JDict [(lit "attachments", JList ((λ r, binary_reference (body r)) <$> blobs))]).

(** [retain_binary_bundle] up to its transaction: the manifest and the files; [ids] are
    the new identifiers, one for each file. *)
Definition prepare_bundle (s : Scope) (attachments : list Attachment) (now : Z) (ids : list pystr) (id : pystr)
    : result RetentionError (Row Snapshot * list (Row BinarySnapshot)) :=
  guard! nonempty (s_owner s) else NoScope in
  guard! bool_decide (1 <= length attachments <= 64)%nat else BundleSize in
  guard! negb (per_result_bytes q <? foldr (λ a n, Z.of_nat (length (a_data a)) + n) 0 attachments) else ResultQuota in
  let blobs := zip_with (blob_of s now) ids attachments in
  match utf8_len (manifest_text blobs) with
  | None => Err NotUtf8
  | Some n =>
      guard! negb (per_result_bytes q <? n) else ManifestQuota in
      Ok ({| body := {| result_id := id; text := manifest_text blobs; owner := s_owner s; channel := s_channel s;
                        tool := s_tool s; hosts := s_hosts s; expires_at := now + DAY; status := s_status s;
                        boundaries := [] |}; size := n |}, blobs)
  end.

Definition charge_of (m : Row Snapshot) (blobs : list (Row BinarySnapshot)) : Z :=
  size m + foldr (λ b n, size b + n) 0 blobs.

(** ** The store and its callers *)

(** A call between the registration of its snapshot and its transaction. *)
Record Pending := { p_hold : option nat; p_now : Z; p_manifest : Row Snapshot; p_blobs : list (Row BinarySnapshot) }.

Record World := {
  db : Db;
  holds : gmap pystr Z;
  held : list (nat * list pystr);
  next_hold : nat;
  writing : list Pending
}.

Definition set_db (d : Db) (w : World) : World :=
  {| db := d; holds := holds w; held := held w; next_hold := next_hold w; writing := writing w |}.
Definition set_holds (hs : gmap pystr Z) (l : list (nat * list pystr)) (n : nat) (w : World) : World :=
  {| db := db w; holds := hs; held := l; next_hold := n; writing := writing w |}.
Definition set_writing (ps : list Pending) (w : World) : World :=
  {| db := db w; holds := holds w; held := held w; next_hold := next_hold w; writing := ps |}.

Definition hold_count (w : World) (id : pystr) : Z := default 0 (holds w !! id).

(** [hold()] on entry. *)
Definition open_hold (w : World) : World := set_holds (holds w) (held w ++ [(next_hold w, [])]) (S (next_hold w)) w.

(** [_hold]: without a hold nothing is registered. *)
Definition register (hold : option nat) (id : pystr) (w : World) : World :=
  match hold with
  | None => w
  | Some h => set_holds (<[id := hold_count w id + 1]> (holds w))
                ((λ hl, if bool_decide (hl.1 = h) then (hl.1, hl.2 ++ [id]) else hl) <$> held w) (next_hold w) w
  end.

Definition release_one (hs : gmap pystr Z) (id : pystr) : gmap pystr Z :=
  let remaining := default 0 (hs !! id) - 1 in
  if 0 <? remaining then <[id := remaining]> hs else delete id hs.

(** [hold()] on exit. *)
Definition close_hold (h : nat) (w : World) : World :=
  let ids := List.filter (λ hl, bool_decide (hl.1 = h)) (held w) ≫= snd in
  set_holds (foldl release_one (holds w) ids) (List.filter (λ hl, negb (bool_decide (hl.1 = h))) (held w)) (next_hold w) w.

Definition begin_write (p : Pending) (w : World) : World :=
  let w := register (p_hold p) (result_id (body (p_manifest p))) w in set_writing (writing w ++ [p]) w.

Fixpoint insert_blobs (bs : list (Row BinarySnapshot)) (t : gmap pystr (Row BinarySnapshot)) : option (gmap pystr (Row BinarySnapshot)) :=
  match bs with
  | [] => Some t
  | b :: bs => t ← sql_insert (b_result_id (body b)) b t; insert_blobs bs t
  end.

(** The transaction: whatever raises inside it is rolled back. *)
Definition transaction (w : World) (p : Pending) : result RetentionError Db :=
  match make_room (holds w) (p_now p) (charge_of (p_manifest p) (p_blobs p)) (prune (p_now p) (db w)) with
  | None => Err GlobalQuota
  | Some d =>
      match insert_blobs (p_blobs p) (output_blobs d), sql_insert (result_id (body (p_manifest p))) (p_manifest p) (outputs d) with
      | Some blobs, Some texts => Ok {| outputs := texts; output_blobs := blobs |}
      | _, _ => Err StoreFailed
      end
  end.

(** [io]: whether the database could be opened, locked and written. *)
Definition finish_write (i : nat) (io : bool) (w : World) : World * result RetentionError (Row Snapshot) :=
  match writing w !! i with
  | None => (w, Err StoreFailed)
  | Some p =>
      let w := set_writing (delete i (writing w)) w in
      if io then
        match transaction w p with
        | Ok d => (set_db d w, Ok (p_manifest p))
        | Err e => (w, Err e)
        end
      else (w, Err StoreFailed)
  end.

(** ** Reading *)

(** [int(s)], of ASCII digits. *)
Fixpoint digits (n : option Z) (s : pystr) : option Z :=
  match s with
  | [] => n
  | c :: s =>
      if (48 <=? c) && (c <=? 57) then digits (Some (10 * default 0 n + (c - 48))) s
      else if c =? 95 then match n, s with Some _, d :: _ => if d =? 95 then None else digits n s | _, _ => None end
      else None
  end.
Definition int_of (s : pystr) : option Z :=
  match strip s with
  | 45 :: s => Z.opp <$> digits None s
  | 43 :: s => digits None s
  | s => digits None s
  end.

Definition hex_digit (c : Z) : bool := ((48 <=? c) && (c <=? 57)) || ((97 <=? c) && (c <=? 102)).

Definition parse_cursor (cursor : pystr) : option (pystr * Z) :=
  match PyStr.split 58 cursor with
  | [id; raw] => if bool_decide (length id = 32%nat) && forallb hex_digit id then (λ n, (id, n)) <$> int_of raw else None
  | _ => None
  end.

Inductive Retained : Type := RetainedText (s : Snapshot) | RetainedFile (b : BinarySnapshot).

Definition meta (d : Db) (id : pystr) : option (pystr * pystr * pystr * list Json * Z * Retained) :=
  match outputs d !! id with
  | Some r => Some (owner (body r), channel (body r), tool (body r), hosts (body r), expires r, RetainedText (body r))
  | None =>
      (λ r, (b_owner (body r), b_channel (body r), b_tool (body r), b_hosts (body r), blob_expires r, RetainedFile (body r)))
        <$> output_blobs d !! id
  end.

Definition extent (r : Retained) : Z :=
  match r with RetainedText s => Z.of_nat (length (text s)) | RetainedFile b => Z.of_nat (length (data b)) end.

(** [now] and [later] are the two readings of the clock. *)
Definition read (cursor who where_ : pystr) (authorize : pystr → list Json → bool) (now later : Z) (io : bool) (w : World)
    : World * result RetentionError (Retained * Z) :=
  match parse_cursor cursor with
  | None => (w, Err InvalidCursor)
  | Some (id, offset) =>
      if negb io then (w, Err StoreFailed)
      else
        let d := prune now (db w) in
        (set_db d w,
         match meta d id with
         | None => Err Expired
         | Some (own, chan, tl, hs, e, r) =>
             if e <=? later then Err Expired
             else if negb (nonempty who) || negb (bool_decide (own = who ∧ chan = where_)) || negb (authorize tl hs) then Err Denied
             else if (offset <? 0) || (extent r <? offset) then Err InvalidOffset
             else Ok (r, offset)
         end)
  end.

(** ** Steps *)

Inductive Op : Type :=
| OpOpen
| OpClose (h : nat)
| OpRetain (hold : option nat) (s : Scope) (output : pystr) (matches : list pystr) (now : Z) (id : pystr)
| OpBundle (hold : option nat) (s : Scope) (attachments : list Attachment) (now : Z) (ids : list pystr) (id : pystr)
| OpWrite (i : nat) (io : bool)
| OpRead (cursor who where_ : pystr) (authorize : pystr → list Json → bool) (now later : Z) (io : bool).

(** A call can only name a hold that was opened. *)
Definition known_hold (w : World) (hold : option nat) : bool :=
  match hold with Some h => bool_decide (h < next_hold w)%nat | None => true end.

Definition step (w : World) (op : Op) : World :=
  match op with
  | OpOpen => open_hold w
  | OpClose h => close_hold h w
  | OpRetain hold s output matches now id =>
      match prepare_text s output matches now id with
      | Ok m => if known_hold w hold then begin_write {| p_hold := hold; p_now := now; p_manifest := m; p_blobs := [] |} w else w
      | Err _ => w
      end
  | OpBundle hold s attachments now ids id =>
      match prepare_bundle s attachments now ids id with
      | Ok (m, bs) => if known_hold w hold then begin_write {| p_hold := hold; p_now := now; p_manifest := m; p_blobs := bs |} w else w
      | Err _ => w
      end
  | OpWrite i io => (finish_write i io w).1
  | OpRead cursor who where_ authorize now later io => (read cursor who where_ authorize now later io w).1
  end.

Definition empty_world : World :=
  {| db := {| outputs := ∅; output_blobs := ∅ |}; holds := ∅; held := []; next_hold := 0; writing := [] |}.

End retention.

(** ** Charges and cohorts *)

Section theory.

Lemma total_app l l' : total (l ++ l') = total l + total l'.
Proof. unfold total. induction l as [|es l IH]; cbn; lia. Qed.

#[export] Instance total_perm : Proper (Permutation ==> eq) total.
Proof. unfold total. induction 1; cbn; lia. Qed.

Lemma filter_perm {A} (f : A → bool) l l' : l ≡ₚ l' → List.filter f l ≡ₚ List.filter f l'.
Proof.
  induction 1 as [|x l l' _ IH|x y l|l l' l'' _ IH _ IH']; cbn; [done| | |by etrans].
  - destruct (f x); [by constructor|done].
  - destruct (f x), (f y); try done. by constructor.
Qed.

Lemma filter_twice {A} (f g : A → bool) l : List.filter f (List.filter g l) = List.filter (λ x, f x && g x) l.
Proof. induction l as [|x l IH]; cbn; [done|]. destruct (g x); cbn; [destruct (f x); cbn; by rewrite IH|]. by rewrite andb_false_r. Qed.

Lemma map_delete_perm {V} (P : V → bool) (m : gmap pystr V) :
  map_to_list (sql_delete (λ _, P) m) ≡ₚ List.filter (λ kv, negb (P kv.2)) (map_to_list m).
Proof.
  apply NoDup_Permutation; [apply NoDup_map_to_list|apply NoDup_ListNoDup, List.NoDup_filter, NoDup_ListNoDup, NoDup_map_to_list|].
  intros [k v]. rewrite elem_of_map_to_list, lookup_sql_delete, list_elem_of_In, filter_In, <- list_elem_of_In, elem_of_map_to_list. cbn.
  destruct (m !! k) as [v'|]; cbn; [|by split; [|intros []]]. destruct (P v') eqn:HP; [|split; [by intros [= ->]; rewrite HP|by intros []]].
  split; [done|]. intros [[= ->] Hn]. by rewrite HP in Hn.
Qed.

Lemma filter_fmap {A B} (g : A → B) (f : B → bool) l : List.filter f (g <$> l) = g <$> List.filter (λ x, f (g x)) l.
Proof. induction l as [|x l IH]; cbn; [done|]. destruct (f (g x)); cbn; by rewrite <- IH. Qed.

Lemma charges_delete P d : charges (delete_where P d) ≡ₚ List.filter (λ es, negb (P es.1)) (charges d).
Proof.
  unfold charges, delete_where. cbn [outputs output_blobs]. rewrite List.filter_app, !filter_fmap.
  by rewrite (map_delete_perm (λ r, P (expires r))), (map_delete_perm (λ r, P (blob_expires r))).
Qed.

Lemma total_filter_split f l : total l = total (List.filter f l) + total (List.filter (λ es, negb (f es)) l).
Proof. induction l as [|es l IH]; cbn; [done|]. unfold total in *. destruct (f es); cbn; lia. Qed.

Lemma filter_all {A} (f : A → bool) l : Forall (λ x, f x = true) l → List.filter f l = l.
Proof. induction 1 as [|x l Hx _ IH]; cbn; [done|]. by rewrite Hx, IH. Qed.

(** Summing by cohort loses no charge, whatever cohorts are counted. *)
Lemma add_charge_total (f : Z → bool) e n cs :
  total (List.filter (λ es, f es.1) (add_charge e n cs)) = (if f e then n else 0) + total (List.filter (λ es, f es.1) cs).
Proof.
  induction cs as [|[e' n'] cs IH]; cbn [add_charge]; [cbn; destruct (f e); cbn; lia|].
  destruct (e <? e'); [cbn; destruct (f e); cbn; lia|]. destruct (Z.eqb_spec e e') as [->|Hne].
  - cbn. destruct (f e'); cbn; fold (total (List.filter (λ es, f es.1) cs)); lia.
  - cbn. destruct (f e'); cbn; unfold total in *; lia.
Qed.

Lemma add_charge_sorted e n cs : StronglySorted Z.lt cs.*1 →
  StronglySorted Z.lt (add_charge e n cs).*1 ∧ (∀ x, x ∈ (add_charge e n cs).*1 ↔ x = e ∨ x ∈ cs.*1).
Proof.
  induction cs as [|[e' n'] cs IH]; cbn [add_charge]; intros Hs.
  { split; [by repeat constructor|]. intros x. cbn. rewrite !elem_of_cons. tauto. }
  cbn in Hs. apply StronglySorted_inv in Hs as [Hs Hall]. destruct (Z.ltb_spec e e').
  { split; [|intros x; cbn; rewrite !elem_of_cons; tauto]. cbn. constructor; [by constructor|]. constructor; [done|].
    eapply Forall_impl; [exact Hall|]. cbn. lia. }
  destruct (Z.eqb_spec e e') as [->|Hne]; [split; [by constructor|intros x; cbn; rewrite !elem_of_cons; tauto]|].
  destruct (IH Hs) as [Hs' Hin]. split; [|intros x; cbn; rewrite !elem_of_cons, Hin; tauto]. cbn. constructor; [done|].
  apply Forall_forall. intros x [->|Hx]%Hin; [lia|]. rewrite Forall_forall in Hall. by apply Hall.
Qed.

Lemma cohorts_spec now d :
  StronglySorted Z.lt (cohorts now d).*1
  ∧ (∀ x, x ∈ (cohorts now d).*1 ↔ now < x ∧ x ∈ (charges d).*1)
  ∧ (∀ f, total (List.filter (λ es, f es.1) (cohorts now d)) = total (List.filter (λ es, f es.1 && (now <? es.1)) (charges d))).
Proof.
  unfold cohorts. induction (charges d) as [|[e n] l IH]; cbn [List.filter fst].
  { cbn. split_and!; [constructor| |done]. intros x. split; [intros Hx|intros [_ Hx]]; by apply not_elem_of_nil in Hx. }
  destruct IH as (Hs & Hin & Htot). destruct (Z.ltb_spec now e) as [Hlt|Hge]; cbn [foldr fst snd].
  - destruct (add_charge_sorted e n _ Hs) as [Hs' Hin']. split_and!; [done| |].
    + intros x. rewrite Hin', Hin. cbn. rewrite elem_of_cons. naive_solver lia.
    + intros f. rewrite add_charge_total, Htot. rewrite andb_true_r. by destruct (f e).
  - split_and!; [done| |].
    + intros x. rewrite Hin. cbn. rewrite elem_of_cons. naive_solver lia.
    + intros f. rewrite Htot. by rewrite andb_false_r.
Qed.

(** The loop over the cohorts takes the oldest that are not held, no more than needed. *)
Lemma choose_spec keep excess cs freed : StronglySorted Z.lt cs.*1 → freed < excess →
  let '(victims, freed') := choose keep excess cs freed in
  freed' = freed + total (List.filter (λ es, bool_decide (es.1 ∈ victims)) cs)
  ∧ (∀ e, e ∈ victims → e ∈ cs.*1 ∧ e ∉ keep)
  ∧ (∀ e e', e ∈ victims → e' ∈ cs.*1 → e' ∉ keep → e' <= e → e' ∈ victims)
  ∧ (freed' < excess → ∀ e, e ∈ cs.*1 → e ∉ keep → e ∈ victims)
  ∧ (excess <= freed' → ∃ vs v, victims = vs ++ [v]
       ∧ freed + total (List.filter (λ es, bool_decide (es.1 ∈ vs)) cs) < excess).
Proof.
  revert freed. induction cs as [|[e n] cs IH]; cbn [choose]; intros freed Hs Hlt.
  { cbn. split_and!; [lia|by intros x Hx; apply not_elem_of_nil in Hx|by intros x y Hx; apply not_elem_of_nil in Hx
      |by intros _ x Hx; apply not_elem_of_nil in Hx|lia]. }
  cbn in Hs. apply StronglySorted_inv in Hs as [Hs Hall]. rewrite Forall_forall in Hall.
  assert (∀ vs : list Z, List.filter (λ es : Z * Z, bool_decide (es.1 ∈ e :: vs)) cs
    = List.filter (λ es, bool_decide (es.1 ∈ vs)) cs) as Hskip.
  { intros vs. apply List.filter_ext_in. intros [x m] Hx%list_elem_of_In. cbn. apply bool_decide_ext. rewrite elem_of_cons.
    split; [|tauto]. intros [->|]; [|done]. apply (list_elem_of_fmap_2 fst), Hall in Hx. cbn in Hx. lia. }
  case_bool_decide as Hkeep.
  - specialize (IH freed Hs Hlt). destruct (choose keep excess cs freed) as [vs freed']. destruct IH as (-> & Hin & Hold & Hno & Hmin).
    assert (e ∉ vs) as Hne by (intros He; by apply Hin in He as [_ ?]).
    assert (∀ us : list Z, e ∉ us → List.filter (λ es : Z * Z, bool_decide (es.1 ∈ us)) ((e, n) :: cs) = List.filter (λ es, bool_decide (es.1 ∈ us)) cs) as Hcons.
    { intros us Hus. cbn. by rewrite bool_decide_eq_false_2. }
    rewrite Hcons by done. split_and!; [done| | | |].
    + intros x Hx. destruct (Hin x Hx). cbn. rewrite elem_of_cons. tauto.
    + intros x y Hx Hy Hyk Hle. cbn in Hy. apply elem_of_cons in Hy as [->|Hy]; [done|]. by apply (Hold x y).
    + intros Hf x Hx Hxk. cbn in Hx. apply elem_of_cons in Hx as [->|Hx]; [done|]. by apply Hno.
    + intros Hf. destruct (Hmin Hf) as (us & v & -> & Hus). exists us, v. split; [done|]. rewrite Hcons; [done|]. set_solver.
  - destruct (Z.leb_spec excess (freed + n)).
    + split_and!.
      * cbn [List.filter fst]. rewrite bool_decide_eq_true_2 by (by apply list_elem_of_singleton).
        rewrite (Hskip []).
        rewrite (List.filter_ext_in _ (λ _, false)); [|intros x _; apply bool_decide_eq_false_2, not_elem_of_nil]. rewrite List.filter_false. cbn. lia.
      * intros x ->%list_elem_of_singleton. cbn. rewrite elem_of_cons. tauto.
      * intros x y ->%list_elem_of_singleton Hy _ Hle. cbn in Hy. apply elem_of_cons in Hy as [->|Hy]; [by apply list_elem_of_singleton|].
        apply Hall in Hy. lia.
      * lia.
      * intros _. exists [], e. split; [done|]. rewrite (List.filter_ext_in _ (λ _, false)); [|intros x _; apply bool_decide_eq_false_2, not_elem_of_nil].
        rewrite List.filter_false. cbn. lia.
    + specialize (IH (freed + n) Hs ltac:(lia)). destruct (choose keep excess cs (freed + n)) as [vs freed'].
      destruct IH as (-> & Hin & Hold & Hno & Hmin).
      assert (∀ us : list Z, total (List.filter (λ es : Z * Z, bool_decide (es.1 ∈ e :: us)) ((e, n) :: cs))
        = n + total (List.filter (λ es, bool_decide (es.1 ∈ us)) cs)) as Hcons.
      { intros us. cbn [List.filter fst]. rewrite bool_decide_eq_true_2 by (rewrite elem_of_cons; tauto). cbn. f_equal.
        by rewrite Hskip. }
      rewrite Hcons. split_and!; [lia| | | |].
      * intros x Hx. cbn. rewrite elem_of_cons. apply elem_of_cons in Hx as [->|Hx]; [tauto|]. destruct (Hin x Hx). tauto.
      * intros x y Hx Hy Hyk Hle. cbn in Hy. rewrite elem_of_cons. apply elem_of_cons in Hy as [->|Hy]; [tauto|]. right.
        apply elem_of_cons in Hx as [->|Hx]; [apply Hall in Hy; lia|]. by apply (Hold x y).
      * intros Hf x Hx Hxk. cbn in Hx. rewrite elem_of_cons. apply elem_of_cons in Hx as [->|Hx]; [tauto|]. right. by apply Hno.
      * intros Hf. destruct (Hmin Hf) as (us & v & -> & Hus). exists (e :: us), v. split; [done|]. rewrite Hcons. lia.
Qed.

(** ** Making room *)

Context `{OutputText, Codec}.
Context (q : Quotas).

Lemma used_delete now P d :
  used now (delete_where P d) = used now d - total (List.filter (λ es, P es.1 && (now <? es.1)) (charges d)).
Proof.
  unfold used. rewrite (filter_perm _ _ _ (charges_delete P d)), filter_twice.
  rewrite (total_filter_split (λ es, P es.1) (List.filter (λ es, now <? es.1) (charges d))), !filter_twice.
  rewrite (List.filter_ext (λ x : Z * Z, (now <? x.1) && negb (P x.1)) (λ x, negb (P x.1) && (now <? x.1))) by (intros; apply andb_comm). lia.
Qed.

(** A new snapshot makes room by dropping whole cohorts, the oldest first, none of
    them held and none that it does not need; it is refused only if dropping every
    cohort that is not held would not be enough. *)
Lemma room_is_made_by_the_oldest held_ids now charge d :
  let keep := protected held_ids d in
  let live e := bool_decide (e ∈ (charges d).*1) && (now <? e) in
  match make_room q held_ids now charge d with
  | Some d' => used now d' + charge <= global_bytes q
      ∧ ∃ victims, d' = (if bool_decide (victims = []) then d else delete_where (λ e, bool_decide (e ∈ victims)) d)
          ∧ (∀ e, e ∈ victims → live e = true ∧ e ∉ keep)
          ∧ (∀ e e', e ∈ victims → live e' = true → e' ∉ keep → e' <= e → e' ∈ victims)
          ∧ (victims = [] ∨ ∃ vs v, victims = vs ++ [v]
               ∧ global_bytes q < used now (delete_where (λ e, bool_decide (e ∈ vs)) d) + charge)
  | None => global_bytes q < used now (delete_where (λ e, negb (bool_decide (e ∈ keep))) d) + charge
  end.
Proof.
  cbv zeta. unfold make_room. destruct (Z.leb_spec (used now d + charge - global_bytes q) 0) as [Hle|Hlt].
  { split; [lia|]. exists []. split_and!; [done|by intros e He; apply not_elem_of_nil in He|by intros e e' He; apply not_elem_of_nil in He|by left]. }
  destruct (cohorts_spec now d) as (Hs & Hin & Htot).
  pose proof (choose_spec (protected held_ids d) (used now d + charge - global_bytes q) (cohorts now d) 0 Hs Hlt) as Hc.
  destruct (choose _ _ _ 0) as [victims freed]. destruct Hc as (-> & Hv & Hold & Hno & Hmin). rewrite Z.add_0_l in *.
  pose proof (Htot (λ e, bool_decide (e ∈ victims))) as Hf. cbv beta in Hf. rewrite Hf in Hno, Hmin |- *.
  assert (∀ e, bool_decide (e ∈ (charges d).*1) && (now <? e) = true ↔ e ∈ (cohorts now d).*1) as Hlive.
  { intros e. rewrite andb_true_iff, bool_decide_eq_true, Z.ltb_lt, Hin. tauto. }
  destruct (Z.ltb_spec (total (List.filter (λ es, bool_decide (es.1 ∈ victims) && (now <? es.1)) (charges d))) (used now d + charge - global_bytes q)) as [Hfew|Hmany].
  - rewrite used_delete. enough (total (List.filter (λ es, negb (bool_decide (es.1 ∈ protected held_ids d)) && (now <? es.1)) (charges d))
      = total (List.filter (λ es, bool_decide (es.1 ∈ victims) && (now <? es.1)) (charges d))) by lia.
    f_equal. apply List.filter_ext_in. intros [e n] He%list_elem_of_In. cbn. destruct (Z.ltb_spec now e); [|by rewrite !andb_false_r].
    rewrite !andb_true_r. apply (list_elem_of_fmap_2 fst) in He. cbn in He. apply eq_true_iff_eq.
    rewrite negb_true_iff, bool_decide_eq_false, bool_decide_eq_true. split; [intros Hk; apply Hno; [lia|by apply Hin|done]|by intros [_ ?]%Hv].
  - assert (victims ≠ []) as Hne.
    { intros ->. rewrite (List.filter_ext_in _ (λ _, false)), List.filter_false in Hmany; [cbn in Hmany; lia|].
      intros x _. apply andb_false_iff. left. apply bool_decide_eq_false_2, not_elem_of_nil. }
    split; [rewrite used_delete; lia|]. exists victims. rewrite bool_decide_eq_false_2 by done. split_and!; [done| | |].
    + intros e He. rewrite Hlive. by apply Hv.
    + intros e e' He He' Hk Hle. rewrite Hlive in He'. by apply (Hold e e').
    + right. destruct (Hmin ltac:(lia)) as (vs & v & -> & Hvs). exists vs, v. split; [done|]. rewrite used_delete.
      pose proof (Htot (λ e, bool_decide (e ∈ vs))) as Hf'. cbv beta in Hf'. lia.
Qed.

(** ** The quota along a run *)

Definition all_live (now : Z) (d : Db) : Prop := Forall (λ es, now < es.1) (charges d).

Lemma all_live_used now d : all_live now d → used now d = total (charges d).
Proof. intros Hd. unfold used. rewrite filter_all; [done|]. eapply Forall_impl; [exact Hd|]. intros es Hes. by apply Z.ltb_lt. Qed.

Lemma all_live_delete now P d : all_live now d → all_live now (delete_where P d).
Proof.
  unfold all_live. rewrite (charges_delete P d), !Forall_forall. intros Hd es Hes. apply Hd. apply list_elem_of_In, filter_In in Hes as [Hes _].
  by apply list_elem_of_In.
Qed.

Lemma prune_live now d : all_live now (prune now d).
Proof.
  unfold all_live, prune. rewrite charges_delete, Forall_forall. intros es Hes. apply list_elem_of_In, filter_In in Hes as [_ Hes].
  apply negb_true_iff, Z.leb_gt in Hes. done.
Qed.

Lemma total_filter_le f l : Forall (λ es : Z * Z, 0 <= es.2) l → total (List.filter f l) <= total l.
Proof. unfold total. induction 1 as [|es l Hes _ IH]; cbn; [done|]. destruct (f es); cbn; lia. Qed.

Lemma insert_blobs_spec bs t t' : insert_blobs bs t = Some t' →
  (∀ k r, t !! k = Some r → t' !! k = Some r)
  ∧ (∀ k r, t' !! k = Some r → t !! k = Some r ∨ k = b_result_id (body r) ∧ r ∈ bs)
  ∧ (∀ b, b ∈ bs → t' !! b_result_id (body b) = Some b)
  ∧ total ((λ kr, (blob_expires kr.2, size kr.2)) <$> map_to_list t')
    = total ((λ kr, (blob_expires kr.2, size kr.2)) <$> map_to_list t) + foldr (λ b n, size b + n) 0 bs.
Proof.
  revert t. induction bs as [|b bs IH]; cbn [insert_blobs foldr]; intros t Hins.
  { injection Hins as <-. split_and!; [done|by left|by intros b Hb; apply not_elem_of_nil in Hb|lia]. }
  destruct (sql_insert _ b t) as [t1|] eqn:Ht1; [|discriminate Hins]. cbn in Hins. apply sql_insert_Some in Ht1 as [Hnone ->].
  destruct (IH _ Hins) as (Hkeep & Hback & Hin & Htot). split_and!.
  - intros k r Hk. apply Hkeep. rewrite lookup_insert_ne; [done|]. intros <-. congruence.
  - intros k r [Hk|[Hid Hk]]%Hback; [|right; split; [done|by apply elem_of_cons; right]].
    apply lookup_insert_Some in Hk as [[<- <-]|[_ Hk]]; [right; split; [done|by apply elem_of_cons; left]|by left].
  - intros b' [->|Hb']%elem_of_cons; [apply Hkeep, lookup_insert_eq|by apply Hin].
  - rewrite Htot, (map_to_list_insert _ _ _ Hnone). cbn. unfold total. lia.
Qed.

Lemma total_insert_text id (m : Row Snapshot) t blobs : t !! id = None →
  total (charges {| outputs := <[id := m]> t; output_blobs := blobs |}) = size m + total (charges {| outputs := t; output_blobs := blobs |}).
Proof. intros Hnone. unfold charges. cbn [outputs output_blobs]. rewrite (map_to_list_insert _ _ _ Hnone). done. Qed.

(** A transaction that commits adds its rows to some that fit beside them. *)
Lemma transaction_spec w p d : transaction q w p = Ok d → 0 <= global_bytes q →
  ∃ d1, make_room q (holds w) (p_now p) (charge_of (p_manifest p) (p_blobs p)) (prune (p_now p) (db w)) = Some d1
  ∧ total (charges d) <= global_bytes q
  ∧ (∀ k r, outputs d !! k = Some r ↔ outputs d1 !! k = Some r ∨ k = result_id (body (p_manifest p)) ∧ r = p_manifest p)
  ∧ (∀ k r, output_blobs d1 !! k = Some r → output_blobs d !! k = Some r)
  ∧ (∀ k r, output_blobs d !! k = Some r → output_blobs d1 !! k = Some r ∨ k = b_result_id (body r) ∧ r ∈ p_blobs p)
  ∧ (∀ b, b ∈ p_blobs p → output_blobs d !! b_result_id (body b) = Some b).
Proof.
  unfold transaction. intros Hd Hg. set (m := p_manifest p) in *. set (d0 := prune (p_now p) (db w)) in *.
  pose proof (room_is_made_by_the_oldest (holds w) (p_now p) (charge_of m (p_blobs p)) d0) as Hroom. cbv zeta in Hroom.
  destruct (make_room _ _ _ _ d0) as [d1|]; [|discriminate Hd]. exists d1. split; [done|].
  assert (all_live (p_now p) d1) as Hlive.
  { destruct Hroom as (_ & vs & -> & _). case_bool_decide; [apply prune_live|apply all_live_delete, prune_live]. }
  destruct Hroom as [Hroom _]. rewrite (all_live_used _ _ Hlive) in Hroom.
  destruct (insert_blobs _ _) as [blobs|] eqn:Hb; [|discriminate Hd]. destruct (sql_insert _ _ _) as [texts|] eqn:Ht; [|discriminate Hd].
  injection Hd as <-. apply sql_insert_Some in Ht as [Hnone ->]. destruct (insert_blobs_spec _ _ _ Hb) as (Hkeep & Hback & Hin & Htot).
  rewrite total_insert_text by done. cbn [outputs output_blobs]. split_and!; [|intros k r|done..].
  - unfold charges, charge_of in *. cbn [outputs output_blobs]. rewrite total_app in *. lia.
  - rewrite lookup_insert_Some. split; [intros [[-> ->]|[_ Hk]]; tauto|]. intros [Hk|[-> ->]]; [|tauto]. right. split; [|done]. intros <-. congruence.
Qed.

Definition text_ok (r : Row Snapshot) : Prop := utf8_len (text (body r)) = Some (size r) ∧ size r <= per_result_bytes q.
Definition blob_ok (r : Row BinarySnapshot) : Prop :=
  size r = Z.of_nat (length (data (body r))) + BLOB_OVERHEAD ∧ Z.of_nat (length (data (body r))) <= per_result_bytes q.

(** What a call prepares: one cohort within the quota of a result. *)
Record prepared (p : Pending) : Prop := {
  pr_owner : nonempty (owner (body (p_manifest p))) = true;
  pr_text : text_ok (p_manifest p);
  pr_blobs b : b ∈ p_blobs p → blob_ok b;
  pr_expires : expires (p_manifest p) = p_now p + DAY;
  pr_cohort b : b ∈ p_blobs p → blob_expires b = p_now p + DAY
}.

Lemma prepare_text_prepared hold s output matches now id m : prepare_text q s output matches now id = Ok m →
  prepared {| p_hold := hold; p_now := now; p_manifest := m; p_blobs := [] |}.
Proof.
  unfold prepare_text. intros Hm. inv_result.
  bool_prop. split; cbn; [done|split; cbn; [done|lia]|by intros b Hb; apply not_elem_of_nil in Hb|done|by intros b Hb; apply not_elem_of_nil in Hb].
Qed.

Lemma data_within (attachments : list Attachment) a n : foldr (λ a n, Z.of_nat (length (a_data a)) + n) 0 attachments <= n →
  a ∈ attachments → Z.of_nat (length (a_data a)) <= n.
Proof.
  assert (∀ l, 0 <= foldr (λ a n, Z.of_nat (length (a_data a)) + n) 0 l) as Hpos by (induction l; cbn; lia).
  revert n. induction attachments as [|b l IH]; cbn; intros n Hn Ha; [by apply not_elem_of_nil in Ha|]. specialize (Hpos l).
  apply elem_of_cons in Ha as [->|Ha]; [lia|]. apply IH; [lia|done].
Qed.

Lemma prepare_bundle_prepared hold s attachments now ids id m bs : prepare_bundle q s attachments now ids id = Ok (m, bs) →
  prepared {| p_hold := hold; p_now := now; p_manifest := m; p_blobs := bs |}.
Proof.
  unfold prepare_bundle. intros Hm. inv_result.
  bool_prop. assert (∀ b, b ∈ zip_with (blob_of s now) ids attachments → ∃ a i, a ∈ attachments ∧ b = blob_of s now i a) as Hz.
  { intros b (j & i & a & -> & _ & Ha)%elem_of_lookup_zip_with. exists a, i. split; [by eapply list_elem_of_lookup_2|done]. }
  split; cbn; [done|split; cbn; [done|lia]| |done|by intros b (a & i & Ha & ->)%Hz].
  intros b (a & i & Ha & ->)%Hz. split; [done|]. cbn. by apply (data_within attachments).
Qed.

Record within (w : World) : Prop := {
  wi_total : total (charges (db w)) <= global_bytes q;
  wi_text id r : outputs (db w) !! id = Some r → text_ok r;
  wi_blob id r : output_blobs (db w) !! id = Some r → blob_ok r;
  wi_writing p : p ∈ writing w → prepared p
}.

Lemma delete_where_text P d id r : outputs (delete_where P d) !! id = Some r ↔ outputs d !! id = Some r ∧ P (expires r) = false.
Proof.
  cbn. rewrite lookup_sql_delete. destruct (outputs d !! id) as [r'|]; cbn; [|by split; [|intros []]].
  destruct (P (expires r')) eqn:HP; split; try done; [by intros [[= ->] ?]; congruence|by intros [= ->]|by intros []].
Qed.

Lemma delete_where_blob P d id r : output_blobs (delete_where P d) !! id = Some r ↔ output_blobs d !! id = Some r ∧ P (blob_expires r) = false.
Proof.
  cbn. rewrite lookup_sql_delete. destruct (output_blobs d !! id) as [r'|]; cbn; [|by split; [|intros []]].
  destruct (P (blob_expires r')) eqn:HP; split; try done; [by intros [[= ->] ?]; congruence|by intros [= ->]|by intros []].
Qed.

Lemma utf8_width_sum s : 0 <= foldr (λ c n, utf8_width c + n) 0 s.
Proof.
  induction s as [|c s IH]; cbn; [lia|]. assert (0 < utf8_width c) by (unfold utf8_width; repeat case_match; lia). lia.
Qed.

Lemma charges_nonneg w : within w → Forall (λ es, 0 <= es.2) (charges (db w)).
Proof.
  intros Hw. apply Forall_forall. intros es Hes. unfold charges in Hes. apply elem_of_app in Hes as [Hes|Hes];
    apply list_elem_of_fmap in Hes as ([k r] & -> & Hk); apply elem_of_map_to_list in Hk; cbn.
  - destruct (wi_text w Hw _ _ Hk) as [Hlen _]. unfold utf8_len in Hlen. case_match; [done|]. injection Hlen as <-.
    apply utf8_width_sum.
  - destruct (wi_blob w Hw _ _ Hk) as [-> _]. unfold BLOB_OVERHEAD. lia.
Qed.

Lemma within_delete P w : within w → within (set_db (delete_where P (db w)) w).
Proof.
  intros Hw. pose proof (charges_nonneg w Hw) as Hpos. destruct Hw as [Htot Ht Hb Hp]. split; cbn [db set_db writing]; [| | |done].
  - rewrite charges_delete. etrans; [apply total_filter_le|]; done.
  - intros id r [Hr _]%delete_where_text. by apply (Ht id).
  - intros id r [Hr _]%delete_where_blob. by apply (Hb id).
Qed.

(** What making room leaves is what was there, but for some cohorts that are not held. *)
Lemma make_room_deletes hs now charge d d' : make_room q hs now charge d = Some d' →
  ∃ P, (∀ e, P e = true → e ∉ protected hs d) ∧ d' = delete_where P d ∨ d' = d.
Proof.
  intros Hroom. pose proof (room_is_made_by_the_oldest hs now charge d) as Hspec. cbv zeta in Hspec. rewrite Hroom in Hspec.
  destruct Hspec as (_ & vs & -> & Hvs & _). exists (λ e, bool_decide (e ∈ vs)). case_bool_decide; [by right|left]. split; [|done].
  intros e He%bool_decide_eq_true. by apply Hvs.
Qed.

Lemma within_writes w d p : within w → p ∈ writing w → 0 <= global_bytes q → transaction q w p = Ok d → within (set_db d w).
Proof.
  intros Hw Hp Hg Hd. destruct (transaction_spec w p d Hd Hg) as (d1 & Hroom & Htot & Ht & _ & Hb & _).
  assert (within (set_db d1 w)) as Hw1.
  { pose proof (within_delete (λ e, e <=? p_now p) w Hw) as Hw0. fold (prune (p_now p) (db w)) in Hw0.
    destruct (make_room_deletes _ _ _ _ _ Hroom) as (P & [[_ ->]| ->]); [|done]. apply (within_delete P (set_db _ w) Hw0). }
  destruct (wi_writing w Hw p Hp) as [_ Hpt Hpb _ _]. split; cbn [db set_db writing]; [done| | |apply Hw].
  - intros id r [Hr|[-> ->]]%Ht; [by apply (wi_text _ Hw1 id)|done].
  - intros id r [Hr|[_ Hr]]%Hb; [by apply (wi_blob _ Hw1 id)|by apply Hpb].
Qed.

Lemma within_same w w' : within w → db w' = db w → (∀ p, p ∈ writing w' → p ∈ writing w ∨ prepared p) → within w'.
Proof.
  intros [Htot Ht Hb Hp] Hdb Hin. split; rewrite ?Hdb; [done..|]. intros p [Hp'|Hp']%Hin; [by apply Hp|done].
Qed.

Lemma register_db hold id w : db (register hold id w) = db w ∧ writing (register hold id w) = writing w.
Proof. by destruct hold. Qed.

Lemma within_begin w p : within w → prepared p → within (begin_write p w).
Proof.
  intros Hw Hp. destruct (register_db (p_hold p) (result_id (body (p_manifest p))) w) as [Hdb Hwr]. eapply within_same; [exact Hw|done|].
  cbn. rewrite Hwr. intros p' [Hp'| ->%list_elem_of_singleton]%elem_of_app; [by left|by right].
Qed.

Lemma within_step w op : 0 <= global_bytes q → within w → within (step q w op).
Proof.
  intros Hg Hw. destruct op as [|h|hold s output matches now id|hold s atts now ids id|i io|cursor who where_ auth now later io]; cbn [step].
  - eapply within_same; [exact Hw|done|by left].
  - eapply within_same; [exact Hw|done|by left].
  - destruct (prepare_text _ _ _ _ _ _) as [m|] eqn:Hm; [|done]. destruct (known_hold w hold); [|done]. apply within_begin; [done|by eapply prepare_text_prepared].
  - destruct (prepare_bundle _ _ _ _ _ _) as [[m bs]|] eqn:Hm; [|done]. destruct (known_hold w hold); [|done]. apply within_begin; [done|by eapply prepare_bundle_prepared].
  - unfold finish_write. destruct (writing w !! i) as [p|] eqn:Hi; [|done].
    assert (within (set_writing (delete i (writing w)) w)) as Hw'.
    { eapply within_same; [exact Hw|done|]. cbn. intros p' Hp'. left. by eapply list_elem_of_delete_inv. }
    destruct io; [|done]. destruct (transaction q _ p) as [d|e] eqn:Hd; [|done]. cbn.
    assert (within (set_writing (writing w) (set_db d w))) as Hd'.
    { apply (within_writes w d p); [done|by eapply list_elem_of_lookup_2|done|exact Hd]. }
    eapply within_same; [exact Hd'|done|]. cbn. intros p' Hp'. left. by eapply list_elem_of_delete_inv.
  - unfold read. destruct (parse_cursor cursor) as [[id offset]|]; [|done]. destruct io; [|done]. cbn. by apply within_delete.
Qed.

Lemma within_empty : 0 <= global_bytes q → within empty_world.
Proof.
  intros Hg. split; cbn; [done|intros id r|intros id r|intros p Hp; by apply not_elem_of_nil in Hp]; by rewrite lookup_empty.
Qed.

(** ** Where a row comes from *)

(** The row that a call among [ops] asked for under [id]: the scrubbed text, or each of
    its matches scrubbed, or the manifest of a bundle. *)
Definition text_asked (ops : list Op) (id : pystr) (r : Row Snapshot) : Prop :=
  (∃ hold s output matches now, OpRetain hold s output matches now id ∈ ops ∧ owner (body r) = s_owner s ∧ expires r = now + DAY
     ∧ text (body r) = match matches with [] => scrub_output_secrets output | _ => joined (scrub_output_secrets <$> matches) end)
  ∨ (∃ hold s attachments now ids, OpBundle hold s attachments now ids id ∈ ops ∧ owner (body r) = s_owner s ∧ expires r = now + DAY
     ∧ text (body r) = manifest_text (zip_with (blob_of s now) ids attachments)).

(** The bytes of an attachment are kept as they are; what describes them is scrubbed. *)
Definition file_asked (ops : list Op) (id : pystr) (r : Row BinarySnapshot) : Prop :=
  ∃ hold s attachments now ids mid j a, OpBundle hold s attachments now ids mid ∈ ops ∧ ids !! j = Some id ∧ attachments !! j = Some a
    ∧ b_owner (body r) = s_owner s ∧ blob_expires r = now + DAY
    ∧ data (body r) = a_data a ∧ sha256 (body r) = sha256_hex (a_data a) ∧ b_status (body r) = scrub_output_secrets (s_status s)
    ∧ media_type (body r) = scrub_output_secrets (a_media_type a) ∧ kind (body r) = scrub_output_secrets (a_kind a).

Record asked (ops : list Op) (p : Pending) : Prop := {
  as_text : text_asked ops (result_id (body (p_manifest p))) (p_manifest p);
  as_blobs b : b ∈ p_blobs p → file_asked ops (b_result_id (body b)) b
}.

Record traced (ops : list Op) (w : World) : Prop := {
  tr_text id r : outputs (db w) !! id = Some r → text_asked ops id r;
  tr_blob id r : output_blobs (db w) !! id = Some r → file_asked ops id r;
  tr_writing p : p ∈ writing w → asked ops p
}.

Lemma prepare_text_asked ops hold s output matches now id m : OpRetain hold s output matches now id ∈ ops →
  prepare_text q s output matches now id = Ok m → asked ops {| p_hold := hold; p_now := now; p_manifest := m; p_blobs := [] |}.
Proof.
  unfold prepare_text. intros Hop Hm. inv_result. split; cbn; [|by intros b Hb; apply not_elem_of_nil in Hb].
  left. by exists hold, s, output, matches, now.
Qed.

Lemma prepare_bundle_asked ops hold s atts now ids id m bs : OpBundle hold s atts now ids id ∈ ops →
  prepare_bundle q s atts now ids id = Ok (m, bs) → asked ops {| p_hold := hold; p_now := now; p_manifest := m; p_blobs := bs |}.
Proof.
  unfold prepare_bundle. intros Hop Hm. inv_result. split; cbn; [right; by exists hold, s, atts, now, ids|].
  intros b (j & i & a & -> & Hi & Ha)%elem_of_lookup_zip_with. by exists hold, s, atts, now, ids, id, j, a.
Qed.

Lemma traced_delete ops P w : traced ops w → traced ops (set_db (delete_where P (db w)) w).
Proof.
  intros [Ht Hb Hp]. split; cbn [db set_db writing]; [| |done].
  - intros id r [Hr _]%delete_where_text. by apply Ht.
  - intros id r [Hr _]%delete_where_blob. by apply Hb.
Qed.

Lemma traced_same ops w w' : traced ops w → db w' = db w → (∀ p, p ∈ writing w' → p ∈ writing w ∨ asked ops p) → traced ops w'.
Proof.
  intros [Ht Hb Hp] Hdb Hin. split; rewrite ?Hdb; [done..|]. intros p [Hp'|Hp']%Hin; [by apply Hp|done].
Qed.

Lemma traced_begin ops w p : traced ops w → asked ops p → traced ops (begin_write p w).
Proof.
  intros Hw Hp. destruct (register_db (p_hold p) (result_id (body (p_manifest p))) w) as [Hdb Hwr]. eapply traced_same; [exact Hw|done|].
  cbn. rewrite Hwr. intros p' [Hp'| ->%list_elem_of_singleton]%elem_of_app; [by left|by right].
Qed.

Lemma traced_writes ops w d p : 0 <= global_bytes q → traced ops w → asked ops p → transaction q w p = Ok d → traced ops (set_db d w).
Proof.
  intros Hg Hw [Hm Hbs] Hd. destruct (transaction_spec w p d Hd Hg) as (d1 & Hroom & _ & Ht & _ & Hb & _).
  assert (traced ops (set_db d1 w)) as [Ht1 Hb1 _].
  { pose proof (traced_delete ops (λ e, e <=? p_now p) w Hw) as Hw0. fold (prune (p_now p) (db w)) in Hw0.
    destruct (make_room_deletes _ _ _ _ _ Hroom) as (P & [[_ ->]| ->]); [|done]. apply (traced_delete ops P (set_db _ w) Hw0). }
  split; cbn [db set_db writing] in *; [| |apply Hw].
  - intros id r [Hr|[-> ->]]%Ht; [by apply Ht1|done].
  - intros id r [Hr|[-> Hr]]%Hb; [by apply Hb1|by apply Hbs].
Qed.

Lemma traced_step ops w op : 0 <= global_bytes q → op ∈ ops → traced ops w → traced ops (step q w op).
Proof.
  intros Hg Hop Hw. destruct op as [|h|hold s output matches now id|hold s atts now ids id|i io|cursor who where_ auth now later io]; cbn [step].
  - eapply traced_same; [exact Hw|done|by left].
  - eapply traced_same; [exact Hw|done|by left].
  - destruct (prepare_text _ _ _ _ _ _) as [m|] eqn:Hm; [|done]. destruct (known_hold w hold); [|done].
    apply traced_begin; [done|by eapply prepare_text_asked].
  - destruct (prepare_bundle _ _ _ _ _ _) as [[m bs]|] eqn:Hm; [|done]. destruct (known_hold w hold); [|done].
    apply traced_begin; [done|by eapply prepare_bundle_asked].
  - unfold finish_write. destruct (writing w !! i) as [p|] eqn:Hi; [|done].
    assert (traced ops (set_writing (delete i (writing w)) w)) as Hw'.
    { eapply traced_same; [exact Hw|done|]. cbn. intros p' Hp'. left. by eapply list_elem_of_delete_inv. }
    destruct io; [|done]. destruct (transaction q _ p) as [d|e] eqn:Hd; [|done].
    eapply traced_writes; [done|exact Hw'|by eapply (tr_writing _ _ Hw), list_elem_of_lookup_2|exact Hd].
  - unfold read. destruct (parse_cursor cursor) as [[id offset]|]; [|done]. destruct io; [|done]. cbn. by apply traced_delete.
Qed.

Lemma traced_empty ops : traced ops empty_world.
Proof. split; cbn; [intros id r|intros id r|intros p Hp; by apply not_elem_of_nil in Hp]; by rewrite lookup_empty. Qed.

(** C38: Whatever calls, failures and readings of the clock come, the retained output
    fits the quota of the store; every text is charged the bytes of its encoding and
    every file its bytes and an overhead, and neither exceeds the quota of a result.
    Nothing else is stored than what a call asked for under its identifier: a text as
    the scrubber returned it, a manifest of the scrubbed descriptions of its files, and
    the bytes of a file unchanged. *)
Theorem retention_keeps_its_quota ls : 0 <= global_bytes q →
  let w := run (step q) empty_world ls in
  total (charges (db w)) <= global_bytes q
  ∧ (∀ id r, outputs (db w) !! id = Some r → text_ok r ∧ text_asked ls id r)
  ∧ (∀ id r, output_blobs (db w) !! id = Some r → blob_ok r ∧ file_asked ls id r).
Proof.
  intros Hg w. assert (within w ∧ traced ls w) as [[Htot Ht Hb _] [Ht' Hb' _]].
  { apply (run_invariant_on (step q) (λ op, op ∈ ls) (λ w, within w ∧ traced ls w)).
    - split; [by apply within_empty|apply traced_empty].
    - by apply Forall_forall.
    - intros v op Hop [Hv Hv']. split; [by apply within_step|by apply traced_step]. }
  split_and!; [done|..]; intros id r Hr; split; eauto.
Qed.

(** ** Holds *)

Definition occurrences (id : pystr) (ids : list pystr) : Z := foldr (λ x n, (if bool_decide (x = id) then 1 else 0) + n) 0 ids.
Definition claims (id : pystr) (l : list (nat * list pystr)) : Z := foldr (λ hl n, occurrences id hl.2 + n) 0 l.

Lemma occurrences_cons id x ids : occurrences id (x :: ids) = (if bool_decide (x = id) then 1 else 0) + occurrences id ids.
Proof. done. Qed.
Lemma claims_cons id h ids l : claims id ((h, ids) :: l) = occurrences id ids + claims id l.
Proof. done. Qed.
#[local] Arguments occurrences : simpl never.
#[local] Arguments claims : simpl never.

Lemma occurrences_pos id ids : 0 <= occurrences id ids ∧ (id ∈ ids → 1 <= occurrences id ids).
Proof.
  induction ids as [|x ids [IH IHin]]; [by split; [|intros Hx; apply not_elem_of_nil in Hx]|]. rewrite occurrences_cons, elem_of_cons.
  case_bool_decide as Hx; (split; [lia|]); intros [Hid|Hid]; try lia; [by subst|specialize (IHin Hid); lia].
Qed.

Lemma occurrences_app id ids ids' : occurrences id (ids ++ ids') = occurrences id ids + occurrences id ids'.
Proof. induction ids as [|x ids IH]; [done|]. cbn [app]. rewrite !occurrences_cons, IH. lia. Qed.

Lemma claims_pos id l : 0 <= claims id l ∧ (∀ h ids, (h, ids) ∈ l → id ∈ ids → 1 <= claims id l).
Proof.
  induction l as [|[h ids] l [IH IHin]]; [by split; [|intros h ids Hx; apply not_elem_of_nil in Hx]|]. rewrite claims_cons.
  destruct (occurrences_pos id ids) as [Hp Hin]. split; [lia|]. intros h' ids' [[= -> ->]|Hl]%elem_of_cons Hid; [specialize (Hin Hid); lia|].
  specialize (IHin _ _ Hl Hid). lia.
Qed.

Lemma release_one_count hs x id : default 0 (hs !! id) - (if bool_decide (x = id) then 1 else 0) <= default 0 (release_one hs x !! id)
  ∧ (0 <= default 0 (hs !! id) → 0 <= default 0 (release_one hs x !! id)).
Proof.
  unfold release_one. case_bool_decide as Hx.
  - subst. destruct (Z.ltb_spec 0 (default 0 (hs !! id) - 1)); [rewrite lookup_insert_eq; cbn; lia|rewrite lookup_delete_eq; cbn; lia].
  - destruct (0 <? _); [rewrite lookup_insert_ne by done; lia|rewrite lookup_delete_ne by done; lia].
Qed.

Lemma release_count ids hs id : 0 <= default 0 (hs !! id) →
  default 0 (hs !! id) - occurrences id ids <= default 0 (foldl release_one hs ids !! id) ∧ 0 <= default 0 (foldl release_one hs ids !! id).
Proof.
  revert hs. induction ids as [|x ids IH]; cbn [foldl]; intros hs Hpos; [by rewrite Z.sub_0_r|]. rewrite occurrences_cons.
  destruct (release_one_count hs x id) as [H1 H2]. destruct (IH _ (H2 Hpos)) as [H3 H4]. lia.
Qed.

Lemma claims_split h id l : claims id l
  = occurrences id (List.filter (λ hl, bool_decide (hl.1 = h)) l ≫= snd) + claims id (List.filter (λ hl, negb (bool_decide (hl.1 = h))) l).
Proof.
  induction l as [|[h' ids] l IH]; [done|]. rewrite claims_cons, IH. cbn [List.filter fst]. case_bool_decide as Hh; cbn [negb].
  - rewrite bind_cons, occurrences_app. cbn [snd]. lia.
  - rewrite claims_cons. lia.
Qed.

Record covered (w : World) : Prop := {
  co_count id : claims id (held w) <= hold_count w id;
  co_unique : NoDup (held w).*1;
  co_known hl : hl ∈ held w → (hl.1 < next_hold w)%nat;
  co_pending p h : p ∈ writing w → p_hold p = Some h →
    (h < next_hold w)%nat ∧ ∀ ids, (h, ids) ∈ held w → result_id (body (p_manifest p)) ∈ ids
}.

Lemma hold_count_pos w id : covered w → 0 <= hold_count w id.
Proof. intros Hw. pose proof (co_count w Hw id). destruct (claims_pos id (held w)). lia. Qed.

Lemma registered_claims id x h l :
  claims x ((λ hl : nat * list pystr, if bool_decide (hl.1 = h) then (hl.1, hl.2 ++ [id]) else hl) <$> l)
  <= claims x l + (if bool_decide (id = x) then Z.of_nat (length (List.filter (λ hl, bool_decide (hl.1 = h)) l)) else 0).
Proof.
  induction l as [|[h' ids] l IH]; [cbn; by case_bool_decide|]. cbn [fmap list_fmap List.filter fst snd]. rewrite (claims_cons x h' ids l).
  destruct (decide (h' = h)) as [Hh|Hh]; [rewrite !(bool_decide_eq_true_2 (h' = h)) by done|rewrite !(bool_decide_eq_false_2 (h' = h)) by done].
  all: rewrite claims_cons.
  - rewrite occurrences_app, occurrences_cons. cbn [length]. change (occurrences x []) with 0. case_bool_decide; lia.
  - lia.
Qed.

Lemma handle_once h (l : list (nat * list pystr)) : NoDup l.*1 → (length (List.filter (λ hl, bool_decide (hl.1 = h)) l) <= 1)%nat.
Proof.
  induction l as [|[h' ids] l IH]; cbn [fmap list_fmap fst]; intros Hnd; [cbn; lia|]. apply NoDup_cons in Hnd as [Hni Hnd]. cbn [List.filter fst].
  case_bool_decide as Hh; [|by apply IH]. subst h'. cbn [length].
  rewrite (List.filter_ext_in _ (λ _, false)), List.filter_false; [done|]. intros hl Hhl%list_elem_of_In.
  apply bool_decide_eq_false. intros <-. by apply Hni, list_elem_of_fmap_2.
Qed.

Lemma registered_keys id h (l : list (nat * list pystr)) :
  ((λ hl, if bool_decide (hl.1 = h) then (hl.1, hl.2 ++ [id]) else hl) <$> l).*1 = l.*1.
Proof. induction l as [|[h' ids] l IH]; cbn; [done|]. f_equal; [by case_bool_decide|exact IH]. Qed.

Lemma covered_step_same w w' : covered w → holds w' = holds w → held w' = held w → next_hold w' = next_hold w →
  (∀ p, p ∈ writing w' → p ∈ writing w) → covered w'.
Proof.
  intros [Hc Hu Hk Hp] Hh Hl Hn Hw. split; unfold hold_count; rewrite ?Hh, ?Hl, ?Hn; [done..|]. intros p h Hin%Hw. by apply Hp.
Qed.

Lemma covered_begin w p : covered w → known_hold w (p_hold p) = true → covered (begin_write p w).
Proof.
  intros [Hc Hu Hk Hp] Hknown. unfold begin_write. destruct (p_hold p) as [h|] eqn:Hhold; cbn [register].
  2:{ split; [done..|]. cbn. intros p' h [Hp'| ->%list_elem_of_singleton]%elem_of_app; [by apply Hp|]. by rewrite Hhold. }
  cbn [known_hold] in Hknown. apply bool_decide_eq_true in Hknown. set (id := result_id _).
  split; cbn [held holds next_hold writing set_writing set_holds].
  - intros x. unfold hold_count. cbn [holds set_writing set_holds]. etrans; [apply registered_claims|]. specialize (Hc x). unfold hold_count in *.
    pose proof (handle_once h _ Hu). case_bool_decide as Hx; [subst x; rewrite lookup_insert_eq; cbn; lia|].
    rewrite lookup_insert_ne by done. lia.
  - by rewrite registered_keys.
  - intros hl (hl0 & -> & Hin)%list_elem_of_fmap. case_bool_decide; by apply Hk in Hin.
  - intros p' h' [Hp'| ->%list_elem_of_singleton]%elem_of_app Hh'.
    + destruct (Hp p' h' Hp' Hh') as [Hlt Hids]. split; [done|]. intros ids ([h0 ids0] & Heq & Hin)%list_elem_of_fmap. cbn in Heq.
      case_bool_decide; injection Heq as -> ->; [|by apply Hids]. apply elem_of_app. left. by apply Hids.
    + rewrite Hhold in Hh'. injection Hh' as <-. split; [done|]. intros ids ([h0 ids0] & Heq & Hin)%list_elem_of_fmap. cbn in Heq.
      case_bool_decide as Hne; injection Heq as -> ->; [|done]. apply elem_of_app. right. by apply list_elem_of_singleton.
Qed.

Lemma covered_close w h : covered w → covered (close_hold h w).
Proof.
  intros Hw. pose proof (λ id, hold_count_pos w id Hw) as Hpos. destruct Hw as [Hc Hu Hk Hp].
  split; unfold close_hold; cbn [held holds next_hold writing set_holds].
  - intros id. specialize (Hc id). rewrite (claims_split h) in Hc. unfold hold_count in *. cbn [holds set_holds].
    destruct (release_count (List.filter (λ hl, bool_decide (hl.1 = h)) (held w) ≫= snd) (holds w) id (Hpos id)). lia.
  - clear -Hu. induction (held w) as [|hl l IH]; cbn; [constructor|]. cbn in Hu. apply NoDup_cons in Hu as [Hni Hu].
    case_bool_decide; cbn; [by apply IH|]. apply NoDup_cons. split; [|by apply IH]. intros (hl' & Heq & Hin)%list_elem_of_fmap.
    apply Hni. rewrite Heq. apply list_elem_of_fmap_2. apply list_elem_of_In, filter_In in Hin as [Hin _]. by apply list_elem_of_In.
  - intros hl Hhl. apply Hk. apply list_elem_of_In, filter_In in Hhl as [Hhl _]. by apply list_elem_of_In.
  - intros p h' Hpw Hh'. destruct (Hp p h' Hpw Hh') as [Hlt Hids]. split; [done|]. intros ids Hin. apply Hids.
    apply list_elem_of_In, filter_In in Hin as [Hin _]. by apply list_elem_of_In.
Qed.

Lemma covered_empty : covered empty_world.
Proof. split; cbn; [done|constructor|intros hl Hhl; by apply not_elem_of_nil in Hhl|intros p h Hp; by apply not_elem_of_nil in Hp]. Qed.

Lemma covered_step w op : covered w → covered (step q w op).
Proof.
  intros Hw. destruct op as [|h|hold s output matches now id|hold s atts now ids id|i io|cursor who where_ auth now later io]; cbn [step].
  - destruct Hw as [Hc Hu Hk Hp]. split; cbn.
    + intros id. rewrite <- (Z.add_0_r (hold_count _ id)). specialize (Hc id). unfold hold_count in *. cbn [holds open_hold set_holds].
      enough (claims id (held w ++ [(next_hold w, [])]) = claims id (held w)) by lia. clear.
      induction (held w) as [|[h ids] l IH]; cbn [app]; [done|]. by rewrite !claims_cons, IH.
    + rewrite fmap_app. apply NoDup_app. split_and!; [done| |apply NoDup_singleton]. intros h (hl & -> & Hin)%list_elem_of_fmap Hn%list_elem_of_singleton.
      apply Hk in Hin. cbn in Hn. lia.
    + intros hl [Hin| ->%list_elem_of_singleton]%elem_of_app; [apply Hk in Hin; lia|cbn; lia].
    + intros p h Hpw Hh. destruct (Hp p h Hpw Hh) as [Hlt Hids]. split; [lia|].
      intros ids [Hin|Hin%list_elem_of_singleton]%elem_of_app; [by apply Hids|]. injection Hin as -> _. lia.
  - by apply covered_close.
  - destruct (prepare_text _ _ _ _ _ _) as [m|]; [|done]. destruct (known_hold w hold) eqn:Hk; [|done]. by apply covered_begin.
  - destruct (prepare_bundle _ _ _ _ _ _) as [[m bs]|]; [|done]. destruct (known_hold w hold) eqn:Hk; [|done]. by apply covered_begin.
  - unfold finish_write. destruct (writing w !! i) as [p|]; [|done]. destruct io; [destruct (transaction q _ p)|];
      (eapply covered_step_same; [exact Hw|done..|]; cbn; intros p' Hp'; by eapply list_elem_of_delete_inv).
  - unfold read. destruct (parse_cursor cursor) as [[id offset]|]; [|done]. destruct io; [|done]. by eapply covered_step_same.
Qed.

(** What must not happen before the delivery is over: that its hold closes or that a
    clock reads the time of expiry. *)
Definition calm (h : nat) (e : Z) (op : Op) : Prop :=
  match op with
  | OpClose h' => h' ≠ h
  | OpRetain _ _ _ _ now _ | OpBundle _ _ _ now _ _ | OpRead _ _ _ _ now _ _ => now < e
  | OpOpen | OpWrite _ _ => True
  end.

Record delivered (h : nat) (m : Row Snapshot) (bs : list (Row BinarySnapshot)) (w : World) : Prop := {
  de_text : outputs (db w) !! result_id (body m) = Some m;
  de_blobs b : b ∈ bs → output_blobs (db w) !! b_result_id (body b) = Some b;
  de_held : ∃ ids, (h, ids) ∈ held w ∧ result_id (body m) ∈ ids;
  de_writing p : p ∈ writing w → p_now p < expires m
}.

Lemma protected_text hs d id r : outputs d !! id = Some r → is_Some (hs !! id) → expires r ∈ protected hs d.
Proof.
  intros Hr Hid. unfold protected. apply elem_of_app. left. apply list_elem_of_fmap. exists (id, r). split; [done|].
  apply list_elem_of_In, filter_In. split; [by apply list_elem_of_In, elem_of_map_to_list|by apply bool_decide_eq_true].
Qed.

Lemma delivered_delete h m bs P w : (∀ b, b ∈ bs → blob_expires b = expires m) → P (expires m) = false →
  delivered h m bs w → delivered h m bs (set_db (delete_where P (db w)) w).
Proof.
  intros Hco HP [Ht Hb Hh Hp]. split; [| |done..]; cbn [db set_db].
  - by apply delete_where_text.
  - intros b Hin. apply delete_where_blob. split; [by apply Hb|]. by rewrite (Hco b Hin).
Qed.

Lemma held_is_registered h m bs w : covered w → delivered h m bs w → is_Some (holds w !! result_id (body m)).
Proof.
  intros Hw Hd. destruct (de_held _ _ _ _ Hd) as (ids & Hin & Hid). destruct (claims_pos (result_id (body m)) (held w)) as [_ Hone].
  specialize (Hone _ _ Hin Hid). pose proof (co_count w Hw (result_id (body m))) as Hc. unfold hold_count in Hc.
  destruct (holds w !! _); [done|]. cbn in Hc. lia.
Qed.

Lemma delivered_transaction h m bs w p d : (∀ b, b ∈ bs → blob_expires b = expires m) → 0 <= global_bytes q → covered w →
  p_now p < expires m → transaction q w p = Ok d → delivered h m bs w → delivered h m bs (set_db d w).
Proof.
  intros Hco Hg Hw Hlt Hd Hdel. destruct (transaction_spec w p d Hd Hg) as (d1 & Hroom & _ & Ht & Hkeep & _).
  assert (delivered h m bs (set_db (prune (p_now p) (db w)) w)) as Hpr by (apply delivered_delete; [done|by apply Z.leb_gt|done]).
  assert (delivered h m bs (set_db d1 w)) as H1.
  { destruct (make_room_deletes _ _ _ _ _ Hroom) as (P & [[HP ->]| ->]); [|done].
    apply (delivered_delete h m bs P (set_db _ w)); [done| |done]. destruct (P (expires m)) eqn:HPm; [|done].
    destruct (HP _ HPm). eapply protected_text; [exact (de_text _ _ _ _ Hpr)|by eapply held_is_registered]. }
  destruct H1 as [Ht1 Hb1 Hh1 Hw1]. split; cbn [db set_db held writing] in *; [apply Ht; by left| |done..].
  intros b Hb. by apply Hkeep, Hb1.
Qed.

Lemma delivered_begin h m bs w p : p_now p < expires m → delivered h m bs w → delivered h m bs (begin_write p w).
Proof.
  intros Hlt [Ht Hb (ids & Hin & Hid) Hp]. destruct (register_db (p_hold p) (result_id (body (p_manifest p))) w) as [Hdb Hwr].
  unfold begin_write. split; cbn [db writing held set_writing]; rewrite ?Hdb, ?Hwr; [done..| |].
  - destruct (p_hold p) as [h'|]; cbn [register held set_holds]; [|by exists ids].
    destruct (decide (h = h')) as [->|Hne].
    + exists (ids ++ [result_id (body (p_manifest p))]). split; [|apply elem_of_app; by left]. apply list_elem_of_fmap. exists (h', ids).
      cbn. by rewrite bool_decide_eq_true_2.
    + exists ids. split; [|done]. apply list_elem_of_fmap. exists (h, ids). cbn. by rewrite bool_decide_eq_false_2.
  - intros p' [Hp'| ->%list_elem_of_singleton]%elem_of_app; [by apply Hp|done].
Qed.

Lemma delivered_step h m bs w op : (∀ b, b ∈ bs → blob_expires b = expires m) → 0 <= global_bytes q → covered w →
  calm h (expires m) op → delivered h m bs w → delivered h m bs (step q w op).
Proof.
  intros Hco Hg Hw Hcalm Hd.
  destruct op as [|h'|hold s output matches now id|hold s atts now ids id|i io|cursor who where_ auth now later io]; cbn [step calm] in *.
  - destruct Hd as [Ht Hb (ids & Hin & Hid) Hp]. split; [done..| |done]. exists ids. split; [|done]. apply elem_of_app. by left.
  - destruct Hd as [Ht Hb (ids & Hin & Hid) Hp]. split; [done..| |done]. exists ids. split; [|done]. unfold close_hold. cbn [held set_holds].
    apply list_elem_of_In, filter_In. split; [by apply list_elem_of_In|]. cbn. by rewrite bool_decide_eq_false_2.
  - destruct (prepare_text _ _ _ _ _ _) as [m'|]; [|done]. destruct (known_hold w hold); [|done]. by apply delivered_begin.
  - destruct (prepare_bundle _ _ _ _ _ _) as [[m' bs']|]; [|done]. destruct (known_hold w hold); [|done]. by apply delivered_begin.
  - unfold finish_write. destruct (writing w !! i) as [p|] eqn:Hi; [|done].
    assert (delivered h m bs (set_writing (delete i (writing w)) w)) as Hd'.
    { destruct Hd as [Ht Hb Hh Hp]. split; [done..|]. cbn. intros p' Hp'. apply Hp. by eapply list_elem_of_delete_inv. }
    destruct io; [|done]. destruct (transaction q _ p) as [d|] eqn:Htr; [|done]. cbn [fst].
    apply (delivered_transaction h m bs _ p d); [done..| | |exact Htr|done].
    + eapply covered_step_same; [exact Hw|done..|]. cbn. intros p' Hp'. by eapply list_elem_of_delete_inv.
    + apply (de_writing _ _ _ _ Hd). by eapply list_elem_of_lookup_2.
  - unfold read. destruct (parse_cursor cursor) as [[id offset]|]; [|done]. destruct io; [|done]. cbn. apply delivered_delete; [done|by apply Z.leb_gt|done].
Qed.

(** C37: What a call has retained under the hold of its delivery stays until it expires
    or the delivery ends, whole, a bundle's files with its manifest, however many other
    calls need room; and who may read it gets exactly the text that was stored. *)
Theorem held_output_stays_readable ls1 ls2 w w1 i p h :
  0 <= global_bytes q → w = run (step q) empty_world ls1 → writing w !! i = Some p → p_hold p = Some h → h ∈ (held w).*1 →
  finish_write q i true w = (w1, Ok (p_manifest p)) →
  (∀ p', p' ∈ writing w1 → p_now p' < expires (p_manifest p)) → Forall (calm h (expires (p_manifest p))) ls2 →
  let w2 := run (step q) w1 ls2 in
  let m := body (p_manifest p) in
  (∀ b, b ∈ p_blobs p → output_blobs (db w2) !! b_result_id (body b) = Some b)
  ∧ ∀ cursor offset authorize now later, parse_cursor cursor = Some (result_id m, offset) → now < expires_at m → later < expires_at m →
      authorize (tool m) (hosts m) = true → 0 <= offset <= Z.of_nat (length (text m)) →
      (read cursor (owner m) (channel m) authorize now later true w2).2 = Ok (RetainedText m, offset).
Proof.
  intros Hg Hrun Hi Hhold Hopen Hfin Hwr Hcalm. cbv zeta.
  assert (within w ∧ covered w) as [Hin Hco].
  { rewrite Hrun. apply (run_invariant (step q) (λ w, within w ∧ covered w)).
    - split; [by apply within_empty|apply covered_empty].
    - intros v op [Hv Hv']. split; [by apply within_step|by apply covered_step]. }
  pose proof (list_elem_of_lookup_2 _ _ _ Hi) as Hp. destruct (wi_writing w Hin p Hp) as [Hown _ _ Hexp Hcohort].
  destruct (co_pending w Hco p h Hp Hhold) as [_ Hids].
  assert (covered w1 ∧ delivered h (p_manifest p) (p_blobs p) w1) as [Hco1 Hd1].
  { assert (covered w1) as Hc1 by (replace w1 with (step q w (OpWrite i true)) by (cbn [step]; by rewrite Hfin); by apply covered_step).
    split; [done|]. unfold finish_write in Hfin. rewrite Hi in Hfin. destruct (transaction q _ p) as [d|] eqn:Htr; [|discriminate Hfin].
    injection Hfin as <-. destruct (transaction_spec _ p d Htr Hg) as (d1 & _ & _ & Ht & _ & _ & Hb). split; cbn [db set_db held].
    - apply Ht. by right.
    - done.
    - apply list_elem_of_fmap in Hopen as ([h' ids] & -> & Hopen). exists ids. split; [done|]. by apply Hids.
    - done. }
  assert (covered (run (step q) w1 ls2) ∧ delivered h (p_manifest p) (p_blobs p) (run (step q) w1 ls2)) as [_ Hd2].
  { apply (run_invariant_on (step q) (calm h (expires (p_manifest p))) (λ w, covered w ∧ delivered h (p_manifest p) (p_blobs p) w)); [done..|].
    intros v op Hop [Hcv Hdv]. split; [by apply covered_step|]. apply delivered_step; [|done..]. intros b Hb. by rewrite Hexp, Hcohort. }
  split; [apply Hd2|]. intros cursor offset authorize now later Hcur Hnow Hlater Hauth Hoff. unfold read. rewrite Hcur. cbn [negb snd].
  assert (outputs (prune now (db (run (step q) w1 ls2))) !! result_id (body (p_manifest p)) = Some (p_manifest p)) as Hrow.
  { apply delete_where_text. split; [apply Hd2|]. by apply Z.leb_gt. }
  unfold meta. rewrite Hrow. cbn [extent]. unfold expires. rewrite (proj2 (Z.leb_gt _ _) Hlater), Hown, Hauth, bool_decide_eq_true_2 by done. cbn.
  destruct (Z.ltb_spec offset 0); [lia|]. destruct (Z.ltb_spec (Z.of_nat (length (text (body (p_manifest p))))) offset); [lia|done].
Qed.

End theory.

Module RetentionWitness.

#[export] Instance plain_output : OutputText := {| scrub_output_secrets s := s; sha256_hex _ := []; isoformat _ := [] |}.
Import Concrete.

Definition quotas : Quotas := {| per_result_bytes := 1000000; global_bytes := 1000000 |}.
Definition by_ann : Scope := {| s_owner := lit "ann"; s_channel := lit "c"; s_tool := lit "run"; s_hosts := []; s_status := lit "succeeded" |}.
Definition id_of (c : string) : pystr := mjoin (replicate 32 (lit c)).
Definition file : Attachment := {| a_data := [1; 2; 3]; a_media_type := lit "x"; a_content_index := 0; a_kind := lit "f" |}.

Definition before : World :=
  run (step quotas) empty_world [OpOpen; OpBundle (Some 0%nat) by_ann [file] 5 [id_of "b"] (id_of "a")].
Definition bundle : Pending := match writing before with
  | p :: _ => p
  | [] => {| p_hold := None; p_now := 0; p_blobs := [];
             p_manifest := {| body := {| result_id := []; text := []; owner := []; channel := []; tool := []; hosts := []; expires_at := 0;
                                         status := []; boundaries := [] |}; size := 0 |} |}
  end.
Definition after : World := (finish_write quotas 0 true before).1.

(** A later text of another user and its transaction. *)
Definition others : list Op := [OpRetain None by_ann (lit "long") [] 9 (id_of "c"); OpWrite 0 true; OpOpen; OpClose 1].

Lemma bundle_waits : writing before !! 0%nat = Some bundle ∧ p_hold bundle = Some 0%nat ∧ (held before).*1 = [0%nat].
Proof. split_and!; vm_compute; reflexivity. Qed.

Lemma bundle_is_written : (finish_write quotas 0 true before).2 = Ok (p_manifest bundle) ∧ writing after = [] ∧ 9 < expires (p_manifest bundle).
Proof. split_and!; vm_compute; reflexivity. Qed.

Lemma hold_is_open : 0%nat ∈ (held before).*1.
Proof. exact (eq_ind_r (λ l, 0%nat ∈ l) (proj2 (list_elem_of_singleton 0%nat 0%nat) eq_refl) (proj2 (proj2 bundle_waits))). Qed.

Lemma held_output_stays_readable_witness :
  length (p_blobs bundle) = 1%nat
  ∧ Forall (λ b, output_blobs (db (run (step quotas) after others)) !! b_result_id (body b) = Some b) (p_blobs bundle).
Proof.
  split; [vm_compute; reflexivity|]. apply Forall_forall.
  destruct bundle_waits as (Hi & Hhold & _). destruct bundle_is_written as (Hok & Hwr & Hlt).
  apply (held_output_stays_readable quotas [OpOpen; OpBundle (Some 0%nat) by_ann [file] 5 [id_of "b"] (id_of "a")] others before after 0 bundle 0);
    [done|done|exact Hi|exact Hhold|exact hold_is_open| | |].
  - exact (injective_projections (finish_write quotas 0 true before) (after, Ok (p_manifest bundle)) eq_refl Hok).
  - rewrite Hwr. intros p Hp. destruct (not_elem_of_nil p Hp).
  - constructor; [exact Hlt|]. constructor; [exact I|]. constructor; [exact I|]. constructor; [discriminate|constructor].
Defined.

Lemma retention_keeps_its_quota_witness :
  total (charges (db (run (step quotas) empty_world others))) <= global_bytes quotas.
Proof. exact (proj1 (retention_keeps_its_quota quotas others ltac:(discriminate))). Defined.

(** A third text that does not fit drops the oldest cohort; while that is held the
    next one goes. *)
Definition tight : Quotas := {| per_result_bytes := 4; global_bytes := 8 |}.
Definition stored (hold : option nat) : list (pystr * pystr) :=
  let w := run (step tight) empty_world
    [OpOpen; OpRetain hold by_ann (lit "one") [] 1 (id_of "a"); OpWrite 0 true; OpRetain None by_ann (lit "two") [] 2 (id_of "b"); OpWrite 0 true;
     OpRetain None by_ann (lit "six") [] 3 (id_of "c"); OpWrite 0 true] in
  (λ id, (id, match outputs (db w) !! id with Some r => text (body r) | None => [] end)) <$> [id_of "a"; id_of "b"; id_of "c"].
Example oldest_goes_first : (stored None).*2 = [[]; lit "two"; lit "six"].
Proof. vm_compute. reflexivity. Qed.
Example unless_it_is_held : (stored (Some 0%nat)).*2 = [lit "one"; []; lit "six"].
Proof. vm_compute. reflexivity. Qed.
Example a_cursor : parse_cursor (id_of "a" ++ lit ": 1_2") = Some (id_of "a", 12) ∧ parse_cursor (lit "a:12") = None.
Proof. split; vm_compute; reflexivity. Qed.

End RetentionWitness.
