(* ===== verification/Loops.v ===== *)
(** * Autonomous loops (src/src/tools/autonomous_loop.py)

    A loop asks the model again and again: a worker awaits its callback, its messages
    and its intervals, and may be stopped at any time, by others or from inside its own
    callback.  [LoopInfo] is the record of the class with the state of its task; the
    sections of [_run_loop] between two awaits are steps.

    [stopped_loops_begin_nothing]: after a stop no iteration begins, and when the call
    says stopped nothing of the loop is left to run.  [loops_end_within_their_limits]:
    every worker ends, within its iterations.

    The clock counts milliseconds.  The model's answers, the errors and the outcome of
    every message are labels; scrubbing is a parameter.

    [fine] is the invariant of a loop, [rank] decreases with every section of its
    worker, and [quiet] says what a requested stop leaves to do. *)

From S2P Require Import Prelude PyStr PyLib.
Open Scope string_scope.
Open Scope list_scope.
Open Scope Z_scope.

Class LoopText := { scrub_output_secrets : pystr → pystr }.

Definition SECOND : Z := 1000.
Definition MAX_CONCURRENT_LOOPS : nat := 10.
Definition MAX_LOOP_LIFETIME_SECONDS : Z := 4 * 3600.
Definition MIN_INTERVAL_SECONDS : Z := 10.
Definition MAX_CONTEXT_HISTORY : nat := 3.
Definition MAX_CONSECUTIVE_ERRORS : Z := 5.
Definition MAX_BACKOFF_SECONDS : Z := 300.
Definition RUNAWAY_THRESHOLD : Z := 3.
Definition LOOP_STOP_SENTINEL : pystr := Eval compute in lit "LOOP_STOP".

(** ** Data *)

Inductive Mode : Type := Notify | Act | Silent.
Inductive Status : Type := Running | Stopped | Completed | Errored.

#[export] Instance Mode_eq_dec : EqDecision Mode.
Proof. solve_decision. Defined.
#[export] Instance Status_eq_dec : EqDecision Status.
Proof. solve_decision. Defined.

(** What follows a message. *)
Inductive Next : Type :=
| ThenPost (response : pystr) (stop : bool)
| ThenPosted (stop : bool)
| ThenFinish
| ThenEnd
| ThenCrashed.

(** Where the task of a loop stands. *)
Inductive Phase : Type :=
| Fresh
| Calling (prompt : pystr) (context : option pystr)
| Announcing (next : Next)
| Waiting (deadline : Z)
| Settled.

Record LoopInfo := {
  loop_id : pystr;
  goal : pystr;
  mode : Mode;
  interval_seconds : Z;
  stop_condition : option pystr;
  max_iterations : Z;
  channel_id : pystr;
  requester_id : pystr;
  requester_name : pystr;
  web_owner : option pystr;
  iteration_count : Z;
  last_trigger : option Z;
  status : Status;
  stop_requested : bool;
  cancel_event : bool;
  iteration_history : list pystr;
  phase : Phase;
  cancelling : bool;
  start_time : Z;
  consecutive_identical : Z;
  consecutive_errors : Z;
  last_output : pystr;
  sent : list pystr;
  released : bool
}.

#[export] Instance Next_eq_dec : EqDecision Next.
Proof. solve_decision. Defined.
#[export] Instance Phase_eq_dec : EqDecision Phase.
Proof. solve_decision. Defined.
#[export] Instance LoopInfo_eq_dec : EqDecision LoopInfo.
Proof. solve_decision. Defined.

Definition set_phase (p : Phase) (l : LoopInfo) : LoopInfo :=
  {| loop_id := loop_id l; goal := goal l; mode := mode l; interval_seconds := interval_seconds l; stop_condition := stop_condition l;
     max_iterations := max_iterations l; channel_id := channel_id l; requester_id := requester_id l; requester_name := requester_name l;
     web_owner := web_owner l; iteration_count := iteration_count l; last_trigger := last_trigger l; status := status l;
     stop_requested := stop_requested l; cancel_event := cancel_event l; iteration_history := iteration_history l; phase := p;
     cancelling := cancelling l; start_time := start_time l; consecutive_identical := consecutive_identical l;
     consecutive_errors := consecutive_errors l; last_output := last_output l; sent := sent l; released := released l |}.

Definition set_status (st : Status) (l : LoopInfo) : LoopInfo :=
  {| loop_id := loop_id l; goal := goal l; mode := mode l; interval_seconds := interval_seconds l; stop_condition := stop_condition l;
     max_iterations := max_iterations l; channel_id := channel_id l; requester_id := requester_id l; requester_name := requester_name l;
     web_owner := web_owner l; iteration_count := iteration_count l; last_trigger := last_trigger l; status := st;
     stop_requested := stop_requested l; cancel_event := cancel_event l; iteration_history := iteration_history l; phase := phase l;
     cancelling := cancelling l; start_time := start_time l; consecutive_identical := consecutive_identical l;
     consecutive_errors := consecutive_errors l; last_output := last_output l; sent := sent l; released := released l |}.

(** The counters of the worker and the interval. *)
Definition set_counters (identical errors interval : Z) (output : pystr) (l : LoopInfo) : LoopInfo :=
  {| loop_id := loop_id l; goal := goal l; mode := mode l; interval_seconds := interval; stop_condition := stop_condition l;
     max_iterations := max_iterations l; channel_id := channel_id l; requester_id := requester_id l; requester_name := requester_name l;
     web_owner := web_owner l; iteration_count := iteration_count l; last_trigger := last_trigger l; status := status l;
     stop_requested := stop_requested l; cancel_event := cancel_event l; iteration_history := iteration_history l; phase := phase l;
     cancelling := cancelling l; start_time := start_time l; consecutive_identical := identical;
     consecutive_errors := errors; last_output := output; sent := sent l; released := released l |}.

Definition set_stop (requested event cancel : bool) (l : LoopInfo) : LoopInfo :=
  {| loop_id := loop_id l; goal := goal l; mode := mode l; interval_seconds := interval_seconds l; stop_condition := stop_condition l;
     max_iterations := max_iterations l; channel_id := channel_id l; requester_id := requester_id l; requester_name := requester_name l;
     web_owner := web_owner l; iteration_count := iteration_count l; last_trigger := last_trigger l; status := status l;
     stop_requested := requested; cancel_event := event; iteration_history := iteration_history l; phase := phase l;
     cancelling := cancel; start_time := start_time l; consecutive_identical := consecutive_identical l;
     consecutive_errors := consecutive_errors l; last_output := last_output l; sent := sent l; released := released l |}.

(** The start of an iteration, and of the worker. *)
Definition set_iteration (n : Z) (at_ : option Z) (start : Z) (l : LoopInfo) : LoopInfo :=
  {| loop_id := loop_id l; goal := goal l; mode := mode l; interval_seconds := interval_seconds l; stop_condition := stop_condition l;
     max_iterations := max_iterations l; channel_id := channel_id l; requester_id := requester_id l; requester_name := requester_name l;
     web_owner := web_owner l; iteration_count := n; last_trigger := at_; status := status l;
     stop_requested := stop_requested l; cancel_event := cancel_event l; iteration_history := iteration_history l; phase := phase l;
     cancelling := cancelling l; start_time := start; consecutive_identical := consecutive_identical l;
     consecutive_errors := consecutive_errors l; last_output := last_output l; sent := sent l; released := released l |}.

(** What the loop leaves: its history, its messages, and its calibration. *)
Definition set_traces (history messages : list pystr) (done_ : bool) (l : LoopInfo) : LoopInfo :=
  {| loop_id := loop_id l; goal := goal l; mode := mode l; interval_seconds := interval_seconds l; stop_condition := stop_condition l;
     max_iterations := max_iterations l; channel_id := channel_id l; requester_id := requester_id l; requester_name := requester_name l;
     web_owner := web_owner l; iteration_count := iteration_count l; last_trigger := last_trigger l; status := status l;
     stop_requested := stop_requested l; cancel_event := cancel_event l; iteration_history := history; phase := phase l;
     cancelling := cancelling l; start_time := start_time l; consecutive_identical := consecutive_identical l;
     consecutive_errors := consecutive_errors l; last_output := last_output l; sent := messages; released := done_ |}.

(** [deque(maxlen=MAX_CONTEXT_HISTORY * 2)] *)
Definition remember (entry : pystr) (l : LoopInfo) : LoopInfo :=
  let h := iteration_history l ++ [entry] in
  set_traces (drop (length h - 2 * MAX_CONTEXT_HISTORY) h) (sent l) (released l) l.

(** [await channel.send(text)]: the worker goes on with [next]. *)
Definition announce (text : pystr) (next : Next) (l : LoopInfo) : LoopInfo :=
  set_phase (Announcing next) (set_traces (iteration_history l) (sent l ++ [text]) (released l) l).

(** The [finally] of the worker. *)
Definition settle (l : LoopInfo) : LoopInfo := set_phase Settled (set_traces (iteration_history l) (sent l) true l).

(** ** Texts *)

Definition joined_with (sep : pystr) (ws : list pystr) : pystr :=
  match ws with [] => [] | w :: ws => w ++ (ws ≫= λ w, sep ++ w) end.

Definition mode_name (m : Mode) : pystr :=
  match m with Notify => lit "notify" | Act => lit "act" | Silent => lit "silent" end.

(** [_build_iteration_prompt] *)
Definition build_iteration_prompt (agents_enabled : bool) (l : LoopInfo) : pystr :=
  joined_with [LF] (
    [lit "AUTONOMOUS LOOP (iteration " ++ show (iteration_count l) ++ lit " of " ++ show (max_iterations l) ++ lit ")";
     lit "Goal: " ++ goal l; lit "Mode: " ++ mode_name (mode l)]
    ++ (match stop_condition l with Some c => if nonempty c then [lit "Stop condition: " ++ c] else [] | None => [] end)
    ++ [[]; lit "You are in an autonomous loop. Execute the goal above using tools. When done:"]
    ++ (match mode l with
        | Silent => [lit "- Only respond if something notable or urgent happened. If you need to report something, include [NOTIFY] at the start of your response. For critical issues, use [ALERT] instead. Responses without these markers will be suppressed."]
        | _ => [lit "- Post a concise update to the channel."]
        end)
    ++ (match stop_condition l with
        | Some c => if nonempty c
            then [lit "- If the stop condition is met (" ++ 34 :: c ++ 34 :: lit "), include the exact text " ++ 34 :: LOOP_STOP_SENTINEL
                  ++ 34 :: lit " in your response."] else []
        | None => [] end)
    ++ (if agents_enabled
        then [[]; lit "AGENTS: You can spawn agents (spawn_agent) for parallel sub-tasks. Use wait_for_agents to collect results. Good for: investigating multiple hosts, running parallel checks, delegating fixes."]
        else [])).

Definition context_of (l : LoopInfo) : option pystr :=
  match iteration_history l with
  | [] => None
  | h => Some (joined_with (LF :: lit "---" ++ [LF]) (drop (length h - MAX_CONTEXT_HISTORY) h))
  end.

(** [response.replace(LOOP_STOP_SENTINEL, "")]: [skip] characters of an occurrence are left. *)
Fixpoint remove_sentinel (skip : nat) (s : pystr) : pystr :=
  match s with
  | [] => []
  | c :: s' =>
      match skip with
      | S skip => remove_sentinel skip s'
      | O => if startswith LOOP_STOP_SENTINEL s then remove_sentinel (length LOOP_STOP_SENTINEL - 1) s' else c :: remove_sentinel 0 s'
      end
  end.

(** [close_open_fence] of discord/delivery.py. *)
Definition fence : pystr := Eval compute in lit "```".
Definition close_open_fence (text : pystr) : pystr :=
  if Nat.odd (length (List.filter (startswith fence) (PyStr.split LF text))) then text ++ LF :: fence else text.

(** What is posted of a response; [None] when the mode is silent about it. *)
Definition post_text (m : Mode) (response : pystr) : option pystr :=
  if bool_decide (m = Silent) && negb (contains (lit "[NOTIFY]") response) && negb (contains (lit "[ALERT]") response) then None
  else Some (if (2000 <? length response)%nat then close_open_fence (take 1950 response) ++ LF :: lit "... (truncated)" else response).

Definition loop_text (l : LoopInfo) (rest : pystr) : pystr := lit "Loop `" ++ loop_id l ++ 96 :: rest.

(** ** The worker *)

Section loops.
Context `{LoopText}.
Context (agents_enabled : bool).

(** The code after the [while]. *)
Definition finish (l : LoopInfo) : LoopInfo :=
  if bool_decide (status l = Running) then
    if stop_requested l then settle (set_status Stopped l)
    else announce (loop_text l (lit " completed after " ++ show (iteration_count l) ++ lit " iterations.")) ThenEnd (set_status Completed l)
  else settle l.

(** The head of the [while], up to the callback. *)
Definition next_iteration (now : Z) (l : LoopInfo) : LoopInfo :=
  if iteration_count l <? max_iterations l then
    if cancel_event l then finish l
    else if MAX_LOOP_LIFETIME_SECONDS * SECOND <? now - start_time l then
      announce (loop_text l (lit " reached maximum lifetime (4 hours). Stopped.")) ThenFinish (set_status Completed l)
    else
      let l := set_iteration (iteration_count l + 1) (Some now) (start_time l) l in
      set_phase (Calling (build_iteration_prompt agents_enabled l) (context_of l)) l
  else finish l.

(** [_interruptible_wait] and what follows when it was interrupted. *)
Definition wait (now seconds : Z) (l : LoopInfo) : LoopInfo :=
  if cancel_event l then finish l else set_phase (Waiting (now + seconds * SECOND)) l.

(** [hasattr(e, "retry_after")], whose value may not be a finite number. *)
Inductive Retry : Type := NoRetry | RetryAfter (ms : Z) | RetryBad.

Definition crash (message : pystr) (l : LoopInfo) : LoopInfo :=
  announce (loop_text l (lit " encountered an error and stopped: " ++ message)) ThenCrashed (set_status Errored l).

(** The interval after an error that names its own wait. *)
Definition retry_interval (retry : Retry) (l : LoopInfo) : Z :=
  match retry with
  | RetryAfter ms => Z.max (interval_seconds l) (Z.quot (Z.min ms (MAX_BACKOFF_SECONDS * SECOND)) SECOND)
  | _ => interval_seconds l
  end.

(** An error once it is counted: the loop gives up, ends or backs off. *)
Definition back_off (now : Z) (message : pystr) (l : LoopInfo) : LoopInfo :=
  let l := remember (lit "Iteration " ++ show (iteration_count l) ++ lit ": ERROR - " ++ message) l in
  if MAX_CONSECUTIVE_ERRORS <=? consecutive_errors l then
    announce (loop_text l (lit " stopped after " ++ show MAX_CONSECUTIVE_ERRORS ++ lit " consecutive errors. Last error: " ++ message))
      ThenFinish (set_status Errored l)
  else if max_iterations l <=? iteration_count l then finish l
  else wait now (Z.min (interval_seconds l * 2 ^ consecutive_errors l) MAX_BACKOFF_SECONDS) l.

Definition iteration_failed (now : Z) (message : pystr) (retry : Retry) (l : LoopInfo) : LoopInfo :=
  let l := set_counters (consecutive_identical l) (consecutive_errors l + 1) (retry_interval retry l) (last_output l) l in
  match retry with RetryBad => crash message l | _ => back_off now message l end.

(** After the response was posted. *)
Definition posted (now : Z) (stop : bool) (l : LoopInfo) : LoopInfo :=
  if stop then finish (set_status Completed l)
  else if max_iterations l <=? iteration_count l then finish l
  else wait now (interval_seconds l) l.

Definition post_response (now : Z) (response : pystr) (stop : bool) (l : LoopInfo) : LoopInfo :=
  if nonempty response && bool_decide (status l = Running) then
    match post_text (mode l) response with
    | Some text => announce text (ThenPosted stop) l
    | None => posted now stop l
    end
  else posted now stop l.

Definition summary_of (l : LoopInfo) (response : pystr) : pystr :=
  let summary := if nonempty response then take 500 response else lit "(no output)" in
  let prefix := lit "Iteration " ++ show (iteration_count l) ++ lit ":" in
  if startswith prefix summary then summary else prefix ++ 32 :: summary.

Definition iteration_succeeded (now : Z) (output : pystr) (l : LoopInfo) : LoopInfo :=
  let response := if nonempty output then scrub_output_secrets (strip output) else [] in
  let stop := contains LOOP_STOP_SENTINEL response in
  let response := if stop then strip (remove_sentinel 0 response) else response in
  let l := remember (summary_of l response) l in
  if bool_decide (response = last_output l) && nonempty response then
    let identical := consecutive_identical l + 1 in
    if RUNAWAY_THRESHOLD <=? identical then
      let new := Z.min (interval_seconds l * 2) 3600 in
      announce (loop_text l (lit ": " ++ show RUNAWAY_THRESHOLD ++ lit " identical outputs detected " ++ 8212 :: lit " increasing interval from "
        ++ show (interval_seconds l) ++ lit "s to " ++ show new ++ lit "s.")) (ThenPost response stop)
        (set_counters 0 0 new response l)
    else post_response now response stop (set_counters identical 0 (interval_seconds l) response l)
  else post_response now response stop (set_counters 0 0 (interval_seconds l) response l).

(** What the callback gives: a text, a failure of its own, or an exception; its text is
    the formatted one.  A callback that is cancelled may still give any of them. *)
Inductive Answer : Type :=
| Said (output : pystr)
| Failed (message : pystr)
| Raised (message : pystr) (retry : Retry)
| Cancelled.

(** [except asyncio.CancelledError] *)
Definition cancelled (l : LoopInfo) : LoopInfo := settle (set_status Stopped l).

Definition swallow (l : LoopInfo) : LoopInfo := set_stop (stop_requested l) (cancel_event l) false l.

Definition answered (now : Z) (a : Answer) (l : LoopInfo) : LoopInfo :=
  match phase l with
  | Calling _ _ =>
      match a with
      | Cancelled => if cancelling l then cancelled l else l
      | Said output => let l := swallow l in if cancel_event l then finish l else iteration_succeeded now output l
      | Failed message => let l := swallow l in
          if cancel_event l then finish l else iteration_failed now (scrub_output_secrets message) NoRetry l
      | Raised message retry => iteration_failed now message retry (swallow l)
      end
  | _ => l
  end.

(** The end of a message; one that fails is passed over. *)
Definition message_sent (now : Z) (interrupted : bool) (l : LoopInfo) : LoopInfo :=
  match phase l with
  | Announcing next =>
      if interrupted then
        if cancelling l then match next with ThenCrashed => settle l | _ => cancelled l end else l
      else
        let l := swallow l in
        match next with
        | ThenPost response stop => post_response now response stop l
        | ThenPosted stop => posted now stop l
        | ThenFinish => finish l
        | ThenEnd | ThenCrashed => settle l
        end
  | _ => l
  end.

(** The event loop runs the task: at its start, or after its interval.  A task that is
    cancelled before its start runs nothing of its coroutine. *)
Definition scheduled (now : Z) (l : LoopInfo) : LoopInfo :=
  match phase l with
  | Fresh => if cancelling l then set_phase Settled l
             else next_iteration now (set_iteration (iteration_count l) (last_trigger l) now l)
  | Waiting deadline =>
      if cancelling l then cancelled l
      else if cancel_event l then finish l
      else if deadline <=? now then next_iteration now l else l
  | _ => l
  end.

(** ** The manager *)

(** A call of [stop_loop] that waits for tasks. *)
Record Stopping := { t_loops : list nat; t_all : bool }.

Record World := {
  clock : Z;
  infos : list LoopInfo;
  loops : list (pystr * nat);
  stoppers : list Stopping
}.

Definition update (o : nat) (f : LoopInfo → LoopInfo) (w : World) : World :=
  {| clock := clock w; infos := alter f o (infos w); loops := loops w; stoppers := stoppers w |}.
Definition set_loops (ls : list (pystr * nat)) (w : World) : World :=
  {| clock := clock w; infos := infos w; loops := ls; stoppers := stoppers w |}.
Definition set_stoppers (ss : list Stopping) (w : World) : World :=
  {| clock := clock w; infos := infos w; loops := loops w; stoppers := ss |}.

Definition is_running (w : World) (o : nat) : bool :=
  match infos w !! o with Some l => bool_decide (status l = Running) | None => false end.

Definition running (w : World) : list nat := List.filter (is_running w) (loops w).*2.
Definition active_count (w : World) : nat := length (running w).

(** [cleanup_finished] *)
Definition stale (w : World) (o : nat) : bool :=
  match infos w !! o with
  | Some l => negb (bool_decide (status l = Running))
              && match last_trigger l with Some t => 3600 * SECOND <? clock w - t | None => true end
  | None => false
  end.
Definition cleanup_finished (w : World) : World := set_loops (List.filter (λ ko, negb (stale w ko.2)) (loops w)) w.

Record Request := {
  r_goal : pystr;
  r_mode : option Mode;
  r_interval : Z;
  r_condition : option pystr;
  r_iterations : Z;
  r_channel : pystr;
  r_requester : pystr;
  r_name : pystr;
  r_web_owner : option pystr
}.

Definition new_loop (id : pystr) (r : Request) : LoopInfo :=
  {| loop_id := id; goal := r_goal r; mode := default Notify (r_mode r); interval_seconds := Z.max MIN_INTERVAL_SECONDS (r_interval r);
     stop_condition := r_condition r; max_iterations := Z.max 1 (Z.min (r_iterations r) 1000); channel_id := r_channel r;
     requester_id := r_requester r; requester_name := r_name r; web_owner := r_web_owner r; iteration_count := 0; last_trigger := None;
     status := Running; stop_requested := false; cancel_event := false; iteration_history := []; phase := Fresh; cancelling := false;
     start_time := 0; consecutive_identical := 0; consecutive_errors := 0; last_output := []; sent := []; released := false |}.

(** [None] is the error that too many loops run. *)
Definition start_loop (id : pystr) (r : Request) (w : World) : option World :=
  if (MAX_CONCURRENT_LOOPS <=? active_count w)%nat then None
  else
    let w := cleanup_finished w in
    Some {| clock := clock w; infos := infos w ++ [new_loop id r]; loops := dict_set (loops w) id (length (infos w)); stoppers := stoppers w |}.

(** [_request_stop] of a loop that is not the caller's own. *)
Definition request_stop (l : LoopInfo) : LoopInfo :=
  set_stop true true (match phase l with Settled => cancelling l | _ => true end) l.
Definition request_own_stop (l : LoopInfo) : LoopInfo := set_stop true true (cancelling l) l.

Definition own (w : World) (caller : option pystr) (o : nat) : bool :=
  match infos w !! o with Some l => bool_decide (caller = Some (loop_id l)) | None => false end.

Inductive StopReply : Type := NoneActive | NoSuchLoop | NotRunning (st : Status) | OwnRequested | MustWait.

Definition stop_all (caller : option pystr) (w : World) : World * StopReply :=
  match running w with
  | [] => (w, NoneActive)
  | os =>
      let w' := foldl (λ w' o, update o (if own w caller o then request_own_stop else request_stop) w') w os in
      (set_stoppers (stoppers w' ++ [{| t_loops := List.filter (λ o, negb (own w caller o)) os; t_all := true |}]) w', MustWait)
  end.

Definition stop_loop (id : pystr) (caller : option pystr) (w : World) : World * StopReply :=
  match dict_get (loops w) id with
  | None => (w, NoSuchLoop)
  | Some o =>
      match infos w !! o with
      | None => (w, NoSuchLoop)
      | Some l =>
          if negb (bool_decide (status l = Running)) then (w, NotRunning (status l))
          else if bool_decide (caller = Some (loop_id l)) then (update o request_own_stop w, OwnRequested)
          else (set_stoppers (stoppers w ++ [{| t_loops := [o]; t_all := false |}]) (update o request_stop w), MustWait)
      end
  end.

Definition settled (w : World) (o : nat) : bool :=
  match infos w !! o with Some l => match phase l with Settled => true | _ => false end | None => true end.

Definition mark_stopped (l : LoopInfo) : LoopInfo := if bool_decide (status l = Running) then set_status Stopped l else l.

(** The end of a waiting [stop_loop], when its tasks are done. *)
Definition stop_done (i : nat) (w : World) : World * bool :=
  match stoppers w !! i with
  | None => (w, false)
  | Some t =>
      if forallb (settled w) (t_loops t) then
        let w := set_stoppers (delete i (stoppers w)) w in
        (if t_all t then w else foldl (λ w o, update o mark_stopped w) w (t_loops t), true)
      else (w, false)
  end.

Definition shut (l : LoopInfo) : LoopInfo :=
  let l := if bool_decide (status l = Running) then set_status Stopped (set_stop (stop_requested l) true (cancelling l) l) else l in
  set_stop (stop_requested l) (cancel_event l) (match phase l with Settled => cancelling l | _ => true end) l.

(** [shutdown] up to its wait. *)
Definition shutdown (w : World) : World := foldl (λ w o, update o shut w) w (loops w).*2.

(** ** Steps *)

Inductive Op : Type :=
| OpStart (id : pystr) (r : Request)
| OpStop (id : pystr) (caller : option pystr)
| OpStopAll (caller : option pystr)
| OpStopDone (i : nat)
| OpShutdown
| OpSchedule (o : nat)
| OpAnswer (o : nat) (a : Answer)
| OpSent (o : nat) (interrupted : bool).

Definition apply (op : Op) (w : World) : World :=
  match op with
  | OpStart id r => default w (start_loop id r w)
  | OpStop id caller => (stop_loop id caller w).1
  | OpStopAll caller => (stop_all caller w).1
  | OpStopDone i => (stop_done i w).1
  | OpShutdown => shutdown w
  | OpSchedule o => update o (scheduled (clock w)) w
  | OpAnswer o a => update o (answered (clock w) a) w
  | OpSent o interrupted => update o (message_sent (clock w) interrupted) w
  end.

Definition pass (d : Z) (w : World) : World :=
  {| clock := clock w + Z.max 0 d; infos := infos w; loops := loops w; stoppers := stoppers w |}.

(** Some time passes before each step. *)
Definition step (w : World) (s : Z * Op) : World := apply s.2 (pass s.1 w).

Definition no_loops (now : Z) : World := {| clock := now; infos := []; loops := []; stoppers := [] |}.

End loops.

(** ** A concrete manager *)

Module LoopExample.

#[export] Instance plain : LoopText := {| scrub_output_secrets s := s |}.

Definition every (interval iterations : Z) : Request :=
  {| r_goal := lit "watch"; r_mode := Some Notify; r_interval := interval; r_condition := None; r_iterations := iterations;
     r_channel := lit "c"; r_requester := lit "u"; r_name := lit "ann"; r_web_owner := None |}.
Definition id1 : pystr := lit "l1".
Definition after (ops : list (Z * Op)) : World := run (step false) (no_loops 0) ops.
Definition shown (w : World) : list (Status * Z * Z * nat) :=
  (λ l, (status l, iteration_count l, interval_seconds l, length (sent l))) <$> infos w.

(** An iteration that says "same", its message, and its interval. *)
Definition same (interval : Z) : list (Z * Op) :=
  [(0, OpSchedule 0); (1, OpAnswer 0 (Said (lit "same"))); (1, OpSent 0 false); (interval * SECOND, OpSchedule 0)].
Definition same_again (interval : Z) : list (Z * Op) :=
  [(1, OpAnswer 0 (Said (lit "same"))); (1, OpSent 0 false); (interval * SECOND, OpSchedule 0)].

(** Three identical outputs do not slow a loop down, the fourth does; and a loop that is
    slower than an hour is sped up. *)
Example third_identical_output :
  shown (after ([(0, OpStart id1 (every 60 9))] ++ same 60 ++ same_again 60 ++ same_again 60)) = [(Running, 4, 60, 3%nat)].
Proof. vm_compute. reflexivity. Qed.
Example fourth_identical_output :
  shown (after ([(0, OpStart id1 (every 60 9))] ++ same 60 ++ same_again 60 ++ same_again 60 ++ [(1, OpAnswer 0 (Said (lit "same")))]))
  = [(Running, 4, 120, 4%nat)].
Proof. vm_compute. reflexivity. Qed.
Example slow_loop_is_sped_up :
  shown (after ([(0, OpStart id1 (every 4000 9))] ++ same 4000 ++ same_again 4000 ++ same_again 4000 ++ [(1, OpAnswer 0 (Said (lit "same")))]))
  = [(Running, 4, 3600, 4%nat)].
Proof. vm_compute. reflexivity. Qed.

(** A loop that is stopped with all others before its task first runs stays "running",
    and counts against the limit, for ever; stopped by its id it does not. *)
Example stopped_before_it_ran :
  shown (after [(0, OpStart id1 (every 60 9)); (0, OpStopAll None); (0, OpSchedule 0); (0, OpStopDone 0)]) = [(Running, 0, 60, 0%nat)]
  ∧ shown (after [(0, OpStart id1 (every 60 9)); (0, OpStop id1 None); (0, OpSchedule 0); (0, OpStopDone 0)]) = [(Stopped, 0, 60, 0%nat)].
Proof. split; vm_compute; reflexivity. Qed.

End LoopExample.

(** * The theory of autonomous loops *)

Section theory.
Context `{LoopText}.
Context (agents_enabled : bool).

#[local] Arguments lit : simpl never.
#[local] Arguments loop_text : simpl never.
#[local] Arguments build_iteration_prompt : simpl never.
#[local] Arguments context_of : simpl never.

(** ** One worker *)

(** The phases after which no iteration follows. *)
Definition over (p : Phase) : Prop :=
  match p with Settled | Announcing ThenEnd | Announcing ThenCrashed | Announcing ThenFinish => True | _ => False end.

Record tame (l : LoopInfo) : Prop := {
  t_count : 0 <= iteration_count l <= max_iterations l;
  t_max : 1 <= max_iterations l <= 1000;
  t_interval : MIN_INTERVAL_SECONDS <= interval_seconds l;
  t_errors : 0 <= consecutive_errors l <= MAX_CONSECUTIVE_ERRORS
}.

Definition ends_well (l : LoopInfo) : Prop :=
  match phase l with
  | Settled => (status l ≠ Running ∧ released l = true) ∨ iteration_count l = 0
  | Announcing ThenEnd | Announcing ThenCrashed => status l ≠ Running
  | Fresh => iteration_count l = 0 ∧ consecutive_errors l = 0
  | _ => True
  end.

Record fine (l : LoopInfo) : Prop := {
  f_tame : tame l;
  f_few : consecutive_errors l < MAX_CONSECUTIVE_ERRORS ∨ over (phase l);
  f_end : ends_well l
}.

Definition left_ (l : LoopInfo) : Z := 4 * (max_iterations l - iteration_count l).

(** How many sections the worker has left at most. *)
Definition rank (l : LoopInfo) : Z :=
  match phase l with
  | Settled => 0
  | Announcing ThenEnd | Announcing ThenCrashed => 1
  | Announcing ThenFinish => 2
  | Waiting _ | Fresh => left_ l + 3
  | Announcing (ThenPosted _) => left_ l + 4
  | Announcing (ThenPost _ _) => left_ l + 5
  | Calling _ _ => left_ l + 6
  end.

(** What a section keeps of the loop: its name, its limit and its event; an iteration
    begins only if the event is not set. *)
Record keeps (l l' : LoopInfo) : Prop := {
  k_id : loop_id l' = loop_id l;
  k_max : max_iterations l' = max_iterations l;
  k_event : cancel_event l' = cancel_event l;
  k_status : status l ≠ Running → status l' ≠ Running;
  k_count : iteration_count l' = iteration_count l ∨ cancel_event l = false ∧ iteration_count l' = iteration_count l + 1
}.

(** A section that stays within [n] of rank. *)
Record section (n : Z) (l l' : LoopInfo) : Prop := {
  s_fine : fine l';
  s_rank : rank l' <= n;
  s_keeps : keeps l l'
}.

Ltac by_cases :=
  repeat match goal with
  | |- context [if ?b then _ else _] => destruct b eqn:?
  end; bool_prop.

Lemma keeps_refl l : keeps l l.
Proof. split; [done..|by left]. Qed.

Lemma section_finish l : tame l → section 1 l (finish l).
Proof.
  intros Hl. unfold finish. destruct Hl as [Hc Hm Hi He]. by_cases; (split; [split; [by split|by right|]| |]); cbn; try lia; try done.
  all: try (by left). all: by split; [..|left].
Qed.

Lemma section_next now l : tame l → consecutive_errors l < MAX_CONSECUTIVE_ERRORS → section (left_ l + 2) l (next_iteration agents_enabled now l).
Proof.
  intros Hl Hfew. pose proof Hl as [Hc Hm Hi He]. unfold next_iteration. destruct (Z.ltb_spec (iteration_count l) (max_iterations l)) as [Hlt|Hge].
  - destruct (cancel_event l) eqn:Hev.
    + destruct (section_finish l Hl) as [Hf Hr Hk]. split; [done|unfold left_; lia|done].
    + destruct (_ <? _).
      * split; [split; [by split|by right|done]|cbn; unfold left_; lia|by split; [..|left]].
      * split; [split; [split; cbn; lia|by left|done]|unfold rank, left_; cbn; lia|by split; [..|right]].
  - destruct (section_finish l Hl) as [Hf Hr Hk]. split; [done|unfold left_; lia|done].
Qed.

Lemma section_wait now s l : tame l → consecutive_errors l < MAX_CONSECUTIVE_ERRORS → section (left_ l + 3) l (wait now s l).
Proof.
  intros Hl Hfew. pose proof Hl as [Hc Hm Hi He]. unfold wait. destruct (cancel_event l).
  - destruct (section_finish l Hl) as [Hf Hr Hk]. split; [done|unfold left_; lia|done].
  - split; [split; [by split|by left|done]|unfold rank, left_; cbn; lia|by split; [..|left]].
Qed.

Lemma section_weaken n m l l' : section n l l' → n <= m → section m l l'.
Proof. intros [Hf Hr Hk] Hle. split; [done|lia|done]. Qed.

(** A section that first changes what [keeps] and [rank] do not see. *)
Lemma section_via n l l1 l' : loop_id l1 = loop_id l → max_iterations l1 = max_iterations l → cancel_event l1 = cancel_event l →
  iteration_count l1 = iteration_count l → (status l ≠ Running → status l1 ≠ Running) → section n l1 l' → section n l l'.
Proof. intros H1 H2 H3 H4 H5 [Hf Hr [K1 K2 K3 Ks K4]]. split; [done|done|]. split; [congruence..|by intros Hs; apply Ks, H5|]. rewrite <- H3, <- H4. exact K4. Qed.

Lemma tame_same l l' : tame l → iteration_count l' = iteration_count l → max_iterations l' = max_iterations l →
  MIN_INTERVAL_SECONDS <= interval_seconds l' → 0 <= consecutive_errors l' <= MAX_CONSECUTIVE_ERRORS → tame l'.
Proof. intros [Hc Hm Hi He] H1 H2 H3 H4. split; rewrite ?H1, ?H2; done. Qed.

Lemma section_posted now stop l : tame l → consecutive_errors l < MAX_CONSECUTIVE_ERRORS → section (left_ l + 3) l (posted now stop l).
Proof.
  intros Hl Hfew. pose proof Hl as [Hc Hm Hi He]. unfold posted. destruct stop.
  - apply (section_via _ l (set_status Completed l)); [done..|]. eapply section_weaken; [apply section_finish|unfold left_; lia]. by apply (tame_same l).
  - destruct (_ <=? _); [eapply section_weaken; [by apply section_finish|unfold left_; lia]|by apply section_wait].
Qed.

Lemma section_announced n next text l : tame l → consecutive_errors l < MAX_CONSECUTIVE_ERRORS → ends_well (announce text next l) →
  rank (announce text next l) <= n → section n l (announce text next l).
Proof. intros Hl Hfew Hend Hr. split; [split; [|by left|done]|done|by split; [..|left]]. by apply (tame_same l); try apply Hl. Qed.

Lemma section_response now response stop l : tame l → consecutive_errors l < MAX_CONSECUTIVE_ERRORS →
  section (left_ l + 4) l (post_response now response stop l).
Proof.
  intros Hl Hfew. pose proof (section_posted now stop l Hl Hfew) as Hp. unfold post_response.
  destruct (_ && _); [|by eapply section_weaken; [exact Hp|lia]]. destruct (post_text _ _) as [text|]; [|by eapply section_weaken; [exact Hp|lia]].
  apply section_announced; [done..|]. unfold rank, left_. cbn. lia.
Qed.

Lemma section_succeeded now output l : tame l → section (left_ l + 5) l (iteration_succeeded now output l).
Proof.
  intros Hl. unfold iteration_succeeded. set (response := if contains _ _ then _ else _). set (stop := contains _ _).
  assert (∀ i e r, MIN_INTERVAL_SECONDS <= e → tame (set_counters i 0 e r (remember (summary_of l response) l))) as Ht.
  { intros i e r Hle. apply (tame_same l); done. }
  assert (∀ i r, section (left_ l + 5) l (post_response now response stop (set_counters i 0 (interval_seconds (remember (summary_of l response) l)) r (remember (summary_of l response) l)))) as Hpost.
  { intros i r. eapply section_via; [..|eapply section_weaken; [apply section_response|]]; try done; [apply Ht, Hl|unfold left_; cbn; lia]. }
  destruct (_ && _); [|apply Hpost]. destruct (_ <=? _); [|apply Hpost].
  eapply section_via; [..|apply section_announced]; try done; try (unfold rank, left_; cbn; lia). apply Ht. cbn.
  pose proof (t_interval l Hl). unfold MIN_INTERVAL_SECONDS in *. lia.
Qed.

Lemma section_back_off now message l : tame l → section (left_ l + 3) l (back_off now message l).
Proof.
  intros Hl. pose proof Hl as [Hc Hm Hi He]. unfold back_off. cbv zeta. set (l1 := remember _ l).
  assert (tame l1) as H1 by (by apply (tame_same l)). apply (section_via _ l l1); [done..|]. change (left_ l) with (left_ l1).
  pose proof (t_count l1 H1). destruct (Z.leb_spec MAX_CONSECUTIVE_ERRORS (consecutive_errors l1)).
  - split; [split; [by apply (tame_same l1); try apply H1|by right|done]|cbn; unfold left_ in *; lia|by split; [..|left]].
  - destruct (_ <=? _); [eapply section_weaken; [by apply section_finish|unfold left_; lia]|by apply section_wait].
Qed.

Lemma section_failed now message retry l : tame l → consecutive_errors l < MAX_CONSECUTIVE_ERRORS →
  section (left_ l + 3) l (iteration_failed now message retry l).
Proof.
  intros Hl Hfew. pose proof Hl as [Hc Hm Hi He]. unfold iteration_failed. cbv zeta. set (l1 := set_counters _ _ _ _ l).
  assert (tame l1) as H1 by (apply (tame_same l); [done..|unfold l1, retry_interval; destruct retry; cbn; lia|cbn; lia]).
  apply (section_via _ l l1); [done..|]. change (left_ l) with (left_ l1). pose proof (t_count l1 H1).
  destruct retry; [by apply section_back_off..|].
  split; [split; [by apply (tame_same l1); try apply H1|by right|done]|cbn; unfold left_ in *; lia|by split; [..|left]].
Qed.

(** Any section of a worker changes nothing or comes closer to its end. *)
Definition advances (f : LoopInfo → LoopInfo) : Prop :=
  ∀ l, fine l → f l = l ∨ section (rank l - 1) l (f l).

Lemma section_settle l : fine l → status l ≠ Running → section 0 l (settle l).
Proof. intros [Hl _ _] Hst. split; [split; [by apply (tame_same l); try apply Hl|by right|by left]|done|by split; [..|left]]. Qed.

Lemma section_cancelled l : fine l → section 0 l (cancelled l).
Proof. intros [Hl _ _]. split; [split; [by apply (tame_same l); try apply Hl|by right|by left]|done|by split; [..|left]]. Qed.

Lemma tame_swallow l : tame l → tame (swallow l).
Proof. intros Hl. by apply (tame_same l); try apply Hl. Qed.

Lemma fine_left l : fine l → 0 <= left_ l.
Proof. intros [[Hc _ _ _] _ _]. unfold left_. lia. Qed.

Lemma section_swallow n l l' : section n (swallow l) l' → section n l l'.
Proof. by apply (section_via n l (swallow l)). Qed.

Lemma advances_answered now a : advances (answered now a).
Proof.
  intros l Hl. pose proof (fine_left l Hl) as Hleft. unfold answered. destruct (phase l) as [|pr co| | |] eqn:Hp; try by left.
  assert (rank l = left_ l + 6) as Hr by (unfold rank; by rewrite Hp).
  assert (consecutive_errors l < MAX_CONSECUTIVE_ERRORS) as Hfew by (destruct (f_few l Hl) as [|Ho]; [done|by rewrite Hp in Ho]).
  pose proof (tame_swallow l (f_tame l Hl)) as Ht. change (left_ l) with (left_ (swallow l)) in *.
  destruct a as [output|message|message retry|].
  - right. apply section_swallow. destruct (cancel_event _); (eapply section_weaken; [by apply section_finish || by apply section_succeeded|lia]).
  - right. apply section_swallow. destruct (cancel_event _); (eapply section_weaken; [by apply section_finish || by apply section_failed|lia]).
  - right. apply section_swallow. eapply section_weaken; [by apply section_failed|lia].
  - destruct (cancelling l); [right|by left]. eapply section_weaken; [by apply section_cancelled|lia].
Qed.

Lemma advances_sent now interrupted : advances (message_sent now interrupted).
Proof.
  intros l Hl. pose proof (fine_left l Hl) as Hleft. unfold message_sent. destruct (phase l) as [| |next| |] eqn:Hp; try by left.
  pose proof (tame_swallow l (f_tame l Hl)) as Ht. pose proof (f_few l Hl) as Hfew. pose proof (f_end l Hl) as Hend.
  unfold ends_well in Hend. rewrite Hp in Hend, Hfew. destruct interrupted.
  - destruct (cancelling l); [right|by left]. assert (1 <= rank l) as Hr by (unfold rank; rewrite Hp; destruct next; lia).
    destruct next; try (eapply section_weaken; [by apply section_cancelled|lia]). eapply section_weaken; [by apply section_settle|lia].
  - right. apply section_swallow. change (left_ l) with (left_ (swallow l)) in *.
    destruct next as [response stop|stop| | |]; cbn [over] in Hfew; unfold rank; rewrite Hp; change (left_ l) with (left_ (swallow l)).
    + eapply section_weaken; [apply section_response; [done|by destruct Hfew]|lia].
    + eapply section_weaken; [apply section_posted; [done|by destruct Hfew]|lia].
    + eapply section_weaken; [by apply section_finish|lia].
    + split; [split; [by apply (tame_same (swallow l)); try apply Ht|by right|by left]|cbn; lia|by split; [..|left]].
    + split; [split; [by apply (tame_same (swallow l)); try apply Ht|by right|by left]|cbn; lia|by split; [..|left]].
Qed.

Lemma advances_scheduled now : advances (scheduled agents_enabled now).
Proof.
  intros l Hl. pose proof (fine_left l Hl) as Hleft. pose proof (f_tame l Hl) as Ht. unfold scheduled.
  destruct (phase l) as [| | |deadline|] eqn:Hp; try by left.
  - right. assert (rank l = left_ l + 3) as Hr by (unfold rank; by rewrite Hp). pose proof (f_end l Hl) as Hend. unfold ends_well in Hend. rewrite Hp in Hend.
    destruct Hend as [H0 He0]. destruct (cancelling l).
    + split; [split; [by apply (tame_same l); try apply Ht|by right|by right]|cbn; lia|by split; [..|left]].
    + apply (section_via _ l (set_iteration (iteration_count l) (last_trigger l) now l)); [done..|].
      eapply section_weaken; [apply section_next; [by apply (tame_same l); try apply Ht|cbn; rewrite He0; done]|unfold left_ in *; cbn; lia].
  - assert (rank l = left_ l + 3) as Hr by (unfold rank; by rewrite Hp).
    assert (consecutive_errors l < MAX_CONSECUTIVE_ERRORS) as Hfew by (destruct (f_few l Hl) as [|Ho]; [done|by rewrite Hp in Ho]).
    destruct (cancelling l); [right; eapply section_weaken; [by apply section_cancelled|lia]|].
    destruct (cancel_event l); [right; eapply section_weaken; [by apply section_finish|lia]|].
    destruct (deadline <=? now); [right|by left]. eapply section_weaken; [by apply section_next|lia].
Qed.

(** ** Evolution *)

(** How a loop may change, whatever happens. *)
Record evolves (l l' : LoopInfo) : Prop := {
  e_fine : fine l';
  e_max : max_iterations l' = max_iterations l;
  e_rank : rank l' <= rank l;
  e_event : cancel_event l = true → cancel_event l' = true ∧ iteration_count l' = iteration_count l;
  e_status : status l ≠ Running → status l' ≠ Running;
  e_settled : phase l = Settled → phase l' = Settled ∧ iteration_count l' = iteration_count l ∧ sent l' = sent l
}.

Lemma evolves_refl l : fine l → evolves l l.
Proof. by split. Qed.

Lemma loop_evolves_trans l1 l2 l3 : evolves l1 l2 → evolves l2 l3 → evolves l1 l3.
Proof.
  intros [F1 M1 R1 E1 S1 T1] [F2 M2 R2 E2 S2 T2]. split; [done|congruence|lia| |tauto|].
  - intros H1. destruct (E1 H1) as [H2 C1]. destruct (E2 H2) as [H3 C2]. split; [done|congruence].
  - intros H1. destruct (T1 H1) as (H2 & C1 & N1). destruct (T2 H2) as (H3 & C2 & N2). split_and!; [done|congruence|congruence].
Qed.

Lemma evolves_worker f l : advances f → (∀ l, phase l = Settled → f l = l) → fine l → evolves l (f l).
Proof.
  intros Hf Hs Hl. destruct (decide (phase l = Settled)) as [Hp|Hp]; [rewrite Hs by done; by apply evolves_refl|].
  destruct (Hf l Hl) as [-> |[Hf' Hr [K1 K2 K3 Ks K4]]]; [by apply evolves_refl|].
  split; [done|done|lia| |done|done]. intros He. split; [by rewrite K3|]. destruct K4 as [|[Hn _]]; [done|congruence].
Qed.

Lemma loop_evolves_same l l' : fine l → phase l' = phase l → iteration_count l' = iteration_count l → max_iterations l' = max_iterations l →
  interval_seconds l' = interval_seconds l → consecutive_errors l' = consecutive_errors l → sent l' = sent l → released l' = released l →
  (status l' = status l ∨ status l' ≠ Running) → (cancel_event l = true → cancel_event l' = true) → evolves l l'.
Proof.
  intros [Ht Hfew Hend] Hp Hc Hm Hi He Hs Hrel Hst Hev. split; [|done| |by intros H1; split; [apply Hev|]|by destruct Hst as [->|]|by rewrite Hp].
  - split; [apply (tame_same l); rewrite ?Hi, ?He; try done; apply Ht|by rewrite He, Hp|]. unfold ends_well in *. rewrite Hp, Hc, He, Hrel.
    destruct (phase l) as [| |[]| |]; try done; destruct Hst as [Hst|Hst]; rewrite ?Hst; try done; tauto.
  - unfold rank, left_. rewrite Hp, Hc, Hm. lia.
Qed.

Lemma evolves_request_stop l : fine l → evolves l (request_stop l).
Proof. intros Hl. by apply loop_evolves_same; try (by left). Qed.
Lemma evolves_request_own_stop l : fine l → evolves l (request_own_stop l).
Proof. intros Hl. by apply loop_evolves_same; try (by left). Qed.
Lemma evolves_mark_stopped l : fine l → evolves l (mark_stopped l).
Proof. intros Hl. unfold mark_stopped. case_bool_decide; [|by apply evolves_refl]. apply loop_evolves_same; try done. by right. Qed.
Lemma evolves_shut l : fine l → evolves l (shut l).
Proof. intros Hl. unfold shut. case_bool_decide; apply loop_evolves_same; try done; [by right|by left]. Qed.

(** ** The manager *)

Definition all_fine (w : World) : Prop := Forall fine (infos w).

Definition grows (w w' : World) : Prop :=
  all_fine w' ∧ ∀ o l, infos w !! o = Some l → ∃ l', infos w' !! o = Some l' ∧ evolves l l'.

Lemma grows_refl w : all_fine w → grows w w.
Proof.
  intros Hw. split; [done|]. intros o l Hl. exists l. split; [done|]. apply evolves_refl. unfold all_fine in Hw. rewrite Forall_lookup in Hw. by apply (Hw o).
Qed.

Lemma grows_trans w1 w2 w3 : grows w1 w2 → grows w2 w3 → grows w1 w3.
Proof.
  intros [_ H1] [Hf H2]. split; [done|]. intros o l Hl. destruct (H1 o l Hl) as (l2 & Hl2 & E1). destruct (H2 o l2 Hl2) as (l3 & Hl3 & E2).
  exists l3. split; [done|]. by eapply loop_evolves_trans.
Qed.

Lemma grows_same w w' : infos w' = infos w → all_fine w → grows w w'.
Proof. intros Heq Hw. unfold grows, all_fine. rewrite Heq. by apply (grows_refl w). Qed.

Lemma grows_update o f w : (∀ l, fine l → evolves l (f l)) → all_fine w → grows w (update o f w).
Proof.
  intros Hf Hw. unfold all_fine in Hw. rewrite Forall_lookup in Hw. split.
  - unfold all_fine. cbn. apply Forall_lookup. intros o' l Hl. rewrite list_lookup_alter in Hl. case_decide as Ho; [|by apply (Hw o')].
    subst o'. destruct (infos w !! o) as [l0|] eqn:Hl0; [|done]. injection Hl as <-. by apply Hf, (Hw o).
  - intros o' l Hl. cbn. destruct (decide (o = o')) as [->|Hne].
    + exists (f l). rewrite list_lookup_alter_eq, Hl. split; [done|]. by apply Hf, (Hw o').
    + exists l. rewrite list_lookup_alter_ne by done. split; [done|]. by apply evolves_refl, (Hw o').
Qed.

Lemma grows_updates f os w : (∀ o l, fine l → evolves l (f o l)) → all_fine w → grows w (foldl (λ w o, update o (f o) w) w os).
Proof.
  intros Hf. revert w. induction os as [|o os IH]; intros w Hw; [by apply grows_refl|]. cbn.
  assert (grows w (update o (f o) w)) as Ho by (apply grows_update; [apply Hf|done]). eapply grows_trans; [exact Ho|]. apply IH, Ho.
Qed.

Lemma new_loop_fine id r : fine (new_loop id r).
Proof. split; [split; cbn; unfold MIN_INTERVAL_SECONDS, MAX_CONSECUTIVE_ERRORS; lia|left; cbn; done|done]. Qed.

Lemma grows_apply op w : all_fine w → grows w (apply agents_enabled op w).
Proof.
  intros Hw. destruct op as [id r|id caller|caller|i| |o|o a|o interrupted]; cbn [apply].
  - unfold start_loop. destruct (_ <=? _)%nat; [by apply grows_refl|]. cbn. split.
    + unfold all_fine. cbn. apply Forall_app. split; [done|]. constructor; [apply new_loop_fine|constructor].
    + intros o l Hl. exists l. cbn. split; [by apply lookup_app_l_Some|]. apply evolves_refl. unfold all_fine in Hw. rewrite Forall_lookup in Hw. by apply (Hw o).
  - unfold stop_loop. destruct (dict_get _ _) as [o|]; [|by apply grows_refl]. destruct (infos w !! o) as [l|]; [|by apply grows_refl].
    destruct (negb _); [by apply grows_refl|]. case_bool_decide; cbn; [by apply grows_update; [apply evolves_request_own_stop|]|].
    eapply grows_trans; [by apply (grows_update o request_stop); [apply evolves_request_stop|]|]. apply grows_same; [done|].
    by apply (grows_update o request_stop w evolves_request_stop).
  - unfold stop_all. destruct (running w) as [|o os]; [by apply grows_refl|]. cbn [fst].
    assert (grows w (foldl (λ w' o, update o (if own w caller o then request_own_stop else request_stop) w') w (o :: os))) as Hg.
    { apply (grows_updates (λ o, if own w caller o then request_own_stop else request_stop)); [|done].
      intros o' l Hl. destruct (own w caller o'); [by apply evolves_request_own_stop|by apply evolves_request_stop]. }
    eapply grows_trans; [exact Hg|]. by apply grows_same; [|apply Hg].
  - unfold stop_done. destruct (stoppers w !! i) as [t|]; [|by apply grows_refl]. destruct (forallb _ _); [|by apply grows_refl]. cbn [fst].
    destruct (t_all t); [by apply grows_same|]. eapply grows_trans; [by apply (grows_same _ (set_stoppers (delete i (stoppers w)) w))|].
    by apply (grows_updates (λ _, mark_stopped)); [intros; apply evolves_mark_stopped|].
  - by apply (grows_updates (λ _, shut)); [intros; apply evolves_shut|].
  - apply grows_update; [|done]. intros l Hl. apply evolves_worker; [apply advances_scheduled| |done]. intros l0 Hp. unfold scheduled. by rewrite Hp.
  - apply grows_update; [|done]. intros l Hl. apply evolves_worker; [apply advances_answered| |done]. intros l0 Hp. unfold answered. by rewrite Hp.
  - apply grows_update; [|done]. intros l Hl. apply evolves_worker; [apply advances_sent| |done]. intros l0 Hp. unfold message_sent. by rewrite Hp.
Qed.

Lemma grows_step w s : all_fine w → grows w (step agents_enabled w s).
Proof. intros Hw. unfold step. eapply grows_trans; [by apply (grows_same w (pass s.1 w))|]. by apply grows_apply. Qed.

Lemma grows_run w ls : all_fine w → grows w (run (step agents_enabled) w ls).
Proof.
  intros Hw. apply (run_relation (step agents_enabled) all_fine (λ w w', all_fine w → grows w w')); [by intros; apply grows_refl| |done| |done].
  - intros a b c Hab Hbc Ha. eapply grows_trans; [by apply Hab|]. apply Hbc, Hab, Ha.
  - intros v l Hv. split; [apply grows_step, Hv|intros _; by apply grows_step].
Qed.

Lemma no_loops_fine now : all_fine (no_loops now).
Proof. constructor. Qed.

(** ** How many loops run *)

Lemma filter_length_le {A} (f g : A → bool) (l : list A) : (∀ x, x ∈ l → f x = true → g x = true) →
  (length (List.filter f l) <= length (List.filter g l))%nat.
Proof.
  induction l as [|x l IH]; cbn; intros Hfg; [done|]. assert (length (List.filter f l) <= length (List.filter g l))%nat as Hl.
  { apply IH. intros y Hy. apply Hfg. by right. }
  specialize (Hfg x ltac:(by left)). destruct (f x); [rewrite Hfg by done; cbn; lia|]. destruct (g x); cbn; lia.
Qed.

Lemma filter_dict_set (f : nat → bool) kvs k o :
  (length (List.filter f (dict_set kvs k o).*2) <= S (length (List.filter f kvs.*2)))%nat.
Proof.
  induction kvs as [|[k' o'] kvs IH]; cbn; [destruct (f o); cbn; lia|]. case_bool_decide; cbn; destruct (f o'), (f o); cbn; lia.
Qed.

Lemma dict_set_values (kvs : list (pystr * nat)) k o x : x ∈ (dict_set kvs k o).*2 → x = o ∨ x ∈ kvs.*2.
Proof.
  induction kvs as [|[k' o'] kvs IH]; cbn; [intros Hx%list_elem_of_singleton; by left|]. case_bool_decide; cbn; rewrite !elem_of_cons; tauto.
Qed.

Lemma filter_values (f : nat → bool) (kvs : list (pystr * nat)) : (List.filter (λ ko, f ko.2) kvs).*2 = List.filter f kvs.*2.
Proof. induction kvs as [|[k o] kvs IH]; cbn; [done|]. destruct (f o); cbn; by rewrite IH. Qed.

Record bounded (w : World) : Prop := {
  bo_fine : all_fine w;
  bo_known o : o ∈ (loops w).*2 → (o < length (infos w))%nat;
  bo_active : (active_count w <= MAX_CONCURRENT_LOOPS)%nat
}.

(** Nothing that leaves the map of loops alone makes one of them run. *)
Lemma grows_running w w' : bounded w → grows w w' → loops w' = loops w → bounded w'.
Proof.
  intros [Hf Hk Ha] [Hf' Hg] Hl. split; [done| |].
  - intros o Ho. rewrite Hl in Ho. apply Hk in Ho. destruct (lookup_lt_is_Some_2 _ _ Ho) as [l Hlo]. destruct (Hg o l Hlo) as (l' & Hl' & _).
    by eapply lookup_lt_Some.
  - unfold active_count, running in *. rewrite Hl. etrans; [|exact Ha]. apply filter_length_le. intros o Ho Hr. apply Hk in Ho.
    destruct (lookup_lt_is_Some_2 _ _ Ho) as [l Hlo]. destruct (Hg o l Hlo) as (l' & Hl' & Hev). unfold is_running in *. rewrite Hl' in Hr. rewrite Hlo.
    apply bool_decide_eq_true in Hr. apply bool_decide_eq_true. destruct (decide (status l = Running)) as [|Hs]; [done|].
    by apply (e_status _ _ Hev) in Hs.
Qed.

Lemma update_loops (f : nat → LoopInfo → LoopInfo) os w : loops (foldl (λ w o, update o (f o) w) w os) = loops w.
Proof. revert w. induction os as [|o os IH]; intros w; [done|]. cbn. by rewrite IH. Qed.

Lemma bounded_start id r w : bounded w → bounded (default w (start_loop id r w)).
Proof.
  intros Hw. unfold start_loop. destruct (Nat.leb_spec MAX_CONCURRENT_LOOPS (active_count w)) as [|Hlt]; [done|]. destruct Hw as [Hf Hk Ha]. cbn.
  split; unfold active_count, running in *; cbn.
  - unfold all_fine. cbn. apply Forall_app. split; [done|]. constructor; [apply new_loop_fine|constructor].
  - rewrite length_app. cbn. intros o [->|Ho]%dict_set_values; [lia|]. rewrite (filter_values (λ o, negb (stale w o))) in Ho.
    apply list_elem_of_In, filter_In in Ho as [Ho _]. apply list_elem_of_In, Hk in Ho. lia.
  - etrans; [apply filter_dict_set|]. apply Nat.le_succ_l. eapply Nat.le_lt_trans; [|exact Hlt]. rewrite (filter_values (λ o, negb (stale w o))).
    set (new := is_running _). assert (∀ o, o ∈ (loops w).*2 → new o = is_running w o) as Hnew.
    { intros o Ho. unfold new, is_running. cbn. by rewrite lookup_app_l by (by apply Hk). }
    clear Ha Hlt. induction (loops w).*2 as [|o os IH]; cbn; [done|].
    assert (length (List.filter new (List.filter (λ o, negb (stale w o)) os)) <= length (List.filter (is_running w) os))%nat as Hos.
    { apply IH; [intros o' Ho'; apply Hk|intros o' Ho'; apply Hnew]; by right. }
    pose proof (Hnew o ltac:(by left)) as Ho. destruct (negb (stale w o)); cbn; rewrite ?Ho; destruct (is_running w o); cbn; lia.
Qed.

Lemma bounded_step w s : bounded w → bounded (step agents_enabled w s).
Proof.
  intros Hw. unfold step. assert (bounded (pass s.1 w)) as Hp by (by destruct Hw). set (v := pass s.1 w) in *.
  destruct s.2 as [id r|id caller|caller|i| |o|o a|o interrupted] eqn:Hop; [by apply bounded_start|..];
    (apply (grows_running v); [done|apply grows_apply, Hp|]); cbn [apply].
  - unfold stop_loop. repeat case_match; done.
  - unfold stop_all. destruct (running v) as [|o os]; [done|]. cbn [fst set_stoppers loops].
    apply (update_loops (λ o, if own v caller o then request_own_stop else request_stop)).
  - unfold stop_done. repeat case_match; try done. cbn [fst]. etrans; [apply (update_loops (λ _, mark_stopped))|done].
  - apply (update_loops (λ _, shut)).
  - done.
  - done.
  - done.
Qed.

Lemma reachable_bounded now ls : bounded (run (step agents_enabled) (no_loops now) ls).
Proof.
  apply (run_invariant (step agents_enabled) bounded); [|intros v l; by apply bounded_step].
  split; [constructor|intros o Ho; by apply not_elem_of_nil in Ho|apply Nat.le_0_l].
Qed.

(** ** The theorems *)

(** A section of the worker of [o] that ran. *)
Definition moved (o : nat) (w : World) (s : Z * Op) : bool :=
  match s.2 with
  | OpSchedule o' | OpAnswer o' _ | OpSent o' _ => bool_decide (o' = o)
  | _ => false
  end && negb (bool_decide (infos (step agents_enabled w s) !! o = infos w !! o)).

Fixpoint moves (o : nat) (w : World) (ls : list (Z * Op)) : Z :=
  match ls with
  | [] => 0
  | s :: ls => (if moved o w s then 1 else 0) + moves o (step agents_enabled w s) ls
  end.

Lemma moved_rank o w s l : all_fine w → infos w !! o = Some l → ∃ l', infos (step agents_enabled w s) !! o = Some l'
  ∧ rank l' + (if moved o w s then 1 else 0) <= rank l.
Proof.
  intros Hw Hl. destruct (grows_step w s Hw) as [_ Hg]. destruct (Hg o l Hl) as (l' & Hl' & Hev). exists l'. split; [done|].
  pose proof (e_rank _ _ Hev). destruct (moved o w s) eqn:Hm; [|lia]. unfold moved in Hm.
  assert (fine l) as Hfl by (unfold all_fine in Hw; rewrite Forall_lookup in Hw; by apply (Hw o)).
  assert (∀ f, s.2 = s.2 → infos (update o f (pass s.1 w)) !! o = Some (f l)) as Hup by (intros f _; cbn; by rewrite list_lookup_alter_eq, Hl).
  unfold step in *. assert (∃ f, advances f ∧ apply agents_enabled s.2 (pass s.1 w) = update o f (pass s.1 w)) as (f & Hadv & Heq).
  { destruct s.2; cbn [apply] in *; try discriminate Hm; apply andb_true_iff in Hm as [Ho%bool_decide_eq_true _]; subst;
      eexists; (split; [|done]); [apply advances_scheduled|apply advances_answered|apply advances_sent]. }
  rewrite Heq, Hup in Hl' by done. injection Hl' as <-. destruct (Hadv l Hfl) as [Hsame|[_ Hr _]]; [|lia].
  apply andb_true_iff in Hm as [_ Hm]. rewrite Heq, Hup, Hsame, Hl, bool_decide_eq_true_2 in Hm by done. done.
Qed.

Lemma moves_rank o w ls l : all_fine w → infos w !! o = Some l → moves o w ls <= rank l.
Proof.
  revert w l. induction ls as [|s ls IH]; intros w l Hw Hl; cbn [moves].
  - unfold all_fine in Hw. rewrite Forall_lookup in Hw. specialize (Hw o l Hl). pose proof (fine_left l Hw). unfold rank. repeat case_match; lia.
  - destruct (moved_rank o w s l Hw Hl) as (l' & Hl' & Hr). specialize (IH (step agents_enabled w s) l' (proj1 (grows_step w s Hw)) Hl'). lia.
Qed.

(** A worker that has not settled has a section to run. *)
Lemma unsettled_moves o w l : all_fine w → infos w !! o = Some l → phase l ≠ Settled → ∃ s, moved o w s = true.
Proof.
  intros Hw Hl Hp. assert (∀ s f, apply agents_enabled s.2 (pass s.1 w) = update o f (pass s.1 w) → f l ≠ l →
    match s.2 with OpSchedule o' | OpAnswer o' _ | OpSent o' _ => bool_decide (o' = o) | _ => false end = true → moved o w s = true) as Hm.
  { intros s f Heq Hne Hk. unfold moved, step. rewrite Hk, Heq. cbn. rewrite list_lookup_alter_eq, Hl. cbn.
    apply negb_true_iff, bool_decide_eq_false. by intros [= Hfl]. }
  assert (fine l) as Hfl by (unfold all_fine in Hw; rewrite Forall_lookup in Hw; by apply (Hw o)).
  destruct (phase l) as [|pr co|next|deadline|] eqn:Hph; [| | | |done].
  - exists (0, OpSchedule o). eapply Hm; [done| |by apply bool_decide_eq_true]. cbn. intros Heq. apply (f_equal phase) in Heq. revert Heq.
    unfold scheduled. rewrite Hph. destruct (cancelling l); [done|]. unfold next_iteration, finish. repeat case_match; cbn; congruence.
  - exists (0, OpAnswer o (Raised [] RetryBad)). eapply Hm; [done| |by apply bool_decide_eq_true]. cbn. unfold answered. rewrite Hph.
    intros Heq. apply (f_equal phase) in Heq. rewrite Hph in Heq. done.
  - exists (0, OpSent o false). apply (Hm _ (message_sent (clock w + 0) false)); [done| |by apply bool_decide_eq_true].
    set (now := clock w + 0). pose proof (f_few l Hfl) as Hfew. rewrite Hph in Hfew. pose proof (tame_swallow l (f_tame l Hfl)) as Ht.
    intros Hs. apply (f_equal rank) in Hs. unfold message_sent in Hs. rewrite Hph in Hs. unfold rank in Hs at 2. rewrite Hph in Hs. revert Hs.
    assert (left_ (swallow l) = left_ l) as Hleft by done. destruct next as [response stop|stop| | |]; cbn [over] in Hfew; intros Hs; try done.
    + pose proof (s_rank _ _ _ (section_response now response stop _ Ht ltac:(by destruct Hfew))). lia.
    + pose proof (s_rank _ _ _ (section_posted now stop _ Ht ltac:(by destruct Hfew))). lia.
    + pose proof (s_rank _ _ _ (section_finish _ Ht)). lia.
  - exists (deadline - clock w, OpSchedule o). eapply Hm; [done| |by apply bool_decide_eq_true]. cbn [snd fst]. intros Heq. apply (f_equal phase) in Heq.
    revert Heq. rewrite Hph. unfold scheduled. rewrite Hph. cbn [clock pass]. destruct (cancelling l); [done|].
    destruct (cancel_event l) eqn:Hev; [unfold finish; repeat case_match; done|]. destruct (Z.leb_spec deadline (clock w + Z.max 0 (deadline - clock w))); [|lia].
    unfold next_iteration, finish. rewrite Hev. repeat case_match; done.
Qed.

Lemma marked_stopped os w o l : all_fine w → o ∈ os → infos (foldl (λ w o, update o mark_stopped w) w os) !! o = Some l → status l ≠ Running.
Proof.
  revert w. induction os as [|o' os IH]; intros w Hw Ho Hl; [by apply not_elem_of_nil in Ho|]. cbn in Hl.
  assert (grows w (update o' mark_stopped w)) as Hg by (by apply grows_update; [apply evolves_mark_stopped|]).
  apply elem_of_cons in Ho as [<-|Ho]; [|by apply (IH (update o' mark_stopped w)); [apply Hg|..]].
  destruct (infos w !! o) as [l0|] eqn:Hl0.
  - destruct (grows_updates (λ _, mark_stopped) os (update o mark_stopped w)) as [_ Hg']; [intros; by apply evolves_mark_stopped|apply Hg|].
    destruct (Hg' o (mark_stopped l0)) as (l' & Hl' & Hev); [cbn; by rewrite list_lookup_alter_eq, Hl0|]. rewrite Hl in Hl'. injection Hl' as <-.
    apply (e_status _ _ Hev). unfold mark_stopped. by case_bool_decide.
  - apply lookup_lt_Some in Hl. apply lookup_ge_None in Hl0. exfalso. clear IH Hw Hg. revert Hl.
    assert (∀ os v, length (infos (foldl (λ w o, update o mark_stopped w) v os)) = length (infos v)) as Hlen.
    { intros os'. induction os' as [|x os' IH]; intros v; [done|]. cbn. rewrite IH. cbn. apply length_alter. }
    rewrite Hlen. cbn. rewrite length_alter. lia.
Qed.

(** C21: When a stop of a running loop was requested, by others or from inside the loop,
    no iteration of it begins any more, whatever happens.  When the call that waited
    says so, the task is over: it stays settled, and posts nothing more; and a loop
    stopped by its id is not shown as running again. *)
Theorem stopped_loops_begin_nothing now ls1 ls2 w o l :
  w = run (step agents_enabled) (no_loops now) ls1 → infos w !! o = Some l →
  (∀ id caller w1 reply, dict_get (loops w) id = Some o → stop_loop id caller w = (w1, reply) → reply = MustWait ∨ reply = OwnRequested →
     ∃ l', infos (run (step agents_enabled) w1 ls2) !! o = Some l' ∧ iteration_count l' = iteration_count l)
  ∧ (∀ i t w1, stoppers w !! i = Some t → stop_done i w = (w1, true) → o ∈ t_loops t →
     ∃ l', infos (run (step agents_enabled) w1 ls2) !! o = Some l' ∧ phase l' = Settled ∧ iteration_count l' = iteration_count l
       ∧ sent l' = sent l ∧ (t_all t = false → status l' ≠ Running)).
Proof.
  intros Hrun Hl. assert (all_fine w) as Hw by (rewrite Hrun; apply reachable_bounded). split.
  - intros id caller w1 reply Hid Hstop Hreply. pose proof (grows_apply (OpStop id caller) w Hw) as Hg. cbn [apply] in Hg. rewrite Hstop in Hg. cbn in Hg.
    destruct (grows_run w1 ls2 (proj1 Hg)) as [_ Hrest]. unfold stop_loop in Hstop. rewrite Hid, Hl in Hstop.
    assert (∃ l1, infos w1 !! o = Some l1 ∧ cancel_event l1 = true ∧ iteration_count l1 = iteration_count l) as (l1 & Hl1 & Hev & Hcnt).
    { destruct (negb _); [injection Hstop as _ <-; by destruct Hreply|]. case_bool_decide; injection Hstop as <- _; cbn;
        rewrite list_lookup_alter_eq, Hl; by eexists. }
    destruct (Hrest o l1 Hl1) as (l' & Hl' & Hevo). exists l'. split; [done|]. destruct (e_event _ _ Hevo Hev). congruence.
  - intros i t w1 Hi Hdone Ho. pose proof (grows_apply (OpStopDone i) w Hw) as Hg. cbn [apply] in Hg. rewrite Hdone in Hg. cbn in Hg.
    destruct (grows_run w1 ls2 (proj1 Hg)) as [_ Hrest]. unfold stop_done in Hdone. rewrite Hi in Hdone.
    destruct (forallb (settled w) (t_loops t)) eqn:Hall; [|discriminate Hdone]. apply forallb_elem in Hall. rewrite Forall_forall in Hall.
    specialize (Hall o Ho). unfold settled in Hall. rewrite Hl in Hall. assert (phase l = Settled) as Hp by (by destruct (phase l)).
    destruct (proj2 Hg o l Hl) as (l1 & Hl1 & E1). destruct (Hrest o l1 Hl1) as (l' & Hl' & E2). exists l'. split; [done|].
    destruct (e_settled _ _ (loop_evolves_trans _ _ _ E1 E2) Hp) as (Hp' & Hc' & Hs'). split_and!; [done..|]. intros Hone. rewrite Hone in Hdone.
    injection Hdone as <-. apply (e_status _ _ E2). by apply (marked_stopped (t_loops t) (set_stoppers (delete i (stoppers w)) w) o l1).
Qed.

(** C36: Every loop ends.  It never runs more iterations than it was given, a thousand at
    most, its worker has at most six sections for the limit and four for every
    iteration, and until it is settled one of them can run.  A settled loop that ever
    iterated is no longer shown as running and its calibration is released; and at most
    ten loops are shown as running. *)
Theorem loops_end_within_their_limits now ls ls2 w :
  w = run (step agents_enabled) (no_loops now) ls → (active_count w <= MAX_CONCURRENT_LOOPS)%nat
  ∧ ∀ o l, infos w !! o = Some l →
      0 <= iteration_count l <= max_iterations l ∧ max_iterations l <= 1000 ∧ MIN_INTERVAL_SECONDS <= interval_seconds l
      ∧ moves o w ls2 <= 4 * max_iterations l + 6
      ∧ (phase l ≠ Settled → ∃ s, moved o w s = true)
      ∧ (phase l = Settled → (status l ≠ Running ∧ released l = true) ∨ iteration_count l = 0).
Proof.
  intros ->. destruct (reachable_bounded now ls) as [Hw _ Ha]. split; [done|]. intros o l Hl. pose proof Hw as Hf. unfold all_fine in Hf.
  rewrite Forall_lookup in Hf. destruct (Hf o l Hl) as [[Hc Hm Hi _] _ Hend]. split_and!; try lia; try done.
  - etrans; [by apply moves_rank|]. unfold rank, left_. repeat case_match; lia.
  - intros Hp. by eapply unsettled_moves.
  - intros Hp. unfold ends_well in Hend. by rewrite Hp in Hend.
Qed.

End theory.

Module LoopWitness.
Import LoopExample.

(** A loop that was stopped in its first iteration, whose callback then gave up. *)
Definition stopping : list (Z * Op) :=
  [(0, OpStart id1 (every 60 9)); (0, OpSchedule 0); (1, OpStop id1 None); (1, OpAnswer 0 Cancelled)].
Definition stopped_world : World := after stopping.
Definition stopped_loop : LoopInfo := match infos stopped_world with l :: _ => l | [] => new_loop [] (every 0 0) end.
Definition the_stop : Stopping := {| t_loops := [0%nat]; t_all := false |}.

Lemma it_is_stopped : infos stopped_world !! 0%nat = Some stopped_loop ∧ stoppers stopped_world !! 0%nat = Some the_stop
  ∧ (stop_done 0 stopped_world).2 = true.
Proof. split_and!; vm_compute; reflexivity. Qed.

Definition later : list (Z * Op) := [(60 * SECOND, OpSchedule 0); (0, OpShutdown)].

Lemma stopped_loops_begin_nothing_witness : ∃ l', infos (run (step false) (stop_done 0 stopped_world).1 later) !! 0%nat = Some l'
  ∧ phase l' = Settled ∧ iteration_count l' = iteration_count stopped_loop ∧ sent l' = sent stopped_loop ∧ (false = false → status l' ≠ Running).
Proof.
  destruct it_is_stopped as (Hl & Ht & Hd).
  apply (proj2 (stopped_loops_begin_nothing false 0 stopping later stopped_world 0 stopped_loop eq_refl Hl) 0%nat the_stop); [exact Ht| |by apply list_elem_of_singleton].
  exact (injective_projections (stop_done 0 stopped_world) ((stop_done 0 stopped_world).1, true) eq_refl Hd).
Defined.

Lemma loops_end_within_their_limits_witness : iteration_count stopped_loop <= max_iterations stopped_loop
  ∧ ((status stopped_loop ≠ Running ∧ released stopped_loop = true) ∨ iteration_count stopped_loop = 0).
Proof.
  destruct (proj2 (loops_end_within_their_limits false 0 stopping [] stopped_world eq_refl) 0%nat stopped_loop (proj1 it_is_stopped))
    as (H1 & _ & _ & _ & _ & H2).
  split; [exact (proj2 H1)|]. apply H2. vm_compute. reflexivity.
Defined.

End LoopWitness.
