(* ===== verification/ChannelState.v ===== *)
(** * The state of the channels (src/src/discord/channel_state.py)

    Which request owns a channel, how it is stopped and steered, and where the reports
    of its agents go.  Events, waiters and mailboxes are objects: a turn keeps its own
    when the channel's maps move on to another request, so they live on heaps and the
    maps hold references.  Every method runs without an await and is one step;
    [drain_inbox] of discord/tool_loop.py is how a turn reads its mailbox.

    [stops_reach_their_turn]: a stop reaches the turn it names and no other, and is
    confirmed by nothing but that turn's own settlement.  [steering_is_settled_once]:
    every directive that was admitted is read by its turn, or closed, exactly once.

    A resumed turn brings an event that was made before it: the event of its channel.
    Receipts to the senders of directives and the texts of refusals are left out. *)

From S2P Require Import Prelude PyStr PyLib AgentReports.
From stdpp Require Import gmap.
Open Scope string_scope.
Open Scope list_scope.
Open Scope Z_scope.

Definition STEER_MESSAGE_MAX_CHARS : nat := 4000.
Definition STEER_MESSAGES_PER_TURN : Z := 128.
Definition REPORT_CLOSURES_KEPT : nat := 256.

(** ** Data *)

Record Item := { i_sequence : Z; i_text : pystr; i_user : pystr }.

#[export] Instance Item_eq_dec : EqDecision Item.
Proof. solve_decision. Defined.

(** [ChatTurnInbox]; [directives] are the messages its turn has appended. *)
Record Inbox := {
  requester_id : pystr;
  requester_authority : option pystr;
  queue : list Item;
  wake : bool;
  inbox_sequence : Z;
  last_consumed_sequence : Z;
  inbox_events : list (Kind * Z * Z);
  inbox_accepting : bool;
  reports : ReportMailbox;
  directives : list Item
}.

Definition new_inbox (who : pystr) (authority : option pystr) (last : Z) (box : ReportMailbox) : Inbox :=
  {| requester_id := who; requester_authority := authority; queue := []; wake := false; inbox_sequence := last;
     last_consumed_sequence := last; inbox_events := []; inbox_accepting := true; reports := box; directives := [] |}.

Definition set_inbox (q : list Item) (wk : bool) (n last : Z) (evs : list (Kind * Z * Z)) (acc : bool) (ds : list Item) (b : Inbox) : Inbox :=
  {| requester_id := requester_id b; requester_authority := requester_authority b; queue := q; wake := wk; inbox_sequence := n;
     last_consumed_sequence := last; inbox_events := evs; inbox_accepting := acc; reports := reports b; directives := ds |}.
Definition set_reports (m : ReportMailbox) (b : Inbox) : Inbox :=
  {| requester_id := requester_id b; requester_authority := requester_authority b; queue := queue b; wake := wake b;
     inbox_sequence := inbox_sequence b; last_consumed_sequence := last_consumed_sequence b; inbox_events := inbox_events b;
     inbox_accepting := inbox_accepting b; reports := m; directives := directives b |}.

Record StopResult := { stop_text : pystr; confirmed : bool }.

(** A channel and a request. *)
Notation Key := (pystr * pystr)%type.

Record Requests := {
  events : list bool;
  cancel_events : gmap pystr nat;
  cancel_request_ids : gmap pystr pystr;
  active_requests : gmap pystr pystr;
  active_request_tasks : gmap pystr nat;
  done_tasks : gset nat;
  futures : list (option StopResult);
  stop_results : gmap pystr nat;
  stop_waiters : gmap Key nat
}.

Record Steering := {
  inboxes : list Inbox;
  steer_inboxes : list (Key * nat);
  steering_closed : bool;
  report_closures : list (Key * pystr)
}.

(** The locks of the channels, the messages seen, and what was done lately. *)
Record Caches := {
  locks : list bool;
  channel_locks : gmap pystr nat;
  processed_messages : list Z;
  recent_actions : gmap pystr (list (Z * pystr));
  pending_files : gmap pystr (list pystr)
}.

Record Settings := {
  processed_messages_max : nat;
  recent_actions_max : nat;
  recent_actions_expiry : Z
}.

Definition set_events (es : list bool) (ce : gmap pystr nat) (ids : gmap pystr pystr) (r : Requests) : Requests :=
  {| events := es; cancel_events := ce; cancel_request_ids := ids; active_requests := active_requests r;
     active_request_tasks := active_request_tasks r; done_tasks := done_tasks r; futures := futures r; stop_results := stop_results r;
     stop_waiters := stop_waiters r |}.
Definition set_active (act : gmap pystr pystr) (ts : gmap pystr nat) (done_ : gset nat) (r : Requests) : Requests :=
  {| events := events r; cancel_events := cancel_events r; cancel_request_ids := cancel_request_ids r; active_requests := act;
     active_request_tasks := ts; done_tasks := done_; futures := futures r; stop_results := stop_results r; stop_waiters := stop_waiters r |}.
Definition set_waiters (fs : list (option StopResult)) (res : gmap pystr nat) (ws : gmap Key nat) (r : Requests) : Requests :=
  {| events := events r; cancel_events := cancel_events r; cancel_request_ids := cancel_request_ids r; active_requests := active_requests r;
     active_request_tasks := active_request_tasks r; done_tasks := done_tasks r; futures := fs; stop_results := res; stop_waiters := ws |}.

Definition set_boxes (bs : list Inbox) (si : list (Key * nat)) (s : Steering) : Steering :=
  {| inboxes := bs; steer_inboxes := si; steering_closed := steering_closed s; report_closures := report_closures s |}.
Definition set_closures (closed : bool) (cs : list (Key * pystr)) (s : Steering) : Steering :=
  {| inboxes := inboxes s; steer_inboxes := steer_inboxes s; steering_closed := closed; report_closures := cs |}.

(** Dicts with keys of any kind, in insertion order. *)
Section dict.
Context {K V : Type} `{EqDecision K}.
Fixpoint key_get (d : list (K * V)) (k : K) : option V :=
  match d with [] => None | (k', v) :: d => if bool_decide (k = k') then Some v else key_get d k end.
Definition key_del (d : list (K * V)) (k : K) : list (K * V) := List.filter (λ kv, negb (bool_decide (k = kv.1))) d.
Fixpoint key_set (d : list (K * V)) (k : K) (v : V) : list (K * V) :=
  match d with
  | [] => [(k, v)]
  | (k', v') :: d => if bool_decide (k = k') then (k', v) :: d else (k', v') :: key_set d k v
  end.
End dict.

(** ** Requests *)

Definition event_set (r : Requests) (e : nat) : bool := default false (events r !! e).

Definition is_cancelled (r : Requests) (c : pystr) : bool :=
  match cancel_events r !! c with Some e => event_set r e | None => false end.

Definition stopping (r : Requests) (c req : pystr) : bool :=
  bool_decide (cancel_request_ids r !! c = Some req) && is_cancelled r c.

Definition resolve (f : nat) (res : StopResult) (fs : list (option StopResult)) : list (option StopResult) :=
  alter (λ v, match v with None => Some res | Some _ => v end) f fs.

(** [if self.stop_results.get(channel_id) is waiter: pop] *)
Definition drop_result (c : pystr) (f : option nat) (res : gmap pystr nat) : gmap pystr nat :=
  if bool_decide (res !! c = f) then delete c res else res.

(** [request_stop]: the request and its waiter. *)
Definition request_stop (c : pystr) (r : Requests) : Requests * option (pystr * nat) :=
  match active_requests r !! c with
  | None => (r, None)
  | Some req =>
      let bound := match cancel_events r !! c with
                   | Some e => if bool_decide (cancel_request_ids r !! c = Some req) then Some e else None
                   | None => None
                   end in
      let '(r, e) := match bound with
                     | Some e => (r, e)
                     | None => (set_events (events r ++ [false]) (<[c := length (events r)]> (cancel_events r))
                                  (<[c := req]> (cancel_request_ids r)) r, length (events r))
                     end in
      let '(fs, ws, f) := match stop_waiters r !! (c, req) with
                          | Some f => (futures r, stop_waiters r, f)
                          | None => (futures r ++ [None], <[(c, req) := length (futures r)]> (stop_waiters r), length (futures r))
                          end in
      let r := set_waiters fs (<[c := f]> (stop_results r)) ws r in
      (set_events (alter (λ _, true) e (events r)) (cancel_events r) (cancel_request_ids r) r, Some (req, f))
  end.

(** [finish_stop] *)
Definition finish_stop (c req text : pystr) (r : Requests) : Requests :=
  let w := stop_waiters r !! (c, req) in
  let fs := match w with Some f => resolve f {| stop_text := text; confirmed := true |} (futures r) | None => futures r end in
  set_waiters fs (drop_result c w (stop_results r)) (delete (c, req) (stop_waiters r)) r.

(** [expire_stop_waiter] *)
Definition expire_stop_waiter (c req : pystr) (f : nat) (r : Requests) : Requests :=
  set_waiters (futures r) (drop_result c (Some f) (stop_results r))
    (if bool_decide (stop_waiters r !! (c, req) = Some f) then delete (c, req) (stop_waiters r) else stop_waiters r) r.

Definition ALREADY_FINISHED : pystr := Eval compute in lit "Task had already finished before /stop took effect.".
Definition NO_ACTIVE_TASK : pystr := Eval compute in lit "No active task in this channel.".

(** The part of [clear_active_request] about the request itself. *)
Definition release_request (c req : pystr) (resolve_stop_waiter : bool) (r : Requests) : Requests :=
  if bool_decide (active_requests r !! c = Some req) then
    let w := stop_waiters r !! (c, req) in
    let r := if resolve_stop_waiter
             then set_waiters (match w with
                               | Some f => resolve f {| stop_text := ALREADY_FINISHED; confirmed := false |} (futures r)
                               | None => futures r
                               end) (drop_result c w (stop_results r)) (delete (c, req) (stop_waiters r)) r
             else r in
    let r := set_active (delete c (active_requests r)) (delete c (active_request_tasks r)) (done_tasks r) r in
    if bool_decide (cancel_request_ids r !! c = Some req) then
      set_events (match cancel_events r !! c with Some e => alter (λ _, false) e (events r) | None => events r end)
        (cancel_events r) (delete c (cancel_request_ids r)) r
    else r
  else r.

(** ** Steering *)

Definition remember_report_closure (k : Key) (reason : pystr) (s : Steering) : Steering :=
  let cs := key_del (report_closures s) k ++ [(k, reason)] in
  set_closures (steering_closed s) (drop (length cs - REPORT_CLOSURES_KEPT) cs) s.

Definition FINISHED : pystr := Eval compute in lit "finished".
Definition REPLACED : pystr := Eval compute in lit "replaced".
Definition SHUTDOWN : pystr := Eval compute in lit "shutdown".

Definition update_box (o : nat) (f : Inbox → Inbox) (s : Steering) : Steering := set_boxes (alter f o (inboxes s)) (steer_inboxes s) s.

Definition close_box_reports (o : nat) (k : Key) (reason : pystr) (now : Z) (s : Steering) : Steering :=
  match inboxes s !! o with
  | Some b => if accepting (reports b)
              then remember_report_closure k reason (update_box o (λ b, set_reports (close_box reason now (reports b)) b) s)
              else s
  | None => s
  end.

Definition close_reports (k : Key) (reason : pystr) (now : Z) (s : Steering) : Steering :=
  match key_get (steer_inboxes s) k with Some o => close_box_reports o k reason now s | None => s end.

(** The directives that are left are closed in their order. *)
Definition close_queue (now : Z) (b : Inbox) : Inbox :=
  set_inbox [] (match queue b with [] => wake b | _ => false end) (inbox_sequence b) (last_consumed_sequence b)
    (inbox_events b ++ ((λ i, (Was_closed, i_sequence i, now)) <$> queue b)) false (directives b) b.

(** [close_steer_inbox] *)
Definition close_steer_inbox (k : Key) (now : Z) (s : Steering) : Steering :=
  match key_get (steer_inboxes s) k with
  | Some o =>
      let s := set_boxes (inboxes s) (key_del (steer_inboxes s) k) s in
      update_box o (close_queue now) (close_box_reports o k FINISHED now s)
  | None => s
  end.

(** [shutdown_steering] up to its wait for the receipts. *)
Definition shutdown_steering (now : Z) (s : Steering) : Steering :=
  foldl (λ s k, close_steer_inbox k now (close_reports k SHUTDOWN now s)) (set_closures true (report_closures s) s) (steer_inboxes s).*1.

(** [drain_reports] of the turn, and its [drain_inbox]: reports ride ahead of steering. *)
Definition drain_box_reports (now : Z) (b : Inbox) : Inbox := set_reports (drain now (reports b)).1 b.

Definition drain_inbox (now : Z) (b : Inbox) : Inbox :=
  match queue b with
  | [] => b
  | q => set_inbox [] false (inbox_sequence b) (default (last_consumed_sequence b) (i_sequence <$> last q))
           (inbox_events b ++ ((λ i, (Was_consumed, i_sequence i, now)) <$> q)) (inbox_accepting b) (directives b ++ q) (drain_box_reports now b)
  end.

Inductive SteerStatus : Type := Sent_queued (sequence : Z) | No_turn | Denied | Is_stopping | Empty_text | Text_too_long | Limit.

(** Who sends a directive: a user, whether an administrator, and the authority of an API
    caller. *)
Record Steerer := { st_user : pystr; st_admin : bool; st_authority : option pystr }.

Definition may_steer (u : Steerer) (b : Inbox) : bool :=
  st_admin u || (bool_decide (st_user u = requester_id b)
                 && match st_authority u with Some a => bool_decide (requester_authority b = Some a) | None => true end).

Definition enqueue (text : pystr) (u : Steerer) (now : Z) (b : Inbox) : Inbox :=
  let n := inbox_sequence b + 1 in
  set_inbox (queue b ++ [{| i_sequence := n; i_text := text; i_user := st_user u |}]) true n (last_consumed_sequence b)
    (inbox_events b ++ [(Was_queued, n, now)]) (inbox_accepting b) (directives b) b.

(** ** The registry *)

Record Registry := { requests : Requests; steering : Steering; caches : Caches }.

Definition with_requests (r : Requests) (w : Registry) : Registry := {| requests := r; steering := steering w; caches := caches w |}.
Definition with_steering (s : Steering) (w : Registry) : Registry := {| requests := requests w; steering := s; caches := caches w |}.
Definition with_caches (k : Caches) (w : Registry) : Registry := {| requests := requests w; steering := steering w; caches := k |}.

(** [cancel_event]: [setdefault]; turn_resume.py:537 does the same for the turn it brings
    back. *)
Definition cancel_event (c : pystr) (r : Requests) : Requests :=
  match cancel_events r !! c with
  | Some _ => r
  | None => set_events (events r ++ [false]) (<[c := length (events r)]> (cancel_events r)) (cancel_request_ids r) r
  end.

(** The event of the turn: its own, or the one a resumed turn brings, cleared. *)
Definition turn_event (ev : option nat) (r : Requests) : nat := default (length (events r)) ev.
Definition with_event (ev : option nat) (es : list bool) : list bool :=
  match ev with Some e => alter (λ _, false) e es | None => es ++ [false] end.

(** [set_active_request] with the task that runs it. *)
Definition own_request (c req : pystr) (ev task : option nat) (r : Requests) : Requests :=
  let r := set_events (with_event ev (events r)) (<[c := turn_event ev r]> (cancel_events r)) (<[c := req]> (cancel_request_ids r)) r in
  let r := set_active (<[c := req]> (active_requests r))
             (match task with Some t => <[c := t]> (active_request_tasks r) | None => delete c (active_request_tasks r) end) (done_tasks r) r in
  set_waiters (futures r) (delete c (stop_results r)) (stop_waiters r) r.

Definition set_active_request (c req : pystr) (ev task : option nat) (now : Z) (w : Registry) : Registry :=
  let s := match active_requests (requests w) !! c with
           | Some previous => close_steer_inbox (c, previous) now (close_reports (c, previous) REPLACED now (steering w))
           | None => steering w
           end in
  {| requests := own_request c req ev task (requests w); steering := s; caches := caches w |}.

Definition rebind_reports (k : Key) (b : Inbox) : Inbox :=
  let m := reports b in
  set_reports {| next_sequence := next_sequence m; owner := recipient_of (For_turn k.1 k.2); box_incarnation := box_incarnation m;
                 accepting := accepting m; closed_reason := closed_reason m; pending := pending m; pending_chars := pending_chars m;
                 history := history m; totals := totals m; dropped_events := dropped_events m |} b.

Definition refuse_box (reason : pystr) (now : Z) (b : Inbox) : Inbox :=
  set_inbox (queue b) (wake b) (inbox_sequence b) (last_consumed_sequence b) (inbox_events b) false (directives b)
    (set_reports (close_box reason now (reports b)) b).

(** [bind_steer_inbox] of a mailbox that is object [o]. *)
Definition bind_steer_inbox (k : Key) (o : nat) (now : Z) (w : Registry) : Registry :=
  let s := steering w in
  if steering_closed s || negb (bool_decide (active_requests (requests w) !! k.1 = Some k.2)) then
    let reason := if steering_closed s then SHUTDOWN else REPLACED in
    with_steering (remember_report_closure k reason (update_box o (refuse_box reason now) s)) w
  else if bool_decide (key_get (steer_inboxes s) k = Some o) then w
  else
    let s := match key_get (steer_inboxes s) k with
             | Some _ => close_steer_inbox k now (close_reports k REPLACED now s)
             | None => s
             end in
    let s := update_box o (rebind_reports k) s in
    let s := set_closures (steering_closed s) (key_del (report_closures s) k) s in
    with_steering (set_boxes (inboxes s) (key_set (steer_inboxes s) k o) s) w.

(** [clear_active_request] *)
Definition clear_active_request (c req : pystr) (resolve_stop_waiter : bool) (now : Z) (w : Registry) : Registry :=
  {| requests := release_request c req resolve_stop_waiter (requests w); steering := close_steer_inbox (c, req) now (steering w);
     caches := caches w |}.

(** [report_endpoint] *)
Definition report_endpoint (k : Key) (w : Registry) : ReportEndpoint :=
  let s := steering w in
  let closed := {| ep_status := Ep_closed; mailbox := None;
                   ep_reason := match key_get (report_closures s) k with
                                | Some reason => Some reason
                                | None => if steering_closed s then Some SHUTDOWN else None
                                end; ep_label := [] |} in
  match key_get (steer_inboxes s) k ≫= λ o, inboxes s !! o with
  | None => closed
  | Some b =>
      if negb (accepting (reports b)) || negb (bool_decide (active_requests (requests w) !! k.1 = Some k.2)) then closed
      else if stopping (requests w) k.1 k.2 then {| ep_status := Ep_stopping; mailbox := None; ep_reason := None; ep_label := [] |}
      else {| ep_status := Ep_open; mailbox := Some (reports b); ep_reason := None; ep_label := [] |}
  end.

(** [admit_steer] *)
Definition admit_steer (c text : pystr) (u : Steerer) (now : Z) (w : Registry) : Registry * SteerStatus :=
  match active_requests (requests w) !! c with
  | None => (w, No_turn)
  | Some req =>
      match (if nonempty req then key_get (steer_inboxes (steering w)) (c, req) else None) with
      | None => (w, No_turn)
      | Some o =>
          match inboxes (steering w) !! o with
          | None => (w, No_turn)
          | Some b =>
              if negb (inbox_accepting b) then (w, No_turn)
              else if negb (may_steer u b) then (w, Denied)
              else if stopping (requests w) c req then (w, Is_stopping)
              else if negb (nonempty (strip text)) then (w, Empty_text)
              else if (STEER_MESSAGE_MAX_CHARS <? length text)%nat then (w, Text_too_long)
              else if STEER_MESSAGES_PER_TURN <=? inbox_sequence b then (w, Limit)
              else (with_steering (update_box o (enqueue text u now) (steering w)) w, Sent_queued (inbox_sequence b + 1))
          end
      end
  end.

(** ** Caches and housekeeping *)

Definition lock_held (k : Caches) (l : nat) : bool := default false (locks k !! l).

(** [lock_for]: [setdefault] *)
Definition lock_for (c : pystr) (k : Caches) : Caches * nat :=
  match channel_locks k !! c with
  | Some l => (k, l)
  | None => ({| locks := locks k ++ [false]; channel_locks := <[c := length (locks k)]> (channel_locks k);
                processed_messages := processed_messages k; recent_actions := recent_actions k; pending_files := pending_files k |},
             length (locks k))
  end.

Definition set_lock (l : nat) (v : bool) (k : Caches) : Caches :=
  {| locks := alter (λ _, v) l (locks k); channel_locks := channel_locks k; processed_messages := processed_messages k;
     recent_actions := recent_actions k; pending_files := pending_files k |}.

Section caches.
Context (cfg : Settings).

(** [seen_message]: whether it is a duplicate. *)
Definition seen_message (m : Z) (k : Caches) : Caches * bool :=
  if bool_decide (m ∈ processed_messages k) then (k, true)
  else
    let ms := processed_messages k ++ [m] in
    ({| locks := locks k; channel_locks := channel_locks k;
        processed_messages := drop (length ms - processed_messages_max cfg) ms;
        recent_actions := recent_actions k; pending_files := pending_files k |}, false).

Definition track_recent_action (c entry : pystr) (now : Z) (k : Caches) : Caches :=
  let acts := default [] (recent_actions k !! c) ++ [(now, entry)] in
  let acts := if (recent_actions_max cfg <? length acts)%nat
              then match recent_actions_max cfg with O => acts | n => drop (length acts - n) acts end else acts in
  {| locks := locks k; channel_locks := channel_locks k; processed_messages := processed_messages k;
     recent_actions := <[c := acts]> (recent_actions k); pending_files := pending_files k |}.

Definition fresh_actions (now : Z) (acts : list (Z * pystr)) : list (Z * pystr) :=
  List.filter (λ a, now - a.1 <? recent_actions_expiry cfg) acts.

Definition recent_entries (c : pystr) (now : Z) (k : Caches) : list pystr :=
  (fresh_actions now (default [] (recent_actions k !! c))).*2.

(** The caches' part of [cleanup]: a lock that is held stays. *)
Definition clean_caches (active : gset pystr) (now : Z) (k : Caches) : Caches :=
  {| locks := locks k;
     channel_locks := filter (λ cl, cl.1 ∈ active ∨ lock_held k cl.2 = true) (channel_locks k);
     processed_messages := processed_messages k;
     recent_actions := omap (λ acts, match fresh_actions now acts with [] => None | acts => Some acts end) (recent_actions k);
     pending_files := filter (λ cf, cf.1 ∈ active) (pending_files k) |}.
End caches.

Definition turn_running (r : Requests) (c : pystr) : bool :=
  match active_request_tasks r !! c with Some t => negb (bool_decide (t ∈ done_tasks r)) | None => false end.

(** The channels whose event, then whose request, [cleanup] forgets. *)
Definition stale (active : gset pystr) (r : Requests) (c : pystr) : bool :=
  negb (bool_decide (c ∈ active)) && negb (is_cancelled r c) && negb (turn_running r c).

Definition forget_events (active : gset pystr) (r : Requests) : Requests :=
  let gone c := is_Some (cancel_events r !! c) ∧ stale active r c = true in
  set_events (events r) (filter (λ ce, ¬ gone ce.1) (cancel_events r)) (filter (λ ci, ¬ gone ci.1) (cancel_request_ids r)) r.

Definition stale_active (active : gset pystr) (r : Requests) : list Key :=
  List.filter (λ cr, stale active r cr.1) (map_to_list (active_requests r)).

(** The waiters nobody will answer any more. *)
Definition orphaned (active : gset pystr) (r : Requests) (c : pystr) : bool :=
  negb (bool_decide (is_Some (active_requests r !! c))) && negb (bool_decide (c ∈ active)).

Definition no_task : StopResult := {| stop_text := NO_ACTIVE_TASK; confirmed := false |}.

Definition sweep_results (active : gset pystr) (r : Requests) : Requests :=
  set_waiters (foldl (λ fs cf, if orphaned active r cf.1 then resolve cf.2 no_task fs else fs) (futures r) (map_to_list (stop_results r)))
    (filter (λ cf, orphaned active r cf.1 = false) (stop_results r)) (stop_waiters r) r.

Definition sweep_waiters (active : gset pystr) (r : Requests) : Requests :=
  set_waiters (foldl (λ fs kf, if orphaned active r kf.1.1 then resolve kf.2 no_task fs else fs) (futures r) (map_to_list (stop_waiters r)))
    (stop_results r) (filter (λ kf, orphaned active r kf.1.1 = false) (stop_waiters r)) r.

(** [cleanup] *)
Definition cleanup (cfg : Settings) (active : gset pystr) (now : Z) (w : Registry) : Registry :=
  let w := with_caches (clean_caches cfg active now (caches w)) w in
  let w := with_requests (forget_events active (requests w)) w in
  let w := foldl (λ w k, clear_active_request k.1 k.2 true now w) w (stale_active active (requests w)) in
  with_requests (sweep_waiters active (sweep_results active (requests w))) w.

(** ** Steps *)

Inductive Op : Type :=
| OpRequest (c req : pystr) (ev task : option nat)
| OpEvent (c : pystr)
| OpInbox (who : pystr) (authority : option pystr) (last : Z) (box : ReportMailbox)
| OpBind (k : Key) (o : nat)
| OpSteer (c text : pystr) (u : Steerer)
| OpDrain (o : nat)
| OpDrainReports (o : nat)
| OpReport (k : Key) (sender who text : pystr) (iteration : Z) (call_id : Json)
| OpCloseReports (k : Key) (reason : pystr)
| OpCloseInbox (k : Key)
| OpStop (c : pystr)
| OpFinish (c req text : pystr)
| OpExpire (c req : pystr) (f : nat)
| OpClear (c req : pystr) (resolve_stop_waiter : bool)
| OpTaskDone (t : nat)
| OpShutdown
| OpLock (c : pystr)
| OpHold (l : nat) (v : bool)
| OpSeen (m : Z)
| OpTrack (c entry : pystr)
| OpCleanup (active : gset pystr).

Section steps.
Context `{AgentText}.
Context (cfg : Settings).

(** An agent's report enters the mailbox its endpoint names. *)
Definition deliver_report (k : Key) (sender who text : pystr) (iteration : Z) (call_id : Json) (now : Z) (w : Registry) : Registry :=
  match ep_status (report_endpoint k w), key_get (steer_inboxes (steering w)) k with
  | Ep_open, Some o =>
      with_steering (update_box o (λ b, set_reports (admit_item sender who text iteration call_id now (reports b)).1 b) (steering w)) w
  | _, _ => w
  end.

Definition apply (now : Z) (op : Op) (w : Registry) : Registry :=
  match op with
  | OpRequest c req ev task => set_active_request c req ev task now w
  | OpEvent c => with_requests (cancel_event c (requests w)) w
  | OpInbox who authority last box =>
      with_steering (set_boxes (inboxes (steering w) ++ [new_inbox who authority last box]) (steer_inboxes (steering w)) (steering w)) w
  | OpBind k o => bind_steer_inbox k o now w
  | OpSteer c text u => (admit_steer c text u now w).1
  | OpDrain o => with_steering (update_box o (drain_inbox now) (steering w)) w
  | OpDrainReports o => with_steering (update_box o (drain_box_reports now) (steering w)) w
  | OpReport k sender who text iteration call_id => deliver_report k sender who text iteration call_id now w
  | OpCloseReports k reason => with_steering (close_reports k reason now (steering w)) w
  | OpCloseInbox k => with_steering (close_steer_inbox k now (steering w)) w
  | OpStop c => with_requests (request_stop c (requests w)).1 w
  | OpFinish c req text => with_requests (finish_stop c req text (requests w)) w
  | OpExpire c req f => with_requests (expire_stop_waiter c req f (requests w)) w
  | OpClear c req resolve_stop_waiter => clear_active_request c req resolve_stop_waiter now w
  | OpTaskDone t => with_requests (set_active (active_requests (requests w)) (active_request_tasks (requests w))
                      ({[t]} ∪ done_tasks (requests w)) (requests w)) w
  | OpShutdown => with_steering (shutdown_steering now (steering w)) w
  | OpLock c => with_caches (lock_for c (caches w)).1 w
  | OpHold l v => with_caches (set_lock l v (caches w)) w
  | OpSeen m => with_caches (seen_message cfg m (caches w)).1 w
  | OpTrack c entry => with_caches (track_recent_action cfg c entry now (caches w)) w
  | OpCleanup active => cleanup cfg active now w
  end.

(** A turn can bring no event but one that was made. *)
Definition known_event (op : Op) (r : Requests) : bool :=
  match op with OpRequest _ _ (Some e) _ => (e <? length (events r))%nat | _ => true end.

Definition step (w : Registry) (x : Z * Op) : Registry := if known_event x.2 (requests w) then apply x.1 x.2 w else w.

Definition empty_registry : Registry :=
  {| requests := {| events := []; cancel_events := ∅; cancel_request_ids := ∅; active_requests := ∅; active_request_tasks := ∅;
                    done_tasks := ∅; futures := []; stop_results := ∅; stop_waiters := ∅ |};
     steering := {| inboxes := []; steer_inboxes := []; steering_closed := false; report_closures := [] |};
     caches := {| locks := []; channel_locks := ∅; processed_messages := []; recent_actions := ∅; pending_files := ∅ |} |}.
End steps.

Lemma key_get_elem {V} (d : list (Key * V)) k v : key_get d k = Some v → (k, v) ∈ d.
Proof.
  induction d as [|[k' v'] d IH]; [done|]. simpl. case_bool_decide as Hk; [|right; auto]. intros [= ->]. subst. by left.
Qed.

(** ** What the turns were promised *)

(** The events the turns were given, the stops that were asked for and the settlements
    that were published, newest first; the program keeps none of it. *)
Record Log := { handed : list (Key * nat); asked : list (Key * nat); ended : list (Key * pystr) }.

Definition note (op : Op) (r : Requests) (g : Log) : Log :=
  match op with
  | OpRequest c req ev _ => {| handed := ((c, req), turn_event ev r) :: handed g; asked := asked g; ended := ended g |}
  | OpStop c => match (request_stop c r).2 with
                | Some (req, f) => {| handed := handed g; asked := ((c, req), f) :: asked g; ended := ended g |}
                | None => g
                end
  | OpFinish c req text => {| handed := handed g; asked := asked g; ended := ((c, req), text) :: ended g |}
  | _ => g
  end.

Section stops.
Context `{AgentText}.
Context (cfg : Settings).

Definition logged (s : Registry * Log) (x : Z * Op) : Registry * Log :=
  (step cfg s.1 x, if known_event x.2 (requests s.1) then note x.2 (requests s.1) s.2 else s.2).

Definition start : Registry * Log := (empty_registry, {| handed := []; asked := []; ended := [] |}).

Definition own_event (g : Log) (k : Key) : option nat := key_get (handed g) k.
End stops.

(** The channel's event is the one its turn was given. *)
Definition bound (g : Log) (r : Requests) (c req : pystr) : Prop :=
  cancel_request_ids r !! c = Some req
  ∧ ∃ e, cancel_events r !! c = Some e ∧ (e < length (events r))%nat ∧ own_event g (c, req) = Some e.

Definition settled_by (r : Requests) (f : nat) (res : StopResult) : Prop := futures r !! f = Some (Some res).

(** What holds of the waiters between steps. *)
Record waiters_ok (g : Log) (r : Requests) : Prop := {
  wo_asked : ∀ k f, (k, f) ∈ asked g → (f < length (futures r))%nat;
  wo_one : ∀ k k' f, (k, f) ∈ asked g → (k', f) ∈ asked g → k = k';
  wo_open : ∀ k f, stop_waiters r !! k = Some f → futures r !! f = Some None ∧ (k, f) ∈ asked g;
  wo_alias : ∀ c f, stop_results r !! c = Some f → ∃ req, ((c, req), f) ∈ asked g;
  wo_confirmed : ∀ f res, settled_by r f res → confirmed res = true →
                 ∃ k, (k, f) ∈ asked g ∧ (k, stop_text res) ∈ ended g
}.

(** [cleanup] forgets the events of some turns first, and then the turns, [ks]. *)
Record stops_but (ks : list Key) (g : Log) (r : Requests) : Prop := {
  so_bound : ∀ c req, active_requests r !! c = Some req → (c, req) ∈ ks ∨ bound g r c req;
  so_event : ∀ e, event_set r e = true → ∃ k f, (k, f) ∈ asked g ∧ (k, e) ∈ handed g;
  so_known : ∀ c e, cancel_events r !! c = Some e → (e < length (events r))%nat;
  so_waiters : waiters_ok g r
}.

Notation stops_ok := (stops_but []).

(** *** Events *)

Lemma event_set_alter r r' e e' v :
  events r' = alter (λ _, v) e (events r) →
  event_set r' e' = true → (event_set r e' = true ∧ (e' ≠ e ∨ v = true)) ∨ (v = true ∧ e' = e).
Proof.
  unfold event_set. intros ->. destruct (decide (e = e')) as [<-|Hn].
  - rewrite list_lookup_alter_eq. destruct (events r !! e) as [b|]; cbn; [intros ->; by right | discriminate].
  - rewrite list_lookup_alter_ne by done. intros. left. split; [done | by left].
Qed.

Lemma event_set_new r r' e : events r' = events r ++ [false] → event_set r' e = event_set r e.
Proof.
  unfold event_set. intros ->. rewrite lookup_app. destruct (events r !! e) as [b|] eqn:He; [done|]. simpl.
  by destruct (e - length (events r))%nat as [|[]].
Qed.

Lemma event_set_on r r' e : events r' = alter (λ _, true) e (events r) → (e < length (events r))%nat → event_set r' e = true.
Proof. unfold event_set. intros -> Hl. rewrite list_lookup_alter_eq. by destruct (lookup_lt_is_Some_2 _ _ Hl) as [b ->]. Qed.

Lemma event_set_other r r' e e' v : events r' = alter (λ _, v) e (events r) → e' ≠ e → event_set r' e' = event_set r e'.
Proof. unfold event_set. intros -> Hn. by rewrite list_lookup_alter_ne by done. Qed.

Lemma event_set_eq r r' e : events r' = events r → event_set r' e = event_set r e.
Proof. unfold event_set. by intros ->. Qed.

(** *** Futures *)

Lemma resolve_length f res fs : length (resolve f res fs) = length fs.
Proof. apply length_alter. Qed.

Lemma resolve_inv f res fs f' v : resolve f res fs !! f' = Some v → fs !! f' = Some v ∨ (f' = f ∧ fs !! f = Some None ∧ v = Some res).
Proof.
  unfold resolve. destruct (decide (f = f')) as [<-|Hn].
  - rewrite list_lookup_alter_eq. destruct (fs !! f) as [[x|]|]; simpl; intros; simplify_eq; auto.
  - rewrite list_lookup_alter_ne by done. by left.
Qed.

Lemma resolve_other f res fs f' : f ≠ f' → resolve f res fs !! f' = fs !! f'.
Proof. intros. unfold resolve. by rewrite list_lookup_alter_ne. Qed.

Section sweep.
Context {A : Type} (g : A → bool) (h : A → nat).
Notation sweep := (foldl (λ fs x, if g x then resolve (h x) no_task fs else fs)).

Lemma sweep_length l fs : length (sweep fs l) = length fs.
Proof. revert fs. induction l as [|x l IH]; intros fs; [done|]. simpl. rewrite IH. destruct (g x); [apply resolve_length | done]. Qed.

Lemma sweep_inv l fs f v : sweep fs l !! f = Some v → fs !! f = Some v ∨ v = Some no_task.
Proof.
  revert fs. induction l as [|x l IH]; intros fs Hv; [by left|]. simpl in Hv. apply IH in Hv as [Hv|Hv]; [|by right].
  destruct (g x); [|by left]. apply resolve_inv in Hv as [Hv|(_ & _ & ->)]; auto.
Qed.

Lemma sweep_other l fs f : (∀ x, x ∈ l → g x = true → h x ≠ f) → sweep fs l !! f = fs !! f.
Proof.
  revert fs. induction l as [|x l IH]; intros fs Hl; [done|]. simpl. rewrite IH by set_solver.
  destruct (g x) eqn:Hx; [|done]. apply resolve_other, Hl; [by left | done].
Qed.
End sweep.

(** *** The waiters *)

Lemma waiters_mono g r r' fs' : waiters_ok g r →
  futures r' = fs' → length fs' = length (futures r) →
  (∀ k f, stop_waiters r' !! k = Some f → stop_waiters r !! k = Some f ∧ fs' !! f = Some None) →
  (∀ c f, stop_results r' !! c = Some f → stop_results r !! c = Some f) →
  (∀ f res, fs' !! f = Some (Some res) → confirmed res = true → ∃ k, (k, f) ∈ asked g ∧ (k, stop_text res) ∈ ended g) →
  waiters_ok g r'.
Proof.
  intros [W1 W2 W3 W4 W5] Hf Hlen Hw Hres Hc. split.
  - intros. rewrite Hf, Hlen. eauto.
  - eauto.
  - intros k f Hk. apply Hw in Hk as (Hk & ?). rewrite Hf. split; [done|]. by apply W3.
  - eauto.
  - unfold settled_by. rewrite Hf. eauto.
Qed.

Lemma waiters_same g r r' : waiters_ok g r → futures r' = futures r → stop_waiters r' = stop_waiters r →
  stop_results r' = stop_results r → waiters_ok g r'.
Proof.
  intros W Hf Hw Hr. eapply (waiters_mono g r r' (futures r)); eauto.
  - intros k f. rewrite Hw. intros Hk. split; [done | by apply W in Hk as [? _]].
  - intros ??. by rewrite Hr.
  - apply W.
Qed.

Lemma drop_result_sub c w res c' f : drop_result c w res !! c' = Some f → res !! c' = Some f.
Proof. unfold drop_result. case_bool_decide; [|done]. rewrite lookup_delete_Some. tauto. Qed.

(** Resolving the waiter of a key leaves the other keys' alone. *)
Lemma waiters_resolve g r k res alias :
  waiters_ok g r →
  (∀ c f, alias !! c = Some f → stop_results r !! c = Some f) →
  (∀ f, stop_waiters r !! k = Some f → confirmed res = true → (k, stop_text res) ∈ ended g) →
  waiters_ok g (set_waiters (match stop_waiters r !! k with Some f => resolve f res (futures r) | None => futures r end) alias
                  (delete k (stop_waiters r)) r).
Proof.
  intros W Ha He. eapply (waiters_mono g r); [done|done|..]; simpl.
  - destruct (stop_waiters r !! k); [apply resolve_length | done].
  - intros k' f Hk'. apply lookup_delete_Some in Hk' as [Hn Hk']. split; [done|]. apply W in Hk' as [Hopen Hk'].
    destruct (stop_waiters r !! k) as [f'|] eqn:Hk; [|done]. rewrite resolve_other; [done|]. intros ->.
    apply Hn. apply W in Hk as [_ Hk]. by eapply wo_one.
  - done.
  - intros f x Hx Hcx. destruct (stop_waiters r !! k) as [f'|] eqn:Hk; [|by eapply wo_confirmed].
    apply resolve_inv in Hx as [Hx|(-> & _ & [= <-])]; [by eapply wo_confirmed|].
    exists k. split; [by apply W in Hk as [_ ?] | by eapply He].
Qed.

(** *** The steps *)

Lemma stops_requests ks g r r' : stops_but ks g r → active_requests r' = active_requests r → events r' = events r →
  cancel_events r' = cancel_events r → cancel_request_ids r' = cancel_request_ids r → waiters_ok g r' → stops_but ks g r'.
Proof.
  intros [B E K W] Ha He Hc Hi HW. split; [..|done].
  - intros c req. rewrite Ha. unfold bound. rewrite He, Hc, Hi. apply B.
  - intros e. rewrite (event_set_eq r) by done. apply E.
  - intros c e. rewrite Hc, He. apply K.
Qed.

Lemma waiters_log g g' r : waiters_ok g r → asked g' = asked g → ended g ⊆ ended g' → waiters_ok g' r.
Proof.
  intros [W1 W2 W3 W4 W5] Ha He. split; rewrite ?Ha; [done|done|done|done|].
  intros f res Hf Hc. destruct (W5 f res Hf Hc) as (k & ? & ?). exists k. split; [done | by apply He].
Qed.

Lemma stops_log ks g g' r : stops_but ks g r → asked g' = asked g → handed g' = handed g → ended g ⊆ ended g' → stops_but ks g' r.
Proof.
  intros [B E K W] Ha Hh He. split; [| |done|by eapply waiters_log].
  - intros c req Hc. unfold bound, own_event. rewrite Hh. by apply B.
  - intros e. rewrite Ha, Hh. apply E.
Qed.

Lemma with_event_length ev r : (match ev with Some e => e < length (events r) | None => True end)%nat →
  (turn_event ev r < length (with_event ev (events r)) ∧ length (events r) ≤ length (with_event ev (events r)))%nat.
Proof. unfold turn_event. destruct ev; simpl; rewrite ?length_alter, ?length_app; simpl; lia. Qed.

Lemma own_request_ok g r c req ev task :
  stops_ok g r → known_event (OpRequest c req ev task) r = true → stops_ok (note (OpRequest c req ev task) r g) (own_request c req ev task r).
Proof.
  intros S Hev. destruct (with_event_length ev r) as [Hlt Hle].
  { destruct ev; simpl in Hev; [by apply Nat.ltb_lt | done]. }
  split; simpl.
  - intros c' req'. destruct (decide (c' = c)) as [->|Hn].
    + rewrite lookup_insert_eq. intros [= <-]. right. split; simpl; [by rewrite lookup_insert_eq|].
      exists (turn_event ev r). rewrite lookup_insert_eq. unfold own_event. simpl. by rewrite bool_decide_refl.
    + rewrite lookup_insert_ne by done. intros Ha. destruct (so_bound _ _ _ S _ _ Ha) as [[]%not_elem_of_nil|(Hi & e & He & ? & Ho)].
      right. split; simpl; [by rewrite lookup_insert_ne|]. exists e. rewrite lookup_insert_ne by done.
      repeat split; [done | lia |]. unfold own_event in *. simpl. by rewrite bool_decide_false by congruence.
  - intros e Hs. destruct (so_event _ _ _ S e) as (k & f & ? & ?); [|exists k, f; split; [done | by right]].
    destruct ev as [e0|]; simpl in Hs; [|by rewrite (event_set_new r) in Hs].
    eapply (event_set_alter r _ e0 e false) in Hs as [[? _]|[? _]]; done.
  - intros c' e. rewrite lookup_insert_Some. intros [[<- <-]|[_ He]]; [done|]. apply S in He. lia.
  - pose proof (so_waiters _ _ _ S) as W. apply (waiters_log g); [|done|done]. eapply (waiters_mono g r); [done | done | done | ..]; simpl.
    + intros k f Hk. split; [done|]. by apply W in Hk as [? _].
    + intros c' f Hf. by apply lookup_delete_Some in Hf as [_ ?].
    + apply W.
Qed.

Lemma cancel_event_ok g r c : stops_ok g r → stops_ok g (cancel_event c r).
Proof.
  intros S. unfold cancel_event. destruct (cancel_events r !! c) as [e0|] eqn:Hc; [done|]. split; simpl.
  - intros c' req Ha. destruct (so_bound _ _ _ S _ _ Ha) as [|(Hi & e & He & ? & Ho)]; [by left|]. right. split; [done|].
    exists e. simpl. rewrite lookup_insert_ne by congruence. repeat split; [done | rewrite length_app; lia | done].
  - intros e Hs. rewrite (event_set_new r) in Hs by done. by apply S.
  - intros c' e. rewrite length_app, lookup_insert_Some. intros [[<- <-]|[_ He]]; simpl; [lia|]. apply S in He. lia.
  - apply (waiters_same g r); [apply S | done..].
Qed.

(** A stop of a turn that runs: its own event is set, whatever the channel's maps went
    through, and its waiter is open. *)
Lemma stop_shape g r c req : stops_ok g r → active_requests r !! c = Some req →
  ∃ e f r', own_event g (c, req) = Some e ∧ (e < length (events r))%nat ∧ request_stop c r = (r', Some (req, f))
    ∧ active_requests r' = active_requests r ∧ events r' = alter (λ _, true) e (events r) ∧ cancel_events r' = cancel_events r
    ∧ cancel_request_ids r' = cancel_request_ids r ∧ stop_results r' = <[c := f]> (stop_results r)
    ∧ (stop_waiters r !! (c, req) = Some f ∧ futures r' = futures r ∧ stop_waiters r' = stop_waiters r
       ∨ stop_waiters r !! (c, req) = None ∧ f = length (futures r) ∧ futures r' = futures r ++ [None] ∧ stop_waiters r' = <[(c, req) := f]> (stop_waiters r)).
Proof.
  intros S Ha. destruct (so_bound _ _ _ S _ _ Ha) as [[]%not_elem_of_nil|(Hi & e & He & ? & Ho)].
  unfold request_stop. rewrite Ha, He, bool_decide_true by done.
  destruct (stop_waiters r !! (c, req)) as [f|] eqn:Hw; simpl; eexists e, _, _; repeat split; simpl; auto.
Qed.

(** A key without a waiter gets one; a key with one keeps it. *)
Lemma waiters_ask g r k f alias : waiters_ok g r →
  stop_waiters r !! k = Some f →
  (∀ c f', alias !! c = Some f' → stop_results r !! c = Some f' ∨ (c = k.1 ∧ f' = f)) →
  waiters_ok {| handed := handed g; asked := (k, f) :: asked g; ended := ended g |} (set_waiters (futures r) alias (stop_waiters r) r).
Proof.
  intros W Hk Ha. destruct (wo_open _ _ W _ _ Hk) as [Hf Hk']. destruct W as [W1 W2 W3 W4 W5]. split; simpl.
  - intros k' f' [[= -> ->]|?]%elem_of_cons; eauto.
  - intros k' k'' f' [E'|?]%elem_of_cons [E''|?]%elem_of_cons; simplify_eq; eauto.
  - intros k' f' [? ?]%W3. split; [done | by right].
  - intros c f' [[req ?]%W4|[-> ->]]%Ha; [exists req; by right | exists k.2]. destruct k. by left.
  - intros f' res Hres Hc. destruct (W5 f' res Hres Hc) as (k' & ? & ?). exists k'. split; [by right | done].
Qed.

Lemma waiters_new g r k alias : waiters_ok g r → stop_waiters r !! k = None →
  (∀ c f', alias !! c = Some f' → stop_results r !! c = Some f' ∨ (c = k.1 ∧ f' = length (futures r))) →
  waiters_ok {| handed := handed g; asked := (k, length (futures r)) :: asked g; ended := ended g |}
    (set_waiters (futures r ++ [None]) alias (<[k := length (futures r)]> (stop_waiters r)) r).
Proof.
  intros [W1 W2 W3 W4 W5] Hk Ha. split; simpl.
  - intros k' f' [[= -> ->]|Hk']%elem_of_cons; rewrite length_app; simpl; [lia|]. apply W1 in Hk'. lia.
  - intros k' k'' f' [E'|H']%elem_of_cons [E''|H'']%elem_of_cons; simplify_eq; eauto.
    + apply W1 in H''. lia.
    + apply W1 in H'. lia.
  - intros k' f'. rewrite lookup_insert_Some. intros [[<- <-]|[_ [Hf ?]%W3]].
    + split; [by rewrite lookup_app_r, Nat.sub_diag | by left].
    + split; [|by right]. by apply lookup_app_l_Some.
  - intros c f' [[req ?]%W4|[-> ->]]%Ha; [exists req; by right | exists k.2]. destruct k. by left.
  - intros f' res Hf Hc. unfold settled_by in Hf. simpl in Hf. apply lookup_app_Some in Hf as [Hf|[_ Hf]].
    + destruct (W5 _ _ Hf Hc) as (k' & ? & ?). exists k'. split; [by right | done].
    + by destruct (f' - length (futures r))%nat as [|[]].
Qed.

Lemma alias_insert (m : gmap pystr nat) c f c' f' : <[c := f]> m !! c' = Some f' → m !! c' = Some f' ∨ (c' = c ∧ f' = f).
Proof. rewrite lookup_insert_Some. intros [[<- <-]|[_ ?]]; auto. Qed.

Lemma request_stop_ok g r c : stops_ok g r → stops_ok (note (OpStop c) r g) (request_stop c r).1.
Proof.
  intros S. destruct (active_requests r !! c) as [req|] eqn:Ha; [|by unfold note, request_stop; rewrite Ha].
  destruct (stop_shape g r c req S Ha) as (e & f & r' & Ho & Hlt & Heq & Ha' & He' & Hc' & Hi' & Hr' & Hw').
  unfold note. rewrite Heq. simpl. split.
  - intros c' req'. rewrite Ha'. intros Hb. destruct (so_bound _ _ _ S _ _ Hb) as [|(Hi & e' & ? & ? & ?)]; [by left|]. right.
    split; [by rewrite Hi'|]. exists e'. rewrite Hc', He', length_alter. done.
  - intros e' Hs. apply (event_set_alter r _ e e' true He') in Hs as [[Hs _]|[_ ->]].
    + destruct (so_event _ _ _ S e' Hs) as (k & f' & ? & ?). exists k, f'. split; [by right | done].
    + exists (c, req), f. split; [by left|]. simpl. by apply key_get_elem.
  - intros c' e'. rewrite Hc', He', length_alter. apply S.
  - pose proof (so_waiters _ _ _ S) as W. destruct Hw' as [(Hw & Hf & Hws)|(Hw & -> & Hf & Hws)].
    + apply (waiters_same _ (set_waiters (futures r) (stop_results r') (stop_waiters r) r)); [|by auto..].
      apply waiters_ask; [done|done|]. rewrite Hr'. apply alias_insert.
    + apply (waiters_same _ (set_waiters (futures r ++ [None]) (stop_results r') (<[(c, req) := length (futures r)]> (stop_waiters r)) r));
        [|by auto..]. apply waiters_new; [done|done|]. rewrite Hr'. apply alias_insert.
Qed.

Lemma finish_stop_ok ks g r c req text : stops_but ks g r → stops_but ks (note (OpFinish c req text) r g) (finish_stop c req text r).
Proof.
  intros S. apply (stops_log _ g (note (OpFinish c req text) r g)) in S; [|done|done|simpl; set_solver].
  apply (stops_requests _ _ r); [done..|]. apply (waiters_resolve _ r (c, req)); [apply S | apply drop_result_sub | by left].
Qed.

Lemma expire_ok ks g r c req f : stops_but ks g r → stops_but ks g (expire_stop_waiter c req f r).
Proof.
  intros S. pose proof (so_waiters _ _ _ S) as W. apply (stops_requests _ _ r); [done..|].
  eapply (waiters_mono g r); [done|done|done|..]; simpl.
  - intros k f' Hk. assert (stop_waiters r !! k = Some f') as Hk'; [|split; [done | by apply W in Hk' as [? _]]].
    revert Hk. case_bool_decide; [|done]. by intros [_ ?]%lookup_delete_Some.
  - apply drop_result_sub.
  - apply W.
Qed.

(** A turn that is let go takes its request out of the maps, and clears no event but its
    channel's. *)
Lemma release_ok ks g r c req b : stops_but ((c, req) :: ks) g r → stops_but ks g (release_request c req b r).
Proof.
  intros S. unfold release_request. case_bool_decide as Ha; cycle 1.
  { destruct S as [B E K W]. split; [|done..]. intros c' req' Ha'. destruct (B _ _ Ha') as [[Hk|Hk]%elem_of_cons|Hb]; [|by left|by right].
    congruence. }
  set (r1 := if b then _ else r).
  assert (active_requests r1 = active_requests r ∧ events r1 = events r ∧ cancel_events r1 = cancel_events r
    ∧ cancel_request_ids r1 = cancel_request_ids r ∧ waiters_ok g r1) as (Ra & Re & Rc & Ri & RW).
  { subst r1. destruct b; (do 4 (split; [done|])); [|apply S].
    apply (waiters_resolve _ r (c, req)); [apply S | apply drop_result_sub | done]. }
  clearbody r1. set (r2 := set_active _ _ _ r1).
  assert (stops_but ks g r2) as S2.
  { split.
    - intros c' req'. subst r2. simpl. rewrite lookup_delete_Some, Ra. intros [Hn Ha'].
      destruct (so_bound _ _ _ S _ _ Ha') as [[Hk|Hk]%elem_of_cons|Hb]; [congruence|by left|right].
      unfold bound. simpl. by rewrite Re, Rc, Ri.
    - intros e. rewrite (event_set_eq r) by done. apply S.
    - simpl. rewrite Rc, Re. apply S.
    - by apply (waiters_same g r1). }
  assert (active_requests r2 !! c = None) as Hgone by apply lookup_delete_eq.
  clearbody r2. case_bool_decide; [|done]. destruct S2 as [B E K W]. split; simpl.
  - intros c' req' Ha'. destruct (B _ _ Ha') as [?|(Hi & e & He & Hlt & Ho)]; [by left|]. right. split; simpl.
    + rewrite lookup_delete_ne; [done|]. congruence.
    + exists e. repeat split; [done| |done]. destruct (cancel_events r2 !! c); by rewrite ?length_alter.
  - intros e Hs. apply E. destruct (cancel_events r2 !! c) as [e0|]; [|done].
    by apply (event_set_alter r2 _ e0 e false) in Hs as [[? _]|[? _]].
  - intros c' e He. apply K in He. destruct (cancel_events r2 !! c); by rewrite ?length_alter.
  - by apply (waiters_same g r2).
Qed.

Lemma release_each ks g r : stops_but ks g r → stops_ok g (foldl (λ r k, release_request k.1 k.2 true r) r ks).
Proof. revert r. induction ks as [|[c req] ks IH]; intros r S; [done|]. simpl. apply IH. by apply release_ok. Qed.

(** *** Cleanup *)

Lemma forget_ok active g r : stops_ok g r → stops_but (stale_active active (forget_events active r)) g (forget_events active r).
Proof.
  intros [B E K W]. set (r' := forget_events active r).
  assert (∀ c, stale active r c = true → stale active r' c = true) as Hst.
  { intros c [[Ha Hc]%andb_prop Ht]%andb_prop. unfold stale. rewrite Ha. apply andb_true_iff. split; [|done]. simpl.
    apply negb_true_iff. apply negb_true_iff in Hc. unfold is_cancelled, r' in *. simpl.
    destruct (filter _ _ !! c) as [e|] eqn:He; [|done]. apply map_lookup_filter_Some in He as [He _]. by rewrite He in Hc. }
  split.
  - intros c req Ha. destruct (stale active r c) eqn:Hs.
    + left. unfold stale_active. apply list_elem_of_In, List.filter_In. split; [|by apply Hst].
      by apply list_elem_of_In, elem_of_map_to_list.
    + destruct (B _ _ Ha) as [?%not_elem_of_nil|(Hi & e & He & Hlt & Ho)]; [done|]. right.
      assert (¬ (is_Some (cancel_events r !! c) ∧ stale active r c = true)) as Hg by (intros [_ ?]; congruence).
      split; [by apply map_lookup_filter_Some|]. exists e. repeat split; [by apply map_lookup_filter_Some | done..].
  - apply E.
  - intros c e [He _]%map_lookup_filter_Some. by apply (K c).
  - by apply (waiters_same g r).
Qed.

Lemma sweep_ok active g r : stops_ok g r → stops_ok g (sweep_waiters active (sweep_results active r)).
Proof.
  intros S. pose proof (so_waiters _ _ _ S) as W. apply (stops_requests _ _ r); [done..|].
  eapply (waiters_mono g r); [done|done|..].
  - unfold sweep_waiters, sweep_results. simpl. by rewrite !sweep_length.
  - intros k f [Hk Ho]%map_lookup_filter_Some. split; [done|]. simpl in Hk, Ho. destruct (wo_open _ _ W _ _ Hk) as [Hf Hk'].
    change (orphaned active r k.1 = false) in Ho. unfold sweep_waiters, sweep_results. simpl. rewrite !sweep_other; [done|..].
    + intros [c f'] Hc Hx E. simpl in E; subst f'. apply elem_of_map_to_list in Hc. destruct (wo_alias _ _ W _ _ Hc) as [req Hq].
      pose proof (wo_one _ _ W _ _ _ Hq Hk') as <-. simpl in *. congruence.
    + intros [k' f'] Hc Hx E. simpl in E; subst f'. apply elem_of_map_to_list in Hc. destruct (wo_open _ _ W _ _ Hc) as [_ Hq].
      pose proof (wo_one _ _ W _ _ _ Hq Hk') as <-. simpl in *. unfold orphaned in *. simpl in *. congruence.
  - intros c f [Hc _]%map_lookup_filter_Some. done.
  - intros f res Hf Hc. unfold sweep_waiters, sweep_results in Hf. simpl in Hf.
    apply sweep_inv in Hf as [Hf|[= ->]]; [|done]. apply sweep_inv in Hf as [Hf|[= ->]]; [|done]. by eapply wo_confirmed.
Qed.

Lemma clear_requests ks b now w :
  requests (foldl (λ w k, clear_active_request k.1 k.2 b now w) w ks) = foldl (λ r k, release_request k.1 k.2 b r) (requests w) ks.
Proof. revert w. induction ks as [|k ks IH]; intros w; [done|]. simpl. by rewrite IH. Qed.

Lemma stops_after_cleanup cfg active now g w : stops_ok g (requests w) → stops_ok g (requests (cleanup cfg active now w)).
Proof. intros S. unfold cleanup. simpl. apply sweep_ok. rewrite clear_requests. by apply release_each, forget_ok. Qed.

(** *** Runs *)

Section stop_runs.
Context `{AgentText}.
Context (cfg : Settings).

Lemma logged_ok s x : stops_ok s.2 (requests s.1) → stops_ok (logged cfg s x).2 (requests (logged cfg s x).1).
Proof.
  destruct s as [w g], x as [now op]. simpl. unfold step. simpl. intros S.
  destruct (known_event op (requests w)) eqn:Hev; [|done].
  destruct op; simpl; try done.
  - by apply own_request_ok.
  - by apply cancel_event_ok.
  - unfold bind_steer_inbox. by repeat case_match.
  - unfold admit_steer. by repeat case_match.
  - unfold deliver_report. by repeat case_match.
  - by apply request_stop_ok.
  - by apply finish_stop_ok.
  - by apply expire_ok.
  - apply release_ok. destruct S as [B E K W]. split; [|done..]. intros c' req' ?%B. destruct H0; [by apply elem_of_nil in H0|by right].
  - by apply (stops_requests _ _ (requests w)); [..|apply (waiters_same g (requests w)); [apply S|..]].
  - by apply stops_after_cleanup.
Qed.

Lemma runs_ok xs : stops_ok (run (logged cfg) start xs).2 (requests (run (logged cfg) start xs).1).
Proof.
  apply (run_invariant (logged cfg) (λ s, stops_ok s.2 (requests s.1))); [|intros; by apply logged_ok].
  split; simpl; [done| |done|].
  - intros e. unfold event_set. simpl. done.
  - split; simpl; try done; try set_solver.
Qed.

(** Steps that clear an event say so: only the turn that lets go of it and the turn it is
    handed to do. *)
Lemma release_shape c req b r :
  cancel_events (release_request c req b r) = cancel_events r
  ∧ (events (release_request c req b r) = events r
     ∨ active_requests r !! c = Some req
       ∧ ∃ e, cancel_events r !! c = Some e ∧ events (release_request c req b r) = alter (λ _, false) e (events r)).
Proof.
  unfold release_request. case_bool_decide; [|by auto]. case_bool_decide; [|by destruct b; auto].
  split; [by destruct b|]. destruct (cancel_events r !! c) as [e|] eqn:Hc.
  - right. split; [done|]. exists e. split; [done|]. destruct b; simpl; by rewrite Hc.
  - left. destruct b; simpl; by rewrite Hc.
Qed.

Lemma quiet_release c req b r : is_cancelled r c = false →
  cancel_events (release_request c req b r) = cancel_events r ∧ ∀ e, event_set (release_request c req b r) e = event_set r e.
Proof.
  unfold is_cancelled. intros Hc. destruct (release_shape c req b r) as [Hr [He|(_ & e0 & Hce & He)]]; (split; [done|]); intros e.
  - by apply event_set_eq.
  - destruct (decide (e = e0)) as [->|Hn]; [|by apply (event_set_other _ _ e0 e false)]. rewrite Hce in Hc. rewrite Hc.
    destruct (event_set (release_request c req b r) e0) eqn:Hs; [|done].
    by apply (event_set_alter r _ e0 e0 false) in Hs as [[? [?|?]]|[? _]].
Qed.

Lemma quiet_releases ks r : (∀ k, k ∈ ks → is_cancelled r k.1 = false) →
  ∀ e, event_set (foldl (λ r k, release_request k.1 k.2 true r) r ks) e = event_set r e.
Proof.
  revert r. induction ks as [|k ks IH]; intros r Hk e; [done|]. simpl.
  destruct (quiet_release k.1 k.2 true r) as [Hc He]; [apply Hk; by left|]. rewrite IH; [apply He|].
  intros k' Hk'. unfold is_cancelled. rewrite Hc. destruct (cancel_events r !! k'.1) as [e'|] eqn:He'; [|done].
  rewrite He. specialize (Hk k'). unfold is_cancelled in Hk. rewrite He' in Hk. apply Hk. by right.
Qed.

Lemma cleanup_events active now w e : event_set (requests (cleanup cfg active now w)) e = event_set (requests w) e.
Proof.
  unfold cleanup. simpl. unfold sweep_waiters, sweep_results.
  rewrite (event_set_eq (requests (foldl (λ w k, clear_active_request k.1 k.2 true now w)
    (with_requests (forget_events active (requests w)) (with_caches (clean_caches cfg active now (caches w)) w))
    (stale_active active (forget_events active (requests w)))))) by done.
  rewrite clear_requests, quiet_releases; [done|]. intros k Hk%list_elem_of_In%List.filter_In. destruct Hk as [_ Hs].
  unfold stale in Hs. apply andb_prop in Hs as [Hs _]. apply andb_prop in Hs as [_ Hs]. by apply negb_true_iff in Hs.
Qed.

Lemma release_events g r c req b e : stops_ok g r → event_set r e = true →
  event_set (release_request c req b r) e = true ∨ own_event g (c, req) = Some e.
Proof.
  intros S He. destruct (release_shape c req b r) as [_ [Hr|(Ha & e0 & Hce & Hr)]].
  - left. by rewrite (event_set_eq r).
  - destruct (so_bound _ _ _ S _ _ Ha) as [[]%not_elem_of_nil|(_ & e1 & Hce' & _ & Ho)].
    destruct (decide (e = e0)) as [->|Hn]; [right; congruence|left]. by rewrite (event_set_other r _ e0 e false).
Qed.

Lemma step_events g w x e : stops_ok g (requests w) → event_set (requests w) e = true →
  event_set (requests (step cfg w x)) e = true
  ∨ (∃ c req b, x.2 = OpClear c req b ∧ own_event g (c, req) = Some e) ∨ (∃ c req t, x.2 = OpRequest c req (Some e) t).
Proof.
  intros S He. unfold step. destruct x as [now op]. simpl. destruct (known_event op (requests w)); [|by left].
  destruct op; simpl; try (by left); try (left; unfold bind_steer_inbox, admit_steer, deliver_report; by repeat case_match).
  - destruct ev as [e0|]; [|left; by rewrite (event_set_new (requests w))].
    destruct (decide (e = e0)) as [->|Hn]; [right; right; eauto|left]. by rewrite (event_set_other (requests w) _ e0 e false).
  - left. unfold cancel_event. case_match; [done|]. by rewrite (event_set_new (requests w)).
  - left. destruct (active_requests (requests w) !! c) as [req|] eqn:Ha; [|by unfold request_stop; rewrite Ha].
    destruct (stop_shape g _ c req S Ha) as (e0 & f & r' & _ & Hlt & -> & _ & Hev & _). simpl.
    destruct (decide (e = e0)) as [->|Hn]; [by apply (event_set_on (requests w) _ e0) | by rewrite (event_set_other (requests w) _ e0 e true)].
  - destruct (release_events g _ c req resolve_stop_waiter e S He) as [?|?]; [by left | right; left; eauto].
  - left. change (event_set (requests (cleanup cfg active now w)) e = true). by rewrite cleanup_events.
Qed.

(** C19: a stop reaches the turn it names.  Whatever requests, replacements, resumptions and
    clean-ups came before: (1) a stop of a channel that runs a turn sets the event that
    very turn was given and no other, and hands out a waiter that is still open; (2) an
    event is set only if a turn that was given it was stopped; (3) it stays set until the
    turn lets go of its request or a resumed turn is handed the same event; (4) a waiter is
    told that the stop is confirmed only by the settlement of the request it waits for. *)
Theorem stops_reach_their_turn xs w g : run (logged cfg) start xs = (w, g) →
  (∀ c req, active_requests (requests w) !! c = Some req →
     ∃ e f r', own_event g (c, req) = Some e ∧ request_stop c (requests w) = (r', Some (req, f)) ∧ event_set r' e = true
       ∧ (∀ e', e' ≠ e → event_set r' e' = event_set (requests w) e') ∧ futures r' !! f = Some None)
  ∧ (∀ e, event_set (requests w) e = true → ∃ k f, (k, f) ∈ asked g ∧ (k, e) ∈ handed g)
  ∧ (∀ e x, event_set (requests w) e = true →
       event_set (requests (step cfg w x)) e = true
       ∨ (∃ c req b, x.2 = OpClear c req b ∧ own_event g (c, req) = Some e) ∨ (∃ c req t, x.2 = OpRequest c req (Some e) t))
  ∧ (∀ f res, futures (requests w) !! f = Some (Some res) → confirmed res = true →
       ∃ k, (k, f) ∈ asked g ∧ (k, stop_text res) ∈ ended g).
Proof.
  intros Hrun. pose proof (runs_ok xs) as S. rewrite Hrun in S. simpl in S. split_and!.
  - intros c req Ha. destruct (stop_shape g _ c req S Ha) as (e & f & r' & Ho & Hlt & Hr & _ & Hev & _ & _ & _ & Hw).
    exists e, f, r'. split_and!; [done|done|by apply (event_set_on (requests w))|intros; by apply (event_set_other _ _ e e' true)|].
    destruct Hw as [(Hw & -> & _)|(_ & -> & -> & _)]; [by apply S in Hw as [? _]|]. by rewrite lookup_app_r, Nat.sub_diag.
  - apply S.
  - intros e x. by apply step_events.
  - apply S.
Qed.
End stop_runs.

(** ** Steering *)

(** What a mailbox went through, in its order. *)
Definition happened (kind : Kind) (b : Inbox) : list Z := (λ v, v.1.2) <$> List.filter (λ v, bool_decide (v.1.1 = kind)) (inbox_events b).

Definition well_sent (i : Item) : Prop := strip (i_text i) ≠ [] ∧ (length (i_text i) ≤ STEER_MESSAGE_MAX_CHARS)%nat.

Record inbox_ok (b : Inbox) : Prop := {
  io_numbered : happened Was_queued b
    = seqZ (inbox_sequence b - Z.of_nat (length (happened Was_queued b)) + 1) (Z.of_nat (length (happened Was_queued b)));
  io_settled : happened Was_consumed b ++ happened Was_closed b ++ (i_sequence <$> queue b) = happened Was_queued b;
  io_read : i_sequence <$> directives b = happened Was_consumed b;
  io_last : happened Was_consumed b ≠ [] → last (happened Was_consumed b) = Some (last_consumed_sequence b);
  io_closed : happened Was_closed b ≠ [] → inbox_accepting b = false ∧ queue b = [];
  io_texts : Forall well_sent (directives b ++ queue b);
  io_limit : happened Was_queued b ≠ [] → inbox_sequence b ≤ STEER_MESSAGES_PER_TURN
}.

Lemma happened_more kind b evs b' : inbox_events b' = inbox_events b ++ evs →
  happened kind b' = happened kind b ++ ((λ v, v.1.2) <$> List.filter (λ v, bool_decide (v.1.1 = kind)) evs).
Proof. unfold happened. intros ->. by rewrite List.filter_app, fmap_app. Qed.

Lemma happened_all (kind k : Kind) (now : Z) (q : list Item) :
  ((λ v, v.1.2) <$> List.filter (λ v, bool_decide (v.1.1 = kind)) ((λ i, (k, i_sequence i, now)) <$> q)) = (if decide (k = kind) then i_sequence <$> q else []).
Proof.
  destruct (decide (k = kind)) as [Hk|Hk]; (induction q as [|i q IH]; [done|]; simpl).
  - rewrite bool_decide_true by done. simpl. f_equal. apply IH.
  - rewrite bool_decide_false by done. apply IH.
Qed.

Lemma inbox_new who authority n box : inbox_ok (new_inbox who authority n box).
Proof. split; simpl; done. Qed.

(** What only the reports and the admission see. *)
Lemma inbox_same b b' : inbox_ok b → queue b' = queue b → inbox_sequence b' = inbox_sequence b →
  last_consumed_sequence b' = last_consumed_sequence b → inbox_events b' = inbox_events b → directives b' = directives b →
  (inbox_accepting b = false → inbox_accepting b' = false) → inbox_ok b'.
Proof.
  intros [] Hq Hs Hl He Hd Ha. split; unfold happened in *; rewrite ?He, ?Hq, ?Hs, ?Hl, ?Hd; try done.
  intros Hc. destruct (io_closed0 Hc) as [? ?]. split; [by apply Ha | done].
Qed.

Lemma inbox_enqueue text u now b : inbox_ok b → inbox_accepting b = true → nonempty (strip text) = true →
  (length text ≤ STEER_MESSAGE_MAX_CHARS)%nat → inbox_sequence b < STEER_MESSAGES_PER_TURN → inbox_ok (enqueue text u now b).
Proof.
  intros [N S R L C T B] Ha Hne Hlen Hlt.
  assert (happened Was_closed b = []) as Hc by (destruct (happened Was_closed b); [done|]; destruct C; congruence).
  assert (∀ kind, happened kind (enqueue text u now b) =
    happened kind b ++ (if decide (kind = Was_queued) then [inbox_sequence b + 1] else [])) as Hh.
  { intros kind. erewrite happened_more by reflexivity. by destruct kind. }
  split; rewrite ?Hh; simpl; rewrite ?app_nil_r; try done.
  - rewrite length_app. simpl. rewrite Nat2Z.inj_add, seqZ_app by lia. f_equal; [rewrite N at 1; f_equal; lia|].
    simpl. rewrite seqZ_cons by lia. simpl. f_equal. lia.
  - rewrite fmap_app, !app_assoc, <- (app_assoc (happened Was_consumed b)), S. done.
  - rewrite app_assoc. apply Forall_app. split; [done|]. apply Forall_singleton. split; simpl; [|done]. by destruct (strip text).
  - intros _. lia.
Qed.

Lemma inbox_close_queue now b : inbox_ok b → inbox_ok (close_queue now b).
Proof.
  intros [N S R L C T B].
  assert (∀ kind, happened kind (close_queue now b) =
    happened kind b ++ (if decide (Was_closed = kind) then i_sequence <$> queue b else [])) as Hh.
  { intros kind. erewrite happened_more by reflexivity. by rewrite happened_all. }
  split; rewrite ?Hh; simpl; rewrite ?app_nil_r; try done.
  apply Forall_app in T as [T _]. done.
Qed.

Lemma inbox_drain now b : inbox_ok b → inbox_ok (drain_inbox now b).
Proof.
  intros [N S R L C T B]. unfold drain_inbox. destruct (queue b) as [|i q] eqn:Hq; [by split; rewrite ?Hq|].
  assert (happened Was_closed b = []) as Hc by (destruct (happened Was_closed b); [done|]; by destruct C).
  set (b' := set_inbox _ _ _ _ _ _ _ _).
  assert (∀ kind, happened kind b' = happened kind b ++ (if decide (Was_consumed = kind) then i_sequence <$> (i :: q) else [])) as Hh.
  { intros kind. erewrite happened_more by reflexivity. by rewrite happened_all. }
  pose proof (Hh Was_queued) as Hq'. pose proof (Hh Was_consumed) as Hr'. pose proof (Hh Was_closed) as Hc'.
  rewrite decide_False, app_nil_r in Hq' by done. rewrite decide_False, app_nil_r in Hc' by done. rewrite decide_True in Hr' by done. rewrite Hc in S, Hc'. simpl app in S.
  split; rewrite ?Hq', ?Hr', ?Hc'; try done.
  - rewrite <- app_assoc. unfold b'. simpl. by rewrite app_nil_r.
  - unfold b'. simpl directives. by rewrite fmap_app, R.
  - intros _. rewrite last_app, fmap_last. unfold b'. simpl last_consumed_sequence.
    destruct (last (i :: q)) as [x|] eqn:Hx; [done|]. by apply last_None in Hx.
  - unfold b'. simpl directives. simpl queue. by rewrite app_nil_r.
Qed.

(** *** The mailboxes of the channels *)

(** A mailbox that is bound belongs to the turn its channel runs, and directives wait in
    no other. *)
Record steering_ok (act : gmap pystr pystr) (s : Steering) : Prop := {
  sk_boxes : ∀ o b, inboxes s !! o = Some b → inbox_ok b;
  sk_waiting : ∀ o b, inboxes s !! o = Some b → queue b ≠ [] → ∃ k, (k, o) ∈ steer_inboxes s;
  sk_keys : NoDup (steer_inboxes s).*1;
  sk_owner : ∀ k o, (k, o) ∈ steer_inboxes s → act !! k.1 = Some k.2
}.

Lemma steering_act act act' s : steering_ok act s →
  (∀ k o, (k, o) ∈ steer_inboxes s → act !! k.1 = Some k.2 → act' !! k.1 = Some k.2) → steering_ok act' s.
Proof. intros [B W N O] Ha. split; [done..|]. intros k o Hk. by eapply Ha, O. Qed.

Lemma steering_closures act s s' : steering_ok act s → inboxes s' = inboxes s → steer_inboxes s' = steer_inboxes s → steering_ok act s'.
Proof. intros [B W N O] Hi Hs. split; rewrite ?Hi, ?Hs; done. Qed.

Lemma steering_update act o f s : steering_ok act s →
  (∀ b, inboxes s !! o = Some b → inbox_ok b → inbox_ok (f b)) →
  (∀ b, inboxes s !! o = Some b → queue (f b) ≠ [] → queue b ≠ [] ∨ ∃ k, (k, o) ∈ steer_inboxes s) →
  steering_ok act (update_box o f s).
Proof.
  intros [B W N O] Hf Hq. split; simpl; [| |done|done]; intros o' b'; (destruct (decide (o = o')) as [<-|Hn];
    [rewrite list_lookup_alter_eq; destruct (inboxes s !! o) as [b|] eqn:Hb; simpl; [intros [= <-] | done]
    | rewrite list_lookup_alter_ne by done]).
  - apply Hf; [done | by apply (B o)].
  - apply B.
  - intros Hw. destruct (Hq b eq_refl Hw) as [?|?]; [by apply (W o b) | done].
  - apply W.
Qed.

Lemma steering_reports act o f s : steering_ok act s → steering_ok act (update_box o (λ b, set_reports (f b) b) s).
Proof. intros S. apply steering_update; [done| |by auto]. intros b _ Hb. by apply (inbox_same b). Qed.

Lemma close_box_reports_ok act o k reason now s : steering_ok act s → steering_ok act (close_box_reports o k reason now s).
Proof.
  intros S. unfold close_box_reports. repeat case_match; [|done..].
  eapply steering_closures; [by apply (steering_reports act o (λ b, close_box reason now (reports b)) s) | done..].
Qed.

Lemma close_box_reports_keys o k reason now s :
  steer_inboxes (close_box_reports o k reason now s) = steer_inboxes s
  ∧ steering_closed (close_box_reports o k reason now s) = steering_closed s.
Proof. unfold close_box_reports. by repeat case_match. Qed.

Lemma close_reports_ok act k reason now s : steering_ok act s → steering_ok act (close_reports k reason now s).
Proof. intros S. unfold close_reports. case_match; [by apply close_box_reports_ok | done]. Qed.

Lemma close_reports_keys k reason now s :
  steer_inboxes (close_reports k reason now s) = steer_inboxes s ∧ steering_closed (close_reports k reason now s) = steering_closed s.
Proof. unfold close_reports. case_match; [apply close_box_reports_keys | done]. Qed.

Lemma elem_of_key_del {V} (d : list (Key * V)) k k' v : (k', v) ∈ key_del d k ↔ k' ≠ k ∧ (k', v) ∈ d.
Proof.
  unfold key_del. rewrite list_elem_of_In, List.filter_In, <- list_elem_of_In. simpl.
  rewrite negb_true_iff, bool_decide_eq_false. naive_solver.
Qed.

Lemma key_del_keys {V} (d : list (Key * V)) k : (key_del d k).*1 = List.filter (λ k', negb (bool_decide (k = k'))) d.*1.
Proof. unfold key_del. induction d as [|[k' v] d IH]; [done|]. simpl. destruct (bool_decide (k = k')); simpl; [apply IH | f_equal; apply IH]. Qed.

Lemma key_del_none {V} (d : list (Key * V)) k : key_get d k = None → key_del d k = d.
Proof. unfold key_del. induction d as [|[k' v] d IH]; [done|]. simpl. case_bool_decide; [done|]. simpl. intros. f_equal. by apply IH. Qed.

Lemma key_set_new {V} (d : list (Key * V)) k v : key_get d k = None → key_set d k v = d ++ [(k, v)].
Proof. induction d as [|[k' v'] d IH]; [done|]. simpl. case_bool_decide; [done|]. intros. f_equal. by apply IH. Qed.

Lemma key_get_del {V} (d : list (Key * V)) k : key_get (key_del d k) k = None.
Proof. unfold key_del. induction d as [|[k' v] d IH]; [done|]. simpl. destruct (bool_decide (k = k')) eqn:Hk; simpl; [done|]. by rewrite Hk. Qed.

Lemma key_get_none {V} (d : list (Key * V)) k : key_get d k = None → k ∉ d.*1.
Proof.
  induction d as [|[k' v] d IH]; [intros _; apply not_elem_of_nil|]. simpl. case_bool_decide; [done|].
  intros Hd. apply not_elem_of_cons. split; [done | by apply IH].
Qed.

Lemma key_get_nodup {V} (d : list (Key * V)) k v : NoDup d.*1 → (k, v) ∈ d → key_get d k = Some v.
Proof.
  induction d as [|[k' v'] d IH]; [by intros _ ?%not_elem_of_nil|]. simpl. intros [Hn Hd]%NoDup_cons [E|Hk]%elem_of_cons.
  - injection E as -> ->. by rewrite bool_decide_refl.
  - case_bool_decide as E; [|by apply IH]. subst. destruct Hn. by apply (list_elem_of_fmap_2 fst) in Hk.
Qed.

(** Closing a mailbox takes its key away and leaves nothing in its queue. *)
Lemma close_inbox_keys k now s :
  steer_inboxes (close_steer_inbox k now s) = key_del (steer_inboxes s) k ∧ steering_closed (close_steer_inbox k now s) = steering_closed s.
Proof.
  unfold close_steer_inbox. destruct (key_get (steer_inboxes s) k) as [o|] eqn:Hk; [|by rewrite key_del_none].
  simpl. split; by rewrite ?(proj1 (close_box_reports_keys _ _ _ _ _)), ?(proj2 (close_box_reports_keys _ _ _ _ _)).
Qed.

Lemma close_inbox_ok act k now s : steering_ok act s → steering_ok act (close_steer_inbox k now s).
Proof.
  intros [B W N O]. unfold close_steer_inbox. destruct (key_get (steer_inboxes s) k) as [o|] eqn:Hk; [|done].
  set (s1 := set_boxes (inboxes s) (key_del (steer_inboxes s) k) s).
  set (s2 := close_box_reports o k FINISHED now s1).
  assert (steer_inboxes s2 = key_del (steer_inboxes s) k) as Hkeys by apply close_box_reports_keys.
  assert (∀ o' b, inboxes s2 !! o' = Some b → ∃ b0, inboxes s !! o' = Some b0 ∧ queue b = queue b0 ∧ inbox_ok b) as Hb.
  { intros o' b. unfold s2, close_box_reports. simpl. destruct (inboxes s !! o) as [b1|] eqn:Ho; [|intros; exists b; eauto].
    case_match; [|intros; exists b; eauto]. simpl. destruct (decide (o = o')) as [<-|Hn].
    - rewrite list_lookup_alter_eq, Ho. intros [= <-]. exists b1. split_and!; [done..|]. by apply (inbox_same b1); [apply (B o)|..].
    - rewrite list_lookup_alter_ne by done. intros. exists b. eauto. }
  split; simpl.
  - intros o' b. destruct (decide (o = o')) as [<-|Hn].
    + rewrite list_lookup_alter_eq. destruct (inboxes s2 !! o) as [b1|] eqn:Ho; [|done]. intros [= <-].
      destruct (Hb _ _ Ho) as (? & _ & _ & ?). by apply inbox_close_queue.
    + rewrite list_lookup_alter_ne by done. by intros (? & _ & _ & ?)%Hb.
  - intros o' b. destruct (decide (o = o')) as [<-|Hn].
    + rewrite list_lookup_alter_eq. destruct (inboxes s2 !! o) as [b1|]; [|done]. by intros [= <-].
    + rewrite list_lookup_alter_ne by done. intros (b0 & Hb0 & -> & _)%Hb Hq. destruct (W _ _ Hb0 Hq) as [k' Hk'].
      exists k'. rewrite Hkeys. apply elem_of_key_del. split; [|done]. intros ->.
      rewrite (key_get_nodup _ _ _ N Hk') in Hk. congruence.
  - rewrite Hkeys, key_del_keys. by apply NoDup_ListNoDup, List.NoDup_filter, NoDup_ListNoDup.
  - intros k' o'. rewrite Hkeys. intros [_ ?]%elem_of_key_del. by eapply O.
Qed.

Lemma close_each_ok act reason now ks s : steering_ok act s →
  steering_ok act (foldl (λ s k, close_steer_inbox k now (close_reports k reason now s)) s ks).
Proof. revert s. induction ks as [|k ks IH]; intros s S; [done|]. simpl. by apply IH, close_inbox_ok, close_reports_ok. Qed.

Lemma close_each_keys reason now ks s k o :
  (k, o) ∈ steer_inboxes (foldl (λ s k, close_steer_inbox k now (close_reports k reason now s)) s ks) →
  (k ∉ ks) ∧ (k, o) ∈ steer_inboxes s.
Proof.
  revert s. induction ks as [|k' ks IH]; intros s Hk; [split; [apply not_elem_of_nil | done]|].
  simpl in Hk. apply IH in Hk as [Hn Hk]. rewrite (proj1 (close_inbox_keys _ _ _)), (proj1 (close_reports_keys _ _ _ _)) in Hk.
  apply elem_of_key_del in Hk as [? ?]. split; [by apply not_elem_of_cons | done].
Qed.

Lemma shutdown_empty now s : steer_inboxes (shutdown_steering now s) = [].
Proof.
  destruct (steer_inboxes (shutdown_steering now s)) as [|[k o] d] eqn:Hd; [done|].
  destruct (close_each_keys SHUTDOWN now (steer_inboxes s).*1 (set_closures true (report_closures s) s) k o) as [Hn Hk].
  - unfold shutdown_steering in Hd. rewrite Hd. by left.
  - destruct Hn. by apply (list_elem_of_fmap_2 fst) in Hk.
Qed.

Lemma close_each_closed reason now ks s :
  steering_closed (foldl (λ s k, close_steer_inbox k now (close_reports k reason now s)) s ks) = steering_closed s.
Proof.
  revert s. induction ks as [|k ks IH]; intros s; [done|]. simpl.
  by rewrite IH, (proj2 (close_inbox_keys _ _ _)), (proj2 (close_reports_keys _ _ _ _)).
Qed.

(** The registry: after a shutdown nothing is bound any more. *)
Definition registry_ok (w : Registry) : Prop :=
  steering_ok (active_requests (requests w)) (steering w) ∧ (steering_closed (steering w) = true → steer_inboxes (steering w) = []).

Lemma registry_requests r w : registry_ok w → active_requests r = active_requests (requests w) → registry_ok (with_requests r w).
Proof. unfold registry_ok. simpl. by intros ? ->. Qed.

Lemma registry_caches k w : registry_ok w → registry_ok (with_caches k w).
Proof. done. Qed.

Lemma registry_update o f w : registry_ok w →
  (∀ b, inboxes (steering w) !! o = Some b → inbox_ok b → inbox_ok (f b)) →
  (∀ b, inboxes (steering w) !! o = Some b → queue (f b) ≠ [] → queue b ≠ [] ∨ ∃ k, (k, o) ∈ steer_inboxes (steering w)) →
  registry_ok (with_steering (update_box o f (steering w)) w).
Proof. intros [S C] Hf Hq. split; [by apply steering_update | done]. Qed.

Lemma active_after_request c req ev task now w :
  registry_ok w → registry_ok (set_active_request c req ev task now w).
Proof.
  intros [S C]. unfold set_active_request. split; simpl; cycle 1.
  - case_match; [|done]. rewrite (proj1 (close_inbox_keys _ _ _)), (proj2 (close_inbox_keys _ _ _)),
      (proj1 (close_reports_keys _ _ _ _)), (proj2 (close_reports_keys _ _ _ _)). by intros ->%C.
  - destruct (active_requests (requests w) !! c) as [previous|] eqn:Ha.
    + apply (steering_act (active_requests (requests w))); [by apply close_inbox_ok, close_reports_ok|].
      intros [c' req'] o. rewrite (proj1 (close_inbox_keys _ _ _)), (proj1 (close_reports_keys _ _ _ _)).
      intros [Hk _]%elem_of_key_del. simpl. intros Hr. rewrite lookup_insert_ne; [done|]. intros <-. congruence.
    + apply (steering_act (active_requests (requests w))); [done|]. intros [c' req'] o _. simpl. intros Hr.
      rewrite lookup_insert_ne; [done|]. intros <-. congruence.
Qed.

Lemma release_active c req b r :
  active_requests (release_request c req b r) =
  (if bool_decide (active_requests r !! c = Some req) then delete c (active_requests r) else active_requests r).
Proof. unfold release_request. case_bool_decide; [|done]. case_bool_decide; by destruct b. Qed.

Lemma active_after_clear c req b now w : registry_ok w → registry_ok (clear_active_request c req b now w).
Proof.
  intros [S C]. split; simpl.
  - apply (steering_act (active_requests (requests w))); [by apply close_inbox_ok|].
    intros [c' req'] o. rewrite (proj1 (close_inbox_keys _ _ _)), release_active. intros [Hk _]%elem_of_key_del. simpl. intros Hr.
    case_bool_decide as Ha; [|done]. rewrite lookup_delete_ne; [done|]. intros <-. congruence.
  - rewrite (proj1 (close_inbox_keys _ _ _)), (proj2 (close_inbox_keys _ _ _)). by intros ->%C.
Qed.

Lemma active_after_cleanup cfg active now w : registry_ok w → registry_ok (cleanup cfg active now w).
Proof.
  intros R. unfold cleanup. apply registry_requests; [|done].
  assert (∀ ks w, registry_ok w → registry_ok (foldl (λ w k, clear_active_request k.1 k.2 true now w) w ks)) as Hfold.
  { induction ks as [|k ks IH]; intros w' R'; [done|]. simpl. by apply IH, active_after_clear. }
  apply Hfold. by apply registry_requests.
Qed.

Lemma active_after_stop c r : active_requests (request_stop c r).1 = active_requests r.
Proof. unfold request_stop. repeat case_match; simplify_eq; done. Qed.

Lemma registry_bind k o now w : registry_ok w → registry_ok (bind_steer_inbox k o now w).
Proof.
  intros [S C]. unfold bind_steer_inbox.
  destruct (steering_closed (steering w) || negb (bool_decide (active_requests (requests w) !! k.1 = Some k.2))) eqn:Hr.
  - set (reason := if steering_closed (steering w) then SHUTDOWN else REPLACED). split; [|done].
    apply (steering_closures _ (update_box o (refuse_box reason now) (steering w))); [|done..].
    apply steering_update; [done| |by auto]. intros b _ Hb. by apply (inbox_same b).
  - apply orb_false_iff in Hr as [Hc Ha]. apply negb_false_iff, bool_decide_eq_true in Ha. case_bool_decide; [done|].
    set (s1 := match key_get (steer_inboxes (steering w)) k with Some _ => _ | None => _ end).
    assert (steering_ok (active_requests (requests w)) s1 ∧ key_get (steer_inboxes s1) k = None ∧ steering_closed s1 = false) as (S1 & Hn & Hc1).
    { subst s1. destruct (key_get (steer_inboxes (steering w)) k) as [o'|] eqn:Hk; [|done].
      rewrite (proj1 (close_inbox_keys _ _ _)), (proj2 (close_inbox_keys _ _ _)), (proj2 (close_reports_keys _ _ _ _)).
      split; [by apply close_inbox_ok, close_reports_ok|]. split; [apply key_get_del | done]. }
    clearbody s1. assert (steering_ok (active_requests (requests w)) (update_box o (rebind_reports k) s1)) as S2.
    { apply steering_update; [done| |by auto]. intros b _ Hb. by apply (inbox_same b). }
    destruct S2 as [B W N O]. split; simpl; [|by rewrite Hc1]. rewrite key_set_new by done. split; simpl.
    + apply B.
    + intros o' b Hb Hq. destruct (W o' b Hb Hq) as [k' ?]. exists k'. apply elem_of_app. by left.
    + rewrite fmap_app. apply NoDup_app. split; [done|]. split; [|apply NoDup_singleton].
      intros k' Hk' ->%list_elem_of_singleton. by apply key_get_none in Hn.
    + intros k' o' [?|E%list_elem_of_singleton]%elem_of_app; [by eapply O|]. by injection E as -> ->.
Qed.

(** An admission that succeeds appends to the mailbox of the channel's turn; one that
    fails changes nothing. *)
Lemma admit_shape c text u now w :
  (∃ req o b, active_requests (requests w) !! c = Some req ∧ key_get (steer_inboxes (steering w)) (c, req) = Some o
     ∧ inboxes (steering w) !! o = Some b ∧ inbox_accepting b = true ∧ may_steer u b = true ∧ stopping (requests w) c req = false
     ∧ nonempty (strip text) = true ∧ (length text ≤ STEER_MESSAGE_MAX_CHARS)%nat ∧ inbox_sequence b < STEER_MESSAGES_PER_TURN
     ∧ admit_steer c text u now w = (with_steering (update_box o (enqueue text u now) (steering w)) w, Sent_queued (inbox_sequence b + 1)))
  ∨ ((admit_steer c text u now w).1 = w ∧ ∀ n, (admit_steer c text u now w).2 ≠ Sent_queued n).
Proof.
  unfold admit_steer. destruct (active_requests (requests w) !! c) as [req|] eqn:Ha; [|by right].
  destruct (if nonempty req then _ else _) as [o|] eqn:Hk; [|by right].
  destruct (inboxes (steering w) !! o) as [b|] eqn:Hb; [|by right].
  destruct (inbox_accepting b) eqn:Hacc; simpl; [|by right].
  destruct (may_steer u b) eqn:Hm; simpl; [|by right].
  destruct (stopping (requests w) c req) eqn:Hs; [by right|].
  destruct (nonempty (strip text)) eqn:Hn; simpl; [|by right].
  destruct (STEER_MESSAGE_MAX_CHARS <? length text)%nat eqn:Hl; [by right|].
  destruct (STEER_MESSAGES_PER_TURN <=? inbox_sequence b) eqn:Hq; [by right|].
  left. exists req, o, b. apply Nat.ltb_ge in Hl. apply Z.leb_gt in Hq.
  split_and!; try done. by destruct (nonempty req).
Qed.

Section steering_runs.
Context `{AgentText}.
Context (cfg : Settings).

Lemma registry_step w x : registry_ok w → registry_ok (step cfg w x).
Proof.
  intros R. unfold step. destruct x as [now op]. simpl. destruct (known_event op (requests w)); [|done].
  destruct op; simpl; try done; try (by apply registry_requests); try (by apply registry_caches).
  - by apply active_after_request.
  - apply registry_requests; [done|]. unfold cancel_event. by case_match.
  - destruct R as [[B W N O] C]. split; [|done]. split; simpl; [..|done|done]; intros o b [Hb|[_ Hb]]%lookup_app_Some.
    + by eapply B.
    + destruct (o - _)%nat as [|[]]; [|done..]. injection Hb as <-. apply inbox_new.
    + by eapply W.
    + destruct (o - _)%nat as [|[]]; [|done..]. by injection Hb as <-.
  - by apply registry_bind.
  - destruct (admit_shape c text u now w) as [(req & o & b & _ & Hk & Hb & Hacc & _ & _ & Hn & Hl & Hq & ->)|[-> _]]; [|done].
    apply registry_update; [done|..]; intros b' Hb'; simplify_eq; [intros; by apply inbox_enqueue|].
    intros _. right. exists (c, req). by apply key_get_elem.
  - apply registry_update; [done|intros; by apply inbox_drain|]. intros b _. unfold drain_inbox. destruct (queue b) eqn:Hq; [|done].
    by rewrite Hq.
  - apply registry_update; [done| |by auto]. intros b _ Hb. by apply (inbox_same b).
  - unfold deliver_report. repeat case_match; try done. apply registry_update; [done| |by auto]. intros b _ Hb. by apply (inbox_same b).
  - destruct R as [S C]. split; simpl; [by apply close_reports_ok|].
    by rewrite (proj1 (close_reports_keys _ _ _ _)), (proj2 (close_reports_keys _ _ _ _)).
  - destruct R as [S C]. split; simpl; [by apply close_inbox_ok|].
    rewrite (proj1 (close_inbox_keys _ _ _)), (proj2 (close_inbox_keys _ _ _)). by intros ->%C.
  - apply registry_requests; [done | apply active_after_stop].
  - by apply active_after_clear.
  - destruct R as [S C]. split; simpl; [apply close_each_ok; by apply (steering_closures _ (steering w)) | intros _; apply shutdown_empty].
  - by apply active_after_cleanup.
Qed.

Lemma registry_runs xs : registry_ok (run (step cfg) empty_registry xs).
Proof.
  apply run_invariant; [|intros; by apply registry_step]. split; [|done]. split; simpl; try done.
  - apply NoDup_nil_2.
  - by intros k o ?%not_elem_of_nil.
Qed.

(** C20: every directive that was admitted is settled exactly once, in order.  In every
    mailbox a run reaches, the numbers given out are consecutive; those that were read,
    then those that were closed, then those still waiting are, in this order, all that were
    given out; what the turn holds is what was read; after anything was closed nothing is
    admitted or waits.  Directives wait only for the turn that its channel runs now, and
    after a shutdown for none.  An admission comes from the requester or an administrator
    and under the turn's own authority, while no stop of the turn is under way. *)
Theorem steering_is_settled_once xs w : run (step cfg) empty_registry xs = w →
  (∀ o b, inboxes (steering w) !! o = Some b →
     inbox_ok b
     ∧ (queue b ≠ [] → steering_closed (steering w) = false
        ∧ ∃ c req, key_get (steer_inboxes (steering w)) (c, req) = Some o ∧ active_requests (requests w) !! c = Some req))
  ∧ (∀ c text u now w' n, admit_steer c text u now w = (w', Sent_queued n) →
       ∃ req o b b', active_requests (requests w) !! c = Some req ∧ stopping (requests w) c req = false
         ∧ inboxes (steering w) !! o = Some b ∧ inboxes (steering w') !! o = Some b'
         ∧ queue b' = queue b ++ [{| i_sequence := n; i_text := text; i_user := st_user u |}]
         ∧ (st_admin u = true ∨ st_user u = requester_id b
            ∧ (st_authority u = None ∨ st_authority u = requester_authority b))).
Proof.
  intros <-. destruct (registry_runs xs) as [[B W N O] C]. set (w := run _ _ _) in *. split.
  - intros o b Hb. split; [by apply (B o)|]. intros Hq. destruct (W o b Hb Hq) as [[c req] Hk]. split.
    + destruct (steering_closed (steering w)) eqn:Hc; [|done]. rewrite (C eq_refl) in Hk. by apply not_elem_of_nil in Hk.
    + exists c, req. split; [by apply key_get_nodup | by apply (O (c, req) o)].
  - intros c text u now w' n Hadm.
    destruct (admit_shape c text u now w) as [(req & o & b & Ha & Hk & Hb & Hacc & Hm & Hs & _ & _ & _ & He)|[_ Hn]];
      [|by destruct (Hn n); rewrite Hadm].
    rewrite He in Hadm. injection Hadm as <- <-. exists req, o, b, (enqueue text u now b). simpl.
    rewrite list_lookup_alter_eq, Hb. split_and!; [done..|].
    unfold may_steer in Hm. apply orb_true_iff in Hm as [?|Hm]; [by left|right].
    apply andb_true_iff in Hm as [Hu Hau]. apply bool_decide_eq_true in Hu. split; [done|].
    destruct (st_authority u) as [a|]; [|by left]. right. by apply bool_decide_eq_true in Hau.
Qed.
End steering_runs.

(** ** Caches *)

(** A lock that is held stays the channel's lock: no second handler enters. *)
Lemma held_locks_stay cfg active now k c l :
  channel_locks k !! c = Some l → lock_held k l = true → lock_for c (clean_caches cfg active now k) = (clean_caches cfg active now k, l).
Proof.
  intros Hc Hl. unfold lock_for. assert (channel_locks (clean_caches cfg active now k) !! c = Some l) as ->; [|done].
  apply map_lookup_filter_Some. split; [done | by right].
Qed.

(** A message is handled at most once while it is among the last ones. *)
Lemma seen_messages_are_bounded cfg m k :
  NoDup (processed_messages k) → (length (processed_messages k) ≤ processed_messages_max cfg)%nat →
  NoDup (processed_messages (seen_message cfg m k).1) ∧ (length (processed_messages (seen_message cfg m k).1) ≤ processed_messages_max cfg)%nat.
Proof.
  intros Hn Hl. unfold seen_message. case_bool_decide as Hm; [done|]. cbv zeta. simpl fst. simpl processed_messages. split.
  - apply (sublist_NoDup _ (processed_messages k ++ [m])); [|apply sublist_drop].
    apply NoDup_app. split; [done|]. split; [|apply NoDup_singleton]. by intros x Hx ->%list_elem_of_singleton.
  - rewrite length_drop. lia.
Qed.

(** ** Example runs *)

Module ChannelWitness.
#[local] Existing Instance ReportsWitness.plain_agent_text.

Definition limits : Settings := {| processed_messages_max := 100; recent_actions_max := 10; recent_actions_expiry := 3600000000 |}.
Definition ann : Steerer := {| st_user := lit "ann"; st_admin := false; st_authority := None |}.
Definition general : pystr := lit "general".
Definition first : Key := (general, lit "m1").

(** A turn is steered twice and reads one directive; it is stopped, and a second turn takes
    the channel before the first one settles. *)
Definition replaced : list (Z * Op) :=
  [(1, OpRequest general (lit "m1") None (Some 0%nat)); (1, OpInbox (lit "ann") None 0 (new_mailbox [] (lit "i1"))); (1, OpBind first 0);
   (2, OpSteer general (lit "use the other file") ann); (3, OpDrain 0); (4, OpSteer general (lit "and test it") ann);
   (5, OpStop general); (6, OpRequest general (lit "m2") None (Some 1%nat)); (7, OpFinish general (lit "m1") (lit "Stopped."));
   (8, OpInbox (lit "ann") None 0 (new_mailbox [] (lit "i2"))); (8, OpBind (general, lit "m2") 1);
   (9, OpSteer general (lit "go on") ann)].

Definition after : Registry * Log := Eval vm_compute in run (logged limits) start replaced.

Lemma stops_reach_their_turn_witness :
  (∃ e f r', own_event after.2 (general, lit "m2") = Some e ∧ request_stop general (requests after.1) = (r', Some (lit "m2", f))
     ∧ event_set r' e = true)
  ∧ (∃ k f, (k, f) ∈ asked after.2 ∧ (k, 0%nat) ∈ handed after.2)
  ∧ (∃ k, (k, 0%nat) ∈ asked after.2 ∧ (k, lit "Stopped.") ∈ ended after.2).
Proof.
  destruct (stops_reach_their_turn limits replaced after.1 after.2) as (H1 & H2 & _ & H4); [vm_compute; reflexivity|]. split_and!.
  - destruct (H1 general (lit "m2")) as (e & f & r' & ? & ? & ? & _); [vm_compute; reflexivity|]. exists e, f, r'. auto.
  - apply (H2 0%nat). vm_compute. reflexivity.
  - apply (H4 0%nat {| stop_text := lit "Stopped."; confirmed := true |}); vm_compute; reflexivity.
Defined.

Definition waiting : Registry := Eval vm_compute in run (step limits) empty_registry replaced.

Lemma steering_is_settled_once_witness :
  (∃ b, inboxes (steering waiting) !! 0%nat = Some b ∧ inbox_ok b ∧ happened Was_consumed b = [1] ∧ happened Was_closed b = [2])
  ∧ (∃ c req, key_get (steer_inboxes (steering waiting)) (c, req) = Some 1%nat ∧ active_requests (requests waiting) !! c = Some req)
  ∧ (∃ req o b b', active_requests (requests waiting) !! general = Some req ∧ inboxes (steering waiting) !! o = Some b
       ∧ queue b' = queue b ++ [{| i_sequence := 2; i_text := lit "faster"; i_user := lit "ann" |}]).
Proof.
  destruct (steering_is_settled_once limits replaced waiting) as [H1 H2]; [vm_compute; reflexivity|]. split_and!.
  - destruct (inboxes (steering waiting) !! 0%nat) as [b|] eqn:Hb; [|vm_compute in Hb; discriminate]. exists b.
    split; [done|]. split; [by apply (H1 0%nat)|]. vm_compute in Hb. injection Hb as <-. by split.
  - destruct (inboxes (steering waiting) !! 1%nat) as [b|] eqn:Hb; [|vm_compute in Hb; discriminate].
    apply (H1 1%nat b Hb). vm_compute in Hb. by injection Hb as <-.
  - destruct (H2 general (lit "faster") ann 10 (admit_steer general (lit "faster") ann 10 waiting).1 2) as (req & o & b & b' & ? & _ & ? & _ & ? & _);
      [vm_compute; reflexivity|]. exists req, o, b, b'. auto.
Defined.
End ChannelWitness.
